(* ===== verification/_CoqProject ===== *)
-Q . S2P
Prelude.v
Text.v
Values.v
Domain.v
Narrative.v
Scan.v
Activation.v
ActivationProofs.v
ActivationProps.v
Roles.v
StoryStore.v
StoryLog.v
StoryStoreProps.v
PackStore.v
Store.v
Errors.v
Factory.v
Effects.v
Prompt.v
Script.v
PromptText.v
ExtractKnowledge.v
ExtractProofs.v
Extract.v
Validate.v
ValidationLoop.v
Baseline.v
Recording.v
Plan.v
Think.v
Generate.v
Runtime.v
Turn.v
TurnEvents.v
TurnStore.v
TurnScript.v
AiseIds.v
AiseRule.v
AiseNarrative.v
AiseNarrativeProofs.v
AiseStory.v
AiseTurnData.v
AiseExtraction.v
AiseConfig.v
AiseBudget.v
AiseValidation.v
AiseScan.v
AisePorts.v
AiseActivation.v
AiseActivationProofs.v
AiseCaches.v
AiseCachesProofs.v
AiseCoordination.v
AiseContext.v
AisePlanning.v
AisePreparation.v
AiseValidators.v
AiseValidationPipeline.v
AiseValidationProofs.v
AiseRuntime.v
AiseGateway.v
AisePrompts.v
AiseStages.v
AisePackService.v
AiseSqlite.v
AiseSqliteReads.v
AiseSqliteLog.v
AiseEngine.v
AiseCoordinator.v
AiseContextProofs.v
AiseEngineProofs.v
AiseCommitPlan.v
AiseTurnSample.v
AiseCoordinationProofs.v
AisePlanningProofs.v
AiseStagesProofs.v
AiseStagesSample.v
