(* ===== verification/Prelude.v ===== *)
(** * A verification library for aise

    aise runs interactive stories with a language model.  The repository holds two
    engines: [src/crates/aise-core], and [src/crates/aise], the one the server runs.  In
    both a story is frozen from a pack (roles, facts, rumours, a narrative graph), kept
    in a store and moved forward a turn at a time: knowledge is called up by the text of
    the turn, a plan is made, characters think, a text is generated, what happened in it
    is extracted, checked and repaired, and the turn is committed once.  This library
    models both engines as functions of the kernel and proves what makes each part, and
    the whole turn, correct.  The files whose names start with [Aise] are about the crate
    [aise] (paths under [src/crates/aise/src/]); [Prelude] and [Text] are shared; the
    others are about [aise-core] (paths under [src/crates/aise-core/src/]).

    ** The crate aise-core

    - The base: [Prelude] (fallible computations as [result], machine integers,
      comparison functions and their laws, maps in key order); [Text] (UTF-8, trimming,
      searching); [Values] (the validated newtypes of [core/ids.rs],
      [core/bounded_text.rs], [core/knowledge/hint.rs], [core/activation/rule.rs]);
      [Domain] (the records and enums of [core/]); [Errors].
    - Narrative: [Narrative] is [core/narrative/]: three-valued conditions, graph
      validation, the plan and the resolution of a turn.
    - Activation: [Scan] and [Activation] are [core/activation/]: which entries of a
      story's knowledge the text of a turn calls up; [ActivationProofs] and
      [ActivationProps] prove what it guarantees.
    - Roles: [Roles] is [core/role/role.rs]: the limits on roles, the counting writer, and
      the hand-written codec of a seed role.
    - Stores: [StoryStore] and [PackStore] are the in-memory stores of [persistence/],
      [Store] the two together, [StoryLog] the specification of the story store as a log
      of commits, [StoryStoreProps] its refinement.  [Factory] is [engine/factory.rs].
    - The world: [Effects] gives the monad [IO W E A], functions of the state of a world
      [W], with the model's gateway ([llm/]), and the classes of what the program reads
      and calls; [Prompt] is the catalog of prompts ([prompt/]); [PromptText] what the
      stages write into prompts ([pipeline/common/]); [Script] a concrete world.
    - The stages ([pipeline/]): [Baseline], [Plan], [Think], [Generate], [Validate] (with
      the repair stage and the operations on [f64]), [ValidationLoop], [ExtractKnowledge],
      [ExtractProofs], [Extract], and [Recording] (retrieval, summary and commit).
    - The turn: [Runtime] is [pipeline/runtime/runtime.rs] and [run_turn] of
      [engine/engine.rs]; [Turn] proves what its stages give each other, [TurnEvents] what
      they leave alone and announce, [TurnStore] what a turn does to the story store;
      [TurnScript] runs one.

    ** The crate aise

    - Values and data: [AiseIds] ([domain/ids.rs], [domain/asset/ids.rs], validated
      values); [AiseRule] (activation rules and their versions); [AiseStory] (stories,
      knowledge, roles, snapshots); [AiseTurnData] (what a turn carries between its
      stages); [AiseExtraction] and [AiseExtractionProofs] (extracted state and its
      enrichment into operations); [AiseConfig] ([config/]); [AisePorts] (what is asked
      of the store).
    - Narrative: [AiseNarrative] and [AiseNarrativeProofs] are [domain/narrative_graph/].
    - Activation: [AiseScan] (fragments, patterns, the compiled index), [AiseActivation]
      (the session, [domain/knowledge/activation/engine.rs]), [AiseCaches] (the caches of
      [context/activation/]) and [AiseCoordination] (the coordinator that drives a session
      over the store), each with its [Proofs] file.
    - The turn: [AiseBudget] (the contract, the errors and the token budget of a turn,
      [turn/]); [AiseContext] ([turn/turn_context.rs], the state of a turn and each
      operation on it); [AiseContextProofs] (what it holds in each phase).
    - The stages: [AisePreparation] ([context/]: the baseline before the planner and the
      retrieval); [AisePlanning] ([planning/]: the planner's prompt, its answer, the plan);
      [AiseGateway] ([llm/]: rate gates, permits, deadlines, reservations, settlement);
      [AisePrompts] (the prompts of the other stages); [AiseValidation],
      [AiseValidators], [AiseValidationPipeline] ([validation/]); [AiseStages] (each stage
      as the runtime runs it, and how the server, [src/crates/aise-server/src/app.rs],
      wires them).  Their proofs are [AisePlanningProofs], [AiseValidationProofs] and
      [AiseStagesProofs].
    - The runtime and the engine: [AiseRuntime] ([runtime/]: the stages in order, the
      commit), [AiseEngine] ([engine/service.rs]: from a request to its terminal event),
      [AiseEngineProofs]; [AiseCoordinator] ([runtime/story_turn_coordinator.rs]: one turn
      at a time for a story, as interleavings of tasks).
    - The store: [AiseSqlite] (the tables with their constraints, creation and commit),
      [AiseSqliteReads] (the snapshot, knowledge, activation and history readers),
      [AiseSqliteLog] (the store as a log of turns), [AiseHistory] (the history in pages),
      [AiseStoredTurn] (the engine over this store), [AiseCommitPlan] and
      [AiseCommitProofs] (a validated turn commits).
    - Examples: [AiseTurnSample] runs and commits a turn with stages given by hand;
      [AiseStagesSample] runs one over the wired stages with a scripted model.

    ** How the code is modelled

    A [Result] is [result]; [?] is [let?]; an early return is [fail_if].  In aise-core an
    [async] function that calls the model or a store is an [IO] function and [.await?] is
    [let*]; in aise a stage is a function of the state of its turn and of a world, and
    what other tasks do between two of its awaits is part of the world.  The coordinator
    is a transition system of the blocks that run without a suspension; the store is
    given as transactions, with other clients between any two of them.  A [BTreeMap] or
    [HashMap] is a [gmap], read in key order by [entries]; strings are byte strings, with
    [valid_utf8] where characters matter; [u64], [usize] and [u32] are [N] with saturation
    or wrap-around written out; [f64] and [f32] are [spec_float].  A panic is [Stop_Panic]
    or [None], and is proved not to occur.

    Code outside the repository is a parameter: serde_json ([ToJson], [JsonDisplay],
    [JsonText], [TurnJson] and the parsers of answers), minijinja ([Minijinja]), the file
    system ([Files]), SHA-256 ([Sha256], [Sha256Bytes]), regular expressions
    ([RegexEngine], [RegexFind]), the Unicode tables ([Unicode]), the model's provider,
    the clocks, timers and semaphores ([World], [TurnWorld], [LlmWorld]), and the failures
    of a database.  The laws asked of them are classes of their own ([UnicodeLaws],
    [JsonDisplayLaws], [LawfulClock]), each with an instance.  Components meet at classes
    too: the stages of aise-core reach the stores through [StoreAccess], [StoryStoreOps]
    and [PackStoreOps] with their laws, which the in-memory stores are proved to meet;
    the engine of aise reaches its store through [EngineWorld], for which
    [AiseStoredTurn] gives the SQLite store, and the runtime reaches its stages through
    [TurnExecutionPipeline], for which [AiseStages] gives the stages of the server.

    ** What the theorems show

    Of aise-core:
    - Stores: the story store returns what an append-only log of commits would
      ([store_refines_log]); committing is idempotent, a loaded context has its shape, a
      reachable store is well formed; creation is atomic, and under any interleaving of
      creations and removals every story has its pack.
    - Knowledge changes are accepted exactly when good, and applied exactly.
    - Activation: every activated entry is justified by its rule and by text that was
      scanned, the outcome is within its budgets, groups are exclusive and constants
      complete; the engine ends ([activate_session] is total).
    - Narrative: partial evaluation is sound, a validated graph can always be planned, the
      queries of a plan suffice, and resolution moves nodes only along transitions whose
      conditions hold.
    - Stages: what each accepts from the model and what it promises to the next.  The
      validation loop returns a proposal that passed, or the best of those that did;
      extraction yields a change the store accepts; texts are cut at the longest prefix
      that fits.
    - The turn: it ends, without a panic ([run_turn_ends]); a plan the stage accepts never
      makes a later stage miss data ([plan_feeds_stages]); what a turn hands to the store
      is accepted unless role limits are exceeded ([run_turn_commits]); a turn that fails
      changes no story ([engine_turn_atomic]); its events are its stages.

    Of aise:
    - The state of a turn holds in each phase exactly what the phase promises
      ([context_typed]), and versions of a candidate only advance.
    - The engine: a request that was committed is never run again ([engine_idempotent],
      and over the SQLite store [stored_turn_once]); every turn ends with one terminal
      event that tells its outcome ([engine_closes]); a turn that runs to its end commits
      the text alone, since the lines that extract and validate are commented out
      ([run_commits_story_alone], [story_alone_commits]).
    - The stages over the model: whatever becomes of a turn, no reservation stays open and
      the tokens counted are those of the calls recorded ([wired_turn_balanced]); a turn
      that ends had a plan that asks only for what was offered, for the roles that think
      ([wired_turn_planned]); a contribution of more than 4096 bytes is accepted and then
      never runs ([long_contribution_never_runs]); the baseline loses no role and hints
      at nothing twice ([baseline_complete]); the generator's prompt fits and leaves out
      only examples ([generator_prompt_fits]); a rate gate keeps its limit in every
      minute and lets every call go in time ([gate_keeps_rate], [gate_ends]).
    - Validation: a change set without issues fits its snapshot, and its construction
      fails only for listed reasons; a validated turn commits ([validated_turn_commits]).
    - Activation: the session keeps every budget and entitles every entry
      ([drive_keeps_promises]), ends ([drive_ends]), and neither cache shows in its
      results ([fragment_cache_refines], [match_fragments_exact]).
    - The store refines a log of turns ([sqlite_refines_log]), and its history is read in
      pages without loss ([history_complete]).
    - The coordinator counts right, and two turns hold one story only when its entry was
      reclaimed in between ([coordinator_counts], [coordinator_exclusive]).

    ** Fuel and bounds

    In aise-core: [Activation.run] has one round more than the recursion steps the
    configuration allows ([run_fuel]), enough by [run_spec] under [config_ok];
    [ValidationLoop.validate_rounds] one more than the repair budget, enough by
    [validate_rounds_err]; [Generate.search_boundary] one more than the boundaries it
    searches, enough by [search_boundary_spec].  In aise: [drive_loop] has the rounds of
    [drive_fuel], enough by [drive_ends]; [gate_loop] a round for each nanosecond to the
    deadline ([gate_fuel]), enough by [gate_ends]; [resolve_rounds] one for each candidate
    ([resolve_rounds_spec]); the evictions of the caches one for each entry
    ([fr_enforce_partition], [fr_enforce_global], [pr_evict]); [read_history] one for each
    turn, enough by [history_complete]; [validate_macro_go] and [replace_go] one for each
    byte ([validate_macro_fuel]).  [config_ok] and [turn_config_ok] ask that byte budgets
    are below [usize::MAX], so that saturating sums compare as sums.

    ** What is not modelled

    Traces, spans and observations, which no result depends on; the HTTP providers
    ([llm/openai_compat.rs] of both crates); the SQLite stores of aise-core, which delegate
    to the in-memory ones.  Of aise: the catalog of prompts ([prompt/], without the views
    written into prompts), whose successor in aise-core is modelled; the JSON schemas of
    the answers; reading packs and character cards from files ([story/pack_service.rs],
    [story/character_card_service.rs]) and building the rows of a new story
    ([story/instance_factory.rs]); the preview of an activation; the counters kept for
    spans; a poisoned lock; a call of the coordinator that is dropped while it waits.  Of
    the crates [aise-service] and [aise-server], HTTP services over an engine, only the
    wiring of the stages. *)

From stdpp Require Export base tactics numbers list gmap strings pretty sorting.
From Stdlib Require Export NArith ZArith Lia.
From Stdlib Require Import ZifyN.

(** ** Fallible computations: Rust's [Result] *)

Inductive result (E A : Type) : Type :=
| Ok (value : A)
| Err (error : E).
Arguments Ok {E A} value.
Arguments Err {E A} error.

Declare Scope res_scope.
Delimit Scope res_scope with res.
#[global] Open Scope res_scope.

(** The [?] operator: continue with the value, or return the error. *)
Notation "'let?' x ':=' e 'in' k" :=
  (match e with Ok x => k | Err err => Err err end)
  (at level 10, x binder, e at level 200, k at level 200) : res_scope.

(** An early [return Err(e)] guarded by a condition. *)
Notation "'fail_if' c 'with' e 'in' k" :=
  (if c then Err e else k)
  (at level 10, c at level 200, e at level 200, k at level 200) : res_scope.

#[global] Instance result_eq_dec `{EqDecision E, EqDecision A} : EqDecision (result E A).
Proof. solve_decision. Defined.

Definition is_ok {E A} (r : result E A) : bool :=
  match r with Ok _ => true | Err _ => false end.

Definition map_err {E F A} (f : E → F) (r : result E A) : result F A :=
  match r with Ok a => Ok a | Err e => Err (f e) end.

Definition ok_or {E A} (o : option A) (e : E) : result E A :=
  match o with Some a => Ok a | None => Err e end.

Section loops.
Context {E A B S : Type}.

(** [iter().map(f).collect::<Result<Vec<_>, _>>()]: stops at the first error. *)
Definition traverse (f : A → result E B) : list A → result E (list B) :=
  fix go l :=
    match l with
    | [] => Ok []
    | x :: l' =>
        let? y := f x in
        let? ys := go l' in
        Ok (y :: ys)
    end.

(** A [for] loop over a list whose body updates a state and may return an error. *)
Definition try_fold (f : S → A → result E S) : S → list A → result E S :=
  fix go s l :=
    match l with
    | [] => Ok s
    | x :: l' => let? s' := f s x in go s' l'
    end.
End loops.

(** [iter().try_for_each(f)]. *)
Definition try_for_each {E A} (f : A → result E unit) (l : list A) : result E unit :=
  try_fold (λ _ x, f x) tt l.

(** The update of one field of a record: [set_field eta f] is the function that
    maps the field [f] of a record and copies the others, [eta] being the record
    rebuilt from its fields. *)
Ltac set_field eta f :=
  intros g r;
  let e := eval cbv beta delta [eta] in (eta r) in
  match eval pattern (f r) in e with
  | ?h _ => let b := eval cbv beta in (h (g (f r))) in exact b
  end.

(** Linear arithmetic with division and modulo by constants. *)
Ltac div_lia := zify; Z.to_euclidean_division_equations; lia.

(** Case analysis on every result a hypothesis or the goal matches on. *)
Ltac res_step :=
  match goal with
  | H : (match ?e with Ok _ => _ | Err _ => _ end) = _ |- _ => destruct e eqn:?; try discriminate H
  | H : (if ?c then Err _ else _) = Ok _ |- _ => destruct c eqn:?; try discriminate H
  | H : Ok _ = Ok _ |- _ => injection H as H
  | H : Err _ = Err _ |- _ => injection H as H
  | H : Ok _ = Err _ |- _ => discriminate H
  | H : Err _ = Ok _ |- _ => discriminate H
  end.
Ltac res_inv := repeat (res_step; simplify_eq/=).

Lemma map_err_ok {E F A} (f : E → F) (r : result E A) a : map_err f r = Ok a → r = Ok a.
Proof. destruct r; by intros [= ->]. Qed.
Lemma ok_or_ok {E A} (o : option A) (e : E) a : ok_or o e = Ok a → o = Some a.
Proof. destruct o; by intros [= ->]. Qed.
(** Reads the results that were converted and the options that were required. *)
Ltac read_results :=
  repeat match goal with
  | H : map_err _ _ = Ok _ |- _ => apply map_err_ok in H
  | H : ok_or _ _ = Ok _ |- _ => apply ok_or_ok in H
  end.

Section traverse.
Context {E A B : Type}.
Implicit Types (f : A → result E B) (l : list A).

Lemma traverse_ok_Forall2 f l ys :
  traverse f l = Ok ys ↔ Forall2 (λ x y, f x = Ok y) l ys.
Proof.
  revert ys. induction l as [|x l IH]; intros ys; simpl.
  - split; [intros [= <-]; constructor|]. inversion 1; done.
  - split.
    + intros H. res_inv. constructor; [done|]. by apply IH.
    + inversion 1 as [|? y ? ys' Hx Hl]; subst. rewrite Hx.
      apply IH in Hl. by rewrite Hl.
Qed.

Lemma traverse_length f l ys : traverse f l = Ok ys → length ys = length l.
Proof. intros H%traverse_ok_Forall2. symmetry. by eapply Forall2_length. Qed.

Lemma traverse_total f l :
  (∀ x, x ∈ l → ∃ y, f x = Ok y) → ∃ ys, traverse f l = Ok ys.
Proof.
  induction l as [|x l IH]; intros H; simpl; [eauto|].
  destruct (H x) as [y ->]; [set_solver|].
  destruct IH as [ys ->]; [set_solver|]. eauto.
Qed.

Lemma traverse_err f l e :
  traverse f l = Err e → ∃ x, x ∈ l ∧ f x = Err e.
Proof.
  induction l as [|x l IH]; intros H; simpl in *; res_inv.
  - destruct IH as (z & ? & ?); [done|]. exists z. set_solver.
  - exists x. set_solver.
Qed.
End traverse.

Lemma try_for_each_ok {E A} (f : A → result E unit) l :
  try_for_each f l = Ok tt ↔ ∀ x, x ∈ l → f x = Ok tt.
Proof.
  unfold try_for_each. induction l as [|x l IH]; simpl.
  - split; [|done]. intros _ y Hy. by apply not_elem_of_nil in Hy.
  - split.
    + intros H. res_inv. destruct value. intros y [->|Hy]%elem_of_cons; [done|].
      by apply IH.
    + intros H. rewrite (H x) by set_solver. apply IH. set_solver.
Qed.

(** Invariants of a loop that may return early. *)
Lemma try_fold_inv {E A S} (P : S → Prop) (f : S → A → result E S) l s s' :
  P s → (∀ s x s1, x ∈ l → P s → f s x = Ok s1 → P s1) →
  try_fold f s l = Ok s' → P s'.
Proof.
  revert s. induction l as [|x l IH]; intros s Hs Hf H; simpl in *; res_inv; [done|].
  eapply IH; [..|done]; [|set_solver]. eapply Hf; [|done..]. set_solver.
Qed.

Lemma foldl_inv {A B} (P : B → Prop) (f : B → A → B) b l :
  P b → (∀ b x, x ∈ l → P b → P (f b x)) → P (foldl f b l).
Proof.
  revert b. induction l as [|x l IH]; intros b Hb Hf; simpl; [done|].
  apply IH; [|set_solver]. apply Hf; [set_solver|done].
Qed.

Lemma elem_of_concat {A} (x : A) (ls : list (list A)) :
  x ∈ concat ls ↔ ∃ l, x ∈ l ∧ l ∈ ls.
Proof.
  induction ls as [|l ls IH]; simpl.
  - split; [by intros ?%not_elem_of_nil|]. by intros (? & _ & ?%not_elem_of_nil).
  - rewrite elem_of_app, IH. set_solver.
Qed.

Lemma try_fold_app {E A S} (f : S → A → result E S) l1 l2 s :
  try_fold f s (l1 ++ l2) = let? s1 := try_fold f s l1 in try_fold f s1 l2.
Proof. revert s. induction l1 as [|x l1 IH]; intros s; simpl; [done|]. by destruct (f s x). Qed.

(** ** Machine integers

    Unsigned integers are [N], signed ones [Z]; a length is an [N] through
    [nlen].  The widths below are those of a 64-bit target. *)

Definition U16_MAX : N := 65535.
Definition U32_MAX : N := 4294967295.
Definition U64_MAX : N := 18446744073709551615.
Definition USIZE_MAX : N := U64_MAX.

(** [uN::try_from(x).unwrap_or(uN::MAX)]. *)
Definition clamp (max x : N) : N := if (x <=? max)%N then x else max.
Definition sat_add (max x y : N) : N := clamp max (x + y).
(** Subtraction on [N] saturates at zero, as [saturating_sub] does. *)
Definition sat_sub (x y : N) : N := (x - y)%N.

Definition nlen {A} (l : list A) : N := N.of_nat (length l).
Definition slen (s : string) : N := N.of_nat (String.length s).

Lemma clamp_le max x : (clamp max x <= max)%N.
Proof. unfold clamp. case_match eqn:H; [by apply N.leb_le in H|lia]. Qed.
Lemma clamp_small max x : (x <= max)%N → clamp max x = x.
Proof. intros. unfold clamp. by rewrite (proj2 (N.leb_le _ _)). Qed.
Lemma clamp_le_arg max x : (clamp max x <= x)%N.
Proof. unfold clamp. case_match eqn:H; [lia|]. apply N.leb_gt in H. lia. Qed.

(** ** Orderings: [Ord] as a three-way comparison *)

Class OrdLaws {A} (cmp : A → A → comparison) : Prop := {
  cmp_eq x y : cmp x y = Eq ↔ x = y;
  cmp_antisym x y : cmp x y = CompOpp (cmp y x);
  cmp_trans x y z : cmp x y = Lt → cmp y z = Lt → cmp x z = Lt;
}.

(** [a.cmp(b).then_with(|| ...)] *)
Definition then_with (c d : comparison) : comparison :=
  match c with Eq => d | _ => c end.

Definition not_gt (c : comparison) : bool := match c with Gt => false | _ => true end.
Definition is_lt (c : comparison) : bool := match c with Lt => true | _ => false end.

#[global] Instance N_ord_laws : OrdLaws N.compare.
Proof.
  split; [apply N.compare_eq_iff|intros; apply N.compare_antisym|].
  intros x y z. rewrite !N.compare_lt_iff. lia.
Qed.
#[global] Instance Z_ord_laws : OrdLaws Z.compare.
Proof.
  split; [apply Z.compare_eq_iff|intros; apply Z.compare_antisym|].
  intros x y z. rewrite !Z.compare_lt_iff. lia.
Qed.

#[global] Instance string_ord_laws : OrdLaws String.compare.
Proof.
  split.
  - intros x y. split; [apply String.compare_eq_iff|intros ->].
    pose proof (String.compare_antisym y y) as H. by destruct (String.compare y y).
  - apply String.compare_antisym.
  - intros x y z Hxy Hyz.
    assert (x ≤ z)%string as Hle.
    { transitivity y; unfold String.le, String.leb; by rewrite ?Hxy, ?Hyz. }
    unfold String.le, String.leb in Hle.
    destruct (String.compare x z) eqn:Hxz; [|done|done].
    apply String.compare_eq_iff in Hxz as ->.
    rewrite String.compare_antisym, Hxy in Hyz. done.
Qed.

Section ord.
Context {A : Type} (cmp : A → A → comparison) `{!OrdLaws cmp}.

Lemma cmp_refl x : cmp x x = Eq.
Proof. by apply cmp_eq. Qed.
Lemma cmp_gt_lt x y : cmp x y = Gt ↔ cmp y x = Lt.
Proof. rewrite (cmp_antisym x y). by destruct (cmp y x). Qed.
Lemma cmp_le_trans x y z : cmp x y ≠ Gt → cmp y z ≠ Gt → cmp x z ≠ Gt.
Proof.
  intros Hxy Hyz. destruct (cmp x y) eqn:E1; [|clear Hxy|done].
  - by apply cmp_eq in E1 as ->.
  - destruct (cmp y z) eqn:E2; [|clear Hyz|done].
    + apply cmp_eq in E2 as <-. by rewrite E1.
    + by rewrite (cmp_trans x y z).
Qed.
End ord.

(** The lexicographic order of a pair. *)
Definition prod_compare {A B} (ca : A → A → comparison) (cb : B → B → comparison) (x y : A * B) :
    comparison := then_with (ca x.1 y.1) (cb x.2 y.2).

Definition bool_compare (x y : bool) : comparison :=
  match x, y with false, true => Lt | true, false => Gt | _, _ => Eq end.

#[global] Instance bool_ord_laws : OrdLaws bool_compare.
Proof. split; [|intros [] []; done|intros [] [] []; done]. by intros [] []. Qed.

#[global] Instance prod_ord_laws {A B} (ca : A → A → comparison) (cb : B → B → comparison)
  `{!OrdLaws ca, !OrdLaws cb} : OrdLaws (prod_compare ca cb).
Proof.
  unfold prod_compare. split.
  - intros [a b] [a' b']; simpl. pose proof (cmp_eq (cmp:=ca) a a'). pose proof (cmp_eq (cmp:=cb) b b').
    destruct (ca a a'); simpl; naive_solver.
  - intros [a b] [a' b']; simpl. rewrite (cmp_antisym (cmp:=ca) a a'), (cmp_antisym (cmp:=cb) b b').
    by destruct (ca a' a).
  - intros [a b] [a' b'] [a2 b2]; simpl. intros H1 H2.
    destruct (ca a a') eqn:E1; [|clear H1|done].
    + apply cmp_eq in E1 as ->. destruct (ca a' a2) eqn:E2; simpl in *; [|done..].
      by apply (cmp_trans (cmp:=cb) _ b').
    + destruct (ca a' a2) eqn:E2; [|clear H2|done].
      * apply cmp_eq in E2 as <-. by rewrite E1.
      * by rewrite (cmp_trans (cmp:=ca) _ a').
Qed.

(** The order pulled back along an injection. *)
Lemma inj_ord_laws {A B} (f : A → B) `{!Inj (=) (=) f} (cb : B → B → comparison) `{!OrdLaws cb} :
  OrdLaws (λ x y, cb (f x) (f y)).
Proof.
  split; [|intros; apply cmp_antisym|intros x y z; apply cmp_trans].
  intros x y. rewrite cmp_eq. split; [apply inj, _|by intros ->].
Qed.

(** [Iterator::max]: the last of the greatest elements; [Iterator::min]: the
    first of the least. *)
Definition max_by {A} (cmp : A → A → comparison) (l : list A) : option A :=
  match l with
  | [] => None
  | x :: l' => Some (foldl (λ m y, if is_lt (cmp y m) then m else y) x l')
  end.
Definition min_by {A} (cmp : A → A → comparison) (l : list A) : option A :=
  match l with
  | [] => None
  | x :: l' => Some (foldl (λ m y, if is_lt (cmp y m) then y else m) x l')
  end.

Lemma max_by_spec {A} (cmp : A → A → comparison) `{!OrdLaws cmp} l m :
  max_by cmp l = Some m → m ∈ l ∧ ∀ x, x ∈ l → cmp x m ≠ Gt.
Proof.
  destruct l as [|x l]; [done|]. simpl. intros [= <-].
  assert (∀ a, a ∈ x :: l → True) as _ by done. revert x.
  induction l as [|y l IH]; intros x; simpl.
  - split; [set_solver|]. intros z ->%list_elem_of_singleton. by rewrite cmp_refl.
  - destruct (is_lt (cmp y x)) eqn:Hyx.
    + destruct (IH x) as [Hin Hmax]. split; [set_solver|].
      intros z [->|[->|Hz]%elem_of_cons]%elem_of_cons; [apply Hmax; set_solver| |apply Hmax; set_solver].
      apply (cmp_le_trans cmp _ x); [by destruct (cmp y x)|]. apply Hmax. set_solver.
    + destruct (IH y) as [Hin Hmax]. split; [set_solver|].
      intros z [->|Hz]%elem_of_cons; [|by apply Hmax].
      apply (cmp_le_trans cmp _ y); [|apply Hmax; set_solver].
      rewrite (cmp_antisym (cmp:=cmp) x y). by destruct (cmp y x).
Qed.

(** Induction over a left fold that remembers the elements already read. *)
Lemma foldl_prefix_ind {A B} (P : list A → B → Prop) (f : B → A → B) b l :
  P [] b →
  (∀ pre x suf b, l = pre ++ x :: suf → P pre b → P (pre ++ [x]) (f b x)) →
  P l (foldl f b l).
Proof.
  intros Hb Hf. assert (∀ pre suf b, l = pre ++ suf → P pre b → P l (foldl f b suf)) as H.
  { intros pre suf. revert pre. induction suf as [|x suf IH]; intros pre b' Hl Hp; simpl.
    - by rewrite Hl, app_nil_r.
    - apply (IH (pre ++ [x])); [by rewrite <-app_assoc|]. by eapply Hf. }
  by apply (H [] l).
Qed.

(** The same for a loop that may return early. *)
Lemma try_fold_prefix_ind {E A S} (P : list A → S → Prop) (f : S → A → result E S) l s s' :
  P [] s →
  (∀ pre x suf s s1, l = pre ++ x :: suf → P pre s → f s x = Ok s1 → P (pre ++ [x]) s1) →
  try_fold f s l = Ok s' → P l s'.
Proof.
  intros Hs Hf.
  assert (∀ pre suf s, l = pre ++ suf → P pre s → try_fold f s suf = Ok s' → P l s') as H.
  { intros pre suf. revert pre. induction suf as [|x suf IH]; intros pre s0 Hl Hp; simpl.
    - intros [= <-]. by rewrite Hl, app_nil_r.
    - destruct (f s0 x) as [s1|] eqn:Hx; [|done]. apply (IH (pre ++ [x])); [by rewrite <-app_assoc|].
      by eapply Hf. }
  by apply (H [] l).
Qed.

(** ** Stable sorting

    [slice::sort_by] is a stable sort; the result of a stable sort is unique,
    so insertion from the right computes it. *)

Section sort_by.
Context {A : Type} (cmp : A → A → comparison).

Fixpoint insert_by (x : A) (l : list A) : list A :=
  match l with
  | [] => [x]
  | y :: l' => if not_gt (cmp x y) then x :: l else y :: insert_by x l'
  end.

Definition sort_by (l : list A) : list A := foldr insert_by [] l.

Definition le_by (x y : A) : Prop := cmp x y ≠ Gt.

Lemma insert_by_perm x l : insert_by x l ≡ₚ x :: l.
Proof.
  induction l as [|y l IH]; simpl; [done|]. case_match; [done|].
  rewrite IH. constructor.
Qed.

Lemma sort_by_perm l : sort_by l ≡ₚ l.
Proof. induction l as [|x l IH]; simpl; [done|]. by rewrite insert_by_perm, IH. Qed.

Lemma elem_of_sort_by x l : x ∈ sort_by l ↔ x ∈ l.
Proof. by rewrite sort_by_perm. Qed.

Lemma length_sort_by l : length (sort_by l) = length l.
Proof. by rewrite sort_by_perm. Qed.

Lemma sort_by_StronglySorted l :
  (∀ x y, cmp x y = CompOpp (cmp y x)) →
  (∀ x y z, le_by x y → le_by y z → le_by x z) →
  StronglySorted le_by (sort_by l).
Proof.
  intros Hanti Htrans. induction l as [|x l IH]; simpl; [constructor|].
  induction IH as [|y l' Hl IH Hall]; simpl; [repeat constructor|].
  destruct (not_gt (cmp x y)) eqn:Hxy.
  - assert (le_by x y) as Hle by (unfold le_by; by destruct (cmp x y)).
    constructor; [by constructor|]. constructor; [done|].
    eapply Forall_impl; [done|]. intros z. simpl. by eauto.
  - constructor; [done|]. rewrite insert_by_perm. constructor; [|done].
    unfold le_by. rewrite Hanti. by destruct (cmp x y).
Qed.
End sort_by.

Lemma sort_by_sorted {A} (cmp : A → A → comparison) `{!OrdLaws cmp} l : StronglySorted (le_by cmp) (sort_by cmp l).
Proof. apply sort_by_StronglySorted; [apply (cmp_antisym (cmp:=cmp))|apply (cmp_le_trans cmp)]. Qed.

Lemma StronglySorted_lt_unique {A} (cmp : A → A → comparison) `{!OrdLaws cmp} l1 l2 :
  StronglySorted (le_by cmp) l1 → StronglySorted (le_by cmp) l2 → l1 ≡ₚ l2 → l1 = l2.
Proof.
  intros. apply (StronglySorted_unique_strong (le_by cmp)); [|done..].
  intros x y _ _ Hxy Hyx. unfold le_by in *. apply (cmp_eq (cmp:=cmp)).
  rewrite (cmp_antisym y x) in Hyx. by destruct (cmp x y).
Qed.

(** ** [BTreeMap]s: finite maps iterated in key order *)

(** The order in which a [BTreeMap] with these keys iterates. *)
Class KeyOrd (K : Type) := key_compare : K → K → comparison.
#[global] Instance string_key_ord : KeyOrd string := String.compare.
#[global] Instance pair_key_ord {A B} `{KeyOrd A, KeyOrd B} : KeyOrd (A * B) := prod_compare key_compare key_compare.
#[global] Instance Z_key_ord : KeyOrd Z := Z.compare.
#[global] Instance pair_key_ord_laws {A B} `{KeyOrd A, KeyOrd B} `{!OrdLaws (A:=A) key_compare, !OrdLaws (A:=B) key_compare} :
  OrdLaws (A:=A * B) key_compare.
Proof. apply prod_ord_laws; assumption. Qed.
#[global] Instance Z_key_ord_laws : OrdLaws (A:=Z) key_compare.
Proof. apply Z_ord_laws. Qed.

Definition entries `{Countable K, KeyOrd K} {V} (m : gmap K V) : list (K * V) :=
  sort_by (λ x y, key_compare x.1 y.1) (map_to_list m).
Definition keys `{Countable K, KeyOrd K} {V} (m : gmap K V) : list K := (entries m).*1.
Definition values `{Countable K, KeyOrd K} {V} (m : gmap K V) : list V := (entries m).*2.
(** [map.len()]. *)
Definition map_len `{Countable K} {V} (m : gmap K V) : N := N.of_nat (size m).
(** A [BTreeSet] iterates its elements in order. *)
Definition set_entries `{Countable K, KeyOrd K} (s : gset K) : list K :=
  sort_by key_compare (elements s).

Section entries.
Context `{Countable K, KeyOrd K} {V : Type}.
Implicit Types (m : gmap K V).

Lemma elem_of_entries m k v : (k, v) ∈ entries m ↔ m !! k = Some v.
Proof. unfold entries. by rewrite elem_of_sort_by, elem_of_map_to_list. Qed.

Lemma NoDup_keys m : NoDup (keys m).
Proof. unfold keys, entries. rewrite sort_by_perm. apply NoDup_fst_map_to_list. Qed.

Lemma NoDup_entries m : NoDup (entries m).
Proof. unfold entries. rewrite sort_by_perm. apply NoDup_map_to_list. Qed.

Lemma elem_of_keys m k : k ∈ keys m ↔ is_Some (m !! k).
Proof.
  unfold keys. rewrite list_elem_of_fmap. split.
  - intros ([k' v] & -> & Hin%elem_of_entries). eauto.
  - intros [v Hv]. exists (k, v). split; [done|]. by apply elem_of_entries.
Qed.

Lemma elem_of_values m v : v ∈ values m ↔ ∃ k, m !! k = Some v.
Proof.
  unfold values. rewrite list_elem_of_fmap. split.
  - intros ([k v'] & -> & Hin%elem_of_entries). eauto.
  - intros [k Hk]. exists (k, v). split; [done|]. by apply elem_of_entries.
Qed.

Lemma length_entries m : length (entries m) = size m.
Proof. unfold entries. rewrite length_sort_by. apply length_map_to_list. Qed.

Lemma entries_empty : entries (∅ : gmap K V) = [].
Proof. unfold entries. by rewrite map_to_list_empty. Qed.
End entries.

(** The iteration order is determined by the keys. *)
Section entries_order.
Context `{Countable K, KeyOrd K} `{!OrdLaws (A:=K) key_compare}.

Definition by_key {V} : K * V → K * V → Prop := le_by (λ x y, key_compare x.1 y.1).

Lemma entries_sorted {V} (m : gmap K V) : StronglySorted by_key (entries m).
Proof.
  unfold by_key, entries. apply sort_by_StronglySorted; [intros; apply cmp_antisym|].
  intros x y z. apply (cmp_le_trans (A:=K) key_compare x.1 y.1 z.1).
Qed.

Lemma entries_unique {V} (m : gmap K V) l :
  StronglySorted by_key l → NoDup l → (∀ k v, (k, v) ∈ l ↔ m !! k = Some v) → entries m = l.
Proof.
  intros Hl Hnd Hin. apply (StronglySorted_unique_strong by_key); [|apply entries_sorted|done|].
  - intros [k v] [k' v'] Hx Hy Hxy Hyx. unfold by_key, le_by in *. simpl in *.
    assert (k = k') as ->.
    { apply (cmp_eq (cmp:=key_compare)). rewrite (cmp_antisym (cmp:=key_compare) k' k) in Hyx.
      by destruct (key_compare k k'). }
    apply elem_of_entries in Hx. apply Hin in Hy. congruence.
  - apply NoDup_Permutation; [apply NoDup_entries|done|].
    intros [k v]. by rewrite elem_of_entries, Hin.
Qed.

(** Building a map from each entry, keys kept. *)
Lemma entries_map_imap {V W} (f : K → V → W) (m : gmap K V) :
  entries (map_imap (λ k v, Some (f k v)) m) = (λ kv, (kv.1, f kv.1 kv.2)) <$> entries m.
Proof.
  apply entries_unique.
  - pose proof (entries_sorted m) as Hs. induction Hs as [|[k v] l Hl IH Hall]; simpl; constructor; [done|].
    apply Forall_fmap. eapply Forall_impl; [done|]. by intros [? ?].
  - apply (NoDup_fmap_1 fst). rewrite <-list_fmap_compose. apply NoDup_keys.
  - intros k w. rewrite list_elem_of_fmap, map_lookup_imap. split.
    + intros ([k' v] & [= -> ->] & Hin%elem_of_entries). by rewrite Hin.
    + destruct (m !! k) as [v|] eqn:Hv; [|done]. simpl. intros [= <-].
      exists (k, v). split; [done|]. by apply elem_of_entries.
Qed.
End entries_order.

#[global] Instance string_key_ord_laws : OrdLaws (A:=string) key_compare := string_ord_laws.

Lemma elem_of_set_entries `{Countable K, KeyOrd K} (s : gset K) k :
  k ∈ set_entries s ↔ k ∈ s.
Proof. unfold set_entries. by rewrite elem_of_sort_by, elem_of_elements. Qed.

Create HintDb dev.
#[export] Hint Resolve clamp_le clamp_le_arg : dev.
Create Rewrite HintDb dev.
#[export] Hint Rewrite @elem_of_entries @elem_of_keys @elem_of_values @elem_of_set_entries
  @elem_of_sort_by : dev.

(** ** Sums over maps *)

Definition map_sum `{Countable K} {V} (f : V → N) (m : gmap K V) : N := map_fold (λ _ v n, f v + n)%N 0%N m.

Section map_sum.
Context `{Countable K} {V : Type} (f : V → N).
Implicit Types m : gmap K V.

Lemma map_sum_empty : map_sum f (∅ : gmap K V) = 0%N.
Proof. apply map_fold_empty. Qed.
Lemma map_sum_insert m k v : m !! k = None → map_sum f (<[k:=v]> m) = (f v + map_sum f m)%N.
Proof. intros Hk. unfold map_sum. rewrite map_fold_insert_L; [done| |done]. intros; lia. Qed.
Lemma map_sum_delete m k v : m !! k = Some v → map_sum f m = (f v + map_sum f (delete k m))%N.
Proof. intros Hk. rewrite <-(insert_delete_id m k v Hk) at 1. by rewrite map_sum_insert by apply lookup_delete_eq. Qed.
Lemma map_sum_replace m k v w :
  m !! k = Some v → (map_sum f (<[k:=w]> m) + f v = map_sum f m + f w)%N.
Proof.
  intros Hk. rewrite (map_sum_delete m k v Hk), <-insert_delete_eq, map_sum_insert by apply lookup_delete_eq. lia.
Qed.
End map_sum.

Lemma map_sum_ext `{Countable K} {V} (f g : V → N) (m : gmap K V) :
  (∀ k v, m !! k = Some v → f v = g v) → map_sum f m = map_sum g m.
Proof.
  induction m as [|k v m Hk IH] using map_ind; intros Hfg; [by rewrite !map_sum_empty|].
  rewrite !map_sum_insert by done. rewrite (Hfg k v) by apply lookup_insert_eq. f_equal. apply IH.
  intros k' v' Hk'. apply (Hfg k'). rewrite lookup_insert_ne; [done|]. congruence.
Qed.

Lemma map_sum_fmap `{Countable K} {V W} (g : V → W) (f : W → N) (m : gmap K V) :
  map_sum f (g <$> m) = map_sum (λ v, f (g v)) m.
Proof.
  induction m as [|k v m Hk IH] using map_ind; [by rewrite fmap_empty, !map_sum_empty|].
  rewrite fmap_insert, !map_sum_insert by (done || by rewrite lookup_fmap, Hk). by rewrite IH.
Qed.

(** ** Lists filtered by a boolean *)
Lemma elem_of_list_filter_bool {A} (p : A → bool) l x : x ∈ List.filter p l ↔ x ∈ l ∧ p x = true.
Proof. rewrite !list_elem_of_In. apply filter_In. Qed.
Lemma NoDup_list_filter {A} (p : A → bool) l : NoDup l → NoDup (List.filter p l).
Proof.
  induction 1 as [|x l Hx Hl IH]; simpl; [constructor|]. destruct (p x); [|done].
  constructor; [|done]. rewrite elem_of_list_filter_bool. naive_solver.
Qed.
Lemma NoDup_fmap_list_filter {A B} (f : A → B) (p : A → bool) l : NoDup (f <$> l) → NoDup (f <$> List.filter p l).
Proof.
  induction l as [|x l IH]; simpl; [done|]. intros [Hx Hl]%NoDup_cons.
  destruct (p x); [|by apply IH]. rewrite fmap_cons, NoDup_cons. split; [|by apply IH]. contradict Hx.
  apply list_elem_of_fmap in Hx as (y & -> & Hy). apply list_elem_of_fmap_2. apply elem_of_list_filter_bool in Hy as [Hy _]. done.
Qed.
Lemma length_list_filter {A} (p : A → bool) l : length (List.filter p l) ≤ length l.
Proof. induction l as [|x l IH]; simpl; [done|]. destruct (p x); simpl; lia. Qed.
Lemma list_filter_full {A} (p : A → bool) l :
  length (List.filter p l) = length l → ∀ x, x ∈ l → p x = true.
Proof.
  induction l as [|y l IH]; simpl; [set_solver|]. pose proof (length_list_filter p l).
  destruct (p y) eqn:Hy; simpl; [|lia]. intros Hl x [->|Hx]%elem_of_cons; [done|]. apply IH; [lia|done].
Qed.
Lemma sublist_list_filter {A} (p : A → bool) l : List.filter p l `sublist_of` l.
Proof. induction l as [|x l IH]; simpl; [done|]. destruct (p x); [by apply sublist_skip|by apply sublist_cons]. Qed.

(** ** Sorted lists and lists with positions *)
Lemma imap_shift {A B} (f : nat → A → B) k x l :
  imap (λ j, f (k + j)) (x :: l) = f k x :: imap (λ j, f (S k + j)) l.
Proof.
  rewrite imap_cons, Nat.add_0_r. f_equal. apply imap_ext. intros i y _. simpl. f_equal. lia.
Qed.
Lemma sorted_NoDup {A} (R : A → A → Prop) l : (∀ x, ¬ R x x) → StronglySorted R l → NoDup l.
Proof.
  intros Hirr. induction 1 as [|x l Hl IH Hx]; constructor; [|done]. intros Hin.
  eapply Forall_forall in Hx; [|exact Hin]. by apply Hirr in Hx.
Qed.
Lemma sorted_impl {A} (R S : A → A → Prop) l : (∀ x y, R x y → S x y) → StronglySorted R l → StronglySorted S l.
Proof. intros Hi. induction 1 as [|x l Hl IH Hx]; constructor; [done|]. eapply Forall_impl; [exact Hx|]. auto. Qed.
Lemma StronglySorted_list_filter {A} (R : A → A → Prop) (p : A → bool) l :
  StronglySorted R l → StronglySorted R (List.filter p l).
Proof.
  induction 1 as [|x l Hl IH Hx]; simpl; [constructor|]. destruct (p x); [|done]. constructor; [done|].
  apply Forall_forall. intros y [Hy _]%elem_of_list_filter_bool. by eapply Forall_forall in Hx.
Qed.
Lemma entries_filter `{Countable K, KeyOrd K} `{!OrdLaws (A:=K) key_compare} {V} (P : K * V → Prop)
    `{∀ e, Decision (P e)} (p : K * V → bool) (m : gmap K V) :
  (∀ e, p e = true ↔ P e) → entries (filter P m) = List.filter p (entries m).
Proof.
  intros Hp. apply entries_unique.
  - apply StronglySorted_list_filter, entries_sorted.
  - apply NoDup_list_filter, NoDup_entries.
  - intros k v. by rewrite elem_of_list_filter_bool, elem_of_entries, Hp, map_lookup_filter_Some.
Qed.
