(* ===== verification/Text.v ===== *)
(** * Text: the parts of Rust's [str] the program uses

    A [String] is the sequence of its UTF-8 bytes (a Rocq [string], whose
    [ascii] characters are bytes), so that [len], [Ord], [==] and [format!]
    are the byte-level operations they are in Rust.  [chars] decodes it into
    code points, [encode] is the inverse direction; [trim] works on code
    points.  The case-mapping and alphanumeric tables of the Unicode Character
    Database are the [Unicode] class. *)
From S2P Require Import Prelude.

(** ** UTF-8 *)

Definition byte_of (n : N) : Ascii.ascii := Ascii.ascii_of_N n.
Definition byte_val (a : Ascii.ascii) : N := Ascii.N_of_ascii a.

Definition encode_char (c : N) : string :=
  (if c <? 128 then String (byte_of c) ""
   else if c <? 2048 then
     String (byte_of (192 + c / 64)) (String (byte_of (128 + c mod 64)) "")
   else if c <? 65536 then
     String (byte_of (224 + c / 4096))
       (String (byte_of (128 + (c / 64) mod 64)) (String (byte_of (128 + c mod 64)) ""))
   else
     String (byte_of (240 + c / 262144))
       (String (byte_of (128 + (c / 4096) mod 64))
          (String (byte_of (128 + (c / 64) mod 64)) (String (byte_of (128 + c mod 64)) ""))))%N.

Fixpoint encode (cs : list N) : string :=
  match cs with
  | [] => ""
  | c :: cs' => encode_char c +:+ encode cs'
  end.

Definition cont (a : Ascii.ascii) : N := (byte_val a - 128)%N.

(** [str::chars].  The lead byte gives the width of the sequence; a sequence
    cut short, which no [str] has, is dropped. *)
Fixpoint chars (s : string) : list N :=
  match s with
  | "" => []
  | String a s1 =>
      let x := byte_val a in
      if (x <? 128)%N then x :: chars s1
      else match s1 with
      | "" => []
      | String b s2 =>
          if (x <? 224)%N then ((x - 192) * 64 + cont b)%N :: chars s2
          else match s2 with
          | "" => []
          | String c s3 =>
              if (x <? 240)%N then ((x - 224) * 4096 + cont b * 64 + cont c)%N :: chars s3
              else match s3 with
              | "" => []
              | String d s4 =>
                  ((x - 240) * 262144 + cont b * 4096 + cont c * 64 + cont d)%N :: chars s4
              end
          end
      end
  end.

Definition is_scalar (c : N) : Prop := (c < 1114112)%N.

(** What every [str] satisfies. *)
Definition valid_utf8 (s : string) : Prop := ∃ cs, Forall is_scalar cs ∧ s = encode cs.

Lemma byte_val_of n : (n < 256)%N → byte_val (byte_of n) = n.
Proof. apply Ascii.N_ascii_embedding. Qed.

Lemma chars_encode_char c s :
  is_scalar c → chars (encode_char c +:+ s) = c :: chars s.
Proof.
  unfold is_scalar, encode_char. intros Hc.
  destruct (N.ltb_spec c 128) as [H1|H1].
  { simpl. rewrite byte_val_of by div_lia. by rewrite (proj2 (N.ltb_lt _ _)). }
  destruct (N.ltb_spec c 2048) as [H2|H2].
  { simpl. unfold cont. rewrite !byte_val_of by div_lia.
    rewrite (proj2 (N.ltb_ge _ _)), (proj2 (N.ltb_lt _ _)) by div_lia. f_equal. div_lia. }
  destruct (N.ltb_spec c 65536) as [H3|H3].
  { simpl. unfold cont. rewrite !byte_val_of by div_lia.
    rewrite !(proj2 (N.ltb_ge _ _)), (proj2 (N.ltb_lt _ _)) by div_lia. f_equal. div_lia. }
  simpl. unfold cont. rewrite !byte_val_of by div_lia.
  rewrite !(proj2 (N.ltb_ge _ _)) by div_lia. f_equal. div_lia.
Qed.

Lemma chars_encode cs : Forall is_scalar cs → chars (encode cs) = cs.
Proof.
  induction 1 as [|c cs Hc _ IH]; simpl; [done|]. by rewrite chars_encode_char, IH.
Qed.

Lemma encode_chars s : valid_utf8 s → encode (chars s) = s.
Proof. intros (cs & Hcs & ->). by rewrite chars_encode. Qed.

Lemma chars_scalar s : valid_utf8 s → Forall is_scalar (chars s).
Proof. intros (cs & Hcs & ->). by rewrite chars_encode. Qed.

(** A check of validity that evaluates. *)
Definition valid_utf8b (s : string) : bool :=
  String.eqb (encode (chars s)) s && forallb (λ c, c <? 1114112)%N (chars s).

Lemma valid_utf8b_true s : valid_utf8b s = true → valid_utf8 s.
Proof.
  unfold valid_utf8b. intros [Hs Hc]%andb_prop. apply String.eqb_eq in Hs.
  exists (chars s). split; [|done]. apply Forall_forall. intros c Hin.
  apply list_elem_of_In in Hin. by apply N.ltb_lt, (proj1 (forallb_forall _ _) Hc).
Qed.

Lemma string_app_assoc s1 s2 s3 : (s1 +:+ s2) +:+ s3 = s1 +:+ (s2 +:+ s3).
Proof. induction s1 as [|a s1 IH]; simpl; [done|]. unfold String.app in *. simpl. by f_equal. Qed.

Lemma string_app_nil_r s : s +:+ "" = s.
Proof. induction s as [|a s IH]; [done|]. unfold String.app in *. simpl. by f_equal. Qed.

Lemma encode_app cs ds : encode (cs ++ ds) = encode cs +:+ encode ds.
Proof. induction cs as [|c cs IH]; simpl; [done|]. by rewrite IH, string_app_assoc. Qed.

Lemma slen_app s1 s2 : slen (s1 +:+ s2) = (slen s1 + slen s2)%N.
Proof.
  unfold slen, String.app. induction s1 as [|a s1 IH]; simpl; [done|]. lia.
Qed.

Lemma valid_utf8_app s1 s2 : valid_utf8 s1 → valid_utf8 s2 → valid_utf8 (s1 +:+ s2).
Proof.
  intros (cs & Hcs & ->) (ds & Hds & ->). exists (cs ++ ds).
  rewrite encode_app. split; [|done]. by apply Forall_app.
Qed.

(** ** Characters *)

(** [char::is_whitespace]: the [White_Space] property. *)
Definition is_whitespace (c : N) : bool :=
  ((9 <=? c) && (c <=? 13) || (c =? 32) || (c =? 133) || (c =? 160) || (c =? 5760)
   || (8192 <=? c) && (c <=? 8202) || (c =? 8232) || (c =? 8233) || (c =? 8239)
   || (c =? 8287) || (c =? 12288))%N.

Definition is_ascii_lowercase (c : N) : bool := ((97 <=? c) && (c <=? 122))%N.
Definition is_ascii_digit (c : N) : bool := ((48 <=? c) && (c <=? 57))%N.

(** [char::to_lowercase] and [char::is_alphanumeric] read the tables of the
    Unicode Character Database; on ASCII they are the documented functions. *)
Class Unicode := {
  to_lowercase : N → list N;
  is_alphanumeric : N → bool;
}.

Definition ascii_lower (c : N) : N := if ((65 <=? c) && (c <=? 90))%N then (c + 32)%N else c.
Definition ascii_alnum (c : N) : bool :=
  (is_ascii_digit c || is_ascii_lowercase c || (65 <=? c) && (c <=? 90))%N.

Class UnicodeLaws `{Unicode} : Prop := {
  to_lowercase_ascii c : (c < 128)%N → to_lowercase c = [ascii_lower c];
  is_alphanumeric_ascii c : (c < 128)%N → is_alphanumeric c = ascii_alnum c;
}.

(** The tables restricted to ASCII, for evaluation on concrete inputs. *)
Definition ascii_unicode : Unicode :=
  {| to_lowercase c := [ascii_lower c]; is_alphanumeric c := ascii_alnum c |}.

Lemma ascii_unicode_laws : @UnicodeLaws ascii_unicode.
Proof. by split. Qed.

(** ** Trimming *)

Fixpoint drop_while {A} (p : A → bool) (l : list A) : list A :=
  match l with
  | [] => []
  | x :: l' => if p x then drop_while p l' else l
  end.

Definition trim_chars (cs : list N) : list N :=
  reverse (drop_while is_whitespace (reverse (drop_while is_whitespace cs))).

(** [str::trim]. *)
Definition trim (s : string) : string := encode (trim_chars (chars s)).

(** [str::is_empty]. *)
Definition is_empty (s : string) : bool := match s with "" => true | _ => false end.

(** [s.trim().is_empty()]. *)
Definition is_blank (s : string) : bool := is_empty (trim s).

Lemma drop_while_suffix {A} p (l : list A) : drop_while p l `suffix_of` l.
Proof.
  induction l as [|x l IH]; simpl; [done|]. case_match; [|done]. by apply suffix_cons_r.
Qed.

Lemma drop_while_idemp {A} p (l : list A) : drop_while p (drop_while p l) = drop_while p l.
Proof. induction l as [|x l IH]; simpl; [done|]. case_match eqn:E; [done|]. simpl. by rewrite E. Qed.

Lemma drop_while_head {A} p (l : list A) x l' : drop_while p l = x :: l' → p x = false.
Proof. induction l as [|y l IH]; simpl; [done|]. case_match; [done|]. by intros [= -> ->]. Qed.

Lemma drop_while_app_last {A} p (l : list A) x :
  p x = false → drop_while p (l ++ [x]) = drop_while p l ++ [x].
Proof. intros Hx. induction l as [|y l IH]; simpl; [by rewrite Hx|]. by case_match. Qed.

Lemma elem_of_drop_while {A} p (l : list A) x : x ∈ drop_while p l → x ∈ l.
Proof. destruct (drop_while_suffix p l) as [k Hk]. rewrite Hk at 2. set_solver. Qed.

Lemma length_drop_while {A} p (l : list A) : length (drop_while p l) ≤ length l.
Proof. apply suffix_length, drop_while_suffix. Qed.

(** Trimming the end keeps a list whose head is kept. *)
Lemma trim_chars_idemp cs : trim_chars (trim_chars cs) = trim_chars cs.
Proof.
  unfold trim_chars. set (l := drop_while is_whitespace cs).
  assert (drop_while is_whitespace (reverse (drop_while is_whitespace (reverse l)))
    = reverse (drop_while is_whitespace (reverse l))) as ->.
  { destruct l as [|x l'] eqn:El; [done|].
    apply drop_while_head in El. rewrite reverse_cons, drop_while_app_last by done.
    rewrite reverse_app, reverse_singleton. cbn [app drop_while]. by rewrite El. }
  by rewrite reverse_involutive, drop_while_idemp.
Qed.

Lemma elem_of_trim_chars cs c : c ∈ trim_chars cs → c ∈ cs.
Proof.
  unfold trim_chars. rewrite elem_of_reverse. intros H%elem_of_drop_while.
  rewrite elem_of_reverse in H. by apply elem_of_drop_while in H.
Qed.

Lemma trim_valid s : valid_utf8 s → valid_utf8 (trim s).
Proof.
  intros Hs. exists (trim_chars (chars s)). split; [|done].
  apply Forall_forall. intros c Hc%elem_of_trim_chars.
  by eapply Forall_forall; [apply chars_scalar|].
Qed.

(** Trimming is idempotent. *)
Lemma trim_idemp s : valid_utf8 s → trim (trim s) = trim s.
Proof.
  intros Hs. unfold trim at 1 2 3. rewrite chars_encode, trim_chars_idemp; [done|].
  apply Forall_forall. intros c Hc%elem_of_trim_chars.
  by eapply Forall_forall; [apply chars_scalar|].
Qed.

Lemma slen_encode_suffix cs ds : ds `suffix_of` cs → (slen (encode ds) <= slen (encode cs))%N.
Proof. intros [k ->]. rewrite encode_app, slen_app. lia. Qed.
Lemma slen_encode_prefix cs ds : ds `prefix_of` cs → (slen (encode ds) <= slen (encode cs))%N.
Proof. intros [k ->]. rewrite encode_app, slen_app. lia. Qed.

(** Trimming never lengthens a text. *)
Lemma slen_trim s : valid_utf8 s → (slen (trim s) <= slen s)%N.
Proof.
  intros Hs. rewrite <-(encode_chars s Hs) at 2. unfold trim, trim_chars.
  etrans; [|apply slen_encode_suffix, (drop_while_suffix is_whitespace)].
  apply slen_encode_prefix. destruct (drop_while_suffix is_whitespace
    (reverse (drop_while is_whitespace (chars s)))) as [k Hk].
  apply (f_equal reverse) in Hk. rewrite reverse_involutive, reverse_app in Hk.
  rewrite Hk at 2. by exists (reverse k).
Qed.

(** A text that starts with an ASCII character other than white space is not
    blank. *)
Lemma not_blank_head a s :
  (byte_val a < 128)%N → is_whitespace (byte_val a) = false → is_blank (String a s) = false.
Proof.
  intros Ha Hw. unfold is_blank, trim, trim_chars. cbn [chars].
  rewrite (proj2 (N.ltb_lt _ _) Ha). cbn [drop_while]. rewrite Hw.
  rewrite reverse_cons, drop_while_app_last by done.
  rewrite reverse_app, reverse_singleton. cbn [app encode]. unfold encode_char.
  by rewrite (proj2 (N.ltb_lt _ _) Ha).
Qed.

(** [[a, b, ...].join(sep)]. *)
Fixpoint join (sep : string) (l : list string) : string :=
  match l with
  | [] => ""
  | [s] => s
  | s :: l' => s +:+ sep +:+ join sep l'
  end.

(** ** Byte-level search *)

(** The byte offsets of [str::match_indices]: non-overlapping occurrences from
    left to right; [skip] counts the bytes of the last occurrence still to
    pass. *)
Fixpoint match_indices (needle hay : string) (offset skip : nat) : list nat :=
  match hay with
  | "" => []
  | String _ rest =>
      match skip with
      | S k => match_indices needle rest (S offset) k
      | O =>
          if String.prefix needle hay
          then offset :: match_indices needle rest (S offset) (String.length needle - 1)
          else match_indices needle rest (S offset) 0
      end
  end.

(** [&s[..n]] and [&s[n..]]. *)
Definition str_take (n : nat) (s : string) : string := String.substring 0 n s.
Fixpoint str_drop (n : nat) (s : string) : string :=
  match n, s with
  | S k, String _ s' => str_drop k s'
  | _, _ => s
  end.

(** [u64::to_be_bytes]. *)
Definition u64_be_bytes (n : N) : string :=
  foldr (λ i s, String (byte_of ((n / 2 ^ (8 * i)) mod 256)) s) ""%string
    [7; 6; 5; 4; 3; 2; 1; 0]%N.

(** [u64::from_be_bytes] of the first eight bytes. *)
Fixpoint be_value (n : nat) (acc : N) (s : string) : N :=
  match n, s with
  | S k, String a s' => be_value k (acc * 256 + byte_val a)%N s'
  | _, _ => acc
  end.
Definition u64_from_be (s : string) : N := be_value 8 0 s.

Lemma be_value_bound n acc s : (be_value n acc s < (acc + 1) * 256 ^ N.of_nat n)%N.
Proof.
  revert acc s. induction n as [|n IH]; intros acc s; [simpl; lia|].
  rewrite Nat2N.inj_succ, N.pow_succ_r'. destruct s as [|a s]; [simpl; nia|].
  cbn [be_value]. pose proof (Ascii.N_ascii_bounded a) as Ha. unfold byte_val.
  specialize (IH (acc * 256 + Ascii.N_of_ascii a)%N s). nia.
Qed.
