(* ===== verification/Values.v ===== *)
(** * Values: the validated value types of the core

    [core/error.rs], [core/bounded_text.rs], [core/ids.rs],
    [core/knowledge/hint.rs] and the value types of
    [core/activation/rule.rs].  A newtype over [String] is its content; its
    [try_new] is a function that returns the content or the error, and the
    predicate [*_ok] says what its result satisfies. *)
From S2P Require Import Prelude.
From S2P Require Import Text.

(** Identifiers and texts are their content. *)
Abbreviation BoundedText := string (only parsing).
Abbreviation CharacterCardId := string (only parsing).
Abbreviation CharacterId := string (only parsing).
Abbreviation IdempotencyKey := string (only parsing).
Abbreviation PackId := string (only parsing).
Abbreviation PlayerId := string (only parsing).
Abbreviation RoleId := string (only parsing).
Abbreviation SemanticVersion := string (only parsing).
Abbreviation Sha256Digest := string (only parsing).
Abbreviation StoryId := string (only parsing).
Abbreviation MemoryId := string (only parsing).
Abbreviation FactId := string (only parsing).
Abbreviation RumorId := string (only parsing).
Abbreviation NarrativeNodeId := string (only parsing).
Abbreviation NarrativeConditionId := string (only parsing).
Abbreviation RetrievalHint := string (only parsing).
Abbreviation ActivationKey := string (only parsing).
Abbreviation ActivationGroupKey := string (only parsing).
Abbreviation ActivationProbability := N (only parsing).

Inductive CoreError :=
| InvalidId (field value : string)
| BoundedTextLimitExceeded (limit : string) (actual maximum : N)
| RetrievalHintTooLong (actual maximum : N)
| RetrievalHintEmpty
| ActivationKeyEmpty
| ActivationKeyTooLong (actual maximum : N)
| ActivationGroupKeyInvalid (value : string)
| ActivationProbabilityInvalid (value : N)
| DigestFailed (subject message : string).

#[global] Instance CoreError_eq_dec : EqDecision CoreError.
Proof. solve_decision. Defined.

(** [format!("{}", error)]: the [#[error]] attributes. *)
Definition CoreError_to_string (e : CoreError) : string :=
  match e with
  | InvalidId field value => "invalid ID: " +:+ field +:+ "-" +:+ value
  | BoundedTextLimitExceeded limit actual maximum =>
      "bounded text limit exceeded: " +:+ limit +:+ " (actual: " +:+ pretty actual
        +:+ ", maximum: " +:+ pretty maximum +:+ ")"
  | RetrievalHintTooLong actual maximum =>
      "retrieval hint too long: " +:+ pretty actual +:+ " (maximum: " +:+ pretty maximum +:+ ")"
  | RetrievalHintEmpty => "retrieval hint is empty."
  | ActivationKeyEmpty => "activation key is empty."
  | ActivationKeyTooLong actual maximum =>
      "activation key too long: " +:+ pretty actual +:+ " (maximum: " +:+ pretty maximum +:+ ")"
  | ActivationGroupKeyInvalid value => "activation group key is invalid: " +:+ value
  | ActivationProbabilityInvalid value =>
      "activation probability is outside 0..=100: " +:+ pretty value
  | DigestFailed subject message => subject +:+ " digest failed: " +:+ message
  end.

(** ** [BoundedText] *)

Definition BoundedText_try_new (value field : string) (maximum_bytes : N) : result CoreError BoundedText :=
  let actual := slen value in
  fail_if (maximum_bytes <? actual)%N with BoundedTextLimitExceeded field actual maximum_bytes in
  Ok value.

(** ** Identifiers: the [define_id!] macro *)

Definition id_try_new (field value : string) : result CoreError string :=
  fail_if is_blank value with InvalidId field value in
  Ok value.

Definition id_ok (value : string) : Prop := is_blank value = false.

Definition FactId_try_new := id_try_new "fact_id".
Definition RumorId_try_new := id_try_new "rumor_id".
Definition MemoryId_try_new := id_try_new "memory_id".
Definition StoryId_try_new := id_try_new "story_id".

(** ** [RetrievalHint] *)

Definition RetrievalHint_MAX_BYTES : N := 256.
Definition RetrievalHint_LIMIT_NAME : string := "retrieval_hint".

Definition RetrievalHint_try_new (value : string) : result CoreError RetrievalHint :=
  let trim_value := trim value in
  fail_if is_empty trim_value with RetrievalHintEmpty in
  map_err (λ e, match e with
    | BoundedTextLimitExceeded limit actual maximum =>
        if decide (limit = RetrievalHint_LIMIT_NAME) then RetrievalHintTooLong actual maximum else e
    | _ => e
    end)
    (BoundedText_try_new trim_value RetrievalHint_LIMIT_NAME RetrievalHint_MAX_BYTES).

(** ** [ActivationKey], [ActivationGroupKey], [ActivationProbability] *)

Definition ActivationKey_MAX_BYTES : N := 128.
Definition ActivationKey_LIMIT_NAME : string := "activation_key".

Definition ActivationKey_try_new (value : string) : result CoreError ActivationKey :=
  let trim_value := trim value in
  fail_if is_empty trim_value with ActivationKeyEmpty in
  map_err (λ e, match e with
    | BoundedTextLimitExceeded limit actual maximum =>
        if decide (limit = ActivationKey_LIMIT_NAME) then ActivationKeyTooLong actual maximum else e
    | _ => e
    end)
    (BoundedText_try_new trim_value ActivationKey_LIMIT_NAME ActivationKey_MAX_BYTES).

(** The loop of [is_group_key]: '.', '_' and '-' are separators. *)
Fixpoint is_group_key_go (previous_separator : bool) (cs : list N) : bool :=
  match cs with
  | [] => negb previous_separator
  | c :: cs' =>
      if is_ascii_lowercase c || is_ascii_digit c then is_group_key_go false cs'
      else if ((c =? 46) || (c =? 95) || (c =? 45))%N && negb previous_separator
      then is_group_key_go true cs'
      else false
  end.
Definition is_group_key (value : string) : bool := is_group_key_go true (chars value).

Definition ActivationGroupKey_MAX_BYTES : N := 128.

Definition ActivationGroupKey_try_new (value : string) : result CoreError ActivationGroupKey :=
  fail_if is_empty value || (ActivationGroupKey_MAX_BYTES <? slen value)%N || negb (is_group_key value)
  with ActivationGroupKeyInvalid value in
  Ok value.

Definition ActivationProbability_ALWAYS : ActivationProbability := 100%N.

Definition ActivationProbability_try_new (percent : N) : result CoreError ActivationProbability :=
  fail_if (100 <? percent)%N with ActivationProbabilityInvalid percent in
  Ok percent.

(** ** What the constructors guarantee *)
Lemma BoundedText_try_new_spec value field max :
  BoundedText_try_new value field max =
  if (slen value <=? max)%N then Ok value else Err (BoundedTextLimitExceeded field (slen value) max).
Proof.
  unfold BoundedText_try_new. cbv zeta.
  destruct (N.ltb_spec max (slen value)), (N.leb_spec (slen value) max); (done || (exfalso; lia)).
Qed.

Lemma BoundedText_try_new_ok value field max :
  (slen value <= max)%N → BoundedText_try_new value field max = Ok value.
Proof. intros H. by rewrite BoundedText_try_new_spec, (proj2 (N.leb_le _ _)). Qed.

Lemma id_try_new_ok field value r : id_try_new field value = Ok r → r = value ∧ id_ok r.
Proof. unfold id_try_new, id_ok. intros H. res_inv. done. Qed.

Lemma id_try_new_nonblank field value : id_ok value → id_try_new field value = Ok value.
Proof. unfold id_try_new, id_ok. by intros ->. Qed.

(** A key or hint that is accepted is trimmed, non-empty and within its limit. *)
Definition bounded_trimmed (max : N) (s : string) : Prop :=
  is_empty s = false ∧ trim s = s ∧ (slen s <= max)%N.

(** The shape shared by the constructors of [RetrievalHint] and [ActivationKey]. *)
Lemma trimmed_try_new_ok limit max empty f value r :
  valid_utf8 value →
  (fail_if is_empty (trim value) with empty in
   map_err (f : CoreError → CoreError) (BoundedText_try_new (trim value) limit max)) = Ok r →
  r = trim value ∧ bounded_trimmed max r.
Proof.
  intros Hv H. unfold bounded_trimmed, BoundedText_try_new, map_err in *. simpl in H.
  res_step. destruct (N.ltb_spec max (slen (trim value))); [done|].
  injection H as <-. repeat split; [done..|by apply trim_idemp|done].
Qed.

Lemma RetrievalHint_try_new_ok value r :
  valid_utf8 value → RetrievalHint_try_new value = Ok r →
  r = trim value ∧ bounded_trimmed RetrievalHint_MAX_BYTES r.
Proof. apply trimmed_try_new_ok. Qed.

Lemma ActivationKey_try_new_ok value r :
  valid_utf8 value → ActivationKey_try_new value = Ok r →
  r = trim value ∧ bounded_trimmed ActivationKey_MAX_BYTES r.
Proof. apply trimmed_try_new_ok. Qed.

(** The error of an over-long key carries the trimmed length. *)
Lemma ActivationKey_try_new_too_long value :
  is_empty (trim value) = false → (ActivationKey_MAX_BYTES < slen (trim value))%N →
  ActivationKey_try_new value = Err (ActivationKeyTooLong (slen (trim value)) ActivationKey_MAX_BYTES).
Proof.
  intros He Hl. unfold ActivationKey_try_new. rewrite He.
  unfold BoundedText_try_new. by rewrite (proj2 (N.ltb_lt _ _)).
Qed.

(** *** The grammar of group keys: [word (sep word)*] over lower-case ASCII *)

Definition is_word_byte (c : N) : bool := is_ascii_lowercase c || is_ascii_digit c.
Definition is_separator (c : N) : bool := ((c =? 46) || (c =? 95) || (c =? 45))%N.

Inductive GroupKeyShape : list N → Prop :=
| shape_word w : w ≠ [] → Forall is_word_byte w → GroupKeyShape w
| shape_sep w c rest :
    w ≠ [] → Forall is_word_byte w → is_separator c → GroupKeyShape rest →
    GroupKeyShape (w ++ c :: rest).

Lemma separator_not_word c : is_separator c → is_word_byte c = false.
Proof.
  unfold is_separator, is_word_byte, is_ascii_lowercase, is_ascii_digit.
  destruct (N.eqb_spec c 46) as [->|]; [done|]. destruct (N.eqb_spec c 95) as [->|]; [done|].
  by destruct (N.eqb_spec c 45) as [->|].
Qed.

Lemma is_group_key_go_word w rest :
  w ≠ [] → Forall is_word_byte w → ∀ p, is_group_key_go p (w ++ rest) = is_group_key_go false rest.
Proof.
  intros Hne Hw. induction Hw as [|c w Hc Hw IH]; [done|]. intros p. simpl.
  fold (is_word_byte c). rewrite (Is_true_true_1 _ Hc).
  destruct w as [|d w]; [done|]. by apply IH.
Qed.

Lemma GroupKeyShape_cons c cs :
  is_word_byte c → GroupKeyShape cs → GroupKeyShape (c :: cs).
Proof.
  intros Hc [w Hne Hw|w d rest Hne Hw Hd Hrest].
  - constructor; [done|]. by constructor.
  - change (GroupKeyShape ((c :: w) ++ d :: rest)). constructor; [done|by constructor|done..].
Qed.

Lemma is_group_key_go_shape cs :
  (is_group_key_go true cs = true → GroupKeyShape cs) ∧
  (is_group_key_go false cs = true →
    cs = [] ∨ GroupKeyShape cs ∨ ∃ c rest, cs = c :: rest ∧ is_separator c ∧ GroupKeyShape rest).
Proof.
  induction cs as [|c cs [IHt IHf]]; [split; [done|by left]|].
  assert (is_group_key_go false cs = true → is_word_byte c → GroupKeyShape (c :: cs)) as Hword.
  { intros H Hc. destruct (IHf H) as [->|[Hs|(d & rest & -> & Hd & Hrest)]].
    - constructor; [done|]. by constructor.
    - by apply GroupKeyShape_cons.
    - apply (shape_sep [c]); [done| by constructor|done..]. }
  split; simpl; fold (is_word_byte c); fold (is_separator c); intros H.
  - destruct (is_word_byte c) eqn:Hc; [by apply Hword|].
    by rewrite andb_false_r in H.
  - destruct (is_word_byte c) eqn:Hc; [right; left; by apply Hword|].
    rewrite andb_true_r in H. destruct (is_separator c) eqn:Hs; [|done].
    right. right. exists c, cs. split; [done|]. split; [by rewrite Hs|]. by apply IHt.
Qed.

Lemma shape_is_group_key cs : GroupKeyShape cs → is_group_key_go true cs = true.
Proof.
  induction 1 as [w Hne Hw|w c rest Hne Hw Hc Hrest IH].
  - rewrite <-(app_nil_r w). by rewrite is_group_key_go_word.
  - rewrite is_group_key_go_word by done. simpl. fold (is_word_byte c) (is_separator c).
    rewrite (separator_not_word c Hc), (Is_true_true_1 _ Hc). done.
Qed.

Lemma is_group_key_spec value : is_group_key value = true ↔ GroupKeyShape (chars value).
Proof. split; [apply is_group_key_go_shape|apply shape_is_group_key]. Qed.
