(* ===== verification/Domain.v ===== *)
(** * Domain: the data of a story

    The records and enumerations of [core/knowledge], [core/role],
    [core/narrative], [core/story], [core/turn.rs] and
    [core/activation/rule.rs], field by field.  A [BTreeMap] is a [gmap]
    iterated through [entries]; a [VecDeque] is a list whose head is the front;
    an [f64] is an IEEE 754 [spec_float]. *)
From Stdlib Require Export SpecFloat.
From S2P Require Import Prelude.
From S2P Require Import Text.
From S2P Require Import Values.

(** ** Activation rules *)

Inductive SecondaryLogic := AndAny | AndAll | NotAny | NotAll.

Record ActivationMatchRule := {
  keys_ : list ActivationKey;
  secondary_keys : list ActivationKey;
  secondary_logic : SecondaryLogic;
  case_sensitive : bool;
  match_whole_words : bool;
  match_scan_depth : option N;
}.

Record ActivationMode := { enabled : bool; constant : bool }.

Record ActivationRecursionRule := {
  exclude_recursion : bool;
  prevent_recursion : bool;
  delay_until_recursion : option N;
}.

Record ActivationSelectionRule := {
  order : Z;
  probability : ActivationProbability;
  groups : list ActivationGroupKey;
  group_override : bool;
  group_weight : N;
  use_group_scoring : bool;
}.

Record ActivationRule := {
  match_rule : ActivationMatchRule;
  mode : ActivationMode;
  recursion : ActivationRecursionRule;
  selection : ActivationSelectionRule;
}.

Definition ActivationMatchRule_default : ActivationMatchRule :=
  {| keys_ := []; secondary_keys := []; secondary_logic := AndAny;
     case_sensitive := false; match_whole_words := false; match_scan_depth := None |}.
Definition ActivationMode_default : ActivationMode := {| enabled := true; constant := false |}.
Definition ActivationRecursionRule_default : ActivationRecursionRule :=
  {| exclude_recursion := false; prevent_recursion := false; delay_until_recursion := None |}.
Definition ActivationSelectionRule_default : ActivationSelectionRule :=
  {| order := 0; probability := ActivationProbability_ALWAYS; groups := [];
     group_override := false; group_weight := 100; use_group_scoring := false |}.
Definition ActivationRule_default : ActivationRule :=
  {| match_rule := ActivationMatchRule_default; mode := ActivationMode_default;
     recursion := ActivationRecursionRule_default; selection := ActivationSelectionRule_default |}.

#[global] Instance SecondaryLogic_eq_dec : EqDecision SecondaryLogic.
Proof. solve_decision. Defined.
#[global] Instance ActivationMatchRule_eq_dec : EqDecision ActivationMatchRule.
Proof. solve_decision. Defined.
#[global] Instance ActivationMode_eq_dec : EqDecision ActivationMode.
Proof. solve_decision. Defined.
#[global] Instance ActivationRecursionRule_eq_dec : EqDecision ActivationRecursionRule.
Proof. solve_decision. Defined.
#[global] Instance ActivationSelectionRule_eq_dec : EqDecision ActivationSelectionRule.
Proof. solve_decision. Defined.
#[global] Instance ActivationRule_eq_dec : EqDecision ActivationRule.
Proof. solve_decision. Defined.

(** ** Knowledge *)

(** A turn number is a [u64]; [increment] wraps around, as release builds do. *)
Abbreviation TurnNumber := N (only parsing).
Definition increment (t : TurnNumber) : TurnNumber := ((t + 1) mod (U64_MAX + 1))%N.

Inductive EntryOrigin :=
| Origin_Seed
| Origin_Turn (turn : TurnNumber).

Record FactBody := {
  fact_content : BoundedText; fact_activation : ActivationRule; fact_retrieval : RetrievalHint }.
Record FactEntry := { fact_id : FactId; fact_origin : EntryOrigin; fact_body : FactBody }.

Record RumorBody := {
  rumor_content : BoundedText; rumor_activation : ActivationRule; rumor_retrieval : RetrievalHint }.
Record RumorEntry := { rumor_id : RumorId; rumor_origin : EntryOrigin; rumor_body : RumorBody }.

Record MemoryBody := {
  memory_content : BoundedText; memory_activation : ActivationRule;
  memory_retrieval : RetrievalHint }.
Record MemoryEntry := {
  memory_id : MemoryId; memory_origin : EntryOrigin; memory_body : MemoryBody }.

(** The [Recallable] trait. *)
Class Recallable (B : Type) := {
  content : B → BoundedText;
  activation : B → ActivationRule;
  retrieval : B → RetrievalHint;
}.
#[global] Instance FactBody_recallable : Recallable FactBody :=
  {| content := fact_content; activation := fact_activation; retrieval := fact_retrieval |}.
#[global] Instance RumorBody_recallable : Recallable RumorBody :=
  {| content := rumor_content; activation := rumor_activation; retrieval := rumor_retrieval |}.
#[global] Instance MemoryBody_recallable : Recallable MemoryBody :=
  {| content := memory_content; activation := memory_activation; retrieval := memory_retrieval |}.

Record ActivatedKnowledge := { act_facts : list FactEntry; act_rumors : list RumorEntry }.

Inductive FactChangeOp :=
| FactAdd (id : FactId) (body : FactBody)
| FactUpdate (id : FactId) (body : FactBody).

Inductive RumorChangeOp :=
| RumorAdd (id : RumorId) (body : RumorBody)
| RumorUpdate (id : RumorId) (body : RumorBody)
| RumorRemove (id : RumorId).

Inductive RoleMemoryChangeOp :=
| MemoryAdd (role_id : RoleId) (id : MemoryId) (body : MemoryBody)
| MemoryUpdate (role_id : RoleId) (id : MemoryId) (body : MemoryBody).

Record KnowledgeChange := {
  kc_facts : list FactChangeOp;
  kc_rumors : list RumorChangeOp;
  kc_memories : list RoleMemoryChangeOp;
}.

Definition KnowledgeChange_is_empty (c : KnowledgeChange) : bool :=
  match kc_facts c, kc_rumors c, kc_memories c with [], [], [] => true | _, _, _ => false end.

(** The identifier an operation is about. *)
Definition fact_op_id (op : FactChangeOp) : FactId :=
  match op with FactAdd id _ | FactUpdate id _ => id end.
Definition rumor_op_id (op : RumorChangeOp) : RumorId :=
  match op with RumorAdd id _ | RumorUpdate id _ | RumorRemove id => id end.
Definition memory_op_key (op : RoleMemoryChangeOp) : RoleId * MemoryId :=
  match op with MemoryAdd r id _ | MemoryUpdate r id _ => (r, id) end.

(** ** Roles *)

Record DialogueExample := { situation : BoundedText; response : BoundedText }.
Record CharacterProfile := {
  appearance : option BoundedText;
  personality : option BoundedText;
  speaking_style : option BoundedText;
  dialogue_examples : list DialogueExample;
}.

Record RoleSpec := {
  role_name : BoundedText;
  alias : list BoundedText;
  backstory : BoundedText;
  role_retrieval : RetrievalHint;
}.

Record SeedRole := {
  seed_spec : RoleSpec;
  default_profile : CharacterProfile;
  seed_memories : gmap MemoryId MemoryBody;
}.

Record RoleEntry := {
  role_id : RoleId;
  role_origin : EntryOrigin;
  role_spec : RoleSpec;
  role_profile : CharacterProfile;
  memories : gmap MemoryId MemoryEntry;
}.

Record CharacterMeta := {
  char_creator : BoundedText; char_version : SemanticVersion; char_tags : list BoundedText }.
Record CharacterCard := {
  card_id : CharacterCardId;
  card_name : BoundedText;
  card_meta : CharacterMeta;
  card_profile : CharacterProfile;
}.

Record CharacterThinkRequest := { think_role_id : RoleId; thinking_focus : BoundedText }.
Record CharacterDecision := {
  decision_role_id : RoleId;
  decision : BoundedText;
  suggested_utterance : option BoundedText;
}.

(** ** Narrative graphs *)

Inductive Truth := Satisfied | Unsatisfied | Unknown.
Inductive NodeStatus := Node_Inactive | Node_Active | Node_Completed | Node_Skipped.

#[global] Instance Truth_eq_dec : EqDecision Truth.
Proof. solve_decision. Defined.
#[global] Instance NodeStatus_eq_dec : EqDecision NodeStatus.
Proof. solve_decision. Defined.

Inductive NarrativeCondition :=
| Cond_All (conditions : list NarrativeCondition)
| Cond_Any (conditions : list NarrativeCondition)
| Cond_Not (condition : NarrativeCondition)
| Cond_StoryStarted
| Cond_TurnReaches (turn : N)
| Cond_NodeIs (node_id : NarrativeNodeId) (status : NodeStatus)
| Cond_Semantic (condition_id : NarrativeConditionId) (criterion : BoundedText).

Inductive ConstraintWindow := BeforeActive | WhileActive.
Record NarrativeConstraint := { forbid : BoundedText; window : ConstraintWindow }.

Record NarrativeNode := {
  title : BoundedText;
  dramatic_focus : option BoundedText;
  activate_when : NarrativeCondition;
  complete_when : NarrativeCondition;
  skip_when : option NarrativeCondition;
  node_constraints : list NarrativeConstraint;
  terminal : bool;
}.

Record NarrativeGraph := { nodes : gmap NarrativeNodeId NarrativeNode }.

Record NarrativeTransition := { trans_node_id : NarrativeNodeId; to : NodeStatus }.
Record NarrativeState := { node_status : gmap NarrativeNodeId NodeStatus }.

Record NarrativeDirection := { dir_node_id : NarrativeNodeId; dir_focus : BoundedText }.
Record ActiveConstraint := { con_node_id : NarrativeNodeId; con_forbid : BoundedText }.
Record SemanticQuery := { query_id : NarrativeConditionId; query_criterion : BoundedText }.
Record NarrativePlan := {
  directions : list NarrativeDirection;
  constraints : list ActiveConstraint;
  queries : list SemanticQuery;
}.
Record NarrativeResolution := {
  transitions : list NarrativeTransition; story_completed : bool }.

Inductive NarrativeError :=
| EmptyCondition (operator : string)
| UnknownNode (node_id : string)
| SemanticCriterionConflict (condition_id : string).

(** ** Story packs *)

Record StoryPackMeta := {
  pack_creator : BoundedText; pack_version : SemanticVersion; pack_tags : list BoundedText }.
Record StoryPackProfile := {
  pack_title : BoundedText;
  pack_description : option BoundedText;
  genres : list BoundedText;
  themes : list BoundedText;
  tones : list BoundedText;
  point_of_view : BoundedText;
  tense : BoundedText;
}.
Record PlayDefinition := { playable_roles : gset RoleId }.

Inductive StoryPackSpec := V1.

Record StoryPack := {
  pack_spec : StoryPackSpec;
  pack_id : PackId;
  pack_meta : StoryPackMeta;
  pack_profile : StoryPackProfile;
  pack_roles : gmap RoleId SeedRole;
  play : PlayDefinition;
  pack_opening : BoundedText;
  seed_facts : gmap FactId FactBody;
  seed_rumors : gmap RumorId RumorBody;
  pack_constraints : list BoundedText;
  pack_narrative : option NarrativeGraph;
}.

Record PackRef := { ref_pack_id : PackId; ref_version : SemanticVersion; ref_digest : Sha256Digest }.

#[global] Instance PackRef_eq_dec : EqDecision PackRef.
Proof. solve_decision. Defined.

Record StoryPackSnapshot := { snap_pack_ref : PackRef; snap_pack : StoryPack }.

(** ** Turns *)

Inductive Change (T : Type) :=
| Unchanged
| Replaced (value : T).
Arguments Unchanged {T}.
Arguments Replaced {T} value.

(** [f64] as IEEE 754 binary64. *)
Abbreviation f64 := spec_float (only parsing).

Record PlayerContribution := { raw : string; processed : string }.
Record TurnRequest := {
  req_story_id : StoryId; req_idempotency_key : IdempotencyKey; player_input : string }.

Inductive TurnStatus := Turn_Pass | Turn_Choice.

Record TurnCheckEvaluation := {
  check_eval_name : string; check_eval_passed : bool; check_eval_issue : option BoundedText }.
Record TurnScoreEvaluation := {
  score_eval_name : string;
  score_eval_min : f64;
  score_eval_max : f64;
  score_eval_target : f64;
  score_eval_score : f64;
  score_eval_issue : option BoundedText;
}.
Record TurnChoiceEvaluation := { selected_proposal_version : N; choice_target_gap_mse : f64 }.
Record TurnEvaluation := {
  eval_proposal_version : N;
  eval_repair_rounds : N;
  eval_checks : list TurnCheckEvaluation;
  eval_scores : list TurnScoreEvaluation;
  eval_choice : option TurnChoiceEvaluation;
}.

Record Turn := {
  turn_number : TurnNumber;
  idempotency_key : IdempotencyKey;
  player_contribution : PlayerContribution;
  turn_segment : string;
  knowledge_change : KnowledgeChange;
  turn_evaluation : TurnEvaluation;
  turn_status : TurnStatus;
}.

Inductive TurnEvent :=
| TurnStarted
| TurnPipeline (stage : string)
| TurnCommitted.

(** ** Stories *)

Inductive StoryLifeCycle := Life_Active | Life_Cancelled | Life_Completed.
#[global] Instance StoryLifeCycle_eq_dec : EqDecision StoryLifeCycle.
Proof. solve_decision. Defined.

Record StorySummary := { summary_text : string; covered_through : TurnNumber }.

Record StoryContext := {
  story_id : StoryId;
  pack_ref : PackRef;
  opening : BoundedText;
  roles : gmap RoleId RoleEntry;
  facts : gmap FactId FactEntry;
  rumors : gmap RumorId RumorEntry;
  player : RoleId;
  ctx_turn_number : TurnNumber;
  summary : option StorySummary;
  recent_turns : list Turn;
  life_cycle : StoryLifeCycle;
  narrative : NarrativeState;
}.

Record StoryCommit := {
  commit_story_id : StoryId;
  commit_turn : Turn;
  commit_summary : Change StorySummary;
  commit_narrative : Change NarrativeState;
  commit_life_cycle : Change StoryLifeCycle;
}.

(** [DateTime<Utc>]: a number of ticks read from the clock. *)
Abbreviation DateTime := N (only parsing).

Record StoryInstanceInfo := {
  info_story_id : StoryId;
  info_player_id : PlayerId;
  description : string;
  created_at : DateTime;
  updated_at : DateTime;
  info_life_cycle : StoryLifeCycle;
}.

Record StoryInstanceSpec := {
  spec_story_id : StoryId;
  spec_pack_ref : PackRef;
  spec_opening : BoundedText;
  spec_roles : gmap RoleId RoleEntry;
  spec_facts : gmap FactId FactEntry;
  spec_rumors : gmap RumorId RumorEntry;
  spec_player_id : PlayerId;
  spec_player_role : RoleId;
  spec_narrative : NarrativeState;
}.

Record StoryCreateBundle := { bundle_snapshot : StoryPackSnapshot; bundle_instance : StoryInstanceSpec }.

(** [StoryCreateBundle::assemble]: the instance takes its [pack_ref] from the
    snapshot. *)
Definition assemble (snapshot : StoryPackSnapshot) (sid : StoryId) (op : BoundedText)
    (rs : gmap RoleId RoleEntry) (fs : gmap FactId FactEntry) (us : gmap RumorId RumorEntry)
    (player_id : PlayerId) (player_role : RoleId) (nar : NarrativeState) : StoryCreateBundle :=
  {| bundle_snapshot := snapshot;
     bundle_instance :=
       {| spec_story_id := sid; spec_pack_ref := snap_pack_ref snapshot; spec_opening := op;
          spec_roles := rs; spec_facts := fs; spec_rumors := us; spec_player_id := player_id;
          spec_player_role := player_role; spec_narrative := nar |} |}.

Inductive StoryError :=
| TooManyRoles (actual maximum : N)
| TooManyRoleAliases (role_id : RoleId) (actual maximum : N)
| RoleCatalogTooLarge (actual maximum : N)
| TooManyRoleMemories (role_id : RoleId) (actual maximum : N)
| RoleStateTooLarge (actual maximum : N)
| RoleStateSerialization (message : string)
| OpeningTooLarge (actual maximum : N)
| NoPlayableRole
| UnknownRole (field role_id : string)
| RoleNotPlayable (role_id : string).

(** ** Functional updates used by the operations *)

Definition with_memories (r : RoleEntry) (ms : gmap MemoryId MemoryEntry) : RoleEntry :=
  {| role_id := role_id r; role_origin := role_origin r; role_spec := role_spec r;
     role_profile := role_profile r; memories := ms |}.

Definition with_fact_body (e : FactEntry) (b : FactBody) : FactEntry :=
  {| fact_id := fact_id e; fact_origin := fact_origin e; fact_body := b |}.
Definition with_rumor_body (e : RumorEntry) (b : RumorBody) : RumorEntry :=
  {| rumor_id := rumor_id e; rumor_origin := rumor_origin e; rumor_body := b |}.
Definition with_memory_body (e : MemoryEntry) (b : MemoryBody) : MemoryEntry :=
  {| memory_id := memory_id e; memory_origin := memory_origin e; memory_body := b |}.
