(* ===== verification/Narrative.v ===== *)
(** * Narrative: conditions, plans and resolution of a narrative graph

    [core/narrative/condition.rs], [narrative.rs], [plan.rs], [constraint.rs],
    [state.rs] and [resolver.rs].  Conditions evaluate to a three-valued
    [Truth]; a node moves Inactive -> Active -> Completed or Skipped. *)
From S2P Require Import Prelude.
From S2P Require Import Text.
From S2P Require Import Values.
From S2P Require Import Domain.

(** ** [Truth] *)

Definition Truth_from_bool (value : bool) : Truth := if value then Satisfied else Unsatisfied.

Definition Truth_negate (t : Truth) : Truth :=
  match t with
  | Satisfied => Unsatisfied
  | Unsatisfied => Satisfied
  | Unknown => Unknown
  end.

Fixpoint Truth_all_go (res : Truth) (values : list Truth) : Truth :=
  match values with
  | [] => res
  | Unsatisfied :: _ => Unsatisfied
  | Unknown :: vs => Truth_all_go Unknown vs
  | Satisfied :: vs => Truth_all_go res vs
  end.
Definition Truth_all : list Truth → Truth := Truth_all_go Satisfied.

Fixpoint Truth_any_go (res : Truth) (values : list Truth) : Truth :=
  match values with
  | [] => res
  | Satisfied :: _ => Satisfied
  | Unknown :: vs => Truth_any_go Unknown vs
  | Unsatisfied :: vs => Truth_any_go res vs
  end.
Definition Truth_any : list Truth → Truth := Truth_any_go Unsatisfied.

(** ** [NarrativeState] *)

Definition status (s : NarrativeState) (id : NarrativeNodeId) : NodeStatus :=
  default Node_Inactive (node_status s !! id).

Definition apply (s : NarrativeState) (ts : list NarrativeTransition) : NarrativeState :=
  {| node_status := foldl (λ m t, <[trans_node_id t := to t]> m) (node_status s) ts |}.

Definition NarrativeState_default : NarrativeState := {| node_status := ∅ |}.

(** ** Conditions *)

Record NarrativeEvidence := {
  ev_turn : TurnNumber;
  semantic_results : gmap NarrativeConditionId Truth;
}.

Fixpoint evaluate (c : NarrativeCondition) (state : NarrativeState) (input : NarrativeEvidence) : Truth :=
  match c with
  | Cond_All conditions => Truth_all (map (λ c, evaluate c state input) conditions)
  | Cond_Any conditions => Truth_any (map (λ c, evaluate c state input) conditions)
  | Cond_Not condition => Truth_negate (evaluate condition state input)
  | Cond_StoryStarted => Satisfied
  | Cond_TurnReaches turn => Truth_from_bool (turn <=? ev_turn input)%N
  | Cond_NodeIs id st => Truth_from_bool (bool_decide (status state id = st))
  | Cond_Semantic id _ => default Unknown (semantic_results input !! id)
  end.

Definition holds (c : NarrativeCondition) (state : NarrativeState) (input : NarrativeEvidence) : bool :=
  bool_decide (evaluate c state input = Satisfied).

Definition validate_children (validate : NarrativeCondition → result NarrativeError unit)
    (operator : string) (conditions : list NarrativeCondition) : result NarrativeError unit :=
  fail_if match conditions with [] => true | _ => false end with EmptyCondition operator in
  try_for_each validate conditions.

Fixpoint validate_condition (c : NarrativeCondition) (ns : gmap NarrativeNodeId NarrativeNode) :
    result NarrativeError unit :=
  match c with
  | Cond_All conditions =>
      validate_children (λ c, validate_condition c ns) "all" conditions
  | Cond_Any conditions =>
      validate_children (λ c, validate_condition c ns) "any" conditions
  | Cond_Not condition => validate_condition condition ns
  | Cond_NodeIs id _ =>
      match ns !! id with
      | None => Err (UnknownNode id)
      | Some _ => Ok tt
      end
  | Cond_StoryStarted | Cond_TurnReaches _ | Cond_Semantic _ _ => Ok tt
  end.

Fixpoint collect_semantic (c : NarrativeCondition) (found : gmap NarrativeConditionId BoundedText) :
    result NarrativeError (gmap NarrativeConditionId BoundedText) :=
  match c with
  | Cond_All conditions | Cond_Any conditions =>
      try_fold (λ found c, collect_semantic c found) found conditions
  | Cond_Not condition => collect_semantic condition found
  | Cond_Semantic id criterion =>
      match found !! id with
      | Some existing =>
          if decide (existing = criterion) then Ok found else Err (SemanticCriterionConflict id)
      | None => Ok (<[id := criterion]> found)
      end
  | Cond_StoryStarted | Cond_TurnReaches _ | Cond_NodeIs _ _ => Ok found
  end.

(** ** Nodes *)

Definition node_conditions (n : NarrativeNode) : list NarrativeCondition :=
  [activate_when n; complete_when n] ++ option_list (skip_when n).

Definition watched_conditions (n : NarrativeNode) (st : NodeStatus) : list NarrativeCondition :=
  match st with
  | Node_Inactive => [activate_when n]
  | Node_Active => option_list (skip_when n) ++ [complete_when n]
  | Node_Completed | Node_Skipped => []
  end.

Definition next_status (n : NarrativeNode) (current : NodeStatus) (state : NarrativeState)
    (input : NarrativeEvidence) : option NodeStatus :=
  match current with
  | Node_Inactive => if holds (activate_when n) state input then Some Node_Active else None
  | Node_Active =>
      if match skip_when n with Some skip => holds skip state input | None => false end
      then Some Node_Skipped
      else if holds (complete_when n) state input then Some Node_Completed else None
  | Node_Completed | Node_Skipped => None
  end.

Definition applies (c : NarrativeConstraint) (st : NodeStatus) : bool :=
  match window c, st with
  | BeforeActive, Node_Inactive => true
  | WhileActive, Node_Active => true
  | _, _ => false
  end.

(** ** The graph *)

Definition graph_validate (g : NarrativeGraph) : result NarrativeError unit :=
  let? _ := try_fold (λ semantic c,
      let? _ := validate_condition c (nodes g) in
      collect_semantic c semantic)
    (∅ : gmap NarrativeConditionId BoundedText)
    (values (nodes g) ≫= node_conditions) in
  Ok tt.

Definition graph_constraints (g : NarrativeGraph) (state : NarrativeState) : list ActiveConstraint :=
  entries (nodes g) ≫= λ '(id, node),
    map (λ c, {| con_node_id := id; con_forbid := forbid c |})
      (filter (λ c, applies c (status state id)) (node_constraints node)).

Definition graph_directions (g : NarrativeGraph) (state : NarrativeState) : list NarrativeDirection :=
  omap (λ '(id, node),
      (λ focus, {| dir_node_id := id; dir_focus := focus |}) <$> dramatic_focus node)
    (filter (λ '(id, _), status state id = Node_Active) (entries (nodes g))).

Definition graph_queries (g : NarrativeGraph) (state : NarrativeState) :
    result NarrativeError (list SemanticQuery) :=
  let? found := try_fold (λ found '(id, node),
      try_fold (λ found c, collect_semantic c found) found
        (watched_conditions node (status state id)))
    (∅ : gmap NarrativeConditionId BoundedText) (entries (nodes g)) in
  Ok (map (λ '(id, criterion), {| query_id := id; query_criterion := criterion |}) (entries found)).

Definition graph_plan (g : NarrativeGraph) (state : NarrativeState) : result NarrativeError NarrativePlan :=
  let? qs := graph_queries g state in
  Ok {| directions := graph_directions g state;
        constraints := graph_constraints g state;
        queries := qs |}.

Definition completes_story (g : NarrativeGraph) (t : NarrativeTransition) : bool :=
  bool_decide (to t = Node_Completed) &&
  match nodes g !! trans_node_id t with Some node => terminal node | None => false end.

Definition resolve_transitions (g : NarrativeGraph) (state : NarrativeState)
    (evidence : NarrativeEvidence) : list NarrativeTransition :=
  omap (λ '(id, node),
      (λ to, {| trans_node_id := id; to := to |}) <$>
        next_status node (status state id) state evidence)
    (entries (nodes g)).

Definition resolve (g : NarrativeGraph) (state : NarrativeState) (evidence : NarrativeEvidence) :
    NarrativeResolution :=
  let ts := resolve_transitions g state evidence in
  {| transitions := ts; story_completed := existsb (completes_story g) ts |}.

Definition initial_state (g : NarrativeGraph) : NarrativeState :=
  let state := NarrativeState_default in
  let evidence := {| ev_turn := 0; semantic_results := ∅ |} in
  apply state (transitions (resolve g state evidence)).

Definition NarrativePlan_default : NarrativePlan :=
  {| directions := []; constraints := []; queries := [] |}.

(** ** Induction over conditions *)
Lemma NarrativeCondition_ind' (P : NarrativeCondition → Prop) :
  (∀ cs, Forall P cs → P (Cond_All cs)) →
  (∀ cs, Forall P cs → P (Cond_Any cs)) →
  (∀ c, P c → P (Cond_Not c)) →
  P Cond_StoryStarted → (∀ t, P (Cond_TurnReaches t)) →
  (∀ id st, P (Cond_NodeIs id st)) → (∀ id cr, P (Cond_Semantic id cr)) →
  ∀ c, P c.
Proof.
  intros Hall Hany Hnot Hs Ht Hn Hsem. fix IH 1. intros [cs|cs|c| |t|id st|id cr].
  - apply Hall. induction cs as [|c cs IHcs]; constructor; [apply IH|apply IHcs].
  - apply Hany. induction cs as [|c cs IHcs]; constructor; [apply IH|apply IHcs].
  - apply Hnot, IH.
  - apply Hs.
  - apply Ht.
  - apply Hn.
  - apply Hsem.
Qed.

(** ** Three-valued logic *)
Lemma Truth_all_go_spec r l :
  Truth_all_go r l =
    if decide (Unsatisfied ∈ l) then Unsatisfied
    else if decide (Unknown ∈ l) then Unknown else r.
Proof.
  revert r. induction l as [|t l IH]; intros r; simpl; [done|].
  destruct t; rewrite ?IH; repeat case_decide; set_solver.
Qed.

Lemma Truth_any_go_spec r l :
  Truth_any_go r l =
    if decide (Satisfied ∈ l) then Satisfied
    else if decide (Unknown ∈ l) then Unknown else r.
Proof.
  revert r. induction l as [|t l IH]; intros r; simpl; [done|].
  destruct t; rewrite ?IH; repeat case_decide; set_solver.
Qed.

Lemma Truth_all_sat l : Truth_all l = Satisfied ↔ ∀ t, t ∈ l → t = Satisfied.
Proof.
  unfold Truth_all. rewrite Truth_all_go_spec. split.
  - intros H t Ht. repeat case_decide; try done. by destruct t.
  - intros Hl. rewrite !decide_False; [done|..]; intros ?%Hl; done.
Qed.

Lemma Truth_any_sat l : Truth_any l = Satisfied ↔ Satisfied ∈ l.
Proof.
  unfold Truth_any. rewrite Truth_any_go_spec. repeat case_decide; set_solver.
Qed.

(** De Morgan duality. *)
Lemma Truth_any_negate l : Truth_any (map Truth_negate l) = Truth_negate (Truth_all l).
Proof.
  assert (∀ t, Truth_negate t ∈ map Truth_negate l ↔ t ∈ l) as Hm.
  { intros t. rewrite list_elem_of_fmap. split; [|eauto].
    intros ([] & ? & ?); by destruct t. }
  unfold Truth_any, Truth_all. rewrite Truth_any_go_spec, Truth_all_go_spec.
  pose proof (Hm Unsatisfied). pose proof (Hm Unknown). simpl in *.
  repeat case_decide; naive_solver.
Qed.

(** The information order: [Unknown] is below everything. *)
Definition truth_le (t u : Truth) : Prop := t = Unknown ∨ t = u.

#[global] Instance truth_le_preorder : PreOrder truth_le.
Proof. unfold truth_le. split; [by right|]. intros x y z. naive_solver. Qed.

Lemma Forall2_truth_le_in l k t :
  Forall2 truth_le l k → t ∈ l → t ≠ Unknown → t ∈ k.
Proof.
  intros Hlk Ht Hne. apply list_elem_of_lookup in Ht as [i Hi].
  destruct (Forall2_lookup_l _ _ _ _ _ Hlk Hi) as (u & Hu & [->| ->]); [done|].
  by eapply list_elem_of_lookup_2.
Qed.

Lemma Forall2_truth_le_in_r l k t :
  Forall2 truth_le l k → t ∈ k → t ∈ l ∨ Unknown ∈ l.
Proof.
  intros Hlk Ht. apply list_elem_of_lookup in Ht as [i Hi].
  destruct (Forall2_lookup_r _ _ _ _ _ Hlk Hi) as (u & Hu & [->| ->]);
    [right|left]; by eapply list_elem_of_lookup_2.
Qed.

Lemma Truth_all_mono l k : Forall2 truth_le l k → truth_le (Truth_all l) (Truth_all k).
Proof.
  intros Hlk. unfold Truth_all. rewrite !Truth_all_go_spec. unfold truth_le.
  pose proof (Forall2_truth_le_in _ _ Unsatisfied Hlk).
  pose proof (Forall2_truth_le_in_r _ _ Unsatisfied Hlk).
  pose proof (Forall2_truth_le_in_r _ _ Unknown Hlk).
  repeat case_decide; naive_solver.
Qed.

Lemma Truth_any_mono l k : Forall2 truth_le l k → truth_le (Truth_any l) (Truth_any k).
Proof.
  intros Hlk. unfold Truth_any. rewrite !Truth_any_go_spec. unfold truth_le.
  pose proof (Forall2_truth_le_in _ _ Satisfied Hlk).
  pose proof (Forall2_truth_le_in_r _ _ Satisfied Hlk).
  pose proof (Forall2_truth_le_in_r _ _ Unknown Hlk).
  repeat case_decide; naive_solver.
Qed.

Lemma Truth_negate_mono t u : truth_le t u → truth_le (Truth_negate t) (Truth_negate u).
Proof. intros [-> | ->]; [by left|by right]. Qed.

(** Evidence that answers at least as much. *)
Definition evidence_le (e f : NarrativeEvidence) : Prop :=
  ev_turn e = ev_turn f ∧
  ∀ id, truth_le (default Unknown (semantic_results e !! id))
                 (default Unknown (semantic_results f !! id)).

Lemma evaluate_mono_list cs state e f :
  Forall (λ c, truth_le (evaluate c state e) (evaluate c state f)) cs →
  Forall2 truth_le (map (λ c, evaluate c state e) cs) (map (λ c, evaluate c state f) cs).
Proof. induction 1; simpl; by constructor. Qed.

Lemma evaluate_mono c state e f :
  evidence_le e f → truth_le (evaluate c state e) (evaluate c state f).
Proof.
  intros [Ht Hs]. induction c as [cs IH|cs IH|c IH| |t|id st|id cr] using NarrativeCondition_ind'; simpl.
  - by apply Truth_all_mono, evaluate_mono_list.
  - by apply Truth_any_mono, evaluate_mono_list.
  - by apply Truth_negate_mono.
  - by right.
  - rewrite Ht. by right.
  - by right.
  - apply Hs.
Qed.

(** ** The semantic conditions of a condition *)

Fixpoint semantics (c : NarrativeCondition) : list (NarrativeConditionId * BoundedText) :=
  match c with
  | Cond_All cs | Cond_Any cs => concat (map semantics cs)
  | Cond_Not c => semantics c
  | Cond_Semantic id cr => [(id, cr)]
  | _ => []
  end.

Definition add_semantic (found : gmap NarrativeConditionId BoundedText)
    (p : NarrativeConditionId * BoundedText) :=
  collect_semantic (Cond_Semantic p.1 p.2) found.

Lemma try_fold_concat {E A S} (f : S → A → result E S) (ls : list (list A)) s :
  try_fold (λ s l, try_fold f s l) s ls = try_fold f s (concat ls).
Proof.
  revert s. induction ls as [|l ls IH]; intros s; simpl; [done|].
  rewrite try_fold_app. by destruct (try_fold f s l).
Qed.

Lemma try_fold_ext {E A S} (f g : S → A → result E S) l s :
  (∀ s x, x ∈ l → f s x = g s x) → try_fold f s l = try_fold g s l.
Proof.
  revert s. induction l as [|x l IH]; intros s Hfg; simpl; [done|].
  rewrite Hfg by set_solver. destruct (g s x); [|done]. apply IH. set_solver.
Qed.

Lemma try_fold_map {E A B S} (f : S → B → result E S) (h : A → B) l s :
  try_fold f s (map h l) = try_fold (λ s x, f s (h x)) s l.
Proof. revert s. induction l as [|x l IH]; intros s; simpl; [done|]. by destruct (f s (h x)). Qed.

Lemma collect_semantic_list cs found :
  Forall (λ c, ∀ found, collect_semantic c found = try_fold add_semantic found (semantics c)) cs →
  try_fold (λ found c, collect_semantic c found) found cs
  = try_fold add_semantic found (concat (map semantics cs)).
Proof.
  intros Hcs. rewrite <-try_fold_concat, try_fold_map. apply try_fold_ext.
  intros s c Hc. by eapply Forall_forall in Hcs.
Qed.

(** Collecting is a loop over the semantic conditions, in order. *)
Lemma collect_semantic_fold c found :
  collect_semantic c found = try_fold add_semantic found (semantics c).
Proof.
  revert found. induction c as [cs IH|cs IH|c IH| |t|id st|id cr] using NarrativeCondition_ind';
    intros found; simpl; try done; try by apply collect_semantic_list.
  unfold add_semantic. simpl. by repeat case_match.
Qed.

Lemma collect_all_fold cs found :
  try_fold (λ found c, collect_semantic c found) found cs
  = try_fold add_semantic found (concat (map semantics cs)).
Proof. apply collect_semantic_list, Forall_true. intros. apply collect_semantic_fold. Qed.

Lemma add_semantic_ok found id cr found' :
  add_semantic found (id, cr) = Ok found' → found' = <[id := cr]> found ∧ found ⊆ found'.
Proof.
  unfold add_semantic. simpl. case_match eqn:Hf; [case_decide|]; intros [= <-]; subst.
  - by rewrite insert_id.
  - split; [done|]. by apply insert_subseteq.
Qed.

Lemma add_semantics_ok l found found' :
  try_fold add_semantic found l = Ok found' →
  found ⊆ found' ∧ (∀ id cr, (id, cr) ∈ l → found' !! id = Some cr) ∧
  ∀ id, is_Some (found' !! id) → is_Some (found !! id) ∨ ∃ cr, (id, cr) ∈ l.
Proof.
  revert found. induction l as [|[id cr] l IH]; intros found H; simpl in H.
  - injection H as <-. split_and!; [done|set_solver|auto].
  - res_step. apply add_semantic_ok in Heqr as [-> Hsub].
    apply IH in H as (Hsub' & Hin & Hdom). split_and!.
    + by etrans.
    + intros id' cr' [[= -> ->]|?]%elem_of_cons; [|by apply Hin].
      eapply lookup_weaken; [|done]. apply lookup_insert_eq.
    + intros id' Hid'. destruct (Hdom id' Hid') as [Hs|[cr' ?]]; [|right; exists cr'; set_solver].
      destruct (decide (id = id')) as [->|]; [right; exists cr; set_solver|].
      rewrite lookup_insert_ne in Hs by done. by left.
Qed.

(** A collection that agrees with a successful one succeeds. *)
Lemma add_semantics_sub l found F :
  found ⊆ F → (∀ id cr, (id, cr) ∈ l → F !! id = Some cr) →
  ∃ found', try_fold add_semantic found l = Ok found' ∧ found' ⊆ F.
Proof.
  revert found. induction l as [|[id cr] l IH]; intros found Hsub HF; simpl; [eauto|].
  assert (F !! id = Some cr) as Hid by (apply HF; set_solver).
  unfold add_semantic at 1. simpl. destruct (found !! id) as [ex|] eqn:Hf.
  - assert (ex = cr) as -> by (eapply lookup_weaken in Hf; [|done]; congruence).
    rewrite decide_True by done. apply IH; set_solver.
  - apply IH; [|set_solver]. by apply insert_subseteq_l.
Qed.

(** ** Two-valued reference semantics *)

(** The meaning of a condition when every semantic condition has an answer. *)
Fixpoint denote (c : NarrativeCondition) (state : NarrativeState) (turn : N)
    (v : NarrativeConditionId → bool) : bool :=
  match c with
  | Cond_All cs => forallb (λ c, denote c state turn v) cs
  | Cond_Any cs => existsb (λ c, denote c state turn v) cs
  | Cond_Not c => negb (denote c state turn v)
  | Cond_StoryStarted => true
  | Cond_TurnReaches t => (t <=? turn)%N
  | Cond_NodeIs id st => bool_decide (status state id = st)
  | Cond_Semantic id _ => v id
  end.

(** An assignment that contradicts no answer of the evidence. *)
Definition completes (v : NarrativeConditionId → bool) (e : NarrativeEvidence) : Prop :=
  ∀ id t, semantic_results e !! id = Some t → t = Unknown ∨ t = Truth_from_bool (v id).

Lemma Truth_all_from_bool (f : NarrativeCondition → bool) cs :
  Truth_all (map (λ c, Truth_from_bool (f c)) cs) = Truth_from_bool (forallb f cs).
Proof. unfold Truth_all. induction cs as [|c cs IH]; simpl; [done|]. by destruct (f c). Qed.

Lemma Truth_any_from_bool (f : NarrativeCondition → bool) cs :
  Truth_any (map (λ c, Truth_from_bool (f c)) cs) = Truth_from_bool (existsb f cs).
Proof. unfold Truth_any. induction cs as [|c cs IH]; simpl; [done|]. by destruct (f c). Qed.

Lemma Forall_truth_le_map cs (g : NarrativeCondition → Truth) (f : NarrativeCondition → bool) :
  Forall (λ c, truth_le (g c) (Truth_from_bool (f c))) cs →
  Forall2 truth_le (map g cs) (map (λ c, Truth_from_bool (f c)) cs).
Proof. induction 1; simpl; by constructor. Qed.

Lemma evaluate_denote c state e v :
  completes v e → truth_le (evaluate c state e) (Truth_from_bool (denote c state (ev_turn e) v)).
Proof.
  intros Hv. induction c as [cs IH|cs IH|c IH| |t|id st|id cr] using NarrativeCondition_ind'; simpl.
  - rewrite <-Truth_all_from_bool. by apply Truth_all_mono, Forall_truth_le_map.
  - rewrite <-Truth_any_from_bool. by apply Truth_any_mono, Forall_truth_le_map.
  - apply Truth_negate_mono in IH. by destruct (denote c state (ev_turn e) v).
  - by right.
  - by right.
  - by right.
  - destruct (semantic_results e !! id) eqn:Hid; [by apply Hv|by left].
Qed.

(** ** What a condition depends on *)

Definition agree_on (ids : list NarrativeConditionId) (e f : NarrativeEvidence) : Prop :=
  ev_turn e = ev_turn f ∧
  ∀ id, id ∈ ids → semantic_results e !! id = semantic_results f !! id.

Definition semantic_ids (c : NarrativeCondition) : list NarrativeConditionId := (semantics c).*1.

Lemma semantic_ids_in c cs id :
  c ∈ cs → id ∈ semantic_ids c → id ∈ (concat (map semantics cs)).*1.
Proof.
  unfold semantic_ids. rewrite !list_elem_of_fmap. intros Hc (p & -> & Hp).
  exists p. split; [done|]. apply elem_of_concat. exists (semantics c).
  split; [done|]. by apply list_elem_of_fmap_2.
Qed.

Lemma agree_on_sub ids ids' e f :
  (∀ id, id ∈ ids → id ∈ ids') → agree_on ids' e f → agree_on ids e f.
Proof. intros Hi [Ht Ha]. split; auto. Qed.

Lemma evaluate_agree_list cs state e f :
  Forall (λ c, agree_on (semantic_ids c) e f → evaluate c state e = evaluate c state f) cs →
  agree_on (concat (map semantics cs)).*1 e f →
  map (λ c, evaluate c state e) cs = map (λ c, evaluate c state f) cs.
Proof.
  intros Hcs Ha. apply map_ext_in. intros c Hc%list_elem_of_In.
  eapply Forall_forall in Hcs; [|done]. apply Hcs.
  eapply agree_on_sub; [|done]. intros id. by apply semantic_ids_in.
Qed.

Lemma evaluate_agree c state e f :
  agree_on (semantic_ids c) e f → evaluate c state e = evaluate c state f.
Proof.
  induction c as [cs IH|cs IH|c IH| |t|id st|id cr] using NarrativeCondition_ind';
    simpl; intros Ha.
  - f_equal. by apply evaluate_agree_list.
  - f_equal. by apply evaluate_agree_list.
  - f_equal. by apply IH.
  - done.
  - by rewrite (proj1 Ha).
  - done.
  - destruct Ha as [_ Ha]. rewrite Ha; [done|]. by apply list_elem_of_singleton.
Qed.

(** A condition whose semantic conditions are all answered has a definite truth. *)
Definition answered (ids : list NarrativeConditionId) (e : NarrativeEvidence) : Prop :=
  ∀ id, id ∈ ids → ∃ t, semantic_results e !! id = Some t ∧ t ≠ Unknown.

Lemma Truth_all_definite l : Unknown ∉ l → Truth_all l ≠ Unknown.
Proof. unfold Truth_all. rewrite Truth_all_go_spec. intros. by repeat case_decide. Qed.
Lemma Truth_any_definite l : Unknown ∉ l → Truth_any l ≠ Unknown.
Proof. unfold Truth_any. rewrite Truth_any_go_spec. intros. by repeat case_decide. Qed.

Lemma evaluate_definite_list cs state e :
  Forall (λ c, answered (semantic_ids c) e → evaluate c state e ≠ Unknown) cs →
  answered (concat (map semantics cs)).*1 e →
  Unknown ∉ map (λ c, evaluate c state e) cs.
Proof.
  intros Hcs Ha Hin. apply list_elem_of_fmap in Hin as (c & He & Hc).
  eapply Forall_forall in Hcs; [|done]. apply Hcs; [|done].
  intros id Hid. by apply Ha, (semantic_ids_in c).
Qed.

Lemma evaluate_definite c state e :
  answered (semantic_ids c) e → evaluate c state e ≠ Unknown.
Proof.
  induction c as [cs IH|cs IH|c IH| |t|id st|id cr] using NarrativeCondition_ind';
    simpl; intros Ha.
  - by apply Truth_all_definite, evaluate_definite_list.
  - by apply Truth_any_definite, evaluate_definite_list.
  - specialize (IH Ha). by destruct (evaluate c state e).
  - done.
  - by destruct (_ <=? _)%N.
  - by destruct (bool_decide _).
  - destruct (Ha id) as (t & -> & ?); [by apply list_elem_of_singleton|done].
Qed.

(** ** Plans *)

(** The conditions a plan's queries are collected from. *)
Definition watched (g : NarrativeGraph) (state : NarrativeState) : list NarrativeCondition :=
  entries (nodes g) ≫= λ '(id, node), watched_conditions node (status state id).

Lemma graph_queries_fold g state :
  graph_queries g state =
    let? found := try_fold add_semantic ∅ (concat (map semantics (watched g state))) in
    Ok (map (λ '(id, criterion), {| query_id := id; query_criterion := criterion |}) (entries found)).
Proof.
  unfold graph_queries, watched. rewrite <-collect_all_fold.
  generalize (∅ : gmap NarrativeConditionId BoundedText) as found.
  induction (entries (nodes g)) as [|[id n] l IH]; intros found; simpl; [done|].
  rewrite try_fold_app. destruct (try_fold _ found (watched_conditions _ _)); simpl; [|done].
  apply IH.
Qed.

Lemma graph_validate_fold g :
  graph_validate g = Ok tt →
  ∃ F, try_fold add_semantic ∅ (concat (map semantics (values (nodes g) ≫= node_conditions))) = Ok F
    ∧ ∀ c, c ∈ values (nodes g) ≫= node_conditions → validate_condition c (nodes g) = Ok tt.
Proof.
  unfold graph_validate. rewrite <-collect_all_fold.
  generalize (values (nodes g) ≫= node_conditions) as cs.
  generalize (∅ : gmap NarrativeConditionId BoundedText) as found.
  intros found cs H. res_step. clear H. rename value into F, Heqr into H.
  revert found H. induction cs as [|c cs IH]; intros found H; simpl in *.
  - exists found. split; [done|]. intros c Hc. by apply not_elem_of_nil in Hc.
  - destruct (validate_condition c (nodes g)) as [[]|] eqn:Hv; [|done].
    destruct (collect_semantic c found) as [found'|] eqn:Hc; [|done].
    apply IH in H as (F' & HF & Hvs). exists F'. split; [done|].
    intros c' [->|?]%elem_of_cons; auto.
Qed.

Lemma watched_in_conditions g state c :
  c ∈ watched g state → c ∈ values (nodes g) ≫= node_conditions.
Proof.
  unfold watched. rewrite !list_elem_of_bind. intros ([id n] & Hc & Hin%elem_of_entries).
  exists n. split; [|apply elem_of_values; eauto].
  unfold node_conditions, watched_conditions in *.
  destruct (status state id); set_solver.
Qed.

Lemma semantics_sub cs ds id cr :
  (∀ c, c ∈ cs → c ∈ ds) → (id, cr) ∈ concat (map semantics cs) → (id, cr) ∈ concat (map semantics ds).
Proof.
  intros Hsub. rewrite !elem_of_concat. intros (l & Hl & (c & -> & Hc)%list_elem_of_fmap).
  exists (semantics c). split; [done|]. apply list_elem_of_fmap_2. auto.
Qed.

(** Every semantic condition a watched condition reads is queried. *)
Lemma plan_queries_complete g state p c id :
  graph_plan g state = Ok p → c ∈ watched g state → id ∈ semantic_ids c →
  id ∈ query_id <$> queries p.
Proof.
  unfold graph_plan. rewrite graph_queries_fold. intros H Hc Hid. res_inv.
  apply add_semantics_ok in Heqr0 as (_ & Hin & _).
  pose proof (semantic_ids_in _ _ _ Hc Hid) as ([id' cr] & -> & Hp)%list_elem_of_fmap.
  apply Hin in Hp. rewrite <-list_fmap_compose.
  apply list_elem_of_fmap. exists (id', cr). split; [done|]. by apply elem_of_entries.
Qed.

(** ** Resolution *)
Lemma next_status_agree n st state e f :
  (∀ c, c ∈ watched_conditions n st → evaluate c state e = evaluate c state f) →
  next_status n st state e = next_status n st state f.
Proof.
  intros H. unfold next_status, holds, watched_conditions in *. destruct st; [| |done..].
  - by rewrite H by set_solver.
  - rewrite (H (complete_when n)) by set_solver.
    destruct (skip_when n) as [c|]; [|done]. by rewrite (H c) by set_solver.
Qed.

Lemma elem_of_resolve g state e t :
  t ∈ resolve_transitions g state e ↔
  ∃ node, nodes g !! trans_node_id t = Some node ∧
    next_status node (status state (trans_node_id t)) state e = Some (to t).
Proof.
  unfold resolve_transitions. rewrite list_elem_of_omap. split.
  - intros ([id n] & Hin%elem_of_entries & (to' & Hn & ->)%fmap_Some). simpl. eauto.
  - intros (n & Hn & Hs). exists (trans_node_id t, n).
    split; [by apply elem_of_entries|]. rewrite Hs. by destruct t.
Qed.

Lemma omap_fst_NoDup {A B} (f : string * A → option B) (h : B → string) l :
  (∀ p b, f p = Some b → h b = p.1) → NoDup l.*1 → NoDup (h <$> omap f l).
Proof.
  intros Hf. induction l as [|p l IH]; simpl; [constructor|].
  intros [Hp Hl]%NoDup_cons. destruct (f p) as [b|] eqn:Hb; [|auto]. simpl. constructor; [|auto].
  intros (b' & Hb' & (p' & Hp' & Hfp)%list_elem_of_omap)%list_elem_of_fmap.
  apply Hp, list_elem_of_fmap. exists p'. split; [|done].
  by rewrite <-(Hf p b), <-(Hf p' b').
Qed.

Lemma resolve_NoDup g state e : NoDup (trans_node_id <$> resolve_transitions g state e).
Proof.
  apply omap_fst_NoDup; [|apply NoDup_keys].
  intros [id n] t Ht. simpl. by apply fmap_Some in Ht as (? & _ & ->).
Qed.

Lemma node_status_apply state ts id :
  NoDup (trans_node_id <$> ts) →
  node_status (apply state ts) !! id =
    match list_find (λ t, trans_node_id t = id) ts with
    | Some (_, t) => Some (to t)
    | None => node_status state !! id
    end.
Proof.
  unfold apply. simpl. generalize (node_status state) as m.
  induction ts as [|t ts IH]; intros m; simpl; [done|]. intros [Ht Hts]%NoDup_cons.
  rewrite IH by done. case_decide as Hid.
  - rewrite Hid in Ht. destruct (list_find _ ts) as [[j t']|] eqn:Hf; simpl.
    + apply list_find_Some in Hf as (Hj & Hid' & _). exfalso. apply Ht.
      apply list_elem_of_fmap. exists t'. split; [done|]. by eapply list_elem_of_lookup_2.
    + by rewrite Hid, lookup_insert_eq.
  - destruct (list_find _ ts) as [[j t']|]; simpl; [done|]. by rewrite lookup_insert_ne.
Qed.

Lemma status_resolve g state e id :
  status (apply state (resolve_transitions g state e)) id =
    match nodes g !! id with
    | Some n => default (status state id) (next_status n (status state id) state e)
    | None => status state id
    end.
Proof.
  unfold status at 1. rewrite node_status_apply by apply resolve_NoDup.
  destruct (list_find _ _) as [[i t]|] eqn:Hf.
  - apply list_find_Some in Hf as (Hi & <- & _). apply list_elem_of_lookup_2 in Hi.
    apply elem_of_resolve in Hi as (n & -> & ->). done.
  - apply list_find_None in Hf. fold (status state id).
    destruct (nodes g !! id) as [n|] eqn:Hn; [|done].
    destruct (next_status n (status state id) state e) as [st|] eqn:Hs; [|done].
    exfalso. assert ({| trans_node_id := id; to := st |} ∈ resolve_transitions g state e) as Hin.
    { apply elem_of_resolve. eauto. }
    eapply Forall_forall in Hf; [|done]. by apply Hf.
Qed.

(** The moves a node can make in one resolution. *)
Inductive status_move : NodeStatus → NodeStatus → Prop :=
| move_stay st : status_move st st
| move_activate : status_move Node_Inactive Node_Active
| move_complete : status_move Node_Active Node_Completed
| move_skip : status_move Node_Active Node_Skipped.

Lemma next_status_move n st state e st' :
  next_status n st state e = Some st' → status_move st st'.
Proof. destruct st; simpl; repeat case_match; intros [= <-]; constructor. Qed.

(** ** Properties *)
Lemma graph_plan_total g state :
  graph_validate g = Ok tt → ∃ p, graph_plan g state = Ok p.
Proof.
  intros (F & HF & _)%graph_validate_fold. apply add_semantics_ok in HF as (_ & HF & _).
  unfold graph_plan. rewrite graph_queries_fold.
  destruct (add_semantics_sub (concat (map semantics (watched g state))) ∅ F)
    as (found & -> & _); [apply map_empty_subseteq| |eauto].
  intros id cr Hin. apply HF. eapply semantics_sub; [|done].
  apply watched_in_conditions.
Qed.

(** a graph accepted by [NarrativeGraph::validate] can be
    planned in every state: the semantic conditions of its nodes never
    conflict, so [plan] returns no error later in the story. *)
Theorem graph_validate_plan_total g state :
  graph_validate g = Ok tt → ∃ p, graph_plan g state = Ok p.
Proof. apply graph_plan_total. Qed.

Lemma plan_queries_enough g state p e f :
  graph_plan g state = Ok p →
  agree_on (query_id <$> queries p) e f →
  resolve g state e = resolve g state f.
Proof.
  intros Hp Ha. unfold resolve. assert (resolve_transitions g state e = resolve_transitions g state f) as ->; [|done].
  unfold resolve_transitions. apply list_omap_ext. apply Forall_Forall2_diag, Forall_forall.
  intros [id n] Hin. rewrite (next_status_agree n _ state e f); [done|].
  intros c Hc. apply evaluate_agree. eapply agree_on_sub; [|done].
  intros sid Hs. eapply plan_queries_complete; [done| |done].
  apply list_elem_of_bind. by exists (id, n).
Qed.

(** the queries of a plan are all the evidence [resolve] needs: two
    evidences for the same turn that give the same answers to the plan's
    queries resolve to the same transitions and the same completion flag. *)
Theorem plan_queries_suffice g state p e f :
  graph_plan g state = Ok p →
  agree_on (query_id <$> queries p) e f →
  resolve g state e = resolve g state f.
Proof. apply plan_queries_enough. Qed.

(** when every query of the plan is answered with a definite truth, every
    condition that the resolution looks at is decided, and evidence that only
    adds answers cannot change the resolution. *)
Theorem plan_answers_decide g state p e f :
  graph_plan g state = Ok p →
  answered (query_id <$> queries p) e →
  evidence_le e f →
  (∀ c, c ∈ watched g state → evaluate c state e ≠ Unknown) ∧
  resolve g state e = resolve g state f.
Proof.
  intros Hp Hans Hle.
  assert (∀ c, c ∈ watched g state → evaluate c state e ≠ Unknown) as Hdef.
  { intros c Hc. apply evaluate_definite. intros id Hid.
    by eapply Hans, plan_queries_complete. }
  split; [done|]. eapply plan_queries_enough; [done|]. destruct Hle as [Ht Hle].
  split; [done|]. intros id Hid. destruct (Hans id Hid) as (t & He & Hne).
  specialize (Hle id). rewrite He in Hle |- *. destruct Hle as [|Hle]; [done|].
  simpl in Hle. destruct (semantic_results f !! id); simpl in *; congruence.
Qed.

(** three-valued evaluation is sound for the two-valued meaning of a
    condition: a definite result is the value under every assignment of the
    semantic conditions that contradicts no answer of the evidence. *)
Theorem evaluate_sound c state e v :
  completes v e → evaluate c state e ≠ Unknown →
  evaluate c state e = Truth_from_bool (denote c state (ev_turn e) v).
Proof. intros Hv Hne. by destruct (evaluate_denote c state e v Hv). Qed.


(** a resolution completes the story exactly when some terminal node that is
    Active has its completion condition hold and its skip condition not. *)
Theorem resolve_completes g state e :
  story_completed (resolve g state e) = true ↔
  ∃ id n, nodes g !! id = Some n ∧ terminal n = true ∧ status state id = Node_Active ∧
    evaluate (complete_when n) state e = Satisfied ∧
    (∀ c, skip_when n = Some c → evaluate c state e ≠ Satisfied).
Proof.
  simpl. rewrite existsb_exists. split.
  - intros (t & Ht%list_elem_of_In & Hc). apply elem_of_resolve in Ht as (n & Hn & Hs).
    unfold completes_story in Hc. rewrite Hn in Hc.
    apply andb_prop in Hc as [Hto%bool_decide_eq_true Hterm]. rewrite Hto in Hs.
    exists (trans_node_id t), n. split_and!; [done..| | |];
      unfold next_status, holds in Hs; destruct (status state (trans_node_id t));
      repeat case_match; simplify_eq/=; try done;
      repeat match goal with H : bool_decide _ = true |- _ => apply bool_decide_eq_true in H
        | H : bool_decide _ = false |- _ => apply bool_decide_eq_false in H end; naive_solver.
  - intros (id & n & Hn & Hterm & Hst & Hc & Hskip).
    exists {| trans_node_id := id; to := Node_Completed |}. split.
    + apply list_elem_of_In, elem_of_resolve. exists n. split; [done|].
      cbn [trans_node_id to]. rewrite Hst. unfold next_status, holds. rewrite Hc.
      rewrite (bool_decide_eq_true_2 (Satisfied = Satisfied)) by done.
      destruct (skip_when n) as [c|]; [|done]. by rewrite bool_decide_eq_false_2 by auto.
    + unfold completes_story. cbn [trans_node_id to]. rewrite Hn.
      by rewrite bool_decide_eq_true_2.
Qed.

(** ** A concrete graph *)

Definition demo_graph : NarrativeGraph :=
  {| nodes := list_to_map [
       ("arrival", {| title := "Arrival"; dramatic_focus := Some "the gate";
          activate_when := Cond_StoryStarted; complete_when := Cond_Semantic "met_guard" "The guard was met.";
          skip_when := None;
          node_constraints := [{| forbid := "Do not open the gate."; window := WhileActive |}];
          terminal := false |});
       ("escape", {| title := "Escape"; dramatic_focus := None;
          activate_when := Cond_NodeIs "arrival" Node_Completed;
          complete_when := Cond_All [Cond_TurnReaches 3; Cond_Not (Cond_Semantic "caught" "They are caught.")];
          skip_when := Some (Cond_Semantic "gave_up" "They gave up.");
          node_constraints := []; terminal := true |})] |}.

Definition demo_state : NarrativeState :=
  {| node_status := list_to_map [("arrival", Node_Completed); ("escape", Node_Active)] |}.

Definition demo_evidence : NarrativeEvidence :=
  {| ev_turn := 4; semantic_results := list_to_map [("caught", Unsatisfied); ("gave_up", Unsatisfied)] |}.
Definition demo_evidence_more : NarrativeEvidence :=
  {| ev_turn := 4; semantic_results := <["met_guard" := Satisfied]> (semantic_results demo_evidence) |}.

Definition demo_plan : NarrativePlan :=
  {| directions := []; constraints := [];
     queries := [{| query_id := "caught"; query_criterion := "They are caught." |};
                 {| query_id := "gave_up"; query_criterion := "They gave up." |}] |}.

Example demo_initial :
  initial_state demo_graph = {| node_status := {["arrival" := Node_Active]} |}.
Proof. vm_compute. reflexivity. Qed.

Example demo_resolved :
  resolve demo_graph demo_state demo_evidence =
  {| transitions := [{| trans_node_id := "escape"; to := Node_Completed |}]; story_completed := true |}.
Proof. vm_compute. reflexivity. Qed.

Lemma graph_validate_plan_total_witness :
  ∃ p, graph_plan demo_graph demo_state = Ok p.
Proof. apply (graph_validate_plan_total demo_graph demo_state). vm_compute. reflexivity. Defined.

Lemma plan_queries_suffice_witness :
  resolve demo_graph demo_state demo_evidence = resolve demo_graph demo_state demo_evidence_more.
Proof.
  apply (plan_queries_suffice demo_graph demo_state demo_plan).
  - vm_compute. reflexivity.
  - split; [reflexivity|]. intros id Hid. simpl in Hid.
    apply elem_of_cons in Hid as [->|Hid]; [vm_compute; reflexivity|].
    apply list_elem_of_singleton in Hid as ->. vm_compute. reflexivity.
Defined.

Lemma plan_answers_decide_witness :
  (∀ c, c ∈ watched demo_graph demo_state → evaluate c demo_state demo_evidence ≠ Unknown) ∧
  resolve demo_graph demo_state demo_evidence = resolve demo_graph demo_state demo_evidence_more.
Proof.
  apply (plan_answers_decide demo_graph demo_state demo_plan).
  - vm_compute. reflexivity.
  - intros id Hid. simpl in Hid. exists Unsatisfied. split; [|discriminate].
    apply elem_of_cons in Hid as [->|Hid]; [vm_compute; reflexivity|].
    apply list_elem_of_singleton in Hid as ->. vm_compute. reflexivity.
  - split; [reflexivity|]. intros id. unfold truth_le, demo_evidence_more. simpl.
    destruct (decide ("met_guard" = id)) as [<-|Hne].
    + left. vm_compute. reflexivity.
    + right. f_equal. symmetry. apply lookup_insert_ne. exact Hne.
Defined.

Lemma evaluate_sound_witness :
  evaluate (Cond_Semantic "caught" "They are caught.") demo_state demo_evidence = Truth_from_bool false.
Proof.
  apply (evaluate_sound (Cond_Semantic "caught" "They are caught.") demo_state demo_evidence (λ _, false)).
  - intros id t Ht. right. simpl in Ht.
    apply lookup_insert_Some in Ht as [[_ <-]|[_ Ht]]; [reflexivity|].
    apply lookup_insert_Some in Ht as [[_ <-]|[_ Ht]]; [reflexivity|].
    by rewrite lookup_empty in Ht.
  - vm_compute. discriminate.
Defined.
