(* ===== verification/Scan.v ===== *)
(** * Scan: the text the activation engine searches

    [core/activation/scan.rs]: fragments of story text, normalised once per
    case mode, and the literal search over them. *)
From S2P Require Import Prelude.
From S2P Require Import Text.
From S2P Require Import Values.
From S2P Require Import Domain.

Inductive ScanFragmentKind :=
| PlayerContributionKind
| PlayerRoleName
| NarrativeDirectionKind
| RecentStory
| StoryOpening
| StorySummaryKind
| RecursionContent.

#[global] Instance ScanFragmentKind_eq_dec : EqDecision ScanFragmentKind.
Proof. solve_decision. Defined.

(** The derived [Ord]: declaration order. *)
Definition kind_rank (k : ScanFragmentKind) : N :=
  match k with
  | PlayerContributionKind => 0
  | PlayerRoleName => 1
  | NarrativeDirectionKind => 2
  | RecentStory => 3
  | StoryOpening => 4
  | StorySummaryKind => 5
  | RecursionContent => 6
  end.
Definition kind_compare (k l : ScanFragmentKind) : comparison := N.compare (kind_rank k) (kind_rank l).

Section scan.
Context `{Unicode}.

(** The loop of [normalize_text]: white space becomes one space between
    words. *)
Fixpoint normalize_go (case_sens : bool) (normalized : list N) (pending_space : bool) (cs : list N) :
    list N :=
  match cs with
  | [] => normalized
  | c :: cs' =>
      if is_whitespace c
      then normalize_go case_sens normalized (match normalized with [] => false | _ => true end) cs'
      else
        let normalized := if pending_space then normalized ++ [32%N] else normalized in
        let normalized := normalized ++ (if case_sens then [c] else to_lowercase c) in
        normalize_go case_sens normalized false cs'
  end.

Definition normalize_text (value : string) (case_sens : bool) : string :=
  encode (normalize_go case_sens [] false (chars value)).

Record ScanFragment := {
  frag_kind : ScanFragmentKind;
  frag_depth : N;
  case_sensitive_text : string;
  case_insensitive_text : string;
}.

Definition ScanFragment_new (kind : ScanFragmentKind) (depth : N) (text : string) : ScanFragment :=
  {| frag_kind := kind; frag_depth := depth;
     case_sensitive_text := normalize_text text true;
     case_insensitive_text := normalize_text text false |}.

Definition ScanFragment_is_empty (f : ScanFragment) : bool := is_empty (case_sensitive_text f).

Definition is_word_char (c : N) : bool := is_alphanumeric c || (c =? 95)%N.

(** [literal_count]: occurrences, counted only at word boundaries when
    [whole_words]. *)
Definition literal_count (haystack needle : string) (whole_words : bool) : N :=
  if is_empty needle then 0%N
  else nlen (filter (λ offset,
      negb whole_words ||
      (let before := last (chars (str_take offset haystack)) in
       let after := head (chars (str_drop (offset + String.length needle) haystack)) in
       negb (from_option is_word_char false before) && negb (from_option is_word_char false after)))
    (match_indices needle haystack 0 0)).

Definition count (f : ScanFragment) (needle : string) (case_sens whole_words : bool) : N :=
  let haystack := if case_sens then case_sensitive_text f else case_insensitive_text f in
  literal_count haystack needle whole_words.

(** [ScanBuffer::new]: drops empty fragments and recursion content, and sorts
    by kind and depth. *)
Definition fragment_compare (f g : ScanFragment) : comparison :=
  then_with (kind_compare (frag_kind f) (frag_kind g)) (N.compare (frag_depth f) (frag_depth g)).

Definition ScanBuffer_new (fragments : list ScanFragment) : list ScanFragment :=
  sort_by fragment_compare
    (filter (λ f, negb (ScanFragment_is_empty f) && bool_decide (frag_kind f ≠ RecursionContent))
      fragments).

(** ** Normalised text is its words separated by single spaces *)

Definition not_space (c : N) : Prop := is_whitespace c = false.

(** The words of a text, in order. *)
Fixpoint words (cs : list N) : list (list N) :=
  match cs with
  | [] => []
  | c :: cs' =>
      if is_whitespace c then words cs'
      else match cs' with
        | [] => [[c]]
        | d :: _ =>
            if is_whitespace d then [c] :: words cs'
            else match words cs' with
              | [] => [[c]]
              | w :: ws => (c :: w) :: ws
              end
        end
  end.

Definition unwords (ws : list (list N)) : list N :=
  match ws with
  | [] => []
  | w :: ws' => w ++ concat (map (cons 32%N) ws')
  end.

Definition word_ok (w : list N) : Prop := w ≠ [] ∧ Forall not_space w.

Lemma words_ok cs : Forall word_ok (words cs).
Proof.
  induction cs as [|c cs IH]; simpl; [constructor|].
  destruct (is_whitespace c) eqn:Hc; [done|].
  destruct cs as [|d cs']; [repeat constructor; done|].
  destruct (is_whitespace d); [constructor; [repeat constructor; done|done]|].
  destruct (words (d :: cs')) as [|w ws]; [repeat constructor; done|].
  apply Forall_cons in IH as [[Hw Hns] Hws]. constructor; [|done].
  split; [done|]. by constructor.
Qed.

Lemma unwords_snoc ws w : ws ≠ [] → unwords (ws ++ [w]) = unwords ws ++ 32%N :: w.
Proof.
  destruct ws as [|w0 ws]; [done|]. intros _. simpl.
  rewrite map_app, concat_app. simpl. by rewrite app_nil_r, !app_assoc.
Qed.

Lemma unwords_last ini w w' : unwords (ini ++ [w ++ w']) = unwords (ini ++ [w]) ++ w'.
Proof.
  destruct ini as [|w0 ini]; simpl; [by rewrite !app_nil_r|].
  rewrite !map_app, !concat_app. simpl. by rewrite !app_nil_r, <-!app_assoc.
Qed.

Lemma unwords_nil ws : Forall word_ok ws → unwords ws = [] → ws = [].
Proof. destruct ws as [|w ws]; [done|]. intros [[Hw _] _]%Forall_cons. by destruct w. Qed.

Lemma words_cons_space c cs : is_whitespace c = true → words (c :: cs) = words cs.
Proof. simpl. by intros ->. Qed.

(** One word read into the loop. *)
Lemma normalize_go_words ini w cs pending :
  Forall word_ok ini →
  (pending = true → w = [] ∧ ini ≠ []) →
  (w = [] → ini ≠ [] → pending = true) →
  Forall not_space w →
  normalize_go true (if decide (w = []) then unwords ini else unwords (ini ++ [w])) pending cs =
  unwords (ini ++
    match w with
    | [] => words cs
    | _ => match cs with
           | [] => [w]
           | c :: _ => if is_whitespace c then w :: words cs
                       else match words cs with [] => [w] | w' :: ws => (w ++ w') :: ws end
           end
    end).
Proof.
  revert ini w pending. induction cs as [|c cs IH]; intros ini w pending Hini Hp Hp' Hw.
  { simpl. case_decide as Hd; [subst; simpl; by rewrite app_nil_r|]. by destruct w. }
  cbn [normalize_go]. destruct (is_whitespace c) eqn:Hc.
  - rewrite words_cons_space by done. destruct w as [|d w].
    + rewrite decide_True by done. rewrite <-(IH ini []) with (pending := match unwords ini with [] => false | _ => true end); [|done| | |constructor].
      * by rewrite decide_True.
      * intros Hne. split; [done|]. by intros ->.
      * intros _ Hne. destruct (unwords ini) eqn:E; [|done]. by apply unwords_nil in E.
    + rewrite decide_False by done.
      assert (match unwords (ini ++ [d :: w]) with [] => false | _ => true end = true) as ->.
      { destruct (unwords _) eqn:E; [|done]. apply unwords_nil in E; [by destruct ini|].
        apply Forall_app; split; [done|]. by apply Forall_singleton. }
      specialize (IH (ini ++ [d :: w]) [] true). rewrite decide_True in IH by done.
      rewrite IH; [by rewrite <-app_assoc| |intros _; split; [done|by destruct ini]|done|constructor].
      apply Forall_app; split; [done|]. by apply Forall_singleton.
  - assert (words (c :: cs) = match cs with
      | [] => [[c]]
      | d :: _ => if is_whitespace d then [c] :: words cs
                  else match words cs with [] => [[c]] | w :: ws => (c :: w) :: ws end end) as Hwc.
    { simpl. rewrite Hc. by destruct cs. }
    assert (not_space c) as Hnc by done.
    set (base := (if pending then _ else _) ++ _).
    assert (base = unwords (ini ++ [w ++ [c]])) as ->.
    { subst base. destruct pending.
      - destruct Hp as [-> Hne]; [done|]. rewrite decide_True by done. simpl.
        by rewrite unwords_snoc, <-app_assoc.
      - case_decide as Hd; [|by rewrite unwords_last]. subst w.
        destruct ini; [done|]. discriminate (Hp' eq_refl ltac:(done)). }
    specialize (IH ini (w ++ [c]) false). rewrite decide_False in IH by (by destruct w).
    rewrite IH; [|done|done|by destruct w|by apply Forall_app; split; [|apply Forall_singleton]].
    f_equal. f_equal. rewrite Hwc. destruct (w ++ [c]) as [|x xs] eqn:Ex; [by destruct w|].
    rewrite <-Ex. destruct cs as [|d cs']; [by destruct w|].
    destruct (is_whitespace d) eqn:Hd; [by destruct w|].
    destruct (words (d :: cs')) as [|w' ws]; destruct w; simpl; rewrite ?Hc; try done.
    by rewrite <-app_assoc.
Qed.

Lemma normalize_words cs : normalize_go true [] false cs = unwords (words cs).
Proof. apply (normalize_go_words [] []); try done; constructor. Qed.

Lemma words_app_space w cs :
  word_ok w → words (w ++ 32%N :: cs) = w :: words cs.
Proof.
  intros [Hne Hw]. induction Hw as [|c w Hc Hw IH]; [done|].
  destruct w as [|d w]; [simpl; by rewrite Hc|].
  specialize (IH ltac:(done)). apply Forall_cons in Hw as [Hd _].
  cbn [app] in *. cbn [words]. rewrite Hc, Hd. cbn [words] in IH. rewrite Hd in IH.
  destruct (w ++ 32%N :: cs) eqn:E; [by destruct w|]. by rewrite IH.
Qed.

Lemma words_word w : word_ok w → words w = [w].
Proof.
  intros [Hne Hw]. induction Hw as [|c w Hc Hw IH]; [done|].
  destruct w as [|d w]; [simpl; by rewrite Hc|].
  specialize (IH ltac:(done)). apply Forall_cons in Hw as [Hd _].
  cbn [words] in *. rewrite Hc, Hd in *. by rewrite IH.
Qed.

Lemma words_unwords ws : Forall word_ok ws → words (unwords ws) = ws.
Proof.
  intros Hws. destruct ws as [|w ws]; [done|]. simpl. revert w Hws.
  induction ws as [|w' ws IH]; intros w [Hw Hws]%Forall_cons; simpl.
  - rewrite app_nil_r. by apply words_word.
  - rewrite words_app_space by done. by rewrite IH.
Qed.

Lemma normalize_scalar cs : Forall is_scalar cs → Forall is_scalar (unwords (words cs)).
Proof.
  intros Hcs. assert (Forall (Forall is_scalar) (words cs)) as Hws.
  { induction Hcs as [|c cs Hc Hcs IH]; simpl; [constructor|].
    destruct (is_whitespace c); [done|]. destruct cs as [|d cs']; [repeat constructor; done|].
    destruct (is_whitespace d); [constructor; [repeat constructor; done|done]|].
    destruct (words (d :: cs')); [repeat constructor; done|].
    apply Forall_cons in IH as [? ?]. constructor; [by constructor|done]. }
  destruct Hws as [|w ws Hw Hws]; simpl; [constructor|]. apply Forall_app; split; [done|].
  induction Hws; simpl; constructor; [done|]. by apply Forall_app.
Qed.

Lemma chars_normalize s :
  valid_utf8 s → chars (normalize_text s true) = unwords (words (chars s)).
Proof.
  intros Hs. unfold normalize_text. rewrite normalize_words. apply chars_encode.
  by apply normalize_scalar, chars_scalar.
Qed.

(** case-sensitive normalisation keeps exactly the words of a text,
    separated by single spaces with none at either end: it never changes which
    words appear or their order, and normalising twice changes nothing. *)
Theorem normalize_text_spec s :
  valid_utf8 s →
  words (chars (normalize_text s true)) = words (chars s) ∧
  normalize_text (normalize_text s true) true = normalize_text s true.
Proof.
  intros Hs. rewrite chars_normalize by done. split; [apply words_unwords, words_ok|].
  unfold normalize_text at 1. rewrite chars_normalize by done.
  unfold normalize_text. rewrite !normalize_words.
  by rewrite words_unwords by apply words_ok.
Qed.

Lemma elem_of_ScanBuffer_new f fs :
  f ∈ ScanBuffer_new fs ↔
  f ∈ fs ∧ ScanFragment_is_empty f = false ∧ frag_kind f ≠ RecursionContent.
Proof.
  unfold ScanBuffer_new. rewrite elem_of_sort_by, list_elem_of_filter.
  rewrite andb_True, negb_True, bool_decide_spec. destruct (ScanFragment_is_empty f); naive_solver.
Qed.

End scan.

(** A text with irregular white space, for evaluation. *)
Definition demo_text : string := "  The  old" +:+ String (byte_of 10) "gate ".

Lemma normalize_text_spec_witness :
  words (chars (@normalize_text ascii_unicode demo_text true)) = words (chars demo_text) ∧
  @normalize_text ascii_unicode (@normalize_text ascii_unicode demo_text true) true
  = @normalize_text ascii_unicode demo_text true.
Proof.
  apply (@normalize_text_spec ascii_unicode). apply valid_utf8b_true. reflexivity.
Defined.

Example normalize_demo : @normalize_text ascii_unicode demo_text false = "the old gate".
Proof. reflexivity. Qed.

Example literal_count_demo :
  @literal_count ascii_unicode "gate, gates and gate" "gate" true = 2%N.
Proof. reflexivity. Qed.
