(* ===== verification/Activation.v ===== *)
(** * Activation: the world-knowledge activation engine

    [core/activation/engine.rs] and [config.rs]: candidates are matched
    against the scan buffer, grouped, admitted under a budget, and their
    content fed back to the search until nothing new activates.  The session
    is a record threaded through the methods; the turn and the configuration,
    which no method changes, are section variables.  SHA-256 (the [sha2] crate)
    is the [Sha256] class. *)
From S2P Require Import Prelude.
From S2P Require Import Text.
From S2P Require Import Values.
From S2P Require Import Domain.
From S2P Require Import Scan.

Record ActivationConfig := {
  cfg_scan_depth : N;
  cfg_max_scan_depth : N;
  cfg_max_recursion_steps : N;
  cfg_max_activated_entries : N;
  cfg_max_knowledge_bytes : N;
}.

Definition ActivationConfig_default : ActivationConfig :=
  {| cfg_scan_depth := 2; cfg_max_scan_depth := 8; cfg_max_recursion_steps := 3;
     cfg_max_activated_entries := 16; cfg_max_knowledge_bytes := 16 * 1024 |}.

Record ActivationTurn := { at_story_id : StoryId; at_turn_number : TurnNumber }.

Inductive ActivationClass := Class_Constant | Class_TextMatch | Class_Recursion.
Inductive ActivationPatternKind := Primary | Secondary.
Inductive ActivationRejection :=
| RecursionExcluded | RecursionLocked | SecondaryCondition | GroupLoser | Probability | Budget.
Inductive ActivationStopReason := Stop_Complete | Stop_RecursionExhausted | Stop_BudgetTrimmed.

#[global] Instance ActivationPatternKind_eq_dec : EqDecision ActivationPatternKind.
Proof. solve_decision. Defined.
#[global] Instance ActivationRejection_eq_dec : EqDecision ActivationRejection.
Proof. solve_decision. Defined.

Definition rejection_rank (r : ActivationRejection) : N :=
  match r with
  | RecursionExcluded => 0 | RecursionLocked => 1 | SecondaryCondition => 2
  | GroupLoser => 3 | Probability => 4 | Budget => 5
  end.
Definition rejection_of_rank (n : N) : option ActivationRejection :=
  match n with
  | 0 => Some RecursionExcluded | 1 => Some RecursionLocked | 2 => Some SecondaryCondition
  | 3 => Some GroupLoser | 4 => Some Probability | 5 => Some Budget | _ => None
  end%N.
#[global] Instance ActivationRejection_countable : Countable ActivationRejection.
Proof. apply (inj_countable rejection_rank rejection_of_rank). by intros []. Defined.

Definition class_rank (c : ActivationClass) : N :=
  match c with Class_Constant => 0 | Class_TextMatch => 1 | Class_Recursion => 2 end.

Record ActivationEvidence := {
  pattern_kind : ActivationPatternKind;
  pattern_ordinal : N;
  fragment_kind : ScanFragmentKind;
  ev_depth : N;
  match_count : N;
}.

(** [SecondaryLogic::holds] and [scores_matches]. *)
Definition logic_holds (l : SecondaryLogic) (matched total : N) : bool :=
  if (total =? 0)%N then true
  else match l with
  | AndAny => 0 <? matched
  | AndAll => matched =? total
  | NotAny => matched =? 0
  | NotAll => matched <? total
  end%N.

Definition scores_matches (l : SecondaryLogic) : bool :=
  match l with AndAny | AndAll => true | NotAny | NotAll => false end.

(** The SHA-256 function of the [sha2] crate: a digest of 32 bytes. *)
Class Sha256 := sha256 : string → string.

Definition hash_field (hasher value : string) : string :=
  hasher +:+ u64_be_bytes (slen value) +:+ value.

Definition digest_u64 `{Sha256} (hasher : string) : N := u64_from_be (sha256 hasher).

(** What the engine asks of a key type: [K: Clone + Ord + Display]. *)
Class EngineKey (K : Type) := {
  ek_compare : K → K → comparison;
  ek_laws :: OrdLaws ek_compare;
  ek_display : K → string;
}.

Definition option_compare {A} (cmp : A → A → comparison) (x y : option A) : comparison :=
  match x, y with
  | None, None => Eq
  | None, Some _ => Lt
  | Some _, None => Gt
  | Some a, Some b => cmp a b
  end.

Section engine.
Context `{Unicode} `{Sha256} {K : Type} `{!EngineKey K}.

Record ActivationCandidate := {
  cand_key : K;
  cand_rule : ActivationRule;
  cand_content : BoundedText;
}.

Record ActivatedEntry := {
  act_key : K;
  act_class : ActivationClass;
  act_recursion_level : N;
  act_evidence : list ActivationEvidence;
}.

Record ActivationOutcome := {
  out_activated : list ActivatedEntry;
  out_rejections : gmap ActivationRejection N;
  out_recursion_level : N;
  out_stop_reason : ActivationStopReason;
}.

Context (turn : ActivationTurn) (config : ActivationConfig).

(** ** Entries *)

Record Entry := {
  candidate : ActivationCandidate;
  primary : list string;
  secondary : list string;
  entry_scan_depth : N;
  evidence : list ActivationEvidence;
}.

Definition Entry_new (c : ActivationCandidate) : Entry :=
  let m := match_rule (cand_rule c) in
  let needles := map (λ key, normalize_text key (case_sensitive m)) in
  {| candidate := c;
     primary := needles (keys_ m);
     secondary := needles (secondary_keys m);
     entry_scan_depth := (default (cfg_scan_depth config) (match_scan_depth m)
                          `min` cfg_max_scan_depth config)%N;
     evidence := [] |}.

Definition set_evidence (e : Entry) (ev : list ActivationEvidence) : Entry :=
  {| candidate := candidate e; primary := primary e; secondary := secondary e;
     entry_scan_depth := entry_scan_depth e; evidence := ev |}.

(** [record_matches]: the first match of each pattern leaves evidence. *)
Definition record_match (kind : ActivationPatternKind) (f : ScanFragment) (case_sens whole_words : bool)
    (ev : list ActivationEvidence) (ordinal : nat) (needle : string) : list ActivationEvidence :=
  let ordinal16 := clamp U16_MAX (N.of_nat ordinal) in
  if existsb (λ item, bool_decide (pattern_kind item = kind) && (pattern_ordinal item =? ordinal16)%N) ev
  then ev
  else
    let c := count f needle case_sens whole_words in
    if (c =? 0)%N then ev
    else ev ++ [{| pattern_kind := kind; pattern_ordinal := ordinal16;
                   fragment_kind := frag_kind f; ev_depth := frag_depth f;
                   match_count := clamp U16_MAX c |}].

Definition record_matches (ev : list ActivationEvidence) (needles : list string)
    (kind : ActivationPatternKind) (f : ScanFragment) (case_sens whole_words : bool) :
    list ActivationEvidence :=
  foldl (λ ev '(ordinal, needle), record_match kind f case_sens whole_words ev ordinal needle)
    ev (imap pair needles).

Definition Entry_ingest (e : Entry) (f : ScanFragment) (base : bool) : Entry :=
  if base && (entry_scan_depth e <? frag_depth f)%N then e
  else
    let m := match_rule (cand_rule (candidate e)) in
    let ev := record_matches (evidence e) (primary e) Primary f (case_sensitive m) (match_whole_words m) in
    set_evidence e (record_matches ev (secondary e) Secondary f (case_sensitive m) (match_whole_words m)).

Definition matched (e : Entry) (kind : ActivationPatternKind) : N :=
  nlen (filter (λ item, pattern_kind item = kind) (evidence e)).

Definition recursion_only (e : Entry) : bool :=
  forallb (λ item, bool_decide (fragment_kind item = RecursionContent))
    (filter (λ item, pattern_kind item = Primary) (evidence e)).

Definition spot_compare : ScanFragmentKind * N → ScanFragmentKind * N → comparison :=
  prod_compare kind_compare N.compare.

Definition best_evidence (e : Entry) : option (ScanFragmentKind * N) :=
  min_by spot_compare (map (λ item, (fragment_kind item, ev_depth item)) (evidence e)).

(** ** The session *)

Record Candidate := { index : nat; class : ActivationClass; score : N }.

Record Session := {
  entries_ : list Entry;
  level : N;
  activated : list ActivatedEntry;
  activated_indices : gset nat;
  terminal_ : gmap nat ActivationRejection;
  deferred : gmap nat ActivationRejection;
  group_winners : gmap ActivationGroupKey nat;
  knowledge_bytes : N;
  budget_trimmed : bool;
  recursion_exhausted : bool;
}.

Definition Session_new (candidates : list ActivationCandidate) : Session :=
  {| entries_ := map Entry_new candidates; level := 0; activated := []; activated_indices := ∅;
     terminal_ := ∅; deferred := ∅; group_winners := ∅; knowledge_bytes := 0;
     budget_trimmed := false; recursion_exhausted := false |}.

Definition set_entries_ (s : Session) (es : list Entry) : Session :=
  {| entries_ := es; level := level s; activated := activated s;
     activated_indices := activated_indices s; terminal_ := terminal_ s; deferred := deferred s;
     group_winners := group_winners s; knowledge_bytes := knowledge_bytes s;
     budget_trimmed := budget_trimmed s; recursion_exhausted := recursion_exhausted s |}.

Definition set_level (s : Session) (l : N) : Session :=
  {| entries_ := entries_ s; level := l; activated := activated s;
     activated_indices := activated_indices s; terminal_ := terminal_ s; deferred := deferred s;
     group_winners := group_winners s; knowledge_bytes := knowledge_bytes s;
     budget_trimmed := budget_trimmed s; recursion_exhausted := recursion_exhausted s |}.

Definition set_exhausted (s : Session) : Session :=
  {| entries_ := entries_ s; level := level s; activated := activated s;
     activated_indices := activated_indices s; terminal_ := terminal_ s; deferred := deferred s;
     group_winners := group_winners s; knowledge_bytes := knowledge_bytes s;
     budget_trimmed := budget_trimmed s; recursion_exhausted := true |}.

Definition set_verdicts (s : Session) (t d : gmap nat ActivationRejection) : Session :=
  {| entries_ := entries_ s; level := level s; activated := activated s;
     activated_indices := activated_indices s; terminal_ := t; deferred := d;
     group_winners := group_winners s; knowledge_bytes := knowledge_bytes s;
     budget_trimmed := budget_trimmed s; recursion_exhausted := recursion_exhausted s |}.

Definition set_groups (s : Session) (t : gmap nat ActivationRejection)
    (w : gmap ActivationGroupKey nat) : Session :=
  {| entries_ := entries_ s; level := level s; activated := activated s;
     activated_indices := activated_indices s; terminal_ := t; deferred := deferred s;
     group_winners := w; knowledge_bytes := knowledge_bytes s;
     budget_trimmed := budget_trimmed s; recursion_exhausted := recursion_exhausted s |}.

(** An admission reject, with the budget flag it leaves. *)
Definition reject (s : Session) (i : nat) (r : ActivationRejection) (trimmed : bool) : Session :=
  {| entries_ := entries_ s; level := level s; activated := activated s;
     activated_indices := activated_indices s; terminal_ := <[i := r]> (terminal_ s);
     deferred := deferred s; group_winners := group_winners s; knowledge_bytes := knowledge_bytes s;
     budget_trimmed := trimmed; recursion_exhausted := recursion_exhausted s |}.

Definition accept (s : Session) (i : nat) (a : ActivatedEntry) (bytes : N) : Session :=
  {| entries_ := entries_ s; level := level s; activated := activated s ++ [a];
     activated_indices := {[i]} ∪ activated_indices s; terminal_ := terminal_ s;
     deferred := deferred s; group_winners := group_winners s; knowledge_bytes := bytes;
     budget_trimmed := budget_trimmed s; recursion_exhausted := recursion_exhausted s |}.

(** [self.rule(i)] and [self.key(i)]: indices come from enumerating the
    entries, see [collect_indices]. *)
Definition rule (s : Session) (i : nat) : ActivationRule :=
  from_option (λ e, cand_rule (candidate e)) ActivationRule_default (entries_ s !! i).
Definition key (s : Session) (i : nat) : option K :=
  (λ e, cand_key (candidate e)) <$> entries_ s !! i.
Definition key_text (s : Session) (i : nat) : string := from_option ek_display "" (key s i).
Definition key_order (s : Session) (i j : nat) : comparison :=
  option_compare ek_compare (key s i) (key s j).

Definition settled (s : Session) (i : nat) : bool :=
  bool_decide (i ∈ activated_indices s) || bool_decide (is_Some (terminal_ s !! i)).

Definition ingest (s : Session) (fragments : list ScanFragment) (base : bool) : Session :=
  set_entries_ s (imap (λ i e,
    if settled s i then e else foldl (λ e f, Entry_ingest e f base) e fragments) (entries_ s)).

(** The body of the loop of [collect], for one entry. *)
Definition collect_entry (s : Session) (i : nat) (e : Entry) : Session * option Candidate :=
  if settled s i then (s, None) else
  let r := cand_rule (candidate e) in
  if negb (enabled (mode r)) then (s, None) else
  if constant (mode r) then
    (s, if (level s =? 0)%N then Some {| index := i; class := Class_Constant; score := 0 |} else None)
  else
  let prim := matched e Primary in
  if (prim =? 0)%N then (s, None) else
  if from_option (λ l, level s <? l)%N false (delay_until_recursion (recursion r)) then
    (set_verdicts s (terminal_ s) (<[i := RecursionLocked]> (deferred s)), None)
  else
  let rec_only := recursion_only e in
  if rec_only && exclude_recursion (recursion r) then
    (set_verdicts s (<[i := RecursionExcluded]> (terminal_ s)) (deferred s), None)
  else
  let sec := matched e Secondary in
  let logic := secondary_logic (match_rule r) in
  if negb (logic_holds logic sec (nlen (secondary e))) then
    (set_verdicts s (terminal_ s) (<[i := SecondaryCondition]> (deferred s)), None)
  else
    let sc := sat_add USIZE_MAX prim (if scores_matches logic then sec else 0%N) in
    (set_verdicts s (terminal_ s) (delete i (deferred s)),
     Some {| index := i; class := if rec_only then Class_Recursion else Class_TextMatch;
             score := clamp U16_MAX sc |}).

Definition collect (s : Session) : Session * list Candidate :=
  foldl (λ '(s, cs) '(i, e),
      let '(s', c) := collect_entry s i e in (s', cs ++ option_list c))
    (s, []) (imap pair (entries_ s)).

(** ** Groups *)

Definition in_group (s : Session) (g : ActivationGroupKey) (c : Candidate) : bool :=
  bool_decide (g ∈ groups (selection (rule s (index c)))).

(** [(group_override, score, order)], compared lexicographically. *)
Definition rank (s : Session) (c : Candidate) : bool * N * Z :=
  let sel := selection (rule s (index c)) in
  (group_override sel, if use_group_scoring sel then score c else 0%N, order sel).

Definition rank_compare : bool * N * Z → bool * N * Z → comparison :=
  prod_compare (prod_compare bool_compare N.compare) Z.compare.

Definition weight (s : Session) (i : nat) : N := group_weight (selection (rule s i)).

Definition total_weight (s : Session) (tied : list nat) : N := foldr (λ i t, weight s i + t)%N 0%N tied.

(** The weighted draw: [sample] is less than the total. *)
Fixpoint draw (s : Session) (sample : N) (tied : list nat) : option nat :=
  match tied with
  | [] => None
  | i :: tied' =>
      if (sample <? weight s i)%N then Some i else draw s (sample - weight s i)%N tied'
  end.

Definition hash_turn (hasher : string) : string :=
  hash_field (hash_field hasher (at_story_id turn)) (u64_be_bytes (at_turn_number turn)).

Definition tied_members (s : Session) (members : list Candidate) (best : bool * N * Z) : list nat :=
  sort_by (key_order s) (map index (filter (λ c, rank s c = best) members)).

Definition group_sample (s : Session) (g : ActivationGroupKey) (tied : list nat) (total : N) : N :=
  let hasher := hash_field "" "aise.activation.group.v1" in
  let hasher := hash_field (hash_turn hasher) g in
  let hasher := foldl (λ h i,
    hash_field (hash_field h (key_text s i)) (u64_be_bytes (weight s i))) hasher tied in
  (digest_u64 hasher mod total)%N.

Definition group_winner (s : Session) (g : ActivationGroupKey) (members : list Candidate) : option nat :=
  match max_by rank_compare (map (rank s) members) with
  | None => None
  | Some best =>
      let tied := tied_members s members best in
      let total := total_weight s tied in
      if (total =? 0)%N then head tied else draw s (group_sample s g tied total) tied
  end.

(** The body of the loop of [resolve_groups], for one group. *)
Definition resolve_group (s : Session) (eligible : list Candidate) (g : ActivationGroupKey) :
    Session * list Candidate :=
  let members := filter (λ c, in_group s g c) eligible in
  match members with
  | [] => (s, eligible)
  | _ =>
      let winner := match group_winners s !! g with
                    | Some _ => None
                    | None => group_winner s g members
                    end in
      let losers := filter (λ c, Some (index c) ≠ winner) members in
      let t := foldl (λ t c, <[index c := GroupLoser]> t) (terminal_ s) losers in
      let eligible' := filter (λ c,
        Some (index c) = winner ∨ index c ∉ map index members) eligible in
      let w := match winner with
               | Some i => <[g := i]> (group_winners s)
               | None => group_winners s
               end in
      (set_groups s t w, eligible')
  end.

Definition group_set (s : Session) (candidates : list Candidate) : gset ActivationGroupKey :=
  list_to_set (candidates ≫= λ c, groups (selection (rule s (index c)))).

Definition resolve_groups (s : Session) (candidates : list Candidate) : Session * list Candidate :=
  foldl (λ '(s, eligible) g, resolve_group s eligible g) (s, candidates)
    (set_entries (group_set s candidates)).

(** ** Admission *)

Definition probability_admits (s : Session) (i : nat) (percent : ActivationProbability) : bool :=
  if (percent =? 0)%N then false
  else if (100 <=? percent)%N then true
  else
    let hasher := hash_field "" "aise.activation.probability.v1" in
    let hasher := hash_field (hash_turn hasher) (key_text s i) in
    (digest_u64 hasher mod 100 <? percent)%N.

Definition ordering_compare (s : Session) (c d : Candidate) : comparison :=
  let order_of c := order (selection (rule s (index c))) in
  let best c := from_option best_evidence None (entries_ s !! index c) in
  then_with (N.compare (class_rank (class c)) (class_rank (class d)))
    (then_with (Z.compare (order_of d) (order_of c))
      (then_with (N.compare (score d) (score c))
        (then_with (option_compare spot_compare (best c) (best d))
          (key_order s (index c) (index d))))).

(** The body of the loop of [admit], for one candidate. *)
Definition admit_candidate (s : Session) (fragments : list ScanFragment) (c : Candidate) :
    Session * list ScanFragment :=
  match entries_ s !! index c with
  | None => (s, fragments)
  | Some e =>
      let r := cand_rule (candidate e) in
      if negb (probability_admits s (index c) (probability (selection r))) then
        (reject s (index c) Probability (budget_trimmed s), fragments)
      else
      let text := cand_content (candidate e) in
      let bytes := sat_add USIZE_MAX (knowledge_bytes s) (slen text) in
      if (cfg_max_activated_entries config <=? nlen (activated s))%N
         || (cfg_max_knowledge_bytes config <? bytes)%N then
        (reject s (index c) Budget true, fragments)
      else
      let a := {| act_key := cand_key (candidate e); act_class := class c;
                  act_recursion_level := level s; act_evidence := evidence e |} in
      (accept s (index c) a bytes,
       if prevent_recursion (recursion r) then fragments
       else fragments ++ [ScanFragment_new RecursionContent (sat_add U16_MAX (level s) 1) text])
  end.

Definition admit_all (s : Session) (candidates : list Candidate) : Session * list ScanFragment :=
  foldl (λ '(s, fragments) c, admit_candidate s fragments c) (s, [])
    (sort_by (ordering_compare s) candidates).

(** ** The loop *)

Inductive round_result := Stop (s : Session) | Next (s : Session).

(** One iteration of [run]. *)
Definition round (s : Session) : round_result :=
  let '(s, candidates) := collect s in
  match candidates with
  | [] => Stop s
  | _ =>
      let '(s, eligible) := resolve_groups s candidates in
      let '(s, fragments) := admit_all s eligible in
      match fragments with
      | [] => Stop s
      | _ =>
          if (cfg_max_recursion_steps config <=? level s)%N then Stop (set_exhausted s)
          else Next (ingest (set_level s (sat_add U16_MAX (level s) 1)) fragments false)
      end
  end.

Fixpoint run (fuel : nat) (s : Session) : option Session :=
  match fuel with
  | O => None
  | S fuel' => match round s with Stop s' => Some s' | Next s' => run fuel' s' end
  end.

Definition finish (s : Session) : ActivationOutcome :=
  let live := filter (λ '(i, _), i ∉ activated_indices s ∧ terminal_ s !! i = None)
    (map_to_list (deferred s)) in
  let rejections := foldl (λ m r, <[r := (default 0 (m !! r) + 1)%N]> m) ∅
    ((map_to_list (terminal_ s)).*2 ++ live.*2) in
  {| out_activated := activated s;
     out_rejections := rejections;
     out_recursion_level := level s;
     out_stop_reason := if recursion_exhausted s then Stop_RecursionExhausted
                        else if budget_trimmed s then Stop_BudgetTrimmed else Stop_Complete |}.

(** Each iteration that goes on raises the level, so one more iteration than
    [max_recursion_steps] is enough: see [activate_terminates]. *)
Definition run_fuel : nat := S (N.to_nat (cfg_max_recursion_steps config)).

Definition activate (candidates : list ActivationCandidate) (scan : list ScanFragment) :
    option ActivationOutcome :=
  finish <$> run run_fuel (ingest (Session_new candidates) scan true).

End engine.
