(* ===== verification/ActivationProofs.v ===== *)
(** * ActivationProofs: what the activation engine guarantees

    The session invariant and its preservation by [collect], [resolve_groups],
    [admit] and [ingest], termination of [run], and the properties of an
    activation outcome. *)
From S2P Require Import Prelude.
From S2P Require Import Text.
From S2P Require Import Values.
From S2P Require Import Domain.
From S2P Require Import Scan.
From S2P Require Import Activation.

Section proofs.
Context `{Unicode} `{Sha256} {K : Type} `{!EngineKey K}.
Context (turn : ActivationTurn) (config : ActivationConfig).

Implicit Types (s : Session (K:=K)) (e : Entry (K:=K)) (c : Candidate).

(** ** Why an entry may activate *)

Definition content_len s (i : nat) : N :=
  from_option (λ e, slen (cand_content (candidate e))) 0%N (entries_ s !! i).

(** What [collect] has checked of the entry a candidate points to. *)
Definition justified (lvl : N) e (cl : ActivationClass) : Prop :=
  let r := cand_rule (candidate e) in
  enabled (mode r) = true ∧
  if constant (mode r) then cl = Class_Constant ∧ lvl = 0%N
  else cl ≠ Class_Constant ∧
    (0 < matched e Primary)%N ∧
    from_option (λ l, l <= lvl)%N True (delay_until_recursion (recursion r)) ∧
    (exclude_recursion (recursion r) = true → recursion_only e = false) ∧
    logic_holds (secondary_logic (match_rule r)) (matched e Secondary) (nlen (secondary e)) = true.

Definition cand_ok s c : Prop :=
  settled s (index c) = false ∧
  ∃ e, entries_ s !! index c = Some e ∧ justified (level s) e (class c).

(** The fields only [ingest] and [admit] change. *)
Definition same_core s s' : Prop :=
  entries_ s' = entries_ s ∧ level s' = level s ∧ activated s' = activated s ∧
  activated_indices s' = activated_indices s ∧ knowledge_bytes s' = knowledge_bytes s.

#[export] Instance same_core_preorder : PreOrder same_core.
Proof. unfold same_core. split; [by intros s|]. intros s1 s2 s3. intuition congruence. Qed.

(** ** [collect] *)
Lemma settled_eq s i :
  settled s i = bool_decide (i ∈ activated_indices s) || bool_decide (is_Some (terminal_ s !! i)).
Proof. done. Qed.

Lemma settled_same_core s s' i :
  same_core s s' → terminal_ s' !! i = terminal_ s !! i → settled s' i = settled s i.
Proof. intros (_ & _ & _ & Ha & _) Ht. by rewrite !settled_eq, Ha, Ht. Qed.

Lemma collect_entry_spec s i e s' o :
  entries_ s !! i = Some e →
  collect_entry s i e = (s', o) →
  same_core s s' ∧ group_winners s' = group_winners s ∧
  (∀ j, j ≠ i → terminal_ s' !! j = terminal_ s !! j) ∧
  (∀ c, o = Some c → index c = i ∧ cand_ok s' c).
Proof.
  intros He. unfold collect_entry.
  destruct (settled s i) eqn:Hset; [by intros [= <- <-]|].
  destruct (negb (enabled _)) eqn:Hen; [by intros [= <- <-]|]. apply negb_false_iff in Hen.
  destruct (constant _) eqn:Hcon.
  { intros [= <- <-]. split_and!; [done..|]. intros c. destruct (N.eqb_spec (level s) 0); [|done].
    intros [= <-]. split; [done|]. split; [done|]. exists e. split; [done|].
    unfold justified. by rewrite Hcon. }
  destruct (N.eqb_spec (matched e Primary) 0) as [|Hprim]; [by intros [= <- <-]|].
  destruct (from_option _ false _) eqn:Hdelay; [by intros [= <- <-]|].
  destruct (recursion_only e && _) eqn:Hexcl.
  { intros [= <- <-]. split_and!; [done..| |done]. intros j Hj. simpl. by rewrite lookup_insert_ne. }
  destruct (negb (logic_holds _ _ _)) eqn:Hlogic; [by intros [= <- <-]|].
  apply negb_false_iff in Hlogic.
  intros [= <- <-]. split_and!; [done..|]. intros c [= <-]. split; [done|].
  split; [done|]. exists e. split; [done|]. unfold justified. simpl. rewrite Hcon.
  split; [done|]. split_and!; [by destruct (recursion_only e)|lia| | |done].
  - destruct (delay_until_recursion _); simpl in *; [|done]. by apply N.ltb_ge.
  - intros Hx. by rewrite Hx, andb_true_r in Hexcl.
Qed.

Lemma imap_pair_lookup {A} (l : list A) i x : (i, x) ∈ imap pair l ↔ l !! i = Some x.
Proof.
  rewrite list_elem_of_lookup. split.
  - intros [j Hj]. rewrite list_lookup_imap in Hj.
    by apply fmap_Some in Hj as (y & Hy & [= -> ->]).
  - intros Hi. exists i. by rewrite list_lookup_imap, Hi.
Qed.

Lemma imap_pair_fst {A} (l : list A) : (imap pair l).*1 = seq 0 (length l).
Proof.
  rewrite fmap_imap. apply list_eq. intros i. rewrite list_lookup_imap.
  destruct (decide (i < length l)) as [Hi|Hi].
  - destruct (lookup_lt_is_Some_2 l i Hi) as [x ->]. simpl. by rewrite lookup_seq_lt.
  - rewrite lookup_ge_None_2 by lia. simpl. symmetry. apply lookup_seq_ge. lia.
Qed.

Lemma imap_pair_middle {A} (l : list A) pre i x suf :
  imap pair l = pre ++ (i, x) :: suf → l !! i = Some x ∧ i ∉ pre.*1.
Proof.
  intros Hl. split; [apply imap_pair_lookup; rewrite Hl; set_solver|].
  pose proof (NoDup_seq 0 (length l)) as Hnd. rewrite <-imap_pair_fst, Hl in Hnd.
  rewrite fmap_app in Hnd. apply NoDup_app in Hnd as (_ & Hdis & _).
  intros Hin. apply (Hdis i Hin). simpl. by left.
Qed.

Lemma cand_ok_same_core s s' c :
  same_core s s' → terminal_ s' !! index c = terminal_ s !! index c →
  cand_ok s c → cand_ok s' c.
Proof.
  intros Hsame Ht [Hset He]. split; [by rewrite (settled_same_core s)|].
  destruct Hsame as (-> & -> & _). done.
Qed.

Lemma collect_spec s s' cs :
  collect s = (s', cs) →
  same_core s s' ∧ group_winners s' = group_winners s ∧
  Forall (cand_ok s') cs ∧ NoDup (index <$> cs).
Proof.
  unfold collect. set (f := λ '(s, cs) '(i, e), _).
  set (P := λ (pre : list (nat * Entry (K:=K))) (r : Session (K:=K) * list Candidate),
    same_core s r.1 ∧ group_winners r.1 = group_winners s ∧ Forall (cand_ok r.1) r.2 ∧
    NoDup (index <$> r.2) ∧ ∀ i, i ∈ index <$> r.2 → i ∈ pre.*1).
  assert (P (imap pair (entries_ s)) (foldl f (s, []) (imap pair (entries_ s)))) as HP.
  { apply foldl_prefix_ind.
    - unfold P. simpl. split_and!; [done..|constructor|constructor|set_solver].
    - intros pre [i e] suf [s1 cs1] Hl (Hs & Hg & Hok & Hnd & Hin). simpl in *.
      apply imap_pair_middle in Hl as [He Hni].
      unfold f. destruct (collect_entry s1 i e) as [s2 o] eqn:Hc.
      apply collect_entry_spec in Hc as (Hs2 & Hg2 & Ht2 & Ho); [|by rewrite (proj1 Hs)].
      assert (∀ c, c ∈ cs1 → index c ≠ i) as Hne.
      { intros c Hc <-. by apply Hni, Hin, list_elem_of_fmap_2. }
      unfold P. simpl. split_and!.
      + by etrans.
      + by rewrite Hg2.
      + apply Forall_app; split.
        * apply Forall_forall. intros c Hc. eapply Forall_forall in Hok; [|done].
          by apply (cand_ok_same_core s1); auto.
        * destruct o as [c|]; simpl; constructor; [by apply Ho|constructor].
      + rewrite fmap_app. apply NoDup_app. split_and!; [done| |destruct o; simpl; [apply NoDup_singleton|constructor]].
        intros j Hj Hj'. destruct o as [c|]; simpl in Hj'; [|by apply not_elem_of_nil in Hj'].
        apply list_elem_of_singleton in Hj' as ->. destruct (Ho c) as [Hi _]; [done|].
        rewrite Hi in Hj. by apply Hni, Hin.
      + intros j. rewrite !fmap_app, !elem_of_app. intros [Hj|Hj]; [left; auto|right].
        destruct o as [c|]; simpl in Hj; [|by apply not_elem_of_nil in Hj].
        apply list_elem_of_singleton in Hj as ->. destruct (Ho c) as [-> _]; [done|]. simpl. set_solver. }
  intros Heq. rewrite Heq in HP. destruct HP as (? & ? & ? & ? & _). done.
Qed.

(** ** [group_winner] *)

#[export] Instance rank_ord_laws : OrdLaws rank_compare.
Proof. unfold rank_compare. apply _. Qed.

Lemma draw_total s sample tied :
  (sample < total_weight s tied)%N → ∃ i, draw s sample tied = Some i ∧ i ∈ tied.
Proof.
  revert sample. induction tied as [|i tied IH]; intros sample Hs; simpl in *; [lia|].
  destruct (N.ltb_spec sample (weight s i)) as [Hw|Hw]; [exists i; set_solver|].
  destruct (IH (sample - weight s i)%N) as (j & -> & Hj); [lia|]. exists j. set_solver.
Qed.

Lemma elem_of_tied s members best i :
  i ∈ tied_members s members best ↔ ∃ c, c ∈ members ∧ index c = i ∧ rank s c = best.
Proof.
  unfold tied_members. rewrite elem_of_sort_by, list_elem_of_fmap.
  setoid_rewrite list_elem_of_filter. naive_solver.
Qed.

(** A group with members always has a winner, one of the best-ranked. *)
Lemma group_winner_spec s g members :
  members ≠ [] →
  ∃ w, w ∈ members ∧ group_winner turn s g members = Some (index w) ∧
    ∀ c, c ∈ members → rank_compare (rank s c) (rank s w) ≠ Gt.
Proof.
  intros Hne. unfold group_winner.
  destruct (max_by rank_compare (map (rank s) members)) as [best|] eqn:Hmax; [|by destruct members].
  apply max_by_spec in Hmax as [Hbest Hmax]; [|apply _].
  apply list_elem_of_fmap in Hbest as (b & -> & Hb).
  set (tied := tied_members s members (rank s b)).
  assert (index b ∈ tied) as Htb by (apply elem_of_tied; eauto).
  assert (∃ i, (if (total_weight s tied =? 0)%N then head tied
    else draw s (group_sample turn s g tied (total_weight s tied)) tied) = Some i ∧ i ∈ tied)
    as (i & -> & Hi).
  { destruct (N.eqb_spec (total_weight s tied) 0).
    - destruct tied as [|i tied']; [by apply not_elem_of_nil in Htb|]. exists i. set_solver.
    - apply draw_total. unfold group_sample. by apply N.mod_lt. }
  apply elem_of_tied in Hi as (w & Hw & <- & Hr). exists w. split_and!; [done..|].
  intros c Hc. rewrite Hr. apply Hmax. by apply list_elem_of_fmap_2.
Qed.

(** ** [resolve_groups] *)
Lemma foldl_terminal (losers : list Candidate) t i r :
  i ∉ index <$> losers →
  foldl (λ t c, <[index c := r]> t) t losers !! i = (t : gmap nat ActivationRejection) !! i.
Proof.
  revert t. induction losers as [|c l IH]; intros t Hi; simpl; [done|].
  simpl in Hi. apply not_elem_of_cons in Hi as [Hi Hl]. rewrite IH by done.
  by rewrite lookup_insert_ne.
Qed.

Lemma rule_same_core s s' i : same_core s s' → rule s' i = rule s i.
Proof. intros (He & _). unfold rule. by rewrite He. Qed.

Lemma in_group_same_core s s' g c : same_core s s' → in_group s' g c = in_group s g c.
Proof. intros Hs. unfold in_group. by rewrite (rule_same_core s). Qed.

Lemma resolve_group_spec s el g s' el' :
  resolve_group turn s el g = (s', el') → NoDup (index <$> el) →
  same_core s s' ∧ group_winners s ⊆ group_winners s' ∧
  el' `sublist_of` el ∧
  (∀ c, c ∈ el' → terminal_ s' !! index c = terminal_ s !! index c) ∧
  (∀ c, c ∈ el' → in_group s g c = true → group_winners s' !! g = Some (index c)).
Proof.
  unfold resolve_group. intros Heq Hnd.
  set (members := filter (λ c, in_group s g c) el) in *.
  assert (∀ c, c ∈ el → in_group s g c = true → c ∈ members) as Hmem.
  { intros c Hc Hg. apply list_elem_of_filter. by rewrite Hg. }
  destruct members as [|m ms] eqn:Hmembers.
  { injection Heq as <- <-. split_and!; [done..|]. intros c Hc Hg.
    by apply (Hmem c Hc), not_elem_of_nil in Hg. }
  rewrite <-Hmembers in *. clear Hmembers m ms.
  set (winner := match group_winners s !! g with Some _ => None | None => _ end) in *.
  set (el2 := filter (λ c, Some (index c) = winner ∨ index c ∉ map index members) el) in *.
  set (losers := filter (λ c, Some (index c) ≠ winner) members) in *.
  injection Heq as <- <-. cbn [terminal_ set_groups group_winners].
  assert (∀ c, c ∈ el2 → c ∈ el ∧ (Some (index c) = winner ∨ index c ∉ index <$> members)) as Hel2.
  { intros c Hc. apply list_elem_of_filter in Hc as [HP Hin]. exact (conj Hin HP). }
  split_and!; [done| |apply sublist_filter| |].
  - destruct winner as [w|] eqn:Hw; [|done].
    unfold winner in Hw. apply insert_subseteq. by destruct (group_winners s !! g).
  - intros c Hc. apply Hel2 in Hc as [_ Hc]. apply foldl_terminal.
    intros (d & Hd & [Hne Hdm]%list_elem_of_filter)%list_elem_of_fmap.
    destruct Hc as [Hc|Hc]; [congruence|]. apply Hc. rewrite Hd. by apply list_elem_of_fmap_2.
  - intros c Hc Hg. apply Hel2 in Hc as [Hel [Hc|Hc]].
    + rewrite <-Hc. apply lookup_insert_eq.
    + destruct Hc. by apply list_elem_of_fmap_2, Hmem.
Qed.

Lemma resolve_groups_spec s cs s' el :
  resolve_groups turn s cs = (s', el) → NoDup (index <$> cs) → Forall (cand_ok s) cs →
  same_core s s' ∧ group_winners s ⊆ group_winners s' ∧
  NoDup (index <$> el) ∧ Forall (cand_ok s') el ∧ el `sublist_of` cs ∧
  (∀ c g, c ∈ el → g ∈ groups (selection (rule s' (index c))) →
    group_winners s' !! g = Some (index c)).
Proof.
  unfold resolve_groups. intros Heq Hnd Hok.
  set (f := λ '(s, eligible) g, resolve_group turn s eligible g) in *.
  set (P := λ (pre : list string) (r : Session (K:=K) * list Candidate),
    same_core s r.1 ∧ group_winners s ⊆ group_winners r.1 ∧ r.2 `sublist_of` cs ∧
    Forall (cand_ok r.1) r.2 ∧
    ∀ c g, c ∈ r.2 → g ∈ pre → in_group s g c = true → group_winners r.1 !! g = Some (index c)).
  assert (∀ l, l `sublist_of` cs → NoDup (index <$> l)) as Hsubnd.
  { intros l Hl. eapply sublist_NoDup; [done|]. by apply (fmap_sublist index). }
  assert (P (set_entries (group_set s cs)) (s', el)) as (Hs & Hg & Hsub & Hc & Hw).
  { rewrite <-Heq. apply foldl_prefix_ind.
    - unfold P. simpl. split_and!; [done..|]. intros c g _ Hg. by apply not_elem_of_nil in Hg.
    - intros pre g suf [s1 el1] _ (Hs1 & Hg1 & Hsub1 & Hok1 & Hw1). simpl in *.
      unfold f. destruct (resolve_group turn s1 el1 g) as [s2 el2] eqn:Hr.
      apply resolve_group_spec in Hr as (Hs2 & Hg2 & Hsub2 & Ht2 & Hw2); [|by apply Hsubnd].
      assert (∀ c, c ∈ el2 → c ∈ el1) as Hin by (intros c ?; by eapply elem_of_sublist).
      unfold P. simpl. split_and!; [by etrans..| |].
      + apply Forall_forall. intros c Hc. eapply (cand_ok_same_core s1); [done|auto|].
        eapply Forall_forall in Hok1; [done|auto].
      + intros c g' Hc [Hg'|Hg']%elem_of_app Hig.
        * eapply lookup_weaken; [|done]. by apply Hw1; auto.
        * apply list_elem_of_singleton in Hg' as ->. apply Hw2; [done|].
          by rewrite (in_group_same_core s). }
  simpl in *. split_and!; [done..|by apply Hsubnd|done|done|].
  intros c g Hce Hgr. rewrite (rule_same_core s) in Hgr by done.
  apply Hw; [done| |by apply bool_decide_eq_true_2].
  apply elem_of_set_entries. unfold group_set. apply elem_of_list_to_set, list_elem_of_bind.
  exists c. split; [done|]. by eapply elem_of_sublist.
Qed.

(** ** The session invariant *)

Section invariant.
Context (cands : list (ActivationCandidate (K:=K))).

(** Entries only gain evidence. *)
Definition entry_shape (i : nat) e : Prop :=
  ∃ cd, cands !! i = Some cd ∧ e = set_evidence (Entry_new config cd) (evidence e).

Definition cand_rule_at (i : nat) : ActivationRule :=
  from_option cand_rule ActivationRule_default (cands !! i).

(** An activated entry comes from the candidate at an index, with evidence
    that justified it at the level it was activated. *)
Definition act_ok (a : ActivatedEntry (K:=K)) (i : nat) : Prop :=
  ∃ cd, cands !! i = Some cd ∧ act_key a = cand_key cd ∧
    probability (selection (cand_rule cd)) ≠ 0%N ∧
    justified (act_recursion_level a) (set_evidence (Entry_new config cd) (act_evidence a)) (act_class a).

Definition total_bytes (idxs : list nat) : N :=
  foldr (λ i t, from_option (λ cd, slen (cand_content cd)) 0 (cands !! i) + t)%N 0%N idxs.

Record Inv s : Prop := {
  inv_length : length (entries_ s) = length cands;
  inv_shape i e : entries_ s !! i = Some e → entry_shape i e;
  inv_level : (level s <= cfg_max_recursion_steps config)%N;
  inv_groups i g : i ∈ activated_indices s → g ∈ groups (selection (cand_rule_at i)) →
    group_winners s !! g = Some i;
  inv_activated : ∃ idxs, NoDup idxs ∧ activated_indices s = list_to_set idxs ∧
    Forall2 act_ok (activated s) idxs ∧
    Forall (λ a, (act_recursion_level a <= level s)%N) (activated s) ∧
    knowledge_bytes s = total_bytes idxs ∧
    (knowledge_bytes s <= cfg_max_knowledge_bytes config)%N ∧
    (nlen (activated s) <= cfg_max_activated_entries config)%N;
}.

Lemma Entry_ingest_shape e f b :
  ∃ ev, Entry_ingest e f b = set_evidence e ev.
Proof.
  unfold Entry_ingest. destruct (b && _); [|eauto].
  exists (evidence e). by destruct e.
Qed.

Lemma Entry_ingest_all_shape e fs b :
  ∃ ev, foldl (λ e f, Entry_ingest e f b) e fs = set_evidence e ev.
Proof.
  revert e. induction fs as [|f fs IH]; intros e; simpl.
  - exists (evidence e). by destruct e.
  - destruct (Entry_ingest_shape e f b) as [ev ->]. destruct (IH (set_evidence e ev)) as [ev' ->]. by exists ev'.
Qed.

Lemma Inv_ingest s fs b : Inv s → Inv (ingest s fs b).
Proof.
  intros [Hlen Hshape Hlev Hgr Hact]. split; try done.
  - unfold ingest. simpl. by rewrite length_imap.
  - intros i e. unfold ingest. cbn [entries_ set_entries_]. rewrite list_lookup_imap.
    intros (e0 & He0 & Hs)%fmap_Some. destruct (Hshape i e0 He0) as (cd & Hcd & He).
    exists cd. split; [done|]. subst e. destruct (settled s i); [done|].
    destruct (Entry_ingest_all_shape e0 fs b) as [ev Hev]. rewrite Hev, He. done.
Qed.

Lemma Inv_new : Inv (Session_new config cands).
Proof.
  split; simpl; [by rewrite length_map| |lia|set_solver|].
  - intros i e. rewrite list_lookup_fmap. intros (cd & Hcd & ->)%fmap_Some. by exists cd.
  - exists []. unfold nlen. simpl. split_and!; try done; try lia; constructor.
Qed.

Lemma Inv_same_core s s' :
  same_core s s' → group_winners s ⊆ group_winners s' → Inv s → Inv s'.
Proof.
  intros (He & Hl & Ha & Hi & Hb) Hg [Hlen Hshape Hlev Hgr Hact].
  split; rewrite ?He, ?Hl, ?Ha, ?Hi, ?Hb; try done.
  intros i g Hin Hgi. eapply lookup_weaken; [|done]. by apply Hgr.
Qed.

(** ** [admit] *)
Lemma sat_add_exact max x y : (sat_add max x y < max)%N → sat_add max x y = (x + y)%N.
Proof. unfold sat_add, clamp. destruct (N.leb_spec (x + y) max); [done|lia]. Qed.

Lemma total_bytes_snoc idxs i :
  total_bytes (idxs ++ [i]) =
  (total_bytes idxs + from_option (λ cd, slen (cand_content cd)) 0 (cands !! i))%N.
Proof.
  unfold total_bytes. rewrite foldr_app. simpl. rewrite N.add_0_r.
  induction idxs as [|j idxs IH]; simpl; [lia|]. rewrite IH. lia.
Qed.

(** What admission of one candidate changes. *)
Record admitted_frame s s' (c : Candidate) : Prop := {
  af_entries : entries_ s' = entries_ s;
  af_level : level s' = level s;
  af_winners : group_winners s' = group_winners s;
  af_indices i : i ∈ activated_indices s' → i ∈ activated_indices s ∨ i = index c;
}.

Lemma Inv_admit_candidate s fs c s' fs' :
  (cfg_max_knowledge_bytes config < USIZE_MAX)%N →
  Inv s → index c ∉ activated_indices s →
  (∃ e, entries_ s !! index c = Some e ∧ justified (level s) e (class c)) →
  (∀ g, g ∈ groups (selection (cand_rule_at (index c))) → group_winners s !! g = Some (index c)) →
  admit_candidate turn config s fs c = (s', fs') →
  Inv s' ∧ admitted_frame s s' c.
Proof.
  intros Hmax HInv Hnew (e & He & Hj) Hgw. unfold admit_candidate. rewrite He.
  destruct (negb (probability_admits _ _ _ _)) eqn:Hprob.
  { intros [= <- <-]. destruct HInv. split; [by split|split; auto]. }
  destruct (_ || _) eqn:Hbud.
  { intros [= <- <-]. destruct HInv. split; [by split|split; auto]. }
  intros [= <- <-]. apply orb_false_iff in Hbud as [Hn%N.leb_gt Hb%N.ltb_ge].
  split; [|split; simpl; auto; set_solver].
  pose proof HInv as [Hlen Hshape Hlev Hgr (idxs & Hnd & Hidx & Hall & Hle & Hby & Hbl & Hnl)].
  split; simpl; try done; [set_solver|].
  destruct (Hshape _ _ He) as (cd & Hcd & Hsh).
  exists (idxs ++ [index c]). split_and!.
  - apply NoDup_app. split_and!; [done| |apply NoDup_singleton].
    intros i Hi ->%list_elem_of_singleton. apply Hnew. rewrite Hidx. by apply elem_of_list_to_set.
  - rewrite Hidx, list_to_set_app_L. simpl. set_solver.
  - apply Forall2_app; [done|]. constructor; [|constructor]. exists cd. simpl.
    rewrite Hsh at 1. split_and!; [done..| |by rewrite <-Hsh].
    apply negb_false_iff in Hprob. intros Hp. unfold probability_admits in Hprob.
    rewrite Hsh in Hprob. simpl in Hprob. by rewrite Hp in Hprob.
  - apply Forall_app. split; [done|]. by apply Forall_singleton.
  - rewrite total_bytes_snoc, Hcd. simpl. rewrite sat_add_exact by lia. rewrite Hby, Hsh. done.
  - done.
  - unfold nlen in *. rewrite length_app. simpl. lia.
Qed.

(** [admit] goes through its candidates in order; each step starts from a
    session that satisfies the invariant and has the core of the first. *)
Lemma admit_all_ind s cs (P : list Candidate → Session (K:=K) * list ScanFragment → Prop) s' fs :
  (cfg_max_knowledge_bytes config < USIZE_MAX)%N →
  Inv s → NoDup (index <$> cs) → Forall (cand_ok s) cs →
  (∀ c g, c ∈ cs → g ∈ groups (selection (rule s (index c))) →
    group_winners s !! g = Some (index c)) →
  P [] (s, []) →
  (∀ pre c s1 fs1 s2 fs2, c ∈ cs → index c ∉ index <$> pre → Inv s1 → level s1 = level s →
    entries_ s1 = entries_ s → P pre (s1, fs1) →
    admit_candidate turn config s1 fs1 c = (s2, fs2) → P (pre ++ [c]) (s2, fs2)) →
  admit_all turn config s cs = (s', fs) →
  P (sort_by (ordering_compare s) cs) (s', fs) ∧ Inv s' ∧ level s' = level s.
Proof.
  unfold admit_all. intros Hmax HInv Hnd Hok Hgw HP0 HPs Heq.
  set (l := sort_by (ordering_compare s) cs) in *.
  assert (l ≡ₚ cs) as Hperm by apply sort_by_perm.
  set (Q := λ (pre : list Candidate) (r : Session (K:=K) * list ScanFragment),
    (P pre r ∧ Inv r.1 ∧ level r.1 = level s) ∧ entries_ r.1 = entries_ s ∧
    group_winners r.1 = group_winners s ∧
    ∀ i, i ∈ activated_indices r.1 → i ∈ activated_indices s ∨ i ∈ index <$> pre).
  assert (Q l (s', fs)) as (? & _); [|done].
  rewrite <-Heq. apply foldl_prefix_ind.
  - unfold Q. simpl. split_and!; auto.
  - intros pre c suf [s1 fs1] Hpre ((HP1 & HI1 & Hl1) & He1 & Hg1 & Hi1). simpl in *.
    destruct (admit_candidate turn config s1 fs1 c) as [s2 fs2] eqn:Hadm.
    assert (c ∈ cs) as Hc by (rewrite <-Hperm, Hpre; set_solver).
    assert (cand_ok s c) as [Hset Hj] by (by eapply Forall_forall in Hok).
    assert (index c ∉ index <$> pre) as Hni.
    { rewrite <-Hperm, Hpre, fmap_app in Hnd. apply NoDup_app in Hnd as (_ & Hdis & _).
      intros Hin. apply (Hdis _ Hin). simpl. by left. }
    pose proof Hadm as Hstep. eapply HPs in Hstep; [|done..].
    apply Inv_admit_candidate in Hadm as [HI2 [He2 Hl2 Hg2 Hi2]]; [|done|done| | |].
    + unfold Q. simpl. split_and!; [done|done|congruence..|].
      intros i [Hi | ->]%Hi2; [|right; rewrite fmap_app; set_solver].
      destruct (Hi1 i Hi); [by left|right; rewrite fmap_app; set_solver].
    + intros [Hin|Hin]%Hi1; [|done]. rewrite settled_eq in Hset.
      apply orb_false_iff in Hset as [Hb _]. by apply bool_decide_eq_false in Hb.
    + by rewrite He1, Hl1.
    + intros g Hg. rewrite Hg1. apply Hgw; [done|]. unfold rule, cand_rule_at in *.
      destruct Hj as (e & He & _). rewrite He. destruct (inv_shape _ HInv _ _ He) as (cd & Hcd & ->).
      by rewrite Hcd in Hg.
Qed.

Lemma Inv_admit_all s cs s' fs :
  (cfg_max_knowledge_bytes config < USIZE_MAX)%N →
  Inv s → NoDup (index <$> cs) → Forall (cand_ok s) cs →
  (∀ c g, c ∈ cs → g ∈ groups (selection (rule s (index c))) →
    group_winners s !! g = Some (index c)) →
  admit_all turn config s cs = (s', fs) →
  Inv s' ∧ level s' = level s.
Proof. intros. by eapply (admit_all_ind s cs (λ _ _, True)). Qed.

Lemma Inv_round s :
  (cfg_max_knowledge_bytes config < USIZE_MAX)%N →
  (cfg_max_recursion_steps config <= U16_MAX)%N →
  Inv s →
  match round turn config s with
  | Stop s' => Inv s'
  | Next s' => Inv s' ∧ level s' = (level s + 1)%N
  end.
Proof.
  intros Hmax Hsteps HInv. unfold round.
  destruct (collect s) as [s1 cs] eqn:Hc. apply collect_spec in Hc as (Hs1 & Hg1 & Hok & Hnd).
  assert (Inv s1) as HI1 by (eapply Inv_same_core; [done|by rewrite Hg1|done]).
  destruct cs as [|c0 cs0] eqn:Hcs; [done|]. rewrite <-Hcs in *. clear Hcs c0 cs0.
  destruct (resolve_groups turn s1 cs) as [s2 el] eqn:Hr.
  apply resolve_groups_spec in Hr as (Hs2 & Hg2 & Hnd2 & Hok2 & _ & Hw); [|done..].
  assert (Inv s2) as HI2 by (by eapply Inv_same_core).
  destruct (admit_all turn config s2 el) as [s3 fs] eqn:Ha.
  apply Inv_admit_all in Ha as [HI3 Hl3]; [|done..].
  destruct fs as [|f fs]; [done|].
  assert (level s3 = level s) as Hlev.
  { destruct Hs1 as (_ & Hl1 & _). destruct Hs2 as (_ & Hl2 & _). congruence. }
  destruct (N.leb_spec (cfg_max_recursion_steps config) (level s3)) as [Hle|Hlt].
  - destruct HI3. by split.
  - assert (sat_add U16_MAX (level s3) 1 = level s3 + 1)%N as Hsat.
    { unfold sat_add. apply clamp_small. lia. }
    split; [|simpl; by rewrite Hsat, Hlev]. apply Inv_ingest.
    destruct HI3 as [? ? ? ? (idxs & ?)]. split; simpl; rewrite ?Hsat; try done; [lia|].
    exists idxs. destruct_and!. split_and!; try done.
    eapply Forall_impl; [done|]. simpl. lia.
Qed.

(** ** The loop *)
Lemma run_spec fuel s :
  (cfg_max_knowledge_bytes config < USIZE_MAX)%N →
  (cfg_max_recursion_steps config <= U16_MAX)%N →
  Inv s → (cfg_max_recursion_steps config < N.of_nat fuel + level s)%N →
  ∃ s', run turn config fuel s = Some s' ∧ Inv s'.
Proof.
  intros Hmax Hsteps. revert s. induction fuel as [|fuel IH]; intros s HInv Hfuel.
  - pose proof (inv_level _ HInv). lia.
  - simpl. pose proof (Inv_round s Hmax Hsteps HInv) as Hround.
    destruct (round turn config s) as [s'|s']; [eauto|].
    destruct Hround as [HI Hl]. apply IH; [done|]. lia.
Qed.

Lemma activate_spec scan :
  (cfg_max_knowledge_bytes config < USIZE_MAX)%N →
  (cfg_max_recursion_steps config <= U16_MAX)%N →
  ∃ s, activate turn config cands scan = Some (finish s) ∧ Inv s.
Proof.
  intros Hmax Hsteps.
  destruct (run_spec (run_fuel config) (ingest (Session_new config cands) scan true)) as (s & Hs & HI);
    [done|done|apply Inv_ingest, Inv_new|unfold run_fuel; simpl; lia|].
  exists s. unfold activate. by rewrite Hs.
Qed.

End invariant.
End proofs.
