(* ===== verification/ActivationProps.v ===== *)
(** * ActivationProps: the properties of an activation outcome

    The session invariant of [ActivationProofs] read off the outcome: bounds,
    justification, group exclusivity; then two more invariants of the loop,
    that evidence comes from text the engine was given and that what was
    collected is settled for good. *)
From S2P Require Import Prelude.
From S2P Require Import Text.
From S2P Require Import Values.
From S2P Require Import Domain.
From S2P Require Import Scan.
From S2P Require Import Activation.
From S2P Require Import ActivationProofs.

Section props.
Context `{Unicode} `{Sha256} {K : Type} `{!EngineKey K}.
Context (turn : ActivationTurn) (config : ActivationConfig).
Context (cands : list (ActivationCandidate (K:=K))) (scan : list ScanFragment).

Implicit Types (s : Session (K:=K)) (e : Entry (K:=K)) (c : Candidate).

(** The configurations of [ActivationConfig::validate]'s range. *)
Definition config_ok : Prop :=
  (cfg_max_knowledge_bytes config < USIZE_MAX)%N ∧ (cfg_max_recursion_steps config <= U16_MAX)%N.

(** ** Evidence comes from the text *)

(** A fragment the engine may have searched for an entry of scan depth [d]:
    one of the scan buffer no deeper than [d], or the content of an entry
    activated earlier that may recurse. *)
Definition seen (d : N) (acts : list (ActivatedEntry (K:=K))) (f : ScanFragment) : Prop :=
  (f ∈ scan ∧ (frag_depth f <= d)%N) ∨
  ∃ a cd l, a ∈ acts ∧ cd ∈ cands ∧ act_key a = cand_key cd ∧
    prevent_recursion (recursion (cand_rule cd)) = false ∧
    f = ScanFragment_new RecursionContent l (cand_content cd).

Definition patterns (kind : ActivationPatternKind) e : list string :=
  match kind with Primary => primary e | Secondary => secondary e end.

(** The evidence item is a real occurrence of the pattern it names. *)
Definition evidence_ok e (acts : list (ActivatedEntry (K:=K))) (item : ActivationEvidence) : Prop :=
  ∃ f n needle, seen (entry_scan_depth e) acts f ∧
    patterns (pattern_kind item) e !! n = Some needle ∧
    pattern_ordinal item = clamp U16_MAX (N.of_nat n) ∧
    fragment_kind item = frag_kind f ∧ ev_depth item = frag_depth f ∧
    let m := match_rule (cand_rule (candidate e)) in
    let found := count f needle (case_sensitive m) (match_whole_words m) in
    (0 < found)%N ∧ match_count item = clamp U16_MAX found.

Lemma seen_mono d acts acts' f : (∀ a, a ∈ acts → a ∈ acts') → seen d acts f → seen d acts' f.
Proof. intros Hs [?|(a & cd & l & Ha & ?)]; [by left|right]. exists a, cd, l. auto. Qed.

Lemma evidence_ok_mono e acts acts' item :
  (∀ a, a ∈ acts → a ∈ acts') → evidence_ok e acts item → evidence_ok e acts' item.
Proof. intros Hs (f & n & nd & Hf & Hr). exists f, n, nd. split; [by eapply seen_mono|done]. Qed.

(** [item] records the first match of the pattern it names in [f]. *)
Definition occurrence (needles : list string) (f : ScanFragment) (cs ww : bool)
    (item : ActivationEvidence) : Prop :=
  ∃ n needle, needles !! n = Some needle ∧
    pattern_ordinal item = clamp U16_MAX (N.of_nat n) ∧
    fragment_kind item = frag_kind f ∧ ev_depth item = frag_depth f ∧
    (0 < count f needle cs ww)%N ∧ match_count item = clamp U16_MAX (count f needle cs ww).

Lemma record_matches_sound ev needles kind f cs ww item :
  item ∈ record_matches ev needles kind f cs ww →
  item ∈ ev ∨ (pattern_kind item = kind ∧ occurrence needles f cs ww item).
Proof.
  unfold record_matches. set (g := λ ev '(ordinal, needle), _).
  set (Q := λ it : ActivationEvidence, it ∈ ev ∨ (pattern_kind it = kind ∧ occurrence needles f cs ww it)).
  assert (∀ l ev0, (∀ n nd, (n, nd) ∈ l → needles !! n = Some nd) →
    (∀ it, it ∈ ev0 → Q it) → ∀ it, it ∈ foldl g ev0 l → Q it) as Hfold.
  { induction l as [|[n nd] l IH]; intros ev0 Hl Hev it Hit; [by apply Hev|]. simpl in Hit.
    eapply IH; [| |done]; [intros; apply Hl; by right|].
    intros it'. unfold record_match. case_match; [apply Hev|]. case_match eqn:Hz; [apply Hev|].
    apply N.eqb_neq in Hz. intros [?| ->%list_elem_of_singleton]%elem_of_app; [by apply Hev|].
    right. split; [done|]. exists n, nd. simpl. split_and!; try done; [|lia].
    apply Hl. by left. }
  intros Hit. refine (Hfold _ _ _ _ item Hit); [|by left].
  intros n nd. apply imap_pair_lookup.
Qed.

Lemma Entry_ingest_evidence e f (b : bool) acts :
  (if b then f ∈ scan else ∀ d, seen d acts f) →
  Forall (evidence_ok e acts) (evidence e) →
  Forall (evidence_ok e acts) (evidence (Entry_ingest e f b)).
Proof.
  intros Hf Hev. unfold Entry_ingest. destruct (b && _) eqn:Hb; [done|].
  assert (seen (entry_scan_depth e) acts f) as Hs.
  { destruct b; [|apply Hf]. left. split; [done|]. by apply N.ltb_ge in Hb. }
  apply Forall_forall. simpl. intros item
    [[|(Hk & n & nd & ? & ? & ? & ? & ? & ?)]%record_matches_sound
    |(Hk & n & nd & ? & ? & ? & ? & ? & ?)]%record_matches_sound.
  - by eapply Forall_forall in Hev.
  - exists f, n, nd. rewrite Hk. done.
  - exists f, n, nd. rewrite Hk. done.
Qed.

Lemma evidence_ok_set e ev acts item :
  evidence_ok (set_evidence e ev) acts item ↔ evidence_ok e acts item.
Proof. by destruct item as [[] ? ? ? ?]. Qed.

Lemma ingest_all_evidence e fs (b : bool) acts :
  (∀ f, f ∈ fs → if b then f ∈ scan else ∀ d, seen d acts f) →
  Forall (evidence_ok e acts) (evidence e) →
  let e' := foldl (λ e f, Entry_ingest e f b) e fs in
  Forall (evidence_ok e' acts) (evidence e').
Proof.
  revert e. induction fs as [|f fs IH]; intros e Hfs Hev; simpl; [done|].
  apply IH; [intros; apply Hfs; by right|].
  assert (Forall (evidence_ok e acts) (evidence (Entry_ingest e f b))) as Hev'.
  { apply Entry_ingest_evidence; [apply Hfs; by left|done]. }
  destruct (Entry_ingest_shape e f b) as [ev Hs]. rewrite Hs in *.
  eapply Forall_impl; [done|]. intros item. by rewrite evidence_ok_set.
Qed.

(** [a] is an activation of the candidate [cd], for reasons that hold. *)
Definition backed (acts : list (ActivatedEntry (K:=K))) (a : ActivatedEntry (K:=K))
    (cd : ActivationCandidate (K:=K)) : Prop :=
  act_key a = cand_key cd ∧ probability (selection (cand_rule cd)) ≠ 0%N ∧
  justified (act_recursion_level a) (set_evidence (Entry_new config cd) (act_evidence a)) (act_class a) ∧
  Forall (evidence_ok (Entry_new config cd) acts) (act_evidence a).

Lemma probability_admits_nonzero s i p : probability_admits turn s i p = true → p ≠ 0%N.
Proof. unfold probability_admits. by destruct (N.eqb_spec p 0). Qed.

(** The evidence part of the session invariant. *)
Record EvInv s : Prop := {
  ev_entries i e : entries_ s !! i = Some e → Forall (evidence_ok e (activated s)) (evidence e);
  ev_activated a : a ∈ activated s → ∃ cd, cd ∈ cands ∧ backed (activated s) a cd;
}.

Lemma EvInv_same_core s s' : same_core s s' → EvInv s → EvInv s'.
Proof. intros (He & _ & Ha & _) [H1 H2]. split; rewrite Ha; [by rewrite He|done]. Qed.

Lemma EvInv_ingest s fs (b : bool) :
  (∀ f, f ∈ fs → if b then f ∈ scan else ∀ d, seen d (activated s) f) →
  EvInv s → EvInv (ingest s fs b).
Proof.
  intros Hfs [H1 H2]. split; [|done]. intros i e. simpl.
  rewrite list_lookup_imap. intros (e0 & He0 & Hs)%fmap_Some.
  destruct (settled s i); subst e; [by apply (H1 i)|].
  apply ingest_all_evidence; [done|]. by apply (H1 i).
Qed.

Lemma EvInv_admit_candidate s fs c s' fs' :
  Inv config cands s → EvInv s →
  (∃ e, entries_ s !! index c = Some e ∧ justified (level s) e (class c)) →
  (∀ f, f ∈ fs → ∀ d, seen d (activated s) f) →
  admit_candidate turn config s fs c = (s', fs') →
  EvInv s' ∧ ∀ f, f ∈ fs' → ∀ d, seen d (activated s') f.
Proof.
  intros HInv HEv (e & He & Hj) Hfs. unfold admit_candidate. rewrite He.
  destruct (negb _) eqn:Hprob; [intros [= <- <-]; destruct HEv; split; [by split|done]|].
  destruct (_ || _) eqn:?; [intros [= <- <-]; destruct HEv; split; [by split|done]|].
  intros [= <- <-]. destruct (inv_shape _ _ _ HInv _ _ He) as (cd & Hcd & Hsh).
  assert (cd ∈ cands) as Hin by (by eapply list_elem_of_lookup_2).
  destruct HEv as [H1 H2]. unfold accept. simpl.
  set (a := {| act_key := _ |}).
  assert (∀ x, x ∈ activated s → x ∈ activated s ++ [a]) as Hmono by (intros; set_solver).
  assert (act_key a = cand_key cd) as Hkey by (simpl; by rewrite Hsh).
  split; [split; simpl|].
  - intros i e' He'. eapply Forall_impl; [by apply (H1 i)|]. intros it. by apply evidence_ok_mono.
  - intros x [Hx | ->%list_elem_of_singleton]%elem_of_app.
    + destruct (H2 x Hx) as (cd' & ? & ? & ? & ? & Hev). exists cd'. split_and!; [done..|].
      split_and!; [done..|].
      eapply Forall_impl; [done|]. intros it. by apply evidence_ok_mono.
    + exists cd. split; [done|]. split_and!; simpl; [by rewrite Hsh| |by rewrite <-Hsh|].
      { apply negb_false_iff, probability_admits_nonzero in Hprob. by rewrite Hsh in Hprob. }
      apply (H1 _ _) in He. eapply Forall_impl; [exact He|]. intros it. rewrite Hsh, evidence_ok_set.
      by apply evidence_ok_mono.
  - assert (∀ f, f ∈ fs → ∀ d, seen d (activated s ++ [a]) f) as Hold.
    { intros f Hf d. eapply seen_mono; [done|]. by apply Hfs. }
    destruct (prevent_recursion _) eqn:Hp; [done|].
    intros f [Hf | ->%list_elem_of_singleton]%elem_of_app d; [by apply Hold|].
    right. exists a, cd. eexists. rewrite Hsh in Hp |- *. simpl in *.
    split_and!; [set_solver|done..].
Qed.

Lemma EvInv_admit_all s cs s' fs :
  config_ok → Inv config cands s → NoDup (index <$> cs) → Forall (cand_ok s) cs →
  (∀ c g, c ∈ cs → g ∈ groups (selection (rule s (index c))) →
    group_winners s !! g = Some (index c)) →
  EvInv s → admit_all turn config s cs = (s', fs) →
  EvInv s' ∧ ∀ f, f ∈ fs → ∀ d, seen d (activated s') f.
Proof.
  intros [Hmax _] HInv Hnd Hok Hgw HEv Heq.
  eapply (admit_all_ind turn config cands s cs (λ _ r,
    EvInv r.1 ∧ ∀ f, f ∈ r.2 → ∀ d, seen d (activated r.1) f) s' fs Hmax HInv Hnd Hok Hgw);
    [split; [done|]|..|done].
  - intros f Hf. by apply not_elem_of_nil in Hf.
  - intros pre c s1 fs1 s2 fs2 Hc _ HI1 Hl1 He1 [HE1 Hf1] Ha. simpl in *.
    eapply EvInv_admit_candidate; [done|done| |done|done]. rewrite He1, Hl1.
    by eapply Forall_forall in Hok as [_ ?].
Qed.

(** One round keeps both invariants. *)
Lemma EvInv_round s :
  config_ok → Inv config cands s → EvInv s →
  match round turn config s with Stop s' => EvInv s' | Next s' => EvInv s' end.
Proof.
  intros Hcfg HInv HEv. unfold round.
  destruct (collect s) as [s1 cs] eqn:Hc. apply collect_spec in Hc as (Hs1 & Hg1 & Hok & Hnd).
  assert (Inv config cands s1) as HI1 by (eapply Inv_same_core; [done|by rewrite Hg1|done]).
  assert (EvInv s1) as HE1 by (by eapply EvInv_same_core).
  destruct cs as [|c0 cs0] eqn:Hcs; [done|]. rewrite <-Hcs in *. clear Hcs c0 cs0.
  destruct (resolve_groups turn s1 cs) as [s2 el] eqn:Hr.
  apply resolve_groups_spec in Hr as (Hs2 & Hg2 & Hnd2 & Hok2 & _ & Hw); [|done..].
  assert (Inv config cands s2) as HI2 by (by eapply Inv_same_core).
  assert (EvInv s2) as HE2 by (by eapply EvInv_same_core).
  destruct (admit_all turn config s2 el) as [s3 fs] eqn:Ha.
  apply EvInv_admit_all in Ha as [HE3 Hf3]; [|done..].
  destruct fs as [|f fs]; [done|].
  destruct (_ <=? _)%N; [destruct HE3; by split|].
  apply EvInv_ingest; [done|]. destruct HE3; by split.
Qed.

Lemma EvInv_run fuel s s' :
  config_ok → Inv config cands s → EvInv s → run turn config fuel s = Some s' → EvInv s'.
Proof.
  intros Hcfg. revert s. induction fuel as [|fuel IH]; intros s HInv HEv; [done|]. simpl.
  pose proof (EvInv_round s Hcfg HInv HEv) as HE.
  pose proof (Inv_round turn config cands s (proj1 Hcfg) (proj2 Hcfg) HInv) as HI.
  destruct (round turn config s) as [s1|s1]; [by intros [= <-]|]. apply IH; [apply HI|done].
Qed.

Lemma activate_session :
  config_ok → ∃ s, activate turn config cands scan = Some (finish s) ∧ Inv config cands s ∧ EvInv s.
Proof.
  intros Hcfg. pose proof Hcfg as [Hb Hr].
  set (s0 := ingest (Session_new config cands) scan true).
  assert (Inv config cands s0) as HI0 by apply Inv_ingest, Inv_new.
  destruct (run_spec turn config cands (run_fuel config) s0) as (s & Hs & HI);
    [done|done|done|unfold run_fuel; simpl; lia|].
  exists s. unfold activate. fold s0. rewrite Hs. split; [done|]. split; [done|].
  eapply EvInv_run; [exact Hcfg|exact HI0| |exact Hs]. apply EvInv_ingest; [by intros|]. split; simpl.
  - intros i e. rewrite list_lookup_fmap. by intros (cd & _ & ->)%fmap_Some.
  - intros a Ha. by apply not_elem_of_nil in Ha.
Qed.

(** The candidates an outcome activated, by their positions. *)
Definition activated_from (o : ActivationOutcome (K:=K)) (idxs : list nat) : Prop :=
  NoDup idxs ∧
  Forall2 (λ a i, ∃ cd, cands !! i = Some cd ∧ act_key a = cand_key cd) (out_activated o) idxs.

Definition content_bytes (idxs : list nat) : N := total_bytes cands idxs.

Lemma act_ok_from (l : list (ActivatedEntry (K:=K))) idxs :
  Forall2 (act_ok config cands) l idxs →
  Forall2 (λ a i, ∃ cd, cands !! i = Some cd ∧ act_key a = cand_key cd) l idxs.
Proof. intros Hl. eapply Forall2_impl; [exact Hl|]. intros a i (cd & ? & ? & _). by exists cd. Qed.

(** C37: activation always returns, and what it returns is bounded by the
    configuration: the number of activated entries, the bytes of their
    content together (each candidate counted once), and the recursion
    level. *)
Theorem activate_bounded :
  config_ok →
  ∃ o idxs, activate turn config cands scan = Some o ∧ activated_from o idxs ∧
    (nlen (out_activated o) <= cfg_max_activated_entries config)%N ∧
    (content_bytes idxs <= cfg_max_knowledge_bytes config)%N ∧
    (out_recursion_level o <= cfg_max_recursion_steps config)%N.
Proof.
  intros (s & Hs & HI & _)%activate_session.
  pose proof (inv_activated _ _ _ HI) as (idxs & Hnd & _ & Hall & _ & Hby & Hbl & Hn).
  exists (finish s), idxs. split_and!; [done|split; [done|by apply act_ok_from]|done| |].
  - unfold content_bytes. by rewrite <-Hby.
  - apply (inv_level _ _ _ HI).
Qed.

(** two entries of one group are never activated together, over all the
    recursion levels of a turn. *)
Theorem activate_groups_exclusive :
  config_ok →
  ∃ o idxs, activate turn config cands scan = Some o ∧ activated_from o idxs ∧
    ∀ i j g, i ∈ idxs → j ∈ idxs →
      g ∈ groups (selection (cand_rule_at cands i)) →
      g ∈ groups (selection (cand_rule_at cands j)) → i = j.
Proof.
  intros (s & Hs & HI & _)%activate_session.
  pose proof (inv_activated _ _ _ HI) as (idxs & Hnd & Hidx & Hall & _).
  exists (finish s), idxs. split_and!; [done|split; [done|by apply act_ok_from]|].
  intros i j g Hi Hj Hgi Hgj.
  assert (∀ k, k ∈ idxs → k ∈ activated_indices s) as Hin.
  { intros k. rewrite Hidx. apply elem_of_list_to_set. }
  pose proof (inv_groups _ _ _ HI i g (Hin i Hi) Hgi) as Hwi.
  pose proof (inv_groups _ _ _ HI j g (Hin j Hj) Hgj) as Hwj. congruence.
Qed.

(** C17: an entry is activated for a reason: it belongs to an enabled candidate
    that no zero probability excludes; a constant one activates at level 0
    only; any other has a primary match, is past its recursion delay, matches
    outside recursion if recursion may not activate it, and passes its
    secondary logic; and each match it reports is a real occurrence of that
    pattern in the scan buffer within its scan depth, or in the content of
    another activated entry that may recurse. *)
Theorem activate_justified o a :
  config_ok → activate turn config cands scan = Some o → a ∈ out_activated o →
  (act_recursion_level a <= out_recursion_level o)%N ∧
  ∃ cd, cd ∈ cands ∧ backed (out_activated o) a cd.
Proof.
  intros (s & Hs & HI & HE)%activate_session. rewrite Hs. intros [= <-] Ha. simpl in *.
  pose proof (inv_activated _ _ _ HI) as (idxs & _ & _ & _ & Hlev & _).
  split; [by eapply Forall_forall in Hlev|]. by apply (ev_activated _ HE).
Qed.

(** ** What is settled stays settled *)

(** Activated, or rejected for [r], for good. *)
Definition resolved s (i : nat) (r : ActivationRejection) : Prop :=
  i ∈ activated_indices s ∨ terminal_ s !! i = Some r.

Lemma resolved_settled s i r : resolved s i r → settled s i = true.
Proof.
  intros [Hi|Ht]; rewrite settled_eq; apply orb_true_iff; [left|right]; apply bool_decide_eq_true_2;
    [done|by eexists].
Qed.

Lemma resolved_same_core s s' i r :
  same_core s s' → terminal_ s' !! i = terminal_ s !! i → resolved s i r → resolved s' i r.
Proof. intros (_ & _ & _ & Ha & _) Ht. unfold resolved. by rewrite Ha, Ht. Qed.

Lemma collect_entry_keeps s i e s' o j :
  entries_ s !! i = Some e → collect_entry s i e = (s', o) → settled s j = true →
  terminal_ s' !! j = terminal_ s !! j.
Proof.
  intros He Hc Hj. destruct (decide (j = i)) as [->|Hne].
  - unfold collect_entry in Hc. rewrite Hj in Hc. by injection Hc as <- _.
  - apply collect_entry_spec in Hc as (_ & _ & Ht & _); auto.
Qed.

Lemma collect_keeps s s' cs j :
  collect s = (s', cs) → settled s j = true → terminal_ s' !! j = terminal_ s !! j.
Proof.
  intros Hc Hj. unfold collect in Hc. set (f := λ '(s, cs) '(i, e), _) in Hc.
  pose (P := λ (_ : list (nat * Entry (K:=K))) (r : Session (K:=K) * list Candidate),
    same_core s r.1 ∧ terminal_ r.1 !! j = terminal_ s !! j).
  assert (P (imap pair (entries_ s)) (s', cs)) as [_ ?]; [|done].
  rewrite <-Hc. apply foldl_prefix_ind; [done|].
  intros pre [i e] suf [s1 cs1] Hl [Hs Ht]. simpl in *.
  apply imap_pair_middle in Hl as [He _]. rewrite <-(proj1 Hs) in He.
  unfold f. destruct (collect_entry s1 i e) as [s2 o] eqn:Hce.
  pose proof (collect_entry_spec _ _ _ _ _ He Hce) as (Hs2 & _).
  split; [by etrans|]. simpl. rewrite <-Ht. eapply collect_entry_keeps; [done..|].
  by rewrite (settled_same_core s).
Qed.

(** A constant entry is collected in the first round. *)
Lemma collect_finds s s' cs i e :
  collect s = (s', cs) → entries_ s !! i = Some e → settled s i = false →
  enabled (mode (cand_rule (candidate e))) = true →
  constant (mode (cand_rule (candidate e))) = true → level s = 0%N →
  i ∈ index <$> cs.
Proof.
  intros Hc He Hset Hen Hcon Hlev. unfold collect in Hc. set (f := λ '(s, cs) '(i, e), _) in Hc.
  pose (P := λ (pre : list (nat * Entry (K:=K))) (r : Session (K:=K) * list Candidate),
    same_core s r.1 ∧ (i ∉ pre.*1 → terminal_ r.1 !! i = terminal_ s !! i) ∧
    (i ∈ pre.*1 → i ∈ index <$> r.2)).
  assert (P (imap pair (entries_ s)) (s', cs)) as (_ & _ & Hin).
  { rewrite <-Hc. apply foldl_prefix_ind.
    { split_and!; [done..|]. by intros ?%not_elem_of_nil. }
    intros pre [j d] suf [s1 cs1] Hl (Hs & Ht & Hi). simpl in *.
    apply imap_pair_middle in Hl as [Hd Hnd]. pose proof Hd as Hd1. rewrite <-(proj1 Hs) in Hd1.
    unfold f. destruct (collect_entry s1 j d) as [s2 o] eqn:Hce.
    pose proof (collect_entry_spec _ _ _ _ _ Hd1 Hce) as (Hs2 & _ & Ht2 & _).
    unfold P. simpl. rewrite fmap_app. split_and!; [by etrans| |].
    - rewrite not_elem_of_app. intros [Hpre Hj]. rewrite Ht2; [by apply Ht|set_solver].
    - rewrite fmap_app. intros [Hpre|Hj]%elem_of_app; [apply elem_of_app; left; auto|].
      apply list_elem_of_singleton in Hj. simpl in Hj. subst i. rewrite He in Hd. injection Hd as ->.
      assert (settled s1 j = false) as Hs1 by (rewrite (settled_same_core s); auto).
      unfold collect_entry in Hce. rewrite Hs1, Hen, Hcon in Hce. simpl in Hce.
      destruct Hs as (_ & Hl1 & _). rewrite Hl1, Hlev in Hce. simpl in Hce.
      injection Hce as <- <-. simpl. set_solver. }
  apply Hin. rewrite imap_pair_fst. apply elem_of_seq. apply lookup_lt_Some in He. lia.
Qed.

Lemma resolve_group_terminal s el g s' el' i :
  resolve_group turn s el g = (s', el') → i ∉ index <$> el → terminal_ s' !! i = terminal_ s !! i.
Proof.
  unfold resolve_group. intros Heq Hi.
  destruct (filter _ el) as [|m ms] eqn:Hm; [by injection Heq as <- _|].
  injection Heq as <- _. cbn [terminal_ set_groups]. apply foldl_terminal.
  intros (d & -> & [_ Hd]%list_elem_of_filter)%list_elem_of_fmap. rewrite <-Hm in Hd.
  apply list_elem_of_filter in Hd as [_ Hd]. by apply Hi, list_elem_of_fmap_2.
Qed.

Lemma resolve_group_ungrouped s el g s' el' c :
  resolve_group turn s el g = (s', el') → c ∈ el →
  groups (selection (rule s (index c))) = [] → c ∈ el'.
Proof.
  unfold resolve_group. intros Heq Hc Hg.
  destruct (filter _ el) as [|m ms] eqn:Hm; [by injection Heq as <- <-|].
  injection Heq as <- <-. apply list_elem_of_filter. split; [right|done].
  change (index c ∉ index <$> (m :: ms)). rewrite <-Hm.
  intros (d & Hd & [Hin _]%list_elem_of_filter)%list_elem_of_fmap.
  unfold in_group in Hin. rewrite <-Hd, Hg in Hin.
  rewrite bool_decide_spec in Hin. by apply not_elem_of_nil in Hin.
Qed.

Lemma resolve_groups_terminal s cs s' el :
  resolve_groups turn s cs = (s', el) → NoDup (index <$> cs) →
  (∀ i, i ∉ index <$> cs → terminal_ s' !! i = terminal_ s !! i) ∧
  (∀ c, c ∈ cs → groups (selection (rule s (index c))) = [] → c ∈ el).
Proof.
  unfold resolve_groups. intros Heq Hnd. set (f := λ '(s, eligible) g, _) in Heq.
  pose (P := λ (_ : list string) (r : Session (K:=K) * list Candidate),
    same_core s r.1 ∧ r.2 `sublist_of` cs ∧
    (∀ i, i ∉ index <$> cs → terminal_ r.1 !! i = terminal_ s !! i) ∧
    (∀ c, c ∈ cs → groups (selection (rule s (index c))) = [] → c ∈ r.2)).
  assert (P (set_entries (group_set s cs)) (s', el)) as (_ & _ & ?); [|done].
  rewrite <-Heq. apply foldl_prefix_ind; [done|].
  intros pre g suf [s1 el1] _ (Hs1 & Hsub & Ht & Hc). simpl in *.
  unfold f. destruct (resolve_group turn s1 el1 g) as [s2 el2] eqn:Hr.
  pose proof Hr as Hspec. apply resolve_group_spec in Hspec as (Hs2 & _ & Hsub2 & _).
  2:{ eapply sublist_NoDup; [exact Hnd|]. by apply (fmap_sublist index). }
  unfold P. simpl. split_and!; [by etrans..| |].
  - intros i Hi. erewrite resolve_group_terminal; [by apply Ht|exact Hr|].
    intros (c & -> & Hin)%list_elem_of_fmap. apply Hi, list_elem_of_fmap_2. by eapply elem_of_sublist.
  - intros c Hin Hg. eapply resolve_group_ungrouped; [exact Hr|by apply Hc|].
    by rewrite (rule_same_core s).
Qed.

Lemma admit_candidate_keeps s fs c s' fs' i :
  admit_candidate turn config s fs c = (s', fs') → i ≠ index c →
  ∀ r, resolved s i r → resolved s' i r.
Proof.
  unfold admit_candidate, resolved, reject, accept. intros Heq Hi r.
  repeat (case_match; try (injection Heq as <- _; simpl; rewrite ?lookup_insert_ne by done;
    set_solver || done)).
Qed.

Lemma admit_candidate_settles s fs c s' fs' e :
  entries_ s !! index c = Some e →
  (100 <= probability (selection (cand_rule (candidate e))))%N →
  admit_candidate turn config s fs c = (s', fs') → resolved s' (index c) Budget.
Proof.
  intros He Hp. unfold admit_candidate. rewrite He.
  assert (probability_admits turn s (index c) (probability (selection (cand_rule (candidate e)))) = true) as ->.
  { unfold probability_admits. destruct (N.eqb_spec (probability (selection (cand_rule (candidate e)))) 0); [lia|].
    destruct (N.leb_spec 100 (probability (selection (cand_rule (candidate e))))); [done|lia]. }
  simpl. destruct (_ || _); intros [= <- _]; unfold resolved; simpl;
    [right; apply lookup_insert_eq|left; set_solver].
Qed.

Lemma admit_all_settles s cs s' fs :
  config_ok → Inv config cands s → NoDup (index <$> cs) → Forall (cand_ok s) cs →
  (∀ c g, c ∈ cs → g ∈ groups (selection (rule s (index c))) →
    group_winners s !! g = Some (index c)) →
  admit_all turn config s cs = (s', fs) →
  (∀ i, resolved s i Budget → resolved s' i Budget) ∧
  (∀ c e, c ∈ cs → entries_ s !! index c = Some e →
    (100 <= probability (selection (cand_rule (candidate e))))%N → resolved s' (index c) Budget).
Proof.
  intros [Hmax _] HInv Hnd Hok Hgw Heq.
  eapply (admit_all_ind turn config cands s cs (λ pre r,
    (∀ i, resolved s i Budget → resolved r.1 i Budget) ∧
    (∀ c e, c ∈ pre → entries_ s !! index c = Some e →
      (100 <= probability (selection (cand_rule (candidate e))))%N → resolved r.1 (index c) Budget))
    s' fs Hmax HInv Hnd Hok Hgw) in Heq as ((Hkeep & Hset) & _).
  - split; [exact Hkeep|]. intros c e Hc. apply (Hset c e).
    by rewrite elem_of_sort_by.
  - split; [done|]. by intros c e ?%not_elem_of_nil.
  - intros pre c s1 fs1 s2 fs2 Hc Hni HI1 Hl1 He1 [Hkeep Hset] Ha. simpl in *. split.
    + intros i Hi. eapply admit_candidate_keeps; [done| |by apply Hkeep].
      intros ->. eapply Forall_forall in Hok as [Hf _]; [|done].
      by rewrite (resolved_settled s _ Budget) in Hf.
    + intros d e [Hd | ->%list_elem_of_singleton]%elem_of_app He Hp.
      * eapply admit_candidate_keeps; [done| |by eapply Hset].
        intros Hdc. apply Hni. rewrite <-Hdc. by apply list_elem_of_fmap_2.
      * eapply admit_candidate_settles; [by rewrite He1|done..].
Qed.

(** A candidate that must activate unless the budget runs out. *)
Definition always_active (cd : ActivationCandidate (K:=K)) : Prop :=
  enabled (mode (cand_rule cd)) = true ∧ constant (mode (cand_rule cd)) = true ∧
  (100 <= probability (selection (cand_rule cd)))%N ∧ groups (selection (cand_rule cd)) = [].

Definition round_session (r : round_result (K:=K)) : Session (K:=K) :=
  match r with Stop s | Next s => s end.

Lemma round_settles s i cd :
  config_ok → Inv config cands s → cands !! i = Some cd → always_active cd →
  resolved s i Budget ∨ (level s = 0%N ∧ settled s i = false) →
  resolved (round_session (round turn config s)) i Budget.
Proof.
  intros Hcfg HInv Hcd (Hen & Hcon & Hp & Hgr) Hi. unfold round.
  destruct (collect s) as [s1 cs] eqn:Hc. pose proof Hc as Hspec.
  apply collect_spec in Hspec as (Hs1 & Hg1 & Hok & Hnd).
  assert (∃ e, entries_ s !! i = Some e ∧ cand_rule (candidate e) = cand_rule cd) as (e & He & Hr).
  { assert (i < length (entries_ s)) as Hlt.
    { rewrite (inv_length _ _ _ HInv). by eapply lookup_lt_Some. }
    apply lookup_lt_is_Some_2 in Hlt as [e He]. exists e. split; [done|].
    destruct (inv_shape _ _ _ HInv _ _ He) as (cd' & Hcd' & ->). simpl. congruence. }
  assert (resolved s1 i Budget ∨ i ∈ index <$> cs) as Hi1.
  { destruct Hi as [Hi|[Hl Hset]].
    - left. apply (resolved_same_core s); [done| |done]. eapply collect_keeps; [done|].
      by eapply resolved_settled.
    - right. eapply collect_finds; [done..| | |done]; by rewrite Hr. }
  assert (Inv config cands s1) as HI1 by (eapply Inv_same_core; [done|by rewrite Hg1|done]).
  destruct cs as [|c0 cs0] eqn:Hcs.
  { destruct Hi1 as [?|Hin]; [done|]. by apply not_elem_of_nil in Hin. }
  rewrite <-Hcs in *. clear Hcs c0 cs0.
  destruct (resolve_groups turn s1 cs) as [s2 el] eqn:Hrg.
  pose proof (resolve_groups_terminal _ _ _ _ Hrg Hnd) as [Ht2 Hun].
  apply resolve_groups_spec in Hrg as (Hs2 & Hg2 & Hnd2 & Hok2 & _ & Hw); [|done..].
  assert (Inv config cands s2) as HI2 by (by eapply Inv_same_core).
  assert (same_core s s2) as Hs by (by etrans).
  assert (resolved s2 i Budget ∨ ∃ c, c ∈ el ∧ index c = i) as Hi2.
  { destruct Hi1 as [Hi1|(c & -> & Hin)%list_elem_of_fmap].
    - left. apply (resolved_same_core s1); [done| |done]. apply Ht2.
      intros (c & -> & Hin)%list_elem_of_fmap. eapply Forall_forall in Hok as [Hf _]; [|done].
      by rewrite (resolved_settled s1 _ Budget) in Hf.
    - right. exists c. split; [|done]. apply Hun; [done|]. unfold rule.
      rewrite (proj1 Hs1), He. simpl. by rewrite Hr. }
  destruct (admit_all turn config s2 el) as [s3 fs] eqn:Ha.
  apply admit_all_settles in Ha as [Hkeep Hset]; [|done..].
  assert (resolved s3 i Budget) as Hi3.
  { destruct Hi2 as [?|(c & Hin & <-)]; [auto|]. eapply Hset; [done| |].
    - by rewrite (proj1 Hs).
    - by rewrite Hr. }
  destruct fs as [|f fs]; [done|]. by destruct (_ <=? _)%N.
Qed.

Lemma run_settles fuel s s' i cd :
  config_ok → Inv config cands s → cands !! i = Some cd → always_active cd →
  resolved s i Budget ∨ (level s = 0%N ∧ settled s i = false) →
  run turn config fuel s = Some s' → resolved s' i Budget.
Proof.
  intros Hcfg HInv Hcd Hact. revert s HInv. induction fuel as [|fuel IH]; intros s HInv Hi; [done|]. simpl.
  pose proof (round_settles s i cd Hcfg HInv Hcd Hact Hi) as Hr.
  pose proof (Inv_round turn config cands s (proj1 Hcfg) (proj2 Hcfg) HInv) as HI.
  destruct (round turn config s) as [s1|s1]; simpl in *; [by intros [= <-]|].
  apply IH; [apply HI|by left].
Qed.

Lemma rejections_count (l : list ActivationRejection) m r :
  r ∈ l ∨ is_Some (m !! r) →
  is_Some (foldl (λ m r, <[r := (default 0 (m !! r) + 1)%N]> m) (m : gmap _ N) l !! r).
Proof.
  revert m. induction l as [|x l IH]; intros m Hr; simpl.
  - destruct Hr as [Hr|Hr]; [by apply not_elem_of_nil in Hr|done].
  - apply IH. destruct (decide (x = r)) as [->|Hne]; [right; by rewrite lookup_insert_eq|].
    rewrite lookup_insert_ne by done. destruct Hr as [[->|?]%elem_of_cons|?]; [done|by left|by right].
Qed.

(** nothing that must activate is lost: when the outcome reports no budget
    rejection, every enabled constant candidate that is certain (probability
    100) and in no group has been activated. *)
Theorem activate_constants_complete o i cd :
  config_ok → activate turn config cands scan = Some o →
  cands !! i = Some cd → always_active cd → out_rejections o !! Budget = None →
  ∃ a, a ∈ out_activated o ∧ act_key a = cand_key cd.
Proof.
  intros Hcfg Hact Hcd Hal Hnone. unfold activate in Hact.
  apply fmap_Some in Hact as (s & Hrun & ->).
  assert (resolved s i Budget) as [Hi|Ht].
  { eapply run_settles; [exact Hcfg|apply Inv_ingest, Inv_new|exact Hcd|exact Hal| |exact Hrun].
    by right. }
  - destruct (run_spec turn config cands (run_fuel config) (ingest (Session_new config cands) scan true))
      as (s' & Hs' & HI); [apply Hcfg..|apply Inv_ingest, Inv_new|unfold run_fuel; simpl; lia|].
    rewrite Hs' in Hrun. injection Hrun as ->.
    destruct (inv_activated _ _ _ HI) as (idxs & _ & Hidx & Hall & _).
    rewrite Hidx in Hi. apply elem_of_list_to_set, list_elem_of_lookup in Hi as [n Hn].
    destruct (Forall2_lookup_r _ _ _ _ _ Hall Hn) as (a & Ha & cd' & Hcd' & Hk & _).
    exists a. split; [by eapply list_elem_of_lookup_2|]. congruence.
  - exfalso. eapply (is_Some_None (A:=N)). rewrite <-Hnone. apply rejections_count. left.
    apply elem_of_app. left. apply list_elem_of_fmap. exists (i, Budget). split; [done|].
    by apply elem_of_map_to_list.
Qed.
End props.

(** ** A concrete run *)

#[local] Instance demo_unicode : Unicode := ascii_unicode.
#[local] Instance demo_sha : Sha256 := λ s, u64_be_bytes (slen s * 2654435769).
#[local] Instance demo_key : EngineKey string :=
  {| ek_compare := String.compare; ek_laws := string_ord_laws; ek_display := λ s, s |}.

Definition demo_turn : ActivationTurn := {| at_story_id := "story"; at_turn_number := 3 |}.

Definition demo_rule (const : bool) (ks : list string) (gs : list string) : ActivationRule :=
  {| match_rule := {| keys_ := ks; secondary_keys := []; secondary_logic := AndAny;
                      case_sensitive := false; match_whole_words := true; match_scan_depth := None |};
     mode := {| enabled := true; constant := const |};
     recursion := ActivationRecursionRule_default;
     selection := {| order := 0; probability := 100; groups := gs; group_override := false;
                     group_weight := 100; use_group_scoring := false |} |}.

Definition demo_candidates : list (ActivationCandidate (K:=string)) :=
  [{| cand_key := "world"; cand_rule := demo_rule true [] []; cand_content := "The city never sleeps." |};
   {| cand_key := "gate"; cand_rule := demo_rule false ["gate"] ["site"];
      cand_content := "The gate hides a tunnel." |};
   {| cand_key := "wall"; cand_rule := demo_rule false ["gate"; "wall"] ["site"];
      cand_content := "The wall is old." |};
   {| cand_key := "tunnel"; cand_rule := demo_rule false ["tunnel"] [];
      cand_content := "Smugglers use it." |}].

Definition demo_scan : list ScanFragment :=
  [ScanFragment_new PlayerContributionKind 0 "I walk to the GATE."].

Definition demo_outcome : ActivationOutcome (K:=string) :=
  default {| out_activated := []; out_rejections := ∅; out_recursion_level := 0;
             out_stop_reason := Stop_Complete |}
    (activate demo_turn ActivationConfig_default demo_candidates demo_scan).

Example demo_activated :
  (act_key <$> out_activated demo_outcome, out_recursion_level demo_outcome,
   map_to_list (out_rejections demo_outcome)) = (["world"; "gate"; "tunnel"], 2%N, [(GroupLoser, 1%N)]).
Proof. vm_compute. reflexivity. Qed.

Lemma demo_config_ok : config_ok ActivationConfig_default.
Proof. split; vm_compute; [reflexivity|discriminate]. Qed.

Lemma activate_bounded_witness :
  ∃ o idxs, activate demo_turn ActivationConfig_default demo_candidates demo_scan = Some o ∧
    activated_from demo_candidates o idxs ∧ (nlen (out_activated o) <= 16)%N ∧
    (content_bytes demo_candidates idxs <= 16384)%N ∧ (out_recursion_level o <= 3)%N.
Proof. apply activate_bounded. apply demo_config_ok. Defined.

Lemma activate_groups_exclusive_witness :
  ∃ o idxs, activate demo_turn ActivationConfig_default demo_candidates demo_scan = Some o ∧
    activated_from demo_candidates o idxs ∧
    ∀ i j g, i ∈ idxs → j ∈ idxs →
      g ∈ groups (selection (cand_rule_at demo_candidates i)) →
      g ∈ groups (selection (cand_rule_at demo_candidates j)) → i = j.
Proof. apply activate_groups_exclusive. apply demo_config_ok. Defined.

Definition demo_gate : ActivatedEntry (K:=string) :=
  {| act_key := "gate"; act_class := Class_TextMatch; act_recursion_level := 0;
     act_evidence := [{| pattern_kind := Primary; pattern_ordinal := 0;
                         fragment_kind := PlayerContributionKind; ev_depth := 0; match_count := 1 |}] |}.

Lemma activate_justified_witness :
  (act_recursion_level demo_gate <= out_recursion_level demo_outcome)%N ∧
  ∃ cd, cd ∈ demo_candidates ∧
    backed ActivationConfig_default demo_candidates demo_scan (out_activated demo_outcome) demo_gate cd.
Proof.
  apply (activate_justified demo_turn).
  - apply demo_config_ok.
  - vm_compute. reflexivity.
  - apply list_elem_of_lookup. exists 1. vm_compute. reflexivity.
Defined.

Lemma activate_constants_complete_witness :
  ∃ a, a ∈ out_activated demo_outcome ∧ act_key a = "world".
Proof.
  apply (activate_constants_complete demo_turn ActivationConfig_default demo_candidates demo_scan
    demo_outcome 0
    {| cand_key := "world"; cand_rule := demo_rule true [] []; cand_content := "The city never sleeps." |}).
  - apply demo_config_ok.
  - vm_compute. reflexivity.
  - reflexivity.
  - repeat split; vm_compute; discriminate.
  - vm_compute. reflexivity.
Defined.
