(* ===== verification/Roles.v ===== *)
(** * Roles: limits on the roles of a story, and the seed-role codec

    [core/role/role.rs]: the checks a story's roles pass when a pack is frozen,
    when a story is created and on every commit, and the hand-written [serde]
    implementation of [SeedRole].  [serde_json] is the [RoleJson] class and the
    parameters of the codec section. *)
From S2P Require Import Prelude.
From S2P Require Import Text.
From S2P Require Import Values.
From S2P Require Import Domain.

Definition MAX_ROLES_PER_STORY : N := 64.
Definition MAX_ALIASES_PER_ROLE : N := 8.
Definition MAX_ROLE_CATALOG_BYTES : N := 32 * 1024.
Definition MAX_MEMORIES_PER_ROLE : N := 32.
Definition MAX_ROLE_STATE_BYTES : N := 2 * 1024 * 1024.
Definition MAX_OPENING_BYTES : N := 16 * 1024.

(** [serde_json::to_writer] on a map of roles: the buffers it writes, in
    order, and the error it ends with if serialisation itself fails. *)
Class RoleJson := {
  json_chunks : gmap RoleId RoleEntry → list string;
  json_failure : gmap RoleId RoleEntry → option string;
}.

(** ** The counting writer *)

Record CountingWriter := { maximum : N; written : N; exceeded : bool }.

Definition CountingWriter_new (max : N) : CountingWriter :=
  {| maximum := max; written := 0; exceeded := false |}.

(** [Write::write]: the writer after the call, and whether it succeeded. *)
Definition CountingWriter_write (w : CountingWriter) (buffer : string) : CountingWriter * bool :=
  if (sat_sub (maximum w) (written w) <? slen buffer)%N then
    ({| maximum := maximum w; written := sat_add USIZE_MAX (maximum w) 1; exceeded := true |}, false)
  else
    ({| maximum := maximum w; written := sat_add USIZE_MAX (written w) (slen buffer);
        exceeded := exceeded w |}, true).

(** [to_writer]: stops at the first failing write. *)
Fixpoint write_chunks (w : CountingWriter) (chunks : list string) : CountingWriter * bool :=
  match chunks with
  | [] => (w, true)
  | c :: chunks' =>
      let '(w', ok) := CountingWriter_write w c in
      if ok then write_chunks w' chunks' else (w', false)
  end.

(** ** Validation *)

Section validation.
Context `{RoleJson}.

Definition validate_role_spec (rid : RoleId) (spec : RoleSpec) : result StoryError unit :=
  fail_if (MAX_ALIASES_PER_ROLE <? nlen (alias spec))%N
    with TooManyRoleAliases rid (nlen (alias spec)) MAX_ALIASES_PER_ROLE in
  Ok tt.

Definition validate_role_count (actual : N) : result StoryError unit :=
  fail_if (MAX_ROLES_PER_STORY <? actual)%N with TooManyRoles actual MAX_ROLES_PER_STORY in
  Ok tt.

Definition validate_memory_count (rid : RoleId) (actual : N) : result StoryError unit :=
  fail_if (MAX_MEMORIES_PER_ROLE <? actual)%N
    with TooManyRoleMemories rid actual MAX_MEMORIES_PER_ROLE in
  Ok tt.

Definition role_catalog_bytes (rid : RoleId) (spec : RoleSpec) : N :=
  sat_add USIZE_MAX
    (foldl (λ total a, sat_add USIZE_MAX total (slen a))
      (sat_add USIZE_MAX (slen rid) (slen (role_name spec))) (alias spec))
    (slen (role_retrieval spec)).

Definition validate_catalog_bytes (actual : N) : result StoryError unit :=
  fail_if (MAX_ROLE_CATALOG_BYTES <? actual)%N
    with RoleCatalogTooLarge actual MAX_ROLE_CATALOG_BYTES in
  Ok tt.

Definition validate_state_size (value : gmap RoleId RoleEntry) : result StoryError unit :=
  let '(w, ok) := write_chunks (CountingWriter_new MAX_ROLE_STATE_BYTES) (json_chunks value) in
  if ok then
    match json_failure value with
    | None => Ok tt
    | Some message =>
        fail_if exceeded w with RoleStateTooLarge (written w) MAX_ROLE_STATE_BYTES in
        Err (RoleStateSerialization message)
    end
  else
    fail_if exceeded w with RoleStateTooLarge (written w) MAX_ROLE_STATE_BYTES in
    Err (RoleStateSerialization "role state size exceeded").

(** The projections [validate_seed_roles] serialises have the fields of a
    [RoleEntry] and a [MemoryEntry] of seed origin. *)
Definition seed_memory (mid : MemoryId) (body : MemoryBody) : MemoryEntry :=
  {| memory_id := mid; memory_origin := Origin_Seed; memory_body := body |}.

Definition seed_projection (rid : RoleId) (r : SeedRole) : RoleEntry :=
  {| role_id := rid; role_origin := Origin_Seed; role_spec := seed_spec r;
     role_profile := default_profile r; memories := map_imap (λ mid b, Some (seed_memory mid b)) (seed_memories r) |}.

(** The bodies of the two loops. *)
Definition seed_step (acc : N * gmap RoleId RoleEntry) (e : RoleId * SeedRole) :
    result StoryError (N * gmap RoleId RoleEntry) :=
  let '(bytes, projected) := acc in
  let '(rid, r) := e in
  let? _ := validate_role_spec rid (seed_spec r) in
  let? _ := validate_memory_count rid (map_len (seed_memories r)) in
  Ok (sat_add USIZE_MAX bytes (role_catalog_bytes rid (seed_spec r)),
      <[rid := seed_projection rid r]> projected).

Definition runtime_step (bytes : N) (e : RoleId * RoleEntry) : result StoryError N :=
  let '(rid, r) := e in
  let? _ := validate_role_spec rid (role_spec r) in
  let? _ := validate_memory_count rid (map_len (memories r)) in
  Ok (sat_add USIZE_MAX bytes (role_catalog_bytes rid (role_spec r))).

Definition validate_seed_roles (rs : gmap RoleId SeedRole) : result StoryError unit :=
  let? _ := validate_role_count (map_len rs) in
  let? acc := try_fold seed_step (0%N, ∅) (entries rs) in
  let? _ := validate_catalog_bytes acc.1 in
  validate_state_size acc.2.

Definition validate_runtime_roles (rs : gmap RoleId RoleEntry) : result StoryError unit :=
  let? _ := validate_role_count (map_len rs) in
  let? bytes := try_fold runtime_step 0%N (entries rs) in
  let? _ := validate_catalog_bytes bytes in
  validate_state_size rs.

(** ** What the counting writer accepts *)

Definition total_len (chunks : list string) : N := foldr (λ c t, slen c + t)%N 0%N chunks.

Lemma write_chunks_spec max w n chunks :
  (max < USIZE_MAX)%N → (n <= max)%N →
  w = {| maximum := max; written := n; exceeded := false |} →
  write_chunks w chunks =
    if (n + total_len chunks <=? max)%N
    then ({| maximum := max; written := n + total_len chunks; exceeded := false |}, true)
    else ({| maximum := max; written := max + 1; exceeded := true |}, false).
Proof.
  intros Hmax. revert w n. induction chunks as [|c chunks IH]; intros w n Hn ->; simpl.
  - rewrite N.add_0_r. by rewrite (proj2 (N.leb_le n max)).
  - unfold CountingWriter_write. simpl. unfold sat_sub, sat_add.
    destruct (N.ltb_spec (max - n) (slen c)) as [Hc|Hc].
    + rewrite (proj2 (N.leb_gt (n + (slen c + total_len chunks)) max)) by lia.
      by rewrite clamp_small by lia.
    + rewrite clamp_small by lia. rewrite (IH _ (n + slen c)%N); [|lia|done].
      by rewrite N.add_assoc.
Qed.

(** the role-state check accepts exactly the roles whose serialisation
    succeeds in at most 2 MiB in total, however the serialiser splits its
    output into writes; the size it reports otherwise is one over the
    maximum. *)
Theorem validate_state_size_spec rs :
  validate_state_size rs =
    if (MAX_ROLE_STATE_BYTES <? total_len (json_chunks rs))%N
    then Err (RoleStateTooLarge (MAX_ROLE_STATE_BYTES + 1) MAX_ROLE_STATE_BYTES)
    else match json_failure rs with
         | None => Ok tt
         | Some message => Err (RoleStateSerialization message)
         end.
Proof.
  unfold validate_state_size.
  rewrite (write_chunks_spec MAX_ROLE_STATE_BYTES _ 0); [|vm_compute; reflexivity|vm_compute; discriminate|done].
  rewrite N.add_0_l, N.leb_antisym. destruct (_ <? _)%N; simpl; [done|].
  by destruct (json_failure rs).
Qed.

(** ** Seed roles and runtime roles pass the same checks *)

Definition seed_runtime (rs : gmap RoleId SeedRole) : gmap RoleId RoleEntry :=
  map_imap (λ rid r, Some (seed_projection rid r)) rs.

Lemma map_len_imap {V W} (f : string → V → W) (m : gmap string V) :
  map_len (map_imap (λ k v, Some (f k v)) m) = map_len m.
Proof. unfold map_len. by rewrite <-!length_entries, entries_map_imap, length_fmap. Qed.

Definition seed_insert (m : gmap RoleId RoleEntry) (e : RoleId * SeedRole) : gmap RoleId RoleEntry :=
  <[e.1 := seed_projection e.1 e.2]> m.

Lemma seed_steps l bytes projected :
  try_fold seed_step (bytes, projected) l =
  match try_fold runtime_step bytes ((λ e, (e.1, seed_projection e.1 e.2)) <$> l) with
  | Ok b => Ok (b, foldl seed_insert projected l)
  | Err e => Err e
  end.
Proof.
  revert bytes projected. induction l as [|[rid r] l IH]; intros bytes projected; simpl; [done|].
  rewrite map_len_imap.
  destruct (validate_role_spec rid (seed_spec r)); [|done].
  destruct (validate_memory_count rid (map_len (seed_memories r))); [|done].
  apply IH.
Qed.

Lemma seed_inserts_lookup l m rid :
  NoDup l.*1 →
  foldl seed_insert m l !! rid =
  match list_to_map (M:=gmap RoleId SeedRole) l !! rid with
  | Some r => Some (seed_projection rid r)
  | None => m !! rid
  end.
Proof.
  revert m. induction l as [|[k r] l IH]; intros m; simpl; [by rewrite lookup_empty|].
  intros [Hk Hnd]%NoDup_cons. rewrite IH by done. unfold seed_insert. simpl.
  destruct (decide (k = rid)) as [->|Hne].
  - rewrite lookup_insert_eq, (not_elem_of_list_to_map_1 (M:=gmap RoleId)) by done.
    by rewrite lookup_insert_eq.
  - by rewrite !lookup_insert_ne.
Qed.

(** the check made on a pack's seed roles is the check made on the runtime
    roles a story starts with: same verdict and same error, so a pack that is
    accepted cannot produce a story whose default roles are refused. *)
Theorem validate_seed_roles_runtime rs :
  validate_seed_roles rs = validate_runtime_roles (seed_runtime rs).
Proof.
  unfold validate_seed_roles, validate_runtime_roles, seed_runtime.
  rewrite map_len_imap, entries_map_imap. destruct (validate_role_count _); [|done].
  rewrite seed_steps. destruct (try_fold runtime_step _ _) as [b|e]; [|done]. simpl.
  destruct (validate_catalog_bytes b); [|done]. f_equal. apply map_eq. intros rid.
  rewrite seed_inserts_lookup by apply NoDup_keys. rewrite map_lookup_imap, lookup_empty.
  destruct (rs !! rid) as [r|] eqn:Hr; simpl.
  - rewrite (elem_of_list_to_map_1 (M:=gmap RoleId) _ _ r); [done|apply NoDup_keys|].
    by apply elem_of_entries.
  - rewrite (not_elem_of_list_to_map_1 (M:=gmap RoleId)); [done|].
    change (rid ∉ keys rs). rewrite elem_of_keys, Hr. by intros [].
Qed.
End validation.

(** ** The [serde] implementation of [SeedRole]

    A struct is a sequence of named values; [V] is the format's value type and
    the [de_]/[ser_] functions are its codecs of the field types. *)

Inductive SeedRoleField :=
| Field_Name | Field_Alias | Field_Backstory | Field_Retrieval | Field_DefaultProfile | Field_SeedMemories.

Section codec.
Context {V E : Type}.
Context (de_text : V → result E BoundedText) (de_alias : V → result E (list BoundedText))
  (de_hint : V → result E RetrievalHint) (de_profile : V → result E CharacterProfile)
  (de_memories : V → result E (gmap MemoryId MemoryBody)).
Context (ser_text : BoundedText → V) (ser_alias : list BoundedText → V)
  (ser_hint : RetrievalHint → V) (ser_profile : CharacterProfile → V)
  (ser_memories : gmap MemoryId MemoryBody → V).
Context (missing_field duplicate_field unknown_field : string → E).

(** [Serialize for SeedRole]. *)
Definition serialize_seed_role (r : SeedRole) : list (string * V) :=
  [("name", ser_text (role_name (seed_spec r)));
   ("alias", ser_alias (alias (seed_spec r)));
   ("backstory", ser_text (backstory (seed_spec r)));
   ("retrieval", ser_hint (role_retrieval (seed_spec r)));
   ("default_profile", ser_profile (default_profile r));
   ("seed_memories", ser_memories (seed_memories r))].

(** The field identifier: snake case names, anything else is refused. *)
Definition seed_role_field (name : string) : result E SeedRoleField :=
  if decide (name = "name") then Ok Field_Name
  else if decide (name = "alias") then Ok Field_Alias
  else if decide (name = "backstory") then Ok Field_Backstory
  else if decide (name = "retrieval") then Ok Field_Retrieval
  else if decide (name = "default_profile") then Ok Field_DefaultProfile
  else if decide (name = "seed_memories") then Ok Field_SeedMemories
  else Err (unknown_field name).

Definition set_once {T} (target : option T) (field : string) (de : V → result E T) (v : V) :
    result E (option T) :=
  match target with
  | Some _ => Err (duplicate_field field)
  | None => let? x := de v in Ok (Some x)
  end.

(** The local variables of [visit_map]. *)
Record SeedRoleParts := {
  p_name : option BoundedText;
  p_alias : option (list BoundedText);
  p_backstory : option BoundedText;
  p_retrieval : option RetrievalHint;
  p_profile : option CharacterProfile;
  p_memories : option (gmap MemoryId MemoryBody);
}.

Definition no_parts : SeedRoleParts :=
  {| p_name := None; p_alias := None; p_backstory := None; p_retrieval := None;
     p_profile := None; p_memories := None |}.

Definition visit_field (p : SeedRoleParts) (e : string * V) : result E SeedRoleParts :=
  let '(name, v) := e in
  let? field := seed_role_field name in
  match field with
  | Field_Name =>
      let? x := set_once (p_name p) "name" de_text v in
      Ok {| p_name := x; p_alias := p_alias p; p_backstory := p_backstory p;
            p_retrieval := p_retrieval p; p_profile := p_profile p; p_memories := p_memories p |}
  | Field_Alias =>
      let? x := set_once (p_alias p) "alias" de_alias v in
      Ok {| p_name := p_name p; p_alias := x; p_backstory := p_backstory p;
            p_retrieval := p_retrieval p; p_profile := p_profile p; p_memories := p_memories p |}
  | Field_Backstory =>
      let? x := set_once (p_backstory p) "backstory" de_text v in
      Ok {| p_name := p_name p; p_alias := p_alias p; p_backstory := x;
            p_retrieval := p_retrieval p; p_profile := p_profile p; p_memories := p_memories p |}
  | Field_Retrieval =>
      let? x := set_once (p_retrieval p) "retrieval" de_hint v in
      Ok {| p_name := p_name p; p_alias := p_alias p; p_backstory := p_backstory p;
            p_retrieval := x; p_profile := p_profile p; p_memories := p_memories p |}
  | Field_DefaultProfile =>
      let? x := set_once (p_profile p) "default_profile" de_profile v in
      Ok {| p_name := p_name p; p_alias := p_alias p; p_backstory := p_backstory p;
            p_retrieval := p_retrieval p; p_profile := x; p_memories := p_memories p |}
  | Field_SeedMemories =>
      let? x := set_once (p_memories p) "seed_memories" de_memories v in
      Ok {| p_name := p_name p; p_alias := p_alias p; p_backstory := p_backstory p;
            p_retrieval := p_retrieval p; p_profile := p_profile p; p_memories := x |}
  end.

Definition visit_map (map : list (string * V)) : result E SeedRole :=
  let? p := try_fold visit_field no_parts map in
  let? name := ok_or (p_name p) (missing_field "name") in
  let? back := ok_or (p_backstory p) (missing_field "backstory") in
  let? hint := ok_or (p_retrieval p) (missing_field "retrieval") in
  let? profile := ok_or (p_profile p) (missing_field "default_profile") in
  Ok {| seed_spec := {| role_name := name; alias := default [] (p_alias p); backstory := back;
                        role_retrieval := hint |};
        default_profile := profile;
        seed_memories := default ∅ (p_memories p) |}.

Lemma seed_role_field_inj n1 n2 f :
  seed_role_field n1 = Ok f → seed_role_field n2 = Ok f → n1 = n2.
Proof. unfold seed_role_field. repeat case_decide; congruence. Qed.

Lemma set_once_ok {T} (t : option T) field de v x :
  set_once t field de v = Ok x → t = None ∧ x = match de v with Ok y => Some y | Err _ => None end.
Proof. unfold set_once. destruct t; [done|]. destruct (de v); [|done]. by intros [= <-]. Qed.

Lemma visit_field_swap p p1 p2 x y :
  x.1 ≠ y.1 → visit_field p x = Ok p1 → visit_field p1 y = Ok p2 →
  ∃ p1', visit_field p y = Ok p1' ∧ visit_field p1' x = Ok p2.
Proof.
  destruct x as [n v], y as [m w]. simpl. intros Hne Hx Hy.
  destruct (seed_role_field n) as [f|] eqn:Hf; [|done].
  destruct (seed_role_field m) as [g|] eqn:Hg; [|done].
  assert (f ≠ g) as Hfg by (intros ->; by eapply Hne, seed_role_field_inj).
  destruct f, g; try done;
    res_inv; simpl in *;
    repeat match goal with H : set_once _ _ _ _ = Ok _ |- _ => rewrite H; clear H end;
    eexists; (split; [reflexivity|]); simpl;
    repeat match goal with H : set_once _ _ _ _ = Ok _ |- _ => rewrite H end; done.
Qed.

Lemma visit_fields_perm l l' p p' :
  l ≡ₚ l' → NoDup l.*1 → try_fold visit_field p l = Ok p' → try_fold visit_field p l' = Ok p'.
Proof.
  intros Hl. revert p p'. induction Hl as [|x l l' Hl IH|x y l|l1 l2 l3 Hl1 IH1 Hl2 IH2];
    intros p p' Hnd; cbn [try_fold].
  - done.
  - destruct (visit_field p x); [|done]. apply IH. by apply NoDup_cons in Hnd as [_ ?].
  - destruct (visit_field p y) as [p1|] eqn:H1; [|done].
    destruct (visit_field p1 x) as [p2|] eqn:H2; [|done]. intros H3.
    cbn in Hnd. apply NoDup_cons in Hnd as [Hni _]. apply not_elem_of_cons in Hni as [Hne _].
    destruct (visit_field_swap p p1 p2 y x Hne H1 H2) as (p1' & -> & ->). done.
  - intros H1. apply IH2; [by rewrite <-Hl1|]. by apply IH1.
Qed.

(** a seed role survives serialisation: reading back the fields
    [Serialize] writes gives the role, in whatever order the format presents
    them, when the format round-trips the field types. *)
Theorem visit_map_serialize r fields :
  (∀ x, de_text (ser_text x) = Ok x) → (∀ x, de_alias (ser_alias x) = Ok x) →
  (∀ x, de_hint (ser_hint x) = Ok x) → (∀ x, de_profile (ser_profile x) = Ok x) →
  (∀ x, de_memories (ser_memories x) = Ok x) →
  fields ≡ₚ serialize_seed_role r → visit_map fields = Ok r.
Proof.
  intros Ht Ha Hh Hp Hm Hperm. unfold visit_map.
  erewrite (visit_fields_perm (serialize_seed_role r) fields no_parts); [|done| |].
  3:{ simpl. rewrite !Ht. simpl. rewrite Ha. simpl. rewrite Ht. simpl. rewrite Hh. simpl.
      rewrite Hp. simpl. rewrite Hm. simpl. reflexivity. }
  - simpl. by destruct r as [[] ? ?].
  - simpl. repeat (apply NoDup_cons; split; [set_solver|]). constructor.
Qed.
End codec.

(** A format that tags each value with its type. *)
Inductive TaggedValue :=
| Tag_Text (x : BoundedText) | Tag_Alias (x : list BoundedText) | Tag_Hint (x : RetrievalHint)
| Tag_Profile (x : CharacterProfile) | Tag_Memories (x : gmap MemoryId MemoryBody).

Definition demo_role : SeedRole :=
  {| seed_spec := {| role_name := "Mira"; alias := ["The Fox"]; backstory := "A thief."; role_retrieval := "thief" |};
     default_profile := {| appearance := None; personality := Some "wry"; speaking_style := None;
                           dialogue_examples := [] |};
     seed_memories := {["m1" := {| memory_content := "She knows the gate.";
                                   memory_activation := ActivationRule_default;
                                   memory_retrieval := "gate" |}]} |}.

Lemma visit_map_serialize_witness :
  visit_map
    (λ v, match v with Tag_Text x => Ok x | _ => Err "type" end)
    (λ v, match v with Tag_Alias x => Ok x | _ => Err "type" end)
    (λ v, match v with Tag_Hint x => Ok x | _ => Err "type" end)
    (λ v, match v with Tag_Profile x => Ok x | _ => Err "type" end)
    (λ v, match v with Tag_Memories x => Ok x | _ => Err "type" end)
    id id id
    (reverse (serialize_seed_role Tag_Text Tag_Alias Tag_Hint Tag_Profile Tag_Memories demo_role))
  = Ok demo_role.
Proof.
  apply (visit_map_serialize _ _ _ _ _ Tag_Text Tag_Alias Tag_Hint Tag_Profile Tag_Memories);
    [reflexivity..|apply reverse_Permutation].
Defined.
