(* ===== verification/StoryStore.v ===== *)
(** * StoryStore: the in-memory story store

    [persistence/story_store_mem.rs] with its error and configuration types.
    The store is a map threaded through the operations of the [StoryStore]
    trait (each holds the store's lock for its whole body); the clock read by
    [Utc::now] is an argument. *)
From S2P Require Import Prelude.
From S2P Require Import Text.
From S2P Require Import Values.
From S2P Require Import Domain.
From S2P Require Import Roles.

Inductive PersistenceError :=
| NotFound
| CreateStoryInstanceFailed (sid : StoryId) (message : string)
| ConstraintViolation (constraint : string)
| PackCapacityExceeded (actual maximum : N)
| StoryHolderAlreadyExists (sid : StoryId)
| InvalidPackReference (pref : PackRef)
| AtomicityFailure (operation : string)
| Unavailable (message : string)
| InvalidData (source : CoreError)
| InvalidStory (source : StoryError)
| CreateCompensationFailed (sid : StoryId) (create_source cleanup_source : PersistenceError).

Inductive StoreType := Memory | Sqlite.
Record StoryStoreConfig := { ss_store_type : StoreType; max_recent_turns : N }.
Record PackStoreConfig := { ps_store_type : StoreType; max_packs : N }.

Definition StoryStoreConfig_default : StoryStoreConfig :=
  {| ss_store_type := Memory; max_recent_turns := 4096 |}.
Definition PackStoreConfig_default : PackStoreConfig :=
  {| ps_store_type := Memory; max_packs := 128 |}.

Record StoredStory := {
  context : StoryContext;
  info : StoryInstanceInfo;
  committed : gmap IdempotencyKey StoryCommit;
}.

Abbreviation Stories := (gmap StoryId StoredStory) (only parsing).

(** ** Updates of a context *)

Definition set_knowledge (c : StoryContext) (rs : gmap RoleId RoleEntry) (fs : gmap FactId FactEntry)
    (us : gmap RumorId RumorEntry) : StoryContext :=
  {| story_id := story_id c; pack_ref := pack_ref c; opening := opening c; roles := rs; facts := fs;
     rumors := us; player := player c; ctx_turn_number := ctx_turn_number c; summary := summary c;
     recent_turns := recent_turns c; life_cycle := life_cycle c; narrative := narrative c |}.
Definition set_turn_number (c : StoryContext) (n : TurnNumber) : StoryContext :=
  {| story_id := story_id c; pack_ref := pack_ref c; opening := opening c; roles := roles c;
     facts := facts c; rumors := rumors c; player := player c; ctx_turn_number := n;
     summary := summary c; recent_turns := recent_turns c; life_cycle := life_cycle c;
     narrative := narrative c |}.
Definition set_recent (c : StoryContext) (ts : list Turn) : StoryContext :=
  {| story_id := story_id c; pack_ref := pack_ref c; opening := opening c; roles := roles c;
     facts := facts c; rumors := rumors c; player := player c; ctx_turn_number := ctx_turn_number c;
     summary := summary c; recent_turns := ts; life_cycle := life_cycle c; narrative := narrative c |}.

(** [if let Change::Replaced(v) = change { x = v }]. *)
Definition apply_change {T} (x : T) (c : Change T) : T :=
  match c with Unchanged => x | Replaced v => v end.
Definition apply_change_opt {T} (x : option T) (c : Change T) : option T :=
  match c with Unchanged => x | Replaced v => Some v end.

Definition apply_summary (c : StoryContext) (s : Change StorySummary) : StoryContext :=
  {| story_id := story_id c; pack_ref := pack_ref c; opening := opening c; roles := roles c;
     facts := facts c; rumors := rumors c; player := player c; ctx_turn_number := ctx_turn_number c;
     summary := apply_change_opt (summary c) s; recent_turns := recent_turns c;
     life_cycle := life_cycle c; narrative := narrative c |}.
Definition apply_narrative (c : StoryContext) (n : Change NarrativeState) : StoryContext :=
  {| story_id := story_id c; pack_ref := pack_ref c; opening := opening c; roles := roles c;
     facts := facts c; rumors := rumors c; player := player c; ctx_turn_number := ctx_turn_number c;
     summary := summary c; recent_turns := recent_turns c; life_cycle := life_cycle c;
     narrative := apply_change (narrative c) n |}.
Definition apply_life_cycle (c : StoryContext) (l : Change StoryLifeCycle) : StoryContext :=
  {| story_id := story_id c; pack_ref := pack_ref c; opening := opening c; roles := roles c;
     facts := facts c; rumors := rumors c; player := player c; ctx_turn_number := ctx_turn_number c;
     summary := summary c; recent_turns := recent_turns c;
     life_cycle := apply_change (life_cycle c) l; narrative := narrative c |}.

(** ** [adjust_rencent_turns] *)

Fixpoint truncate_front (max : N) (ts : list Turn) : list Turn :=
  match ts with
  | [] => []
  | _ :: ts' => if (max <? nlen ts)%N then truncate_front max ts' else ts
  end.

Fixpoint drop_covered (covered : N) (ts : list Turn) : list Turn :=
  match ts with
  | [] => []
  | t :: ts' => if (turn_number t <=? covered)%N then drop_covered covered ts' else ts
  end.

Definition adjust_rencent_turns (c : StoryContext) (max : N) : StoryContext :=
  let c := set_recent c (truncate_front max (recent_turns c)) in
  match summary c with
  | None => c
  | Some s => set_recent c (drop_covered (covered_through s) (recent_turns c))
  end.

(** ** Knowledge changes *)

Definition constraint_violation (constraint : string) : PersistenceError := ConstraintViolation constraint.

Definition validate_fact_op (c : StoryContext) (seen : gset FactId) (op : FactChangeOp) :
    result PersistenceError (gset FactId) :=
  match op with
  | FactAdd id _ =>
      fail_if bool_decide (id ∈ seen)
        with constraint_violation ("duplicate fact_id in knowledge_change: " +:+ id) in
      fail_if bool_decide (is_Some (facts c !! id))
        with constraint_violation ("cannot add existing fact_id: " +:+ id) in
      Ok ({[id]} ∪ seen)
  | FactUpdate id _ =>
      fail_if bool_decide (id ∈ seen)
        with constraint_violation ("duplicate fact_id in knowledge_change: " +:+ id) in
      fail_if negb (bool_decide (is_Some (facts c !! id)))
        with constraint_violation ("cannot update missing fact_id: " +:+ id) in
      Ok ({[id]} ∪ seen)
  end.

Definition validate_rumor_op (c : StoryContext) (seen : gset RumorId) (op : RumorChangeOp) :
    result PersistenceError (gset RumorId) :=
  match op with
  | RumorAdd id _ =>
      fail_if bool_decide (id ∈ seen)
        with constraint_violation ("duplicate rumor_id in knowledge_change: " +:+ id) in
      fail_if bool_decide (is_Some (rumors c !! id))
        with constraint_violation ("cannot add existing rumor_id: " +:+ id) in
      Ok ({[id]} ∪ seen)
  | RumorUpdate id _ =>
      fail_if bool_decide (id ∈ seen)
        with constraint_violation ("duplicate rumor_id in knowledge_change: " +:+ id) in
      fail_if negb (bool_decide (is_Some (rumors c !! id)))
        with constraint_violation ("cannot update missing rumor_id: " +:+ id) in
      Ok ({[id]} ∪ seen)
  | RumorRemove id =>
      fail_if bool_decide (id ∈ seen)
        with constraint_violation ("duplicate rumor_id in knowledge_change: " +:+ id) in
      fail_if negb (bool_decide (is_Some (rumors c !! id)))
        with constraint_violation ("cannot remove missing rumor_id: " +:+ id) in
      Ok ({[id]} ∪ seen)
  end.

Definition validate_memory_op (c : StoryContext) (seen : gset (RoleId * MemoryId))
    (op : RoleMemoryChangeOp) : result PersistenceError (gset (RoleId * MemoryId)) :=
  match op with
  | MemoryAdd rid id _ =>
      fail_if bool_decide ((rid, id) ∈ seen)
        with constraint_violation
          ("duplicate memory_id " +:+ id +:+ " for role " +:+ rid +:+ " in knowledge_change") in
      let? role := ok_or (roles c !! rid)
        (constraint_violation ("unknown role_id in knowledge_change: " +:+ rid)) in
      fail_if bool_decide (is_Some (memories role !! id))
        with constraint_violation ("cannot add existing memory_id " +:+ id +:+ " for role " +:+ rid) in
      Ok ({[(rid, id)]} ∪ seen)
  | MemoryUpdate rid id _ =>
      fail_if bool_decide ((rid, id) ∈ seen)
        with constraint_violation
          ("duplicate memory_id " +:+ id +:+ " for role " +:+ rid +:+ " in knowledge_change") in
      let? role := ok_or (roles c !! rid)
        (constraint_violation ("unknown role_id in knowledge_change: " +:+ rid)) in
      fail_if negb (bool_decide (is_Some (memories role !! id)))
        with constraint_violation ("cannot update missing memory_id " +:+ id +:+ " for role " +:+ rid) in
      Ok ({[(rid, id)]} ∪ seen)
  end.

Definition validate_knowledge_change (c : StoryContext) (change : KnowledgeChange) :
    result PersistenceError unit :=
  let? _ := try_fold (validate_fact_op c) ∅ (kc_facts change) in
  let? _ := try_fold (validate_rumor_op c) ∅ (kc_rumors change) in
  let? _ := try_fold (validate_memory_op c) ∅ (kc_memories change) in
  Ok tt.

Definition apply_fact_op (turn : TurnNumber) (fs : gmap FactId FactEntry) (op : FactChangeOp) :
    gmap FactId FactEntry :=
  match op with
  | FactAdd id body =>
      <[id := {| fact_id := id; fact_origin := Origin_Turn turn; fact_body := body |}]> fs
  | FactUpdate id body =>
      match fs !! id with Some e => <[id := with_fact_body e body]> fs | None => fs end
  end.

Definition apply_rumor_op (turn : TurnNumber) (us : gmap RumorId RumorEntry) (op : RumorChangeOp) :
    gmap RumorId RumorEntry :=
  match op with
  | RumorAdd id body =>
      <[id := {| rumor_id := id; rumor_origin := Origin_Turn turn; rumor_body := body |}]> us
  | RumorUpdate id body =>
      match us !! id with Some e => <[id := with_rumor_body e body]> us | None => us end
  | RumorRemove id => delete id us
  end.

Definition apply_memory_op (turn : TurnNumber) (rs : gmap RoleId RoleEntry) (op : RoleMemoryChangeOp) :
    gmap RoleId RoleEntry :=
  match op with
  | MemoryAdd rid id body =>
      match rs !! rid with
      | Some role =>
          <[rid := with_memories role
            (<[id := {| memory_id := id; memory_origin := Origin_Turn turn; memory_body := body |}]>
              (memories role))]> rs
      | None => rs
      end
  | MemoryUpdate rid id body =>
      match rs !! rid with
      | Some role =>
          match memories role !! id with
          | Some e => <[rid := with_memories role (<[id := with_memory_body e body]> (memories role))]> rs
          | None => rs
          end
      | None => rs
      end
  end.

Definition apply_knowledge_change (c : StoryContext) (turn : TurnNumber) (change : KnowledgeChange) :
    StoryContext :=
  set_knowledge c
    (foldl (apply_memory_op turn) (roles c) (kc_memories change))
    (foldl (apply_fact_op turn) (facts c) (kc_facts change))
    (foldl (apply_rumor_op turn) (rumors c) (kc_rumors change)).

(** ** The operations of the [StoryStore] trait *)

Section store.
Context `{RoleJson} (config : StoryStoreConfig).

Definition initial_context (spec : StoryInstanceSpec) : StoryContext :=
  {| story_id := spec_story_id spec; pack_ref := spec_pack_ref spec; opening := spec_opening spec;
     roles := spec_roles spec; facts := spec_facts spec; rumors := spec_rumors spec;
     player := spec_player_role spec; ctx_turn_number := 0; summary := None; recent_turns := [];
     life_cycle := Life_Active; narrative := spec_narrative spec |}.

Definition initial_info (spec : StoryInstanceSpec) (now : DateTime) : StoryInstanceInfo :=
  {| info_story_id := spec_story_id spec; info_player_id := spec_player_id spec; description := "";
     created_at := now; updated_at := now; info_life_cycle := Life_Active |}.

Definition create (st : Stories) (now : DateTime) (spec : StoryInstanceSpec) :
    result PersistenceError StoryInstanceInfo * Stories :=
  match map_err InvalidStory (validate_runtime_roles (spec_roles spec)) with
  | Err e => (Err e, st)
  | Ok _ =>
      let stored := {| context := initial_context spec; info := initial_info spec now; committed := ∅ |} in
      if bool_decide (is_Some (st !! spec_story_id spec))
      then (Err (ConstraintViolation "story_id already exists"), st)
      else (Ok (info stored), <[spec_story_id spec := stored]> st)
  end.

Definition remove (st : Stories) (sid : StoryId) : result PersistenceError unit * Stories :=
  match st !! sid with
  | None => (Err NotFound, st)
  | Some _ => (Ok tt, delete sid st)
  end.

Definition get_info (st : Stories) (sid : StoryId) : result PersistenceError StoryInstanceInfo :=
  ok_or (info <$> st !! sid) NotFound.

Definition load (st : Stories) (sid : StoryId) : result PersistenceError StoryContext :=
  ok_or (context <$> st !! sid) NotFound.

Definition find_committed (st : Stories) (sid : StoryId) (k : IdempotencyKey) :
    result PersistenceError (option StoryCommit) :=
  let? story := ok_or (st !! sid) NotFound in
  Ok (committed story !! k).

(** The guards on [commit.summary]. *)
Definition check_summary (previous : option StorySummary) (turn : TurnNumber) (c : Change StorySummary) :
    result PersistenceError unit :=
  match c with
  | Unchanged => Ok tt
  | Replaced s =>
      fail_if (turn <? covered_through s)%N with ConstraintViolation "summary covers a future turn" in
      fail_if from_option (λ p, covered_through s <? covered_through p)%N false previous
        with ConstraintViolation "summary coverage cannot move backwards" in
      Ok tt
  end.

(** The body of [commit] on the story it finds: the commit to return and the
    story after it. *)
Definition commit_story (story : StoredStory) (now : DateTime) (c : StoryCommit) :
    result PersistenceError (StoryCommit * StoredStory) :=
  let k := idempotency_key (commit_turn c) in
  match committed story !! k with
  | Some existing => Ok (existing, story)
  | None =>
      let ctx := context story in
      let t := commit_turn c in
      fail_if negb (bool_decide (life_cycle ctx = Life_Active))
        with ConstraintViolation "story is not active" in
      fail_if negb (turn_number t =? increment (ctx_turn_number ctx))%N
        with ConstraintViolation "turn number does not follow the current story context" in
      let? _ := check_summary (summary ctx) (turn_number t) (commit_summary c) in
      let? _ := validate_knowledge_change ctx (knowledge_change t) in
      let next := set_turn_number ctx (turn_number t) in
      let next := apply_knowledge_change next (turn_number t) (knowledge_change t) in
      let next := set_recent next (recent_turns next ++ [t]) in
      let next := apply_summary next (commit_summary c) in
      let next := apply_narrative next (commit_narrative c) in
      let? _ := map_err InvalidStory (validate_runtime_roles (roles next)) in
      let next := apply_life_cycle next (commit_life_cycle c) in
      let i := info story in
      Ok (c,
        {| context := adjust_rencent_turns next (max_recent_turns config);
           info := {| info_story_id := info_story_id i; info_player_id := info_player_id i;
                      description := description i; created_at := created_at i; updated_at := now;
                      info_life_cycle := apply_change (info_life_cycle i) (commit_life_cycle c) |};
           committed := <[k := c]> (committed story) |})
  end.

Definition commit (st : Stories) (now : DateTime) (c : StoryCommit) :
    result PersistenceError StoryCommit * Stories :=
  match st !! commit_story_id c with
  | None => (Err NotFound, st)
  | Some story =>
      match commit_story story now c with
      | Err e => (Err e, st)
      | Ok (r, story') => (Ok r, <[commit_story_id c := story']> st)
      end
  end.

End store.
