(* ===== verification/StoryLog.v ===== *)
(** * StoryLog: the story store and its log

    The lemmas on the operations of StoryStore.v: what a knowledge change must be to be
    accepted and what it does.  Then what the store promises, as an append-only log of
    commits per story of which every answer is a view. *)

From S2P Require Import Prelude Text Values Domain Roles StoryStore.

(** ** Accepted knowledge changes *)

(** A loop that keeps the keys it has seen. *)
Lemma seen_loop {E A K} `{Countable K} (key : A → K) (good : A → Prop)
    (f : gset K → A → result E (gset K)) l :
  (∀ s x s', f s x = Ok s' ↔ key x ∉ s ∧ good x ∧ s' = {[key x]} ∪ s) →
  (∃ s', try_fold f ∅ l = Ok s') ↔ NoDup (key <$> l) ∧ ∀ x, x ∈ l → good x.
Proof.
  intros Hf. assert (∀ s, (∃ s', try_fold f s l = Ok s') ↔
    NoDup (key <$> l) ∧ ∀ x, x ∈ l → key x ∉ s ∧ good x) as Hgen.
  { induction l as [|x l IH]; intros s; simpl.
    - split; [|eauto]. intros _. split; [constructor|]. by intros x ?%not_elem_of_nil.
    - destruct (f s x) as [s1|e] eqn:Hx.
      + apply Hf in Hx as (Hni & Hg & ->). rewrite IH, NoDup_cons. split.
        * intros [Hnd Hall]. split; [split; [|done]|].
          { intros (y & Heq & Hy)%list_elem_of_fmap. apply Hall in Hy as [Hy _]. set_solver. }
          intros y [->|Hy]%elem_of_cons; [done|]. apply Hall in Hy as [? ?]. set_solver.
        * intros [[Hkx Hnd] Hall]. split; [done|]. intros y Hy.
          destruct (Hall y) as [? ?]; [by right|]. split; [|done].
          rewrite not_elem_of_union, not_elem_of_singleton. split; [|done].
          intros Heq. apply Hkx. rewrite <-Heq. by apply list_elem_of_fmap_2.
      + split; [by intros [? ?]|]. intros [_ Hall]. destruct (Hall x) as [Hni Hg]; [by left|].
        assert (f s x = Ok ({[key x]} ∪ s)) as Hok by (by apply Hf). by rewrite Hx in Hok. }
  rewrite Hgen. apply and_iff_compat_l. set_solver.
Qed.

Definition fact_op_good (c : StoryContext) (op : FactChangeOp) : Prop :=
  match op with FactAdd id _ => facts c !! id = None | FactUpdate id _ => is_Some (facts c !! id) end.
Definition rumor_op_good (c : StoryContext) (op : RumorChangeOp) : Prop :=
  match op with
  | RumorAdd id _ => rumors c !! id = None
  | RumorUpdate id _ | RumorRemove id => is_Some (rumors c !! id)
  end.
Definition memory_op_good (c : StoryContext) (op : RoleMemoryChangeOp) : Prop :=
  match op with
  | MemoryAdd rid id _ => ∃ r, roles c !! rid = Some r ∧ memories r !! id = None
  | MemoryUpdate rid id _ => ∃ r, roles c !! rid = Some r ∧ is_Some (memories r !! id)
  end.

Definition change_good (c : StoryContext) (k : KnowledgeChange) : Prop :=
  (NoDup (fact_op_id <$> kc_facts k) ∧ ∀ op, op ∈ kc_facts k → fact_op_good c op) ∧
  (NoDup (rumor_op_id <$> kc_rumors k) ∧ ∀ op, op ∈ kc_rumors k → rumor_op_good c op) ∧
  (NoDup (memory_op_key <$> kc_memories k) ∧ ∀ op, op ∈ kc_memories k → memory_op_good c op).

Ltac guards :=
  repeat (case_bool_decide; simpl; try (split; [discriminate|]; rewrite ?eq_None_not_Some; naive_solver)).

Lemma validate_fact_op_ok c s op s' :
  validate_fact_op c s op = Ok s' ↔ fact_op_id op ∉ s ∧ fact_op_good c op ∧ s' = {[fact_op_id op]} ∪ s.
Proof.
  destruct op as [id b|id b]; simpl; guards; rewrite ?eq_None_not_Some; naive_solver.
Qed.

Lemma validate_rumor_op_ok c s op s' :
  validate_rumor_op c s op = Ok s' ↔
  rumor_op_id op ∉ s ∧ rumor_op_good c op ∧ s' = {[rumor_op_id op]} ∪ s.
Proof.
  destruct op as [id b|id b|id]; simpl; guards; rewrite ?eq_None_not_Some; naive_solver.
Qed.

Lemma validate_memory_op_ok c s op s' :
  validate_memory_op c s op = Ok s' ↔
  memory_op_key op ∉ s ∧ memory_op_good c op ∧ s' = {[memory_op_key op]} ∪ s.
Proof.
  destruct op as [rid id b|rid id b]; simpl; (case_bool_decide; [naive_solver|]);
    (destruct (roles c !! rid) as [r|]; simpl; [|naive_solver]); case_bool_decide; simpl;
    try setoid_rewrite eq_None_not_Some; naive_solver.
Qed.

Lemma validate_knowledge_change_iff c k :
  validate_knowledge_change c k = Ok tt ↔ change_good c k.
Proof.
  unfold change_good.
  rewrite <-(seen_loop fact_op_id _ _ _ (validate_fact_op_ok c)).
  rewrite <-(seen_loop rumor_op_id _ _ _ (validate_rumor_op_ok c)).
  rewrite <-(seen_loop memory_op_key _ _ _ (validate_memory_op_ok c)).
  unfold validate_knowledge_change.
  destruct (try_fold (validate_fact_op c) ∅ _); [|naive_solver].
  destruct (try_fold (validate_rumor_op c) ∅ _); [|naive_solver].
  destruct (try_fold (validate_memory_op c) ∅ _); naive_solver.
Qed.

(** a knowledge change is accepted exactly when each identifier occurs in
    one operation, additions are new, updates and removals name what the story
    has, and memories name a role of the story. *)
Theorem validate_knowledge_change_spec c k :
  validate_knowledge_change c k = Ok tt ↔
  (NoDup (fact_op_id <$> kc_facts k) ∧ ∀ op, op ∈ kc_facts k → fact_op_good c op) ∧
  (NoDup (rumor_op_id <$> kc_rumors k) ∧ ∀ op, op ∈ kc_rumors k → rumor_op_good c op) ∧
  (NoDup (memory_op_key <$> kc_memories k) ∧ ∀ op, op ∈ kc_memories k → memory_op_good c op).
Proof. apply validate_knowledge_change_iff. Qed.

(** ** The effect of a knowledge change *)

(** A loop of updates that each touch the key they name. *)
Lemma foldl_keyed {M A K V} (get : M → K → option V) (key : A → K) (f : M → A → M) :
  (∀ m x k, k ≠ key x → get (f m x) k = get m k) →
  (∀ m m' x, get m (key x) = get m' (key x) → get (f m x) (key x) = get (f m' x) (key x)) →
  ∀ l m, NoDup (key <$> l) →
    (∀ k, k ∉ key <$> l → get (foldl f m l) k = get m k) ∧
    (∀ x, x ∈ l → get (foldl f m l) (key x) = get (f m x) (key x)).
Proof.
  intros Hother Hsame. induction l as [|y l IH]; intros m Hnd; simpl.
  - split; [done|]. by intros x ?%not_elem_of_nil.
  - apply NoDup_cons in Hnd as [Hy Hnd]. destruct (IH (f m y) Hnd) as [IH1 IH2]. split.
    + intros k [Hk Hl]%not_elem_of_cons. rewrite IH1 by done. by apply Hother.
    + intros x [->|Hx]%elem_of_cons; [by apply IH1|]. rewrite IH2 by done.
      apply Hsame, Hother. intros Heq. apply Hy. rewrite <-Heq. by apply list_elem_of_fmap_2.
Qed.

(** The place of a memory: absent without its role. *)
Definition slot (rs : gmap RoleId RoleEntry) (k : RoleId * MemoryId) : option (option MemoryEntry) :=
  (λ r, memories r !! k.2) <$> rs !! k.1.
Definition get_memory (rs : gmap RoleId RoleEntry) (k : RoleId * MemoryId) : option MemoryEntry :=
  mjoin (slot rs k).

(** A role without its memories. *)
Definition role_shell (r : RoleEntry) : RoleEntry := with_memories r ∅.

Lemma apply_memory_op_shell turn rs op rid :
  role_shell <$> (apply_memory_op turn rs op !! rid) = role_shell <$> (rs !! rid).
Proof.
  destruct op as [r id b|r id b]; simpl; destruct (rs !! r) as [role|] eqn:Hr; try done;
    [|destruct (memories role !! id); [|done]];
    (destruct (decide (r = rid)) as [->|Hne];
      [by rewrite lookup_insert_eq, Hr|by rewrite lookup_insert_ne]).
Qed.

Lemma apply_memory_ops_shell turn rs ops rid :
  role_shell <$> (foldl (apply_memory_op turn) rs ops !! rid) = role_shell <$> (rs !! rid).
Proof.
  revert rs. induction ops as [|op ops IH]; intros rs; simpl; [done|].
  by rewrite IH, apply_memory_op_shell.
Qed.

Lemma slot_insert rs rid role ms k :
  rs !! rid = Some role →
  slot (<[rid := with_memories role ms]> rs) k = if decide (k.1 = rid) then Some (ms !! k.2) else slot rs k.
Proof.
  intros Hr. unfold slot. destruct (decide (k.1 = rid)) as [->|Hne].
  - by rewrite lookup_insert_eq.
  - by rewrite lookup_insert_ne.
Qed.

Lemma slot_role rs rid role id : rs !! rid = Some role → slot rs (rid, id) = Some (memories role !! id).
Proof. intros Hr. unfold slot. simpl. by rewrite Hr. Qed.

Lemma apply_memory_op_other turn rs op k :
  k ≠ memory_op_key op → slot (apply_memory_op turn rs op) k = slot rs k.
Proof.
  intros Hk. destruct k as [r0 id0].
  destruct op as [rid id b|rid id b]; simpl in *; destruct (rs !! rid) as [role|] eqn:Hr; try done;
    [|destruct (memories role !! id) eqn:Hid; [|done]];
    rewrite (slot_insert _ _ _ _ _ Hr); simpl; (case_decide; [|done]); subst;
    rewrite (slot_role _ _ _ _ Hr); f_equal; apply lookup_insert_ne; congruence.
Qed.

(** What an operation leaves at its key, given what was there. *)
Definition memory_after (turn : TurnNumber) (op : RoleMemoryChangeOp) (old : option MemoryEntry) :
    option MemoryEntry :=
  match op with
  | MemoryAdd _ id b => Some {| memory_id := id; memory_origin := Origin_Turn turn; memory_body := b |}
  | MemoryUpdate _ _ b => (λ e, with_memory_body e b) <$> old
  end.

Lemma apply_memory_op_same turn rs op :
  slot (apply_memory_op turn rs op) (memory_op_key op) =
  memory_after turn op <$> slot rs (memory_op_key op).
Proof.
  destruct op as [rid id b|rid id b]; simpl; destruct (rs !! rid) as [role|] eqn:Hr;
    try (unfold slot; simpl; by rewrite Hr); rewrite (slot_role _ _ _ _ Hr); simpl.
  - rewrite (slot_insert _ _ _ _ _ Hr), decide_True by done. f_equal. apply lookup_insert_eq.
  - destruct (memories role !! id) as [e|] eqn:He; simpl.
    + rewrite (slot_insert _ _ _ _ _ Hr), decide_True by done. f_equal. apply lookup_insert_eq.
    + rewrite (slot_role _ _ _ _ Hr). by rewrite He.
Qed.

(** applying an accepted knowledge change does to each fact, rumour and
    memory exactly what the change says: an addition stores the body under its
    identifier with the turn as origin; an update replaces the body and keeps
    identifier and origin; a removal deletes; everything the change does not
    name is left alone, as are the roles themselves. *)
Theorem apply_knowledge_change_spec c turn k :
  change_good c k →
  let c' := apply_knowledge_change c turn k in
  (∀ op, op ∈ kc_facts k → facts c' !! fact_op_id op =
    match op with
    | FactAdd id b => Some {| fact_id := id; fact_origin := Origin_Turn turn; fact_body := b |}
    | FactUpdate id b => (λ e, with_fact_body e b) <$> facts c !! id
    end) ∧
  (∀ id, id ∉ fact_op_id <$> kc_facts k → facts c' !! id = facts c !! id) ∧
  (∀ op, op ∈ kc_rumors k → rumors c' !! rumor_op_id op =
    match op with
    | RumorAdd id b => Some {| rumor_id := id; rumor_origin := Origin_Turn turn; rumor_body := b |}
    | RumorUpdate id b => (λ e, with_rumor_body e b) <$> rumors c !! id
    | RumorRemove _ => None
    end) ∧
  (∀ id, id ∉ rumor_op_id <$> kc_rumors k → rumors c' !! id = rumors c !! id) ∧
  (∀ op, op ∈ kc_memories k → get_memory (roles c') (memory_op_key op) =
    memory_after turn op (get_memory (roles c) (memory_op_key op))) ∧
  (∀ key, key ∉ memory_op_key <$> kc_memories k → get_memory (roles c') key = get_memory (roles c) key) ∧
  (∀ rid, role_shell <$> roles c' !! rid = role_shell <$> roles c !! rid).
Proof.
  intros [[Hf _] [[Hr _] [Hm Hmg]]]. simpl.
  destruct (foldl_keyed (λ m k, m !! k) fact_op_id (apply_fact_op turn)) with (l := kc_facts k) (m := facts c)
    as [Hf1 Hf2]; [| |done|].
  { intros m [id b|id b] j Hj; simpl in *; [by apply lookup_insert_ne|].
    destruct (m !! id); [by apply lookup_insert_ne|done]. }
  { intros m m' [id b|id b] Heq; simpl in *; [by rewrite !lookup_insert_eq|].
    rewrite Heq. destruct (m' !! id) eqn:E; [by rewrite !lookup_insert_eq|congruence]. }
  destruct (foldl_keyed (λ m k, m !! k) rumor_op_id (apply_rumor_op turn)) with (l := kc_rumors k) (m := rumors c)
    as [Hr1 Hr2]; [| |done|].
  { intros m [id b|id b|id] j Hj; simpl in *; [by apply lookup_insert_ne| |by apply lookup_delete_ne].
    destruct (m !! id); [by apply lookup_insert_ne|done]. }
  { intros m m' [id b|id b|id] Heq; simpl in *; [by rewrite !lookup_insert_eq| |by rewrite !lookup_delete_eq].
    rewrite Heq. destruct (m' !! id) eqn:E; [by rewrite !lookup_insert_eq|congruence]. }
  destruct (foldl_keyed slot memory_op_key (apply_memory_op turn)) with (l := kc_memories k) (m := roles c)
    as [Hm1 Hm2]; [intros; by apply apply_memory_op_other| |done|].
  { intros m m' op Heq. by rewrite !apply_memory_op_same, Heq. }
  split_and!.
  - intros op Hop. rewrite Hf2 by done. destruct op as [id b|id b]; simpl; [apply lookup_insert_eq|].
    destruct (facts c !! id) eqn:E; [apply lookup_insert_eq|by rewrite E].
  - done.
  - intros op Hop. rewrite Hr2 by done.
    destruct op as [id b|id b|id]; simpl; [apply lookup_insert_eq| |apply lookup_delete_eq].
    destruct (rumors c !! id) eqn:E; [apply lookup_insert_eq|by rewrite E].
  - done.
  - intros op Hop. unfold get_memory. rewrite Hm2, apply_memory_op_same by done.
    assert (is_Some (slot (roles c) (memory_op_key op))) as [x ->]; [|done].
    apply Hmg in Hop. unfold slot. destruct op; simpl in *; destruct Hop as (r & -> & _); by eexists.
  - intros key Hkey. unfold get_memory. by rewrite Hm1.
  - intros rid. apply apply_memory_ops_shell.
Qed.

(** ** The log and its views *)

Record StoryLog := {
  log_spec : StoryInstanceSpec;
  log_created : DateTime;
  log_updated : DateTime;
  log_commits : list StoryCommit;
}.

(** The last value a list of changes leaves. *)
Definition last_change {T} (f : StoryCommit → Change T) (x : T) (cs : list StoryCommit) : T :=
  foldl (λ x c, apply_change x (f c)) x cs.

Definition view_summary (cs : list StoryCommit) : option StorySummary :=
  foldl (λ x c, apply_change_opt x (commit_summary c)) None cs.

Definition covered (cs : list StoryCommit) : N :=
  from_option covered_through 0%N (view_summary cs).

Definition view_life_cycle (cs : list StoryCommit) : StoryLifeCycle :=
  last_change commit_life_cycle Life_Active cs.

Definition view_narrative (l : StoryLog) : NarrativeState :=
  last_change commit_narrative (spec_narrative (log_spec l)) (log_commits l).

(** The recent turns: the last [max] turns, without the summarised ones. *)
Definition view_recent (max : N) (cs : list StoryCommit) : list Turn :=
  drop (N.to_nat (N.max (nlen cs - max) (covered cs))) (commit_turn <$> cs).

Definition replay_knowledge (c : StoryContext) (cs : list StoryCommit) : StoryContext :=
  foldl (λ c k, apply_knowledge_change c (turn_number (commit_turn k)) (knowledge_change (commit_turn k))) c cs.

Definition view_context (max : N) (l : StoryLog) : StoryContext :=
  let k := replay_knowledge (initial_context (log_spec l)) (log_commits l) in
  {| story_id := spec_story_id (log_spec l); pack_ref := spec_pack_ref (log_spec l);
     opening := spec_opening (log_spec l); roles := roles k; facts := facts k; rumors := rumors k;
     player := spec_player_role (log_spec l); ctx_turn_number := nlen (log_commits l);
     summary := view_summary (log_commits l); recent_turns := view_recent max (log_commits l);
     life_cycle := view_life_cycle (log_commits l); narrative := view_narrative l |}.

Definition view_info (l : StoryLog) : StoryInstanceInfo :=
  {| info_story_id := spec_story_id (log_spec l); info_player_id := spec_player_id (log_spec l);
     description := ""; created_at := log_created l; updated_at := log_updated l;
     info_life_cycle := view_life_cycle (log_commits l) |}.

(** The commit a log holds under a key. *)
Definition commit_key (c : StoryCommit) : IdempotencyKey := idempotency_key (commit_turn c).

Definition log_find (k : IdempotencyKey) (cs : list StoryCommit) : option StoryCommit :=
  head (filter (λ c, commit_key c = k) cs).

Definition log_append (l : StoryLog) (now : DateTime) (c : StoryCommit) : StoryLog :=
  {| log_spec := log_spec l; log_created := log_created l; log_updated := now;
     log_commits := log_commits l ++ [c] |}.

Section spec.
Context `{RoleJson} (config : StoryStoreConfig).

Abbreviation max := (max_recent_turns config) (only parsing).

(** Why a log refuses a commit, if it does. *)
Definition log_check (l : StoryLog) (now : DateTime) (c : StoryCommit) : result PersistenceError unit :=
  let cs := log_commits l in
  let t := commit_turn c in
  fail_if negb (bool_decide (view_life_cycle cs = Life_Active))
    with ConstraintViolation "story is not active" in
  fail_if negb (turn_number t =? nlen cs + 1)%N
    with ConstraintViolation "turn number does not follow the current story context" in
  let? _ := check_summary (view_summary cs) (turn_number t) (commit_summary c) in
  let? _ := validate_knowledge_change (view_context max l) (knowledge_change t) in
  map_err InvalidStory (validate_runtime_roles (roles (view_context max (log_append l now c)))).

(** The abstract [commit]: the first commit under a key wins, every later one
    with that key returns it. *)
Definition log_commit (l : StoryLog) (now : DateTime) (c : StoryCommit) :
    result PersistenceError (StoryCommit * StoryLog) :=
  match log_find (commit_key c) (log_commits l) with
  | Some existing => Ok (existing, l)
  | None => let? _ := log_check l now c in Ok (c, log_append l now c)
  end.

(** ** The refinement relation *)

Record log_wf (l : StoryLog) : Prop := {
  wf_keys : NoDup (commit_key <$> log_commits l);
  wf_numbers i c : log_commits l !! i = Some c → turn_number (commit_turn c) = N.of_nat (S i);
  wf_covered : (covered (log_commits l) <= nlen (log_commits l))%N;
}.

Record refines (s : StoredStory) (l : StoryLog) : Prop := {
  ref_wf : log_wf l;
  ref_context : context s = view_context max l;
  ref_info : info s = view_info l;
  ref_committed k : committed s !! k = log_find k (log_commits l);
}.

Lemma log_find_app k cs c :
  log_find k (cs ++ [c]) =
  match log_find k cs with
  | Some c0 => Some c0
  | None => if decide (commit_key c = k) then Some c else None
  end.
Proof.
  unfold log_find. rewrite filter_app. destruct (filter _ cs); simpl; [|done].
  unfold filter. simpl. by case_decide.
Qed.

Lemma log_find_Some k cs c : log_find k cs = Some c → c ∈ cs ∧ commit_key c = k.
Proof.
  unfold log_find. intros Hc. apply head_Some_elem_of, list_elem_of_filter in Hc. naive_solver.
Qed.

Lemma log_find_None k cs : log_find k cs = None → k ∉ commit_key <$> cs.
Proof.
  unfold log_find. intros Hn (c & -> & Hc)%list_elem_of_fmap.
  assert (c ∈ filter (λ c0, commit_key c0 = commit_key c) cs) as Hin by (by apply list_elem_of_filter).
  destruct (filter _ cs); [by apply not_elem_of_nil in Hin|done].
Qed.

(** ** Recent turns *)
Lemma truncate_front_drop m ts :
  truncate_front m ts = drop (N.to_nat (nlen ts - m)) ts.
Proof.
  induction ts as [|t ts IH]; [by rewrite drop_nil|].
  cbn [truncate_front]. destruct (N.ltb_spec m (nlen (t :: ts))) as [Hm|Hm].
  - rewrite IH. unfold nlen in *. simpl in *.
    replace (N.to_nat (N.of_nat (S (length ts)) - m)) with (S (N.to_nat (N.of_nat (length ts) - m))) by lia.
    done.
  - by replace (N.to_nat (nlen (t :: ts) - m)) with 0 by lia.
Qed.

(** Turns numbered from [S n]. *)
Definition numbered (n : nat) (ts : list Turn) : Prop :=
  ∀ i t, ts !! i = Some t → turn_number t = N.of_nat (S (n + i)).

Lemma numbered_drop n k ts : numbered n ts → numbered (n + k) (drop k ts).
Proof. intros Hn i t. rewrite lookup_drop. intros Hi%Hn. rewrite Hi. lia. Qed.

Lemma drop_covered_numbered m n ts :
  numbered n ts → drop_covered m ts = drop (N.to_nat m - n) ts.
Proof.
  revert n. induction ts as [|t ts IH]; intros n Hn; [by rewrite drop_nil|].
  cbn [drop_covered]. assert (turn_number t = N.of_nat (S n)) as Ht.
  { rewrite (Hn 0 t); [|done]. lia. }
  destruct (N.leb_spec (turn_number t) m) as [Hm|Hm].
  - rewrite (IH (S n)).
    + replace (N.to_nat m - n) with (S (N.to_nat m - S n)) by lia. done.
    + intros i t' Hi. rewrite (Hn (S i) t'); [lia|done].
  - by replace (N.to_nat m - n) with 0 by lia.
Qed.

Lemma log_numbered l : log_wf l → numbered 0 (commit_turn <$> log_commits l).
Proof.
  intros Hl i t. rewrite list_lookup_fmap. intros (c & Hc & ->)%fmap_Some.
  by apply (wf_numbers _ Hl).
Qed.

Lemma view_recent_step m cs c :
  numbered 0 (commit_turn <$> cs ++ [c]) → (covered cs <= nlen cs)%N →
  (covered cs <= covered (cs ++ [c]))%N →
  drop_covered (covered (cs ++ [c])) (truncate_front m (view_recent m cs ++ [commit_turn c])) =
  view_recent m (cs ++ [c]).
Proof.
  intros Hnum Hcov Hmono. unfold view_recent at 1.
  set (k := N.to_nat (N.max (nlen cs - m) (covered cs))).
  assert (nlen (cs ++ [c]) = nlen cs + 1)%N as Hlen by (unfold nlen; rewrite length_app; simpl; lia).
  assert (k <= length cs) as Hk by (unfold k, nlen in *; lia).
  assert (drop k (commit_turn <$> cs) ++ [commit_turn c] = drop k (commit_turn <$> cs ++ [c])) as ->.
  { rewrite fmap_app, drop_app_le; [done|]. by rewrite length_fmap. }
  rewrite truncate_front_drop, drop_drop.
  assert (nlen (drop k (commit_turn <$> cs ++ [c])) = nlen cs + 1 - N.of_nat k)%N as ->.
  { unfold nlen. rewrite length_drop, length_fmap, length_app. simpl. lia. }
  rewrite (drop_covered_numbered _ (0 + (k + N.to_nat (nlen cs + 1 - N.of_nat k - m)))).
  2:{ by apply numbered_drop. }
  rewrite drop_drop. unfold view_recent. f_equal. rewrite Hlen. lia.
Qed.

Lemma adjust_numbered c m n :
  numbered n (truncate_front m (recent_turns c)) →
  adjust_rencent_turns c m = set_recent c
    (drop_covered (from_option covered_through 0%N (summary c)) (truncate_front m (recent_turns c))).
Proof.
  intros Hn. unfold adjust_rencent_turns. simpl. destruct (summary c) as [s|] eqn:Hs; [done|].
  simpl. rewrite (drop_covered_numbered _ n) by done. done.
Qed.

(** ** One commit *)
Lemma view_summary_snoc cs c :
  view_summary (cs ++ [c]) = apply_change_opt (view_summary cs) (commit_summary c).
Proof. unfold view_summary. by rewrite foldl_app. Qed.

Lemma last_change_snoc {T} (f : StoryCommit → Change T) x cs c :
  last_change f x (cs ++ [c]) = apply_change (last_change f x cs) (f c).
Proof. unfold last_change. by rewrite foldl_app. Qed.

Lemma replay_snoc ctx cs c :
  replay_knowledge ctx (cs ++ [c]) =
  apply_knowledge_change (replay_knowledge ctx cs) (turn_number (commit_turn c))
    (knowledge_change (commit_turn c)).
Proof. unfold replay_knowledge. by rewrite foldl_app. Qed.

Lemma check_summary_covered cs t c :
  check_summary (view_summary cs) t (commit_summary c) = Ok tt → (covered cs <= t)%N →
  (covered cs <= covered (cs ++ [c]))%N ∧ (covered (cs ++ [c]) <= t)%N.
Proof.
  unfold covered. rewrite view_summary_snoc. unfold check_summary.
  destruct (commit_summary c) as [|s]; simpl; [done|].
  destruct (N.ltb_spec t (covered_through s)); [done|].
  destruct (view_summary cs) as [p|]; simpl; [|intros; lia].
  destruct (N.ltb_spec (covered_through s) (covered_through p)); [done|]. lia.
Qed.

(** Appending an accepted commit keeps the log well formed. *)
Lemma log_append_wf l now c :
  log_wf l → log_find (commit_key c) (log_commits l) = None →
  turn_number (commit_turn c) = (nlen (log_commits l) + 1)%N →
  check_summary (view_summary (log_commits l)) (turn_number (commit_turn c)) (commit_summary c) = Ok tt →
  log_wf (log_append l now c) ∧
  (covered (log_commits l) <= covered (log_commits l ++ [c]))%N.
Proof.
  intros [Hk Hn Hc] Hfind Ht Hs.
  apply check_summary_covered in Hs as [Hmono Hcov]; [|rewrite Ht; lia].
  split; [|done]. split; simpl.
  - rewrite fmap_app. apply NoDup_app. split_and!; [done| |apply NoDup_singleton].
    intros k Hin ->%list_elem_of_singleton. by apply log_find_None in Hfind.
  - intros i d Hi. apply lookup_app_Some in Hi as [Hi|[Hi Hd]]; [by apply Hn|].
    destruct (i - length (log_commits l)) eqn:E; [|by destruct n].
    injection Hd as <-. rewrite Ht. unfold nlen. lia.
  - unfold nlen in *. rewrite length_app. simpl. lia.
Qed.

(** The context [commit] builds is the view of the longer log. *)
Lemma commit_context l now c :
  let next := apply_life_cycle
    (apply_narrative (apply_summary (set_recent
      (apply_knowledge_change (set_turn_number (view_context max l) (turn_number (commit_turn c)))
        (turn_number (commit_turn c)) (knowledge_change (commit_turn c)))
      (view_recent max (log_commits l) ++ [commit_turn c])) (commit_summary c)) (commit_narrative c))
    (commit_life_cycle c) in
  log_wf l → log_wf (log_append l now c) →
  turn_number (commit_turn c) = (nlen (log_commits l) + 1)%N →
  (covered (log_commits l) <= covered (log_commits l ++ [c]))%N →
  adjust_rencent_turns next max = view_context max (log_append l now c).
Proof.
  intros next Hwf Hwf' Ht Hmono.
  pose proof (log_numbered _ Hwf') as Hnum. simpl in Hnum.
  assert (numbered (N.to_nat (nlen (recent_turns next) - max) +
      N.to_nat (N.max (nlen (log_commits l) - max) (covered (log_commits l))))
    (truncate_front max (recent_turns next))) as Hnext.
  { rewrite truncate_front_drop. rewrite Nat.add_comm. apply numbered_drop. simpl.
    unfold view_recent. set (k := N.to_nat (N.max _ _)).
    assert (k <= length (log_commits l)) as Hk.
    { pose proof (wf_covered _ Hwf). unfold k, nlen in *. lia. }
    replace (drop k (commit_turn <$> log_commits l) ++ [commit_turn c])
      with (drop k (commit_turn <$> log_commits l ++ [c])).
    - by apply (numbered_drop 0).
    - rewrite fmap_app, drop_app_le; [done|]. by rewrite length_fmap. }
  rewrite (adjust_numbered _ _ _ Hnext). subst next. simpl.
  rewrite <-view_summary_snoc.
  change (from_option covered_through 0%N (view_summary (log_commits l ++ [c])))
    with (covered (log_commits l ++ [c])).
  rewrite view_recent_step; [|done|apply (wf_covered _ Hwf)|done].
  unfold view_context, log_append, view_narrative, view_life_cycle. simpl.
  rewrite replay_snoc, !last_change_snoc. simpl.
  assert (nlen (log_commits l ++ [c]) = turn_number (commit_turn c)) as ->; [|by rewrite view_summary_snoc].
  rewrite Ht. unfold nlen. rewrite length_app. simpl. lia.
Qed.

Lemma commit_story_refines s l now c :
  refines s l → (nlen (log_commits l) < U64_MAX)%N →
  match commit_story config s now c, log_commit l now c with
  | Ok (r, s'), Ok (r', l') => r = r' ∧ refines s' l'
  | Err e, Err e' => e = e'
  | _, _ => False
  end.
Proof.
  intros Href Hlt. pose proof Href as [Hwf Hctx Hinfo Hcom].
  unfold commit_story, log_commit. rewrite Hcom.
  change (idempotency_key (commit_turn c)) with (commit_key c).
  destruct (log_find (commit_key c) (log_commits l)) as [existing|] eqn:Hfind; [done|].
  rewrite Hctx. unfold log_check. simpl.
  destruct (negb (bool_decide (view_life_cycle _ = _))); [done|].
  assert (increment (nlen (log_commits l)) = nlen (log_commits l) + 1)%N as ->.
  { unfold increment. apply N.mod_small. lia. }
  destruct (N.eqb_spec (turn_number (commit_turn c)) (nlen (log_commits l) + 1)) as [Ht|]; [|done]. simpl.
  destruct (check_summary _ _ _) as [[]|] eqn:Hsum; [|done].
  destruct (validate_knowledge_change _ _); [|done].
  rewrite replay_snoc. simpl.
  destruct (map_err InvalidStory _); [|done]. split; [done|].
  destruct (log_append_wf l now c) as [Hwf' Hmono]; [done..|].
  split; simpl; [done| | |].
  - by apply commit_context.
  - rewrite Hinfo. unfold view_info. simpl. unfold view_life_cycle. by rewrite last_change_snoc.
  - intros k. rewrite log_find_app. destruct (decide (commit_key c = k)) as [<-|Hne].
    + by rewrite lookup_insert_eq, Hfind.
    + rewrite lookup_insert_ne by done. rewrite Hcom. by destruct (log_find k (log_commits l)).
Qed.
End spec.
