(* ===== verification/StoryStoreProps.v ===== *)
(** * StoryStoreProps: traces of store operations

    Sequences of operations on a store, the simulation of the store by the log
    of [StoryLog], and what it implies for clients: idempotent commits, the
    shape of a loaded context, and the well-formedness invariant of every
    reachable store. *)
From S2P Require Import Prelude.
From S2P Require Import Text.
From S2P Require Import Values.
From S2P Require Import Domain.
From S2P Require Import Roles.
From S2P Require Import StoryStore.
From S2P Require Import StoryLog.

Inductive StoreOp :=
| Op_create (spec : StoryInstanceSpec)
| Op_remove (sid : StoryId)
| Op_get_info (sid : StoryId)
| Op_load (sid : StoryId)
| Op_find (sid : StoryId) (k : IdempotencyKey)
| Op_commit (c : StoryCommit).

Inductive StoreReply :=
| Reply_info (r : result PersistenceError StoryInstanceInfo)
| Reply_unit (r : result PersistenceError unit)
| Reply_context (r : result PersistenceError StoryContext)
| Reply_found (r : result PersistenceError (option StoryCommit))
| Reply_commit (r : result PersistenceError StoryCommit).

Section traces.
Context `{RoleJson} (config : StoryStoreConfig).

Abbreviation max := (max_recent_turns config) (only parsing).
Abbreviation Logs := (gmap StoryId StoryLog) (only parsing).

(** An operation on the store, at a time. *)
Definition store_step (st : Stories) (o : DateTime * StoreOp) : StoreReply * Stories :=
  let '(now, op) := o in
  match op with
  | Op_create spec => let '(r, st') := create st now spec in (Reply_info r, st')
  | Op_remove sid => let '(r, st') := remove st sid in (Reply_unit r, st')
  | Op_get_info sid => (Reply_info (get_info st sid), st)
  | Op_load sid => (Reply_context (load st sid), st)
  | Op_find sid k => (Reply_found (find_committed st sid k), st)
  | Op_commit c => let '(r, st') := commit config st now c in (Reply_commit r, st')
  end.

(** The same operation on logs. *)
Definition log_create (ls : Logs) (now : DateTime) (spec : StoryInstanceSpec) :
    result PersistenceError StoryInstanceInfo * Logs :=
  match map_err InvalidStory (validate_runtime_roles (spec_roles spec)) with
  | Err e => (Err e, ls)
  | Ok _ =>
      if bool_decide (is_Some (ls !! spec_story_id spec))
      then (Err (ConstraintViolation "story_id already exists"), ls)
      else
        let l := {| log_spec := spec; log_created := now; log_updated := now; log_commits := [] |} in
        (Ok (view_info l), <[spec_story_id spec := l]> ls)
  end.

Definition log_step (ls : Logs) (o : DateTime * StoreOp) : StoreReply * Logs :=
  let '(now, op) := o in
  match op with
  | Op_create spec => let '(r, ls') := log_create ls now spec in (Reply_info r, ls')
  | Op_remove sid =>
      match ls !! sid with
      | None => (Reply_unit (Err NotFound), ls)
      | Some _ => (Reply_unit (Ok tt), delete sid ls)
      end
  | Op_get_info sid => (Reply_info (ok_or (view_info <$> ls !! sid) NotFound), ls)
  | Op_load sid => (Reply_context (ok_or (view_context max <$> ls !! sid) NotFound), ls)
  | Op_find sid k =>
      (Reply_found (ok_or ((λ l, log_find k (log_commits l)) <$> ls !! sid) NotFound), ls)
  | Op_commit c =>
      match ls !! commit_story_id c with
      | None => (Reply_commit (Err NotFound), ls)
      | Some l =>
          match log_commit config l now c with
          | Err e => (Reply_commit (Err e), ls)
          | Ok (r, l') => (Reply_commit (Ok r), <[commit_story_id c := l']> ls)
          end
      end
  end.

Definition run_ops {S} (step : S → DateTime * StoreOp → StoreReply * S) :
    S → list (DateTime * StoreOp) → list StoreReply * S :=
  fix go s ops :=
    match ops with
    | [] => ([], s)
    | o :: ops' => let '(r, s') := step s o in let '(rs, s'') := go s' ops' in (r :: rs, s'')
    end.

(** ** The simulation *)

Definition simulates (n : N) (st : Stories) (ls : Logs) : Prop :=
  ∀ sid, match st !! sid, ls !! sid with
         | Some s, Some l => refines config s l ∧ (nlen (log_commits l) <= n)%N
         | None, None => True
         | _, _ => False
         end.

Lemma simulates_insert n st ls sid s l :
  simulates n st ls → refines config s l → (nlen (log_commits l) <= n)%N →
  simulates n (<[sid := s]> st) (<[sid := l]> ls).
Proof.
  intros Hsim Hr Hl k. destruct (decide (sid = k)) as [->|Hne].
  - by rewrite !lookup_insert_eq.
  - rewrite !lookup_insert_ne by done. apply Hsim.
Qed.

Lemma simulates_mono n n' st ls : (n <= n')%N → simulates n st ls → simulates n' st ls.
Proof.
  intros Hn Hsim k. specialize (Hsim k). destruct (st !! k), (ls !! k); try done.
  destruct Hsim. split; [done|lia].
Qed.

Lemma simulates_dom n st ls sid :
  simulates n st ls → bool_decide (is_Some (st !! sid)) = bool_decide (is_Some (ls !! sid)).
Proof.
  intros Hsim. specialize (Hsim sid). apply bool_decide_ext.
  destruct (st !! sid), (ls !! sid); try done; by split; intros [? ?].
Qed.

Lemma refines_new spec now :
  refines config {| context := initial_context spec; info := initial_info spec now; committed := ∅ |}
    {| log_spec := spec; log_created := now; log_updated := now; log_commits := [] |}.
Proof.
  split; try done. split; simpl; [constructor|done|]. unfold covered. simpl. lia.
Qed.

Lemma log_commit_length l now c r l' :
  log_commit config l now c = Ok (r, l') → (nlen (log_commits l') <= nlen (log_commits l) + 1)%N.
Proof.
  unfold log_commit. destruct (log_find _ _); [intros [= _ <-]; lia|].
  destruct (log_check _ _ _ _); [|done]. intros [= _ <-]. simpl. unfold nlen. rewrite length_app. simpl. lia.
Qed.

Lemma step_simulates n st ls o :
  (n < U64_MAX)%N → simulates n st ls →
  (store_step st o).1 = (log_step ls o).1 ∧
  simulates (n + 1) (store_step st o).2 (log_step ls o).2.
Proof.
  intros Hn Hsim. assert (simulates (n + 1) st ls) as Hsim1 by (eapply simulates_mono; [|done]; lia).
  destruct o as [now [spec|sid|sid|sid|sid k|c]]; simpl.
  - unfold create, log_create. destruct (map_err _ _); [|done].
    rewrite <-(simulates_dom n st ls) by done. case_bool_decide; simpl; [done|].
    split; [done|]. apply simulates_insert; [done|apply refines_new|]. unfold nlen. simpl. lia.
  - unfold remove. pose proof (Hsim sid) as Hsid. destruct (st !! sid), (ls !! sid); try done.
    split; [done|]. intros k. simpl. destruct (decide (sid = k)) as [->|Hne].
    + by rewrite !lookup_delete_eq.
    + rewrite !lookup_delete_ne by done. apply Hsim1.
  - pose proof (Hsim sid) as Hsid. unfold get_info. destruct (st !! sid), (ls !! sid); try done.
    destruct Hsid as [Hr _]. simpl. by rewrite (ref_info _ _ _ Hr).
  - pose proof (Hsim sid) as Hsid. unfold load. destruct (st !! sid), (ls !! sid); try done.
    destruct Hsid as [Hr _]. simpl. by rewrite (ref_context _ _ _ Hr).
  - pose proof (Hsim sid) as Hsid. unfold find_committed. destruct (st !! sid), (ls !! sid); try done.
    destruct Hsid as [Hr _]. simpl. by rewrite (ref_committed _ _ _ Hr).
  - pose proof (Hsim (commit_story_id c)) as Hsid. unfold commit.
    destruct (st !! commit_story_id c) as [s|], (ls !! commit_story_id c) as [l|]; try done.
    destruct Hsid as [Hr Hl].
    pose proof (commit_story_refines config s l now c Hr) as Hc.
    pose proof (log_commit_length l now c) as Hlen.
    destruct (commit_story config s now c) as [[r s']|e], (log_commit config l now c) as [[r' l']|e'];
      try (exfalso; apply Hc; lia).
    + destruct Hc as [-> Hr']; [lia|]. split; [done|]. simpl.
      apply simulates_insert; [done|done|]. specialize (Hlen _ _ eq_refl). lia.
    + rewrite Hc by lia. done.
Qed.

Lemma run_simulates ops n st ls :
  (n + nlen ops <= U64_MAX)%N → simulates n st ls →
  (run_ops store_step st ops).1 = (run_ops log_step ls ops).1 ∧
  simulates (n + nlen ops) (run_ops store_step st ops).2 (run_ops log_step ls ops).2.
Proof.
  revert n st ls. induction ops as [|o ops IH]; intros n st ls Hn Hsim; simpl.
  - split; [done|]. eapply simulates_mono; [|done]. unfold nlen. simpl. lia.
  - assert (nlen (o :: ops) = nlen ops + 1)%N as Hlen by (unfold nlen; simpl; lia).
    destruct (step_simulates n st ls o) as [Hrep Hnext]; [lia|done|].
    destruct (store_step st o) as [r st'], (log_step ls o) as [r' ls']. simpl in *.
    destruct (IH (n + 1)%N st' ls') as [IHr IHs]; [lia|done|].
    destruct (run_ops store_step st' ops), (run_ops log_step ls' ops). simpl in *.
    split; [by f_equal|]. eapply simulates_mono; [|exact IHs]. lia.
Qed.

(** C8: the store refines the append-only log: over any sequence of
    operations a new store answers exactly as the log does, so every context,
    info and commit it ever returns is determined by the specs the stories
    were created from and the commits that were accepted, in order. *)
Theorem store_refines_log ops :
  (nlen ops <= U64_MAX)%N →
  (run_ops store_step ∅ ops).1 = (run_ops log_step ∅ ops).1.
Proof. intros Hn. apply (run_simulates ops 0); [by rewrite N.add_0_l|done]. Qed.

(** the context a store loads is consistent: its turn number counts the
    commits; its recent turns are the last turns played in consecutive order,
    at most [max_recent_turns] of them, none covered by the summary, and none
    missing otherwise; the summary covers no future turn; and the story info
    carries the same life cycle. *)
Theorem loaded_context_shape ops sid ctx inf :
  (nlen ops <= U64_MAX)%N →
  let st := (run_ops store_step ∅ ops).2 in
  load st sid = Ok ctx → get_info st sid = Ok inf →
  let cov := from_option covered_through 0%N (summary ctx) in
  (cov <= ctx_turn_number ctx)%N ∧
  nlen (recent_turns ctx) = N.min max (ctx_turn_number ctx - cov) ∧
  (∀ i t, recent_turns ctx !! i = Some t →
    turn_number t = (ctx_turn_number ctx - nlen (recent_turns ctx) + N.of_nat i + 1)%N) ∧
  info_life_cycle inf = life_cycle ctx.
Proof.
  intros Hn st Hload Hinfo.
  destruct (run_simulates ops 0 ∅ ∅) as [_ Hsim]; [by rewrite N.add_0_l|done|].
  specialize (Hsim sid). fold st in Hsim. unfold load, get_info in *.
  destruct (st !! sid) as [s|]; [|done]. destruct ((run_ops log_step ∅ ops).2 !! sid) as [l|]; [|done].
  destruct Hsim as [[Hwf Hctx Hinf _] _]. simpl in *. injection Hload as <-. injection Hinfo as <-.
  rewrite Hctx, Hinf. simpl. fold (covered (log_commits l)).
  pose proof (wf_covered _ Hwf) as Hcov. split; [done|].
  assert (nlen (view_recent max (log_commits l)) =
    N.min max (nlen (log_commits l) - covered (log_commits l))) as Hlen.
  { unfold view_recent, nlen in *. rewrite length_drop, length_fmap. lia. }
  split_and!; [done| |done]. intros i t Hi. rewrite Hlen.
  pose proof (log_numbered _ Hwf) as Hnum.
  unfold view_recent in Hi. rewrite lookup_drop in Hi. rewrite (Hnum _ _ Hi).
  unfold nlen in *. lia.
Qed.

(** ** Idempotent commits *)

Definition removes (sid : StoryId) (o : DateTime * StoreOp) : Prop := o.2 = Op_remove sid.

(** A story's commits by key only grow. *)
Lemma step_keeps_commit st o sid k r :
  ¬ removes sid o →
  find_committed st sid k = Ok (Some r) → find_committed (store_step st o).2 sid k = Ok (Some r).
Proof.
  unfold find_committed. intros Hrem Hfind.
  destruct (st !! sid) as [s|] eqn:Hs; [|done]. simpl in Hfind. injection Hfind as Hk.
  destruct o as [now [spec|sid'|sid'|sid'|sid' k'|c]]; simpl; try by rewrite Hs; simpl; rewrite Hk.
  - unfold create. destruct (map_err _ _); simpl; [|by rewrite Hs; simpl; rewrite Hk].
    case_bool_decide as Hex; simpl; [by rewrite Hs; simpl; rewrite Hk|].
    rewrite lookup_insert_ne by (intros Heq; apply Hex; rewrite Heq, Hs; by eexists).
    rewrite Hs. simpl. by rewrite Hk.
  - unfold remove. destruct (st !! sid') eqn:Hs'; simpl; [|by rewrite Hs; simpl; rewrite Hk].
    rewrite lookup_delete_ne by (intros Heq; apply Hrem; unfold removes; simpl; by rewrite Heq). rewrite Hs. simpl. by rewrite Hk.
  - unfold commit. destruct (st !! commit_story_id c) as [s0|] eqn:Hs0;
      [|simpl; rewrite Hs; simpl; by rewrite Hk].
    destruct (commit_story config s0 now c) as [[r' s']|] eqn:Hc; simpl; [|by rewrite Hs; simpl; rewrite Hk].
    destruct (decide (commit_story_id c = sid)) as [<-|Hne].
    + rewrite lookup_insert_eq. simpl. rewrite Hs in Hs0. injection Hs0 as <-.
      unfold commit_story in Hc.
      destruct (committed s !! idempotency_key (commit_turn c)) eqn:Hkey; [by injection Hc as _ <-; rewrite Hk|].
      res_inv. simpl. rewrite lookup_insert_ne by congruence. by rewrite Hk.
    + rewrite lookup_insert_ne by done. rewrite Hs. simpl. by rewrite Hk.
Qed.

Lemma run_keeps_commit ops st sid k r :
  Forall (λ o, ¬ removes sid o) ops →
  find_committed st sid k = Ok (Some r) →
  find_committed (run_ops store_step st ops).2 sid k = Ok (Some r).
Proof.
  intros Hops. revert st. induction Hops as [|o ops Ho _ IH]; intros st Hf; simpl; [done|].
  apply (step_keeps_commit _ o) in Hf; [|done]. destruct (store_step st o) as [x st'].
  specialize (IH st' Hf). by destruct (run_ops store_step st' ops).
Qed.

(** C23: committing is idempotent: once a commit has succeeded, any later
    commit to the same story under the same key, whatever else it holds and
    whatever happened in between short of removing the story, returns the same
    stored commit and changes nothing. *)
Theorem commit_idempotent st now c r st' ops now' c' :
  commit config st now c = (Ok r, st') →
  Forall (λ o, ¬ removes (commit_story_id c) o) ops →
  commit_story_id c' = commit_story_id c →
  idempotency_key (commit_turn c') = idempotency_key (commit_turn c) →
  let st'' := (run_ops store_step st' ops).2 in
  commit config st'' now' c' = (Ok r, st'').
Proof.
  intros Hc Hops Hsid Hkey st''.
  assert (find_committed st' (commit_story_id c) (idempotency_key (commit_turn c)) = Ok (Some r)) as Hf.
  { unfold commit in Hc. destruct (st !! commit_story_id c) as [s|]; [|done].
    destruct (commit_story config s now c) as [[r' s']|] eqn:Hcs; [|done]. injection Hc as <- <-.
    unfold find_committed. rewrite lookup_insert_eq. simpl. f_equal. unfold commit_story in Hcs.
    destruct (committed s !! _) eqn:Hk; [by injection Hcs as <- <-|]. res_inv. simpl.
    apply lookup_insert_eq. }
  apply (run_keeps_commit ops) in Hf; [|done]. fold st'' in Hf. unfold find_committed in Hf.
  unfold commit. rewrite Hsid. destruct (st'' !! commit_story_id c) as [s|] eqn:Hs; [|done].
  simpl in Hf. injection Hf as Hf. unfold commit_story. rewrite Hkey, Hf. f_equal. by apply insert_id.
Qed.

(** ** Well-formed stores *)

(** Every entry is stored under its own identifier. *)
Definition keyed_roles (rs : gmap RoleId RoleEntry) : Prop :=
  map_Forall (λ rid r, role_id r = rid ∧ map_Forall (λ mid m, memory_id m = mid) (memories r)) rs.
Definition keyed_facts : gmap FactId FactEntry → Prop := map_Forall (λ id e, fact_id e = id).
Definition keyed_rumors : gmap RumorId RumorEntry → Prop := map_Forall (λ id e, rumor_id e = id).

Definition stored_ok (sid : StoryId) (s : StoredStory) : Prop :=
  story_id (context s) = sid ∧ info_story_id (info s) = sid ∧
  keyed_roles (roles (context s)) ∧ keyed_facts (facts (context s)) ∧ keyed_rumors (rumors (context s)) ∧
  validate_runtime_roles (roles (context s)) = Ok tt.

(** The steps a client can make: stories are created from keyed specs. *)
Inductive client_step : Stories → Stories → Prop :=
| client_create st now spec st' r :
    keyed_roles (spec_roles spec) → keyed_facts (spec_facts spec) → keyed_rumors (spec_rumors spec) →
    create st now spec = (r, st') → client_step st st'
| client_remove st sid st' r : remove st sid = (r, st') → client_step st st'
| client_commit st now c st' r : commit config st now c = (r, st') → client_step st st'.

Lemma keyed_memory_op turn rs op : keyed_roles rs → keyed_roles (apply_memory_op turn rs op).
Proof.
  intros Hk. destruct op as [rid id b|rid id b]; simpl; destruct (rs !! rid) as [r|] eqn:Hr; try done;
    destruct (Hk _ _ Hr) as [Hid Hm]; [|destruct (memories r !! id) as [m|] eqn:He; [|done]];
    (apply map_Forall_insert_2; [|done]); split; try done; simpl; apply map_Forall_insert_2; try done.
  simpl. by apply (Hm id).
Qed.

Lemma keyed_fact_op turn fs op : keyed_facts fs → keyed_facts (apply_fact_op turn fs op).
Proof.
  intros Hk. destruct op as [id b|id b]; simpl; [by apply map_Forall_insert_2|].
  destruct (fs !! id) as [e|] eqn:He; [|done]. apply map_Forall_insert_2; [exact (Hk id e He)|done].
Qed.

Lemma keyed_rumor_op turn us op : keyed_rumors us → keyed_rumors (apply_rumor_op turn us op).
Proof.
  intros Hk. destruct op as [id b|id b|id]; simpl; [by apply map_Forall_insert_2| |by apply map_Forall_delete].
  destruct (us !! id) as [e|] eqn:He; [|done]. apply map_Forall_insert_2; [exact (Hk id e He)|done].
Qed.

Lemma foldl_preserves {A B} (P : B → Prop) (f : B → A → B) l b :
  (∀ b x, P b → P (f b x)) → P b → P (foldl f b l).
Proof. intros Hf. revert b. induction l as [|x l IH]; intros b Hb; simpl; auto. Qed.

Lemma adjust_fields c m :
  story_id (adjust_rencent_turns c m) = story_id c ∧ roles (adjust_rencent_turns c m) = roles c ∧
  facts (adjust_rencent_turns c m) = facts c ∧ rumors (adjust_rencent_turns c m) = rumors c.
Proof. unfold adjust_rencent_turns. simpl. by destruct (summary c). Qed.

Lemma commit_story_ok sid s now c r s' :
  stored_ok sid s → commit_story config s now c = Ok (r, s') → stored_ok sid s'.
Proof.
  intros (Hid & Hinf & Hr & Hf & Hu & Hv). unfold commit_story.
  destruct (committed s !! _) eqn:Hk; [intros [= _ <-]; done|]. intros Hc. simpl in Hc.
  destruct (validate_runtime_roles (foldl _ _ _)) as [[]|] eqn:Hval; [|res_inv]. res_inv.
  unfold stored_ok. simpl.
  destruct (adjust_fields (apply_life_cycle (apply_narrative (apply_summary (set_recent
    (apply_knowledge_change (set_turn_number (context s) (turn_number (commit_turn r)))
      (turn_number (commit_turn r)) (knowledge_change (commit_turn r)))
    (recent_turns (context s) ++ [commit_turn r])) (commit_summary r)) (commit_narrative r))
    (commit_life_cycle r)) max) as (-> & -> & -> & ->).
  simpl. split_and!; [done|done| | | |done]; apply foldl_preserves; try done;
    intros; first [by apply keyed_memory_op|by apply keyed_fact_op|by apply keyed_rumor_op].
Qed.

(** every story of every reachable store is well formed: stored under its
    own identifier, every role, memory, fact and rumour under its own, and its
    roles within all limits, so a loaded story always passes the checks it
    passed when it was created. *)
Theorem reachable_stored_ok st :
  rtc client_step ∅ st → map_Forall stored_ok st.
Proof.
  intros Hr. remember (∅ : Stories) as st0 eqn:H0.
  assert (map_Forall stored_ok st0) as Hst0 by (subst; apply map_Forall_empty). clear H0.
  induction Hr as [st|st st1 st2 Hstep _ IH]; [done|]. apply IH. clear IH st2.
  destruct Hstep as [st now spec st' r Hkr Hkf Hku Hc|st sid st' r Hc|st now c st' r Hc].
  - unfold create in Hc. destruct (validate_runtime_roles (spec_roles spec)) as [[]|] eqn:Hv;
      simpl in Hc; [|by injection Hc as _ <-].
    case_bool_decide; injection Hc as _ <-; [done|]. apply map_Forall_insert_2; [|done].
    unfold stored_ok. by split_and!.
  - unfold remove in Hc. destruct (st !! sid); injection Hc as _ <-; [by apply map_Forall_delete|done].
  - unfold commit in Hc. destruct (st !! commit_story_id c) as [s|] eqn:Hs; [|by injection Hc as _ <-].
    destruct (commit_story config s now c) as [[r' s']|] eqn:Hcs; injection Hc as _ <-; [|done].
    apply map_Forall_insert_2; [|done]. eapply commit_story_ok; [|done]. by apply Hst0.
Qed.
End traces.

(** ** A concrete story *)

(** A serialiser writing one chunk per role. *)
#[local] Instance demo_role_json : RoleJson :=
  {| json_chunks := λ rs, (λ e, e.1 +:+ role_name (role_spec e.2)) <$> entries rs;
     json_failure := λ _, None |}.

Definition demo_config : StoryStoreConfig := {| ss_store_type := Memory; max_recent_turns := 1 |}.

Definition demo_body : MemoryBody :=
  {| memory_content := "The gate is guarded."; memory_activation := ActivationRule_default;
     memory_retrieval := "gate" |}.

Definition demo_spec : StoryInstanceSpec :=
  {| spec_story_id := "story-1";
     spec_pack_ref := {| ref_pack_id := "pack"; ref_version := "1.0.0"; ref_digest := "d" |};
     spec_opening := "Night falls."; spec_roles := seed_runtime {["mira" := demo_role]};
     spec_facts := ∅; spec_rumors := ∅; spec_player_id := "p"; spec_player_role := "mira";
     spec_narrative := {| node_status := ∅ |} |}.

Definition demo_turn (n : N) (k : string) (ms : list RoleMemoryChangeOp) : Turn :=
  {| turn_number := n; idempotency_key := k; player_contribution := {| raw := "go"; processed := "go" |};
     turn_segment := "You go."; knowledge_change := {| kc_facts := []; kc_rumors := []; kc_memories := ms |};
     turn_evaluation := {| eval_proposal_version := 1; eval_repair_rounds := 0; eval_checks := [];
                           eval_scores := []; eval_choice := None |};
     turn_status := Turn_Pass |}.

Definition demo_commit (n : N) (k : string) (ms : list RoleMemoryChangeOp) : StoryCommit :=
  {| commit_story_id := "story-1"; commit_turn := demo_turn n k ms; commit_summary := Unchanged;
     commit_narrative := Unchanged; commit_life_cycle := Unchanged |}.

Definition demo_first : StoryCommit := demo_commit 1 "k1" [MemoryAdd "mira" "m2" demo_body].

Definition demo_ops : list (DateTime * StoreOp) :=
  [(10%N, Op_create demo_spec); (11%N, Op_commit demo_first);
   (12%N, Op_commit (demo_commit 2 "k2" [])); (13%N, Op_load "story-1")].

Definition demo_store : gmap StoryId StoredStory := (run_ops (store_step demo_config) ∅ (take 1 demo_ops)).2.
Definition demo_store1 : gmap StoryId StoredStory := (run_ops (store_step demo_config) ∅ (take 2 demo_ops)).2.

Definition demo_loaded : StoryContext :=
  from_option context (initial_context demo_spec) ((run_ops (store_step demo_config) ∅ demo_ops).2 !! "story-1").
Definition demo_info : StoryInstanceInfo :=
  from_option info (initial_info demo_spec 0) ((run_ops (store_step demo_config) ∅ demo_ops).2 !! "story-1").

Example demo_trace :
  (ctx_turn_number demo_loaded, turn_number <$> recent_turns demo_loaded) = (2%N, [2%N]).
Proof. vm_compute. reflexivity. Qed.

Lemma store_refines_log_witness :
  (run_ops (store_step demo_config) ∅ demo_ops).1 = (run_ops (log_step demo_config) ∅ demo_ops).1.
Proof. apply store_refines_log. vm_compute. discriminate. Defined.

Lemma loaded_context_shape_witness :
  let cov := from_option covered_through 0%N (summary demo_loaded) in
  (cov <= ctx_turn_number demo_loaded)%N ∧
  nlen (recent_turns demo_loaded) = N.min 1 (ctx_turn_number demo_loaded - cov) ∧
  (∀ i t, recent_turns demo_loaded !! i = Some t →
    turn_number t = (ctx_turn_number demo_loaded - nlen (recent_turns demo_loaded) + N.of_nat i + 1)%N) ∧
  info_life_cycle demo_info = life_cycle demo_loaded.
Proof.
  apply (loaded_context_shape demo_config demo_ops "story-1" demo_loaded demo_info);
    vm_compute; [discriminate|reflexivity|reflexivity].
Defined.

Lemma commit_idempotent_witness :
  let st'' := (run_ops (store_step demo_config) demo_store1 [(12%N, Op_commit (demo_commit 2 "k2" []))]).2 in
  commit demo_config st'' 20 (demo_commit 7 "k1" []) = (Ok demo_first, st'').
Proof.
  apply (commit_idempotent demo_config demo_store 11 demo_first demo_first demo_store1
    [(12%N, Op_commit (demo_commit 2 "k2" []))] 20 (demo_commit 7 "k1" [])).
  - vm_compute. reflexivity.
  - repeat constructor. discriminate.
  - reflexivity.
  - reflexivity.
Defined.

Lemma reachable_stored_ok_witness : map_Forall stored_ok demo_store1.
Proof.
  apply (reachable_stored_ok demo_config). eapply rtc_l; [|apply rtc_once].
  - eapply (client_create _ ∅ 10 demo_spec demo_store); [| | |vm_compute; reflexivity].
    + unfold keyed_roles. apply (bool_decide_eq_true_1 _). vm_compute. reflexivity.
    + apply map_Forall_empty.
    + apply map_Forall_empty.
  - eapply (client_commit _ demo_store 11 demo_first). vm_compute. reflexivity.
Defined.

Lemma apply_knowledge_change_spec_witness :
  let c := initial_context demo_spec in
  get_memory (roles (apply_knowledge_change c 1 (knowledge_change (commit_turn demo_first)))) ("mira", "m2") =
  Some {| memory_id := "m2"; memory_origin := Origin_Turn 1; memory_body := demo_body |}.
Proof.
  pose proof (apply_knowledge_change_spec (initial_context demo_spec) 1
    (knowledge_change (commit_turn demo_first))) as Hspec.
  destruct Hspec as (_ & _ & _ & _ & Hmem & _).
  - apply validate_knowledge_change_iff. vm_compute. reflexivity.
  - apply (Hmem (MemoryAdd "mira" "m2" demo_body)). left.
Defined.
