(* ===== verification/PackStore.v ===== *)
(** * PackStore: the in-memory pack store

    [persistence/pack_store_mem.rs]: pack snapshots by digest, each kept while
    some story holds it.  [Arc] sharing is not observable: a snapshot's pack is
    never mutated. *)
From S2P Require Import Prelude.
From S2P Require Import Text.
From S2P Require Import Values.
From S2P Require Import Domain.
From S2P Require Import Roles.
From S2P Require Import StoryStore.

Record Snapshot := {
  sn_pack_ref : PackRef;
  value : StoryPack;
  sn_holders : gset StoryId;
}.

Record StorySnapshots := {
  packs : gmap Sha256Digest Snapshot;
  holders : gmap StoryId Sha256Digest;
}.

Definition StorySnapshots_default : StorySnapshots := {| packs := ∅; holders := ∅ |}.

Definition with_holders (s : Snapshot) (hs : gset StoryId) : Snapshot :=
  {| sn_pack_ref := sn_pack_ref s; value := value s; sn_holders := hs |}.

Section pack_store.
Context (config : PackStoreConfig).

Implicit Types (ss : StorySnapshots) (sid : StoryId) (d : Sha256Digest).

Definition retain ss sid (snapshot : StoryPackSnapshot) : result PersistenceError unit * StorySnapshots :=
  if bool_decide (is_Some (holders ss !! sid)) then (Err (StoryHolderAlreadyExists sid), ss)
  else
    let pref := snap_pack_ref snapshot in
    let d := ref_digest pref in
    if negb (bool_decide (is_Some (packs ss !! d))) && (max_packs config <=? map_len (packs ss))%N
    then (Err (PackCapacityExceeded (sat_add USIZE_MAX (map_len (packs ss)) 1) (max_packs config)), ss)
    else if from_option (λ existing, negb (bool_decide (sn_pack_ref existing = pref))) false (packs ss !! d)
    then (Err (InvalidPackReference pref), ss)
    else
      let existing := default {| sn_pack_ref := pref; value := snap_pack snapshot; sn_holders := ∅ |}
        (packs ss !! d) in
      (Ok tt,
       {| packs := <[d := with_holders existing ({[sid]} ∪ sn_holders existing)]> (packs ss);
          holders := <[sid := d]> (holders ss) |}).

Definition release ss sid : StorySnapshots :=
  match holders ss !! sid with
  | None => ss
  | Some d =>
      let hs := delete sid (holders ss) in
      match packs ss !! d with
      | None => {| packs := packs ss; holders := hs |}
      | Some s =>
          let s' := with_holders s (sn_holders s ∖ {[sid]}) in
          {| packs := if bool_decide (sn_holders s' = ∅) then delete d (packs ss)
                      else <[d := s']> (packs ss);
             holders := hs |}
      end
  end.

Definition get ss (pref : PackRef) : result PersistenceError StoryPack :=
  let? snapshot := ok_or (packs ss !! ref_digest pref) NotFound in
  fail_if negb (bool_decide (sn_pack_ref snapshot = pref)) with InvalidPackReference pref in
  Ok (value snapshot).

(** ** The invariant *)

(** The two maps describe the same holding relation, nothing unheld is kept,
    every snapshot is under its own digest and the capacity is respected. *)
Record pack_inv ss : Prop := {
  inv_held sid d : holders ss !! sid = Some d ↔ ∃ s, packs ss !! d = Some s ∧ sid ∈ sn_holders s;
  inv_nonempty d s : packs ss !! d = Some s → sn_holders s ≠ ∅;
  inv_digest d s : packs ss !! d = Some s → ref_digest (sn_pack_ref s) = d;
  inv_capacity : (map_len (packs ss) <= max_packs config)%N;
}.

Lemma pack_inv_default : pack_inv StorySnapshots_default.
Proof.
  split; simpl; try done.
  - intros sid d. rewrite lookup_empty. split; [done|]. intros (s & Hs & _). by rewrite lookup_empty in Hs.
  - unfold map_len. rewrite map_size_empty. lia.
Qed.

Lemma map_len_insert `{Countable K} {V} (m : gmap K V) k v :
  map_len (<[k := v]> m) = (if bool_decide (is_Some (m !! k)) then map_len m else map_len m + 1)%N.
Proof.
  unfold map_len. rewrite map_size_insert. destruct (m !! k) eqn:E; simpl; [done|lia].
Qed.

(** What a successful [retain] leaves. *)
Lemma retain_ok ss sid snapshot ss' :
  retain ss sid snapshot = (Ok tt, ss') →
  holders ss !! sid = None ∧
  ∃ e, let d := ref_digest (snap_pack_ref snapshot) in
    (packs ss !! d = Some e ∨ packs ss !! d = None ∧ (map_len (packs ss) < max_packs config)%N ∧
      e = {| sn_pack_ref := snap_pack_ref snapshot; value := snap_pack snapshot; sn_holders := ∅ |}) ∧
    sn_pack_ref e = snap_pack_ref snapshot ∧
    packs ss' = <[d := with_holders e ({[sid]} ∪ sn_holders e)]> (packs ss) ∧
    holders ss' = <[sid := d]> (holders ss).
Proof.
  unfold retain. case_bool_decide as Hh; [done|]. rewrite <-eq_None_not_Some in Hh.
  set (pref := snap_pack_ref snapshot). set (d := ref_digest pref).
  destruct (packs ss !! d) as [e|] eqn:He.
  - rewrite bool_decide_eq_true_2 by (by eexists). simpl.
    case_bool_decide as Hp; simpl; [|done]. intros [= <-]. split; [done|]. exists e.
    split_and!; [by left|done..].
  - rewrite bool_decide_eq_false_2 by (by intros []). simpl.
    destruct (N.leb_spec (max_packs config) (map_len (packs ss))); [done|]. intros [= <-].
    split; [done|]. eexists. split_and!; [right; split_and!; done|done..].
Qed.

Lemma pack_inv_retain ss sid snapshot r ss' :
  pack_inv ss → retain ss sid snapshot = (r, ss') → pack_inv ss'.
Proof.
  intros HI Heq. destruct r as [[]|e].
  2:{ unfold retain in Heq. simpl in Heq. repeat case_match; congruence. }
  apply retain_ok in Heq as (Hnew & e & He & Hp & Hpk & Hh). simpl in *.
  set (d := ref_digest (snap_pack_ref snapshot)) in *. destruct HI as [Hheld Hne Hdig Hcap].
  assert (∀ h, h ∈ sn_holders e → holders ss !! h = Some d) as Hin.
  { intros h Hhe. apply Hheld. destruct He as [He|(_ & _ & ->)]; [eauto|set_solver]. }
  split; rewrite ?Hpk, ?Hh.
  - intros h d'. destruct (decide (sid = h)) as [<-|Hsid].
    + rewrite lookup_insert_eq. split.
      * intros [= <-]. rewrite lookup_insert_eq. eexists. split; [done|]. simpl. set_solver.
      * intros (s & Hs & Hx). destruct (decide (d = d')) as [->|Hd]; [done|].
        rewrite lookup_insert_ne in Hs by done. rewrite (proj2 (Hheld sid d')) in Hnew; [done|eauto].
    + rewrite lookup_insert_ne by done. destruct (decide (d = d')) as [<-|Hd].
      * rewrite lookup_insert_eq. split.
        -- intros Hhd. eexists. split; [done|]. simpl.
           apply Hheld in Hhd as (s & Hs & Hx). destruct He as [He|(He & _)]; [|congruence].
           set_solver.
        -- intros (s & [= <-] & Hx). simpl in Hx. apply Hin. set_solver.
      * rewrite lookup_insert_ne by done. apply Hheld.
  - intros d' s. destruct (decide (d = d')) as [<-|Hd].
    + rewrite lookup_insert_eq. intros [= <-]. simpl. set_solver.
    + rewrite lookup_insert_ne by done. apply Hne.
  - intros d' s. destruct (decide (d = d')) as [<-|Hd].
    + rewrite lookup_insert_eq. intros [= <-]. simpl. by rewrite Hp.
    + rewrite lookup_insert_ne by done. apply Hdig.
  - rewrite map_len_insert. case_bool_decide as Hs; [done|].
    destruct He as [He|(_ & Hlt & _)]; [|lia]. destruct Hs. by eexists.
Qed.

Lemma pack_inv_release ss sid : pack_inv ss → pack_inv (release ss sid).
Proof.
  intros HI. pose proof HI as [Hheld Hne Hdig Hcap]. unfold release.
  destruct (holders ss !! sid) as [d|] eqn:Hsid; [|done].
  apply Hheld in Hsid as Hs. destruct Hs as (s & Hs & Hin). rewrite Hs. simpl.
  set (s' := with_holders s (sn_holders s ∖ {[sid]})).
  assert (∀ h, h ≠ sid → ∀ d', holders ss !! h = Some d' → d' = d → h ∈ sn_holders s') as Hkeep.
  { intros h Hh d' Hd ->. apply Hheld in Hd as (s0 & Hs0 & Hx). simpl.
    rewrite Hs in Hs0. injection Hs0 as <-. set_solver. }
  assert (∀ d', d' ≠ d → packs (release ss sid) !! d' = packs ss !! d') as _ by (intros; unfold release;
    rewrite Hsid, Hs; simpl; case_bool_decide; [by rewrite lookup_delete_ne|by rewrite lookup_insert_ne]).
  split; simpl.
  - intros h d'. destruct (decide (sid = h)) as [<-|Hh].
    + rewrite lookup_delete_eq. split; [done|]. intros (s0 & Hs0 & Hx). exfalso.
      destruct (decide (d = d')) as [<-|Hd].
      * case_bool_decide; [by rewrite lookup_delete_eq in Hs0|].
        rewrite lookup_insert_eq in Hs0. injection Hs0 as <-. set_solver.
      * assert (packs ss !! d' = Some s0) as Hp.
        { case_bool_decide; [by rewrite lookup_delete_ne in Hs0|by rewrite lookup_insert_ne in Hs0]. }
        assert (holders ss !! sid = Some d') by (apply Hheld; eauto). congruence.
    + rewrite lookup_delete_ne by done. destruct (decide (d = d')) as [<-|Hd].
      * case_bool_decide as Hemp.
        -- rewrite lookup_delete_eq. split; [|by intros (? & ? & _)].
           intros Hhd. pose proof (Hkeep h (not_eq_sym Hh) d Hhd eq_refl). set_solver.
        -- rewrite lookup_insert_eq. split.
           ++ intros Hhd. exists s'. split; [done|]. eapply Hkeep; eauto.
           ++ intros (s0 & [= <-] & Hx). apply Hheld. exists s. split; [done|]. simpl in Hx. set_solver.
      * rewrite Hheld. case_bool_decide; [by rewrite lookup_delete_ne|by rewrite lookup_insert_ne].
  - intros d' s0. case_bool_decide as Hemp; destruct (decide (d = d')) as [<-|Hd].
    + by rewrite lookup_delete_eq.
    + rewrite lookup_delete_ne by done. apply Hne.
    + rewrite lookup_insert_eq. by intros [= <-].
    + rewrite lookup_insert_ne by done. apply Hne.
  - intros d' s0. case_bool_decide as Hemp; destruct (decide (d = d')) as [<-|Hd].
    + by rewrite lookup_delete_eq.
    + rewrite lookup_delete_ne by done. apply Hdig.
    + rewrite lookup_insert_eq. intros [= <-]. by apply (Hdig _ s).
    + rewrite lookup_insert_ne by done. apply Hdig.
  - case_bool_decide.
    + unfold map_len in *. rewrite map_size_delete, Hs. simpl. lia.
    + rewrite map_len_insert. rewrite bool_decide_eq_true_2; [done|by eexists].
Qed.

(** Releasing what was just retained restores the store. *)
Lemma release_retain ss sid snapshot ss' :
  pack_inv ss → retain ss sid snapshot = (Ok tt, ss') → release ss' sid = ss.
Proof.
  intros [Hheld Hne _ _] Heq. apply retain_ok in Heq as (Hnew & e & He & Hp & Hpk & Hh). simpl in *.
  unfold release. rewrite Hh, lookup_insert_eq, Hpk, lookup_insert_eq. simpl.
  rewrite !delete_insert_eq, (delete_id (holders ss)) by done.
  assert (sid ∉ sn_holders e) as Hni.
  { intros Hin. destruct He as [He|(_ & _ & ->)]; [|set_solver].
    assert (holders ss !! sid = Some (ref_digest (snap_pack_ref snapshot))) by (apply Hheld; eauto).
    congruence. }
  assert (({[sid]} ∪ sn_holders e) ∖ {[sid]} = sn_holders e) as -> by set_solver.
  destruct He as [He|(He & _ & ->)]; simpl.
  - rewrite bool_decide_eq_false_2 by (by eapply Hne).
    rewrite insert_insert_eq. rewrite insert_id; [by destruct ss|].
    rewrite He. by destruct e.
  - rewrite bool_decide_eq_true_2 by done.
    rewrite delete_id by done. by destruct ss.
Qed.
End pack_store.
