(* ===== verification/Store.v ===== *)
(** * Store: stories and the packs they hold

    [persistence/store.rs] over the [StoryStore] and [PackStore] traits, which
    are type classes here; the in-memory stores are their instances.  The last
    part interleaves the two-phase creations and removals of concurrent
    clients. *)
From S2P Require Import Prelude.
From S2P Require Import Text.
From S2P Require Import Values.
From S2P Require Import Domain.
From S2P Require Import Roles.
From S2P Require Import StoryStore.
From S2P Require Import PackStore.

(** ** The two traits *)

Class StoryStoreOps (S : Type) := {
  s_create : S → DateTime → StoryInstanceSpec → result PersistenceError StoryInstanceInfo * S;
  s_remove : S → StoryId → result PersistenceError unit * S;
}.

Class PackStoreOps (P : Type) := {
  p_retain : P → StoryId → StoryPackSnapshot → result PersistenceError unit * P;
  p_release : P → StoryId → result PersistenceError unit * P;
}.

(** What [Store] needs of them: failed operations change nothing, and
    releasing undoes retaining. *)
Class StoryStoreLaws (S : Type) `{StoryStoreOps S} : Prop := {
  s_create_fails s now spec e s' : s_create s now spec = (Err e, s') → s' = s;
  s_remove_fails s sid e s' : s_remove s sid = (Err e, s') → s' = s;
}.

Class PackStoreLaws (P : Type) `{PackStoreOps P} := {
  p_inv : P → Prop;
  p_retain_fails p sid sn e p' : p_inv p → p_retain p sid sn = (Err e, p') → p' = p;
  p_release_undoes p sid sn p' :
    p_inv p → p_retain p sid sn = (Ok tt, p') → p_release p' sid = (Ok tt, p);
}.

(** ** The operations *)

Section store.
Context {S P : Type} `{!StoryStoreOps S, !PackStoreOps P}.

Definition create_story (st : S * P) (now : DateTime) (bundle : StoryCreateBundle) :
    result PersistenceError StoryInstanceInfo * (S * P) :=
  let sid := spec_story_id (bundle_instance bundle) in
  let '(s, p) := st in
  match p_retain p sid (bundle_snapshot bundle) with
  | (Err e, p1) => (Err e, (s, p1))
  | (Ok _, p1) =>
      match s_create s now (bundle_instance bundle) with
      | (Ok inf, s1) => (Ok inf, (s1, p1))
      | (Err create_source, s1) =>
          match p_release p1 sid with
          | (Ok _, p2) => (Err create_source, (s1, p2))
          | (Err cleanup_source, p2) =>
              (Err (CreateCompensationFailed sid create_source cleanup_source), (s1, p2))
          end
      end
  end.

Definition remove_story (st : S * P) (sid : StoryId) : result PersistenceError unit * (S * P) :=
  let '(s, p) := st in
  match s_remove s sid with
  | (Ok _, s1) | (Err NotFound, s1) =>
      match p_release p sid with
      | (Err e, p1) => (Err e, (s1, p1))
      | (Ok _, p1) => (Ok tt, (s1, p1))
      end
  | (Err e, s1) => (Err e, (s1, p))
  end.

(** creating a story is atomic: when it fails, for whatever reason,
    neither store has changed and the error is the one of the step that
    failed, never a failed compensation. *)
Theorem create_story_atomic `{!StoryStoreLaws S, !PackStoreLaws P} s p now bundle e st' :
  p_inv p → create_story (s, p) now bundle = (Err e, st') →
  st' = (s, p) ∧
  ((p_retain p (spec_story_id (bundle_instance bundle)) (bundle_snapshot bundle)).1 = Err e ∨
   (s_create s now (bundle_instance bundle)).1 = Err e).
Proof.
  intros Hp. unfold create_story. set (sid := spec_story_id _).
  destruct (p_retain p sid (bundle_snapshot bundle)) as [[[]|er] p1] eqn:Hr.
  - destruct (s_create s now (bundle_instance bundle)) as [[inf|ec] s1] eqn:Hc; [done|].
    rewrite (p_release_undoes _ _ _ _ Hp Hr). intros [= <- <-].
    apply s_create_fails in Hc as ->. simpl. auto.
  - intros [= <- <-]. apply p_retain_fails in Hr as ->; [|done]. auto.
Qed.
End store.

(** ** The in-memory stores *)

Section memory.
Context `{RoleJson} (sconfig : StoryStoreConfig) (pconfig : PackStoreConfig).

#[export] Instance mem_story_ops : StoryStoreOps (gmap StoryId StoredStory) :=
  {| s_create := create; s_remove := remove |}.

#[export] Instance mem_pack_ops : PackStoreOps StorySnapshots :=
  {| p_retain := retain pconfig; p_release := λ p sid, (Ok tt, release p sid) |}.

#[export] Instance mem_story_laws : StoryStoreLaws (gmap StoryId StoredStory).
Proof.
  split.
  - intros s now spec e s'. simpl. unfold create. repeat (case_match; simpl); congruence.
  - intros s sid e s'. simpl. unfold remove. case_match; congruence.
Qed.

#[export] Instance mem_pack_laws : PackStoreLaws StorySnapshots.
Proof.
  refine {| p_inv := pack_inv pconfig |}.
  - intros p sid sn e p' _. simpl. unfold retain. simpl. repeat case_match; congruence.
  - intros p sid sn p' Hp Hr. simpl in *. f_equal. by eapply release_retain.
Defined.

(** ** Concurrent clients

    [create_story] takes the two locks one after the other, and so does
    [remove_story]; between them other clients run.  A creation that has
    retained its pack is in [creating]; a story whose pack is still to be
    released is in [releasing].  Story ids are fresh UUIDs ([used] remembers
    them), so a client can only remove a story whose creation has returned. *)

Record System := {
  sys_stories : gmap StoryId StoredStory;
  sys_packs : StorySnapshots;
  creating : gmap StoryId StoryInstanceSpec;
  releasing : gset StoryId;
  used : gset StoryId;
}.

Definition System_new : System :=
  {| sys_stories := ∅; sys_packs := StorySnapshots_default; creating := ∅; releasing := ∅; used := ∅ |}.

Inductive sys_step (y : System) : System → Prop :=
(** the first half of [create_story]: the pack is retained, or the creation
    fails there *)
| sys_retain bundle r p' :
    spec_story_id (bundle_instance bundle) ∉ used y →
    spec_pack_ref (bundle_instance bundle) = snap_pack_ref (bundle_snapshot bundle) →
    retain pconfig (sys_packs y) (spec_story_id (bundle_instance bundle)) (bundle_snapshot bundle) = (r, p') →
    sys_step y
      {| sys_stories := sys_stories y; sys_packs := p';
         creating := if is_ok r
           then <[spec_story_id (bundle_instance bundle) := bundle_instance bundle]> (creating y)
           else creating y;
         releasing := releasing y;
         used := {[spec_story_id (bundle_instance bundle)]} ∪ used y |}
(** the second half: the story is created, or its pack is to be released *)
| sys_create sid spec now r s' :
    creating y !! sid = Some spec →
    create (sys_stories y) now spec = (r, s') →
    sys_step y
      {| sys_stories := s'; sys_packs := sys_packs y; creating := delete sid (creating y);
         releasing := if is_ok r then releasing y else {[sid]} ∪ releasing y; used := used y |}
(** the first half of [remove_story]; a missing story is not an error *)
| sys_remove sid r s' :
    sid ∈ used y → creating y !! sid = None →
    remove (sys_stories y) sid = (r, s') →
    sys_step y
      {| sys_stories := s'; sys_packs := sys_packs y; creating := creating y;
         releasing := {[sid]} ∪ releasing y; used := used y |}
(** the pack of a removed or failed story is released *)
| sys_release sid :
    sid ∈ releasing y →
    sys_step y
      {| sys_stories := sys_stories y; sys_packs := release (sys_packs y) sid; creating := creating y;
         releasing := releasing y ∖ {[sid]}; used := used y |}
(** a turn is committed *)
| sys_commit now c r s' :
    commit sconfig (sys_stories y) now c = (r, s') →
    sys_step y
      {| sys_stories := s'; sys_packs := sys_packs y; creating := creating y;
         releasing := releasing y; used := used y |}.

(** The pack a story was created from is held for it. *)
Definition holds_pack (p : StorySnapshots) (sid : StoryId) (pref : PackRef) : Prop :=
  holders p !! sid = Some (ref_digest pref) ∧
  ∃ sn, packs p !! ref_digest pref = Some sn ∧ sn_pack_ref sn = pref.

Record sys_inv (y : System) : Prop := {
  sys_pack_inv : pack_inv pconfig (sys_packs y);
  sys_creating sid spec : creating y !! sid = Some spec →
    spec_story_id spec = sid ∧ sid ∈ used y ∧ sid ∉ releasing y ∧ sys_stories y !! sid = None ∧
    holds_pack (sys_packs y) sid (spec_pack_ref spec);
  sys_stored sid s : sys_stories y !! sid = Some s →
    sid ∈ used y ∧ sid ∉ releasing y ∧ holds_pack (sys_packs y) sid (pack_ref (context s));
  sys_releasing sid : sid ∈ releasing y → sid ∈ used y;
  sys_no_leak sid : is_Some (holders (sys_packs y) !! sid) →
    is_Some (creating y !! sid) ∨ is_Some (sys_stories y !! sid) ∨ sid ∈ releasing y;
}.

Lemma holds_retain p sid sn p' sid' pref :
  retain pconfig p sid sn = (Ok tt, p') → holds_pack p sid' pref → holds_pack p' sid' pref.
Proof.
  intros (Hnew & e & He & Hp & Hpk & Hh)%retain_ok [Hhold (s & Hs & Href)]. simpl in *.
  unfold holds_pack. rewrite Hpk, Hh. split.
  - rewrite lookup_insert_ne; [done|]. intros ->. congruence.
  - destruct (decide (ref_digest (snap_pack_ref sn) = ref_digest pref)) as [Heq|Hne].
    + rewrite Heq, lookup_insert_eq. eexists. split; [done|]. simpl.
      rewrite Heq in He. destruct He as [He|(He & _)]; congruence.
    + rewrite lookup_insert_ne by done. eauto.
Qed.

Lemma retain_holds p sid sn p' :
  retain pconfig p sid sn = (Ok tt, p') → holds_pack p' sid (snap_pack_ref sn).
Proof.
  intros (Hnew & e & He & Hp & Hpk & Hh)%retain_ok. simpl in *. unfold holds_pack.
  rewrite Hpk, Hh, !lookup_insert_eq. split; [done|]. eexists. by split.
Qed.

Lemma holds_release p sid sid' pref :
  pack_inv pconfig p → sid' ≠ sid → holds_pack p sid' pref → holds_pack (release p sid) sid' pref.
Proof.
  intros HI Hne [Hhold (s & Hs & Href)]. unfold release.
  destruct (holders p !! sid) as [d|] eqn:Hd; [|split; eauto].
  apply (inv_held _ _ HI) in Hd as (s0 & Hs0 & Hin). rewrite Hs0.
  apply (inv_held _ _ HI) in Hhold as Hin'. destruct Hin' as (s1 & Hs1 & Hin').
  split; simpl; [by rewrite lookup_delete_ne|].
  destruct (decide (d = ref_digest pref)) as [->|Hdne].
  - assert (s0 = s ∧ s1 = s) as [-> ->] by (split; congruence).
    rewrite bool_decide_eq_false_2 by set_solver. rewrite lookup_insert_eq. eexists. by split.
  - exists s. split; [|done]. case_bool_decide; [by rewrite lookup_delete_ne|by rewrite lookup_insert_ne].
Qed.

Lemma holders_release p sid sid' :
  holders (release p sid) !! sid' = if decide (sid' = sid) then None else holders p !! sid'.
Proof.
  unfold release. destruct (holders p !! sid) as [d|] eqn:Hd.
  - destruct (packs p !! d); simpl; case_decide; subst; rewrite ?lookup_delete_eq, ?lookup_delete_ne; done.
  - case_decide; [by subst|done].
Qed.

Lemma commit_story_pack_ref st now c r st' :
  commit_story sconfig st now c = Ok (r, st') → pack_ref (context st') = pack_ref (context st).
Proof.
  unfold commit_story. destruct (committed st !! _); [by intros [= _ <-]|].
  intros Hc. simpl in Hc. res_inv. unfold adjust_rencent_turns. simpl.
  by destruct (apply_change_opt _ _).
Qed.

Lemma sys_inv_new : sys_inv System_new.
Proof.
  split; simpl; [apply pack_inv_default|done|done|set_solver|].
  intros sid [? Hs]. by rewrite lookup_empty in Hs.
Qed.

Lemma sys_inv_retain y bundle r p' :
  let sid := spec_story_id (bundle_instance bundle) in
  sys_inv y → sid ∉ used y →
  spec_pack_ref (bundle_instance bundle) = snap_pack_ref (bundle_snapshot bundle) →
  retain pconfig (sys_packs y) sid (bundle_snapshot bundle) = (r, p') →
  sys_inv {| sys_stories := sys_stories y; sys_packs := p';
             creating := if is_ok r then <[sid := bundle_instance bundle]> (creating y) else creating y;
             releasing := releasing y; used := {[sid]} ∪ used y |}.
Proof.
  intros sid [Hpk Hcr Hst Hrel Hleak] Hfresh Href Hr.
  assert (sid ∉ releasing y) as Hnr by (intros Hin; by apply Hfresh, Hrel).
  assert (sys_stories y !! sid = None) as Hns.
  { destruct (sys_stories y !! sid) as [s|] eqn:Hs; [|done]. by apply Hst in Hs as (? & _). }
  destruct r as [[]|e]; simpl.
  - split; simpl; [by eapply pack_inv_retain| | | |].
    + intros k spec. destruct (decide (sid = k)) as [<-|Hne].
      * rewrite lookup_insert_eq. intros [= <-]. split_and!; [done|set_solver|done|done|].
        rewrite Href. by eapply retain_holds.
      * rewrite lookup_insert_ne by done. intros (? & ? & ? & ? & ?)%Hcr.
        split_and!; [done|set_solver|done|done|]. by eapply holds_retain.
    + intros k s (? & ? & ?)%Hst. split_and!; [set_solver|done|]. by eapply holds_retain.
    + intros k Hk. apply Hrel in Hk. set_solver.
    + intros k Hk. destruct (decide (sid = k)) as [<-|Hne].
      * left. rewrite lookup_insert_eq. by eexists.
      * rewrite lookup_insert_ne by done. apply Hleak.
        apply retain_ok in Hr as (_ & e & _ & _ & _ & Hh). simpl in Hh. rewrite Hh in Hk.
        by rewrite lookup_insert_ne in Hk.
  - assert (p' = sys_packs y) as ->.
    { eapply (p_retain_fails (PackStoreLaws := mem_pack_laws)); [|exact Hr]. exact Hpk. }
    split; simpl; [done| | |set_solver|done].
    + intros k spec (? & ? & ? & ? & ?)%Hcr. split_and!; try done. set_solver.
    + intros k s (? & ? & ?)%Hst. split_and!; try done. set_solver.
Qed.

Lemma sys_inv_create y sid spec now r s' :
  sys_inv y → creating y !! sid = Some spec → create (sys_stories y) now spec = (r, s') →
  sys_inv {| sys_stories := s'; sys_packs := sys_packs y; creating := delete sid (creating y);
             releasing := if is_ok r then releasing y else {[sid]} ∪ releasing y; used := used y |}.
Proof.
  intros [Hpk Hcr Hst Hrel Hleak] Hspec Hc. destruct (Hcr _ _ Hspec) as (Hsid & Hus & Hnr & Hns & Hh).
  destruct r as [inf|e]; simpl.
  - assert (∃ s, s' = <[sid := s]> (sys_stories y) ∧ pack_ref (context s) = spec_pack_ref spec)
      as (s & -> & Hpr).
    { unfold create in Hc. destruct (map_err _ _); [|done]. case_bool_decide; [done|].
      injection Hc as _ <-. rewrite Hsid. eexists. by split. }
    split; simpl; [done| | |done|].
    + intros k sp. destruct (decide (sid = k)) as [<-|Hne]; [by rewrite lookup_delete_eq|].
      rewrite lookup_delete_ne by done. intros (? & ? & ? & ? & ?)%Hcr.
      split_and!; try done. by rewrite lookup_insert_ne.
    + intros k s0. destruct (decide (sid = k)) as [<-|Hne].
      * rewrite lookup_insert_eq. intros [= <-]. split_and!; [done..|]. by rewrite Hpr.
      * rewrite lookup_insert_ne by done. apply Hst.
    + intros k Hk. destruct (decide (sid = k)) as [<-|Hne].
      * right. left. rewrite lookup_insert_eq. by eexists.
      * rewrite lookup_delete_ne, lookup_insert_ne by done. by apply Hleak.
  - assert (s' = sys_stories y) as ->.
    { eapply (s_create_fails (StoryStoreLaws := mem_story_laws)). exact Hc. }
    split; simpl; [done| | | |].
    + intros k sp. destruct (decide (sid = k)) as [<-|Hne]; [by rewrite lookup_delete_eq|].
      rewrite lookup_delete_ne by done. intros (? & ? & ? & ? & ?)%Hcr. split_and!; try done. set_solver.
    + intros k s0 Hs0. destruct (Hst _ _ Hs0) as (? & ? & ?). split_and!; [done| |done].
      rewrite not_elem_of_union, not_elem_of_singleton. split; [congruence|done].
    + intros k [->%elem_of_singleton|Hk]%elem_of_union; [done|by apply Hrel].
    + intros k Hk. destruct (decide (sid = k)) as [<-|Hne]; [right; right; set_solver|].
      rewrite lookup_delete_ne by done. destruct (Hleak k Hk) as [?|[?|?]]; [by left|right; by left|].
      right. right. set_solver.
Qed.

Lemma sys_inv_remove y sid r s' :
  sys_inv y → sid ∈ used y → creating y !! sid = None → remove (sys_stories y) sid = (r, s') →
  sys_inv {| sys_stories := s'; sys_packs := sys_packs y; creating := creating y;
             releasing := {[sid]} ∪ releasing y; used := used y |}.
Proof.
  intros [Hpk Hcr Hst Hrel Hleak] Hus Hncr Hr.
  assert (∀ k, s' !! k = if decide (k = sid) then None else sys_stories y !! k) as Hs'.
  { intros k. unfold remove in Hr. destruct (sys_stories y !! sid) eqn:Hs; injection Hr as _ <-;
      case_decide; subst; rewrite ?lookup_delete_eq, ?lookup_delete_ne; done. }
  split; simpl; [done| | | |].
  - intros k sp Hk. destruct (Hcr _ _ Hk) as (? & ? & ? & Hn & ?).
    assert (k ≠ sid) by congruence. split_and!; try done; [set_solver|].
    by rewrite Hs', decide_False.
  - intros k s. rewrite Hs'. case_decide; [done|]. intros (? & ? & ?)%Hst.
    split_and!; try done. set_solver.
  - intros k [->%elem_of_singleton|Hk]%elem_of_union; [done|by apply Hrel].
  - intros k Hk. rewrite Hs'. case_decide; [right; right; set_solver|].
    destruct (Hleak k Hk) as [?|[?|?]]; [by left|right; by left|right; right; set_solver].
Qed.

Lemma sys_inv_release y sid :
  sys_inv y → sid ∈ releasing y →
  sys_inv {| sys_stories := sys_stories y; sys_packs := release (sys_packs y) sid; creating := creating y;
             releasing := releasing y ∖ {[sid]}; used := used y |}.
Proof.
  intros [Hpk Hcr Hst Hrel Hleak] Hin.
  split; simpl; [by apply pack_inv_release| | | |].
  - intros k sp Hk. destruct (Hcr _ _ Hk) as (? & ? & Hnr & ? & Hh). split_and!; try done; [set_solver|].
    apply holds_release; [done| |done]. intros ->. done.
  - intros k s Hk. destruct (Hst _ _ Hk) as (? & Hnr & Hh). split_and!; [done|set_solver|].
    apply holds_release; [done| |done]. intros ->. done.
  - intros k Hk. apply Hrel. set_solver.
  - intros k. rewrite holders_release. case_decide; [by intros []|].
    intros Hk. destruct (Hleak k Hk) as [?|[?|?]]; [by left|right; by left|right; right; set_solver].
Qed.

Lemma sys_inv_commit y now c r s' :
  sys_inv y → commit sconfig (sys_stories y) now c = (r, s') →
  sys_inv {| sys_stories := s'; sys_packs := sys_packs y; creating := creating y;
             releasing := releasing y; used := used y |}.
Proof.
  intros HI Hc. pose proof HI as [Hpk Hcr Hst Hrel Hleak]. unfold commit in Hc.
  destruct (sys_stories y !! commit_story_id c) as [s|] eqn:Hs; [|injection Hc as _ <-; by destruct y].
  destruct (commit_story sconfig s now c) as [[r' s1]|] eqn:Hcs; injection Hc as _ <-; [|by destruct y].
  apply commit_story_pack_ref in Hcs. split; simpl; [done| | |done|].
  - intros k sp Hk. destruct (Hcr _ _ Hk) as (? & ? & ? & Hn & ?). split_and!; try done.
    rewrite lookup_insert_ne; [done|]. intros <-. congruence.
  - intros k s0. destruct (decide (commit_story_id c = k)) as [<-|Hne].
    + rewrite lookup_insert_eq. intros [= <-]. rewrite Hcs. by apply Hst.
    + rewrite lookup_insert_ne by done. apply Hst.
  - intros k Hk. destruct (decide (commit_story_id c = k)) as [<-|Hne].
    + right. left. rewrite lookup_insert_eq. by eexists.
    + rewrite lookup_insert_ne by done. by apply Hleak.
Qed.

Lemma sys_inv_reachable y : rtc sys_step System_new y → sys_inv y.
Proof.
  intros Hr. remember System_new as y0 eqn:H0.
  assert (sys_inv y0) as Hy0 by (subst; apply sys_inv_new). clear H0.
  induction Hr as [y|y y1 y2 Hstep _ IH]; [done|]. apply IH. clear IH y2.
  destruct Hstep; [by apply sys_inv_retain|by eapply sys_inv_create|by eapply sys_inv_remove
    |by apply sys_inv_release|by eapply sys_inv_commit].
Qed.

(** C36: however creations, removals and commits of concurrent clients
    interleave, every stored story can load the pack it was created from; and
    once no operation is under way, no pack is held for a story that does not
    exist, so packs never leak. *)
Theorem stories_have_packs y :
  rtc sys_step System_new y →
  (∀ sid s, sys_stories y !! sid = Some s →
    ∃ pack, get (sys_packs y) (pack_ref (context s)) = Ok pack) ∧
  (creating y = ∅ → releasing y = ∅ →
    (∀ sid, is_Some (holders (sys_packs y) !! sid) → is_Some (sys_stories y !! sid)) ∧
    (∀ d sn, packs (sys_packs y) !! d = Some sn →
      ∃ sid, sid ∈ sn_holders sn ∧ is_Some (sys_stories y !! sid))).
Proof.
  intros [Hpk _ Hst _ Hleak]%sys_inv_reachable. split.
  - intros sid s Hs. destruct (Hst _ _ Hs) as (_ & _ & _ & sn & Hsn & Href).
    exists (value sn). unfold get. rewrite Hsn. simpl.
    by rewrite bool_decide_eq_true_2.
  - intros Hcr Hrel.
    assert (∀ sid, is_Some (holders (sys_packs y) !! sid) → is_Some (sys_stories y !! sid)) as Hh.
    { intros sid Hh. destruct (Hleak sid Hh) as [[? Hc]|[?|Hin]]; [|done|].
      - by rewrite Hcr, lookup_empty in Hc.
      - rewrite Hrel in Hin. set_solver. }
    split; [done|]. intros d sn Hsn. destruct (set_choose_L _ (inv_nonempty _ _ Hpk _ _ Hsn)) as [sid Hsid].
    exists sid. split; [done|]. apply Hh. rewrite (proj2 (inv_held _ _ Hpk sid d)); [by eexists|eauto].
Qed.
End memory.

(** ** Concrete runs *)

#[local] Instance store_role_json : RoleJson :=
  {| json_chunks := λ rs, (λ e, e.1 +:+ role_name (role_spec e.2)) <$> entries rs;
     json_failure := λ _, None |}.

Definition demo_pack_ref : PackRef :=
  {| ref_pack_id := "harbour"; ref_version := "1.0.0"; ref_digest := "abc" |}.

Definition demo_pack : StoryPack :=
  {| pack_spec := V1; pack_id := "harbour";
     pack_meta := {| pack_creator := "A"; pack_version := "1.0.0"; pack_tags := [] |};
     pack_profile := {| pack_title := "Harbour"; pack_description := None; genres := []; themes := [];
                        tones := []; point_of_view := "second"; tense := "present" |};
     pack_roles := {["mira" := demo_role]}; play := {| playable_roles := {["mira"]} |};
     pack_opening := "Night falls."; seed_facts := ∅; seed_rumors := ∅; pack_constraints := [];
     pack_narrative := None |}.

Definition demo_bundle : StoryCreateBundle :=
  assemble {| snap_pack_ref := demo_pack_ref; snap_pack := demo_pack |} "story-1" "Night falls."
    (seed_runtime {["mira" := demo_role]}) ∅ ∅ "player" "mira" {| node_status := ∅ |}.

Definition demo_stories : gmap StoryId StoredStory :=
  (create ∅ 5 (bundle_instance demo_bundle)).2.

Lemma create_story_atomic_witness :
  (demo_stories, StorySnapshots_default) = (demo_stories, StorySnapshots_default) ∧
  ((retain PackStoreConfig_default StorySnapshots_default "story-1" (bundle_snapshot demo_bundle)).1
     = Err (ConstraintViolation "story_id already exists") ∨
   (create demo_stories 9 (bundle_instance demo_bundle)).1
     = Err (ConstraintViolation "story_id already exists")).
Proof.
  apply (create_story_atomic (S := gmap StoryId StoredStory) (P := StorySnapshots)
    (StoryStoreOps0 := mem_story_ops) (PackStoreOps0 := mem_pack_ops PackStoreConfig_default)
    (StoryStoreLaws0 := mem_story_laws) (PackStoreLaws0 := mem_pack_laws PackStoreConfig_default)
    demo_stories StorySnapshots_default 9 demo_bundle (ConstraintViolation "story_id already exists")
    (demo_stories, StorySnapshots_default)).
  - apply pack_inv_default.
  - vm_compute. reflexivity.
Defined.

Definition demo_packs : StorySnapshots :=
  (retain PackStoreConfig_default StorySnapshots_default "story-1" (bundle_snapshot demo_bundle)).2.

Definition demo_system : System :=
  {| sys_stories := demo_stories; sys_packs := demo_packs;
     creating := delete "story-1" (<["story-1" := bundle_instance demo_bundle]> ∅);
     releasing := ∅; used := {["story-1"]} ∪ ∅ |}.

Lemma stories_have_packs_witness :
  (∀ sid s, sys_stories demo_system !! sid = Some s →
    ∃ pack, get (sys_packs demo_system) (pack_ref (context s)) = Ok pack) ∧
  (creating demo_system = ∅ → releasing demo_system = ∅ →
    (∀ sid, is_Some (holders (sys_packs demo_system) !! sid) → is_Some (sys_stories demo_system !! sid)) ∧
    (∀ d sn, packs (sys_packs demo_system) !! d = Some sn →
      ∃ sid, sid ∈ sn_holders sn ∧ is_Some (sys_stories demo_system !! sid))).
Proof.
  apply (stories_have_packs StoryStoreConfig_default PackStoreConfig_default).
  eapply rtc_l; [|apply rtc_once].
  - apply (sys_retain _ _ System_new demo_bundle (Ok tt) demo_packs).
    + apply not_elem_of_empty.
    + reflexivity.
    + vm_compute. reflexivity.
  - match goal with |- sys_step _ _ ?y _ =>
      pose proof (sys_create StoryStoreConfig_default PackStoreConfig_default y "story-1"
        (bundle_instance demo_bundle) 5 (Ok (initial_info (bundle_instance demo_bundle) 5)) demo_stories) as Hstep
    end.
    apply Hstep; vm_compute; reflexivity.
Defined.
