(* ===== verification/Errors.v ===== *)
(** * Errors: the error types of the layers above the core

    [llm/error.rs], [prompt/error.rs], [pipeline/common/error.rs],
    [pipeline/common/pipeline.rs] (the stages) and [engine/error.rs].  An
    error that wraps one of another crate keeps its text. *)
From S2P Require Import Prelude.
From S2P Require Import Text.
From S2P Require Import Values.
From S2P Require Import Domain.
From S2P Require Import Roles.
From S2P Require Import StoryStore.

Inductive LlmError :=
| Llm_Cancelled
| Llm_Timeout
| Llm_ConcurrencyLimiterClosed
| Llm_Transport (source : string)
| Llm_Rejected (status : N) (message : option string)
| Llm_InvalidResponse (reason : string)
| Llm_EmptyCompletion.

(** [core/message.rs]. *)
Inductive ChatMessageRole := Role_System | Role_User.
Record ChatMessage := { msg_role : ChatMessageRole; msg_content : string }.

Definition ChatMessage_system (content : string) : ChatMessage :=
  {| msg_role := Role_System; msg_content := content |}.
Definition ChatMessage_user (content : string) : ChatMessage :=
  {| msg_role := Role_User; msg_content := content |}.

Definition LlmError_kind (e : LlmError) : string :=
  match e with
  | Llm_Cancelled => "cancelled"
  | Llm_Timeout => "timeout"
  | Llm_ConcurrencyLimiterClosed => "concurrency_limiter_closed"
  | Llm_Transport _ => "transport"
  | Llm_Rejected _ _ => "rejected"
  | Llm_InvalidResponse _ => "invalid_response"
  | Llm_EmptyCompletion => "empty_completion"
  end.

(** [PromptLayer] of [prompt/manifest.rs]: the three templates of a prompt. *)
Inductive PromptLayer := Csi | Rc | Fti.

Definition PromptLayer_ORDERED : list PromptLayer := [Csi; Rc; Fti].

Definition PromptLayer_as_str (l : PromptLayer) : string :=
  match l with Csi => "csi" | Rc => "rc" | Fti => "fti" end.

Inductive PromptError :=
| Prompt_InvalidConfig (field reason : string)
| Prompt_ManifestRead (path source : string)
| Prompt_ManifestTooLarge (path : string) (bytes limit : N)
| Prompt_ManifestParse (path source : string)
| Prompt_TooManyPrompts (count limit : N)
| Prompt_EmptyPromptId (index : N)
| Prompt_DuplicatePromptId (prompt_id : string)
| Prompt_NotFound (prompt_id : string)
| Prompt_InvalidTemplatePath (prompt_id : string) (layer : PromptLayer) (path reason : string)
| Prompt_TemplateRead (prompt_id : string) (layer : PromptLayer) (path source : string)
| Prompt_TemplateTooLarge (prompt_id : string) (layer : PromptLayer) (path : string) (bytes limit : N)
| Prompt_TotalTemplateBytesExceeded (bytes limit : N)
| Prompt_TemplateCompile (prompt_id : string) (layer : PromptLayer) (source : string)
| Prompt_TemplateRender (prompt_id : string) (layer : PromptLayer) (source : string).

Definition PromptError_kind (e : PromptError) : string :=
  match e with
  | Prompt_InvalidConfig _ _ => "invalid_config"
  | Prompt_ManifestRead _ _ => "manifest_read"
  | Prompt_ManifestTooLarge _ _ _ => "manifest_too_large"
  | Prompt_ManifestParse _ _ => "manifest_parse"
  | Prompt_TooManyPrompts _ _ => "too_many_prompts"
  | Prompt_EmptyPromptId _ => "empty_prompt_id"
  | Prompt_DuplicatePromptId _ => "duplicate_prompt_id"
  | Prompt_NotFound _ => "prompt_not_found"
  | Prompt_InvalidTemplatePath _ _ _ _ => "invalid_template_path"
  | Prompt_TemplateRead _ _ _ _ => "template_read"
  | Prompt_TemplateTooLarge _ _ _ _ _ => "template_too_large"
  | Prompt_TotalTemplateBytesExceeded _ _ => "total_template_bytes_exceeded"
  | Prompt_TemplateCompile _ _ _ => "template_compile"
  | Prompt_TemplateRender _ _ _ => "template_render"
  end.

Inductive PipelineStage :=
| Stage_Baseline | Stage_Plan | Stage_Retrieval | Stage_Think | Stage_Generate
| Stage_Validate | Stage_Repair | Stage_Extract | Stage_Summary | Stage_Commit.

#[global] Instance PipelineStage_eq_dec : EqDecision PipelineStage.
Proof. solve_decision. Defined.

Definition PipelineStage_as_str (s : PipelineStage) : string :=
  match s with
  | Stage_Baseline => "baseline"
  | Stage_Plan => "plan"
  | Stage_Retrieval => "retrieval"
  | Stage_Think => "think"
  | Stage_Generate => "generate"
  | Stage_Validate => "validate"
  | Stage_Repair => "repair"
  | Stage_Extract => "extract"
  | Stage_Summary => "summary"
  | Stage_Commit => "commit"
  end.

Inductive PipelineError :=
| Pipe_Llm (stage : PipelineStage) (source : LlmError)
| Pipe_Prompt (stage : PipelineStage) (source : PromptError)
| Pipe_Persistence (stage : PipelineStage) (source : PersistenceError)
| Pipe_Narrative (stage : PipelineStage) (source : NarrativeError)
| Pipe_EmptyOutput (stage : PipelineStage)
| Pipe_InvalidOutput (stage : PipelineStage) (code message : string)
| Pipe_InconsistentData (stage : PipelineStage) (code message : string)
| Pipe_InvalidConfig (stage : PipelineStage) (code message : string)
| Pipe_ValidationFailed (code : string) (proposal_version : N) (message : string).

Inductive EngineError :=
| Engine_StoryNotActive (lc : StoryLifeCycle)
| Engine_Dependency (message : string)
| Engine_Core (source : CoreError)
| Engine_Story (source : StoryError)
| Engine_Narrative (source : NarrativeError)
| Engine_Persistence (source : PersistenceError)
| Engine_Prompt (source : PromptError)
| Engine_Llm (source : LlmError)
| Engine_Pipeline (source : PipelineError)
| Engine_NotInitialized.
