(* ===== verification/Factory.v ===== *)
(** * Factory: freezing a story pack into a story

    [core/story/story_pack.rs], [core/digest.rs] and the pure part of
    [engine/factory.rs]: a pack is validated, its seeds become the first
    entries of a story, and the bundle is handed to the store.  [serde_json]
    ([PackJson]) and [sha2] are parameters; the fresh UUID is an argument. *)
From S2P Require Import Prelude.
From S2P Require Import Text.
From S2P Require Import Values.
From S2P Require Import Domain.
From S2P Require Import Narrative.
From S2P Require Import Roles.
From S2P Require Import StoryStore.
From S2P Require Import PackStore.
From S2P Require Import StoryLog.
From S2P Require Import StoryStoreProps.
From S2P Require Import Store.
From S2P Require Import Errors.
From S2P Require Import Activation.

(** [serde_json::to_vec] of a pack: bytes, or an error's text. *)
Class PackJson := pack_json : StoryPack → result string string.

Inductive RoleActorSpec :=
| Actor_Default
| Actor_Card (card : CharacterCard).

Record StoryCreationSpec := {
  story_pack : StoryPack;
  cast : gmap RoleId RoleActorSpec;
  cs_player_id : PlayerId;
  cs_player_role : RoleId;
}.

(** [format!("{:x}", digest)]: two lower-case digits a byte. *)
Definition hex_digit (n : N) : Ascii.ascii :=
  Ascii.ascii_of_N (if (n <? 10)%N then 48 + n else 87 + n)%N.
Fixpoint hex (s : string) : string :=
  match s with
  | EmptyString => EmptyString
  | String c s' =>
      let b := Ascii.N_of_ascii c in
      String (hex_digit (b / 16)) (String (hex_digit (b mod 16)) (hex s'))
  end.

Section factory.
Context `{RoleJson} `{PackJson} `{Sha256}.

(** [Sha256Digest::canonical]. *)
Definition canonical (subject : string) (value : StoryPack) : result CoreError Sha256Digest :=
  let? bytes := map_err (DigestFailed subject) (pack_json value) in
  map_err (λ e, DigestFailed subject (CoreError_to_string e)) (id_try_new "digest" (hex (sha256 bytes))).

Definition STORY_PACK_SUBJECT : string := "story_pack".

Definition pack_pack_ref (p : StoryPack) : result CoreError PackRef :=
  let? digest := canonical STORY_PACK_SUBJECT p in
  Ok {| ref_pack_id := pack_id p; ref_version := pack_version (pack_meta p); ref_digest := digest |}.

Definition from_pack (p : StoryPack) : result CoreError StoryPackSnapshot :=
  let? pref := pack_pack_ref p in
  Ok {| snap_pack_ref := pref; snap_pack := p |}.

Definition validate_play (pl : PlayDefinition) (rs : gmap RoleId SeedRole) : result StoryError unit :=
  fail_if match set_entries (playable_roles pl) with [] => true | _ => false end with NoPlayableRole in
  match head (filter (λ rid, rs !! rid = None) (set_entries (playable_roles pl))) with
  | Some rid => Err (UnknownRole "play.playable_roles" rid)
  | None => Ok tt
  end.

Definition validate_pack_play (p : StoryPack) : result StoryError unit := validate_play (play p) (pack_roles p).
Definition validate_pack_roles (p : StoryPack) : result StoryError unit := validate_seed_roles (pack_roles p).
Definition validate_pack_narrative (p : StoryPack) : result NarrativeError unit :=
  match pack_narrative p with Some g => graph_validate g | None => Ok tt end.

Definition validate_cast (p : StoryPack) (player_role : RoleId) (cast : gmap RoleId RoleActorSpec) :
    result StoryError unit :=
  fail_if negb (bool_decide (player_role ∈ playable_roles (play p))) with RoleNotPlayable player_role in
  match head (filter (λ rid, pack_roles p !! rid = None) (keys cast)) with
  | Some rid => Err (UnknownRole "cast" rid)
  | None => Ok tt
  end.

(** [freeze_roles]: a card replaces the default profile; seed memories are
    entries of seed origin. *)
Definition freeze_role (cast : gmap RoleId RoleActorSpec) (rid : RoleId) (seed_role : SeedRole) : RoleEntry :=
  {| role_id := rid; role_origin := Origin_Seed; role_spec := seed_spec seed_role;
     role_profile := match cast !! rid with
                     | Some (Actor_Card card) => card_profile card
                     | Some Actor_Default | None => default_profile seed_role
                     end;
     memories := map_imap (λ mid b, Some (seed_memory mid b)) (seed_memories seed_role) |}.

Definition freeze_roles (p : StoryPack) (cast : gmap RoleId RoleActorSpec) : gmap RoleId RoleEntry :=
  map_imap (λ rid r, Some (freeze_role cast rid r)) (pack_roles p).

Definition freeze_facts (p : StoryPack) : gmap FactId FactEntry :=
  map_imap (λ id b, Some {| fact_id := id; fact_origin := Origin_Seed; fact_body := b |}) (seed_facts p).

Definition freeze_rumors (p : StoryPack) : gmap RumorId RumorEntry :=
  map_imap (λ id b, Some {| rumor_id := id; rumor_origin := Origin_Seed; rumor_body := b |}) (seed_rumors p).

Definition freeze_story (sid : StoryId) (spec : StoryCreationSpec) : result EngineError StoryCreateBundle :=
  let p := story_pack spec in
  let? _ := map_err Engine_Story (validate_pack_play p) in
  let? _ := map_err Engine_Narrative (validate_pack_narrative p) in
  let? _ := map_err Engine_Story (validate_pack_roles p) in
  let? _ := map_err Engine_Story (validate_cast p (cs_player_role spec) (cast spec)) in
  fail_if (MAX_OPENING_BYTES <? slen (pack_opening p))%N
    with Engine_Story (OpeningTooLarge (slen (pack_opening p)) MAX_OPENING_BYTES) in
  let rs := freeze_roles p (cast spec) in
  let? _ := map_err Engine_Story (validate_runtime_roles rs) in
  let nar := from_option initial_state NarrativeState_default (pack_narrative p) in
  let? snapshot := map_err Engine_Core (from_pack p) in
  Ok (assemble snapshot sid (pack_opening p) rs (freeze_facts p) (freeze_rumors p)
        (cs_player_id spec) (cs_player_role spec) nar).

(** [generate_story_id] from the text of a UUID; the id is never blank. *)
Definition generate_story_id (uuid : string) : result CoreError StoryId := StoryId_try_new ("story-" +:+ uuid).

Lemma generate_story_id_ok uuid : generate_story_id uuid = Ok ("story-" +:+ uuid).
Proof. apply id_try_new_nonblank. by apply not_blank_head. Qed.

Lemma hex_digit_val n :
  (n < 16)%N → byte_val (hex_digit n) = (if n <? 10 then 48 + n else 87 + n)%N.
Proof. intros Hn. unfold hex_digit, byte_val. apply Ascii.N_ascii_embedding. destruct (n <? 10)%N; lia. Qed.

Lemma hex_not_blank s : s ≠ "" → is_blank (hex s) = false.
Proof.
  destruct s as [|c s]; [done|]. intros _. cbn [hex].
  assert (Ascii.N_of_ascii c / 16 < 16)%N as Hd.
  { pose proof (Ascii.N_ascii_bounded c). div_lia. }
  apply not_blank_head; rewrite hex_digit_val by done.
  - destruct (_ <? 10)%N; lia.
  - apply not_true_is_false. unfold is_whitespace.
    rewrite !orb_true_iff, !andb_true_iff, !N.leb_le, !N.eqb_eq.
    destruct (N.ltb_spec (Ascii.N_of_ascii c / 16) 10); lia.
Qed.

(** The digest of a pack fails only when the pack cannot be serialised. *)
Lemma canonical_ok subject p bytes :
  pack_json p = Ok bytes → sha256 bytes ≠ "" → canonical subject p = Ok (hex (sha256 bytes)).
Proof.
  intros Hj Hs. unfold canonical. rewrite Hj. simpl.
  by rewrite id_try_new_nonblank by by apply hex_not_blank.
Qed.

(** ** What a frozen story satisfies *)
Lemma filter_head_None {A} (P : A → Prop) `{∀ x, Decision (P x)} l x :
  head (filter P l) = None → x ∈ l → ¬ P x.
Proof.
  intros Hh Hx HP. assert (x ∈ filter P l) as Hin by (by apply list_elem_of_filter).
  destruct (filter P l); [by apply not_elem_of_nil in Hin|done].
Qed.

Lemma validate_cast_ok p player cast :
  validate_cast p player cast = Ok tt →
  player ∈ playable_roles (play p) ∧ ∀ rid, is_Some (cast !! rid) → is_Some (pack_roles p !! rid).
Proof.
  unfold validate_cast. case_bool_decide as Hp; [|done]. simpl.
  destruct (head _) eqn:Hh; [done|]. intros _. split; [done|].
  intros rid Hc%elem_of_keys. eapply filter_head_None in Hh; [|done].
  by destruct (pack_roles p !! rid).
Qed.

Lemma validate_play_ok pl rs rid :
  validate_play pl rs = Ok tt → rid ∈ playable_roles pl → is_Some (rs !! rid).
Proof.
  unfold validate_play. destruct (match set_entries _ with [] => true | _ => false end); [done|].
  destruct (head _) eqn:Hh; [done|]. intros _ Hr%elem_of_set_entries.
  eapply filter_head_None in Hh; [|done]. by destruct (rs !! rid).
Qed.

Lemma freeze_roles_keyed p cast : keyed_roles (freeze_roles p cast).
Proof.
  intros rid r. unfold freeze_roles. rewrite map_lookup_imap.
  destruct (pack_roles p !! rid) as [s|]; [|done]. simpl. intros [= <-]. split; [done|].
  intros mid m. simpl. rewrite map_lookup_imap. destruct (seed_memories s !! mid); [|done].
  by intros [= <-].
Qed.

Lemma freeze_facts_keyed p : keyed_facts (freeze_facts p).
Proof.
  intros id e. unfold freeze_facts. rewrite map_lookup_imap.
  destruct (seed_facts p !! id); [|done]. by intros [= <-].
Qed.

Lemma freeze_rumors_keyed p : keyed_rumors (freeze_rumors p).
Proof.
  intros id e. unfold freeze_rumors. rewrite map_lookup_imap.
  destruct (seed_rumors p !! id); [|done]. by intros [= <-].
Qed.

(** a pack that freezes gives a story the rest of the system can rely
    on: the story store accepts it, every entry is stored under its own
    identifier, the player's role is one of its roles and playable, its
    instance refers to the frozen snapshot, and its narrative can always be
    planned, in any state. *)
Theorem freeze_story_sound sid spec b :
  freeze_story sid spec = Ok b →
  let inst := bundle_instance b in
  spec_story_id inst = sid ∧
  spec_pack_ref inst = snap_pack_ref (bundle_snapshot b) ∧
  snap_pack (bundle_snapshot b) = story_pack spec ∧
  (∀ st now, st !! sid = None → (create st now inst).1 = Ok (initial_info inst now)) ∧
  keyed_roles (spec_roles inst) ∧ keyed_facts (spec_facts inst) ∧ keyed_rumors (spec_rumors inst) ∧
  spec_player_role inst ∈ playable_roles (play (story_pack spec)) ∧
  is_Some (spec_roles inst !! spec_player_role inst) ∧
  (∀ g state, pack_narrative (story_pack spec) = Some g → ∃ plan, graph_plan g state = Ok plan).
Proof.
  unfold freeze_story. intros Hf.
  destruct (validate_pack_play _) as [[]|] eqn:Hplay; [|done].
  destruct (validate_pack_narrative _) as [[]|] eqn:Hnar; [|done].
  destruct (validate_pack_roles _) as [[]|] eqn:Hroles; [|done].
  destruct (validate_cast _ _ _) as [[]|] eqn:Hcast; [|done]. simpl in Hf.
  destruct (_ <? _)%N; [done|].
  destruct (validate_runtime_roles _) as [[]|] eqn:Hrt; [|done]. simpl in Hf.
  destruct (from_pack _) as [snap|] eqn:Hsnap; [|done]. injection Hf as <-. simpl.
  apply validate_cast_ok in Hcast as [Hpl _].
  split_and!; try done.
  - unfold from_pack in Hsnap. destruct (pack_pack_ref _); [|done]. by injection Hsnap as <-.
  - intros st now Hst. unfold create. simpl. rewrite Hrt. simpl.
    rewrite bool_decide_eq_false_2; [done|]. rewrite Hst. by intros [].
  - apply freeze_roles_keyed.
  - apply freeze_facts_keyed.
  - apply freeze_rumors_keyed.
  - eapply validate_play_ok in Hplay as [s Hs]; [|exact Hpl].
    unfold freeze_roles. rewrite map_lookup_imap, Hs. by eexists.
  - intros g state Hg. unfold validate_pack_narrative in Hnar. rewrite Hg in Hnar.
    by apply graph_plan_total.
Qed.
End factory.

(** ** A concrete pack *)

#[local] Instance factory_role_json : RoleJson :=
  {| json_chunks := λ rs, (λ e, e.1 +:+ role_name (role_spec e.2)) <$> entries rs;
     json_failure := λ _, None |}.
#[local] Instance factory_pack_json : PackJson := λ p, Ok (pack_id p).
#[local] Instance factory_sha : Sha256 := λ s, u64_be_bytes (slen s).

Definition demo_creation : StoryCreationSpec :=
  {| story_pack := demo_pack; cast := {["mira" := Actor_Default]}; cs_player_id := "player";
     cs_player_role := "mira" |}.

Definition demo_frozen : StoryCreateBundle :=
  match freeze_story "story-9" demo_creation with Ok b => b | Err _ => demo_bundle end.

Lemma freeze_story_sound_witness :
  (create ∅ 7 (bundle_instance demo_frozen)).1 = Ok (initial_info (bundle_instance demo_frozen) 7).
Proof.
  destruct (freeze_story_sound "story-9" demo_creation demo_frozen) as (_ & _ & _ & Hcreate & _).
  - vm_compute. reflexivity.
  - apply Hcreate. reflexivity.
Defined.

Example demo_digest : ref_digest (snap_pack_ref (bundle_snapshot demo_frozen)) = "0000000000000007".
Proof. vm_compute. reflexivity. Qed.
