(* ===== verification/Effects.v ===== *)
(** * Effects: the world the pipelines run in

    An [async] function that calls the language model is a function of the
    world's state [W] that returns a result and the next state.  The [World]
    class holds what the program reads from outside: the clock, whether a wait
    was cut short, the provider's answers and which of two concurrent branches
    fails first.  [complete_request] is the gateway of [llm/gateway.rs].

    A stream of concurrent calls collected in order runs its calls one after
    the other here: each call's answer is unconstrained, so every outcome of
    the concurrent program is one of some world. *)
From S2P Require Import Prelude.
From S2P Require Import Text.
From S2P Require Import Values.
From S2P Require Import Domain.
From S2P Require Import Roles.
From S2P Require Import StoryStore.
From S2P Require Import Errors.

Definition IO (W E A : Type) : Type := W → result E A * W.

Declare Scope io_scope.
Delimit Scope io_scope with io.
#[global] Open Scope io_scope.

Definition io_ret {W E A : Type} (a : A) : IO W E A := λ w, (Ok a, w).
Definition io_fail {W E A : Type} (e : E) : IO W E A := λ w, (Err e, w).
Definition io_lift {W E A : Type} (r : result E A) : IO W E A := λ w, (r, w).

(** [.await?] *)
Definition io_bind {W E A B : Type} (m : IO W E A) (k : A → IO W E B) : IO W E B := λ w,
  match m w with (Ok a, w') => k a w' | (Err e, w') => (Err e, w') end.

Notation "'let*' x ':=' m 'in' k" := (io_bind m (λ x, k))
  (at level 10, x binder, m at level 200, k at level 200) : io_scope.

Definition io_map_err {W E F A : Type} (f : E → F) (m : IO W E A) : IO W F A := λ w,
  let '(r, w') := m w in (map_err f r, w').

Definition io_traverse {W E A B : Type} (f : A → IO W E B) : list A → IO W E (list B) :=
  fix go l :=
    match l with
    | [] => io_ret []
    | x :: l' => let* y := f x in let* ys := go l' in io_ret (y :: ys)
    end.

Lemma io_bind_ok {W E A B : Type} (m : IO W E A) (k : A → IO W E B) (w : W) b w' :
  io_bind m k w = (Ok b, w') → ∃ a w1, m w = (Ok a, w1) ∧ k a w1 = (Ok b, w').
Proof. unfold io_bind. destruct (m w) as [[a|e] w1]; [eauto|done]. Qed.

Lemma io_bind_err {W E A B : Type} (m : IO W E A) (k : A → IO W E B) (w : W) e w' :
  io_bind m k w = (Err e, w') →
  m w = (Err e, w') ∨ ∃ a w1, m w = (Ok a, w1) ∧ k a w1 = (Err e, w').
Proof. unfold io_bind. destruct (m w) as [[a|e'] w1]; [eauto|]. intros [= -> ->]. by left. Qed.

Lemma io_lift_ok {W E A : Type} (r : result E A) (w : W) a w' : io_lift r w = (Ok a, w') → r = Ok a ∧ w' = w.
Proof. unfold io_lift. by intros [= -> ->]. Qed.

Lemma io_map_err_ok {W E F A : Type} (f : E → F) (m : IO W E A) (w : W) a w' :
  io_map_err f m w = (Ok a, w') → m w = (Ok a, w').
Proof. unfold io_map_err. destruct (m w) as [[b|e] w1]; simpl; [|done]. by intros [= -> ->]. Qed.

Lemma io_traverse_ok {W E A B : Type} (f : A → IO W E B) l (w : W) ys w' :
  io_traverse f l w = (Ok ys, w') → Forall2 (λ x y, ∃ w1 w2, f x w1 = (Ok y, w2)) l ys.
Proof.
  revert w ys w'. induction l as [|x l IH]; intros w ys w'; simpl.
  - intros [= <- _]. constructor.
  - intros (y & w1 & Hx & H)%io_bind_ok. apply io_bind_ok in H as (ys' & w2 & Hl & [= <- _]).
    constructor; [eauto|by eapply IH].
Qed.

(** Takes a successful run apart. *)
Ltac io_step :=
  match goal with
  | H : io_bind _ _ _ = (Ok _, _) |- _ =>
      let a := fresh "a" in let w := fresh "w" in let H1 := fresh "Hrun" in let H2 := fresh "Hrun" in
      apply io_bind_ok in H as (a & w & H1 & H2); cbv beta in H2
  | H : io_lift _ _ = (Ok _, _) |- _ => apply io_lift_ok in H as [H ->]
  | H : io_map_err _ _ _ = (Ok _, _) |- _ => apply io_map_err_ok in H
  | H : io_ret _ _ = (Ok _, _) |- _ => unfold io_ret in H; injection H as H
  | H : io_fail _ _ = (Ok _, _) |- _ => discriminate H
  end.
Ltac io_inv := repeat (io_step; simplify_eq/=).

(** ** The language model *)

Inductive LlmReasoningEffort := Effort_None | Effort_Low | Effort_Medium | Effort_High | Effort_Max.
Definition LlmReasoningEffort_default : LlmReasoningEffort := Effort_Low.

Inductive LlmCompletionFinishReason :=
| Finish_Stop | Finish_Timeout | Finish_Length | Finish_ContentFilter | Finish_Other.

Record LlmTokenUsage := {
  input_tokens : N;
  cached_input_tokens : option N;
  output_tokens : N;
  reasoning_tokens : option N;
  total_tokens : N;
}.

(** An [f32] is an IEEE 754 number. *)
Record LlmCompletionRequest := {
  req_model : string;
  req_messages : list ChatMessage;
  req_temperature : spec_float;
  req_reasoning_effort : option LlmReasoningEffort;
}.

Record LlmCompletionResponse := {
  rsp_content : string;
  rsp_finish_reason : LlmCompletionFinishReason;
  rsp_usage : option LlmTokenUsage;
}.

Inductive LlmProviderType := Provider_OpenAiCompat | Provider_Other.

Record LlmConfig := {
  llm_provider : LlmProviderType;
  llm_base_url : string;
  llm_api_key : string;
  llm_model : string;
  llm_temperature : spec_float;
  llm_timeout_ms : N;
  llm_max_concurrent_calls : N;
}.

(** What a wait sees when it ends: cancellation, the deadline, and the value
    waited for. *)
Record Wait (A : Type) := { cancelled : bool; expired : bool; ready : result LlmError A }.
Arguments cancelled {A}.
Arguments expired {A}.
Arguments ready {A}.

Class World (W : Type) := {
  w_now : W → N * W;
  w_acquire : N → W → Wait unit * W;
  w_provider : N → LlmCompletionRequest → W → Wait LlmCompletionResponse * W;
  w_first : W → bool * W;
}.

(** [tokio::select!] with [biased]: the branches in order. *)
Definition select_biased {A} (e : Wait A) : result LlmError A :=
  if cancelled e then Err Llm_Cancelled else if expired e then Err Llm_Timeout else ready e.

(** [tokio::try_join!] of two branches: both values, or the error of the
    branch that fails first. *)
Definition try_join {W E A B : Type} `{World W} (ma : IO W E A) (mb : IO W E B) : IO W E (A * B) := λ w,
  let '(ra, w1) := ma w in
  let '(rb, w2) := mb w1 in
  let '(first, w3) := w_first w2 in
  match ra, rb with
  | Ok a, Ok b => (Ok (a, b), w3)
  | Err e, Ok _ => (Err e, w3)
  | Ok _, Err e => (Err e, w3)
  | Err ea, Err eb => (Err (if first then ea else eb), w3)
  end.

Lemma try_join_ok {W E A B : Type} `{World W} (ma : IO W E A) (mb : IO W E B) (w : W) a b w' :
  try_join ma mb w = (Ok (a, b), w') →
  (∃ w1, ma w = (Ok a, w1)) ∧ ∃ w1 w2, mb w1 = (Ok b, w2).
Proof.
  unfold try_join. destruct (ma w) as [ra w1] eqn:Ha. destruct (mb w1) as [rb w2] eqn:Hb.
  destruct (w_first w2) as [first w3]. destruct ra, rb; try done. intros [= -> -> _]. eauto.
Qed.

(** ** [LlmGateway] *)

Record TurnControl := { deadline : N }.

Section gateway.
Context `{World W} (config : LlmConfig).

Definition build_request (messages : list ChatMessage) (effort : option LlmReasoningEffort) :
    LlmCompletionRequest :=
  {| req_model := llm_model config; req_messages := messages; req_temperature := llm_temperature config;
     req_reasoning_effort := effort |}.

Definition call_deadline (control : TurnControl) (now : N) : N :=
  deadline control `min` (now + llm_timeout_ms config).

Definition call_provider (req : LlmCompletionRequest) (control : TurnControl) :
    IO W LlmError LlmCompletionResponse := λ w,
  let '(now, w) := w_now w in
  let '(e, w) := w_provider (call_deadline control now) req w in
  (select_biased e, w).

Definition complete_request (messages : list ChatMessage) (effort : option LlmReasoningEffort)
    (control : TurnControl) : IO W LlmError string := λ w,
  let req := build_request messages effort in
  let '(e, w) := w_acquire (deadline control) w in
  match select_biased e with
  | Ok _ =>
      match call_provider req control w with
      | (Ok rsp, w) => (Ok (rsp_content rsp), w)
      | (Err error, w) => (Err error, w)
      end
  | Err error => (Err error, w)
  end.

Definition complete (messages : list ChatMessage) (control : TurnControl) : IO W LlmError string :=
  complete_request messages (Some LlmReasoningEffort_default) control.

Definition complete_with_reasoning_effort (messages : list ChatMessage) (effort : LlmReasoningEffort)
    (control : TurnControl) : IO W LlmError string :=
  complete_request messages (Some effort) control.

End gateway.

(** [gateway.complete(..).await.map_err(PipelineError::llm(stage))]. *)
Definition ask `{World W} (config : LlmConfig) (stage : PipelineStage) (messages : list ChatMessage)
    (control : TurnControl) : IO W PipelineError string :=
  io_map_err (Pipe_Llm stage) (complete config messages control).

Definition ask_with_effort `{World W} (config : LlmConfig) (stage : PipelineStage)
    (messages : list ChatMessage) (effort : LlmReasoningEffort) (control : TurnControl) :
    IO W PipelineError string :=
  io_map_err (Pipe_Llm stage) (complete_with_reasoning_effort config messages effort control).

(** ** The stores a turn uses *)

(** What the pipelines and the engine ask of the stores. *)
Class StoreAccess (W : Type) := {
  w_get_pack : PackRef → IO W PersistenceError StoryPack;
  w_load : StoryId → IO W PersistenceError StoryContext;
  w_find_committed : StoryId → IdempotencyKey → IO W PersistenceError (option StoryCommit);
  w_commit : StoryCommit → IO W PersistenceError StoryCommit;
}.

(** [serde_json::from_str]: the value, or where and why the text is refused. *)
Record JsonError := { json_line : N; json_column : N; json_message : string }.

(** ** Running a stage *)

(** The sink of turn events. *)
Class TurnEventSink (W : Type) := w_emit : TurnEvent → W → W.

(** Why a turn stops: an error of a pipeline, a panic, or a model that ran out
    of fuel; the last two are proved not to occur. *)
Inductive Stop :=
| Stop_Error (e : PipelineError)
| Stop_Panic
| Stop_Fuel.

(** [PipelineRunner::run], the trace aside: emit the stage, then run it. *)
Definition run_stage_stop {W A} `{TurnEventSink W} (stage : PipelineStage) (m : IO W Stop A) : IO W Stop A := λ w,
  m (w_emit (TurnPipeline (PipelineStage_as_str stage)) w).
Definition run_stage {W A} `{TurnEventSink W} (stage : PipelineStage) (m : IO W PipelineError A) :
    IO W Stop A := run_stage_stop stage (io_map_err Stop_Error m).

Lemma run_stage_ok {W A} `{TurnEventSink W} stage (m : IO W PipelineError A) (w : W) a w' :
  run_stage stage m w = (Ok a, w') → ∃ w0, m w0 = (Ok a, w').
Proof. unfold run_stage, run_stage_stop. intros Hm%io_map_err_ok. eauto. Qed.

Lemma run_stage_err {W A} `{TurnEventSink W} stage (m : IO W PipelineError A) (w : W) e w' :
  run_stage stage m w = (Err e, w') → ∃ err, e = Stop_Error err.
Proof. unfold run_stage, run_stage_stop, io_map_err. destruct (m _) as [[a|err] w1]; simpl; [done|]. intros [= <- _]. eauto. Qed.
