(* ===== verification/Prompt.v ===== *)
(** * Prompt: the prompt catalog

    [prompt/config.rs], [prompt/manifest.rs], [prompt/loader.rs],
    [prompt/renderer.rs] and [prompt/prompt.rs]: loading the catalog named by a
    manifest, compiling its templates and rendering a prompt.  The file system,
    the TOML parser and minijinja are the classes [Files] and [Minijinja]; a
    path is its Unix spelling. *)
From S2P Require Import Prelude.
From S2P Require Import Text.
From S2P Require Import Values.
From S2P Require Import Domain.
From S2P Require Import Roles.
From S2P Require Import StoryStore.
From S2P Require Import Errors.

(** [serde_json::Value], with the numbers the prompts use. *)
Inductive Value :=
| Json_Null
| Json_Bool (value : bool)
| Json_Number (value : N)
| Json_String (value : string)
| Json_Array (values : list Value)
| Json_Object (fields : list (string * Value)).

(** [Display] of [serde_json::Value]: its compact JSON text. *)
Class JsonDisplay := json_display : Value → string.
Definition json_string `{JsonDisplay} (s : string) : string := json_display (Json_String s).

(** A JSON string is a quote, the characters each escaped on its own, and a
    quote; an escaped character is no shorter than the character. *)
Class JsonDisplayLaws `{JsonDisplay} : Prop := {
  json_string_app s t : (slen (json_string (s +:+ t)) + 2 = slen (json_string s) + slen (json_string t))%N;
  json_string_length s : (slen s + 2 <= slen (json_string s))%N;
}.

Definition PromptVars : Type := gmap string Value.
(** [PromptVars::from([...])]. *)
Definition PromptVars_from (fields : list (string * Value)) : PromptVars :=
  foldl (λ m kv, <[ kv.1 := kv.2 ]> m) ∅ fields.
Record PromptSpec := { spec_prompt_id : string; spec_vars : PromptVars }.
Record RenderedPrompt := { rendered_prompt_id : string; messages : list ChatMessage }.

Record PromptConfig := {
  directory : string;
  max_prompts : N;
  max_template_bytes : N;
  max_total_template_bytes : N;
}.
Definition PromptConfig_default : PromptConfig :=
  {| directory := "prompts"; max_prompts := 100; max_template_bytes := 1024;
     max_total_template_bytes := 10240 |}.

(** ** The manifest *)

Definition MANIFEST_FILE_NAME : string := "index.toml".

Record PromptManifestEntry := {
  entry_id : string; entry_csi : string; entry_rc : string; entry_fti : string }.

Definition entry_path (e : PromptManifestEntry) (l : PromptLayer) : string :=
  match l with Csi => entry_csi e | Rc => entry_rc e | Fti => entry_fti e end.

Definition PromptLayer_role (l : PromptLayer) : ChatMessageRole :=
  match l with Csi | Fti => Role_System | Rc => Role_User end.

Record LoadedPrompt := {
  loaded_id : string; loaded_csi : string; loaded_rc : string; loaded_fti : string }.

Definition loaded_source (p : LoadedPrompt) (l : PromptLayer) : string :=
  match l with Csi => loaded_csi p | Rc => loaded_rc p | Fti => loaded_fti p end.

Record LoadedCatalog := { loaded_prompts : list LoadedPrompt; total_template_bytes : N }.

(** ** Paths *)

Inductive Component := RootDir | CurDir | ParentDir | Normal (name : string).

#[global] Instance Component_eq_dec : EqDecision Component.
Proof. solve_decision. Defined.

Definition is_slash (a : Ascii.ascii) : bool := (Ascii.N_of_ascii a =? 47)%N.

Fixpoint split_slash (current : string) (s : string) : list string :=
  match s with
  | "" => [current]
  | String a s' =>
      if is_slash a then current :: split_slash "" s' else split_slash (current +:+ String a "") s'
  end.

Definition path_is_absolute (p : string) : bool := String.prefix "/" p.

Definition segment_component (s : string) : option Component :=
  if String.eqb s "" || String.eqb s "." then None
  else if String.eqb s ".." then Some ParentDir else Some (Normal s).

(** [Path::components]. *)
Definition components (p : string) : list Component :=
  let segments := split_slash "" p in
  (if path_is_absolute p then [RootDir]
   else match segments with "." :: _ => [CurDir] | _ => [] end) ++ omap segment_component segments.

Definition ends_with_slash (p : string) : bool :=
  match List.rev (String.list_ascii_of_string p) with a :: _ => is_slash a | [] => true end.

(** [Path::join]. *)
Definition path_join (root relative : string) : string :=
  if path_is_absolute relative then relative
  else if ends_with_slash root then root +:+ relative
  else root +:+ "/" +:+ relative.

(** [Path::starts_with]: by components. *)
Definition path_starts_with (p root : string) : bool :=
  bool_decide (components root `prefix_of` components p).

(** ** The loader *)

(** What the loader reads from outside: [fs::metadata(path).len()],
    [fs::read_to_string], [Path::canonicalize], the first bytes of a file and
    the TOML parser. *)
Class Files := {
  fs_len : string → result string N;
  fs_read_to_string : string → result string string;
  fs_canonicalize : string → result string string;
  fs_take : N → string → result string string;
  toml_manifest : string → result string (list PromptManifestEntry);
}.

Section loader.
Context `{Files} (config : PromptConfig).

Definition validate_config : result PromptError unit :=
  match List.find (λ l : string * N, (l.2 =? 0)%N)
    [("max_prompts", max_prompts config); ("max_template_bytes", max_template_bytes config);
     ("max_total_template_bytes", max_total_template_bytes config)] with
  | Some (field, _) => Err (Prompt_InvalidConfig field "must be non-zero")
  | None => Ok tt
  end.

Definition canonicalize (path prompt_id : string) (layer : PromptLayer) : result PromptError string :=
  map_err (Prompt_TemplateRead prompt_id layer path) (fs_canonicalize path).

Definition resolve_template_path (root prompt_id : string) (layer : PromptLayer) (relative : string) :
    result PromptError string :=
  let invalid := Prompt_InvalidTemplatePath prompt_id layer relative in
  fail_if is_empty relative with invalid "empty" in
  fail_if path_is_absolute relative || bool_decide (RootDir ∈ components relative)
  with invalid "absolute" in
  fail_if bool_decide (ParentDir ∈ components relative) with invalid "parent_component" in
  let? canonical_root := canonicalize root prompt_id layer in
  let? canonical_path := canonicalize (path_join root relative) prompt_id layer in
  fail_if negb (path_starts_with canonical_path canonical_root) with invalid "outside_root" in
  Ok canonical_path.

Definition read_manifest : result PromptError (list PromptManifestEntry) :=
  let path := path_join (directory config) MANIFEST_FILE_NAME in
  let? bytes := map_err (Prompt_ManifestRead path) (fs_len path) in
  fail_if (max_template_bytes config <? bytes)%N
  with Prompt_ManifestTooLarge path bytes (max_template_bytes config) in
  let? text := map_err (Prompt_ManifestRead path) (fs_read_to_string path) in
  map_err (Prompt_ManifestParse path) (toml_manifest text).

Definition read_template (prompt_id : string) (layer : PromptLayer) (path : string) :
    result PromptError string :=
  let read_error := Prompt_TemplateRead prompt_id layer path in
  let? bytes := map_err read_error (fs_take (max_template_bytes config + 1) path) in
  fail_if (max_template_bytes config <? slen bytes)%N
  with Prompt_TemplateTooLarge prompt_id layer path (slen bytes) (max_template_bytes config) in
  if valid_utf8b bytes then Ok bytes else Err (read_error "invalid utf-8").

(** The running total is a [u64]. *)
Definition load_layer (entry : PromptManifestEntry) (layer : PromptLayer) (total : N) :
    result PromptError (string * N) :=
  let? path := resolve_template_path (directory config) (entry_id entry) layer (entry_path entry layer) in
  let? source := read_template (entry_id entry) layer path in
  let total := ((total + slen source) mod (U64_MAX + 1))%N in
  fail_if (max_total_template_bytes config <? total)%N
  with Prompt_TotalTemplateBytesExceeded total (max_total_template_bytes config) in
  Ok (source, total).

Definition load_prompt (entry : PromptManifestEntry) (total : N) : result PromptError (LoadedPrompt * N) :=
  let? '(csi, total) := load_layer entry Csi total in
  let? '(rc, total) := load_layer entry Rc total in
  let? '(fti, total) := load_layer entry Fti total in
  Ok ({| loaded_id := entry_id entry; loaded_csi := csi; loaded_rc := rc; loaded_fti := fti |}, total).

Record LoadState := { seen : gset string; prompts : list LoadedPrompt; total_bytes : N }.

Definition load_step (s : LoadState) (e : nat * PromptManifestEntry) : result PromptError LoadState :=
  let '(index, entry) := e in
  fail_if is_blank (entry_id entry) with Prompt_EmptyPromptId (N.of_nat index) in
  fail_if bool_decide (entry_id entry ∈ seen s) with Prompt_DuplicatePromptId (entry_id entry) in
  let? '(p, total) := load_prompt entry (total_bytes s) in
  Ok {| seen := {[ entry_id entry ]} ∪ seen s; prompts := prompts s ++ [p]; total_bytes := total |}.

Definition load_catalog : result PromptError LoadedCatalog :=
  let? _ := validate_config in
  let? manifest := read_manifest in
  fail_if (max_prompts config <? nlen manifest)%N
  with Prompt_TooManyPrompts (nlen manifest) (max_prompts config) in
  let? s := try_fold load_step {| seen := ∅; prompts := []; total_bytes := 0 |} (imap pair manifest) in
  Ok {| loaded_prompts := prompts s; total_template_bytes := total_bytes s |}.

End loader.

(** ** The renderer *)

(** minijinja: whether a template compiles, the error for a template that is
    not in the environment, and the text of a template of the environment. *)
Class Minijinja := {
  mj_compile : string → string → result string unit;
  mj_not_found : string → string;
  mj_eval : gmap string string → string → PromptVars → result string string;
}.

Record PromptTemplateNames := { names_csi : string; names_rc : string; names_fti : string }.

Definition names_get (n : PromptTemplateNames) (l : PromptLayer) : string :=
  match l with Csi => names_csi n | Rc => names_rc n | Fti => names_fti n end.

Definition template_name (prompt_id : string) (layer : PromptLayer) : string :=
  prompt_id +:+ "/" +:+ PromptLayer_as_str layer.

Abbreviation PromptRenderer := (gmap string string) (only parsing).

Section renderer.
Context `{Minijinja}.

Definition prompt_template_names (p : LoadedPrompt) : PromptTemplateNames :=
  {| names_csi := template_name (loaded_id p) Csi; names_rc := template_name (loaded_id p) Rc;
     names_fti := template_name (loaded_id p) Fti |}.

Definition add_template (p : LoadedPrompt) (env : PromptRenderer) (layer : PromptLayer) :
    result PromptError PromptRenderer :=
  let name := names_get (prompt_template_names p) layer in
  let? _ := map_err (Prompt_TemplateCompile (loaded_id p) layer) (mj_compile name (loaded_source p layer)) in
  Ok (<[ name := loaded_source p layer ]> env).

Definition compile (env : PromptRenderer) (p : LoadedPrompt) :
    result PromptError (PromptTemplateNames * PromptRenderer) :=
  let names := prompt_template_names p in
  let? env := try_fold (add_template p) env PromptLayer_ORDERED in
  Ok (names, env).

Definition render_layer (env : PromptRenderer) (names : PromptTemplateNames) (prompt_id : string)
    (layer : PromptLayer) (vars : PromptVars) : result PromptError string :=
  let render_error := Prompt_TemplateRender prompt_id layer in
  let name := names_get names layer in
  match env !! name with
  | Some _ => map_err render_error (mj_eval env name vars)
  | None => Err (render_error (mj_not_found name))
  end.

(** ** [Prompt] *)

Record Prompt := { catalog : gmap string PromptTemplateNames; renderer : PromptRenderer }.

Definition compile_step (s : Prompt) (p : LoadedPrompt) : result PromptError Prompt :=
  let? '(names, env) := compile (renderer s) p in
  Ok {| catalog := <[ loaded_id p := names ]> (catalog s); renderer := env |}.

Definition Prompt_new `{Files} (config : PromptConfig) : result PromptError Prompt :=
  let? loaded := load_catalog config in
  try_fold compile_step {| catalog := ∅; renderer := ∅ |} (loaded_prompts loaded).

Definition layer_message (layer : PromptLayer) (content : string) : ChatMessage :=
  match PromptLayer_role layer with
  | Role_System => ChatMessage_system content
  | Role_User => ChatMessage_user content
  end.

Definition inner_render (p : Prompt) (spec : PromptSpec) : result PromptError RenderedPrompt :=
  let prompt_id := spec_prompt_id spec in
  let? names := ok_or (catalog p !! prompt_id) (Prompt_NotFound prompt_id) in
  let? ms := traverse (λ layer,
    let? content := render_layer (renderer p) names prompt_id layer (spec_vars spec) in
    Ok (layer_message layer content)) PromptLayer_ORDERED in
  Ok {| rendered_prompt_id := prompt_id; messages := ms |}.

(** [Prompt::render] for a stage, the trace aside: the messages of the prompt. *)
Definition render_prompt (stage : PipelineStage) (p : Prompt) (prompt_id : string)
    (fields : list (string * Value)) : result PipelineError (list ChatMessage) :=
  let? rendered := map_err (Pipe_Prompt stage)
    (inner_render p {| spec_prompt_id := prompt_id; spec_vars := PromptVars_from fields |}) in
  Ok (messages rendered).

End renderer.

(** ** What loading guarantees *)

Section loader_proofs.
Context `{Files} (config : PromptConfig).

(** A template read for a prompt: its file lies under the prompt directory and
    it is a valid text within the size limit. *)
Definition template_read (source : string) : Prop :=
  valid_utf8 source ∧ (slen source <= max_template_bytes config)%N ∧
  ∃ root path, fs_canonicalize (directory config) = Ok root ∧ path_starts_with path root = true ∧
    fs_take (max_template_bytes config + 1) path = Ok source.

Definition prompt_bytes (p : LoadedPrompt) : N :=
  (slen (loaded_csi p) + slen (loaded_rc p) + slen (loaded_fti p))%N.
Definition prompts_bytes (ps : list LoadedPrompt) : N := foldr (λ p n, prompt_bytes p + n)%N 0%N ps.

Lemma prompts_bytes_app ps qs : prompts_bytes (ps ++ qs) = (prompts_bytes ps + prompts_bytes qs)%N.
Proof. induction ps as [|p ps IH]; simpl; [done|]. rewrite IH. lia. Qed.

Lemma resolve_template_path_ok root prompt_id layer relative path :
  resolve_template_path root prompt_id layer relative = Ok path →
  ParentDir ∉ components relative ∧
  ∃ croot, fs_canonicalize root = Ok croot ∧ path_starts_with path croot = true.
Proof.
  unfold resolve_template_path, canonicalize, map_err. simpl. intros Hr. res_inv.
  match goal with E : bool_decide (ParentDir ∈ _) = false |- _ => apply bool_decide_eq_false_1 in E end.
  match goal with E : negb _ = false |- _ => apply negb_false_iff in E end. eauto.
Qed.

Lemma read_template_ok prompt_id layer path source :
  read_template config prompt_id layer path = Ok source →
  valid_utf8 source ∧ (slen source <= max_template_bytes config)%N ∧
  fs_take (max_template_bytes config + 1) path = Ok source.
Proof.
  unfold read_template, map_err. simpl. intros Hr. res_inv.
  destruct (valid_utf8b value) eqn:E; simplify_eq. apply N.ltb_ge in Heqb.
  split; [by apply valid_utf8b_true|done].
Qed.

Context (Hfits : (max_total_template_bytes config + max_template_bytes config <= U64_MAX)%N).

Lemma load_layer_ok entry layer total source total' :
  (total <= max_total_template_bytes config)%N →
  load_layer config entry layer total = Ok (source, total') →
  template_read source ∧ total' = (total + slen source)%N ∧ (total' <= max_total_template_bytes config)%N.
Proof.
  unfold load_layer. intros Ht Hl. simpl in Hl. res_inv.
  match goal with E : resolve_template_path _ _ _ _ = _ |- _ =>
    apply resolve_template_path_ok in E as (_ & croot & Hroot & Hin) end.
  match goal with E : read_template _ _ _ _ = _ |- _ => apply read_template_ok in E as (Hv & Hs & Htake) end.
  match goal with E : (_ <? _)%N = false |- _ => apply N.ltb_ge in E; rename E into Hle end.
  simplify_eq. rewrite N.mod_small in * by (unfold U64_MAX in *; lia).
  split; [|done]. unfold template_read. eauto 10.
Qed.

Lemma load_prompt_ok entry total p total' :
  (total <= max_total_template_bytes config)%N →
  load_prompt config entry total = Ok (p, total') →
  loaded_id p = entry_id entry ∧ (∀ l, template_read (loaded_source p l)) ∧
  total' = (total + prompt_bytes p)%N ∧ (total' <= max_total_template_bytes config)%N.
Proof.
  unfold load_prompt. intros Ht Hl.
  destruct (load_layer config entry Csi total) as [[csi t1]|] eqn:E1; [|done].
  destruct (load_layer config entry Rc t1) as [[rc t2]|] eqn:E2; [|done].
  destruct (load_layer config entry Fti t2) as [[fti t3]|] eqn:E3; [|done].
  apply load_layer_ok in E1 as (? & -> & ?); [|done]. apply load_layer_ok in E2 as (? & -> & ?); [|done].
  apply load_layer_ok in E3 as (? & -> & ?); [|done]. injection Hl as <- <-.
  unfold prompt_bytes; simpl. split_and!; [done|by intros []|lia|lia].
Qed.

(** The state of the loop after some entries of the manifest. *)
Record load_inv (es : list PromptManifestEntry) (s : LoadState) : Prop := {
  load_ids : loaded_id <$> prompts s = entry_id <$> es;
  load_seen id : id ∈ seen s ↔ id ∈ entry_id <$> es;
  load_nodup : NoDup (entry_id <$> es);
  load_named : Forall (λ e, is_blank (entry_id e) = false) es;
  load_total : total_bytes s = prompts_bytes (prompts s);
  load_bound : (total_bytes s <= max_total_template_bytes config)%N;
  load_read : Forall (λ p, ∀ l, template_read (loaded_source p l)) (prompts s);
}.

Lemma load_inv_nil : load_inv [] {| seen := ∅; prompts := []; total_bytes := 0 |}.
Proof.
  split; simpl; try constructor; try lia; [|by intros ?%not_elem_of_nil].
  intros Hid. by apply not_elem_of_empty in Hid.
Qed.

Lemma load_step_inv es s i e s' :
  load_inv es s → load_step config s (i, e) = Ok s' → load_inv (es ++ [e]) s'.
Proof.
  intros [Hids Hseen Hnd Hnamed Htot Hb Hr] Hs. unfold load_step in Hs. res_step.
  destruct (bool_decide_reflect (entry_id e ∈ seen s)) as [|Hnew]; [done|].
  destruct (load_prompt config e (total_bytes s)) as [[p t]|] eqn:E; [|done].
  apply load_prompt_ok in E as (Hid & Hread & -> & Hle); [|done]. injection Hs as <-.
  split; simpl; rewrite ?fmap_app; simpl.
  - by rewrite Hids, Hid.
  - intros id. rewrite elem_of_union, Hseen, elem_of_app. set_solver.
  - apply NoDup_app. split; [done|]. split; [|apply NoDup_singleton].
    intros id Hin ->%list_elem_of_singleton. by apply Hnew, Hseen.
  - apply Forall_app. by rewrite Forall_singleton.
  - rewrite prompts_bytes_app, Htot. simpl. lia.
  - done.
  - apply Forall_app. by rewrite Forall_singleton.
Qed.

Lemma load_catalog_inv cat :
  load_catalog config = Ok cat →
  ∃ manifest s, read_manifest config = Ok manifest ∧ load_inv manifest s ∧
    (nlen manifest <= max_prompts config)%N ∧ loaded_prompts cat = prompts s ∧
    total_template_bytes cat = total_bytes s.
Proof.
  unfold load_catalog. intros Hl. res_inv.
  match goal with E : (_ <? _)%N = false |- _ => apply N.ltb_ge in E; rename E into Hle end.
  match goal with E : try_fold _ _ _ = Ok ?s, M : read_manifest _ = Ok ?m |- _ =>
    exists m, s; rename m into manifest; rename E into Hfold; rename M into Hm end.
  split; [done|]. split; [|done].
  pose proof (try_fold_prefix_ind (λ pre s, load_inv (pre.*2) s) (load_step config)) as Hind.
  specialize (Hind _ _ _ load_inv_nil
    ltac:(intros pre [i e] suf s1 s2 _ Hp Hs; rewrite fmap_app; by eapply load_step_inv) Hfold).
  assert ((imap pair manifest).*2 = manifest) as Himap.
  { apply list_eq. intros i. rewrite list_lookup_fmap, list_lookup_imap. by destruct (manifest !! i). }
  cbv beta in Hind. by rewrite Himap in Hind.
Qed.
End loader_proofs.

(** A catalog that loads has one prompt per manifest entry, in order, under distinct and non-blank
    identifiers; the number of prompts, the size of each template and the total size, which is the sum, are
    within the configured limits; and every template is the valid UTF-8 content of a file under the prompt
    directory. *)
Theorem load_catalog_within `{Files} config cat :
  (max_total_template_bytes config + max_template_bytes config <= U64_MAX)%N →
  load_catalog config = Ok cat →
  (∃ manifest, read_manifest config = Ok manifest ∧
    loaded_id <$> loaded_prompts cat = entry_id <$> manifest) ∧
  NoDup (loaded_id <$> loaded_prompts cat) ∧
  (∀ p, p ∈ loaded_prompts cat → is_blank (loaded_id p) = false ∧ ∀ l, template_read config (loaded_source p l)) ∧
  (nlen (loaded_prompts cat) <= max_prompts config)%N ∧
  total_template_bytes cat = prompts_bytes (loaded_prompts cat) ∧
  (total_template_bytes cat <= max_total_template_bytes config)%N.
Proof.
  intros Hfits (manifest & s & Hm & [Hids _ Hnd Hnamed Htot Hb Hr] & Hn & -> & ->)%load_catalog_inv; [|done].
  split; [by exists manifest|]. rewrite Hids. split; [done|]. split.
  - intros p Hp. split; [|by eapply Forall_forall in Hr]. rewrite Forall_forall in Hnamed.
    assert (loaded_id p ∈ entry_id <$> manifest) as (e & -> & He)%list_elem_of_fmap.
    { rewrite <-Hids. by apply list_elem_of_fmap_2. }
    by apply Hnamed.
  - split; [|by rewrite Htot in *]. assert (length (prompts s) = length manifest) as Hlen.
    { by rewrite <-(length_fmap loaded_id), Hids, length_fmap. }
    unfold nlen in *. by rewrite Hlen.
Qed.

(** ** What rendering guarantees *)
Lemma list_ascii_app s t :
  String.list_ascii_of_string (s +:+ t) = String.list_ascii_of_string s ++ String.list_ascii_of_string t.
Proof. induction s as [|a s IH]; simpl; [done|]. by f_equal. Qed.

(** No two templates share a name. *)
Lemma template_name_inj a b l m : template_name a l = template_name b m → a = b ∧ l = m.
Proof.
  intros Heq%(f_equal (λ s, reverse (String.list_ascii_of_string s))). revert Heq.
  unfold template_name. rewrite !list_ascii_app, !reverse_app.
  destruct l, m; simpl; unfold reverse; simpl; intros Heq; simplify_eq; split; try done;
    rewrite <-(String.string_of_list_ascii_of_string a), <-(String.string_of_list_ascii_of_string b);
    f_equal; apply (inj reverse); unfold reverse; done.
Qed.

Section renderer_proofs.
Context `{Minijinja}.

Record compile_inv (ps : list LoadedPrompt) (s : Prompt) : Prop := {
  compile_catalog id : catalog s !! id = None ↔ id ∉ loaded_id <$> ps;
  compile_names p : p ∈ ps → catalog s !! loaded_id p = Some (prompt_template_names p);
  compile_env p l : p ∈ ps → renderer s !! template_name (loaded_id p) l = Some (loaded_source p l);
}.

Lemma names_get_of p l : names_get (prompt_template_names p) l = template_name (loaded_id p) l.
Proof. by destruct l. Qed.

Lemma compile_ok env p names env' :
  compile env p = Ok (names, env') →
  names = prompt_template_names p ∧
  (∀ l, env' !! template_name (loaded_id p) l = Some (loaded_source p l)) ∧
  (∀ id l, id ≠ loaded_id p → env' !! template_name id l = env !! template_name id l).
Proof.
  unfold compile, add_template. cbn [try_fold PromptLayer_ORDERED]. rewrite !names_get_of.
  intros Hc. res_inv. split; [done|].
  split.
  - intros l. destruct l; repeat first [by rewrite lookup_insert_eq
      | rewrite lookup_insert_ne by (by intros [_ ?]%template_name_inj)].
  - intros id l Hid. by rewrite !lookup_insert_ne by (intros [? _]%template_name_inj; congruence).
Qed.

Lemma compile_step_inv ps s p s' :
  loaded_id p ∉ loaded_id <$> ps → compile_inv ps s → compile_step s p = Ok s' → compile_inv (ps ++ [p]) s'.
Proof.
  intros Hnew [Hcat Hnames Henv]. unfold compile_step.
  destruct (compile (renderer s) p) as [[names env']|] eqn:E; [|done]. intros [= <-].
  apply compile_ok in E as (-> & Hsame & Hother).
  assert (∀ q, q ∈ ps → loaded_id q ≠ loaded_id p) as Hne.
  { intros q Hq Heq. apply Hnew. rewrite <-Heq. by apply list_elem_of_fmap_2. }
  split; simpl.
  - intros id. rewrite lookup_insert_None, Hcat, fmap_app, not_elem_of_app. simpl.
    rewrite list_elem_of_singleton. naive_solver.
  - intros q [Hq| ->%list_elem_of_singleton]%elem_of_app; [|by rewrite lookup_insert_eq].
    rewrite lookup_insert_ne by (by apply not_eq_sym, Hne). by apply Hnames.
  - intros q l [Hq| ->%list_elem_of_singleton]%elem_of_app; [|done].
    rewrite Hother by (by apply Hne). by apply Henv.
Qed.

Lemma compile_all ps s :
  NoDup (loaded_id <$> ps) →
  try_fold compile_step {| catalog := ∅; renderer := ∅ |} ps = Ok s → compile_inv ps s.
Proof.
  intros Hnd. apply (try_fold_prefix_ind compile_inv).
  - split; simpl; [|by intros ? ?%not_elem_of_nil|by intros ? ? ?%not_elem_of_nil].
    intros id. rewrite lookup_empty. split; [by intros _ ?%not_elem_of_nil|done].
  - intros pre p suf s1 s2 -> Hinv Hs. eapply compile_step_inv; [|done..].
    rewrite fmap_app, fmap_cons in Hnd. apply NoDup_app in Hnd as (_ & Hdis & _).
    intros Hin. apply (Hdis _ Hin). set_solver.
Qed.

(** A catalog that was built answers every prompt it loaded with its own three templates, in the order
    system, user, system, each rendered with the variables of the call: no template is missing or shadowed by
    another prompt's, and a prompt it did not load is reported as not found. *)
Theorem render_own_templates `{Files} config prompt cat :
  (max_total_template_bytes config + max_template_bytes config <= U64_MAX)%N →
  load_catalog config = Ok cat → Prompt_new config = Ok prompt →
  (∀ p l, p ∈ loaded_prompts cat →
    renderer prompt !! template_name (loaded_id p) l = Some (loaded_source p l)) ∧
  (∀ p vars, p ∈ loaded_prompts cat →
    let text l := map_err (Prompt_TemplateRender (loaded_id p) l)
      (mj_eval (renderer prompt) (template_name (loaded_id p) l) vars) in
    inner_render prompt {| spec_prompt_id := loaded_id p; spec_vars := vars |} =
    let? csi := text Csi in let? rc := text Rc in let? fti := text Fti in
    Ok {| rendered_prompt_id := loaded_id p;
          messages := [ChatMessage_system csi; ChatMessage_user rc; ChatMessage_system fti] |}) ∧
  (∀ spec, spec_prompt_id spec ∉ loaded_id <$> loaded_prompts cat →
    inner_render prompt spec = Err (Prompt_NotFound (spec_prompt_id spec))).
Proof.
  intros Hfits Hcat Hnew. unfold Prompt_new in Hnew. rewrite Hcat in Hnew.
  apply compile_all in Hnew as [Hcatalog Hnames Henv].
  2:{ destruct (load_catalog_inv _ Hfits _ Hcat) as (m & s & _ & [Hids _ Hnd _ _ _ _] & _ & -> & _). by rewrite Hids. }
  split; [done|]. split.
  - intros p vars Hp text. unfold inner_render. cbn [spec_prompt_id spec_vars].
    rewrite (Hnames p Hp). cbn [ok_or traverse PromptLayer_ORDERED]. unfold render_layer, text.
    rewrite !names_get_of, !(Henv p) by done.
    repeat (destruct (mj_eval _ _ _); simpl; [|done]). done.
  - intros spec Hspec. unfold inner_render. by rewrite (proj2 (Hcatalog _) Hspec).
Qed.
End renderer_proofs.

(** ** A small catalog *)

(** A directory with a manifest of one prompt and its three templates, read
    at canonical paths; a template renders to its own source. *)
#[local] Instance demo_files : Files := {|
  fs_len _ := Ok 100%N;
  fs_read_to_string _ := Ok "[[prompts]]";
  fs_canonicalize p := Ok ("/srv/" +:+ p);
  fs_take n p := Ok (str_take (N.to_nat n) ("text of " +:+ p));
  toml_manifest _ := Ok [
    {| entry_id := "plan.turn"; entry_csi := "plan/csi.txt"; entry_rc := "plan/rc.txt";
       entry_fti := "plan/fti.txt" |}];
|}.
#[local] Instance demo_minijinja : Minijinja := {|
  mj_compile _ _ := Ok tt;
  mj_not_found name := "no template " +:+ name;
  mj_eval env name _ := ok_or (env !! name) "missing";
|}.

Definition demo_loaded : LoadedPrompt :=
  {| loaded_id := "plan.turn"; loaded_csi := "text of /srv/prompts/plan/csi.txt";
     loaded_rc := "text of /srv/prompts/plan/rc.txt"; loaded_fti := "text of /srv/prompts/plan/fti.txt" |}.
Definition demo_catalog : LoadedCatalog := {| loaded_prompts := [demo_loaded]; total_template_bytes := 98 |}.
Definition demo_prompt : Prompt :=
  {| catalog := {[ "plan.turn" := prompt_template_names demo_loaded ]};
     renderer := {[ "plan.turn/csi" := loaded_csi demo_loaded; "plan.turn/rc" := loaded_rc demo_loaded;
                    "plan.turn/fti" := loaded_fti demo_loaded ]} |}.

(** A template outside the directory is refused. *)
Example demo_parent : resolve_template_path "prompts" "plan.turn" Csi "../secret"
  = Err (Prompt_InvalidTemplatePath "plan.turn" Csi "../secret" "parent_component").
Proof. reflexivity. Qed.

Lemma load_catalog_within_witness :
  load_catalog PromptConfig_default = Ok demo_catalog ∧
  (total_template_bytes demo_catalog <= max_total_template_bytes PromptConfig_default)%N.
Proof.
  assert (load_catalog PromptConfig_default = Ok demo_catalog) as Hl by (vm_compute; reflexivity).
  split; [exact Hl|].
  apply (load_catalog_within PromptConfig_default demo_catalog); [vm_compute; discriminate|exact Hl].
Defined.

Lemma render_own_templates_witness :
  Prompt_new PromptConfig_default = Ok demo_prompt ∧
  ∀ spec, spec_prompt_id spec ∉ loaded_id <$> loaded_prompts demo_catalog →
    inner_render demo_prompt spec = Err (Prompt_NotFound (spec_prompt_id spec)).
Proof.
  assert (Prompt_new PromptConfig_default = Ok demo_prompt) as Hp by (vm_compute; reflexivity).
  split; [exact Hp|].
  apply (render_own_templates PromptConfig_default demo_prompt demo_catalog);
    [vm_compute; discriminate|vm_compute; reflexivity|exact Hp].
Defined.
