(* ===== verification/Script.v ===== *)
(** * Script: a scripted world

    A world in which the model answers from a list, the clock stands still and
    no call is cut short, with the in-memory story store holding one story, in a
    pack that has a narrative graph.  The pipelines are evaluated in it. *)
From S2P Require Import Prelude.
From S2P Require Import Text.
From S2P Require Import Values.
From S2P Require Import Domain.
From S2P Require Import Narrative.
From S2P Require Import Roles.
From S2P Require Import StoryStore.
From S2P Require Import PackStore.
From S2P Require Import Store.
From S2P Require Import Errors.
From S2P Require Import Effects.
From S2P Require Import Prompt.

Record ScriptWorld := {
  script_answers : list string;
  script_packs : gmap PackId StoryPack;
  script_stories : Stories;
  script_events : list TurnEvent;
}.

Definition script_wait {A} (r : result LlmError A) : Wait A :=
  {| cancelled := false; expired := false; ready := r |}.

Definition script_reply (answer : string) : LlmCompletionResponse :=
  {| rsp_content := answer; rsp_finish_reason := Finish_Stop; rsp_usage := None |}.

#[export] Instance script_world : World ScriptWorld := {|
  w_now w := (0%N, w);
  w_acquire _ w := (script_wait (Ok tt), w);
  w_provider _ _ w :=
    match script_answers w with
    | [] => (script_wait (Err Llm_EmptyCompletion), w)
    | answer :: rest =>
        (script_wait (Ok (script_reply answer)),
         {| script_answers := rest; script_packs := script_packs w; script_stories := script_stories w;
            script_events := script_events w |})
    end;
  w_first w := (true, w);
|}.

#[export] Instance script_sink : TurnEventSink ScriptWorld := λ e w,
  {| script_answers := script_answers w; script_packs := script_packs w; script_stories := script_stories w;
     script_events := script_events w ++ [e] |}.

(** A serialiser writing one chunk per role. *)
#[export] Instance script_role_json : RoleJson :=
  {| json_chunks := λ rs, (λ e, e.1 +:+ role_name (role_spec e.2)) <$> entries rs;
     json_failure := λ _, None |}.

#[export] Instance script_store : StoreAccess ScriptWorld := {|
  w_get_pack ref w := (ok_or (script_packs w !! ref_pack_id ref) NotFound, w);
  w_load sid w := (load (script_stories w) sid, w);
  w_find_committed sid key w := (find_committed (script_stories w) sid key, w);
  w_commit c w :=
    let '(r, stories) := commit StoryStoreConfig_default (script_stories w) 0 c in
    (r, {| script_answers := script_answers w; script_packs := script_packs w; script_stories := stories;
           script_events := script_events w |});
|}.

(** Every template renders to its own source. *)
#[export] Instance script_minijinja : Minijinja := {|
  mj_compile _ _ := Ok tt;
  mj_not_found name := "no template " +:+ name;
  mj_eval env name _ := ok_or (env !! name) "missing";
|}.

Definition script_layers (id : string) : LoadedPrompt :=
  {| loaded_id := id; loaded_csi := "system"; loaded_rc := "user"; loaded_fti := "format" |}.

Definition script_prompts (ids : list string) : Prompt :=
  match try_fold compile_step {| catalog := ∅; renderer := ∅ |} (map script_layers ids) with
  | Ok p => p
  | Err _ => {| catalog := ∅; renderer := ∅ |}
  end.

(** The harbour story with the narrative of the gate. *)
Definition script_pack : StoryPack :=
  {| pack_spec := pack_spec demo_pack; pack_id := pack_id demo_pack; pack_meta := pack_meta demo_pack;
     pack_profile := pack_profile demo_pack; pack_roles := pack_roles demo_pack; play := play demo_pack;
     pack_opening := pack_opening demo_pack; seed_facts := ∅; seed_rumors := ∅;
     pack_constraints := ["Nobody dies."]; pack_narrative := Some demo_graph |}.

Definition script_story : StoryContext :=
  apply_narrative (initial_context (bundle_instance demo_bundle)) (Replaced (initial_state demo_graph)).

(** The store with a story created from a bundle, its context as given. *)
Definition script_stored (bundle : StoryCreateBundle) (c : StoryContext) : Stories :=
  {[ "story-1" := {| context := c; info := initial_info (bundle_instance bundle) 0; committed := ∅ |} ]}.

Definition script_start (replies : list string) : ScriptWorld :=
  {| script_answers := replies; script_packs := {[ "harbour" := script_pack ]};
     script_stories := script_stored demo_bundle script_story; script_events := [] |}.

Definition script_llm : LlmConfig :=
  {| llm_provider := Provider_OpenAiCompat; llm_base_url := ""; llm_api_key := ""; llm_model := "m";
     llm_temperature := S754_zero false; llm_timeout_ms := 10000; llm_max_concurrent_calls := 16 |}.

(** The same story with a guard besides the player's character. *)
Definition duo_bundle : StoryCreateBundle :=
  assemble {| snap_pack_ref := demo_pack_ref; snap_pack := script_pack |} "story-1" "Night falls."
    (seed_runtime {["mira" := demo_role; "guard" := demo_role]}) ∅ ∅ "player" "mira" (initial_state demo_graph).
Definition duo_story : StoryContext := initial_context (bundle_instance duo_bundle).
