(* ===== verification/PromptText.v ===== *)
(** * PromptText: what the pipelines write into their prompts

    [pipeline/common/pipeline_prompt.rs], [pipeline/common/config.rs],
    [pipeline/common/validation.rs], [pipeline/common/proposal_quality.rs],
    [pipeline/common/proposal_quality_prompt.rs] and
    [pipeline/common/validation_prompt.rs].  [serde_json::to_string] is the
    class [ToJson]. *)
From S2P Require Import Prelude.
From S2P Require Import Text.
From S2P Require Import Values.
From S2P Require Import Domain.
From S2P Require Import Roles.
From S2P Require Import StoryStore.
From S2P Require Import Errors.

(** [serde_json::to_string]: the text, or the message of the error. *)
Class ToJson (A : Type) := to_json : A → result string string.

(** ** The story so far *)

Definition story_summary (c : StoryContext) : option string :=
  match summary c with
  | Some s => let text := trim (summary_text s) in if is_empty text then None else Some text
  | None => None
  end.

(** Texts trimmed, the empty ones dropped. *)
Definition trimmed (l : list string) : list string :=
  List.filter (λ s, negb (is_empty s)) (map trim l).

Definition turns_story (ts : list Turn) : string :=
  join "

" (trimmed (map turn_segment
      (List.filter (λ t, match turn_status t with Turn_Pass | Turn_Choice => true end) ts))).

Definition recent_story (c : StoryContext) : string := turns_story (recent_turns c).

Definition bullet_list (items : list string) : string :=
  join "
" (map (λ item, "- " +:+ item) (trimmed items)).

Definition narrative_directions (ds : list NarrativeDirection) : string := bullet_list (map dir_focus ds).
Definition story_constraints (cs : list BoundedText) : string := bullet_list cs.
Definition known_facts_with_retrieved (activated retrieved : list FactEntry) : string :=
  bullet_list (map (λ f, fact_content (fact_body f)) (activated ++ retrieved)).
Definition known_facts (fs : list FactEntry) : string := known_facts_with_retrieved fs [].
Definition rumors_with_retrieved (activated retrieved : list RumorEntry) : string :=
  bullet_list (map (λ r, rumor_content (rumor_body r)) (activated ++ retrieved)).
Definition known_rumors (us : list RumorEntry) : string := rumors_with_retrieved us [].

Definition story_opening (c : StoryContext) : string :=
  match story_summary c with Some _ => "" | None => opening c end.

(** ** Errors of a stage *)

Section stage.
Context {A : Type} (stage : PipelineStage).

Definition invalid_output (code message : string) : result PipelineError A :=
  Err (Pipe_InvalidOutput stage code message).
Definition inconsistent_data (code message : string) : result PipelineError A :=
  Err (Pipe_InconsistentData stage code message).
Definition invalid_config (code message : string) : result PipelineError A :=
  Err (Pipe_InvalidConfig stage code message).
End stage.

Definition serialize_as {A} `{ToJson A} (stage : PipelineStage) (value : A) (code : string) :
    result PipelineError string := map_err (Pipe_InconsistentData stage code) (to_json value).

Definition serialize_optional_slice {A} `{ToJson (list A)} (stage : PipelineStage) (value : list A)
    (code : string) : result PipelineError string :=
  match value with [] => Ok "" | _ => serialize_as stage value code end.

(** ** The validation loop's configuration *)

Definition MAX_REPAIR_ROUNDS_LIMIT : N := 8.
Record ValidationLoopConfig := { max_repair_rounds : N }.
Definition ValidationLoopConfig_default : ValidationLoopConfig := {| max_repair_rounds := 2 |}.

Definition ValidationLoopConfig_validate (c : ValidationLoopConfig) : result PipelineError unit :=
  fail_if (MAX_REPAIR_ROUNDS_LIMIT <? max_repair_rounds c)%N
  with Pipe_InvalidConfig Stage_Validate "validation_max_repair_rounds_exceeded"
    ("max_repair_rounds must not exceed " +:+ pretty MAX_REPAIR_ROUNDS_LIMIT) in
  Ok tt.

(** ** Validation reports *)

Record ValidationContext := {
  story_goal : BoundedText;
  val_contribution : PlayerContribution;
  val_directions : list NarrativeDirection;
  val_constraints : list BoundedText;
  val_knowledge : ActivatedKnowledge;
  val_retrieved_facts : list FactEntry;
  val_retrieved_rumors : list RumorEntry;
  val_role_ids : list RoleId;
  val_decisions : list CharacterDecision;
}.

Record ValidationCheckResult := {
  check_name : string; check_description : string; passed : bool; check_issue : option BoundedText }.
Record ValidationScoreResult := {
  score_name : string;
  score_description : string;
  min_score : f64;
  max_score : f64;
  target_score : f64;
  score : f64;
  score_issue : option BoundedText;
}.
Record ValidationReport := {
  proposal_version : N;
  checks : list ValidationCheckResult;
  scores : list ValidationScoreResult;
}.

Inductive ValidationIssue :=
| Issue_Check (name : string) (message : BoundedText)
| Issue_Score (name : string) (current_score target : f64) (message : BoundedText).

(** [score.score < score.target_score] and [score.score >= score.target_score]:
    a number that is not a number is neither. *)
Definition unmet (s : ValidationScoreResult) : bool := SFltb (score s) (target_score s).
Definition meets (s : ValidationScoreResult) : bool := SFleb (target_score s) (score s).

Definition all_checks_pass (r : ValidationReport) : bool := forallb passed (checks r).
Definition all_scores_meet_target (r : ValidationReport) : bool := forallb meets (scores r).
Definition unmet_score_count (r : ValidationReport) : N := nlen (List.filter unmet (scores r)).

(** [failed_issues]: [None] where [expect] panics, on a failure without an
    issue. *)
Definition check_failure (c : ValidationCheckResult) : option ValidationIssue :=
  Issue_Check (check_name c) <$> check_issue c.
Definition score_failure (s : ValidationScoreResult) : option ValidationIssue :=
  Issue_Score (score_name s) (score s) (target_score s) <$> score_issue s.
Definition failed_issues (r : ValidationReport) : option (list ValidationIssue) :=
  cs ← mapM check_failure (List.filter (λ c, negb (passed c)) (checks r));
  ss ← mapM score_failure (List.filter unmet (scores r));
  Some (cs ++ ss).

(** ** The quality policy *)

Record ProposalCheckCriterion := { check_criterion_name : string; check_criterion_description : string }.
Record ProposalScoreCriterion := {
  score_criterion_name : string;
  score_criterion_description : string;
  criterion_min : f64;
  criterion_max : f64;
  criterion_target : f64;
  target_guidance : string;
}.
Record ProposalQualityPolicy := {
  policy_checks : list ProposalCheckCriterion; policy_scores : list ProposalScoreCriterion }.

Record ProposalQualityPrompt := { check_criteria : string; score_criteria : string }.

Section quality.
Context `{ToJson (list ProposalCheckCriterion), ToJson (list ProposalScoreCriterion)}.

Definition project_proposal_quality (stage : PipelineStage) (policy : ProposalQualityPolicy) :
    result PipelineError ProposalQualityPrompt :=
  let? cs := serialize_optional_slice stage (policy_checks policy) "proposal_quality_serialization" in
  let? ss := serialize_optional_slice stage (policy_scores policy) "proposal_quality_serialization" in
  Ok {| check_criteria := cs; score_criteria := ss |}.
End quality.

(** ** The evidence of the validation prompts *)

Record RolePromptView := {
  view_role_id : RoleId;
  view_name : BoundedText;
  view_aliases : list BoundedText;
  view_profile : CharacterProfile;
  view_backstory : BoundedText;
}.

Definition role_view (r : RoleEntry) : RolePromptView :=
  {| view_role_id := role_id r; view_name := role_name (role_spec r); view_aliases := alias (role_spec r);
     view_profile := role_profile r; view_backstory := backstory (role_spec r) |}.

Definition missing_role_code (stage : PipelineStage) : string :=
  match stage with
  | Stage_Validate => "validate_role_missing"
  | Stage_Repair => "repair_role_missing"
  | _ => "validation_role_missing"
  end.

Definition resolve_role (stage : PipelineStage) (c : StoryContext) (rid : RoleId) :
    result PipelineError RoleEntry :=
  ok_or (roles c !! rid) (Pipe_InconsistentData stage (missing_role_code stage)
    ("role ID " +:+ rid +:+ " is missing from the story context")).

Record ValidationPromptEvidence := {
  ev_story_summary : string;
  ev_story_opening : string;
  ev_recent_story : string;
  ev_story_goal : string;
  ev_player_contribution : string;
  ev_narrative_directions : string;
  ev_story_constraints : string;
  ev_activated_facts : string;
  ev_activated_rumors : string;
  ev_retrieved_facts : string;
  ev_retrieved_rumors : string;
  ev_player_role : string;
  ev_resolved_roles : string;
  ev_character_decisions : string;
}.

Section evidence.
Context `{ToJson RolePromptView, ToJson (list RolePromptView), ToJson (list CharacterDecision)}.

Definition project_validation_evidence (stage : PipelineStage) (c : StoryContext) (v : ValidationContext) :
    result PipelineError ValidationPromptEvidence :=
  let? player_role := resolve_role stage c (player c) in
  let? views := traverse (λ rid, let? role := resolve_role stage c rid in Ok (role_view role)) (val_role_ids v) in
  let? player_json := serialize_as stage (role_view player_role) "validation_player_role_serialization" in
  let? roles_json := serialize_optional_slice stage views "validation_resolved_roles_serialization" in
  let? decisions_json :=
    serialize_optional_slice stage (val_decisions v) "validation_character_decisions_serialization" in
  Ok {| ev_story_summary := default "" (story_summary c);
        ev_story_opening := story_opening c;
        ev_recent_story := recent_story c;
        ev_story_goal := story_goal v;
        ev_player_contribution := processed (val_contribution v);
        ev_narrative_directions := narrative_directions (val_directions v);
        ev_story_constraints := story_constraints (val_constraints v);
        ev_activated_facts := known_facts (act_facts (val_knowledge v));
        ev_activated_rumors := known_rumors (act_rumors (val_knowledge v));
        ev_retrieved_facts := known_facts (val_retrieved_facts v);
        ev_retrieved_rumors := known_rumors (val_retrieved_rumors v);
        ev_player_role := player_json;
        ev_resolved_roles := roles_json;
        ev_character_decisions := decisions_json |}.
End evidence.

(** ** Lemmas *)
Lemma elem_of_trimmed s l : s ∈ trimmed l ↔ ∃ t, t ∈ l ∧ s = trim t ∧ is_empty s = false.
Proof.
  unfold trimmed. rewrite list_elem_of_In, List.filter_In, in_map_iff. split.
  - intros [(t & <- & Ht) Hne]. exists t. by rewrite list_elem_of_In, <-negb_true_iff.
  - intros (t & Ht & -> & Hne). rewrite Hne. split; [|done]. exists t. by rewrite <-list_elem_of_In.
Qed.

(** A score that is a number either meets its target or is unmet. *)
Definition comparable (s : ValidationScoreResult) : Prop :=
  score s ≠ S754_nan ∧ target_score s ≠ S754_nan.

Lemma SFcompare_not_nan x y : x ≠ S754_nan → y ≠ S754_nan → SFcompare x y ≠ None.
Proof. by destruct x as [[]|[]| |[] ? ?], y as [[]|[]| |[] ? ?]; intros ? ?; simpl; try done; repeat case_match. Qed.

(** When every failure has an issue, [failed_issues] does not panic and lists
    the failed checks and the unmet scores in order. *)
Definition issues_present (r : ValidationReport) : Prop :=
  (∀ c, c ∈ checks r → passed c = false → is_Some (check_issue c)) ∧
  (∀ s, s ∈ scores r → unmet s = true → is_Some (score_issue s)).

Lemma failed_issues_total r : issues_present r → is_Some (failed_issues r).
Proof.
  intros [Hc Hs]. unfold failed_issues.
  destruct (mapM check_failure _) as [cs|] eqn:E1; simpl.
  - destruct (mapM score_failure _) as [ss|] eqn:E2; simpl; [by eexists|].
    apply mapM_None_1 in E2. apply Exists_exists in E2 as (s & Hin & Hnone).
    apply list_elem_of_In, List.filter_In in Hin as [Hin Hun]. apply list_elem_of_In in Hin.
    unfold score_failure in Hnone. destruct (Hs s Hin Hun) as [i Hi]. by rewrite Hi in Hnone.
  - apply mapM_None_1 in E1. apply Exists_exists in E1 as (c & Hin & Hnone).
    apply list_elem_of_In, List.filter_In in Hin as [Hin Hf%negb_true_iff]. apply list_elem_of_In in Hin.
    unfold check_failure in Hnone. destruct (Hc c Hin Hf) as [i Hi]. by rewrite Hi in Hnone.
Qed.
