(* ===== verification/ExtractKnowledge.v ===== *)
(** * ExtractKnowledge: from what the model proposes to a knowledge change

    [pipeline/extract/config.rs] and [pipeline/extract/extract_knowledge.rs]:
    the views written into the prompts, the allocation of identifiers for new
    entries, and the checks that turn proposals into change operations. *)
From S2P Require Import Prelude.
From S2P Require Import Text.
From S2P Require Import Values.
From S2P Require Import Domain.
From S2P Require Import Roles.
From S2P Require Import StoryStore.
From S2P Require Import Errors.
From S2P Require Import PromptText.

Record ExtractConfig := {
  max_fact_changes : N;
  max_rumor_changes : N;
  max_roles_for_memory : N;
  max_memory_changes_per_role : N;
  max_memory_concurrency : N;
}.
Definition ExtractConfig_default : ExtractConfig :=
  {| max_fact_changes := 8; max_rumor_changes := 8; max_roles_for_memory := 4;
     max_memory_changes_per_role := 4; max_memory_concurrency := 4 |}.
Definition ExtractConfig_validate (c : ExtractConfig) : result PipelineError unit := Ok tt.

(** ** Views of the story *)

(** [FactView], [RumorView] and [RoleMemoryView]. *)
Record FactView := {
  fv_id : FactId; fv_content : BoundedText; fv_retrieval : RetrievalHint; fv_activation : ActivationRule }.
Record RumorView := {
  uv_id : RumorId; uv_content : BoundedText; uv_retrieval : RetrievalHint; uv_activation : ActivationRule }.
Record RoleMemoryView := {
  mv_id : MemoryId; mv_content : BoundedText; mv_retrieval : RetrievalHint; mv_activation : ActivationRule }.
Record ExtractRoleCatalogEntry := {
  cat_role_id : RoleId;
  cat_name : BoundedText;
  cat_aliases : list BoundedText;
  cat_retrieval_hint : RetrievalHint;
}.

Definition role_unknown (rid : RoleId) : PipelineError :=
  Pipe_InvalidOutput Stage_Extract "extract_role_unknown"
    ("role " +:+ rid +:+ " does not exist in story context").

Definition project_facts (c : StoryContext) : list FactView :=
  map (λ e, {| fv_id := fact_id e; fv_content := fact_content (fact_body e);
               fv_retrieval := fact_retrieval (fact_body e);
               fv_activation := fact_activation (fact_body e) |}) (values (facts c)).
Definition project_rumors (c : StoryContext) : list RumorView :=
  map (λ e, {| uv_id := rumor_id e; uv_content := rumor_content (rumor_body e);
               uv_retrieval := rumor_retrieval (rumor_body e);
               uv_activation := rumor_activation (rumor_body e) |}) (values (rumors c)).
Definition project_role_catalog (c : StoryContext) : list ExtractRoleCatalogEntry :=
  map (λ r, {| cat_role_id := role_id r; cat_name := role_name (role_spec r);
               cat_aliases := alias (role_spec r);
               cat_retrieval_hint := role_retrieval (role_spec r) |}) (values (roles c)).
Definition project_role_memories (c : StoryContext) (rid : RoleId) :
    result PipelineError (list RoleMemoryView) :=
  let? role := ok_or (roles c !! rid) (role_unknown rid) in
  Ok (map (λ e, {| mv_id := memory_id e; mv_content := memory_content (memory_body e);
                   mv_retrieval := memory_retrieval (memory_body e);
                   mv_activation := memory_activation (memory_body e) |}) (values (memories role))).

(** ** Proposals *)

Inductive FactProposal :=
| FactProposal_Add (body : FactBody)
| FactProposal_Update (id : FactId) (body : FactBody).
Inductive RumorProposal :=
| RumorProposal_Add (body : RumorBody)
| RumorProposal_Update (id : RumorId) (body : RumorBody)
| RumorProposal_Remove (id : RumorId).
Inductive RoleMemoryProposal :=
| MemoryProposal_Add (body : MemoryBody)
| MemoryProposal_Update (id : MemoryId) (body : MemoryBody).

Record WorldKnowledgeExtraction := {
  world_facts : list FactChangeOp;
  world_rumors : list RumorChangeOp;
  roles_for_memory : list RoleId;
}.

(** ** Identifiers of new entries *)

(** The loop that tries candidates until one is free.  There are only as many
    taken identifiers as entries and reservations, so that many retries are
    enough. *)
Fixpoint allocate_go (try_new : string → result CoreError string) (code : string) (name : N → string)
    (taken : string → bool) (retries : nat) (candidate_seq : N) : result PipelineError string :=
  let? candidate := map_err (λ e, Pipe_InconsistentData Stage_Extract code (CoreError_to_string e))
    (try_new (name candidate_seq)) in
  if negb (taken candidate) then Ok candidate
  else match retries with
       | O => Ok candidate
       | S k => allocate_go try_new code name taken k (candidate_seq + 1)
       end.

Definition taken_in {V} (m : gmap string V) (reserved : gset string) (id : string) : bool :=
  bool_decide (is_Some (m !! id)) || bool_decide (id ∈ reserved).

Definition numbered (prefix : string) (turn : TurnNumber) (seq : N) : string :=
  prefix +:+ pretty turn +:+ "_" +:+ pretty seq.

Section allocate.
Context (c : StoryContext) (next_turn : TurnNumber) (seq : N).

Definition allocate_fact_id_with_reserved (reserved : gset FactId) : result PipelineError FactId :=
  allocate_go FactId_try_new "extract_fact_id_allocation" (numbered "fact_t" next_turn)
    (taken_in (facts c) reserved) (size (facts c) + size reserved) (N.max seq 1).
Definition allocate_rumor_id_with_reserved (reserved : gset RumorId) : result PipelineError RumorId :=
  allocate_go RumorId_try_new "extract_rumor_id_allocation" (numbered "rumor_t" next_turn)
    (taken_in (rumors c) reserved) (size (rumors c) + size reserved) (N.max seq 1).
Definition allocate_memory_id_with_reserved (rid : RoleId) (reserved : gset MemoryId) :
    result PipelineError MemoryId :=
  let? role := ok_or (roles c !! rid) (role_unknown rid) in
  allocate_go MemoryId_try_new "extract_memory_id_allocation" (numbered "mem_t" next_turn)
    (taken_in (memories role) reserved) (size (memories role) + size reserved) (N.max seq 1).

Definition allocate_fact_id : result PipelineError FactId := allocate_fact_id_with_reserved ∅.
Definition allocate_rumor_id : result PipelineError RumorId := allocate_rumor_id_with_reserved ∅.
Definition allocate_memory_id (rid : RoleId) : result PipelineError MemoryId :=
  allocate_memory_id_with_reserved rid ∅.
End allocate.

(** ** Resolving proposals *)

Definition validate_activation_rule (rule : ActivationRule) : result PipelineError unit :=
  fail_if enabled (mode rule) && negb (constant (mode rule)) &&
    bool_decide (keys_ (match_rule rule) = [])
  with Pipe_InvalidOutput Stage_Extract "extract_activation_rule_invalid"
    "activation rule with mode.enabled=true and mode.constant=false must have non-empty match.keys" in
  Ok tt.

(** The variables of a resolving loop. *)
Record ResolveState (Op : Type) := {
  targeted : gset string;
  reserved : gset string;
  add_seq : N;
  ops : list Op;
}.
Arguments targeted {Op}.
Arguments reserved {Op}.
Arguments add_seq {Op}.
Arguments ops {Op}.

Definition resolve_start {Op} : ResolveState Op :=
  {| targeted := ∅; reserved := ∅; add_seq := 0; ops := [] |}.

(** An addition under a new identifier and an operation on an existing one. *)
Definition push_add {Op} (s : ResolveState Op) (id : string) (op : Op) : ResolveState Op :=
  {| targeted := targeted s; reserved := {[ id ]} ∪ reserved s; add_seq := add_seq s + 1;
     ops := ops s ++ [op] |}.
Definition push_target {Op} (s : ResolveState Op) (id : string) (op : Op) : ResolveState Op :=
  {| targeted := {[ id ]} ∪ targeted s; reserved := reserved s; add_seq := add_seq s;
     ops := ops s ++ [op] |}.

Definition extract_invalid (code message : string) : PipelineError :=
  Pipe_InvalidOutput Stage_Extract code message.

Section resolve.
Context (c : StoryContext) (next_turn : TurnNumber).

Definition resolve_fact (s : ResolveState FactChangeOp) (p : FactProposal) :
    result PipelineError (ResolveState FactChangeOp) :=
  match p with
  | FactProposal_Add body =>
      let? _ := validate_activation_rule (fact_activation body) in
      let seq := (add_seq s + 1)%N in
      let? id := if bool_decide (reserved s = ∅) then allocate_fact_id c next_turn seq
                 else allocate_fact_id_with_reserved c next_turn seq (reserved s) in
      Ok (push_add s id (FactAdd id body))
  | FactProposal_Update id body =>
      fail_if bool_decide (facts c !! id = None)
      with extract_invalid "extract_fact_unknown_id" ("fact " +:+ id +:+ " does not exist in story context") in
      fail_if bool_decide (id ∈ targeted s)
      with extract_invalid "extract_fact_duplicate_id" ("fact " +:+ id +:+ " was updated more than once") in
      let? _ := validate_activation_rule (fact_activation body) in
      Ok (push_target s id (FactUpdate id body))
  end.

Definition target_rumor (s : ResolveState RumorChangeOp) (id : RumorId) : result PipelineError unit :=
  fail_if bool_decide (rumors c !! id = None)
  with extract_invalid "extract_rumor_unknown_id" ("rumor " +:+ id +:+ " does not exist in story context") in
  fail_if bool_decide (id ∈ targeted s)
  with extract_invalid "extract_rumor_duplicate_id" ("rumor " +:+ id +:+ " was targeted more than once") in
  Ok tt.

Definition resolve_rumor (s : ResolveState RumorChangeOp) (p : RumorProposal) :
    result PipelineError (ResolveState RumorChangeOp) :=
  match p with
  | RumorProposal_Add body =>
      let? _ := validate_activation_rule (rumor_activation body) in
      let seq := (add_seq s + 1)%N in
      let? id := if bool_decide (reserved s = ∅) then allocate_rumor_id c next_turn seq
                 else allocate_rumor_id_with_reserved c next_turn seq (reserved s) in
      Ok (push_add s id (RumorAdd id body))
  | RumorProposal_Update id body =>
      let? _ := target_rumor s id in
      let? _ := validate_activation_rule (rumor_activation body) in
      Ok (push_target s id (RumorUpdate id body))
  | RumorProposal_Remove id =>
      let? _ := target_rumor s id in
      Ok (push_target s id (RumorRemove id))
  end.

Definition resolve_memory (rid : RoleId) (role : RoleEntry) (s : ResolveState RoleMemoryChangeOp)
    (p : RoleMemoryProposal) : result PipelineError (ResolveState RoleMemoryChangeOp) :=
  match p with
  | MemoryProposal_Add body =>
      let? _ := validate_activation_rule (memory_activation body) in
      let seq := (add_seq s + 1)%N in
      let? id := if bool_decide (reserved s = ∅) then allocate_memory_id c next_turn seq rid
                 else allocate_memory_id_with_reserved c next_turn seq rid (reserved s) in
      Ok (push_add s id (MemoryAdd rid id body))
  | MemoryProposal_Update id body =>
      fail_if bool_decide (memories role !! id = None)
      with extract_invalid "extract_memory_unknown_id"
        ("memory " +:+ id +:+ " does not exist for role " +:+ rid) in
      fail_if bool_decide (id ∈ targeted s)
      with extract_invalid "extract_memory_duplicate_id"
        ("memory " +:+ id +:+ " was updated more than once for role " +:+ rid) in
      let? _ := validate_activation_rule (memory_activation body) in
      Ok (push_target s id (MemoryUpdate rid id body))
  end.

(** The last loop, over the roles whose memories will be extracted. *)
Definition resolve_role_step (seen : gset RoleId) (rid : RoleId) : result PipelineError (gset RoleId) :=
  fail_if bool_decide (roles c !! rid = None) with role_unknown rid in
  fail_if bool_decide (rid ∈ seen)
  with extract_invalid "extract_role_duplicate"
    ("role " +:+ rid +:+ " was selected more than once in roles_for_memory") in
  Ok ({[ rid ]} ∪ seen).

End resolve.

Definition exceeded_message (what : string) (actual limit : N) : string :=
  what +:+ " " +:+ pretty actual +:+ " exceeded limit " +:+ pretty limit.

Definition resolve_world_knowledge (c : StoryContext) (config : ExtractConfig)
    (fact_proposals : list FactProposal) (rumor_proposals : list RumorProposal) (selected : list RoleId) :
    result PipelineError WorldKnowledgeExtraction :=
  fail_if (max_fact_changes config <? nlen fact_proposals)%N
  with extract_invalid "extract_fact_changes_exceeded"
    (exceeded_message "fact changes" (nlen fact_proposals) (max_fact_changes config)) in
  fail_if (max_rumor_changes config <? nlen rumor_proposals)%N
  with extract_invalid "extract_rumor_changes_exceeded"
    (exceeded_message "rumor changes" (nlen rumor_proposals) (max_rumor_changes config)) in
  fail_if (max_roles_for_memory config <? nlen selected)%N
  with extract_invalid "extract_roles_for_memory_exceeded"
    (exceeded_message "roles_for_memory" (nlen selected) (max_roles_for_memory config)) in
  let next_turn := increment (ctx_turn_number c) in
  let? fs := try_fold (resolve_fact c next_turn) resolve_start fact_proposals in
  let? us := try_fold (resolve_rumor c next_turn) resolve_start rumor_proposals in
  let? _ := try_fold (resolve_role_step c) ∅ selected in
  Ok {| world_facts := ops fs; world_rumors := ops us; roles_for_memory := selected |}.

Definition resolve_role_memories (c : StoryContext) (config : ExtractConfig) (rid : RoleId)
    (proposals : list RoleMemoryProposal) : result PipelineError (list RoleMemoryChangeOp) :=
  let? role := ok_or (roles c !! rid) (role_unknown rid) in
  fail_if (max_memory_changes_per_role config <? nlen proposals)%N
  with extract_invalid "extract_memory_changes_exceeded"
    ("memory changes " +:+ pretty (nlen proposals) +:+ " for role " +:+ rid +:+ " exceeded limit " +:+
     pretty (max_memory_changes_per_role config)) in
  let next_turn := increment (ctx_turn_number c) in
  let? s := try_fold (resolve_memory c next_turn rid role) resolve_start proposals in
  Ok (ops s).

Definition assemble_knowledge_change (world : WorldKnowledgeExtraction)
    (role_memories : list (list RoleMemoryChangeOp)) : KnowledgeChange :=
  {| kc_facts := world_facts world; kc_rumors := world_rumors world; kc_memories := concat role_memories |}.
