(* ===== verification/ExtractProofs.v ===== *)
(** * ExtractProofs: identifiers are new, and proposals become good changes

    A loop that resolves proposals is described once, by [resolves]: each
    proposal is rejected or pushes one operation, under a new identifier or on
    an existing one not targeted before.  The three loops of
    [extract_knowledge.rs] are instances. *)
From S2P Require Import Prelude.
From S2P Require Import Text.
From S2P Require Import Values.
From S2P Require Import Domain.
From S2P Require Import Roles.
From S2P Require Import StoryStore.
From S2P Require Import StoryLog.
From S2P Require Import Errors.
From S2P Require Import PromptText.
From S2P Require Import ExtractKnowledge.

(** ** The allocation loop *)

Section allocate_go.
Context (try_new : string → result CoreError string) (code : string) (name : N → string).
Context (Hname : ∀ n, try_new (name n) = Ok (name n)).

Lemma allocate_go_free `{!Inj (=) (=) name} taken retries seq (T : gset string) :
  (∀ n, (seq <= n)%N → taken (name n) = bool_decide (name n ∈ T)) → size T ≤ retries →
  ∃ n, allocate_go try_new code name taken retries seq = Ok (name n) ∧ (seq <= n)%N ∧ name n ∉ T ∧
    (n <= seq + N.of_nat (size T))%N ∧ ∀ m, (seq <= m < n)%N → name m ∈ T.
Proof.
  revert T seq. induction retries as [|k IH]; intros T seq Htaken Hsize; simpl;
    rewrite Hname; simpl; rewrite Htaken by lia.
  - assert (T = ∅) as -> by (apply leibniz_equiv, size_empty_iff; lia).
    exists seq. rewrite bool_decide_eq_false_2 by (by apply not_elem_of_empty). split_and!; try done; lia.
  - destruct (bool_decide_reflect (name seq ∈ T)) as [Hin|Hni]; simpl.
    2:{ exists seq. split_and!; try done; lia. }
    destruct (IH (T ∖ {[ name seq ]}) (seq + 1)%N) as (n & -> & Hge & Hni & Hle & Hbelow).
    + intros n Hn. rewrite Htaken by lia. apply bool_decide_ext.
      rewrite elem_of_difference, elem_of_singleton. split; [|tauto].
      intros ?. split; [done|]. intros ->%(inj name). lia.
    + rewrite size_difference, size_singleton by set_solver. lia.
    + rewrite size_difference, size_singleton in Hle by set_solver.
      assert (size T ≠ 0) by (apply size_non_empty_iff; set_solver).
      exists n. split; [done|]. split; [lia|]. split.
      { intros ?. apply Hni. rewrite elem_of_difference, elem_of_singleton. split; [done|].
        intros ->%(inj name). lia. }
      split; [lia|]. intros m Hm. destruct (decide (m = seq)) as [->|]; [done|].
      specialize (Hbelow m ltac:(lia)). set_solver.
Qed.
End allocate_go.

#[global] Instance numbered_inj prefix turn : Inj (=) (=) (numbered prefix turn).
Proof. intros m n H. unfold numbered in H. by repeat apply (inj _) in H. Qed.

(** An allocation succeeds, and the identifier is the first free one of its
    series. *)
Definition first_free {V} (m : gmap string V) (reserved : gset string) (name : N → string) (seq : N)
    (id : string) : Prop :=
  ∃ n, id = name n ∧ (seq <= n)%N ∧ m !! id = None ∧ id ∉ reserved ∧
    ∀ k, (seq <= k < n)%N → is_Some (m !! name k) ∨ name k ∈ reserved.

Lemma allocate_numbered {V} (try_new : string → result CoreError string) code prefix turn (m : gmap string V)
    (reserved : gset string) seq :
  (∀ n, try_new (numbered prefix turn n) = Ok (numbered prefix turn n)) →
  ∃ id, allocate_go try_new code (numbered prefix turn) (taken_in m reserved)
      (size m + size reserved) (N.max seq 1) = Ok id ∧
    first_free m reserved (numbered prefix turn) (N.max seq 1) id.
Proof.
  intros Htry.
  destruct (allocate_go_free try_new code (numbered prefix turn) Htry (taken_in m reserved)
    (size m + size reserved) (N.max seq 1) (dom m ∪ reserved)) as (n & -> & Hge & Hni & _ & Hbelow).
  - intros n _. unfold taken_in. rewrite <-bool_decide_or. apply bool_decide_ext.
    by rewrite elem_of_union, elem_of_dom.
  - rewrite size_union_alt. rewrite <-size_dom. pose proof (subseteq_size (reserved ∖ dom m) reserved ltac:(set_solver)). lia.
  - exists (numbered prefix turn n). split; [done|]. exists n. rewrite not_elem_of_union, not_elem_of_dom in Hni.
    destruct Hni. split_and!; try done. intros k Hk. rewrite <-elem_of_dom, <-elem_of_union. by apply Hbelow.
Qed.

Lemma id_try_new_numbered field prefix turn n a s :
  prefix = String a s → (byte_val a < 128)%N → is_whitespace (byte_val a) = false →
  id_try_new field (numbered prefix turn n) = Ok (numbered prefix turn n).
Proof. intros -> Ha Hw. apply id_try_new_nonblank. by apply not_blank_head. Qed.

(** ** Loops that resolve proposals *)

Section resolves.
Context {P Op : Type} (f : ResolveState Op → P → result PipelineError (ResolveState Op)).

(** [target p] is the existing entry a proposal names, [op_of p id] the
    operation it becomes, [good] what is checked of it, [existing] and [fresh]
    classify identifiers. *)
Context (target : P → option string) (op_of : P → string → Op) (good : P → Prop).
Context (existing fresh : string → Prop).

Record resolves : Prop := {
  step_add s p : target p = None → good p →
    ∃ id, f s p = Ok (push_add s id (op_of p id)) ∧ fresh id ∧ id ∉ reserved s;
  step_target s p id : target p = Some id → good p → id ∉ targeted s →
    f s p = Ok (push_target s id (op_of p id));
  step_ok s p s' : f s p = Ok s' → good p ∧ ∀ id, target p = Some id → id ∉ targeted s;
  good_target p id : good p → target p = Some id → existing id;
  fresh_new id : fresh id → ¬ existing id;
}.

Context (Hf : resolves).

Lemma resolve_loop_iff l :
  (∃ s', try_fold f resolve_start l = Ok s') ↔ (∀ p, p ∈ l → good p) ∧ NoDup (omap target l).
Proof.
  assert (∀ s, (∃ s', try_fold f s l = Ok s') ↔
    (∀ p, p ∈ l → good p) ∧ NoDup (omap target l) ∧ ∀ id, id ∈ omap target l → id ∉ targeted s) as Hgen.
  { induction l as [|p l IH]; intros s; cbn [try_fold].
    - split; [|eauto]. intros _. split; [by intros ? ?%not_elem_of_nil|].
      split; [constructor|]. by intros ? ?%not_elem_of_nil.
    - destruct (f s p) as [s1|e] eqn:Hp.
      + destruct (step_ok Hf _ _ _ Hp) as [Hg Ht].
        assert (∀ Q : Prop, (∀ q, q ∈ l → good q) ∧ Q ↔ (∀ q, q ∈ p :: l → good q) ∧ Q) as Hcons.
        { intros Q. split; intros [Hl HQ]; (split; [|done]); intros q Hq.
          - apply elem_of_cons in Hq as [->|Hq]; [done|by apply Hl].
          - apply Hl. by right. }
        rewrite IH, <-Hcons. apply and_iff_compat_l. simpl.
        destruct (target p) as [id|] eqn:Htp.
        * rewrite (step_target Hf s p id) in Hp by eauto. injection Hp as <-. simpl.
          rewrite NoDup_cons. specialize (Ht id eq_refl). set_solver.
        * destruct (step_add Hf s p) as (id & Hp' & _); [done..|]. rewrite Hp' in Hp. by injection Hp as <-.
      + split; [by intros [? ?]|]. intros (Hg & Hnd & Ht). simpl in Hnd, Ht.
        destruct (target p) as [id|] eqn:Htp.
        * rewrite (step_target Hf s p id) in Hp; [done..|apply Hg; by left|apply Ht; by left].
        * destruct (step_add Hf s p) as (id & Hp' & _); [done|apply Hg; by left|]. by rewrite Hp' in Hp. }
  rewrite Hgen. split; [tauto|]. intros [? ?]. split_and!; [done..|].
  intros id _ Hin. by apply not_elem_of_empty in Hin.
Qed.

(** What one proposal became. *)
Definition resolved (p : P) (id : string) : Prop :=
  match target p with Some t => id = t ∧ existing id | None => fresh id end.

Record loop_inv (pre : list P) (s : ResolveState Op) (ids : list string) : Prop := {
  inv_resolved : Forall2 resolved pre ids;
  inv_ops : ops s = zip_with op_of pre ids;
  inv_nodup : NoDup ids;
  inv_seen id : id ∈ ids → existing id ∧ id ∈ targeted s ∨ fresh id ∧ id ∈ reserved s;
}.

Lemma loop_inv_snoc pre s ids p id s' :
  loop_inv pre s ids → resolved p id → id ∉ ids → ops s' = ops s ++ [op_of p id] →
  (∀ i, i ∈ ids ++ [id] → existing i ∧ i ∈ targeted s' ∨ fresh i ∧ i ∈ reserved s') →
  loop_inv (pre ++ [p]) s' (ids ++ [id]).
Proof.
  intros [Hr Ho Hnd _] Hp Hni Hops Hseen. split.
  - apply Forall2_app; [done|]. by constructor.
  - rewrite Hops, Ho, zip_with_app; [done|]. by eapply Forall2_length.
  - apply NoDup_app. split; [done|]. split; [|apply NoDup_singleton].
    by intros i Hi ->%list_elem_of_singleton.
  - done.
Qed.

Lemma resolve_loop_ok l s' :
  try_fold f resolve_start l = Ok s' → ∃ ids, loop_inv l s' ids.
Proof.
  apply (try_fold_prefix_ind (λ pre s, ∃ ids, loop_inv pre s ids)).
  - exists []. split; [constructor|done|constructor|]. by intros ? ?%not_elem_of_nil.
  - intros pre p suf s s1 _ [ids Hinv] Hp. pose proof (inv_seen _ _ _ Hinv) as Hseen.
    destruct (step_ok Hf _ _ _ Hp) as [Hg Ht]. destruct (target p) as [id|] eqn:Htp.
    + rewrite (step_target Hf s p id) in Hp by eauto. injection Hp as <-. exists (ids ++ [id]).
      assert (existing id) as Hex by (by eapply good_target). specialize (Ht id eq_refl).
      apply loop_inv_snoc with s; [done|unfold resolved; by rewrite Htp| |done|].
      * intros [[_ ?]|[Hfr _]]%Hseen; [done|]. by eapply fresh_new.
      * intros i [Hi| ->%list_elem_of_singleton]%elem_of_app; simpl; [|set_solver].
        apply Hseen in Hi. set_solver.
    + destruct (step_add Hf s p) as (id & Hp' & Hfr & Hnr); [done..|]. rewrite Hp' in Hp. injection Hp as <-.
      exists (ids ++ [id]). apply loop_inv_snoc with s; [done|unfold resolved; by rewrite Htp| |done|].
      * intros [[Hex _]|[_ ?]]%Hseen; [|done]. by eapply fresh_new.
      * intros i [Hi| ->%list_elem_of_singleton]%elem_of_app; simpl; [|set_solver].
        apply Hseen in Hi. set_solver.
Qed.
End resolves.

(** ** The three loops *)

(** A rule that is switched on and not constant has keys to match. *)
Definition rule_usable (r : ActivationRule) : Prop :=
  enabled (mode r) = true → constant (mode r) = false → keys_ (match_rule r) ≠ [].

Lemma validate_activation_rule_ok r : validate_activation_rule r = Ok tt ↔ rule_usable r.
Proof.
  unfold validate_activation_rule, rule_usable.
  destruct (enabled (mode r)), (constant (mode r)), (bool_decide_reflect (keys_ (match_rule r) = []));
    simpl; naive_solver.
Qed.

(** The result of a check that is [Ok tt] or fails. *)
Lemma unit_ok {E} (r : result E unit) : r = Ok tt ∨ ∃ e, r = Err e.
Proof. destruct r as [[]|e]; eauto. Qed.

Definition fact_target (p : FactProposal) : option FactId :=
  match p with FactProposal_Add _ => None | FactProposal_Update id _ => Some id end.
Definition fact_op_of (p : FactProposal) (id : FactId) : FactChangeOp :=
  match p with FactProposal_Add b => FactAdd id b | FactProposal_Update _ b => FactUpdate id b end.
Definition fact_proposal_good (c : StoryContext) (p : FactProposal) : Prop :=
  match p with
  | FactProposal_Add b => rule_usable (fact_activation b)
  | FactProposal_Update id b => is_Some (facts c !! id) ∧ rule_usable (fact_activation b)
  end.

Definition rumor_target (p : RumorProposal) : option RumorId :=
  match p with RumorProposal_Add _ => None | RumorProposal_Update id _ | RumorProposal_Remove id => Some id end.
Definition rumor_op_of (p : RumorProposal) (id : RumorId) : RumorChangeOp :=
  match p with
  | RumorProposal_Add b => RumorAdd id b
  | RumorProposal_Update _ b => RumorUpdate id b
  | RumorProposal_Remove _ => RumorRemove id
  end.
Definition rumor_proposal_good (c : StoryContext) (p : RumorProposal) : Prop :=
  match p with
  | RumorProposal_Add b => rule_usable (rumor_activation b)
  | RumorProposal_Update id b => is_Some (rumors c !! id) ∧ rule_usable (rumor_activation b)
  | RumorProposal_Remove id => is_Some (rumors c !! id)
  end.

Definition memory_target (p : RoleMemoryProposal) : option MemoryId :=
  match p with MemoryProposal_Add _ => None | MemoryProposal_Update id _ => Some id end.
Definition memory_op_of (rid : RoleId) (p : RoleMemoryProposal) (id : MemoryId) : RoleMemoryChangeOp :=
  match p with MemoryProposal_Add b => MemoryAdd rid id b | MemoryProposal_Update _ b => MemoryUpdate rid id b end.
Definition memory_proposal_good (role : RoleEntry) (p : RoleMemoryProposal) : Prop :=
  match p with
  | MemoryProposal_Add b => rule_usable (memory_activation b)
  | MemoryProposal_Update id b => is_Some (memories role !! id) ∧ rule_usable (memory_activation b)
  end.

(** A new identifier: of the series of the turn, and not in the map. *)
Definition fresh_in {V} (m : gmap string V) (prefix : string) (turn : TurnNumber) (id : string) : Prop :=
  m !! id = None ∧ ∃ n, id = numbered prefix turn n.
Definition known {V} (m : gmap string V) (id : string) : Prop := is_Some (m !! id).

Lemma fresh_not_known {V} (m : gmap string V) prefix turn id : fresh_in m prefix turn id → ¬ known m id.
Proof. unfold known. intros [-> _] [? ?]. done. Qed.

Lemma first_free_fresh {V} (m : gmap string V) r prefix turn seq id :
  first_free m r (numbered prefix turn) seq id → fresh_in m prefix turn id ∧ id ∉ r.
Proof. intros (n & -> & _ & Hm & Hr & _). split; [|done]. split; eauto. Qed.

(** Takes the branch that allocates without reservations as the general one. *)
Lemma reserved_branch {Op A} (s : ResolveState Op) (g : gset string → A) :
  (if bool_decide (reserved s = ∅) then g ∅ else g (reserved s)) = g (reserved s).
Proof. case_bool_decide as H; [by rewrite H|done]. Qed.

(** The first check of a step that succeeded. *)
Ltac checked H :=
  match type of H with
  | (match ?r with Ok _ => _ | Err _ => _ end) = Ok _ =>
      destruct (unit_ok r) as [E|[e E]]; rewrite E in H; [|done]
  end.
Ltac id_candidate := by intros; eapply id_try_new_numbered.

Section loops.
Context (c : StoryContext) (next_turn : TurnNumber).

Lemma resolve_fact_resolves :
  resolves (resolve_fact c next_turn) fact_target fact_op_of (fact_proposal_good c)
    (known (facts c)) (fresh_in (facts c) "fact_t" next_turn).
Proof.
  split.
  - intros s [b|] Ht Hg; [|done]. simpl in *. rewrite (proj2 (validate_activation_rule_ok _) Hg).
    unfold allocate_fact_id. rewrite (reserved_branch s (allocate_fact_id_with_reserved c next_turn _)).
    destruct (allocate_numbered FactId_try_new "extract_fact_id_allocation" "fact_t" next_turn (facts c)
      (reserved s) (add_seq s + 1)) as (id & Ha & [? ?]%first_free_fresh); [id_candidate|].
    exists id. unfold allocate_fact_id_with_reserved. by rewrite Ha.
  - intros s [|id' b] id [= ->] [[e He] Hr] Hn. simpl. rewrite He, !bool_decide_eq_false_2 by done.
    by rewrite (proj2 (validate_activation_rule_ok _) Hr).
  - intros s [b|id b] s' Hs; simpl in *.
    + checked Hs.
      split; [by apply validate_activation_rule_ok|done].
    + case_bool_decide; [done|]. case_bool_decide; [done|].
      checked Hs.
      split; [split; [by apply not_eq_None_Some|by apply validate_activation_rule_ok]|]. by intros ? [= <-].
  - by intros [b|id' b] id Hg [= ->]; destruct Hg.
  - apply fresh_not_known.
Qed.

Lemma target_rumor_ok s id :
  target_rumor c s id = Ok tt ↔ known (rumors c) id ∧ id ∉ targeted s.
Proof.
  unfold target_rumor, known. rewrite <-not_eq_None_Some. repeat case_bool_decide; naive_solver.
Qed.

Lemma resolve_rumor_resolves :
  resolves (resolve_rumor c next_turn) rumor_target rumor_op_of (rumor_proposal_good c)
    (known (rumors c)) (fresh_in (rumors c) "rumor_t" next_turn).
Proof.
  split.
  - intros s [b| |] Ht Hg; [|done..]. simpl in *. rewrite (proj2 (validate_activation_rule_ok _) Hg).
    unfold allocate_rumor_id. rewrite (reserved_branch s (allocate_rumor_id_with_reserved c next_turn _)).
    destruct (allocate_numbered RumorId_try_new "extract_rumor_id_allocation" "rumor_t" next_turn (rumors c)
      (reserved s) (add_seq s + 1)) as (id & Ha & [? ?]%first_free_fresh); [id_candidate|].
    exists id. unfold allocate_rumor_id_with_reserved. by rewrite Ha.
  - intros s [|id' b|id'] id [= ->] Hg Hn; simpl in *.
    + destruct Hg as [Hk Hr]. rewrite (proj2 (target_rumor_ok s id) (conj Hk Hn)).
      by rewrite (proj2 (validate_activation_rule_ok _) Hr).
    + by rewrite (proj2 (target_rumor_ok s id) (conj Hg Hn)).
  - intros s [b|id b|id] s' Hs; simpl in *.
    + checked Hs.
      split; [by apply validate_activation_rule_ok|done].
    + checked Hs.
      apply target_rumor_ok in E as [Hk Hn].
      checked Hs.
      split; [split; [done|by apply validate_activation_rule_ok]|]. by intros ? [= <-].
    + checked Hs.
      apply target_rumor_ok in E as [Hk Hn]. split; [done|]. by intros ? [= <-].
  - intros [b|id' b|id'] id Hg [= ->]; [by destruct Hg|done].
  - apply fresh_not_known.
Qed.

Lemma resolve_memory_resolves rid role :
  roles c !! rid = Some role →
  resolves (resolve_memory c next_turn rid role) memory_target (memory_op_of rid) (memory_proposal_good role)
    (known (memories role)) (fresh_in (memories role) "mem_t" next_turn).
Proof.
  intros Hrole. split.
  - intros s [b|] Ht Hg; [|done]. simpl in *. rewrite (proj2 (validate_activation_rule_ok _) Hg).
    unfold allocate_memory_id. rewrite (reserved_branch s (allocate_memory_id_with_reserved c next_turn _ rid)).
    destruct (allocate_numbered MemoryId_try_new "extract_memory_id_allocation" "mem_t" next_turn (memories role)
      (reserved s) (add_seq s + 1)) as (id & Ha & [? ?]%first_free_fresh); [id_candidate|].
    exists id. unfold allocate_memory_id_with_reserved. rewrite Hrole. simpl. by rewrite Ha.
  - intros s [|id' b] id [= ->] [[e He] Hr] Hn. simpl. rewrite He, !bool_decide_eq_false_2 by done.
    by rewrite (proj2 (validate_activation_rule_ok _) Hr).
  - intros s [b|id b] s' Hs; simpl in *.
    + checked Hs.
      split; [by apply validate_activation_rule_ok|done].
    + case_bool_decide; [done|]. case_bool_decide; [done|].
      checked Hs.
      split; [split; [by apply not_eq_None_Some|by apply validate_activation_rule_ok]|]. by intros ? [= <-].
  - by intros [b|id' b] id Hg [= ->]; destruct Hg.
  - apply fresh_not_known.
Qed.
End loops.

(** ** Accepted proposals *)
Lemma resolve_role_step_ok c s rid s' :
  resolve_role_step c s rid = Ok s' ↔ rid ∉ s ∧ is_Some (roles c !! rid) ∧ s' = {[ rid ]} ∪ s.
Proof.
  unfold resolve_role_step. rewrite <-not_eq_None_Some. repeat case_bool_decide; naive_solver.
Qed.

(** What [resolve_world_knowledge] accepts. *)
Definition world_proposals_good (c : StoryContext) (config : ExtractConfig)
    (fps : list FactProposal) (ups : list RumorProposal) (rids : list RoleId) : Prop :=
  (nlen fps <= max_fact_changes config)%N ∧ (nlen ups <= max_rumor_changes config)%N ∧
  (nlen rids <= max_roles_for_memory config)%N ∧
  ((∀ p, p ∈ fps → fact_proposal_good c p) ∧ NoDup (omap fact_target fps)) ∧
  ((∀ p, p ∈ ups → rumor_proposal_good c p) ∧ NoDup (omap rumor_target ups)) ∧
  (NoDup rids ∧ ∀ rid, rid ∈ rids → is_Some (roles c !! rid)).

Lemma resolve_world_iff c config fps ups rids :
  (∃ x, resolve_world_knowledge c config fps ups rids = Ok x) ↔ world_proposals_good c config fps ups rids.
Proof.
  unfold world_proposals_good, resolve_world_knowledge. set (turn := increment _).
  rewrite <-(resolve_loop_iff _ _ _ _ _ _ (resolve_fact_resolves c turn) fps).
  rewrite <-(resolve_loop_iff _ _ _ _ _ _ (resolve_rumor_resolves c turn) ups).
  pose proof (seen_loop (λ rid : RoleId, rid) _ _ rids (resolve_role_step_ok c)) as Hroles.
  rewrite list_fmap_id in Hroles. rewrite <-Hroles.
  destruct (N.ltb_spec (max_fact_changes config) (nlen fps)); [split; [by intros [? ?]|lia]|].
  destruct (N.ltb_spec (max_rumor_changes config) (nlen ups)); [split; [by intros [? ?]|lia]|].
  destruct (N.ltb_spec (max_roles_for_memory config) (nlen rids)); [split; [by intros [? ?]|lia]|].
  destruct (try_fold (resolve_fact c turn) _ _); [|naive_solver].
  destruct (try_fold (resolve_rumor c turn) _ _); [|naive_solver].
  destruct (try_fold (resolve_role_step c) _ _); naive_solver.
Qed.

(** How the operations answer the proposals: one for one, in order, additions
    under new identifiers of the coming turn, no identifier twice. *)
Definition answers {P Op} (target : P → option string) (op_of : P → string → Op)
    (existing fresh : string → Prop) (ps : list P) (os : list Op) : Prop :=
  ∃ ids, Forall2 (resolved target existing fresh) ps ids ∧ os = zip_with op_of ps ids ∧ NoDup ids.

Definition fact_answers (c : StoryContext) : list FactProposal → list FactChangeOp → Prop :=
  answers fact_target fact_op_of (known (facts c))
    (fresh_in (facts c) "fact_t" (increment (ctx_turn_number c))).
Definition rumor_answers (c : StoryContext) : list RumorProposal → list RumorChangeOp → Prop :=
  answers rumor_target rumor_op_of (known (rumors c))
    (fresh_in (rumors c) "rumor_t" (increment (ctx_turn_number c))).
Definition memory_answers (c : StoryContext) (rid : RoleId) (role : RoleEntry) :
    list RoleMemoryProposal → list RoleMemoryChangeOp → Prop :=
  answers memory_target (memory_op_of rid) (known (memories role))
    (fresh_in (memories role) "mem_t" (increment (ctx_turn_number c))).

Lemma answers_of {P Op} (f : ResolveState Op → P → result PipelineError (ResolveState Op))
    target op_of good existing fresh l s :
  resolves f target op_of good existing fresh → try_fold f resolve_start l = Ok s →
  answers target op_of existing fresh l (ops s).
Proof. intros Hf Hl. destruct (resolve_loop_ok _ _ _ _ _ _ Hf _ _ Hl) as [ids [? ? ? _]]. by exists ids. Qed.

Lemma resolve_world_ok c config fps ups rids x :
  resolve_world_knowledge c config fps ups rids = Ok x →
  fact_answers c fps (world_facts x) ∧ rumor_answers c ups (world_rumors x) ∧ roles_for_memory x = rids.
Proof.
  unfold resolve_world_knowledge. intros H. res_inv. split; [|split; [|done]].
  - by eapply answers_of; [apply resolve_fact_resolves|].
  - by eapply answers_of; [apply resolve_rumor_resolves|].
Qed.

Lemma resolve_role_memories_iff c config rid proposals :
  (∃ os, resolve_role_memories c config rid proposals = Ok os) ↔
  ∃ role, roles c !! rid = Some role ∧ (nlen proposals <= max_memory_changes_per_role config)%N ∧
    (∀ p, p ∈ proposals → memory_proposal_good role p) ∧ NoDup (omap memory_target proposals).
Proof.
  unfold resolve_role_memories. destruct (roles c !! rid) as [role|] eqn:Hrole; [|naive_solver]. simpl.
  set (turn := increment _).
  pose proof (resolve_loop_iff _ _ _ _ _ _ (resolve_memory_resolves c turn rid role Hrole) proposals) as Hiff.
  destruct (N.ltb_spec (max_memory_changes_per_role config) (nlen proposals)).
  { split; [by intros [? ?]|]. intros (? & [= <-] & ? & _). lia. }
  destruct (try_fold (resolve_memory c turn rid role) _ _); naive_solver.
Qed.

Lemma resolve_role_memories_ok c config rid proposals os :
  resolve_role_memories c config rid proposals = Ok os →
  ∃ role, roles c !! rid = Some role ∧ memory_answers c rid role proposals os.
Proof.
  unfold resolve_role_memories. intros H. destruct (roles c !! rid) as [role|] eqn:Hrole; [|done].
  simpl in H. res_inv. exists role. split; [done|]. by eapply answers_of; [apply resolve_memory_resolves|].
Qed.

(** ** Extracted changes are accepted by the story store *)
Lemma answers_ops {P Op} (target : P → option string) (op_of : P → string → Op) existing fresh ps os :
  answers target op_of existing fresh ps os →
  ∃ ids, NoDup ids ∧ Forall2 (λ o id, ∃ p, o = op_of p id ∧ resolved target existing fresh p id) os ids.
Proof.
  intros (ids & Hr & -> & Hnd). exists ids. split; [done|]. clear Hnd.
  induction Hr as [|p id ps ids Hp _ IH]; simpl; constructor; eauto.
Qed.

Lemma answers_good {P Op K} (key : Op → K) (mk : string → K) `{!Inj (=) (=) mk} (good : Op → Prop)
    (target : P → option string) (op_of : P → string → Op) existing fresh ps os :
  (∀ p id, key (op_of p id) = mk id) →
  (∀ p id, resolved target existing fresh p id → good (op_of p id)) →
  answers target op_of existing fresh ps os →
  NoDup (key <$> os) ∧ ∀ o, o ∈ os → good o.
Proof.
  intros Hkey Hgood (ids & Hnd & Hos)%answers_ops.
  assert (key <$> os = mk <$> ids) as ->.
  { clear Hnd. induction Hos as [|o id os ids (p & -> & _) _ IH]; [done|]. by rewrite !fmap_cons, Hkey, IH. }
  split; [by apply NoDup_fmap|]. intros o Ho. apply list_elem_of_lookup in Ho as [i Hi].
  destruct (Forall2_lookup_l _ _ _ _ _ Hos Hi) as (id & _ & p & -> & Hr). by apply Hgood.
Qed.

Lemma fact_answers_good c ps os :
  fact_answers c ps os → NoDup (fact_op_id <$> os) ∧ ∀ o, o ∈ os → fact_op_good c o.
Proof.
  apply (answers_good fact_op_id (λ id, id)); [by intros []|].
  intros [b|id' b] id; unfold resolved; simpl; [by intros [? _]|by intros [_ ?]].
Qed.

Lemma rumor_answers_good c ps os :
  rumor_answers c ps os → NoDup (rumor_op_id <$> os) ∧ ∀ o, o ∈ os → rumor_op_good c o.
Proof.
  apply (answers_good rumor_op_id (λ id, id)); [by intros []|].
  intros [b|id' b|id'] id; unfold resolved; simpl; [by intros [? _]|by intros [_ ?]..].
Qed.

Lemma memory_answers_good c rid role ps os :
  roles c !! rid = Some role → memory_answers c rid role ps os →
  NoDup (memory_op_key <$> os) ∧ ∀ o, o ∈ os → memory_op_good c o ∧ (memory_op_key o).1 = rid.
Proof.
  intros Hrole. apply (answers_good memory_op_key (pair rid)); [by intros []|].
  intros [b|id' b] id; unfold resolved; simpl; [intros [? _]|intros [_ ?]]; (split; [|done]); by exists role.
Qed.

(** The memory changes of one selected role. *)
Definition memories_of (c : StoryContext) (rid : RoleId) (os : list RoleMemoryChangeOp) : Prop :=
  NoDup (memory_op_key <$> os) ∧ ∀ o, o ∈ os → memory_op_good c o ∧ (memory_op_key o).1 = rid.

Lemma memories_of_resolved c config rid ps os :
  resolve_role_memories c config rid ps = Ok os → memories_of c rid os.
Proof. intros (role & Hrole & Ha)%resolve_role_memories_ok. by eapply memory_answers_good. Qed.

Lemma memories_concat c rids mss :
  NoDup rids → Forall2 (memories_of c) rids mss →
  NoDup (memory_op_key <$> concat mss) ∧
  ∀ o, o ∈ concat mss → memory_op_good c o ∧ (memory_op_key o).1 ∈ rids.
Proof.
  intros Hnd Hall. induction Hall as [|rid os rids mss [Hos Hgood] Hall IH]; simpl.
  - split; [constructor|]. by intros ? ?%not_elem_of_nil.
  - apply NoDup_cons in Hnd as [Hrid Hnd]. destruct (IH Hnd) as [IHnd IHgood]. rewrite fmap_app. split.
    + apply NoDup_app. split; [done|]. split; [|done].
      intros k (o & -> & Ho)%list_elem_of_fmap (o' & Heq & Ho')%list_elem_of_fmap.
      destruct (Hgood _ Ho) as [_ H1]. destruct (IHgood _ Ho') as [_ H2]. rewrite <-Heq, H1 in H2. done.
    + intros o [Ho|Ho]%elem_of_app; [destruct (Hgood _ Ho) as [? ->]; set_solver|].
      destruct (IHgood _ Ho). set_solver.
Qed.

Lemma assembled_change_good c config fps ups rids world mss :
  resolve_world_knowledge c config fps ups rids = Ok world →
  Forall2 (memories_of c) (roles_for_memory world) mss →
  change_good c (assemble_knowledge_change world mss).
Proof.
  intros Hw Hm. destruct (proj1 (resolve_world_iff c config fps ups rids) ltac:(eauto))
    as (_ & _ & _ & _ & _ & Hnd & _).
  apply resolve_world_ok in Hw as (Hf & Hu & Hr). rewrite Hr in Hm.
  split; [by eapply fact_answers_good|]. split; [by eapply rumor_answers_good|].
  destruct (memories_concat c rids mss Hnd Hm) as [? Hg]. split; [done|]. intros o Ho. by apply Hg.
Qed.
