(* ===== verification/Extract.v ===== *)
(** * Extract: the extraction stage

    [pipeline/extract/extract_prompt.rs], [pipeline/extract/extract_llm.rs],
    [pipeline/extract/extract_narrative.rs] and
    [pipeline/extract/extract.rs]: what is asked of the model about an accepted
    proposal, how its answers are parsed and checked, and the change to the
    story they make. *)
From S2P Require Import Prelude.
From S2P Require Import Text.
From S2P Require Import Values.
From S2P Require Import Domain.
From S2P Require Import Narrative.
From S2P Require Import Roles.
From S2P Require Import StoryStore.
From S2P Require Import StoryLog.
From S2P Require Import Errors.
From S2P Require Import Effects.
From S2P Require Import Prompt.
From S2P Require Import PromptText.
From S2P Require Import ExtractKnowledge.
From S2P Require Import ExtractProofs.
From S2P Require Import Script.

(** ** What the model answers *)

Record SemanticEvaluationDto := { dto_condition_id : NarrativeConditionId; dto_truth : Truth }.

Inductive FactProposalDto :=
| FactDto_Add (body : FactBody)
| FactDto_Update (id : FactId) (body : FactBody).
Inductive RumorProposalDto :=
| RumorDto_Add (body : RumorBody)
| RumorDto_Update (id : RumorId) (body : RumorBody)
| RumorDto_Remove (id : RumorId).
Inductive RoleMemoryProposalDto :=
| MemoryDto_Add (body : MemoryBody)
| MemoryDto_Update (id : MemoryId) (body : MemoryBody).

Record WorldKnowledgeLlmDto := {
  dto_facts : list FactProposalDto;
  dto_rumors : list RumorProposalDto;
  dto_roles_for_memory : list RoleId;
}.

(** [serde_json::from_str] at the three types of answers. *)
Class ExtractJson := {
  evaluations_from_str : string → result JsonError (list SemanticEvaluationDto);
  world_from_str : string → result JsonError WorldKnowledgeLlmDto;
  memories_from_str : string → result JsonError (list RoleMemoryProposalDto);
}.

Definition at_position (e : JsonError) : string :=
  " at line " +:+ pretty (json_line e) +:+ " column " +:+ pretty (json_column e).

Section parse.
Context `{ExtractJson}.

Definition evaluation_step (expected : gset NarrativeConditionId) (m : gmap NarrativeConditionId Truth)
    (e : SemanticEvaluationDto) : result PipelineError (gmap NarrativeConditionId Truth) :=
  let id := dto_condition_id e in
  fail_if bool_decide (is_Some (m !! id))
  with extract_invalid "extract_narrative_duplicate_condition"
    ("condition " +:+ id +:+ " was returned more than once") in
  fail_if negb (bool_decide (id ∈ expected))
  with extract_invalid "extract_narrative_unknown_condition" ("condition " +:+ id +:+ " was not requested") in
  Ok (<[ id := dto_truth e ]> m).

Definition missing_conditions (qs : list SemanticQuery) (m : gmap NarrativeConditionId Truth) :
    list NarrativeConditionId :=
  map query_id (List.filter (λ q, bool_decide (m !! query_id q = None)) qs).

Definition parse_narrative_evaluations (text : string) (qs : list SemanticQuery) :
    result PipelineError (gmap NarrativeConditionId Truth) :=
  let? output := map_err (λ e, extract_invalid "extract_narrative_invalid_json"
    ("invalid narrative evaluation JSON" +:+ at_position e)) (evaluations_from_str text) in
  let expected := list_to_set (map query_id qs) in
  let? evaluations := try_fold (evaluation_step expected) ∅ output in
  let missing := missing_conditions qs evaluations in
  fail_if negb (bool_decide (missing = []))
  with extract_invalid "extract_narrative_missing_condition"
    ("missing narrative conditions: " +:+ join ", " missing) in
  Ok evaluations.

Definition fact_proposal_of (d : FactProposalDto) : FactProposal :=
  match d with
  | FactDto_Add body => FactProposal_Add body
  | FactDto_Update id body => FactProposal_Update id body
  end.
Definition rumor_proposal_of (d : RumorProposalDto) : RumorProposal :=
  match d with
  | RumorDto_Add body => RumorProposal_Add body
  | RumorDto_Update id body => RumorProposal_Update id body
  | RumorDto_Remove id => RumorProposal_Remove id
  end.
Definition memory_proposal_of (d : RoleMemoryProposalDto) : RoleMemoryProposal :=
  match d with
  | MemoryDto_Add body => MemoryProposal_Add body
  | MemoryDto_Update id body => MemoryProposal_Update id body
  end.

Definition parse_world_knowledge (text : string) (c : StoryContext) (config : ExtractConfig) :
    result PipelineError WorldKnowledgeExtraction :=
  let? dto := map_err (λ e, extract_invalid "extract_world_invalid_json"
    ("invalid world knowledge JSON" +:+ at_position e +:+ ": " +:+ json_message e)) (world_from_str text) in
  resolve_world_knowledge c config (map fact_proposal_of (dto_facts dto))
    (map rumor_proposal_of (dto_rumors dto)) (dto_roles_for_memory dto).

Definition parse_role_memory (text : string) (c : StoryContext) (rid : RoleId) (config : ExtractConfig) :
    result PipelineError (list RoleMemoryChangeOp) :=
  let? dto := map_err (λ e, extract_invalid "extract_memory_invalid_json"
    ("invalid role memory JSON for role " +:+ rid +:+ at_position e +:+ ": " +:+ json_message e))
    (memories_from_str text) in
  resolve_role_memories c config rid (map memory_proposal_of dto).

End parse.

(** ** The narrative *)

Record NarrativeChange := {
  change_narrative : Change NarrativeState; change_life_cycle : Change StoryLifeCycle }.

Definition collect_semantic_queries (pack : StoryPack) (c : StoryContext) :
    result NarrativeError (list SemanticQuery) :=
  match pack_narrative pack with
  | Some graph => let? plan := graph_plan graph (narrative c) in Ok (queries plan)
  | None => Ok []
  end.

Definition resolve_narrative (pack : StoryPack) (c : StoryContext)
    (answers : gmap NarrativeConditionId Truth) : NarrativeChange :=
  match pack_narrative pack with
  | None => {| change_narrative := Unchanged; change_life_cycle := Unchanged |}
  | Some graph =>
      let evidence := {| ev_turn := increment (ctx_turn_number c); semantic_results := answers |} in
      let resolution := resolve graph (narrative c) evidence in
      {| change_narrative :=
           match transitions resolution with
           | [] => Unchanged
           | ts => Replaced (apply (narrative c) ts)
           end;
         change_life_cycle := if story_completed resolution then Replaced Life_Completed else Unchanged |}
  end.

(** ** The prompts *)

Class ExtractToJson := {
  #[global] json_queries :: ToJson (list SemanticQuery);
  #[global] json_facts :: ToJson (list FactView);
  #[global] json_rumors :: ToJson (list RumorView);
  #[global] json_catalog :: ToJson (list ExtractRoleCatalogEntry);
  #[global] json_aliases :: ToJson (list BoundedText);
  #[global] json_memories :: ToJson (list RoleMemoryView);
}.

Definition story_context_vars (c : StoryContext) : string * string :=
  (default "" (story_summary c), story_opening c).

Section prompts.
Context `{Minijinja, ExtractToJson} (prompt : Prompt).

Definition evaluate_narrative_prompt (c : StoryContext) (proposal : string) (qs : list SemanticQuery) :
    result PipelineError (list ChatMessage) :=
  let '(summary, opening) := story_context_vars c in
  let? semantic_queries := serialize_as Stage_Extract qs "extract_narrative_query_serialization" in
  render_prompt Stage_Extract prompt "extract.evaluate_narrative"
    [("story_summary", Json_String summary); ("story_opening", Json_String opening);
     ("recent_story", Json_String (recent_story c)); ("current_proposal", Json_String proposal);
     ("semantic_queries", Json_String semantic_queries)].

Definition extract_world_knowledge_prompt (c : StoryContext) (proposal : string) (config : ExtractConfig) :
    result PipelineError (list ChatMessage) :=
  let '(summary, opening) := story_context_vars c in
  let? existing_facts := serialize_as Stage_Extract (project_facts c) "extract_world_facts_serialization" in
  let? existing_rumors := serialize_as Stage_Extract (project_rumors c) "extract_world_rumors_serialization" in
  let? role_catalog := serialize_as Stage_Extract (project_role_catalog c) "extract_role_catalog_serialization" in
  render_prompt Stage_Extract prompt "extract.extract_world_knowledge"
    [("story_summary", Json_String summary); ("story_opening", Json_String opening);
     ("recent_story", Json_String (recent_story c)); ("current_proposal", Json_String proposal);
     ("existing_facts", Json_String existing_facts); ("existing_rumors", Json_String existing_rumors);
     ("role_catalog", Json_String role_catalog);
     ("max_fact_changes", Json_Number (max_fact_changes config));
     ("max_rumor_changes", Json_Number (max_rumor_changes config));
     ("max_roles_for_memory", Json_Number (max_roles_for_memory config))].

Definition extract_role_memory_prompt (c : StoryContext) (proposal : string) (rid : RoleId)
    (config : ExtractConfig) : result PipelineError (list ChatMessage) :=
  let? role := ok_or (roles c !! rid) (role_unknown rid) in
  let '(summary, opening) := story_context_vars c in
  let? target_aliases := serialize_as Stage_Extract (alias (role_spec role)) "extract_role_aliases_serialization" in
  let? memory_views := project_role_memories c rid in
  let? existing_memories := serialize_as Stage_Extract memory_views "extract_role_memories_serialization" in
  render_prompt Stage_Extract prompt "extract.extract_role_memory"
    [("story_summary", Json_String summary); ("story_opening", Json_String opening);
     ("recent_story", Json_String (recent_story c)); ("current_proposal", Json_String proposal);
     ("target_role_id", Json_String rid); ("target_name", Json_String (role_name (role_spec role)));
     ("target_aliases", Json_String target_aliases);
     ("target_backstory", Json_String (backstory (role_spec role)));
     ("existing_memories", Json_String existing_memories);
     ("max_memory_changes_per_role", Json_Number (max_memory_changes_per_role config))].
End prompts.

(** ** The stage *)

Record ExtractOutput := {
  out_knowledge_change : KnowledgeChange;
  out_narrative : Change NarrativeState;
  out_life_cycle : Change StoryLifeCycle;
}.

Section extract.
Context {W : Type} `{World W, StoreAccess W, Minijinja, ExtractToJson, ExtractJson}.
Context (gateway : LlmConfig) (prompt : Prompt) (config : ExtractConfig).
Context (c : StoryContext) (proposal : string) (control : TurnControl).

Definition evaluate_narrative_queries (qs : list SemanticQuery) :
    IO W PipelineError (gmap NarrativeConditionId Truth) :=
  let* ms := io_lift (evaluate_narrative_prompt prompt c proposal qs) in
  let* text := ask gateway Stage_Extract ms control in
  io_lift (parse_narrative_evaluations text qs).

Definition evaluate_narrative (pack : StoryPack) : IO W PipelineError NarrativeChange :=
  let* qs := io_lift (map_err (Pipe_Narrative Stage_Extract) (collect_semantic_queries pack c)) in
  let* answers := match qs with [] => io_ret ∅ | _ => evaluate_narrative_queries qs end in
  io_ret (resolve_narrative pack c answers).

Definition extract_world_knowledge : IO W PipelineError WorldKnowledgeExtraction :=
  let* ms := io_lift (extract_world_knowledge_prompt prompt c proposal config) in
  let* text := ask gateway Stage_Extract ms control in
  io_lift (parse_world_knowledge text c config).

Definition extract_role_memory (rid : RoleId) : IO W PipelineError (list RoleMemoryChangeOp) :=
  let* ms := io_lift (extract_role_memory_prompt prompt c proposal rid config) in
  let* text := ask gateway Stage_Extract ms control in
  io_lift (parse_role_memory text c rid config).

Definition extract_role_memories (rids : list RoleId) : IO W PipelineError (list (list RoleMemoryChangeOp)) :=
  match rids with [] => io_ret [] | _ => io_traverse extract_role_memory rids end.

Definition extract_execute : IO W PipelineError ExtractOutput :=
  let* _ := io_lift (ExtractConfig_validate config) in
  let* pack := io_map_err (Pipe_Persistence Stage_Extract) (w_get_pack (pack_ref c)) in
  let* '(change, world) := try_join (evaluate_narrative pack) extract_world_knowledge in
  let* role_memories := extract_role_memories (roles_for_memory world) in
  io_ret {| out_knowledge_change := assemble_knowledge_change world role_memories;
            out_narrative := change_narrative change;
            out_life_cycle := change_life_cycle change |}.

End extract.

(** ** What extraction guarantees *)

(** World knowledge is extracted exactly from the proposals that are within the limits, that name existing
    facts and rumours, each at most once, that carry usable activation rules, and whose selected roles exist
    and are distinct; the operations then answer the proposals one for one in order, additions under new
    identifiers of the coming turn, no identifier twice. *)
Theorem resolve_world_knowledge_spec c config fps ups rids :
  ((∃ x, resolve_world_knowledge c config fps ups rids = Ok x) ↔ world_proposals_good c config fps ups rids) ∧
  ∀ x, resolve_world_knowledge c config fps ups rids = Ok x →
    fact_answers c fps (world_facts x) ∧ rumor_answers c ups (world_rumors x) ∧ roles_for_memory x = rids.
Proof. split; [apply resolve_world_iff|]. intros x. apply resolve_world_ok. Qed.

(** Memories are extracted for a role of the story exactly from the proposals that are within the limit, name
    existing memories of the role, each at most once, and carry usable activation rules; the operations
    answer the proposals one for one in order under that role, additions under new identifiers. *)
Theorem resolve_role_memories_spec c config rid ps :
  ((∃ os, resolve_role_memories c config rid ps = Ok os) ↔
   ∃ role, roles c !! rid = Some role ∧ (nlen ps <= max_memory_changes_per_role config)%N ∧
     (∀ p, p ∈ ps → memory_proposal_good role p) ∧ NoDup (omap memory_target ps)) ∧
  ∀ os, resolve_role_memories c config rid ps = Ok os →
    ∃ role, roles c !! rid = Some role ∧ memory_answers c rid role ps os.
Proof. split; [apply resolve_role_memories_iff|]. intros os. apply resolve_role_memories_ok. Qed.

Definition dto_pair (e : SemanticEvaluationDto) : NarrativeConditionId * Truth :=
  (dto_condition_id e, dto_truth e).

Lemma evaluation_step_ok expected m e m' :
  evaluation_step expected m e = Ok m' ↔
  m !! dto_condition_id e = None ∧ dto_condition_id e ∈ expected ∧
  m' = <[ dto_condition_id e := dto_truth e ]> m.
Proof.
  unfold evaluation_step. rewrite eq_None_not_Some. repeat case_bool_decide; simpl; naive_solver.
Qed.


Lemma evaluations_fold expected es m :
  (∃ m', try_fold (evaluation_step expected) m es = Ok m') ↔
  NoDup (dto_condition_id <$> es) ∧
  ∀ e, e ∈ es → dto_condition_id e ∈ expected ∧ m !! dto_condition_id e = None.
Proof.
  revert m. induction es as [|e es IH]; intros m; cbn [try_fold].
  - split; [|eauto]. intros _. split; [constructor|]. by intros ? ?%not_elem_of_nil.
  - rewrite fmap_cons, NoDup_cons. destruct (evaluation_step expected m e) as [m1|err] eqn:He.
    + apply evaluation_step_ok in He as (Hm & Hex & ->). rewrite IH. split.
      * intros [Hnd Hall]. split; [split; [|done]|].
        { intros (e' & Heq & Hin)%list_elem_of_fmap. destruct (Hall e' Hin) as [_ Hn].
          by rewrite Heq, lookup_insert_eq in Hn. }
        intros e' [->|Hin]%elem_of_cons; [done|]. destruct (Hall e' Hin) as [? Hn]. split; [done|].
        apply lookup_insert_None in Hn. tauto.
      * intros [[Hni Hnd] Hall]. split; [done|]. intros e' Hin. destruct (Hall e') as [? Hn]; [by right|].
        split; [done|]. apply lookup_insert_None. split; [done|]. intros Heq. apply Hni. rewrite Heq.
        by apply list_elem_of_fmap_2.
    + split; [by intros [? ?]|]. intros [_ Hall]. destruct (Hall e) as [Hex Hm]; [by left|].
      assert (∃ m1, evaluation_step expected m e = Ok m1) as [m1 Hok]; [|by rewrite Hok in He].
      eexists. by apply evaluation_step_ok.
Qed.

Lemma evaluations_result expected es m m' :
  NoDup (dto_condition_id <$> es) →
  try_fold (evaluation_step expected) m es = Ok m' → m' = list_to_map (dto_pair <$> es) ∪ m.
Proof.
  revert m. induction es as [|e es IH]; intros m Hnd; cbn [try_fold].
  - intros [= <-]. simpl. by rewrite (left_id_L ∅ (∪)).
  - rewrite fmap_cons, NoDup_cons in Hnd. destruct Hnd as [Hni Hnd].
    destruct (evaluation_step expected m e) as [m1|] eqn:He; [|done].
    apply evaluation_step_ok in He as (_ & _ & ->). intros ->%IH; [|done].
    rewrite fmap_cons. simpl. rewrite <-insert_union_l, insert_union_r; [done|].
    apply not_elem_of_list_to_map_1. by rewrite <-list_fmap_compose.
Qed.

Lemma missing_conditions_nil qs m :
  missing_conditions qs m = [] ↔ ∀ id, id ∈ map query_id qs → is_Some (m !! id).
Proof.
  unfold missing_conditions. split.
  - intros Hnil id (q & <- & Hq%list_elem_of_In)%list_elem_of_In%in_map_iff. apply not_eq_None_Some. intros Hn.
    apply map_eq_nil in Hnil. assert (q ∈ []) as Hin; [|by apply not_elem_of_nil in Hin].
    rewrite <-Hnil, list_elem_of_In, List.filter_In. rewrite <-list_elem_of_In. split; [done|].
    by apply bool_decide_eq_true_2.
  - intros Hall. destruct (List.filter _ qs) as [|q l] eqn:E; [done|]. exfalso.
    assert (In q (List.filter (λ q, bool_decide (m !! query_id q = None)) qs)) as [Hq Hn]%List.filter_In.
    { rewrite E. by left. }
    apply bool_decide_eq_true_1 in Hn. destruct (Hall (query_id q)) as [t Ht]; [|congruence].
    apply list_elem_of_In, in_map_iff. by exists q.
Qed.

(** The answers a parser returns for the queries. *)
Definition evaluations_answer (qs : list SemanticQuery) (output : list SemanticEvaluationDto)
    (m : gmap NarrativeConditionId Truth) : Prop :=
  NoDup (dto_condition_id <$> output) ∧
  (∀ id, id ∈ dto_condition_id <$> output ↔ id ∈ map query_id qs) ∧
  m = list_to_map (dto_pair <$> output).

Lemma dom_evaluations output id :
  is_Some ((list_to_map (dto_pair <$> output) : gmap NarrativeConditionId Truth) !! id) ↔
  id ∈ dto_condition_id <$> output.
Proof.
  rewrite <-not_eq_None_Some, <-not_elem_of_list_to_map, <-list_fmap_compose.
  destruct (decide (id ∈ dto_condition_id <$> output)); tauto.
Qed.

Lemma parse_evaluations_iff `{ExtractJson} text qs m :
  parse_narrative_evaluations text qs = Ok m ↔
  ∃ output, evaluations_from_str text = Ok output ∧ evaluations_answer qs output m.
Proof.
  unfold parse_narrative_evaluations, evaluations_answer.
  destruct (evaluations_from_str text) as [output|e]; simpl; [|naive_solver].
  set (expected := list_to_set (map query_id qs)).
  destruct (try_fold (evaluation_step expected) ∅ output) as [m0|e] eqn:Hfold.
  - destruct (proj1 (evaluations_fold expected output ∅) ltac:(eauto)) as [Hnd Hall].
    apply evaluations_result in Hfold; [|done]. rewrite (right_id_L ∅ (∪)) in Hfold. subst m0.
    assert (∀ id, id ∈ dto_condition_id <$> output → id ∈ map query_id qs) as Hsub.
    { intros id (e & -> & He)%list_elem_of_fmap. destruct (Hall e He) as [Hex _].
      by apply elem_of_list_to_set in Hex. }
    case_bool_decide as Hmiss; simpl; rewrite missing_conditions_nil in Hmiss; setoid_rewrite dom_evaluations in Hmiss.
    + split; [intros [= <-]; exists output; naive_solver|]. by intros (? & [= <-] & _ & _ & ->).
    + split; [done|]. intros (? & [= <-] & _ & Hiff & _). exfalso. apply Hmiss. intros id. apply Hiff.
  - split; [done|]. intros (? & [= <-] & Hnd & Hiff & _).
    destruct (proj2 (evaluations_fold expected output ∅)) as [m0 Hok]; [|congruence].
    split; [done|]. intros ev He. split; [|done]. apply elem_of_list_to_set, Hiff. by apply list_elem_of_fmap_2.
Qed.

(** The model's evaluations are accepted exactly when they answer every query asked, nothing else, and each once;
    the result is what was answered. *)
Theorem parse_narrative_evaluations_spec `{ExtractJson} text qs m :
  parse_narrative_evaluations text qs = Ok m ↔
  ∃ output, evaluations_from_str text = Ok output ∧ evaluations_answer qs output m.
Proof. apply parse_evaluations_iff. Qed.

(** The narrative part of an extraction: the resolution of the pack's graph
    with an answer to exactly the queries of its plan. *)
Definition narrative_resolved (pack : StoryPack) (c : StoryContext) (n : Change NarrativeState)
    (l : Change StoryLifeCycle) : Prop :=
  match pack_narrative pack with
  | None => n = Unchanged ∧ l = Unchanged
  | Some graph => ∃ plan evidence,
      graph_plan graph (narrative c) = Ok plan ∧
      ev_turn evidence = increment (ctx_turn_number c) ∧
      (∀ id, is_Some (semantic_results evidence !! id) ↔ id ∈ query_id <$> queries plan) ∧
      let resolution := resolve graph (narrative c) evidence in
      n = (if decide (transitions resolution = []) then Unchanged
           else Replaced (apply (narrative c) (transitions resolution))) ∧
      l = (if story_completed resolution then Replaced Life_Completed else Unchanged)
  end.

Section execute.
Context {W : Type} `{World W, StoreAccess W, Minijinja, ExtractToJson, ExtractJson}.
Context (gateway : LlmConfig) (prompt : Prompt) (config : ExtractConfig).
Context (c : StoryContext) (proposal : string) (control : TurnControl).

Lemma evaluate_narrative_ok pack (w : W) change w' :
  evaluate_narrative gateway prompt c proposal control pack w = (Ok change, w') →
  narrative_resolved pack c (change_narrative change) (change_life_cycle change).
Proof.
  unfold evaluate_narrative. intros (qs & w1 & Hqs & Hrun)%io_bind_ok. apply io_lift_ok in Hqs as [Hqs ->].
  apply io_bind_ok in Hrun as (answers & w2 & Hans & [= <- <-]).
  assert (∀ id, is_Some (answers !! id) ↔ id ∈ map query_id qs) as Hdom.
  { destruct qs as [|q qs].
    - injection Hans as <- _. intros id. rewrite lookup_empty. split; [by intros [? ?]|by intros ?%not_elem_of_nil].
    - unfold evaluate_narrative_queries in Hans. io_inv.
      match goal with E : parse_narrative_evaluations _ _ = Ok _ |- _ =>
        apply parse_evaluations_iff in E as (output & _ & _ & Hiff & ->) end.
      intros id. by rewrite dom_evaluations, Hiff. }
  unfold narrative_resolved, resolve_narrative, collect_semantic_queries in *.
  destruct (pack_narrative pack) as [graph|]; [|done].
  destruct (graph_plan graph (narrative c)) as [plan|] eqn:Hplan; [|done]. injection Hqs as <-.
  exists plan, {| ev_turn := increment (ctx_turn_number c); semantic_results := answers |}.
  split; [done|]. split; [done|]. split; [done|]. simpl. split; [|done].
  by destruct (resolve_transitions graph (narrative c) _).
Qed.

Lemma extract_world_ok (w : W) world w' :
  extract_world_knowledge gateway prompt config c proposal control w = (Ok world, w') →
  ∃ fps ups rids, resolve_world_knowledge c config fps ups rids = Ok world.
Proof.
  unfold extract_world_knowledge, parse_world_knowledge. intros Hrun. io_inv. res_inv. eauto.
Qed.

Lemma extract_role_memory_ok rid (w : W) os w' :
  extract_role_memory gateway prompt config c proposal control rid w = (Ok os, w') →
  memories_of c rid os.
Proof.
  unfold extract_role_memory, parse_role_memory. intros Hrun. io_inv. res_inv. by eapply memories_of_resolved.
Qed.

Lemma extract_role_memories_ok rids (w : W) mss w' :
  extract_role_memories gateway prompt config c proposal control rids w = (Ok mss, w') →
  Forall2 (memories_of c) rids mss.
Proof.
  destruct rids as [|rid rids]; [intros [= <- _]; constructor|].
  intros Hrun%io_traverse_ok. eapply Forall2_impl; [done|].
  intros r os (w1 & w2 & Hr). by eapply extract_role_memory_ok.
Qed.

Lemma extract_execute_ok (w : W) out w' :
  extract_execute gateway prompt config c proposal control w = (Ok out, w') →
  validate_knowledge_change c (out_knowledge_change out) = Ok tt ∧
  ∃ pack w1 w2, w_get_pack (pack_ref c) w1 = (Ok pack, w2) ∧
    narrative_resolved pack c (out_narrative out) (out_life_cycle out).
Proof.
  unfold extract_execute. intros (? & w0 & Hc & Hrun)%io_bind_ok. apply io_lift_ok in Hc as [_ ->].
  apply io_bind_ok in Hrun as (pack & w1 & Hpack & Hrun). apply io_map_err_ok in Hpack.
  apply io_bind_ok in Hrun as ([change world] & w2 & Hjoin & Hrun).
  apply io_bind_ok in Hrun as (mss & w3 & Hmem & [= <- <-]).
  apply try_join_ok in Hjoin as [[wa Hn] (wb & wd & Hw)].
  apply evaluate_narrative_ok in Hn. apply extract_world_ok in Hw as (fps & ups & rids & Hw).
  apply extract_role_memories_ok in Hmem. split; [|eauto 6].
  apply validate_knowledge_change_iff. by eapply assembled_change_good.
Qed.

End execute.

(** ** A scripted extraction *)

#[local] Instance demo_to_json : ExtractToJson := {|
  json_queries _ := Ok "[]"; json_facts _ := Ok "[]"; json_rumors _ := Ok "[]"; json_catalog _ := Ok "[]";
  json_aliases _ := Ok "[]"; json_memories _ := Ok "[]" |}.

Definition demo_fact_body : FactBody :=
  {| fact_content := "The guard let them in.";
     fact_activation := {| match_rule := ActivationMatchRule_default;
       mode := {| enabled := true; constant := true |}; recursion := ActivationRecursionRule_default;
       selection := ActivationSelectionRule_default |};
     fact_retrieval := "guard" |}.

#[local] Instance demo_from_str : ExtractJson := {|
  evaluations_from_str _ := Ok [{| dto_condition_id := "met_guard"; dto_truth := Satisfied |}];
  world_from_str _ := Ok {| dto_facts := [FactDto_Add demo_fact_body; FactDto_Add demo_fact_body];
    dto_rumors := []; dto_roles_for_memory := [] |};
  memories_from_str _ := Err {| json_line := 1; json_column := 1; json_message := "eof" |} |}.

Definition demo_extraction : ExtractOutput :=
  {| out_knowledge_change :=
       {| kc_facts := [FactAdd "fact_t1_1" demo_fact_body; FactAdd "fact_t1_2" demo_fact_body];
          kc_rumors := []; kc_memories := [] |};
     out_narrative := Replaced {| node_status := {["arrival" := Node_Completed]} |};
     out_life_cycle := Unchanged |}.

Definition run_extraction : result PipelineError ExtractOutput * ScriptWorld :=
  extract_execute script_llm (script_prompts ["extract.evaluate_narrative"; "extract.extract_world_knowledge"])
    ExtractConfig_default script_story "They pass the gate." {| deadline := 60000 |}
    (script_start ["evaluations"; "world"]).

