(* ===== verification/Validate.v ===== *)
(** * Validate: the validation and repair stages

    The operations on [f64] the program uses, on the Standard Library's [spec_float] at
    the precision of binary64, and [f64::total_cmp]: there is one NaN, since no result
    here depends on its sign or payload.  Then [pipeline/validate/config.rs],
    [pipeline/validate/validate_report.rs], [pipeline/validate/validate_prompt.rs] and
    [pipeline/validate/validate.rs]: the quality criteria, the parser of the evaluator's
    report and the stage.  Then [pipeline/repair/config.rs],
    [pipeline/repair/repair_output.rs], [pipeline/repair/repair_prompt.rs] and
    [pipeline/repair/repair.rs]. *)

From S2P Require Import Prelude Text Values Domain Roles StoryStore Errors Effects Prompt PromptText.

Definition f64_prec : Z := 53.
Definition f64_emax : Z := 1024.

Definition f64_add : f64 → f64 → f64 := SFadd f64_prec f64_emax.
Definition f64_sub : f64 → f64 → f64 := SFsub f64_prec f64_emax.
Definition f64_mul : f64 → f64 → f64 := SFmul f64_prec f64_emax.
Definition f64_div : f64 → f64 → f64 := SFdiv f64_prec f64_emax.

Definition f64_zero : f64 := S754_zero false.

(** An integer converted with [as f64]. *)
Definition f64_of_N (n : N) : f64 := binary_normalize f64_prec f64_emax (Z.of_N n) 0 false.

Definition f64_lt (x y : f64) : bool := SFltb x y.
Definition f64_le (x y : f64) : bool := SFleb x y.

Definition is_finite (x : f64) : bool :=
  match x with S754_zero _ | S754_finite _ _ _ => true | _ => false end.

(** [x.max(0.0)]: zero when [x] is not a number. *)
Definition f64_max_zero (x : f64) : f64 := if f64_lt f64_zero x then x else f64_zero.

(** [iter().sum::<f64>()]. *)
Definition f64_sum (l : list f64) : f64 := foldl f64_add f64_zero l.

(** [f64::total_cmp]. *)
Definition f64_total_cmp (x y : f64) : comparison :=
  match x, y with
  | S754_nan, S754_nan => Eq
  | S754_nan, _ => Gt
  | _, S754_nan => Lt
  | S754_zero s, S754_zero t => bool_compare t s
  | _, _ => default Eq (SFcompare x y)
  end.

(** ** The total order *)

(** Class, exponent and mantissa: compared lexicographically, with the signs of
    negative numbers turned around. *)
Definition f64_key (x : f64) : Z * Z * Z :=
  match x with
  | S754_infinity true => (-3, 0, 0)
  | S754_finite true m e => (-2, - e, - Z.pos m)
  | S754_zero true => (-1, 0, 0)
  | S754_zero false => (0, 0, 0)
  | S754_finite false m e => (1, e, Z.pos m)
  | S754_infinity false => (2, 0, 0)
  | S754_nan => (3, 0, 0)
  end%Z.

#[global] Instance f64_key_inj : Inj (=) (=) f64_key.
Proof.
  intros [[]|[]| |[] m e] [[]|[]| |[] n g] Heq; simpl in Heq; simplify_eq; try done.
  f_equal; lia.
Qed.

Lemma f64_total_cmp_key x y :
  f64_total_cmp x y = prod_compare (prod_compare Z.compare Z.compare) Z.compare (f64_key x) (f64_key y).
Proof.
  destruct x as [[]|[]| |[] m e], y as [[]|[]| |[] n g]; try done; unfold prod_compare; simpl.
  - destruct (Z.compare_spec e g) as [->|Hlt|Hlt].
    + rewrite Z.compare_refl. simpl. done.
    + by rewrite (proj2 (Z.compare_gt_iff (- e) (- g))) by lia.
    + by rewrite (proj2 (Z.compare_lt_iff (- e) (- g))) by lia.
  - by destruct (e ?= g)%Z.
Qed.

#[global] Instance f64_total_cmp_laws : OrdLaws f64_total_cmp.
Proof.
  assert (OrdLaws (λ x y, prod_compare (prod_compare Z.compare Z.compare) Z.compare (f64_key x) (f64_key y)))
    as [H1 H2 H3] by exact (inj_ord_laws f64_key (prod_compare (prod_compare Z.compare Z.compare) Z.compare)).
  split.
  - intros x y. rewrite f64_total_cmp_key. apply H1.
  - intros x y. rewrite !f64_total_cmp_key. apply H2.
  - intros x y z. rewrite !f64_total_cmp_key. apply H3.
Qed.

(** Finite numbers compare: one is below the other or not, never neither. *)
Lemma f64_lt_negb_le x y : is_finite x = true → is_finite y = true → f64_lt x y = negb (f64_le y x).
Proof.
  unfold f64_lt, f64_le, SFltb, SFleb.
  destruct x as [[]|[]| |[] m e], y as [[]|[]| |[] n g]; try done; intros _ _; simpl.
  - rewrite (Z.compare_antisym e g). destruct (e ?= g)%Z; simpl; try done.
    change (Pos.compare_cont Eq) with Pos.compare. rewrite (Pos.compare_antisym m n).
    by destruct (m ?= n)%positive.
  - rewrite (Z.compare_antisym e g). destruct (e ?= g)%Z; simpl; try done.
    change (Pos.compare_cont Eq) with Pos.compare. rewrite (Pos.compare_antisym m n).
    by destruct (m ?= n)%positive.
Qed.

(** ** Examples *)
Example f64_of_three : f64_of_N 3 = S754_finite false 6755399441055744 (-51).
Proof. reflexivity. Qed.
Example f64_half : f64_div (f64_of_N 1) (f64_of_N 2) = S754_finite false 4503599627370496 (-53).
Proof. reflexivity. Qed.

(** ** The configuration *)

Definition MAX_VALIDATE_CHECKS : N := 16.
Definition MAX_VALIDATE_SCORES : N := 16.
Definition MAX_CRITERION_NAME_BYTES : N := 64.
Definition MAX_CRITERION_DESCRIPTION_BYTES : N := 2 * 1024.
Definition MAX_TARGET_GUIDANCE_BYTES : N := 2 * 1024.
Definition MAX_ISSUE_BYTES_LIMIT : N := 16 * 1024.

Record ValidateConfig := {
  val_checks : list ProposalCheckCriterion;
  val_scores : list ProposalScoreCriterion;
  max_issue_bytes : N;
}.

Definition validate_config_error (code message : string) : PipelineError :=
  Pipe_InvalidConfig Stage_Validate code message.

(** ["{kind} criterion at index {index} {problem}"]. *)
Definition criterion_message (kind : string) (index : nat) (problem : string) : string :=
  kind +:+ " criterion at index " +:+ pretty index +:+ " " +:+ problem.

Definition validate_text_fields (name description kind : string) (index : nat) : result PipelineError unit :=
  fail_if is_empty name
  with validate_config_error "validate_criterion_name_empty" (criterion_message kind index "has an empty name") in
  fail_if (MAX_CRITERION_NAME_BYTES <? slen name)%N
  with validate_config_error "validate_criterion_name_too_long"
    (criterion_message kind index ("has a name exceeding " +:+ pretty MAX_CRITERION_NAME_BYTES +:+ " bytes")) in
  let description := trim description in
  fail_if is_empty description
  with validate_config_error "validate_criterion_description_empty"
    (criterion_message kind index "has an empty description") in
  fail_if (MAX_CRITERION_DESCRIPTION_BYTES <? slen description)%N
  with validate_config_error "validate_criterion_description_too_long"
    (criterion_message kind index
      ("has a description exceeding " +:+ pretty MAX_CRITERION_DESCRIPTION_BYTES +:+ " bytes")) in
  Ok tt.

Definition insert_name (names : gset string) (name kind : string) (index : nat) :
    result PipelineError (gset string) :=
  fail_if bool_decide (name ∈ names)
  with validate_config_error "validate_criterion_name_duplicate"
    (criterion_message kind index "has a duplicate name") in
  Ok ({[ name ]} ∪ names).

Definition validate_check_criterion (names : gset string) (e : nat * ProposalCheckCriterion) :
    result PipelineError (gset string) :=
  let '(index, c) := e in
  let? _ := validate_text_fields (check_criterion_name c) (check_criterion_description c) "check" index in
  insert_name names (check_criterion_name c) "check" index.

Definition validate_score_criterion (names : gset string) (e : nat * ProposalScoreCriterion) :
    result PipelineError (gset string) :=
  let '(index, s) := e in
  let? _ := validate_text_fields (score_criterion_name s) (score_criterion_description s) "score" index in
  let? names := insert_name names (score_criterion_name s) "score" index in
  fail_if negb (is_finite (criterion_min s)) || negb (is_finite (criterion_max s))
    || negb (is_finite (criterion_target s))
  with validate_config_error "validate_score_value_non_finite"
    (criterion_message "score" index "contains a non-finite value") in
  fail_if f64_le (criterion_max s) (criterion_min s) || f64_lt (criterion_target s) (criterion_min s)
    || f64_lt (criterion_max s) (criterion_target s)
  with validate_config_error "validate_score_range_invalid"
    (criterion_message "score" index "has an invalid range or target") in
  let guidance := trim (target_guidance s) in
  fail_if is_empty guidance
  with validate_config_error "validate_score_target_guidance_empty"
    (criterion_message "score" index "has empty target guidance") in
  fail_if (MAX_TARGET_GUIDANCE_BYTES <? slen guidance)%N
  with validate_config_error "validate_score_target_guidance_too_long"
    (criterion_message "score" index
      ("has target guidance exceeding " +:+ pretty MAX_TARGET_GUIDANCE_BYTES +:+ " bytes")) in
  Ok names.

Definition ValidateConfig_validate (c : ValidateConfig) : result PipelineError unit :=
  fail_if bool_decide (val_checks c = []) && bool_decide (val_scores c = [])
  with validate_config_error "validate_criteria_empty" "at least one validation criterion is required" in
  fail_if (MAX_VALIDATE_CHECKS <? nlen (val_checks c))%N
  with validate_config_error "validate_checks_too_many" ("check count exceeds " +:+ pretty MAX_VALIDATE_CHECKS) in
  fail_if (MAX_VALIDATE_SCORES <? nlen (val_scores c))%N
  with validate_config_error "validate_scores_too_many" ("score count exceeds " +:+ pretty MAX_VALIDATE_SCORES) in
  let? names := try_fold validate_check_criterion ∅ (imap pair (val_checks c)) in
  let? _ := try_fold validate_score_criterion names (imap pair (val_scores c)) in
  fail_if negb ((1 <=? max_issue_bytes c) && (max_issue_bytes c <=? MAX_ISSUE_BYTES_LIMIT))%N
  with validate_config_error "validate_max_issue_bytes_invalid"
    ("max_issue_bytes must be between 1 and " +:+ pretty MAX_ISSUE_BYTES_LIMIT) in
  Ok tt.

Definition quality_policy (c : ValidateConfig) : ProposalQualityPolicy :=
  {| policy_checks := val_checks c; policy_scores := val_scores c |}.

Definition default_check (name description : string) : ProposalCheckCriterion :=
  {| check_criterion_name := name; check_criterion_description := description |}.
Definition default_score (name description guidance : string) : ProposalScoreCriterion :=
  {| score_criterion_name := name; score_criterion_description := description;
     criterion_min := f64_of_N 0; criterion_max := f64_of_N 10; criterion_target := f64_of_N 8;
     target_guidance := guidance |}.

Definition ValidateConfig_default : ValidateConfig :=
  {| val_checks := [
       default_check "internal_logic" "The proposal contains no internal causal or temporal contradiction.";
       default_check "narrative_consistency" "The proposal follows the current narrative state and direction.";
       default_check "explicit_constraints" "The proposal satisfies every explicit story constraint.";
       default_check "private_knowledge_boundary"
         "The proposal does not present private character knowledge as public fact."];
     val_scores := [
       default_score "story_goal_completion" "The proposal advances the immediate story goal."
         "The segment makes visible, causally grounded progress toward the immediate story goal without forcing completion unsupported by the evidence.";
       default_score "player_response"
         "The proposal gives the player's contribution a visible, context-appropriate response."
         "The segment visibly acknowledges, reacts to, or is causally influenced by the pending player contribution. It may paraphrase, soften, redirect, delay, partially realize, or reject the contribution when warranted by story context, character agency, logic, or constraints. Judge whether the contribution affects the narrative, not whether its requested wording, intensity, or outcome is preserved. Do not invent an unprovided consequential player choice.";
       default_score "character_consistency"
         "The proposal keeps each character consistent with the supplied role evidence."
         "Character actions, knowledge, voice, and immediate intent remain consistent with supplied role evidence and character decisions unless visible events justify a change.";
       default_score "narrative_quality" "The proposal is coherent and readable as story prose."
         "The segment uses clear causal and temporal transitions, readable prose, and a natural interaction boundary without relying on abrupt or unsupported developments."];
     max_issue_bytes := 2048 |}.

(** The default configuration is valid. *)
Example ValidateConfig_default_valid : ValidateConfig_validate ValidateConfig_default = Ok tt.
Proof. vm_compute. reflexivity. Qed.

(** ** The report *)

Record ValidateCheckDto := { dto_check_name : string; dto_check_passed : bool; dto_check_issue : option string }.
Record ValidateScoreDto := { dto_score_name : string; dto_score : f64; dto_score_issue : option string }.
Record ValidateLlmOutputDto := {
  dto_checks : list ValidateCheckDto; dto_scores : list ValidateScoreDto }.

(** [serde_json::from_str] at the report, and [f64]'s [Display]. *)
Class ValidateJson := {
  report_from_str : string → result JsonError ValidateLlmOutputDto;
  f64_display : f64 → string;
}.

Definition report_invalid (code message : string) : PipelineError :=
  Pipe_InvalidOutput Stage_Validate code message.

(** [s.split_once(':')], the part after the colon. *)
Fixpoint after_colon (s : string) : option string :=
  match s with
  | "" => None
  | String a s' => if (Ascii.N_of_ascii a =? 58)%N then Some s' else after_colon s'
  end.

Definition trim_start (s : string) : string := encode (drop_while is_whitespace (chars s)).

(** The member name ["score"] between double quotes. *)
Definition score_token : string := String (byte_of 34) ("score" +:+ String (byte_of 34) "").

Definition contains_non_finite_score_token (text : string) : bool :=
  existsb (λ index,
    match after_colon (str_drop (index + String.length score_token) text) with
    | Some value =>
        let value := trim_start value in
        String.prefix "NaN" value || String.prefix "Infinity" value || String.prefix "-Infinity" value
    | None => false
    end) (match_indices score_token text 0 0).

(** [str::contains]. *)
Definition contains (needle hay : string) : bool :=
  match match_indices needle hay 0 0 with [] => false | _ => true end.

Definition validate_issue (name : string) (issue : option string) (required : bool) (max_bytes : N) :
    result PipelineError (option BoundedText) :=
  match required, issue with
  | false, None => Ok None
  | false, Some _ =>
      Err (report_invalid "validate_issue_unexpected" ("criterion " +:+ name +:+ " must not include an issue"))
  | true, None =>
      Err (report_invalid "validate_issue_missing" ("criterion " +:+ name +:+ " requires an issue"))
  | true, Some issue =>
      let too_long := report_invalid "validate_issue_too_long"
        ("criterion " +:+ name +:+ " issue exceeds " +:+ pretty max_bytes +:+ " bytes") in
      let issue := trim issue in
      fail_if is_empty issue
      with report_invalid "validate_issue_missing"
        ("criterion " +:+ name +:+ " requires a non-empty issue") in
      fail_if (max_bytes <? slen issue)%N with too_long in
      let? text := map_err (λ _, too_long) (BoundedText_try_new issue "validation_issue" max_bytes) in
      Ok (Some text)
  end.

Definition validate_name_kind (name : string) (matching_kind opposite_kind : gset string)
    (returned_kind : string) : result PipelineError unit :=
  if bool_decide (name ∈ matching_kind) then Ok tt
  else if bool_decide (name ∈ opposite_kind) then
    Err (report_invalid "validate_criterion_kind_mismatch"
      (returned_kind +:+ " " +:+ name +:+ " is configured with the opposite criterion kind"))
  else Err (report_invalid "validate_criterion_unknown" (returned_kind +:+ " " +:+ name +:+ " is not configured")).

Definition returned_name (kind : string) (matching opposite seen : gset string) (name : string) :
    result PipelineError (gset string) :=
  fail_if bool_decide (name ∈ seen)
  with report_invalid "validate_criterion_duplicate" (kind +:+ " " +:+ name +:+ " appears more than once") in
  let? _ := validate_name_kind name matching opposite kind in
  Ok ({[ name ]} ∪ seen).

Definition validate_returned_names (output : ValidateLlmOutputDto) (policy : ProposalQualityPolicy) :
    result PipelineError unit :=
  let configured_checks := list_to_set (map check_criterion_name (policy_checks policy)) in
  let configured_scores := list_to_set (map score_criterion_name (policy_scores policy)) in
  let? _ := try_fold (returned_name "check" configured_checks configured_scores) ∅
    (map dto_check_name (dto_checks output)) in
  let? _ := try_fold (returned_name "score" configured_scores configured_checks) ∅
    (map dto_score_name (dto_scores output)) in
  Ok tt.

Definition count_mismatch (kind : string) (returned configured : N) : string :=
  "returned " +:+ kind +:+ " count " +:+ pretty returned +:+ " does not match configured count "
    +:+ pretty configured.

(** [into_iter().map(|x| (x.name.clone(), x)).collect::<HashMap<_, _>>()]. *)
Definition by_name {A} (name : A → string) (l : list A) : gmap string A :=
  foldl (λ m x, <[ name x := x ]> m) ∅ l.

Section report.
Context `{ValidateJson}.

(** One criterion of the policy: its result is taken out of the map. *)
Definition report_check (max_bytes : N)
    (acc : gmap string ValidateCheckDto * list ValidationCheckResult) (criterion : ProposalCheckCriterion) :
    result PipelineError (gmap string ValidateCheckDto * list ValidationCheckResult) :=
  let '(m, out) := acc in
  let name := check_criterion_name criterion in
  let? d := ok_or (m !! name) (report_invalid "validate_check_count_mismatch"
    ("configured check " +:+ name +:+ " is missing")) in
  let? issue := validate_issue (dto_check_name d) (dto_check_issue d) (negb (dto_check_passed d)) max_bytes in
  Ok (delete name m,
      out ++ [{| check_name := name; check_description := check_criterion_description criterion;
                 passed := dto_check_passed d; check_issue := issue |}]).

Definition report_score (max_bytes : N)
    (acc : gmap string ValidateScoreDto * list ValidationScoreResult) (criterion : ProposalScoreCriterion) :
    result PipelineError (gmap string ValidateScoreDto * list ValidationScoreResult) :=
  let '(m, out) := acc in
  let name := score_criterion_name criterion in
  let? d := ok_or (m !! name) (report_invalid "validate_score_count_mismatch"
    ("configured score " +:+ name +:+ " is missing")) in
  let value := dto_score d in
  fail_if negb (is_finite value)
  with report_invalid "validate_score_non_finite" ("score " +:+ dto_score_name d +:+ " must be finite") in
  fail_if f64_lt value (criterion_min criterion) || f64_lt (criterion_max criterion) value
  with report_invalid "validate_score_out_of_range"
    ("score " +:+ dto_score_name d +:+ " is outside configured range ["
      +:+ f64_display (criterion_min criterion) +:+ ", " +:+ f64_display (criterion_max criterion) +:+ "]") in
  let? issue := validate_issue (dto_score_name d) (dto_score_issue d)
    (f64_lt value (criterion_target criterion)) max_bytes in
  Ok (delete name m,
      out ++ [{| score_name := name; score_description := score_criterion_description criterion;
                 min_score := criterion_min criterion; max_score := criterion_max criterion;
                 target_score := criterion_target criterion; score := value; score_issue := issue |}]).

Definition parse_validation_report (text : string) (version : N) (policy : ProposalQualityPolicy)
    (max_bytes : N) : result PipelineError ValidationReport :=
  let? output := map_err (λ e,
    let code := if contains "number out of range" (json_message e) || contains_non_finite_score_token text
                then "validate_score_non_finite" else "validate_output_invalid_json" in
    report_invalid code ("invalid validation JSON at line " +:+ pretty (json_line e) +:+ " column "
      +:+ pretty (json_column e))) (report_from_str text) in
  let? _ := validate_returned_names output policy in
  fail_if negb (nlen (dto_checks output) =? nlen (policy_checks policy))%N
  with report_invalid "validate_check_count_mismatch"
    (count_mismatch "check" (nlen (dto_checks output)) (nlen (policy_checks policy))) in
  fail_if negb (nlen (dto_scores output) =? nlen (policy_scores policy))%N
  with report_invalid "validate_score_count_mismatch"
    (count_mismatch "score" (nlen (dto_scores output)) (nlen (policy_scores policy))) in
  let? '(_, cs) := try_fold (report_check max_bytes)
    (by_name dto_check_name (dto_checks output), []) (policy_checks policy) in
  let? '(_, ss) := try_fold (report_score max_bytes)
    (by_name dto_score_name (dto_scores output), []) (policy_scores policy) in
  Ok {| proposal_version := version; checks := cs; scores := ss |}.

End report.

(** ** The stage *)

Class ValidationToJson := {
  #[global] json_role_view :: ToJson RolePromptView;
  #[global] json_role_views :: ToJson (list RolePromptView);
  #[global] json_decisions :: ToJson (list CharacterDecision);
  #[global] json_check_criteria :: ToJson (list ProposalCheckCriterion);
  #[global] json_score_criteria :: ToJson (list ProposalScoreCriterion);
}.

Record ValidateInput := {
  validate_context : ValidationContext;
  validate_proposal : string;
  validate_version : N;
  repair_rounds_used : N;
  rounds_remaining : N;
}.

(** The variables both validation and repair give to their prompts. *)
Definition evidence_vars (ev : ValidationPromptEvidence) : list (string * Value) :=
  [("story_summary", Json_String (ev_story_summary ev));
   ("story_opening", Json_String (ev_story_opening ev));
   ("recent_story", Json_String (ev_recent_story ev));
   ("story_goal", Json_String (ev_story_goal ev));
   ("player_contribution", Json_String (ev_player_contribution ev));
   ("narrative_directions", Json_String (ev_narrative_directions ev));
   ("story_constraints", Json_String (ev_story_constraints ev));
   ("activated_facts", Json_String (ev_activated_facts ev));
   ("activated_rumors", Json_String (ev_activated_rumors ev));
   ("retrieved_facts", Json_String (ev_retrieved_facts ev));
   ("retrieved_rumors", Json_String (ev_retrieved_rumors ev));
   ("player_role", Json_String (ev_player_role ev));
   ("resolved_roles", Json_String (ev_resolved_roles ev));
   ("character_decisions", Json_String (ev_character_decisions ev))].

Section validate.
Context {W : Type} `{World W, Minijinja, ValidationToJson, ValidateJson}.
Context (gateway : LlmConfig) (prompt : Prompt) (config : ValidateConfig) (policy : ProposalQualityPolicy).
Context (c : StoryContext) (control : TurnControl).

Definition evaluate_vars (input : ValidateInput) (ev : ValidationPromptEvidence) :
    result PipelineError (list (string * Value)) :=
  let? quality := project_proposal_quality Stage_Validate policy in
  Ok (evidence_vars ev ++
      [("current_proposal", Json_String (validate_proposal input));
       ("proposal_version", Json_Number (validate_version input));
       ("check_criteria", Json_String (check_criteria quality));
       ("score_criteria", Json_String (score_criteria quality));
       ("max_issue_bytes", Json_Number (max_issue_bytes config))]).

Definition evaluate_story_prompt (input : ValidateInput) : result PipelineError (list ChatMessage) :=
  let? ev := project_validation_evidence Stage_Validate c (validate_context input) in
  let? vars := evaluate_vars input ev in
  render_prompt Stage_Validate prompt "validate.evaluate_story" vars.

Definition validate_execute (input : ValidateInput) : IO W PipelineError ValidationReport :=
  let* ms := io_lift (evaluate_story_prompt input) in
  let* text := ask_with_effort gateway Stage_Validate ms Effort_High control in
  io_lift (parse_validation_report text (validate_version input) policy (max_issue_bytes config)).

End validate.

(** ** What an accepted report guarantees *)

(** The issue of a result: present, not blank and within the limit exactly when
    one is required. *)
Definition issue_ok (required : bool) (max_bytes : N) (issue : option BoundedText) : Prop :=
  match issue with
  | Some text => required = true ∧ is_empty text = false ∧ (slen text <= max_bytes)%N
  | None => required = false
  end.

Lemma validate_issue_ok name issue required max_bytes r :
  validate_issue name issue required max_bytes = Ok r →
  issue_ok required max_bytes r ∧ r = trim <$> issue.
Proof.
  unfold validate_issue, issue_ok. destruct required, issue as [s|]; try done.
  - destruct (is_empty (trim s)) eqn:He; [done|]. destruct (N.ltb_spec max_bytes (slen (trim s))); [done|].
    rewrite BoundedText_try_new_ok by done. simpl. by intros [= <-].
  - by intros [= <-].
Qed.

Definition check_result_ok (max_bytes : N) (ds : list ValidateCheckDto) (k : ProposalCheckCriterion)
    (r : ValidationCheckResult) : Prop :=
  check_name r = check_criterion_name k ∧ check_description r = check_criterion_description k ∧
  issue_ok (negb (passed r)) max_bytes (check_issue r) ∧
  ∃ d, d ∈ ds ∧ dto_check_name d = check_criterion_name k ∧ passed r = dto_check_passed d ∧
    check_issue r = trim <$> dto_check_issue d.

Definition score_result_ok (max_bytes : N) (ds : list ValidateScoreDto) (k : ProposalScoreCriterion)
    (r : ValidationScoreResult) : Prop :=
  score_name r = score_criterion_name k ∧ score_description r = score_criterion_description k ∧
  min_score r = criterion_min k ∧ max_score r = criterion_max k ∧ target_score r = criterion_target k ∧
  is_finite (score r) = true ∧ f64_lt (score r) (min_score r) = false ∧ f64_lt (max_score r) (score r) = false ∧
  issue_ok (unmet r) max_bytes (score_issue r) ∧
  ∃ d, d ∈ ds ∧ dto_score_name d = score_criterion_name k ∧ score r = dto_score d ∧
    score_issue r = trim <$> dto_score_issue d.

(** A map whose entries come from a list, each under its name. *)
Definition drawn_from {A} (name : A → string) (l : list A) (m : gmap string A) : Prop :=
  ∀ k x, m !! k = Some x → x ∈ l ∧ name x = k.

Lemma by_name_drawn {A} (name : A → string) l : drawn_from name l (by_name name l).
Proof.
  unfold by_name. apply (foldl_prefix_ind (λ pre m, drawn_from name pre m)).
  - intros k x. by rewrite lookup_empty.
  - intros pre x suf m _ IH k y. rewrite lookup_insert. case_decide as Hk.
    + intros [= <-]. split; [set_solver|done].
    + intros Hy. apply IH in Hy as [? ?]. split; [set_solver|done].
Qed.

Lemma drawn_delete {A} (name : A → string) l m k : drawn_from name l m → drawn_from name l (delete k m).
Proof. intros Hm i x [_ Hx]%lookup_delete_Some. by apply Hm. Qed.

Lemma report_checks_ok max_bytes ds m ks m' cs :
  drawn_from dto_check_name ds m →
  try_fold (report_check max_bytes) (m, []) ks = Ok (m', cs) → Forall2 (check_result_ok max_bytes ds) ks cs.
Proof.
  intros Hm Hfold.
  assert (drawn_from dto_check_name ds (m', cs).1 ∧ Forall2 (check_result_ok max_bytes ds) ks (m', cs).2) as [_ ?];
    [|done].
  revert Hfold. apply (try_fold_prefix_ind (λ pre acc,
    drawn_from dto_check_name ds acc.1 ∧ Forall2 (check_result_ok max_bytes ds) pre acc.2)).
  { split; [done|constructor]. }
  intros pre k suf [m0 out] acc _ [Hm0 Hout] Hstep. unfold report_check in Hstep.
  destruct (m0 !! check_criterion_name k) as [d|] eqn:Hd; [|done]. simpl in Hstep.
  destruct (validate_issue _ _ _ _) as [issue|] eqn:Hi; [|done]. injection Hstep as <-.
  apply validate_issue_ok in Hi as [Hi ->]. apply Hm0 in Hd as [Hin Hname]. simpl in *.
  split; [by apply drawn_delete|]. apply Forall2_app; [done|]. constructor; [|done].
  unfold check_result_ok. simpl. eauto 10.
Qed.

Lemma report_scores_ok `{ValidateJson} max_bytes ds m ks m' ss :
  drawn_from dto_score_name ds m →
  try_fold (report_score max_bytes) (m, []) ks = Ok (m', ss) → Forall2 (score_result_ok max_bytes ds) ks ss.
Proof.
  intros Hm Hfold.
  assert (drawn_from dto_score_name ds (m', ss).1 ∧ Forall2 (score_result_ok max_bytes ds) ks (m', ss).2) as [_ ?];
    [|done].
  revert Hfold. apply (try_fold_prefix_ind (λ pre acc,
    drawn_from dto_score_name ds acc.1 ∧ Forall2 (score_result_ok max_bytes ds) pre acc.2)).
  { split; [done|constructor]. }
  intros pre k suf [m0 out] acc _ [Hm0 Hout] Hstep. unfold report_score in Hstep.
  destruct (m0 !! score_criterion_name k) as [d|] eqn:Hd; [|done]. simpl in Hstep.
  destruct (is_finite (dto_score d)) eqn:Hfin; [|done]. simpl in Hstep.
  destruct (f64_lt (dto_score d) (criterion_min k)) eqn:Hlo; [done|].
  destruct (f64_lt (criterion_max k) (dto_score d)) eqn:Hhi; [done|]. simpl in Hstep.
  destruct (validate_issue _ _ _ _) as [issue|] eqn:Hi; [|done]. injection Hstep as <-.
  apply validate_issue_ok in Hi as [Hi ->]. apply Hm0 in Hd as [Hin Hname]. simpl in *.
  split; [by apply drawn_delete|]. apply Forall2_app; [done|]. constructor; [|done].
  unfold score_result_ok. simpl. eauto 20.
Qed.

(** A report that answers a policy: one result per criterion, in order. *)
Definition report_answers (policy : ProposalQualityPolicy) (max_bytes : N) (output : ValidateLlmOutputDto)
    (r : ValidationReport) : Prop :=
  Forall2 (check_result_ok max_bytes (dto_checks output)) (policy_checks policy) (checks r) ∧
  Forall2 (score_result_ok max_bytes (dto_scores output)) (policy_scores policy) (scores r).

Lemma parse_report_ok `{ValidateJson} text version policy max_bytes r :
  parse_validation_report text version policy max_bytes = Ok r →
  proposal_version r = version ∧
  ∃ output, report_from_str text = Ok output ∧ report_answers policy max_bytes output r.
Proof.
  unfold parse_validation_report. intros Hp.
  destruct (report_from_str text) as [output|] eqn:Hout; simpl in Hp; [|done].
  destruct (validate_returned_names output policy); [|done].
  do 2 (destruct (negb _); [done|]).
  destruct (try_fold (report_check _) _ _) as [[m cs]|] eqn:Hc; [|done].
  destruct (try_fold (report_score _) _ _) as [[m' ss]|] eqn:Hs; [|done]. injection Hp as <-.
  split; [done|]. exists output. split; [done|].
  split; [by eapply report_checks_ok, Hc; apply by_name_drawn|by eapply report_scores_ok, Hs; apply by_name_drawn].
Qed.

Lemma report_issues_present policy max_bytes output r :
  report_answers policy max_bytes output r → issues_present r.
Proof.
  intros [Hc Hs]. split.
  - intros x [i Hi]%list_elem_of_lookup Hp. destruct (Forall2_lookup_r _ _ _ _ _ Hc Hi) as (k & _ & _ & _ & Hiss & _).
    rewrite Hp in Hiss. unfold issue_ok in Hiss. by destruct (check_issue x).
  - intros x [i Hi]%list_elem_of_lookup Hp.
    destruct (Forall2_lookup_r _ _ _ _ _ Hs Hi) as (k & _ & _ & _ & _ & _ & _ & _ & _ & _ & Hiss & _).
    rewrite Hp in Hiss. unfold issue_ok in Hiss. by destruct (score_issue x).
Qed.

(** The ranges of a valid configuration. *)
Definition score_range_ok (k : ProposalScoreCriterion) : Prop :=
  is_finite (criterion_min k) = true ∧ is_finite (criterion_max k) = true ∧ is_finite (criterion_target k) = true ∧
  f64_lt (criterion_min k) (criterion_max k) = true ∧ f64_le (criterion_min k) (criterion_target k) = true ∧
  f64_le (criterion_target k) (criterion_max k) = true.

Lemma insert_name_ok names name kind index names' :
  insert_name names name kind index = Ok names' → name ∉ names ∧ names' = {[ name ]} ∪ names.
Proof. unfold insert_name. case_bool_decide; [done|]. by intros [= <-]. Qed.

Lemma validate_score_criterion_ok names e names' :
  validate_score_criterion names e = Ok names' →
  score_range_ok e.2 ∧ score_criterion_name e.2 ∉ names ∧ names' = {[ score_criterion_name e.2 ]} ∪ names.
Proof.
  destruct e as [i k]. unfold validate_score_criterion. simpl. intros H. do 2 res_step; [].
  destruct (negb (is_finite (criterion_min k))) eqn:F1; [done|].
  destruct (negb (is_finite (criterion_max k))) eqn:F2; [done|].
  destruct (negb (is_finite (criterion_target k))) eqn:F3; [done|]. simpl in H.
  apply negb_false_iff in F1, F2, F3.
  destruct (f64_le (criterion_max k) (criterion_min k)) eqn:R1; [done|].
  destruct (f64_lt (criterion_target k) (criterion_min k)) eqn:R2; [done|].
  destruct (f64_lt (criterion_max k) (criterion_target k)) eqn:R3; [done|]. simpl in H.
  rewrite f64_lt_negb_le in R2, R3 by done. apply negb_false_iff in R2, R3. res_inv.
  match goal with E : insert_name _ _ _ _ = Ok _ |- _ => apply insert_name_ok in E as [? ->] end.
  split; [|done]. split_and!; try done. by rewrite f64_lt_negb_le, R1.
Qed.

Lemma validate_check_criterion_ok names e names' :
  validate_check_criterion names e = Ok names' →
  check_criterion_name e.2 ∉ names ∧ names' = {[ check_criterion_name e.2 ]} ∪ names.
Proof.
  destruct e as [i k]. unfold validate_check_criterion. simpl. intros H. res_step; [].
  by apply insert_name_ok in H.
Qed.

(** A loop that inserts distinct names. *)
Lemma insert_names_ok {A} (name : A → string) (good : A → Prop)
    (f : gset string → nat * A → result PipelineError (gset string)) l names names' :
  (∀ s e s', f s e = Ok s' → good e.2 ∧ name e.2 ∉ s ∧ s' = {[ name e.2 ]} ∪ s) →
  try_fold f names (imap pair l) = Ok names' →
  (∀ x, x ∈ l → good x) ∧ NoDup (name <$> l) ∧ (∀ n, n ∈ names' ↔ n ∈ names ∨ n ∈ name <$> l) ∧
  ∀ x, x ∈ l → name x ∉ names.
Proof.
  intros Hf Hfold.
  pose proof (try_fold_prefix_ind (λ pre s, (∀ x, x ∈ pre.*2 → good x) ∧ NoDup (name <$> pre.*2) ∧
    (∀ n, n ∈ s ↔ n ∈ names ∨ n ∈ name <$> pre.*2) ∧ ∀ x, x ∈ pre.*2 → name x ∉ names) f) as Hind.
  assert ((imap pair l).*2 = l) as Himap.
  { apply list_eq. intros i. rewrite list_lookup_fmap, list_lookup_imap. by destruct (l !! i). }
  rewrite <-Himap. eapply Hind, Hfold.
  - split; [by intros ? ?%not_elem_of_nil|]. split; [constructor|]. split; [|by intros ? ?%not_elem_of_nil].
    intros n. split; [by left|]. by intros [?|?%not_elem_of_nil].
  - intros pre x suf s s1 _ (Hg & Hnd & Hin & Hnew) (Hx & Hni & ->)%Hf. rewrite !fmap_app. cbn [fmap list_fmap].
    assert (∀ (y : A) ys z, z ∈ ys ++ [y] ↔ z ∈ ys ∨ z = y) as Hsnoc.
    { intros y ys z. by rewrite elem_of_app, list_elem_of_singleton. }
    split; [intros z [Hz| ->]%Hsnoc; auto|]. split.
    { apply NoDup_app. split; [done|]. split; [|apply NoDup_singleton].
      intros n Hn ->%list_elem_of_singleton. apply Hni, Hin. by right. }
    split; [|intros z [Hz| ->]%Hsnoc; [by apply Hnew|]; intros ?; apply Hni, Hin; by left].
    intros n. rewrite elem_of_union, elem_of_singleton, Hin, elem_of_app, list_elem_of_singleton. tauto.
Qed.

(** What a valid configuration says of its criteria. *)
Definition criteria_ok (c : ValidateConfig) : Prop :=
  NoDup (map check_criterion_name (val_checks c) ++ map score_criterion_name (val_scores c)) ∧
  (∀ k, k ∈ val_scores c → score_range_ok k) ∧
  (val_checks c ≠ [] ∨ val_scores c ≠ []) ∧ (1 <= max_issue_bytes c)%N.

Lemma ValidateConfig_validate_ok c : ValidateConfig_validate c = Ok tt → criteria_ok c.
Proof.
  unfold ValidateConfig_validate. intros H.
  destruct (bool_decide (val_checks c = []) && bool_decide (val_scores c = [])) eqn:Hne; [done|].
  do 2 (destruct (_ <? _)%N; [done|]).
  destruct (try_fold validate_check_criterion _ _) as [names|] eqn:Hc; [|done].
  destruct (try_fold validate_score_criterion _ _) as [names'|] eqn:Hs; [|done].
  destruct (N.leb_spec 1 (max_issue_bytes c)) as [Hbytes|]; [|done].
  apply (insert_names_ok check_criterion_name (λ _, True)) in Hc as (_ & Hnd & Hin & _).
  2:{ intros s e s' ?%validate_check_criterion_ok. done. }
  apply (insert_names_ok score_criterion_name score_range_ok) in Hs as (Hg & Hnd' & _ & Hnew).
  2:{ intros s e s'. apply validate_score_criterion_ok. }
  split; [|split; [done|split; [|done]]].
  - apply NoDup_app. split; [done|]. split; [|done].
    intros n Hn (k & -> & Hk)%list_elem_of_fmap. apply (Hnew k Hk), Hin. by right.
  - apply andb_false_iff in Hne as [Hne|Hne]; apply bool_decide_eq_false_1 in Hne; auto.
Qed.

Definition MAX_REPAIR_PROPOSAL_BYTES_LIMIT : N := 1024 * 1024.

Record RepairConfig := { max_proposal_bytes : N }.
Definition RepairConfig_default : RepairConfig := {| max_proposal_bytes := 64 * 1024 |}.

Definition RepairConfig_validate (c : RepairConfig) : result PipelineError unit :=
  fail_if negb ((1 <=? max_proposal_bytes c) && (max_proposal_bytes c <=? MAX_REPAIR_PROPOSAL_BYTES_LIMIT))%N
  with Pipe_InvalidConfig Stage_Repair "repair_max_proposal_bytes_invalid"
    ("max_proposal_bytes must be between 1 and " +:+ pretty MAX_REPAIR_PROPOSAL_BYTES_LIMIT) in
  Ok tt.

Definition validate_repaired_proposal (text : string) (c : RepairConfig) : result PipelineError string :=
  fail_if is_blank text with Pipe_EmptyOutput Stage_Repair in
  fail_if (max_proposal_bytes c <? slen text)%N
  with Pipe_InvalidOutput Stage_Repair "repair_proposal_too_long"
    ("repair proposal exceeds " +:+ pretty (max_proposal_bytes c) +:+ " bytes") in
  Ok text.

Record RepairInput := {
  repair_context : ValidationContext;
  repair_proposal : string;
  repair_version : N;
  repair_issues : list ValidationIssue;
  repair_round : N;
  repair_rounds_remaining : N;
}.

Section repair.
Context {W : Type} `{World W, Minijinja, ValidationToJson, ToJson (list ValidationIssue)}.
Context (gateway : LlmConfig) (prompt : Prompt) (config : RepairConfig) (policy : ProposalQualityPolicy).
Context (c : StoryContext) (control : TurnControl).

Definition repair_vars (input : RepairInput) (ev : ValidationPromptEvidence) :
    result PipelineError (list (string * Value)) :=
  let? quality := project_proposal_quality Stage_Repair policy in
  let? issues := serialize_as Stage_Repair (repair_issues input) "repair_issues_serialization" in
  Ok (evidence_vars ev ++
      [("check_criteria", Json_String (check_criteria quality));
       ("score_criteria", Json_String (score_criteria quality));
       ("current_proposal", Json_String (repair_proposal input));
       ("proposal_version", Json_Number (repair_version input));
       ("repair_issues", Json_String issues);
       ("max_proposal_bytes", Json_Number (max_proposal_bytes config))]).

Definition repair_story_prompt (input : RepairInput) : result PipelineError (list ChatMessage) :=
  let? ev := project_validation_evidence Stage_Repair c (repair_context input) in
  let? vars := repair_vars input ev in
  render_prompt Stage_Repair prompt "repair.repair_story" vars.

Definition repair_execute (input : RepairInput) : IO W PipelineError string :=
  let* ms := io_lift (repair_story_prompt input) in
  let* text := ask gateway Stage_Repair ms control in
  io_lift (validate_repaired_proposal text config).

End repair.

(** A proposal that is not blank and fits. *)
Definition proposal_ok (max_bytes : N) (p : string) : Prop :=
  is_blank p = false ∧ (slen p <= max_bytes)%N.

Lemma validate_repaired_ok text c p :
  validate_repaired_proposal text c = Ok p ↔ p = text ∧ proposal_ok (max_proposal_bytes c) text.
Proof.
  unfold validate_repaired_proposal, proposal_ok. destruct (is_blank text); [naive_solver|].
  destruct (N.ltb_spec (max_proposal_bytes c) (slen text)); split; try done.
  - intros (_ & _ & ?). lia.
  - by intros [= ->].
  - by intros (-> & _ & _).
Qed.
