(* ===== verification/ValidationLoop.v ===== *)
(** * ValidationLoop: validate, repair, and choose

    [pipeline/runtime/runtime_validation.rs]: a generated proposal is validated
    and repaired until it passes or the repair budget is used up; then the best
    proposal that passes every check is chosen.  The loop takes one unit of
    fuel per validation; the budget of repairs plus one is enough. *)
From S2P Require Import Prelude.
From S2P Require Import Text.
From S2P Require Import Values.
From S2P Require Import Domain.
From S2P Require Import Roles.
From S2P Require Import StoryStore.
From S2P Require Import Errors.
From S2P Require Import Effects.
From S2P Require Import Prompt.
From S2P Require Import PromptText.
From S2P Require Import Validate.
From S2P Require Import Script.

Record ValidatedProposal := { vp_proposal : string; vp_report : ValidationReport }.

Record ValidationLoopResult := {
  res_proposal : string;
  res_report : ValidationReport;
  res_repair_rounds : N;
  res_status : TurnStatus;
  res_choice : option TurnChoiceEvaluation;
}.

Record ChoiceSelection := {
  history_index : nat;
  sel_version : N;
  sel_mse : f64;
  sel_unmet : N;
}.

(** ** The choice *)

Definition deficit (s : ValidationScoreResult) : f64 :=
  f64_max_zero (f64_div (f64_sub (target_score s) (score s)) (f64_sub (max_score s) (min_score s))).

Definition target_gap_mse (p : ValidatedProposal) : result PipelineError f64 :=
  let report := vp_report p in
  fail_if bool_decide (length (scores report) = 0)
  with Pipe_ValidationFailed "validation_choice_scores_empty" (proposal_version report)
    "choice candidate has no validation scores" in
  let metric := f64_div (f64_sum (map (λ s, f64_mul (deficit s) (deficit s)) (scores report)))
    (f64_of_N (nlen (scores report))) in
  fail_if negb (is_finite metric)
  with Pipe_ValidationFailed "validation_choice_score_non_finite" (proposal_version report)
    "choice candidate produced a non-finite target gap metric" in
  Ok metric.

Definition is_better (candidate current : ChoiceSelection) : bool :=
  match f64_total_cmp (sel_mse candidate) (sel_mse current) with
  | Lt => true
  | Gt => false
  | Eq =>
      match (sel_unmet candidate ?= sel_unmet current)%N with
      | Lt => true
      | Gt => false
      | Eq => (sel_version current <? sel_version candidate)%N
      end
  end.

Definition choice_candidate (index : nat) (p : ValidatedProposal) : result PipelineError ChoiceSelection :=
  let? mse := target_gap_mse p in
  Ok {| history_index := index; sel_version := proposal_version (vp_report p); sel_mse := mse;
        sel_unmet := unmet_score_count (vp_report p) |}.

Definition choice_step (best : option ChoiceSelection) (e : nat * ValidatedProposal) :
    result PipelineError (option ChoiceSelection) :=
  let '(index, p) := e in
  if negb (all_checks_pass (vp_report p)) then Ok best
  else
    let? candidate := choice_candidate index p in
    Ok (match best with
        | None => Some candidate
        | Some current => if is_better candidate current then Some candidate else best
        end).

Definition select_choice (history : list ValidatedProposal) : result PipelineError ChoiceSelection :=
  let? best := try_fold choice_step None (imap pair history) in
  ok_or best (Pipe_ValidationFailed "validation_choice_unavailable"
    (match last history with Some e => proposal_version (vp_report e) | None => 0%N end)
    "no hard-gate-passing proposal is available for choice").

Definition failed_issue_counts (issues : list ValidationIssue) : N * N :=
  foldl (λ '(cs, ss) issue,
    match issue with Issue_Check _ _ => (cs + 1, ss)%N | Issue_Score _ _ _ _ => (cs, ss + 1)%N end) (0, 0)%N issues.

Definition exhausted (report : ValidationReport) (issues : list ValidationIssue) : PipelineError :=
  let '(failed_checks, unmet_scores) := failed_issue_counts issues in
  Pipe_ValidationFailed "validation_hard_gate_exhausted" (proposal_version report)
    ("repair budget exhausted with " +:+ pretty failed_checks +:+ " failed checks and "
      +:+ pretty unmet_scores +:+ " unmet scores").

(** ** The loop *)

Section loop.
Context {W : Type} `{World W, TurnEventSink W, Minijinja, ValidationToJson, ValidateJson, ToJson (list ValidationIssue)}.
Context (gateway : LlmConfig) (prompt : Prompt) (vconfig : ValidateConfig) (rconfig : RepairConfig)
  (loop : ValidationLoopConfig).
Context (c : StoryContext) (control : TurnControl) (context : ValidationContext).

Definition validate_input (history : list ValidatedProposal) (current : string) (rounds : N) : ValidateInput :=
  {| validate_context := context; validate_proposal := current; validate_version := nlen history + 1;
     repair_rounds_used := rounds; rounds_remaining := max_repair_rounds loop - rounds |}.

Definition repair_input (latest : ValidatedProposal) (issues : list ValidationIssue) (rounds : N) : RepairInput :=
  {| repair_context := context; repair_proposal := vp_proposal latest;
     repair_version := proposal_version (vp_report latest); repair_issues := issues;
     repair_round := rounds; repair_rounds_remaining := max_repair_rounds loop - rounds |}.

Definition validate_stage (input : ValidateInput) : IO W Stop ValidationReport :=
  run_stage Stage_Validate (validate_execute gateway prompt vconfig (quality_policy vconfig) c control input).
Definition repair_stage (input : RepairInput) : IO W Stop string :=
  run_stage Stage_Repair (repair_execute gateway prompt rconfig (quality_policy vconfig) c control input).

(** [failed_issues], where its [expect]s are panics. *)
Definition issues_of (report : ValidationReport) : IO W Stop (list ValidationIssue) :=
  match failed_issues report with Some issues => io_ret issues | None => io_fail Stop_Panic end.

(** The end of the loop when the repair budget is used up. *)
Definition settle (history : list ValidatedProposal) (report : ValidationReport) (rounds : N) :
    IO W Stop ValidationLoopResult :=
  if negb (all_checks_pass report) then
    let* issues := issues_of report in io_fail (Stop_Error (exhausted report issues))
  else
    match select_choice history with
    | Err e => io_fail (Stop_Error e)
    | Ok selection =>
        match history !! history_index selection with
        | None => io_fail Stop_Panic
        | Some selected =>
            io_ret {| res_proposal := vp_proposal selected; res_report := vp_report selected;
                      res_repair_rounds := rounds; res_status := Turn_Choice;
                      res_choice := Some {| selected_proposal_version := sel_version selection;
                                            choice_target_gap_mse := sel_mse selection |} |}
        end
    end.

Fixpoint validate_rounds (fuel : nat) (history : list ValidatedProposal) (current : string) (rounds : N) :
    IO W Stop ValidationLoopResult :=
  match fuel with
  | O => io_fail Stop_Fuel
  | S fuel =>
      if (U32_MAX <? nlen history + 1)%N then io_fail Stop_Panic else
      let* report := validate_stage (validate_input history current rounds) in
      let latest := {| vp_proposal := current; vp_report := report |} in
      let history := history ++ [latest] in
      if all_checks_pass report && all_scores_meet_target report then
        io_ret {| res_proposal := current; res_report := report; res_repair_rounds := rounds;
                  res_status := Turn_Pass; res_choice := None |}
      else if (max_repair_rounds loop <=? rounds)%N then settle history report rounds
      else
        let* issues := issues_of report in
        let* repaired := repair_stage (repair_input latest issues (rounds + 1)) in
        validate_rounds fuel history repaired (rounds + 1)
  end.

Definition validate_repair_loop (initial_proposal : string) : IO W Stop ValidationLoopResult :=
  validate_rounds (S (N.to_nat (max_repair_rounds loop))) [] initial_proposal 0.

End loop.

(** ** What a turn keeps of the validation *)

Definition check_evaluation (k : ValidationCheckResult) : TurnCheckEvaluation :=
  {| check_eval_name := check_name k; check_eval_passed := passed k; check_eval_issue := check_issue k |}.
Definition score_evaluation (s : ValidationScoreResult) : TurnScoreEvaluation :=
  {| score_eval_name := score_name s; score_eval_min := min_score s; score_eval_max := max_score s;
     score_eval_target := target_score s; score_eval_score := score s; score_eval_issue := score_issue s |}.

Definition turn_evaluation_of (r : ValidationLoopResult) : TurnEvaluation :=
  {| eval_proposal_version := proposal_version (res_report r); eval_repair_rounds := res_repair_rounds r;
     eval_checks := map check_evaluation (checks (res_report r));
     eval_scores := map score_evaluation (scores (res_report r)); eval_choice := res_choice r |}.

Definition validate_generated_proposal (proposal : string) (max_bytes : N) : result PipelineError string :=
  fail_if is_blank proposal with Pipe_EmptyOutput Stage_Generate in
  fail_if (max_bytes <? slen proposal)%N
  with Pipe_InvalidOutput Stage_Generate "generate_proposal_too_long"
    ("generated proposal exceeds " +:+ pretty max_bytes +:+ " bytes") in
  Ok proposal.

(** ** The choice is the best *)

Definition N_rev_compare (x y : N) : comparison := (y ?= x)%N.

#[global] Instance N_rev_ord_laws : OrdLaws N_rev_compare.
Proof.
  unfold N_rev_compare. split.
  - intros x y. rewrite N.compare_eq_iff. naive_solver.
  - intros x y. apply N.compare_antisym.
  - intros x y z. rewrite !N.compare_lt_iff. lia.
Qed.

(** Smaller gap first, then fewer unmet scores, then the later version. *)
Definition choice_key (s : ChoiceSelection) : f64 * N * N := (sel_mse s, sel_unmet s, sel_version s).
Definition choice_key_compare : f64 * N * N → f64 * N * N → comparison :=
  prod_compare (prod_compare f64_total_cmp N.compare) N_rev_compare.
Definition no_worse (s t : ChoiceSelection) : Prop := choice_key_compare (choice_key s) (choice_key t) ≠ Gt.

Lemma is_better_compare s t :
  is_better s t = is_lt (choice_key_compare (choice_key s) (choice_key t)).
Proof.
  unfold is_better, choice_key_compare, choice_key, prod_compare, N_rev_compare. simpl.
  destruct (f64_total_cmp _ _); simpl; try done. destruct (sel_unmet s ?= sel_unmet t)%N; simpl; try done.
Qed.

Lemma no_worse_trans s t u : no_worse s t → no_worse t u → no_worse s u.
Proof. unfold no_worse. apply cmp_le_trans. unfold choice_key_compare. apply _. Qed.

Lemma no_worse_refl s : no_worse s s.
Proof. unfold no_worse. rewrite cmp_refl; [done|]. unfold choice_key_compare. apply _. Qed.

Lemma is_better_no_worse s t : is_better s t = true → no_worse s t.
Proof. rewrite is_better_compare. unfold no_worse. by destruct (choice_key_compare _ _). Qed.

Lemma not_better_no_worse s t : is_better s t = false → no_worse t s.
Proof.
  rewrite is_better_compare. unfold no_worse. intros Hlt Hgt.
  rewrite (cmp_gt_lt choice_key_compare) in Hgt. by rewrite Hgt in Hlt.
Qed.

Definition passing (p : ValidatedProposal) : Prop := all_checks_pass (vp_report p) = true.

(** A selection stands for a passing proposal and is no worse than any. *)
Definition best_of (history : list (nat * ValidatedProposal)) (s : ChoiceSelection) : Prop :=
  (∃ p, (history_index s, p) ∈ history ∧ passing p ∧ choice_candidate (history_index s) p = Ok s) ∧
  ∀ j q, (j, q) ∈ history → passing q → ∃ t, choice_candidate j q = Ok t ∧ no_worse s t.

Lemma choice_candidate_index i p s : choice_candidate i p = Ok s → history_index s = i.
Proof. unfold choice_candidate. intros H. res_inv. done. Qed.

Lemma choice_steps history best :
  try_fold choice_step None history = Ok best →
  match best with Some s => best_of history s | None => ∀ j q, (j, q) ∈ history → ¬ passing q end.
Proof.
  apply (try_fold_prefix_ind (λ pre best,
    match best with Some s => best_of pre s | None => ∀ j q, (j, q) ∈ pre → ¬ passing q end)).
  { by intros j q ?%not_elem_of_nil. }
  intros pre [i p] suf b b' _ Hb Hstep. unfold choice_step in Hstep.
  assert (∀ j q, (j, q) ∈ pre ++ [(i, p)] ↔ (j, q) ∈ pre ∨ j = i ∧ q = p) as Hsnoc.
  { intros j q. rewrite elem_of_app, list_elem_of_singleton. naive_solver. }
  destruct (all_checks_pass (vp_report p)) eqn:Hp; simpl in Hstep.
  - destruct (choice_candidate i p) as [s|] eqn:Hs; [|done]. pose proof (choice_candidate_index _ _ _ Hs) as Hi.
    destruct b as [t|]; [|injection Hstep as <-].
    + destruct Hb as [(q & Hq & Hpq & Hcq) Hall]. destruct (is_better s t) eqn:Hbet; injection Hstep as <-.
      * split; [exists p; rewrite Hi, Hsnoc; naive_solver|]. intros j r [Hr|[-> ->]]%Hsnoc Hpr.
        { destruct (Hall j r Hr Hpr) as (u & Hu & Hle). exists u. split; [done|].
          eapply no_worse_trans; [by apply is_better_no_worse|done]. }
        exists s. split; [done|]. apply no_worse_refl.
      * split; [exists q; rewrite Hsnoc; naive_solver|]. intros j r [Hr|[-> ->]]%Hsnoc Hpr; [by apply Hall|].
        exists s. split; [done|]. by apply not_better_no_worse.
    + split; [exists p; rewrite Hi, Hsnoc; naive_solver|]. intros j r [Hr|[-> ->]]%Hsnoc Hpr.
      { by destruct (Hb j r Hr). }
      exists s. split; [done|]. apply no_worse_refl.
  - injection Hstep as <-. assert (¬ passing p) as Hnp by (unfold passing; by rewrite Hp).
    destruct b as [s|].
    + destruct Hb as [(q & Hq & Hrest) Hall]. split; [exists q; rewrite Hsnoc; naive_solver|].
      intros j r [Hr|[-> ->]]%Hsnoc Hpr; [by apply Hall|done].
    + intros j r [Hr|[-> ->]]%Hsnoc; [by eapply Hb|done].
Qed.

Lemma select_choice_ok history s :
  select_choice history = Ok s → best_of (imap pair history) s.
Proof.
  unfold select_choice. destruct (try_fold choice_step None _) as [[t|]|] eqn:Hf; simpl; try done.
  intros [= <-]. by apply choice_steps in Hf.
Qed.

Lemma elem_of_enumerated (history : list ValidatedProposal) i p :
  (i, p) ∈ imap pair history ↔ history !! i = Some p.
Proof.
  rewrite list_elem_of_lookup. setoid_rewrite list_lookup_imap_Some. naive_solver.
Qed.

(** ** What the loop guarantees *)

(** Finite scores and targets: a score meets its target or is unmet. *)
Definition report_finite (r : ValidationReport) : Prop :=
  ∀ s, s ∈ scores r → is_finite (score s) = true ∧ is_finite (target_score s) = true.

Lemma report_answers_finite vconfig output r :
  criteria_ok vconfig → report_answers (quality_policy vconfig) (max_issue_bytes vconfig) output r →
  report_finite r.
Proof.
  intros (_ & Hrange & _) [_ Hs] s [i Hi]%list_elem_of_lookup.
  destruct (Forall2_lookup_r _ _ _ _ _ Hs Hi) as (k & Hk & _ & _ & _ & _ & Ht & Hfin & _).
  split; [done|]. rewrite Ht. simpl in Hk. apply list_elem_of_lookup_2 in Hk. by apply Hrange.
Qed.

Definition failing (r : ValidationReport) : Prop :=
  all_checks_pass r && all_scores_meet_target r = false.

Lemma forallb_false_elem {A} (f : A → bool) l : forallb f l = false → ∃ x, x ∈ l ∧ f x = false.
Proof.
  induction l as [|x l IH]; simpl; [done|]. destruct (f x) eqn:Hx; simpl.
  - intros (y & Hy & ?)%IH. exists y. split; [by right|done].
  - intros _. exists x. split; [by left|done].
Qed.

(** A report that fails has an issue to repair. *)
Lemma failing_issues r issues :
  report_finite r → failing r → failed_issues r = Some issues → issues ≠ [].
Proof.
  unfold failing, failed_issues. intros Hfin Hf Hissues ->.
  destruct (mapM check_failure _) as [cs|] eqn:Hc; simpl in Hissues; [|done].
  destruct (mapM score_failure _) as [ss|] eqn:Hs; simpl in Hissues; [|done].
  injection Hissues as [-> ->]%app_nil.
  apply mapM_Some_1 in Hc, Hs. apply Forall2_nil_inv_r in Hc, Hs.
  apply andb_false_iff in Hf as [(k & Hk & Hp)%forallb_false_elem|(s & Hk & Hp)%forallb_false_elem].
  - assert (In k (List.filter (λ k, negb (passed k)) (checks r))) as Hin; [|by rewrite Hc in Hin].
    apply List.filter_In. rewrite <-list_elem_of_In. by rewrite Hp.
  - assert (In s (List.filter unmet (scores r))) as Hin; [|by rewrite Hs in Hin].
    apply List.filter_In. rewrite <-list_elem_of_In. split; [done|]. destruct (Hfin s Hk) as [F1 F2].
    change (f64_lt (score s) (target_score s) = true). rewrite f64_lt_negb_le by done.
    unfold meets in Hp. unfold f64_le. by rewrite Hp.
Qed.

Section loop_proofs.
Context {W : Type} `{World W, TurnEventSink W, Minijinja, ValidationToJson, ValidateJson, ToJson (list ValidationIssue)}.
Context (gateway : LlmConfig) (prompt : Prompt) (vconfig : ValidateConfig) (rconfig : RepairConfig)
  (loop : ValidationLoopConfig).
Context (c : StoryContext) (control : TurnControl) (context : ValidationContext) (initial : string).
Context (Hvalid : ValidateConfig_validate vconfig = Ok tt).

Let run_validate (input : ValidateInput) : IO W PipelineError ValidationReport :=
  validate_execute gateway prompt vconfig (quality_policy vconfig) c control input.
Let run_repair (input : RepairInput) : IO W PipelineError string :=
  repair_execute gateway prompt rconfig (quality_policy vconfig) c control input.

(** The [j]-th proposal was validated as version [j + 1]. *)
Definition validated (j : nat) (p : ValidatedProposal) : Prop :=
  ∃ input (w1 w2 : W), validate_context input = context ∧ validate_proposal input = vp_proposal p ∧
    validate_version input = (N.of_nat j + 1)%N ∧ run_validate input w1 = (Ok (vp_report p), w2).

(** The next proposal is a repair of all the issues of a failing one. *)
Definition repaired_from (p : ValidatedProposal) (next : string) : Prop :=
  failing (vp_report p) ∧ ∃ input issues (w1 w2 : W),
    failed_issues (vp_report p) = Some issues ∧ issues ≠ [] ∧
    repair_proposal input = vp_proposal p ∧ repair_issues input = issues ∧
    run_repair input w1 = (Ok next, w2).

(** A history: each proposal validated, the first the generated one, each
    other a repair of the one before. *)
Record trail (history : list ValidatedProposal) : Prop := {
  trail_validated j p : history !! j = Some p → validated j p;
  trail_first p : history !! 0 = Some p → vp_proposal p = initial;
  trail_next j p q : history !! j = Some p → history !! S j = Some q → repaired_from p (vp_proposal q);
}.

(** What the next proposal to validate is. *)
Definition next_proposal (history : list ValidatedProposal) (current : string) : Prop :=
  match last history with None => current = initial | Some p => repaired_from p current end.

Lemma trail_snoc history p :
  trail history → next_proposal history (vp_proposal p) → validated (length history) p →
  trail (history ++ [p]).
Proof.
  intros [Hv Hfirst Hnext] Hp Hval. split.
  - intros j q [Hq|[Hj Hq]]%lookup_app_Some; [by apply Hv|].
    apply list_lookup_singleton_Some in Hq as [Hj0 <-]. by replace j with (length history) by lia.
  - destruct history as [|p0 history]; simpl; [|apply Hfirst]. intros q [= <-]. exact Hp.
  - intros j q r [Hq|[Hj Hq]]%lookup_app_Some [Hr|[Hj' Hr]]%lookup_app_Some.
    + by eapply Hnext.
    + apply list_lookup_singleton_Some in Hr as [Hj0 <-]. unfold next_proposal in Hp.
      rewrite last_lookup in Hp. replace (pred (length history)) with j in Hp by lia. by rewrite Hq in Hp.
    + apply lookup_lt_Some in Hr. lia.
    + apply list_lookup_singleton_Some in Hq as [Hj0 _]. apply list_lookup_singleton_Some in Hr as [Hj1 _]. lia.
Qed.

Lemma validated_report j p :
  validated j p → proposal_version (vp_report p) = (N.of_nat j + 1)%N ∧
  ∃ output, report_answers (quality_policy vconfig) (max_issue_bytes vconfig) output (vp_report p).
Proof.
  intros (input & w1 & w2 & _ & _ & <- & Hrun). unfold run_validate, validate_execute in Hrun. io_inv.
  match goal with E : parse_validation_report _ _ _ _ = Ok _ |- _ => apply parse_report_ok in E as (? & o & _ & ?) end.
  eauto.
Qed.

Lemma validated_finite j p : validated j p → report_finite (vp_report p) ∧ issues_present (vp_report p).
Proof.
  intros [_ [o Ho]]%validated_report. split.
  - eapply report_answers_finite; [by apply ValidateConfig_validate_ok|done].
  - by eapply report_issues_present.
Qed.

(** What the loop returns. *)
Definition accepted (history : list ValidatedProposal) (i : nat) (r : ValidationLoopResult) : Prop :=
  history !! i = Some {| vp_proposal := res_proposal r; vp_report := res_report r |} ∧
  nlen history = (res_repair_rounds r + 1)%N ∧ (res_repair_rounds r <= max_repair_rounds loop)%N ∧
  all_checks_pass (res_report r) = true ∧
  match res_status r with
  | Turn_Pass => S i = length history ∧ all_scores_meet_target (res_report r) = true ∧ res_choice r = None
  | Turn_Choice =>
      res_repair_rounds r = max_repair_rounds loop ∧
      (∀ p, p ∈ history → failing (vp_report p)) ∧
      ∃ s, history_index s = i ∧ best_of (imap pair history) s ∧ sel_version s = (N.of_nat i + 1)%N ∧
        res_choice r = Some {| selected_proposal_version := sel_version s; choice_target_gap_mse := sel_mse s |}
  end.

(** The state of the loop when a round starts. *)
Record round_inv (history : list ValidatedProposal) (current : string) (rounds : N) : Prop := {
  round_trail : trail history;
  round_next : next_proposal history current;
  round_count : nlen history = rounds;
  round_budget : (rounds <= max_repair_rounds loop)%N;
}.

Lemma next_failing history p : trail history → failing (vp_report p) → last history = Some p →
  ∀ q, q ∈ history → failing (vp_report q).
Proof.
  intros [_ _ Hnext] Hp Hlast q [j Hj]%list_elem_of_lookup. rewrite last_lookup in Hlast.
  destruct (decide (S j < length history)) as [Hlt|Hge].
  - apply lookup_lt_is_Some in Hlt as [r Hr]. by destruct (Hnext j q r Hj Hr).
  - pose proof (lookup_lt_Some _ _ _ Hj). replace (pred (length history)) with j in Hlast by lia. by simplify_eq.
Qed.

Lemma settle_ok history p rounds (w : W) r w' :
  trail (history ++ [p]) → nlen history = rounds → failing (vp_report p) →
  rounds = max_repair_rounds loop →
  settle (history ++ [p]) (vp_report p) rounds w = (Ok r, w') → ∃ i, accepted (history ++ [p]) i r.
Proof.
  intros Htrail Hn Hf Hmax. unfold settle. destruct (all_checks_pass (vp_report p)) eqn:Hp; simpl.
  2:{ intros Hrun. io_inv. }
  destruct (select_choice _) as [s|] eqn:Hs; [|done]. apply select_choice_ok in Hs as Hbest.
  destruct Hbest as [(q & Hq & Hpq & Hcand) Hall]. pose proof Hq as Hq'. apply elem_of_enumerated in Hq.
  rewrite Hq. intros [= <- _]. exists (history_index s). unfold accepted. simpl.
  destruct (validated_report _ _ (trail_validated _ Htrail _ _ Hq)) as [Hver _].
  split; [by destruct q|]. split; [unfold nlen in *; rewrite length_app; simpl; lia|]. split; [lia|].
  split; [done|]. split; [done|]. split.
  { eapply next_failing; [done|exact Hf|by rewrite last_snoc]. }
  exists s. split; [done|]. split; [split; [by exists q|done]|]. split; [|done].
  unfold choice_candidate in Hcand. res_inv. by rewrite <-Hver, <-Hcand.
Qed.

(** One validation. *)
Lemma validate_stage_ok history current rounds (w : W) report w' :
  validate_stage gateway prompt vconfig c control (validate_input loop context history current rounds) w
    = (Ok report, w') →
  validated (length history) {| vp_proposal := current; vp_report := report |}.
Proof.
  intros [w0 Hrun]%run_stage_ok. exists (validate_input loop context history current rounds), w0, w'.
  by split_and!.
Qed.

Lemma round_step history current rounds report issues (w : W) repaired w' :
  let latest := {| vp_proposal := current; vp_report := report |} in
  round_inv history current rounds → validated (length history) latest → failing report →
  (rounds < max_repair_rounds loop)%N → failed_issues report = Some issues →
  repair_stage gateway prompt vconfig rconfig c control
    (repair_input loop context latest issues (rounds + 1)) w = (Ok repaired, w') →
  round_inv (history ++ [latest]) repaired (rounds + 1).
Proof.
  intros latest [Htrail Hnext Hn Hb] Hval Hf Hlt Hissues [w0 Hrun]%run_stage_ok. split.
  - by apply trail_snoc.
  - unfold next_proposal. rewrite last_snoc. split; [done|].
    exists (repair_input loop context latest issues (rounds + 1)), issues, w0, w'.
    split_and!; try done. eapply failing_issues; [|done..]. by destruct (validated_finite _ _ Hval).
  - unfold nlen in *. rewrite length_app. simpl. lia.
  - lia.
Qed.

Lemma validate_rounds_ok fuel : ∀ history current rounds (w : W) r w',
  round_inv history current rounds →
  validate_rounds gateway prompt vconfig rconfig loop c control context fuel history current rounds w
    = (Ok r, w') →
  ∃ history' i, trail history' ∧ accepted history' i r.
Proof.
  induction fuel as [|fuel IH]; intros history current rounds w r w' Hinv Hrun; simpl in Hrun; [done|].
  destruct (U32_MAX <? nlen history + 1)%N; [done|].
  apply io_bind_ok in Hrun as (report & w1 & Hval%validate_stage_ok & Hrun).
  set (latest := {| vp_proposal := current; vp_report := report |}) in *.
  pose proof Hinv as [Htrail Hnext Hn Hb].
  assert (trail (history ++ [latest])) as Htrail' by (by apply trail_snoc).
  destruct (all_checks_pass report && all_scores_meet_target report) eqn:Hpass.
  - injection Hrun as <- _. exists (history ++ [latest]), (length history). split; [done|].
    apply andb_true_iff in Hpass as [Hc Hs]. unfold accepted. simpl. rewrite length_app. simpl.
    split; [by rewrite lookup_app_r, Nat.sub_diag|]. unfold nlen in *. rewrite length_app. simpl.
    split; [lia|]. split; [lia|]. split; [done|]. split; [lia|done].
  - destruct (N.leb_spec (max_repair_rounds loop) rounds) as [Hmax|Hlt].
    + destruct (settle_ok history latest rounds w1 r w') as [i Hi]; [done..|lia|done|]. eauto.
    + apply io_bind_ok in Hrun as (issues & w2 & Hissues & Hrun). unfold issues_of in Hissues.
      destruct (failed_issues report) as [found|] eqn:His; [|done]. injection Hissues as -> <-.
      apply io_bind_ok in Hrun as (repaired & w3 & Hrep & Hrun).
      eapply IH, Hrun. eapply round_step; [done..| |exact Hrep]. by rewrite His.
Qed.

(** The loop neither panics nor runs out of fuel. *)
Lemma settle_err history p rounds (w : W) e w' :
  trail (history ++ [p]) →
  settle (history ++ [p]) (vp_report p) rounds w = (Err e, w') → ∃ err, e = Stop_Error err.
Proof.
  intros Htrail. unfold settle, issues_of.
  assert (validated (length history) p) as Hval.
  { eapply trail_validated; [done|]. by rewrite lookup_app_r, Nat.sub_diag. }
  destruct (all_checks_pass (vp_report p)); simpl.
  - destruct (select_choice _) as [s|] eqn:Hs; [|by intros [= <- _]; eauto].
    apply select_choice_ok in Hs as [(q & Hq & _) _]. apply elem_of_enumerated in Hq. by rewrite Hq.
  - destruct (validated_finite _ _ Hval) as [_ Hpres]. destruct (failed_issues_total _ Hpres) as [issues Hi].
    rewrite Hi. unfold io_bind. simpl. intros [= <- _]. eauto.
Qed.

Lemma validate_rounds_err fuel : ∀ history current rounds (w : W) e w',
  (max_repair_rounds loop <= MAX_REPAIR_ROUNDS_LIMIT)%N →
  round_inv history current rounds → (max_repair_rounds loop - rounds < N.of_nat fuel)%N →
  validate_rounds gateway prompt vconfig rconfig loop c control context fuel history current rounds w
    = (Err e, w') →
  ∃ err, e = Stop_Error err.
Proof.
  induction fuel as [|fuel IH]; intros history current rounds w e w' Hlimit Hinv Hfuel Hrun; [lia|].
  simpl in Hrun. pose proof Hinv as [Htrail Hnext Hn Hb].
  destruct (N.ltb_spec U32_MAX (nlen history + 1)).
  { unfold U32_MAX, MAX_REPAIR_ROUNDS_LIMIT in *. lia. }
  apply io_bind_err in Hrun as [Hrun|(report & w1 & Hval%validate_stage_ok & Hrun)].
  { by eapply run_stage_err. }
  set (latest := {| vp_proposal := current; vp_report := report |}) in *.
  assert (trail (history ++ [latest])) as Htrail' by (by apply trail_snoc).
  destruct (all_checks_pass report && all_scores_meet_target report) eqn:Hpass; [done|].
  destruct (N.leb_spec (max_repair_rounds loop) rounds) as [Hmax|Hlt].
  - by eapply (settle_err history latest).
  - destruct (validated_finite _ _ Hval) as [_ Hpres]. destruct (failed_issues_total _ Hpres) as [issues Hi].
    simpl in Hi. unfold issues_of in Hrun. rewrite Hi in Hrun. unfold io_bind in Hrun at 1. simpl in Hrun.
    apply io_bind_err in Hrun as [Hrun|(repaired & w2 & Hrep & Hrun)]; [by eapply run_stage_err|].
    eapply IH, Hrun; [done| |lia]. by eapply round_step.
Qed.

Lemma round_inv_start : round_inv [] initial 0.
Proof. split; [split|..]; done || lia. Qed.
End loop_proofs.

(** ** The theorems *)

Section loop_theorems.
Context {W : Type} `{World W, TurnEventSink W, Minijinja, ValidationToJson, ValidateJson, ToJson (list ValidationIssue)}.
Context (gateway : LlmConfig) (prompt : Prompt) (vconfig : ValidateConfig) (rconfig : RepairConfig)
  (loop : ValidationLoopConfig).
Context (c : StoryContext) (control : TurnControl) (context : ValidationContext).

(** C26: Under a valid configuration the validation loop returns only a proposal that was validated and passed every
    check: either the last one, which also meets every score, or, when the repair budget is used up without
    such a proposal, the one with the least gap to its targets among all that passed the checks. The first
    proposal is the generated one and each other repairs all the issues, never none, of the one before. *)
Theorem validate_repair_loop_accepts initial (w : W) r w' :
  ValidateConfig_validate vconfig = Ok tt →
  validate_repair_loop gateway prompt vconfig rconfig loop c control context initial w = (Ok r, w') →
  ∃ history i,
    trail (W:=W) gateway prompt vconfig rconfig c control context initial history ∧
    accepted loop history i r.
Proof. intros Hv Hrun. eapply validate_rounds_ok, Hrun; [done|]. apply round_inv_start. Qed.

(** Under a valid configuration the validation loop always ends: it neither panics on a missing issue, an empty
    history or a version out of range, nor needs more rounds than the repair budget and one. *)
Theorem validate_repair_loop_ends initial (w : W) e w' :
  ValidateConfig_validate vconfig = Ok tt → ValidationLoopConfig_validate loop = Ok tt →
  validate_repair_loop gateway prompt vconfig rconfig loop c control context initial w = (Err e, w') →
  ∃ err, e = Stop_Error err.
Proof.
  intros Hv Hl Hrun. eapply validate_rounds_err, Hrun; [done| |apply round_inv_start|lia].
  unfold ValidationLoopConfig_validate in Hl. by destruct (N.ltb_spec MAX_REPAIR_ROUNDS_LIMIT (max_repair_rounds loop)).
Qed.
End loop_theorems.

(** An accepted report has the version asked for and one result for each criterion of the policy, in order: a
    finite score within its range, an issue, not blank and within the limit, exactly when the check failed or the
    score missed its target, and all of it as the evaluator returned it under the criterion's name. *)
Theorem parse_validation_report_answers `{ValidateJson} text version policy max_bytes r :
  parse_validation_report text version policy max_bytes = Ok r →
  proposal_version r = version ∧ issues_present r ∧
  ∃ output, report_from_str text = Ok output ∧ report_answers policy max_bytes output r.
Proof.
  intros (? & output & ? & Ha)%parse_report_ok. split; [done|]. split; [by eapply report_issues_present|eauto].
Qed.

(** ** A scripted loop *)

#[local] Instance demo_validation_json : ValidationToJson := {|
  json_role_view _ := Ok "{}"; json_role_views _ := Ok "[]"; json_decisions _ := Ok "[]";
  json_check_criteria _ := Ok "[]"; json_score_criteria _ := Ok "[]" |}.
#[local] Instance demo_issues_json : ToJson (list ValidationIssue) := λ _, Ok "[]".

Definition demo_scores (x y : N) (missed : bool) : ValidateLlmOutputDto :=
  {| dto_checks := [{| dto_check_name := "logic"; dto_check_passed := true; dto_check_issue := None |}];
     dto_scores := [{| dto_score_name := "quality"; dto_score := f64_div (f64_of_N x) (f64_of_N y);
                       dto_score_issue := if missed then Some " flat " else None |}] |}.

#[local] Instance demo_report_json : ValidateJson := {|
  report_from_str text :=
    if String.eqb text "low" then Ok (demo_scores 5 1 true)
    else if String.eqb text "middle" then Ok (demo_scores 15 2 true)
    else if String.eqb text "high" then Ok (demo_scores 9 1 false)
    else Err {| json_line := 1; json_column := 1; json_message := "eof" |};
  f64_display _ := "0" |}.

Definition demo_validate_config : ValidateConfig :=
  {| val_checks := [default_check "logic" "No contradiction."];
     val_scores := [default_score "quality" "Reads well." "Clear prose."]; max_issue_bytes := 100 |}.

Definition demo_validation : ValidationContext :=
  {| story_goal := "Reach the gate."; val_contribution := {| raw := "go"; processed := "They go." |};
     val_directions := []; val_constraints := []; val_knowledge := {| act_facts := []; act_rumors := [] |};
     val_retrieved_facts := []; val_retrieved_rumors := []; val_role_ids := ["mira"]; val_decisions := [] |}.

Definition run_loop (rounds : N) (replies : list string) : result Stop ValidationLoopResult * ScriptWorld :=
  validate_repair_loop script_llm (script_prompts ["validate.evaluate_story"; "repair.repair_story"])
    demo_validate_config RepairConfig_default {| max_repair_rounds := rounds |} script_story
    {| deadline := 60000 |} demo_validation "They walk." (script_start replies).

(** The proposal, its status and the version chosen. *)
Definition loop_summary (r : result Stop ValidationLoopResult) : option (string * TurnStatus * option N) :=
  match r with
  | Ok res => Some (res_proposal res, res_status res, selected_proposal_version <$> res_choice res)
  | Err _ => None
  end.

Example loop_passes : loop_summary (run_loop 2 ["low"; "They run."; "high"]).1 = Some ("They run.", Turn_Pass, None).
Proof. vm_compute. reflexivity. Qed.
Example loop_chooses :
  loop_summary (run_loop 2 ["low"; "They run."; "middle"; "They crawl."; "low"]).1
  = Some ("They run.", Turn_Choice, Some 2%N).
Proof. vm_compute. reflexivity. Qed.

Definition demo_result : ValidationLoopResult :=
  {| res_proposal := "They run.";
     res_report := {| proposal_version := 2;
       checks := [{| check_name := "logic"; check_description := "No contradiction."; passed := true;
                     check_issue := None |}];
       scores := [{| score_name := "quality"; score_description := "Reads well."; min_score := f64_of_N 0;
                     max_score := f64_of_N 10; target_score := f64_of_N 8;
                     score := f64_div (f64_of_N 9) (f64_of_N 1); score_issue := None |}] |};
     res_repair_rounds := 1; res_status := Turn_Pass; res_choice := None |}.

Lemma validate_repair_loop_accepts_witness :
  ∃ w, run_loop 2 ["low"; "They run."; "high"] = (Ok demo_result, w) ∧
  ∃ history i, accepted {| max_repair_rounds := 2 |} history i demo_result.
Proof.
  assert (ValidateConfig_validate demo_validate_config = Ok tt) as Hv by (vm_compute; reflexivity).
  destruct (run_loop 2 ["low"; "They run."; "high"]) as [r w] eqn:Hrun. exists w.
  assert (r = Ok demo_result) as ->.
  { change r with (r, w).1. rewrite <-Hrun. vm_compute. reflexivity. }
  split; [reflexivity|]. unfold run_loop in Hrun. apply validate_repair_loop_accepts in Hrun; [|exact Hv].
  destruct Hrun as (history & i & _ & Hacc). exists history, i. exact Hacc.
Defined.

Lemma validate_repair_loop_ends_witness :
  ∃ e w, run_loop 1 ["low"] = (Err e, w) ∧ ∃ err, e = Stop_Error err.
Proof.
  assert (ValidateConfig_validate demo_validate_config = Ok tt) as Hv by (vm_compute; reflexivity).
  destruct (run_loop 1 ["low"]) as [[r|e] w] eqn:Hrun; [vm_compute in Hrun; discriminate Hrun|].
  exists e, w. split; [reflexivity|]. unfold run_loop in Hrun.
  apply validate_repair_loop_ends in Hrun; [exact Hrun|exact Hv|vm_compute; reflexivity].
Defined.

Lemma parse_validation_report_answers_witness :
  parse_validation_report "high" 2 (quality_policy demo_validate_config) 100 = Ok (res_report demo_result) ∧
  issues_present (res_report demo_result).
Proof.
  assert (parse_validation_report "high" 2 (quality_policy demo_validate_config) 100
    = Ok (res_report demo_result)) as Hp by (vm_compute; reflexivity).
  split; [exact Hp|]. apply parse_validation_report_answers in Hp as (_ & Hi & _). exact Hi.
Defined.
