(* ===== verification/Baseline.v ===== *)
(** * Baseline: the first stage of a turn

    [pipeline/baseline/baseline_narrative.rs],
    [pipeline/baseline/baseline_knowledge.rs],
    [pipeline/baseline/baseline_prompt.rs],
    [pipeline/baseline/baseline_llm.rs] and [pipeline/baseline/baseline.rs]:
    the narrative projected from the pack, the player's input processed by the
    model, and the knowledge activated by both. *)
From S2P Require Import Prelude.
From S2P Require Import Text.
From S2P Require Import Values.
From S2P Require Import Domain.
From S2P Require Import Narrative.
From S2P Require Import Scan.
From S2P Require Import Activation.
From S2P Require Import ActivationProofs.
From S2P Require Import ActivationProps.
From S2P Require Import Roles.
From S2P Require Import StoryStore.
From S2P Require Import Errors.
From S2P Require Import Effects.
From S2P Require Import Prompt.
From S2P Require Import PromptText.

(** ** The narrative *)

Record NarrativeProjection := {
  proj_directions : list NarrativeDirection; proj_constraints : list BoundedText }.

Definition build_projection (pack : StoryPack) (c : StoryContext) : result NarrativeError NarrativeProjection :=
  let? plan := match pack_narrative pack with
               | Some graph => graph_plan graph (narrative c)
               | None => Ok NarrativePlan_default
               end in
  Ok {| proj_directions := directions plan;
        proj_constraints := pack_constraints pack ++ map con_forbid (constraints plan) |}.

(** ** Knowledge *)

Inductive KnowledgeKey :=
| Key_Fact (id : FactId)
| Key_Rumor (id : RumorId).

(** The derived [Ord] as the lexicographic order of a pair. *)
Definition knowledge_key_pair (k : KnowledgeKey) : bool * string :=
  match k with Key_Fact id => (false, id) | Key_Rumor id => (true, id) end.

#[global] Instance knowledge_key_pair_inj : Inj (=) (=) knowledge_key_pair.
Proof. by intros [i|i] [j|j] [=->]. Qed.

#[global] Instance KnowledgeKey_engine : EngineKey KnowledgeKey := {|
  ek_compare x y := prod_compare bool_compare String.compare (knowledge_key_pair x) (knowledge_key_pair y);
  ek_laws := inj_ord_laws knowledge_key_pair (prod_compare bool_compare String.compare);
  ek_display k := match k with Key_Fact id => "fact:" +:+ id | Key_Rumor id => "rumor:" +:+ id end;
|}.

Record BaselineConfig := { activation_config : ActivationConfig }.

Section knowledge.
Context `{Unicode} `{Sha256}.
Context (c : StoryContext) (contribution : PlayerContribution) (projection : NarrativeProjection).

Definition depth_u16 (value : nat) : N := clamp U16_MAX (N.of_nat value).

Definition knowledge_candidate {B} `{Recallable B} (key : KnowledgeKey) (body : B) :
    ActivationCandidate (K:=KnowledgeKey) :=
  {| cand_key := key; cand_rule := activation body; cand_content := content body |}.

Definition knowledge_candidates : list (ActivationCandidate (K:=KnowledgeKey)) :=
  map (λ '(id, e), knowledge_candidate (Key_Fact id) (fact_body e)) (entries (facts c)) ++
  map (λ '(id, e), knowledge_candidate (Key_Rumor id) (rumor_body e)) (entries (rumors c)).

(** The recent turns from the latest back, each one deeper. *)
Definition recent_fragments : list ScanFragment :=
  imap (λ order t, ScanFragment_new RecentStory (depth_u16 (order + 1)) (turn_segment t))
    (reverse (recent_turns c)).

Definition prior_story : ScanFragment :=
  let prior_depth := depth_u16 (length (recent_turns c) + 1) in
  match summary c with
  | Some s =>
      if is_blank (summary_text s) then ScanFragment_new StoryOpening prior_depth (opening c)
      else ScanFragment_new StorySummaryKind prior_depth (summary_text s)
  | None => ScanFragment_new StoryOpening prior_depth (opening c)
  end.

Definition build_scan_buffer : list ScanFragment :=
  ScanBuffer_new
    ([ScanFragment_new PlayerContributionKind 0 (processed contribution)] ++
     match roles c !! player c with
     | Some role => [ScanFragment_new PlayerRoleName 0 (role_name (role_spec role))]
     | None => []
     end ++
     map (λ d, ScanFragment_new NarrativeDirectionKind 0 (dir_focus d)) (proj_directions projection) ++
     recent_fragments ++ [prior_story]).

Definition run_activation (config : ActivationConfig) : option (ActivationOutcome (K:=KnowledgeKey)) :=
  activate {| at_story_id := story_id c; at_turn_number := ctx_turn_number c |} config
    knowledge_candidates build_scan_buffer.

(** The facts and the rumours of the activated keys. *)
Definition collected_fact (k : KnowledgeKey) : option FactEntry :=
  match k with Key_Fact id => facts c !! id | Key_Rumor _ => None end.
Definition collected_rumor (k : KnowledgeKey) : option RumorEntry :=
  match k with Key_Fact _ => None | Key_Rumor id => rumors c !! id end.

Definition collect_knowledge (outcome : ActivationOutcome (K:=KnowledgeKey)) : ActivatedKnowledge :=
  let activated := act_key <$> out_activated outcome in
  {| act_facts := omap collected_fact activated; act_rumors := omap collected_rumor activated |}.

Definition activate_knowledge (config : ActivationConfig) : option ActivatedKnowledge :=
  collect_knowledge <$> run_activation config.

End knowledge.

(** ** The stage *)

Record BaselineOutput := {
  base_contribution : PlayerContribution;
  base_narrative : NarrativeProjection;
  base_knowledge : ActivatedKnowledge;
}.

Section baseline.
Context {W : Type} `{World W, StoreAccess W, Minijinja} `{Unicode} `{Sha256}.
Context (gateway : LlmConfig) (prompt : Prompt) (config : BaselineConfig).
Context (c : StoryContext) (control : TurnControl).

Definition process_player_input_prompt (input : string) : result PipelineError (list ChatMessage) :=
  render_prompt Stage_Baseline prompt "baseline.process_player_input"
    [("player_input", Json_String input); ("story_summary", Json_String (default "" (story_summary c)));
     ("story_opening", Json_String (story_opening c)); ("recent_story", Json_String (recent_story c))].

Definition process_player_input (input : string) : IO W PipelineError PlayerContribution :=
  let* ms := io_lift (process_player_input_prompt input) in
  let* text := ask_with_effort gateway Stage_Baseline ms Effort_High control in
  io_ret {| raw := input; processed := text |}.

Definition baseline_execute (input : string) : IO W Stop BaselineOutput :=
  let* pack := io_map_err Stop_Error (io_map_err (Pipe_Persistence Stage_Baseline) (w_get_pack (pack_ref c))) in
  let* projection := io_map_err Stop_Error
    (io_lift (map_err (Pipe_Narrative Stage_Baseline) (build_projection pack c))) in
  let* contribution := io_map_err Stop_Error (process_player_input input) in
  match activate_knowledge c contribution projection (activation_config config) with
  | Some known =>
      io_ret {| base_contribution := contribution; base_narrative := projection; base_knowledge := known |}
  | None => io_fail Stop_Fuel
  end.
End baseline.
