(* ===== verification/Recording.v ===== *)
(** * Recording: retrieval, summary and commit

    [pipeline/retrieval/retrieval.rs], [pipeline/summary/config.rs],
    [pipeline/summary/summary_prompt.rs], [pipeline/summary/summary.rs] and
    [pipeline/commit/commit.rs]: what is read back from the story for a turn,
    the summary of the turns that leave the prompt, and the commit that ends a
    turn. *)
From S2P Require Import Prelude.
From S2P Require Import Text.
From S2P Require Import Values.
From S2P Require Import Domain.
From S2P Require Import Roles.
From S2P Require Import StoryStore.
From S2P Require Import StoryLog.
From S2P Require Import Errors.
From S2P Require Import Effects.
From S2P Require Import Prompt.
From S2P Require Import PromptText.

(** ** Retrieval *)

Record RetrievalOutput := { ret_facts : list FactEntry; ret_rumors : list RumorEntry }.
Definition RetrievalOutput_default : RetrievalOutput := {| ret_facts := []; ret_rumors := [] |}.

Definition resolve_fact_id (c : StoryContext) (id : FactId) : result PipelineError FactEntry :=
  ok_or (facts c !! id) (Pipe_InconsistentData Stage_Retrieval "retrieval_fact_missing"
    ("selected fact ID " +:+ id +:+ " is missing from the story context")).
Definition resolve_rumor_id (c : StoryContext) (id : RumorId) : result PipelineError RumorEntry :=
  ok_or (rumors c !! id) (Pipe_InconsistentData Stage_Retrieval "retrieval_rumor_missing"
    ("selected rumor ID " +:+ id +:+ " is missing from the story context")).

Definition retrieve (c : StoryContext) (fact_ids : list FactId) (rumor_ids : list RumorId) :
    result PipelineError RetrievalOutput :=
  let? fs := traverse (resolve_fact_id c) fact_ids in
  let? us := traverse (resolve_rumor_id c) rumor_ids in
  Ok {| ret_facts := fs; ret_rumors := us |}.

(** ** Summary *)

Record SummaryConfig := { summary_turn_count : N }.
Definition SummaryConfig_default : SummaryConfig := {| summary_turn_count := 6 |}.

(** How many of the oldest recent turns the summary will cover, once the
    pending turn is added. *)
Definition covered_turn_count (config : SummaryConfig) (c : StoryContext) : N :=
  if (summary_turn_count config =? 0)%N then 0%N
  else sat_sub (nlen (recent_turns c) + 1) (summary_turn_count config).

Section summary.
Context {W : Type} `{World W, Minijinja}.
Context (gateway : LlmConfig) (prompt : Prompt) (config : SummaryConfig).
Context (c : StoryContext) (control : TurnControl).

Definition summarize_story_prompt (covered : N) : result PipelineError (list ChatMessage) :=
  render_prompt Stage_Summary prompt "summary.summarize_story"
    [("story_summary", Json_String (default "" (story_summary c)));
     ("story_opening", Json_String (story_opening c));
     ("story_to_summarize", Json_String (turns_story (take (N.to_nat covered) (recent_turns c))))].

Definition summarize_story (covered : N) : IO W PipelineError string :=
  let* ms := io_lift (summarize_story_prompt covered) in
  let* text := ask gateway Stage_Summary ms control in
  let text := trim text in
  if is_empty text then io_fail (Pipe_EmptyOutput Stage_Summary) else io_ret text.

(** [recent_turns[covered - 1]] panics out of range. *)
Definition summary_execute : IO W Stop (Change StorySummary) :=
  let covered := covered_turn_count config c in
  if (covered =? 0)%N then io_ret Unchanged
  else
    match recent_turns c !! N.to_nat (covered - 1) with
    | None => io_fail Stop_Panic
    | Some t =>
        let* text := io_map_err Stop_Error (summarize_story covered) in
        io_ret (Replaced {| summary_text := text; covered_through := turn_number t |})
    end.
End summary.

(** ** Commit *)

Record CommitInput := {
  in_contribution : PlayerContribution;
  in_key : IdempotencyKey;
  in_segment : string;
  in_knowledge_change : KnowledgeChange;
  in_status : TurnStatus;
  in_evaluation : TurnEvaluation;
  in_summary : Change StorySummary;
  in_narrative : Change NarrativeState;
  in_life_cycle : Change StoryLifeCycle;
}.

(** The turn number after that of the context. *)
Definition story_commit_of (c : StoryContext) (input : CommitInput) : StoryCommit :=
  {| commit_story_id := story_id c;
     commit_turn :=
       {| turn_number := increment (ctx_turn_number c); idempotency_key := in_key input;
          player_contribution := in_contribution input; turn_segment := in_segment input;
          knowledge_change := in_knowledge_change input; turn_evaluation := in_evaluation input;
          turn_status := in_status input |};
     commit_summary := in_summary input; commit_narrative := in_narrative input;
     commit_life_cycle := in_life_cycle input |}.

Definition commit_execute {W} `{StoreAccess W} (c : StoryContext) (input : CommitInput) :
    IO W PipelineError StoryCommit :=
  let* found := io_map_err (Pipe_Persistence Stage_Commit) (w_find_committed (story_id c) (in_key input)) in
  match found with
  | Some done => io_ret done
  | None => io_map_err (Pipe_Persistence Stage_Commit) (w_commit (story_commit_of c input))
  end.

(** ** Lemmas *)
Lemma retrieve_ok c fact_ids rumor_ids out :
  retrieve c fact_ids rumor_ids = Ok out ↔
  Forall2 (λ id e, facts c !! id = Some e) fact_ids (ret_facts out) ∧
  Forall2 (λ id e, rumors c !! id = Some e) rumor_ids (ret_rumors out).
Proof.
  assert (∀ {A} (o : option A) (e : PipelineError) x, ok_or o e = Ok x ↔ o = Some x) as Hok.
  { intros A [a|] e x; simpl; split; intros [= ->]; done. }
  unfold retrieve. split.
  - intros H. res_inv. repeat match goal with E : traverse _ _ = Ok _ |- _ => apply traverse_ok_Forall2 in E end.
    simpl. split; (eapply Forall2_impl; [eassumption|]); intros id e; apply Hok.
  - intros [Hf Hu].
    assert (traverse (resolve_fact_id c) fact_ids = Ok (ret_facts out)) as ->.
    { apply traverse_ok_Forall2. eapply Forall2_impl; [exact Hf|]. intros id e. apply Hok. }
    assert (traverse (resolve_rumor_id c) rumor_ids = Ok (ret_rumors out)) as ->.
    { apply traverse_ok_Forall2. eapply Forall2_impl; [exact Hu|]. intros id e. apply Hok. }
    by destruct out.
Qed.

(** The summary covers turns the context has, and is not empty. *)
Lemma summary_execute_ok {W} `{World W, Minijinja} gateway prompt config c control (w : W) s w' :
  summary_execute gateway prompt config c control w = (Ok s, w') →
  s = Unchanged ∨ ∃ text t, s = Replaced {| summary_text := text; covered_through := turn_number t |} ∧
    is_empty text = false ∧ (0 < covered_turn_count config c)%N ∧
    recent_turns c !! N.to_nat (covered_turn_count config c - 1) = Some t.
Proof.
  unfold summary_execute. destruct (N.eqb_spec (covered_turn_count config c) 0).
  { intros [= <- _]. by left. }
  destruct (_ !! _) as [t|] eqn:Ht; [|done]. intros Hrun. io_inv. right.
  match goal with E : summarize_story _ _ _ _ _ _ = (Ok ?text, _) |- _ => exists text, t; rename E into Hs end.
  split; [done|]. split; [|split; [lia|done]].
  unfold summarize_story in Hs. io_inv. by destruct (is_empty (trim _)) eqn:He; io_inv.
Qed.

Lemma covered_within config c :
  (0 < covered_turn_count config c)%N → (covered_turn_count config c <= nlen (recent_turns c))%N.
Proof.
  unfold covered_turn_count, sat_sub. destruct (N.eqb_spec (summary_turn_count config) 0); lia.
Qed.

Lemma summary_execute_err {W} `{World W, Minijinja} gateway prompt config c control (w : W) e w' :
  summary_execute gateway prompt config c control w = (Err e, w') → ∃ err, e = Stop_Error err.
Proof.
  unfold summary_execute. destruct (N.eqb_spec (covered_turn_count config c) 0) as [|Hne]; [done|].
  assert (is_Some (recent_turns c !! N.to_nat (covered_turn_count config c - 1))) as [t Ht].
  { apply lookup_lt_is_Some. pose proof (covered_within config c ltac:(lia)). unfold nlen in *. lia. }
  rewrite Ht. intros [Hrun|(text & w1 & _ & Hrun)]%io_bind_err; [|done].
  unfold io_map_err in Hrun. destruct (summarize_story _ _ _ _ _ _) as [[?|err] w1]; simpl in Hrun; [done|].
  injection Hrun as <- _. eauto.
Qed.
