(* ===== verification/Plan.v ===== *)
(** * Plan: the planning stage

    [pipeline/plan/config.rs], [pipeline/plan/plan_candidates.rs],
    [pipeline/plan/plan_roles.rs], [pipeline/plan/plan_prompt.rs],
    [pipeline/plan/plan_llm.rs] and [pipeline/plan/plan.rs]: what is offered to
    the model, and how its selection is checked against the offer. *)
From S2P Require Import Prelude.
From S2P Require Import Text.
From S2P Require Import Values.
From S2P Require Import Domain.
From S2P Require Import Roles.
From S2P Require Import StoryStore.
From S2P Require Import StoryLog.
From S2P Require Import Errors.
From S2P Require Import Effects.
From S2P Require Import Prompt.
From S2P Require Import PromptText.

Record PlanConfig := {
  max_retrieval_candidates_per_kind : N;
  max_story_goal_bytes : N;
  max_player_role_context_bytes : N;
  max_roles_for_generation : N;
  max_character_think_requests : N;
  max_thinking_focus_bytes : N;
}.
Definition PlanConfig_default : PlanConfig :=
  {| max_retrieval_candidates_per_kind := 32; max_story_goal_bytes := 512;
     max_player_role_context_bytes := 16 * 1024; max_roles_for_generation := 16;
     max_character_think_requests := 8; max_thinking_focus_bytes := 512 |}.

(** ** What is offered *)

Record RetrievalCandidate := { cand_id : string; cand_hint : RetrievalHint }.
Record PlanCandidates := {
  cand_facts : list RetrievalCandidate; cand_rumors : list RetrievalCandidate }.
Record RoleCatalogEntry := {
  rc_role_id : RoleId; rc_name : BoundedText; rc_aliases : list BoundedText; rc_hint : RetrievalHint }.

Definition contains_candidate (cs : list RetrievalCandidate) (id : string) : bool :=
  existsb (λ k, bool_decide (cand_id k = id)) cs.
Definition contains_fact (cs : PlanCandidates) (id : FactId) : bool := contains_candidate (cand_facts cs) id.
Definition contains_rumor (cs : PlanCandidates) (id : RumorId) : bool := contains_candidate (cand_rumors cs) id.

(** The entries that are not activated, in key order, up to the limit. *)
Definition unactivated {V} (m : gmap string V) (activated : gset string) (hint : V → RetrievalHint) (limit : N) :
    list RetrievalCandidate :=
  map (λ '(id, e), {| cand_id := id; cand_hint := hint e |})
    (take (N.to_nat limit) (List.filter (λ '(id, _), negb (bool_decide (id ∈ activated))) (entries m))).

Definition collect_candidates (c : StoryContext) (activated : ActivatedKnowledge) (limit : N) : PlanCandidates :=
  {| cand_facts := unactivated (facts c) (list_to_set (map fact_id (act_facts activated)))
       (λ e, fact_retrieval (fact_body e)) limit;
     cand_rumors := unactivated (rumors c) (list_to_set (map rumor_id (act_rumors activated)))
       (λ e, rumor_retrieval (rumor_body e)) limit |}.

Definition collect_role_catalog (c : StoryContext) (player_role : RoleId) : list RoleCatalogEntry :=
  map (λ '(rid, r), {| rc_role_id := rid; rc_name := role_name (role_spec r); rc_aliases := alias (role_spec r);
                       rc_hint := role_retrieval (role_spec r) |})
    (List.filter (λ '(rid, _), negb (bool_decide (rid = player_role))) (entries (roles c))).

Definition resolve_player_role (c : StoryContext) : result PipelineError RoleEntry :=
  ok_or (roles c !! player c) (Pipe_InconsistentData Stage_Plan "plan_player_role_missing"
    ("player role ID " +:+ player c +:+ " is missing from the story context")).

Definition contains_role (catalog : list RoleCatalogEntry) (rid : RoleId) : bool :=
  existsb (λ e, bool_decide (rc_role_id e = rid)) catalog.

(** ** The prompt *)

Section prompt.
Context `{Minijinja, ToJson string} (prompt : Prompt) (config : PlanConfig).

Definition serialize_prompt_text (value code : string) : result PipelineError string :=
  serialize_as Stage_Plan value code.
Definition serialize_catalog_text (value : string) : result PipelineError string :=
  serialize_prompt_text value "plan_role_catalog_serialization".
Definition serialize_role_text (value : string) : result PipelineError string :=
  serialize_prompt_text value "plan_player_role_serialization".

Definition candidate_line (k : RetrievalCandidate) : result PipelineError string :=
  let? id := serialize_prompt_text (cand_id k) "plan_candidate_serialization" in
  let? hint := serialize_prompt_text (cand_hint k) "plan_candidate_serialization" in
  Ok ("- id: " +:+ id +:+ "
  retrieval_hint: " +:+ hint).

Definition retrievable (ks : list RetrievalCandidate) : result PipelineError string :=
  let? lines := traverse candidate_line ks in
  Ok (join "
" lines).

Definition optional_text (value : option BoundedText) : result PipelineError string :=
  match value with Some v => serialize_role_text v | None => Ok "null" end.

Definition player_role_text (r : RoleEntry) : result PipelineError string :=
  let? rid := serialize_role_text (role_id r) in
  let? name := serialize_role_text (role_name (role_spec r)) in
  let? aliases := traverse serialize_role_text (alias (role_spec r)) in
  let? appearance := optional_text (appearance (role_profile r)) in
  let? personality := optional_text (personality (role_profile r)) in
  let? story := serialize_role_text (backstory (role_spec r)) in
  let rendered := "role_id: " +:+ rid +:+ "
name: " +:+ name +:+ "
aliases: [" +:+ join ", " aliases +:+ "]
appearance: " +:+ appearance +:+ "
personality: " +:+ personality +:+ "
backstory: " +:+ story in
  fail_if (max_player_role_context_bytes config <? slen rendered)%N
  with Pipe_InconsistentData Stage_Plan "plan_player_role_context_too_large"
    ("player role context size " +:+ pretty (slen rendered) +:+ " exceeds maximum "
      +:+ pretty (max_player_role_context_bytes config)) in
  Ok rendered.

Definition catalog_entry_text (e : RoleCatalogEntry) : result PipelineError string :=
  let? rid := serialize_catalog_text (rc_role_id e) in
  let? name := serialize_catalog_text (rc_name e) in
  let? aliases := traverse serialize_catalog_text (rc_aliases e) in
  let? hint := serialize_catalog_text (rc_hint e) in
  Ok ("- role_id: " +:+ rid +:+ "
  name: " +:+ name +:+ "
  aliases: [" +:+ join ", " aliases +:+ "]
  retrieval_hint: " +:+ hint).

Definition role_catalog_text (catalog : list RoleCatalogEntry) : result PipelineError string :=
  let? lines := traverse catalog_entry_text catalog in
  Ok (join "
" lines).

Record PlanInput := {
  plan_contribution : PlayerContribution;
  plan_directions : list NarrativeDirection;
  plan_constraints : list BoundedText;
  plan_knowledge : ActivatedKnowledge;
}.

Definition plan_prompt (c : StoryContext) (input : PlanInput) (candidates : PlanCandidates)
    (player_role : RoleEntry) (catalog : list RoleCatalogEntry) : result PipelineError (list ChatMessage) :=
  let? player_text := player_role_text player_role in
  let? catalog_text := role_catalog_text catalog in
  let? facts_text := retrievable (cand_facts candidates) in
  let? rumors_text := retrievable (cand_rumors candidates) in
  render_prompt Stage_Plan prompt "plan.process_story_plan"
    [("story_summary", Json_String (default "" (story_summary c)));
     ("story_opening", Json_String (story_opening c));
     ("recent_story", Json_String (recent_story c));
     ("player_role", Json_String player_text);
     ("known_facts", Json_String (known_facts (act_facts (plan_knowledge input))));
     ("rumors", Json_String (known_rumors (act_rumors (plan_knowledge input))));
     ("retrievable_facts", Json_String facts_text);
     ("retrievable_rumors", Json_String rumors_text);
     ("role_catalog", Json_String catalog_text);
     ("narrative_directions", Json_String (narrative_directions (plan_directions input)));
     ("story_constraints", Json_String (story_constraints (plan_constraints input)));
     ("player_input", Json_String (processed (plan_contribution input)));
     ("max_story_goal_bytes", Json_String (pretty (max_story_goal_bytes config)))].
End prompt.

(** ** The selection *)

Record CharacterThinkRequestDto := { dto_think_role : RoleId; dto_thinking_focus : string }.
Record PlanLlmOutputDto := {
  dto_story_goal : string;
  dto_facts_to_retrieve : list FactId;
  dto_rumors_to_retrieve : list RumorId;
  dto_roles_for_generation : list RoleId;
  dto_character_think_requests : list CharacterThinkRequestDto;
}.
Class PlanJson := plan_from_str : string → result JsonError PlanLlmOutputDto.

Record PlanOutput := {
  plan_story_goal : BoundedText;
  facts_to_retrieve : list FactId;
  rumors_to_retrieve : list RumorId;
  roles_for_generation : list RoleId;
  character_think_requests : list CharacterThinkRequest;
}.

Definition requires_retrieval (p : PlanOutput) : bool :=
  match facts_to_retrieve p, rumors_to_retrieve p with [], [] => false | _, _ => true end.
Definition requires_character_thinking (p : PlanOutput) : bool :=
  match character_think_requests p with [] => false | _ => true end.

Definition plan_invalid (code message : string) : PipelineError := Pipe_InvalidOutput Stage_Plan code message.

Definition validate_fact_id (cs : PlanCandidates) (seen : gset FactId) (id : FactId) :
    result PipelineError (gset FactId) :=
  fail_if bool_decide (id ∈ seen) with plan_invalid "plan_duplicate_fact_id" "duplicate fact ID selected" in
  fail_if negb (contains_fact cs id)
  with plan_invalid "plan_unknown_fact_id" "selected fact ID was not offered" in
  Ok ({[ id ]} ∪ seen).
Definition validate_fact_ids (ids : list FactId) (cs : PlanCandidates) : result PipelineError unit :=
  let? _ := try_fold (validate_fact_id cs) ∅ ids in Ok tt.

Definition validate_rumor_id (cs : PlanCandidates) (seen : gset RumorId) (id : RumorId) :
    result PipelineError (gset RumorId) :=
  fail_if bool_decide (id ∈ seen) with plan_invalid "plan_duplicate_rumor_id" "duplicate rumor ID selected" in
  fail_if negb (contains_rumor cs id)
  with plan_invalid "plan_unknown_rumor_id" "selected rumor ID was not offered" in
  Ok ({[ id ]} ∪ seen).
Definition validate_rumor_ids (ids : list RumorId) (cs : PlanCandidates) : result PipelineError unit :=
  let? _ := try_fold (validate_rumor_id cs) ∅ ids in Ok tt.

Section select.
Context (catalog : list RoleCatalogEntry) (player_role : RoleId) (config : PlanConfig).

Definition validate_generation_role (seen : gset RoleId) (rid : RoleId) : result PipelineError (gset RoleId) :=
  fail_if bool_decide (rid ∈ seen)
  with plan_invalid "plan_duplicate_generation_role_id" "duplicate generation role ID selected" in
  fail_if bool_decide (rid = player_role)
  with plan_invalid "plan_player_generation_role_forbidden" "player role cannot be selected for generation" in
  fail_if negb (contains_role catalog rid)
  with plan_invalid "plan_unknown_generation_role_id" "selected generation role ID was not offered" in
  Ok ({[ rid ]} ∪ seen).

Definition validate_generation_roles (rids : list RoleId) : result PipelineError unit :=
  fail_if (max_roles_for_generation config <? nlen rids)%N
  with plan_invalid "plan_too_many_generation_roles" "generation role selection exceeds the configured limit" in
  let? _ := try_fold validate_generation_role ∅ rids in Ok tt.

Definition validate_think_request (acc : gset RoleId * list CharacterThinkRequest)
    (r : CharacterThinkRequestDto) : result PipelineError (gset RoleId * list CharacterThinkRequest) :=
  let '(seen, validated) := acc in
  let rid := dto_think_role r in
  fail_if bool_decide (rid ∈ seen)
  with plan_invalid "plan_duplicate_character_think_role_id" "duplicate character think role ID selected" in
  fail_if bool_decide (rid = player_role)
  with plan_invalid "plan_player_character_think_forbidden" "player role cannot be a character think target" in
  fail_if negb (contains_role catalog rid)
  with plan_invalid "plan_unknown_character_think_role_id" "selected character think role ID was not offered" in
  let focus := trim (dto_thinking_focus r) in
  fail_if is_empty focus with plan_invalid "plan_thinking_focus_empty" "thinking focus must not be empty" in
  fail_if (max_thinking_focus_bytes config <? slen focus)%N
  with plan_invalid "plan_thinking_focus_too_long" "thinking focus exceeds the configured byte limit" in
  let? focus := map_err (λ e, plan_invalid "plan_thinking_focus_too_long" (CoreError_to_string e))
    (BoundedText_try_new focus "thinking_focus" (max_thinking_focus_bytes config)) in
  Ok ({[ rid ]} ∪ seen, validated ++ [{| think_role_id := rid; thinking_focus := focus |}]).

Definition validate_character_think_requests (rs : list CharacterThinkRequestDto) :
    result PipelineError (list CharacterThinkRequest) :=
  fail_if (max_character_think_requests config <? nlen rs)%N
  with plan_invalid "plan_too_many_character_think_requests"
    "character think requests exceed the configured limit" in
  let? '(_, validated) := try_fold validate_think_request (∅, []) rs in Ok validated.

Definition parse_plan_output `{PlanJson} (text : string) (cs : PlanCandidates) : result PipelineError PlanOutput :=
  let? output := map_err (λ e, plan_invalid "plan_output_invalid_json"
    ("invalid plan JSON at line " +:+ pretty (json_line e) +:+ " column " +:+ pretty (json_column e)))
    (plan_from_str text) in
  let goal := dto_story_goal output in
  fail_if is_blank goal with plan_invalid "plan_story_goal_empty" "story goal must not be empty" in
  fail_if (max_story_goal_bytes config <? slen goal)%N
  with plan_invalid "plan_story_goal_too_long"
    ("story goal size " +:+ pretty (slen goal) +:+ " exceeds maximum " +:+ pretty (max_story_goal_bytes config)) in
  let? _ := validate_fact_ids (dto_facts_to_retrieve output) cs in
  let? _ := validate_rumor_ids (dto_rumors_to_retrieve output) cs in
  let? _ := validate_generation_roles (dto_roles_for_generation output) in
  let? requests := validate_character_think_requests (dto_character_think_requests output) in
  let? story_goal := map_err (λ e, plan_invalid "plan_story_goal_too_long" (CoreError_to_string e))
    (BoundedText_try_new goal "story_goal" (max_story_goal_bytes config)) in
  Ok {| plan_story_goal := story_goal; facts_to_retrieve := dto_facts_to_retrieve output;
        rumors_to_retrieve := dto_rumors_to_retrieve output;
        roles_for_generation := dto_roles_for_generation output; character_think_requests := requests |}.
End select.

(** ** The stage *)

Definition plan_execute {W} `{World W, Minijinja, ToJson string, PlanJson} (gateway : LlmConfig) (prompt : Prompt)
    (config : PlanConfig) (c : StoryContext) (control : TurnControl) (input : PlanInput) :
    IO W PipelineError PlanOutput :=
  let candidates := collect_candidates c (plan_knowledge input) (max_retrieval_candidates_per_kind config) in
  let* player_role := io_lift (resolve_player_role c) in
  let catalog := collect_role_catalog c (player c) in
  let* ms := io_lift (plan_prompt prompt config c input candidates player_role catalog) in
  let* text := ask gateway Stage_Plan ms control in
  io_lift (parse_plan_output catalog (role_id player_role) config text candidates).

(** ** What a plan guarantees *)

(** What the checks of a selection accept. *)
Definition selection_good (catalog : list RoleCatalogEntry) (player_role : RoleId) (config : PlanConfig)
    (cs : PlanCandidates) (d : PlanLlmOutputDto) : Prop :=
  is_blank (dto_story_goal d) = false ∧ (slen (dto_story_goal d) <= max_story_goal_bytes config)%N ∧
  (NoDup (dto_facts_to_retrieve d) ∧ ∀ id, id ∈ dto_facts_to_retrieve d → contains_fact cs id = true) ∧
  (NoDup (dto_rumors_to_retrieve d) ∧ ∀ id, id ∈ dto_rumors_to_retrieve d → contains_rumor cs id = true) ∧
  (nlen (dto_roles_for_generation d) <= max_roles_for_generation config)%N ∧
  (NoDup (dto_roles_for_generation d) ∧ ∀ rid, rid ∈ dto_roles_for_generation d →
    rid ≠ player_role ∧ contains_role catalog rid = true) ∧
  (nlen (dto_character_think_requests d) <= max_character_think_requests config)%N ∧
  NoDup (dto_think_role <$> dto_character_think_requests d) ∧
  ∀ r, r ∈ dto_character_think_requests d →
    dto_think_role r ≠ player_role ∧ contains_role catalog (dto_think_role r) = true ∧
    is_blank (dto_thinking_focus r) = false ∧
    (slen (trim (dto_thinking_focus r)) <= max_thinking_focus_bytes config)%N.

Definition think_request_of (r : CharacterThinkRequestDto) : CharacterThinkRequest :=
  {| think_role_id := dto_think_role r; thinking_focus := trim (dto_thinking_focus r) |}.

Definition plan_of (d : PlanLlmOutputDto) : PlanOutput :=
  {| plan_story_goal := dto_story_goal d; facts_to_retrieve := dto_facts_to_retrieve d;
     rumors_to_retrieve := dto_rumors_to_retrieve d; roles_for_generation := dto_roles_for_generation d;
     character_think_requests := map think_request_of (dto_character_think_requests d) |}.

Section plan_proofs.
Context (catalog : list RoleCatalogEntry) (player_role : RoleId) (config : PlanConfig).

Definition request_good (r : CharacterThinkRequestDto) : Prop :=
  dto_think_role r ≠ player_role ∧ contains_role catalog (dto_think_role r) = true ∧
  is_blank (dto_thinking_focus r) = false ∧
  (slen (trim (dto_thinking_focus r)) <= max_thinking_focus_bytes config)%N.

Lemma validate_think_request_ok acc r acc' :
  validate_think_request catalog player_role config acc r = Ok acc' ↔
  dto_think_role r ∉ acc.1 ∧ request_good r ∧
  acc' = ({[ dto_think_role r ]} ∪ acc.1, acc.2 ++ [think_request_of r]).
Proof.
  destruct acc as [seen out]. unfold validate_think_request, request_good, is_blank, think_request_of. simpl.
  repeat case_bool_decide; simpl; try (split; [done|]; naive_solver).
  destruct (contains_role _ _); simpl; [|split; [done|]; naive_solver].
  destruct (is_empty _); [split; [done|]; naive_solver|].
  destruct (N.ltb_spec (max_thinking_focus_bytes config) (slen (trim (dto_thinking_focus r)))).
  { split; [done|]. intros (_ & (_ & _ & _ & ?) & _). lia. }
  rewrite BoundedText_try_new_ok by done. simpl. naive_solver.
Qed.

Lemma think_requests_fold rs : ∀ seen out,
  (∃ acc, try_fold (validate_think_request catalog player_role config) (seen, out) rs = Ok acc) ↔
  NoDup (dto_think_role <$> rs) ∧ ∀ r, r ∈ rs → dto_think_role r ∉ seen ∧ request_good r.
Proof.
  induction rs as [|r rs IH]; intros seen out; cbn [try_fold].
  - split; [|eauto]. intros _. split; [constructor|]. by intros ? ?%not_elem_of_nil.
  - rewrite fmap_cons, NoDup_cons. destruct (validate_think_request _ _ _ _ _) as [acc|e] eqn:Hr.
    + apply validate_think_request_ok in Hr as (Hni & Hg & ->). simpl in *. rewrite IH. split.
      * intros [Hnd Hall]. split; [split; [|done]|].
        { intros (q & Heq & Hq)%list_elem_of_fmap. apply Hall in Hq as [Hq _]. set_solver. }
        intros q [->|Hq]%elem_of_cons; [done|]. apply Hall in Hq as [? ?]. set_solver.
      * intros [[Hnr Hnd] Hall]. split; [done|]. intros q Hq. destruct (Hall q) as [? ?]; [by right|].
        split; [|done]. rewrite not_elem_of_union, not_elem_of_singleton. split; [|done].
        intros Heq. apply Hnr. rewrite <-Heq. by apply list_elem_of_fmap_2.
    + split; [by intros [? ?]|]. intros [_ Hall]. destruct (Hall r) as [Hni Hg]; [by left|].
      assert (∃ acc, validate_think_request catalog player_role config (seen, out) r = Ok acc) as [acc Ha].
      { eexists. by apply validate_think_request_ok. }
      by rewrite Ha in Hr.
Qed.

Lemma think_requests_result rs : ∀ seen out acc,
  try_fold (validate_think_request catalog player_role config) (seen, out) rs = Ok acc →
  acc.2 = out ++ map think_request_of rs.
Proof.
  induction rs as [|r rs IH]; intros seen out acc; cbn [try_fold].
  - intros [= <-]. by rewrite app_nil_r.
  - destruct (validate_think_request _ _ _ _ _) as [acc1|e] eqn:Hr; [|done].
    apply validate_think_request_ok in Hr as (_ & _ & ->). intros ->%IH. simpl. by rewrite <-app_assoc.
Qed.

(** A loop over identifiers that are checked and must be distinct. *)
Lemma selected_ok (f : gset string → string → result PipelineError (gset string)) (good : string → Prop) l :
  (∀ s x s', f s x = Ok s' ↔ x ∉ s ∧ good x ∧ s' = {[ x ]} ∪ s) →
  (let? _ := try_fold f ∅ l in Ok tt) = Ok tt ↔ NoDup l ∧ ∀ x, x ∈ l → good x.
Proof.
  intros Hf. pose proof (seen_loop (λ x : string, x) good f l Hf) as Hloop. rewrite list_fmap_id in Hloop.
  rewrite <-Hloop. destruct (try_fold f ∅ l); naive_solver.
Qed.

Lemma validate_fact_ids_ok ids cs :
  validate_fact_ids ids cs = Ok tt ↔ NoDup ids ∧ ∀ id, id ∈ ids → contains_fact cs id = true.
Proof.
  apply selected_ok. intros s x s'. unfold validate_fact_id. case_bool_decide; [naive_solver|].
  destruct (contains_fact cs x); simpl; naive_solver.
Qed.

Lemma validate_rumor_ids_ok ids cs :
  validate_rumor_ids ids cs = Ok tt ↔ NoDup ids ∧ ∀ id, id ∈ ids → contains_rumor cs id = true.
Proof.
  apply selected_ok. intros s x s'. unfold validate_rumor_id. case_bool_decide; [naive_solver|].
  destruct (contains_rumor cs x); simpl; naive_solver.
Qed.

Lemma validate_generation_roles_ok rids :
  validate_generation_roles catalog player_role config rids = Ok tt ↔
  (nlen rids <= max_roles_for_generation config)%N ∧
  NoDup rids ∧ ∀ rid, rid ∈ rids → rid ≠ player_role ∧ contains_role catalog rid = true.
Proof.
  unfold validate_generation_roles. destruct (N.ltb_spec (max_roles_for_generation config) (nlen rids)).
  { split; [done|]. intros [? _]. lia. }
  rewrite (selected_ok _ (λ rid, rid ≠ player_role ∧ contains_role catalog rid = true)); [naive_solver|].
  intros s x s'. unfold validate_generation_role. repeat (case_bool_decide; [naive_solver|]).
  destruct (contains_role catalog x); simpl; naive_solver.
Qed.

Lemma validate_think_requests_ok rs out :
  validate_character_think_requests catalog player_role config rs = Ok out ↔
  (nlen rs <= max_character_think_requests config)%N ∧ NoDup (dto_think_role <$> rs) ∧
  (∀ r, r ∈ rs → request_good r) ∧ out = map think_request_of rs.
Proof.
  unfold validate_character_think_requests. destruct (N.ltb_spec (max_character_think_requests config) (nlen rs)).
  { split; [done|]. intros [? _]. lia. }
  pose proof (think_requests_fold rs ∅ []) as Hfold.
  destruct (try_fold _ _ _) as [[seen l]|e] eqn:E.
  - apply think_requests_result in E. simpl in E. subst l.
    destruct (proj1 Hfold ltac:(eauto)) as [Hnd Hall]. split.
    + intros [= <-]. split_and!; try done. intros r Hr. by apply Hall.
    + by intros (_ & _ & _ & ->).
  - split; [done|]. intros (_ & Hnd & Hall & _). destruct (proj2 Hfold) as [acc Ha]; [|done].
    split; [done|]. intros r Hr. split; [apply not_elem_of_empty|by apply Hall].
Qed.

Lemma parse_plan_ok `{PlanJson} text cs out :
  parse_plan_output catalog player_role config text cs = Ok out ↔
  ∃ d, plan_from_str text = Ok d ∧ selection_good catalog player_role config cs d ∧ out = plan_of d.
Proof.
  unfold parse_plan_output. destruct (plan_from_str text) as [d|e]; simpl; [|naive_solver].
  assert ((∃ d', @Ok JsonError _ d = Ok d' ∧ selection_good catalog player_role config cs d' ∧ out = plan_of d') ↔
    selection_good catalog player_role config cs d ∧ out = plan_of d) as -> by naive_solver.
  unfold selection_good, plan_of.
  destruct (is_blank (dto_story_goal d)); [naive_solver|].
  destruct (N.ltb_spec (max_story_goal_bytes config) (slen (dto_story_goal d))).
  { split; [done|]. intros ((_ & ? & _) & _). lia. }
  rewrite <-validate_fact_ids_ok, <-validate_rumor_ids_ok.
  destruct (validate_fact_ids _ _) as [[]|]; [|naive_solver].
  destruct (validate_rumor_ids _ _) as [[]|]; [|naive_solver].
  pose proof (validate_generation_roles_ok (dto_roles_for_generation d)) as Hgen.
  destruct (validate_generation_roles _ _ _ _) as [[]|].
  2:{ split; [done|]. intros ((_ & _ & _ & _ & Hn & Hr & _) & _). pose proof (proj2 Hgen (conj Hn Hr)). done. }
  destruct (proj1 Hgen eq_refl) as [Hn Hroles].
  destruct (validate_character_think_requests _ _ _ _) as [rs|e] eqn:Ht.
  - apply validate_think_requests_ok in Ht as (Hm & Hnd & Hall & ->).
    rewrite BoundedText_try_new_ok by done. simpl. split.
    + intros [= <-]. split; [|done]. destruct Hroles. by split_and!.
    + by intros [_ ->].
  - split; [done|]. intros ((_ & _ & _ & _ & _ & _ & Hm & Hnd & Hall) & _).
    assert (validate_character_think_requests catalog player_role config (dto_character_think_requests d)
      = Ok (map think_request_of (dto_character_think_requests d))) as Hok; [|by rewrite Hok in Ht].
    by apply validate_think_requests_ok.
Qed.
End plan_proofs.

(** ** What is offered is in the story *)
Lemma contains_candidate_spec cs id : contains_candidate cs id = true ↔ id ∈ cand_id <$> cs.
Proof.
  unfold contains_candidate. rewrite existsb_exists, list_elem_of_fmap. split.
  - intros (k & Hk & Heq%bool_decide_eq_true_1). exists k. split; [done|]. by apply list_elem_of_In.
  - intros (k & -> & Hk). exists k. split; [by apply list_elem_of_In|]. by apply bool_decide_eq_true_2.
Qed.

Lemma unactivated_spec {V} (m : gmap string V) activated hint limit id :
  id ∈ cand_id <$> unactivated m activated hint limit → is_Some (m !! id) ∧ id ∉ activated.
Proof.
  unfold unactivated. rewrite list_elem_of_fmap. intros (k & -> & Hk).
  apply list_elem_of_In, in_map_iff in Hk as ([id v] & <- & Hin). apply list_elem_of_In in Hin. simpl.
  assert ((id, v) ∈ List.filter (λ '(i, _), negb (bool_decide (i ∈ activated))) (entries m)) as Hf.
  { by eapply elem_of_prefix; [|apply prefix_take]. }
  apply list_elem_of_In, List.filter_In in Hf as [He Hn]. apply list_elem_of_In, elem_of_entries in He.
  apply negb_true_iff, bool_decide_eq_false_1 in Hn. eauto.
Qed.

Lemma collect_role_catalog_spec c rid :
  contains_role (collect_role_catalog c (player c)) rid = true ↔ is_Some (roles c !! rid) ∧ rid ≠ player c.
Proof.
  unfold contains_role, collect_role_catalog. rewrite existsb_exists. split.
  - intros (e & Hin & Heq%bool_decide_eq_true_1).
    apply in_map_iff in Hin as ([id r] & <- & [He Hn]%List.filter_In). simpl in Heq. subst id. apply list_elem_of_In, elem_of_entries in He.
    apply negb_true_iff, bool_decide_eq_false_1 in Hn. eauto.
  - intros [[r Hr] Hne]. exists {| rc_role_id := rid; rc_name := role_name (role_spec r);
      rc_aliases := alias (role_spec r); rc_hint := role_retrieval (role_spec r) |}. split.
    + apply in_map_iff. exists (rid, r). split; [done|]. apply List.filter_In. split.
      * by apply list_elem_of_In, elem_of_entries.
      * by apply negb_true_iff, bool_decide_eq_false_2.
    + by apply bool_decide_eq_true_2.
Qed.

(** What later stages rely on. *)
Record plan_sound (c : StoryContext) (known : ActivatedKnowledge) (config : PlanConfig) (p : PlanOutput) : Prop := {
  plan_facts id : id ∈ facts_to_retrieve p → is_Some (facts c !! id) ∧ id ∉ map fact_id (act_facts known);
  plan_rumors id : id ∈ rumors_to_retrieve p → is_Some (rumors c !! id) ∧ id ∉ map rumor_id (act_rumors known);
  plan_facts_once : NoDup (facts_to_retrieve p);
  plan_rumors_once : NoDup (rumors_to_retrieve p);
  plan_roles rid : rid ∈ roles_for_generation p → is_Some (roles c !! rid) ∧ rid ≠ player c;
  plan_roles_once : NoDup (roles_for_generation p);
  plan_thinkers rid : rid ∈ think_role_id <$> character_think_requests p →
    is_Some (roles c !! rid) ∧ rid ≠ player c;
  plan_thinkers_once : NoDup (think_role_id <$> character_think_requests p);
  plan_goal : is_blank (plan_story_goal p) = false ∧ (slen (plan_story_goal p) <= max_story_goal_bytes config)%N;
}.

Lemma plan_selection_sound c known config d :
  selection_good (collect_role_catalog c (player c)) (player c) config
    (collect_candidates c known (max_retrieval_candidates_per_kind config)) d →
  plan_sound c known config (plan_of d).
Proof.
  intros (Hg & Hgl & [Hf Hfall] & [Hu Huall] & _ & [Hr Hrall] & _ & Ht & Htall).
  assert (think_role_id <$> map think_request_of (dto_character_think_requests d)
    = dto_think_role <$> dto_character_think_requests d) as Hids.
  { change (map think_request_of) with (fmap (M:=list) think_request_of). by rewrite <-list_fmap_compose. }
  split; simpl; try done.
  - intros id Hid. apply Hfall, contains_candidate_spec, unactivated_spec in Hid as [? Hn]. split; [done|].
    intros Hin. by apply Hn, elem_of_list_to_set.
  - intros id Hid. apply Huall, contains_candidate_spec, unactivated_spec in Hid as [? Hn]. split; [done|].
    intros Hin. by apply Hn, elem_of_list_to_set.
  - intros rid Hrid. apply Hrall in Hrid as [_ Hc]. by apply collect_role_catalog_spec.
  - rewrite Hids. intros rid (r & -> & Hr')%list_elem_of_fmap. apply Htall in Hr' as (_ & Hc & _).
    by apply collect_role_catalog_spec.
  - by rewrite Hids.
Qed.

Lemma plan_execute_ok {W} `{World W, Minijinja, ToJson string, PlanJson} gateway prompt config c control input
    (w : W) p w' :
  (∀ r, roles c !! player c = Some r → role_id r = player c) →
  plan_execute gateway prompt config c control input w = (Ok p, w') →
  plan_sound c (plan_knowledge input) config p.
Proof.
  unfold plan_execute. intros Hid Hrun. io_inv. unfold resolve_player_role in *.
  destruct (roles c !! player c) as [r|] eqn:Hr; [|done]. simpl in *. simplify_eq.
  rewrite (Hid _ eq_refl) in *.
  match goal with E : parse_plan_output _ _ _ _ _ = Ok _ |- _ => apply parse_plan_ok in E as (d & _ & Hg & ->) end.
  by apply plan_selection_sound.
Qed.
