(* ===== verification/Think.v ===== *)
(** * Think: the characters' decisions

    [pipeline/think/config.rs], [pipeline/think/think_context.rs],
    [pipeline/think/think_prompt.rs], [pipeline/think/think_output.rs] and
    [pipeline/think/think.rs]: for each character the plan asks to think, a
    prompt bounded in every part and a decision checked on the way back. *)
From S2P Require Import Prelude.
From S2P Require Import Text.
From S2P Require Import Values.
From S2P Require Import Domain.
From S2P Require Import Roles.
From S2P Require Import StoryStore.
From S2P Require Import StoryLog.
From S2P Require Import Errors.
From S2P Require Import Effects.
From S2P Require Import Prompt.
From S2P Require Import PromptText.
From S2P Require Import Script.

Record ThinkConfig := {
  max_concurrency : N;
  max_profile_bytes : N;
  max_backstory_bytes : N;
  max_memories_in_prompt : N;
  max_seed_memory_bytes : N;
  max_rumor_bytes : N;
  max_decision_bytes : N;
  max_suggested_utterance_bytes : N;
  max_total_output_bytes : N;
}.
Definition ThinkConfig_default : ThinkConfig :=
  {| max_concurrency := 4; max_profile_bytes := 4 * 1024; max_backstory_bytes := 4 * 1024;
     max_memories_in_prompt := 8; max_seed_memory_bytes := 8 * 1024; max_rumor_bytes := 8 * 1024;
     max_decision_bytes := 512; max_suggested_utterance_bytes := 512; max_total_output_bytes := 1024 |}.

Definition newline : string := String (byte_of 10) "".

Section context.
Context `{JsonDisplay} (config : ThinkConfig).

(** Lines are added until one does not fit. *)
Fixpoint push_lines (max : N) (rendered : string) (items : list string) : string :=
  match items with
  | [] => rendered
  | item :: items' =>
      let separator_bytes := if is_empty rendered then 0%N else 1%N in
      if (max <? sat_add USIZE_MAX (sat_add USIZE_MAX (slen rendered) separator_bytes) (slen item))%N then rendered
      else push_lines max ((if is_empty rendered then rendered else rendered +:+ newline) +:+ item) items'
  end.

Definition content_line (content : string) : string := "- " +:+ json_string content.

Definition memory_lines (role : RoleEntry) : list string :=
  map (λ m, content_line (memory_content (memory_body m)))
    (take (N.to_nat (max_memories_in_prompt config)) (values (memories role))).
Definition think_memories (role : RoleEntry) : string :=
  push_lines (max_seed_memory_bytes config) "" (memory_lines role).

Definition rumor_lines (activated retrieved : list RumorEntry) : list string :=
  map (λ r, content_line (rumor_content (rumor_body r))) (activated ++ retrieved).
Definition think_rumors (activated retrieved : list RumorEntry) : string :=
  push_lines (max_rumor_bytes config) "" (rumor_lines activated retrieved).
End context.

(** ** The prompt *)

Record ThinkInput := {
  think_requests : list CharacterThinkRequest;
  think_contribution : PlayerContribution;
  think_activated_rumors : list RumorEntry;
  think_retrieved_rumors : list RumorEntry;
}.

Definition think_inconsistent (code message : string) : PipelineError := Pipe_InconsistentData Stage_Think code message.
Definition think_invalid (code message : string) : PipelineError := Pipe_InvalidOutput Stage_Think code message.

Definition validate_context (role : RoleEntry) (profile : string) (config : ThinkConfig) :
    result PipelineError unit :=
  fail_if (max_profile_bytes config <? slen profile)%N
  with think_inconsistent "think_profile_too_long"
    ("serialized profile size " +:+ pretty (slen profile) +:+ " exceeds maximum "
      +:+ pretty (max_profile_bytes config)) in
  let story := backstory (role_spec role) in
  fail_if (max_backstory_bytes config <? slen story)%N
  with think_inconsistent "think_backstory_too_long"
    ("backstory size " +:+ pretty (slen story) +:+ " exceeds maximum " +:+ pretty (max_backstory_bytes config)) in
  Ok tt.

Section prompt.
Context `{Minijinja, JsonDisplay, ToJson CharacterProfile, ToJson (list BoundedText)}.
Context (prompt : Prompt) (config : ThinkConfig).

Definition serialize_profile (role : RoleEntry) : result PipelineError string :=
  serialize_as Stage_Think (role_profile role) "think_profile_serialization".
Definition serialize_aliases (role : RoleEntry) : result PipelineError string :=
  serialize_as Stage_Think (alias (role_spec role)) "think_aliases_serialization".

Definition character_decision_prompt (c : StoryContext) (input : ThinkInput) (request : CharacterThinkRequest)
    (role : RoleEntry) : result PipelineError (list ChatMessage) :=
  let? profile := serialize_profile role in
  let? _ := validate_context role profile config in
  let? aliases := serialize_aliases role in
  render_prompt Stage_Think prompt "think.character_decision"
    [("story_summary", Json_String (default "" (story_summary c)));
     ("story_opening", Json_String (story_opening c));
     ("recent_story", Json_String (recent_story c));
     ("player_contribution", Json_String (processed (think_contribution input)));
     ("rumors", Json_String
        (think_rumors config (think_activated_rumors input) (think_retrieved_rumors input)));
     ("target_role_id", Json_String (role_id role));
     ("target_name", Json_String (role_name (role_spec role)));
     ("target_aliases", Json_String aliases);
     ("target_profile", Json_String profile);
     ("target_backstory", Json_String (backstory (role_spec role)));
     ("target_memories", Json_String (think_memories config role));
     ("thinking_focus", Json_String (thinking_focus request))].
End prompt.

(** ** The decision *)

Record CharacterDecisionDto := { dto_decision : string; dto_suggested_utterance : option string }.
Class ThinkJson := decision_from_str : string → result JsonError CharacterDecisionDto.

Definition bounded_output (value field : string) (maximum_bytes : N) (code : string) :
    result PipelineError BoundedText :=
  map_err (λ e, think_invalid code (CoreError_to_string e)) (BoundedText_try_new value field maximum_bytes).

Definition parse_character_decision `{ThinkJson} (raw : string) (rid : RoleId) (config : ThinkConfig) :
    result PipelineError CharacterDecision :=
  let? dto := map_err (λ e, think_invalid "think_output_invalid_json" (json_message e)) (decision_from_str raw) in
  let decision := trim (dto_decision dto) in
  fail_if is_empty decision with think_invalid "think_decision_empty" "decision must not be empty" in
  fail_if (max_decision_bytes config <? slen decision)%N
  with think_invalid "think_decision_too_long"
    ("decision size " +:+ pretty (slen decision) +:+ " exceeds maximum " +:+ pretty (max_decision_bytes config)) in
  let utterance := trim <$> dto_suggested_utterance dto in
  fail_if bool_decide (utterance = Some "")
  with think_invalid "think_suggested_utterance_empty" "suggested utterance must not be empty" in
  let utterance_bytes := default 0%N (slen <$> utterance) in
  fail_if match utterance with
          | Some value => (max_suggested_utterance_bytes config <? slen value)%N
          | None => false
          end
  with think_invalid "think_suggested_utterance_too_long"
    ("suggested utterance size " +:+ pretty utterance_bytes +:+ " exceeds maximum "
      +:+ pretty (max_suggested_utterance_bytes config)) in
  let total_bytes := (slen decision + utterance_bytes)%N in
  fail_if (max_total_output_bytes config <? total_bytes)%N
  with think_invalid "think_output_too_long"
    ("combined output size " +:+ pretty total_bytes +:+ " exceeds maximum "
      +:+ pretty (max_total_output_bytes config)) in
  let? decision := bounded_output decision "decision" (max_decision_bytes config) "think_decision_too_long" in
  let? utterance :=
    match utterance with
    | Some value =>
        let? v := bounded_output value "suggested_utterance" (max_suggested_utterance_bytes config)
          "think_suggested_utterance_too_long" in Ok (Some v)
    | None => Ok None
    end in
  Ok {| decision_role_id := rid; decision := decision; suggested_utterance := utterance |}.

(** ** The stage *)

Definition think_request_step (c : StoryContext) (seen : gset RoleId) (r : CharacterThinkRequest) :
    result PipelineError (gset RoleId) :=
  let rid := think_role_id r in
  fail_if bool_decide (rid ∈ seen)
  with think_inconsistent "think_duplicate_request_role_id"
    ("duplicate Character Think request for role " +:+ rid) in
  fail_if bool_decide (rid = player c)
  with think_inconsistent "think_player_role_forbidden"
    ("Character Think request targets player role " +:+ rid) in
  let? _ := ok_or (roles c !! rid) (think_inconsistent "think_resolved_role_missing"
    ("role ID " +:+ rid +:+ " is missing from the story context")) in
  Ok ({[ rid ]} ∪ seen).

Definition validate_think_input (requests : list CharacterThinkRequest) (c : StoryContext) :
    result PipelineError unit :=
  let? _ := try_fold (think_request_step c) ∅ requests in Ok tt.

Section think.
Context {W : Type} `{World W, Minijinja, JsonDisplay, ToJson CharacterProfile, ToJson (list BoundedText), ThinkJson}.
Context (gateway : LlmConfig) (prompt : Prompt) (config : ThinkConfig).
Context (c : StoryContext) (control : TurnControl) (input : ThinkInput).

Definition decide_role (request : CharacterThinkRequest) (role : RoleEntry) :
    IO W PipelineError CharacterDecision :=
  let* ms := io_lift (character_decision_prompt prompt config c input request role) in
  let* raw := ask gateway Stage_Think ms control in
  io_lift (parse_character_decision raw (think_role_id request) config).

Definition think_request (request : CharacterThinkRequest) : IO W PipelineError CharacterDecision :=
  let rid := think_role_id request in
  let* role := io_lift (ok_or (roles c !! rid) (think_inconsistent "think_resolved_role_missing"
    ("role ID " +:+ rid +:+ " is missing from the story context"))) in
  decide_role request role.

(** At most [max_concurrency] calls run at once; the decisions are collected in
    the order of the requests. *)
Definition think_execute : IO W PipelineError (list CharacterDecision) :=
  let* _ := io_lift (validate_think_input (think_requests input) c) in
  io_traverse think_request (think_requests input).
End think.

(** ** Bounded lines *)

(** The line breaks and the lines, as [push_lines] writes them after [rendered]. *)
Definition add_after (sep rendered item : string) : string :=
  (if is_empty rendered then rendered else rendered +:+ sep) +:+ item.
Definition add_line (rendered item : string) : string := add_after newline rendered item.

(** Texts that are not empty, added one after the other, are joined. *)
Lemma foldl_add_after sep l : ∀ rendered,
  is_empty rendered = false → Forall (λ s, is_empty s = false) l →
  foldl (add_after sep) rendered l = join sep (rendered :: l).
Proof.
  induction l as [|x l IH]; intros rendered Hr Hl; [done|]. apply Forall_cons in Hl as [Hx Hl].
  cbn [foldl]. rewrite IH; [|by unfold add_after; rewrite Hr; destruct rendered|done].
  unfold add_after. rewrite Hr. destruct l; simpl; by rewrite !string_app_assoc.
Qed.
Lemma foldl_add_after_nil sep l :
  Forall (λ s, is_empty s = false) l → foldl (add_after sep) "" l = join sep l.
Proof. intros [|x l' Hx Hl]; [done|]. cbn [foldl]. by apply foldl_add_after. Qed.

Lemma newline_length : slen newline = 1%N.
Proof. done. Qed.

Lemma is_empty_slen s : is_empty s = true ↔ slen s = 0%N.
Proof. by destruct s. Qed.

Lemma slen_add_line r item :
  slen (add_line r item) = (slen r + (if is_empty r then 0 else 1) + slen item)%N.
Proof. unfold add_line, add_after. destruct (is_empty r); rewrite !slen_app, ?newline_length; lia. Qed.

(** As many lines as fit, and the next one does not. *)
Lemma push_lines_spec max items : ∀ rendered,
  (max < USIZE_MAX)%N → (slen rendered <= max)%N →
  ∃ k, k <= length items ∧ push_lines max rendered items = foldl add_line rendered (take k items) ∧
    (slen (push_lines max rendered items) <= max)%N ∧
    (∀ item, items !! k = Some item → (max < slen (add_line (push_lines max rendered items) item))%N).
Proof.
  induction items as [|item items IH]; intros rendered Hmax Hr; simpl; [by exists 0|].
  assert ((max <? sat_add USIZE_MAX (sat_add USIZE_MAX (slen rendered) (if is_empty rendered then 0 else 1))
    (slen item))%N = (max <? slen (add_line rendered item))%N) as ->.
  { rewrite slen_add_line. unfold sat_add, clamp.
    destruct (N.leb_spec (slen rendered + (if is_empty rendered then 0 else 1)) USIZE_MAX);
      destruct (is_empty rendered);
      repeat match goal with |- context [(?x <=? USIZE_MAX)%N] => destruct (N.leb_spec x USIZE_MAX) end;
      apply eq_true_iff_eq; rewrite !N.ltb_lt; lia. }
  destruct (N.ltb_spec max (slen (add_line rendered item))) as [Hlt|Hle].
  - exists 0. split_and!; [lia|done|done|]. by intros i [= ->].
  - destruct (IH (add_line rendered item) Hmax Hle) as (k & Hk & Heq & Hlen & Hnext).
    exists (S k). split_and!; [lia|done|done|]. intros i Hi. by apply Hnext.
Qed.

(** ** What a decision guarantees *)

Record decision_sound (config : ThinkConfig) (request : CharacterThinkRequest) (d : CharacterDecision) : Prop := {
  decision_for : decision_role_id d = think_role_id request;
  decision_present : is_empty (decision d) = false;
  decision_bound : (slen (decision d) <= max_decision_bytes config)%N;
  utterance_present u : suggested_utterance d = Some u →
    is_empty u = false ∧ (slen u <= max_suggested_utterance_bytes config)%N;
  decision_total :
    (slen (decision d) + default 0 (slen <$> suggested_utterance d) <= max_total_output_bytes config)%N;
}.

Lemma parse_character_decision_ok `{ThinkJson} raw (request : CharacterThinkRequest) config d :
  parse_character_decision raw (think_role_id request) config = Ok d →
  (∃ dto, decision_from_str raw = Ok dto ∧ decision d = trim (dto_decision dto) ∧
     suggested_utterance d = trim <$> dto_suggested_utterance dto) ∧
  decision_sound config request d.
Proof.
  unfold parse_character_decision, bounded_output. destruct (decision_from_str raw) as [dto|e]; simpl; [|done].
  destruct (is_empty (trim (dto_decision dto))) eqn:He; [done|].
  destruct (N.ltb_spec (max_decision_bytes config) (slen (trim (dto_decision dto)))); [done|].
  rewrite (BoundedText_try_new_ok (trim (dto_decision dto))) by done.
  destruct (dto_suggested_utterance dto) as [u|] eqn:Hdto; simpl.
  - case_bool_decide as Hu; [done|].
    destruct (N.ltb_spec (max_suggested_utterance_bytes config) (slen (trim u))); [done|].
    destruct (N.ltb_spec (max_total_output_bytes config) (slen (trim (dto_decision dto)) + slen (trim u))); [done|].
    rewrite BoundedText_try_new_ok by done. simpl. intros [= <-]. split; [exists dto; by rewrite Hdto|].
    split; simpl; try done. intros ? [= <-]. split; [|done].
    destruct (trim u); [by destruct Hu|done].
  - destruct (N.ltb_spec (max_total_output_bytes config) (slen (trim (dto_decision dto)) + 0)); [done|].
    simpl. intros [= <-]. split; [exists dto; by rewrite Hdto|]. by split.
Qed.

Section think_theorems.
Context {W : Type} `{World W, Minijinja, JsonDisplay, ToJson CharacterProfile, ToJson (list BoundedText), ThinkJson}.
Context (gateway : LlmConfig) (prompt : Prompt) (config : ThinkConfig).
Context (c : StoryContext) (control : TurnControl) (input : ThinkInput).

Lemma validate_think_input_ok requests :
  validate_think_input requests c = Ok tt ↔
  NoDup (think_role_id <$> requests) ∧
  ∀ r, r ∈ requests → think_role_id r ≠ player c ∧ is_Some (roles c !! think_role_id r).
Proof.
  unfold validate_think_input.
  pose proof (seen_loop think_role_id
    (λ r, think_role_id r ≠ player c ∧ is_Some (roles c !! think_role_id r))
    (think_request_step c) requests) as Hloop.
  rewrite <-Hloop; [destruct (try_fold _ _ _); naive_solver|].
  intros s r s'. unfold think_request_step. repeat (case_bool_decide; [naive_solver|]).
  destruct (roles c !! think_role_id r) eqn:Hr; simpl.
  - split; [intros [= <-]; split_and!; eauto|]. by intros (_ & _ & ->).
  - split; [done|]. by intros (_ & [_ [? ?]] & _).
Qed.

(** The characters' decisions come back one for each request and in the order of the requests, each for the
    character asked, not empty and within every limit, and no character is asked twice or is the player's. *)
Theorem think_execute_sound (w : W) ds w' :
  think_execute gateway prompt config c control input w = (Ok ds, w') →
  Forall2 (decision_sound config) (think_requests input) ds ∧
  NoDup (think_role_id <$> think_requests input) ∧
  ∀ r, r ∈ think_requests input → think_role_id r ≠ player c ∧ is_Some (roles c !! think_role_id r).
Proof.
  unfold think_execute. intros ([] & w1 & Hv & Hrun)%io_bind_ok. apply io_lift_ok in Hv as [Hv ->].
  apply validate_think_input_ok in Hv as [? ?]. split; [|done].
  apply io_traverse_ok in Hrun. eapply Forall2_impl; [exact Hrun|].
  intros r d (w1 & w2 & Hd). unfold think_request, decide_role in Hd. io_inv.
  match goal with E : parse_character_decision _ _ _ = Ok _ |- _ => by apply parse_character_decision_ok in E as [_ ?] end.
Qed.
End think_theorems.

(** The memories of a character in a prompt: the first ones in key order, as many as fit. *)
Lemma think_memories_spec `{JsonDisplay} config role :
  (max_seed_memory_bytes config < USIZE_MAX)%N →
  ∃ k, think_memories config role = join newline (take k (memory_lines config role)) ∧
    (slen (think_memories config role) <= max_seed_memory_bytes config)%N ∧
    ∀ item, memory_lines config role !! k = Some item →
      (max_seed_memory_bytes config < slen (add_line (think_memories config role) item))%N.
Proof.
  intros Hmax. destruct (push_lines_spec (max_seed_memory_bytes config) (memory_lines config role) "" Hmax)
    as (k & _ & Heq & ?); [unfold slen; simpl; lia|].
  exists k. split; [|done]. unfold think_memories. rewrite Heq. apply foldl_add_after_nil, Forall_take.
  unfold memory_lines. rewrite Forall_forall. by intros ? (m & -> & _)%list_elem_of_fmap.
Qed.

(** ** A scripted decision *)

#[local] Instance demo_think_json : ThinkJson := λ s,
  if String.eqb s "fox" then Ok {| dto_decision := " Hide. "; dto_suggested_utterance := Some "Shh." |}
  else Err {| json_line := 1; json_column := 1; json_message := "eof" |}.
#[local] Instance demo_display : JsonDisplay := λ _, "null".
#[local] Instance demo_profile_json : ToJson CharacterProfile := λ _, Ok "{}".
#[local] Instance demo_aliases_json : ToJson (list BoundedText) := λ _, Ok "[]".

Definition think_duo (replies : list string) : result PipelineError (list CharacterDecision) * ScriptWorld :=
  think_execute script_llm (script_prompts ["think.character_decision"]) ThinkConfig_default duo_story
    {| deadline := 60000 |}
    {| think_requests := [{| think_role_id := "guard"; thinking_focus := "the gate" |}];
       think_contribution := {| raw := "go"; processed := "They go." |};
       think_activated_rumors := []; think_retrieved_rumors := [] |} (script_start replies).

Definition duo_decision : CharacterDecision :=
  {| decision_role_id := "guard"; decision := "Hide."; suggested_utterance := Some "Shh." |}.

Lemma think_execute_sound_witness :
  think_duo ["fox"] = (Ok [duo_decision], script_start []) ∧
  decision_sound ThinkConfig_default {| think_role_id := "guard"; thinking_focus := "the gate" |} duo_decision.
Proof.
  assert (think_duo ["fox"] = (Ok [duo_decision], script_start [])) as Hrun by (vm_compute; reflexivity).
  split; [exact Hrun|]. unfold think_duo in Hrun. apply think_execute_sound in Hrun as [Hds _].
  exact (proj1 (proj1 (Forall2_cons _ _ _ _ _) Hds)).
Defined.
