(* ===== verification/Generate.v ===== *)
(** * Generate: the generation stage

    [pipeline/generate/config.rs], [pipeline/generate/generate_roles.rs],
    [pipeline/generate/generate_prompt.rs] and [pipeline/generate/generate.rs]:
    the roles and the decisions of a turn projected into the prompt within byte
    budgets, a backstory cut at the longest prefix that fits, and the story
    text asked from the model. *)
From S2P Require Import Prelude.
From S2P Require Import Text.
From S2P Require Import Values.
From S2P Require Import Domain.
From S2P Require Import Roles.
From S2P Require Import StoryStore.
From S2P Require Import StoryLog.
From S2P Require Import Errors.
From S2P Require Import Effects.
From S2P Require Import Prompt.
From S2P Require Import PromptText.
From S2P Require Import Script.
From S2P Require Import Think.

Record GenerateConfig := {
  max_role_bytes_per_role : N; max_role_context_bytes : N; max_decision_context_bytes : N }.
Definition GenerateConfig_default : GenerateConfig :=
  {| max_role_bytes_per_role := 16 * 1024; max_role_context_bytes := 384 * 1024;
     max_decision_context_bytes := 16 * 1024 |}.

Definition generate_inconsistent (code message : string) : PipelineError :=
  Pipe_InconsistentData Stage_Generate code message.

(** ** The roles of the turn *)

Definition generate_role (c : StoryContext) (rid : RoleId) : result PipelineError RoleEntry :=
  ok_or (roles c !! rid) (generate_inconsistent "generate_role_missing"
    ("role ID " +:+ rid +:+ " is missing from the story context")).

Definition generate_role_step (c : StoryContext) (acc : gset RoleId * list RoleEntry) (rid : RoleId) :
    result PipelineError (gset RoleId * list RoleEntry) :=
  fail_if bool_decide (rid ∈ acc.1)
  with generate_inconsistent "generate_duplicate_role_id" ("role ID " +:+ rid +:+ " appears more than once") in
  let? r := generate_role c rid in
  Ok ({[ rid ]} ∪ acc.1, acc.2 ++ [r]).
Definition generate_roles (c : StoryContext) (rids : list RoleId) : result PipelineError (list RoleEntry) :=
  let? '(_, rs) := try_fold (generate_role_step c) (∅, []) rids in Ok rs.

Definition validate_ai_roles (player_role : RoleEntry) (rs : list RoleEntry) : result PipelineError unit :=
  fail_if existsb (λ r, bool_decide (role_id r = role_id player_role)) rs
  with generate_inconsistent "generate_player_role_in_ai_roles" "player role appears in the AI role collection" in
  Ok tt.

Definition validate_decision (player_role : RoleEntry) (rs : list RoleEntry) (seen : gset RoleId)
    (d : CharacterDecision) : result PipelineError (gset RoleId) :=
  let rid := decision_role_id d in
  fail_if bool_decide (rid = role_id player_role)
  with generate_inconsistent "generate_player_character_decision_forbidden"
    "Character Decision targets the player role" in
  fail_if bool_decide (rid ∈ seen)
  with generate_inconsistent "generate_duplicate_character_decision"
    "Character Decision role appears more than once" in
  fail_if negb (existsb (λ r, bool_decide (role_id r = rid)) rs)
  with generate_inconsistent "generate_character_decision_role_missing"
    "Character Decision role is missing from resolved roles" in
  Ok ({[ rid ]} ∪ seen).
Definition validate_decisions (player_role : RoleEntry) (rs : list RoleEntry) (ds : list CharacterDecision) :
    result PipelineError unit :=
  let? _ := try_fold (validate_decision player_role rs) ∅ ds in Ok tt.

Definition validate_aggregate_role_context (player_role roles : string) (config : GenerateConfig) :
    result PipelineError unit :=
  let separator_bytes := if is_empty roles then 0%N else 2%N in
  fail_if (max_role_context_bytes config <?
    sat_add USIZE_MAX (sat_add USIZE_MAX (slen player_role) separator_bytes) (slen roles))%N
  with generate_inconsistent "generate_role_context_too_large"
    "resolved role context exceeds the aggregate byte budget" in
  Ok tt.

(** ** A text cut to fit *)

Definition TRUNCATION_MARKER : string := "[truncated]".

(** [char_indices]: where each character starts. *)
Fixpoint char_indices (offset : nat) (cs : list N) : list nat :=
  match cs with
  | [] => []
  | c :: cs' => offset :: char_indices (offset + String.length (encode_char c)) cs'
  end.
Definition boundaries (value : string) : list nat := char_indices 0 (chars value) ++ [String.length value].

Section truncate.
Context `{JsonDisplay} (value : string) (maximum_bytes : N).

Definition truncated_at (boundary : nat) : string := json_string (str_take boundary value +:+ TRUNCATION_MARKER).

(** An index out of range panics. *)
Definition truncation (index : nat) : result Stop string :=
  match boundaries value !! index with Some b => Ok (truncated_at b) | None => Err Stop_Panic end.

Fixpoint search_boundary (fuel low high : nat) : result Stop nat :=
  match fuel with
  | O => Err Stop_Fuel
  | S fuel =>
      if (low <? high)%nat then
        let middle := low + (high - low) / 2 in
        let? candidate := truncation middle in
        if (slen candidate <=? maximum_bytes)%N then search_boundary fuel (middle + 1) high
        else search_boundary fuel low middle
      else Ok low
  end.

Definition truncated_json_string : result Stop (option string) :=
  let marker := json_string TRUNCATION_MARKER in
  if (maximum_bytes <? slen marker)%N then Ok None
  else
    let high := length (boundaries value) in
    let? low := search_boundary (S high) 0 high in
    let? out := truncation (low - 1) in Ok (Some out).
End truncate.

(** ** Rendering *)

Section render.
Context `{JsonDisplay} (config : GenerateConfig).

Definition aliases_json (aliases : list BoundedText) : Value := Json_Array (map Json_String aliases).
Definition optional_text_json (value : option BoundedText) : Value := default Json_Null (Json_String <$> value).
Definition dialogue_examples_json (profile : CharacterProfile) : Value :=
  Json_Array (map (λ e, Json_Object [("situation", Json_String (situation e)); ("response", Json_String (response e))])
    (dialogue_examples profile)).

(** The mandatory part of a role. *)
Definition role_header (r : RoleEntry) : string :=
  join newline
    ["role_id: " +:+ json_string (role_id r);
     "name: " +:+ json_string (role_name (role_spec r));
     "aliases: " +:+ json_display (aliases_json (alias (role_spec r)));
     "profile.appearance: " +:+ json_display (optional_text_json (appearance (role_profile r)));
     "profile.personality: " +:+ json_display (optional_text_json (personality (role_profile r)));
     "profile.speaking_style: " +:+ json_display (optional_text_json (speaking_style (role_profile r)));
     "profile.dialogue_examples: " +:+ json_display (dialogue_examples_json (role_profile r))].

Definition backstory_prefix : string := newline +:+ "backstory: ".

Definition stop {A} (r : result PipelineError A) : result Stop A := map_err Stop_Error r.

Definition render_backstory (r : RoleEntry) : result Stop string :=
  let rendered := role_header r in
  let story := backstory (role_spec r) in
  let full_backstory := json_string story in
  let base_bytes := sat_add USIZE_MAX (slen rendered) (slen backstory_prefix) in
  if (sat_add USIZE_MAX base_bytes (slen full_backstory) <=? max_role_bytes_per_role config)%N
  then Ok full_backstory
  else
    let minimum_bytes := sat_add USIZE_MAX base_bytes (slen (json_string TRUNCATION_MARKER)) in
    fail_if (max_role_bytes_per_role config <? minimum_bytes)%N
    with Stop_Error (generate_inconsistent "generate_role_projection_too_large"
      "truncated role backstory cannot fit the per-role byte budget") in
    let available := sat_sub (sat_sub (max_role_bytes_per_role config) (slen rendered)) (slen backstory_prefix) in
    let? cut := truncated_json_string story available in
    stop (ok_or cut (generate_inconsistent "generate_role_projection_too_large"
      "truncated role backstory cannot fit the per-role byte budget")).

Definition render_role (r : RoleEntry) : result Stop string :=
  fail_if (max_role_bytes_per_role config <? slen (role_header r))%N
  with Stop_Error (generate_inconsistent "generate_role_projection_too_large"
    "mandatory role identity and profile exceed the per-role byte budget") in
  let? story := render_backstory r in
  Ok (role_header r +:+ backstory_prefix +:+ story).

Definition push_role (rendered : string) (r : RoleEntry) : result Stop string :=
  let? role := render_role r in
  Ok ((if is_empty rendered then rendered else rendered +:+ newline +:+ newline) +:+ role).
Definition render_roles (rs : list RoleEntry) : result Stop string := try_fold push_role "" rs.

Definition decision_line (d : CharacterDecision) : string :=
  "- role_id: " +:+ json_string (decision_role_id d) +:+ newline +:+
  "  decision: " +:+ json_string (decision d) +:+ newline +:+
  "  suggested_utterance: " +:+ json_display (optional_text_json (suggested_utterance d)).

Definition push_decision (rendered : string) (d : CharacterDecision) : result PipelineError string :=
  let item := decision_line d in
  let separator_bytes := if is_empty rendered then 0%N else 1%N in
  fail_if (max_decision_context_bytes config <?
    sat_add USIZE_MAX (sat_add USIZE_MAX (slen rendered) separator_bytes) (slen item))%N
  with generate_inconsistent "generate_decision_context_too_large"
    "Character Decision context exceeds the byte budget" in
  Ok (add_line rendered item).
Definition render_decisions (ds : list CharacterDecision) : result PipelineError string :=
  try_fold push_decision "" ds.

Record GenerateRoleContext := { gen_player_role : string; gen_roles : string; gen_decisions : string }.

Definition project_role_context (c : StoryContext) (rids : list RoleId) (ds : list CharacterDecision) :
    result Stop GenerateRoleContext :=
  let? player_role := stop (generate_role c (player c)) in
  let? rs := stop (generate_roles c rids) in
  let? _ := stop (validate_ai_roles player_role rs) in
  let? _ := stop (validate_decisions player_role rs ds) in
  let? player_text := render_role player_role in
  let? roles_text := render_roles rs in
  let? _ := stop (validate_aggregate_role_context player_text roles_text config) in
  let? decisions_text := stop (render_decisions ds) in
  Ok {| gen_player_role := player_text; gen_roles := roles_text; gen_decisions := decisions_text |}.
End render.

(** ** The stage *)

Record GenerateInput := {
  gen_goal : string;
  gen_contribution : PlayerContribution;
  gen_directions : list NarrativeDirection;
  gen_constraints : list BoundedText;
  gen_knowledge : ActivatedKnowledge;
  gen_retrieved_facts : list FactEntry;
  gen_retrieved_rumors : list RumorEntry;
  gen_role_ids : list RoleId;
  gen_character_decisions : list CharacterDecision;
}.

Section generate.
Context {W : Type} `{World W, Minijinja, JsonDisplay}.
Context `{ToJson (list ProposalCheckCriterion), ToJson (list ProposalScoreCriterion)}.
Context (gateway : LlmConfig) (prompt : Prompt) (config : GenerateConfig) (policy : ProposalQualityPolicy).
Context (c : StoryContext) (control : TurnControl) (input : GenerateInput).

Definition generate_prompt (roles : GenerateRoleContext) : result PipelineError (list ChatMessage) :=
  let? quality := project_proposal_quality Stage_Generate policy in
  render_prompt Stage_Generate prompt "generate.generate_story"
    [("story_summary", Json_String (default "" (story_summary c)));
     ("story_opening", Json_String (story_opening c));
     ("recent_story", Json_String (recent_story c));
     ("known_facts", Json_String
        (known_facts_with_retrieved (act_facts (gen_knowledge input)) (gen_retrieved_facts input)));
     ("rumors", Json_String (rumors_with_retrieved (act_rumors (gen_knowledge input)) (gen_retrieved_rumors input)));
     ("player_role", Json_String (gen_player_role roles));
     ("relevant_roles", Json_String (gen_roles roles));
     ("character_decisions", Json_String (gen_decisions roles));
     ("narrative_directions", Json_String (narrative_directions (gen_directions input)));
     ("story_constraints", Json_String (story_constraints (gen_constraints input)));
     ("story_goal", Json_String (gen_goal input));
     ("player_contribution", Json_String (processed (gen_contribution input)));
     ("check_criteria", Json_String (check_criteria quality));
     ("score_criteria", Json_String (score_criteria quality))].

Definition generate_execute : IO W Stop string :=
  let* roles := io_lift (project_role_context config c (gen_role_ids input) (gen_character_decisions input)) in
  let* ms := io_lift (stop (generate_prompt roles)) in
  io_map_err Stop_Error (ask gateway Stage_Generate ms control).
End generate.

(** ** The cut is the longest that fits *)

Section truncate_proofs.
Context `{JsonDisplayLaws} (value : string) (maximum_bytes : N).
Hypothesis value_valid : valid_utf8 value.

Notation cs := (chars value).

(** The text of the first [k] characters. *)
Definition char_prefix (k : nat) : string := encode (take k cs).

Lemma char_indices_lookup off ds k :
  k < length ds → char_indices off ds !! k = Some (off + String.length (encode (take k ds))).
Proof.
  revert off k. induction ds as [|d ds IH]; intros off [|k] Hk; simpl in *; try lia; [f_equal; lia|].
  rewrite IH by lia. f_equal. pose proof (slen_app (encode_char d) (encode (take k ds))) as Hl. unfold slen in Hl. lia.
Qed.

Lemma length_char_indices off ds : length (char_indices off ds) = length ds.
Proof. revert off. induction ds as [|d ds IH]; intros off; simpl; [done|]. by rewrite IH. Qed.

Lemma length_boundaries : length (boundaries value) = S (length cs).
Proof. unfold boundaries. rewrite length_app, length_char_indices. simpl. lia. Qed.

Lemma boundaries_lookup k : k <= length cs → boundaries value !! k = Some (String.length (char_prefix k)).
Proof.
  intros Hk. unfold boundaries, char_prefix. destruct (decide (k < length cs)).
  - rewrite lookup_app_l by (rewrite length_char_indices; lia). by apply char_indices_lookup.
  - assert (k = length cs) as -> by lia.
    rewrite lookup_app_r, length_char_indices by (rewrite length_char_indices; lia).
    rewrite Nat.sub_diag, take_ge by lia. simpl. by rewrite encode_chars.
Qed.

Lemma str_take_app s t : str_take (String.length s) (s +:+ t) = s.
Proof.
  unfold str_take. induction s as [|a s IH]; [by destruct t|].
  change (String a (String.substring 0 (String.length s) (s +:+ t)) = String a s). by rewrite IH.
Qed.

Lemma str_take_prefix k : str_take (String.length (char_prefix k)) value = char_prefix k.
Proof.
  assert (value = char_prefix k +:+ encode (drop k cs)) as Hv.
  { unfold char_prefix. by rewrite <-encode_app, take_drop, encode_chars. }
  etrans; [apply (f_equal (str_take _) Hv)|apply str_take_app].
Qed.

(** The cut after [k] characters. *)
Definition cut_at (k : nat) : string := json_string (char_prefix k +:+ TRUNCATION_MARKER).

Lemma truncation_cut k : k <= length cs → truncation value k = Ok (cut_at k).
Proof. intros Hk. unfold truncation, truncated_at, cut_at. rewrite boundaries_lookup by done. by rewrite str_take_prefix. Qed.

Lemma slen_cut_at k : (slen (cut_at k) + 2 = slen (json_string (char_prefix k)) + slen (json_string TRUNCATION_MARKER))%N.
Proof. apply json_string_app. Qed.

Lemma cut_at_mono j k : j <= k → (slen (cut_at j) <= slen (cut_at k))%N.
Proof.
  intros Hjk. pose proof (slen_cut_at j). pose proof (slen_cut_at k).
  assert (char_prefix k = char_prefix j +:+ encode (take (k - j) (drop j cs))) as Hk.
  { unfold char_prefix. rewrite <-encode_app. f_equal. rewrite take_drop_commute.
    replace (j + (k - j)) with k by lia.
    rewrite <-(take_drop j (take k cs)) at 1. f_equal. rewrite take_take. f_equal. lia. }
  pose proof (json_string_app (char_prefix j) (encode (take (k - j) (drop j cs)))) as Happ.
  rewrite <-Hk in Happ. pose proof (json_string_length (encode (take (k - j) (drop j cs)))). lia.
Qed.

Lemma search_boundary_spec fuel low high :
  high - low < fuel → low <= high → high <= S (length cs) →
  (∀ i, i < low → (slen (cut_at i) <= maximum_bytes)%N) →
  (∀ i, high <= i → i <= length cs → (maximum_bytes < slen (cut_at i))%N) →
  ∃ r, search_boundary value maximum_bytes fuel low high = Ok r ∧ r <= S (length cs) ∧
    (∀ i, i < r → (slen (cut_at i) <= maximum_bytes)%N) ∧
    (∀ i, r <= i → i <= length cs → (maximum_bytes < slen (cut_at i))%N).
Proof.
  revert low high.
  induction fuel as [|fuel IH]; intros low high Hf Hlh Hh Hlow Hhigh; [lia|]. cbn [search_boundary].
  destruct (Nat.ltb_spec low high).
  2:{ exists low. split_and!; try done; [lia|]. intros i ??. apply Hhigh; lia. }
  assert (low <= low + (high - low) / 2 < high) as [? ?].
  { pose proof (Nat.div_lt (high - low) 2 ltac:(lia) ltac:(lia)). lia. }
  rewrite truncation_cut by lia. cbv zeta iota.
  destruct (N.leb_spec (slen (cut_at (low + (high - low) / 2))) maximum_bytes) as [Hle|Hgt].
  - apply IH; try lia; [|done]. intros i Hi. etrans; [|exact Hle]. apply cut_at_mono. lia.
  - apply IH; try lia; [done|]. intros i Hi ?. eapply N.lt_le_trans; [exact Hgt|]. by apply cut_at_mono.
Qed.

Lemma truncated_fits :
  (slen (json_string TRUNCATION_MARKER) <= maximum_bytes)%N →
  ∃ k, truncated_json_string value maximum_bytes = Ok (Some (cut_at k)) ∧ k <= length cs ∧
    (slen (cut_at k) <= maximum_bytes)%N ∧
    ∀ j, k < j → j <= length cs → (maximum_bytes < slen (cut_at j))%N.
Proof.
  intros Hm. unfold truncated_json_string. destruct (N.ltb_spec maximum_bytes (slen (json_string TRUNCATION_MARKER))); [lia|].
  destruct (search_boundary_spec (S (length (boundaries value))) 0 (length (boundaries value)))
    as (r & -> & Hr & Hin & Hout); rewrite ?length_boundaries; try lia.
  assert (0 < r) as Hpos.
  { destruct r; [|lia]. specialize (Hout 0 ltac:(lia) ltac:(lia)).
    change (cut_at 0) with (json_string TRUNCATION_MARKER) in Hout. lia. }
  simpl. rewrite truncation_cut by lia. exists (r - 1). split; [done|]. split; [lia|].
  split; [apply Hin; lia|]. intros j ??. apply Hout; lia.
Qed.

(** Cutting a text to a byte budget always returns, with nothing exactly when the marker alone does not fit,
    and else with the longest prefix of whole characters whose JSON string, marker included, fits. *)
Theorem truncated_json_string_longest :
  ∃ r, truncated_json_string value maximum_bytes = Ok r ∧
  match r with
  | None => (maximum_bytes < slen (json_string TRUNCATION_MARKER))%N
  | Some out => ∃ k, k <= length cs ∧ out = cut_at k ∧ (slen out <= maximum_bytes)%N ∧
      ∀ j, k < j → j <= length cs → (maximum_bytes < slen (cut_at j))%N
  end.
Proof.
  destruct (N.le_gt_cases (slen (json_string TRUNCATION_MARKER)) maximum_bytes) as [Hm|Hm].
  - destruct (truncated_fits Hm) as (k & Heq & Hk & Hle & Hmax). exists (Some (cut_at k)). split; [done|].
    by exists k.
  - exists None. split; [|done]. unfold truncated_json_string. by rewrite (proj2 (N.ltb_lt _ _) Hm).
Qed.
End truncate_proofs.

(** ** What a role context guarantees *)

(** A saturating sum compares with a small limit as the sum does. *)
Lemma sat_sum_le max x y z :
  (max < USIZE_MAX)%N →
  ((sat_add USIZE_MAX (sat_add USIZE_MAX x y) z <= max) ↔ (x + y + z <= max))%N.
Proof.
  intros Hmax. unfold sat_add, clamp.
  destruct (N.leb_spec (x + y) USIZE_MAX);
    match goal with |- context [(?a <=? USIZE_MAX)%N] => destruct (N.leb_spec a USIZE_MAX) end; lia.
Qed.

Section role_context.
Context `{JsonDisplayLaws} (config : GenerateConfig).

(** The bytes of a role before its backstory. *)
Definition base_bytes (r : RoleEntry) : N := (slen (role_header r) + slen backstory_prefix)%N.

(** The text of a role: the mandatory part and the backstory, whole when it
    fits and else cut at the longest prefix that fits. *)
Definition role_text (r : RoleEntry) (out : string) : Prop :=
  let story := backstory (role_spec r) in
  ∃ text, out = role_header r +:+ backstory_prefix +:+ text ∧
    (slen out <= max_role_bytes_per_role config)%N ∧
    (text = json_string story ∨
     (max_role_bytes_per_role config < base_bytes r + slen (json_string story))%N ∧
     ∃ k, k <= length (chars story) ∧ text = cut_at story k ∧
       ∀ j, k < j → j <= length (chars story) →
         (max_role_bytes_per_role config < base_bytes r + slen (cut_at story j))%N).

Hypothesis limit_small : (max_role_bytes_per_role config < USIZE_MAX)%N.

Lemma slen_role_text r text :
  slen (role_header r +:+ backstory_prefix +:+ text) = (base_bytes r + slen text)%N.
Proof. unfold base_bytes. rewrite !slen_app. lia. Qed.

(** The errors that say that a part of the prompt does not fit its budget. *)
Definition too_large (e : Stop) : Prop :=
  ∃ code message, e = Stop_Error (generate_inconsistent code message) ∧
    code ∈ ["generate_role_projection_too_large"; "generate_role_context_too_large";
            "generate_decision_context_too_large"].

Lemma too_large_intro code message :
  bool_decide (code ∈ ["generate_role_projection_too_large"; "generate_role_context_too_large";
    "generate_decision_context_too_large"]) = true →
  too_large (Stop_Error (generate_inconsistent code message)).
Proof. intros Hc%bool_decide_eq_true. by exists code, message. Qed.

Lemma render_role_result r :
  valid_utf8 (backstory (role_spec r)) →
  match render_role config r with Ok out => role_text r out | Err e => too_large e end.
Proof.
  intros Hv. unfold render_role, role_text.
  destruct (N.ltb_spec (max_role_bytes_per_role config) (slen (role_header r))); [by apply too_large_intro|].
  unfold render_backstory, sat_sub. cbv zeta.
  set (story := backstory (role_spec r)) in *.
  destruct (N.leb_spec (sat_add USIZE_MAX (sat_add USIZE_MAX (slen (role_header r)) (slen backstory_prefix))
    (slen (json_string story))) (max_role_bytes_per_role config)) as [Hfit|Hfit].
  - apply sat_sum_le in Hfit; [|done]. exists (json_string story). split; [done|].
    rewrite slen_role_text. unfold base_bytes. split; [lia|by left].
  - rewrite N.lt_nge, sat_sum_le in Hfit by done.
    destruct (N.ltb_spec (max_role_bytes_per_role config) (sat_add USIZE_MAX (sat_add USIZE_MAX
      (slen (role_header r)) (slen backstory_prefix)) (slen (json_string TRUNCATION_MARKER)))) as [|Hmin];
      [by apply too_large_intro|].
    apply sat_sum_le in Hmin; [|done].
    destruct (truncated_fits story (max_role_bytes_per_role config - slen (role_header r) - slen backstory_prefix)%N)
      as (k & -> & Hk & Hle & Hmax); [done|lia|]. simpl.
    exists (cut_at story k). split; [done|]. rewrite slen_role_text. unfold base_bytes. split; [lia|]. right.
    split; [lia|]. exists k. split; [done|]. split; [done|]. intros j Hj Hjl.
    specialize (Hmax j Hj Hjl). lia.
Qed.

Lemma role_text_nonempty r out : role_text r out → is_empty out = false.
Proof. by intros (text & -> & _). Qed.

Lemma render_roles_result rs : ∀ rendered,
  Forall (λ r, valid_utf8 (backstory (role_spec r))) rs →
  match try_fold (push_role config) rendered rs with
  | Ok out => ∃ texts, Forall2 role_text rs texts ∧ out = foldl (add_after (newline +:+ newline)) rendered texts
  | Err e => too_large e
  end.
Proof.
  induction rs as [|r rs IH]; intros rendered Hv; [by exists []|]. apply Forall_cons in Hv as [Hr Hv].
  cbn [try_fold]. unfold push_role at 1. pose proof (render_role_result r Hr) as Hrole.
  destruct (render_role config r) as [out|e]; [|done].
  specialize (IH (add_after (newline +:+ newline) rendered out) Hv). unfold add_after at 1 in IH.
  destruct (try_fold _ _ rs) as [all|e]; [|done]. destruct IH as (texts & Ht & ->).
  exists (out :: texts). split; [by constructor|done].
Qed.

Lemma render_roles_join rs out :
  Forall (λ r, valid_utf8 (backstory (role_spec r))) rs → render_roles config rs = Ok out →
  ∃ texts, Forall2 role_text rs texts ∧ out = join (newline +:+ newline) texts.
Proof.
  intros Hv Hout. unfold render_roles in Hout. pose proof (render_roles_result rs "" Hv) as Hr.
  rewrite Hout in Hr. destruct Hr as (texts & Ht & ->). exists texts. split; [done|].
  apply foldl_add_after_nil. clear Hout. induction Ht; constructor; [by eapply role_text_nonempty|].
  apply IHHt. by inversion Hv.
Qed.

Hypothesis decisions_small : (max_decision_context_bytes config < USIZE_MAX)%N.

Lemma push_decision_ok rendered d out :
  push_decision config rendered d = Ok out ↔
  out = add_line rendered (decision_line d) ∧ (slen out <= max_decision_context_bytes config)%N.
Proof.
  unfold push_decision. cbv zeta.
  destruct (N.ltb_spec (max_decision_context_bytes config) (sat_add USIZE_MAX (sat_add USIZE_MAX (slen rendered)
    (if is_empty rendered then 0 else 1)%N) (slen (decision_line d)))) as [Hgt|Hle].
  - split; [done|]. intros [-> Hle]. rewrite slen_add_line in Hle.
    apply N.lt_nge in Hgt. by rewrite sat_sum_le in Hgt.
  - apply sat_sum_le in Hle; [|done]. split; [|by intros [-> _]]. intros [= <-]. by rewrite slen_add_line.
Qed.

Lemma render_decisions_result ds : ∀ rendered,
  match try_fold (push_decision config) rendered ds with
  | Ok out => out = foldl add_line rendered (map decision_line ds) ∧
      (ds = [] ∨ (slen out <= max_decision_context_bytes config)%N)
  | Err e => too_large (Stop_Error e)
  end.
Proof.
  induction ds as [|d ds IH]; intros rendered; [by split; [|left]|]. cbn [try_fold].
  destruct (push_decision config rendered d) as [out|e] eqn:Hd.
  - apply push_decision_ok in Hd as [Heq Hle]. specialize (IH out).
    destruct (try_fold _ _ ds) as [all|e]; [|done]. destruct IH as [-> Hall]. split; [by rewrite Heq|]. right.
    by destruct Hall as [->|Hall].
  - unfold push_decision in Hd. cbv zeta in Hd. destruct (_ <? _)%N; [|done]. injection Hd as <-.
    by apply too_large_intro.
Qed.

Lemma render_decisions_join ds out :
  render_decisions config ds = Ok out →
  out = join newline (map decision_line ds) ∧ (slen out <= max_decision_context_bytes config)%N.
Proof.
  intros Hout. unfold render_decisions in Hout. pose proof (render_decisions_result ds "") as Hr.
  rewrite Hout in Hr. destruct Hr as [-> Hle]. split.
  - apply foldl_add_after_nil. rewrite Forall_forall. by intros ? (d & -> & _)%list_elem_of_fmap.
  - destruct Hle as [->|Hle]; [unfold slen; simpl; lia|done].
Qed.
End role_context.

(** ** The roles shown to the model *)

(** The roles a generation may show: distinct, in the story, none of them the
    player's, with at most one decision each and no other decision. *)
Record roles_chosen (c : StoryContext) (rids : list RoleId) (ds : list CharacterDecision)
    (p : RoleEntry) (rs : list RoleEntry) : Prop := {
  chosen_player : roles c !! player c = Some p;
  chosen_once : NoDup rids;
  chosen_roles : Forall2 (λ rid r, roles c !! rid = Some r) rids rs;
  chosen_not_player r : r ∈ rs → role_id r ≠ role_id p;
  chosen_decisions_once : NoDup (decision_role_id <$> ds);
  chosen_decisions d : d ∈ ds → decision_role_id d ≠ role_id p ∧ decision_role_id d ∈ role_id <$> rs;
}.

Lemma generate_roles_fold c rids : ∀ seen out rs,
  (∃ s', try_fold (generate_role_step c) (seen, out) rids = Ok (s', rs)) ↔
  NoDup rids ∧ (∀ rid, rid ∈ rids → rid ∉ seen) ∧
  ∃ more, rs = out ++ more ∧ Forall2 (λ rid r, roles c !! rid = Some r) rids more.
Proof.
  induction rids as [|rid rids IH]; intros seen out rs; cbn [try_fold].
  - split.
    + intros (s' & [= -> ->]). split; [constructor|]. split; [by intros ? ?%not_elem_of_nil|].
      exists []. by rewrite app_nil_r.
    + intros (_ & _ & more & -> & Hm). inversion Hm; subst. rewrite app_nil_r. eauto.
  - unfold generate_role_step at 1, generate_role. simpl. rewrite NoDup_cons. case_bool_decide as Hin; simpl.
    { split; [by intros [? ?]|]. intros (_ & Hn & _). by destruct (Hn rid ltac:(left)). }
    destruct (roles c !! rid) as [r|] eqn:Hr; simpl.
    + rewrite IH. split.
      * intros (Hnd & Hs & more & -> & Hm). split; [split; [|done]|].
        { intros Hi. apply Hs in Hi. set_solver. }
        split; [intros x [->|Hx]%elem_of_cons; [done|]; apply Hs in Hx; set_solver|].
        exists (r :: more). split; [by rewrite <-app_assoc|by constructor].
      * intros ([Hni Hnd] & Hs & more & -> & Hm). inversion Hm as [|? r' ? more' Hr' Hm']; subst.
        rewrite Hr in Hr'. injection Hr' as <-. split; [done|]. split.
        { intros x Hx. apply not_elem_of_union. split; [|by apply Hs; right].
          rewrite not_elem_of_singleton. by intros ->. }
        exists more'. by rewrite <-app_assoc.
    + split; [by intros [? ?]|]. intros (_ & _ & more & _ & Hm). inversion Hm; congruence.
Qed.

Lemma generate_roles_ok c rids rs :
  generate_roles c rids = Ok rs ↔ NoDup rids ∧ Forall2 (λ rid r, roles c !! rid = Some r) rids rs.
Proof.
  unfold generate_roles. pose proof (generate_roles_fold c rids ∅ [] rs) as Hf.
  destruct (try_fold _ _ _) as [[s' rs']|e] eqn:E; simpl.
  - split.
    + intros [= ->]. destruct (proj1 Hf ltac:(eauto)) as (? & _ & more & -> & ?). done.
    + intros [Hnd Hm]. destruct (proj2 Hf) as [? [= -> ->]]; [|done].
      split; [done|]. split; [by intros ? _ ?%elem_of_empty|eauto].
  - split; [done|]. intros [Hnd Hm]. destruct (proj2 Hf) as [? ?]; [|done].
    split; [done|]. split; [by intros ? _ ?%elem_of_empty|eauto].
Qed.

Lemma validate_ai_roles_ok p rs : validate_ai_roles p rs = Ok tt ↔ ∀ r, r ∈ rs → role_id r ≠ role_id p.
Proof.
  unfold validate_ai_roles. destruct (existsb _ rs) eqn:E.
  - split; [done|]. intros Hall. apply existsb_exists in E as (r & Hr & Heq%bool_decide_eq_true_1).
    by destruct (Hall r); [apply list_elem_of_In|].
  - split; [|done]. intros _ r Hr Heq. assert (existsb (λ r, bool_decide (role_id r = role_id p)) rs = true); [|congruence].
    apply existsb_exists. exists r. split; [by apply list_elem_of_In|by apply bool_decide_eq_true_2].
Qed.

Lemma validate_decisions_ok p rs ds :
  validate_decisions p rs ds = Ok tt ↔ NoDup (decision_role_id <$> ds) ∧
  ∀ d, d ∈ ds → decision_role_id d ≠ role_id p ∧ decision_role_id d ∈ role_id <$> rs.
Proof.
  unfold validate_decisions. rewrite <-(seen_loop decision_role_id
    (λ d, decision_role_id d ≠ role_id p ∧ decision_role_id d ∈ role_id <$> rs) (validate_decision p rs) ds);
    [destruct (try_fold _ _ _); naive_solver|].
  intros s d s'. unfold validate_decision. cbv zeta. repeat (case_bool_decide; [naive_solver|]).
  assert (existsb (λ r, bool_decide (role_id r = decision_role_id d)) rs = true ↔ decision_role_id d ∈ role_id <$> rs) as He.
  { rewrite existsb_exists, list_elem_of_fmap. setoid_rewrite <-list_elem_of_In.
    setoid_rewrite bool_decide_eq_true. naive_solver. }
  destruct (existsb _ rs); simpl; naive_solver.
Qed.

Section projection.
Context `{JsonDisplayLaws} (config : GenerateConfig) (c : StoryContext).
Context (rids : list RoleId) (ds : list CharacterDecision).
Hypothesis role_limit : (max_role_bytes_per_role config < USIZE_MAX)%N.
Hypothesis context_limit : (max_role_context_bytes config < USIZE_MAX)%N.
Hypothesis decision_limit : (max_decision_context_bytes config < USIZE_MAX)%N.
Hypothesis backstories_valid : ∀ rid r, roles c !! rid = Some r → valid_utf8 (backstory (role_spec r)).

(** The texts shown for the roles and the decisions chosen. *)
Definition roles_shown (p : RoleEntry) (rs : list RoleEntry) (out : GenerateRoleContext) : Prop :=
  role_text config p (gen_player_role out) ∧
  (∃ texts, Forall2 (role_text config) rs texts ∧ gen_roles out = join (newline +:+ newline) texts) ∧
  (slen (gen_player_role out) + slen (gen_roles out) <= max_role_context_bytes config)%N ∧
  gen_decisions out = join newline (map decision_line ds) ∧
  (slen (gen_decisions out) <= max_decision_context_bytes config)%N.

Lemma project_chosen p rs :
  roles_chosen c rids ds p rs →
  match project_role_context config c rids ds with
  | Ok out => roles_shown p rs out
  | Err e => too_large e
  end.
Proof.
  intros [Hp Hnd Hrs Hnp Hdn Hds]. unfold project_role_context, generate_role. rewrite Hp. cbn [ok_or stop map_err].
  rewrite (proj2 (generate_roles_ok c rids rs)) by done. cbn [stop map_err].
  rewrite (proj2 (validate_ai_roles_ok p rs)) by done. cbn [stop map_err].
  rewrite (proj2 (validate_decisions_ok p rs ds)) by done. cbn [stop map_err].
  assert (Forall (λ r, valid_utf8 (backstory (role_spec r))) rs) as Hv.
  { rewrite Forall_forall. intros r (i & Hi)%list_elem_of_lookup.
    destruct (Forall2_lookup_r _ _ _ _ _ Hrs Hi) as (rid & _ & Hr). by eapply backstories_valid. }
  pose proof (render_role_result config role_limit p (backstories_valid _ _ Hp)) as Hpt.
  destruct (render_role config p) as [ptext|e]; [|done].
  pose proof (render_roles_result config role_limit rs "" Hv) as Hrt.
  destruct (render_roles config rs) as [rtext|e] eqn:Hr; unfold render_roles in Hr; rewrite Hr in Hrt; [|done].
  apply render_roles_join in Hr; [|done|done]. clear Hrt. cbn [map_err].
  unfold validate_aggregate_role_context. cbv zeta.
  destruct (N.ltb_spec (max_role_context_bytes config) (sat_add USIZE_MAX (sat_add USIZE_MAX (slen ptext)
    (if is_empty rtext then 0 else 2)%N) (slen rtext))) as [|Hagg]; [by apply too_large_intro|].
  apply sat_sum_le in Hagg; [|done]. cbn [stop map_err].
  pose proof (render_decisions_result config decision_limit ds "") as Hdt.
  destruct (render_decisions config ds) as [dtext|e] eqn:Hd; unfold render_decisions in Hd; rewrite Hd in Hdt; [|done].
  apply render_decisions_join in Hd as [-> Hdl]; [|done..]. cbn [stop map_err].
  split; [done|]. split; [done|]. simpl. destruct (is_empty rtext); split_and!; try done; lia.
Qed.

(** What the projection returns, for roles that are chosen and for others. *)
Lemma project_result :
  (∃ p rs, roles_chosen c rids ds p rs) ∨ ∃ err, project_role_context config c rids ds = Err (Stop_Error err).
Proof.
  unfold project_role_context, generate_role. destruct (roles c !! player c) as [p|] eqn:Hp; simpl; [|eauto].
  destruct (generate_roles c rids) as [rs|e] eqn:Hrs; simpl; [|eauto].
  destruct (validate_ai_roles p rs) as [[]|e] eqn:Hai; simpl; [|eauto].
  destruct (validate_decisions p rs ds) as [[]|e] eqn:Hds; simpl; [|eauto]. left. exists p, rs.
  apply generate_roles_ok in Hrs as [? ?]. apply validate_decisions_ok in Hds as [? ?].
  by split; [..|apply validate_ai_roles_ok| |].
Qed.

Lemma project_err e : project_role_context config c rids ds = Err e → ∃ err, e = Stop_Error err.
Proof.
  intros Herr. destruct project_result as [(p & rs & Hch)|[err Heq]]; [|rewrite Herr in Heq; injection Heq; eauto].
  pose proof (project_chosen p rs Hch) as Hres. rewrite Herr in Hres. destruct Hres as (? & ? & -> & _). eauto.
Qed.

(** What is shown of the roles is as chosen or an error. The projection succeeds only for distinct roles of
    the story other than the player's, with at most one decision each and no other: every role with its whole
    identity and the longest part of its backstory that fits its budget, every decision in order, all within the
    budgets. For such roles the only errors are of a budget, and never a panic. *)
Theorem project_role_context_spec :
  match project_role_context config c rids ds with
  | Ok out => ∃ p rs, roles_chosen c rids ds p rs ∧ roles_shown p rs out
  | Err e => (∃ err, e = Stop_Error err) ∧ ∀ p rs, roles_chosen c rids ds p rs → too_large e
  end.
Proof.
  destruct project_result as [(p & rs & Hch)|[err Herr]].
  - pose proof (project_chosen p rs Hch) as Hres. destruct (project_role_context config c rids ds); [eauto|].
    split; [|done]. destruct Hres as (code & message & -> & _). eauto.
  - pose proof project_chosen as Hres. rewrite Herr in Hres |- *. split; [eauto|]. intros p rs Hch. by apply (Hres p rs).
Qed.
End projection.

(** ** A scripted projection *)

(** Strings with quotes and backslashes escaped. *)
Fixpoint demo_escape (s : string) : string :=
  match s with
  | "" => ""
  | String a s' =>
      if bool_decide (byte_val a = 34%N) || bool_decide (byte_val a = 92%N)
      then String (byte_of 92) (String a (demo_escape s'))
      else String a (demo_escape s')
  end.
#[local] Instance demo_display : JsonDisplay := λ v,
  match v with
  | Json_String s => String (byte_of 34) (demo_escape s +:+ String (byte_of 34) "")
  | Json_Null => "null"
  | _ => "[]"
  end.

Lemma demo_escape_app s t : demo_escape (s +:+ t) = demo_escape s +:+ demo_escape t.
Proof.
  induction s as [|a s IH]; [done|].
  change (demo_escape (String a (s +:+ t)) = demo_escape (String a s) +:+ demo_escape t).
  cbn [demo_escape]. rewrite IH. by destruct (_ || _).
Qed.

Lemma slen_demo_escape s : (slen s <= slen (demo_escape s))%N.
Proof. induction s as [|a s IH]; [done|]. cbn [demo_escape]. destruct (_ || _); unfold slen in *; simpl; lia. Qed.

Lemma slen_demo_string s : slen (json_string s) = (slen (demo_escape s) + 2)%N.
Proof.
  change (slen (String (byte_of 34) (demo_escape s +:+ String (byte_of 34) "")) = (slen (demo_escape s) + 2)%N).
  pose proof (slen_app (demo_escape s) (String (byte_of 34) "")) as Hl. unfold slen in *. simpl in *. lia.
Qed.

#[local] Instance demo_display_laws : JsonDisplayLaws.
Proof.
  split; [intros s t|intros s]; rewrite !slen_demo_string.
  - rewrite demo_escape_app, slen_app. lia.
  - pose proof (slen_demo_escape s). lia.
Qed.

Lemma truncated_json_string_longest_witness :
  truncated_json_string "A thief." 16 = Ok (Some (json_string "A t[truncated]")) ∧
  ∃ r, truncated_json_string "A thief." 16 = Ok r ∧ r ≠ None.
Proof.
  assert (truncated_json_string "A thief." 16 = Ok (Some (json_string "A t[truncated]"))) as Hcut
    by (vm_compute; reflexivity).
  split; [exact Hcut|]. destruct (truncated_json_string_longest "A thief." 16) as (r & Hr & Hspec).
  - apply valid_utf8b_true. vm_compute. reflexivity.
  - exists r. split; [exact Hr|]. intros ->. rewrite Hcut in Hr. discriminate Hr.
Defined.

Definition duo_backstory_valid (r : RoleEntry) : bool := valid_utf8b (backstory (role_spec r)).

Lemma duo_backstories rid r : roles duo_story !! rid = Some r → valid_utf8 (backstory (role_spec r)).
Proof.
  intros Hr. apply valid_utf8b_true.
  assert (forallb duo_backstory_valid (values (roles duo_story)) = true) as Hall by (vm_compute; reflexivity).
  rewrite forallb_forall in Hall. apply Hall, list_elem_of_In, elem_of_values. eauto.
Qed.

Lemma project_role_context_spec_witness :
  is_ok (project_role_context GenerateConfig_default duo_story ["guard"] [duo_decision]) = true ∧
  ∃ out p rs, project_role_context GenerateConfig_default duo_story ["guard"] [duo_decision] = Ok out ∧
    roles_chosen duo_story ["guard"] [duo_decision] p rs ∧
    roles_shown GenerateConfig_default [duo_decision] p rs out.
Proof.
  split; [vm_compute; reflexivity|].
  pose proof (project_role_context_spec GenerateConfig_default duo_story ["guard"] [duo_decision]
    ltac:(vm_compute; reflexivity) ltac:(vm_compute; reflexivity) ltac:(vm_compute; reflexivity) duo_backstories) as Hs.
  destruct (project_role_context GenerateConfig_default duo_story ["guard"] [duo_decision]) as [out|e] eqn:E;
    [|vm_compute in E; discriminate E].
  destruct Hs as (p & rs & ? & ?). exists out, p, rs. split; [reflexivity|]. split; assumption.
Defined.
