(* ===== verification/Runtime.v ===== *)
(** * Runtime: a turn

    [pipeline/common/config.rs] (the configuration of the pipelines),
    [pipeline/runtime/runtime.rs] and [engine/engine.rs] ([run_turn]): the
    stages of a turn in order, what each gives to the next, and the turn as the
    engine runs it. *)
From S2P Require Import Prelude.
From S2P Require Import Text.
From S2P Require Import Values.
From S2P Require Import Domain.
From S2P Require Import Narrative.
From S2P Require Import Scan.
From S2P Require Import Activation.
From S2P Require Import ActivationProofs.
From S2P Require Import ActivationProps.
From S2P Require Import Roles.
From S2P Require Import StoryStore.
From S2P Require Import StoryLog.
From S2P Require Import Errors.
From S2P Require Import Effects.
From S2P Require Import Prompt.
From S2P Require Import PromptText.
From S2P Require Import ExtractKnowledge.
From S2P Require Import ExtractProofs.
From S2P Require Import Extract.
From S2P Require Import Validate.
From S2P Require Import ValidationLoop.
From S2P Require Import Baseline.
From S2P Require Import Recording.
From S2P Require Import Plan.
From S2P Require Import Think.
From S2P Require Import Generate.

Record PipelineConfig := {
  baseline_config : BaselineConfig;
  plan_config : PlanConfig;
  think_config : ThinkConfig;
  generate_config : GenerateConfig;
  validate_config : ValidateConfig;
  repair_config : RepairConfig;
  validation_loop : ValidationLoopConfig;
  extract_config : ExtractConfig;
  summary_config : SummaryConfig;
}.

Definition PipelineConfig_validate (p : PipelineConfig) : result PipelineError unit :=
  let? _ := ValidateConfig_validate (validate_config p) in
  let? _ := RepairConfig_validate (repair_config p) in
  let? _ := ValidationLoopConfig_validate (validation_loop p) in
  ExtractConfig_validate (extract_config p).

(** [effective_role_ids]: the roles to generate, then those that think, each
    once, where it comes first. *)
Definition role_ids_step (acc : gset RoleId * list RoleId) (rid : RoleId) : gset RoleId * list RoleId :=
  if bool_decide (rid ∈ acc.1) then acc else ({[ rid ]} ∪ acc.1, acc.2 ++ [rid]).
Definition effective_role_ids (p : PlanOutput) : list RoleId :=
  (foldl role_ids_step (∅, []) (roles_for_generation p ++ map think_role_id (character_think_requests p))).2.

Definition validation_context (p : PlanOutput) (b : BaselineOutput) (r : RetrievalOutput) (rids : list RoleId)
    (ds : list CharacterDecision) : ValidationContext :=
  {| story_goal := plan_story_goal p; val_contribution := base_contribution b;
     val_directions := proj_directions (base_narrative b); val_constraints := proj_constraints (base_narrative b);
     val_knowledge := base_knowledge b; val_retrieved_facts := ret_facts r; val_retrieved_rumors := ret_rumors r;
     val_role_ids := rids; val_decisions := ds |}.

(** ** The turn *)

(** Everything outside the program that a turn uses. *)
Class TurnWorld (W : Type) := {
  #[global] turn_world :: World W;
  #[global] turn_store :: StoreAccess W;
  #[global] turn_sink :: TurnEventSink W;
  #[global] turn_minijinja :: Minijinja;
  #[global] turn_unicode :: Unicode;
  #[global] turn_sha :: Sha256;
  #[global] turn_display :: JsonDisplay;
  #[global] turn_string_json :: ToJson string;
  #[global] turn_profile_json :: ToJson CharacterProfile;
  #[global] turn_issues_json :: ToJson (list ValidationIssue);
  #[global] turn_validation_json :: ValidationToJson;
  #[global] turn_extract_json :: ExtractToJson;
  #[global] turn_plan_parse :: PlanJson;
  #[global] turn_think_parse :: ThinkJson;
  #[global] turn_validate_parse :: ValidateJson;
  #[global] turn_extract_parse :: ExtractJson;
}.

Section turn.
Context {W : Type} `{TurnWorld W}.
Context (gateway : LlmConfig) (prompt : Prompt) (config : PipelineConfig).
Context (c : StoryContext) (request : TurnRequest) (control : TurnControl).

(** What the stages before the generation make. *)
Record TurnPreparation := {
  prep_baseline : BaselineOutput;
  prep_plan : PlanOutput;
  prep_retrieval : RetrievalOutput;
  prep_decisions : list CharacterDecision;
}.

Definition baseline_stage : IO W Stop BaselineOutput :=
  run_stage_stop Stage_Baseline
    (baseline_execute gateway prompt (baseline_config config) c control (player_input request)).

Definition plan_input (b : BaselineOutput) : PlanInput :=
  {| plan_contribution := base_contribution b; plan_directions := proj_directions (base_narrative b);
     plan_constraints := proj_constraints (base_narrative b); plan_knowledge := base_knowledge b |}.
Definition plan_stage (b : BaselineOutput) : IO W Stop PlanOutput :=
  run_stage Stage_Plan (plan_execute gateway prompt (plan_config config) c control (plan_input b)).

Definition retrieval_stage (p : PlanOutput) : IO W Stop RetrievalOutput :=
  if requires_retrieval p
  then run_stage Stage_Retrieval (io_lift (retrieve c (facts_to_retrieve p) (rumors_to_retrieve p)))
  else io_ret RetrievalOutput_default.

Definition think_input (b : BaselineOutput) (p : PlanOutput) (r : RetrievalOutput) : ThinkInput :=
  {| think_requests := character_think_requests p; think_contribution := base_contribution b;
     think_activated_rumors := act_rumors (base_knowledge b); think_retrieved_rumors := ret_rumors r |}.
Definition think_stage (b : BaselineOutput) (p : PlanOutput) (r : RetrievalOutput) :
    IO W Stop (list CharacterDecision) :=
  if requires_character_thinking p
  then run_stage Stage_Think (think_execute gateway prompt (think_config config) c control (think_input b p r))
  else io_ret [].

Definition prepare_turn : IO W Stop TurnPreparation :=
  let* b := baseline_stage in
  let* p := plan_stage b in
  let* r := retrieval_stage p in
  let* ds := think_stage b p r in
  io_ret {| prep_baseline := b; prep_plan := p; prep_retrieval := r; prep_decisions := ds |}.

Definition generate_input (t : TurnPreparation) : GenerateInput :=
  let b := prep_baseline t in
  {| gen_goal := plan_story_goal (prep_plan t); gen_contribution := base_contribution b;
     gen_directions := proj_directions (base_narrative b); gen_constraints := proj_constraints (base_narrative b);
     gen_knowledge := base_knowledge b; gen_retrieved_facts := ret_facts (prep_retrieval t);
     gen_retrieved_rumors := ret_rumors (prep_retrieval t); gen_role_ids := effective_role_ids (prep_plan t);
     gen_character_decisions := prep_decisions t |}.
Definition generate_stage (t : TurnPreparation) : IO W Stop string :=
  run_stage_stop Stage_Generate
    (generate_execute gateway prompt (generate_config config) (quality_policy (validate_config config)) c control
       (generate_input t)).

Definition validation_stages (t : TurnPreparation) (initial : string) : IO W Stop ValidationLoopResult :=
  validate_repair_loop gateway prompt (validate_config config) (repair_config config) (validation_loop config) c
    control (validation_context (prep_plan t) (prep_baseline t) (prep_retrieval t)
      (effective_role_ids (prep_plan t)) (prep_decisions t)) initial.

Definition extract_stage (proposal : string) : IO W Stop ExtractOutput :=
  run_stage Stage_Extract (extract_execute gateway prompt (extract_config config) c proposal control).
Definition summary_stage : IO W Stop (Change StorySummary) :=
  run_stage_stop Stage_Summary (summary_execute gateway prompt (summary_config config) c control).
Definition commit_stage (input : CommitInput) : IO W Stop StoryCommit :=
  run_stage Stage_Commit (commit_execute c input).

Definition commit_input (t : TurnPreparation) (v : ValidationLoopResult) (x : ExtractOutput)
    (s : Change StorySummary) : CommitInput :=
  {| in_contribution := base_contribution (prep_baseline t); in_key := req_idempotency_key request;
     in_segment := res_proposal v; in_knowledge_change := out_knowledge_change x; in_status := res_status v;
     in_evaluation := turn_evaluation_of v; in_summary := s; in_narrative := out_narrative x;
     in_life_cycle := out_life_cycle x |}.

(** [Runtime::run_turn]. *)
Definition run_turn : IO W Stop StoryCommit :=
  let* t := prepare_turn in
  let* text := generate_stage t in
  let* initial := io_lift (stop (validate_generated_proposal text (max_proposal_bytes (repair_config config)))) in
  let* v := validation_stages t initial in
  let* x := extract_stage (res_proposal v) in
  let* s := summary_stage in
  commit_stage (commit_input t v x s).
End turn.

(** ** The engine *)

Inductive EngineStop :=
| Engine_Failed (e : EngineError)
| Engine_Panicked
| Engine_Unfinished.

Definition engine_stop (s : Stop) : EngineStop :=
  match s with
  | Stop_Error e => Engine_Failed (Engine_Pipeline e)
  | Stop_Panic => Engine_Panicked
  | Stop_Fuel => Engine_Unfinished
  end.

Definition emit {W E : Type} `{TurnEventSink W} (e : TurnEvent) : IO W E unit := λ w, (Ok tt, w_emit e w).

(** [AiseEngine::run_turn]. *)
Definition engine_run_turn {W} `{TurnWorld W} (gateway : LlmConfig) (prompt : Prompt) (config : PipelineConfig)
    (request : TurnRequest) (control : TurnControl) : IO W EngineStop StoryCommit :=
  let* _ := emit TurnStarted in
  let* c := io_map_err (λ e, Engine_Failed (Engine_Persistence e)) (w_load (req_story_id request)) in
  if bool_decide (life_cycle c = Life_Active) then
    let* commit := io_map_err engine_stop (run_turn gateway prompt config c request control) in
    let* _ := emit TurnCommitted in
    io_ret commit
  else io_fail (Engine_Failed (Engine_StoryNotActive (life_cycle c))).

(** ** A turn ends with an error of a pipeline at worst *)

(** A run that fails only with a pipeline error: it does not panic or run out
    of fuel. *)
Definition soft {W A} (m : IO W Stop A) : Prop := ∀ w e w', m w = (Err e, w') → ∃ err, e = Stop_Error err.

Lemma soft_ret {W A} (a : A) : soft (W:=W) (io_ret a).
Proof. by intros w e w'. Qed.
Lemma soft_map_err {W A} (m : IO W PipelineError A) : soft (io_map_err Stop_Error m).
Proof. intros w e w'. unfold io_map_err. destruct (m w) as [[a|err] w1]; [done|]. intros [= <- _]. eauto. Qed.
Lemma soft_lift_stop {W A} (r : result PipelineError A) : soft (W:=W) (io_lift (stop r)).
Proof. intros w e w'. unfold io_lift, stop. destruct r; [done|]. intros [= <- _]. eauto. Qed.
Lemma soft_bind {W A B} (m : IO W Stop A) (k : A → IO W Stop B) :
  soft m → (∀ w a w', m w = (Ok a, w') → soft (k a)) → soft (io_bind m k).
Proof. intros Hm Hk w e w' [Hr|(a & w1 & Ha & Hr)]%io_bind_err; [by eapply Hm|by eapply Hk]. Qed.
Lemma soft_stage {W A} `{TurnEventSink W} s (m : IO W PipelineError A) : soft (run_stage s m).
Proof. intros w e w'. apply run_stage_err. Qed.
Lemma soft_stage_stop {W A} `{TurnEventSink W} s (m : IO W Stop A) : soft m → soft (run_stage_stop s m).
Proof. intros Hm w e w'. apply Hm. Qed.

Create HintDb soft.
#[export] Hint Resolve soft_ret soft_map_err soft_lift_stop soft_bind soft_stage soft_stage_stop : soft.

Section ends.
Context {W : Type} `{TurnWorld W, !JsonDisplayLaws}.
Context (gateway : LlmConfig) (prompt : Prompt) (config : PipelineConfig).
Context (c : StoryContext) (request : TurnRequest) (control : TurnControl).

(** A configuration the program accepts, with budgets a machine can count, and
    texts that are UTF-8, as Rust's strings are. *)
Record turn_config_ok : Prop := {
  config_valid : PipelineConfig_validate config = Ok tt;
  config_activation : config_ok (activation_config (baseline_config config));
  config_role_bytes : (max_role_bytes_per_role (generate_config config) < USIZE_MAX)%N;
  config_context_bytes : (max_role_context_bytes (generate_config config) < USIZE_MAX)%N;
  config_decision_bytes : (max_decision_context_bytes (generate_config config) < USIZE_MAX)%N;
}.
Definition backstories_utf8 : Prop := ∀ rid r, roles c !! rid = Some r → valid_utf8 (backstory (role_spec r)).

Hypothesis config_good : turn_config_ok.
Hypothesis texts_good : backstories_utf8.

Lemma config_parts :
  ValidateConfig_validate (validate_config config) = Ok tt ∧
  (max_repair_rounds (validation_loop config) <= MAX_REPAIR_ROUNDS_LIMIT)%N.
Proof.
  destruct config_good as [Hv _ _ _ _]. unfold PipelineConfig_validate in Hv.
  destruct (ValidateConfig_validate _) as [[]|]; [|done]. destruct (RepairConfig_validate _) as [[]|]; [|done].
  split; [done|]. unfold ValidationLoopConfig_validate in Hv.
  by destruct (N.ltb_spec MAX_REPAIR_ROUNDS_LIMIT (max_repair_rounds (validation_loop config))).
Qed.

Lemma activate_knowledge_total contribution projection :
  is_Some (activate_knowledge c contribution projection (activation_config (baseline_config config))).
Proof.
  unfold activate_knowledge, run_activation. rewrite fmap_is_Some.
  destruct (activate_session {| at_story_id := story_id c; at_turn_number := ctx_turn_number c |}
    (activation_config (baseline_config config)) (knowledge_candidates c)
    (build_scan_buffer c contribution projection)) as (s & -> & _); [apply config_good|eauto].
Qed.

Lemma soft_baseline : soft (baseline_stage gateway prompt config c request control).
Proof.
  apply soft_stage_stop. unfold baseline_execute. repeat (apply soft_bind; [auto with soft|intros ? ? ? _]).
  destruct (activate_knowledge_total a1 a0) as [known ->]. apply soft_ret.
Qed.

Lemma soft_retrieval p : soft (W:=W) (retrieval_stage c p).
Proof. unfold retrieval_stage. destruct (requires_retrieval p); auto with soft. Qed.
Lemma soft_think b p r : soft (think_stage gateway prompt config c control b p r).
Proof. unfold think_stage. destruct (requires_character_thinking p); auto with soft. Qed.

Lemma soft_generate t : soft (generate_stage gateway prompt config c control t).
Proof.
  apply soft_stage_stop. unfold generate_execute.
  apply soft_bind; [|intros; apply soft_bind; auto with soft].
  intros w e w' Hrun. unfold io_lift in Hrun. injection Hrun as Hrun _.
  by eapply project_err in Hrun; [..|apply texts_good]; try apply config_good.
Qed.

Lemma soft_validation t initial : soft (validation_stages gateway prompt config c control t initial).
Proof.
  intros w e w' Hrun. destruct config_parts as [Hv Hr].
  eapply validate_rounds_err, Hrun; [done|done|apply round_inv_start|lia].
Qed.
Lemma soft_summary : soft (summary_stage gateway prompt config c control).
Proof. apply soft_stage_stop. intros w e w'. apply summary_execute_err. Qed.

#[local] Hint Resolve soft_baseline soft_retrieval soft_think soft_generate soft_validation soft_summary : soft.

Lemma soft_turn : soft (run_turn gateway prompt config c request control).
Proof. unfold run_turn, prepare_turn, plan_stage, extract_stage, commit_stage. auto 15 with soft. Qed.

(** C25: A turn always ends, with a commit or with an error of a pipeline: whatever the model, the stores and the
    clock answer, it never panics and never loops. *)
Theorem run_turn_ends w e w' :
  run_turn gateway prompt config c request control w = (Err e, w') → ∃ err, e = Stop_Error err.
Proof. apply soft_turn. Qed.
End ends.
