(* ===== verification/Turn.v ===== *)
(** * Turn: what a turn guarantees

    The stages of [Runtime] together: what a plan gives to the later stages is
    always in the story, and a turn ends with a commit the story store
    accepts. *)
From S2P Require Import Prelude.
From S2P Require Import Text.
From S2P Require Import Values.
From S2P Require Import Domain.
From S2P Require Import Narrative.
From S2P Require Import Scan.
From S2P Require Import Activation.
From S2P Require Import ActivationProofs.
From S2P Require Import ActivationProps.
From S2P Require Import Roles.
From S2P Require Import StoryStore.
From S2P Require Import StoryLog.
From S2P Require Import StoryStoreProps.
From S2P Require Import Errors.
From S2P Require Import Effects.
From S2P Require Import Prompt.
From S2P Require Import PromptText.
From S2P Require Import ExtractKnowledge.
From S2P Require Import ExtractProofs.
From S2P Require Import Extract.
From S2P Require Import Validate.
From S2P Require Import ValidationLoop.
From S2P Require Import Baseline.
From S2P Require Import Recording.
From S2P Require Import Plan.
From S2P Require Import Think.
From S2P Require Import Generate.
From S2P Require Import Runtime.

(** ** The roles of a turn *)
Lemma role_ids_fold l : ∀ seen out,
  (∀ x, x ∈ seen ↔ x ∈ out) → NoDup out →
  let r := foldl role_ids_step (seen, out) l in
  NoDup r.2 ∧ ∀ x, x ∈ r.2 ↔ x ∈ out ∨ x ∈ l.
Proof.
  induction l as [|y l IH]; intros seen out Hs Hnd; simpl.
  - split; [done|]. intros x. pose proof (not_elem_of_nil x). tauto.
  - destruct (role_ids_step (seen, out) y) as [seen' out'] eqn:Hstep.
    unfold role_ids_step in Hstep. simpl in Hstep. case_bool_decide as Hy; injection Hstep as <- <-.
    + destruct (IH seen out Hs Hnd) as [? Hx]. split; [done|]. intros x. rewrite Hx, elem_of_cons.
      apply Hs in Hy. naive_solver.
    + destruct (IH ({[ y ]} ∪ seen) (out ++ [y])) as [? Hx].
      * intros x. rewrite elem_of_union, elem_of_singleton, elem_of_app, list_elem_of_singleton, Hs. tauto.
      * rewrite Hs in Hy. apply NoDup_app. split; [done|]. split; [|by apply NoDup_singleton].
        by intros x Hx ->%list_elem_of_singleton.
      * split; [done|]. intros x. rewrite Hx, elem_of_app, list_elem_of_singleton, elem_of_cons. tauto.
Qed.

Lemma effective_role_ids_spec p :
  NoDup (effective_role_ids p) ∧
  ∀ rid, rid ∈ effective_role_ids p ↔
    rid ∈ roles_for_generation p ∨ rid ∈ think_role_id <$> character_think_requests p.
Proof.
  destruct (role_ids_fold (roles_for_generation p ++ map think_role_id (character_think_requests p)) ∅ [])
    as [Hnd Hx]; [set_solver|constructor|].
  split; [exact Hnd|]. intros rid. unfold effective_role_ids. rewrite Hx, elem_of_app.
  pose proof (not_elem_of_nil rid). tauto.
Qed.

(** ** What a plan gives to the later stages *)
Lemma lookup_all {A} (m : gmap string A) ids :
  (∀ id, id ∈ ids → is_Some (m !! id)) → ∃ l, Forall2 (λ id x, m !! id = Some x) ids l.
Proof.
  intros Hall. induction ids as [|id ids IH]; [by exists []|].
  destruct (Hall id) as [x Hx]; [left|]. destruct IH as [l Hl]; [by intros ? ?; apply Hall; right|].
  exists (x :: l). by constructor.
Qed.

Section feeds.
Context (c : StoryContext) (known : ActivatedKnowledge) (pconfig : PlanConfig) (tconfig : ThinkConfig) (p : PlanOutput).
Hypothesis roles_keyed : keyed_roles (roles c).
Hypothesis sound : plan_sound c known pconfig p.
Hypothesis player_present : is_Some (roles c !! player c).

Lemma plan_retrieval : ∃ out, retrieve c (facts_to_retrieve p) (rumors_to_retrieve p) = Ok out.
Proof.
  destruct (lookup_all (facts c) (facts_to_retrieve p)) as [fs Hfs].
  { intros id Hid. by apply (plan_facts _ _ _ _ sound). }
  destruct (lookup_all (rumors c) (rumors_to_retrieve p)) as [us Hus].
  { intros id Hid. by apply (plan_rumors _ _ _ _ sound). }
  exists {| ret_facts := fs; ret_rumors := us |}. by apply retrieve_ok.
Qed.

Lemma plan_thinking : validate_think_input (character_think_requests p) c = Ok tt.
Proof.
  apply validate_think_input_ok. split; [apply sound|]. intros r Hr.
  destruct (plan_thinkers _ _ _ _ sound (think_role_id r)); [by apply list_elem_of_fmap_2|done].
Qed.

Lemma plan_role_found rid : rid ∈ effective_role_ids p → is_Some (roles c !! rid) ∧ rid ≠ player c.
Proof.
  intros [Hr|Hr]%effective_role_ids_spec; [by apply (plan_roles _ _ _ _ sound)|by apply (plan_thinkers _ _ _ _ sound)].
Qed.

Lemma plan_roles_chosen ds :
  Forall2 (decision_sound tconfig) (character_think_requests p) ds →
  ∃ pl rs, roles_chosen c (effective_role_ids p) ds pl rs.
Proof.
  intros Hds. destruct player_present as [pl Hpl].
  destruct (lookup_all (roles c) (effective_role_ids p)) as [rs Hrs]; [by intros rid [? _]%plan_role_found|].
  assert (decision_role_id <$> ds = think_role_id <$> character_think_requests p) as Hids.
  { clear -Hds. induction Hds as [|q d qs ds' Hd _ IH]; [done|].
    rewrite !fmap_cons. f_equal; [exact (decision_for _ _ _ Hd)|exact IH]. }
  assert (∀ rid r, roles c !! rid = Some r → role_id r = rid) as Hkey by (intros ? ? Hr; by apply (roles_keyed _ _ Hr)).
  exists pl, rs. split; [done|apply effective_role_ids_spec|done| | |].
  - intros r [i Hi]%list_elem_of_lookup. destruct (Forall2_lookup_r _ _ _ _ _ Hrs Hi) as (rid & Hrid & Hr).
    rewrite (Hkey _ _ Hr), (Hkey _ _ Hpl). by apply plan_role_found, list_elem_of_lookup_2 with i.
  - rewrite Hids. apply sound.
  - intros d Hd. assert (decision_role_id d ∈ think_role_id <$> character_think_requests p) as Hin.
    { rewrite <-Hids. by apply list_elem_of_fmap_2. }
    rewrite (Hkey _ _ Hpl). split; [by apply (plan_thinkers _ _ _ _ sound)|].
    assert (decision_role_id d ∈ effective_role_ids p) as [i Hi]%list_elem_of_lookup.
    { apply effective_role_ids_spec. by right. }
    destruct (Forall2_lookup_l _ _ _ _ _ Hrs Hi) as (r & Hri & Hr). apply list_elem_of_fmap. exists r.
    rewrite (Hkey _ _ Hr). split; [done|]. by eapply list_elem_of_lookup_2.
Qed.

Lemma plan_evidence stage :
  is_ok (traverse (PromptText.resolve_role stage c) (player c :: effective_role_ids p)) = true.
Proof.
  destruct (lookup_all (roles c) (player c :: effective_role_ids p)) as [rs Hrs].
  { intros rid [->|Hr]%elem_of_cons; [done|]. by apply plan_role_found in Hr as [? _]. }
  assert (traverse (PromptText.resolve_role stage c) (player c :: effective_role_ids p) = Ok rs) as ->; [|done].
  apply traverse_ok_Forall2. eapply Forall2_impl; [exact Hrs|]. intros rid r Hr. unfold PromptText.resolve_role.
  by rewrite Hr.
Qed.
End feeds.

(** C33: What the model plans always fits the story: in a plan the stage accepts, the facts and rumours to retrieve
    are in the story and not already known, no character is asked twice and none is the player's, and so the
    retrieval succeeds, the requests to think are accepted, the roles and the decisions of those characters are
    such as the generation projects, and validation and repair find every role. *)
Theorem plan_feeds_stages {W} `{World W, Minijinja, ToJson string, PlanJson} gateway prompt config c control input
    (w : W) p w' :
  keyed_roles (roles c) →
  plan_execute gateway prompt config c control input w = (Ok p, w') →
  plan_sound c (plan_knowledge input) config p ∧
  (∃ out, retrieve c (facts_to_retrieve p) (rumors_to_retrieve p) = Ok out) ∧
  validate_think_input (character_think_requests p) c = Ok tt ∧
  (∀ tconfig ds, Forall2 (decision_sound tconfig) (character_think_requests p) ds →
    ∃ pl rs, roles_chosen c (effective_role_ids p) ds pl rs) ∧
  ∀ stage, is_ok (traverse (PromptText.resolve_role stage c) (player c :: effective_role_ids p)) = true.
Proof.
  intros Hkeyed Hrun. assert (is_Some (roles c !! player c)) as Hpl.
  { unfold plan_execute, resolve_player_role in Hrun. destruct (roles c !! player c); [eauto|]. done. }
  apply plan_execute_ok in Hrun as Hs; [|by intros r Hr; apply (Hkeyed _ _ Hr)].
  split; [done|]. split; [by eapply plan_retrieval|]. split; [by eapply plan_thinking|].
  split; [intros; by eapply plan_roles_chosen|intros; by eapply plan_evidence].
Qed.

(** ** What a turn commits *)

(** The context of a story as the store loads it: the recent turns are the last
    ones in order, none covered by the summary. *)
Record context_shape (c : StoryContext) : Prop := {
  shape_number : (ctx_turn_number c < U64_MAX)%N;
  shape_covered : (from_option covered_through 0 (summary c) + nlen (recent_turns c) <= ctx_turn_number c)%N;
  shape_recent i t : recent_turns c !! i = Some t →
    turn_number t = (ctx_turn_number c - nlen (recent_turns c) + N.of_nat i + 1)%N;
}.

(** A commit the story store accepts for the story the context was loaded
    from, unless the changed roles exceed the limits of a story. *)
Definition store_accepts `{RoleJson} (c : StoryContext) (proposed : StoryCommit) : Prop :=
  ∀ sconfig story now, context story = c → life_cycle c = Life_Active →
    committed story !! idempotency_key (commit_turn proposed) = None →
    match commit_story sconfig story now proposed with
    | Ok (r, _) => r = proposed
    | Err e => ∃ source, e = InvalidStory source
    end.

Record turn_commit_ok `{RoleJson} (config : PipelineConfig) (c : StoryContext) (request : TurnRequest)
    (proposed : StoryCommit) : Prop := {
  tc_story : commit_story_id proposed = story_id c;
  tc_key : idempotency_key (commit_turn proposed) = req_idempotency_key request;
  tc_number : turn_number (commit_turn proposed) = increment (ctx_turn_number c);
  tc_input : raw (player_contribution (commit_turn proposed)) = player_input request;
  tc_segment : proposal_ok (max_proposal_bytes (repair_config config)) (turn_segment (commit_turn proposed));
  tc_checked : forallb check_eval_passed (eval_checks (turn_evaluation (commit_turn proposed))) = true;
  tc_accepted : store_accepts c proposed;
}.

(** The proposals of a validation loop are not blank and fit. *)
Lemma trail_proposals {W} `{World W, Minijinja, ValidationToJson, ValidateJson, ToJson (list ValidationIssue)}
    gateway prompt vconfig rconfig c control context initial history :
  trail (W:=W) gateway prompt vconfig rconfig c control context initial history →
  proposal_ok (max_proposal_bytes rconfig) initial →
  ∀ i p, history !! i = Some p → proposal_ok (max_proposal_bytes rconfig) (vp_proposal p).
Proof.
  intros [_ Hfirst Hnext] Hok i p Hi. destruct i as [|i]; [by rewrite (Hfirst _ Hi)|].
  destruct (history !! i) as [q|] eqn:Hq.
  - destruct (Hnext i q p Hq Hi) as (_ & input & issues & w1 & w2 & _ & _ & _ & _ & Hrun).
    unfold repair_execute in Hrun. io_inv.
    match goal with E : validate_repaired_proposal _ _ = Ok _ |- _ => by apply validate_repaired_ok in E as [-> ?] end.
  - apply lookup_ge_None in Hq. apply lookup_lt_Some in Hi. lia.
Qed.

Lemma generated_ok text max p : validate_generated_proposal text max = Ok p → proposal_ok max p.
Proof.
  unfold validate_generated_proposal. destruct (is_blank text) eqn:Hb; [done|].
  destruct (N.ltb_spec max (slen text)); [done|]. intros [= <-]. by split.
Qed.

Lemma increment_small n : (n < U64_MAX)%N → increment n = (n + 1)%N.
Proof. intros Hn. unfold increment. apply N.mod_small. lia. Qed.

(** The summary of a turn covers no future turn and does not move back. *)
Lemma summary_checked {W} `{World W, Minijinja} gateway prompt config c control (w : W) s w' :
  context_shape c → summary_execute gateway prompt config c control w = (Ok s, w') →
  check_summary (summary c) (increment (ctx_turn_number c)) s = Ok tt.
Proof.
  intros [Hn Hcov Hrec] [->|(text & t & -> & _ & Hpos & Ht)]%summary_execute_ok; [done|].
  pose proof (covered_within _ _ Hpos). apply Hrec in Ht. unfold check_summary. simpl.
  rewrite increment_small by done. destruct (N.ltb_spec (ctx_turn_number c + 1) (turn_number t)); [lia|].
  destruct (summary c) as [prev|]; simpl in *; [|done].
  destruct (N.ltb_spec (turn_number t) (covered_through prev)); [lia|done].
Qed.

(** The checks of a validated proposal, as the turn keeps them. *)
Lemma evaluation_checked r : all_checks_pass (res_report r) = true →
  forallb check_eval_passed (eval_checks (turn_evaluation_of r)) = true.
Proof.
  unfold all_checks_pass. simpl. intros Hall. rewrite forallb_forall in Hall |- *.
  intros e (k & <- & Hk)%in_map_iff. simpl. by apply Hall.
Qed.

Section commits.
Context {W : Type} `{TurnWorld W, !RoleJson}.
Context (gateway : LlmConfig) (prompt : Prompt) (config : PipelineConfig).
Context (c : StoryContext) (request : TurnRequest) (control : TurnControl).
Hypothesis config_valid : PipelineConfig_validate config = Ok tt.
Hypothesis shape : context_shape c.

Lemma accepted_by_store input :
  in_key input = req_idempotency_key request →
  validate_knowledge_change c (in_knowledge_change input) = Ok tt →
  check_summary (summary c) (increment (ctx_turn_number c)) (in_summary input) = Ok tt →
  store_accepts c (story_commit_of c input).
Proof.
  intros Hkey Hk Hs sconfig story now Hctx Hact Hnone. unfold commit_story. rewrite Hnone, Hctx. cbv zeta. simpl.
  rewrite (bool_decide_eq_true_2 _ Hact), N.eqb_refl, Hs, Hk. simpl.
  destruct (validate_runtime_roles _) as [[]|source]; simpl; [done|]. eauto.
Qed.

Lemma baseline_contribution (w : W) b w' :
  baseline_stage gateway prompt config c request control w = (Ok b, w') →
  raw (base_contribution b) = player_input request.
Proof.
  unfold baseline_stage, run_stage_stop, baseline_execute. intros Hrun. io_inv.
  destruct (activate_knowledge _ _ _ _) as [known|]; io_inv.
  match goal with E : process_player_input _ _ _ _ _ _ = _ |- _ => unfold process_player_input in E end. by io_inv.
Qed.

Lemma prepared_contribution (w : W) t w' :
  prepare_turn gateway prompt config c request control w = (Ok t, w') →
  raw (base_contribution (prep_baseline t)) = player_input request.
Proof.
  unfold prepare_turn. intros (b & w1 & Hb & Hrun)%io_bind_ok. apply baseline_contribution in Hb.
  repeat (apply io_bind_ok in Hrun as (? & ? & _ & Hrun)). by injection Hrun as <- _.
Qed.

Lemma generated_initial text (w : W) initial w' :
  io_lift (stop (validate_generated_proposal text (max_proposal_bytes (repair_config config)))) w
    = (Ok initial, w') → proposal_ok (max_proposal_bytes (repair_config config)) initial.
Proof.
  unfold io_lift, stop. destruct (validate_generated_proposal _ _) eqn:E; [|done]. intros [= <- _].
  by eapply generated_ok.
Qed.

Lemma validated_segment t initial (w : W) v w' :
  proposal_ok (max_proposal_bytes (repair_config config)) initial →
  validation_stages gateway prompt config c control t initial w = (Ok v, w') →
  proposal_ok (max_proposal_bytes (repair_config config)) (res_proposal v) ∧
  all_checks_pass (res_report v) = true.
Proof.
  intros Hinit Hrun. assert (ValidateConfig_validate (validate_config config) = Ok tt) as Hv.
  { unfold PipelineConfig_validate in config_valid. by destruct (ValidateConfig_validate _) as [[]|]. }
  eapply validate_rounds_ok in Hrun as (history & i & Htrail & Hi & _ & _ & Hchecks & _);
    [|done|apply round_inv_start].
  split; [|done]. by eapply trail_proposals in Hi; [|exact Htrail|].
Qed.

End commits.
