(* ===== verification/TurnStore.v ===== *)
(** * TurnStore: what a turn does to the story store

    A turn run over the in-memory story store, as the engine runs it: it changes
    nothing or makes exactly one commit. *)
From S2P Require Import Prelude.
From S2P Require Import Text.
From S2P Require Import Values.
From S2P Require Import Domain.
From S2P Require Import Narrative.
From S2P Require Import Scan.
From S2P Require Import Activation.
From S2P Require Import ActivationProofs.
From S2P Require Import ActivationProps.
From S2P Require Import Roles.
From S2P Require Import StoryStore.
From S2P Require Import StoryLog.
From S2P Require Import StoryStoreProps.
From S2P Require Import Errors.
From S2P Require Import Effects.
From S2P Require Import Prompt.
From S2P Require Import PromptText.
From S2P Require Import ExtractKnowledge.
From S2P Require Import ExtractProofs.
From S2P Require Import Extract.
From S2P Require Import Validate.
From S2P Require Import ValidationLoop.
From S2P Require Import Baseline.
From S2P Require Import Recording.
From S2P Require Import Plan.
From S2P Require Import Think.
From S2P Require Import Generate.
From S2P Require Import Runtime.
From S2P Require Import TurnEvents.

(** A world whose stories are those of the in-memory store: only a commit
    changes them, at the time of the clock. *)
Class StoryWorld (W : Type) := w_stories : W → Stories.
Class StoryWorldLaws (sconfig : StoryStoreConfig) (W : Type)
    `{RoleJson, World W, StoreAccess W, TurnEventSink W, StoryWorld W} : Prop := {
  stories_quiet : Quiet w_stories;
  stories_emit e w : w_stories (w_emit e w) = w_stories w;
  stories_load sid w : (w_load sid w).1 = load (w_stories w) sid;
  stories_find sid k w : (w_find_committed sid k w).1 = find_committed (w_stories w) sid k;
  stories_commit k w : ∃ now, (w_commit k w).1 = (commit sconfig (w_stories w) now k).1 ∧
    w_stories (w_commit k w).2 = (commit sconfig (w_stories w) now k).2;
}.

Section quiet_turn.
Context {W O : Type} `{TurnWorld W} (obs : W → O) `{!Quiet obs}.
Context (gateway : LlmConfig) (prompt : Prompt) (config : PipelineConfig).
Context (c : StoryContext) (request : TurnRequest) (control : TurnControl).
Hypothesis quiet_emit : ∀ e w, obs (w_emit e w) = obs w.

Lemma silent_stage_stop {A} s (m : IO W Stop A) : silent obs m → silent obs (run_stage_stop s m).
Proof. intros Hm w. unfold run_stage_stop. by rewrite Hm, quiet_emit. Qed.
Lemma silent_stage {A} s (m : IO W PipelineError A) : silent obs m → silent obs (run_stage s m).
Proof. intros Hm. by apply silent_stage_stop, silent_map_err. Qed.
#[local] Hint Resolve silent_stage silent_stage_stop : silent.

Lemma silent_prepare : silent obs (prepare_turn gateway prompt config c request control).
Proof.
  unfold prepare_turn, baseline_stage, plan_stage. do 2 (apply silent_bind; [eauto with silent|intros ?]).
  apply silent_bind; [unfold retrieval_stage; case_match; eauto with silent|intros ?].
  apply silent_bind; [unfold think_stage; case_match; eauto with silent|eauto with silent].
Qed.

Lemma silent_rounds context fuel : ∀ history current rounds,
  silent obs (validate_rounds gateway prompt (validate_config config) (repair_config config)
    (validation_loop config) c control context fuel history current rounds).
Proof.
  induction fuel as [|fuel IH]; intros history current rounds; simpl; [eauto with silent|].
  case_match; [eauto with silent|]. apply silent_bind; [unfold validate_stage; eauto with silent|intros report].
  assert (∀ r : ValidationReport, silent (W:=W) obs (issues_of r)) as Hissues.
  { intros r. unfold issues_of. case_match; eauto with silent. }
  case_match; [eauto with silent|]. case_match.
  - unfold settle. repeat (case_match; eauto with silent).
  - apply silent_bind; [done|intros issues]. apply silent_bind; [unfold repair_stage; eauto with silent|done].
Qed.

(** Everything before the commit leaves that part of the world alone. *)
Lemma run_turn_quiet w r w' :
  run_turn gateway prompt config c request control w = (r, w') →
  (∃ e, r = Err e ∧ obs w' = obs w) ∨
  ∃ input w1, obs w1 = obs w ∧ in_key input = req_idempotency_key request ∧ commit_stage c input w1 = (r, w').
Proof.
  assert (∀ {A B} (m : IO W Stop A) (k : A → IO W Stop B) w r w', silent obs m → io_bind m k w = (r, w') →
    (∃ e, r = Err e ∧ obs w' = obs w) ∨ ∃ a w1, obs w1 = obs w ∧ k a w1 = (r, w')) as Hstep.
  { clear w r w'. intros A B m k w r w' Hm. unfold io_bind. specialize (Hm w).
    destruct (m w) as [[a|e] w1]; simpl in Hm; [eauto|]. intros [= <- <-]. eauto. }
  unfold run_turn. intros Hrun.
  apply Hstep in Hrun as [?|(t & w1 & H1 & Hrun)]; [eauto|idtac|by apply silent_prepare].
  rewrite <-H1. clear H1 w. unfold generate_stage, validation_stages, validate_repair_loop, extract_stage, summary_stage in *.
  do 5 (apply Hstep in Hrun as [?|(? & ? & <- & Hrun)];
    [eauto|idtac|first [apply silent_rounds|eauto with silent]]).
  right. eexists _, _. split; [done|]. split; [|exact Hrun]. done.
Qed.
End quiet_turn.

Section atomic.
Context {W : Type} `{TurnWorld W, !RoleJson, !StoryWorld W} (sconfig : StoryStoreConfig) `{!StoryWorldLaws sconfig W}.
Context (gateway : LlmConfig) (prompt : Prompt) (config : PipelineConfig).
Context (request : TurnRequest) (control : TurnControl).
Notation sid := (req_story_id request).
Notation key := (req_idempotency_key request).

(** What a turn that succeeds did: it found its commit, or made it. *)
Definition turn_effect (st st' : Stories) (k : StoryCommit) : Prop :=
  ∃ story, st !! sid = Some story ∧ life_cycle (context story) = Life_Active ∧
  match committed story !! key with
  | Some found => k = found ∧ st' = st
  | None => ∃ now story',
      commit_story sconfig story now k = Ok (k, story') ∧ st' = <[ sid := story' ]> st ∧
      committed story' !! key = Some k ∧
      turn_number (commit_turn k) = increment (ctx_turn_number (context story)) ∧
      ctx_turn_number (context story') = turn_number (commit_turn k)
  end.

(** What committing does, on the story the commit is for. *)
Lemma commit_story_done story now k r story' :
  committed story !! idempotency_key (commit_turn k) = None →
  commit_story sconfig story now k = Ok (r, story') →
  r = k ∧ committed story' !! idempotency_key (commit_turn k) = Some k ∧
  turn_number (commit_turn k) = increment (ctx_turn_number (context story)) ∧
  ctx_turn_number (context story') = turn_number (commit_turn k).
Proof.
  intros Hnone. unfold commit_story. rewrite Hnone. cbv zeta.
  destruct (negb _); [done|].
  destruct (N.eqb_spec (turn_number (commit_turn k)) (increment (ctx_turn_number (context story)))) as [Hn|]; [|done].
  simpl. destruct (check_summary _ _ _) as [[]|]; [|done].
  destruct (validate_knowledge_change _ _) as [[]|]; [|done].
  destruct (map_err _ _) as [[]|]; [|done]. intros [= <- <-]. split; [done|]. simpl.
  split; [by rewrite lookup_insert_eq|]. split; [done|].
  unfold adjust_rencent_turns. simpl. by case_match.
Qed.

Lemma commit_stage_effect c input w r w' story :
  w_stories w !! sid = Some story → context story = c → story_id c = sid → life_cycle c = Life_Active →
  in_key input = key → commit_stage c input w = (r, w') →
  match r with
  | Err _ => w_stories w' = w_stories w
  | Ok k => turn_effect (w_stories w) (w_stories w') k
  end.
Proof.
  intros Hst Hc Hid Hact Hkey. unfold commit_stage, run_stage, run_stage_stop, commit_execute, io_map_err, io_bind.
  rewrite Hkey, Hid. set (w0 := w_emit _ w).
  assert (w_stories w0 = w_stories w) as Hw0 by apply (stories_emit (sconfig:=sconfig)).
  pose proof (stories_find (sconfig:=sconfig) sid key w0) as Hf. pose proof stories_quiet as Hq.
  pose proof (quiet_find (obs := w_stories) sid key w0) as Hq1.
  destruct (w_find_committed sid key w0) as [found w1]. simpl in *. rewrite Hw0 in Hf, Hq1.
  unfold find_committed in Hf. rewrite Hst in Hf. simpl in Hf. subst found. unfold turn_effect.
  destruct (committed story !! key) as [k|] eqn:Hcom.
  - intros [= <- <-]. exists story. subst c. by rewrite Hcom.
  - simpl. destruct (stories_commit (sconfig:=sconfig) (story_commit_of c input) w1) as (now & Hr & Hw').
    rewrite Hq1 in Hr, Hw'. unfold commit in Hr, Hw'. simpl in Hr, Hw'. rewrite Hid, Hst in Hr, Hw'.
    destruct (w_commit (story_commit_of c input) w1) as [res w2]. simpl in *.
    destruct (commit_story sconfig story now (story_commit_of c input)) as [[k story']|e] eqn:Hcs; simpl in *; subst res.
    + intros [= <- <-]. pose proof Hcs as Hdone.
      apply commit_story_done in Hdone as (-> & Hk & Hn & Hnext); [|simpl; by rewrite Hkey].
      exists story. subst c. rewrite Hcom. split; [done|]. split; [done|]. exists now, story'.
      simpl in Hk. rewrite Hkey in Hk. done.
    + by intros [= <- <-].
Qed.

(** C12: A turn is atomic: over the in-memory store a turn that fails, for whatever reason and at whatever stage,
    leaves every story as it was; one that succeeds was of an active story and returns the commit found under its
    key, changing nothing, or makes exactly one commit, the one it returns, with the next turn number, and changes
    no other story. *)
Theorem engine_turn_atomic (w : W) r w' :
  map_Forall (λ sid s, story_id (context s) = sid) (w_stories w) →
  engine_run_turn gateway prompt config request control w = (r, w') →
  match r with
  | Err _ => w_stories w' = w_stories w
  | Ok k => turn_effect (w_stories w) (w_stories w') k
  end.
Proof.
  intros Hids. pose proof (stories_quiet (sconfig:=sconfig)) as Hq.
  assert (∀ e w, w_stories (w_emit e w) = w_stories w) as Hemit by apply (stories_emit (sconfig:=sconfig)).
  unfold engine_run_turn, emit, io_map_err. unfold io_bind at 1 2. set (w1 := w_emit TurnStarted w).
  pose proof (stories_load (sconfig:=sconfig) sid w1) as Hl. pose proof (quiet_load (obs := w_stories) sid w1) as Hw2.
  destruct (w_load sid w1) as [loaded w2]. simpl in *. subst loaded. unfold w1 in *. rewrite Hemit in *.
  unfold load. destruct (w_stories w !! sid) as [story|] eqn:Hst; simpl; [|by intros [= <- <-]].
  case_bool_decide as Hact; [|by intros [= <- <-]].
  unfold io_bind. destruct (run_turn _ _ _ _ _ _ w2) as [res w3] eqn:Hrun.
  apply (run_turn_quiet w_stories) in Hrun as [(e & -> & Hw3)|(input & w4 & Hw4 & Hkey & Hcommit)]; [| |exact Hemit].
  - intros [= <- <-]. by rewrite Hw3, Hw2.
  - eapply commit_stage_effect in Hcommit; [|by rewrite Hw4, Hw2|done|by apply (Hids _ _ Hst)|done|done].
    rewrite Hw4, Hw2 in Hcommit. destruct res; intros [= <- <-]; simpl; by rewrite ?Hemit.
Qed.
End atomic.
