(* ===== verification/TurnScript.v ===== *)
(** * TurnScript: a scripted turn

    The engine run on a concrete story in the world of [Script], and the
    theorems on turns applied to it. *)
From S2P Require Import Prelude.
From S2P Require Import Text.
From S2P Require Import Values.
From S2P Require Import Domain.
From S2P Require Import Narrative.
From S2P Require Import Scan.
From S2P Require Import Activation.
From S2P Require Import ActivationProofs.
From S2P Require Import ActivationProps.
From S2P Require Import Roles.
From S2P Require Import StoryStore.
From S2P Require Import StoryLog.
From S2P Require Import StoryStoreProps.
From S2P Require Import Errors.
From S2P Require Import Effects.
From S2P Require Import Prompt.
From S2P Require Import PromptText.
From S2P Require Import ExtractKnowledge.
From S2P Require Import ExtractProofs.
From S2P Require Import Extract.
From S2P Require Import Validate.
From S2P Require Import ValidationLoop.
From S2P Require Import Baseline.
From S2P Require Import Recording.
From S2P Require Import Plan.
From S2P Require Import Think.
From S2P Require Import Generate.
From S2P Require Import Runtime.
From S2P Require Import TurnEvents.
From S2P Require Import Turn.
From S2P Require Import TurnStore.
From S2P Require Import Script.

#[local] Instance demo_plan_json : PlanJson := λ s,
  if String.eqb s "plan" then
    Ok {| dto_story_goal := "Pass the gate."; dto_facts_to_retrieve := []; dto_rumors_to_retrieve := [];
          dto_roles_for_generation := ["guard"];
          dto_character_think_requests := [{| dto_think_role := "guard"; dto_thinking_focus := " the gate " |}] |}
  else Err {| json_line := 1; json_column := 1; json_message := "eof" |}.
#[local] Instance demo_string_json : ToJson string := λ s, Ok s.
#[local] Instance demo_digest : Sha256 := λ _, "00000000000000000000000000000000".

#[local] Instance demo_turn_world : TurnWorld ScriptWorld := {|
  turn_world := script_world; turn_store := script_store; turn_sink := script_sink;
  turn_minijinja := script_minijinja; turn_unicode := ascii_unicode; turn_sha := demo_digest;
  turn_display := Generate.demo_display; turn_string_json := demo_string_json;
  turn_profile_json := Think.demo_profile_json; turn_issues_json := ValidationLoop.demo_issues_json;
  turn_validation_json := ValidationLoop.demo_validation_json; turn_extract_json := Extract.demo_to_json;
  turn_plan_parse := demo_plan_json; turn_think_parse := Think.demo_think_json;
  turn_validate_parse := ValidationLoop.demo_report_json; turn_extract_parse := Extract.demo_from_str |}.

#[local] Instance script_log : EventLog ScriptWorld := script_events.
#[local] Instance script_log_laws : EventLogLaws ScriptWorld.
Proof.
  split; [split| |]; try done; [intros d r w|intros k w]; simpl; [by destruct (script_answers w)|].
  by destruct (commit _ _ _ _).
Qed.

#[local] Instance script_story_world : StoryWorld ScriptWorld := script_stories.
#[local] Instance script_story_laws : StoryWorldLaws StoryStoreConfig_default ScriptWorld.
Proof.
  split; [split| | | |]; try done; [intros d r w|intros k w].
  - simpl. by destruct (script_answers w).
  - exists 0%N. unfold w_commit, script_store. by destruct (commit _ _ _ _).
Qed.

Definition demo_pipeline_config : PipelineConfig :=
  {| baseline_config := {| activation_config := ActivationConfig_default |}; plan_config := PlanConfig_default;
     think_config := ThinkConfig_default; generate_config := GenerateConfig_default;
     validate_config := demo_validate_config; repair_config := RepairConfig_default;
     validation_loop := ValidationLoopConfig_default; extract_config := ExtractConfig_default;
     summary_config := SummaryConfig_default |}.

Definition turn_prompts : Prompt :=
  script_prompts ["baseline.process_player_input"; "plan.process_story_plan"; "think.character_decision";
    "generate.generate_story"; "validate.evaluate_story"; "repair.repair_story"; "extract.evaluate_narrative";
    "extract.extract_world_knowledge"].

Definition turn_answers : list string :=
  ["They go to the gate."; "plan"; "fox"; "They walk."; "low"; "They run."; "high"; "evaluations"; "world"].

Definition duo_start (replies : list string) : ScriptWorld :=
  {| script_answers := replies; script_packs := {[ "harbour" := script_pack ]};
     script_stories := script_stored duo_bundle duo_story; script_events := [] |}.

Definition demo_request : TurnRequest :=
  {| req_story_id := "story-1"; req_idempotency_key := "k1"; player_input := "go" |}.

Definition demo_turn_run (replies : list string) : result Stop StoryCommit * ScriptWorld :=
  run_turn script_llm turn_prompts demo_pipeline_config duo_story demo_request {| deadline := 60000 |}
    (duo_start replies).
Definition demo_engine_run (replies : list string) : result EngineStop StoryCommit * ScriptWorld :=
  engine_run_turn script_llm turn_prompts demo_pipeline_config demo_request {| deadline := 60000 |}
    (duo_start replies).

Example turn_stages_run :
  script_events (demo_engine_run turn_answers).2 =
  TurnStarted :: map TurnPipeline ["baseline"; "plan"; "think"; "generate"; "validate"; "repair"; "validate";
    "extract"; "summary"; "commit"] ++ [TurnCommitted].
Proof. vm_compute. reflexivity. Qed.

Definition turn_text (r : result Stop StoryCommit) : option (string * N * TurnStatus) :=
  match r with
  | Ok k => Some (turn_segment (commit_turn k), turn_number (commit_turn k), turn_status (commit_turn k))
  | Err _ => None
  end.

Example turn_commits : turn_text (demo_turn_run turn_answers).1 = Some ("They run.", 1%N, Turn_Pass).
Proof. vm_compute. reflexivity. Qed.

Lemma duo_shape : context_shape duo_story.
Proof. split; [vm_compute; reflexivity|vm_compute; discriminate|]. intros i t Hi. destruct i; discriminate Hi. Qed.

Lemma duo_keyed : keyed_roles (roles duo_story).
Proof. unfold keyed_roles. apply (bool_decide_eq_true_1 _). vm_compute. reflexivity. Qed.

Lemma demo_turn_config_ok : turn_config_ok demo_pipeline_config.
Proof. split; vm_compute; try reflexivity. split; [reflexivity|discriminate]. Qed.

Lemma run_turn_ends_witness :
  ∃ e w, demo_turn_run ["They go to the gate."; "nothing"] = (Err e, w) ∧ ∃ err, e = Stop_Error err.
Proof.
  destruct (demo_turn_run ["They go to the gate."; "nothing"]) as [[k|e] w] eqn:Hrun;
    [vm_compute in Hrun; discriminate Hrun|].
  exists e, w. split; [reflexivity|]. unfold demo_turn_run in Hrun.
  apply (run_turn_ends (H := demo_turn_world) (H0 := Generate.demo_display_laws)) in Hrun;
    [exact Hrun|exact demo_turn_config_ok|exact duo_backstories].
Defined.


Definition demo_plan_input : PlanInput :=
  {| plan_contribution := {| raw := "go"; processed := "They go." |}; plan_directions := [];
     plan_constraints := []; plan_knowledge := {| act_facts := []; act_rumors := [] |} |}.

Lemma plan_feeds_stages_witness :
  ∃ p w, plan_execute script_llm turn_prompts PlanConfig_default duo_story {| deadline := 60000 |} demo_plan_input
    (duo_start ["plan"]) = (Ok p, w) ∧ validate_think_input (character_think_requests p) duo_story = Ok tt.
Proof.
  destruct (plan_execute script_llm turn_prompts PlanConfig_default duo_story {| deadline := 60000 |} demo_plan_input
    (duo_start ["plan"])) as [[p|e] w] eqn:Hrun; [|vm_compute in Hrun; discriminate Hrun].
  exists p, w. split; [reflexivity|]. apply plan_feeds_stages in Hrun as (_ & _ & Ht & _); [exact Ht|exact duo_keyed].
Defined.


Lemma engine_turn_atomic_witness :
  ∃ k w, demo_engine_run turn_answers = (Ok k, w) ∧
  turn_effect StoryStoreConfig_default demo_request (script_stored duo_bundle duo_story) (script_stories w) k.
Proof.
  destruct (demo_engine_run turn_answers) as [r w] eqn:Hrun.
  assert (is_ok r = true) as Hok by (change r with (r, w).1; rewrite <-Hrun; vm_compute; reflexivity).
  destruct r as [k|e]; [|discriminate Hok]. exists k, w. split; [reflexivity|]. unfold demo_engine_run in Hrun.
  apply (engine_turn_atomic StoryStoreConfig_default) in Hrun; [exact Hrun|].
  apply (bool_decide_eq_true_1 _). vm_compute. reflexivity.
Defined.
