(* ===== verification/AiseIds.v ===== *)
(** * Identifiers and validated values of the crate [aise]

    [domain/ids.rs], [domain/asset/ids.rs], [domain/asset/validation.rs],
    [domain/error.rs], [domain/knowledge/hint.rs] and [domain/knowledge/query.rs]
    of [crates/aise/src/].  Numbered identifiers ([fact_0001], [role_0001]) have
    one spelling per number; the allocation of new ones is proved to give fresh
    ones and never to panic.  UUIDs are a parameter. *)

From S2P Require Import Prelude Text.

Definition I64_MAX : N := 9223372036854775807.
(** [checked_add] of an unsigned integer of the given width. *)
Definition checked_add (max x y : N) : option N := if (x + y <=? max)%N then Some (x + y)%N else None.

(** ** Errors *)

Inductive DomainInputError :=
| EmptyStoryId | EmptyConstraintId | InvalidCharacterId | InvalidRoleId | RoleIdReservedForKnowledge.

Inductive KnowledgeIdError :=
| InvalidGrammar (value : string)
| SequenceOverflow
| AllocationOverflow.

Inductive AssetValidationCode :=
| SchemaInvalid | UnsupportedSpec | UnsupportedSpecVersion | InvalidKey | InvalidVersion
| UnknownField | ForbiddenField | MissingReference | DuplicateKey | MissingStoryOpening
| InvalidSalience | CodeLimitExceeded | EmptyText | GraphCycle | GraphUnreachable
| GraphReferenceInvalid | GraphEffectForbidden | GraphConditionForbidden
| AssetReferenceUnpinned | AssetDigestMismatch | ArchivePathUnsafe | ArchiveDuplicatePath
| ArchiveSymlinkForbidden | ArchiveMimeForbidden | ArchiveSizeExceeded | ArchiveRatioExceeded
| RetrievalHintRequired | ActivationRuleInvalid.

Inductive AssetValidationError :=
| AssetInvalid (code : AssetValidationCode) (path : string)
| AssetLimitExceeded (limit : string) (actual maximum : N).

#[global] Instance DomainInputError_eq_dec : EqDecision DomainInputError. Proof. solve_decision. Defined.
#[global] Instance KnowledgeIdError_eq_dec : EqDecision KnowledgeIdError. Proof. solve_decision. Defined.
#[global] Instance AssetValidationCode_eq_dec : EqDecision AssetValidationCode.
Proof. solve_decision. Defined.
#[global] Instance AssetValidationError_eq_dec : EqDecision AssetValidationError.
Proof. solve_decision. Defined.

(** ** Decimal numbers *)

Definition str_bytes (s : string) : list N := map byte_val (String.list_ascii_of_string s).

(** The digits of [str::parse::<u64>]: [None] on a foreign byte or past [u64::MAX]. *)
Fixpoint digits_value (acc : N) (bs : list N) : option N :=
  match bs with
  | [] => Some acc
  | b :: bs' =>
      if is_ascii_digit b then
        let next := (acc * 10 + (b - 48))%N in
        if (next <=? U64_MAX)%N then digits_value next bs' else None
      else None
  end.

(** [str::parse::<u64>], which accepts a leading plus sign. *)
Definition parse_u64 (bs : list N) : option N :=
  match bs with
  | [] => None
  | b :: bs' =>
      if (b =? 43)%N then match bs' with [] => None | _ => digits_value 0 bs' end
      else digits_value 0 bs
  end.

(** [format!("{value:0width$}")] *)
Definition pad_left (width : nat) (s : string) : string :=
  String.string_of_list_ascii (replicate (width - String.length s) (byte_of 48)) +:+ s.

Definition format_knowledge_sequence (sequence : N) : string :=
  if (sequence <? 10000)%N then pad_left 4 (pretty sequence) else pretty sequence.

Definition parse_knowledge_sequence (text : string) : option N :=
  if is_empty text || negb (forallb is_ascii_digit (str_bytes text)) then None
  else
    value ← parse_u64 (str_bytes text);
    if (value =? 0)%N then None
    else if String.eqb (format_knowledge_sequence value) text then Some value else None.

Definition strip_prefix (prefix s : string) : option string :=
  if String.prefix prefix s then Some (str_drop (String.length prefix) s) else None.

(** ** Numbered identifiers *)

Definition FactId := string.
Definition RumorId := string.
Definition MemoryId := string.
Definition FactId_PREFIX : string := "fact_".
Definition RumorId_PREFIX : string := "rumor_".
Definition MemoryId_PREFIX : string := "memory_".
Definition DYNAMIC_ROLE_ID_PREFIX : string := "role_".

(** [from_sequence] and [try_new] of [knowledge_id_type!], for the type with this prefix. *)
Definition id_from_sequence (prefix : string) (sequence : N) : result KnowledgeIdError string :=
  fail_if (I64_MAX <? sequence)%N with SequenceOverflow in
  Ok (prefix +:+ format_knowledge_sequence sequence).

Definition id_try_new (prefix value : string) : result KnowledgeIdError string :=
  let? sequence := ok_or (strip_prefix prefix value ≫= parse_knowledge_sequence) (InvalidGrammar value) in
  id_from_sequence prefix sequence.

Definition is_canonical_knowledge_id_shape (value : string) : bool :=
  existsb (λ prefix, bool_decide (is_Some (strip_prefix prefix value ≫= parse_knowledge_sequence)))
    [FactId_PREFIX; RumorId_PREFIX; MemoryId_PREFIX].

Definition is_canonical_dynamic_role_id_shape (value : string) : bool :=
  bool_decide (is_Some (strip_prefix DYNAMIC_ROLE_ID_PREFIX value ≫= parse_knowledge_sequence)).

(** ** Keys: [[a-z0-9]+(?:[._-][a-z0-9]+)*] *)

Definition is_key_char (c : N) : bool := is_ascii_lowercase c || is_ascii_digit c.
Definition is_key_separator (c : N) : bool := ((c =? 46) || (c =? 95) || (c =? 45))%N.

(** The loop of [is_valid_key] and of [is_valid_role_id]. *)
Fixpoint scan_segments (seen_segment : bool) (cs : list N) : bool :=
  match cs with
  | [] => seen_segment
  | c :: cs' =>
      if is_key_char c then scan_segments true cs'
      else if is_key_separator c then if seen_segment then scan_segments false cs' else false
      else false
  end.

Definition is_valid_key (value : string) : bool :=
  if is_empty value then false else scan_segments false (chars value).

Definition key_try_new (value : string) : result AssetValidationError string :=
  fail_if negb (is_valid_key value) with AssetInvalid InvalidKey value in Ok value.

(** [char::is_control]: the category [Cc]. *)
Definition is_control (c : N) : bool := ((c <? 32) || (127 <=? c) && (c <? 160))%N.
Definition is_valid_semantic_key (value : string) : bool :=
  negb (is_blank value) && negb (existsb is_control (chars value)).
Definition semantic_key_try_new (value : string) : result AssetValidationError string :=
  fail_if negb (is_valid_semantic_key value) with AssetInvalid InvalidKey value in Ok value.

(** ** Role, story, constraint and character identifiers *)

Definition RoleId := string.
Definition StoryId := string.
Definition ConstraintId := string.
Definition CharacterId := string.
Definition EventId := string.

Definition RoleId_MAX_BYTES : N := 128.

Definition is_valid_role_id (value : string) : bool :=
  if is_empty value || (RoleId_MAX_BYTES <? slen value)%N then false
  else scan_segments false (chars value).

Definition RoleId_try_new (value : string) : result DomainInputError RoleId :=
  fail_if negb (is_valid_role_id value) with InvalidRoleId in
  fail_if is_canonical_knowledge_id_shape value with RoleIdReservedForKnowledge in
  Ok value.

Definition StoryId_try_new (value : string) : result DomainInputError StoryId :=
  fail_if is_blank value with EmptyStoryId in Ok value.

Definition ConstraintId_try_new (value : string) : result DomainInputError ConstraintId :=
  fail_if is_blank value with EmptyConstraintId in Ok value.

(** The crate [uuid]: what a text names and how it is written. *)
Class Uuids := {
  uuid : Type;
  uuid_parse_str : string → option uuid;
  uuid_is_nil : uuid → bool;
  uuid_hyphenated : uuid → string;
}.

Definition CharacterId_try_new `{Uuids} (value : string) : result DomainInputError CharacterId :=
  let? parsed := ok_or (uuid_parse_str value) InvalidCharacterId in
  fail_if uuid_is_nil parsed with InvalidCharacterId in
  Ok (uuid_hyphenated parsed).

(** ** Turn numbers *)

Inductive TurnNumberError := TurnNumber_Zero | TurnNumber_ExceedsSqliteRange | TurnNumber_Overflow.
Definition TurnNumber := N.

Definition TurnNumber_try_new (value : N) : result TurnNumberError TurnNumber :=
  fail_if (value =? 0)%N with TurnNumber_Zero in
  fail_if (I64_MAX <? value)%N with TurnNumber_ExceedsSqliteRange in
  Ok value.

Definition TurnNumber_checked_next (t : TurnNumber) : result TurnNumberError TurnNumber :=
  let? next := ok_or (checked_add U64_MAX t 1) TurnNumber_Overflow in
  map_err (λ _, TurnNumber_Overflow) (TurnNumber_try_new next).

Record TurnKey := { tk_story_id : StoryId; tk_turn_number : TurnNumber }.
Definition TurnKey_to_string (k : TurnKey) : string :=
  tk_story_id k +:+ ":turn:" +:+ pretty (tk_turn_number k).

Definition StoryRevision := N.
Definition RoleIdHighWater := N.
Definition KnowledgeIdHighWater := N.

(** ** Dynamic roles *)

Record DynamicRoleCandidatePool := {
  pool_candidates : list RoleId;
  pool_base_high_water : RoleIdHighWater;
}.

Definition position_of (p : DynamicRoleCandidatePool) (role_id : RoleId) : option nat :=
  fst <$> list_find (λ candidate, candidate = role_id) (pool_candidates p).

(** What a call of [expect] on an error, or an [unwrap], does. *)
Inductive allocation_error := RoleAllocationOverflow | Panic.

Definition allocate_role_step (s : N * list RoleId) (_ : nat) : result allocation_error (N * list RoleId) :=
  let '(next, candidates) := s in
  let? next := ok_or (checked_add U64_MAX next 1) RoleAllocationOverflow in
  fail_if (next =? 0)%N with Panic in
  let formatted := DYNAMIC_ROLE_ID_PREFIX +:+ format_knowledge_sequence next in
  let? role_id := map_err (λ _, Panic) (RoleId_try_new formatted) in
  Ok (next, candidates ++ [role_id]).

Definition allocate_dynamic_role_candidates (base : RoleIdHighWater) (maximum : nat) :
    result allocation_error DynamicRoleCandidatePool :=
  let? s := try_fold allocate_role_step (base, []) (seq 0 maximum) in
  Ok {| pool_candidates := s.2; pool_base_high_water := base |}.

(** ** Versions and digests *)

(** [str::split] with a character predicate: always at least one part. *)
Fixpoint split_on (p : N → bool) (bs : list N) : list (list N) :=
  match bs with
  | [] => [[]]
  | b :: bs' =>
      if p b then [] :: split_on p bs'
      else match split_on p bs' with [] => [[b]] | part :: parts => (b :: part) :: parts end
  end.

Definition is_valid_semver (value : string) : bool :=
  let bs := str_bytes value in
  match split_on (λ b, (b =? 45) || (b =? 43))%N bs with
  | [] => false
  | core :: _ =>
      match map parse_u64 (split_on (λ b, b =? 46)%N core) with
      | [Some major; Some minor; Some patch] =>
          if ((major =? 0) && (minor =? 0) && (patch =? 0))%N then false
          else if match split_on (λ b, b =? 45)%N bs !! 1 with
                  | Some rest => match split_on (λ b, b =? 43)%N rest with
                                 | pre :: _ => match pre with [] => true | _ => false end
                                 | [] => true end
                  | None => false end then false
          else match split_on (λ b, b =? 43)%N bs !! 1 with Some [] => false | _ => true end
      | _ => false
      end
  end.

Definition SemanticVersion := string.
Definition SemanticVersion_try_new (value : string) : result AssetValidationError SemanticVersion :=
  fail_if negb (is_valid_semver value) with AssetInvalid InvalidVersion value in Ok value.

(** The 32 bytes of a digest. *)
Definition Sha256Digest := list N.

Definition hex_val (byte : N) : option N :=
  if ((48 <=? byte) && (byte <=? 57))%N then Some (byte - 48)%N
  else if ((97 <=? byte) && (byte <=? 102))%N then Some (byte - 97 + 10)%N
  else None.

(** [chunks_exact(2)], each pair [(high << 4) | low]. *)
Fixpoint hex_pairs (bs : list N) : option (list N) :=
  match bs with
  | high :: low :: bs' =>
      h ← hex_val high; l ← hex_val low; rest ← hex_pairs bs';
      Some (N.lor (N.shiftl h 4) l :: rest)
  | _ => Some []
  end.

Definition Sha256Digest_try_new (value : string) : result AssetValidationError Sha256Digest :=
  let hex := default value (strip_prefix "sha256:" value) in
  fail_if negb (slen hex =? 64)%N with AssetInvalid InvalidKey value in
  ok_or (hex_pairs (str_bytes hex)) (AssetInvalid InvalidKey value).

Definition hex_char (n : N) : N := if (n <? 10)%N then (48 + n)%N else (87 + n)%N.
(** [write!(f, "{byte:02x}")] for every byte. *)
Definition Sha256Digest_to_string (d : Sha256Digest) : string :=
  String.string_of_list_ascii (map byte_of (concat (map (λ b, [hex_char (b / 16); hex_char (b mod 16)]) d))).
Definition Sha256Digest_serialize (d : Sha256Digest) : string := "sha256:" +:+ Sha256Digest_to_string d.

(** ** Bounded texts, scalars and hints *)

Definition BoundedText := string.
Definition BoundedText_try_new (value field : string) (maximum_bytes : N) :
    result AssetValidationError BoundedText :=
  fail_if (maximum_bytes <? slen value)%N with AssetLimitExceeded field (slen value) maximum_bytes in
  Ok value.

Inductive ScalarValue :=
| Scalar_Bool (b : bool) | Scalar_Integer (z : Z) | Scalar_Decimal (s : string) | Scalar_Text (s : string).
#[global] Instance ScalarValue_eq_dec : EqDecision ScalarValue. Proof. solve_decision. Defined.

Record AssetValidationIssue := {
  avi_code : AssetValidationCode; avi_path : string; avi_message : string;
}.
Record ValidationReport := { vr_valid : bool; vr_issues : list AssetValidationIssue }.
Definition ValidationReport_ok : ValidationReport := {| vr_valid := true; vr_issues := [] |}.
Definition with_issues (issues : list AssetValidationIssue) : ValidationReport :=
  {| vr_valid := match issues with [] => true | _ => false end; vr_issues := issues |}.
Definition report_push (r : ValidationReport) (issue : AssetValidationIssue) : ValidationReport :=
  {| vr_valid := false; vr_issues := vr_issues r ++ [issue] |}.
Definition report_merge (r other : ValidationReport) : ValidationReport :=
  {| vr_valid := if vr_valid other then vr_valid r else false; vr_issues := vr_issues r ++ vr_issues other |}.

Inductive RetrievalHintError := Hint_Empty | Hint_TooLong (actual maximum : N).
Definition RetrievalHint := BoundedText.
Definition RetrievalHint_MAX_BYTES : N := 256.

Definition RetrievalHint_try_new (value : string) : result RetrievalHintError RetrievalHint :=
  fail_if is_blank value with Hint_Empty in
  map_err (λ e, match e with
                | AssetLimitExceeded _ actual maximum => Hint_TooLong actual maximum
                | AssetInvalid _ _ => Hint_Empty end)
    (BoundedText_try_new value "retrieval_hint" RetrievalHint_MAX_BYTES).

Definition normalize_static_retrieval_hint (content : BoundedText) (configured : option RetrievalHint) :
    result AssetValidationError RetrievalHint :=
  match configured with
  | Some hint => Ok hint
  | None =>
      if (slen content <=? RetrievalHint_MAX_BYTES)%N then
        map_err (λ _, AssetInvalid RetrievalHintRequired "retrieval_hint") (RetrievalHint_try_new content)
      else Err (AssetInvalid RetrievalHintRequired "retrieval_hint")
  end.

(** ** Knowledge identifiers *)

Inductive KnowledgeKind := Kind_Fact | Kind_Rumor | Kind_Memory.
#[global] Instance KnowledgeKind_eq_dec : EqDecision KnowledgeKind. Proof. solve_decision. Defined.

Definition PackId := string.
Inductive KnowledgeSource :=
| Source_Seed (pack_id : PackId) (pack_digest : Sha256Digest)
| Source_CommittedTurn (turn_number : TurnNumber).
#[global] Instance KnowledgeSource_eq_dec : EqDecision KnowledgeSource. Proof. solve_decision. Defined.

Inductive KnowledgeSourceId :=
| Sid_Fact (id : FactId) | Sid_Rumor (id : RumorId) | Sid_Memory (id : MemoryId).
#[global] Instance KnowledgeSourceId_eq_dec : EqDecision KnowledgeSourceId. Proof. solve_decision. Defined.

Definition sid_as_str (s : KnowledgeSourceId) : string :=
  match s with Sid_Fact id | Sid_Rumor id | Sid_Memory id => id end.
Definition sid_kind (s : KnowledgeSourceId) : KnowledgeKind :=
  match s with Sid_Fact _ => Kind_Fact | Sid_Rumor _ => Kind_Rumor | Sid_Memory _ => Kind_Memory end.
Definition kind_prefix (k : KnowledgeKind) : string :=
  match k with Kind_Fact => FactId_PREFIX | Kind_Rumor => RumorId_PREFIX | Kind_Memory => MemoryId_PREFIX end.
Definition kind_sid (k : KnowledgeKind) : string → KnowledgeSourceId :=
  match k with Kind_Fact => Sid_Fact | Kind_Rumor => Sid_Rumor | Kind_Memory => Sid_Memory end.

(** The derived [Ord]: variants in order, then the identifiers. *)
Definition kind_rank (k : KnowledgeKind) : N :=
  match k with Kind_Fact => 0 | Kind_Rumor => 1 | Kind_Memory => 2 end.
Definition sid_key (s : KnowledgeSourceId) : N * string := (kind_rank (sid_kind s), sid_as_str s).

Definition try_from_parts (kind : KnowledgeKind) (id : string) : result KnowledgeIdError KnowledgeSourceId :=
  let? id := id_try_new (kind_prefix kind) id in Ok (kind_sid kind id).

Definition KnowledgeSequence := N.
Definition KnowledgeSequence_try_new (value : N) : result KnowledgeIdError KnowledgeSequence :=
  fail_if (value =? 0)%N with InvalidGrammar (pretty value) in Ok value.

Record KnowledgeIdAllocation := {
  ka_assigned : list KnowledgeSourceId;
  ka_new_high_water : KnowledgeIdHighWater;
}.

Definition new_knowledge_source_id (kind : KnowledgeKind) (sequence : KnowledgeSequence) :
    result KnowledgeIdError KnowledgeSourceId :=
  let? id := id_from_sequence (kind_prefix kind) sequence in Ok (kind_sid kind id).

Definition allocate_id_step (s : N * list KnowledgeSourceId) (kind : KnowledgeKind) :
    result KnowledgeIdError (N * list KnowledgeSourceId) :=
  let '(next, assigned) := s in
  let? next := ok_or (checked_add U64_MAX next 1) AllocationOverflow in
  let? sequence := KnowledgeSequence_try_new next in
  let? sid := new_knowledge_source_id kind sequence in
  Ok (next, assigned ++ [sid]).

Definition allocate_knowledge_ids (base : KnowledgeIdHighWater) (addition_kinds : list KnowledgeKind) :
    result KnowledgeIdError KnowledgeIdAllocation :=
  let? s := try_fold allocate_id_step (base, []) addition_kinds in
  Ok {| ka_assigned := s.2; ka_new_high_water := s.1 |}.

#[global] Instance sid_key_inj : Inj (=) (=) sid_key.
Proof. intros [x|x|x] [y|y|y]; cbv; congruence. Qed.
#[global] Instance sid_countable : Countable KnowledgeSourceId.
Proof.
  apply (inj_countable' (λ s, (kind_rank (sid_kind s), sid_as_str s))
    (λ p, match p.1 with 0 => Sid_Fact p.2 | 1 => Sid_Rumor p.2 | _ => Sid_Memory p.2 end)%N).
  by intros [].
Defined.
#[global] Instance sid_key_ord : KeyOrd KnowledgeSourceId :=
  λ x y, prod_compare N.compare String.compare (sid_key x) (sid_key y).
#[global] Instance sid_key_ord_laws : OrdLaws (A:=KnowledgeSourceId) key_compare.
Proof. apply (inj_ord_laws sid_key). apply _. Qed.

(** ** Facts about decimal spellings *)
Lemma str_bytes_cons a s : str_bytes (String a s) = byte_val a :: str_bytes s.
Proof. done. Qed.
Lemma str_bytes_app s1 s2 : str_bytes (s1 +:+ s2) = str_bytes s1 ++ str_bytes s2.
Proof.
  induction s1 as [|a s1 IH]; [done|]. change (String a s1 +:+ s2) with (String a (s1 +:+ s2)).
  by rewrite !str_bytes_cons, IH.
Qed.

Lemma digits_value_app acc bs1 bs2 : digits_value acc (bs1 ++ bs2) = digits_value acc bs1 ≫= λ v, digits_value v bs2.
Proof.
  revert acc. induction bs1 as [|b bs1 IH]; intros acc; simpl; [done|].
  destruct (is_ascii_digit b); [|done]. by destruct (_ <=? _)%N.
Qed.

Lemma byte_val_pretty_char d : (d < 10)%N → byte_val (pretty_N_char d) = (48 + d)%N.
Proof.
  intros Hd. assert (d = 0 ∨ d = 1 ∨ d = 2 ∨ d = 3 ∨ d = 4 ∨ d = 5 ∨ d = 6 ∨ d = 7 ∨ d = 8 ∨ d = 9)%N
    as Hcases by lia. by repeat destruct Hcases as [->|Hcases]; subst.
Qed.

Lemma is_digit_val d : (d < 10)%N → is_ascii_digit (48 + d) = true.
Proof. intros. unfold is_ascii_digit. rewrite !(proj2 (N.leb_le _ _)); [done|lia..]. Qed.

Lemma digits_value_pretty_go n s :
  (n <= U64_MAX)%N → digits_value 0 (str_bytes (pretty_N_go n s)) = digits_value n (str_bytes s).
Proof.
  revert s. induction (N.lt_wf_0 n) as [n _ IH]. intros s Hn.
  destruct (decide (n = 0)%N) as [->|Hne]; [by rewrite pretty_N_go_0|].
  rewrite pretty_N_go_step by lia.
  assert (n = n `div` 10 * 10 + n `mod` 10)%N as Hdiv by div_lia.
  rewrite IH by div_lia.
  pose proof (N.mod_lt n 10 ltac:(done)) as Hlt.
  rewrite str_bytes_cons, byte_val_pretty_char by done.
  cbn [digits_value]. rewrite is_digit_val by done.
  replace (n `div` 10 * 10 + (48 + n `mod` 10 - 48))%N with n by lia.
  by rewrite (proj2 (N.leb_le n U64_MAX) Hn).
Qed.

Lemma pretty_N_pos n : n ≠ 0%N → pretty n = pretty_N_go n "".
Proof. intros. unfold pretty, pretty_N. by rewrite decide_False. Qed.

Lemma digits_value_pretty n : (n <= U64_MAX)%N → digits_value 0 (str_bytes (pretty n)) = Some n.
Proof.
  intros Hn. destruct (decide (n = 0)%N) as [->|Hne]; [done|].
  by rewrite pretty_N_pos, digits_value_pretty_go.
Qed.

Lemma digits_value_zeros k bs : digits_value 0 (replicate k 48%N ++ bs) = digits_value 0 bs.
Proof. induction k as [|k IH]; [done|exact IH]. Qed.

Lemma str_bytes_replicate k : str_bytes (String.string_of_list_ascii (replicate k (byte_of 48))) = replicate k 48%N.
Proof. induction k as [|k IH]; [done|]. apply (f_equal (cons 48%N) IH). Qed.

Lemma str_bytes_pad width s :
  str_bytes (pad_left width s) = replicate (width - String.length s) 48%N ++ str_bytes s.
Proof. unfold pad_left. by rewrite str_bytes_app, str_bytes_replicate. Qed.

Lemma digits_value_format n :
  (n <= U64_MAX)%N → digits_value 0 (str_bytes (format_knowledge_sequence n)) = Some n.
Proof.
  intros Hn. unfold format_knowledge_sequence. destruct (_ <? _)%N; [|by apply digits_value_pretty].
  by rewrite str_bytes_pad, digits_value_zeros, digits_value_pretty.
Qed.

Lemma digits_value_digits acc bs v : digits_value acc bs = Some v → forallb is_ascii_digit bs = true.
Proof.
  revert acc. induction bs as [|b bs IH]; intros acc; simpl; [done|].
  destruct (is_ascii_digit b) eqn:Hb; [|done]. destruct (_ <=? _)%N; [|done]. apply IH.
Qed.

Lemma parse_u64_digits bs v : bs ≠ [] → digits_value 0 bs = Some v → parse_u64 bs = Some v.
Proof.
  intros Hne Hv. destruct bs as [|b bs]; [done|]. simpl in *.
  destruct (N.eqb_spec b 43) as [->|]; [done|]. done.
Qed.

Lemma pretty_go_nonempty n s : s ≠ "" → pretty_N_go n s ≠ "".
Proof.
  revert s. induction (N.lt_wf_0 n) as [n _ IH]. intros s Hs.
  destruct (decide (n = 0)%N) as [->|]; [by rewrite pretty_N_go_0|].
  rewrite pretty_N_go_step by lia. apply IH; [div_lia|done].
Qed.

Lemma format_nonempty n : format_knowledge_sequence n ≠ "".
Proof.
  unfold format_knowledge_sequence. destruct (_ <? _)%N eqn:E.
  - intros H%(f_equal str_bytes). rewrite str_bytes_pad in H.
    destruct (String.length (pretty n)) eqn:Hl; [done|].
    apply app_eq_nil in H as [_ H]. by destruct (pretty n).
  - apply N.ltb_ge in E. rewrite pretty_N_pos, pretty_N_go_step by lia. by apply pretty_go_nonempty.
Qed.

(** A number has one spelling, and the parser reads exactly the spellings of positive numbers. *)
Lemma parse_knowledge_sequence_iff text n :
  parse_knowledge_sequence text = Some n ↔
    (0 < n <= U64_MAX)%N ∧ text = format_knowledge_sequence n.
Proof.
  unfold parse_knowledge_sequence. split.
  - destruct (is_empty text || negb _) eqn:Hsyn; [done|].
    apply orb_false_iff in Hsyn as [Hne Hdig]. apply negb_false_iff in Hdig.
    destruct (parse_u64 (str_bytes text)) as [v|] eqn:Hp; [|done]. simpl.
    destruct (N.eqb_spec v 0) as [|Hv0]; [done|].
    destruct (String.eqb_spec (format_knowledge_sequence v) text) as [Ht|]; [|done].
    intros [= <-]. split; [|done]. split; [lia|].
    assert (∀ bs acc w, (acc <= U64_MAX)%N → digits_value acc bs = Some w → (w <= U64_MAX)%N) as Hmax.
    { clear. induction bs as [|b bs IH]; intros acc w Hacc; simpl; [by intros [= <-]|].
      destruct (is_ascii_digit b); [|done]. destruct (N.leb_spec (acc * 10 + (b - 48)) U64_MAX); [|done].
      by apply IH. }
    destruct (str_bytes text) as [|b bs]; [done|]. unfold parse_u64 in Hp.
    destruct (b =? 43)%N; [destruct bs; [done|]|]; by eapply Hmax, Hp.
  - intros [[Hn0 Hn] ->]. pose proof (format_nonempty n) as Hne.
    pose proof (digits_value_format n Hn) as Hv.
    assert (is_empty (format_knowledge_sequence n) = false) as -> by (by destruct (format_knowledge_sequence n)).
    rewrite (digits_value_digits _ _ _ Hv). simpl.
    rewrite (parse_u64_digits _ n); [|by destruct (format_knowledge_sequence n)|done]. simpl.
    destruct (N.eqb_spec n 0); [lia|]. by rewrite String.eqb_refl.
Qed.

Lemma format_inj n m :
  (0 < n <= U64_MAX)%N → (0 < m <= U64_MAX)%N →
  format_knowledge_sequence n = format_knowledge_sequence m → n = m.
Proof.
  intros Hn Hm Heq.
  pose proof (proj2 (parse_knowledge_sequence_iff _ n) (conj Hn eq_refl)) as H1.
  pose proof (proj2 (parse_knowledge_sequence_iff _ m) (conj Hm eq_refl)) as H2. congruence.
Qed.

(** ** Numbered identifiers are canonical, and allocation gives fresh ones *)
Lemma prefix_app p s : String.prefix p (p +:+ s) = true.
Proof.
  induction p as [|a p IH]; [by destruct s|]. simpl.
  destruct (Ascii.ascii_dec a a) as [_|]; [exact IH|done].
Qed.
Lemma str_drop_app p s : str_drop (String.length p) (p +:+ s) = s.
Proof. by induction p as [|a p IH]. Qed.
Lemma prefix_inv p s : String.prefix p s = true → s = p +:+ str_drop (String.length p) s.
Proof.
  revert s. induction p as [|a p IH]; intros s Hs; [done|].
  destruct s as [|b s]; [done|]. simpl in *.
  destruct (Ascii.ascii_dec a b) as [->|]; [|done].
  change (String b s = String b (p +:+ str_drop (String.length p) s)). f_equal. by apply IH.
Qed.

Lemma strip_prefix_iff p s rest : strip_prefix p s = Some rest ↔ s = p +:+ rest.
Proof.
  unfold strip_prefix. split.
  - destruct (String.prefix p s) eqn:Hp; [|done]. intros [= <-]. by apply prefix_inv.
  - intros ->. by rewrite prefix_app, str_drop_app.
Qed.

Lemma id_from_sequence_ok prefix n :
  (n <= I64_MAX)%N → id_from_sequence prefix n = Ok (prefix +:+ format_knowledge_sequence n).
Proof. intros. unfold id_from_sequence. by rewrite (proj2 (N.ltb_ge _ _)). Qed.

Lemma id_try_new_format prefix n :
  (0 < n <= I64_MAX)%N →
  id_try_new prefix (prefix +:+ format_knowledge_sequence n) = Ok (prefix +:+ format_knowledge_sequence n).
Proof.
  intros Hn. unfold id_try_new. rewrite (proj2 (strip_prefix_iff _ _ _) eq_refl). simpl.
  rewrite (proj2 (parse_knowledge_sequence_iff _ n)).
  - apply id_from_sequence_ok. lia.
  - split; [|done]. unfold I64_MAX, U64_MAX in *. lia.
Qed.

(** A knowledge identifier has exactly one spelling per sequence number: the
    parser of a kind accepts a text exactly when it is the prefix of the kind
    followed by the canonical decimal of a number from 1 to [i64::MAX], and then
    returns it unchanged, so what [from_sequence] writes is read back. *)
Theorem knowledge_id_canonical prefix value id :
  id_try_new prefix value = Ok id ↔
    id = value ∧ ∃ n, (0 < n <= I64_MAX)%N ∧ value = prefix +:+ format_knowledge_sequence n ∧
                      id_from_sequence prefix n = Ok value.
Proof.
  split.
  - unfold id_try_new. destruct (strip_prefix prefix value ≫= parse_knowledge_sequence) as [n|] eqn:Hp; [|done]. simpl.
    apply bind_Some in Hp as (rest & Hrest%strip_prefix_iff & [Hn ->]%parse_knowledge_sequence_iff).
    subst value. unfold id_from_sequence. destruct (N.ltb_spec I64_MAX n) as [|Hle]; [done|].
    intros [= <-]. split; [done|]. exists n. split_and!; [lia..|done|]. by rewrite (proj2 (N.ltb_ge _ _)).
  - intros (-> & n & Hn & -> & _). by apply id_try_new_format.
Qed.

(** The identifiers an allocation from [base] gives to entries of these kinds. *)
Definition allocated (base : N) (kinds : list KnowledgeKind) : list KnowledgeSourceId :=
  imap (λ i k, kind_sid k (kind_prefix k +:+ format_knowledge_sequence (base + N.of_nat i + 1))) kinds.

Lemma allocated_cons base k kinds :
  allocated base (k :: kinds) =
    kind_sid k (kind_prefix k +:+ format_knowledge_sequence (base + 1)) :: allocated (base + 1) kinds.
Proof.
  unfold allocated. cbn [imap]. f_equal; [by rewrite N.add_0_r|].
  apply imap_ext. intros i x _. simpl. do 3 f_equal. lia.
Qed.

Lemma allocated_kinds base kinds : map sid_kind (allocated base kinds) = kinds.
Proof.
  revert base. induction kinds as [|k kinds IH]; intros base; [done|].
  rewrite allocated_cons. simpl. rewrite IH. by destruct k.
Qed.

Lemma allocate_id_steps base acc kinds :
  (base + nlen kinds <= I64_MAX)%N →
  try_fold allocate_id_step (base, acc) kinds = Ok (base + nlen kinds, acc ++ allocated base kinds)%N.
Proof.
  revert base acc. induction kinds as [|k kinds IH]; intros base acc Hlen.
  - cbn [try_fold]. by rewrite N.add_0_r, app_nil_r.
  - cbn [try_fold]. rewrite allocated_cons.
    assert (nlen (k :: kinds) = nlen kinds + 1)%N as Hn by (unfold nlen; simpl; lia).
    unfold allocate_id_step at 1, checked_add.
    rewrite (proj2 (N.leb_le (base + 1) U64_MAX)) by (unfold I64_MAX, U64_MAX in *; lia). cbn [ok_or].
    unfold KnowledgeSequence_try_new. destruct (N.eqb_spec (base + 1) 0); [lia|].
    unfold new_knowledge_source_id. rewrite id_from_sequence_ok by lia.
    rewrite IH by lia. rewrite <-(assoc_L app). do 2 f_equal. lia.
Qed.

Lemma allocate_id_steps_err base acc kinds :
  kinds ≠ [] → (I64_MAX < base + nlen kinds)%N →
  is_ok (try_fold allocate_id_step (base, acc) kinds) = false.
Proof.
  revert base acc. induction kinds as [|k kinds IH]; intros base acc Hne Hlen; [done|].
  cbn [try_fold]. unfold allocate_id_step at 1, checked_add.
  assert (nlen (k :: kinds) = nlen kinds + 1)%N as Hn by (unfold nlen; simpl; lia).
  destruct (N.leb_spec (base + 1) U64_MAX); [|done]. cbn [ok_or].
  unfold KnowledgeSequence_try_new. destruct (N.eqb_spec (base + 1) 0); [done|].
  unfold new_knowledge_source_id, id_from_sequence.
  destruct (N.ltb_spec I64_MAX (base + 1)); [done|].
  destruct kinds as [|k' kinds]; [unfold nlen in *; simpl in *; lia|]. apply IH; [done|lia].
Qed.

Lemma allocated_fresh base kinds s :
  (base + nlen kinds <= I64_MAX)%N → s ∈ allocated base kinds →
  ∃ n, (base < n <= base + nlen kinds)%N ∧
       sid_as_str s = kind_prefix (sid_kind s) +:+ format_knowledge_sequence n.
Proof.
  intros Hlen (i & k & -> & Hi%lookup_lt_Some)%elem_of_lookup_imap_1.
  exists (base + N.of_nat i + 1)%N. split; [unfold nlen; lia|]. by destruct k.
Qed.

Lemma allocated_NoDup base kinds :
  (base + nlen kinds <= I64_MAX)%N → NoDup (allocated base kinds).
Proof.
  intros Hle. apply NoDup_alt. intros i j s (x & Hx & ->)%list_lookup_imap_Some (y & Hy & Heq)%list_lookup_imap_Some.
  apply lookup_lt_Some in Hx as Hix. apply lookup_lt_Some in Hy as Hjy.
  assert (x = y) as <- by (by destruct x, y).
  assert (format_knowledge_sequence (base + N.of_nat i + 1) = format_knowledge_sequence (base + N.of_nat j + 1)) as Hf.
  { destruct x; by simplify_eq/=. }
  apply format_inj in Hf; [lia|unfold nlen, I64_MAX, U64_MAX in *; lia..].
Qed.

(** The result of an allocation. *)
Lemma allocate_result base kinds :
  match allocate_knowledge_ids base kinds with
  | Ok a => a = {| ka_assigned := allocated base kinds; ka_new_high_water := (base + nlen kinds)%N |}
            ∧ (kinds = [] ∨ (base + nlen kinds <= I64_MAX)%N)
  | Err _ => kinds ≠ [] ∧ (I64_MAX < base + nlen kinds)%N
  end.
Proof.
  destruct (decide (kinds = [])) as [->|Hne].
  { split; [|by left]. unfold nlen. simpl. by rewrite N.add_0_r. }
  unfold allocate_knowledge_ids. destruct (N.leb_spec (base + nlen kinds) I64_MAX) as [Hle|Hgt].
  - rewrite allocate_id_steps by done. split; [done|by right].
  - pose proof (allocate_id_steps_err base [] kinds Hne Hgt) as He. by destruct (try_fold _ _ _).
Qed.

(** Allocating identifiers for additions from a high-water mark succeeds exactly
    when there is nothing to allocate or the numbers stay within [i64::MAX], and
    then numbers the additions consecutively after the mark in order, each with
    an identifier of its kind that its parser accepts, all distinct, every one
    with a number above the old mark and at most the new one. *)
Theorem allocate_knowledge_ids_spec base kinds :
  is_ok (allocate_knowledge_ids base kinds) =
    match kinds with [] => true | _ => (base + nlen kinds <=? I64_MAX)%N end ∧
  ∀ a, allocate_knowledge_ids base kinds = Ok a →
    ka_new_high_water a = (base + nlen kinds)%N ∧
    map sid_kind (ka_assigned a) = kinds ∧ NoDup (ka_assigned a) ∧
    ∀ s, s ∈ ka_assigned a →
      try_from_parts (sid_kind s) (sid_as_str s) = Ok s ∧
      ∃ n, (base < n <= ka_new_high_water a)%N ∧
        sid_as_str s = kind_prefix (sid_kind s) +:+ format_knowledge_sequence n.
Proof.
  pose proof (allocate_result base kinds) as Hr. split.
  { destruct (allocate_knowledge_ids base kinds) as [a|err].
    - destruct Hr as [_ [->|Hle%N.leb_le]]; [done|]. rewrite Hle. by destruct kinds.
    - destruct Hr as [Hne Hgt%N.leb_gt]. rewrite Hgt. by destruct kinds. }
  intros a Ha. rewrite Ha in Hr. destruct Hr as [-> Hle]. cbn [ka_new_high_water ka_assigned].
  split; [done|]. split; [apply allocated_kinds|].
  destruct Hle as [->|Hle]; [split; [constructor|by intros s ?%not_elem_of_nil]|].
  split; [by apply allocated_NoDup|].
  intros s Hs. apply allocated_fresh in Hs as (n & Hn & Hid); [|done]. split; [|eauto].
  unfold try_from_parts. rewrite Hid.
  rewrite id_try_new_format by lia. rewrite <-Hid. by destruct s.
Qed.

(** ** Keys have the documented grammar *)

Inductive KeyShape : list N → Prop :=
| key_word w : w ≠ [] → Forall is_key_char w → KeyShape w
| key_sep w c rest :
    w ≠ [] → Forall is_key_char w → is_key_separator c → KeyShape rest → KeyShape (w ++ c :: rest).

Lemma separator_not_key c : is_key_separator c → is_key_char c = false.
Proof.
  unfold is_key_separator, is_key_char, is_ascii_lowercase, is_ascii_digit.
  destruct (N.eqb_spec c 46) as [->|]; [done|]. destruct (N.eqb_spec c 95) as [->|]; [done|].
  by destruct (N.eqb_spec c 45) as [->|].
Qed.

Lemma scan_word b w rest :
  w ≠ [] → Forall is_key_char w → scan_segments b (w ++ rest) = scan_segments true rest.
Proof.
  intros Hne Hw. revert b. induction Hw as [|c w Hc Hw IH]; [done|]. intros b. simpl.
  rewrite (Is_true_true_1 _ Hc). destruct w as [|d w]; [done|]. by apply IH.
Qed.

Lemma scan_segments_shape cs :
  (scan_segments false cs = true → KeyShape cs) ∧
  (scan_segments true cs = true → ∀ w, w ≠ [] → Forall is_key_char w → KeyShape (w ++ cs)).
Proof.
  induction cs as [|c cs [IHf IHt]]; simpl.
  { split; [done|]. intros _ w Hne Hw. rewrite app_nil_r. by constructor. }
  destruct (is_key_char c) eqn:Hc.
  - apply Is_true_true_2 in Hc. split; intros H.
    + apply (IHt H [c]); [done|]. by constructor.
    + intros w Hne Hw. rewrite cons_middle, (assoc_L app). apply IHt; [done|by destruct w|].
      apply Forall_app. split; [done|]. by constructor.
  - destruct (is_key_separator c) eqn:Hs; [|done]. apply Is_true_true_2 in Hs. split; [done|].
    intros H w Hne Hw. apply key_sep; auto.
Qed.

Lemma scan_segments_iff cs : scan_segments false cs = true ↔ KeyShape cs.
Proof.
  split; [apply scan_segments_shape|]. induction 1 as [w Hne Hw|w c rest Hne Hw Hc _ IH].
  - rewrite <-(app_nil_r w). by rewrite scan_word.
  - rewrite scan_word by done. simpl. by rewrite (separator_not_key c Hc), (Is_true_true_1 _ Hc).
Qed.

Lemma KeyShape_nonempty : ¬ KeyShape [].
Proof. inversion 1; [done|]. by destruct w. Qed.

Lemma is_valid_key_iff value : is_valid_key value = true ↔ KeyShape (chars value).
Proof.
  unfold is_valid_key. destruct value as [|a value]; [|apply scan_segments_iff].
  split; [done|]. by intros ?%KeyShape_nonempty.
Qed.

Lemma role_id_grammar value id :
  RoleId_try_new value = Ok id ↔
    id = value ∧ KeyShape (chars value) ∧ (slen value <= RoleId_MAX_BYTES)%N ∧
    ∀ prefix, prefix ∈ [FactId_PREFIX; RumorId_PREFIX; MemoryId_PREFIX] →
      ¬ ∃ n, (0 < n <= U64_MAX)%N ∧ value = prefix +:+ format_knowledge_sequence n.
Proof.
  unfold RoleId_try_new.
  assert (is_valid_role_id value = true ↔ KeyShape (chars value) ∧ (slen value <= RoleId_MAX_BYTES)%N) as Hv.
  { unfold is_valid_role_id. destruct value as [|a value].
    - split; [done|]. by intros [?%KeyShape_nonempty _].
    - cbn [is_empty orb]. destruct (N.ltb_spec RoleId_MAX_BYTES (slen (String a value))).
      + split; [done|]. intros [_ ?]. lia.
      + rewrite scan_segments_iff. naive_solver. }
  assert (is_canonical_knowledge_id_shape value = true ↔
    ∃ prefix, prefix ∈ [FactId_PREFIX; RumorId_PREFIX; MemoryId_PREFIX] ∧
      ∃ n, (0 < n <= U64_MAX)%N ∧ value = prefix +:+ format_knowledge_sequence n) as Hk.
  { unfold is_canonical_knowledge_id_shape. rewrite existsb_exists. f_equiv. intros prefix.
    rewrite list_elem_of_In, bool_decide_eq_true. f_equiv. split.
    - intros (n & (rest & ->%strip_prefix_iff & [? ->]%parse_knowledge_sequence_iff)%bind_Some). eauto.
    - intros (n & Hn & ->). exists n. rewrite (proj2 (strip_prefix_iff _ _ _) eq_refl). simpl.
      by apply parse_knowledge_sequence_iff. }
  destruct (is_valid_role_id value); simpl.
  2: { split; [done|]. intros (_ & Hs & Hlen & _). by discriminate (proj2 Hv (conj Hs Hlen)). }
  destruct (proj1 Hv eq_refl) as [Hs Hlen]. destruct (is_canonical_knowledge_id_shape value).
  - split; [done|]. intros (_ & _ & _ & Hno). destruct (proj1 Hk eq_refl) as (p & Hp & Hn). by destruct (Hno p).
  - split; [intros [= <-]|naive_solver]. split_and!; [done..|]. intros p Hp Hn.
    by discriminate (proj2 Hk (ex_intro _ p (conj Hp Hn))).
Qed.

(** ** Dynamic role candidates *)
Lemma chars_ascii s : Forall (λ b, (b < 128)%N) (str_bytes s) → chars s = str_bytes s.
Proof.
  induction s as [|a s IH]; [done|]. rewrite str_bytes_cons. intros [Ha Hs]%Forall_cons. simpl.
  rewrite (proj2 (N.ltb_lt _ _)) by done. f_equal. by apply IH.
Qed.

Lemma format_digits n :
  (n <= U64_MAX)%N → Forall (λ b, is_ascii_digit b = true) (str_bytes (format_knowledge_sequence n)).
Proof.
  intros Hn. pose proof (digits_value_digits _ _ _ (digits_value_format n Hn)) as H.
  apply Forall_forall. intros b Hb. rewrite forallb_forall in H. apply H. by apply list_elem_of_In.
Qed.

Lemma chars_format n :
  (n <= U64_MAX)%N → chars (format_knowledge_sequence n) = str_bytes (format_knowledge_sequence n).
Proof.
  intros Hn. apply chars_ascii. eapply Forall_impl; [by apply format_digits|]. simpl.
  intros b [_ ?%N.leb_le]%andb_true_iff. lia.
Qed.

Lemma length_pretty_go k n s :
  (n < 10 ^ N.of_nat k)%N → String.length (pretty_N_go n s) ≤ k + String.length s.
Proof.
  revert n s. induction k as [|k IH]; intros n s Hn.
  - assert (n = 0)%N as -> by (simpl in Hn; lia). by rewrite pretty_N_go_0.
  - destruct (decide (n = 0)%N) as [->|]; [rewrite pretty_N_go_0; lia|].
    rewrite pretty_N_go_step by lia.
    etrans; [apply IH|simpl; lia].
    rewrite Nat2N.inj_succ, N.pow_succ_r' in Hn. apply N.Div0.div_lt_upper_bound. lia.
Qed.

Lemma string_length_app s1 s2 : String.length (s1 +:+ s2) = String.length s1 + String.length s2.
Proof. induction s1 as [|a s1 IH]; [done|]. simpl in *. by f_equal. Qed.

Lemma length_format n : (n <= U64_MAX)%N → String.length (format_knowledge_sequence n) ≤ 20.
Proof.
  intros Hn. assert (String.length (pretty n) ≤ 20) as Hp.
  { destruct (decide (n = 0)%N) as [->|]; [cbv; lia|]. rewrite pretty_N_pos by done.
    etrans; [apply (length_pretty_go 20)|simpl; lia]. unfold U64_MAX in Hn. simpl. lia. }
  unfold format_knowledge_sequence. destruct (n <? 10000)%N; [|done].
  unfold pad_left. rewrite string_length_app.
  assert (∀ k, String.length (String.string_of_list_ascii (replicate k (byte_of 48))) = k) as ->.
  { intros k. induction k as [|k IH]; [done|]. simpl. by f_equal. }
  lia.
Qed.

Definition dynamic_role_id (n : N) : RoleId := DYNAMIC_ROLE_ID_PREFIX +:+ format_knowledge_sequence n.

Lemma dynamic_role_id_valid n :
  (0 < n <= U64_MAX)%N → RoleId_try_new (dynamic_role_id n) = Ok (dynamic_role_id n).
Proof.
  intros [Hn0 Hn]. unfold RoleId_try_new, is_valid_role_id.
  assert (is_empty (dynamic_role_id n) = false) as -> by done.
  assert (slen (dynamic_role_id n) <= RoleId_MAX_BYTES)%N as Hlen.
  { unfold slen, dynamic_role_id. rewrite string_length_app. pose proof (length_format n Hn).
    unfold RoleId_MAX_BYTES. simpl String.length. lia. }
  rewrite (proj2 (N.ltb_ge _ _) Hlen). cbn [orb].
  assert (scan_segments false (chars (dynamic_role_id n)) = true) as ->.
  { change (chars (dynamic_role_id n)) with (chars "role" ++ 95%N :: chars (format_knowledge_sequence n)).
    apply scan_segments_iff. apply key_sep; [done|by repeat constructor|done|]. apply key_word.
    - rewrite chars_format by done. pose proof (format_nonempty n). by destruct (format_knowledge_sequence n).
    - rewrite chars_format by done. eapply Forall_impl; [by apply format_digits|].
      intros b Hb. unfold is_key_char. rewrite Hb, orb_true_r. done. }
  done.
Qed.

Lemma allocate_role_steps base acc l :
  (base + nlen l <= U64_MAX)%N →
  try_fold allocate_role_step (base, acc) l =
    Ok (base + nlen l, acc ++ imap (λ i _, dynamic_role_id (base + N.of_nat i + 1)) l)%N.
Proof.
  revert base acc. induction l as [|x l IH]; intros base acc Hlen.
  - cbn [try_fold imap]. by rewrite N.add_0_r, app_nil_r.
  - cbn [try_fold]. assert (nlen (x :: l) = nlen l + 1)%N as Hn by (unfold nlen; simpl; lia).
    unfold allocate_role_step at 1, checked_add.
    rewrite (proj2 (N.leb_le (base + 1) U64_MAX)) by lia. cbn [ok_or].
    destruct (N.eqb_spec (base + 1) 0); [lia|]. fold (dynamic_role_id (base + 1)).
    rewrite dynamic_role_id_valid by lia. cbn [map_err]. rewrite IH by lia.
    rewrite <-(assoc_L app). cbn [imap app]. do 2 f_equal; [lia|]. f_equal. f_equal.
    + by rewrite N.add_0_r.
    + apply imap_ext. intros i y _. simpl. f_equal. lia.
Qed.

(** The candidates for roles a turn may introduce: whatever the high-water mark,
    allocation never panics; it fails exactly when the numbers would pass
    [u64::MAX], and otherwise returns as many distinct valid role identifiers as
    asked for, numbered consecutively after the mark, none of which can be the
    identifier of a fact, rumour or memory. *)
Theorem allocate_dynamic_role_candidates_spec base maximum :
  allocate_dynamic_role_candidates base maximum ≠ Err Panic ∧
  (is_ok (allocate_dynamic_role_candidates base maximum) = true ↔
     maximum = 0 ∨ (base + N.of_nat maximum <= U64_MAX)%N) ∧
  ∀ p, allocate_dynamic_role_candidates base maximum = Ok p →
    pool_base_high_water p = base ∧
    pool_candidates p = map (λ i, dynamic_role_id (base + N.of_nat i + 1)) (seq 0 maximum) ∧
    NoDup (pool_candidates p) ∧
    ∀ id, id ∈ pool_candidates p →
      RoleId_try_new id = Ok id ∧ is_canonical_dynamic_role_id_shape id = true.
Proof.
  assert (∀ l, l ≠ [] → (U64_MAX < base + nlen l)%N → ∀ acc,
    try_fold allocate_role_step (base, acc) l = Err RoleAllocationOverflow) as Herr.
  { clear maximum. revert base. intros base l. revert base. induction l as [|x l IH]; [done|].
    intros base _ Hlen acc. cbn [try_fold]. unfold allocate_role_step at 1, checked_add.
    assert (nlen (x :: l) = nlen l + 1)%N as Hn by (unfold nlen; simpl; lia).
    destruct (N.leb_spec (base + 1) U64_MAX); [|done]. cbn [ok_or].
    destruct (N.eqb_spec (base + 1) 0); [lia|]. fold (dynamic_role_id (base + 1)).
    rewrite dynamic_role_id_valid by lia. cbn [map_err].
    destruct l as [|y l]; [unfold nlen in *; simpl in *; lia|]. apply IH; [done|lia]. }
  assert (nlen (seq 0 maximum) = N.of_nat maximum) as Hseq by (unfold nlen; by rewrite length_seq).
  unfold allocate_dynamic_role_candidates.
  destruct (decide (maximum = 0 ∨ (base + N.of_nat maximum <= U64_MAX)%N)) as [Hfit|Hfit].
  2: { rewrite Herr by (try rewrite Hseq; try (destruct maximum; naive_solver); lia).
    split_and!; [done|split; [done|naive_solver]|done]. }
  assert (try_fold allocate_role_step (base, []) (seq 0 maximum) =
    Ok (base + N.of_nat maximum, map (λ i, dynamic_role_id (base + N.of_nat i + 1)) (seq 0 maximum))%N) as ->.
  { destruct Hfit as [->|Hfit]; [cbn; by rewrite N.add_0_r|].
    rewrite allocate_role_steps by (rewrite Hseq; lia). rewrite Hseq. do 2 f_equal. simpl.
    apply list_eq. intros i. rewrite list_lookup_imap. change (@map) with (@fmap list _).
    rewrite list_lookup_fmap. destruct (seq 0 maximum !! i) as [j|] eqn:Hj; [|done].
    apply lookup_seq in Hj as [-> _]. done. }
  split_and!; [done|naive_solver|]. intros p [= <-]. cbn [pool_base_high_water pool_candidates snd].
  assert (∀ i, i ∈ seq 0 maximum → (base + N.of_nat i + 1 <= U64_MAX)%N) as Hin.
  { intros i Hi%elem_of_seq. destruct Hfit; lia. }
  split_and!; [done..| |].
  - apply NoDup_fmap_2_strong; [|apply NoDup_seq]. intros i j Hi Hj Heq.
    apply Hin in Hi, Hj. unfold dynamic_role_id, DYNAMIC_ROLE_ID_PREFIX in Heq. simplify_eq/=.
    apply format_inj in Heq; lia.
  - intros id (i & -> & Hi%Hin)%list_elem_of_fmap. split; [apply dynamic_role_id_valid; lia|].
    unfold is_canonical_dynamic_role_id_shape. apply bool_decide_eq_true_2.
    unfold dynamic_role_id. rewrite (proj2 (strip_prefix_iff _ _ _) eq_refl). simpl.
    eexists. apply parse_knowledge_sequence_iff. split; [|done]. lia.
Qed.

(** ** Digests are read back *)
Lemma hex_val_char n : (n < 16)%N → hex_val (hex_char n) = Some n.
Proof.
  intros Hn. unfold hex_val, hex_char. destruct (N.ltb_spec n 10).
  - rewrite !(proj2 (N.leb_le _ _)) by lia. simpl. f_equal. lia.
  - rewrite (proj2 (N.leb_gt (87 + n) 57)) by lia. rewrite andb_false_r.
    rewrite !(proj2 (N.leb_le _ _)) by lia. simpl. f_equal. lia.
Qed.

Lemma hex_pair_value b : (b < 256)%N → N.lor (N.shiftl (b / 16) 4) (b mod 16) = b.
Proof.
  intros Hb. assert (N.lor (N.shiftl (b / 16) 4) (b mod 16) =? b = true)%N as ?%N.eqb_eq; [|done].
  revert b Hb. assert (∀ k, (k < 256)%nat →
    (N.lor (N.shiftl (N.of_nat k / 16) 4) (N.of_nat k mod 16) =? N.of_nat k)%N = true) as H.
  { intros k Hk. assert (Forall (λ k, N.lor (N.shiftl (N.of_nat k / 16) 4) (N.of_nat k mod 16) =? N.of_nat k = true)%N
      (seq 0 256)) as Hall by (by apply (bool_decide_unpack _); vm_compute).
    rewrite Forall_forall in Hall. apply Hall, elem_of_seq. lia. }
  intros b Hb. specialize (H (N.to_nat b)). rewrite N2Nat.id in H. apply H. lia.
Qed.

Definition digest_ok (d : Sha256Digest) : Prop := length d = 32 ∧ Forall (λ b, (b < 256)%N) d.

Lemma Sha256Digest_roundtrip d :
  digest_ok d → Sha256Digest_try_new (Sha256Digest_serialize d) = Ok d.
Proof.
  intros [Hlen Hd]. unfold Sha256Digest_try_new, Sha256Digest_serialize.
  rewrite (proj2 (strip_prefix_iff _ _ _) eq_refl). cbn [from_option id].
  assert (str_bytes (Sha256Digest_to_string d) = concat (map (λ b, [hex_char (b / 16); hex_char (b mod 16)]) d)
    ∧ String.length (Sha256Digest_to_string d) = 2 * length d
    ∧ hex_pairs (concat (map (λ b, [hex_char (b / 16); hex_char (b mod 16)]) d)) = Some d) as (Hb & Hl & Hp).
  { clear Hlen. induction Hd as [|b d Hb Hd (IH1 & IH2 & IH3)]; [done|].
    assert (∀ n, n < 16 → hex_char n < 256)%N as Hc by (intros n; unfold hex_char; destruct (n <? 10)%N; lia).
    assert (b / 16 < 16 ∧ b mod 16 < 16)%N as [H1 H2] by (split; div_lia).
    change (Sha256Digest_to_string (b :: d)) with
      (String (byte_of (hex_char (b / 16))) (String (byte_of (hex_char (b mod 16))) (Sha256Digest_to_string d))).
    rewrite !str_bytes_cons, !byte_val_of by auto. rewrite IH1. split; [done|]. split; [simpl; lia|].
    change (concat (map ?f (b :: d))) with (hex_char (b / 16) :: hex_char (b mod 16) :: concat (map f d)).
    cbn [hex_pairs]. rewrite !hex_val_char, IH3 by done. simpl. f_equal. f_equal. by apply hex_pair_value. }
  unfold slen. rewrite Hl, Hlen. simpl. by rewrite Hb, Hp.
Qed.
