(* ===== verification/AiseRule.v ===== *)
(** * Activation rules of the crate [aise]

    [domain/knowledge/activation/rule.rs] of [crates/aise/src/]: the rule that
    says when an entry of knowledge is called up, its validation against the
    configured limits, and the digest that names its version.  The regular
    expression engine, SHA-256 and the Unicode tables are parameters.  The bytes
    fed to the hash are proved to determine the rule. *)

From S2P Require Import Prelude Text AiseIds.

(** ** Rules *)

Inductive ActivationPattern := Pattern_Literal (value : string).
Inductive SecondaryLogic := AndAny | AndAll | NotAny | NotAll.
Inductive GenerationTrigger :=
| Trigger_Normal | Trigger_Continue | Trigger_Regenerate | Trigger_Repair | Trigger_DryRunPreview.
Inductive ActivationBudgetClass := Class_Normal | Class_Reserved | Class_Mandatory.
#[global] Instance SecondaryLogic_eq_dec : EqDecision SecondaryLogic. Proof. solve_decision. Defined.
#[global] Instance GenerationTrigger_eq_dec : EqDecision GenerationTrigger. Proof. solve_decision. Defined.
#[global] Instance ActivationBudgetClass_eq_dec : EqDecision ActivationBudgetClass.
Proof. solve_decision. Defined.

Definition ActivationGroupKey := string.
Definition ActivationGroupKey_MAX_BYTES : N := 128.

Record ActivationMatchRule := {
  mr_keys : list ActivationPattern;
  mr_secondary_keys : list ActivationPattern;
  mr_secondary_logic : SecondaryLogic;
  mr_case_sensitive : bool;
  mr_match_whole_words : bool;
  mr_scan_depth : option N;
}.
Record ActivationMode := { mode_enabled : bool; mode_constant : bool; mode_exact_target_only : bool }.
Record ActivationRecursionRule := {
  rec_exclude_recursion : bool;
  rec_prevent_recursion : bool;
  rec_delay_until_recursion : option N;
}.
Record ActivationSelectionRule := {
  sel_order : Z;
  sel_probability : N;
  sel_groups : list ActivationGroupKey;
  sel_group_override : bool;
  sel_group_weight : N;
  sel_use_group_scoring : bool;
}.
Record ActivationTimingRule := { tim_sticky_turns : N; tim_cooldown_turns : N; tim_delay_turns : N }.
Record ActivationScopeRule := { scope_generation_triggers : list GenerationTrigger }.

Record KnowledgeActivationRule := {
  match_rule : ActivationMatchRule;
  mode : ActivationMode;
  recursion : ActivationRecursionRule;
  selection : ActivationSelectionRule;
  timing : ActivationTimingRule;
  scope : ActivationScopeRule;
  budget_class : ActivationBudgetClass;
}.

Definition KnowledgeActivationRule_disabled : KnowledgeActivationRule := {|
  match_rule := {| mr_keys := []; mr_secondary_keys := []; mr_secondary_logic := AndAny;
                   mr_case_sensitive := false; mr_match_whole_words := false; mr_scan_depth := None |};
  mode := {| mode_enabled := false; mode_constant := false; mode_exact_target_only := false |};
  recursion := {| rec_exclude_recursion := false; rec_prevent_recursion := false;
                  rec_delay_until_recursion := None |};
  selection := {| sel_order := 0; sel_probability := 100; sel_groups := []; sel_group_override := false;
                  sel_group_weight := 100; sel_use_group_scoring := false |};
  timing := {| tim_sticky_turns := 0; tim_cooldown_turns := 0; tim_delay_turns := 0 |};
  scope := {| scope_generation_triggers := [] |};
  budget_class := Class_Normal;
|}.

(** ** The version of a rule: a digest of its fields *)

(** SHA-256 of a sequence of bytes: 32 bytes. *)
Class Sha256Bytes := sha256_bytes : list N → list N.

(** [to_be_bytes] of an unsigned integer of [k] bytes. *)
Definition be_bytes (k : nat) (n : N) : list N :=
  map (λ i, (n / 256 ^ N.of_nat i) mod 256)%N (rev (seq 0 k)).
(** [i32::to_be_bytes] *)
Definition i32_be_bytes (z : Z) : list N := be_bytes 4 (Z.to_N (z mod 4294967296)).

Definition bytes_of_string (s : string) : list N := str_bytes s.

Definition hash_field (label value : list N) : list N :=
  label ++ [61%N] ++ be_bytes 8 (nlen value) ++ value ++ [59%N].
Definition hash_bool (label : list N) (value : bool) : list N :=
  hash_field label [if value then 1%N else 0%N].
Definition hash_optional_u16 (label : list N) (value : option N) : list N :=
  hash_field label (match value with Some v => be_bytes 2 v | None => [] end).
Definition hash_patterns (label : list N) (patterns : list ActivationPattern) : list N :=
  hash_field label (be_bytes 8 (nlen patterns)) ++
  concat (map (λ p, let '(Pattern_Literal v) := p in hash_field label (str_bytes v)) patterns).

Definition secondary_logic_tag (logic : SecondaryLogic) : list N :=
  str_bytes match logic with
            | AndAny => "and_any" | AndAll => "and_all" | NotAny => "not_any" | NotAll => "not_all" end.
Definition generation_trigger_tag (trigger : GenerationTrigger) : N :=
  match trigger with
  | Trigger_Normal => 0 | Trigger_Continue => 1 | Trigger_Regenerate => 2 | Trigger_Repair => 3
  | Trigger_DryRunPreview => 4 end.
Definition budget_class_tag (class : ActivationBudgetClass) : N :=
  match class with Class_Normal => 0 | Class_Reserved => 1 | Class_Mandatory => 2 end.

Definition label (s : string) : list N := str_bytes s.

(** Everything [from_rule] feeds to the hasher, in order. *)
Definition rule_fields (r : KnowledgeActivationRule) : list (list N) :=
  let m := match_rule r in
  let s := selection r in
  [str_bytes "aise.activation.rule.v1" ++ [0%N];
   hash_patterns (label "keys") (mr_keys m);
   hash_patterns (label "secondary_keys") (mr_secondary_keys m);
   hash_field (label "secondary_logic") (secondary_logic_tag (mr_secondary_logic m));
   hash_bool (label "case_sensitive") (mr_case_sensitive m);
   hash_bool (label "match_whole_words") (mr_match_whole_words m);
   hash_optional_u16 (label "scan_depth") (mr_scan_depth m);
   hash_bool (label "enabled") (mode_enabled (mode r));
   hash_bool (label "constant") (mode_constant (mode r));
   hash_bool (label "exact_target_only") (mode_exact_target_only (mode r));
   hash_bool (label "exclude_recursion") (rec_exclude_recursion (recursion r));
   hash_bool (label "prevent_recursion") (rec_prevent_recursion (recursion r));
   hash_optional_u16 (label "delay_until_recursion") (rec_delay_until_recursion (recursion r));
   hash_field (label "order") (i32_be_bytes (sel_order s));
   hash_field (label "probability") (be_bytes 1 (sel_probability s));
   hash_field (label "group_count") (be_bytes 8 (nlen (sel_groups s)));
   concat (map (λ g, hash_field (label "group") (str_bytes g)) (sel_groups s));
   hash_bool (label "group_override") (sel_group_override s);
   hash_field (label "group_weight") (be_bytes 4 (sel_group_weight s));
   hash_bool (label "use_group_scoring") (sel_use_group_scoring s);
   hash_field (label "sticky_turns") (be_bytes 2 (tim_sticky_turns (timing r)));
   hash_field (label "cooldown_turns") (be_bytes 2 (tim_cooldown_turns (timing r)));
   hash_field (label "delay_turns") (be_bytes 2 (tim_delay_turns (timing r)));
   hash_field (label "trigger_count") (be_bytes 8 (nlen (scope_generation_triggers (scope r))));
   concat (map (λ t, hash_field (label "trigger") [generation_trigger_tag t])
     (scope_generation_triggers (scope r)));
   hash_field (label "budget_class") [budget_class_tag (budget_class r)]].

Definition rule_preimage (r : KnowledgeActivationRule) : list N := concat (rule_fields r).

Definition ActivationRuleVersion := Sha256Digest.
Definition ActivationRuleVersion_from_rule `{Sha256Bytes} (r : KnowledgeActivationRule) : ActivationRuleVersion :=
  sha256_bytes (rule_preimage r).

(** ** Validation *)

Inductive ActivationRuleValidationError :=
| MissingActivationSource | ConflictingModes | InvalidProbability | InvalidGroupKey | TooManyGroups
| EmptyPattern | InvalidPattern | InvalidRegex | InvalidMacro | InvalidLimit | TooManyPrimaryPatterns
| TooManySecondaryPatterns | PatternTooLong | RegexProgramTooLarge | GroupKeyTooLong | ScanDepthTooLarge.
#[global] Instance ActivationRuleValidationError_eq_dec : EqDecision ActivationRuleValidationError.
Proof. solve_decision. Defined.

(** The loop of [ActivationGroupKey::try_new]. *)
Fixpoint group_key_go (previous_separator : bool) (cs : list N) : bool :=
  match cs with
  | [] => negb previous_separator
  | c :: cs' =>
      if is_key_char c then group_key_go false cs'
      else if is_key_separator c && negb previous_separator then group_key_go true cs'
      else false
  end.

Definition ActivationGroupKey_try_new (value : string) :
    result ActivationRuleValidationError ActivationGroupKey :=
  fail_if is_empty value || (ActivationGroupKey_MAX_BYTES <? slen value)%N with InvalidGroupKey in
  fail_if negb (group_key_go true (chars value)) with InvalidGroupKey in
  Ok value.

Record ActivationRuleLimits := {
  max_primary_patterns_per_entry : N;
  max_secondary_patterns_per_entry : N;
  max_pattern_bytes : N;
  max_regex_program_bytes : N;
  max_groups_per_entry : N;
  max_group_key_bytes : N;
  max_scan_depth : N;
}.

(** The crate [regex]: a compiled expression, or whether it was too big. *)
Class RegexEngine := {
  Regex : Type;
  regex_build : string → (* case_insensitive *) bool → (* multi_line *) bool →
    (* dot_matches_new_line *) bool → (* size_limit *) N → result (* too big *) bool Regex;
  regex_is_match : Regex → string → bool;
}.

Definition str_contains (needle hay : string) : bool := bool_decide (is_Some (String.index 0 needle hay)).

(** [str::rfind] of a byte *)
Fixpoint rfind_byte (b : N) (s : string) : option nat :=
  match s with
  | "" => None
  | String a s' =>
      match rfind_byte b s' with
      | Some i => Some (S i)
      | None => if (byte_val a =? b)%N then Some 0 else None
      end
  end.

(** A text [/expression/flags]. *)
Definition regex_parts (value : string) : option (string * string) :=
  rest ← strip_prefix "/" value;
  end_ ← rfind_byte 47 rest;
  Some (str_take end_ rest, str_drop (end_ + 1) rest).

Definition is_regex_flag (c : N) : bool := ((c =? 105) || (c =? 109) || (c =? 115) || (c =? 117))%N.

Definition compile_activation_regex `{RegexEngine} (expression flags : string) (max_program_bytes : N) :
    result ActivationRuleValidationError Regex :=
  fail_if (max_program_bytes =? 0)%N with InvalidLimit in
  fail_if existsb (λ c, negb (is_regex_flag c)) (chars flags) || negb (bool_decide (NoDup (chars flags)))
  with InvalidRegex in
  let has (c : N) := existsb (N.eqb c) (chars flags) in
  map_err (λ too_big : bool, if too_big then RegexProgramTooLarge else InvalidRegex)
    (regex_build expression (has 105%N) (has 109%N) (has 115%N) max_program_bytes).

(** The loop of [validate_macro_pattern]; every round drops at least the four
    braces, so the length of the text is fuel enough. *)
Fixpoint validate_macro_go (fuel : nat) (remaining : string) : result ActivationRuleValidationError unit :=
  match String.index 0 "{{" remaining with
  | None => fail_if str_contains "}}" remaining with InvalidMacro in Ok tt
  | Some start =>
      match fuel with
      | 0 => Err InvalidMacro
      | S fuel' =>
          let from_start := str_drop start remaining in
          let? end_ := ok_or (String.index 0 "}}" from_start) InvalidMacro in
          let name := str_take (end_ - 2) (str_drop 2 from_start) in
          fail_if negb (String.eqb name "player_name" || String.eqb name "player_role_label")
          with InvalidMacro in
          validate_macro_go fuel' (str_drop (end_ + 2) from_start)
      end
  end.
Definition validate_macro_pattern (value : string) : result ActivationRuleValidationError unit :=
  validate_macro_go (String.length value) value.

Definition validate_pattern `{RegexEngine} (limits : ActivationRuleLimits) (compile_regex : bool)
    (pattern : ActivationPattern) : result ActivationRuleValidationError unit :=
  let '(Pattern_Literal raw) := pattern in
  fail_if (max_pattern_bytes limits <? slen raw)%N with PatternTooLong in
  let value := trim raw in
  fail_if is_empty value with EmptyPattern in
  let? _ := if str_contains "{{" value || str_contains "}}" value
            then validate_macro_pattern value else Ok tt in
  match regex_parts value with
  | None => Ok tt
  | Some (expression, flags) =>
      fail_if str_contains "{{" value with InvalidMacro in
      if compile_regex
      then let? _ := compile_activation_regex expression flags (max_regex_program_bytes limits) in Ok tt
      else Ok tt
  end.

Definition validate_group (limits : ActivationRuleLimits) (group : ActivationGroupKey) :
    result ActivationRuleValidationError unit :=
  fail_if (max_group_key_bytes limits <? slen group)%N with GroupKeyTooLong in
  let? _ := ActivationGroupKey_try_new group in Ok tt.

Definition limits_positive (l : ActivationRuleLimits) : bool :=
  negb ((max_primary_patterns_per_entry l =? 0) || (max_secondary_patterns_per_entry l =? 0)
    || (max_pattern_bytes l =? 0) || (max_regex_program_bytes l =? 0) || (max_groups_per_entry l =? 0)
    || (max_group_key_bytes l =? 0) || (max_scan_depth l =? 0))%N.

Definition validate_inner `{RegexEngine} (r : KnowledgeActivationRule) (limits : ActivationRuleLimits)
    (compile_regex : bool) : result ActivationRuleValidationError unit :=
  let m := match_rule r in
  fail_if negb (limits_positive limits) with InvalidLimit in
  fail_if mode_constant (mode r) && mode_exact_target_only (mode r) with ConflictingModes in
  fail_if mode_enabled (mode r) && (nlen (mr_keys m) =? 0)%N && negb (mode_constant (mode r))
          && negb (mode_exact_target_only (mode r)) with MissingActivationSource in
  fail_if (100 <? sel_probability (selection r))%N with InvalidProbability in
  fail_if match mr_scan_depth m with Some depth => max_scan_depth limits <? depth | None => false end%N
  with ScanDepthTooLarge in
  fail_if (max_primary_patterns_per_entry limits <? nlen (mr_keys m))%N with TooManyPrimaryPatterns in
  fail_if (max_secondary_patterns_per_entry limits <? nlen (mr_secondary_keys m))%N
  with TooManySecondaryPatterns in
  fail_if (max_groups_per_entry limits <? nlen (sel_groups (selection r)))%N with TooManyGroups in
  let? _ := try_for_each (validate_pattern limits compile_regex) (mr_keys m ++ mr_secondary_keys m) in
  let? _ := try_for_each (validate_group limits) (sel_groups (selection r)) in
  fail_if match rec_delay_until_recursion (recursion r) with Some d => d =? 0 | None => false end%N
  with InvalidPattern in
  Ok tt.

Definition rule_validate `{RegexEngine} r limits := validate_inner r limits true.
Definition validate_for_index `{RegexEngine} r limits := validate_inner r limits false.

(** ** Normalisation *)

Fixpoint normalize_literal_go `{Unicode} (case_sensitive : bool) (normalized : list N) (pending_space : bool)
    (cs : list N) : list N :=
  match cs with
  | [] => normalized
  | c :: cs' =>
      if is_whitespace c
      then normalize_literal_go case_sensitive normalized
             (match normalized with [] => pending_space | _ => true end) cs'
      else
        let normalized := if pending_space then normalized ++ [32%N] else normalized in
        normalize_literal_go case_sensitive
          (normalized ++ (if case_sensitive then [c] else to_lowercase c)) false cs'
  end.
Definition normalize_activation_literal `{Unicode} (value : string) (case_sensitive : bool) : string :=
  encode (normalize_literal_go case_sensitive [] false (chars value)).

(** ** The hashed bytes determine the rule *)

(** Every number fits the width its field has. *)
Record rule_widths (r : KnowledgeActivationRule) : Prop := {
  rw_keys : (nlen (mr_keys (match_rule r)) <= U64_MAX)%N;
  rw_secondary : (nlen (mr_secondary_keys (match_rule r)) <= U64_MAX)%N;
  rw_texts : Forall (λ '(Pattern_Literal v), slen v <= U64_MAX)%N
    (mr_keys (match_rule r) ++ mr_secondary_keys (match_rule r));
  rw_depth : ∀ d, mr_scan_depth (match_rule r) = Some d → (d < 65536)%N;
  rw_delay : ∀ d, rec_delay_until_recursion (recursion r) = Some d → (d < 65536)%N;
  rw_order : (-2147483648 <= sel_order (selection r) < 2147483648)%Z;
  rw_probability : (sel_probability (selection r) < 256)%N;
  rw_groups : (nlen (sel_groups (selection r)) <= U64_MAX)%N;
  rw_group_texts : Forall (λ g, slen g <= U64_MAX)%N (sel_groups (selection r));
  rw_weight : (sel_group_weight (selection r) < 4294967296)%N;
  rw_timing : (tim_sticky_turns (timing r) < 65536 ∧ tim_cooldown_turns (timing r) < 65536 ∧
               tim_delay_turns (timing r) < 65536)%N;
  rw_triggers : (nlen (scope_generation_triggers (scope r)) <= U64_MAX)%N;
}.

Lemma be_bytes_S k n : be_bytes (S k) n = be_bytes 1 (n / 256 ^ N.of_nat k) ++ be_bytes k n.
Proof.
  unfold be_bytes. rewrite seq_S, rev_app_distr. cbn [rev app map seq Nat.add].
  by rewrite N.pow_0_r, N.div_1_r.
Qed.
Lemma length_be_bytes k n : length (be_bytes k n) = k.
Proof. unfold be_bytes. by rewrite length_map, length_rev, length_seq. Qed.

Definition be_decode (bs : list N) : N := foldl (λ acc b, acc * 256 + b)%N 0%N bs.

Lemma be_decode_snoc_go bs acc : foldl (λ acc b, acc * 256 + b)%N acc bs = (acc * 256 ^ nlen bs + be_decode bs)%N.
Proof.
  revert acc. unfold be_decode. induction bs as [|b bs IH]; intros acc; cbn [foldl].
  - change (nlen []) with 0%N. rewrite N.pow_0_r. lia.
  - rewrite IH, (IH (0 * 256 + b)%N). unfold nlen. cbn [length]. rewrite Nat2N.inj_succ, N.pow_succ_r'. lia.
Qed.

Lemma be_decode_be_bytes k n : be_decode (be_bytes k n) = (n mod 256 ^ N.of_nat k)%N.
Proof.
  induction k as [|k IH]; [by rewrite N.mod_1_r|].
  rewrite be_bytes_S. unfold be_decode. rewrite foldl_app, be_decode_snoc_go. fold (be_decode (be_bytes k n)).
  rewrite IH. unfold nlen. rewrite length_be_bytes, Nat2N.inj_succ, N.pow_succ_r', (N.mul_comm 256).
  rewrite N.Div0.mod_mul_r. unfold be_bytes. cbn [rev seq app map foldl]. rewrite N.pow_0_r, N.div_1_r. lia.
Qed.

Lemma be_bytes_inj k n m :
  (n < 256 ^ N.of_nat k)%N → (m < 256 ^ N.of_nat k)%N → be_bytes k n = be_bytes k m → n = m.
Proof.
  intros Hn Hm Heq%(f_equal be_decode). rewrite !be_decode_be_bytes, !N.mod_small in Heq by done. done.
Qed.

#[global] Instance str_bytes_inj : Inj (=) (=) str_bytes.
Proof.
  intros s1. induction s1 as [|a s1 IH]; intros [|b s2]; [done..|].
  rewrite !str_bytes_cons. intros [= Hab Hs]. f_equal; [|by apply IH].
  unfold byte_val in Hab. apply (f_equal Ascii.ascii_of_N) in Hab. by rewrite !Ascii.ascii_N_embedding in Hab.
Qed.

Lemma nlen_str_bytes s : nlen (str_bytes s) = slen s.
Proof.
  unfold nlen, slen. f_equal. induction s as [|a s IH]; [done|].
  rewrite str_bytes_cons. cbn [length String.length]. by f_equal.
Qed.

Lemma hash_field_inj l v w r s :
  (nlen v <= U64_MAX)%N → (nlen w <= U64_MAX)%N →
  hash_field l v ++ r = hash_field l w ++ s → v = w ∧ r = s.
Proof.
  intros Hv Hw. unfold hash_field. rewrite <-!(assoc_L app). intros Heq.
  apply app_inv_head, app_inv_head in Heq.
  apply app_inj_1 in Heq as [Hlen Heq]; [|by rewrite !length_be_bytes].
  apply be_bytes_inj in Hlen; [|unfold U64_MAX in *; change (256 ^ N.of_nat 8)%N with 18446744073709551616%N; lia..].
  apply app_inj_1 in Heq as [-> Heq]; [|unfold nlen in Hlen; lia]. by apply app_inv_head in Heq.
Qed.

Lemma hash_fields_inj {A} l (f : A → list N) xs ys r s :
  length xs = length ys → Forall (λ x, nlen (f x) <= U64_MAX)%N xs → Forall (λ x, nlen (f x) <= U64_MAX)%N ys →
  concat (map (λ x, hash_field l (f x)) xs) ++ r = concat (map (λ x, hash_field l (f x)) ys) ++ s →
  map f xs = map f ys ∧ r = s.
Proof.
  revert ys. induction xs as [|x xs IH]; intros [|y ys] Hlen Hx Hy; [done..|].
  inversion Hx; inversion Hy; subst. cbn [map concat]. rewrite <-!(assoc_L app).
  intros [Heq Hrest]%hash_field_inj; [|done..]. apply IH in Hrest as [Hm ->]; [|auto..]. by rewrite Heq, Hm.
Qed.

Lemma hash_bool_inj l b c r s : hash_bool l b ++ r = hash_bool l c ++ s → b = c ∧ r = s.
Proof. intros [Hb ->]%hash_field_inj; [|by vm_compute..]. by destruct b, c. Qed.

Lemma hash_number_inj l k n m r s :
  (N.of_nat k <= U64_MAX)%N → (n < 256 ^ N.of_nat k)%N → (m < 256 ^ N.of_nat k)%N →
  hash_field l (be_bytes k n) ++ r = hash_field l (be_bytes k m) ++ s → n = m ∧ r = s.
Proof.
  intros Hk Hn Hm [Hb ->]%hash_field_inj; [|unfold nlen; by rewrite length_be_bytes..].
  by apply be_bytes_inj in Hb.
Qed.

Lemma hash_optional_u16_inj l v w r s :
  (∀ x, v = Some x → x < 65536)%N → (∀ x, w = Some x → x < 65536)%N →
  hash_optional_u16 l v ++ r = hash_optional_u16 l w ++ s → v = w ∧ r = s.
Proof.
  intros Hv Hw. unfold hash_optional_u16. destruct v as [v|], w as [w|]; intros [Hb ->]%hash_field_inj; try done.
  apply be_bytes_inj in Hb as ->; [done|change (256 ^ N.of_nat 2)%N with 65536%N; auto..].
Qed.

Definition pattern_text (p : ActivationPattern) : string := let '(Pattern_Literal v) := p in v.

Lemma hash_patterns_fields l ps :
  hash_patterns l ps =
    hash_field l (be_bytes 8 (nlen ps)) ++ concat (map (λ p, hash_field l (str_bytes (pattern_text p))) ps).
Proof. unfold hash_patterns. f_equal. f_equal. apply map_ext. by intros []. Qed.

Lemma count_bound {A} (l : list A) : (nlen l <= U64_MAX)%N → (nlen l < 256 ^ N.of_nat 8)%N.
Proof. unfold U64_MAX. change (256 ^ N.of_nat 8)%N with 18446744073709551616%N. lia. Qed.

Lemma hash_patterns_inj l ps qs r s :
  (nlen ps <= U64_MAX)%N → (nlen qs <= U64_MAX)%N →
  Forall (λ '(Pattern_Literal v), slen v <= U64_MAX)%N ps → Forall (λ '(Pattern_Literal v), slen v <= U64_MAX)%N qs →
  hash_patterns l ps ++ r = hash_patterns l qs ++ s → ps = qs ∧ r = s.
Proof.
  intros Hp Hq Hps Hqs. rewrite !hash_patterns_fields, <-!(assoc_L app).
  intros [Hlen Heq]%hash_number_inj; [|done|by apply count_bound..].
  assert (∀ ts, Forall (λ '(Pattern_Literal v), slen v <= U64_MAX)%N ts →
    Forall (λ p, nlen (str_bytes (pattern_text p)) <= U64_MAX)%N ts) as Hb.
  { intros ts Hts. eapply Forall_impl; [done|]. intros []. by rewrite nlen_str_bytes. }
  apply hash_fields_inj in Heq as [Hm ->]; [|unfold nlen in Hlen; lia|by apply Hb..]. split; [|done].
  clear -Hm. revert qs Hm. induction ps as [|[p] ps IH]; intros [|[q] qs]; [done..|].
  cbn [map pattern_text]. intros [= Hpq%(inj str_bytes) Hrest]. subst. f_equal. by apply IH.
Qed.

Lemma i32_be_bytes_inj a b :
  (-2147483648 <= a < 2147483648)%Z → (-2147483648 <= b < 2147483648)%Z → i32_be_bytes a = i32_be_bytes b → a = b.
Proof.
  intros Ha Hb Heq. unfold i32_be_bytes in Heq.
  apply be_bytes_inj in Heq; [|change (256 ^ N.of_nat 4)%N with 4294967296%N;
    pose proof (Z.mod_pos_bound a 4294967296); pose proof (Z.mod_pos_bound b 4294967296); lia..].
  apply Z2N.inj in Heq; [|by apply Z.mod_pos_bound..]. Z.to_euclidean_division_equations; lia.
Qed.

Lemma hash_tag_inj {T} l (tag : T → list N) (x y : T) r s :
  Inj (=) (=) tag → (∀ t, nlen (tag t) <= U64_MAX)%N →
  hash_field l (tag x) ++ r = hash_field l (tag y) ++ s → x = y ∧ r = s.
Proof. intros Hinj Hlen [Htag ->]%hash_field_inj; [|done..]. by apply Hinj in Htag. Qed.

#[global] Instance secondary_logic_tag_inj : Inj (=) (=) secondary_logic_tag.
Proof. by intros [] []. Qed.
#[global] Instance trigger_tag_inj : Inj (=) (=) (λ t, [generation_trigger_tag t]).
Proof. by intros [] []. Qed.
#[global] Instance class_tag_inj : Inj (=) (=) (λ c, [budget_class_tag c]).
Proof. by intros [] []. Qed.
#[global] Instance map_inj {A B} (f : A → B) `{!Inj (=) (=) f} : Inj (=) (=) (map f).
Proof.
  intros xs. induction xs as [|x xs IH]; intros [|y ys]; [done..|]. simpl.
  intros [= Hxy Hl]. f_equal; [by apply (inj f)|by apply IH].
Qed.

Lemma texts_bound gs : Forall (λ g, slen g <= U64_MAX)%N gs → Forall (λ g, nlen (str_bytes g) <= U64_MAX)%N gs.
Proof. intros H. eapply Forall_impl; [done|]. intros g. by rewrite nlen_str_bytes. Qed.

(** The version of an activation rule covers all of it: the bytes fed to the hash
    are the same for two rules, with numbers that fit their fields, only when the
    rules are the same, so a change of any pattern, flag, number, group, trigger
    or class changes what is hashed. *)
Theorem rule_preimage_inj r1 r2 :
  rule_widths r1 → rule_widths r2 → rule_preimage r1 = rule_preimage r2 → r1 = r2.
Proof.
  intros [] [] Heq. destruct r1 as [[] [] [] [] [] [] ?], r2 as [[] [] [] [] [] [] ?].
  unfold rule_preimage, rule_fields in Heq.
  cbn [concat match_rule mode recursion selection timing scope budget_class mr_keys mr_secondary_keys
    mr_secondary_logic mr_case_sensitive mr_match_whole_words mr_scan_depth mode_enabled mode_constant
    mode_exact_target_only rec_exclude_recursion rec_prevent_recursion rec_delay_until_recursion sel_order
    sel_probability sel_groups sel_group_override sel_group_weight sel_use_group_scoring tim_sticky_turns
    tim_cooldown_turns tim_delay_turns scope_generation_triggers] in *.
  repeat match goal with
         | H : Forall _ (_ ++ _) |- _ => apply Forall_app in H as [? ?]
         | H : _ ∧ _ |- _ => destruct H
         end.
  apply app_inv_head in Heq.
  apply hash_patterns_inj in Heq as [-> Heq]; [|done..].
  apply hash_patterns_inj in Heq as [-> Heq]; [|done..].
  apply hash_tag_inj in Heq as [-> Heq]; [|apply _|by intros []].
  do 2 apply hash_bool_inj in Heq as [-> Heq].
  apply hash_optional_u16_inj in Heq as [-> Heq]; [|done..].
  do 5 apply hash_bool_inj in Heq as [-> Heq].
  apply hash_optional_u16_inj in Heq as [-> Heq]; [|done..].
  apply hash_field_inj in Heq as [->%i32_be_bytes_inj Heq]; [|done..].
  apply hash_number_inj in Heq as [-> Heq]; [|done..].
  apply hash_number_inj in Heq as [Hgroups Heq]; [|by try apply count_bound..].
  apply hash_fields_inj in Heq as [->%(inj (map str_bytes)) Heq];
    [|apply Nat2N.inj, Hgroups|by apply texts_bound..].
  apply hash_bool_inj in Heq as [-> Heq].
  apply hash_number_inj in Heq as [-> Heq]; [|done..].
  apply hash_bool_inj in Heq as [-> Heq].
  do 3 (apply hash_number_inj in Heq as [-> Heq]; [|done..]).
  apply hash_number_inj in Heq as [Htriggers Heq]; [|by try apply count_bound..].
  apply (hash_fields_inj (label "trigger") (λ t, [generation_trigger_tag t])) in Heq as [->%(inj (map _)) Heq];
    [|apply Nat2N.inj, Htriggers|by apply Forall_forall..].
  apply (hash_tag_inj (label "budget_class") (λ c, [budget_class_tag c])) in Heq as [-> _]; [done|apply _|by intros []].
Qed.

Definition keyword_rule : KnowledgeActivationRule :=
  {| match_rule := {| mr_keys := [Pattern_Literal "dragon"]; mr_secondary_keys := []; mr_secondary_logic := AndAll;
                      mr_case_sensitive := false; mr_match_whole_words := true; mr_scan_depth := Some 4%N |};
     mode := {| mode_enabled := true; mode_constant := false; mode_exact_target_only := false |};
     recursion := recursion KnowledgeActivationRule_disabled;
     selection := selection KnowledgeActivationRule_disabled;
     timing := timing KnowledgeActivationRule_disabled;
     scope := scope KnowledgeActivationRule_disabled;
     budget_class := Class_Normal |}.

Lemma keyword_rule_widths : rule_widths keyword_rule.
Proof.
  split; cbn; unfold nlen, slen, U64_MAX; simpl; try lia; try (by intros d [= <-]); repeat constructor; simpl; lia.
Qed.
Lemma disabled_rule_widths : rule_widths KnowledgeActivationRule_disabled.
Proof.
  split; cbn; unfold nlen, slen, U64_MAX; simpl; try lia; try done; repeat constructor; simpl; lia.
Qed.

Lemma rule_preimage_inj_witness : rule_preimage keyword_rule ≠ rule_preimage KnowledgeActivationRule_disabled.
Proof.
  intros H. discriminate (rule_preimage_inj keyword_rule KnowledgeActivationRule_disabled
    keyword_rule_widths disabled_rule_widths H).
Defined.

(** ** The fuel of the macro loop is enough *)
Lemma length_str_drop n s : String.length (str_drop n s) = String.length s - n.
Proof. revert s. induction n as [|n IH]; intros [|a s]; simpl; auto. Qed.

Lemma validate_macro_fuel f1 f2 s :
  String.length s ≤ f1 → String.length s ≤ f2 → validate_macro_go f1 s = validate_macro_go f2 s.
Proof.
  revert f2 s. induction f1 as [|f1 IH]; intros f2 s H1 H2.
  - destruct s; [|simpl in *; lia]. by destruct f2.
  - destruct f2 as [|f2]; [destruct s; [done|simpl in *; lia]|].
    cbn [validate_macro_go]. destruct (String.index 0 "{{" s) as [i|] eqn:Hi; [|done].
    destruct (String.index 0 "}}" (str_drop i s)) as [j|]; [|done]. cbn [ok_or].
    destruct (negb _); [done|].
    assert (0 < String.length s) as Hpos by (destruct s; [done|simpl; lia]).
    apply IH; rewrite !length_str_drop; lia.
Qed.
