(* ===== verification/AiseNarrative.v ===== *)
(** * The narrative graph of the crate [aise]

    [domain/narrative_graph/] of [crates/aise/src/]: conditions with three truth
    values, the projection of a graph at the start of a turn (what is active,
    what the model is asked, which effects reach the turn) and the resolution at
    its end (which nodes move, and the effects their moves leave behind).  A turn
    asks enough: what is not asked cannot change how it is resolved. *)

From S2P Require Import Prelude Text AiseIds.

Definition NarrativeNodeKey := string.
Definition NarrativeEdgeKey := string.
Definition NarrativeConditionKey := string.
Definition NarrativeEffectId := string.
Definition CanonicalEventKey := string.
Definition LocationKey := string.
Definition FactKey := string.

(** ** Conditions *)

Inductive NarrativeNodeState := Node_Inactive | Node_Active | Node_Completed | Node_Skipped.
Inductive RoleControllerKind := Controller_Player | Controller_Ai.
Inductive NarrativeTruthValue := Satisfied | Unsatisfied | Unknown.
#[global] Instance NarrativeNodeState_eq_dec : EqDecision NarrativeNodeState. Proof. solve_decision. Defined.
#[global] Instance RoleControllerKind_eq_dec : EqDecision RoleControllerKind. Proof. solve_decision. Defined.
#[global] Instance NarrativeTruthValue_eq_dec : EqDecision NarrativeTruthValue. Proof. solve_decision. Defined.

Definition truth_not (v : NarrativeTruthValue) : NarrativeTruthValue :=
  match v with Satisfied => Unsatisfied | Unsatisfied => Satisfied | Unknown => Unknown end.
Definition truth_all (values : list NarrativeTruthValue) : NarrativeTruthValue :=
  if bool_decide (Unsatisfied ∈ values) then Unsatisfied
  else if forallb (λ v, bool_decide (v = Satisfied)) values then Satisfied else Unknown.
Definition truth_any (values : list NarrativeTruthValue) : NarrativeTruthValue :=
  if bool_decide (Satisfied ∈ values) then Satisfied
  else if forallb (λ v, bool_decide (v = Unsatisfied)) values then Unsatisfied else Unknown.
Definition truth_of (b : bool) : NarrativeTruthValue := if b then Satisfied else Unsatisfied.

Record SemanticNarrativeCondition := { sem_condition_key : NarrativeConditionKey; sem_criterion : BoundedText }.

Inductive NarrativeCondition :=
| Cond_All (conditions : list NarrativeCondition)
| Cond_Any (conditions : list NarrativeCondition)
| Cond_Not (condition : NarrativeCondition)
| Cond_StoryStarted
| Cond_NodeState (node_key : NarrativeNodeKey) (state : NarrativeNodeState)
| Cond_Semantic (semantic : SemanticNarrativeCondition)
| Cond_FactStateEquals (fact_key : FactKey) (value : ScalarValue)
| Cond_RoleStateEquals (role_id : RoleId) (attribute : BoundedText) (value : ScalarValue)
| Cond_RelationshipReaches (source_role_id target_role_id : RoleId) (minimum_trust : Z)
| Cond_TurnReaches (turn : N)
| Cond_RoleControllerIs (role_id : RoleId) (controller : RoleControllerKind).

Section condition_ind.
Variable P : NarrativeCondition → Prop.
Hypothesis P_All : ∀ cs, Forall P cs → P (Cond_All cs).
Hypothesis P_Any : ∀ cs, Forall P cs → P (Cond_Any cs).
Hypothesis P_Not : ∀ c, P c → P (Cond_Not c).
Hypothesis P_leaf : ∀ c, match c with Cond_All _ | Cond_Any _ | Cond_Not _ => True | _ => P c end.

(** Induction that reaches into the lists of conditions. *)
Fixpoint condition_ind' (c : NarrativeCondition) : P c :=
  let fix go (cs : list NarrativeCondition) : Forall P cs :=
    match cs with [] => Forall_nil_2 P | c :: cs' => Forall_cons_2 P c cs' (condition_ind' c) (go cs') end in
  match c as c return P c with
  | Cond_All cs => P_All cs (go cs)
  | Cond_Any cs => P_Any cs (go cs)
  | Cond_Not c => P_Not c (condition_ind' c)
  | Cond_StoryStarted => P_leaf Cond_StoryStarted
  | Cond_NodeState k s => P_leaf (Cond_NodeState k s)
  | Cond_Semantic s => P_leaf (Cond_Semantic s)
  | Cond_FactStateEquals k v => P_leaf (Cond_FactStateEquals k v)
  | Cond_RoleStateEquals r a v => P_leaf (Cond_RoleStateEquals r a v)
  | Cond_RelationshipReaches a b m => P_leaf (Cond_RelationshipReaches a b m)
  | Cond_TurnReaches t => P_leaf (Cond_TurnReaches t)
  | Cond_RoleControllerIs r k => P_leaf (Cond_RoleControllerIs r k)
  end.
End condition_ind.

(** ** Effects, definition and state *)

Inductive NarrativeTransitionKind := Trans_Activate | Trans_Complete | Trans_Skip.
#[global] Instance NarrativeTransitionKind_eq_dec : EqDecision NarrativeTransitionKind.
Proof. solve_decision. Defined.
Definition transition_as_str (k : NarrativeTransitionKind) : string :=
  match k with Trans_Activate => "activate" | Trans_Complete => "complete" | Trans_Skip => "skip" end.

Definition for_transition (source_node : NarrativeNodeKey) (transition : NarrativeTransitionKind)
    (source_graph_revision effect_index : N) : NarrativeEffectId :=
  "narrative-effect:" +:+ source_node +:+ ":" +:+ transition_as_str transition +:+ ":"
  +:+ pretty source_graph_revision +:+ ":" +:+ pretty effect_index.

Inductive NarrativeParticipant := Participant_Role (r : RoleId) | Participant_Location (l : LocationKey).
Inductive ImpulseUrgency := Urgency_Low | Urgency_Medium | Urgency_High.

Record WorldEventIntentDefinition := {
  wed_event_key : CanonicalEventKey;
  wed_category : BoundedText;
  wed_participants : list NarrativeParticipant;
  wed_location : option LocationKey;
  wed_description : BoundedText;
}.
Record CharacterImpulseDefinition := {
  cid_target_role_id : RoleId;
  cid_goal : BoundedText;
  cid_reason : option BoundedText;
  cid_emotion : option BoundedText;
  cid_urgency : ImpulseUrgency;
  cid_valid_for_turns : option N;
}.
Inductive NarrativeEffectDefinition :=
| Effect_WorldEvent (d : WorldEventIntentDefinition)
| Effect_CharacterImpulse (d : CharacterImpulseDefinition).

Record WorldEventIntent := {
  wei_effect_id : NarrativeEffectId;
  wei_source_node : NarrativeNodeKey;
  wei_event_key : CanonicalEventKey;
  wei_category : BoundedText;
  wei_participants : list NarrativeParticipant;
  wei_location : option LocationKey;
  wei_description : BoundedText;
}.
Record CharacterImpulse := {
  imp_source_node : NarrativeNodeKey;
  imp_target_role_id : RoleId;
  imp_goal : BoundedText;
  imp_reason : option BoundedText;
  imp_emotion : option BoundedText;
  imp_urgency : ImpulseUrgency;
  imp_expires_after_turn : option N;
}.

Record NarrativeLimits := {
  max_graph_nodes : N;
  max_graph_edges : N;
  max_condition_depth : N;
  max_conditions_per_node : N;
  max_effects_per_node : N;
  max_semantic_conditions : N;
  max_semantic_criterion_bytes : N;
  max_frontier_nodes : N;
  max_semantic_queries_per_turn : N;
  max_semantic_query_bytes : N;
  max_evidence_bytes : N;
  max_result_reason_bytes : N;
  max_transitions_per_turn : N;
  max_pending_effects : N;
}.

Inductive NarrativeError :=
| MissingReference (key : string)
| ConditionDepthExceeded | ConditionCountExceeded | GraphNodeLimitExceeded | GraphEdgeLimitExceeded
| SemanticCriterionConflict (key : string)
| SemanticConditionLimitExceeded | FrontierLimitExceeded | SemanticQueryLimitExceeded
| SemanticQueryByteLimitExceeded | TransitionLimitExceeded | PendingEffectLimitExceeded
| CandidateVersionMismatch | GraphRevisionMismatch
| Narrative_Invariant (code : string).

Record NarrativeNodeEffects := {
  on_activate : list NarrativeEffectDefinition;
  on_complete : list NarrativeEffectDefinition;
}.
Record NarrativeNodeDefinition := {
  node_title : BoundedText;
  dramatic_focus : option BoundedText;
  activate_when : NarrativeCondition;
  complete_when : NarrativeCondition;
  skip_when : option NarrativeCondition;
  effects : NarrativeNodeEffects;
  terminal : bool;
}.
Record NarrativeEdgeDefinition := {
  edge_key : NarrativeEdgeKey;
  edge_from : NarrativeNodeKey;
  edge_to : NarrativeNodeKey;
  edge_when : NarrativeCondition;
}.
Record NarrativeGraphDefinition := {
  entry_nodes : list NarrativeNodeKey;
  nodes : gmap NarrativeNodeKey NarrativeNodeDefinition;
  edges : list NarrativeEdgeDefinition;
}.

Record PendingNarrativeEffect := {
  pe_effect_id : NarrativeEffectId;
  pe_source_node : NarrativeNodeKey;
  pe_source_transition : NarrativeTransitionKind;
  pe_source_graph_revision : N;
  pe_created_by_turn : option TurnNumber;
  pe_effect_index : N;
  pe_expires_after_turn : option N;
  pe_definition : NarrativeEffectDefinition;
}.
Record NarrativeRuntimeState := {
  graph_revision : N;
  node_states : gmap NarrativeNodeKey NarrativeNodeState;
  activation_turns : gmap NarrativeNodeKey TurnNumber;
  pending_effects : gmap NarrativeEffectId PendingNarrativeEffect;
}.
Definition NarrativeRuntimeState_initial : NarrativeRuntimeState :=
  {| graph_revision := 0; node_states := ∅; activation_turns := ∅; pending_effects := ∅ |}.
Definition node_state (s : NarrativeRuntimeState) (node : NarrativeNodeKey) : NarrativeNodeState :=
  default Node_Inactive (node_states s !! node).

(** ** The state a condition looks at *)

Inductive NarrativeStateViewError := UnknownRole (role_id : string).

(** The trait [NarrativeStateView]. *)
Record NarrativeStateView := {
  fact_value : FactKey → result NarrativeStateViewError (option ScalarValue);
  role_attribute : RoleId → BoundedText → result NarrativeStateViewError (option ScalarValue);
  relationship_trust : RoleId → RoleId → result NarrativeStateViewError (option Z);
  role_controller : RoleId → result NarrativeStateViewError RoleControllerKind;
}.

Section evaluate.
Context (state : NarrativeRuntimeState) (view : NarrativeStateView)
  (semantic_results : gmap NarrativeConditionKey NarrativeTruthValue)
  (current_turn : N) (limits : NarrativeLimits).

(** [evaluate_condition], the fields of [ConditionEvalContext] being the variables. *)
Fixpoint evaluate_condition (condition : NarrativeCondition) (depth : N) :
    result NarrativeError NarrativeTruthValue :=
  fail_if (max_condition_depth limits <? depth)%N with ConditionDepthExceeded in
  match condition with
  | Cond_All conditions =>
      fail_if (nlen conditions =? 0)%N || (max_conditions_per_node limits <? nlen conditions)%N
      with ConditionCountExceeded in
      let? values := traverse (λ c, evaluate_condition c (depth + 1)) conditions in
      Ok (truth_all values)
  | Cond_Any conditions =>
      fail_if (nlen conditions =? 0)%N || (max_conditions_per_node limits <? nlen conditions)%N
      with ConditionCountExceeded in
      let? values := traverse (λ c, evaluate_condition c (depth + 1)) conditions in
      Ok (truth_any values)
  | Cond_Not condition =>
      let? value := evaluate_condition condition (depth + 1) in Ok (truth_not value)
  | Cond_StoryStarted => Ok Satisfied
  | Cond_TurnReaches turn => Ok (truth_of (turn <=? current_turn)%N)
  | Cond_NodeState node_key s => Ok (truth_of (bool_decide (node_state state node_key = s)))
  | Cond_Semantic semantic => Ok (default Unknown (semantic_results !! sem_condition_key semantic))
  | Cond_FactStateEquals fact_key value =>
      let? current := map_err (λ _, Narrative_Invariant "unknown_fact_reference") (fact_value view fact_key) in
      Ok (truth_of (bool_decide (current = Some value)))
  | Cond_RoleStateEquals role_id attribute value =>
      let? current := map_err (λ _, Narrative_Invariant "unknown_role_state_reference")
        (role_attribute view role_id attribute) in
      Ok (truth_of (bool_decide (current = Some value)))
  | Cond_RelationshipReaches source target minimum_trust =>
      let? trust := map_err (λ _, Narrative_Invariant "unknown_relationship_role_reference")
        (relationship_trust view source target) in
      Ok (truth_of (match trust with Some t => (minimum_trust <=? t)%Z | None => false end))
  | Cond_RoleControllerIs role_id controller =>
      let? current := map_err (λ _, Narrative_Invariant "unknown_role_controller_reference")
        (role_controller view role_id) in
      Ok (truth_of (bool_decide (current = controller)))
  end.
End evaluate.

(** ** Projection *)

Record NarrativeDirection := { dir_source_node : NarrativeNodeKey; dir_dramatic_focus : BoundedText }.
Inductive NarrativeEffectNotApplicableReason := Reason_PlayerControlled | Reason_Expired.
Inductive NarrativeEffectDisposition :=
| PendingDelivery (effect_id : NarrativeEffectId)
| NotApplicable (effect_id : NarrativeEffectId) (reason : NarrativeEffectNotApplicableReason).

Record NarrativePlan := {
  active_nodes : list NarrativeNodeKey;
  active_directions : list NarrativeDirection;
  world_event_intents : list WorldEventIntent;
  character_impulses : list CharacterImpulse;
  effect_dispositions : list NarrativeEffectDisposition;
}.
Definition NarrativePlan_empty : NarrativePlan :=
  {| active_nodes := []; active_directions := []; world_event_intents := []; character_impulses := [];
     effect_dispositions := [] |}.

Record NarrativeConditionQuery := { q_condition_key : NarrativeConditionKey; q_criterion : BoundedText }.
Record NarrativeProjection := {
  proj_plan : NarrativePlan;
  condition_queries : list NarrativeConditionQuery;
  expected_graph_revision : N;
}.

(** [collect_semantic_leaves], which adds to [queries] the semantic conditions below one. *)
Fixpoint collect_semantic_leaves (condition : NarrativeCondition)
    (queries : gmap NarrativeConditionKey BoundedText) :
    result NarrativeError (gmap NarrativeConditionKey BoundedText) :=
  match condition with
  | Cond_All conditions | Cond_Any conditions =>
      (fix go qs cs := match cs with
                       | [] => Ok qs
                       | c :: cs' => let? qs := collect_semantic_leaves c qs in go qs cs' end) queries conditions
  | Cond_Not condition => collect_semantic_leaves condition queries
  | Cond_Semantic semantic =>
      match queries !! sem_condition_key semantic with
      | Some existing =>
          fail_if negb (bool_decide (existing = sem_criterion semantic))
          with SemanticCriterionConflict (sem_condition_key semantic) in Ok queries
      | None => Ok (<[sem_condition_key semantic := sem_criterion semantic]> queries)
      end
  | _ => Ok queries
  end.

Section narrative.
Context (limits : NarrativeLimits).

Section project.
Context (definition : NarrativeGraphDefinition) (state : NarrativeRuntimeState)
  (committed_view : NarrativeStateView) (current_turn : N).

(** The nodes active at the start of the turn, in key order. *)
Definition active_of (s : NarrativeRuntimeState) : list NarrativeNodeKey :=
  fst <$> filter (λ e, e.2 = Node_Active) (entries (node_states s)).

Definition node_of (key : NarrativeNodeKey) : result NarrativeError NarrativeNodeDefinition :=
  ok_or (nodes definition !! key) (MissingReference key).

(** The frontier: its nodes and the conditions watched there. *)
Definition Frontier : Type := gset NarrativeNodeKey * list NarrativeCondition.

Definition frontier_entry (f : Frontier) (entry : NarrativeNodeKey) : result NarrativeError Frontier :=
  if bool_decide (node_state state entry = Node_Inactive) then
    let? node := node_of entry in
    Ok ({[entry]} ∪ f.1, f.2 ++ [activate_when node])
  else Ok f.

Definition frontier_active (f : Frontier) (node_key : NarrativeNodeKey) : result NarrativeError Frontier :=
  let? node := node_of node_key in
  Ok ({[node_key]} ∪ f.1,
      f.2 ++ [complete_when node] ++ match skip_when node with Some c => [c] | None => [] end).

Definition frontier_edge (f : Frontier) (edge : NarrativeEdgeDefinition) : result NarrativeError Frontier :=
  if negb (bool_decide (edge_from edge ∈ active_of state)) then Ok f
  else
    let f := ({[edge_from edge]} ∪ f.1, f.2 ++ [edge_when edge]) in
    if bool_decide (node_state state (edge_to edge) = Node_Inactive) then
      let? successor := node_of (edge_to edge) in
      Ok ({[edge_to edge]} ∪ f.1, f.2 ++ [activate_when successor])
    else Ok f.

Definition frontier : result NarrativeError Frontier :=
  let? f := try_fold frontier_entry (∅, []) (entry_nodes definition) in
  let? f := try_fold frontier_active f (active_of state) in
  try_fold frontier_edge f (edges definition).

(** The intents, impulses and dispositions of the effects seen so far. *)
Definition ProjectedEffects : Type :=
  list WorldEventIntent * list CharacterImpulse * list NarrativeEffectDisposition.

Definition project_effect (acc : ProjectedEffects) (e : NarrativeEffectId * PendingNarrativeEffect) :
    result NarrativeError ProjectedEffects :=
  let '(intents, impulses, dispositions) := acc in
  let '(effect_id, pending) := e in
  if match pe_expires_after_turn pending with Some t => (t <? current_turn)%N | None => false end then
    Ok (intents, impulses, dispositions ++ [NotApplicable effect_id Reason_Expired])
  else match pe_definition pending with
  | Effect_WorldEvent d =>
      Ok (intents ++ [{| wei_effect_id := effect_id; wei_source_node := pe_source_node pending;
                         wei_event_key := wed_event_key d; wei_category := wed_category d;
                         wei_participants := wed_participants d; wei_location := wed_location d;
                         wei_description := wed_description d |}],
          impulses, dispositions ++ [PendingDelivery effect_id])
  | Effect_CharacterImpulse d =>
      let? controller := map_err (λ _, Narrative_Invariant "unknown_character_impulse_role_reference")
        (role_controller committed_view (cid_target_role_id d)) in
      if bool_decide (controller = Controller_Player) then
        Ok (intents, impulses, dispositions ++ [NotApplicable effect_id Reason_PlayerControlled])
      else
        Ok (intents,
            impulses ++ [{| imp_source_node := pe_source_node pending;
                            imp_target_role_id := cid_target_role_id d; imp_goal := cid_goal d;
                            imp_reason := cid_reason d; imp_emotion := cid_emotion d;
                            imp_urgency := cid_urgency d;
                            imp_expires_after_turn := pe_expires_after_turn pending |}],
            dispositions ++ [PendingDelivery effect_id])
  end.

Definition project_effects : result NarrativeError ProjectedEffects :=
  try_fold project_effect ([], [], []) (entries (pending_effects state)).

Definition active_direction (node_key : NarrativeNodeKey) : option NarrativeDirection :=
  node ← nodes definition !! node_key;
  focus ← dramatic_focus node;
  Some {| dir_source_node := node_key; dir_dramatic_focus := focus |}.

Definition collect_all (conditions : list NarrativeCondition) :
    result NarrativeError (gmap NarrativeConditionKey BoundedText) :=
  try_fold (λ qs c, collect_semantic_leaves c qs) ∅ conditions.

Definition project : result NarrativeError NarrativeProjection :=
  let active := active_of state in
  let? f := frontier in
  fail_if (max_frontier_nodes limits <? N.of_nat (size f.1))%N with FrontierLimitExceeded in
  let? queries := collect_all f.2 in
  fail_if (max_semantic_conditions limits <? map_len queries)%N with SemanticConditionLimitExceeded in
  fail_if (max_semantic_queries_per_turn limits <? map_len queries)%N with SemanticQueryLimitExceeded in
  let total_bytes := foldl N.add 0%N (slen <$> values queries) in
  fail_if (max_semantic_query_bytes limits <? total_bytes)%N with SemanticQueryByteLimitExceeded in
  let? '(intents, impulses, dispositions) := project_effects in
  Ok {| proj_plan :=
          {| active_nodes := active; active_directions := omap active_direction active;
             world_event_intents := intents; character_impulses := impulses;
             effect_dispositions := dispositions |};
        condition_queries :=
          (λ '(k, c), {| q_condition_key := k; q_criterion := c |}) <$> entries queries;
        expected_graph_revision := graph_revision state |}.
End project.

(** ** Resolution *)

Record ProposedNarrativeTransition := { pt_node_key : NarrativeNodeKey; pt_kind : NarrativeTransitionKind }.
Record NarrativeResolution := {
  res_transitions : list ProposedNarrativeTransition;
  res_condition_results : gmap NarrativeConditionKey NarrativeTruthValue;
  res_pending_effects : list PendingNarrativeEffect;
  res_next_graph_revision : N;
}.

(** The judgments of a turn: [expected_graph_revision] and
    [narrative_condition_results] of the extraction envelope. *)
Definition Judgments : Type := list (NarrativeConditionKey * NarrativeTruthValue).

Section resolve.
Context (definition : NarrativeGraphDefinition) (state : NarrativeRuntimeState)
  (candidate_view : NarrativeStateView) (expected_revision : N) (judgments : Judgments) (current_turn : N).

(** [collect] into a [BTreeMap]: the last judgment of a key counts. *)
Definition semantic_results : gmap NarrativeConditionKey NarrativeTruthValue :=
  foldl (λ m '(k, v), <[k := v]> m) ∅ judgments.

Definition eval (c : NarrativeCondition) : result NarrativeError NarrativeTruthValue :=
  evaluate_condition state candidate_view semantic_results current_turn limits c 0.
Definition satisfied (c : NarrativeCondition) : result NarrativeError bool :=
  let? v := eval c in Ok (bool_decide (v = Satisfied)).

(** [next_states] and [transitions]. *)
Definition Moves : Type := gmap NarrativeNodeKey NarrativeNodeState * list ProposedNarrativeTransition.
Definition push_move (m : Moves) (key : NarrativeNodeKey) (s : NarrativeNodeState)
    (kind : NarrativeTransitionKind) : Moves :=
  (<[key := s]> m.1, m.2 ++ [{| pt_node_key := key; pt_kind := kind |}]).

Definition resolve_entry (m : Moves) (entry : NarrativeNodeKey) : result NarrativeError Moves :=
  if negb (bool_decide (node_state state entry = Node_Inactive)) then Ok m
  else
    let? node := node_of definition entry in
    let? holds := satisfied (activate_when node) in
    Ok (if holds : bool then push_move m entry Node_Active Trans_Activate else m).

Definition resolve_active (m : Moves) (node_key : NarrativeNodeKey) : result NarrativeError Moves :=
  let? node := node_of definition node_key in
  let? skipped := match skip_when node with Some c => satisfied c | None => Ok false end in
  if skipped : bool then Ok (push_move m node_key Node_Skipped Trans_Skip)
  else
    let? holds := satisfied (complete_when node) in
    Ok (if holds : bool then push_move m node_key Node_Completed Trans_Complete else m).

Definition resolve_edge (m : Moves) (edge : NarrativeEdgeDefinition) : result NarrativeError Moves :=
  if negb (bool_decide (edge_from edge ∈ active_of state)) then Ok m
  else if negb (bool_decide (node_state state (edge_to edge) = Node_Inactive)) then Ok m
  else if bool_decide (is_Some (m.1 !! edge_to edge)) then Ok m
  else
    let? holds := satisfied (edge_when edge) in
    Ok (if holds : bool then push_move m (edge_to edge) Node_Active Trans_Activate else m).

Definition resolve_moves_of : result NarrativeError Moves :=
  let? m := try_fold resolve_entry (∅, []) (entry_nodes definition) in
  let? m := try_fold resolve_active m (active_of state) in
  try_fold resolve_edge m (edges definition).

(** The effects a transition leaves, each under its own identifier. *)
Definition transition_effects (next_graph_revision : N) (t : ProposedNarrativeTransition) :
    result NarrativeError (list PendingNarrativeEffect) :=
  let? node := node_of definition (pt_node_key t) in
  let definitions := match pt_kind t with
                     | Trans_Activate => on_activate (effects node)
                     | Trans_Complete => on_complete (effects node)
                     | Trans_Skip => [] end in
  Ok (imap (λ i d,
    {| pe_effect_id := for_transition (pt_node_key t) (pt_kind t) next_graph_revision
                         (N.of_nat i mod (U32_MAX + 1));
       pe_source_node := pt_node_key t; pe_source_transition := pt_kind t;
       pe_source_graph_revision := next_graph_revision; pe_created_by_turn := None;
       pe_effect_index := N.of_nat i mod (U32_MAX + 1); pe_expires_after_turn := None;
       pe_definition := d |}) definitions).

Definition resolve : result NarrativeError NarrativeResolution :=
  fail_if negb (expected_revision =? graph_revision state)%N with GraphRevisionMismatch in
  let? m := resolve_moves_of in
  fail_if (max_transitions_per_turn limits <? nlen m.2)%N with TransitionLimitExceeded in
  let next_graph_revision := ((graph_revision state + 1) mod (U64_MAX + 1))%N in
  let? effects := traverse (transition_effects next_graph_revision) m.2 in
  let pending := concat effects in
  fail_if (max_pending_effects limits <? map_len (pending_effects state) + nlen pending)%N
  with PendingEffectLimitExceeded in
  Ok {| res_transitions := m.2; res_condition_results := semantic_results;
        res_pending_effects := pending; res_next_graph_revision := next_graph_revision |}.
End resolve.
End narrative.
