(* ===== verification/AiseNarrativeProofs.v ===== *)
(** * What the narrative graph of the crate [aise] guarantees

    The projection of a turn asks every judgment its resolution uses; the moves
    of a resolution are exactly the ones whose conditions hold; the effects it
    leaves have identifiers of their own. *)

From S2P Require Import Prelude Text AiseIds AiseNarrative.

(** ** The semantic conditions below a condition *)

Fixpoint sem_keys (c : NarrativeCondition) : list NarrativeConditionKey :=
  match c with
  | Cond_All cs | Cond_Any cs => concat (map sem_keys cs)
  | Cond_Not c => sem_keys c
  | Cond_Semantic s => [sem_condition_key s]
  | _ => []
  end.

Lemma traverse_ext_in {E A B} (f g : A → result E B) l :
  (∀ x, x ∈ l → f x = g x) → traverse f l = traverse g l.
Proof.
  induction l as [|x l IH]; intros Hfg; [done|]. cbn [traverse]. rewrite (Hfg x) by set_solver.
  rewrite IH; [done|]. intros y Hy. apply Hfg. set_solver.
Qed.

Lemma try_fold_ext_in {E A S} (f g : S → A → result E S) l s :
  (∀ s x, x ∈ l → f s x = g s x) → try_fold f s l = try_fold g s l.
Proof.
  revert s. induction l as [|x l IH]; intros s Hfg; [done|]. cbn [try_fold]. rewrite Hfg by set_solver.
  destruct (g s x); [|done]. apply IH. intros. apply Hfg. set_solver.
Qed.

Lemma condition_agree state view r1 r2 turn limits c :
  (∀ k, k ∈ sem_keys c → r1 !! k = r2 !! k) →
  ∀ d, evaluate_condition state view r1 turn limits c d = evaluate_condition state view r2 turn limits c d.
Proof.
  revert c. apply (condition_ind' (λ c, (∀ k, k ∈ sem_keys c → r1 !! k = r2 !! k) → ∀ d,
    evaluate_condition state view r1 turn limits c d = evaluate_condition state view r2 turn limits c d)).
  1, 2: intros cs IH Hag d; cbn [evaluate_condition]; rewrite (traverse_ext_in _ (λ c, evaluate_condition state view r2 turn limits c (d + 1)));
    [done|]; intros c Hc; rewrite Forall_forall in IH; apply IH; [done|]; intros k Hk; apply Hag;
    apply elem_of_concat; exists (sem_keys c); split; [done|]; by apply list_elem_of_fmap_2.
  - intros c IH Hag d. cbn [evaluate_condition]. by rewrite IH.
  - intros []; try done. intros Hag d. cbn [evaluate_condition]. rewrite Hag; [done|]. simpl. set_solver.
Qed.

Definition collect_go (queries : gmap NarrativeConditionKey BoundedText) (cs : list NarrativeCondition) :=
  try_fold (λ qs c, collect_semantic_leaves c qs) queries cs.
Lemma collect_list cs qs :
  collect_semantic_leaves (Cond_All cs) qs = collect_go qs cs ∧
  collect_semantic_leaves (Cond_Any cs) qs = collect_go qs cs.
Proof.
  unfold collect_go. cbn [collect_semantic_leaves]. revert qs. induction cs as [|c cs IH]; intros qs; [done|].
  cbn [try_fold]. destruct (collect_semantic_leaves c qs); [|done]. apply IH.
Qed.

(** What was asked stays asked, and everything below is asked. *)
Definition collects (c : NarrativeCondition) : Prop := ∀ qs qs',
  collect_semantic_leaves c qs = Ok qs' → qs ⊆ qs' ∧ ∀ k, k ∈ sem_keys c → is_Some (qs' !! k).

Lemma collect_go_collects cs qs qs' :
  Forall collects cs → collect_go qs cs = Ok qs' →
  qs ⊆ qs' ∧ ∀ c k, c ∈ cs → k ∈ sem_keys c → is_Some (qs' !! k).
Proof.
  intros Hcs. unfold collect_go. revert qs. induction Hcs as [|c cs Hc Hcs IH]; intros qs Hrun.
  - injection Hrun as <-. split; [done|]. intros c k Hc. by apply not_elem_of_nil in Hc.
  - cbn [try_fold] in Hrun. res_inv. apply Hc in Heqr as [Hsub Hkeys]. apply IH in Hrun as [Hsub' Hrest].
    split; [by etrans|]. intros d k [->|Hd]%elem_of_cons Hk; [|by eapply Hrest].
    destruct (Hkeys k Hk) as [v Hv]. exists v. by eapply lookup_weaken.
Qed.

Lemma collects_list c cs :
  Forall collects cs → (∀ qs, collect_semantic_leaves c qs = collect_go qs cs) →
  sem_keys c = concat (map sem_keys cs) → collects c.
Proof.
  intros IH Heq Hkeys qs qs' Hrun. rewrite Heq in Hrun. apply collect_go_collects in Hrun as [Hsub Hin]; [|done].
  split; [done|]. rewrite Hkeys. intros k (ks & Hk & (d & -> & Hd)%list_elem_of_fmap)%elem_of_concat. by eapply Hin.
Qed.

Lemma collects_all c : collects c.
Proof.
  revert c. apply condition_ind'.
  - intros cs IH. apply (collects_list _ cs); [done| |done]. intros qs. apply (proj1 (collect_list cs qs)).
  - intros cs IH. apply (collects_list _ cs); [done| |done]. intros qs. apply (proj2 (collect_list cs qs)).
  - intros c IH. exact IH.
  - intros []; try done; intros qs qs' Hrun; cbn [collect_semantic_leaves] in Hrun;
      try (injection Hrun as <-; split; [done|by intros ? ?%not_elem_of_nil]).
    destruct (qs !! sem_condition_key semantic) as [v|] eqn:Hv; res_inv.
    + split; [done|]. intros k ->%list_elem_of_singleton. eauto.
    + split; [by apply insert_subseteq|]. intros k ->%list_elem_of_singleton. rewrite lookup_insert_eq. eauto.
Qed.

Section resolution.
Context (limits : NarrativeLimits) (definition : NarrativeGraphDefinition) (state : NarrativeRuntimeState)
  (view : NarrativeStateView) (turn : N).

(** The conditions a resolution may evaluate. *)
Inductive Watched : NarrativeCondition → Prop :=
| watched_entry key node :
    key ∈ entry_nodes definition → node_state state key = Node_Inactive →
    nodes definition !! key = Some node → Watched (activate_when node)
| watched_complete key node :
    key ∈ active_of state → nodes definition !! key = Some node → Watched (complete_when node)
| watched_skip key node c :
    key ∈ active_of state → nodes definition !! key = Some node → skip_when node = Some c → Watched c
| watched_edge e :
    e ∈ edges definition → edge_from e ∈ active_of state → Watched (edge_when e).

(** The result of a resolution without the judgments it was given. *)
Definition resolution_outcome (r : result NarrativeError NarrativeResolution) :=
  match r with
  | Ok r => Ok (res_transitions r, res_pending_effects r, res_next_graph_revision r)
  | Err e => Err e
  end.

Lemma satisfied_agree j1 j2 c :
  (∀ k, k ∈ sem_keys c → semantic_results j1 !! k = semantic_results j2 !! k) →
  satisfied limits state view j1 turn c = satisfied limits state view j2 turn c.
Proof. intros Hag. unfold satisfied, eval. by rewrite (condition_agree _ _ _ (semantic_results j2)). Qed.

Lemma resolve_agree j1 j2 revision :
  (∀ c, Watched c → satisfied limits state view j1 turn c = satisfied limits state view j2 turn c) →
  resolution_outcome (resolve limits definition state view revision j1 turn) =
  resolution_outcome (resolve limits definition state view revision j2 turn).
Proof.
  intros Hag.
  assert (resolve_moves_of limits definition state view j1 turn =
          resolve_moves_of limits definition state view j2 turn) as Hmoves.
  { unfold resolve_moves_of.
    rewrite (try_fold_ext_in _ (resolve_entry limits definition state view j2 turn)).
    2: { intros m e He. unfold resolve_entry, node_of. destruct (bool_decide_reflect (node_state state e = Node_Inactive)); [|done].
         destruct (nodes definition !! e) as [n|] eqn:Hn; [|done]. cbn [negb ok_or]. rewrite Hag; [done|]. by econstructor. }
    destruct (try_fold _ _ (entry_nodes _)) as [m|]; [|done].
    rewrite (try_fold_ext_in _ (resolve_active limits definition state view j2 turn)).
    2: { intros m' e He. unfold resolve_active, node_of. destruct (nodes definition !! e) as [n|] eqn:Hn; [|done].
         cbn [ok_or]. rewrite (Hag (complete_when n)) by by eapply watched_complete.
         destruct (skip_when n) as [c|] eqn:Hs; [|done]. by rewrite (Hag c) by by eapply watched_skip. }
    destruct (try_fold _ m _); [|done]. apply try_fold_ext_in. intros m' e He. unfold resolve_edge.
    destruct (bool_decide_reflect (edge_from e ∈ active_of state)); [|done]. cbn [negb].
    by rewrite (Hag (edge_when e)) by by apply watched_edge. }
  unfold resolve. destruct (negb _); [done|]. rewrite Hmoves. clear Hmoves. destruct (resolve_moves_of _ _ _ _ _ _) as [m|]; [|done].
  destruct (_ <? _)%N; [done|]. destruct (traverse _ _); [|done]. by destruct (_ <? _)%N.
Qed.

(** ** Every watched condition is on the frontier *)
Lemma frontier_watched f :
  frontier definition state = Ok f → ∀ c, Watched c → c ∈ f.2.
Proof.
  unfold frontier. intros Hrun. res_inv. rename value into f1, value0 into f2.
  assert (∀ l g g', try_fold (frontier_entry definition state) g l = Ok g' →
    (∀ c, c ∈ g.2 → c ∈ g'.2) ∧ ∀ k n, k ∈ l → node_state state k = Node_Inactive →
      nodes definition !! k = Some n → activate_when n ∈ g'.2) as Hentry.
  { induction l as [|k l IH]; intros g g' Hg; cbn [try_fold] in Hg.
    { injection Hg as <-. split; [done|]. intros ? ? ?%not_elem_of_nil. done. }
    res_inv. apply IH in Hg as [Hmono Hin].
    assert ((∀ c, c ∈ g.2 → c ∈ value.2) ∧ ∀ n, node_state state k = Node_Inactive →
      nodes definition !! k = Some n → activate_when n ∈ value.2) as [Hm1 Hk].
    { unfold frontier_entry, node_of in Heqr1. case_bool_decide; [|by simplify_eq].
      destruct (nodes definition !! k) as [n|]; [|done]. simplify_eq/=. set_solver. }
    split; [auto|]. intros k' n [->|Hk']%elem_of_cons; eauto. }
  assert (∀ l g g', try_fold (frontier_active definition) g l = Ok g' →
    (∀ c, c ∈ g.2 → c ∈ g'.2) ∧ ∀ k n, k ∈ l → nodes definition !! k = Some n →
      complete_when n ∈ g'.2 ∧ ∀ c, skip_when n = Some c → c ∈ g'.2) as Hactive.
  { induction l as [|k l IH]; intros g g' Hg; cbn [try_fold] in Hg.
    { injection Hg as <-. split; [done|]. intros ? ? ?%not_elem_of_nil. done. }
    res_inv. apply IH in Hg as [Hmono Hin].
    assert ((∀ c, c ∈ g.2 → c ∈ value.2) ∧ ∀ n, nodes definition !! k = Some n →
      complete_when n ∈ value.2 ∧ ∀ c, skip_when n = Some c → c ∈ value.2) as [Hm1 Hk].
    { unfold frontier_active, node_of in Heqr1. destruct (nodes definition !! k) as [n|]; [|done].
      simplify_eq/=. split; [set_solver|]. intros n' [= <-]. split; [set_solver|]. intros c ->. set_solver. }
    split; [auto|]. intros k' n [->|Hk']%elem_of_cons Hn; [|by eapply Hin]. destruct (Hk n Hn) as [? ?]. auto. }
  assert (∀ l g g', try_fold (frontier_edge definition state) g l = Ok g' →
    (∀ c, c ∈ g.2 → c ∈ g'.2) ∧ ∀ e, e ∈ l → edge_from e ∈ active_of state → edge_when e ∈ g'.2) as Hedge.
  { induction l as [|e l IH]; intros g g' Hg; cbn [try_fold] in Hg.
    { injection Hg as <-. split; [done|]. intros ? ?%not_elem_of_nil. done. }
    res_inv. apply IH in Hg as [Hmono Hin].
    assert ((∀ c, c ∈ g.2 → c ∈ value.2) ∧ (edge_from e ∈ active_of state → edge_when e ∈ value.2)) as [Hm1 Hk].
    { unfold frontier_edge, node_of in Heqr1. case_bool_decide; [|simplify_eq/=; naive_solver]. cbn [negb] in Heqr1.
      case_bool_decide; [|simplify_eq/=; set_solver].
      destruct (nodes definition !! edge_to e); simplify_eq/=. set_solver. }
    split; [auto|]. intros e' [->|He']%elem_of_cons; eauto. }
  apply Hentry in Heqr as [_ He]. apply Hactive in Heqr0 as [Hm2 Ha]. apply Hedge in Hrun as [Hm3 Hd].
  intros c [k n Hk Hst Hn|k n Hk Hn|k n c' Hk Hn Hs|e Hine Hfrom].
  - by eapply Hm3, Hm2, He.
  - apply Hm3. by destruct (Ha k n Hk Hn).
  - apply Hm3. destruct (Ha k n Hk Hn) as [_ Hskip]. auto.
  - by apply Hd.
Qed.
End resolution.

(** C35: The projection made at the start of a turn asks every judgment the resolution
    at its end uses: for two sets of judgments that agree on the asked conditions
    the resolver moves the same nodes, leaves the same effects and reports the
    same errors, whatever state the turn ended in. *)
Theorem projection_suffices limits definition state committed_view candidate_view turn turn' p revision j1 j2 :
  project limits definition state committed_view turn = Ok p →
  (∀ q, q ∈ condition_queries p →
     semantic_results j1 !! q_condition_key q = semantic_results j2 !! q_condition_key q) →
  resolution_outcome (resolve limits definition state candidate_view revision j1 turn') =
  resolution_outcome (resolve limits definition state candidate_view revision j2 turn').
Proof.
  intros Hproj Hag. apply resolve_agree. intros c Hc. apply satisfied_agree. intros k Hk.
  unfold project in Hproj. destruct (frontier definition state) as [f|] eqn:Hf; [|done].
  pose proof (frontier_watched definition state f Hf c Hc) as Hin. res_inv.
  apply collect_go_collects in Heqr as [_ Hkeys]; [|apply Forall_forall; intros; apply collects_all].
  destruct (Hkeys c k Hin Hk) as [criterion Hcrit]. destruct value0 as [[intents impulses] dispositions]. simplify_eq.
  apply (Hag {| q_condition_key := k; q_criterion := criterion |}). simpl.
  apply list_elem_of_fmap. exists (k, criterion). split; [done|]. by apply elem_of_entries.
Qed.

(** ** The moves of a resolution are exactly those whose conditions hold *)
Lemma active_of_iff s key : key ∈ active_of s ↔ node_state s key = Node_Active.
Proof.
  unfold active_of, node_state. rewrite list_elem_of_fmap. split.
  - intros ([k v] & -> & [Hv Hk%elem_of_entries]%list_elem_of_filter). simpl in *. by rewrite Hk, Hv.
  - destruct (node_states s !! key) as [v|] eqn:Hk; simpl; [intros ->|done].
    exists (key, Node_Active). split; [done|]. apply list_elem_of_filter. by rewrite elem_of_entries.
Qed.

Lemma NoDup_active s : NoDup (active_of s).
Proof.
  unfold active_of. apply (sublist_NoDup _ (keys (node_states s))); [apply NoDup_keys|].
  unfold keys. apply fmap_sublist, sublist_filter.
Qed.

Section moves.
Context (limits : NarrativeLimits) (definition : NarrativeGraphDefinition) (state : NarrativeRuntimeState)
  (view : NarrativeStateView) (judgments : Judgments) (turn : N).

Definition sat (c : NarrativeCondition) : result NarrativeError bool :=
  satisfied limits state view judgments turn c.

Inductive EntryMoves (key : NarrativeNodeKey) : ProposedNarrativeTransition → Prop :=
| entry_moves node :
    node_state state key = Node_Inactive → nodes definition !! key = Some node →
    sat (activate_when node) = Ok true →
    EntryMoves key {| pt_node_key := key; pt_kind := Trans_Activate |}.

Inductive ActiveMoves (key : NarrativeNodeKey) : ProposedNarrativeTransition → Prop :=
| skip_moves node c :
    nodes definition !! key = Some node → skip_when node = Some c → sat c = Ok true →
    ActiveMoves key {| pt_node_key := key; pt_kind := Trans_Skip |}
| complete_moves node :
    nodes definition !! key = Some node → (∀ c, skip_when node = Some c → sat c = Ok false) →
    sat (complete_when node) = Ok true →
    ActiveMoves key {| pt_node_key := key; pt_kind := Trans_Complete |}.

Definition EdgeMoves (e : NarrativeEdgeDefinition) : Prop :=
  edge_from e ∈ active_of state ∧ node_state state (edge_to e) = Node_Inactive ∧ sat (edge_when e) = Ok true.

(** A legal move: its node was in the right state and its condition holds. *)
Inductive LegalMove : ProposedNarrativeTransition → Prop :=
| legal_entry key t : key ∈ entry_nodes definition → EntryMoves key t → LegalMove t
| legal_active key t : key ∈ active_of state → ActiveMoves key t → LegalMove t
| legal_edge e :
    e ∈ edges definition → EdgeMoves e →
    LegalMove {| pt_node_key := edge_to e; pt_kind := Trans_Activate |}.

Definition move_keys (ts : list ProposedNarrativeTransition) : list NarrativeNodeKey := pt_node_key <$> ts.

(** A loop over nodes whose step moves a node, when [T] says so, or does nothing. *)
Lemma fold_moves (f : Moves → NarrativeNodeKey → result NarrativeError Moves)
    (T : NarrativeNodeKey → ProposedNarrativeTransition → Prop) l m m' :
  (∀ m x m1, f m x = Ok m1 →
    (∃ t s, m1 = (<[x := s]> m.1, m.2 ++ [t]) ∧ T x t ∧ pt_node_key t = x ∧ ∀ t', T x t' → t' = t) ∨
    (m1 = m ∧ ∀ t, ¬ T x t)) →
  try_fold f m l = Ok m' →
  ∃ ts, m'.2 = m.2 ++ ts ∧ (∀ t, t ∈ ts ↔ ∃ x, x ∈ l ∧ T x t) ∧ move_keys ts `sublist_of` l ∧
    ∀ k, is_Some (m'.1 !! k) ↔ is_Some (m.1 !! k) ∨ k ∈ move_keys ts.
Proof.
  intros Hstep. revert m. induction l as [|x l IH]; intros m Hrun; cbn [try_fold] in Hrun.
  { injection Hrun as <-. exists []. rewrite app_nil_r. split_and!; [done| |done|]; set_solver. }
  res_inv. destruct (IH _ Hrun) as (ts & Hts & Hin & Hsub & Hdom). clear Hrun IH.
  apply Hstep in Heqr as [(t & s & -> & HT & Hkey & Huniq)|[-> Hno]]; simpl in *.
  - exists (t :: ts). split_and!.
    + by rewrite Hts, <-(assoc_L app).
    + intros t'. rewrite elem_of_cons, Hin. split.
      * intros [->|(y & Hy & ?)]; [exists x|exists y]; set_solver.
      * intros (y & [->|Hy]%elem_of_cons & HT'); [left; by apply Huniq|right; eauto].
    + unfold move_keys. cbn [fmap list_fmap]. rewrite Hkey. by constructor.
    + intros k. rewrite Hdom. unfold move_keys. cbn [fmap list_fmap]. rewrite elem_of_cons, Hkey.
      rewrite lookup_insert_is_Some. destruct (decide (x = k)); naive_solver.
  - exists ts. split_and!; [done| |by constructor|done].
    intros t. rewrite Hin. split; [intros (y & Hy & ?); exists y; set_solver|].
    intros (y & [->|Hy]%elem_of_cons & HT); [by destruct (Hno t)|eauto].
Qed.

Lemma resolve_entry_step m e m1 :
  resolve_entry limits definition state view judgments turn m e = Ok m1 →
  (∃ t s, m1 = (<[e := s]> m.1, m.2 ++ [t]) ∧ EntryMoves e t ∧ pt_node_key t = e ∧ ∀ t', EntryMoves e t' → t' = t) ∨
  (m1 = m ∧ ∀ t, ¬ EntryMoves e t).
Proof.
  unfold resolve_entry, node_of. case_bool_decide as Hst; cbn [negb]; [|intros [= <-]; right; split; [done|by inversion 1]].
  destruct (nodes definition !! e) as [n|] eqn:Hn; [|done]. cbn [ok_or]. fold (sat (activate_when n)).
  destruct (sat (activate_when n)) as [[]|] eqn:Hs; [intros [= <-]|intros [= <-]|done].
  - left. do 2 eexists. split_and!; [done|by econstructor|done|]. by inversion 1.
  - right. split; [done|]. inversion 1; simplify_eq; congruence.
Qed.

Lemma resolve_active_step m e m1 :
  resolve_active limits definition state view judgments turn m e = Ok m1 →
  (∃ t s, m1 = (<[e := s]> m.1, m.2 ++ [t]) ∧ ActiveMoves e t ∧ pt_node_key t = e ∧ ∀ t', ActiveMoves e t' → t' = t) ∨
  (m1 = m ∧ ∀ t, ¬ ActiveMoves e t).
Proof.
  unfold resolve_active, node_of. destruct (nodes definition !! e) as [n|] eqn:Hn; [|done]. cbn [ok_or].
  fold (sat (complete_when n)).
  destruct (skip_when n) as [c|] eqn:Hc; [fold (sat c); destruct (sat c) as [[]|] eqn:Hs; [|..|done]|].
  { intros [= <-]. left. do 2 eexists. split_and!; [done|by econstructor|done|].
    inversion 1 as [|n' Hn' Hno]; simplify_eq; [done|]. by rewrite (Hno c Hc) in Hs. }
  all: destruct (sat (complete_when n)) as [[]|] eqn:Hd; [intros [= <-]|intros [= <-]|done].
  1, 3: left; do 2 eexists; split_and!; [done| |done|];
    [eapply complete_moves; [done| |done]; intros; congruence|inversion 1; simplify_eq; congruence].
  all: right; split; [done|]; inversion 1; simplify_eq; congruence.
Qed.

Lemma resolve_edges_spec l m m' :
  try_fold (resolve_edge limits state view judgments turn) m l = Ok m' →
  ∃ ts, m'.2 = m.2 ++ ts ∧ NoDup (move_keys ts) ∧
    ∀ t, t ∈ ts ↔ pt_kind t = Trans_Activate ∧ m.1 !! pt_node_key t = None ∧
                  ∃ e, e ∈ l ∧ EdgeMoves e ∧ edge_to e = pt_node_key t.
Proof.
  revert m. induction l as [|e l IH]; intros m Hrun; cbn [try_fold] in Hrun.
  { injection Hrun as <-. exists []. rewrite app_nil_r. split_and!; [done|constructor|set_solver]. }
  res_inv. destruct (IH _ Hrun) as (ts & Hts & Hnd & Hin). clear Hrun IH.
  assert ((value = push_move m (edge_to e) Node_Active Trans_Activate ∧ m.1 !! edge_to e = None ∧ EdgeMoves e) ∨
          (value = m ∧ (is_Some (m.1 !! edge_to e) ∨ ¬ EdgeMoves e))) as [(-> & Hnone & He)|[-> Hno]].
  { unfold resolve_edge, EdgeMoves in *. case_bool_decide as H1; simpl in Heqr; [|right; naive_solver].
    case_bool_decide as H2; simpl in Heqr; [|right; naive_solver].
    case_bool_decide as H3; [right; naive_solver|]. apply eq_None_not_Some in H3.
    fold (sat (edge_when e)) in Heqr. destruct (sat (edge_when e)) as [[]|]; simplify_eq; [left|right]; naive_solver. }
  - unfold push_move in *. simpl in *. exists ({| pt_node_key := edge_to e; pt_kind := Trans_Activate |} :: ts).
    assert (edge_to e ∉ move_keys ts) as Hfresh.
    { intros (t & Hk & Ht)%list_elem_of_fmap. apply Hin in Ht as (_ & Hl & _). simpl in Hl.
      rewrite <-Hk, lookup_insert_eq in Hl. done. }
    split_and!; [by rewrite Hts, <-(assoc_L app)|by constructor|].
    intros t. rewrite elem_of_cons, Hin. simpl. split.
    + intros [->|(Hk & Hl & e' & He' & ?)]; simpl; [split_and!; [done..|]; exists e; set_solver|].
      apply lookup_insert_None in Hl as [Hl _]. split_and!; [done..|]. exists e'. set_solver.
    + intros (Hk & Hl & e' & He' & HE & Hto). destruct (decide (edge_to e = pt_node_key t)) as [Heq|Hne].
      * left. destruct t as [k kd]. cbn in *. by rewrite Heq, Hk.
      * right. split_and!; [done|by rewrite lookup_insert_ne|].
        apply elem_of_cons in He' as [->|He']; [done|]. eauto.
  - exists ts. split_and!; [done..|]. intros t. rewrite Hin. split.
    + intros (Hk & Hl & e' & He' & ?). split_and!; [done..|]. exists e'. set_solver.
    + intros (Hk & Hl & e' & [->|He']%elem_of_cons & HE & Hto); [|split_and!; eauto].
      rewrite Hto, Hl in Hno. destruct Hno as [[]|]; done.
Qed.

Lemma resolve_moves_legal m :
  resolve_moves_of limits definition state view judgments turn = Ok m →
  (∀ t, t ∈ m.2 ↔ LegalMove t) ∧ (NoDup (entry_nodes definition) → NoDup (move_keys m.2)).
Proof.
  unfold resolve_moves_of. intros Hrun. res_inv.
  apply (fold_moves _ EntryMoves) in Heqr as (ts1 & Hts1 & Hin1 & Hsub1 & Hdom1); [|apply resolve_entry_step].
  apply (fold_moves _ ActiveMoves) in Heqr0 as (ts2 & Hts2 & Hin2 & Hsub2 & Hdom2); [|apply resolve_active_step].
  apply resolve_edges_spec in Hrun as (ts3 & Hts3 & Hnd3 & Hin3).
  assert (∀ k, is_Some (value0.1 !! k) ↔ k ∈ move_keys (ts1 ++ ts2)) as Hdom.
  { intros k. rewrite Hdom2, Hdom1. simpl. rewrite lookup_empty. unfold move_keys. rewrite fmap_app, elem_of_app.
    split; [intros [[?%is_Some_None|?]|?]; tauto|tauto]. }
  rewrite Hts3, Hts2, Hts1. simpl. clear Hts1 Hts2 Hts3 Hdom1 Hdom2.
  assert (∀ t, t ∈ ts1 → pt_kind t = Trans_Activate ∧ node_state state (pt_node_key t) = Node_Inactive) as Hk1.
  { intros t (x & _ & [])%Hin1. done. }
  assert (∀ t, t ∈ ts2 → node_state state (pt_node_key t) = Node_Active) as Hk2.
  { intros t (x & Hx%active_of_iff & [])%Hin2; done. }
  split.
  - intros t. rewrite !elem_of_app, Hin1, Hin2, Hin3. split.
    + intros [[(x & Hx & HT)|(x & Hx & HT)]|(Hk & _ & e & He & HE & Hto)]; [by eapply legal_entry|by eapply legal_active|].
      destruct t. simpl in *. subst. by apply legal_edge.
    + intros [key t' Hk HT|key t' Hk HT|e He HE]; [left; left; eauto|left; right; eauto|].
      destruct (value0.1 !! edge_to e) as [v|] eqn:Hv; [|by right; split_and!; [..|exists e]].
      left. assert (edge_to e ∈ move_keys (ts1 ++ ts2)) as (u & Hkey & [Hu|Hu]%elem_of_app)%list_elem_of_fmap
        by (apply Hdom; eauto).
      * left. apply Hin1. destruct (Hk1 u Hu) as [Hkind _]. destruct u as [k kd]. cbn in *. by rewrite Hkey, <-Hkind.
      * apply Hk2 in Hu. destruct HE as (_ & Hina & _). rewrite <-Hkey, Hina in Hu. done.
  - intros Hnd. unfold move_keys. rewrite !fmap_app. apply NoDup_app. split_and!.
    + apply NoDup_app. split_and!.
      * by eapply sublist_NoDup.
      * intros k (t1 & -> & H1)%list_elem_of_fmap (t2 & Heq & H2)%list_elem_of_fmap.
        apply Hk1 in H1 as [_ H1]. apply Hk2 in H2. rewrite <-Heq, H1 in H2. done.
      * eapply sublist_NoDup; [apply NoDup_active|done].
    + intros k Hk (t3 & -> & H3)%list_elem_of_fmap. apply Hin3 in H3 as (_ & Hnone & _).
      rewrite <-fmap_app in Hk. apply Hdom in Hk as [v Hv]. congruence.
    + done.
Qed.
End moves.

(** A resolution moves exactly the nodes it should: a transition is in it if and
    only if it is legal (an inactive entry node whose activation condition holds,
    an inactive node at the end of an edge that leaves an active node and whose
    condition holds, an active node whose skip condition holds, or one that is not
    skipped and whose completion condition holds), and no node moves twice when
    the graph lists each entry node once. *)
Theorem resolve_legal limits definition state view revision judgments turn r :
  resolve limits definition state view revision judgments turn = Ok r →
  revision = graph_revision state ∧
  (∀ t, t ∈ res_transitions r ↔ LegalMove limits definition state view judgments turn t) ∧
  (NoDup (entry_nodes definition) → NoDup (pt_node_key <$> res_transitions r)) ∧
  (nlen (res_transitions r) <= max_transitions_per_turn limits)%N.
Proof.
  unfold resolve. destruct (N.eqb_spec revision (graph_revision state)) as [->|]; [|done]. cbn [negb].
  destruct (resolve_moves_of _ _ _ _ _ _) as [m|] eqn:Hm; [|done].
  destruct (N.ltb_spec (max_transitions_per_turn limits) (nlen m.2)) as [|Hle]; [done|].
  intros Hrun. res_inv. apply resolve_moves_legal in Hm as [Hin Hnd]. done.
Qed.

(** ** Effects have identifiers of their own *)

(** No byte of the text is a colon, as in a valid key. *)
Definition colon_free (s : string) : Prop := (58%N : N) ∉ str_bytes s.

Lemma colon_split a b x y :
  colon_free a → colon_free b → a +:+ ":" +:+ x = b +:+ ":" +:+ y → a = b ∧ x = y.
Proof.
  unfold colon_free. revert b. induction a as [|c a IH]; intros [|d b] Ha Hb Heq.
  - by injection Heq.
  - injection Heq as <- _. exfalso. apply Hb. rewrite str_bytes_cons. by left.
  - injection Heq as -> _. exfalso. apply Ha. rewrite str_bytes_cons. by left.
  - injection Heq as -> Heq. rewrite str_bytes_cons in Ha, Hb.
    apply IH in Heq as [-> ->]; [done|set_solver..].
Qed.

Lemma pretty_colon_free n : (n <= U64_MAX)%N → colon_free (pretty n).
Proof.
  intros Hn Hin. pose proof (digits_value_digits _ _ _ (digits_value_pretty n Hn)) as Hd.
  rewrite forallb_forall in Hd. apply list_elem_of_In, Hd in Hin. done.
Qed.

Lemma transition_colon_free k : colon_free (transition_as_str k).
Proof. destruct k; unfold colon_free; simpl; set_solver by lia. Qed.

Lemma for_transition_inj n1 n2 k1 k2 r1 r2 i1 i2 :
  colon_free n1 → colon_free n2 → (r1 <= U64_MAX)%N → (r2 <= U64_MAX)%N →
  for_transition n1 k1 r1 i1 = for_transition n2 k2 r2 i2 → n1 = n2 ∧ k1 = k2 ∧ r1 = r2 ∧ i1 = i2.
Proof.
  intros Hn1 Hn2 Hr1 Hr2 Heq. unfold for_transition in Heq.
  apply (inj (String.append "narrative-effect:")) in Heq.
  apply colon_split in Heq as [-> Heq]; [|done..].
  apply colon_split in Heq as [Hk Heq]; [|apply transition_colon_free..].
  apply colon_split in Heq as [Hr Hi]; [|by apply pretty_colon_free..].
  apply (inj pretty) in Hr, Hi. split_and!; [done| |done..]. by destruct k1, k2.
Qed.

(** Keys without colons and lists of effects an index of 32 bits can number. *)
Definition effects_numbered (definition : NarrativeGraphDefinition) : Prop :=
  map_Forall (λ key node, colon_free key ∧
    (nlen (on_activate (effects node)) <= U32_MAX)%N ∧ (nlen (on_complete (effects node)) <= U32_MAX)%N)
    (nodes definition).

(** What every stored effect satisfies: its identifier names its origin, an earlier revision. *)
Definition effects_named (state : NarrativeRuntimeState) : Prop :=
  map_Forall (λ id e, colon_free (pe_source_node e) ∧ (pe_source_graph_revision e <= graph_revision state)%N ∧
    id = for_transition (pe_source_node e) (pe_source_transition e) (pe_source_graph_revision e) (pe_effect_index e))
    (pending_effects state).

Lemma transition_effects_ids definition rev t pes :
  effects_numbered definition → (rev <= U64_MAX)%N →
  transition_effects definition rev t = Ok pes →
  NoDup (pe_effect_id <$> pes) ∧
  ∀ e, e ∈ pes → colon_free (pe_source_node e) ∧ pe_source_node e = pt_node_key t ∧ pe_source_graph_revision e = rev ∧
    pe_source_transition e = pt_kind t ∧
    pe_effect_id e = for_transition (pe_source_node e) (pe_source_transition e) rev (pe_effect_index e).
Proof.
  intros Hnum Hrev Hrun. unfold transition_effects, node_of in Hrun.
  destruct (nodes definition !! pt_node_key t) as [node|] eqn:Hn; [|done]. cbn [ok_or] in Hrun. injection Hrun as <-.
  destruct (Hnum _ _ Hn) as (Hcf & Ha & Hc).
  set (ds := match pt_kind t with Trans_Activate => _ | Trans_Complete => _ | Trans_Skip => _ end).
  assert (nlen ds <= U32_MAX)%N as Hlen by (unfold ds; destruct (pt_kind t); [done..|by vm_compute]).
  split.
  - apply NoDup_alt. intros i j id. rewrite !list_lookup_fmap, !list_lookup_imap.
    destruct (ds !! i) as [d|] eqn:Hi; [|done]. destruct (ds !! j) as [d'|] eqn:Hj; [|done].
    cbn [fmap option_fmap option_map pe_effect_id]. intros <- Heq%(inj Some)%for_transition_inj; [|done..].
    destruct Heq as (_ & _ & _ & Hij).
    apply lookup_lt_Some in Hi, Hj. unfold nlen in Hlen.
    rewrite !N.mod_small in Hij by lia. by apply Nat2N.inj.
  - intros e (i & d & -> & _)%elem_of_lookup_imap_1. done.
Qed.

Lemma NoDup_concat {A} (ls : list (list A)) :
  Forall NoDup ls → (∀ i j l1 l2 x, ls !! i = Some l1 → ls !! j = Some l2 → x ∈ l1 → x ∈ l2 → i = j) →
  NoDup (concat ls).
Proof.
  induction 1 as [|l ls Hl Hls IH]; intros Hdis; [constructor|]. simpl. apply NoDup_app. split_and!; [done| |].
  - intros x Hx (l2 & Hx2 & Hl2)%elem_of_concat. apply list_elem_of_lookup in Hl2 as [j Hj].
    by specialize (Hdis 0 (S j) l l2 x eq_refl Hj Hx Hx2).
  - apply IH. intros i j l1 l2 x Hi Hj H1 H2. specialize (Hdis (S i) (S j) l1 l2 x Hi Hj H1 H2). lia.
Qed.

(** The effects a resolution leaves have identifiers of their own: no two of them
    share one, none has the identifier of an effect that was already pending, and
    merging them keeps every stored effect named after its origin. *)
Theorem resolve_effects_fresh limits definition state view revision judgments turn r :
  NoDup (entry_nodes definition) → effects_numbered definition → effects_named state →
  (graph_revision state < U64_MAX)%N →
  resolve limits definition state view revision judgments turn = Ok r →
  res_next_graph_revision r = (graph_revision state + 1)%N ∧
  NoDup (pe_effect_id <$> res_pending_effects r) ∧
  (∀ e, e ∈ res_pending_effects r → pending_effects state !! pe_effect_id e = None ∧
     colon_free (pe_source_node e) ∧ pe_source_graph_revision e = res_next_graph_revision r ∧
     pe_effect_id e = for_transition (pe_source_node e) (pe_source_transition e)
                        (pe_source_graph_revision e) (pe_effect_index e)) ∧
  (map_len (pending_effects state) + nlen (res_pending_effects r) <= max_pending_effects limits)%N.
Proof.
  intros Hnd Hnum Hnamed Hrev Hrun. unfold resolve in Hrun. res_inv. cbn [res_next_graph_revision res_pending_effects].
  rewrite N.mod_small in * by lia. set (rev := (graph_revision state + 1)%N) in *.
  apply resolve_moves_legal in Heqr0 as [_ Hkeys]. specialize (Hkeys Hnd).
  apply traverse_ok_Forall2 in Heqr1. split_and!; [done| | |].
  - change (NoDup (map pe_effect_id (concat value0))). rewrite concat_map. apply NoDup_concat.
    + apply Forall_map. eapply Forall2_Forall_r; [done|]. apply Forall_forall. intros t _ pes Ht.
      by apply transition_effects_ids in Ht as [? _]; [|done|lia].
    + intros i j l1 l2 id. change (@map) with (@fmap list _). rewrite !list_lookup_fmap.
      destruct (value0 !! i) as [ps|] eqn:Hi; [|done]. destruct (value0 !! j) as [qs|] eqn:Hj; [|done].
      intros [= <-] [= <-] (e1 & -> & He1)%list_elem_of_fmap (e2 & Heq & He2)%list_elem_of_fmap.
      destruct (Forall2_lookup_r _ _ _ _ _ Heqr1 Hi) as (t1 & Ht1 & Hr1).
      destruct (Forall2_lookup_r _ _ _ _ _ Heqr1 Hj) as (t2 & Ht2 & Hr2).
      apply transition_effects_ids in Hr1 as [_ Hr1]; [|done|lia]. apply transition_effects_ids in Hr2 as [_ Hr2]; [|done|lia].
      destruct (Hr1 _ He1) as (Hc1 & Hk1 & _ & _ & Hid1). destruct (Hr2 _ He2) as (Hc2 & Hk2 & _ & _ & Hid2).
      rewrite Hid1, Hid2 in Heq. apply for_transition_inj in Heq as (Hn & _); [|done|done|lia..].
      eapply (NoDup_lookup (move_keys value.2)); [done|unfold move_keys; by rewrite list_lookup_fmap, Ht1|].
      unfold move_keys. rewrite list_lookup_fmap, Ht2. simpl. congruence.
  - intros e (pes & He & [j Hj]%list_elem_of_lookup)%elem_of_concat.
    destruct (Forall2_lookup_r _ _ _ _ _ Heqr1 Hj) as (t & _ & Hr). apply transition_effects_ids in Hr as [_ Hr]; [|done|lia].
    destruct (Hr _ He) as (Hc & _ & Hrv & _ & Hid). rewrite Hrv. split_and!; [|done..].
    destruct (pending_effects state !! pe_effect_id e) as [old|] eqn:Hold; [|done].
    apply Hnamed in Hold as (Hco & Hle & Hido). rewrite Hid in Hido.
    apply for_transition_inj in Hido as (_ & _ & Hre & _); [lia|done|done|lia..].
  - by match goal with H : (_ <? _)%N = false |- (map_len _ + _ <= _)%N => apply N.ltb_ge in H end.
Qed.

(** ** A small graph *)

Definition demo_node (activate complete : NarrativeCondition) (es : NarrativeNodeEffects) : NarrativeNodeDefinition :=
  {| node_title := "node"; dramatic_focus := Some "focus"; activate_when := activate; complete_when := complete;
     skip_when := None; effects := es; terminal := false |}.
Definition demo_semantic (k : string) : NarrativeCondition :=
  Cond_Semantic {| sem_condition_key := k; sem_criterion := "did it happen: " +:+ k |}.
Definition demo_event : NarrativeEffectDefinition :=
  Effect_WorldEvent {| wed_event_key := "alarm"; wed_category := "event"; wed_participants := [];
                       wed_location := None; wed_description := "the bells ring" |}.
Definition demo_graph : NarrativeGraphDefinition := {|
  entry_nodes := ["intro"];
  nodes := list_to_map
    [("intro", demo_node Cond_StoryStarted (demo_semantic "found") {| on_activate := []; on_complete := [demo_event] |});
     ("chase", demo_node Cond_StoryStarted (Cond_TurnReaches 9) {| on_activate := [demo_event; demo_event]; on_complete := [] |})];
  edges := [{| edge_key := "e1"; edge_from := "intro"; edge_to := "chase";
               edge_when := Cond_Any [demo_semantic "fled"; Cond_TurnReaches 9] |}] |}.
Definition demo_state : NarrativeRuntimeState :=
  {| graph_revision := 3; node_states := {[ "intro" := Node_Active ]}; activation_turns := {[ "intro" := 1%N ]};
     pending_effects := ∅ |}.
Definition demo_view : NarrativeStateView :=
  {| fact_value _ := Ok None; role_attribute _ _ := Ok None; relationship_trust _ _ := Ok None;
     role_controller _ := Ok Controller_Ai |}.
Definition demo_limits : NarrativeLimits :=
  {| max_graph_nodes := 256; max_graph_edges := 512; max_condition_depth := 8; max_conditions_per_node := 16;
     max_effects_per_node := 16; max_semantic_conditions := 64; max_semantic_criterion_bytes := 2048;
     max_frontier_nodes := 64; max_semantic_queries_per_turn := 32; max_semantic_query_bytes := 16384;
     max_evidence_bytes := 1024; max_result_reason_bytes := 1024; max_transitions_per_turn := 32;
     max_pending_effects := 128 |}.
Definition demo_judgments : Judgments := [("fled", Satisfied); ("found", Unknown)].
Definition or_default {E A} (d : A) (r : result E A) : A := match r with Ok a => a | Err _ => d end.
Definition demo_projection : NarrativeProjection :=
  or_default {| proj_plan := NarrativePlan_empty; condition_queries := []; expected_graph_revision := 0 |}
    (project demo_limits demo_graph demo_state demo_view 5).
Definition demo_resolution : NarrativeResolution :=
  or_default {| res_transitions := []; res_condition_results := ∅; res_pending_effects := []; res_next_graph_revision := 0 |}
    (resolve demo_limits demo_graph demo_state demo_view 3 demo_judgments 5).

Lemma projection_suffices_witness :
  resolution_outcome (resolve demo_limits demo_graph demo_state demo_view 3 demo_judgments 5) =
  resolution_outcome (resolve demo_limits demo_graph demo_state demo_view 3 (("weather", Satisfied) :: demo_judgments) 5).
Proof.
  apply (projection_suffices _ _ _ demo_view _ 5 5 demo_projection); [by vm_compute|].
  assert (map q_condition_key (condition_queries demo_projection) = ["fled"; "found"]) as Hq by by vm_compute.
  intros q Hin. assert (q_condition_key q ∈ ["fled"; "found"]) as Hk by (rewrite <-Hq; by apply list_elem_of_fmap_2).
  apply elem_of_cons in Hk as [->| ->%list_elem_of_singleton]; by vm_compute.
Defined.

Lemma resolve_legal_witness :
  res_transitions demo_resolution = [{| pt_node_key := "chase"; pt_kind := Trans_Activate |}] ∧
  LegalMove demo_limits demo_graph demo_state demo_view demo_judgments 5
    {| pt_node_key := "chase"; pt_kind := Trans_Activate |}.
Proof.
  assert (res_transitions demo_resolution = [{| pt_node_key := "chase"; pt_kind := Trans_Activate |}]) as Ht by by vm_compute.
  split; [done|]. destruct (resolve_legal demo_limits demo_graph demo_state demo_view 3 demo_judgments 5 demo_resolution)
    as (_ & Hlegal & _); [by vm_compute|]. apply Hlegal. rewrite Ht. by left.
Defined.

Lemma demo_numbered : effects_numbered demo_graph.
Proof.
  intros key node Hkey. apply elem_of_list_to_map_2 in Hkey. simpl in Hkey.
  apply elem_of_cons in Hkey as [[= -> ->]|[= -> ->]%list_elem_of_singleton]; split_and!; try (by vm_compute);
    unfold colon_free; simpl; set_solver by lia.
Qed.

Lemma resolve_effects_fresh_witness :
  length (res_pending_effects demo_resolution) = 2 ∧ NoDup (pe_effect_id <$> res_pending_effects demo_resolution).
Proof.
  split; [by vm_compute|].
  destruct (resolve_effects_fresh demo_limits demo_graph demo_state demo_view 3 demo_judgments 5 demo_resolution)
    as (_ & Hnd & _); [|exact demo_numbered| | | |exact Hnd].
  - apply NoDup_singleton.
  - by intros id e Hid.
  - by vm_compute.
  - by vm_compute.
Defined.
