(* ===== verification/AiseStory.v ===== *)
(** * Stories, knowledge and snapshots of the crate [aise]

    [domain/narrative.rs], [domain/story_sequence.rs], [domain/text/],
    [domain/knowledge/] (entries), [domain/asset/] (data), [domain/story_instance/]
    and the committed state view of [domain/narrative_graph/state_view.rs] of
    [crates/aise/src/].  A continuity that is accepted is a summary followed by
    consecutive segments, so that the next sequence number is fresh; a snapshot
    that is accepted has one player, and its references resolve. *)

From S2P Require Import Prelude Text AiseIds AiseRule AiseNarrative.

(** [estimate_text_tokens] *)
Definition estimate_text_tokens (text : string) : N :=
  let characters := clamp U64_MAX (nlen (chars text)) in
  N.max (sat_add U64_MAX characters 3 / 4) 1.

(** ** Story segments and their continuity *)

Inductive StoryContinuityError :=
| ZeroSequence | Continuity_SequenceOverflow | InvalidSummaryBoundary | OutOfOrder | Overlap | Gap
| Continuity_LimitExceeded (limit : string).

Definition StorySequence := N.
Definition StorySequence_try_new (value : N) : result StoryContinuityError StorySequence :=
  fail_if (value =? 0)%N with ZeroSequence in Ok value.
Definition StorySequence_next (s : StorySequence) : result StoryContinuityError StorySequence :=
  let? next := ok_or (checked_add U64_MAX s 1) Continuity_SequenceOverflow in
  StorySequence_try_new next.

Inductive StorySegmentOrigin := Origin_Opening | Origin_Turn (turn_number : TurnNumber).
Record StorySegment := {
  seg_sequence : StorySequence;
  seg_origin : StorySegmentOrigin;
  seg_text : BoundedText;
}.
Record StorySummary := { sum_text : BoundedText; summarized_through : option StorySequence }.
Definition StorySummary_default : StorySummary := {| sum_text := ""; summarized_through := None |}.
Record StoryContinuity := { con_summary : StorySummary; recent_segments : list StorySegment }.
Record StoryContinuityLimits := {
  max_summary_bytes : N;
  max_recent_segments : N;
  max_recent_segment_bytes : N;
  max_recent_segment_tokens : N;
}.

(** [slice::windows(2)] *)
Definition windows2 {A} (l : list A) : list (A * A) := zip l (tail l).

Definition check_window (w : StorySegment * StorySegment) : result StoryContinuityError unit :=
  let prev := seg_sequence w.1 in
  let next := seg_sequence w.2 in
  fail_if (next <=? prev)%N with OutOfOrder in
  fail_if negb (next =? prev + 1)%N with Gap in Ok tt.

Definition check_boundary (summary : StorySummary) (segments : list StorySegment) :
    result StoryContinuityError unit :=
  match summarized_through summary, head segments with
  | Some boundary, Some first =>
      let? expected := map_err (λ _, Continuity_SequenceOverflow) (StorySequence_next boundary) in
      fail_if (seg_sequence first <? expected)%N with Overlap in
      fail_if (expected <? seg_sequence first)%N with Gap in Ok tt
  | None, Some first => fail_if negb (seg_sequence first =? 1)%N with Gap in Ok tt
  | _, None => Ok tt
  end.

Definition StoryContinuity_try_new (summary : StorySummary) (segments : list StorySegment)
    (limits : StoryContinuityLimits) : result StoryContinuityError StoryContinuity :=
  fail_if (max_summary_bytes limits <? slen (sum_text summary))%N
  with Continuity_LimitExceeded "max_summary_bytes" in
  fail_if (max_recent_segments limits <? nlen segments)%N
  with Continuity_LimitExceeded "max_recent_segments" in
  let? _ := try_for_each (λ segment,
    fail_if (max_recent_segment_bytes limits <? slen (seg_text segment))%N
    with Continuity_LimitExceeded "max_recent_segment_bytes" in Ok tt) segments in
  let? _ := match is_blank (sum_text summary), summarized_through summary with
            | true, Some _ | false, None => Err InvalidSummaryBoundary
            | true, None | false, Some _ => Ok tt
            end in
  let? _ := check_boundary summary segments in
  let? _ := try_for_each check_window (windows2 segments) in
  let? token_sum := try_fold (λ token_sum segment,
    ok_or (checked_add U64_MAX token_sum (estimate_text_tokens (seg_text segment)))
      (Continuity_LimitExceeded "max_recent_segment_tokens")) 0%N segments in
  fail_if (max_recent_segment_tokens limits <? token_sum)%N
  with Continuity_LimitExceeded "max_recent_segment_tokens" in
  Ok {| con_summary := summary; recent_segments := segments |}.

Definition latest_sequence (c : StoryContinuity) : option StorySequence :=
  match last (recent_segments c) with
  | Some segment => Some (seg_sequence segment)
  | None => summarized_through (con_summary c)
  end.

Definition next_sequence (c : StoryContinuity) : result StoryContinuityError StorySequence :=
  match latest_sequence c with
  | Some latest => StorySequence_next latest
  | None => StorySequence_try_new 1
  end.

Definition has_summarizable_history (c : StoryContinuity) : bool :=
  bool_decide (is_Some (summarized_through (con_summary c)))
  || existsb (λ segment, match seg_origin segment with Origin_Turn _ => true | Origin_Opening => false end)
       (recent_segments c).

Definition continuity_estimate_tokens (c : StoryContinuity) : N :=
  let total := if is_blank (sum_text (con_summary c)) then 0%N
               else sat_add U64_MAX 0 (estimate_text_tokens (sum_text (con_summary c))) in
  foldl (λ total segment, sat_add U64_MAX total (estimate_text_tokens (seg_text segment))) total (recent_segments c).

Record StoryTurn := {
  turn_number : TurnNumber;
  turn_sequence : StorySequence;
  turn_player_contribution : string;
  turn_story_text : string;
  turn_created_at : Z;
}.
Inductive EventKind := Event_Dialogue | Event_Action | Event_WorldChange | Event_Chapter.
Definition EventKind_as_str (k : EventKind) : string :=
  match k with
  | Event_Dialogue => "dialogue" | Event_Action => "action"
  | Event_WorldChange => "world_change" | Event_Chapter => "chapter"
  end.

(** ** Knowledge entries *)

Definition RumorKey := string.
Definition MemoryKind := string.
Record AssetProposition := { prop_subject : BoundedText; prop_predicate : BoundedText; prop_value : ScalarValue }.
Definition Claim := AssetProposition.
Inductive TruthValue := Truth_True | Truth_False | Truth_Unverified.

Record WorldFact := {
  fact_id : FactId;
  fact_key : option FactKey;
  fact_text : BoundedText;
  fact_proposition : option AssetProposition;
  fact_retrieval_hint : RetrievalHint;
  fact_activation : KnowledgeActivationRule;
  fact_activation_rule_version : ActivationRuleVersion;
  fact_salience : N;
  fact_source : KnowledgeSource;
}.
Record SharedRumor := {
  rumor_id : RumorId;
  rumor_key : option RumorKey;
  rumor_content : BoundedText;
  rumor_claim : option Claim;
  rumor_retrieval_hint : RetrievalHint;
  rumor_activation : KnowledgeActivationRule;
  rumor_activation_rule_version : ActivationRuleVersion;
  rumor_salience : N;
  rumor_source_role_id : option RoleId;
  rumor_truth_value : TruthValue;
  rumor_source : KnowledgeSource;
}.
Record MemoryEntry := {
  memory_id : MemoryId;
  memory_owner_id : RoleId;
  memory_kind : MemoryKind;
  memory_content : BoundedText;
  memory_salience : N;
  memory_source : KnowledgeSource;
  memory_created_at_ms : Z;
}.
Inductive KnowledgeEntry :=
| Entry_Fact (value : WorldFact) | Entry_Rumor (value : SharedRumor) | Entry_Memory (value : MemoryEntry).

Definition entry_source_id (e : KnowledgeEntry) : KnowledgeSourceId :=
  match e with
  | Entry_Fact v => Sid_Fact (fact_id v) | Entry_Rumor v => Sid_Rumor (rumor_id v)
  | Entry_Memory v => Sid_Memory (memory_id v)
  end.
Definition entry_kind (e : KnowledgeEntry) : KnowledgeKind :=
  match e with Entry_Fact _ => Kind_Fact | Entry_Rumor _ => Kind_Rumor | Entry_Memory _ => Kind_Memory end.
Definition entry_content (e : KnowledgeEntry) : BoundedText :=
  match e with
  | Entry_Fact v => fact_text v | Entry_Rumor v => rumor_content v | Entry_Memory v => memory_content v
  end.
Definition entry_salience (e : KnowledgeEntry) : N :=
  match e with
  | Entry_Fact v => fact_salience v | Entry_Rumor v => rumor_salience v | Entry_Memory v => memory_salience v
  end.
Definition entry_source (e : KnowledgeEntry) : KnowledgeSource :=
  match e with
  | Entry_Fact v => fact_source v | Entry_Rumor v => rumor_source v | Entry_Memory v => memory_source v
  end.
Definition memory_owner (e : KnowledgeEntry) : option RoleId :=
  match e with Entry_Memory v => Some (memory_owner_id v) | _ => None end.
Definition entry_retrieval_hint (e : KnowledgeEntry) : option RetrievalHint :=
  match e with
  | Entry_Fact v => Some (fact_retrieval_hint v) | Entry_Rumor v => Some (rumor_retrieval_hint v)
  | Entry_Memory _ => None
  end.

(** ** Assets *)

Record DialogueExample := { de_situation : BoundedText; de_response : BoundedText }.
Record CharacterProfile := {
  profile_name : BoundedText;
  profile_appearance : option BoundedText;
  profile_personality : option BoundedText;
  profile_speaking_style : option BoundedText;
  dialogue_examples : list DialogueExample;
}.
Record FrozenCharacterCardRef := {
  fcc_character_id : CharacterId; fcc_version : SemanticVersion; fcc_digest : Sha256Digest;
}.
Record FrozenStoryPackRef := {
  fsp_pack_id : PackId; fsp_pack_key : string; fsp_version : SemanticVersion; fsp_digest : Sha256Digest;
}.
Record StoryStyle := { style_tone : list BoundedText; point_of_view : BoundedText; tense : BoundedText }.
Record StoryProfile := {
  profile_language : BoundedText;
  profile_genre : list BoundedText;
  profile_themes : list BoundedText;
  profile_style : StoryStyle;
}.

Definition SceneKey := string.
Definition ConstraintKey := string.
Inductive StoryConstraintScope := Scope_Story | Scope_Scene (scene_key : SceneKey) | Scope_Role (role_id : RoleId).
Inductive StoryConstraintRequirement := Require (statement : BoundedText) | Forbid (statement : BoundedText).
Inductive StoryConstraintLifecycle :=
| Lifecycle_Persistent
| Lifecycle_ThroughSequence (sequence : StorySequence)
| Lifecycle_UntilNarrativeNodeResolved (node_key : NarrativeNodeKey).
Record StoryConstraintSource := { scs_pack_id : PackId; scs_constraint_key : ConstraintKey }.
Record ActiveStoryConstraint := {
  asc_id : ConstraintId;
  asc_source : StoryConstraintSource;
  asc_scope : StoryConstraintScope;
  asc_requirement : StoryConstraintRequirement;
  asc_lifecycle : StoryConstraintLifecycle;
}.
#[global] Instance StoryConstraintScope_eq_dec : EqDecision StoryConstraintScope. Proof. solve_decision. Defined.
#[global] Instance StoryConstraintRequirement_eq_dec : EqDecision StoryConstraintRequirement.
Proof. solve_decision. Defined.
#[global] Instance StoryConstraintLifecycle_eq_dec : EqDecision StoryConstraintLifecycle. Proof. solve_decision. Defined.
#[global] Instance StoryConstraintSource_eq_dec : EqDecision StoryConstraintSource. Proof. solve_decision. Defined.
#[global] Instance ActiveStoryConstraint_eq_dec : EqDecision ActiveStoryConstraint. Proof. solve_decision. Defined.

(** ** Story instances *)

Definition PlayerId := string.
Definition AttributeKey := string.
Definition RelationshipKind := string.
Inductive RoleController := Player (player_id : PlayerId) | Ai.
Record StoryRoleState := {
  state_location : LocationKey;
  state_goals : list BoundedText;
  state_attributes : gmap AttributeKey ScalarValue;
}.
Record StoryRole := {
  role_role_id : RoleId;
  role_role_controller : RoleController;
  role_label : BoundedText;
  role_narrative_function : BoundedText;
  role_background : option BoundedText;
  role_effective_profile : CharacterProfile;
  role_source_character : option FrozenCharacterCardRef;
  role_state : StoryRoleState;
}.
Record StoryRoleView := {
  view_role_id : RoleId;
  view_controller : RoleController;
  view_role_label : BoundedText;
  view_narrative_function : BoundedText;
  view_background : option BoundedText;
  view_effective_profile : CharacterProfile;
  view_source_character_id : option CharacterId;
  view_state : StoryRoleState;
}.
Definition controlled_by_player (c : RoleController) : bool := match c with Player _ => true | Ai => false end.
Definition view_is_player_controlled (v : StoryRoleView) : bool := controlled_by_player (view_controller v).
Definition role_is_player_controlled (r : StoryRole) : bool := controlled_by_player (role_role_controller r).
Definition view_from_role (r : StoryRole) : StoryRoleView := {|
  view_role_id := role_role_id r;
  view_controller := role_role_controller r;
  view_role_label := role_label r;
  view_narrative_function := role_narrative_function r;
  view_background := role_background r;
  view_effective_profile := role_effective_profile r;
  view_source_character_id := fcc_character_id <$> role_source_character r;
  view_state := role_state r;
|}.

Inductive CastPolicy := Cast_Open | Cast_IncidentalOnly | Cast_Closed.
#[global] Instance CastPolicy_eq_dec : EqDecision CastPolicy. Proof. solve_decision. Defined.
Record InstanceSettings := { cast_policy : CastPolicy; setting_values : gmap string ScalarValue }.
Record RelationshipState := {
  rel_source_role_id : RoleId;
  rel_target_role_id : RoleId;
  rel_kind : RelationshipKind;
  rel_trust : Z;
}.
(** The fields of [RelationshipKey]: source, target, kind. *)
Definition RelationshipKey : Type := RoleId * RoleId * RelationshipKind.
Definition relationship_key (r : RelationshipState) : RelationshipKey :=
  (rel_source_role_id r, rel_target_role_id r, rel_kind r).

(** ** Story packs, world books and character cards *)

Definition StoryPackKey := string.
Definition WorldBookKey := string.
Definition AssetId := string.
Definition MemoryKey := string.
Inductive StorySpec := StorySpec_V5.
Inductive WorldSpec := WorldSpec_V5.
Inductive CharacterSpec := CharacterSpec_V4.
Inductive AssetSpecVersion := Version_3_0 | Version_4_0 | Version_5_0.
#[global] Instance AssetSpecVersion_eq_dec : EqDecision AssetSpecVersion. Proof. solve_decision. Defined.

Record FactSeed := {
  fs_proposition : option AssetProposition;
  fs_content : BoundedText;
  fs_retrieval_hint : option RetrievalHint;
  fs_salience : N;
  fs_activation : KnowledgeActivationRule;
}.
Record RumorSeed := {
  rs_claim : option AssetProposition;
  rs_content : BoundedText;
  rs_retrieval_hint : option RetrievalHint;
  rs_salience : N;
  rs_activation : KnowledgeActivationRule;
}.
Record WorldBookMeta := { wbm_name : BoundedText; wbm_version : SemanticVersion }.
Record WorldBook := {
  wb_spec : WorldSpec;
  wb_spec_version : AssetSpecVersion;
  wb_world_book_key : WorldBookKey;
  wb_meta : WorldBookMeta;
  wb_facts : gmap FactKey FactSeed;
  wb_rumors : gmap RumorKey RumorSeed;
}.
Record FrozenWorldBookRef := {
  fwb_world_book_key : WorldBookKey; fwb_version : SemanticVersion; fwb_digest : Sha256Digest;
}.
Inductive WorldBookSource := Embedded (book : WorldBook) | Frozen (reference : FrozenWorldBookRef).

Inductive StaticMimeType := Mime_Png | Mime_Jpeg | Mime_Webp | Mime_Gif | Mime_OggAudio | Mime_MpegAudio.
Record StaticAssetDescriptor := {
  sad_path : string; sad_mime_type : StaticMimeType; sad_digest : Sha256Digest;
}.
Record StoryConstraintDefinition := {
  scd_scope : StoryConstraintScope;
  scd_requirement : StoryConstraintRequirement;
  scd_lifecycle : StoryConstraintLifecycle;
}.

Record RelationshipSeed := { rseed_target_role_id : RoleId; rseed_kind : RelationshipKind; rseed_trust : Z }.
Record MemorySeed := {
  ms_memory_key : MemoryKey; ms_kind : MemoryKind; ms_content : BoundedText; ms_salience : N;
}.
Record InitialRoleState := {
  irs_location : LocationKey;
  irs_goals : list BoundedText;
  irs_attributes : gmap AttributeKey ScalarValue;
}.
Record StoryRoleDefinition := {
  srd_role_label : BoundedText;
  srd_narrative_function : BoundedText;
  srd_default_profile : CharacterProfile;
  srd_background : option BoundedText;
  srd_initial_state : InitialRoleState;
  srd_initial_relationships : list RelationshipSeed;
  srd_seed_memories : list MemorySeed;
}.
Record PlayDefinition := { play_player_count : N; playable_role_ids : list RoleId }.
Record StoryStart := {
  start_scene_key : SceneKey;
  start_location_key : LocationKey;
  start_time : BoundedText;
  start_description : BoundedText;
  start_opening : BoundedText;
}.
Record StoryPackMeta := {
  spm_pack_key : StoryPackKey;
  spm_title : BoundedText;
  spm_author : BoundedText;
  spm_version : SemanticVersion;
  spm_description : BoundedText;
  spm_tags : list BoundedText;
  spm_cover_asset : option AssetId;
}.
Record StoryPack := {
  pack_spec : StorySpec;
  pack_spec_version : AssetSpecVersion;
  pack_meta : StoryPackMeta;
  pack_story : StoryProfile;
  pack_roles : gmap RoleId StoryRoleDefinition;
  pack_play : PlayDefinition;
  pack_world_book : WorldBookSource;
  pack_start : StoryStart;
  pack_narrative : NarrativeGraphDefinition;
  pack_constraints : gmap ConstraintKey StoryConstraintDefinition;
  pack_assets : gmap AssetId StaticAssetDescriptor;
}.

Record CharacterMeta := { cm_creator : option BoundedText; cm_version : SemanticVersion; cm_tags : list BoundedText }.
Record CharacterCard := {
  card_spec : CharacterSpec;
  card_spec_version : AssetSpecVersion;
  card_character_id : CharacterId;
  card_meta : CharacterMeta;
  card_profile : CharacterProfile;
}.

Record StoryInfo := {
  info_story_id : StoryId;
  info_created_at_ms : Z;
  info_base_revision : StoryRevision;
  info_last_committed_turn_number : N;
}.

(** ** Snapshots *)

Record KnowledgeSnapshotRef := {
  ks_story_id : StoryId;
  ks_pack_digest : Sha256Digest;
  ks_base_revision : StoryRevision;
  ks_knowledge_id_high_water : KnowledgeIdHighWater;
}.
Inductive StorySnapshotError := Inconsistent (code : string).

Record StoryReadSnapshotParts := {
  parts_story_id : StoryId;
  parts_base_revision : StoryRevision;
  parts_pack : FrozenStoryPackRef;
  parts_story_title : BoundedText;
  parts_story_profile : StoryProfile;
  parts_instance_settings : InstanceSettings;
  parts_roles : gmap RoleId StoryRoleView;
  parts_relationships : list RelationshipState;
  parts_narrative_definition : NarrativeGraphDefinition;
  parts_narrative_state : NarrativeRuntimeState;
  parts_fact_values : gmap FactKey ScalarValue;
  parts_story_continuity : StoryContinuity;
  parts_active_constraints : list ActiveStoryConstraint;
  parts_knowledge_snapshot : KnowledgeSnapshotRef;
  parts_role_id_high_water : RoleIdHighWater;
}.
Record StoryReadSnapshot := {
  snap_story_id : StoryId;
  snap_base_revision : StoryRevision;
  snap_pack : FrozenStoryPackRef;
  snap_story_title : BoundedText;
  snap_story_profile : StoryProfile;
  snap_instance_settings : InstanceSettings;
  snap_roles : gmap RoleId StoryRoleView;
  snap_player_role_id : RoleId;
  snap_relationships : list RelationshipState;
  snap_narrative_definition : NarrativeGraphDefinition;
  snap_narrative_state : NarrativeRuntimeState;
  snap_fact_values : gmap FactKey ScalarValue;
  snap_story_continuity : StoryContinuity;
  snap_active_constraints : list ActiveStoryConstraint;
  snap_knowledge_snapshot : KnowledgeSnapshotRef;
  snap_role_id_high_water : RoleIdHighWater;
}.

(** One turn of the loop over the relationships: the keys seen so far grow. *)
Definition check_relationship (roles : gmap RoleId StoryRoleView) (seen : gset RelationshipKey)
    (r : RelationshipState) : result StorySnapshotError (gset RelationshipKey) :=
  fail_if bool_decide (roles !! rel_source_role_id r = None)
       || bool_decide (roles !! rel_target_role_id r = None)
  with Inconsistent "relationship_role_missing" in
  fail_if bool_decide (relationship_key r ∈ seen) with Inconsistent "relationship_duplicate" in
  Ok ({[relationship_key r]} ∪ seen).

Definition try_from_snapshot_parts (p : StoryReadSnapshotParts) : result StorySnapshotError StoryReadSnapshot :=
  let knowledge := parts_knowledge_snapshot p in
  let roles := parts_roles p in
  let definition := parts_narrative_definition p in
  let state := parts_narrative_state p in
  fail_if negb (bool_decide (ks_story_id knowledge = parts_story_id p))
  with Inconsistent "knowledge_story_id_mismatch" in
  fail_if negb (bool_decide (ks_pack_digest knowledge = fsp_digest (parts_pack p)))
  with Inconsistent "knowledge_pack_digest_mismatch" in
  fail_if negb (bool_decide (ks_base_revision knowledge = parts_base_revision p))
  with Inconsistent "knowledge_base_revision_mismatch" in
  let? _ := try_for_each (λ e,
    fail_if negb (bool_decide (e.1 = view_role_id e.2)) with Inconsistent "role_map_key_mismatch" in Ok tt)
    (entries roles) in
  let? player_role_id :=
    match map view_role_id (List.filter view_is_player_controlled (values roles)) with
    | [first] => Ok first
    | _ => Err (Inconsistent "player_role_count")
    end in
  let? _ := try_fold (check_relationship roles) ∅ (parts_relationships p) in
  fail_if existsb (λ key, bool_decide (nodes definition !! key = None))
       (keys (node_states state) ++ keys (activation_turns state))
  with Inconsistent "narrative_state_reference_invalid" in
  fail_if existsb (λ pending, bool_decide (nodes definition !! pe_source_node pending = None))
       (values (pending_effects state))
  with Inconsistent "narrative_pending_effect_reference_invalid" in
  Ok {|
    snap_story_id := parts_story_id p;
    snap_base_revision := parts_base_revision p;
    snap_pack := parts_pack p;
    snap_story_title := parts_story_title p;
    snap_story_profile := parts_story_profile p;
    snap_instance_settings := parts_instance_settings p;
    snap_roles := roles;
    snap_player_role_id := player_role_id;
    snap_relationships := parts_relationships p;
    snap_narrative_definition := definition;
    snap_narrative_state := state;
    snap_fact_values := parts_fact_values p;
    snap_story_continuity := parts_story_continuity p;
    snap_active_constraints := parts_active_constraints p;
    snap_knowledge_snapshot := knowledge;
    snap_role_id_high_water := parts_role_id_high_water p;
  |}.

Definition snapshot_role (s : StoryReadSnapshot) (role_id : RoleId) : option StoryRoleView := snap_roles s !! role_id.
(** [player_role]: [None] is the panic of its [expect]. *)
Definition player_role (s : StoryReadSnapshot) : option StoryRoleView := snap_roles s !! snap_player_role_id s.
Definition snapshot_knowledge_id_high_water (s : StoryReadSnapshot) : KnowledgeIdHighWater :=
  ks_knowledge_id_high_water (snap_knowledge_snapshot s).
Definition snapshot_graph_revision (s : StoryReadSnapshot) : N := graph_revision (snap_narrative_state s).

(** ** The committed state, as conditions see it *)

Section committed_view.
Context (snapshot : StoryReadSnapshot).

Definition known_role (role_id : RoleId) : result NarrativeStateViewError StoryRoleView :=
  ok_or (snapshot_role snapshot role_id) (UnknownRole role_id).

Definition committed_role_attribute (role_id : RoleId) (attribute : BoundedText) :
    result NarrativeStateViewError (option ScalarValue) :=
  let? role := known_role role_id in
  Ok ((λ p, p.2.2) <$> list_find (λ kv, kv.1 = attribute) (entries (state_attributes (view_state role)))).

Definition committed_relationship_trust (source_role_id target_role_id : RoleId) :
    result NarrativeStateViewError (option Z) :=
  let? _ := known_role source_role_id in
  let? _ := known_role target_role_id in
  Ok ((λ p, rel_trust p.2)
      <$> list_find (λ r, rel_source_role_id r = source_role_id ∧ rel_target_role_id r = target_role_id)
            (snap_relationships snapshot)).

Definition committed_role_controller (role_id : RoleId) : result NarrativeStateViewError RoleControllerKind :=
  let? role := known_role role_id in
  Ok (if view_is_player_controlled role then Controller_Player else Controller_Ai).

Definition CommittedNarrativeStateView : NarrativeStateView := {|
  fact_value := λ fact_key, Ok (snap_fact_values snapshot !! fact_key);
  role_attribute := committed_role_attribute;
  relationship_trust := committed_relationship_trust;
  role_controller := committed_role_controller;
|}.
End committed_view.

(** ** Continuity: consecutive sequences, a fresh next one, bounded tokens *)
Lemma estimate_text_tokens_pos text : (1 <= estimate_text_tokens text <= U64_MAX)%N.
Proof.
  unfold estimate_text_tokens. pose proof (clamp_le U64_MAX (clamp U64_MAX (nlen (chars text)) + 3)).
  unfold sat_add, U64_MAX in *. split; [lia|]. div_lia.
Qed.

(** The number the first segment after a summary must carry. *)
Definition first_sequence (summary : StorySummary) : N := (default 0 (summarized_through summary) + 1)%N.

Definition consecutive_from (first : N) (segments : list StorySegment) : Prop :=
  ∀ i segment, segments !! i = Some segment → seg_sequence segment = (first + N.of_nat i)%N.

Lemma check_window_ok w : check_window w = Ok tt ↔ seg_sequence w.2 = (seg_sequence w.1 + 1)%N.
Proof.
  unfold check_window. destruct (N.leb_spec (seg_sequence w.2) (seg_sequence w.1)); simpl; [split; [done|lia]|].
  destruct (N.eqb_spec (seg_sequence w.2) (seg_sequence w.1 + 1)); simpl; naive_solver.
Qed.

Lemma check_windows_consecutive first segments :
  (∀ segment, head segments = Some segment → seg_sequence segment = first) →
  try_for_each check_window (windows2 segments) = Ok tt ↔ consecutive_from first segments.
Proof.
  rewrite try_for_each_ok. unfold windows2. revert first.
  induction segments as [|s1 [|s2 segments] IH]; intros first Hhead.
  - split; [by intros _ i ?|]. intros _ w []%elem_of_nil.
  - split; [|by intros _ w []%elem_of_nil]. intros _ [|i] s; [intros [= <-]|done].
    rewrite (Hhead s1) by done. simpl. lia.
  - pose proof (Hhead s1 eq_refl) as Hs1. cbn [tail zip zip_with] in *. split.
    + intros H. assert (check_window (s1, s2) = Ok tt) as Hw%check_window_ok by (apply H; set_solver).
      simpl in Hw. intros [|i] s Hi; [by simplify_eq/=; lia|].
      apply (IH (first + 1)%N) in Hi; [lia| |].
      * intros ? [= <-]. lia.
      * intros w Hw'. apply H. set_solver.
    + intros H w [->|Hw]%elem_of_cons.
      * apply check_window_ok. simpl. pose proof (H 0 s1 eq_refl). pose proof (H 1 s2 eq_refl). lia.
      * revert w Hw. apply (IH (first + 1)%N).
        -- intros ? [= <-]. pose proof (H 1 s2 eq_refl). lia.
        -- intros i s Hi. rewrite (H (S i) s Hi). lia.
Qed.

Lemma check_boundary_ok summary segments :
  check_boundary summary segments = Ok tt →
  ∀ segment, head segments = Some segment → seg_sequence segment = first_sequence summary.
Proof.
  unfold check_boundary, first_sequence, StorySequence_next, checked_add. intros H segment Hs. rewrite Hs in H.
  destruct (summarized_through summary) as [b|]; simpl in *.
  - destruct (N.leb_spec (b + 1) U64_MAX); simpl in H; [|done].
    unfold StorySequence_try_new in H. destruct (N.eqb_spec (b + 1) 0); simpl in H; [lia|].
    destruct (N.ltb_spec (seg_sequence segment) (b + 1)); [done|].
    destruct (N.ltb_spec (b + 1) (seg_sequence segment)); [done|]. lia.
  - destruct (N.eqb_spec (seg_sequence segment) 1); [done|done].
Qed.

(** Checked sums: the result is the sum, and within the width. *)
Lemma checked_sum {A E} (f : A → N) (e : E) l acc total :
  try_fold (λ acc x, ok_or (checked_add U64_MAX acc (f x)) e) acc l = Ok total ↔
  total = (acc + foldr (λ x s, f x + s) 0 l)%N ∧ (l = [] ∨ (acc + foldr (λ x s, f x + s) 0 l <= U64_MAX)%N).
Proof.
  revert acc. induction l as [|x l IH]; intros acc; simpl.
  - split; [intros [= ->]; split; [lia|by left]|]. intros [-> _]. f_equal. lia.
  - unfold checked_add. destruct (N.leb_spec (acc + f x) U64_MAX); simpl.
    + rewrite IH. split; intros [-> Hb]; (split; [lia|]); [right|].
      * destruct Hb as [->|Hb]; simpl in *; lia.
      * destruct Hb as [?|Hb]; [done|]. right. lia.
    + split; [done|]. intros [-> [?|?]]; [done|]. lia.
Qed.

Lemma sat_fold_le {A} (f : A → N) l acc :
  (foldl (λ acc x, sat_add U64_MAX acc (f x)) acc l <= acc + foldr (λ x s, f x + s) 0 l)%N.
Proof.
  revert acc. induction l as [|x l IH]; intros acc; simpl; [lia|].
  etransitivity; [apply IH|]. pose proof (clamp_le_arg U64_MAX (acc + f x)). unfold sat_add. lia.
Qed.

Lemma latest_sequence_last summary segments :
  consecutive_from (first_sequence summary) segments →
  latest_sequence {| con_summary := summary; recent_segments := segments |} =
    if decide (segments = []) then summarized_through summary
    else Some (first_sequence summary + nlen segments - 1)%N.
Proof.
  intros Hc. unfold latest_sequence; cbn [recent_segments con_summary].
  destruct (last segments) as [s|] eqn:Hl.
  - rewrite decide_False by (intros ->; done). f_equal. rewrite last_lookup in Hl. rewrite (Hc _ _ Hl).
    assert (length segments ≠ 0) by (intros ?%nil_length_inv; by subst). unfold nlen. lia.
  - apply last_None in Hl. by rewrite decide_True.
Qed.

(** A continuity that [StoryContinuity::try_new] accepts carries consecutive
    sequence numbers, from the one after the summary (or 1); the next sequence
    number continues them, or is refused when it does not fit [u64]; and the
    tokens it is estimated at are those of the summary and at most the limit of
    the recent segments. *)
Theorem continuity_consecutive summary segments limits c :
  StoryContinuity_try_new summary segments limits = Ok c →
  consecutive_from (first_sequence summary) segments
  ∧ next_sequence c =
      (let next := first_sequence summary + nlen segments in
       if next <=? U64_MAX then Ok next else Err Continuity_SequenceOverflow)%N
  ∧ (continuity_estimate_tokens c
     <= (if is_blank (sum_text summary) then 0 else estimate_text_tokens (sum_text summary))
        + max_recent_segment_tokens limits)%N.
Proof.
  unfold StoryContinuity_try_new. intros H. repeat (res_step; try done).
  destruct value1 as [], value2 as []. subst c. rename Heqr1 into Hb, Heqr2 into Hw.
  apply (check_windows_consecutive (first_sequence summary)) in Hw; [|by apply check_boundary_ok].
  split; [done|]. split.
  - unfold next_sequence. rewrite latest_sequence_last by done.
    destruct (decide (segments = [])) as [->|Hne].
    + unfold first_sequence. replace (nlen (@nil StorySegment)) with 0%N by done. rewrite N.add_0_r.
      destruct (summarized_through summary) as [b|]; simpl.
      * unfold StorySequence_next, checked_add. destruct (N.leb_spec (b + 1) U64_MAX); simpl; [|done].
        unfold StorySequence_try_new. destruct (N.eqb_spec (b + 1) 0); [lia|done].
      * done.
    + assert (0 < nlen segments)%N by (destruct segments; [done|unfold nlen; simpl; lia]).
      unfold StorySequence_next, checked_add.
      replace (first_sequence summary + nlen segments - 1 + 1)%N with (first_sequence summary + nlen segments)%N by lia.
      simpl. destruct (N.leb_spec (first_sequence summary + nlen segments) U64_MAX); simpl; [|done].
      unfold StorySequence_try_new. by destruct (N.eqb_spec (first_sequence summary + nlen segments) 0); [lia|].
  - unfold continuity_estimate_tokens; cbn [recent_segments con_summary].
    etransitivity; [apply (sat_fold_le (λ segment, estimate_text_tokens (seg_text segment)))|].
    match goal with H : try_fold _ 0%N _ = Ok _ |- _ =>
      apply (checked_sum (λ segment, estimate_text_tokens (seg_text segment))) in H as [-> _] end.
    match goal with H : (max_recent_segment_tokens _ <? _)%N = false |- _ => apply N.ltb_ge in H end.
    destruct (is_blank (sum_text summary)); [lia|].
    pose proof (clamp_le_arg U64_MAX (0 + estimate_text_tokens (sum_text summary))). unfold sat_add. lia.
Qed.

(** A concrete continuity: a summary of the first segment, then a turn. *)
Definition demo_limits : StoryContinuityLimits :=
  {| max_summary_bytes := 100; max_recent_segments := 4; max_recent_segment_bytes := 100;
     max_recent_segment_tokens := 50 |}.
Definition demo_summary : StorySummary := {| sum_text := "they met"; summarized_through := Some 1%N |}.
Definition demo_segments : list StorySegment :=
  [{| seg_sequence := 2%N; seg_origin := Origin_Turn 1%N; seg_text := "they talked" |}].

Lemma continuity_consecutive_witness :
  let c := {| con_summary := demo_summary; recent_segments := demo_segments |} in
  next_sequence c = Ok 3%N ∧ (continuity_estimate_tokens c <= 2 + 50)%N.
Proof.
  intros c. destruct (continuity_consecutive demo_summary demo_segments demo_limits c) as (_ & Hn & Ht);
    [by vm_compute|]. split; [exact Hn|exact Ht].
Defined.

(** ** Snapshots: what is accepted, and what follows *)

Record snapshot_valid (p : StoryReadSnapshotParts) : Prop := {
  sv_story : ks_story_id (parts_knowledge_snapshot p) = parts_story_id p;
  sv_digest : ks_pack_digest (parts_knowledge_snapshot p) = fsp_digest (parts_pack p);
  sv_revision : ks_base_revision (parts_knowledge_snapshot p) = parts_base_revision p;
  sv_role_keys : ∀ id v, parts_roles p !! id = Some v → view_role_id v = id;
  sv_player : ∃ id v, parts_roles p !! id = Some v ∧ view_is_player_controlled v = true
    ∧ ∀ id' v', parts_roles p !! id' = Some v' → view_is_player_controlled v' = true → id' = id;
  sv_relationship_roles : ∀ r, r ∈ parts_relationships p →
    is_Some (parts_roles p !! rel_source_role_id r) ∧ is_Some (parts_roles p !! rel_target_role_id r);
  sv_relationship_keys : NoDup (map relationship_key (parts_relationships p));
  sv_nodes : ∀ key, is_Some (node_states (parts_narrative_state p) !! key)
                    ∨ is_Some (activation_turns (parts_narrative_state p) !! key) →
    is_Some (nodes (parts_narrative_definition p) !! key);
  sv_pending : ∀ id pending, pending_effects (parts_narrative_state p) !! id = Some pending →
    is_Some (nodes (parts_narrative_definition p) !! pe_source_node pending);
}.

Lemma check_relationships_ok roles rs seen seen' :
  try_fold (check_relationship roles) seen rs = Ok seen' →
  (∀ r, r ∈ rs → is_Some (roles !! rel_source_role_id r) ∧ is_Some (roles !! rel_target_role_id r))
  ∧ NoDup (map relationship_key rs) ∧ (∀ r, r ∈ rs → relationship_key r ∉ seen).
Proof.
  revert seen. induction rs as [|r rs IH]; intros seen H; simpl in *.
  - split; [by intros ? []%elem_of_nil|]. split; [constructor|by intros ? []%elem_of_nil].
  - unfold check_relationship in H at 1. repeat case_bool_decide; try done; simpl in H.
    apply IH in H as (Hroles & Hnd & Hseen).
    split; [|split].
    + intros r' [->|Hr']%elem_of_cons; [|by apply Hroles].
      split; apply not_eq_None_Some; naive_solver.
    + constructor; [|done]. intros (r' & Hk & Hr')%list_elem_of_fmap. apply (Hseen r' Hr'). rewrite <-Hk. set_solver.
    + intros r' [->|Hr']%elem_of_cons; [done|]. specialize (Hseen r' Hr'). set_solver.
Qed.

Lemma check_relationships_complete roles rs seen :
  (∀ r, r ∈ rs → is_Some (roles !! rel_source_role_id r) ∧ is_Some (roles !! rel_target_role_id r)) →
  NoDup (map relationship_key rs) → (∀ r, r ∈ rs → relationship_key r ∉ seen) →
  ∃ seen', try_fold (check_relationship roles) seen rs = Ok seen'.
Proof.
  revert seen. induction rs as [|r rs IH]; intros seen Hroles Hnd Hseen; simpl; [eauto|].
  inversion Hnd as [|? ? Hr Hnd']; subst. destruct (Hroles r) as [[v Hv] [w Hw]]; [set_solver|].
  unfold check_relationship at 1. rewrite Hv, Hw. rewrite !bool_decide_eq_false_2 by done. simpl.
  rewrite bool_decide_eq_false_2 by (apply Hseen; set_solver).
  apply IH; [set_solver|done|]. intros r' Hr'. apply not_elem_of_union. split; [|set_solver].
  intros Heq%elem_of_singleton. apply Hr. rewrite <-Heq. by apply (list_elem_of_fmap_2 relationship_key).
Qed.

(** The identifiers of the players, under the key check. *)
Definition player_ids (roles : gmap RoleId StoryRoleView) : list RoleId :=
  map view_role_id (List.filter view_is_player_controlled (values roles)).

Lemma player_ids_keys roles :
  (∀ id v, roles !! id = Some v → view_role_id v = id) →
  NoDup (player_ids roles)
  ∧ ∀ id, id ∈ player_ids roles ↔ ∃ v, roles !! id = Some v ∧ view_is_player_controlled v = true.
Proof.
  intros Hk.
  assert (player_ids roles = (List.filter (λ e, view_is_player_controlled e.2) (entries roles)).*1) as ->.
  { unfold player_ids, values. pose proof (λ k v, proj1 (elem_of_entries roles k v)) as He.
    induction (entries roles) as [|[k v] es IH]; [done|]. simpl.
    destruct (view_is_player_controlled v); simpl; [f_equal|]; [apply Hk, He; set_solver|..];
      apply IH; set_solver. }
  split.
  - pose proof (NoDup_keys roles) as Hnd. unfold keys in Hnd.
    induction (entries roles) as [|[k v] es IH]; [constructor|]. simpl in *. inversion Hnd as [|? ? Hn Hnd']; subst.
    destruct (view_is_player_controlled v); [|by apply IH]. simpl. constructor; [|by apply IH].
    intros ([k' v'] & Hkk & Hin)%list_elem_of_fmap. apply Hn. apply list_elem_of_fmap. exists (k', v').
    split; [done|]. apply list_elem_of_In, List.filter_In in Hin as [Hin _]. by apply list_elem_of_In.
  - intros id. rewrite list_elem_of_fmap. split.
    + intros ([k v] & -> & Hin). apply list_elem_of_In, List.filter_In in Hin as [Hin Hp].
      exists v. split; [|done]. by apply elem_of_entries, list_elem_of_In.
    + intros (v & Hv & Hp). exists (id, v). split; [done|]. apply list_elem_of_In, List.filter_In.
      split; [|done]. by apply list_elem_of_In, elem_of_entries.
Qed.

Lemma NoDup_singleton_iff {A} (l : list A) x : NoDup l → l = [x] ↔ ∀ y, y ∈ l ↔ y = x.
Proof.
  intros Hnd. split; [intros -> y; apply list_elem_of_singleton|]. intros H.
  destruct l as [|y [|z l]].
  - exfalso. apply (not_elem_of_nil x). by apply H.
  - f_equal. apply H. set_solver.
  - assert (y = x) as -> by (apply H; set_solver). assert (z = x) as -> by (apply H; set_solver).
    inversion Hnd as [|? ? Hn]; subst. exfalso. apply Hn. set_solver.
Qed.

Lemma existsb_unknown `{Countable K} {V W} (m : gmap K V) (f : W → K) (l : list W) :
  existsb (λ x, bool_decide (m !! f x = None)) l = false ↔ ∀ x, x ∈ l → is_Some (m !! f x).
Proof.
  rewrite <-not_true_iff_false, existsb_exists. split.
  - intros H' x Hx. apply not_eq_None_Some. intros Hn. apply H'. exists x.
    split; [by apply list_elem_of_In|]. by apply bool_decide_eq_true_2.
  - intros H' (x & Hx%list_elem_of_In & Hn%bool_decide_eq_true_1). destruct (H' x Hx). congruence.
Qed.

(** [StoryReadSnapshot::try_from_parts] accepts exactly the consistent parts: the
    knowledge reference names the story, pack and revision, roles are filed under
    their own identifiers, exactly one is the player's, relationships join known
    roles and are distinct, and the graph state refers to nodes of the graph.
    [player_role] of an accepted snapshot never panics, and is the only player. *)
Theorem snapshot_accepted p :
  match try_from_snapshot_parts p with
  | Ok s =>
      snapshot_valid p
      ∧ ∃ v, player_role s = Some v ∧ view_is_player_controlled v = true ∧ view_role_id v = snap_player_role_id s
        ∧ ∀ id v', snapshot_role s id = Some v' → view_is_player_controlled v' = true → id = snap_player_role_id s
  | Err _ => ¬ snapshot_valid p
  end.
Proof.
  unfold try_from_snapshot_parts. fold (player_ids (parts_roles p)).
  case_bool_decide as H1; simpl; [|by intros []]. case_bool_decide as H2; simpl; [|by intros []].
  case_bool_decide as H3; simpl; [|by intros []].
  match goal with |- context [try_for_each ?f ?l] => pose proof (try_for_each_ok f l) as Hk; destruct (try_for_each f l) as [[]|err] end.
  2: { intros Hv. discriminate (proj2 Hk). intros [k v] Hin%elem_of_entries. simpl.
       rewrite bool_decide_eq_true_2; [done|]. symmetry. by apply (sv_role_keys _ Hv). }
  assert (∀ id v, parts_roles p !! id = Some v → view_role_id v = id) as Hkeys.
  { intros id v Hv. specialize (proj1 Hk eq_refl (id, v)) as Hkv. simpl in Hkv. case_bool_decide; [done|].
    simpl in Hkv. discriminate Hkv. by apply elem_of_entries. }
  destruct (player_ids_keys _ Hkeys) as [Hnd Hids].
  destruct (player_ids (parts_roles p)) as [|pid [|? ?]] eqn:Hpl.
  1, 3: intros Hv; destruct (sv_player _ Hv) as (id & v & Hid & Hp & Hu).
  { apply (not_elem_of_nil id). apply Hids. eauto. }
  { assert (pid :: r :: l = [id]); [|done]. apply NoDup_singleton_iff; [done|].
    intros y. rewrite Hids. split; [intros (? & ? & ?); by eapply Hu|]. intros ->. eauto. }
  destruct (try_fold _ _ (parts_relationships p)) as [seen|err] eqn:Hrel; cycle 1.
  { intros Hv. destruct (check_relationships_complete (parts_roles p) (parts_relationships p) ∅) as [s Hs].
    - apply (sv_relationship_roles _ Hv).
    - apply (sv_relationship_keys _ Hv).
    - set_solver.
    - congruence. }
  apply check_relationships_ok in Hrel as (Hr1 & Hr2 & _).
  match goal with |- context [existsb ?f ?l] => destruct (existsb f l) eqn:He end; simpl.
  { intros Hv. apply not_false_iff_true in He. apply He.
    apply (existsb_unknown (nodes (parts_narrative_definition p)) (λ key, key)).
    intros k [Hin|Hin]%elem_of_app; apply (sv_nodes _ Hv); [left|right]; by apply elem_of_keys. }
  match goal with |- context [existsb ?f ?l] => destruct (existsb f l) eqn:Hp end; simpl.
  { intros Hv. apply not_false_iff_true in Hp. apply Hp. apply existsb_unknown.
    intros k (i & Hin)%elem_of_values. by apply (sv_pending _ Hv i). }
  pose proof (proj1 (existsb_unknown (nodes (parts_narrative_definition p)) (λ key, key) _) He) as He'.
  pose proof (proj1 (existsb_unknown (nodes (parts_narrative_definition p)) pe_source_node _) Hp) as Hp'.
  assert (∃ v, parts_roles p !! pid = Some v ∧ view_is_player_controlled v = true) as (v & Hpid & Hplayer).
  { apply Hids. set_solver. }
  split.
  - split; try done.
    + exists pid, v. split; [done|]. split; [done|]. intros id' v' Hv' Hpv.
      apply list_elem_of_singleton, Hids. eauto.
    + intros key [Hs|Hs]; apply He', elem_of_app; [left|right]; by apply elem_of_keys.
    + intros i pending Hi. apply Hp', elem_of_values. eauto.
  - exists v. cbn. split; [done|]. split; [done|]. split; [by apply Hkeys|].
    intros id' v' Hv' Hpv. apply list_elem_of_singleton, Hids. eauto.
Qed.
