(* ===== verification/AiseTurnData.v ===== *)
(** * What a turn carries, in the crate [aise]

    [domain/turn/planning.rs], [domain/turn/baseline.rs], [domain/turn/retrieval.rs],
    [domain/turn/character/] and [domain/knowledge/activation/state.rs] of
    [crates/aise/src/].  A retrieved context that is accepted stays within its
    limits, partition by partition and in all; merging two activation deltas is
    applying one after the other. *)

From S2P Require Import Prelude Text AiseIds AiseRule AiseNarrative AiseStory.

(** ** Plans *)

Inductive KnowledgeDelivery := Delivery_Writer | Delivery_Character (role_id : RoleId).
Inductive RetrievalRequestOrigin := Origin_Automatic | Origin_Narrative | Origin_Planner.
Record CharacterRetrievalRequest := {
  crr_role_id : RoleId; crr_reason : BoundedText; crr_origin : RetrievalRequestOrigin;
}.
Record KnowledgeRetrievalRequest := {
  krr_delivery : KnowledgeDelivery;
  krr_target_source_id : KnowledgeSourceId;
  krr_reason : BoundedText;
  krr_origin : RetrievalRequestOrigin;
  krr_mandatory : bool;
}.
Record RetrievalPlan := {
  character_requests : list CharacterRetrievalRequest;
  knowledge_requests : list KnowledgeRetrievalRequest;
}.
Record CharacterThinkRequest := { ctr_role_id : RoleId; ctr_reason : BoundedText }.
Record WriterStoryGoal := { goal_summary : BoundedText }.
Record WriterPlan := {
  story_goal : WriterStoryGoal;
  retrieval_plan : RetrievalPlan;
  character_think_requests : list CharacterThinkRequest;
}.
Record CharacterDecision := {
  cd_role_id : RoleId; cd_decision : BoundedText; cd_suggested_utterance : option BoundedText;
}.
Record StoryGeneratorOutput := { story_text : BoundedText }.

#[global] Instance KnowledgeDelivery_eq_dec : EqDecision KnowledgeDelivery. Proof. solve_decision. Defined.
#[global] Instance RetrievalRequestOrigin_eq_dec : EqDecision RetrievalRequestOrigin. Proof. solve_decision. Defined.

(** ** The baseline context *)

Record RoleContextView := {
  rcv_role_id : RoleId;
  rcv_role_label : BoundedText;
  rcv_narrative_function : BoundedText;
  rcv_background : option BoundedText;
  rcv_profile : CharacterProfile;
  rcv_state : StoryRoleState;
  rcv_controller : RoleController;
}.
Definition role_context_view (v : StoryRoleView) : RoleContextView := {|
  rcv_role_id := view_role_id v;
  rcv_role_label := view_role_label v;
  rcv_narrative_function := view_narrative_function v;
  rcv_background := view_background v;
  rcv_profile := view_effective_profile v;
  rcv_state := view_state v;
  rcv_controller := view_controller v;
|}.
Definition rcv_is_player_controlled (v : RoleContextView) : bool := controlled_by_player (rcv_controller v).

Record RoleIndexEntry := { rie_role_id : RoleId; rie_retrieval_hint : BoundedText }.
Record RelevantWorldKnowledgeItem := {
  rwk_source_id : KnowledgeSourceId; rwk_content : BoundedText; rwk_source_priority : N; rwk_salience : N;
}.
Record RelevantWorldKnowledge := {
  rwk_facts : list RelevantWorldKnowledgeItem; rwk_rumors : list RelevantWorldKnowledgeItem;
}.
Record KnowledgeIndexEntry := { kie_source_id : KnowledgeSourceId; kie_retrieval_hint : RetrievalHint }.
Record NarrativeGraphStateIndex := {
  ngi_pack_digest : Sha256Digest;
  ngi_graph_revision : N;
  ngi_node_states : gmap NarrativeNodeKey NarrativeNodeState;
}.
Record BaselineContext := {
  base_story_title : BoundedText;
  base_story_profile : StoryProfile;
  base_instance_settings : InstanceSettings;
  base_player_role : RoleContextView;
  relevant_roles : list RoleContextView;
  relevant_world_knowledge : RelevantWorldKnowledge;
  role_index : list RoleIndexEntry;
  knowledge_index : list KnowledgeIndexEntry;
  base_story_continuity : StoryContinuity;
  active_story_constraints : list ActiveStoryConstraint;
  narrative_graph_state_index : NarrativeGraphStateIndex;
}.

Definition requirement_statement (r : StoryConstraintRequirement) : BoundedText :=
  match r with Require statement | Forbid statement => statement end.

(** One [for] loop that saturates a total. *)
Definition add_tokens {A} (f : A → BoundedText) (total : N) (l : list A) : N :=
  foldl (λ total x, sat_add U64_MAX total (estimate_text_tokens (f x))) total l.

Definition baseline_estimate_tokens (b : BaselineContext) : N :=
  let total := continuity_estimate_tokens (base_story_continuity b) in
  let total := sat_add U64_MAX total (estimate_text_tokens (base_story_title b)) in
  let total := sat_add U64_MAX total (estimate_text_tokens (profile_name (rcv_profile (base_player_role b)))) in
  let total := add_tokens (λ r, profile_name (rcv_profile r)) total (relevant_roles b) in
  let total := add_tokens rwk_content total
    (rwk_facts (relevant_world_knowledge b) ++ rwk_rumors (relevant_world_knowledge b)) in
  let total := add_tokens rie_retrieval_hint total (role_index b) in
  let total := add_tokens (λ c, requirement_statement (asc_requirement c)) total (active_story_constraints b) in
  N.max total 1.

(** ** Activation states and their deltas *)

Inductive ActivationRunMode := Run_CommitEligible | Run_Preview.
Inductive ActivationSeedKind :=
| Seed_Constant | Seed_Sticky | Seed_TextMatch | Seed_PlannerExactTarget | Seed_Provider
| Seed_PreviewOverride | Seed_Recursion.
#[global] Instance ActivationSeedKind_eq_dec : EqDecision ActivationSeedKind. Proof. solve_decision. Defined.
Inductive ActivationStopReason :=
| Stop_Complete | Stop_MinimumSatisfied | Stop_MaximumDepthReached | Stop_RecursionExhausted | Stop_WorkTrimmed.

Record ActivationTimedState := {
  ts_source_id : KnowledgeSourceId;
  ts_rule_version : ActivationRuleVersion;
  sticky_through_turn : option TurnNumber;
  cooldown_through_turn : option TurnNumber;
}.
Record PendingActivationStateDelta := {
  delta_upserts : list ActivationTimedState;
  delta_deletes : gset KnowledgeSourceId;
}.
Definition PendingActivationStateDelta_default : PendingActivationStateDelta :=
  {| delta_upserts := []; delta_deletes := ∅ |}.

(** Collecting states into a map by source: a later one replaces an earlier one. *)
Definition insert_state (m : gmap KnowledgeSourceId ActivationTimedState) (s : ActivationTimedState) :
    gmap KnowledgeSourceId ActivationTimedState := <[ts_source_id s := s]> m.
Definition collect_states (l : list ActivationTimedState) : gmap KnowledgeSourceId ActivationTimedState :=
  foldl insert_state ∅ l.

Definition merge_delta (self newer : PendingActivationStateDelta) : PendingActivationStateDelta :=
  let upserts := collect_states (delta_upserts self) in
  let s := foldl (λ s source_id, (delete source_id s.1, {[source_id]} ∪ s.2))
             (upserts, delta_deletes self) (set_entries (delta_deletes newer)) in
  let s := foldl (λ s state, (insert_state s.1 state, s.2 ∖ {[ts_source_id state]})) s (delta_upserts newer) in
  {| delta_upserts := values s.1; delta_deletes := s.2 |}.

(** ** Retrieved knowledge *)

Record RetrievedKnowledgeItem := {
  rki_source_id : KnowledgeSourceId;
  rki_content : BoundedText;
  rki_source : KnowledgeSource;
  rki_activation_class : ActivationSeedKind;
  rki_rank : N;
  rki_salience : N;
  token_cost : N;
  rki_activation : option KnowledgeActivationRule;
  rki_activation_rule_version : option ActivationRuleVersion;
}.
Definition item_from_parts (source_id : KnowledgeSourceId) (content : BoundedText) (source : KnowledgeSource)
    (activation_class : ActivationSeedKind) (rank salience : N) : RetrievedKnowledgeItem := {|
  rki_source_id := source_id;
  rki_content := content;
  rki_source := source;
  rki_activation_class := activation_class;
  rki_rank := rank;
  rki_salience := salience;
  token_cost := estimate_text_tokens content;
  rki_activation := None;
  rki_activation_rule_version := None;
|}.
Definition with_activation (i : RetrievedKnowledgeItem) (activation : KnowledgeActivationRule)
    (version : ActivationRuleVersion) : RetrievedKnowledgeItem := {|
  rki_source_id := rki_source_id i;
  rki_content := rki_content i;
  rki_source := rki_source i;
  rki_activation_class := rki_activation_class i;
  rki_rank := rki_rank i;
  rki_salience := rki_salience i;
  token_cost := token_cost i;
  rki_activation := Some activation;
  rki_activation_rule_version := Some version;
|}.

Record RetrievedWorldKnowledge := {
  ret_facts : list RetrievedKnowledgeItem; ret_rumors : list RetrievedKnowledgeItem;
}.
Record RetrievedCharacterContext := {
  ret_role : option RoleContextView;
  known_rumors : list RetrievedKnowledgeItem;
  ret_memories : list RetrievedKnowledgeItem;
}.
Record RetrievedContext := {
  ret_world : RetrievedWorldKnowledge;
  ret_characters : gmap RoleId RetrievedCharacterContext;
}.
Definition RetrievedContext_default : RetrievedContext :=
  {| ret_world := {| ret_facts := []; ret_rumors := [] |}; ret_characters := ∅ |}.

Record RetrievedContextLimits := {
  max_role_audiences : N;
  max_items_per_audience : N;
  max_tokens_per_audience : N;
  max_total_items : N;
  max_total_tokens : N;
  max_item_bytes : N;
}.

Inductive RetrievedContextError :=
| Retrieved_InvalidKind | Retrieved_InvalidMemoryOwner | Retrieved_InvalidRole | Retrieved_ConflictingDuplicate
| Retrieved_CountLimit (limit : string)
| Retrieved_ItemByteLimit | Retrieved_AudienceTokenLimit | Retrieved_TotalTokenLimit
| Retrieved_ArithmeticOverflow.

Definition turn_code (e : RetrievedContextError) : string :=
  match e with
  | Retrieved_InvalidKind | Retrieved_InvalidMemoryOwner | Retrieved_InvalidRole
  | Retrieved_ConflictingDuplicate => "retrieval_partition_invalid"
  | Retrieved_CountLimit _ | Retrieved_ItemByteLimit | Retrieved_AudienceTokenLimit
  | Retrieved_TotalTokenLimit | Retrieved_ArithmeticOverflow => "retrieval_context_limit"
  end.

Definition validate_kind_only (items : list RetrievedKnowledgeItem) (kind : KnowledgeKind) :
    result RetrievedContextError unit :=
  let? _ := try_fold (λ (seen : gset KnowledgeSourceId) item,
    fail_if negb (bool_decide (sid_kind (rki_source_id item) = kind)) with Retrieved_InvalidKind in
    fail_if bool_decide (rki_source_id item ∈ seen) with Retrieved_ConflictingDuplicate in
    Ok ({[rki_source_id item]} ∪ seen)) ∅ items in
  Ok tt.

Definition validate_partition_bounds (limits : RetrievedContextLimits) (items : list RetrievedKnowledgeItem) :
    result RetrievedContextError unit :=
  fail_if (max_items_per_audience limits <? nlen items)%N
  with Retrieved_CountLimit "max_items_per_audience" in
  let? tokens := try_fold (λ tokens item,
    fail_if (max_item_bytes limits <? slen (rki_content item))%N with Retrieved_ItemByteLimit in
    fail_if negb (token_cost item =? estimate_text_tokens (rki_content item))%N with Retrieved_InvalidKind in
    ok_or (checked_add U64_MAX tokens (token_cost item)) Retrieved_ArithmeticOverflow) 0%N items in
  fail_if (max_tokens_per_audience limits <? tokens)%N with Retrieved_AudienceTokenLimit in
  Ok tt.

Definition checked_add_tokens (base : N) (items : list RetrievedKnowledgeItem) : result RetrievedContextError N :=
  try_fold (λ total item, ok_or (checked_add U64_MAX total (token_cost item)) Retrieved_ArithmeticOverflow)
    base items.

Definition sum_tokens (items : list RetrievedKnowledgeItem) : N :=
  foldl (λ total item, sat_add U64_MAX total (token_cost item)) 0%N items.

Definition checked_add_usize (x y : N) : result RetrievedContextError N :=
  ok_or (checked_add USIZE_MAX x y) Retrieved_ArithmeticOverflow.

Definition validate_character (limits : RetrievedContextLimits) (e : RoleId * RetrievedCharacterContext) :
    result RetrievedContextError unit :=
  let '(role_id, character) := e in
  let? _ := match ret_role character with
            | Some role => fail_if negb (bool_decide (rcv_role_id role = role_id)) with Retrieved_InvalidRole in Ok tt
            | None => Ok tt
            end in
  let? _ := validate_kind_only (known_rumors character) Kind_Rumor in
  let? _ := validate_kind_only (ret_memories character) Kind_Memory in
  let? _ := validate_partition_bounds limits (known_rumors character) in
  validate_partition_bounds limits (ret_memories character).

Definition RetrievedContext_try_new (world : RetrievedWorldKnowledge)
    (characters : gmap RoleId RetrievedCharacterContext) (limits : RetrievedContextLimits) :
    result RetrievedContextError RetrievedContext :=
  fail_if (max_role_audiences limits <? map_len characters)%N with Retrieved_CountLimit "max_role_audiences" in
  let? _ := validate_kind_only (ret_facts world) Kind_Fact in
  let? _ := validate_kind_only (ret_rumors world) Kind_Rumor in
  let? _ := validate_partition_bounds limits (ret_facts world) in
  let? _ := validate_partition_bounds limits (ret_rumors world) in
  let? _ := try_for_each (validate_character limits) (entries characters) in
  let? character_items := try_fold (λ total character,
    let? total := checked_add_usize total (nlen (known_rumors character)) in
    checked_add_usize total (nlen (ret_memories character))) 0%N (values characters) in
  let? total_items := checked_add_usize (nlen (ret_facts world)) (nlen (ret_rumors world)) in
  let? total_items := checked_add_usize total_items character_items in
  fail_if (max_total_items limits <? total_items)%N with Retrieved_CountLimit "max_total_items" in
  let? total_tokens := checked_add_tokens 0 (ret_facts world) in
  let? total_tokens := checked_add_tokens total_tokens (ret_rumors world) in
  let? total_tokens := try_fold (λ total character,
    let? total := checked_add_tokens total (known_rumors character) in
    checked_add_tokens total (ret_memories character)) total_tokens (values characters) in
  fail_if (max_total_tokens limits <? total_tokens)%N with Retrieved_TotalTokenLimit in
  Ok {| ret_world := world; ret_characters := characters |}.

(** [sum()] wraps in a release build and panics in a debug one; the sum is below
    the width for a context that was accepted ([retrieved_within_limits]). *)
Definition retrieved_total_items (c : RetrievedContext) : N :=
  let character_items := foldl (λ total character,
    (total + sat_add USIZE_MAX (nlen (known_rumors character)) (nlen (ret_memories character))) mod 18446744073709551616)%N
    0%N (values (ret_characters c)) in
  sat_add USIZE_MAX (sat_add USIZE_MAX (nlen (ret_facts (ret_world c))) (nlen (ret_rumors (ret_world c))))
    character_items.

Definition retrieved_total_tokens (c : RetrievedContext) : N :=
  foldl (λ total character,
      sat_add U64_MAX (sat_add U64_MAX total (sum_tokens (known_rumors character)))
        (sum_tokens (ret_memories character)))
    (sat_add U64_MAX (sum_tokens (ret_facts (ret_world c))) (sum_tokens (ret_rumors (ret_world c))))
    (values (ret_characters c)).

(** ** Merging deltas composes them *)

(** What committing a delta does to the stored states: deletions, then upserts. *)
Definition apply_delta (d : PendingActivationStateDelta) (m : gmap KnowledgeSourceId ActivationTimedState) :
    gmap KnowledgeSourceId ActivationTimedState :=
  foldl insert_state (foldl (λ m source_id, delete source_id m) m (set_entries (delta_deletes d))) (delta_upserts d).

Lemma foldl_insert_state l m : foldl insert_state m l = collect_states l ∪ m.
Proof.
  revert m. induction l as [|s l IH] using rev_ind; intros m;
    [unfold collect_states; simpl; by rewrite (left_id_L ∅ (∪))|].
  unfold collect_states. rewrite !foldl_app. simpl. rewrite IH. unfold insert_state. fold (collect_states l).
  by rewrite insert_union_l.
Qed.

Lemma foldl_delete {V} (l : list KnowledgeSourceId) (m : gmap KnowledgeSourceId V) k :
  foldl (λ m source_id, delete source_id m) m l !! k = if decide (k ∈ l) then None else m !! k.
Proof.
  induction l as [|x l IH] using rev_ind; [by rewrite decide_False by apply not_elem_of_nil|].
  rewrite foldl_app. simpl. destruct (decide (k = x)) as [->|Hne].
  - rewrite lookup_delete_eq, decide_True; [done|]. set_solver.
  - rewrite lookup_delete_ne by done. rewrite IH. repeat case_decide; set_solver.
Qed.

Lemma foldl_delete_set {V} (D : gset KnowledgeSourceId) (m : gmap KnowledgeSourceId V) k :
  foldl (λ m source_id, delete source_id m) m (set_entries D) !! k = if decide (k ∈ D) then None else m !! k.
Proof. rewrite foldl_delete. pose proof (elem_of_set_entries D k). repeat case_decide; naive_solver. Qed.

Lemma collect_states_keyed l k s : collect_states l !! k = Some s → ts_source_id s = k.
Proof.
  unfold collect_states. induction l as [|s' l IH] using rev_ind; [done|].
  rewrite foldl_app. simpl. unfold insert_state. intros [[<- <-]|[_ ?]]%lookup_insert_Some; auto.
Qed.

Lemma collect_states_values (m : gmap KnowledgeSourceId ActivationTimedState) :
  (∀ k s, m !! k = Some s → ts_source_id s = k) → collect_states (values m) = m.
Proof.
  intros Hm.
  assert (∀ es m0, (∀ k s, (k, s) ∈ es → ts_source_id s = k) →
    foldl insert_state m0 (es.*2) = foldl (λ m e, <[e.1 := e.2]> m) m0 es) as Hes.
  { induction es as [|[k s] es IH]; intros m0 H; [done|]. simpl. rewrite IH by set_solver.
    unfold insert_state. by rewrite (H k s) by set_solver. }
  unfold collect_states, values. rewrite Hes by (intros k s Hin; apply Hm; by apply elem_of_entries).
  apply map_eq. intros k.
  assert (∀ l m0, NoDup l.*1 →
    foldl (λ m e, <[e.1 := e.2]> m) m0 l !! k = (list_to_map l ∪ m0 : gmap KnowledgeSourceId ActivationTimedState) !! k) as Hl.
  { induction l as [|[k' s'] l IH]; intros m0 Hnd; simpl.
    - by rewrite (left_id_L ∅ (∪)).
    - inversion Hnd as [|? ? Hn Hnd']; subst. rewrite IH by done. simpl. f_equal.
      rewrite <-insert_union_l. rewrite insert_union_r; [done|]. by apply not_elem_of_list_to_map_1. }
  rewrite Hl by apply NoDup_keys. rewrite (right_id_L ∅ (∪)). unfold entries.
  rewrite (list_to_map_proper _ (map_to_list m)); [by rewrite list_to_map_to_list| |].
  - apply (NoDup_keys m).
  - apply sort_by_perm.
Qed.

Lemma foldl_pair {A B C} (f : A → C → A) (g : B → C → B) a b l :
  foldl (λ s x, (f s.1 x, g s.2 x)) (a, b) l = (foldl f a l, foldl g b l).
Proof. revert a b. induction l as [|x l IH]; intros a b; simpl; [done|]. by rewrite IH. Qed.

Lemma foldl_union_set (l : list KnowledgeSourceId) (s : gset KnowledgeSourceId) k :
  k ∈ foldl (λ s x, {[x]} ∪ s) s l ↔ k ∈ s ∨ k ∈ l.
Proof. revert s. induction l as [|x l IH]; intros s; simpl; [set_solver|]. rewrite IH. set_solver. Qed.

Lemma foldl_remove_states (l : list ActivationTimedState) (s : gset KnowledgeSourceId) k :
  k ∈ foldl (λ s state, s ∖ {[ts_source_id state]}) s l ↔ k ∈ s ∧ collect_states l !! k = None.
Proof.
  unfold collect_states. induction l as [|x l IH] using rev_ind; [simpl; rewrite lookup_empty; naive_solver|].
  rewrite !foldl_app. simpl. rewrite elem_of_difference, IH, elem_of_singleton. unfold insert_state.
  rewrite lookup_insert_None. naive_solver.
Qed.

(** [PendingActivationStateDelta::merge] composes: committing the merged delta has
    on any stored state the effect of committing the older one and then the newer. *)
Theorem merge_delta_compose older newer stored :
  apply_delta (merge_delta older newer) stored = apply_delta newer (apply_delta older stored).
Proof.
  unfold apply_delta, merge_delta.
  rewrite (foldl_pair (λ (m : gmap KnowledgeSourceId ActivationTimedState) x, delete x m)
             (λ (s : gset KnowledgeSourceId) x, {[x]} ∪ s)).
  rewrite (foldl_pair (A:=gmap KnowledgeSourceId ActivationTimedState) insert_state
             (λ s state, s ∖ {[ts_source_id state]})).
  cbn [delta_upserts delta_deletes fst snd]. rewrite !foldl_insert_state.
  assert (∀ l (m : gmap KnowledgeSourceId ActivationTimedState),
    (∀ k s, m !! k = Some s → ts_source_id s = k) → ∀ k s,
    foldl (λ m source_id, delete source_id m) m l !! k = Some s → ts_source_id s = k) as Hdel.
  { intros l m Hm k s. rewrite foldl_delete. case_decide; [done|]. apply Hm. }
  rewrite collect_states_values.
  2: { intros k s [Hs|[_ Hs]]%lookup_union_Some_raw; [by eapply collect_states_keyed|].
       eapply Hdel; [|done]. apply collect_states_keyed. }
  apply map_eq. intros k. rewrite !lookup_union, !foldl_delete_set, !lookup_union, !foldl_delete_set.
  destruct (collect_states (delta_upserts newer) !! k) as [s|] eqn:Hn.
  { assert (∀ o : option ActivationTimedState, Some s ∪ o = Some s) as Hl by (by intros []). by rewrite !Hl. }
  rewrite !(left_id_L None _). destruct (decide (k ∈ delta_deletes newer)) as [Hd|Hd].
  - rewrite (left_id_L None _). rewrite decide_True; [done|]. apply foldl_remove_states.
    split; [|done]. apply foldl_union_set. right. by apply elem_of_set_entries.
  - f_equal. destruct (decide (k ∈ delta_deletes older)) as [Ho|Ho].
    + rewrite decide_True; [done|]. apply foldl_remove_states. split; [|done]. apply foldl_union_set. by left.
    + rewrite decide_False; [done|]. intros [[?|?%elem_of_set_entries]%foldl_union_set _]%foldl_remove_states; done.
Qed.

(** ** A retrieved context within its limits *)

Definition total_by {A} (f : A → N) (l : list A) : N := foldr (λ x s, f x + s)%N 0%N l.

Lemma total_by_app {A} (f : A → N) l1 l2 : total_by f (l1 ++ l2) = (total_by f l1 + total_by f l2)%N.
Proof. induction l1 as [|x l1 IH]; simpl; [done|]. rewrite IH. lia. Qed.
Lemma total_by_snoc {A} (f : A → N) l x : total_by f (l ++ [x]) = (total_by f l + f x)%N.
Proof. rewrite total_by_app. simpl. lia. Qed.
Lemma total_by_ext {A} (f g : A → N) l : (∀ x, x ∈ l → f x = g x) → total_by f l = total_by g l.
Proof. induction l as [|x l IH]; intros H; simpl; [done|]. rewrite (H x) by set_solver. rewrite IH; set_solver. Qed.

(** A saturating sum is the sum when that fits. *)
Lemma sat_sum_exact {A} max (f : A → N) l acc :
  (acc + total_by f l <= max)%N → foldl (λ acc x, sat_add max acc (f x)) acc l = (acc + total_by f l)%N.
Proof.
  revert acc. induction l as [|x l IH]; intros acc H; simpl in *; [lia|].
  unfold sat_add at 2. rewrite clamp_small by lia. rewrite IH by lia. lia.
Qed.

(** The partitions of a context, each with the kind of its items. *)
Definition character_partitions (c : RetrievedCharacterContext) : list (KnowledgeKind * list RetrievedKnowledgeItem) :=
  [(Kind_Rumor, known_rumors c); (Kind_Memory, ret_memories c)].
Definition partitions (r : RetrievedContext) : list (KnowledgeKind * list RetrievedKnowledgeItem) :=
  [(Kind_Fact, ret_facts (ret_world r)); (Kind_Rumor, ret_rumors (ret_world r))]
  ++ concat (map character_partitions (values (ret_characters r))).

Record partition_ok (limits : RetrievedContextLimits) (p : KnowledgeKind * list RetrievedKnowledgeItem) : Prop := {
  po_kind : ∀ i, i ∈ p.2 → sid_kind (rki_source_id i) = p.1;
  po_distinct : NoDup (map rki_source_id p.2);
  po_count : (nlen p.2 <= max_items_per_audience limits)%N;
  po_bytes : ∀ i, i ∈ p.2 → (slen (rki_content i) <= max_item_bytes limits)%N;
  po_cost : ∀ i, i ∈ p.2 → token_cost i = estimate_text_tokens (rki_content i);
  po_tokens : (total_by token_cost p.2 <= max_tokens_per_audience limits)%N;
}.

Lemma validate_kind_only_ok items kind :
  validate_kind_only items kind = Ok tt →
  (∀ i, i ∈ items → sid_kind (rki_source_id i) = kind) ∧ NoDup (map rki_source_id items).
Proof.
  unfold validate_kind_only. intros H. res_inv. rename Heqr into H.
  assert (∀ seen, try_fold (λ (seen : gset KnowledgeSourceId) item,
      fail_if negb (bool_decide (sid_kind (rki_source_id item) = kind)) with Retrieved_InvalidKind in
      fail_if bool_decide (rki_source_id item ∈ seen) with Retrieved_ConflictingDuplicate in
      Ok ({[rki_source_id item]} ∪ seen)) seen items = Ok value →
    (∀ i, i ∈ items → sid_kind (rki_source_id i) = kind ∧ rki_source_id i ∉ seen)
    ∧ NoDup (map rki_source_id items)) as Hgo.
  { clear H. induction items as [|x items IH]; intros seen H; simpl in *.
    - split; [by intros ? []%elem_of_nil|constructor].
    - repeat case_bool_decide; try done; simpl in H. apply IH in H as [Hi Hnd]. split.
      + intros i [->|Hin]%elem_of_cons; [done|]. destruct (Hi i Hin). set_solver.
      + constructor; [|done]. intros (y & Hy & Hin)%list_elem_of_fmap. destruct (Hi y Hin) as [_ Hn].
        apply Hn. rewrite <-Hy. set_solver. }
  destruct (Hgo _ H) as [Hi Hnd]. split; [|done]. intros i Hin. by apply Hi.
Qed.

Lemma validate_partition_bounds_ok limits items :
  validate_partition_bounds limits items = Ok tt →
  (nlen items <= max_items_per_audience limits)%N
  ∧ (∀ i, i ∈ items → (slen (rki_content i) <= max_item_bytes limits)%N
                      ∧ token_cost i = estimate_text_tokens (rki_content i))
  ∧ (total_by token_cost items <= max_tokens_per_audience limits)%N.
Proof.
  unfold validate_partition_bounds. intros H. destruct (N.ltb_spec (max_items_per_audience limits) (nlen items)); [done|].
  res_inv. apply N.ltb_ge in Heqb. split; [done|].
  assert (∀ acc, try_fold (λ tokens item,
      fail_if (max_item_bytes limits <? slen (rki_content item))%N with Retrieved_ItemByteLimit in
      fail_if negb (token_cost item =? estimate_text_tokens (rki_content item))%N with Retrieved_InvalidKind in
      ok_or (checked_add U64_MAX tokens (token_cost item)) Retrieved_ArithmeticOverflow) acc items = Ok value →
    (∀ i, i ∈ items → (slen (rki_content i) <= max_item_bytes limits)%N
                      ∧ token_cost i = estimate_text_tokens (rki_content i))
    ∧ value = (acc + total_by token_cost items)%N) as Hgo.
  { clear. induction items as [|x items IH]; intros acc H; simpl in *.
    - split; [by intros ? []%elem_of_nil|]. injection H as ->. lia.
    - destruct (N.ltb_spec (max_item_bytes limits) (slen (rki_content x))); [done|].
      destruct (N.eqb_spec (token_cost x) (estimate_text_tokens (rki_content x))); simpl in H; [|done].
      unfold checked_add in H. destruct (acc + token_cost x <=? U64_MAX)%N; simpl in H; [|done].
      apply IH in H as [Hi ->]. split; [|lia]. intros i [->|Hin]%elem_of_cons; auto. }
  destruct (Hgo _ Heqr) as [Hi ->]. split; [done|]. lia.
Qed.

Lemma partition_ok_intro limits kind items :
  validate_kind_only items kind = Ok tt → validate_partition_bounds limits items = Ok tt →
  partition_ok limits (kind, items).
Proof.
  intros [Hk Hd]%validate_kind_only_ok (Hc & Hb & Ht)%validate_partition_bounds_ok.
  split; simpl; try done; intros i Hi; by apply Hb.
Qed.

Definition character_total (f : list RetrievedKnowledgeItem → N) (c : RetrievedCharacterContext) : N :=
  (f (known_rumors c) + f (ret_memories c))%N.

Lemma total_by_partitions f (cs : list RetrievedCharacterContext) :
  total_by (λ p, f p.2) (concat (map character_partitions cs)) = total_by (character_total f) cs.
Proof.
  induction cs as [|c cs IH]; [done|]. simpl in *. rewrite IH. unfold character_total. lia.
Qed.

Lemma total_partitions f r :
  total_by (λ p, f p.2) (partitions r) =
    (f (ret_facts (ret_world r)) + f (ret_rumors (ret_world r))
     + total_by (character_total f) (values (ret_characters r)))%N.
Proof. unfold partitions. rewrite total_by_app, total_by_partitions. simpl. lia. Qed.

Lemma checked_add_usize_ok x y z : checked_add_usize x y = Ok z → z = (x + y)%N ∧ (x + y <= USIZE_MAX)%N.
Proof. unfold checked_add_usize, checked_add. destruct (N.leb_spec (x + y) USIZE_MAX); simpl; [|done]. by intros [= <-]. Qed.

Lemma character_items_ok cs acc total :
  try_fold (λ total character,
    let? total := checked_add_usize total (nlen (known_rumors character)) in
    checked_add_usize total (nlen (ret_memories character))) acc cs = Ok total →
  total = (acc + total_by (character_total nlen) cs)%N.
Proof.
  revert acc. induction cs as [|c cs IH]; intros acc H; simpl in *; [injection H; lia|].
  destruct (checked_add_usize acc _) as [v|] eqn:H1; [|done]. apply checked_add_usize_ok in H1 as [-> _].
  destruct (checked_add_usize _ (nlen (ret_memories c))) as [v|] eqn:H2; [|done].
  apply checked_add_usize_ok in H2 as [-> _]. apply IH in H as ->. unfold character_total. lia.
Qed.

Lemma checked_add_tokens_ok acc items total :
  (acc <= U64_MAX)%N → checked_add_tokens acc items = Ok total →
  total = (acc + total_by token_cost items)%N ∧ (total <= U64_MAX)%N.
Proof. intros Hacc [-> H]%checked_sum. fold (total_by token_cost items) in *. destruct H as [->|?]; simpl; lia. Qed.

Lemma character_tokens_ok cs acc total :
  (acc <= U64_MAX)%N →
  try_fold (λ total character,
    let? total := checked_add_tokens total (known_rumors character) in
    checked_add_tokens total (ret_memories character)) acc cs = Ok total →
  total = (acc + total_by (character_total (total_by token_cost)) cs)%N ∧ (total <= U64_MAX)%N.
Proof.
  revert acc. induction cs as [|c cs IH]; intros acc Hacc H; simpl in *; [injection H as <-; lia|].
  destruct (checked_add_tokens acc _) as [v|] eqn:H1; [|done]. apply checked_add_tokens_ok in H1 as [-> H1]; [|done].
  destruct (checked_add_tokens _ (ret_memories c)) as [v|] eqn:H2; [|done].
  apply checked_add_tokens_ok in H2 as [-> H2]; [|done]. apply IH in H as [-> H]; [|done].
  split; [|done]. unfold character_total. lia.
Qed.

Lemma sat_add_small max x y : (x + y <= max)%N → sat_add max x y = (x + y)%N.
Proof. apply clamp_small. Qed.

Lemma total_items_exact (cs : list RetrievedCharacterContext) acc :
  (acc + total_by (character_total nlen) cs <= USIZE_MAX)%N →
  foldl (λ total character,
    (total + sat_add USIZE_MAX (nlen (known_rumors character)) (nlen (ret_memories character)))
      mod 18446744073709551616)%N acc cs = (acc + total_by (character_total nlen) cs)%N.
Proof.
  revert acc. induction cs as [|c cs IH]; intros acc H; simpl in *; [lia|].
  pose proof (eq_refl (character_total nlen c)) as Hc. unfold character_total at 1 in Hc.
  rewrite sat_add_small by lia. rewrite N.mod_small by (unfold USIZE_MAX, U64_MAX in H; lia).
  rewrite IH by lia. lia.
Qed.

Lemma sum_tokens_exact items : (total_by token_cost items <= U64_MAX)%N → sum_tokens items = total_by token_cost items.
Proof. intros H. unfold sum_tokens. by rewrite (sat_sum_exact U64_MAX token_cost) by lia. Qed.

Lemma total_tokens_exact (cs : list RetrievedCharacterContext) acc :
  (acc + total_by (character_total (total_by token_cost)) cs <= U64_MAX)%N →
  foldl (λ total character,
      sat_add U64_MAX (sat_add U64_MAX total (sum_tokens (known_rumors character)))
        (sum_tokens (ret_memories character))) acc cs =
    (acc + total_by (character_total (total_by token_cost)) cs)%N.
Proof.
  revert acc. induction cs as [|c cs IH]; intros acc H; simpl in *; [lia|].
  pose proof (eq_refl (character_total (total_by token_cost) c)) as Hc. unfold character_total at 1 in Hc.
  rewrite !sum_tokens_exact by lia. rewrite (sat_add_small _ acc) by lia. rewrite sat_add_small by lia.
  rewrite IH by lia. lia.
Qed.

(** A context that [RetrievedContext::try_new] accepts keeps every limit: each
    partition holds distinct items of its kind, within the limits of an audience,
    at the token cost of their text; the totals the context reports are exact,
    neither saturated nor wrapped, and within the limits of the turn. *)
Theorem retrieved_within_limits world characters limits r :
  RetrievedContext_try_new world characters limits = Ok r →
  r = {| ret_world := world; ret_characters := characters |}
  ∧ (∀ p, p ∈ partitions r → partition_ok limits p)
  ∧ (∀ id c role, characters !! id = Some c → ret_role c = Some role → rcv_role_id role = id)
  ∧ (map_len characters <= max_role_audiences limits)%N
  ∧ retrieved_total_items r = total_by (λ p, nlen p.2) (partitions r)
  ∧ (retrieved_total_items r <= max_total_items limits)%N
  ∧ retrieved_total_tokens r = total_by (λ p, total_by token_cost p.2) (partitions r)
  ∧ (retrieved_total_tokens r <= max_total_tokens limits)%N.
Proof.
  unfold RetrievedContext_try_new. intros H. repeat (res_step; try done). subst r.
  repeat match goal with v : unit |- _ => destruct v end.
  repeat match goal with H : (_ <? _)%N = false |- _ => apply N.ltb_ge in H end.
  repeat match goal with H : checked_add_usize _ _ = Ok _ |- _ => apply checked_add_usize_ok in H as [? ?] end.
  match goal with H : try_fold _ 0%N _ = Ok _ |- _ => apply character_items_ok in H end.
  match goal with H : checked_add_tokens 0 _ = Ok _ |- _ => apply checked_add_tokens_ok in H as [? ?]; [|done] end.
  match goal with H : checked_add_tokens _ _ = Ok _ |- _ => apply checked_add_tokens_ok in H as [? ?]; [|done] end.
  match goal with H : try_fold _ _ (values _) = Ok _ |- _ => apply character_tokens_ok in H as [? ?]; [|done] end.
  subst. rewrite !N.add_0_l in *.
  assert (∀ id c, characters !! id = Some c → validate_character limits (id, c) = Ok tt) as Hc.
  { intros id c Hid. match goal with H : try_for_each _ _ = Ok tt |- _ => by apply (proj1 (try_for_each_ok _ _) H), elem_of_entries end. }
  split; [done|]. split; [|split].
  - intros p [Hp|Hp]%elem_of_app.
    + apply elem_of_cons in Hp as [->|Hp%list_elem_of_singleton]; [|rewrite Hp]; by apply partition_ok_intro.
    + apply elem_of_concat in Hp as (ps & Hp & Hps).
      apply list_elem_of_fmap in Hps as (c & -> & Hid). apply elem_of_values in Hid as [id Hid].
      specialize (Hc id c Hid). unfold validate_character in Hc. repeat (res_step; try done).
      repeat match goal with v : unit |- _ => destruct v end.
      apply elem_of_cons in Hp as [->|Hp%list_elem_of_singleton]; [|rewrite Hp]; by apply partition_ok_intro.
  - intros id c role Hid Hrole. specialize (Hc id c Hid). unfold validate_character in Hc. rewrite Hrole in Hc.
    by case_bool_decide.
  - rewrite (total_partitions nlen), (total_partitions (total_by token_cost)).
    split; [done|]. unfold retrieved_total_items, retrieved_total_tokens. cbn [ret_world ret_characters].
    rewrite total_items_exact by lia. rewrite (sat_add_small _ (nlen (ret_facts world))) by lia.
    rewrite sat_add_small by lia. rewrite !sum_tokens_exact by lia. rewrite sat_add_small by lia.
    rewrite total_tokens_exact by lia. lia.
Qed.

(** A concrete context: one fact, and one rumour known to one character. *)
Definition demo_item (s : KnowledgeSourceId) (content : BoundedText) : RetrievedKnowledgeItem :=
  item_from_parts s content (Source_CommittedTurn 1%N) Seed_TextMatch 0 128.
Definition demo_world : RetrievedWorldKnowledge :=
  {| ret_facts := [demo_item (Sid_Fact "fact_0001") "the gate is shut"]; ret_rumors := [] |}.
Definition demo_characters : gmap RoleId RetrievedCharacterContext :=
  {[ "guard" := {| ret_role := None; known_rumors := [demo_item (Sid_Rumor "rumor_0002") "it opens at dawn"];
                   ret_memories := [] |} ]}.
Definition demo_retrieval_limits : RetrievedContextLimits :=
  {| max_role_audiences := 2; max_items_per_audience := 4; max_tokens_per_audience := 40; max_total_items := 8;
     max_total_tokens := 100; max_item_bytes := 64 |}.

Lemma retrieved_within_limits_witness :
  ∃ r, RetrievedContext_try_new demo_world demo_characters demo_retrieval_limits = Ok r
    ∧ retrieved_total_items r = 2%N ∧ (retrieved_total_tokens r <= 100)%N.
Proof.
  exists {| ret_world := demo_world; ret_characters := demo_characters |}.
  assert (RetrievedContext_try_new demo_world demo_characters demo_retrieval_limits
    = Ok {| ret_world := demo_world; ret_characters := demo_characters |}) as H by (by vm_compute).
  split; [exact H|].
  destruct (retrieved_within_limits _ _ _ _ H) as (_ & _ & _ & _ & Hi & _ & _ & Ht).
  split; [rewrite Hi; by vm_compute|exact Ht].
Defined.
