(* ===== verification/AiseExtraction.v ===== *)
(** * Extracted state of the crate [aise]

    [domain/turn/extraction.rs] and [domain/turn/proposal.rs] of
    [crates/aise/src/], with the mutation types of [turn/turn_validation.rs]:
    what the model says happened in a story text, and its enrichment into
    knowledge operations.  The JSON schema given to the model is not modelled.

    Every operation that comes out is good on its own (its target was retrieved, its rule
    is valid, its roles are known); additions are numbered after the high water mark of
    the snapshot, in order; updates and deletions concern knowledge that was retrieved;
    and an allocation only fails when the identifiers run out. *)

From S2P Require Import Prelude Text AiseIds AiseRule AiseNarrative AiseStory AiseTurnData.

Definition DEFAULT_RUNTIME_KNOWLEDGE_SALIENCE : N := 128.

Inductive DeletableKnowledgeId := Deletable_Rumor (id : RumorId) | Deletable_Memory (id : MemoryId).

Record StoryStateExtractionLimits := {
  max_new_roles : N;
  max_role_states : N;
  max_relationship_states : N;
  max_knowledge_items : N;
  max_goals_per_role : N;
  max_attributes_per_role : N;
  sel_max_item_bytes : N;
  max_role_profile_bytes : N;
  sel_max_knowledge_change_bytes : N;
  max_cast_policy_violations : N;
  sel_max_condition_queries : N;
  sel_max_condition_evidence_bytes : N;
  sel_max_condition_reason_bytes : N;
  max_activation_terms : N;
  max_activation_pattern_bytes : N;
}.

(** ** The answer of the model *)

Record NewRoleDto := {
  nr_role_id : string; nr_name : string; nr_role_label : string; nr_narrative_function : string;
  nr_background : string; nr_appearance : string; nr_personality : string; nr_speaking_style : string;
  nr_location : string; nr_goals : list string; nr_attributes : gmap string ScalarValue;
}.
Record RoleStateDto := {
  rs_role_id : string; rs_location : string; rs_goals : list string; rs_attributes : gmap string ScalarValue;
}.
Record RelationshipStateDto := {
  rsd_source_role_id : string; rsd_target_role_id : string; rsd_kind : string; rsd_trust : Z;
}.
Record FactDraftDto := {
  fd_content : string; fd_retrieval_hint : string; fd_activation_terms : list string; fd_exact_target_only : bool;
}.
Record FactUpdateDto := {
  fu_id : string; fu_content : string; fu_retrieval_hint : string; fu_activation_terms : option (list string);
}.
Record RumorDraftDto := {
  rd_content : string; rd_retrieval_hint : string; rd_activation_terms : list string; rd_exact_target_only : bool;
  rd_source_role_id : string; rd_truth_value : TruthValue;
}.
Record RumorUpdateDto := {
  ru_id : string; ru_content : string; ru_retrieval_hint : string; ru_activation_terms : option (list string);
  ru_source_role_id : string; ru_truth_value : TruthValue;
}.
Record MemoryDraftDto := { md_owner_role_id : string; md_memory_kind : string; md_content : string }.
Record MemoryUpdateDto := { mu_id : string; mu_memory_kind : string; mu_content : string }.

Inductive NarrativeConditionStatus := Status_Satisfied | Status_Unsatisfied | Status_Unknown.
#[global] Instance NarrativeConditionStatus_eq_dec : EqDecision NarrativeConditionStatus.
Proof. solve_decision. Defined.
Record NarrativeConditionJudgmentDto := {
  ncj_condition_key : string; ncj_status : NarrativeConditionStatus; ncj_evidence : string; ncj_reason : string;
}.
Record StoryStateExtractionDto := {
  new_roles : list NewRoleDto;
  role_states : list RoleStateDto;
  relationship_states : list RelationshipStateDto;
  add_facts : list FactDraftDto;
  update_facts : list FactUpdateDto;
  add_rumors : list RumorDraftDto;
  update_rumors : list RumorUpdateDto;
  delete_rumor_ids : list string;
  add_memories : list MemoryDraftDto;
  update_memories : list MemoryUpdateDto;
  delete_memory_ids : list string;
  narrative_condition_judgments : list NarrativeConditionJudgmentDto;
  cast_policy_violations : list string;
}.
Record NarrativeConditionResult := {
  ncr_condition_key : NarrativeConditionKey;
  ncr_status : NarrativeConditionStatus;
  ncr_evidence : BoundedText;
  ncr_reason : BoundedText;
}.
Record StoryCandidateVersion := { content_digest : Sha256Digest; repair_attempt : N }.
#[global] Instance StoryCandidateVersion_eq_dec : EqDecision StoryCandidateVersion. Proof. solve_decision. Defined.
Record StoryStateExtractionEnvelope := {
  env_candidate_version : StoryCandidateVersion;
  env_expected_graph_revision : N;
  env_state : StoryStateExtractionDto;
  narrative_condition_results : list NarrativeConditionResult;
}.

(** ** Knowledge mutations *)

Inductive ValidatedKnowledgeOperation :=
| Op_Add (value : KnowledgeEntry)
| Op_Update (target : KnowledgeSourceId) (value : KnowledgeEntry)
| Op_Delete (target : DeletableKnowledgeId).
Record ValidatedKnowledgeMutation := { ordinal : N; operation : ValidatedKnowledgeOperation }.

Inductive ExtractionEnrichmentError :=
| ContentExceedsBudget | InvalidRetrievalHint | InvalidActivationRule | Enrich_AllocationOverflow | UnknownTarget
| UnknownSourceRole | UnknownOwnerRole | InvalidMemoryKind | OrdinalOverflow.

Record KnowledgeEnrichmentContext := {
  kec_retrieved : RetrievedContext;
  kec_turn_number : TurnNumber;
  kec_created_at_ms : Z;
  kec_max_content_bytes : N;
  kec_max_activation_terms : N;
  kec_max_activation_pattern_bytes : N;
  kec_activation_rule_limits : ActivationRuleLimits;
}.

(** [next_fact_id], [next_rumor_id] and [next_memory_id]: the next assigned
    identifier, which must be of the kind asked for. *)
Definition next_fact_id (assigned : list KnowledgeSourceId) :
    result ExtractionEnrichmentError (FactId * list KnowledgeSourceId) :=
  match assigned with Sid_Fact id :: rest => Ok (id, rest) | _ => Err Enrich_AllocationOverflow end.
Definition next_rumor_id (assigned : list KnowledgeSourceId) :
    result ExtractionEnrichmentError (RumorId * list KnowledgeSourceId) :=
  match assigned with Sid_Rumor id :: rest => Ok (id, rest) | _ => Err Enrich_AllocationOverflow end.
Definition next_memory_id (assigned : list KnowledgeSourceId) :
    result ExtractionEnrichmentError (MemoryId * list KnowledgeSourceId) :=
  match assigned with Sid_Memory id :: rest => Ok (id, rest) | _ => Err Enrich_AllocationOverflow end.

Definition bounded_content (value : string) (max_bytes : N) : result ExtractionEnrichmentError BoundedText :=
  map_err (λ _, ContentExceedsBudget) (BoundedText_try_new (trim value) "knowledge_content" max_bytes).
Definition enriched_retrieval_hint (raw : string) : result ExtractionEnrichmentError RetrievalHint :=
  map_err (λ _, InvalidRetrievalHint) (RetrievalHint_try_new (trim raw)).

Definition existing_fact (retrieved : RetrievedContext) (id : FactId) : option RetrievedKnowledgeItem :=
  snd <$> list_find (λ item, rki_source_id item = Sid_Fact id) (ret_facts (ret_world retrieved)).
Definition existing_rumor (retrieved : RetrievedContext) (id : RumorId) : option RetrievedKnowledgeItem :=
  snd <$> list_find (λ item, rki_source_id item = Sid_Rumor id)
    (ret_rumors (ret_world retrieved) ++ concat (map known_rumors (values (ret_characters retrieved)))).

(** [find_map] *)
Fixpoint find_map {A B} (f : A → option B) (l : list A) : option B :=
  match l with [] => None | x :: l' => match f x with Some y => Some y | None => find_map f l' end end.
Definition existing_memory (retrieved : RetrievedContext) (id : MemoryId) : option (RoleId * N) :=
  find_map (λ '(role_id, character),
    (λ p, (role_id, rki_salience p.2))
    <$> list_find (λ item, rki_source_id item = Sid_Memory id) (ret_memories character))
    (entries (ret_characters retrieved)).

Section enrich.
Context `{Unicode, Sha256Bytes, RegexEngine}.
Context (snapshot : StoryReadSnapshot) (accepted_new_roles : list StoryRole) (context : KnowledgeEnrichmentContext).

Definition role_is_known (role_id : RoleId) : bool :=
  bool_decide (is_Some (snapshot_role snapshot role_id))
  || existsb (λ role, bool_decide (role_role_id role = role_id)) accepted_new_roles.

Definition resolve_source_role (raw : string) : result ExtractionEnrichmentError (option RoleId) :=
  if is_blank raw then Ok None
  else
    let? role_id := map_err (λ _, UnknownSourceRole) (RoleId_try_new raw) in
    if role_is_known role_id then Ok (Some role_id) else Err UnknownSourceRole.

(** One term of [replace_activation_terms]: the normalised texts seen so far, and
    the patterns built. *)
Definition activation_term (case_sensitive : bool) (s : gset string * list ActivationPattern) (term : string) :
    result ExtractionEnrichmentError (gset string * list ActivationPattern) :=
  fail_if (kec_max_activation_pattern_bytes context <? slen term)%N || is_blank term
       || String.prefix "/" (trim term)
       || str_contains "{{" term || str_contains "}}" term
  with InvalidActivationRule in
  let normalized := normalize_activation_literal term case_sensitive in
  fail_if is_empty normalized || bool_decide (normalized ∈ s.1) with InvalidActivationRule in
  Ok ({[normalized]} ∪ s.1, s.2 ++ [Pattern_Literal normalized]).

Definition with_keys (r : KnowledgeActivationRule) (patterns : list ActivationPattern) : KnowledgeActivationRule :=
  let m := match_rule r in {|
  mode := mode r;
  match_rule := {| mr_keys := patterns; mr_secondary_keys := mr_secondary_keys m;
                   mr_secondary_logic := mr_secondary_logic m; mr_case_sensitive := mr_case_sensitive m;
                   mr_match_whole_words := mr_match_whole_words m; mr_scan_depth := mr_scan_depth m |};
  recursion := recursion r;
  selection := selection r;
  timing := timing r;
  scope := scope r;
  budget_class := budget_class r;
|}.

Definition replace_activation_terms (rule : KnowledgeActivationRule) (terms : list string) :
    result ExtractionEnrichmentError KnowledgeActivationRule :=
  fail_if (kec_max_activation_terms context <? nlen terms)%N with InvalidActivationRule in
  let? s := try_fold (activation_term (mr_case_sensitive (match_rule rule))) (∅, []) terms in
  let rule := with_keys rule s.2 in
  let? _ := map_err (λ _, InvalidActivationRule) (rule_validate rule (kec_activation_rule_limits context)) in
  Ok rule.

Definition dynamic_activation_rule (terms : list string) (exact_target_only : bool) :
    result ExtractionEnrichmentError KnowledgeActivationRule :=
  let disabled := KnowledgeActivationRule_disabled in
  replace_activation_terms {|
    mode := {| mode_enabled := true; mode_constant := mode_constant (mode disabled);
               mode_exact_target_only := exact_target_only |};
    match_rule := match_rule disabled;
    recursion := recursion disabled;
    selection := selection disabled;
    timing := timing disabled;
    scope := scope disabled;
    budget_class := budget_class disabled;
  |} terms.

(** The rule of an update: the existing one, its terms replaced when given. *)
Definition updated_activation_rule (existing : RetrievedKnowledgeItem) (terms : option (list string)) :
    result ExtractionEnrichmentError KnowledgeActivationRule :=
  let? activation := ok_or (rki_activation existing) InvalidActivationRule in
  match terms with
  | Some terms => replace_activation_terms activation terms
  | None => Ok activation
  end.

(** The state of the loops: the identifiers still to hand out, the operations. *)
Definition EnrichState : Type := list KnowledgeSourceId * list ValidatedKnowledgeOperation.
Definition turn_source : KnowledgeSource := Source_CommittedTurn (kec_turn_number context).
Definition max_content : N := kec_max_content_bytes context.

Definition add_fact (s : EnrichState) (draft : FactDraftDto) : result ExtractionEnrichmentError EnrichState :=
  let? content := bounded_content (fd_content draft) max_content in
  let? retrieval_hint := enriched_retrieval_hint (fd_retrieval_hint draft) in
  let? '(id, assigned) := next_fact_id s.1 in
  let? activation := dynamic_activation_rule (fd_activation_terms draft) (fd_exact_target_only draft) in
  Ok (assigned, s.2 ++ [Op_Add (Entry_Fact {|
    fact_id := id;
    fact_key := None;
    fact_text := content;
    fact_proposition := None;
    fact_retrieval_hint := retrieval_hint;
    fact_activation := activation;
    fact_activation_rule_version := ActivationRuleVersion_from_rule activation;
    fact_salience := DEFAULT_RUNTIME_KNOWLEDGE_SALIENCE;
    fact_source := turn_source;
  |})]).

Definition update_fact (s : EnrichState) (update : FactUpdateDto) : result ExtractionEnrichmentError EnrichState :=
  let? target := map_err (λ _, UnknownTarget) (id_try_new FactId_PREFIX (fu_id update)) in
  let? existing := ok_or (existing_fact (kec_retrieved context) target) UnknownTarget in
  let? content := bounded_content (fu_content update) max_content in
  let? retrieval_hint := enriched_retrieval_hint (fu_retrieval_hint update) in
  let? activation := updated_activation_rule existing (fu_activation_terms update) in
  Ok (s.1, s.2 ++ [Op_Update (Sid_Fact target) (Entry_Fact {|
    fact_id := target;
    fact_key := None;
    fact_text := content;
    fact_proposition := None;
    fact_retrieval_hint := retrieval_hint;
    fact_activation := activation;
    fact_activation_rule_version := ActivationRuleVersion_from_rule activation;
    fact_salience := rki_salience existing;
    fact_source := turn_source;
  |})]).

Definition add_rumor (s : EnrichState) (draft : RumorDraftDto) : result ExtractionEnrichmentError EnrichState :=
  let? content := bounded_content (rd_content draft) max_content in
  let? retrieval_hint := enriched_retrieval_hint (rd_retrieval_hint draft) in
  let? source_role_id := resolve_source_role (rd_source_role_id draft) in
  let? activation := dynamic_activation_rule (rd_activation_terms draft) (rd_exact_target_only draft) in
  let? '(id, assigned) := next_rumor_id s.1 in
  Ok (assigned, s.2 ++ [Op_Add (Entry_Rumor {|
    rumor_id := id;
    rumor_key := None;
    rumor_content := content;
    rumor_claim := None;
    rumor_retrieval_hint := retrieval_hint;
    rumor_activation := activation;
    rumor_activation_rule_version := ActivationRuleVersion_from_rule activation;
    rumor_salience := DEFAULT_RUNTIME_KNOWLEDGE_SALIENCE;
    rumor_source_role_id := source_role_id;
    rumor_truth_value := rd_truth_value draft;
    rumor_source := turn_source;
  |})]).

Definition update_rumor (s : EnrichState) (update : RumorUpdateDto) : result ExtractionEnrichmentError EnrichState :=
  let? target := map_err (λ _, UnknownTarget) (id_try_new RumorId_PREFIX (ru_id update)) in
  let? existing := ok_or (existing_rumor (kec_retrieved context) target) UnknownTarget in
  let? content := bounded_content (ru_content update) max_content in
  let? retrieval_hint := enriched_retrieval_hint (ru_retrieval_hint update) in
  let? source_role_id := resolve_source_role (ru_source_role_id update) in
  let? activation := updated_activation_rule existing (ru_activation_terms update) in
  Ok (s.1, s.2 ++ [Op_Update (Sid_Rumor target) (Entry_Rumor {|
    rumor_id := target;
    rumor_key := None;
    rumor_content := content;
    rumor_claim := None;
    rumor_retrieval_hint := retrieval_hint;
    rumor_activation := activation;
    rumor_activation_rule_version := ActivationRuleVersion_from_rule activation;
    rumor_salience := rki_salience existing;
    rumor_source_role_id := source_role_id;
    rumor_truth_value := ru_truth_value update;
    rumor_source := turn_source;
  |})]).

Definition delete_rumor (s : EnrichState) (raw_id : string) : result ExtractionEnrichmentError EnrichState :=
  let? target := map_err (λ _, UnknownTarget) (id_try_new RumorId_PREFIX raw_id) in
  let? _ := ok_or (existing_rumor (kec_retrieved context) target) UnknownTarget in
  Ok (s.1, s.2 ++ [Op_Delete (Deletable_Rumor target)]).

Definition memory_entry (id : MemoryId) (owner : RoleId) (kind : MemoryKind) (content : BoundedText) (salience : N) :
    MemoryEntry := {|
  memory_id := id;
  memory_owner_id := owner;
  memory_kind := kind;
  memory_content := content;
  memory_salience := salience;
  memory_source := turn_source;
  memory_created_at_ms := kec_created_at_ms context;
|}.

Definition add_memory (s : EnrichState) (draft : MemoryDraftDto) : result ExtractionEnrichmentError EnrichState :=
  let? owner := map_err (λ _, UnknownOwnerRole) (RoleId_try_new (md_owner_role_id draft)) in
  fail_if negb (role_is_known owner) with UnknownOwnerRole in
  let? kind := map_err (λ _, InvalidMemoryKind) (semantic_key_try_new (md_memory_kind draft)) in
  let? content := bounded_content (md_content draft) max_content in
  let? '(id, assigned) := next_memory_id s.1 in
  Ok (assigned,
      s.2 ++ [Op_Add (Entry_Memory (memory_entry id owner kind content DEFAULT_RUNTIME_KNOWLEDGE_SALIENCE))]).

Definition update_memory (s : EnrichState) (update : MemoryUpdateDto) : result ExtractionEnrichmentError EnrichState :=
  let? target := map_err (λ _, UnknownTarget) (id_try_new MemoryId_PREFIX (mu_id update)) in
  let? '(owner, existing_salience) := ok_or (existing_memory (kec_retrieved context) target) UnknownTarget in
  let? kind := map_err (λ _, InvalidMemoryKind) (semantic_key_try_new (mu_memory_kind update)) in
  let? content := bounded_content (mu_content update) max_content in
  Ok (s.1, s.2 ++ [Op_Update (Sid_Memory target) (Entry_Memory (memory_entry target owner kind content existing_salience))]).

Definition delete_memory (s : EnrichState) (raw_id : string) : result ExtractionEnrichmentError EnrichState :=
  let? target := map_err (λ _, UnknownTarget) (id_try_new MemoryId_PREFIX raw_id) in
  let? _ := ok_or (existing_memory (kec_retrieved context) target) UnknownTarget in
  Ok (s.1, s.2 ++ [Op_Delete (Deletable_Memory target)]).

Definition add_kinds (dto : StoryStateExtractionDto) : list KnowledgeKind :=
  replicate (length (add_facts dto)) Kind_Fact ++ replicate (length (add_rumors dto)) Kind_Rumor
  ++ replicate (length (add_memories dto)) Kind_Memory.

Definition enrich_operations (dto : StoryStateExtractionDto) (s : EnrichState) :
    result ExtractionEnrichmentError EnrichState :=
  let? s := try_fold add_fact s (add_facts dto) in
  let? s := try_fold update_fact s (update_facts dto) in
  let? s := try_fold add_rumor s (add_rumors dto) in
  let? s := try_fold update_rumor s (update_rumors dto) in
  let? s := try_fold delete_rumor s (delete_rumor_ids dto) in
  let? s := try_fold add_memory s (add_memories dto) in
  let? s := try_fold update_memory s (update_memories dto) in
  try_fold delete_memory s (delete_memory_ids dto).

(** [into_iter().enumerate().map(..).collect()] *)
Definition number_mutation (e : nat * ValidatedKnowledgeOperation) :
    result ExtractionEnrichmentError ValidatedKnowledgeMutation :=
  fail_if (U32_MAX <? N.of_nat e.1)%N with OrdinalOverflow in
  Ok {| ordinal := N.of_nat e.1; operation := e.2 |}.

Definition enrich_extracted_knowledge (dto : StoryStateExtractionDto) :
    result ExtractionEnrichmentError (list ValidatedKnowledgeMutation * KnowledgeIdHighWater) :=
  let? allocation := map_err (λ _, Enrich_AllocationOverflow)
    (allocate_knowledge_ids (snapshot_knowledge_id_high_water snapshot) (add_kinds dto)) in
  let? s := enrich_operations dto (ka_assigned allocation, []) in
  let? mutations := traverse number_mutation (zip (seq 0 (length s.2)) s.2) in
  Ok (mutations, ka_new_high_water allocation).
End enrich.

(** The errors of the parts of one operation. *)
Create HintDb item.

Section proofs.
Context `{Unicode, Sha256Bytes, RegexEngine}.
Context (snapshot : StoryReadSnapshot) (accepted_new_roles : list StoryRole) (context : KnowledgeEnrichmentContext).

(** ** Good operations *)

(** An item of the retrieved context, with its salience. *)
Definition retrieved_item (id : KnowledgeSourceId) (salience : N) : Prop :=
  ∃ p i, p ∈ partitions (kec_retrieved context) ∧ i ∈ p.2 ∧ rki_source_id i = id ∧ rki_salience i = salience.

(** A memory is retrieved for a role. *)
Definition retrieved_for (id : KnowledgeSourceId) (owner : RoleId) : Prop :=
  ∃ c i, ret_characters (kec_retrieved context) !! owner = Some c ∧ i ∈ ret_memories c ∧ rki_source_id i = id.

Definition rule_valid (rule : KnowledgeActivationRule) : Prop :=
  rule_validate rule (kec_activation_rule_limits context) = Ok tt.

(** The rule of a fact or rumour is valid, or, when [kept], it is the one the
    retrieved item already had; its version is the digest of the rule. *)
Definition rule_good (kept : bool) (id : KnowledgeSourceId) (rule : KnowledgeActivationRule)
    (version : ActivationRuleVersion) : Prop :=
  version = ActivationRuleVersion_from_rule rule
  ∧ (rule_valid rule ∨ kept = true ∧ ∃ p i, p ∈ partitions (kec_retrieved context) ∧ i ∈ p.2
                                       ∧ rki_source_id i = id ∧ rki_activation i = Some rule).

Definition entry_good (kept : bool) (e : KnowledgeEntry) : Prop :=
  (slen (entry_content e) <= kec_max_content_bytes context)%N
  ∧ entry_source e = Source_CommittedTurn (kec_turn_number context)
  ∧ match e with
    | Entry_Fact f => rule_good kept (Sid_Fact (fact_id f)) (fact_activation f) (fact_activation_rule_version f)
    | Entry_Rumor r =>
        rule_good kept (Sid_Rumor (rumor_id r)) (rumor_activation r) (rumor_activation_rule_version r)
        ∧ ∀ role, rumor_source_role_id r = Some role → role_is_known snapshot accepted_new_roles role = true
    | Entry_Memory m =>
        if kept then retrieved_for (Sid_Memory (memory_id m)) (memory_owner_id m)
        else role_is_known snapshot accepted_new_roles (memory_owner_id m) = true
    end.

Definition deletable_sid (d : DeletableKnowledgeId) : KnowledgeSourceId :=
  match d with Deletable_Rumor id => Sid_Rumor id | Deletable_Memory id => Sid_Memory id end.

Definition op_good (op : ValidatedKnowledgeOperation) : Prop :=
  match op with
  | Op_Add e => entry_good false e ∧ entry_salience e = DEFAULT_RUNTIME_KNOWLEDGE_SALIENCE
  | Op_Update target e =>
      entry_good true e ∧ entry_source_id e = target ∧ retrieved_item target (entry_salience e)
  | Op_Delete target => ∃ salience, retrieved_item (deletable_sid target) salience
  end.

Lemma find_item (l : list RetrievedKnowledgeItem) id i :
  snd <$> list_find (λ item, rki_source_id item = id) l = Some i → i ∈ l ∧ rki_source_id i = id.
Proof.
  destruct (list_find _ l) as [[n x]|] eqn:Hf; simpl; [|done]. intros [= <-].
  apply list_find_Some in Hf as (Hn & Hid & _). split; [by eapply list_elem_of_lookup_2|done].
Qed.

Lemma character_partition_in r id c part :
  ret_characters r !! id = Some c → part ∈ character_partitions c → part ∈ partitions r.
Proof.
  intros Hid Hp. apply elem_of_app. right. apply elem_of_concat. exists (character_partitions c).
  split; [done|]. apply (list_elem_of_fmap_2 character_partitions). apply elem_of_values. eauto.
Qed.

Lemma existing_fact_in id i :
  existing_fact (kec_retrieved context) id = Some i →
  rki_source_id i = Sid_Fact id ∧ ∃ p, p ∈ partitions (kec_retrieved context) ∧ i ∈ p.2.
Proof.
  intros [Hin Hid]%find_item. split; [done|].
  exists (Kind_Fact, ret_facts (ret_world (kec_retrieved context))). split; [|done]. set_solver.
Qed.

Lemma existing_rumor_in id i :
  existing_rumor (kec_retrieved context) id = Some i →
  rki_source_id i = Sid_Rumor id ∧ ∃ p, p ∈ partitions (kec_retrieved context) ∧ i ∈ p.2.
Proof.
  intros [Hin Hid]%find_item. split; [done|]. apply elem_of_app in Hin as [Hin|Hin].
  - exists (Kind_Rumor, ret_rumors (ret_world (kec_retrieved context))). split; [set_solver|done].
  - apply elem_of_concat in Hin as (l & Hi & Hl). apply list_elem_of_fmap in Hl as (c & -> & Hc).
    apply elem_of_values in Hc as [role Hrole]. exists (Kind_Rumor, known_rumors c).
    split; [|done]. eapply character_partition_in; [done|]. set_solver.
Qed.

Lemma existing_memory_in id owner salience :
  existing_memory (kec_retrieved context) id = Some (owner, salience) →
  retrieved_item (Sid_Memory id) salience ∧ retrieved_for (Sid_Memory id) owner.
Proof.
  unfold existing_memory. pose proof (λ k v, proj1 (elem_of_entries (ret_characters (kec_retrieved context)) k v)) as He.
  induction (entries _) as [|[role c] es IH]; [done|]. cbn [find_map].
  destruct (list_find _ (ret_memories c)) as [[n i]|] eqn:Hf; simpl.
  - intros [= <- <-]. apply list_find_Some in Hf as (Hn & Hid & _). apply list_elem_of_lookup_2 in Hn.
    assert (ret_characters (kec_retrieved context) !! role = Some c) as Hrole by (apply He; set_solver).
    split; [|by exists c, i]. exists (Kind_Memory, ret_memories c), i.
    split; [|done]. eapply character_partition_in; [done|]. set_solver.
  - apply IH. set_solver.
Qed.

Lemma bounded_content_ok value max v : bounded_content value max = Ok v → (slen v <= max)%N.
Proof.
  unfold bounded_content, BoundedText_try_new. destruct (N.ltb_spec max (slen (trim value))); [done|].
  by intros [= <-].
Qed.

Lemma replace_terms_valid rule terms rule' :
  replace_activation_terms context rule terms = Ok rule' → rule_valid rule'.
Proof.
  unfold replace_activation_terms, rule_valid. intros H2. repeat (res_step; try done). subst.
  destruct (rule_validate _ _) as [[]|]; [done|done].
Qed.

Lemma dynamic_rule_good terms exact rule id :
  dynamic_activation_rule context terms exact = Ok rule →
  rule_good false id rule (ActivationRuleVersion_from_rule rule).
Proof. intros Hr%replace_terms_valid. split; [done|by left]. Qed.

Lemma updated_rule_good i terms rule p :
  p ∈ partitions (kec_retrieved context) → i ∈ p.2 → updated_activation_rule context i terms = Ok rule →
  rule_good true (rki_source_id i) rule (ActivationRuleVersion_from_rule rule).
Proof.
  intros Hp Hi. unfold updated_activation_rule. destruct (rki_activation i) as [a|] eqn:Ha; simpl; [|done].
  destruct terms as [ts|]; [intros Hr%replace_terms_valid; split; [done|by left]|].
  intros [= <-]. split; [done|]. right. split; [done|]. by exists p, i.
Qed.

Lemma resolve_source_role_known raw r :
  resolve_source_role snapshot accepted_new_roles raw = Ok r →
  ∀ role, r = Some role → role_is_known snapshot accepted_new_roles role = true.
Proof.
  unfold resolve_source_role. intros H2 role ->. destruct (is_blank raw); [done|].
  destruct (RoleId_try_new raw) as [v|]; simpl in H2; [|done].
  destruct (role_is_known _ _ v) eqn:Hk; [|done]. by injection H2 as <-.
Qed.
(** ** Errors of one operation *)

(** The errors that concern neither the allocation nor the numbering. *)
Definition item_error (e : ExtractionEnrichmentError) : Prop :=
  e ≠ Enrich_AllocationOverflow ∧ e ≠ OrdinalOverflow.

Lemma map_err_const {E A} (r : result E A) (x e : ExtractionEnrichmentError) :
  map_err (λ _, x) r = Err e → e = x.
Proof. destruct r; by intros [= <-]. Qed.

Lemma bounded_content_err value max e : bounded_content value max = Err e → item_error e.
Proof. by intros ->%map_err_const. Qed.
Lemma retrieval_hint_err raw e : enriched_retrieval_hint raw = Err e → item_error e.
Proof. by intros ->%map_err_const. Qed.

Lemma replace_terms_err rule terms e : replace_activation_terms context rule terms = Err e → item_error e.
Proof.
  unfold replace_activation_terms. destruct (_ <? _)%N; [by intros [= <-]|].
  destruct (try_fold _ _ terms) as [s|err] eqn:Hf.
  - intros He. destruct (map_err _ _) eqn:Hm in He; [done|]. injection He as <-. by apply map_err_const in Hm as ->.
  - intros [= <-]. revert Hf. generalize (∅ : gset string, @nil ActivationPattern).
    induction terms as [|t terms IH]; intros s0 Hf; simpl in Hf; [done|].
    destruct (activation_term _ _ s0 t) as [s1|err'] eqn:Ht; [by eapply IH|]. injection Hf as ->.
    unfold activation_term in Ht. repeat case_match; simplify_eq/=; done.
Qed.
Lemma dynamic_rule_err terms exact e : dynamic_activation_rule context terms exact = Err e → item_error e.
Proof. apply replace_terms_err. Qed.
Lemma updated_rule_err i terms e : updated_activation_rule context i terms = Err e → item_error e.
Proof.
  unfold updated_activation_rule. destruct (rki_activation i); simpl; [|by intros [= <-]].
  destruct terms; [apply replace_terms_err|done].
Qed.
Lemma resolve_source_role_err raw e : resolve_source_role snapshot accepted_new_roles raw = Err e → item_error e.
Proof.
  unfold resolve_source_role. destruct (is_blank raw); [done|].
  destruct (map_err _ _) eqn:Hm; [by destruct (role_is_known _ _ _); [|intros [= <-]]|].
  intros [= <-]. by apply map_err_const in Hm as ->.
Qed.

#[local] Hint Resolve bounded_content_err retrieval_hint_err dynamic_rule_err updated_rule_err resolve_source_role_err : item.

(** Runs one step: each result in turn, errors discharged by the lemmas above. *)
Ltac enrich_step :=
  match goal with
  | |- context [match map_err (λ _, ?x) ?r with Ok _ => _ | Err _ => _ end] =>
      let Hr := fresh "Hr" in destruct r eqn:Hr; cbn [map_err]; [|by split]
  | |- context [match ok_or ?o ?x with Ok _ => _ | Err _ => _ end] =>
      let Ho := fresh "Ho" in destruct o eqn:Ho; cbn [ok_or]; [|by split]
  | |- context [if negb ?b then Err _ else _] =>
      let Hb := fresh "Hb" in destruct b eqn:Hb; cbn [negb]; [|by split]
  | |- context [match ?r with Ok _ => _ | Err _ => _ end] =>
      lazymatch r with
      | context [match _ with _ => _ end] => fail
      | Ok _ => fail
      | _ => let Hr := fresh "Hr" in destruct r eqn:Hr; [|by eauto with item]
      end
  end.

(** ** One operation *)

(** A step that consumes an identifier of its kind for an addition. *)
Definition adds {D} (kind : KnowledgeKind) (step : EnrichState → D → result ExtractionEnrichmentError EnrichState) : Prop :=
  ∀ id rest ops d,
    match step (kind_sid kind id :: rest, ops) d with
    | Ok s => ∃ e, s = (rest, ops ++ [Op_Add e]) ∧ entry_source_id e = kind_sid kind id ∧ op_good (Op_Add e)
    | Err e => item_error e
    end.

(** A step that needs no identifier and does not add. *)
Definition changes {D} (step : EnrichState → D → result ExtractionEnrichmentError EnrichState) : Prop :=
  ∀ assigned ops d,
    match step (assigned, ops) d with
    | Ok s => ∃ op, s = (assigned, ops ++ [op]) ∧ op_good op ∧ ∀ e, op ≠ Op_Add e
    | Err e => item_error e
    end.

Lemma add_fact_adds : adds Kind_Fact (add_fact context).
Proof.
  intros id rest ops d. unfold add_fact. cbn [fst snd kind_sid next_fact_id]. repeat enrich_step.
  eexists. split; [done|]. split; [done|]. split; [|done]. split; [by eapply bounded_content_ok|].
  split; [done|]. by eapply dynamic_rule_good.
Qed.
Lemma add_rumor_adds : adds Kind_Rumor (add_rumor snapshot accepted_new_roles context).
Proof.
  intros id rest ops d. unfold add_rumor. cbn [fst snd kind_sid next_rumor_id]. repeat enrich_step.
  eexists. split; [done|]. split; [done|]. split; [|done]. split; [by eapply bounded_content_ok|].
  split; [done|]. split; [by eapply dynamic_rule_good|]. by eapply resolve_source_role_known.
Qed.
Lemma add_memory_adds : adds Kind_Memory (add_memory snapshot accepted_new_roles context).
Proof.
  intros id rest ops d. unfold add_memory. cbn [fst snd kind_sid next_memory_id]. repeat enrich_step.
  eexists. split; [done|]. split; [done|]. split; [|done]. split; [by eapply bounded_content_ok|]. done.
Qed.

Lemma update_fact_changes : changes (update_fact context).
Proof.
  intros assigned ops d. unfold update_fact. cbn [fst snd]. repeat enrich_step.
  eexists. split; [done|]. split; [|done]. apply existing_fact_in in Ho as (Hid & p & Hp & Hi).
  split; [|split; [done|by exists p, r]]. split; [by eapply bounded_content_ok|].
  split; [done|]. cbn. rewrite <-Hid. by eapply updated_rule_good.
Qed.
Lemma update_rumor_changes : changes (update_rumor snapshot accepted_new_roles context).
Proof.
  intros assigned ops d. unfold update_rumor. cbn [fst snd]. repeat enrich_step.
  eexists. split; [done|]. split; [|done]. apply existing_rumor_in in Ho as (Hid & p & Hp & Hi).
  split; [|split; [done|by exists p, r]]. split; [by eapply bounded_content_ok|].
  split; [done|]. cbn. rewrite <-Hid. split; [by eapply updated_rule_good|by eapply resolve_source_role_known].
Qed.
Lemma update_memory_changes : changes (update_memory context).
Proof.
  intros assigned ops d. unfold update_memory. cbn [fst snd]. enrich_step. enrich_step.
  destruct p as [owner salience]. apply existing_memory_in in Ho as [Hi Hf]. repeat enrich_step.
  eexists. split; [done|]. split; [|done]. split; [|by split]. split; [by eapply bounded_content_ok|done].
Qed.
Lemma delete_rumor_changes : changes (delete_rumor context).
Proof.
  intros assigned ops d. unfold delete_rumor. cbn [fst snd]. repeat enrich_step.
  eexists. split; [done|]. split; [|done]. apply existing_rumor_in in Ho as (Hid & p & Hp & Hi).
  eexists. by exists p, r.
Qed.
Lemma delete_memory_changes : changes (delete_memory context).
Proof.
  intros assigned ops d. unfold delete_memory. cbn [fst snd]. repeat enrich_step.
  eexists. split; [done|]. split; [|done]. destruct p as [owner salience].
  apply existing_memory_in in Ho as [Hi _]. by exists salience.
Qed.

(** ** The loops *)

Definition added (ops : list ValidatedKnowledgeOperation) : list KnowledgeSourceId :=
  omap (λ op, match op with Op_Add e => Some (entry_source_id e) | _ => None end) ops.

Lemma added_app ops1 ops2 : added (ops1 ++ ops2) = added ops1 ++ added ops2.
Proof. apply omap_app. Qed.

(** What a run of steps over [n] items does: [consumed] identifiers are taken
    from the front, and [n] good operations are appended that add those. *)
Definition run_good (n : nat) (consumed rest : list KnowledgeSourceId) (ops : list ValidatedKnowledgeOperation)
    (r : result ExtractionEnrichmentError EnrichState) : Prop :=
  match r with
  | Ok s => ∃ ops', s = (rest, ops ++ ops') ∧ length ops' = n ∧ Forall op_good ops' ∧ added ops' = consumed
  | Err e => item_error e
  end.

Lemma adds_loop {D} kind (step : EnrichState → D → result ExtractionEnrichmentError EnrichState) l consumed rest ops :
  adds kind step → map sid_kind consumed = replicate (length l) kind →
  run_good (length l) consumed rest ops (try_fold step (consumed ++ rest, ops) l).
Proof.
  intros Hstep. revert consumed ops. induction l as [|d l IH]; intros consumed ops Hk.
  - destruct consumed; [|done]. exists []. by rewrite app_nil_r.
  - destruct consumed as [|sid consumed]; [done|]. cbn [map replicate length] in Hk. injection Hk as Hs Hk.
    specialize (Hstep (sid_as_str sid) (consumed ++ rest) ops d).
    replace (kind_sid kind (sid_as_str sid)) with sid in Hstep by (by rewrite <-Hs; destruct sid).
    cbn [app try_fold length]. destruct (step (sid :: consumed ++ rest, ops) d) as [s|err]; [|done].
    destruct Hstep as (e & -> & He & Hgood). specialize (IH consumed (ops ++ [Op_Add e]) Hk).
    destruct (try_fold step _ l) as [s|err]; [|done]. destruct IH as (ops' & -> & Hlen & Hall & Hadd).
    exists (Op_Add e :: ops'). split; [by rewrite <-(assoc_L app)|]. split; [simpl; lia|].
    split; [by constructor|]. cbn. by rewrite He, <-Hadd.
Qed.

Lemma changes_loop {D} (step : EnrichState → D → result ExtractionEnrichmentError EnrichState) l rest ops :
  changes step → run_good (length l) [] rest ops (try_fold step (rest, ops) l).
Proof.
  intros Hstep. revert ops. induction l as [|d l IH]; intros ops.
  - exists []. by rewrite app_nil_r.
  - cbn [try_fold length]. specialize (Hstep rest ops d). destruct (step (rest, ops) d) as [s|err]; [|done].
    destruct Hstep as (op & -> & Hgood & Hna). specialize (IH (ops ++ [op])).
    destruct (try_fold step _ l) as [s|err]; [|done]. destruct IH as (ops' & -> & Hlen & Hall & Hadd).
    exists (op :: ops'). split; [by rewrite <-(assoc_L app)|]. split; [simpl; lia|].
    split; [by constructor|]. change (op :: ops') with ([op] ++ ops'). rewrite added_app, Hadd.
    destruct op; [by destruct (Hna value)|done|done].
Qed.

(** Runs compose. *)
Lemma run_good_bind n1 n2 c1 c2 mid rest ops r (k : EnrichState → result ExtractionEnrichmentError EnrichState) :
  run_good n1 c1 mid ops r →
  (∀ ops', run_good n2 c2 rest ops' (k (mid, ops'))) →
  run_good (n1 + n2) (c1 ++ c2) rest ops (let? s := r in k s).
Proof.
  intros Hr Hk. destruct r as [s|e]; [|done]. destruct Hr as (ops1 & -> & Hl1 & Ha1 & Hc1).
  specialize (Hk (ops ++ ops1)). destruct (k _) as [s|e]; [|done]. destruct Hk as (ops2 & -> & Hl2 & Ha2 & Hc2).
  exists (ops1 ++ ops2). split; [by rewrite (assoc_L app)|]. split; [rewrite length_app; lia|].
  split; [by apply Forall_app|]. by rewrite added_app, Hc1, Hc2.
Qed.

(** How many items the model reported, and how many of them are additions. *)
Definition change_count (dto : StoryStateExtractionDto) : nat :=
  length (add_facts dto) + (length (update_facts dto) + (length (add_rumors dto) + (length (update_rumors dto)
  + (length (delete_rumor_ids dto) + (length (add_memories dto) + (length (update_memories dto)
  + length (delete_memory_ids dto))))))).

Lemma enrich_operations_good dto assigned :
  map sid_kind assigned = add_kinds dto →
  run_good (change_count dto) assigned [] []
    (enrich_operations snapshot accepted_new_roles context dto (assigned, [])).
Proof.
  intros Hk. unfold add_kinds in Hk.
  assert (∃ a1 a2 a3, assigned = a1 ++ a2 ++ a3 ∧ map sid_kind a1 = replicate (length (add_facts dto)) Kind_Fact
    ∧ map sid_kind a2 = replicate (length (add_rumors dto)) Kind_Rumor
    ∧ map sid_kind a3 = replicate (length (add_memories dto)) Kind_Memory) as (a1 & a2 & a3 & -> & H1' & H2' & H3').
  { change (map sid_kind assigned) with (sid_kind <$> assigned) in Hk.
    apply fmap_app_inv in Hk as (a1 & r & Ha1 & Hr & ->). symmetry in Hr.
    apply fmap_app_inv in Hr as (a2 & a3 & Ha2 & Ha3 & ->). exists a1, a2, a3. by rewrite Ha1, Ha2, Ha3. }
  unfold enrich_operations, change_count.
  rewrite <-(app_nil_r a3).
  pose proof (add_fact_adds) as L1. pose proof update_fact_changes as L2. pose proof add_rumor_adds as L3.
  pose proof update_rumor_changes as L4. pose proof delete_rumor_changes as L5. pose proof add_memory_adds as L6.
  pose proof update_memory_changes as L7. pose proof delete_memory_changes as L8.
  eapply (run_good_bind _ _ a1); [by apply (adds_loop Kind_Fact)|intros ops1].
  eapply (run_good_bind _ _ []); [by apply changes_loop|intros ops2].
  eapply (run_good_bind _ _ a2); [by apply (adds_loop Kind_Rumor)|intros ops3].
  eapply (run_good_bind _ _ []); [by apply changes_loop|intros ops4].
  eapply (run_good_bind _ _ []); [by apply changes_loop|intros ops5].
  eapply (run_good_bind _ _ a3); [by apply (adds_loop Kind_Memory)|intros ops6].
  eapply (run_good_bind _ _ []); [by apply changes_loop|intros ops7].
  by apply changes_loop.
Qed.

(** ** The whole enrichment *)
Lemma number_mutations_ok ops ms :
  traverse number_mutation (zip (seq 0 (length ops)) ops) = Ok ms →
  map operation ms = ops ∧ map ordinal ms = map N.of_nat (seq 0 (length ms)).
Proof.
  intros Ht. pose proof (traverse_length _ _ _ Ht) as Hlen. apply traverse_ok_Forall2 in Ht.
  assert (ms = zip_with (λ n op, {| ordinal := N.of_nat n; operation := op |}) (seq 0 (length ops)) ops) as ->.
  { clear Hlen. revert ms Ht. generalize 0. induction ops as [|op ops IH]; intros n ms Ht; simpl in *.
    - by inversion Ht.
    - inversion Ht as [|? m ? ms' Hm Ht']; subst. unfold number_mutation in Hm. simpl in Hm.
      destruct (_ <? _)%N; [done|]. injection Hm as <-. f_equal. by apply IH. }
  rewrite length_zip_with, length_seq, Nat.min_id. split.
  - generalize 0. clear. induction ops as [|op ops IH]; intros n; [done|]. simpl. f_equal. apply IH.
  - generalize 0. clear. induction ops as [|op ops IH]; intros n; [done|]. simpl. f_equal. apply IH.
Qed.

Lemma number_mutations_err ops e :
  traverse number_mutation (zip (seq 0 (length ops)) ops) = Err e →
  e = OrdinalOverflow ∧ (U32_MAX < N.of_nat (length ops))%N.
Proof.
  intros ([n op] & Hin & He)%traverse_err. unfold number_mutation in He. simpl in He.
  destruct (N.ltb_spec U32_MAX (N.of_nat n)); [|done]. injection He as <-. split; [done|].
  apply elem_of_zip_l, elem_of_seq in Hin. lia.
Qed.

(** Enriching an extraction yields one mutation per reported item, numbered from
    zero; the additions carry exactly the identifiers allocated after the high
    water mark, facts, then rumours, then memories; every operation is good:
    bounded content, a valid activation rule with its version, known roles, and a
    retrieved target for an update or a deletion.  It reports that identifiers or
    ordinals ran out only when they did. *)
Theorem enrich_spec dto :
  let base := snapshot_knowledge_id_high_water snapshot in
  match enrich_extracted_knowledge snapshot accepted_new_roles context dto with
  | Ok (mutations, high_water) =>
      high_water = (base + nlen (add_kinds dto))%N
      ∧ length mutations = change_count dto
      ∧ map ordinal mutations = map N.of_nat (seq 0 (length mutations))
      ∧ added (map operation mutations) = allocated base (add_kinds dto)
      ∧ Forall op_good (map operation mutations)
  | Err Enrich_AllocationOverflow => add_kinds dto ≠ [] ∧ (I64_MAX < base + nlen (add_kinds dto))%N
  | Err OrdinalOverflow => (U32_MAX < N.of_nat (change_count dto))%N
  | Err _ => True
  end.
Proof.
  intros base. unfold enrich_extracted_knowledge. fold base. pose proof (allocate_result base (add_kinds dto)) as Ha.
  destruct (allocate_knowledge_ids base (add_kinds dto)) as [a|err]; cbn [map_err]; [|done].
  destruct Ha as [-> _]. cbn [ka_assigned ka_new_high_water].
  pose proof (enrich_operations_good dto _ (allocated_kinds base (add_kinds dto))) as Hg.
  destruct (enrich_operations _ _ _ dto _) as [s|e]; [|destruct Hg as [? ?]; by destruct e].
  destruct Hg as (ops & -> & Hlen & Hall & Hadd). cbn [app snd].
  destruct (traverse number_mutation _) as [ms|e] eqn:Ht.
  - apply number_mutations_ok in Ht as [Hops Hord]. rewrite Hops. split; [done|]. split; [|done].
    by rewrite <-Hlen, <-Hops, length_map.
  - apply number_mutations_err in Ht as [-> Hlt]. by rewrite Hlen in Hlt.
Qed.

End proofs.
