(* ===== verification/AiseConfig.v ===== *)
(** * The configuration of the crate [aise]

    [config/] of [crates/aise/src/]: the sections, their defaults, the checks of
    each and the checks across sections of [AiseConfig::validate].  Reading the
    file (serde) is not modelled. *)

From S2P Require Import Prelude Text.
From Stdlib Require Import SpecFloat.

Inductive ConfigError := Invalid (message : string) | Config_Io (message : string) | Config_Parse (message : string).

(** ** Sections *)

Record TurnConfig := {
  turn_max_repair_rounds : N;
  turn_max_llm_calls : N;
  turn_max_input_tokens : N;
  turn_max_output_tokens : N;
  turn_max_total_tokens : N;
  turn_max_context_tokens : N;
  turn_max_character_decisions : N;
  turn_max_validation_issues : N;
  turn_turn_timeout_ms : N;
}.
Definition TurnConfig_default : TurnConfig := {|
  turn_max_repair_rounds := 3;
  turn_max_llm_calls := 8;
  turn_max_input_tokens := 8192;
  turn_max_output_tokens := 4096;
  turn_max_total_tokens := 12288;
  turn_max_context_tokens := 8192;
  turn_max_character_decisions := 8;
  turn_max_validation_issues := 32;
  turn_turn_timeout_ms := 60000;
|}.
Definition TurnConfig_validate (c : TurnConfig) : result ConfigError unit :=
  fail_if (turn_max_output_tokens c =? 0)%N with Invalid "turn.max_output_tokens must be positive" in
  fail_if (turn_max_input_tokens c =? 0)%N with Invalid "turn.max_input_tokens must be positive" in
  fail_if (turn_max_total_tokens c <? turn_max_output_tokens c)%N
  with Invalid "turn.max_total_tokens must be >= turn.max_output_tokens" in
  fail_if (turn_max_total_tokens c <? turn_max_input_tokens c)%N
  with Invalid "turn.max_total_tokens must be >= turn.max_input_tokens" in
  fail_if (turn_max_context_tokens c =? 0)%N with Invalid "turn.max_context_tokens must be positive" in
  fail_if (turn_max_llm_calls c =? 0)%N with Invalid "turn.max_llm_calls must be positive" in
  fail_if (turn_max_character_decisions c =? 0)%N with Invalid "turn.max_character_decisions must be positive" in
  fail_if (turn_max_validation_issues c =? 0)%N with Invalid "turn.max_validation_issues must be positive" in
  fail_if (turn_turn_timeout_ms c =? 0)%N with Invalid "turn.turn_timeout_ms must be positive" in
  Ok tt.

Record TurnContentLimitsConfig := {
  content_max_story_profile_bytes : N;
  content_max_instance_settings : N;
  content_max_instance_setting_bytes : N;
  content_max_summary_bytes : N;
  content_max_constraints : N;
  content_max_constraint_bytes : N;
  content_max_roles : N;
  content_max_role_bytes : N;
  content_max_recent_segments : N;
  content_max_recent_segment_bytes : N;
  content_max_recent_segment_tokens : N;
  content_max_plan_bytes : N;
  content_max_character_decision_bytes : N;
  content_max_story_text_bytes : N;
  content_max_state_extraction_bytes : N;
  content_max_knowledge_change_bytes : N;
  content_max_validation_issue_bytes : N;
}.
Definition TurnContentLimitsConfig_default : TurnContentLimitsConfig := {|
  content_max_story_profile_bytes := 4096;
  content_max_instance_settings := 32;
  content_max_instance_setting_bytes := 256;
  content_max_summary_bytes := 4096;
  content_max_constraints := 16;
  content_max_constraint_bytes := 512;
  content_max_roles := 16;
  content_max_role_bytes := 131072;
  content_max_recent_segments := 20;
  content_max_recent_segment_bytes := 8192;
  content_max_recent_segment_tokens := 2048;
  content_max_plan_bytes := 4096;
  content_max_character_decision_bytes := 1024;
  content_max_story_text_bytes := 16384;
  content_max_state_extraction_bytes := 32768;
  content_max_knowledge_change_bytes := 4096;
  content_max_validation_issue_bytes := 500;
|}.
Definition TurnContentLimitsConfig_validate (c : TurnContentLimitsConfig) : result ConfigError unit :=
  fail_if (content_max_story_profile_bytes c =? 0)%N
  with Invalid "content.max_story_profile_bytes must be positive" in
  fail_if (content_max_instance_settings c =? 0)%N with Invalid "content.max_instance_settings must be positive" in
  fail_if (content_max_instance_setting_bytes c =? 0)%N
  with Invalid "content.max_instance_setting_bytes must be positive" in
  fail_if (content_max_summary_bytes c =? 0)%N with Invalid "content.max_summary_bytes must be positive" in
  fail_if (content_max_constraints c =? 0)%N with Invalid "content.max_constraints must be positive" in
  fail_if (content_max_constraint_bytes c =? 0)%N with Invalid "content.max_constraint_bytes must be positive" in
  fail_if (content_max_roles c =? 0)%N with Invalid "content.max_roles must be positive" in
  fail_if (content_max_role_bytes c =? 0)%N with Invalid "content.max_role_bytes must be positive" in
  fail_if (content_max_recent_segments c =? 0)%N with Invalid "content.max_recent_segments must be positive" in
  fail_if (content_max_recent_segment_bytes c =? 0)%N
  with Invalid "content.max_recent_segment_bytes must be positive" in
  fail_if (content_max_recent_segment_tokens c =? 0)%N
  with Invalid "content.max_recent_segment_tokens must be positive" in
  fail_if (content_max_plan_bytes c =? 0)%N with Invalid "content.max_plan_bytes must be positive" in
  fail_if (content_max_character_decision_bytes c =? 0)%N
  with Invalid "content.max_character_decision_bytes must be positive" in
  fail_if (content_max_story_text_bytes c =? 0)%N with Invalid "content.max_story_text_bytes must be positive" in
  fail_if (content_max_state_extraction_bytes c =? 0)%N
  with Invalid "content.max_state_extraction_bytes must be positive" in
  fail_if (content_max_knowledge_change_bytes c =? 0)%N
  with Invalid "content.max_knowledge_change_bytes must be positive" in
  fail_if (content_max_state_extraction_bytes c <? content_max_knowledge_change_bytes c)%N
  with Invalid "content.max_state_extraction_bytes must be >= content.max_knowledge_change_bytes" in
  fail_if (content_max_validation_issue_bytes c =? 0)%N
  with Invalid "content.max_validation_issue_bytes must be positive" in
  Ok tt.

Definition MAX_NEW_ROLES_PER_TURN_HARD_BOUND : N := 16.

Record StateExtractorConfig := {
  extractor_max_context_tokens : N;
  extractor_max_output_tokens : N;
  extractor_max_new_roles_per_turn : N;
  extractor_max_role_states : N;
  extractor_max_relationship_states : N;
  extractor_max_knowledge_items : N;
  extractor_max_goals_per_role : N;
  extractor_max_attributes_per_role : N;
  extractor_max_role_profile_bytes : N;
  extractor_max_cast_policy_violations : N;
  extractor_max_knowledge_context_items : N;
  extractor_max_knowledge_context_tokens : N;
}.
Definition StateExtractorConfig_default : StateExtractorConfig := {|
  extractor_max_context_tokens := 4096;
  extractor_max_output_tokens := 2048;
  extractor_max_new_roles_per_turn := 4;
  extractor_max_role_states := 16;
  extractor_max_relationship_states := 64;
  extractor_max_knowledge_items := 32;
  extractor_max_goals_per_role := 16;
  extractor_max_attributes_per_role := 64;
  extractor_max_role_profile_bytes := 512;
  extractor_max_cast_policy_violations := 8;
  extractor_max_knowledge_context_items := 128;
  extractor_max_knowledge_context_tokens := 2048;
|}.
Definition StateExtractorConfig_validate (c : StateExtractorConfig) : result ConfigError unit :=
  fail_if (extractor_max_context_tokens c =? 0)%N
  with Invalid "state_extractor.max_context_tokens must be positive" in
  fail_if (extractor_max_output_tokens c =? 0)%N with Invalid "state_extractor.max_output_tokens must be positive" in
  fail_if ((extractor_max_new_roles_per_turn c =? 0) || (MAX_NEW_ROLES_PER_TURN_HARD_BOUND <? extractor_max_new_roles_per_turn c))%N
  with Invalid "state_extractor.max_new_roles_per_turn must be within 1..=16" in
  fail_if (extractor_max_role_states c =? 0)%N with Invalid "state_extractor.max_role_states must be positive" in
  fail_if (extractor_max_relationship_states c =? 0)%N
  with Invalid "state_extractor.max_relationship_states must be positive" in
  fail_if (extractor_max_knowledge_items c =? 0)%N
  with Invalid "state_extractor.max_knowledge_items must be positive" in
  fail_if (extractor_max_goals_per_role c =? 0)%N
  with Invalid "state_extractor.max_goals_per_role must be positive" in
  fail_if (extractor_max_attributes_per_role c =? 0)%N
  with Invalid "state_extractor.max_attributes_per_role must be positive" in
  fail_if (extractor_max_role_profile_bytes c =? 0)%N
  with Invalid "state_extractor.max_role_profile_bytes must be positive" in
  fail_if (extractor_max_cast_policy_violations c =? 0)%N
  with Invalid "state_extractor.max_cast_policy_violations must be positive" in
  fail_if (extractor_max_knowledge_context_items c =? 0)%N
  with Invalid "state_extractor.max_knowledge_context_items must be positive" in
  fail_if (extractor_max_knowledge_context_tokens c =? 0)%N
  with Invalid "state_extractor.max_knowledge_context_tokens must be positive" in
  Ok tt.

Record NarrativeConfig := {
  narrative_max_graph_nodes : N;
  narrative_max_graph_edges : N;
  narrative_max_condition_depth : N;
  narrative_max_conditions_per_node : N;
  narrative_max_effects_per_node : N;
  narrative_max_semantic_conditions : N;
  narrative_max_semantic_criterion_bytes : N;
  narrative_max_frontier_nodes : N;
  narrative_max_semantic_queries_per_turn : N;
  narrative_max_semantic_query_bytes : N;
  narrative_max_evidence_bytes : N;
  narrative_max_result_reason_bytes : N;
  narrative_max_transitions_per_turn : N;
  narrative_max_pending_effects : N;
}.
Definition NarrativeConfig_default : NarrativeConfig := {|
  narrative_max_graph_nodes := 256;
  narrative_max_graph_edges := 512;
  narrative_max_condition_depth := 8;
  narrative_max_conditions_per_node := 16;
  narrative_max_effects_per_node := 16;
  narrative_max_semantic_conditions := 64;
  narrative_max_semantic_criterion_bytes := 2048;
  narrative_max_frontier_nodes := 64;
  narrative_max_semantic_queries_per_turn := 32;
  narrative_max_semantic_query_bytes := 16384;
  narrative_max_evidence_bytes := 1024;
  narrative_max_result_reason_bytes := 1024;
  narrative_max_transitions_per_turn := 32;
  narrative_max_pending_effects := 128;
|}.
Definition NarrativeConfig_validate (c : NarrativeConfig) : result ConfigError unit :=
  fail_if (narrative_max_graph_nodes c =? 0)%N with Invalid "narrative.max_graph_nodes must be positive" in
  fail_if (narrative_max_graph_edges c =? 0)%N with Invalid "narrative.max_graph_edges must be positive" in
  fail_if (narrative_max_condition_depth c =? 0)%N with Invalid "narrative.max_condition_depth must be positive" in
  fail_if (narrative_max_conditions_per_node c =? 0)%N
  with Invalid "narrative.max_conditions_per_node must be positive" in
  fail_if (narrative_max_effects_per_node c =? 0)%N with Invalid "narrative.max_effects_per_node must be positive" in
  fail_if (narrative_max_semantic_conditions c =? 0)%N
  with Invalid "narrative.max_semantic_conditions must be positive" in
  fail_if (narrative_max_semantic_criterion_bytes c =? 0)%N
  with Invalid "narrative.max_semantic_criterion_bytes must be positive" in
  fail_if (narrative_max_frontier_nodes c =? 0)%N with Invalid "narrative.max_frontier_nodes must be positive" in
  fail_if (narrative_max_semantic_queries_per_turn c =? 0)%N
  with Invalid "narrative.max_semantic_queries_per_turn must be positive" in
  fail_if (narrative_max_semantic_query_bytes c =? 0)%N
  with Invalid "narrative.max_semantic_query_bytes must be positive" in
  fail_if (narrative_max_evidence_bytes c =? 0)%N with Invalid "narrative.max_evidence_bytes must be positive" in
  fail_if (narrative_max_result_reason_bytes c =? 0)%N
  with Invalid "narrative.max_result_reason_bytes must be positive" in
  fail_if (narrative_max_transitions_per_turn c =? 0)%N
  with Invalid "narrative.max_transitions_per_turn must be positive" in
  fail_if (narrative_max_pending_effects c =? 0)%N with Invalid "narrative.max_pending_effects must be positive" in
  Ok tt.

Record RetrievalConfig := {
  retrieval_max_requests : N;
  retrieval_max_candidates_total : N;
  retrieval_max_items_per_audience : N;
  retrieval_max_tokens_per_audience : N;
  retrieval_max_total_items : N;
  retrieval_max_total_tokens : N;
  retrieval_max_item_bytes : N;
}.
Definition RetrievalConfig_default : RetrievalConfig := {|
  retrieval_max_requests := 16;
  retrieval_max_candidates_total := 64;
  retrieval_max_items_per_audience := 10;
  retrieval_max_tokens_per_audience := 2048;
  retrieval_max_total_items := 20;
  retrieval_max_total_tokens := 4096;
  retrieval_max_item_bytes := 4096;
|}.
Definition RetrievalConfig_validate (c : RetrievalConfig) : result ConfigError unit :=
  fail_if (retrieval_max_requests c =? 0)%N with Invalid "retrieval.max_requests must be positive" in
  fail_if (retrieval_max_candidates_total c =? 0)%N with Invalid "retrieval.max_candidates_total must be positive" in
  fail_if (retrieval_max_items_per_audience c =? 0)%N
  with Invalid "retrieval.max_items_per_audience must be positive" in
  fail_if (retrieval_max_candidates_total c <? retrieval_max_items_per_audience c)%N
  with Invalid "retrieval.max_candidates_total must be >= retrieval.max_items_per_audience" in
  fail_if (retrieval_max_tokens_per_audience c =? 0)%N
  with Invalid "retrieval.max_tokens_per_audience must be positive" in
  fail_if (retrieval_max_total_items c =? 0)%N with Invalid "retrieval.max_total_items must be positive" in
  fail_if (retrieval_max_total_items c <? retrieval_max_items_per_audience c)%N
  with Invalid "retrieval.max_total_items must be >= retrieval.max_items_per_audience" in
  fail_if (retrieval_max_total_tokens c =? 0)%N with Invalid "retrieval.max_total_tokens must be positive" in
  fail_if (retrieval_max_total_tokens c <? retrieval_max_tokens_per_audience c)%N
  with Invalid "retrieval.max_total_tokens must be >= retrieval.max_tokens_per_audience" in
  fail_if (retrieval_max_item_bytes c =? 0)%N with Invalid "retrieval.max_item_bytes must be positive" in
  Ok tt.

Record ContextPreparationConfig := {
  context_max_relevant_roles : N;
  context_max_role_index : N;
  context_max_dialogue_examples_per_role : N;
  context_max_dialogue_example_tokens_per_role : N;
  context_max_relationships : N;
  context_max_condition_event_keys : N;
  context_max_condition_fact_values : N;
}.
Definition ContextPreparationConfig_default : ContextPreparationConfig := {|
  context_max_relevant_roles := 8;
  context_max_role_index := 16;
  context_max_dialogue_examples_per_role := 4;
  context_max_dialogue_example_tokens_per_role := 256;
  context_max_relationships := 64;
  context_max_condition_event_keys := 256;
  context_max_condition_fact_values := 256;
|}.
Definition ContextPreparationConfig_validate (c : ContextPreparationConfig) : result ConfigError unit :=
  fail_if (context_max_relevant_roles c =? 0)%N with Invalid "context.max_relevant_roles must be positive" in
  fail_if (context_max_role_index c =? 0)%N with Invalid "context.max_role_index must be positive" in
  fail_if (context_max_dialogue_examples_per_role c =? 0)%N
  with Invalid "context.max_dialogue_examples_per_role must be positive" in
  fail_if (context_max_dialogue_example_tokens_per_role c =? 0)%N
  with Invalid "context.max_dialogue_example_tokens_per_role must be positive" in
  fail_if (context_max_relationships c =? 0)%N with Invalid "context.max_relationships must be positive" in
  fail_if (context_max_condition_event_keys c =? 0)%N
  with Invalid "context.max_condition_event_keys must be positive" in
  fail_if (context_max_condition_fact_values c =? 0)%N
  with Invalid "context.max_condition_fact_values must be positive" in
  Ok tt.

Record PlannerConfig := {
  planner_max_context_gaps : N;
  planner_max_character_think_requests : N;
  planner_max_goal_bytes : N;
  planner_max_reason_bytes : N;
}.
Definition PlannerConfig_default : PlannerConfig := {|
  planner_max_context_gaps := 8;
  planner_max_character_think_requests := 8;
  planner_max_goal_bytes := 512;
  planner_max_reason_bytes := 256;
|}.
Definition PlannerConfig_validate (c : PlannerConfig) : result ConfigError unit :=
  fail_if (planner_max_context_gaps c =? 0)%N with Invalid "planner.max_context_gaps must be positive" in
  fail_if (planner_max_character_think_requests c =? 0)%N
  with Invalid "planner.max_character_think_requests must be positive" in
  fail_if (planner_max_goal_bytes c =? 0)%N with Invalid "planner.max_goal_bytes must be positive" in
  fail_if (planner_max_reason_bytes c =? 0)%N with Invalid "planner.max_reason_bytes must be positive" in
  Ok tt.

Record CharacterThinkConfig := {
  think_max_input_tokens : N;
  think_max_output_tokens : N;
  think_max_thinking_focus_bytes : N;
  think_max_field_bytes : N;
  think_max_total_output_bytes : N;
}.
Definition CharacterThinkConfig_default : CharacterThinkConfig := {|
  think_max_input_tokens := 4096;
  think_max_output_tokens := 512;
  think_max_thinking_focus_bytes := 256;
  think_max_field_bytes := 512;
  think_max_total_output_bytes := 1024;
|}.
Definition CharacterThinkConfig_validate (c : CharacterThinkConfig) : result ConfigError unit :=
  fail_if (think_max_input_tokens c =? 0)%N with Invalid "character_think.max_input_tokens must be positive" in
  fail_if (think_max_output_tokens c =? 0)%N with Invalid "character_think.max_output_tokens must be positive" in
  fail_if (think_max_thinking_focus_bytes c =? 0)%N
  with Invalid "character_think.max_thinking_focus_bytes must be positive" in
  fail_if (think_max_field_bytes c =? 0)%N with Invalid "character_think.max_field_bytes must be positive" in
  fail_if (think_max_total_output_bytes c =? 0)%N
  with Invalid "character_think.max_total_output_bytes must be positive" in
  Ok tt.

Record CoordinatorConfig := {
  coordinator_max_waiters_per_story : N;
  coordinator_max_total_waiters : N;
  coordinator_idle_timeout_secs : N;
}.
Definition CoordinatorConfig_default : CoordinatorConfig := {|
  coordinator_max_waiters_per_story := 16;
  coordinator_max_total_waiters := 256;
  coordinator_idle_timeout_secs := 300;
|}.
Definition CoordinatorConfig_validate (c : CoordinatorConfig) : result ConfigError unit :=
  fail_if (coordinator_max_waiters_per_story c =? 0)%N
  with Invalid "coordinator.max_waiters_per_story must be positive" in
  fail_if (coordinator_max_total_waiters c =? 0)%N with Invalid "coordinator.max_total_waiters must be positive" in
  fail_if (coordinator_idle_timeout_secs c =? 0)%N with Invalid "coordinator.idle_timeout_secs must be positive" in
  Ok tt.

Definition MAX_ROLE_ID_BYTES : N := 128.

Record AssetLimitsConfig := {
  assets_max_key_bytes : N;
  assets_max_text_bytes : N;
  assets_max_tags_per_item : N;
  assets_max_roles : N;
  assets_max_profile_name_bytes : N;
  assets_max_profile_appearance_bytes : N;
  assets_max_profile_personality_bytes : N;
  assets_max_profile_speaking_style_bytes : N;
  assets_max_profile_total_bytes : N;
  assets_max_dialogue_examples_per_profile : N;
  assets_max_dialogue_situation_bytes : N;
  assets_max_dialogue_response_bytes : N;
  assets_max_role_background_bytes : N;
  assets_max_world_facts : N;
  assets_max_world_rumors : N;
  assets_max_seed_memories_per_role : N;
  assets_max_relationships_per_role : N;
  assets_max_manifest_bytes : N;
  assets_max_compressed_pack_bytes : N;
  assets_max_uncompressed_pack_bytes : N;
  assets_max_compression_ratio : N;
  assets_max_asset_files : N;
  assets_max_single_asset_bytes : N;
  assets_max_validation_issues : N;
}.
Definition AssetLimitsConfig_default : AssetLimitsConfig := {|
  assets_max_key_bytes := 128;
  assets_max_text_bytes := 32768;
  assets_max_tags_per_item := 32;
  assets_max_roles := 32;
  assets_max_profile_name_bytes := 256;
  assets_max_profile_appearance_bytes := 2048;
  assets_max_profile_personality_bytes := 4096;
  assets_max_profile_speaking_style_bytes := 2048;
  assets_max_profile_total_bytes := 65536;
  assets_max_dialogue_examples_per_profile := 16;
  assets_max_dialogue_situation_bytes := 1024;
  assets_max_dialogue_response_bytes := 2048;
  assets_max_role_background_bytes := 16384;
  assets_max_world_facts := 512;
  assets_max_world_rumors := 256;
  assets_max_seed_memories_per_role := 32;
  assets_max_relationships_per_role := 32;
  assets_max_manifest_bytes := 524288;
  assets_max_compressed_pack_bytes := 33554432;
  assets_max_uncompressed_pack_bytes := 134217728;
  assets_max_compression_ratio := 64;
  assets_max_asset_files := 1024;
  assets_max_single_asset_bytes := 16777216;
  assets_max_validation_issues := 64;
|}.
Definition AssetLimitsConfig_validate (c : AssetLimitsConfig) : result ConfigError unit :=
  fail_if (assets_max_key_bytes c =? 0)%N with Invalid "assets.max_key_bytes must be positive" in
  fail_if (MAX_ROLE_ID_BYTES <? assets_max_key_bytes c)%N
  with Invalid "assets.max_key_bytes must be at most RoleId::MAX_BYTES" in
  fail_if (assets_max_text_bytes c =? 0)%N with Invalid "assets.max_text_bytes must be positive" in
  fail_if (assets_max_tags_per_item c =? 0)%N with Invalid "assets.max_tags_per_item must be positive" in
  fail_if (assets_max_roles c =? 0)%N with Invalid "assets.max_roles must be positive" in
  fail_if (assets_max_profile_name_bytes c =? 0)%N with Invalid "assets.max_profile_name_bytes must be positive" in
  fail_if (assets_max_profile_appearance_bytes c =? 0)%N
  with Invalid "assets.max_profile_appearance_bytes must be positive" in
  fail_if (assets_max_profile_personality_bytes c =? 0)%N
  with Invalid "assets.max_profile_personality_bytes must be positive" in
  fail_if (assets_max_profile_speaking_style_bytes c =? 0)%N
  with Invalid "assets.max_profile_speaking_style_bytes must be positive" in
  fail_if (assets_max_profile_total_bytes c =? 0)%N with Invalid "assets.max_profile_total_bytes must be positive" in
  fail_if (assets_max_dialogue_examples_per_profile c =? 0)%N
  with Invalid "assets.max_dialogue_examples_per_profile must be positive" in
  fail_if (assets_max_dialogue_situation_bytes c =? 0)%N
  with Invalid "assets.max_dialogue_situation_bytes must be positive" in
  fail_if (assets_max_dialogue_response_bytes c =? 0)%N
  with Invalid "assets.max_dialogue_response_bytes must be positive" in
  fail_if (assets_max_role_background_bytes c =? 0)%N
  with Invalid "assets.max_role_background_bytes must be positive" in
  fail_if (assets_max_world_facts c =? 0)%N with Invalid "assets.max_world_facts must be positive" in
  fail_if (assets_max_world_rumors c =? 0)%N with Invalid "assets.max_world_rumors must be positive" in
  fail_if (assets_max_seed_memories_per_role c =? 0)%N
  with Invalid "assets.max_seed_memories_per_role must be positive" in
  fail_if (assets_max_relationships_per_role c =? 0)%N
  with Invalid "assets.max_relationships_per_role must be positive" in
  fail_if (assets_max_manifest_bytes c =? 0)%N with Invalid "assets.max_manifest_bytes must be positive" in
  fail_if (assets_max_compressed_pack_bytes c =? 0)%N
  with Invalid "assets.max_compressed_pack_bytes must be positive" in
  fail_if (assets_max_uncompressed_pack_bytes c =? 0)%N
  with Invalid "assets.max_uncompressed_pack_bytes must be positive" in
  fail_if (assets_max_uncompressed_pack_bytes c <? assets_max_compressed_pack_bytes c)%N
  with Invalid "assets.max_uncompressed_pack_bytes must be >= assets.max_compressed_pack_bytes" in
  fail_if (assets_max_compression_ratio c =? 0)%N with Invalid "assets.max_compression_ratio must be positive" in
  fail_if (assets_max_asset_files c =? 0)%N with Invalid "assets.max_asset_files must be positive" in
  fail_if (assets_max_single_asset_bytes c =? 0)%N with Invalid "assets.max_single_asset_bytes must be positive" in
  fail_if (assets_max_validation_issues c =? 0)%N with Invalid "assets.max_validation_issues must be positive" in
  Ok tt.

Record StoryHistoryConfig := {
  history_default_page_size : N;
  history_max_page_size : N;
  history_max_player_contribution_bytes : N;
  history_max_story_text_bytes : N;
}.
Definition StoryHistoryConfig_default : StoryHistoryConfig := {|
  history_default_page_size := 20;
  history_max_page_size := 100;
  history_max_player_contribution_bytes := 16384;
  history_max_story_text_bytes := 65536;
|}.
(** [Err] with a static string, wrapped by [AiseConfig::validate]. *)
Definition StoryHistoryConfig_validate (c : StoryHistoryConfig) : result string unit :=
  fail_if ((history_default_page_size c =? 0) || (history_max_page_size c =? 0)
    || (history_max_player_contribution_bytes c =? 0) || (history_max_story_text_bytes c =? 0)
    || (history_max_page_size c <? history_default_page_size c))%N
  with "story history limits are invalid" in
  Ok tt.

Inductive PromptCatalogSourceConfig := Prompt_Packaged | Prompt_Directory (path : string).
Record PromptModuleConfig := { prompt_source : PromptCatalogSourceConfig }.
Definition PromptModuleConfig_default : PromptModuleConfig := {| prompt_source := Prompt_Packaged |}.
Definition PromptModuleConfig_validate (c : PromptModuleConfig) : result ConfigError unit :=
  fail_if match prompt_source c with Prompt_Directory path => is_empty path | Prompt_Packaged => false end
  with Invalid "prompt source directory must not be empty" in
  Ok tt.

Record StorageConfig := { storage_database_url : string }.
Definition StorageConfig_default : StorageConfig := {| storage_database_url := "data/aise.db" |}.
Definition StorageConfig_validate (c : StorageConfig) : result ConfigError unit :=
  fail_if is_blank (storage_database_url c) with Invalid "storage.database_url must not be empty" in
  Ok tt.

(** ** The model *)

Inductive ThinkingMode := Thinking_Enabled | Thinking_Disabled.
Inductive StructuredOutputMode := NativeJsonSchema | ForcedStrictTool | JsonObject | PromptFallback.
#[global] Instance StructuredOutputMode_eq_dec : EqDecision StructuredOutputMode. Proof. solve_decision. Defined.
Definition PREFERENCE_ORDER : list StructuredOutputMode :=
  [NativeJsonSchema; ForcedStrictTool; JsonObject; PromptFallback].
Definition output_mode_as_str (m : StructuredOutputMode) : string :=
  match m with
  | NativeJsonSchema => "native_json_schema" | ForcedStrictTool => "forced_strict_tool"
  | JsonObject => "json_object" | PromptFallback => "prompt_fallback"
  end.
Definition injects_prompt_contract (m : StructuredOutputMode) : bool :=
  match m with JsonObject | PromptFallback => true | _ => false end.
Record ModelStructuredOutputCapabilities := {
  moc_provider : string; moc_model : string; supported_modes : list StructuredOutputMode;
}.
Record StructuredOutputConfig := {
  default_modes : list StructuredOutputMode; model_capabilities : list ModelStructuredOutputCapabilities;
}.
Definition StructuredOutputConfig_default : StructuredOutputConfig :=
  {| default_modes := [PromptFallback]; model_capabilities := [] |}.
Definition has_duplicate_modes (modes : list StructuredOutputMode) : bool := negb (bool_decide (NoDup modes)).

(** One entry of the capabilities: the pairs seen so far. *)
Definition check_capability (seen : gset (string * string)) (entry : ModelStructuredOutputCapabilities) :
    result ConfigError (gset (string * string)) :=
  fail_if is_blank (moc_provider entry) || is_blank (moc_model entry)
  with Invalid "llm.structured_output.model_capabilities entry has an empty provider or model" in
  fail_if (nlen (supported_modes entry) =? 0)%N
  with Invalid "llm.structured_output.model_capabilities entry has an empty supported_modes list" in
  fail_if has_duplicate_modes (supported_modes entry)
  with Invalid "llm.structured_output.model_capabilities entry has a duplicate supported mode" in
  fail_if bool_decide ((moc_provider entry, moc_model entry) ∈ seen)
  with Invalid "llm.structured_output.model_capabilities has a duplicate (provider, model) entry" in
  Ok ({[(moc_provider entry, moc_model entry)]} ∪ seen).

Definition StructuredOutputConfig_validate (c : StructuredOutputConfig) : result ConfigError unit :=
  fail_if (nlen (default_modes c) =? 0)%N with Invalid "llm.structured_output.default_modes must not be empty" in
  fail_if has_duplicate_modes (default_modes c)
  with Invalid "llm.structured_output.default_modes contains a duplicate mode" in
  let? _ := try_fold check_capability ∅ (model_capabilities c) in
  Ok tt.

Definition configured_modes (c : StructuredOutputConfig) (provider model : string) : list StructuredOutputMode :=
  match list_find (λ entry, moc_provider entry = provider ∧ moc_model entry = model) (model_capabilities c) with
  | Some (_, entry) => supported_modes entry
  | None => default_modes c
  end.

Record LlmProtocolLimitsConfig := {
  protocol_max_sse_line_bytes : N;
  protocol_max_stream_buffer_bytes : N;
  protocol_max_content_bytes : N;
  protocol_max_reasoning_bytes : N;
  protocol_max_embedding_items : N;
  protocol_max_embedding_dimensions : N;
}.
Definition LlmProtocolLimitsConfig_default : LlmProtocolLimitsConfig := {|
  protocol_max_sse_line_bytes := 16384;
  protocol_max_stream_buffer_bytes := 262144;
  protocol_max_content_bytes := 65536;
  protocol_max_reasoning_bytes := 32768;
  protocol_max_embedding_items := 256;
  protocol_max_embedding_dimensions := 4096;
|}.
Definition LlmProtocolLimitsConfig_validate (c : LlmProtocolLimitsConfig) : result ConfigError unit :=
  fail_if (protocol_max_sse_line_bytes c =? 0)%N with Invalid "llm.protocol.max_sse_line_bytes must be positive" in
  fail_if (protocol_max_stream_buffer_bytes c =? 0)%N
  with Invalid "llm.protocol.max_stream_buffer_bytes must be positive" in
  fail_if (protocol_max_content_bytes c =? 0)%N with Invalid "llm.protocol.max_content_bytes must be positive" in
  fail_if (protocol_max_reasoning_bytes c =? 0)%N with Invalid "llm.protocol.max_reasoning_bytes must be positive" in
  fail_if (protocol_max_embedding_items c =? 0)%N with Invalid "llm.protocol.max_embedding_items must be positive" in
  fail_if (protocol_max_embedding_dimensions c =? 0)%N
  with Invalid "llm.protocol.max_embedding_dimensions must be positive" in
  Ok tt.

Record LlmConfig := {
  llm_base_url : string;
  llm_api_key : option string;
  llm_model : string;
  llm_max_concurrent : N;
  llm_temperature : spec_float;
  llm_queue_timeout_ms : N;
  llm_provider_timeout_ms : N;
  llm_requests_per_minute : option N;
  llm_tokens_per_minute : option N;
  llm_thinking : option ThinkingMode;
  llm_price_input_per_1k_tokens : option Z;
  llm_price_cached_input_per_1k_tokens : option Z;
  llm_price_output_per_1k_tokens : option Z;
  llm_protocol : LlmProtocolLimitsConfig;
  llm_structured_output : StructuredOutputConfig;
}.
(** [0.8_f32] *)
Definition default_temperature : spec_float := S754_finite false 13421773 (-24).
Definition LlmConfig_default : LlmConfig := {|
  llm_base_url := "http://localhost:11434/v1";
  llm_api_key := None;
  llm_model := "qwen2.5";
  llm_max_concurrent := 4;
  llm_temperature := default_temperature;
  llm_queue_timeout_ms := 5000;
  llm_provider_timeout_ms := 30000;
  llm_requests_per_minute := None;
  llm_tokens_per_minute := None;
  llm_thinking := None;
  llm_price_input_per_1k_tokens := None;
  llm_price_cached_input_per_1k_tokens := None;
  llm_price_output_per_1k_tokens := None;
  llm_protocol := LlmProtocolLimitsConfig_default;
  llm_structured_output := StructuredOutputConfig_default;
|}.
Definition LlmConfig_validate (c : LlmConfig) : result ConfigError unit :=
  fail_if (llm_max_concurrent c =? 0)%N with Invalid "llm.max_concurrent must be positive" in
  fail_if is_blank (llm_base_url c) with Invalid "llm.base_url must not be empty" in
  fail_if is_blank (llm_model c) with Invalid "llm.model must not be empty" in
  fail_if (llm_queue_timeout_ms c =? 0)%N with Invalid "llm.queue_timeout_ms must be positive" in
  fail_if (llm_provider_timeout_ms c =? 0)%N with Invalid "llm.provider_timeout_ms must be positive" in
  let? _ := LlmProtocolLimitsConfig_validate (llm_protocol c) in
  let? _ := StructuredOutputConfig_validate (llm_structured_output c) in
  Ok tt.

(** ** Activation *)

Definition MAX_ACTIVATION_GROUP_KEY_BYTES : N := 128.
Record ActivationRuleLimitsConfig := {
  arule_max_primary_patterns_per_entry : N;
  arule_max_secondary_patterns_per_entry : N;
  arule_max_pattern_bytes : N;
  arule_max_regex_program_bytes : N;
  arule_max_groups_per_entry : N;
  arule_max_group_key_bytes : N;
  arule_max_macro_value_bytes : N;
  arule_max_macro_expansion_bytes : N;
}.
Record ActivationIndexLimits := {
  aindex_max_entries : N;
  aindex_max_overlay_entries : N;
  aindex_max_tombstones : N;
  aindex_max_literal_patterns : N;
  aindex_max_regex_patterns : N;
  aindex_max_compiled_bytes : N;
}.
Record ActivationRuntimeLimits := {
  aruntime_minimum_activations : N;
  aruntime_initial_scan_depth : N;
  aruntime_max_scan_depth : N;
  aruntime_include_summary_at_max_depth : bool;
  aruntime_max_scan_fragments : N;
  aruntime_max_scan_bytes : N;
  aruntime_max_scan_tokens : N;
  aruntime_max_literal_patterns : N;
  aruntime_max_regex_patterns : N;
  aruntime_max_pattern_matches : N;
  aruntime_max_candidates_per_round : N;
  aruntime_max_recursion_steps : N;
  aruntime_max_recursion_fragments : N;
  aruntime_max_recursion_bytes : N;
  aruntime_max_recursion_tokens : N;
  aruntime_max_activated_entries : N;
  aruntime_max_depth_expansions : N;
  aruntime_max_external_candidates : N;
  aruntime_max_evidence_per_entry : N;
  aruntime_max_evidence_bytes : N;
  aruntime_max_items_per_audience : N;
  aruntime_max_tokens_per_audience : N;
  aruntime_max_total_items : N;
  aruntime_max_total_tokens : N;
  aruntime_max_single_entry_bytes : N;
  aruntime_reserved_tokens : N;
  aruntime_mandatory_tokens : N;
}.
Record FragmentMatchCacheLimits := {
  acache_max_cached_stories : N;
  acache_max_fragments_per_story : N;
  acache_max_matches_per_fragment : N;
  acache_max_evidence_bytes_per_fragment : N;
  acache_max_total_estimated_bytes : N;
}.
Record ActivationConfig := {
  activation_rule : ActivationRuleLimitsConfig;
  activation_index : ActivationIndexLimits;
  activation_runtime : ActivationRuntimeLimits;
  activation_cache : FragmentMatchCacheLimits;
}.
Definition ActivationConfig_default : ActivationConfig := {|
  activation_rule := {|
    arule_max_primary_patterns_per_entry := 32;
    arule_max_secondary_patterns_per_entry := 32;
    arule_max_pattern_bytes := 1024;
    arule_max_regex_program_bytes := 65536;
    arule_max_groups_per_entry := 8;
    arule_max_group_key_bytes := MAX_ACTIVATION_GROUP_KEY_BYTES;
    arule_max_macro_value_bytes := 1024;
    arule_max_macro_expansion_bytes := 4096;
  |};
  activation_index := {|
    aindex_max_entries := 2048;
    aindex_max_overlay_entries := 512;
    aindex_max_tombstones := 512;
    aindex_max_literal_patterns := 8192;
    aindex_max_regex_patterns := 1024;
    aindex_max_compiled_bytes := 16777216;
  |};
  activation_runtime := {|
    aruntime_minimum_activations := 0;
    aruntime_initial_scan_depth := 1;
    aruntime_max_scan_depth := 8;
    aruntime_include_summary_at_max_depth := true;
    aruntime_max_scan_fragments := 64;
    aruntime_max_scan_bytes := 262144;
    aruntime_max_scan_tokens := 65536;
    aruntime_max_literal_patterns := 8192;
    aruntime_max_regex_patterns := 1024;
    aruntime_max_pattern_matches := 16384;
    aruntime_max_candidates_per_round := 2048;
    aruntime_max_recursion_steps := 8;
    aruntime_max_recursion_fragments := 64;
    aruntime_max_recursion_bytes := 131072;
    aruntime_max_recursion_tokens := 32768;
    aruntime_max_activated_entries := 256;
    aruntime_max_depth_expansions := 8;
    aruntime_max_external_candidates := 256;
    aruntime_max_evidence_per_entry := 32;
    aruntime_max_evidence_bytes := 262144;
    aruntime_max_items_per_audience := 128;
    aruntime_max_tokens_per_audience := 16384;
    aruntime_max_total_items := 256;
    aruntime_max_total_tokens := 32768;
    aruntime_max_single_entry_bytes := 32768;
    aruntime_reserved_tokens := 4096;
    aruntime_mandatory_tokens := 4096;
  |};
  activation_cache := {|
    acache_max_cached_stories := 64;
    acache_max_fragments_per_story := 128;
    acache_max_matches_per_fragment := 1024;
    acache_max_evidence_bytes_per_fragment := 16384;
    acache_max_total_estimated_bytes := 67108864;
  |};
|}.

(** The limits that must be positive. *)
Definition positive_limits (c : ActivationConfig) : list N := [
  arule_max_primary_patterns_per_entry (activation_rule c);
  arule_max_secondary_patterns_per_entry (activation_rule c);
  arule_max_pattern_bytes (activation_rule c);
  arule_max_regex_program_bytes (activation_rule c);
  arule_max_groups_per_entry (activation_rule c);
  arule_max_group_key_bytes (activation_rule c);
  arule_max_macro_value_bytes (activation_rule c);
  arule_max_macro_expansion_bytes (activation_rule c);
  aindex_max_entries (activation_index c);
  aindex_max_overlay_entries (activation_index c);
  aindex_max_tombstones (activation_index c);
  aindex_max_literal_patterns (activation_index c);
  aindex_max_regex_patterns (activation_index c);
  aindex_max_compiled_bytes (activation_index c);
  acache_max_cached_stories (activation_cache c);
  acache_max_fragments_per_story (activation_cache c);
  acache_max_matches_per_fragment (activation_cache c);
  acache_max_evidence_bytes_per_fragment (activation_cache c);
  acache_max_total_estimated_bytes (activation_cache c);
  aruntime_initial_scan_depth (activation_runtime c);
  aruntime_max_scan_depth (activation_runtime c);
  aruntime_max_scan_fragments (activation_runtime c);
  aruntime_max_scan_bytes (activation_runtime c);
  aruntime_max_scan_tokens (activation_runtime c);
  aruntime_max_literal_patterns (activation_runtime c);
  aruntime_max_regex_patterns (activation_runtime c);
  aruntime_max_pattern_matches (activation_runtime c);
  aruntime_max_candidates_per_round (activation_runtime c);
  aruntime_max_recursion_steps (activation_runtime c);
  aruntime_max_recursion_fragments (activation_runtime c);
  aruntime_max_recursion_bytes (activation_runtime c);
  aruntime_max_recursion_tokens (activation_runtime c);
  aruntime_max_activated_entries (activation_runtime c);
  aruntime_max_depth_expansions (activation_runtime c);
  aruntime_max_external_candidates (activation_runtime c);
  aruntime_max_evidence_per_entry (activation_runtime c);
  aruntime_max_evidence_bytes (activation_runtime c);
  aruntime_max_items_per_audience (activation_runtime c);
  aruntime_max_tokens_per_audience (activation_runtime c);
  aruntime_max_total_items (activation_runtime c);
  aruntime_max_total_tokens (activation_runtime c);
  aruntime_max_single_entry_bytes (activation_runtime c)
].

Definition ActivationConfig_validate (c : ActivationConfig) : result ConfigError unit :=
  let runtime := activation_runtime c in
  fail_if existsb (N.eqb 0) (positive_limits c) with Invalid "activation maximums must be positive" in
  fail_if (aruntime_max_scan_depth runtime <? aruntime_initial_scan_depth runtime)%N
  with Invalid "activation initial scan depth exceeds maximum" in
  fail_if (MAX_ACTIVATION_GROUP_KEY_BYTES <? arule_max_group_key_bytes (activation_rule c))%N
  with Invalid "activation group key limit exceeds type limit" in
  fail_if ((aruntime_max_total_tokens runtime <? aruntime_reserved_tokens runtime)
    || (aruntime_max_total_tokens runtime <? aruntime_mandatory_tokens runtime)
    || (aruntime_max_total_tokens runtime
        <? sat_add U64_MAX (aruntime_reserved_tokens runtime) (aruntime_mandatory_tokens runtime)))%N
  with Invalid "activation reserved budgets exceed total budget" in
  fail_if ((aruntime_max_total_items runtime <? aruntime_max_items_per_audience runtime)
    || (aruntime_max_total_tokens runtime <? aruntime_max_tokens_per_audience runtime))%N
  with Invalid "activation audience budgets exceed total budget" in
  Ok tt.

(** ** The whole configuration *)

Record AiseConfig := {
  cfg_llm : LlmConfig;
  cfg_storage : StorageConfig;
  cfg_turn : TurnConfig;
  cfg_coordinator : CoordinatorConfig;
  cfg_content : TurnContentLimitsConfig;
  cfg_character_think : CharacterThinkConfig;
  cfg_context : ContextPreparationConfig;
  cfg_planner : PlannerConfig;
  cfg_retrieval : RetrievalConfig;
  cfg_assets : AssetLimitsConfig;
  cfg_prompt : PromptModuleConfig;
  cfg_story_history : StoryHistoryConfig;
  cfg_state_extractor : StateExtractorConfig;
  cfg_narrative : NarrativeConfig;
  cfg_activation : ActivationConfig;
}.
Definition AiseConfig_default : AiseConfig := {|
  cfg_llm := LlmConfig_default;
  cfg_storage := StorageConfig_default;
  cfg_turn := TurnConfig_default;
  cfg_coordinator := CoordinatorConfig_default;
  cfg_content := TurnContentLimitsConfig_default;
  cfg_character_think := CharacterThinkConfig_default;
  cfg_context := ContextPreparationConfig_default;
  cfg_planner := PlannerConfig_default;
  cfg_retrieval := RetrievalConfig_default;
  cfg_assets := AssetLimitsConfig_default;
  cfg_prompt := PromptModuleConfig_default;
  cfg_story_history := StoryHistoryConfig_default;
  cfg_state_extractor := StateExtractorConfig_default;
  cfg_narrative := NarrativeConfig_default;
  cfg_activation := ActivationConfig_default;
|}.

Definition AiseConfig_validate (c : AiseConfig) : result ConfigError unit :=
  let? _ := LlmConfig_validate (cfg_llm c) in
  let? _ := StorageConfig_validate (cfg_storage c) in
  let? _ := TurnConfig_validate (cfg_turn c) in
  let? _ := CoordinatorConfig_validate (cfg_coordinator c) in
  let? _ := TurnContentLimitsConfig_validate (cfg_content c) in
  let? _ := CharacterThinkConfig_validate (cfg_character_think c) in
  let? _ := ContextPreparationConfig_validate (cfg_context c) in
  let? _ := PlannerConfig_validate (cfg_planner c) in
  let? _ := RetrievalConfig_validate (cfg_retrieval c) in
  let? _ := AssetLimitsConfig_validate (cfg_assets c) in
  let? _ := PromptModuleConfig_validate (cfg_prompt c) in
  let? _ := map_err Invalid (StoryHistoryConfig_validate (cfg_story_history c)) in
  let? _ := StateExtractorConfig_validate (cfg_state_extractor c) in
  let? _ := NarrativeConfig_validate (cfg_narrative c) in
  let? _ := ActivationConfig_validate (cfg_activation c) in
  fail_if (content_max_roles (cfg_content c) <? context_max_relevant_roles (cfg_context c))%N
  with Invalid "context.max_relevant_roles must be <= content.max_roles" in
  fail_if (content_max_roles (cfg_content c) <? context_max_role_index (cfg_context c))%N
  with Invalid "context.max_role_index must be <= content.max_roles" in
  fail_if (turn_max_character_decisions (cfg_turn c) <? planner_max_character_think_requests (cfg_planner c))%N
  with Invalid "planner.max_character_think_requests must be <= turn.max_character_decisions" in
  fail_if (content_max_character_decision_bytes (cfg_content c) <? think_max_total_output_bytes (cfg_character_think c))%N
  with Invalid "character_think.max_total_output_bytes must be <= content.max_character_decision_bytes" in
  fail_if (think_max_thinking_focus_bytes (cfg_character_think c) <? planner_max_reason_bytes (cfg_planner c))%N
  with Invalid "planner.max_reason_bytes must be <= character_think.max_thinking_focus_bytes" in
  fail_if (extractor_max_role_states (cfg_state_extractor c) <? content_max_roles (cfg_content c))%N
  with Invalid "state_extractor.max_role_states must be >= content.max_roles" in
  fail_if (extractor_max_relationship_states (cfg_state_extractor c) <? context_max_relationships (cfg_context c))%N
  with Invalid "state_extractor.max_relationship_states must be >= context.max_relationships" in
  fail_if (turn_max_input_tokens (cfg_turn c) <? extractor_max_context_tokens (cfg_state_extractor c))%N
  with Invalid "state_extractor.max_context_tokens must be <= turn.max_input_tokens" in
  fail_if (turn_max_output_tokens (cfg_turn c) <? extractor_max_output_tokens (cfg_state_extractor c))%N
  with Invalid "state_extractor.max_output_tokens must be <= turn.max_output_tokens" in
  fail_if (turn_max_total_tokens (cfg_turn c)
    <? sat_add U64_MAX (extractor_max_context_tokens (cfg_state_extractor c))
         (extractor_max_output_tokens (cfg_state_extractor c)))%N
  with Invalid "state_extractor context and output tokens must be <= turn.max_total_tokens" in
  let role_aggregate_bound :=
    sat_add USIZE_MAX (sat_add USIZE_MAX (assets_max_profile_total_bytes (cfg_assets c))
      (assets_max_role_background_bytes (cfg_assets c))) (assets_max_text_bytes (cfg_assets c)) in
  fail_if (content_max_role_bytes (cfg_content c) <? role_aggregate_bound)%N
  with Invalid "content.max_role_bytes is smaller than the configured role aggregate bounds" in
  Ok tt.

(** The default configuration is accepted. *)
Lemma AiseConfig_default_valid : AiseConfig_validate AiseConfig_default = Ok tt.
Proof. by vm_compute. Qed.
