(* ===== verification/AiseBudget.v ===== *)
(** * The contract and the budget of a turn, in the crate [aise]

    [turn/turn_error.rs], [turn/turn_pipeline.rs] (the stages),
    [turn/turn_contract.rs], [turn/turn_budget.rs] and [turn/snapshot_limits.rs]
    of [crates/aise/src/].  Token usage never exceeds its limits, and is exactly
    what is reserved and what was settled, whatever the order of the calls. *)

From S2P Require Import Prelude Text AiseIds AiseRule AiseNarrative AiseStory AiseTurnData AiseExtraction AiseConfig.

(** ** Stages and errors *)

Inductive TurnStage :=
| Stage_TurnInitializer | Stage_BaselineBuilder | Stage_WriterPlanner | Stage_Context | Stage_ContextRetrieval
| Stage_CharacterThink | Stage_StoryGenerator | Stage_StoryStateExtractor | Stage_Validation | Stage_StoryRepairer
| Stage_TurnCommitter.
#[global] Instance TurnStage_eq_dec : EqDecision TurnStage. Proof. solve_decision. Defined.
Definition TurnStage_as_str (s : TurnStage) : string :=
  match s with
  | Stage_TurnInitializer => "turn_initializer"
  | Stage_BaselineBuilder => "baseline_ctx_builder"
  | Stage_WriterPlanner => "writer_planner"
  | Stage_Context => "context"
  | Stage_ContextRetrieval => "context_retrieval"
  | Stage_CharacterThink => "character_think"
  | Stage_StoryGenerator => "story_generator"
  | Stage_StoryStateExtractor => "story_state_extractor"
  | Stage_Validation => "validation"
  | Stage_StoryRepairer => "story_repairer"
  | Stage_TurnCommitter => "turn_committer"
  end.

Inductive TurnFailureKind :=
| Kind_InvalidRequest | Kind_StoryNotFound | Kind_Cancelled | Kind_DeadlineExceeded | Kind_RevisionConflict
| Kind_IdempotencyConflict | Kind_Backpressure | Kind_ValidationRejected | Kind_ValidationBudgetExhausted
| Kind_TokenBudgetExceeded | Kind_Llm | Kind_Store | Kind_Io | Kind_InvariantViolation.
Inductive TurnTerminalKind := Terminal_Failed | Terminal_Cancelled | Terminal_Conflict.
#[global] Instance TurnFailureKind_eq_dec : EqDecision TurnFailureKind. Proof. solve_decision. Defined.
#[global] Instance TurnTerminalKind_eq_dec : EqDecision TurnTerminalKind. Proof. solve_decision. Defined.

Record TurnExecutionError := turn_error {
  err_kind : TurnFailureKind;
  err_code : string;
  err_stage : option TurnStage;
  err_message : string;
}.
#[global] Instance TurnExecutionError_eq_dec : EqDecision TurnExecutionError. Proof. solve_decision. Defined.
Definition error_terminal_kind (e : TurnExecutionError) : TurnTerminalKind :=
  match err_kind e with
  | Kind_Cancelled => Terminal_Cancelled
  | Kind_RevisionConflict | Kind_IdempotencyConflict => Terminal_Conflict
  | _ => Terminal_Failed
  end.

Definition cancelled (stage : option TurnStage) : TurnExecutionError :=
  turn_error Kind_Cancelled "cancelled" stage "turn cancelled".
Definition deadline_exceeded (stage : option TurnStage) : TurnExecutionError :=
  turn_error Kind_DeadlineExceeded "deadline_exceeded" stage "turn deadline exceeded".
Definition revision_conflict (stage : option TurnStage) : TurnExecutionError :=
  turn_error Kind_RevisionConflict "revision_conflict" stage "revision conflict".
Definition idempotency_conflict (stage : option TurnStage) : TurnExecutionError :=
  turn_error Kind_IdempotencyConflict "idempotency_conflict" stage "idempotency conflict".
Definition validation_rejected (detail : string) : TurnExecutionError :=
  turn_error Kind_ValidationRejected "validation_rejected" (Some Stage_Validation) detail.
Definition invalid_request (message : string) : TurnExecutionError :=
  turn_error Kind_InvalidRequest "invalid_request" None message.
Definition stale_state_extraction (stage : option TurnStage) : TurnExecutionError :=
  turn_error Kind_InvariantViolation "stale_state_extraction" stage
    "state extraction is bound to a story version older than the current candidate story".
Definition story_repair_no_progress (stage : option TurnStage) : TurnExecutionError :=
  turn_error Kind_ValidationRejected "story_repair_no_progress" stage
    "story repair produced byte-identical prose with unresolved issues".
Definition state_reextraction_no_progress (stage : option TurnStage) : TurnExecutionError :=
  turn_error Kind_ValidationRejected "state_reextraction_no_progress" stage
    "state re-extraction produced byte-identical output with unresolved issues".
Definition state_extractor_required_context_exceeds_budget (stage : option TurnStage) (message : string) :
    TurnExecutionError :=
  turn_error Kind_TokenBudgetExceeded "state_extractor_required_context_exceeds_budget" stage message.
Definition story_not_found (story_id : string) : TurnExecutionError :=
  turn_error Kind_StoryNotFound "story_not_found" None ("story " +:+ story_id +:+ " not found").
Definition error_invariant (message : string) : TurnExecutionError :=
  turn_error Kind_InvariantViolation "invariant_violation" None message.
Definition backpressure (message : string) : TurnExecutionError :=
  turn_error Kind_Backpressure "backpressure" None message.
(** [Display] *)
Definition error_display (e : TurnExecutionError) : string := err_message e +:+ " (" +:+ err_code e +:+ ")".

(** ** Requests *)

Definition MAX_PLAYER_CONTRIBUTION_CHARS : N := 4096.
Definition MAX_IDEMPOTENCY_KEY_CHARS : N := 128.

Inductive TurnRequestError :=
| EmptyIdempotencyKey | IdempotencyKeyTooLong (actual maximum : N)
| EmptyPlayerContribution | PlayerContributionTooLong (actual maximum : N).

Definition IdempotencyKey := string.
Definition IdempotencyKey_try_new (value : string) : result TurnRequestError IdempotencyKey :=
  fail_if is_blank value with EmptyIdempotencyKey in
  fail_if (MAX_IDEMPOTENCY_KEY_CHARS <? nlen (chars value))%N
  with IdempotencyKeyTooLong (nlen (chars value)) MAX_IDEMPOTENCY_KEY_CHARS in
  Ok value.

Definition RequestDigest := string.
Definition from_canonical_contribution `{Sha256Bytes} (contribution : string) : RequestDigest :=
  Sha256Digest_to_string (sha256_bytes (str_bytes contribution)).

Record TurnIdentity := { id_key : TurnKey; id_idempotency_key : IdempotencyKey; id_started_at_ms : Z }.
Record TurnRequest := { player_contribution : string; request_digest : RequestDigest }.

Definition TurnRequest_try_new `{Sha256Bytes} (contribution : string) : result TurnRequestError TurnRequest :=
  let normalized := trim contribution in
  let char_count := nlen (chars normalized) in
  fail_if (char_count =? 0)%N with EmptyPlayerContribution in
  fail_if (MAX_PLAYER_CONTRIBUTION_CHARS <? char_count)%N
  with PlayerContributionTooLong char_count MAX_PLAYER_CONTRIBUTION_CHARS in
  Ok {| player_contribution := normalized; request_digest := from_canonical_contribution normalized |}.

Definition request_error_display (e : TurnRequestError) : string :=
  match e with
  | EmptyIdempotencyKey => "idempotency key must not be empty"
  | IdempotencyKeyTooLong actual maximum =>
      "idempotency key is " +:+ pretty actual +:+ " chars, maximum " +:+ pretty maximum
  | EmptyPlayerContribution => "player contribution must not be empty"
  | PlayerContributionTooLong actual maximum =>
      "player contribution is " +:+ pretty actual +:+ " chars, maximum " +:+ pretty maximum
  end.

(** A cancellation token is shared with the caller: here it is its name, and the
    world says which tokens are cancelled.  An instant is a number. *)
Definition TurnCancellation := N.
Record TurnControl := { control_deadline : N; control_cancellation : TurnCancellation }.

Record ExecuteTurnSpec := {
  spec_story_id : StoryId;
  spec_idempotency_key : IdempotencyKey;
  spec_player_contribution : string;
  spec_cancellation : TurnCancellation;
}.
Record ValidatedExecuteTurnSpec := {
  valid_story_id : StoryId;
  valid_idempotency_key : IdempotencyKey;
  valid_request : TurnRequest;
  valid_cancellation : TurnCancellation;
}.
Definition try_into_validated `{Sha256Bytes} (s : ExecuteTurnSpec) : result TurnRequestError ValidatedExecuteTurnSpec :=
  let? request := TurnRequest_try_new (spec_player_contribution s) in
  Ok {| valid_story_id := spec_story_id s;
        valid_idempotency_key := spec_idempotency_key s;
        valid_request := request;
        valid_cancellation := spec_cancellation s |}.

(** ** Phases *)

Inductive TurnPhase :=
| Phase_Created | Phase_Initialized | Phase_Prepared | Phase_Planned | Phase_ContextReady | Phase_StoryReady
| Phase_CandidateReady | Phase_StoryRepairRequired | Phase_StateReextractionRequired | Phase_ReadyToCommit
| Phase_Committed | Phase_Failed | Phase_Cancelled | Phase_Conflict.
#[global] Instance TurnPhase_eq_dec : EqDecision TurnPhase. Proof. solve_decision. Defined.
Definition phase_is_terminal (p : TurnPhase) : bool :=
  match p with Phase_Committed | Phase_Failed | Phase_Cancelled | Phase_Conflict => true | _ => false end.
(** The derived [Debug]. *)
Definition phase_debug (p : TurnPhase) : string :=
  match p with
  | Phase_Created => "Created" | Phase_Initialized => "Initialized" | Phase_Prepared => "Prepared"
  | Phase_Planned => "Planned" | Phase_ContextReady => "ContextReady" | Phase_StoryReady => "StoryReady"
  | Phase_CandidateReady => "CandidateReady" | Phase_StoryRepairRequired => "StoryRepairRequired"
  | Phase_StateReextractionRequired => "StateReextractionRequired" | Phase_ReadyToCommit => "ReadyToCommit"
  | Phase_Committed => "Committed" | Phase_Failed => "Failed" | Phase_Cancelled => "Cancelled"
  | Phase_Conflict => "Conflict"
  end.
Definition phases_debug (ps : list TurnPhase) : string := "[" +:+ join ", " (map phase_debug ps) +:+ "]".

(** ** Calls of the model *)

Record LlmUsageAggregate := { agg_llm_calls : N; agg_input_tokens : N; agg_output_tokens : N; agg_total_tokens : N }.
Inductive UsageAccuracy := Accuracy_Exact | Accuracy_Estimated.
Inductive FinishReason := Finish_Stop | Finish_Length | Finish_ContentFilter | Finish_ToolCalls | Finish_Other (s : string).
Record LlmCharge := {
  charge_provider : string; charge_model : string; charge_input_tokens : N; charge_cached_input_tokens : N;
  charge_output_tokens : N; charge_amount_minor : Z; charge_price_version : string;
}.
Record LlmTokenUsage := {
  tu_input_tokens : N; tu_cached_input_tokens : option N; tu_output_tokens : N;
  tu_reasoning_tokens : option N; tu_total_tokens : N; tu_accuracy : UsageAccuracy;
}.
Definition LlmCallId := string.
Inductive LlmCallPurpose :=
| Purpose_WriterPlan | Purpose_ContextRetrieval | Purpose_CharacterThink | Purpose_StoryGeneration
| Purpose_StoryStateExtraction | Purpose_StoryRepair | Purpose_Embedding.
Record LlmCallUsage := {
  cu_call_id : LlmCallId;
  cu_purpose : LlmCallPurpose;
  cu_provider : string;
  cu_model : string;
  cu_input_tokens : N;
  cu_cached_input_tokens : option N;
  cu_output_tokens : N;
  cu_total_tokens : N;
  cu_accuracy : UsageAccuracy;
  cu_pricing_version : option string;
  cu_charge : option LlmCharge;
  cu_finish_reason : option FinishReason;
}.
Record LlmUsageLedger := { ledger_calls : list LlmCallUsage; ledger_aggregate : LlmUsageAggregate }.
Definition LlmUsageLedger_new : LlmUsageLedger :=
  {| ledger_calls := [];
     ledger_aggregate := {| agg_llm_calls := 0; agg_input_tokens := 0; agg_output_tokens := 0; agg_total_tokens := 0 |} |}.
Definition ledger_push (l : LlmUsageLedger) (usage : LlmCallUsage) : LlmUsageLedger :=
  let a := ledger_aggregate l in {|
  ledger_aggregate := {|
    agg_llm_calls := sat_add U32_MAX (agg_llm_calls a) 1;
    agg_input_tokens := sat_add U64_MAX (agg_input_tokens a) (cu_input_tokens usage);
    agg_output_tokens := sat_add U64_MAX (agg_output_tokens a) (cu_output_tokens usage);
    agg_total_tokens := sat_add U64_MAX (agg_total_tokens a) (cu_total_tokens usage);
  |};
  ledger_calls := ledger_calls l ++ [usage];
|}.
Record CommittedTurnResult := {
  res_turn_number : TurnNumber;
  res_story_revision : StoryRevision;
  res_story_text : string;
  res_llm_usage : LlmUsageAggregate;
  res_llm_calls : list LlmCallUsage;
}.
Record LlmBudgetReservation := {
  resv_call_id : LlmCallId; reserved_input_tokens : N; reserved_output_tokens : N;
}.

Definition accuracy_as_str (a : UsageAccuracy) : string :=
  match a with Accuracy_Exact => "exact" | Accuracy_Estimated => "estimated" end.
Definition finish_reason_as_str (r : FinishReason) : string :=
  match r with
  | Finish_Stop => "stop" | Finish_Length => "length" | Finish_ContentFilter => "content_filter"
  | Finish_ToolCalls => "tool_calls" | Finish_Other _ => "other"
  end.
Definition purpose_as_str (p : LlmCallPurpose) : string :=
  match p with
  | Purpose_WriterPlan => "writer_plan" | Purpose_ContextRetrieval => "context_retrieval"
  | Purpose_CharacterThink => "character_think" | Purpose_StoryGeneration => "story_generation"
  | Purpose_StoryStateExtraction => "story_state_extraction" | Purpose_StoryRepair => "story_repair"
  | Purpose_Embedding => "embedding"
  end.
Inductive LlmCallStatus :=
| Status_Succeeded | Status_Cancelled | Status_TurnDeadlineExceeded | Status_ProviderTimeout | Status_QueueTimeout
| Status_RateLimited | Status_TokenBudgetExceeded | Status_ProviderRejected | Status_TransportFailed
| Status_ProtocolFailed | Status_ResponseLimitExceeded.
Definition call_status_as_str (s : LlmCallStatus) : string :=
  match s with
  | Status_Succeeded => "succeeded" | Status_Cancelled => "cancelled"
  | Status_TurnDeadlineExceeded => "turn_deadline_exceeded" | Status_ProviderTimeout => "provider_timeout"
  | Status_QueueTimeout => "queue_timeout" | Status_RateLimited => "rate_limited"
  | Status_TokenBudgetExceeded => "token_budget_exceeded" | Status_ProviderRejected => "provider_rejected"
  | Status_TransportFailed => "transport_failed" | Status_ProtocolFailed => "protocol_failed"
  | Status_ResponseLimitExceeded => "response_limit_exceeded"
  end.

(** ** Limits *)

Definition activation_rule_limits (config : ActivationConfig) : ActivationRuleLimits := {|
  max_primary_patterns_per_entry := arule_max_primary_patterns_per_entry (activation_rule config);
  max_secondary_patterns_per_entry := arule_max_secondary_patterns_per_entry (activation_rule config);
  max_pattern_bytes := arule_max_pattern_bytes (activation_rule config);
  max_regex_program_bytes := arule_max_regex_program_bytes (activation_rule config);
  max_groups_per_entry := arule_max_groups_per_entry (activation_rule config);
  max_group_key_bytes := arule_max_group_key_bytes (activation_rule config);
  max_scan_depth := aruntime_max_scan_depth (activation_runtime config);
|}.

Definition narrative_limits (config : NarrativeConfig) : NarrativeLimits := {|
  max_graph_nodes := narrative_max_graph_nodes config;
  max_graph_edges := narrative_max_graph_edges config;
  max_condition_depth := narrative_max_condition_depth config;
  max_conditions_per_node := narrative_max_conditions_per_node config;
  max_effects_per_node := narrative_max_effects_per_node config;
  max_semantic_conditions := narrative_max_semantic_conditions config;
  max_semantic_criterion_bytes := narrative_max_semantic_criterion_bytes config;
  max_frontier_nodes := narrative_max_frontier_nodes config;
  max_semantic_queries_per_turn := narrative_max_semantic_queries_per_turn config;
  max_semantic_query_bytes := narrative_max_semantic_query_bytes config;
  max_evidence_bytes := narrative_max_evidence_bytes config;
  max_result_reason_bytes := narrative_max_result_reason_bytes config;
  max_transitions_per_turn := narrative_max_transitions_per_turn config;
  max_pending_effects := narrative_max_pending_effects config;
|}.

Record SnapshotLimits := {
  sl_max_story_profile_bytes : N;
  sl_max_instance_settings : N;
  sl_max_instance_setting_bytes : N;
  sl_max_roles : N;
  sl_max_role_bytes : N;
  sl_max_relationships : N;
  sl_max_narrative_nodes : N;
  sl_max_condition_fact_values : N;
  sl_max_constraints : N;
  sl_max_constraint_bytes : N;
  sl_continuity : StoryContinuityLimits;
}.
Definition snapshot_limits_from_config (content : TurnContentLimitsConfig) (context : ContextPreparationConfig)
    (narrative : NarrativeConfig) : SnapshotLimits := {|
  sl_max_story_profile_bytes := content_max_story_profile_bytes content;
  sl_max_instance_settings := content_max_instance_settings content;
  sl_max_instance_setting_bytes := content_max_instance_setting_bytes content;
  sl_max_roles := content_max_roles content;
  sl_max_role_bytes := content_max_role_bytes content;
  sl_max_relationships := context_max_relationships context;
  sl_max_narrative_nodes := narrative_max_graph_nodes narrative;
  sl_max_condition_fact_values := context_max_condition_fact_values context;
  sl_max_constraints := content_max_constraints content;
  sl_max_constraint_bytes := content_max_constraint_bytes content;
  sl_continuity := {|
    max_summary_bytes := content_max_summary_bytes content;
    max_recent_segments := content_max_recent_segments content;
    max_recent_segment_bytes := content_max_recent_segment_bytes content;
    max_recent_segment_tokens := content_max_recent_segment_tokens content;
  |};
|}.

Inductive CorrectionKind := StoryRepair | StateReextraction.
Definition correction_as_str (k : CorrectionKind) : string :=
  match k with StoryRepair => "story_repair" | StateReextraction => "state_reextraction" end.

Record TurnBudgetLimits := {
  max_repair_rounds : N;
  max_llm_calls : N;
  max_input_tokens : N;
  max_output_tokens : N;
  lim_max_total_tokens : N;
  max_candidates_total : N;
  lim_max_items_per_audience : N;
  lim_max_tokens_per_audience : N;
  lim_max_total_items : N;
  max_retrieved_tokens : N;
  lim_max_item_bytes : N;
  max_role_bytes : N;
  max_context_tokens : N;
  max_character_decisions : N;
  max_character_decision_bytes : N;
  max_plan_bytes : N;
  max_story_text_bytes : N;
  max_state_extraction_bytes : N;
  max_knowledge_change_bytes : N;
  max_validation_issues : N;
  max_validation_issue_bytes : N;
  lim_state_extraction : StoryStateExtractionLimits;
  state_extractor_max_context_tokens : N;
  state_extractor_max_output_tokens : N;
  state_extractor_max_knowledge_context_items : N;
  state_extractor_max_knowledge_context_tokens : N;
  lim_narrative : NarrativeLimits;
  max_condition_queries : N;
  max_condition_evidence_bytes : N;
  max_condition_reason_bytes : N;
  lim_activation_rule_limits : ActivationRuleLimits;
}.

Definition TurnBudgetLimits_from (turn : TurnConfig) (content : TurnContentLimitsConfig) (retrieval : RetrievalConfig)
    (state_extractor : StateExtractorConfig) (narrative : NarrativeConfig) (activation : ActivationConfig) :
    TurnBudgetLimits := {|
  max_repair_rounds := turn_max_repair_rounds turn;
  max_llm_calls := turn_max_llm_calls turn;
  max_input_tokens := turn_max_input_tokens turn;
  max_output_tokens := turn_max_output_tokens turn;
  lim_max_total_tokens := turn_max_total_tokens turn;
  max_candidates_total := retrieval_max_candidates_total retrieval;
  lim_max_items_per_audience := retrieval_max_items_per_audience retrieval;
  lim_max_tokens_per_audience := retrieval_max_tokens_per_audience retrieval;
  lim_max_total_items := retrieval_max_total_items retrieval;
  max_retrieved_tokens := retrieval_max_total_tokens retrieval;
  lim_max_item_bytes := retrieval_max_item_bytes retrieval;
  max_role_bytes := content_max_role_bytes content;
  max_context_tokens := turn_max_context_tokens turn;
  max_character_decisions := turn_max_character_decisions turn;
  max_character_decision_bytes := content_max_character_decision_bytes content;
  max_plan_bytes := content_max_plan_bytes content;
  max_story_text_bytes := content_max_story_text_bytes content;
  max_state_extraction_bytes := content_max_state_extraction_bytes content;
  max_knowledge_change_bytes := content_max_knowledge_change_bytes content;
  max_validation_issues := turn_max_validation_issues turn;
  max_validation_issue_bytes := content_max_validation_issue_bytes content;
  lim_state_extraction := {|
    max_new_roles := extractor_max_new_roles_per_turn state_extractor;
    max_role_states := extractor_max_role_states state_extractor;
    max_relationship_states := extractor_max_relationship_states state_extractor;
    max_knowledge_items := extractor_max_knowledge_items state_extractor;
    max_goals_per_role := extractor_max_goals_per_role state_extractor;
    max_attributes_per_role := extractor_max_attributes_per_role state_extractor;
    sel_max_item_bytes := content_max_role_bytes content;
    max_role_profile_bytes := extractor_max_role_profile_bytes state_extractor;
    sel_max_knowledge_change_bytes := content_max_knowledge_change_bytes content;
    max_cast_policy_violations := extractor_max_cast_policy_violations state_extractor;
    sel_max_condition_queries := narrative_max_semantic_queries_per_turn narrative;
    sel_max_condition_evidence_bytes := narrative_max_evidence_bytes narrative;
    sel_max_condition_reason_bytes := narrative_max_result_reason_bytes narrative;
    max_activation_terms := arule_max_primary_patterns_per_entry (activation_rule activation);
    max_activation_pattern_bytes := arule_max_pattern_bytes (activation_rule activation);
  |};
  state_extractor_max_context_tokens := extractor_max_context_tokens state_extractor;
  state_extractor_max_output_tokens := extractor_max_output_tokens state_extractor;
  state_extractor_max_knowledge_context_items := extractor_max_knowledge_context_items state_extractor;
  state_extractor_max_knowledge_context_tokens := extractor_max_knowledge_context_tokens state_extractor;
  lim_narrative := narrative_limits narrative;
  max_condition_queries := narrative_max_semantic_queries_per_turn narrative;
  max_condition_evidence_bytes := narrative_max_evidence_bytes narrative;
  max_condition_reason_bytes := narrative_max_result_reason_bytes narrative;
  lim_activation_rule_limits := activation_rule_limits activation;
|}.

(** ** Usage *)

Record TurnBudgetUsage := {
  use_llm_calls : N;
  use_input_tokens : N;
  use_output_tokens : N;
  use_total_tokens : N;
  use_correction_rounds : N;
  use_story_repair_rounds : N;
  use_state_reextraction_rounds : N;
}.
Definition TurnBudgetUsage_default : TurnBudgetUsage := {|
  use_llm_calls := 0; use_input_tokens := 0; use_output_tokens := 0; use_total_tokens := 0;
  use_correction_rounds := 0; use_story_repair_rounds := 0; use_state_reextraction_rounds := 0;
|}.
Record TurnBudget := { budget_limits : TurnBudgetLimits; budget_usage : TurnBudgetUsage }.

Definition config_error_display (e : ConfigError) : string :=
  match e with
  | Invalid m => "invalid configuration: " +:+ m
  | Config_Io m => "failed to read configuration: " +:+ m
  | Config_Parse m => "failed to parse configuration: " +:+ m
  end.
Definition invalid_config (e : ConfigError) : TurnExecutionError :=
  turn_error Kind_InvalidRequest "invalid_config" None (config_error_display e).

Definition TurnBudget_from_config (turn : TurnConfig) (content : TurnContentLimitsConfig) (retrieval : RetrievalConfig)
    (state_extractor : StateExtractorConfig) (narrative : NarrativeConfig) (activation : ActivationConfig) :
    result TurnExecutionError TurnBudget :=
  let? _ := map_err invalid_config (TurnConfig_validate turn) in
  let? _ := map_err invalid_config (TurnContentLimitsConfig_validate content) in
  let? _ := map_err invalid_config (RetrievalConfig_validate retrieval) in
  let? _ := map_err invalid_config (StateExtractorConfig_validate state_extractor) in
  let? _ := map_err invalid_config (NarrativeConfig_validate narrative) in
  let? _ := map_err invalid_config (ActivationConfig_validate activation) in
  Ok {| budget_limits := TurnBudgetLimits_from turn content retrieval state_extractor narrative activation;
        budget_usage := TurnBudgetUsage_default |}.

Definition remaining_output_tokens (b : TurnBudget) : N :=
  sat_sub (max_output_tokens (budget_limits b)) (use_output_tokens (budget_usage b)).

(** The next value of a [u32] counter: it wraps in a release build. *)
Definition u32_succ (n : N) : N := ((n + 1) mod 4294967296)%N.
#[global] Arguments u32_succ n : simpl never.

Definition consume_correction_round (b : TurnBudget) (kind : CorrectionKind) : result TurnExecutionError TurnBudget :=
  let u := budget_usage b in
  fail_if (max_repair_rounds (budget_limits b) <=? use_correction_rounds u)%N
  with turn_error Kind_ValidationBudgetExhausted "validation_budget_exhausted" None
         ("validation failed after " +:+ pretty (use_correction_rounds u) +:+ " correction rounds") in
  Ok {| budget_limits := budget_limits b;
        budget_usage := {|
          use_llm_calls := use_llm_calls u;
          use_input_tokens := use_input_tokens u;
          use_output_tokens := use_output_tokens u;
          use_total_tokens := use_total_tokens u;
          use_correction_rounds := u32_succ (use_correction_rounds u);
          use_story_repair_rounds :=
            match kind with StoryRepair => u32_succ (use_story_repair_rounds u) | _ => use_story_repair_rounds u end;
          use_state_reextraction_rounds :=
            match kind with
            | StateReextraction => u32_succ (use_state_reextraction_rounds u)
            | _ => use_state_reextraction_rounds u end;
        |} |}.

Definition budget_error (message : string) : TurnExecutionError :=
  turn_error Kind_TokenBudgetExceeded "token_budget_exceeded" None message.

(** A budget whose call count and token usage are replaced. *)
Definition with_tokens (b : TurnBudget) (calls input output total : N) : TurnBudget :=
  let u := budget_usage b in
  {| budget_limits := budget_limits b;
     budget_usage := {|
       use_llm_calls := calls;
       use_input_tokens := input;
       use_output_tokens := output;
       use_total_tokens := total;
       use_correction_rounds := use_correction_rounds u;
       use_story_repair_rounds := use_story_repair_rounds u;
       use_state_reextraction_rounds := use_state_reextraction_rounds u;
     |} |}.

(** [reserve_llm]; the identifier is the UUID that [LlmCallId::new] draws. *)
Definition reserve_llm (b : TurnBudget) (call_id : LlmCallId) (input_tokens maximum_output_tokens : N) :
    result TurnExecutionError (TurnBudget * LlmBudgetReservation) :=
  let u := budget_usage b in
  let limits := budget_limits b in
  fail_if (max_llm_calls limits <=? use_llm_calls u)%N
  with budget_error ("llm call limit " +:+ pretty (max_llm_calls limits) +:+ " reached") in
  let projected_input := sat_add U64_MAX (use_input_tokens u) input_tokens in
  let projected_output := sat_add U64_MAX (use_output_tokens u) maximum_output_tokens in
  let projected_total := sat_add U64_MAX (sat_add U64_MAX (use_total_tokens u) input_tokens) maximum_output_tokens in
  fail_if (max_input_tokens limits <? projected_input)%N with budget_error "input token limit" in
  fail_if (max_output_tokens limits <? projected_output)%N with budget_error "output token limit" in
  fail_if (lim_max_total_tokens limits <? projected_total)%N with budget_error "total token limit" in
  Ok (with_tokens b (use_llm_calls u) projected_input projected_output projected_total,
      {| resv_call_id := call_id;
         reserved_input_tokens := input_tokens;
         reserved_output_tokens := maximum_output_tokens |}).

(** [release_llm]; it is also how [settle_llm] starts. *)
Definition release_llm (b : TurnBudget) (r : LlmBudgetReservation) : TurnBudget :=
  let u := budget_usage b in
  with_tokens b (use_llm_calls u)
    (sat_sub (use_input_tokens u) (reserved_input_tokens r))
    (sat_sub (use_output_tokens u) (reserved_output_tokens r))
    (sat_sub (sat_sub (use_total_tokens u) (reserved_input_tokens r)) (reserved_output_tokens r)).

(** [settle_llm]: the budget is changed even when the usage is refused. *)
Definition settle_llm (b : TurnBudget) (r : LlmBudgetReservation) (usage : LlmCallUsage) :
    TurnBudget * result TurnExecutionError unit :=
  let b := release_llm b r in
  let u := budget_usage b in
  let limits := budget_limits b in
  let settled_input := sat_add U64_MAX (use_input_tokens u) (cu_input_tokens usage) in
  let settled_output := sat_add U64_MAX (use_output_tokens u) (cu_output_tokens usage) in
  let settled_total :=
    sat_add U64_MAX (sat_add U64_MAX (use_total_tokens u) (cu_input_tokens usage)) (cu_output_tokens usage) in
  if (max_input_tokens limits <? settled_input)%N then (b, Err (budget_error "input token limit exceeded"))
  else if (max_output_tokens limits <? settled_output)%N then (b, Err (budget_error "output token limit exceeded"))
  else if (lim_max_total_tokens limits <? settled_total)%N then (b, Err (budget_error "total token limit exceeded"))
  else (with_tokens b (u32_succ (use_llm_calls u)) settled_input settled_output settled_total, Ok tt).

(** ** The usage is what is reserved and settled, within the limits *)

(** A caller that holds at most [k] reservations at a time: it reserves, settles
    one it holds with the usage reported, or gives one back. *)
Inductive BudgetOp :=
| Do_Reserve (call_id : LlmCallId) (input output : N)
| Do_Settle (i : nat) (usage : LlmCallUsage)
| Do_Release (i : nat).
Record BudgetRun := {
  run_budget : TurnBudget;
  run_held : list LlmBudgetReservation;
  run_settled : list LlmCallUsage;
}.
Definition budget_start (limits : TurnBudgetLimits) : BudgetRun :=
  {| run_budget := {| budget_limits := limits; budget_usage := TurnBudgetUsage_default |};
     run_held := []; run_settled := [] |}.

Definition budget_step (k : nat) (s : BudgetRun) (op : BudgetOp) : BudgetRun :=
  match op with
  | Do_Reserve call_id input output =>
      if decide (length (run_held s) < k) then
        match reserve_llm (run_budget s) call_id input output with
        | Ok (b, r) => {| run_budget := b; run_held := run_held s ++ [r]; run_settled := run_settled s |}
        | Err _ => s
        end
      else s
  | Do_Settle i usage =>
      match run_held s !! i with
      | Some r =>
          let '(b, outcome) := settle_llm (run_budget s) r usage in
          {| run_budget := b; run_held := delete i (run_held s);
             run_settled := run_settled s ++ match outcome with Ok _ => [usage] | Err _ => [] end |}
      | None => s
      end
  | Do_Release i =>
      match run_held s !! i with
      | Some r => {| run_budget := release_llm (run_budget s) r; run_held := delete i (run_held s);
                     run_settled := run_settled s |}
      | None => s
      end
  end.

Definition held_settled (f : LlmBudgetReservation → N) (g : LlmCallUsage → N) (s : BudgetRun) : N :=
  (total_by f (run_held s) + total_by g (run_settled s))%N.
Definition used_input (s : BudgetRun) : N := held_settled reserved_input_tokens cu_input_tokens s.
Definition used_output (s : BudgetRun) : N := held_settled reserved_output_tokens cu_output_tokens s.

Record usage_exact (limits : TurnBudgetLimits) (k : nat) (s : BudgetRun) : Prop := {
  ue_limits : budget_limits (run_budget s) = limits;
  ue_input : use_input_tokens (budget_usage (run_budget s)) = used_input s;
  ue_output : use_output_tokens (budget_usage (run_budget s)) = used_output s;
  ue_total : use_total_tokens (budget_usage (run_budget s)) = (used_input s + used_output s)%N;
  ue_calls : use_llm_calls (budget_usage (run_budget s)) = nlen (run_settled s);
  ue_max_input : (used_input s <= max_input_tokens limits)%N;
  ue_max_output : (used_output s <= max_output_tokens limits)%N;
  ue_max_total : (used_input s + used_output s <= lim_max_total_tokens limits)%N;
  ue_max_calls : (nlen (run_settled s) + nlen (run_held s) <= max_llm_calls limits + N.of_nat k - 1)%N;
}.

Lemma total_by_delete {A} (f : A → N) (l : list A) i x :
  l !! i = Some x → total_by f l = (f x + total_by f (delete i l))%N.
Proof.
  revert i. induction l as [|y l IH]; intros [|i] H; simpl in *; simplify_eq; [lia|].
  rewrite (IH i H). change (foldr (λ x s, f x + s)%N 0%N (delete i l)) with (total_by f (delete i l)). lia.
Qed.

Lemma sat_add_lt max x y : (sat_add max x y < max)%N → sat_add max x y = (x + y)%N.
Proof. unfold sat_add, clamp. case_match; lia. Qed.

(** Two saturating additions that stay below the maximum are exact. *)
Lemma sat_add_twice max x y z : (sat_add max (sat_add max x y) z < max)%N → sat_add max (sat_add max x y) z = (x + y + z)%N.
Proof. unfold sat_add, clamp. repeat case_match; lia. Qed.

Section usage.
Context (limits : TurnBudgetLimits) (k : nat).
Hypothesis (Hin : (max_input_tokens limits < U64_MAX)%N) (Hout : (max_output_tokens limits < U64_MAX)%N)
  (Htot : (lim_max_total_tokens limits < U64_MAX)%N)
  (Hcalls : (max_llm_calls limits + N.of_nat k <= U32_MAX)%N) (Hk : 1 ≤ k).

Lemma reserve_exact s call_id input output :
  usage_exact limits k s → usage_exact limits k (budget_step k s (Do_Reserve call_id input output)).
Proof.
  intros [Hl Hi Ho Ht Hc Mi Mo Mt Mc]. simpl. case_decide as Hh; [|by split].
  unfold reserve_llm. rewrite Hl, Hi, Ho, Ht, Hc.
  destruct (N.leb_spec (max_llm_calls limits) (nlen (run_settled s))); [by split|].
  destruct (N.ltb_spec (max_input_tokens limits) (sat_add U64_MAX (used_input s) input)); [by split|].
  destruct (N.ltb_spec (max_output_tokens limits) (sat_add U64_MAX (used_output s) output)); [by split|].
  destruct (N.ltb_spec (lim_max_total_tokens limits)
    (sat_add U64_MAX (sat_add U64_MAX (used_input s + used_output s) input) output)) as [|Htl]; [by split|].
  rewrite (sat_add_lt U64_MAX (used_input s)) in * by lia. rewrite (sat_add_lt U64_MAX (used_output s)) in * by lia.
  rewrite (sat_add_twice U64_MAX) in * by lia. split; unfold used_input, used_output, held_settled in *; simpl;
    rewrite ?total_by_app; simpl; unfold nlen in *; rewrite ?length_app; simpl; try done; try lia.
Qed.

Lemma release_usage b r :
  budget_limits (release_llm b r) = budget_limits b
  ∧ use_llm_calls (budget_usage (release_llm b r)) = use_llm_calls (budget_usage b).
Proof. done. Qed.

Lemma release_exact s i :
  usage_exact limits k s → usage_exact limits k (budget_step k s (Do_Release i)).
Proof.
  intros [Hl Hi Ho Ht Hc Mi Mo Mt Mc]. simpl. destruct (run_held s !! i) as [r|] eqn:Hr; [|by split].
  pose proof (total_by_delete reserved_input_tokens _ _ _ Hr) as Di.
  pose proof (total_by_delete reserved_output_tokens _ _ _ Hr) as Do.
  pose proof (length_delete (run_held s) i (mk_is_Some _ _ Hr)) as Dl. pose proof (lookup_lt_Some _ _ _ Hr).
  split; unfold used_input, used_output, held_settled, sat_sub, nlen in *; simpl; try done; unfold sat_sub; lia.
Qed.

Lemma settle_exact s i usage :
  usage_exact limits k s → usage_exact limits k (budget_step k s (Do_Settle i usage)).
Proof.
  intros Hs. pose proof (release_exact s i Hs) as Hrel. simpl in *.
  destruct (run_held s !! i) as [r|] eqn:Hr; [|by split; apply Hs].
  unfold settle_llm. set (b := release_llm (run_budget s) r) in *.
  destruct Hrel as [Hl Hi Ho Ht Hc Mi Mo Mt Mc]. cbn [run_budget run_held run_settled] in *.
  set (s' := {| run_budget := b; run_held := delete i (run_held s); run_settled := run_settled s |}) in *.
  rewrite Hl, Hi, Ho, Ht, Hc.
  destruct (N.ltb_spec (max_input_tokens limits) (sat_add U64_MAX (used_input s') (cu_input_tokens usage)));
    [rewrite app_nil_r; by split|].
  destruct (N.ltb_spec (max_output_tokens limits) (sat_add U64_MAX (used_output s') (cu_output_tokens usage)));
    [rewrite app_nil_r; by split|].
  match goal with |- context [(lim_max_total_tokens limits <? ?t)%N] =>
    destruct (N.ltb_spec (lim_max_total_tokens limits) t) as [|Htl]; [rewrite app_nil_r; by split|] end.
  pose proof (ue_max_calls _ _ _ Hs) as Hmc.
  pose proof (length_delete (run_held s) i (mk_is_Some _ _ Hr)) as Dl. pose proof (lookup_lt_Some _ _ _ Hr).
  rewrite (sat_add_lt U64_MAX (used_input s')) in * by lia. rewrite (sat_add_lt U64_MAX (used_output s')) in * by lia.
  rewrite (sat_add_twice U64_MAX) in * by lia.
  unfold s', used_input, used_output, held_settled in *; cbn [run_held run_settled] in *.
  split; unfold used_input, used_output, held_settled; cbn [run_budget run_held run_settled]; rewrite ?total_by_snoc;
    unfold nlen in *; rewrite ?length_app; cbn; try done; try lia.
  unfold u32_succ, U32_MAX in *. rewrite N.mod_small; lia.
Qed.

(** C34: However a caller that holds at most [k] reservations at a time reserves,
    settles and releases, the recorded input, output and total tokens are exactly
    those of the reservations it holds and of the calls it settled; they stay
    within the limits; and the calls counted are the calls settled, at most
    [max_llm_calls] of them when [k] is one. *)
Theorem budget_exact ops : usage_exact limits k (foldl (budget_step k) (budget_start limits) ops).
Proof.
  induction ops as [|op ops IH] using rev_ind.
  - split; unfold used_input, used_output, held_settled; simpl; try done; unfold nlen; simpl; lia.
  - rewrite foldl_app. simpl. destruct op as [id input output|i usage|i];
      [by apply reserve_exact|by apply settle_exact|by apply release_exact].
Qed.
End usage.

Definition demo_budget_limits : TurnBudgetLimits :=
  TurnBudgetLimits_from TurnConfig_default TurnContentLimitsConfig_default RetrievalConfig_default
    StateExtractorConfig_default NarrativeConfig_default ActivationConfig_default.
Definition demo_usage : LlmCallUsage := {|
  cu_call_id := "call"; cu_purpose := Purpose_StoryGeneration; cu_provider := "local"; cu_model := "m";
  cu_input_tokens := 90; cu_cached_input_tokens := None; cu_output_tokens := 30; cu_total_tokens := 120;
  cu_accuracy := Accuracy_Exact; cu_pricing_version := None; cu_charge := None; cu_finish_reason := Some Finish_Stop;
|}.
Lemma budget_exact_witness :
  let s := foldl (budget_step 1) (budget_start demo_budget_limits)
             [Do_Reserve "a" 100 50; Do_Settle 0 demo_usage; Do_Reserve "b" 10 20] in
  use_input_tokens (budget_usage (run_budget s)) = 100%N
  ∧ (nlen (run_settled s) + nlen (run_held s) <= 8 + 1 - 1)%N.
Proof.
  intros s.
  assert (usage_exact demo_budget_limits 1 s) as H.
  { apply (budget_exact demo_budget_limits 1); unfold demo_budget_limits; cbn; unfold U64_MAX, U32_MAX; lia. }
  destruct H as [_ Hi _ _ _ _ _ _ Hc]. split; [rewrite Hi; by vm_compute|exact Hc].
Defined.
