(* ===== verification/AiseValidation.v ===== *)
(** * What a validation says of a turn of the crate [aise]

    [turn/turn_validation.rs] and [domain/turn/proposal.rs] of [crates/aise/src/]:
    the issues of a candidate, the decision they reduce to, and the change set of a
    candidate that passed. *)

From S2P Require Import Prelude Text AiseIds AiseRule AiseNarrative AiseStory AiseTurnData AiseExtraction AiseBudget.

(** ** Issues *)

Inductive ValidationIssueCode :=
| Issue_StoryTextEmpty | Issue_StoryTextExceedsBounds | Issue_ExtractionSchemaInvalid | Issue_ExtractionCountExceeded
| Issue_ExtractionDuplicateTarget | Issue_ReferenceMissing | Issue_ModificationForbidden | Issue_UnchangedRoleEmitted
| Issue_UnchangedRelationshipEmitted | Issue_DomainInvariantViolated | Issue_KnowledgeOperationIllegal
| Issue_KnowledgeTargetInvalid | Issue_KnowledgeOwnerUnauthorized | Issue_StaleStateExtraction
| Issue_StoryStateInconsistent | Issue_NarrativeInconsistent | Issue_CastPolicyViolation | Issue_NewRoleInvalid.
#[global] Instance ValidationIssueCode_eq_dec : EqDecision ValidationIssueCode. Proof. solve_decision. Defined.
Definition issue_code_as_str (c : ValidationIssueCode) : string :=
  match c with
  | Issue_StoryTextEmpty => "story_text_empty"
  | Issue_StoryTextExceedsBounds => "story_text_exceeds_bounds"
  | Issue_ExtractionSchemaInvalid => "extraction_schema_invalid"
  | Issue_ExtractionCountExceeded => "extraction_count_exceeded"
  | Issue_ExtractionDuplicateTarget => "extraction_duplicate_target"
  | Issue_ReferenceMissing => "reference_missing"
  | Issue_ModificationForbidden => "modification_forbidden"
  | Issue_UnchangedRoleEmitted => "unchanged_role_emitted"
  | Issue_UnchangedRelationshipEmitted => "unchanged_relationship_emitted"
  | Issue_DomainInvariantViolated => "domain_invariant_violated"
  | Issue_KnowledgeOperationIllegal => "knowledge_operation_illegal"
  | Issue_KnowledgeTargetInvalid => "knowledge_target_invalid"
  | Issue_KnowledgeOwnerUnauthorized => "knowledge_owner_unauthorized"
  | Issue_StaleStateExtraction => "stale_state_extraction"
  | Issue_StoryStateInconsistent => "story_state_inconsistent"
  | Issue_NarrativeInconsistent => "narrative_inconsistent"
  | Issue_CastPolicyViolation => "cast_policy_violation"
  | Issue_NewRoleInvalid => "new_role_invalid"
  end.
Inductive ValidationIssueClass := Class_Story | Class_Extraction | Class_CrossConsistency.
#[global] Instance ValidationIssueClass_eq_dec : EqDecision ValidationIssueClass. Proof. solve_decision. Defined.
Definition issue_class_as_str (c : ValidationIssueClass) : string :=
  match c with
  | Class_Story => "story" | Class_Extraction => "extraction" | Class_CrossConsistency => "cross_consistency"
  end.
Inductive ValidationRemedy := Remedy_RepairStory | Remedy_ReextractState | Remedy_Reject.
#[global] Instance ValidationRemedy_eq_dec : EqDecision ValidationRemedy. Proof. solve_decision. Defined.
Definition remedy_as_str (r : ValidationRemedy) : string :=
  match r with
  | Remedy_RepairStory => "repair_story" | Remedy_ReextractState => "reextract_state" | Remedy_Reject => "reject"
  end.

Record ValidationLocation := { loc_path : string; loc_item_index : option N }.
Record ValidationIssue := {
  iss_code : ValidationIssueCode;
  iss_class : ValidationIssueClass;
  iss_remedy : ValidationRemedy;
  iss_message : string;
  iss_location : option ValidationLocation;
}.

Definition validation_invariant (code : string) (stage : option TurnStage) (message : string) : TurnExecutionError :=
  turn_error Kind_InvariantViolation code stage message.

Record BoundedValidationIssues := { bvi_issues : list ValidationIssue; bvi_max_issues : N }.
Definition BoundedValidationIssues_try_new (issues : list ValidationIssue) (max_issues : N) :
    result TurnExecutionError BoundedValidationIssues :=
  let invariant code message := validation_invariant code (Some Stage_Validation) message in
  fail_if (max_issues =? 0)%N with invariant "zero_issue_limit" "max_issues must be positive" in
  fail_if bool_decide (issues = [])
  with invariant "empty_issue_set" "a non-pass validation result requires at least one issue" in
  fail_if (max_issues <? nlen issues)%N
  with invariant "issue_limit_exceeded"
    ("validation issues " +:+ pretty (nlen issues) +:+ " exceeds limit " +:+ pretty max_issues) in
  fail_if existsb (λ issue, 500 <? nlen (chars (iss_message issue)))%N issues
  with invariant "issue_message_too_long" "validation issue message exceeds 500 chars" in
  Ok {| bvi_issues := issues; bvi_max_issues := max_issues |}.
(** A stable sort by the name of the code. *)
Definition sorted_codes (b : BoundedValidationIssues) : list ValidationIssueCode :=
  sort_by (λ x y, String.compare (issue_code_as_str x) (issue_code_as_str y)) (map iss_code (bvi_issues b)).

(** ** Decisions *)

Inductive ValidationDecision := Decision_Pass | Decision_RepairStory | Decision_ReextractState | Decision_Reject.
#[global] Instance ValidationDecision_eq_dec : EqDecision ValidationDecision. Proof. solve_decision. Defined.
Definition decision_as_str (d : ValidationDecision) : string :=
  match d with
  | Decision_Pass => "pass" | Decision_RepairStory => "repair_story"
  | Decision_ReextractState => "reextract_state" | Decision_Reject => "reject"
  end.
Definition to_turn_phase (d : ValidationDecision) : TurnPhase :=
  match d with
  | Decision_Pass => Phase_ReadyToCommit
  | Decision_RepairStory => Phase_StoryRepairRequired
  | Decision_ReextractState => Phase_StateReextractionRequired
  | Decision_Reject => Phase_Failed
  end.

(** ** The change set of a candidate that passed *)

Inductive StateChange (T : Type) := Change_Unchanged | Change_Replace (value : T).
Arguments Change_Unchanged {T}.
Arguments Change_Replace {T} _.
Definition state_change_as_ref {T} (c : StateChange T) : option T :=
  match c with Change_Unchanged => None | Change_Replace value => Some value end.

Record RoleStateChange := { rsc_role_id : RoleId; rsc_new_state : StoryRoleState }.
Record RelationshipStateChange := { rlc_key : RelationshipKey; rlc_new_state : RelationshipState }.
Inductive ValidatedRelationshipOperation :=
| Rel_Add (state : RelationshipState)
| Rel_Update (change : RelationshipStateChange).
Definition operation_new_state (o : ValidatedRelationshipOperation) : RelationshipState :=
  match o with Rel_Add state => state | Rel_Update change => rlc_new_state change end.

Record ValidatedNarrativeResolution := {
  vnr_candidate_version : StoryCandidateVersion;
  vnr_transitions : list ProposedNarrativeTransition;
  vnr_condition_results : gmap NarrativeConditionKey NarrativeTruthValue;
  vnr_pending_effects : list PendingNarrativeEffect;
  vnr_next_graph_revision : N;
}.
(** The payload is the text of a [serde_json::Value]. *)
Record StoryEvent := {
  ev_id : EventId;
  ev_turn_number : TurnNumber;
  ev_seq : N;
  ev_kind : EventKind;
  ev_payload : string;
}.
(** [ValidatedChangeSet], and [ValidatedChangeSetParts] with the same fields. *)
Record ValidatedChangeSet := {
  cs_story_text : BoundedText;
  cs_new_roles : list StoryRole;
  cs_role_changes : list RoleStateChange;
  cs_relationship_operations : list ValidatedRelationshipOperation;
  cs_knowledge_mutations : list ValidatedKnowledgeMutation;
  cs_knowledge_id_high_water : KnowledgeIdHighWater;
  cs_next_role_id_high_water : RoleIdHighWater;
  cs_narrative_events : list StoryEvent;
  cs_narrative_resolution : ValidatedNarrativeResolution;
  cs_constraint_change : StateChange (list ActiveStoryConstraint);
}.
Definition ValidatedChangeSet_new (parts : ValidatedChangeSet) : result TurnExecutionError ValidatedChangeSet :=
  fail_if is_empty (trim (cs_story_text parts))
  with turn_error Kind_ValidationRejected "story_text_empty" (Some Stage_Validation)
         "validated change set requires non-empty story text" in
  Ok parts.
Definition has_constraint_change (c : ValidatedChangeSet) : bool :=
  match cs_constraint_change c with Change_Replace _ => true | Change_Unchanged => false end.

(** ** Results *)

Inductive ValidationResult :=
| Validation_Pass (change_set : ValidatedChangeSet)
| Validation_RepairStory (issues : BoundedValidationIssues)
| Validation_ReextractState (issues : BoundedValidationIssues)
| Validation_Reject (issues : BoundedValidationIssues).

Definition has_remedy (r : ValidationRemedy) (issue : ValidationIssue) : bool := bool_decide (iss_remedy issue = r).
(** [ValidationResult::from_issues]: the severest remedy decides. *)
Definition from_issues (issues : list ValidationIssue) (max_issues : N) : result TurnExecutionError ValidationResult :=
  fail_if bool_decide (issues = [])
  with validation_invariant "pass_requires_issue_construction" (Some Stage_Validation)
         "use ValidationResult::pass for the empty-issue case" in
  if existsb (has_remedy Remedy_Reject) issues then
    let? bounded := BoundedValidationIssues_try_new issues max_issues in Ok (Validation_Reject bounded)
  else if existsb (has_remedy Remedy_RepairStory) issues then
    let? bounded := BoundedValidationIssues_try_new issues max_issues in Ok (Validation_RepairStory bounded)
  else if forallb (has_remedy Remedy_ReextractState) issues then
    let? bounded := BoundedValidationIssues_try_new issues max_issues in Ok (Validation_ReextractState bounded)
  else Err (validation_invariant "inconsistent_remedy_set" (Some Stage_Validation)
              "validation issue remedies are inconsistent with decision reduction").

Definition result_decision (r : ValidationResult) : ValidationDecision :=
  match r with
  | Validation_Pass _ => Decision_Pass
  | Validation_RepairStory _ => Decision_RepairStory
  | Validation_ReextractState _ => Decision_ReextractState
  | Validation_Reject _ => Decision_Reject
  end.
Definition result_issues (r : ValidationResult) : list ValidationIssue :=
  match r with
  | Validation_Pass _ => []
  | Validation_RepairStory issues | Validation_ReextractState issues | Validation_Reject issues => bvi_issues issues
  end.
Definition into_change_set (r : ValidationResult) : option ValidatedChangeSet :=
  match r with Validation_Pass change_set => Some change_set | _ => None end.

(** ** The decision is the severest remedy *)

Definition remedy_decision (r : ValidationRemedy) : ValidationDecision :=
  match r with
  | Remedy_RepairStory => Decision_RepairStory
  | Remedy_ReextractState => Decision_ReextractState
  | Remedy_Reject => Decision_Reject
  end.
Definition severity (r : ValidationRemedy) : N :=
  match r with Remedy_ReextractState => 0 | Remedy_RepairStory => 1 | Remedy_Reject => 2 end.

(** The issues reduce to the decision of their severest remedy, all of them kept;
    the reduction fails only for no issue, too many, or one with a long message. *)
Theorem from_issues_severest issues max_issues :
  match from_issues issues max_issues with
  | Ok r =>
      result_issues r = issues ∧ (nlen issues <= max_issues)%N ∧
      ∃ issue, issue ∈ issues ∧ result_decision r = remedy_decision (iss_remedy issue) ∧
        ∀ other, other ∈ issues → (severity (iss_remedy other) <= severity (iss_remedy issue))%N
  | Err _ => issues = [] ∨ (max_issues < nlen issues)%N ∨
      ∃ issue, issue ∈ issues ∧ (500 < nlen (chars (iss_message issue)))%N
  end.
Proof.
  unfold from_issues. case_bool_decide as Hne; [by left|]. simpl.
  assert (∀ (wrap : BoundedValidationIssues → ValidationResult) r,
    (∀ b, result_issues (wrap b) = bvi_issues b ∧ result_decision (wrap b) = remedy_decision r) →
    (∃ issue, issue ∈ issues ∧ iss_remedy issue = r) →
    (∀ other, other ∈ issues → (severity (iss_remedy other) <= severity r)%N) →
    match (let? bounded := BoundedValidationIssues_try_new issues max_issues in Ok (wrap bounded)) with
    | Ok r =>
        result_issues r = issues ∧ (nlen issues <= max_issues)%N ∧
        ∃ issue, issue ∈ issues ∧ result_decision r = remedy_decision (iss_remedy issue) ∧
          ∀ other, other ∈ issues → (severity (iss_remedy other) <= severity (iss_remedy issue))%N
    | Err _ => issues = [] ∨ (max_issues < nlen issues)%N ∨
        ∃ issue, issue ∈ issues ∧ (500 < nlen (chars (iss_message issue)))%N
    end) as Hwrap.
  { intros wrap r Hd (issue & Hin & Hr) Hsev. unfold BoundedValidationIssues_try_new.
    destruct (N.eqb_spec max_issues 0) as [->|Hmax]; simpl.
    { right. left. unfold nlen. destruct issues; [done|]. simpl. lia. }
    rewrite bool_decide_false by done.
    destruct (N.ltb_spec max_issues (nlen issues)) as [Hlt|Hle]; [by right; left|].
    destruct (existsb _ issues) eqn:Hlong; simpl.
    - right. right. apply existsb_exists in Hlong as (x & Hx & Hlong). exists x.
      split; [by apply list_elem_of_In|by apply N.ltb_lt].
    - destruct (Hd {| bvi_issues := issues; bvi_max_issues := max_issues |}) as [-> ->]. split; [done|]. split; [done|].
      exists issue. rewrite Hr. done. }
  destruct (existsb (has_remedy Remedy_Reject) issues) eqn:H1.
  { apply Hwrap with Remedy_Reject; [done| |intros other _; by destruct (iss_remedy other)].
    apply existsb_exists in H1 as (x & Hx%list_elem_of_In & H1). exists x. by apply bool_decide_eq_true in H1. }
  assert (∀ x, x ∈ issues → iss_remedy x ≠ Remedy_Reject) as Hno1.
  { intros x Hx Hr. assert (existsb (has_remedy Remedy_Reject) issues = true) as Ht; [|by rewrite H1 in Ht].
    apply existsb_exists. exists x. split; [by apply list_elem_of_In|by apply bool_decide_eq_true]. }
  destruct (existsb (has_remedy Remedy_RepairStory) issues) eqn:H2.
  { apply Hwrap with Remedy_RepairStory; [done| |].
    - apply existsb_exists in H2 as (x & Hx%list_elem_of_In & H2). exists x. by apply bool_decide_eq_true in H2.
    - intros other Ho%Hno1. by destruct (iss_remedy other). }
  assert (∀ x, x ∈ issues → iss_remedy x = Remedy_ReextractState) as Hall.
  { intros x Hx. destruct (iss_remedy x) eqn:Hr; [|done|by destruct (Hno1 x Hx)].
    assert (existsb (has_remedy Remedy_RepairStory) issues = true) as Ht; [|by rewrite H2 in Ht].
    apply existsb_exists. exists x. split; [by apply list_elem_of_In|by apply bool_decide_eq_true]. }
  assert (forallb (has_remedy Remedy_ReextractState) issues = true) as ->.
  { apply forallb_forall. intros x Hx%list_elem_of_In. apply bool_decide_eq_true. by apply Hall. }
  apply Hwrap with Remedy_ReextractState; [done| |].
  - destruct issues as [|x l]; [done|]. exists x. split; [left|]. apply Hall. left.
  - intros other Ho%Hall. by rewrite Ho.
Qed.
