(* ===== verification/AiseScan.v ===== *)
(** * What the activation of the crate [aise] scans

    [domain/knowledge/activation/scan.rs], [index.rs], [evidence.rs] and the data
    of [contracts.rs] in [crates/aise/src/]: the fragments of text, the buffer they
    are scanned from, the compiled patterns of the knowledge entries, and the
    matches of a fragment. *)

From S2P Require Import Prelude Text AiseIds AiseRule AiseNarrative AiseStory AiseTurnData.

(** ** Keys of the maps *)

(** The derived [Ord] of [KnowledgeDelivery]: the writer, then the characters. *)
Definition delivery_key (d : KnowledgeDelivery) : N * string :=
  match d with Delivery_Writer => (0%N, "") | Delivery_Character role_id => (1%N, role_id) end.
#[global] Instance delivery_key_inj : Inj (=) (=) delivery_key.
Proof. intros [|x] [|y]; cbv; congruence. Qed.
#[global] Instance KnowledgeDelivery_countable : Countable KnowledgeDelivery.
Proof.
  apply (inj_countable' delivery_key
    (λ p, match p.1 with 0 => Delivery_Writer | _ => Delivery_Character p.2 end)%N).
  by intros [].
Defined.
Definition delivery_compare (x y : KnowledgeDelivery) : comparison :=
  prod_compare N.compare String.compare (delivery_key x) (delivery_key y).
#[global] Instance delivery_ord_laws : OrdLaws delivery_compare.
Proof. apply (inj_ord_laws delivery_key). apply _. Qed.

Inductive ActivationRejectionReason :=
| Reject_Disabled | Reject_ScopeMismatch | Reject_Delayed | Reject_Cooldown | Reject_RecursionExcluded
| Reject_RecursionLevelLocked | Reject_SecondaryCondition | Reject_GroupLoser | Reject_Probability
| Reject_Budget | Reject_Duplicate | Reject_WorkLimit.
#[global] Instance ActivationRejectionReason_eq_dec : EqDecision ActivationRejectionReason.
Proof. solve_decision. Defined.
Definition reason_rank (r : ActivationRejectionReason) : N :=
  match r with
  | Reject_Disabled => 0 | Reject_ScopeMismatch => 1 | Reject_Delayed => 2 | Reject_Cooldown => 3
  | Reject_RecursionExcluded => 4 | Reject_RecursionLevelLocked => 5 | Reject_SecondaryCondition => 6
  | Reject_GroupLoser => 7 | Reject_Probability => 8 | Reject_Budget => 9 | Reject_Duplicate => 10
  | Reject_WorkLimit => 11
  end.
#[global] Instance ActivationRejectionReason_countable : Countable ActivationRejectionReason.
Proof.
  apply (inj_countable' reason_rank (λ n, match n with
    | 0 => Reject_Disabled | 1 => Reject_ScopeMismatch | 2 => Reject_Delayed | 3 => Reject_Cooldown
    | 4 => Reject_RecursionExcluded | 5 => Reject_RecursionLevelLocked | 6 => Reject_SecondaryCondition
    | 7 => Reject_GroupLoser | 8 => Reject_Probability | 9 => Reject_Budget | 10 => Reject_Duplicate
    | _ => Reject_WorkLimit end)%N).
  by intros [].
Defined.
#[global] Instance reason_key_ord : KeyOrd ActivationRejectionReason :=
  λ x y, N.compare (reason_rank x) (reason_rank y).

(** ** Errors *)

Inductive ActivationStoreFailure :=
| Failure_Unavailable | Failure_RevisionConflict | Failure_NotFound | Failure_LimitExceeded | Failure_Serialization.
Inductive ActivationError :=
| Act_InvalidRule (code : string) | Act_InvalidRegex | Act_IndexVersionMismatch | Act_SnapshotMismatch
| Act_ContinuationMismatch | Act_WorkLimitExceeded (limit : string) | Act_RecursionLimitReached
| Act_MandatoryBudgetExceeded | Act_ExternalTargetUnauthorized | Act_TimedStateInconsistent
| Act_ProviderFailure (provider : string) | Act_Store (failure : ActivationStoreFailure).
#[global] Instance ActivationStoreFailure_eq_dec : EqDecision ActivationStoreFailure. Proof. solve_decision. Defined.
#[global] Instance ActivationError_eq_dec : EqDecision ActivationError. Proof. solve_decision. Defined.
Definition activation_error_code (e : ActivationError) : string :=
  match e with
  | Act_InvalidRule _ => "activation_rule_invalid"
  | Act_InvalidRegex => "activation_regex_invalid"
  | Act_IndexVersionMismatch => "activation_index_mismatch"
  | Act_SnapshotMismatch => "activation_snapshot_conflict"
  | Act_ContinuationMismatch => "activation_continuation_mismatch"
  | Act_WorkLimitExceeded _ => "activation_work_limit"
  | Act_RecursionLimitReached => "activation_recursion_limit"
  | Act_MandatoryBudgetExceeded => "activation_mandatory_budget"
  | Act_ExternalTargetUnauthorized => "activation_target_unauthorized"
  | Act_TimedStateInconsistent => "activation_timed_state_invalid"
  | Act_ProviderFailure _ => "activation_provider_failed"
  | Act_Store _ => "store_unavailable"
  end.

(** ** Fragments *)

Inductive ScanFragmentKind :=
| Frag_PlayerContribution | Frag_RecentStory | Frag_StorySummary | Frag_PlayerRoleName | Frag_PlayerRoleLabel
| Frag_NarrativeDirection | Frag_NarrativeEvent | Frag_RecursionContent.
#[global] Instance ScanFragmentKind_eq_dec : EqDecision ScanFragmentKind. Proof. solve_decision. Defined.
(** [{kind:?}] *)
Definition fragment_kind_debug (k : ScanFragmentKind) : string :=
  match k with
  | Frag_PlayerContribution => "PlayerContribution"
  | Frag_RecentStory => "RecentStory"
  | Frag_StorySummary => "StorySummary"
  | Frag_PlayerRoleName => "PlayerRoleName"
  | Frag_PlayerRoleLabel => "PlayerRoleLabel"
  | Frag_NarrativeDirection => "NarrativeDirection"
  | Frag_NarrativeEvent => "NarrativeEvent"
  | Frag_RecursionContent => "RecursionContent"
  end.
Definition source_priority (k : ScanFragmentKind) : N :=
  match k with
  | Frag_PlayerContribution => 0
  | Frag_PlayerRoleName | Frag_PlayerRoleLabel => 1
  | Frag_NarrativeDirection | Frag_NarrativeEvent => 2
  | Frag_RecentStory => 3
  | Frag_StorySummary => 4
  | Frag_RecursionContent => 5
  end.

Definition ScanFragmentId := Sha256Digest.
Record ScanFragment := {
  frag_id : ScanFragmentId;
  frag_kind : ScanFragmentKind;
  frag_recency_depth : N;
  frag_stable_order : N;
  frag_content_hash : Sha256Digest;
  frag_text : BoundedText;
  normalized_sensitive : string;
  normalized_insensitive : string;
}.
Definition scan_digest `{Sha256Bytes} (value : string) : Sha256Digest := sha256_bytes (str_bytes value).

Definition ScanFragment_new `{Unicode, Sha256Bytes} (kind : ScanFragmentKind) (recency_depth stable_order : N)
    (text : BoundedText) : ScanFragment := {|
  frag_id := sha256_bytes
    (str_bytes (fragment_kind_debug kind +:+ ":" +:+ pretty recency_depth +:+ ":" +:+ pretty stable_order +:+ ":")
     ++ str_bytes text);
  frag_kind := kind;
  frag_recency_depth := recency_depth;
  frag_stable_order := stable_order;
  frag_content_hash := scan_digest text;
  frag_text := text;
  normalized_sensitive := normalize_activation_literal text true;
  normalized_insensitive := normalize_activation_literal text false;
|}.
Definition normalized_text (f : ScanFragment) (case_sensitive : bool) : string :=
  if case_sensitive then normalized_sensitive f else normalized_insensitive f.

(** ** The scan buffer *)

Definition ActivationScanBuffer := list ScanFragment.
Inductive ScanBufferError := Scan_InvalidLimit | Scan_FragmentLimit | Scan_ByteLimit.

(** The key of [sort_by_key]. *)
Definition fragment_order (f g : ScanFragment) : comparison :=
  then_with (N.compare (source_priority (frag_kind f)) (source_priority (frag_kind g)))
    (then_with (N.compare (frag_recency_depth f) (frag_recency_depth g))
      (N.compare (frag_stable_order f) (frag_stable_order g))).

Definition ActivationScanBuffer_try_new (fragments : list ScanFragment) (max_fragments max_bytes : N) :
    result ScanBufferError ActivationScanBuffer :=
  fail_if (max_fragments =? 0)%N || (max_bytes =? 0)%N with Scan_InvalidLimit in
  fail_if (max_fragments <? nlen fragments)%N with Scan_FragmentLimit in
  let? bytes := try_fold (λ total fragment, ok_or (checked_add USIZE_MAX total (slen (frag_text fragment))) Scan_ByteLimit)
                  0%N fragments in
  fail_if (max_bytes <? bytes)%N with Scan_ByteLimit in
  Ok (sort_by fragment_order fragments).

Definition visible_at_depth (b : ActivationScanBuffer) (depth : N) : list ScanFragment :=
  List.filter (λ f, frag_recency_depth f <=? depth)%N b.

(** ** Compiled patterns *)

(** What the index asks of a compiled expression beyond [RegexEngine]:
    [find_iter(text).count()] and [as_str()]. *)
Class RegexFind `{RegexEngine} := {
  regex_find_count : Regex → string → N;
  regex_as_str : Regex → string;
}.

Definition MATCHER_VERSION : N := 1.

Inductive ActivationPatternKind :=
| Pat_PrimaryLiteral | Pat_PrimaryRegex | Pat_SecondaryLiteral | Pat_SecondaryRegex | Pat_Constant | Pat_Sticky
| Pat_External.
#[global] Instance ActivationPatternKind_eq_dec : EqDecision ActivationPatternKind. Proof. solve_decision. Defined.
Definition pattern_kind_rank (k : ActivationPatternKind) : N :=
  match k with
  | Pat_PrimaryLiteral => 0 | Pat_PrimaryRegex => 1 | Pat_SecondaryLiteral => 2 | Pat_SecondaryRegex => 3
  | Pat_Constant => 4 | Pat_Sticky => 5 | Pat_External => 6
  end.

Record ActivationEntryMetadata := {
  meta_source_id : KnowledgeSourceId;
  meta_kind : KnowledgeKind;
  meta_rule : KnowledgeActivationRule;
  meta_rule_version : ActivationRuleVersion;
  meta_salience : N;
  meta_from_pack : bool;
}.

Record ActivationIndexSnapshotRef := {
  ref_story_id : StoryId;
  ref_pack_digest : Sha256Digest;
  ref_base_revision : StoryRevision;
  ref_overlay_version : N;
  ref_matcher_version : N;
}.
#[global] Instance ActivationIndexSnapshotRef_eq_dec : EqDecision ActivationIndexSnapshotRef.
Proof. solve_decision. Defined.
Definition ref_from_knowledge (s : KnowledgeSnapshotRef) (overlay_version matcher_version : N) :
    ActivationIndexSnapshotRef := {|
  ref_story_id := ks_story_id s;
  ref_pack_digest := ks_pack_digest s;
  ref_base_revision := ks_base_revision s;
  ref_overlay_version := overlay_version;
  ref_matcher_version := matcher_version;
|}.

Record FragmentPatternMatch := {
  fm_source_id : KnowledgeSourceId;
  fm_pattern_kind : ActivationPatternKind;
  fm_pattern_ordinal : N;
  fm_fragment_kind : ScanFragmentKind;
  fm_recency_depth : N;
  fm_stable_fragment_order : N;
  fm_match_count : N;
  fm_group_score_contribution : N;
}.

Record ActivationIndexLimits := {
  il_max_entries : N;
  il_max_overlay_entries : N;
  il_max_tombstones : N;
  il_max_literal_patterns : N;
  il_max_regex_patterns : N;
  il_max_compiled_bytes : N;
  il_max_regex_program_bytes : N;
  il_max_macro_expansion_bytes : N;
}.
Record ActivationMacroValues := { macro_player_name : string; macro_player_role_label : string }.
Record FrozenPackIndexKey := {
  pik_pack_digest : Sha256Digest;
  pik_macro_digest : Sha256Digest;
  pik_matcher_version : N;
}.
#[global] Instance FrozenPackIndexKey_eq_dec : EqDecision FrozenPackIndexKey. Proof. solve_decision. Defined.

Definition macro_digest `{Sha256Bytes} (macros : ActivationMacroValues) : Sha256Digest :=
  sha256_bytes (str_bytes "aise.activation.macros.v1"
    ++ be_bytes 8 (slen (macro_player_name macros)) ++ str_bytes (macro_player_name macros)
    ++ be_bytes 8 (slen (macro_player_role_label macros)) ++ str_bytes (macro_player_role_label macros)).

Definition opens_word `{Unicode} (c : option N) : bool :=
  match c with Some c => is_alphanumeric c || (c =? 95)%N | None => false end.

Definition literal_count `{Unicode} (text needle : string) (whole_words : bool) : N :=
  if is_empty needle then 0
  else nlen (List.filter (λ offset,
    negb whole_words ||
    negb (opens_word (last (chars (str_take offset text))))
    && negb (opens_word (head (chars (str_drop (offset + String.length needle) text)))))
    (match_indices needle text 0 0)).

(** [str::replace]; every occurrence passes the pattern, so the length of the
    text is fuel enough. *)
Fixpoint replace_go (fuel : nat) (from to_ s : string) : string :=
  match fuel, String.index 0 from s with
  | S fuel', Some i => str_take i s +:+ to_ +:+ replace_go fuel' from to_ (str_drop (i + String.length from) s)
  | _, _ => s
  end.
Definition str_replace (from to_ s : string) : string := replace_go (String.length s) from to_ s.

Definition expand_macros (value : string) (macros : ActivationMacroValues) (max_bytes : N) :
    result ActivationError string :=
  let expanded := str_replace "{{player_role_label}}" (macro_player_role_label macros)
    (str_replace "{{player_name}}" (macro_player_name macros) value) in
  fail_if (max_bytes <? slen expanded)%N with Act_WorkLimitExceeded "macro_expansion_bytes" in
  Ok expanded.

Definition index_limit_values (l : ActivationIndexLimits) : list (N * string) :=
  [(il_max_entries l, "max_entries"); (il_max_overlay_entries l, "max_overlay_entries");
   (il_max_tombstones l, "max_tombstones"); (il_max_literal_patterns l, "max_literal_patterns");
   (il_max_regex_patterns l, "max_regex_patterns"); (il_max_compiled_bytes l, "max_compiled_bytes");
   (il_max_regex_program_bytes l, "max_regex_program_bytes");
   (il_max_macro_expansion_bytes l, "max_macro_expansion_bytes")].
Definition validate_index_limits (l : ActivationIndexLimits) : result ActivationError unit :=
  try_for_each (λ '(value, limit), fail_if (value =? 0)%N with Act_WorkLimitExceeded limit in Ok tt)
    (index_limit_values l).

Definition summary_visible (kind : ScanFragmentKind) (depth : N) (include_summary_at_max_depth : bool)
    (max_depth : N) : bool :=
  negb (bool_decide (kind = Frag_StorySummary)) || include_summary_at_max_depth && (depth =? max_depth)%N.

(** [ActivationFragmentMatches] *)
Definition ActivationFragmentMatches := gmap ScanFragmentId (list FragmentPatternMatch).

Section index.
Context `{Unicode, Sha256Bytes, RegexFind}.

Inductive CompiledMatcher :=
| Matcher_Literal (needle : string) (case_sensitive whole_words : bool)
| Matcher_Regex (regex : Regex).
Record IndexedActivationPattern := {
  iap_source_id : KnowledgeSourceId;
  iap_ordinal : N;
  iap_kind : ActivationPatternKind;
  iap_group_score_contribution : N;
  iap_matcher : CompiledMatcher;
}.
(** [FrozenLiteralIndex] and [FrozenRegexSet] *)
Record FrozenLiteralIndex := { lit_patterns : list IndexedActivationPattern; lit_compiled_bytes : N }.
Record FrozenRegexSet := { rgx_patterns : list IndexedActivationPattern; rgx_compiled_bytes : N }.

Definition projection (p : IndexedActivationPattern) (f : ScanFragment) (match_count : N) : FragmentPatternMatch := {|
  fm_source_id := iap_source_id p;
  fm_pattern_kind := iap_kind p;
  fm_pattern_ordinal := iap_ordinal p;
  fm_fragment_kind := frag_kind f;
  fm_recency_depth := frag_recency_depth f;
  fm_stable_fragment_order := frag_stable_order f;
  fm_match_count := clamp U16_MAX match_count;
  fm_group_score_contribution := iap_group_score_contribution p;
|}.

(** The matches [match_fragment] of either index appends. *)
Definition found (p : IndexedActivationPattern) (f : ScanFragment) (count : N) : list FragmentPatternMatch :=
  if (count =? 0)%N then [] else [projection p f count].
Definition literal_matches (index : FrozenLiteralIndex) (f : ScanFragment) : list FragmentPatternMatch :=
  lit_patterns index ≫= λ p,
    match iap_matcher p with
    | Matcher_Literal needle case_sensitive whole_words =>
        found p f (literal_count (normalized_text f case_sensitive) needle whole_words)
    | Matcher_Regex _ => []
    end.
Definition regex_matches (set_ : FrozenRegexSet) (f : ScanFragment) : list FragmentPatternMatch :=
  rgx_patterns set_ ≫= λ p,
    match iap_matcher p with
    | Matcher_Regex regex => found p f (regex_find_count regex (frag_text f))
    | Matcher_Literal _ _ _ => []
    end.

Record FrozenPackIndex := {
  pi_key : FrozenPackIndexKey;
  pi_literal_index : FrozenLiteralIndex;
  pi_regex_set : FrozenRegexSet;
  pi_constant_entries : list KnowledgeSourceId;
  pi_metadata : gmap KnowledgeSourceId ActivationEntryMetadata;
  pi_entry_count : N;
}.
Definition estimated_bytes (i : FrozenPackIndex) : N :=
  sat_add USIZE_MAX (lit_compiled_bytes (pi_literal_index i)) (rgx_compiled_bytes (pi_regex_set i)).

Record CompiledActivationEntry := {
  cae_literal : list IndexedActivationPattern;
  cae_regex : list IndexedActivationPattern;
  cae_compiled_bytes : N;
}.

(** [saturating_mul] *)
Definition sat_mul (max x y : N) : N := clamp max (x * y).

Definition pattern_bytes (m : CompiledMatcher) : N :=
  match m with
  | Matcher_Literal needle _ _ => slen needle
  | Matcher_Regex regex => sat_mul USIZE_MAX (slen (regex_as_str regex)) 64
  end.

(** The body of the loop of [compile_patterns]. *)
Definition compile_pattern (metadata : ActivationEntryMetadata) (literal_kind regex_kind : ActivationPatternKind)
    (positive_score : bool) (macros : ActivationMacroValues) (limits : ActivationIndexLimits)
    (compiled : CompiledActivationEntry) (e : nat * ActivationPattern) :
    result ActivationError CompiledActivationEntry :=
  let '(ordinal, Pattern_Literal raw) := e in
  let rule := meta_rule metadata in
  let indexed kind matcher := {|
    iap_source_id := meta_source_id metadata;
    iap_ordinal := clamp U16_MAX (N.of_nat ordinal);
    iap_kind := kind;
    iap_group_score_contribution := if positive_score then 1 else 0;
    iap_matcher := matcher;
  |} in
  match regex_parts (trim raw) with
  | Some (expression, flags) =>
      let? regex := map_err (λ _, Act_InvalidRegex)
        (compile_activation_regex expression flags (il_max_regex_program_bytes limits)) in
      Ok {| cae_literal := cae_literal compiled;
            cae_regex := cae_regex compiled ++ [indexed regex_kind (Matcher_Regex regex)];
            cae_compiled_bytes :=
              sat_add USIZE_MAX (cae_compiled_bytes compiled) (sat_mul USIZE_MAX (slen expression) 64) |}
  | None =>
      let? expanded := expand_macros (trim raw) macros (il_max_macro_expansion_bytes limits) in
      let needle := normalize_activation_literal expanded (mr_case_sensitive (match_rule rule)) in
      fail_if is_empty needle with Act_InvalidRule "empty_activation_pattern" in
      Ok {| cae_literal := cae_literal compiled ++
              [indexed literal_kind (Matcher_Literal needle (mr_case_sensitive (match_rule rule))
                 (mr_match_whole_words (match_rule rule)))];
            cae_regex := cae_regex compiled;
            cae_compiled_bytes := sat_add USIZE_MAX (cae_compiled_bytes compiled) (slen needle) |}
  end.

Definition enumerate {A} (l : list A) : list (nat * A) := zip (seq 0 (length l)) l.

Definition compile_entry (metadata : ActivationEntryMetadata) (macros : ActivationMacroValues)
    (limits : ActivationIndexLimits) : result ActivationError CompiledActivationEntry :=
  let m := match_rule (meta_rule metadata) in
  let secondary_positive := match mr_secondary_logic m with AndAny | AndAll => true | _ => false end in
  let? compiled := try_fold (compile_pattern metadata Pat_PrimaryLiteral Pat_PrimaryRegex true macros limits)
    {| cae_literal := []; cae_regex := []; cae_compiled_bytes := 0 |} (enumerate (mr_keys m)) in
  try_fold (compile_pattern metadata Pat_SecondaryLiteral Pat_SecondaryRegex secondary_positive macros limits)
    compiled (enumerate (mr_secondary_keys m)).

(** The state of the loop of [build_frozen_pack_index]. *)
Record IndexBuild := {
  ib_literal : list IndexedActivationPattern;
  ib_regex : list IndexedActivationPattern;
  ib_compiled_bytes : N;
  ib_entry_count : N;
  ib_constant_entries : list KnowledgeSourceId;
  ib_metadata : gmap KnowledgeSourceId ActivationEntryMetadata;
}.

Definition index_rule_error (e : ActivationRuleValidationError) : ActivationError :=
  match e with
  | InvalidRegex | RegexProgramTooLarge => Act_InvalidRegex
  | _ => Act_InvalidRule "activation_rule_rejected"
  end.

Definition index_entry (macros : ActivationMacroValues) (limits : ActivationIndexLimits)
    (rule_limits : ActivationRuleLimits) (b : IndexBuild) (metadata : ActivationEntryMetadata) :
    result ActivationError IndexBuild :=
  let entry_count := sat_add USIZE_MAX (ib_entry_count b) 1 in
  fail_if (il_max_entries limits <? entry_count)%N with Act_WorkLimitExceeded "max_entries" in
  let? _ := map_err index_rule_error (validate_for_index (meta_rule metadata) rule_limits) in
  let? compiled := compile_entry metadata macros limits in
  let compiled_bytes := sat_add USIZE_MAX (ib_compiled_bytes b) (cae_compiled_bytes compiled) in
  fail_if (il_max_compiled_bytes limits <? compiled_bytes)%N with Act_WorkLimitExceeded "max_compiled_bytes" in
  let literal := ib_literal b ++ cae_literal compiled in
  let regex := ib_regex b ++ cae_regex compiled in
  fail_if (il_max_literal_patterns limits <? nlen literal)%N with Act_WorkLimitExceeded "max_literal_patterns" in
  fail_if (il_max_regex_patterns limits <? nlen regex)%N with Act_WorkLimitExceeded "max_regex_patterns" in
  Ok {| ib_literal := literal;
        ib_regex := regex;
        ib_compiled_bytes := compiled_bytes;
        ib_entry_count := entry_count;
        ib_constant_entries := ib_constant_entries b ++
          (if mode_constant (mode (meta_rule metadata)) then [meta_source_id metadata] else []);
        ib_metadata := <[meta_source_id metadata := metadata]> (ib_metadata b) |}.

Definition patterns_bytes (ps : list IndexedActivationPattern) : N :=
  foldl (λ total p, sat_add USIZE_MAX total (pattern_bytes (iap_matcher p))) 0%N ps.

Definition build_frozen_pack_index (key : FrozenPackIndexKey) (entries_ : list ActivationEntryMetadata)
    (macros : ActivationMacroValues) (limits : ActivationIndexLimits) (rule_limits : ActivationRuleLimits) :
    result ActivationError FrozenPackIndex :=
  let? _ := validate_index_limits limits in
  let? b := try_fold (index_entry macros limits rule_limits)
    {| ib_literal := []; ib_regex := []; ib_compiled_bytes := 0; ib_entry_count := 0;
       ib_constant_entries := []; ib_metadata := ∅ |} entries_ in
  Ok {| pi_key := key;
        pi_literal_index := {| lit_patterns := ib_literal b; lit_compiled_bytes := patterns_bytes (ib_literal b) |};
        pi_regex_set := {| rgx_patterns := ib_regex b; rgx_compiled_bytes := patterns_bytes (ib_regex b) |};
        pi_constant_entries := ib_constant_entries b;
        pi_metadata := ib_metadata b;
        pi_entry_count := ib_entry_count b |}.

(** ** The index of a turn: the pack's, and the story's overlay *)

Record ActivationIndexSnapshot := {
  ix_reference : ActivationIndexSnapshotRef;
  ix_constant_entries : list KnowledgeSourceId;
  ix_metadata : gmap KnowledgeSourceId ActivationEntryMetadata;
  ix_literal_index : FrozenLiteralIndex;
  ix_regex_set : FrozenRegexSet;
  ix_overlay_literal_index : FrozenLiteralIndex;
  ix_overlay_regex_set : FrozenRegexSet;
}.
Definition ActivationIndexSnapshot_new (reference : ActivationIndexSnapshotRef)
    (metadata : gmap KnowledgeSourceId ActivationEntryMetadata) (literal_index : FrozenLiteralIndex)
    (regex_set : FrozenRegexSet) (overlay_literal_index : FrozenLiteralIndex) (overlay_regex_set : FrozenRegexSet) :
    ActivationIndexSnapshot := {|
  ix_reference := reference;
  ix_constant_entries :=
    map meta_source_id (List.filter (λ e, mode_constant (mode (meta_rule e))) (values metadata));
  ix_metadata := metadata;
  ix_literal_index := literal_index;
  ix_regex_set := regex_set;
  ix_overlay_literal_index := overlay_literal_index;
  ix_overlay_regex_set := overlay_regex_set;
|}.
Definition literal_pattern_count (s : ActivationIndexSnapshot) : N :=
  sat_add USIZE_MAX (nlen (lit_patterns (ix_literal_index s))) (nlen (lit_patterns (ix_overlay_literal_index s))).
Definition regex_pattern_count (s : ActivationIndexSnapshot) : N :=
  sat_add USIZE_MAX (nlen (rgx_patterns (ix_regex_set s))) (nlen (rgx_patterns (ix_overlay_regex_set s))).

(** The patterns of the pack count only for entries the story has not replaced
    or deleted. *)
Definition match_fragment (s : ActivationIndexSnapshot) (f : ScanFragment) : list FragmentPatternMatch :=
  List.filter (λ item, from_option meta_from_pack false (ix_metadata s !! fm_source_id item))
    (literal_matches (ix_literal_index s) f ++ regex_matches (ix_regex_set s) f)
  ++ literal_matches (ix_overlay_literal_index s) f ++ regex_matches (ix_overlay_regex_set s) f.

Definition matches_snapshot (s : ActivationIndexSnapshot) (snapshot : KnowledgeSnapshotRef) (matcher_version : N) :
    bool :=
  let r := ix_reference s in
  bool_decide (ref_story_id r = ks_story_id snapshot) && bool_decide (ref_pack_digest r = ks_pack_digest snapshot)
  && bool_decide (ref_base_revision r = ks_base_revision snapshot)
  && (ref_matcher_version r =? matcher_version)%N.
End index.
