(* ===== verification/AisePorts.v ===== *)
(** * What the engine of the crate [aise] asks of its store

    [persistence/store.rs], [persistence/knowledge_read_port.rs],
    [persistence/activation_index_port.rs],
    [persistence/activation_timed_state_port.rs] and [persistence/asset_store.rs] of
    [crates/aise/src/]: the errors of
    the store, the questions and the records of the ports.  A port is a parameter: it
    answers at a moment, and what it answers at another may differ. *)

From S2P Require Import Prelude Text AiseIds AiseRule AiseNarrative AiseStory AiseTurnData AiseBudget AiseScan.

(** ** [StoreError] *)

Inductive StoreSerializationErrorKind :=
| Ser_InvalidStoryState | Ser_InvalidTurnResult | Ser_InvalidEventPayload | Ser_InvalidWorldState
| Ser_InvalidRoleState | Ser_InvalidMemory.
#[global] Instance StoreSerializationErrorKind_eq_dec : EqDecision StoreSerializationErrorKind. Proof. solve_decision. Defined.
(** [{kind:?}] *)
Definition serialization_debug (k : StoreSerializationErrorKind) : string :=
  match k with
  | Ser_InvalidStoryState => "InvalidStoryState"
  | Ser_InvalidTurnResult => "InvalidTurnResult"
  | Ser_InvalidEventPayload => "InvalidEventPayload"
  | Ser_InvalidWorldState => "InvalidWorldState"
  | Ser_InvalidRoleState => "InvalidRoleState"
  | Ser_InvalidMemory => "InvalidMemory"
  end.

Inductive StoreError :=
| Store_NotFound
| Store_RevisionConflict
| Store_IdempotencyConflict
| Store_ConstraintViolation (constraint : string)
| Store_LimitExceeded (limit : string)
| Store_Serialization (kind : StoreSerializationErrorKind)
| Store_Unavailable.
#[global] Instance StoreError_eq_dec : EqDecision StoreError. Proof. solve_decision. Defined.
Definition store_error_display (e : StoreError) : string :=
  match e with
  | Store_NotFound => "story not found"
  | Store_RevisionConflict => "revision conflict"
  | Store_IdempotencyConflict => "idempotency conflict"
  | Store_ConstraintViolation constraint => "constraint violation: " +:+ constraint
  | Store_LimitExceeded limit => "store limit exceeded: " +:+ limit
  | Store_Serialization kind => "serialization error: " +:+ serialization_debug kind
  | Store_Unavailable => "store unavailable"
  end.
(** [impl From<StoreError> for TurnExecutionError] *)
Definition store_turn_error (e : StoreError) : TurnExecutionError :=
  match e with
  | Store_RevisionConflict => revision_conflict None
  | Store_IdempotencyConflict => idempotency_conflict None
  | other => turn_error Kind_Store "store_error" None (store_error_display other)
  end.

(** ** Questions and records *)

Record KnowledgeFilter := {
  kf_delivery : KnowledgeDelivery;
  kf_knowledge_kinds : list KnowledgeKind;
  kf_max_item_bytes : N;
}.
Record KnowledgeRecord := {
  kr_source_id : KnowledgeSourceId;
  kr_kind : KnowledgeKind;
  kr_content : BoundedText;
  kr_salience : N;
  kr_source : KnowledgeSource;
  kr_memory_owner : option RoleId;
  kr_activation : option KnowledgeActivationRule;
  kr_activation_rule_version : option ActivationRuleVersion;
}.
Record SourceKnowledgeQuery := {
  skq_snapshot : KnowledgeSnapshotRef;
  skq_filter : KnowledgeFilter;
  skq_source_ids : list KnowledgeSourceId;
  skq_limit : N;
}.
Record OwnerMemoryQuery := {
  omq_snapshot : KnowledgeSnapshotRef;
  omq_owner : RoleId;
  omq_limit : N;
  omq_max_item_bytes : N;
}.
Record KnowledgeIndexQuery := {
  kiq_snapshot : KnowledgeSnapshotRef;
  kiq_knowledge_kinds : list KnowledgeKind;
  kiq_limit : N;
}.
Record KnowledgeIndexRecord := {
  kir_source_id : KnowledgeSourceId;
  kir_retrieval_hint : RetrievalHint;
}.
Record ActivationTimedStateQuery := {
  tsq_snapshot : KnowledgeSnapshotRef;
  tsq_limit : N;
}.
Record ActivationIndexMetadata := {
  im_reference : ActivationIndexSnapshotRef;
  im_pack_entries : gmap KnowledgeSourceId ActivationEntryMetadata;
  im_entries : gmap KnowledgeSourceId ActivationEntryMetadata;
}.

(** [dyn KnowledgeReadPort], [dyn ActivationIndexPort] and
    [dyn ActivationTimedStateReadPort]. *)
Class KnowledgePorts := {
  find_by_source_ids : N → SourceKnowledgeQuery → result StoreError (list KnowledgeRecord);
  find_memories_by_owner : N → OwnerMemoryQuery → result StoreError (list KnowledgeRecord);
  list_index : N → KnowledgeIndexQuery → result StoreError (list KnowledgeIndexRecord);
  load_snapshot : N → KnowledgeSnapshotRef → ActivationIndexLimits → result StoreError ActivationIndexMetadata;
  load_timed_state : N → ActivationTimedStateQuery → result StoreError (list ActivationTimedState);
}.

(** ** [persistence/asset_store.rs] *)

Record ValidatedStoryPack := {
  vsp_pack : StoryPack;
  vsp_canonical_manifest : list N;
  vsp_digest : Sha256Digest;
  vsp_resolved_world_book : WorldBook;
}.
Record FrozenStoryPack := {
  frozen_pack_id : PackId;
  frozen_pack : StoryPack;
  frozen_digest : Sha256Digest;
  frozen_resolved_world_book : WorldBook;
}.
Definition pack_frozen_ref (f : FrozenStoryPack) : FrozenStoryPackRef := {|
  fsp_pack_id := frozen_pack_id f; fsp_pack_key := spm_pack_key (pack_meta (frozen_pack f));
  fsp_version := spm_version (pack_meta (frozen_pack f)); fsp_digest := frozen_digest f |}.
Record PackInfo := {
  pi_pack_id : PackId; pi_pack_key : StoryPackKey; pi_version : SemanticVersion; pi_digest : Sha256Digest;
}.
Record ValidatedCharacterCard := {
  vcc_card : CharacterCard; vcc_canonical_json : list N; vcc_digest : Sha256Digest;
}.
Record FrozenCharacterCard := { fc_card : CharacterCard; fc_digest : Sha256Digest }.
Definition card_frozen_ref (f : FrozenCharacterCard) : FrozenCharacterCardRef := {|
  fcc_character_id := card_character_id (fc_card f); fcc_version := cm_version (card_meta (fc_card f));
  fcc_digest := fc_digest f |}.
Record CharacterCardInfo := {
  cci_character_id : CharacterId;
  cci_name : BoundedText;
  cci_creator : option BoundedText;
  cci_version : SemanticVersion;
  cci_digest : Sha256Digest;
}.

(** [dyn AssetStore], over whatever its calls change. *)
Class AssetStore (W : Type) := {
  asset_find_pack_by_digest : Sha256Digest → W → W * result StoreError (option FrozenStoryPack);
  asset_import_pack : ValidatedStoryPack → W → W * result StoreError FrozenStoryPack;
  asset_load_pack : PackId → W → W * result StoreError FrozenStoryPack;
  asset_export_pack : PackId → W → W * result StoreError FrozenStoryPack;
  asset_list_packs : W → W * result StoreError (list FrozenStoryPack);
  asset_delete_pack : PackId → W → W * result StoreError bool;
  asset_find_character_by_digest : Sha256Digest → W → W * result StoreError (option FrozenCharacterCard);
  asset_import_character : ValidatedCharacterCard → W → W * result StoreError FrozenCharacterCard;
  asset_load_character : FrozenCharacterCardRef → W → W * result StoreError FrozenCharacterCard;
  asset_list_characters : W → W * result StoreError (list CharacterCardInfo);
}.
