(* ===== verification/AiseActivation.v ===== *)
(** * The activation engine of the crate [aise]

    [domain/knowledge/activation/engine.rs] and the data of [contracts.rs] in
    [crates/aise/src/]: a session that selects, round by round, the entries of
    knowledge a turn is given.  A round collects the candidates (constant, sticky,
    asked for, matched by the text), filters them, settles the groups, draws the
    probabilities and hands the admitted ones to its caller, which supplies their
    bodies; admitted bodies are scanned in turn, and the scan goes deeper while too
    few entries are active.

    Every operation takes the session and returns the new one.  The caller
    (AiseCoordination.v) drops a session whose operation failed, so an error
    carries no session.  SHA-256, the regular expressions, the Unicode tables and
    the size of a record in memory are parameters. *)

From S2P Require Import Prelude Text AiseIds AiseRule AiseNarrative AiseStory AiseTurnData AiseScan.

(** [std::mem::size_of], which the language does not fix. *)
Class Layout := { size_of_evidence : N; size_of_match : N }.

(** ** Data *)

Record ActivationRuntimeLimits := {
  rl_minimum_activations : N;
  rl_initial_scan_depth : N;
  rl_max_scan_depth : N;
  rl_include_summary_at_max_depth : bool;
  rl_max_scan_fragments : N;
  rl_max_scan_bytes : N;
  rl_max_scan_tokens : N;
  rl_max_literal_patterns : N;
  rl_max_regex_patterns : N;
  rl_max_pattern_matches : N;
  rl_max_candidates_per_round : N;
  rl_max_recursion_steps : N;
  rl_max_recursion_fragments : N;
  rl_max_recursion_bytes : N;
  rl_max_recursion_tokens : N;
  rl_max_activated_entries : N;
  rl_max_depth_expansions : N;
  rl_max_external_candidates : N;
  rl_max_evidence_per_entry : N;
  rl_max_evidence_bytes : N;
  rl_max_items_per_audience : N;
  rl_max_tokens_per_audience : N;
  rl_max_total_items : N;
  rl_max_total_tokens : N;
  rl_max_single_entry_bytes : N;
  rl_reserved_tokens : N;
  rl_mandatory_tokens : N;
}.
#[global] Instance ActivationRuntimeLimits_eq_dec : EqDecision ActivationRuntimeLimits.
Proof. solve_decision. Defined.
#[global] Instance KnowledgeSnapshotRef_eq_dec : EqDecision KnowledgeSnapshotRef. Proof. solve_decision. Defined.

Record ActivationEntryBody := {
  aeb_source_id : KnowledgeSourceId;
  aeb_kind : KnowledgeKind;
  aeb_token_cost : N;
  aeb_body : BoundedText;
}.
Record ActivationEvidence := {
  ae_pattern_kind : ActivationPatternKind;
  ae_pattern_ordinal : N;
  ae_fragment_kind : ScanFragmentKind;
  ae_recency_depth : N;
  ae_stable_fragment_order : N;
  ae_match_count : N;
  ae_group_score_contribution : N;
  ae_round : N;
  ae_recursion_level : N;
}.
Record ActivationWorkUsage := {
  wu_scan_fragments : N;
  wu_scan_bytes : N;
  wu_scan_tokens : N;
  wu_pattern_matches : N;
  wu_candidate_evaluations : N;
  wu_recursion_steps : N;
  wu_recursion_fragments : N;
  wu_recursion_bytes : N;
  wu_recursion_tokens : N;
  wu_activated_entries : N;
  wu_knowledge_tokens : N;
}.
Definition usage_eta (r : ActivationWorkUsage) : ActivationWorkUsage := {|
  wu_scan_fragments := wu_scan_fragments r; wu_scan_bytes := wu_scan_bytes r;
  wu_scan_tokens := wu_scan_tokens r; wu_pattern_matches := wu_pattern_matches r;
  wu_candidate_evaluations := wu_candidate_evaluations r; wu_recursion_steps := wu_recursion_steps r;
  wu_recursion_fragments := wu_recursion_fragments r; wu_recursion_bytes := wu_recursion_bytes r;
  wu_recursion_tokens := wu_recursion_tokens r; wu_activated_entries := wu_activated_entries r;
  wu_knowledge_tokens := wu_knowledge_tokens r
|}.
Definition set_wu_scan_fragments : (N → N) → ActivationWorkUsage → ActivationWorkUsage := ltac:(set_field usage_eta wu_scan_fragments).
Definition set_wu_scan_bytes : (N → N) → ActivationWorkUsage → ActivationWorkUsage := ltac:(set_field usage_eta wu_scan_bytes).
Definition set_wu_scan_tokens : (N → N) → ActivationWorkUsage → ActivationWorkUsage := ltac:(set_field usage_eta wu_scan_tokens).
Definition set_wu_pattern_matches : (N → N) → ActivationWorkUsage → ActivationWorkUsage := ltac:(set_field usage_eta wu_pattern_matches).
Definition set_wu_candidate_evaluations : (N → N) → ActivationWorkUsage → ActivationWorkUsage := ltac:(set_field usage_eta wu_candidate_evaluations).
Definition set_wu_recursion_steps : (N → N) → ActivationWorkUsage → ActivationWorkUsage := ltac:(set_field usage_eta wu_recursion_steps).
Definition set_wu_recursion_fragments : (N → N) → ActivationWorkUsage → ActivationWorkUsage := ltac:(set_field usage_eta wu_recursion_fragments).
Definition set_wu_recursion_bytes : (N → N) → ActivationWorkUsage → ActivationWorkUsage := ltac:(set_field usage_eta wu_recursion_bytes).
Definition set_wu_recursion_tokens : (N → N) → ActivationWorkUsage → ActivationWorkUsage := ltac:(set_field usage_eta wu_recursion_tokens).
Definition set_wu_activated_entries : (N → N) → ActivationWorkUsage → ActivationWorkUsage := ltac:(set_field usage_eta wu_activated_entries).
Definition set_wu_knowledge_tokens : (N → N) → ActivationWorkUsage → ActivationWorkUsage := ltac:(set_field usage_eta wu_knowledge_tokens).
Definition ActivationWorkUsage_default : ActivationWorkUsage := Build_ActivationWorkUsage 0 0 0 0 0 0 0 0 0 0 0.

Record ExternalActivationSeed := {
  seed_source_id : KnowledgeSourceId;
  seed_delivery : KnowledgeDelivery;
  seed_kind : ActivationSeedKind;
  seed_provider_rank : option N;
  seed_mandatory : bool;
}.

(** [ActivationOrdering], compared field by field. *)
Record ActivationOrdering := {
  ord_class_rank : N;
  ord_order_rank : Z;
  ord_score_rank : N;
  ord_source_priority : N;
  ord_recency_depth : N;
  ord_salience_rank : N;
  ord_provider_rank : N;
}.
Definition ordering_compare (x y : ActivationOrdering) : comparison :=
  then_with (N.compare (ord_class_rank x) (ord_class_rank y))
  (then_with (Z.compare (ord_order_rank x) (ord_order_rank y))
  (then_with (N.compare (ord_score_rank x) (ord_score_rank y))
  (then_with (N.compare (ord_source_priority x) (ord_source_priority y))
  (then_with (N.compare (ord_recency_depth x) (ord_recency_depth y))
  (then_with (N.compare (ord_salience_rank x) (ord_salience_rank y))
    (N.compare (ord_provider_rank x) (ord_provider_rank y))))))).

Record ActivatedKnowledgeRef := {
  act_source_id : KnowledgeSourceId;
  act_deliveries : list KnowledgeDelivery;
  act_activation_class : ActivationSeedKind;
  act_rank : N;
  act_token_cost : N;
  act_evidence : list ActivationEvidence;
  act_ordering : ActivationOrdering;
}.
Definition activated_eta (r : ActivatedKnowledgeRef) : ActivatedKnowledgeRef := {|
  act_source_id := act_source_id r; act_deliveries := act_deliveries r;
  act_activation_class := act_activation_class r; act_rank := act_rank r; act_token_cost := act_token_cost r;
  act_evidence := act_evidence r; act_ordering := act_ordering r
|}.
Definition set_act_deliveries :
    (list KnowledgeDelivery → list KnowledgeDelivery) → ActivatedKnowledgeRef → ActivatedKnowledgeRef :=
  ltac:(set_field activated_eta act_deliveries).
Definition set_act_rank : (N → N) → ActivatedKnowledgeRef → ActivatedKnowledgeRef :=
  ltac:(set_field activated_eta act_rank).

Record ActivationContinuation := {
  k_turn_number : TurnNumber;
  k_generation_trigger : GenerationTrigger;
  k_knowledge_snapshot : KnowledgeSnapshotRef;
  k_index_snapshot : ActivationIndexSnapshotRef;
  k_activated : gmap KnowledgeSourceId ActivatedKnowledgeRef;
  k_terminal_rejections : gmap KnowledgeSourceId ActivationRejectionReason;
  k_failed_probability : gset KnowledgeSourceId;
  k_group_winners : gmap ActivationGroupKey KnowledgeSourceId;
  k_recursion_level : N;
  k_scan_depth : N;
  k_depth_expansions : N;
  k_recursion_sources : gset KnowledgeSourceId;
  k_scanned_fragment_ids : gset ScanFragmentId;
  k_matched_fragment_ids : gset ScanFragmentId;
  k_accumulated_matches : gmap KnowledgeSourceId (list FragmentPatternMatch);
  k_audience_items : gmap KnowledgeDelivery N;
  k_audience_tokens : gmap KnowledgeDelivery N;
  k_total_delivery_items : N;
  k_normal_tokens : N;
  k_reserved_tokens : N;
  k_mandatory_tokens : N;
  k_consumed : ActivationWorkUsage;
  k_evidence_bytes : N;
  k_limits : ActivationRuntimeLimits;
}.
Definition continuation_eta (r : ActivationContinuation) : ActivationContinuation := {|
  k_turn_number := k_turn_number r; k_generation_trigger := k_generation_trigger r;
  k_knowledge_snapshot := k_knowledge_snapshot r; k_index_snapshot := k_index_snapshot r;
  k_activated := k_activated r; k_terminal_rejections := k_terminal_rejections r;
  k_failed_probability := k_failed_probability r; k_group_winners := k_group_winners r;
  k_recursion_level := k_recursion_level r; k_scan_depth := k_scan_depth r;
  k_depth_expansions := k_depth_expansions r; k_recursion_sources := k_recursion_sources r;
  k_scanned_fragment_ids := k_scanned_fragment_ids r; k_matched_fragment_ids := k_matched_fragment_ids r;
  k_accumulated_matches := k_accumulated_matches r; k_audience_items := k_audience_items r;
  k_audience_tokens := k_audience_tokens r; k_total_delivery_items := k_total_delivery_items r;
  k_normal_tokens := k_normal_tokens r; k_reserved_tokens := k_reserved_tokens r;
  k_mandatory_tokens := k_mandatory_tokens r; k_consumed := k_consumed r;
  k_evidence_bytes := k_evidence_bytes r; k_limits := k_limits r
|}.
Definition set_k_activated : (gmap KnowledgeSourceId ActivatedKnowledgeRef → gmap KnowledgeSourceId ActivatedKnowledgeRef) → ActivationContinuation → ActivationContinuation := ltac:(set_field continuation_eta k_activated).
Definition set_k_terminal_rejections : (gmap KnowledgeSourceId ActivationRejectionReason → gmap KnowledgeSourceId ActivationRejectionReason) → ActivationContinuation → ActivationContinuation := ltac:(set_field continuation_eta k_terminal_rejections).
Definition set_k_failed_probability : (gset KnowledgeSourceId → gset KnowledgeSourceId) → ActivationContinuation → ActivationContinuation := ltac:(set_field continuation_eta k_failed_probability).
Definition set_k_group_winners : (gmap ActivationGroupKey KnowledgeSourceId → gmap ActivationGroupKey KnowledgeSourceId) → ActivationContinuation → ActivationContinuation := ltac:(set_field continuation_eta k_group_winners).
Definition set_k_recursion_level : (N → N) → ActivationContinuation → ActivationContinuation := ltac:(set_field continuation_eta k_recursion_level).
Definition set_k_scan_depth : (N → N) → ActivationContinuation → ActivationContinuation := ltac:(set_field continuation_eta k_scan_depth).
Definition set_k_depth_expansions : (N → N) → ActivationContinuation → ActivationContinuation := ltac:(set_field continuation_eta k_depth_expansions).
Definition set_k_recursion_sources : (gset KnowledgeSourceId → gset KnowledgeSourceId) → ActivationContinuation → ActivationContinuation := ltac:(set_field continuation_eta k_recursion_sources).
Definition set_k_scanned_fragment_ids : (gset ScanFragmentId → gset ScanFragmentId) → ActivationContinuation → ActivationContinuation := ltac:(set_field continuation_eta k_scanned_fragment_ids).
Definition set_k_matched_fragment_ids : (gset ScanFragmentId → gset ScanFragmentId) → ActivationContinuation → ActivationContinuation := ltac:(set_field continuation_eta k_matched_fragment_ids).
Definition set_k_accumulated_matches : (gmap KnowledgeSourceId (list FragmentPatternMatch) → gmap KnowledgeSourceId (list FragmentPatternMatch)) → ActivationContinuation → ActivationContinuation := ltac:(set_field continuation_eta k_accumulated_matches).
Definition set_k_audience_items : (gmap KnowledgeDelivery N → gmap KnowledgeDelivery N) → ActivationContinuation → ActivationContinuation := ltac:(set_field continuation_eta k_audience_items).
Definition set_k_audience_tokens : (gmap KnowledgeDelivery N → gmap KnowledgeDelivery N) → ActivationContinuation → ActivationContinuation := ltac:(set_field continuation_eta k_audience_tokens).
Definition set_k_total_delivery_items : (N → N) → ActivationContinuation → ActivationContinuation := ltac:(set_field continuation_eta k_total_delivery_items).
Definition set_k_normal_tokens : (N → N) → ActivationContinuation → ActivationContinuation := ltac:(set_field continuation_eta k_normal_tokens).
Definition set_k_reserved_tokens : (N → N) → ActivationContinuation → ActivationContinuation := ltac:(set_field continuation_eta k_reserved_tokens).
Definition set_k_mandatory_tokens : (N → N) → ActivationContinuation → ActivationContinuation := ltac:(set_field continuation_eta k_mandatory_tokens).
Definition set_k_consumed : (ActivationWorkUsage → ActivationWorkUsage) → ActivationContinuation → ActivationContinuation := ltac:(set_field continuation_eta k_consumed).
Definition set_k_evidence_bytes : (N → N) → ActivationContinuation → ActivationContinuation := ltac:(set_field continuation_eta k_evidence_bytes).

Inductive ActivationMachineState :=
| State_Initial | State_Recursion | State_DepthExpansion | State_Resumed | State_Complete.

Record ActivationRoundOutcome := {
  ro_admitted : list KnowledgeSourceId;
  ro_state : ActivationMachineState;
  ro_candidates : N;
  ro_scan_depth : N;
  ro_recursion_level : N;
  ro_consumed : ActivationWorkUsage;
  ro_rejection_summary : gmap ActivationRejectionReason N;
}.
Record ActivationResult := {
  ar_activated : list ActivatedKnowledgeRef;
  ar_continuation : ActivationContinuation;
  ar_pending_timed_state : PendingActivationStateDelta;
  ar_rejection_summary : gmap ActivationRejectionReason N;
  ar_stop_reason : ActivationStopReason;
}.

Record Candidate := {
  c_source_id : KnowledgeSourceId;
  c_class : ActivationSeedKind;
  c_evidence : list ActivationEvidence;
  c_score : N;
  c_provider_rank : option N;
  c_mandatory : bool;
  c_sticky : bool;
  c_recursion_only : bool;
  c_deliveries : list KnowledgeDelivery;
}.
Record BudgetUsage := {
  bu_audience_items : gmap KnowledgeDelivery N;
  bu_audience_tokens : gmap KnowledgeDelivery N;
  bu_total_items : N;
  bu_normal_tokens : N;
  bu_reserved_tokens : N;
  bu_mandatory_tokens : N;
}.
Definition BudgetUsage_default : BudgetUsage := Build_BudgetUsage ∅ ∅ 0 0 0 0.
Inductive AdmissionOutcome := Admitted_ (usage : BudgetUsage) | Rejected_.
Inductive Stage := Stage_Start | Stage_InitialRecursion | Stage_DepthLoop | Stage_DepthRecursion | Stage_Done.
Inductive RecursionStep := Step_None | Step_Expanded | Step_Exhausted.

Record Session := {
  ss_continuation : ActivationContinuation;
  ss_timed_valid : gmap KnowledgeSourceId ActivationTimedState;
  ss_timed_delta : PendingActivationStateDelta;
  ss_rejections : gmap ActivationRejectionReason N;
  ss_budget : BudgetUsage;
  ss_recursion_fragments : list ScanFragment;
  ss_recursion_matches : gmap ScanFragmentId (list FragmentPatternMatch);
  ss_recursion_pending : list KnowledgeSourceId;
  ss_recursion_bodies : gmap KnowledgeSourceId (BoundedText * N);
  ss_pending : gmap KnowledgeSourceId Candidate;
  ss_stage : Stage;
  ss_state : ActivationMachineState;
  ss_last_candidate_count : N;
  ss_budget_trimmed : bool;
  ss_recursion_exhausted : bool;
}.
Definition session_eta (r : Session) : Session := {|
  ss_continuation := ss_continuation r; ss_timed_valid := ss_timed_valid r; ss_timed_delta := ss_timed_delta r;
  ss_rejections := ss_rejections r; ss_budget := ss_budget r;
  ss_recursion_fragments := ss_recursion_fragments r; ss_recursion_matches := ss_recursion_matches r;
  ss_recursion_pending := ss_recursion_pending r; ss_recursion_bodies := ss_recursion_bodies r;
  ss_pending := ss_pending r; ss_stage := ss_stage r; ss_state := ss_state r;
  ss_last_candidate_count := ss_last_candidate_count r; ss_budget_trimmed := ss_budget_trimmed r;
  ss_recursion_exhausted := ss_recursion_exhausted r
|}.
Definition set_ss_continuation : (ActivationContinuation → ActivationContinuation) → Session → Session := ltac:(set_field session_eta ss_continuation).
Definition set_ss_timed_delta : (PendingActivationStateDelta → PendingActivationStateDelta) → Session → Session := ltac:(set_field session_eta ss_timed_delta).
Definition set_ss_rejections : (gmap ActivationRejectionReason N → gmap ActivationRejectionReason N) → Session → Session := ltac:(set_field session_eta ss_rejections).
Definition set_ss_budget : (BudgetUsage → BudgetUsage) → Session → Session := ltac:(set_field session_eta ss_budget).
Definition set_ss_recursion_fragments : (list ScanFragment → list ScanFragment) → Session → Session := ltac:(set_field session_eta ss_recursion_fragments).
Definition set_ss_recursion_matches : (gmap ScanFragmentId (list FragmentPatternMatch) → gmap ScanFragmentId (list FragmentPatternMatch)) → Session → Session := ltac:(set_field session_eta ss_recursion_matches).
Definition set_ss_recursion_pending : (list KnowledgeSourceId → list KnowledgeSourceId) → Session → Session := ltac:(set_field session_eta ss_recursion_pending).
Definition set_ss_recursion_bodies : (gmap KnowledgeSourceId (BoundedText * N) → gmap KnowledgeSourceId (BoundedText * N)) → Session → Session := ltac:(set_field session_eta ss_recursion_bodies).
Definition set_ss_pending : (gmap KnowledgeSourceId Candidate → gmap KnowledgeSourceId Candidate) → Session → Session := ltac:(set_field session_eta ss_pending).
Definition set_ss_stage : (Stage → Stage) → Session → Session := ltac:(set_field session_eta ss_stage).
Definition set_ss_state : (ActivationMachineState → ActivationMachineState) → Session → Session := ltac:(set_field session_eta ss_state).
Definition set_ss_last_candidate_count : (N → N) → Session → Session := ltac:(set_field session_eta ss_last_candidate_count).
Definition set_ss_budget_trimmed : (bool → bool) → Session → Session := ltac:(set_field session_eta ss_budget_trimmed).
Definition set_ss_recursion_exhausted : (bool → bool) → Session → Session := ltac:(set_field session_eta ss_recursion_exhausted).

(** ** Small functions *)

Definition is_mandatory (class : ActivationBudgetClass) (forced : bool) : bool :=
  forced || bool_decide (class = Class_Mandatory).
Definition increment (rejections : gmap ActivationRejectionReason N) (reason : ActivationRejectionReason) :
    gmap ActivationRejectionReason N :=
  <[reason := (default 0 (rejections !! reason) + 1)%N]> rejections.
Definition bytes_to_tokens (bytes : N) : N := ((bytes + 3) / 4)%N.
(** [TurnNumber::try_new(value).ok()] *)
Definition turn_number_of (value : N) : option TurnNumber :=
  match TurnNumber_try_new value with Ok n => Some n | Err _ => None end.
(** [i32::saturating_neg] *)
Definition i32_sat_neg (z : Z) : Z := (if z =? -2147483648 then 2147483647 else - z)%Z.

Definition default_deliveries (kind : KnowledgeKind) : list KnowledgeDelivery :=
  match kind with Kind_Fact | Kind_Rumor => [Delivery_Writer] | Kind_Memory => [] end.
Definition delivery_allowed (kind : KnowledgeKind) (d : KnowledgeDelivery) : bool :=
  match d with
  | Delivery_Writer => match kind with Kind_Fact | Kind_Rumor => true | Kind_Memory => false end
  | Delivery_Character _ => bool_decide (kind = Kind_Rumor)
  end.
Definition validate_deliveries (kind : KnowledgeKind) (deliveries : list KnowledgeDelivery) :
    result ActivationError unit :=
  fail_if existsb (λ d, negb (delivery_allowed kind d)) deliveries with Act_ExternalTargetUnauthorized in Ok tt.

(** [Vec::dedup]: drops the consecutive repetitions. *)
Fixpoint dedup {A} `{EqDecision A} (l : list A) : list A :=
  match l with
  | [] => []
  | x :: l' => match l' with
               | [] => [x]
               | y :: _ => if decide (x = y) then dedup l' else x :: dedup l'
               end
  end.
Definition sorted_deliveries (l : list KnowledgeDelivery) : list KnowledgeDelivery :=
  dedup (sort_by delivery_compare l).

Definition secondary_logic (logic : SecondaryLogic) (matches : gset N) (pattern_count : N) : bool :=
  if (pattern_count =? 0)%N then true
  else let n := N.of_nat (size matches) in
  match logic with
  | AndAny => negb (n =? 0)
  | AndAll => n =? pattern_count
  | NotAny => n =? 0
  | NotAll => n <? pattern_count
  end%N.

Definition class_rank (c : Candidate) : N :=
  if c_sticky c then 0
  else if c_mandatory c
          && match c_class c with Seed_PlannerExactTarget | Seed_PreviewOverride => true | _ => false end then 1
  else if c_mandatory c && match c_class c with Seed_Constant => true | _ => false end then 2
  else match c_class c with
       | Seed_Constant => 3
       | Seed_TextMatch | Seed_Recursion => 4
       | Seed_Provider => 5
       | Seed_PlannerExactTarget | Seed_PreviewOverride => 4
       | Seed_Sticky => 0
       end.

Definition merge_provider_rank (x y : option N) : option N :=
  match x, y with
  | Some l, Some r => Some (N.min l r)
  | Some v, None | None, Some v => Some v
  | None, None => None
  end.
Definition merge_candidate (candidates : gmap KnowledgeSourceId Candidate) (incoming : Candidate) :
    gmap KnowledgeSourceId Candidate :=
  match candidates !! c_source_id incoming with
  | None => <[c_source_id incoming := incoming]> candidates
  | Some current =>
      <[c_source_id incoming := {|
        c_source_id := c_source_id current;
        c_class := if (class_rank incoming <? class_rank current)%N then c_class incoming else c_class current;
        c_evidence := c_evidence current ++ c_evidence incoming;
        c_score := N.max (c_score current) (c_score incoming);
        c_provider_rank := merge_provider_rank (c_provider_rank current) (c_provider_rank incoming);
        c_mandatory := c_mandatory current || c_mandatory incoming;
        c_sticky := c_sticky current || c_sticky incoming;
        c_recursion_only := c_recursion_only current && c_recursion_only incoming;
        c_deliveries := sorted_deliveries (c_deliveries current ++ c_deliveries incoming);
      |}]> candidates
  end.

(** The digest as a number, most significant byte first. *)
Definition be_number (l : list N) : N := foldl (λ n b, n * 256 + b)%N 0%N l.

Definition probability_admits `{Sha256Bytes} (story_id : string) (turn : N) (source_id : KnowledgeSourceId)
    (probability : N) (version : list N) : bool :=
  if (probability =? 0)%N then false
  else if (probability =? 100)%N then true
  else
    let digest := sha256_bytes (str_bytes "aise.knowledge.activation.probability.v1" ++ str_bytes story_id
                    ++ be_bytes 8 turn ++ str_bytes (sid_as_str source_id) ++ version) in
    (be_number (take 2 digest) mod 100 <? probability)%N.

Definition new_usage (usage : BudgetUsage) (d : KnowledgeDelivery) (token_cost : N) : BudgetUsage := {|
  bu_audience_items := <[d := (default 0 (bu_audience_items usage !! d) + 1)%N]> (bu_audience_items usage);
  bu_audience_tokens :=
    <[d := sat_add U64_MAX (default 0%N (bu_audience_tokens usage !! d)) token_cost]> (bu_audience_tokens usage);
  bu_total_items := bu_total_items usage;
  bu_normal_tokens := bu_normal_tokens usage;
  bu_reserved_tokens := bu_reserved_tokens usage;
  bu_mandatory_tokens := bu_mandatory_tokens usage;
|}.

Definition effective_class (class : ActivationBudgetClass) (forced_mandatory : bool) : ActivationBudgetClass :=
  if forced_mandatory then Class_Mandatory else class.
Definition charge (usage : BudgetUsage) (class : ActivationBudgetClass) (items tokens : N) : BudgetUsage := {|
  bu_audience_items := bu_audience_items usage;
  bu_audience_tokens := bu_audience_tokens usage;
  bu_total_items := sat_add USIZE_MAX (bu_total_items usage) items;
  bu_normal_tokens := match class with Class_Normal => sat_add U64_MAX (bu_normal_tokens usage) tokens
                      | _ => bu_normal_tokens usage end;
  bu_reserved_tokens := match class with Class_Reserved => sat_add U64_MAX (bu_reserved_tokens usage) tokens
                        | _ => bu_reserved_tokens usage end;
  bu_mandatory_tokens := match class with Class_Mandatory => sat_add U64_MAX (bu_mandatory_tokens usage) tokens
                         | _ => bu_mandatory_tokens usage end;
|}.

Definition admit_deliveries (limits : ActivationRuntimeLimits) (budget_class : ActivationBudgetClass)
    (forced_mandatory : bool) (token_cost : N) (deliveries : list KnowledgeDelivery) (usage : BudgetUsage) :
    AdmissionOutcome :=
  let additional_items := nlen deliveries in
  let additional_tokens := sat_mul U64_MAX token_cost additional_items in
  if (rl_max_total_items limits <? sat_add USIZE_MAX (bu_total_items usage) additional_items)%N then Rejected_
  else if existsb (λ d,
    (rl_max_items_per_audience limits <? sat_add USIZE_MAX (default 0 (bu_audience_items usage !! d)) 1)
    || (rl_max_tokens_per_audience limits <?
        sat_add U64_MAX (default 0 (bu_audience_tokens usage !! d)) token_cost))%N deliveries then Rejected_
  else
  let total_tokens := sat_add U64_MAX (sat_add U64_MAX (bu_normal_tokens usage) (bu_reserved_tokens usage))
                        (bu_mandatory_tokens usage) in
  if (rl_max_total_tokens limits <? sat_add U64_MAX total_tokens additional_tokens)%N then Rejected_
  else
  let class := effective_class budget_class forced_mandatory in
  let normal_ceiling :=
    sat_sub (sat_sub (rl_max_total_tokens limits) (rl_reserved_tokens limits)) (rl_mandatory_tokens limits) in
  let reserved_ceiling := sat_sub (rl_max_total_tokens limits) (rl_mandatory_tokens limits) in
  if match class with
     | Class_Normal => normal_ceiling <? sat_add U64_MAX (bu_normal_tokens usage) additional_tokens
     | Class_Reserved =>
         reserved_ceiling <?
         sat_add U64_MAX (sat_add U64_MAX (bu_normal_tokens usage) (bu_reserved_tokens usage)) additional_tokens
     | Class_Mandatory => false
     end%N then Rejected_
  else Admitted_ (charge (foldl (λ u d, new_usage u d token_cost) usage deliveries) class
                    additional_items additional_tokens).

(** ** Requests *)

Section engine.
Context `{Unicode, Sha256Bytes, RegexFind, Layout}.

Record ActivationRequest := {
  req_story_id : StoryId;
  req_turn_number : TurnNumber;
  req_generation_trigger : GenerationTrigger;
  req_mode : ActivationRunMode;
  req_knowledge_snapshot : KnowledgeSnapshotRef;
  req_index_snapshot : ActivationIndexSnapshot;
  req_scan_buffer : ActivationScanBuffer;
  req_fragment_matches : ActivationFragmentMatches;
  req_timed_state : list ActivationTimedState;
  req_external_seeds : list ExternalActivationSeed;
  req_continuation : option ActivationContinuation;
  req_limits : ActivationRuntimeLimits;
}.
Context (request : ActivationRequest).
Definition limits : ActivationRuntimeLimits := req_limits request.
Definition meta_of (id : KnowledgeSourceId) : option ActivationEntryMetadata :=
  ix_metadata (req_index_snapshot request) !! id.

Definition positive_limits (l : ActivationRuntimeLimits) : list N :=
  [rl_max_scan_fragments l; rl_max_scan_bytes l; rl_max_scan_tokens l; rl_max_literal_patterns l;
   rl_max_regex_patterns l; rl_max_pattern_matches l; rl_max_candidates_per_round l; rl_max_recursion_steps l;
   rl_max_recursion_fragments l; rl_max_recursion_bytes l; rl_max_recursion_tokens l; rl_max_activated_entries l;
   rl_max_depth_expansions l; rl_max_external_candidates l; rl_max_evidence_per_entry l; rl_max_evidence_bytes l;
   rl_max_items_per_audience l; rl_max_tokens_per_audience l; rl_max_total_items l; rl_max_total_tokens l;
   rl_max_single_entry_bytes l].
Definition runtime_limits_bad : bool :=
  (existsb (λ value, value =? 0) (positive_limits limits)
   || (rl_max_scan_depth limits <? rl_initial_scan_depth limits)
   || (rl_max_total_items limits <? rl_max_items_per_audience limits)
   || (rl_max_total_tokens limits <? rl_max_tokens_per_audience limits)
   || (rl_max_total_tokens limits <? rl_reserved_tokens limits)
   || (rl_max_total_tokens limits <? rl_mandatory_tokens limits)
   || (rl_max_total_tokens limits <? sat_add U64_MAX (rl_reserved_tokens limits) (rl_mandatory_tokens limits))
   || (rl_max_external_candidates limits <? nlen (req_external_seeds request)))%N.
Definition validate_request : result ActivationError unit :=
  let index := req_index_snapshot request in
  fail_if runtime_limits_bad with Act_WorkLimitExceeded "runtime_limits" in
  fail_if negb (matches_snapshot index (req_knowledge_snapshot request) MATCHER_VERSION)
  with Act_SnapshotMismatch in
  fail_if existsb (λ metadata,
    match mr_scan_depth (match_rule (meta_rule metadata)) with
    | Some depth => rl_max_scan_depth limits <? depth
    | None => false
    end%N) (values (ix_metadata index)) with Act_InvalidRule "scan_depth_exceeded" in
  fail_if (rl_max_literal_patterns limits <? literal_pattern_count index)%N
  with Act_WorkLimitExceeded "literal_patterns" in
  fail_if (rl_max_regex_patterns limits <? regex_pattern_count index)%N
  with Act_WorkLimitExceeded "regex_patterns" in
  Ok tt.

Definition new_continuation : ActivationContinuation := {|
  k_turn_number := req_turn_number request;
  k_generation_trigger := req_generation_trigger request;
  k_knowledge_snapshot := req_knowledge_snapshot request;
  k_index_snapshot := ix_reference (req_index_snapshot request);
  k_activated := ∅;
  k_terminal_rejections := ∅;
  k_failed_probability := ∅;
  k_group_winners := ∅;
  k_recursion_level := 0;
  k_scan_depth := rl_initial_scan_depth limits;
  k_depth_expansions := 0;
  k_recursion_sources := ∅;
  k_scanned_fragment_ids := ∅;
  k_matched_fragment_ids := ∅;
  k_accumulated_matches := ∅;
  k_audience_items := ∅;
  k_audience_tokens := ∅;
  k_total_delivery_items := 0;
  k_normal_tokens := 0;
  k_reserved_tokens := 0;
  k_mandatory_tokens := 0;
  k_consumed := ActivationWorkUsage_default;
  k_evidence_bytes := 0;
  k_limits := limits;
|}.

(** [timed_view]: the stored states that are still valid, and the deletions of
    those that are not. *)
Definition timed_step (s : gmap KnowledgeSourceId ActivationTimedState * gset KnowledgeSourceId)
    (state : ActivationTimedState) :
    result ActivationError (gmap KnowledgeSourceId ActivationTimedState * gset KnowledgeSourceId) :=
  let '(valid, deletes) := s in
  let id := ts_source_id state in
  fail_if bool_decide (is_Some (valid !! id)) with Act_TimedStateInconsistent in
  match meta_of id with
  | None => Ok (valid, {[id]} ∪ deletes)
  | Some metadata =>
      if negb (bool_decide (ts_rule_version state = meta_rule_version metadata)) then Ok (valid, {[id]} ∪ deletes)
      else
        fail_if match sticky_through_turn state, cooldown_through_turn state with
                | Some sticky, Some cooldown => (cooldown <? sticky)%N
                | _, _ => false
                end with Act_TimedStateInconsistent in
        Ok (<[id := state]> valid, deletes)
  end.
Definition timed_view :
    result ActivationError (gmap KnowledgeSourceId ActivationTimedState * gset KnowledgeSourceId) :=
  try_fold timed_step (∅, ∅) (req_timed_state request).

(** [budget_usage]: recounted from the activated entries when the continuation
    does not carry the counts. *)
Definition recount (usage : BudgetUsage) (a : ActivatedKnowledgeRef) : result ActivationError BudgetUsage :=
  let? metadata := ok_or (meta_of (act_source_id a)) Act_ContinuationMismatch in
  let usage := foldl (λ u d, new_usage u d (act_token_cost a)) usage (act_deliveries a) in
  Ok (charge usage (budget_class (meta_rule metadata)) (nlen (act_deliveries a))
        (sat_mul U64_MAX (act_token_cost a) (nlen (act_deliveries a)))).
Definition budget_usage (k : ActivationContinuation) : result ActivationError BudgetUsage :=
  if (0 <? k_total_delivery_items k)%N || bool_decide (k_activated k = ∅) then Ok {|
    bu_audience_items := k_audience_items k;
    bu_audience_tokens := k_audience_tokens k;
    bu_total_items := k_total_delivery_items k;
    bu_normal_tokens := k_normal_tokens k;
    bu_reserved_tokens := k_reserved_tokens k;
    bu_mandatory_tokens := k_mandatory_tokens k;
  |}
  else try_fold recount BudgetUsage_default (values (k_activated k)).

Definition continuation_matches (k : ActivationContinuation) : bool :=
  bool_decide (k_turn_number k = req_turn_number request)
  && bool_decide (k_generation_trigger k = req_generation_trigger request)
  && bool_decide (k_knowledge_snapshot k = req_knowledge_snapshot request)
  && bool_decide (k_index_snapshot k = ix_reference (req_index_snapshot request))
  && bool_decide (k_limits k = limits).

(** [KnowledgeActivationSession::start] *)
Definition start : result ActivationError Session :=
  let? _ := validate_request in
  let? continuation := match req_continuation request with
    | Some value => fail_if negb (continuation_matches value) with Act_ContinuationMismatch in Ok value
    | None => Ok new_continuation
    end in
  let? timed := timed_view in
  let? budget := budget_usage continuation in
  Ok {| ss_continuation := continuation;
        ss_timed_valid := timed.1;
        ss_timed_delta := {| delta_upserts := []; delta_deletes := timed.2 |};
        ss_rejections := foldl increment ∅ (values (k_terminal_rejections continuation));
        ss_budget := budget;
        ss_recursion_fragments := [];
        ss_recursion_matches := ∅;
        ss_recursion_pending := [];
        ss_recursion_bodies := ∅;
        ss_pending := ∅;
        ss_stage := Stage_Start;
        ss_state := match req_continuation request with Some _ => State_Resumed | None => State_Initial end;
        ss_last_candidate_count := 0;
        ss_budget_trimmed := false;
        ss_recursion_exhausted := false |}.

Definition knowledge_tokens (b : BudgetUsage) : N :=
  sat_add U64_MAX (sat_add U64_MAX (bu_normal_tokens b) (bu_reserved_tokens b)) (bu_mandatory_tokens b).
Definition activated_count (s : Session) : N := map_len (k_activated (ss_continuation s)).
Definition work_usage (s : Session) : ActivationWorkUsage :=
  set_wu_knowledge_tokens (λ _, knowledge_tokens (ss_budget s)) (k_consumed (ss_continuation s)).

(** ** Updates of the session *)

Definition upd_consumed (f : ActivationWorkUsage → ActivationWorkUsage) : Session → Session :=
  set_ss_continuation (set_k_consumed f).
(** [reject]: the first verdict on an entry is final and counted. *)
Definition reject_entry (source_id : KnowledgeSourceId) (reason : ActivationRejectionReason) (s : Session) : Session :=
  let known := bool_decide (is_Some (k_terminal_rejections (ss_continuation s) !! source_id)) in
  set_ss_rejections (λ r, if known then r else increment r reason)
    (set_ss_continuation (set_k_terminal_rejections (<[source_id := reason]>)) s).
Definition trim_ (s : Session) : Session := set_ss_budget_trimmed (λ _, true) s.
Definition reject_trim (source_id : KnowledgeSourceId) (reason : ActivationRejectionReason) (s : Session) : Session :=
  trim_ (reject_entry source_id reason s).
Definition count_rejection (reason : ActivationRejectionReason) (s : Session) : Session :=
  set_ss_rejections (λ r, increment r reason) s.

(** ** Scanning *)

Definition visible_base_fragments (depth : N) : list ScanFragment :=
  List.filter (λ f, negb (bool_decide (frag_kind f = Frag_RecursionContent))
      && summary_visible (frag_kind f) depth (rl_include_summary_at_max_depth limits) (rl_max_scan_depth limits))
    (visible_at_depth (req_scan_buffer request) depth).

Definition account_fragment (s : Session) (f : ScanFragment) : Session :=
  if decide (frag_id f ∈ k_scanned_fragment_ids (ss_continuation s)) then s
  else
    let s := set_ss_continuation (set_k_scanned_fragment_ids (union {[frag_id f]})) s in
    upd_consumed (λ u,
      set_wu_scan_tokens (λ n, sat_add U64_MAX n (bytes_to_tokens (slen (frag_text f))))
      (set_wu_scan_bytes (λ n, sat_add USIZE_MAX n (slen (frag_text f)))
      (set_wu_scan_fragments (λ n, sat_add USIZE_MAX n 1) u))) s.
Definition account_scan_fragments (s : Session) : result ActivationError Session :=
  let s := foldl account_fragment s (visible_base_fragments (k_scan_depth (ss_continuation s))) in
  let u := k_consumed (ss_continuation s) in
  fail_if (rl_max_scan_fragments limits <? wu_scan_fragments u)%N with Act_WorkLimitExceeded "scan_fragments" in
  fail_if (rl_max_scan_bytes limits <? wu_scan_bytes u)%N with Act_WorkLimitExceeded "scan_bytes" in
  fail_if (rl_max_scan_tokens limits <? wu_scan_tokens u)%N with Act_WorkLimitExceeded "scan_tokens" in
  Ok s.

(** ** Candidates *)

Definition ingest_match (s : Session) (item : FragmentPatternMatch) : result ActivationError Session :=
  let k := ss_continuation s in
  let id := fm_source_id item in
  if bool_decide (is_Some (k_terminal_rejections k !! id)) then Ok s
  else
    let? metadata := ok_or (meta_of id) Act_IndexVersionMismatch in
    let next := sat_add USIZE_MAX (wu_pattern_matches (k_consumed k)) (fm_match_count item) in
    if (rl_max_pattern_matches limits <? next)%N then
      fail_if bool_decide (budget_class (meta_rule metadata) = Class_Mandatory) with Act_MandatoryBudgetExceeded in
      Ok (reject_trim id Reject_WorkLimit s)
    else
      Ok (set_ss_continuation (set_k_accumulated_matches (λ m, <[id := default [] (m !! id) ++ [item]]> m))
           (upd_consumed (set_wu_pattern_matches (λ _, next)) s)).
Definition ingest_fragment_matches (s : Session) (e : ScanFragmentId * list FragmentPatternMatch) :
    result ActivationError Session :=
  let '(fragment_id, matches) := e in
  if decide (fragment_id ∈ k_matched_fragment_ids (ss_continuation s)) then Ok s
  else try_fold ingest_match (set_ss_continuation (set_k_matched_fragment_ids (union {[fragment_id]})) s) matches.

(** What the matches of an entry add up to. *)
Record EntryMatches := {
  em_primary : gset N;
  em_secondary : gset N;
  em_positive_secondary : gset N;
  em_evidence : list ActivationEvidence;
}.
Definition match_visible (entry_depth : N) (item : FragmentPatternMatch) : bool :=
  bool_decide (fm_fragment_kind item = Frag_RecursionContent)
  || (fm_recency_depth item <=? entry_depth)%N
     && summary_visible (fm_fragment_kind item) entry_depth (rl_include_summary_at_max_depth limits)
          (rl_max_scan_depth limits).
Definition match_evidence (round recursion_level : N) (item : FragmentPatternMatch) : ActivationEvidence := {|
  ae_pattern_kind := fm_pattern_kind item;
  ae_pattern_ordinal := fm_pattern_ordinal item;
  ae_fragment_kind := fm_fragment_kind item;
  ae_recency_depth := fm_recency_depth item;
  ae_stable_fragment_order := fm_stable_fragment_order item;
  ae_match_count := fm_match_count item;
  ae_group_score_contribution := fm_group_score_contribution item;
  ae_round := round;
  ae_recursion_level := recursion_level;
|}.
Definition is_primary (k : ActivationPatternKind) : bool :=
  match k with Pat_PrimaryLiteral | Pat_PrimaryRegex => true | _ => false end.
Definition is_secondary (k : ActivationPatternKind) : bool :=
  match k with Pat_SecondaryLiteral | Pat_SecondaryRegex => true | _ => false end.
Definition entry_match (entry_depth round recursion_level : N) (e : EntryMatches) (item : FragmentPatternMatch) :
    EntryMatches :=
  if negb (match_visible entry_depth item) then e
  else
    let add (b : bool) (s : gset N) : gset N := if b then {[fm_pattern_ordinal item]} ∪ s else s in
    let secondary := is_secondary (fm_pattern_kind item) in
    {| em_primary := add (is_primary (fm_pattern_kind item)) (em_primary e);
       em_secondary := add secondary (em_secondary e);
       em_positive_secondary :=
         add (secondary && (0 <? fm_group_score_contribution item)%N) (em_positive_secondary e);
       em_evidence := em_evidence e ++ [match_evidence round recursion_level item] |}.

(** The body of the second loop of [collect_text_candidates]. *)
Definition text_candidate (round recursion_level : N) (st : Session * gmap KnowledgeSourceId Candidate)
    (e : KnowledgeSourceId * ActivationEntryMetadata) : Session * gmap KnowledgeSourceId Candidate :=
  let '(s, candidates) := st in
  let '(source_id, metadata) := e in
  let rule := meta_rule metadata in
  let m := match_rule rule in
  let k := ss_continuation s in
  if negb (mode_enabled (mode rule)) || mode_constant (mode rule) || mode_exact_target_only (mode rule) then st
  else
  let entry_depth := N.min (default (k_scan_depth k) (mr_scan_depth m)) (k_scan_depth k) in
  match k_accumulated_matches k !! source_id with
  | None => st
  | Some entry_matches =>
      let em := foldl (entry_match entry_depth round recursion_level)
        {| em_primary := ∅; em_secondary := ∅; em_positive_secondary := ∅; em_evidence := [] |} entry_matches in
      if bool_decide (is_Some (k_terminal_rejections k !! source_id)) then st
      else if bool_decide (em_primary em = ∅) then st
      else if negb (secondary_logic (mr_secondary_logic m) (em_secondary em) (nlen (mr_secondary_keys m))) then
        (count_rejection Reject_SecondaryCondition s, candidates)
      else
        let recursion_only := forallb (λ item, bool_decide (ae_fragment_kind item = Frag_RecursionContent))
          (List.filter (λ item, is_primary (ae_pattern_kind item)) (em_evidence em)) in
        (s, merge_candidate candidates {|
          c_source_id := source_id;
          c_class := if recursion_only then Seed_Recursion else Seed_TextMatch;
          c_evidence := em_evidence em;
          c_score := clamp U16_MAX (sat_add USIZE_MAX (N.of_nat (size (em_primary em)))
                       (N.of_nat (size (em_positive_secondary em))));
          c_provider_rank := None;
          c_mandatory := bool_decide (budget_class rule = Class_Mandatory);
          c_sticky := false;
          c_recursion_only := recursion_only;
          c_deliveries := [];
        |})
  end.

Definition fragment_matches_of (s : Session) : result ActivationError (list (ScanFragmentId * list FragmentPatternMatch)) :=
  let? base := traverse (λ f,
    let? matches := ok_or (req_fragment_matches request !! frag_id f) Act_IndexVersionMismatch in
    Ok (frag_id f, matches)) (visible_base_fragments (k_scan_depth (ss_continuation s))) in
  let? recursion_ := traverse (λ f,
    let? matches := ok_or (ss_recursion_matches s !! frag_id f) Act_IndexVersionMismatch in
    Ok (frag_id f, matches)) (ss_recursion_fragments s) in
  Ok (base ++ recursion_).

Definition collect_text_candidates (s : Session) (candidates : gmap KnowledgeSourceId Candidate) :
    result ActivationError (Session * gmap KnowledgeSourceId Candidate) :=
  let k := ss_continuation s in
  let round := sat_add U16_MAX (k_depth_expansions k) (k_recursion_level k) in
  let? fragments := fragment_matches_of s in
  let? s := try_fold ingest_fragment_matches s fragments in
  Ok (foldl (text_candidate round (k_recursion_level k)) (s, candidates)
        (entries (ix_metadata (req_index_snapshot request)))).

(** A candidate that no text matched. *)
Definition plain_candidate (source_id : KnowledgeSourceId) (class : ActivationSeedKind) (provider_rank : option N)
    (mandatory sticky : bool) (deliveries : list KnowledgeDelivery) : Candidate := {|
  c_source_id := source_id;
  c_class := class;
  c_evidence := [];
  c_score := 0;
  c_provider_rank := provider_rank;
  c_mandatory := mandatory;
  c_sticky := sticky;
  c_recursion_only := false;
  c_deliveries := deliveries;
|}.
Definition constant_candidate (candidates : gmap KnowledgeSourceId Candidate) (source_id : KnowledgeSourceId) :
    result ActivationError (gmap KnowledgeSourceId Candidate) :=
  let? metadata := ok_or (meta_of source_id) Act_IndexVersionMismatch in
  Ok (merge_candidate candidates (plain_candidate source_id Seed_Constant None
        (bool_decide (budget_class (meta_rule metadata) = Class_Mandatory)) false [])).
(** [state.x_through_turn.is_some_and(|through| through >= turn)] *)
Definition through (turn : TurnNumber) (o : option TurnNumber) : bool :=
  match o with Some through => (turn <=? through)%N | None => false end.
Definition sticky_candidate (candidates : gmap KnowledgeSourceId Candidate)
    (e : KnowledgeSourceId * ActivationTimedState) : gmap KnowledgeSourceId Candidate :=
  if through (req_turn_number request) (sticky_through_turn e.2)
  then merge_candidate candidates (plain_candidate e.1 Seed_Sticky None false true [])
  else candidates.
Definition seed_candidate (candidates : gmap KnowledgeSourceId Candidate) (seed : ExternalActivationSeed) :
    result ActivationError (gmap KnowledgeSourceId Candidate) :=
  fail_if negb (bool_decide (is_Some (meta_of (seed_source_id seed)))) with Act_ExternalTargetUnauthorized in
  Ok (merge_candidate candidates (plain_candidate (seed_source_id seed) (seed_kind seed) (seed_provider_rank seed)
        (seed_mandatory seed) false [seed_delivery seed])).

Definition collect_candidates (s : Session) : result ActivationError (Session * gmap KnowledgeSourceId Candidate) :=
  let? candidates := try_fold constant_candidate ∅ (ix_constant_entries (req_index_snapshot request)) in
  let candidates := foldl sticky_candidate candidates (entries (ss_timed_valid s)) in
  let? candidates := try_fold seed_candidate candidates (req_external_seeds request) in
  collect_text_candidates s candidates.

(** ** Orders *)

Definition evidence_spot_compare (x y : ActivationEvidence) : comparison :=
  then_with (N.compare (source_priority (ae_fragment_kind x)) (source_priority (ae_fragment_kind y)))
    (then_with (N.compare (ae_recency_depth x) (ae_recency_depth y))
      (N.compare (ae_stable_fragment_order x) (ae_stable_fragment_order y))).
Definition activation_ordering (c : Candidate) : ActivationOrdering :=
  let metadata := meta_of (c_source_id c) in
  let best := min_by evidence_spot_compare (c_evidence c) in {|
  ord_class_rank := class_rank c;
  ord_order_rank := i32_sat_neg (from_option (λ m, sel_order (selection (meta_rule m))) 0%Z metadata);
  ord_score_rank := sat_sub U16_MAX (c_score c);
  ord_source_priority := from_option (λ e, source_priority (ae_fragment_kind e)) 255%N best;
  ord_recency_depth := from_option ae_recency_depth U16_MAX best;
  ord_salience_rank := sat_sub 255 (from_option meta_salience 0%N metadata);
  ord_provider_rank := default U32_MAX (c_provider_rank c);
|}.
Definition candidate_order (l r : Candidate) : comparison :=
  then_with (ordering_compare (activation_ordering l) (activation_ordering r))
    (key_compare (c_source_id l) (c_source_id r)).
Definition candidate_mandatory (c : Candidate) : bool :=
  from_option (λ m, is_mandatory (budget_class (meta_rule m)) (c_mandatory c)) false (meta_of (c_source_id c)).

(** ** Groups *)

Definition groups_of (c : Candidate) : list ActivationGroupKey :=
  from_option (λ m, sel_groups (selection (meta_rule m))) [] (meta_of (c_source_id c)).

(** The key a group prefers: sticky, score, override, order. *)
Definition group_key (c : Candidate) : option (bool * N * bool * Z) :=
  (λ m, let sel := selection (meta_rule m) in
    (c_sticky c, if sel_use_group_scoring sel then c_score c else 0%N, sel_group_override sel, sel_order sel))
  <$> meta_of (c_source_id c).
Definition group_key_compare : bool * N * bool * Z → bool * N * bool * Z → comparison :=
  prod_compare (prod_compare (prod_compare bool_compare N.compare) bool_compare) Z.compare.

Definition group_weight_of (c : Candidate) : N :=
  from_option (λ m, sel_group_weight (selection (meta_rule m))) 0%N (meta_of (c_source_id c)).
(** The weighted draw among the tied candidates. *)
Fixpoint draw (sample : N) (tied : list Candidate) : option Candidate :=
  match tied with
  | [] => None
  | c :: tied' =>
      if (sample <? group_weight_of c)%N then Some c else draw (sample - group_weight_of c)%N tied'
  end.
Definition group_member_bytes (c : Candidate) : option (list N) :=
  (λ m, str_bytes (sid_as_str (c_source_id c)) ++ meta_rule_version m
        ++ be_bytes 4 (sel_group_weight (selection (meta_rule m)))) <$> meta_of (c_source_id c).
Definition group_winner (group : ActivationGroupKey) (choices : list Candidate) : option Candidate :=
  best_key ← max_by group_key_compare (omap group_key choices);
  let tied := sort_by (λ l r, key_compare (c_source_id l) (c_source_id r))
    (List.filter (λ c, bool_decide (group_key c = Some best_key)) choices) in
  let total_weight := foldl (λ total c, sat_add U64_MAX total (group_weight_of c)) 0%N tied in
  if (total_weight =? 0)%N then head tied
  else
    members ← mapM group_member_bytes tied;
    let digest := sha256_bytes (str_bytes "aise.knowledge.activation.group.v1" ++ str_bytes (req_story_id request)
      ++ be_bytes 8 (req_turn_number request) ++ str_bytes group ++ concat members) in
    draw (be_number (take 8 digest) mod total_weight)%N tied.

(** One group of a round of [resolve_groups]. *)
Definition pick_winner (eligible : list Candidate) (winners : gmap ActivationGroupKey KnowledgeSourceId)
    (group : ActivationGroupKey) : gmap ActivationGroupKey KnowledgeSourceId :=
  if bool_decide (is_Some (winners !! group)) then winners
  else
    match group_winner group (List.filter (λ c, bool_decide (group ∈ groups_of c)) eligible) with
    | Some winner => <[group := c_source_id winner]> winners
    | None => winners
    end.
Definition in_candidates (id : KnowledgeSourceId) (l : list Candidate) : bool :=
  existsb (λ c, bool_decide (c_source_id c = id)) l.
Definition wins_all (winners : gmap ActivationGroupKey KnowledgeSourceId) (c : Candidate) : bool :=
  forallb (λ group, bool_decide (winners !! group = Some (c_source_id c))) (groups_of c).

(** The [loop]: a round that drops a candidate is followed by another, so a round
    per candidate is fuel enough. *)
Fixpoint resolve_rounds (fuel : nat) (grouped : list Candidate)
    (held : gmap ActivationGroupKey KnowledgeSourceId) (eligible : list Candidate) :
    list Candidate * gmap ActivationGroupKey KnowledgeSourceId :=
  let groups : gset ActivationGroupKey :=
    list_to_set (List.filter (λ c, in_candidates (c_source_id c) eligible) grouped ≫= groups_of) in
  let winners := foldl (pick_winner eligible) held (set_entries groups) in
  let retained := List.filter (wins_all winners) eligible in
  match fuel with
  | S fuel' =>
      if bool_decide (length retained = length eligible) then (eligible, winners)
      else resolve_rounds fuel' grouped held retained
  | 0 => (eligible, winners)
  end.

Definition resolve_groups (s : Session) (candidates : list Candidate) : Session * list Candidate :=
  let grouped := List.filter (λ c, negb (bool_decide (groups_of c = []))) candidates in
  let '(eligible, winners) :=
    resolve_rounds (length candidates) grouped (k_group_winners (ss_continuation s)) candidates in
  let s := set_ss_continuation (set_k_group_winners (λ _, winners)) s in
  (foldl (λ s c, reject_entry (c_source_id c) Reject_GroupLoser s) s
     (List.filter (λ c, negb (in_candidates (c_source_id c) eligible)) grouped), eligible).

(** ** A round *)

(** The candidates of a round beyond the limit: the mandatory ones come first. *)
Definition trim_order (l r : Candidate) : comparison :=
  then_with (bool_compare (candidate_mandatory r) (candidate_mandatory l)) (candidate_order l r).
Fixpoint take_while {A} (p : A → bool) (l : list A) : list A :=
  match l with [] => [] | x :: l' => if p x then x :: take_while p l' else [] end.
Definition trim_candidates (s : Session) (candidates : gmap KnowledgeSourceId Candidate) :
    result ActivationError (Session * gmap KnowledgeSourceId Candidate) :=
  let max := rl_max_candidates_per_round limits in
  if (map_len candidates <=? max)%N then Ok (s, candidates)
  else
    let ordered := sort_by trim_order (values candidates) in
    fail_if (max <? nlen (take_while candidate_mandatory ordered))%N with Act_MandatoryBudgetExceeded in
    let retained : gset KnowledgeSourceId := list_to_set (map c_source_id (take (N.to_nat max) ordered)) in
    let rejected := List.filter (λ id, negb (bool_decide (id ∈ retained))) (keys candidates) in
    Ok (trim_ (foldl (λ s id, reject_entry id Reject_WorkLimit s) s rejected),
        foldl (λ m id, delete id m) candidates rejected).

Definition merge_existing_deliveries (s : Session) (metadata : ActivationEntryMetadata) (c : Candidate) :
    result ActivationError Session :=
  match k_activated (ss_continuation s) !! c_source_id c with
  | None => Ok s
  | Some existing =>
      let new_deliveries := List.filter (λ d, negb (bool_decide (d ∈ act_deliveries existing))) (c_deliveries c) in
      if bool_decide (new_deliveries = []) then Ok s
      else
        let? _ := validate_deliveries (meta_kind metadata) new_deliveries in
        match admit_deliveries limits (budget_class (meta_rule metadata)) (c_mandatory c) (act_token_cost existing)
                new_deliveries (ss_budget s) with
        | Rejected_ =>
            fail_if is_mandatory (budget_class (meta_rule metadata)) (c_mandatory c)
            with Act_MandatoryBudgetExceeded in
            Ok (trim_ (count_rejection Reject_Budget s))
        | Admitted_ usage =>
            Ok (set_ss_continuation (set_k_activated
                  (<[c_source_id c := set_act_deliveries (λ ds, sorted_deliveries (ds ++ new_deliveries)) existing]>))
                 (set_ss_budget (λ _, usage) s))
        end
  end.

Definition pre_filter (s : Session) (metadata : ActivationEntryMetadata) (c : Candidate) :
    option ActivationRejectionReason :=
  let rule := meta_rule metadata in
  let triggers := scope_generation_triggers (scope rule) in
  let turn := req_turn_number request in
  if negb (mode_enabled (mode rule)) then Some Reject_Disabled
  else if negb (bool_decide (triggers = [])) && negb (bool_decide (req_generation_trigger request ∈ triggers))
  then Some Reject_ScopeMismatch
  else if (0 <? tim_delay_turns (timing rule))%N && (turn <=? tim_delay_turns (timing rule))%N
  then Some Reject_Delayed
  else if negb (c_sticky c)
          && from_option (λ state, through turn (cooldown_through_turn state)) false
               (ss_timed_valid s !! c_source_id c)
  then Some Reject_Cooldown
  else if negb (c_sticky c) && c_recursion_only c && rec_exclude_recursion (recursion rule)
  then Some Reject_RecursionExcluded
  else if negb (c_sticky c)
          && from_option (λ level, k_recursion_level (ss_continuation s) <? level)%N false
               (rec_delay_until_recursion (recursion rule))
  then Some Reject_RecursionLevelLocked
  else None.

(** The loop that filters the candidates of a round. *)
Definition filter_candidate (st : Session * list Candidate) (c : Candidate) :
    result ActivationError (Session * list Candidate) :=
  let '(s, eligible) := st in
  let s := upd_consumed (set_wu_candidate_evaluations (λ n, sat_add USIZE_MAX n 1)) s in
  let? metadata := ok_or (meta_of (c_source_id c)) Act_ExternalTargetUnauthorized in
  if bool_decide (is_Some (k_activated (ss_continuation s) !! c_source_id c)) then
    let? s := merge_existing_deliveries s metadata c in Ok (s, eligible)
  else if bool_decide (is_Some (k_terminal_rejections (ss_continuation s) !! c_source_id c)) then Ok (s, eligible)
  else
    match pre_filter s metadata c with
    | Some Reject_RecursionLevelLocked => Ok (count_rejection Reject_RecursionLevelLocked s, eligible)
    | Some reason => Ok (reject_entry (c_source_id c) reason s, eligible)
    | None => Ok (s, eligible ++ [c])
    end.

(** The loop that admits the eligible candidates, in order. *)
Definition select_candidate (st : Session * list KnowledgeSourceId) (c : Candidate) :
    result ActivationError (Session * list KnowledgeSourceId) :=
  let '(s, admitted) := st in
  let id := c_source_id c in
  let? metadata := ok_or (meta_of id) Act_ExternalTargetUnauthorized in
  if negb (c_sticky c)
     && negb (probability_admits (req_story_id request) (req_turn_number request) id
                (sel_probability (selection (meta_rule metadata))) (meta_rule_version metadata)) then
    Ok (reject_entry id Reject_Probability
          (set_ss_continuation (set_k_failed_probability (union {[id]})) s), admitted)
  else if (rl_max_activated_entries limits <=? sat_add USIZE_MAX (activated_count s) (map_len (ss_pending s)))%N then
    fail_if is_mandatory (budget_class (meta_rule metadata)) (c_mandatory c) with Act_MandatoryBudgetExceeded in
    Ok (reject_trim id Reject_Budget s, admitted)
  else Ok (set_ss_pending (<[id := c]>) s, admitted ++ [id]).

Definition select_round (s : Session) : result ActivationError (Session * list KnowledgeSourceId) :=
  let? '(s, candidates) := collect_candidates s in
  let s := set_ss_last_candidate_count (λ _, map_len candidates) s in
  let? '(s, candidates) := trim_candidates s candidates in
  let? '(s, eligible) := try_fold filter_candidate (s, []) (values candidates) in
  let '(s, eligible) := resolve_groups s eligible in
  try_fold select_candidate (s, []) (sort_by candidate_order eligible).

Definition run_round (s : Session) (state : ActivationMachineState) :
    result ActivationError (Session * ActivationRoundOutcome) :=
  let? '(s, admitted) := select_round (set_ss_state (λ _, state) s) in
  let k := ss_continuation s in
  Ok (s, {| ro_admitted := admitted;
            ro_state := state;
            ro_candidates := ss_last_candidate_count s;
            ro_scan_depth := k_scan_depth k;
            ro_recursion_level := k_recursion_level k;
            ro_consumed := k_consumed k;
            ro_rejection_summary := ss_rejections s |}).

(** ** Recursion *)

(** The body of the loop of [add_recursion_fragments], with the number added. *)
Definition add_recursion_fragment (st : Session * N) (source_id : KnowledgeSourceId) :
    result ActivationError (Session * N) :=
  let '(s, added) := st in
  let body := ss_recursion_bodies s !! source_id in
  let s := set_ss_recursion_bodies (delete source_id) s in
  if decide (source_id ∈ k_recursion_sources (ss_continuation s)) then Ok (s, added)
  else
    let? metadata := ok_or (meta_of source_id) Act_IndexVersionMismatch in
    let s := set_ss_continuation (set_k_recursion_sources (union {[source_id]})) s in
    if rec_prevent_recursion (recursion (meta_rule metadata)) then Ok (s, added)
    else
      let? '(text, token_cost) := ok_or body Act_SnapshotMismatch in
      let u := k_consumed (ss_continuation s) in
      let fragments := sat_add USIZE_MAX (wu_recursion_fragments u) 1 in
      let bytes := sat_add USIZE_MAX (wu_recursion_bytes u) (slen text) in
      let tokens := sat_add U64_MAX (wu_recursion_tokens u) token_cost in
      fail_if (rl_max_recursion_fragments limits <? fragments)%N || (rl_max_recursion_bytes limits <? bytes)%N
              || (rl_max_recursion_tokens limits <? tokens)%N with Act_RecursionLimitReached in
      let fragment := ScanFragment_new Frag_RecursionContent
        (sat_add U16_MAX (k_recursion_level (ss_continuation s)) 1)
        (clamp U32_MAX (nlen (ss_recursion_fragments s))) text in
      let s := set_ss_recursion_matches
        (<[frag_id fragment := match_fragment (req_index_snapshot request) fragment]>) s in
      let s := set_ss_recursion_fragments (λ l, l ++ [fragment]) s in
      Ok (upd_consumed (λ u, set_wu_recursion_tokens (λ _, tokens)
            (set_wu_recursion_bytes (λ _, bytes) (set_wu_recursion_fragments (λ _, fragments) u))) s,
          sat_add USIZE_MAX added 1).
Definition add_recursion_fragments (s : Session) : result ActivationError (Session * N) :=
  let pending := dedup (sort_by key_compare (ss_recursion_pending s)) in
  try_fold add_recursion_fragment (set_ss_recursion_pending (λ _, []) s, 0%N) pending.

Definition expand_recursion (s : Session) : result ActivationError (Session * RecursionStep) :=
  let? '(s, added) := add_recursion_fragments s in
  if (added =? 0)%N then Ok (s, Step_None)
  else if (rl_max_recursion_steps limits <=? k_recursion_level (ss_continuation s))%N then
    Ok (set_ss_recursion_exhausted (λ _, true) s, Step_Exhausted)
  else
    Ok (upd_consumed (set_wu_recursion_steps (λ n, sat_add U16_MAX n 1))
          (set_ss_continuation (set_k_recursion_level (λ n, sat_add U16_MAX n 1)) s), Step_Expanded).

(** ** [next_round] *)

Definition set_stage (st : Stage) : Session → Session := set_ss_stage (λ _, st).

Definition some_round (r : result ActivationError (Session * ActivationRoundOutcome)) :
    result ActivationError (Session * option ActivationRoundOutcome) :=
  let? '(s, outcome) := r in Ok (s, Some outcome).

(** The turn of the loop in the stage [DepthLoop], which always leaves it. *)
Definition depth_loop (s : Session) : result ActivationError (Session * option ActivationRoundOutcome) :=
  let k := ss_continuation s in
  if (map_len (k_activated k) <? rl_minimum_activations limits)%N
     && (k_scan_depth k <? rl_max_scan_depth limits)%N
     && (k_depth_expansions k <? rl_max_depth_expansions limits)%N then
    let s := set_ss_continuation (λ k, set_k_depth_expansions (λ n, sat_add U16_MAX n 1)
                                         (set_k_scan_depth (λ n, sat_add U16_MAX n 1) k)) s in
    let? s := account_scan_fragments s in
    some_round (run_round (set_stage Stage_DepthRecursion s) State_DepthExpansion)
  else Ok (set_stage Stage_Done s, None).

Definition next_round (s : Session) : result ActivationError (Session * option ActivationRoundOutcome) :=
  fail_if negb (bool_decide (ss_pending s = ∅)) with Act_ContinuationMismatch in
  match ss_stage s with
  | Stage_Done => Ok (s, None)
  | Stage_Start =>
      let? s := account_scan_fragments s in
      some_round (run_round (set_stage Stage_InitialRecursion s) (ss_state s))
  | Stage_InitialRecursion =>
      let? '(s, step) := expand_recursion s in
      match step with
      | Step_None | Step_Exhausted => depth_loop (set_stage Stage_DepthLoop s)
      | Step_Expanded => some_round (run_round s State_Recursion)
      end
  | Stage_DepthRecursion =>
      let? '(s, step) := expand_recursion s in
      match step with
      | Step_None => depth_loop (set_stage Stage_DepthLoop s)
      | Step_Exhausted => Ok (set_stage Stage_Done s, None)
      | Step_Expanded => some_round (run_round s State_Recursion)
      end
  | Stage_DepthLoop => depth_loop s
  end.

(** ** Bodies *)

Definition evidence_compare (x y : ActivationEvidence) : comparison :=
  then_with (N.compare (ae_round x) (ae_round y))
  (then_with (N.compare (ae_recursion_level x) (ae_recursion_level y))
  (then_with (N.compare (source_priority (ae_fragment_kind x)) (source_priority (ae_fragment_kind y)))
  (then_with (N.compare (ae_recency_depth x) (ae_recency_depth y))
  (then_with (N.compare (ae_stable_fragment_order x) (ae_stable_fragment_order y))
  (then_with (N.compare (pattern_kind_rank (ae_pattern_kind x)) (pattern_kind_rank (ae_pattern_kind y)))
    (N.compare (ae_pattern_ordinal x) (ae_pattern_ordinal y))))))).

Definition update_timed_state (metadata : ActivationEntryMetadata) (delta : PendingActivationStateDelta) :
    PendingActivationStateDelta :=
  let sticky_turns := tim_sticky_turns (timing (meta_rule metadata)) in
  let cooldown_turns := tim_cooldown_turns (timing (meta_rule metadata)) in
  if (sticky_turns =? 0)%N && (cooldown_turns =? 0)%N then delta
  else
    let sticky_turn := sat_add U64_MAX (req_turn_number request) sticky_turns in
    {| delta_upserts :=
         List.filter (λ state, negb (bool_decide (ts_source_id state = meta_source_id metadata)))
           (delta_upserts delta) ++
         [{| ts_source_id := meta_source_id metadata;
             ts_rule_version := meta_rule_version metadata;
             sticky_through_turn := if (sticky_turns =? 0)%N then None else turn_number_of sticky_turn;
             cooldown_through_turn := if (cooldown_turns =? 0)%N then None
                                      else turn_number_of (sat_add U64_MAX sticky_turn cooldown_turns) |}];
       delta_deletes := delta_deletes delta ∖ {[meta_source_id metadata]} |}.

(** A refused body: an error for a mandatory entry, a rejection for another. *)
Definition refuse (mandatory : bool) (id : KnowledgeSourceId) (reason : ActivationRejectionReason) (s : Session) :
    result ActivationError Session :=
  fail_if mandatory with Act_MandatoryBudgetExceeded in Ok (reject_trim id reason s).

Definition admit_body (s : Session) (c : Candidate) (body : ActivationEntryBody) : result ActivationError Session :=
  let id := aeb_source_id body in
  let? metadata := ok_or (meta_of id) Act_IndexVersionMismatch in
  fail_if negb (bool_decide (meta_kind metadata = aeb_kind body)) || (aeb_token_cost body =? 0)%N
  with Act_SnapshotMismatch in
  let class := budget_class (meta_rule metadata) in
  let mandatory := is_mandatory class (c_mandatory c) in
  if (rl_max_single_entry_bytes limits <? slen (aeb_body body))%N then refuse mandatory id Reject_Budget s
  else
  let evidence := take (N.to_nat (rl_max_evidence_per_entry limits)) (sort_by evidence_compare (c_evidence c)) in
  let evidence_bytes := sat_add USIZE_MAX (k_evidence_bytes (ss_continuation s))
    (sat_mul USIZE_MAX (nlen evidence) size_of_evidence) in
  if (rl_max_evidence_bytes limits <? evidence_bytes)%N then refuse mandatory id Reject_WorkLimit s
  else
  let deliveries := sorted_deliveries (default_deliveries (meta_kind metadata) ++ c_deliveries c) in
  let? _ := validate_deliveries (meta_kind metadata) deliveries in
  match admit_deliveries limits class (c_mandatory c) (aeb_token_cost body) deliveries (ss_budget s) with
  | Rejected_ => refuse mandatory id Reject_Budget s
  | Admitted_ usage =>
      let s := set_ss_continuation (λ k, set_k_activated (<[id := {|
          act_source_id := id;
          act_deliveries := deliveries;
          act_activation_class := c_class c;
          act_rank := 0;
          act_token_cost := aeb_token_cost body;
          act_evidence := evidence;
          act_ordering := activation_ordering c;
        |}]>) (set_k_evidence_bytes (λ _, evidence_bytes) k)) (set_ss_budget (λ _, usage) s) in
      let s := upd_consumed (set_wu_activated_entries (λ n, sat_add USIZE_MAX n 1)) s in
      let s := if c_sticky c then s else set_ss_timed_delta (update_timed_state metadata) s in
      Ok (set_ss_recursion_pending (λ l, l ++ [id])
            (set_ss_recursion_bodies (<[id := (aeb_body body, aeb_token_cost body)]>) s))
  end.

Definition supply_body (s : Session) (body : ActivationEntryBody) : result ActivationError Session :=
  let? c := ok_or (ss_pending s !! aeb_source_id body) Act_SnapshotMismatch in
  admit_body (set_ss_pending (delete (aeb_source_id body)) s) c body.
Definition supply_bodies (s : Session) (bodies : list ActivationEntryBody) : result ActivationError Session :=
  let? s := try_fold supply_body s bodies in
  fail_if negb (bool_decide (ss_pending s = ∅)) with Act_SnapshotMismatch in
  Ok s.

Definition admitted_is_mandatory (s : Session) (source_id : KnowledgeSourceId) : result ActivationError bool :=
  let? c := ok_or (ss_pending s !! source_id) Act_SnapshotMismatch in
  let? metadata := ok_or (meta_of source_id) Act_SnapshotMismatch in
  Ok (is_mandatory (budget_class (meta_rule metadata)) (c_mandatory c)).

Definition drop_admitted (s : Session) (source_id : KnowledgeSourceId) : result ActivationError Session :=
  fail_if negb (bool_decide (is_Some (ss_pending s !! source_id))) with Act_SnapshotMismatch in
  Ok (reject_trim source_id Reject_Budget (set_ss_pending (delete source_id) s)).

(** ** [finish] *)

Definition expired (state : ActivationTimedState) : bool :=
  negb (through (req_turn_number request) (sticky_through_turn state))
  && negb (through (req_turn_number request) (cooldown_through_turn state)).
Definition cleanup_timed_state (k : ActivationContinuation) (timed : gmap KnowledgeSourceId ActivationTimedState)
    (delta : PendingActivationStateDelta) : PendingActivationStateDelta := {|
  delta_upserts := sort_by (λ l r, key_compare (ts_source_id l) (ts_source_id r)) (delta_upserts delta);
  delta_deletes := foldl (λ deletes e,
    if expired e.2 && negb (bool_decide (is_Some (k_activated k !! e.1)))
    then {[e.1]} ∪ deletes else deletes) (delta_deletes delta) (entries timed);
|}.

(** [ranked_activated]: the activated entries in order, and their ranks. *)
Definition rank_order (l r : ActivatedKnowledgeRef) : comparison :=
  then_with (ordering_compare (act_ordering l) (act_ordering r)) (key_compare (act_source_id l) (act_source_id r)).
Definition rank_entry (e : nat * ActivatedKnowledgeRef) : ActivatedKnowledgeRef :=
  set_act_rank (λ _, clamp U32_MAX (sat_add USIZE_MAX (N.of_nat e.1) 1)) e.2.
Definition ranked_activated (k : ActivationContinuation) : ActivationContinuation * list ActivatedKnowledgeRef :=
  let activated := map rank_entry (enumerate (sort_by rank_order (values (k_activated k)))) in
  (set_k_activated (λ m, foldl (λ m entry, alter (set_act_rank (λ _, act_rank entry)) (act_source_id entry) m)
     m activated) k, activated).

Definition stop_reason (s : Session) (activated : N) : ActivationStopReason :=
  let k := ss_continuation s in
  if ss_recursion_exhausted s then Stop_RecursionExhausted
  else if ss_budget_trimmed s then Stop_WorkTrimmed
  else if (activated <? rl_minimum_activations limits)%N
          && ((k_scan_depth k =? rl_max_scan_depth limits) || (k_depth_expansions k =? rl_max_depth_expansions limits))%N
  then Stop_MaximumDepthReached
  else if (0 <? k_depth_expansions k)%N && (rl_minimum_activations limits <=? activated)%N then Stop_MinimumSatisfied
  else Stop_Complete.

Definition finish (s : Session) : result ActivationError ActivationResult :=
  fail_if negb (bool_decide (ss_pending s = ∅)) with Act_ContinuationMismatch in
  let b := ss_budget s in
  let delta := cleanup_timed_state (ss_continuation s) (ss_timed_valid s) (ss_timed_delta s) in
  let s := upd_consumed (set_wu_knowledge_tokens (λ _, knowledge_tokens b)) s in
  let s := set_ss_continuation (λ k,
    set_k_audience_items (λ _, bu_audience_items b)
    (set_k_audience_tokens (λ _, bu_audience_tokens b)
    (set_k_total_delivery_items (λ _, bu_total_items b)
    (set_k_normal_tokens (λ _, bu_normal_tokens b)
    (set_k_reserved_tokens (λ _, bu_reserved_tokens b)
    (set_k_mandatory_tokens (λ _, bu_mandatory_tokens b) k)))))) s in
  let '(continuation, activated) := ranked_activated (ss_continuation s) in
  Ok {| ar_activated := activated;
        ar_continuation := continuation;
        ar_pending_timed_state := delta;
        ar_rejection_summary := ss_rejections s;
        ar_stop_reason := stop_reason s (nlen activated) |}.
End engine.
