(* ===== verification/AiseActivationProofs.v ===== *)
(** * The activation session keeps its promises

    What every operation of AiseActivation.v preserves: the budget is exactly what
    the active entries cost and within the limits, an entry is active or pending
    once, with deliveries its kind allows, every group it belongs to is its own,
    and it was entitled to its activation. *)

From S2P Require Import Prelude Text AiseIds AiseRule AiseNarrative AiseStory AiseTurnData AiseScan AiseActivation.

(** ** The budget *)

Definition delivers (d : KnowledgeDelivery) (a : ActivatedKnowledgeRef) : bool :=
  bool_decide (d ∈ act_deliveries a).
Definition one_if (b : bool) (n : N) : N := if b then n else 0%N.
Definition items_of (u : BudgetUsage) (d : KnowledgeDelivery) : N := default 0%N (bu_audience_items u !! d).
Definition tokens_of (u : BudgetUsage) (d : KnowledgeDelivery) : N := default 0%N (bu_audience_tokens u !! d).
Definition charged (u : BudgetUsage) : N := (bu_normal_tokens u + bu_reserved_tokens u + bu_mandatory_tokens u)%N.
Definition cost_of (a : ActivatedKnowledgeRef) : N := (act_token_cost a * nlen (act_deliveries a))%N.

(** The usage is the sum over the active entries. *)
Record charges_exact (m : gmap KnowledgeSourceId ActivatedKnowledgeRef) (u : BudgetUsage) : Prop := {
  be_items d : items_of u d = map_sum (λ a, one_if (delivers d a) 1) m;
  be_tokens d : tokens_of u d = map_sum (λ a, one_if (delivers d a) (act_token_cost a)) m;
  be_total : bu_total_items u = map_sum (λ a, nlen (act_deliveries a)) m;
  be_charged : charged u = map_sum cost_of m;
}.

(** The usage is within the limits. *)
Record budget_within (l : ActivationRuntimeLimits) (u : BudgetUsage) : Prop := {
  bw_items d : (items_of u d <= rl_max_items_per_audience l)%N;
  bw_tokens d : (tokens_of u d <= rl_max_tokens_per_audience l)%N;
  bw_total : (bu_total_items u <= rl_max_total_items l)%N;
  bw_charged : (charged u <= rl_max_total_tokens l)%N;
  bw_normal : (bu_normal_tokens u <= rl_max_total_tokens l - rl_reserved_tokens l - rl_mandatory_tokens l)%N;
}.

(** The limits are below the largest value of their machine type, so that a
    saturated sum is over every limit. *)
Record limits_fit (l : ActivationRuntimeLimits) : Prop := {
  lf_items : (rl_max_items_per_audience l < USIZE_MAX)%N;
  lf_tokens : (rl_max_tokens_per_audience l < U64_MAX)%N;
  lf_total_items : (rl_max_total_items l < USIZE_MAX)%N;
  lf_total_tokens : (rl_max_total_tokens l < U64_MAX)%N;
  lf_entries : (rl_max_activated_entries l < USIZE_MAX)%N;
  lf_evidence : (rl_max_evidence_bytes l < USIZE_MAX)%N;
}.

Lemma sat_add_le max x y b : (b < max)%N → (sat_add max x y <= b)%N → (x + y <= b)%N.
Proof. unfold sat_add, clamp. intros. destruct (N.leb_spec (x + y) max); lia. Qed.
Lemma sat_mul_le max x y b : (b < max)%N → (sat_mul max x y <= b)%N → (x * y <= b)%N.
Proof. unfold sat_mul, clamp. intros. destruct (N.leb_spec (x * y) max); lia. Qed.
Lemma sat_mul_exact max x y : (x * y <= max)%N → sat_mul max x y = (x * y)%N.
Proof. intros. by apply clamp_small. Qed.

Lemma new_usage_items u d c e :
  items_of (new_usage u d c) e = (items_of u e + one_if (bool_decide (e = d)) 1)%N.
Proof.
  unfold items_of, new_usage. cbn [bu_audience_items]. case_bool_decide as He; simpl.
  - subst e. by rewrite lookup_insert_eq.
  - rewrite lookup_insert_ne by congruence. lia.
Qed.
Lemma new_usage_tokens u d c e :
  (tokens_of u d + c <= U64_MAX)%N →
  tokens_of (new_usage u d c) e = (tokens_of u e + one_if (bool_decide (e = d)) c)%N.
Proof.
  intros Hle. unfold tokens_of, new_usage in *. cbn [bu_audience_tokens]. case_bool_decide as He; simpl.
  - subst e. by rewrite lookup_insert_eq, (sat_add_small U64_MAX).
  - rewrite lookup_insert_ne by congruence. lia.
Qed.

(** Charging the deliveries one by one. *)
Lemma new_usage_fold ds u c :
  NoDup ds → (∀ d, d ∈ ds → (tokens_of u d + c <= U64_MAX)%N) →
  let u' := foldl (λ u d, new_usage u d c) u ds in
  (∀ e, items_of u' e = items_of u e + one_if (bool_decide (e ∈ ds)) 1)%N ∧
  (∀ e, tokens_of u' e = tokens_of u e + one_if (bool_decide (e ∈ ds)) c)%N ∧
  bu_total_items u' = bu_total_items u ∧ bu_normal_tokens u' = bu_normal_tokens u ∧
  bu_reserved_tokens u' = bu_reserved_tokens u ∧ bu_mandatory_tokens u' = bu_mandatory_tokens u.
Proof.
  revert u. induction ds as [|d ds IH]; intros u Hnd Hle; cbn [foldl].
  { split; [|split; [|done]]; intros e; (rewrite bool_decide_false by apply not_elem_of_nil); simpl; lia. }
  inversion Hnd as [|? ? Hd Hnd']; subst.
  assert (tokens_of u d + c <= U64_MAX)%N as Hd0 by (apply Hle; set_solver).
  destruct (IH (new_usage u d c)) as (Hi & Ht & Hrest); [done| |].
  { intros e He. rewrite new_usage_tokens by done. rewrite bool_decide_false by (intros ->; done). simpl.
    rewrite N.add_0_r. apply Hle. set_solver. }
  split; [|split; [|exact Hrest]]; intros e; [rewrite Hi, new_usage_items|rewrite Ht, new_usage_tokens by done];
    repeat case_bool_decide; simpl; set_solver by lia.
Qed.

(** What an admission charges. *)
Lemma admit_deliveries_spec l class forced c ds u u' :
  limits_fit l → NoDup ds → budget_within l u →
  admit_deliveries l class forced c ds u = Admitted_ u' →
  (∀ d, items_of u' d = items_of u d + one_if (bool_decide (d ∈ ds)) 1)%N ∧
  (∀ d, tokens_of u' d = tokens_of u d + one_if (bool_decide (d ∈ ds)) c)%N ∧
  bu_total_items u' = (bu_total_items u + nlen ds)%N ∧ charged u' = (charged u + c * nlen ds)%N ∧
  budget_within l u'.
Proof.
  intros Hfit Hnd Hw. unfold admit_deliveries.
  destruct (N.ltb_spec (rl_max_total_items l) (sat_add USIZE_MAX (bu_total_items u) (nlen ds))) as [|Hti]; [done|].
  destruct (existsb _ ds) eqn:Haud; [done|].
  match goal with |- (if ?x then _ else _) = _ → _ => destruct x eqn:Htt; [done|] end.
  match goal with |- (if ?x then _ else _) = _ → _ => destruct x eqn:Hcls; [done|] end.
  intros [= <-]. apply N.ltb_ge in Htt. destruct Hfit, Hw.
  apply sat_add_le in Hti; [|exact lf_total_items0].
  assert (sat_mul U64_MAX c (nlen ds) = c * nlen ds ∧ charged u + c * nlen ds <= rl_max_total_tokens l)%N as [Hmul Htok].
  { rewrite (sat_add_small U64_MAX (bu_normal_tokens u)) in Htt by (unfold charged in *; lia).
    rewrite (sat_add_small U64_MAX (_ + _)) in Htt by (unfold charged in *; lia).
    apply sat_add_le in Htt; [|exact lf_total_tokens0]. unfold charged in *.
    assert (c * nlen ds <= rl_max_total_tokens l)%N
      by (apply (sat_mul_le U64_MAX); [exact lf_total_tokens0|lia]).
    assert (sat_mul U64_MAX c (nlen ds) = (c * nlen ds)%N) as Hm by (apply sat_mul_exact; lia).
    rewrite Hm in Htt. split; [exact Hm|lia]. }
  rewrite Hmul in Hcls |- *.
  assert (∀ d, d ∈ ds → items_of u d + 1 <= rl_max_items_per_audience l ∧
                        tokens_of u d + c <= rl_max_tokens_per_audience l)%N as Hd.
  { intros d Hin. assert (existsb (λ d,
      (rl_max_items_per_audience l <? sat_add USIZE_MAX (default 0 (bu_audience_items u !! d)) 1)
      || (rl_max_tokens_per_audience l <? sat_add U64_MAX (default 0 (bu_audience_tokens u !! d)) c))%N ds = false)
      as Hall by exact Haud.
    rewrite <-not_true_iff_false, existsb_exists in Hall.
    assert (∀ b, (rl_max_items_per_audience l <? sat_add USIZE_MAX (default 0 (bu_audience_items u !! d)) 1)
      || (rl_max_tokens_per_audience l <? sat_add U64_MAX (default 0 (bu_audience_tokens u !! d)) c) = b → b = false)%N as Hb.
    { intros [] Hb; [|done]. exfalso. apply Hall. exists d. split; [by apply list_elem_of_In|done]. }
    specialize (Hb _ eq_refl). apply orb_false_iff in Hb as [Hb1 Hb2].
    apply N.ltb_ge in Hb1, Hb2. split; eapply sat_add_le; eauto. }
  destruct (new_usage_fold ds u c Hnd) as (Hi & Ht & Htot & Hn & Hr & Hm).
  { intros d Hin. destruct (Hd d Hin). lia. }
  assert (charged (charge (foldl (λ u d, new_usage u d c) u ds) (effective_class class forced) (nlen ds) (c * nlen ds))
    = charged u + c * nlen ds)%N as Hcharged.
  { unfold charged, charge in *. cbn. rewrite Hn, Hr, Hm.
    destruct (effective_class class forced); rewrite sat_add_small by lia; lia. }
  split; [exact Hi|]. split; [exact Ht|].
  assert (bu_total_items (charge (foldl (λ u d, new_usage u d c) u ds) (effective_class class forced) (nlen ds)
    (c * nlen ds)) = bu_total_items u + nlen ds)%N as Htotal.
  { unfold charge. cbn. rewrite Htot, (sat_add_small USIZE_MAX) by lia. done. }
  split; [exact Htotal|]. split; [exact Hcharged|]. split.
  - intros d. change (items_of (foldl (λ u d, new_usage u d c) u ds) d <= rl_max_items_per_audience l)%N.
    rewrite Hi. case_bool_decide as Hin; simpl; [apply Hd, Hin|]. rewrite N.add_0_r. apply bw_items0.
  - intros d. change (tokens_of (foldl (λ u d, new_usage u d c) u ds) d <= rl_max_tokens_per_audience l)%N.
    rewrite Ht. case_bool_decide as Hin; simpl; [apply Hd, Hin|]. rewrite N.add_0_r. apply bw_tokens0.
  - rewrite Htotal. lia.
  - rewrite Hcharged. lia.
  - unfold charge. cbn. rewrite Hn. destruct (effective_class class forced); [|done|done].
    apply N.ltb_ge in Hcls. unfold sat_sub in Hcls. etransitivity; [|exact Hcls].
    rewrite (sat_add_small U64_MAX); unfold charged in *; lia.
Qed.

(** ** Sorted deliveries *)
Lemma elem_of_dedup {A} `{EqDecision A} (x : A) l : x ∈ dedup l ↔ x ∈ l.
Proof.
  induction l as [|y l IH]; [done|]. destruct l as [|z l]; [done|].
  cbn [dedup] in *. case_decide as Hyz; [subst z|]; set_solver.
Qed.
Lemma NoDup_dedup {A} `{EqDecision A} (cmp : A → A → comparison) `{!OrdLaws cmp} l :
  StronglySorted (le_by cmp) l → NoDup (dedup l).
Proof.
  induction 1 as [|x l Hl IH Hx]; [constructor|]. destruct l as [|y l]; [apply NoDup_singleton|].
  cbn [dedup] in *. case_decide as Hxy; [done|]. constructor; [|done].
  intros Hin. change (x ∈ dedup (y :: l)) in Hin. rewrite elem_of_dedup, elem_of_cons in Hin.
  destruct Hin as [?|Hin]; [done|]. apply Hxy.
  inversion Hl as [|? ? _ Hy]; subst. rewrite Forall_forall in Hx, Hy.
  assert (le_by cmp x y) as Hle by (apply Hx; set_solver).
  assert (le_by cmp y x) as Hge by (apply Hy; set_solver).
  unfold le_by in *. apply (cmp_eq (cmp:=cmp)). destruct (cmp x y) eqn:E; [done| |done].
  rewrite (cmp_antisym (cmp:=cmp) y x), E in Hge. done.
Qed.
Lemma elem_of_sorted_deliveries d l : d ∈ sorted_deliveries l ↔ d ∈ l.
Proof. unfold sorted_deliveries. by rewrite elem_of_dedup, elem_of_sort_by. Qed.
Lemma NoDup_sorted_deliveries l : NoDup (sorted_deliveries l).
Proof. eapply (NoDup_dedup delivery_compare), sort_by_sorted; apply _. Qed.

(** ** The invariant of a session *)

Section session.
Context `{Unicode, Sha256Bytes, RegexFind, Layout}.
Context (request : ActivationRequest).
Notation lim := (limits request).

(** The groups of an entry, and whether it is sticky in this turn. *)
Definition groups_by (id : KnowledgeSourceId) : list ActivationGroupKey :=
  from_option (λ m, sel_groups (selection (meta_rule m))) [] (meta_of request id).
Definition sticky_now (timed : gmap KnowledgeSourceId ActivationTimedState) (id : KnowledgeSourceId) : Prop :=
  ∃ state, timed !! id = Some state ∧ through (req_turn_number request) (sticky_through_turn state) = true.

(** Why an entry may be active: its rule is on, the turn is of a kind it is for
    and not too early, and it is sticky, or was drawn and is not cooling down. *)
Record entitled (timed : gmap KnowledgeSourceId ActivationTimedState) (id : KnowledgeSourceId) : Prop := {
  en_metadata : ActivationEntryMetadata;
  en_known : meta_of request id = Some en_metadata;
  en_enabled : mode_enabled (mode (meta_rule en_metadata)) = true;
  en_scope : scope_generation_triggers (scope (meta_rule en_metadata)) = [] ∨
    req_generation_trigger request ∈ scope_generation_triggers (scope (meta_rule en_metadata));
  en_delay : tim_delay_turns (timing (meta_rule en_metadata)) = 0%N ∨
    (tim_delay_turns (timing (meta_rule en_metadata)) < req_turn_number request)%N;
  en_chosen : sticky_now timed id ∨
    from_option (λ state, through (req_turn_number request) (cooldown_through_turn state)) false (timed !! id) = false ∧
    probability_admits (req_story_id request) (req_turn_number request) id
      (sel_probability (selection (meta_rule en_metadata))) (meta_rule_version en_metadata) = true;
}.

Definition cand_ok (timed : gmap KnowledgeSourceId ActivationTimedState) (id : KnowledgeSourceId) (c : Candidate) :
    Prop := c_source_id c = id ∧ (c_sticky c = true → sticky_now timed id) ∧ NoDup (c_deliveries c).

Record active_ok (id : KnowledgeSourceId) (a : ActivatedKnowledgeRef) : Prop := {
  ao_id : act_source_id a = id;
  ao_deliveries : NoDup (act_deliveries a);
  ao_allowed : ∃ m, meta_of request id = Some m ∧
    ∀ d, d ∈ act_deliveries a → delivery_allowed (meta_kind m) d = true;
}.

Definition held (active : gmap KnowledgeSourceId ActivatedKnowledgeRef) (pending : gmap KnowledgeSourceId Candidate)
    (id : KnowledgeSourceId) : Prop := is_Some (active !! id) ∨ is_Some (pending !! id).

(** [before] are the entries active when the session started. *)
Record core_ok (before : gset KnowledgeSourceId) (active : gmap KnowledgeSourceId ActivatedKnowledgeRef)
    (winners : gmap ActivationGroupKey KnowledgeSourceId) (evidence_bytes : N) (usage : BudgetUsage)
    (pending : gmap KnowledgeSourceId Candidate) (timed : gmap KnowledgeSourceId ActivationTimedState) : Prop := {
  co_exact : charges_exact active usage;
  co_within : budget_within lim usage;
  co_active id a : active !! id = Some a → active_ok id a;
  co_pending id c : pending !! id = Some c → cand_ok timed id c ∧ active !! id = None;
  co_groups id g : held active pending id → g ∈ groups_by id → winners !! g = Some id;
  co_count : (map_len active + map_len pending <= rl_max_activated_entries lim)%N;
  co_entitled id : held active pending id → id ∉ before → entitled timed id;
  co_evidence : (evidence_bytes <= rl_max_evidence_bytes lim)%N;
}.

Definition core (s : Session) :=
  let k := ss_continuation s in
  (k_activated k, k_group_winners k, k_evidence_bytes k, ss_budget s, ss_pending s, ss_timed_valid s).
Definition session_ok (before : gset KnowledgeSourceId) (s : Session) : Prop :=
  let '(active, winners, evidence_bytes, usage, pending, timed) := core s in
  core_ok before active winners evidence_bytes usage pending timed.

Lemma session_ok_core before s s' : core s = core s' → session_ok before s → session_ok before s'.
Proof. unfold session_ok. by intros ->. Qed.

(** Reduces the parts of a session that was just updated. *)
Ltac core_simpl :=
  unfold session_ok, core;
  cbn [set_ss_continuation set_ss_budget set_ss_pending set_k_activated set_k_group_winners set_k_evidence_bytes
       upd_consumed set_k_consumed set_ss_timed_delta set_ss_recursion_pending set_ss_recursion_bodies
       ss_continuation ss_budget ss_pending ss_timed_valid k_activated k_group_winners k_evidence_bytes].

(** *** What leaves the core alone *)
Lemma core_reject_entry id reason s : core (reject_entry id reason s) = core s.
Proof. done. Qed.
Lemma core_fold {A} (f : Session → A → Session) l s : (∀ s x, core (f s x) = core s) → core (foldl f s l) = core s.
Proof. intros Hf. revert s. induction l as [|x l IH]; intros s; simpl; [done|]. by rewrite IH, Hf. Qed.
Lemma core_try_fold {A} (f : Session → A → result ActivationError Session) l s s' :
  (∀ s x s', f s x = Ok s' → core s' = core s) → try_fold f s l = Ok s' → core s' = core s.
Proof.
  intros Hf. revert s. induction l as [|x l IH]; intros s Hs; simpl in Hs; res_inv; [done|].
  erewrite (IH value) by done. by eapply Hf.
Qed.

Lemma core_account_fragment s f : core (account_fragment s f) = core s.
Proof. unfold account_fragment. by case_decide. Qed.
Lemma core_account_scan s s' : account_scan_fragments request s = Ok s' → core s' = core s.
Proof. unfold account_scan_fragments. intros. res_inv. apply core_fold, core_account_fragment. Qed.

Lemma core_ingest_match s item s' : ingest_match request s item = Ok s' → core s' = core s.
Proof. unfold ingest_match. intros Hs. repeat (case_match; simplify_eq/=; try done). Qed.
Lemma core_ingest s e s' : ingest_fragment_matches request s e = Ok s' → core s' = core s.
Proof.
  unfold ingest_fragment_matches. destruct e as [id ms]. case_decide; [by intros [= ->]|].
  intros Hs. apply core_try_fold in Hs; [exact Hs|]. apply core_ingest_match.
Qed.
(** *** Candidates *)

Definition cands_ok (timed : gmap KnowledgeSourceId ActivationTimedState) (m : gmap KnowledgeSourceId Candidate) :
    Prop := ∀ id c, m !! id = Some c → cand_ok timed id c.

Lemma merge_candidate_ok timed m c :
  cands_ok timed m → (c_sticky c = true → sticky_now timed (c_source_id c)) → NoDup (c_deliveries c) →
  cands_ok timed (merge_candidate m c).
Proof.
  intros Hm Hc Hd id c'. unfold merge_candidate. destruct (m !! c_source_id c) as [cur|] eqn:Hcur.
  - destruct (Hm _ _ Hcur) as (Hid & Hst & _).
    intros [[<- <-]|[_ Hl]]%lookup_insert_Some; [|by apply Hm]. split; [done|]. cbn.
    split; [intros [?|?]%orb_true_iff; auto|]. apply NoDup_sorted_deliveries.
  - intros [[<- <-]|[_ Hl]]%lookup_insert_Some; [done|by apply Hm].
Qed.

Lemma text_candidate_ok timed round level s cands e :
  cands_ok timed cands →
  let st := text_candidate request round level (s, cands) e in core st.1 = core s ∧ cands_ok timed st.2.
Proof.
  intros Hc. destruct e as [id metadata]. unfold text_candidate. cbv zeta.
  repeat case_match; try by split. all: split; [done|apply merge_candidate_ok; [done..|apply NoDup_nil_2]].
Qed.

Lemma collect_text_ok timed s cands s' cands' :
  cands_ok timed cands → collect_text_candidates request s cands = Ok (s', cands') →
  core s' = core s ∧ cands_ok timed cands'.
Proof.
  intros Hc. unfold collect_text_candidates. intros Hs.
  destruct (fragment_matches_of request s) as [fs|] eqn:Hf; [|done].
  destruct (try_fold _ s fs) as [s1|] eqn:Hi; [|done]. injection Hs as Hs.
  apply core_try_fold in Hi; [|apply core_ingest]. rewrite <-Hi. clear Hi Hf.
  set (round := sat_add _ _ _) in Hs. set (level := k_recursion_level _) in Hs. clearbody round level.
  revert s1 cands Hc Hs. generalize (entries (ix_metadata (req_index_snapshot request))) as l.
  induction l as [|e l IH]; intros s1 cands Hc Hs; cbn [foldl] in Hs; [by injection Hs as <- <-|].
  destruct (text_candidate_ok timed round level s1 cands e Hc) as [Hcore Hok]. rewrite <-Hcore.
  destruct (text_candidate request round level (s1, cands) e) as [s2 cands2]. exact (IH s2 cands2 Hok Hs).
Qed.

Lemma collect_candidates_ok s s' cands :
  collect_candidates request s = Ok (s', cands) → core s' = core s ∧ cands_ok (ss_timed_valid s) cands.
Proof.
  unfold collect_candidates. intros Hs.
  destruct (try_fold (constant_candidate request) ∅ _) as [m0|] eqn:H0'; [|done].
  destruct (try_fold (seed_candidate request) _ _) as [m2|] eqn:H2'; [|done].
  eapply collect_text_ok; [|exact Hs]. set (timed := ss_timed_valid s) in *.
  eapply (try_fold_inv (cands_ok timed)); [| |exact H2'].
  - assert (cands_ok timed m0) as Hm0.
    { eapply (try_fold_inv (cands_ok timed)); [| |exact H0']; [by intros ???|].
      intros m id m' _ Hm Hc. unfold constant_candidate in Hc. res_inv.
      apply merge_candidate_ok; [done..|apply NoDup_nil_2]. }
    apply (foldl_inv (cands_ok timed)); [done|]. intros m [id st] Hin Hm. unfold sticky_candidate. case_match; [|done].
    apply merge_candidate_ok; [done| |apply NoDup_nil_2]. intros _. exists st. split; [by apply elem_of_entries|done].
  - intros m seed m' _ Hm Hs'. unfold seed_candidate in Hs'. res_inv.
    apply merge_candidate_ok; [done..|apply NoDup_singleton].
Qed.

Lemma trim_candidates_ok timed s cands s' cands' :
  cands_ok timed cands → trim_candidates request s cands = Ok (s', cands') → core s' = core s ∧ cands_ok timed cands'.
Proof.
  intros Hc. unfold trim_candidates. case_match; [by intros [= <- <-]|]. case_match; [done|].
  intros Hs. injection Hs as <- <-. split.
  - change (core (trim_ ?s)) with (core s). by apply core_fold.
  - set (rejected := List.filter _ _). clearbody rejected.
    apply (foldl_inv (cands_ok timed)); [done|]. intros m id _ Hm id' c [_ Hl]%lookup_delete_Some. by apply Hm.
Qed.

Lemma candidate_ids timed m : cands_ok timed m → c_source_id <$> values m = keys m.
Proof.
  intros Hm. unfold values, keys. rewrite <-list_fmap_compose. apply list_fmap_ext. intros i [id c] Hin. cbn.
  apply list_elem_of_lookup_2, elem_of_entries in Hin. by apply Hm in Hin as [-> _].
Qed.

(** *** Deliveries added to an active entry *)
Lemma sorted_deliveries_perm l : NoDup l → sorted_deliveries l ≡ₚ l.
Proof.
  intros Hl. apply NoDup_Permutation; [apply NoDup_sorted_deliveries|done|]. intros d. apply elem_of_sorted_deliveries.
Qed.

Lemma budget_exact_insert m u u' id a :
  m !! id = None → charges_exact m u →
  (∀ d, items_of u' d = items_of u d + one_if (delivers d a) 1)%N →
  (∀ d, tokens_of u' d = tokens_of u d + one_if (delivers d a) (act_token_cost a))%N →
  bu_total_items u' = (bu_total_items u + nlen (act_deliveries a))%N → charged u' = (charged u + cost_of a)%N →
  charges_exact (<[id:=a]> m) u'.
Proof.
  intros Hid [Hi Ht Hn Hc] Hi' Ht' Hn' Hc'.
  split; [intros d; rewrite Hi', Hi|intros d; rewrite Ht', Ht|rewrite Hn', Hn|rewrite Hc', Hc];
    rewrite map_sum_insert by done; lia.
Qed.

Lemma budget_exact_replace m u u' id a a' ds :
  m !! id = Some a → charges_exact m u →
  act_deliveries a' ≡ₚ act_deliveries a ++ ds → NoDup (act_deliveries a') → act_token_cost a' = act_token_cost a →
  (∀ d, items_of u' d = items_of u d + one_if (bool_decide (d ∈ ds)) 1)%N →
  (∀ d, tokens_of u' d = tokens_of u d + one_if (bool_decide (d ∈ ds)) (act_token_cost a))%N →
  bu_total_items u' = (bu_total_items u + nlen ds)%N → charged u' = (charged u + act_token_cost a * nlen ds)%N →
  charges_exact (<[id:=a']> m) u'.
Proof.
  intros Hid [Hi Ht Hn Hc] Hperm Hnd Hcost Hi' Ht' Hn' Hc'.
  assert (∀ d n, one_if (delivers d a') n = one_if (delivers d a) n + one_if (bool_decide (d ∈ ds)) n)%N as Hd.
  { intros d n. rewrite Hperm in Hnd. apply NoDup_app in Hnd as (_ & Hdis & _). unfold delivers.
    pose proof (Hdis d) as Hx. assert (d ∈ act_deliveries a' ↔ d ∈ act_deliveries a ∨ d ∈ ds) as Hiff
      by (rewrite Hperm; apply elem_of_app).
    repeat case_bool_decide; simpl; try lia; exfalso; naive_solver. }
  assert (nlen (act_deliveries a') = nlen (act_deliveries a) + nlen ds)%N as Hlen.
  { unfold nlen. rewrite Hperm, length_app. lia. }
  split.
  - intros d. rewrite Hi', Hi. pose proof (map_sum_replace (λ a, one_if (delivers d a) 1) m id a a' Hid) as Hs.
    cbn beta in Hs. rewrite Hd in Hs. lia.
  - intros d. rewrite Ht', Ht.
    pose proof (map_sum_replace (λ a, one_if (delivers d a) (act_token_cost a)) m id a a' Hid) as Hs.
    cbn beta in Hs. rewrite Hcost, Hd in Hs. lia.
  - rewrite Hn', Hn. pose proof (map_sum_replace (λ a, nlen (act_deliveries a)) m id a a' Hid) as Hs.
    cbn beta in Hs. rewrite Hlen in Hs. lia.
  - rewrite Hc', Hc. pose proof (map_sum_replace cost_of m id a a' Hid) as Hs.
    unfold cost_of in Hs at 2 4. rewrite Hlen, Hcost in Hs. lia.
Qed.

Hypothesis Hfit : limits_fit lim.

Lemma merge_existing_ok before s metadata c s' :
  session_ok before s → meta_of request (c_source_id c) = Some metadata →
  NoDup (c_deliveries c) →
  merge_existing_deliveries request s metadata c = Ok s' →
  session_ok before s' ∧ dom (k_activated (ss_continuation s')) = dom (k_activated (ss_continuation s)) ∧
  ss_pending s' = ss_pending s ∧ ss_timed_valid s' = ss_timed_valid s.
Proof.
  intros Hs Hm Hnd. unfold merge_existing_deliveries. revert Hm. generalize (c_source_id c) as id. intros id Hm.
  destruct (k_activated (ss_continuation s) !! id) as [a|] eqn:Ha; [|by intros [= <-]].
  set (ds := List.filter _ _). case_bool_decide; [by intros [= <-]|].
  destruct (validate_deliveries _ ds) eqn:Hv; [|done].
  destruct (admit_deliveries _ _ _ _ ds _) as [u|] eqn:Hadm; [|case_match; [done|by intros [= <-]]].
  intros [= <-]. destruct Hs as [Hex Hw Hact Hp Hg Hcount Hent Hev].
  assert (NoDup ds) as Hds by by apply NoDup_list_filter.
  destruct (admit_deliveries_spec _ _ _ _ _ _ _ Hfit Hds Hw Hadm) as (Hi & Ht & Hn & Hc & Hw').
  destruct (Hact id a Ha) as [Hid Hand (m & Hm' & Hal)]. rewrite Hm in Hm'. injection Hm' as <-. rename metadata into m.
  assert (∀ d, d ∈ ds → d ∉ act_deliveries a) as Hdis.
  { intros d [_ Hd]%elem_of_list_filter_bool. by apply negb_true_iff, bool_decide_eq_false in Hd. }
  assert (NoDup (act_deliveries a ++ ds)) as Happ by (apply NoDup_app; naive_solver).
  core_simpl. split; [split|].
  - eapply budget_exact_replace; [exact Ha|exact Hex| | | |exact Hi|exact Ht|exact Hn|exact Hc]; [|apply NoDup_sorted_deliveries|done].
    by apply sorted_deliveries_perm.
  - exact Hw'.
  - intros id' a' [[<- <-]|[_ Hl]]%lookup_insert_Some; [|by apply Hact]. split; [done|apply NoDup_sorted_deliveries|].
    exists m. split; [done|]. intros d. cbn. rewrite elem_of_sorted_deliveries, elem_of_app. intros [Hd|Hd]; [by apply Hal|].
    unfold validate_deliveries in Hv. case_match eqn:Hex'; [done|].
    destruct (delivery_allowed (meta_kind m) d) eqn:Hda; [done|]. exfalso.
    rewrite <-not_true_iff_false, existsb_exists in Hex'. apply Hex'. exists d. rewrite Hda.
    split; [by apply list_elem_of_In|done].
  - intros id' c' Hc'. destruct (Hp id' c' Hc') as [Hok Hna]. split; [done|].
    rewrite lookup_insert_ne; [done|]. congruence.
  - intros id' g Hh. apply Hg. unfold held in *. rewrite lookup_insert_is_Some in Hh. destruct Hh as [[->|[_ ?]]|?]; eauto.
  - unfold map_len in *. rewrite map_size_insert_Some by by eexists. exact Hcount.
  - intros id' Hh. apply Hent. unfold held in *. rewrite lookup_insert_is_Some in Hh. destruct Hh as [[->|[_ ?]]|?]; eauto.
  - exact Hev.
  - split; [|done]. apply (dom_insert_lookup_L _ _ _). by rewrite Ha.
Qed.

(** *** The candidates of a round *)

(** What the filter of a round leaves. *)
Definition passed (timed : gmap KnowledgeSourceId ActivationTimedState) (c : Candidate) : Prop :=
  ∃ m, meta_of request (c_source_id c) = Some m ∧
    mode_enabled (mode (meta_rule m)) = true ∧
    (scope_generation_triggers (scope (meta_rule m)) = [] ∨
     req_generation_trigger request ∈ scope_generation_triggers (scope (meta_rule m))) ∧
    (tim_delay_turns (timing (meta_rule m)) = 0%N ∨
     (tim_delay_turns (timing (meta_rule m)) < req_turn_number request)%N) ∧
    (c_sticky c = true ∨
     from_option (λ state, through (req_turn_number request) (cooldown_through_turn state)) false
       (timed !! c_source_id c) = false).

Lemma pre_filter_passed s m c :
  meta_of request (c_source_id c) = Some m → pre_filter request s m c = None → passed (ss_timed_valid s) c.
Proof.
  intros Hm. unfold pre_filter. intros Hp. exists m.
  destruct (mode_enabled _); [|done]. simpl in Hp.
  destruct (negb _ && negb _) eqn:Hscope; [done|]. destruct ((0 <? _)%N && _) eqn:Hdelay; [done|].
  destruct (negb (c_sticky c) && from_option (λ state, through _ (cooldown_through_turn state)) false _) eqn:Hcool; [done|].
  split; [done|]. split; [done|]. apply andb_false_iff in Hscope, Hdelay, Hcool. split; [|split].
  - destruct Hscope as [Hs|Hs]; apply negb_false_iff, bool_decide_eq_true in Hs; auto.
  - rewrite N.ltb_ge, N.leb_gt in Hdelay. destruct Hdelay; [left; lia|by right].
  - destruct Hcool as [Hc|Hc]; [left|by right]. by apply negb_false_iff in Hc.
Qed.

(** The eligible candidates, before and after the groups are settled. *)
Record eligible_ok (timed : gmap KnowledgeSourceId ActivationTimedState) (active : gset KnowledgeSourceId)
    (c : Candidate) : Prop := {
  el_ok : cand_ok timed (c_source_id c) c;
  el_passed : passed timed c;
  el_new : c_source_id c ∉ active;
}.
Notation active_ids s := (dom (k_activated (ss_continuation s))).

Lemma filter_candidates_ok before s l s' eligible :
  session_ok before s → (∀ c, c ∈ l → cand_ok (ss_timed_valid s) (c_source_id c) c) →
  try_fold (filter_candidate request) (s, []) l = Ok (s', eligible) →
  session_ok before s' ∧ ss_pending s' = ss_pending s ∧ ss_timed_valid s' = ss_timed_valid s ∧
  eligible `sublist_of` l ∧ ∀ c, c ∈ eligible → eligible_ok (ss_timed_valid s) (active_ids s') c.
Proof.
  intros Hs Hl Hf.
  cut (session_ok before s' ∧ ss_pending s' = ss_pending s ∧ ss_timed_valid s' = ss_timed_valid s ∧
    active_ids s' = active_ids s ∧ eligible `sublist_of` l ∧
    ∀ c, c ∈ eligible → eligible_ok (ss_timed_valid s) (active_ids s) c).
  { intros (? & ? & ? & <- & ? & ?). done. }
  change (let st := (s', eligible) in session_ok before st.1 ∧ ss_pending st.1 = ss_pending s ∧
    ss_timed_valid st.1 = ss_timed_valid s ∧ active_ids st.1 = active_ids s ∧ st.2 `sublist_of` l ∧
    ∀ c, c ∈ st.2 → eligible_ok (ss_timed_valid s) (active_ids s) c).
  revert Hf. generalize (s', eligible) as st. intros st Hf.
  apply (try_fold_prefix_ind (λ pre st, session_ok before st.1 ∧ ss_pending st.1 = ss_pending s ∧
    ss_timed_valid st.1 = ss_timed_valid s ∧ active_ids st.1 = active_ids s ∧ st.2 `sublist_of` pre ∧
    ∀ c, c ∈ st.2 → eligible_ok (ss_timed_valid s) (active_ids s) c)) in Hf; [done| |].
  { split; [done|]. do 4 (split; [done|]). intros c Hc. by apply not_elem_of_nil in Hc. }
  intros pre c suf [s1 el] st1 Heq (Hok & Hpend & Htimed & Hdom & Hsub & Hel) Hstep. cbn [fst snd] in *.
  assert (cand_ok (ss_timed_valid s) (c_source_id c) c) as Hcand by (apply Hl; rewrite Heq; set_solver).
  unfold filter_candidate in Hstep. set (s2 := upd_consumed _ s1) in Hstep.
  assert (session_ok before s2) as Hok2 by (by apply (session_ok_core before s1)).
  destruct (meta_of request (c_source_id c)) as [m|] eqn:Hm; [|done]. cbn [ok_or] in Hstep.
  assert (el `sublist_of` pre ++ [c]) as Hsub' by by apply sublist_inserts_r.
  case_bool_decide as Hact.
  - destruct (merge_existing_deliveries request s2 m c) as [s3|] eqn:Hmerge; [|done]. injection Hstep as <-.
    apply (merge_existing_ok before) in Hmerge as (Hok3 & Hdom3 & Hp3 & Ht3); [|done..|apply Hcand].
    cbn [fst snd]. rewrite Hp3, Ht3, Hdom3. done.
  - assert (c_source_id c ∉ active_ids s) as Hnew by (rewrite <-Hdom, not_elem_of_dom; by apply eq_None_not_Some).
    case_bool_decide; [by injection Hstep as <-|].
    destruct (pre_filter request s2 m c) as [reason|] eqn:Hpre.
    + assert (∃ s3, st1 = (s3, el) ∧ core s3 = core s2) as (s3 & -> & Hcore)
        by (destruct reason; injection Hstep as <-; eauto).
      cbn [fst snd]. split; [by apply (session_ok_core before s2)|].
      unfold core in Hcore. injection Hcore as -> _ _ _ -> ->. done.
    + injection Hstep as <-. cbn [fst snd]. repeat (split; [done|]). split.
      { by apply sublist_app. }
      intros c' [Hc'|Hc'%list_elem_of_singleton]%elem_of_app; [by apply Hel|]. subst c'. split; [done| |done].
      rewrite <-Htimed. by apply (pre_filter_passed s2 m).
Qed.

Lemma pick_winner_mono eligible winners g : winners ⊆ pick_winner request eligible winners g.
Proof.
  unfold pick_winner. case_bool_decide as Hg; [done|]. case_match; [|done].
  apply insert_subseteq. by apply eq_None_not_Some.
Qed.

Lemma resolve_rounds_spec fuel grouped won eligible :
  length eligible ≤ fuel →
  let '(eligible', winners) := resolve_rounds request fuel grouped won eligible in
  eligible' `sublist_of` eligible ∧ won ⊆ winners ∧ ∀ c, c ∈ eligible' → wins_all request winners c = true.
Proof.
  revert eligible. induction fuel as [|fuel IH]; intros eligible Hfuel; cbn [resolve_rounds].
  { destruct eligible; [|simpl in *; lia]. split; [done|]. split; [|by intros c ?%not_elem_of_nil].
    apply (foldl_inv (λ w, won ⊆ w)); [done|]. intros w g _ Hw. etransitivity; [done|apply pick_winner_mono]. }
  match goal with |- context [List.filter (wins_all request ?w) eligible] => set (winners := w) end.
  assert (won ⊆ winners) as Hwon.
  { apply (foldl_inv (λ w, won ⊆ w)); [done|]. intros w g _ Hw. etransitivity; [done|apply pick_winner_mono]. }
  case_bool_decide as Hlen.
  { split; [done|]. split; [done|]. by apply list_filter_full. }
  pose proof (length_list_filter (wins_all request winners) eligible).
  specialize (IH (List.filter (wins_all request winners) eligible)). destruct (resolve_rounds _ fuel _ _ _) as [el w].
  destruct IH as (Hsub & ? & ?); [lia|]. split; [|done]. etransitivity; [exact Hsub|].
  apply sublist_list_filter.
Qed.

Lemma groups_by_of c : groups_of request c = groups_by (c_source_id c).
Proof. done. Qed.

Lemma resolve_groups_ok before s candidates s' eligible :
  session_ok before s → resolve_groups request s candidates = (s', eligible) →
  session_ok before s' ∧ ss_pending s' = ss_pending s ∧ ss_timed_valid s' = ss_timed_valid s ∧
  active_ids s' = active_ids s ∧ eligible `sublist_of` candidates ∧
  ∀ c g, c ∈ eligible → g ∈ groups_by (c_source_id c) →
    k_group_winners (ss_continuation s') !! g = Some (c_source_id c).
Proof.
  intros Hs. unfold resolve_groups.
  pose proof (resolve_rounds_spec (length candidates)
    (List.filter (λ c, negb (bool_decide (groups_of request c = []))) candidates)
    (k_group_winners (ss_continuation s)) candidates (le_n _)) as Hspec.
  destruct (resolve_rounds _ _ _ _ _) as [el winners]. destruct Hspec as (Hsub & Hwon & Hwins).
  set (s1 := set_ss_continuation _ s). intros Hr. injection Hr as <- <-.
  match goal with |- context [foldl ?f s1 ?l] => assert (core (foldl f s1 l) = core s1) as Hcore by by apply core_fold end.
  match type of Hcore with core ?x = _ => generalize dependent x end. intros s2 Hcore.
  assert (session_ok before s1) as Hs1.
  { destruct Hs as [Hex Hw Hact Hp Hg Hcount Hent Hev]. subst s1. core_simpl. split; try done.
    intros id g Hh Hin. eapply lookup_weaken; [by apply Hg|done]. }
  split; [by apply (session_ok_core before s1)|]. unfold core in Hcore. injection Hcore as -> -> _ _ -> ->.
  repeat (split; [done|]). intros c g Hc Hg. specialize (Hwins c Hc). unfold wins_all in Hwins.
  rewrite forallb_forall in Hwins. rewrite <-groups_by_of in Hg. apply list_elem_of_In, Hwins in Hg.
  by apply bool_decide_eq_true in Hg.
Qed.

Lemma held_insert_pending active pending id c id' :
  held active (<[id:=c]> pending) id' ↔ id' = id ∨ held active pending id'.
Proof. unfold held. rewrite lookup_insert_is_Some'. naive_solver. Qed.

Lemma passed_entitled timed c m :
  passed timed c → cand_ok timed (c_source_id c) c → meta_of request (c_source_id c) = Some m →
  c_sticky c = true ∨ probability_admits (req_story_id request) (req_turn_number request) (c_source_id c)
    (sel_probability (selection (meta_rule m))) (meta_rule_version m) = true →
  entitled timed (c_source_id c).
Proof.
  intros (m' & Hm' & Hen & Hsc & Hde & Hcool) (_ & Hst & _) Hm Hch. rewrite Hm in Hm'. injection Hm' as <-.
  exists m; [done..|]. destruct (c_sticky c); [left; auto|]. destruct Hcool, Hch; try done. by right.
Qed.

(** Admitting the eligible candidates of a round. *)
Lemma select_candidates_ok before s l s' admitted :
  session_ok before s → ss_pending s = ∅ → NoDup (c_source_id <$> l) →
  (∀ c, c ∈ l → eligible_ok (ss_timed_valid s) (active_ids s) c) →
  (∀ c g, c ∈ l → g ∈ groups_by (c_source_id c) → k_group_winners (ss_continuation s) !! g = Some (c_source_id c)) →
  try_fold (select_candidate request) (s, []) l = Ok (s', admitted) →
  session_ok before s' ∧ ss_timed_valid s' = ss_timed_valid s.
Proof.
  intros Hs Hpend Hnd Hel Hgr Hf.
  pose (P := λ (pre : list Candidate) (st : Session * list KnowledgeSourceId),
    session_ok before st.1 ∧ ss_timed_valid st.1 = ss_timed_valid s ∧
    k_activated (ss_continuation st.1) = k_activated (ss_continuation s) ∧
    k_group_winners (ss_continuation st.1) = k_group_winners (ss_continuation s) ∧
    ∀ id, is_Some (ss_pending st.1 !! id) → id ∈ c_source_id <$> pre).
  assert (P l (s', admitted)) as (? & ? & _); [|done].
  apply (try_fold_prefix_ind P) in Hf; [done| |].
  { split; [done|]. do 3 (split; [done|]). cbn. rewrite Hpend. intros id [? Hid]. done. }
  intros pre c suf [s1 adm] st1 Heq (Hok & Htimed & Hact & Hwin & Hpre) Hstep. cbn [fst snd] in *.
  assert (c ∈ l) as Hcl by (rewrite Heq; set_solver). destruct (Hel c Hcl) as [Hcok Hpassed Hnew].
  assert (c_source_id c ∉ c_source_id <$> pre) as Hfresh.
  { rewrite Heq, fmap_app, fmap_cons in Hnd. apply NoDup_app in Hnd as (_ & Hnd & _). intros Hin.
    apply (Hnd _ Hin). set_solver. }
  unfold select_candidate in Hstep. destruct (meta_of request (c_source_id c)) as [m|] eqn:Hm; [|done].
  cbn [ok_or] in Hstep.
  assert (∀ s2 adm', core s2 = core s1 → st1 = (s2, adm') → P (pre ++ [c]) st1) as Hskip.
  { intros s2 adm' Hcore ->. split; [by apply (session_ok_core before s1)|]. unfold core in Hcore.
    injection Hcore as Ha Hw _ _ Hp Ht. cbn [fst]. rewrite Ht, Ha, Hw, Hp. do 3 (split; [done|]). intros id Hid.
    rewrite fmap_app. apply elem_of_app. left. by apply Hpre. }
  destruct (negb (c_sticky c) && _) eqn:Hprob; [injection Hstep as <-; eapply Hskip; [|done]; done|].
  destruct (rl_max_activated_entries lim <=? _)%N eqn:Hmax.
  { destruct (is_mandatory _ _); [done|]. injection Hstep as <-. eapply Hskip; [|done]; done. }
  injection Hstep as <-. clear Hskip. unfold P. cbn [fst].
  assert (ss_pending s1 !! c_source_id c = None) as Hnp.
  { destruct (ss_pending s1 !! c_source_id c) eqn:E; [|done]. exfalso. apply Hfresh, Hpre. by rewrite E. }
  assert (k_activated (ss_continuation s1) !! c_source_id c = None) as Hna by (rewrite Hact; by apply not_elem_of_dom).
  split.
  - destruct Hok as [Hex Hw Hac Hp Hg Hcount Hent Hev]. core_simpl. split; try done.
    + intros id c' [[<- <-]|[_ Hl]]%lookup_insert_Some; [|by apply Hp]. rewrite Htimed. done.
    + intros id g [->|Hh]%held_insert_pending Hin; [|by apply Hg]. rewrite Hwin. by apply Hgr.
    + apply N.leb_gt in Hmax. unfold map_len in *. rewrite map_size_insert_None by done. unfold activated_count, map_len in Hmax.
      destruct Hfit. unfold sat_add, clamp in Hmax. case_match eqn:Hle; [|apply N.leb_gt in Hle; lia]. lia.
    + intros id [->|Hh]%held_insert_pending Hb; [|by apply Hent]. rewrite Htimed. eapply passed_entitled; [done..|].
      apply andb_false_iff in Hprob. rewrite !negb_false_iff in Hprob. done.
  - split; [done|]. split; [done|]. split; [done|]. intros id. cbn. rewrite lookup_insert_is_Some', fmap_app.
    intros [<-|Hid]; apply elem_of_app; [right; set_solver|left; by apply Hpre].
Qed.

(** A round keeps the invariant. *)
Lemma select_round_ok before s s' admitted :
  session_ok before s → ss_pending s = ∅ → select_round request s = Ok (s', admitted) →
  session_ok before s' ∧ ss_timed_valid s' = ss_timed_valid s.
Proof.
  intros Hs Hpend. unfold select_round. intros Hr.
  destruct (collect_candidates request s) as [[s1 cands]|] eqn:Hcol; [|done].
  apply collect_candidates_ok in Hcol as [Hcore1 Hc1].
  destruct (trim_candidates request _ cands) as [[s2 cands2]|] eqn:Htrim; [|done].
  apply (trim_candidates_ok (ss_timed_valid s)) in Htrim as [Hcore2 Hc2]; [|done].
  assert (core s2 = core s) as Hcore by (rewrite Hcore2; exact Hcore1). clear Hcore1 Hcore2.
  assert (session_ok before s2) as Hs2 by by apply (session_ok_core before s).
  unfold core in Hcore. injection Hcore as Ha2 _ _ _ Hp2 Ht2.
  destruct (try_fold (filter_candidate request) (s2, []) (values cands2)) as [[s3 el]|] eqn:Hfil; [|done].
  apply (filter_candidates_ok before) in Hfil as (Hs3 & Hp3 & Ht3 & Hsub & Hel); [|done|].
  2: { intros c (id & Hid)%elem_of_values. rewrite Ht2. pose proof (Hc2 id c Hid) as Hok. by rewrite (proj1 Hok). }
  destruct (resolve_groups request s3 el) as [s4 el4] eqn:Hres.
  apply (resolve_groups_ok before) in Hres as (Hs4 & Hp4 & Ht4 & Hd4 & Hsub4 & Hg4); [|done].
  apply (select_candidates_ok before) in Hr as [Hok Ht]; [|done|..].
  - split; [done|]. by rewrite Ht, Ht4, Ht3, Ht2.
  - by rewrite Hp4, Hp3, Hp2.
  - rewrite (sort_by_perm (candidate_order request) el4). eapply sublist_NoDup; [apply (NoDup_keys cands2)|].
    rewrite <-(candidate_ids _ _ Hc2). apply fmap_sublist. by etransitivity.
  - intros c Hc. rewrite elem_of_sort_by in Hc. rewrite Ht4, Hd4, Ht3. apply Hel. eapply elem_of_sublist; [|exact Hsub4]. done.
  - intros c g Hc. rewrite elem_of_sort_by in Hc. by apply Hg4.
Qed.

Lemma run_round_ok before s st s' outcome :
  session_ok before s → ss_pending s = ∅ → run_round request s st = Ok (s', outcome) →
  session_ok before s' ∧ ss_timed_valid s' = ss_timed_valid s.
Proof.
  intros Hs Hp. unfold run_round. intros Hr.
  destruct (select_round request _) as [[s1 adm]|] eqn:Hsel; [|done]. injection Hr as <- _.
  apply (select_round_ok before) in Hsel; [done| |done]. by apply (session_ok_core before s).
Qed.

(** *** Recursion and the rounds *)
Lemma core_add_recursion_fragment st id st' :
  add_recursion_fragment request st id = Ok st' → core st'.1 = core st.1.
Proof.
  destruct st as [s added]. unfold add_recursion_fragment. cbv zeta. intros Hs.
  repeat (case_match; simplify_eq/=; try done).
Qed.
Lemma core_expand_recursion s s' step : expand_recursion request s = Ok (s', step) → core s' = core s.
Proof.
  unfold expand_recursion. destruct (add_recursion_fragments request s) as [[s1 added]|] eqn:Hadd; [|done].
  assert (core s1 = core s) as Hcore.
  { unfold add_recursion_fragments in Hadd.
    assert (∀ l st st', try_fold (add_recursion_fragment request) st l = Ok st' → core st'.1 = core st.1) as Hfold.
    { induction l as [|id l IH]; intros st st' Hl; simpl in Hl; [by injection Hl as <-|].
      destruct (add_recursion_fragment request st id) as [st1|] eqn:H1st; [|done].
      rewrite (IH _ _ Hl). by eapply core_add_recursion_fragment. }
    by apply Hfold in Hadd. }
  intros Hs. repeat case_match; injection Hs as <- _; exact Hcore.
Qed.

Lemma some_round_ok before s st s' o :
  session_ok before s → ss_pending s = ∅ → some_round (run_round request s st) = Ok (s', o) →
  session_ok before s' ∧ ss_timed_valid s' = ss_timed_valid s.
Proof.
  unfold some_round. intros Hs Hp Hr. destruct (run_round request s st) as [[s1 outcome]|] eqn:H1'; [|done].
  injection Hr as <- _. by eapply run_round_ok.
Qed.

Lemma depth_loop_ok before s s' o :
  session_ok before s → ss_pending s = ∅ → depth_loop request s = Ok (s', o) →
  session_ok before s' ∧ ss_timed_valid s' = ss_timed_valid s.
Proof.
  intros Hs Hp. unfold depth_loop. case_match; [|intros [= <- _]; split; [by apply (session_ok_core before s)|done]].
  set (s1 := set_ss_continuation _ s). destruct (account_scan_fragments request s1) as [s2|] eqn:Hacc; [|done].
  apply core_account_scan in Hacc. assert (core s2 = core s) as Hcore by (rewrite Hacc; done). clear Hacc.
  intros Hr. eapply some_round_ok in Hr as [Hok Ht];
    [split; [exact Hok|]|apply (session_ok_core before s); [done|exact Hs]|]; unfold core in Hcore;
    injection Hcore as _ _ _ _ Hp2 Ht2; [by rewrite Ht|by cbn; rewrite Hp2].
Qed.

Theorem next_round_ok before s s' o :
  session_ok before s → next_round request s = Ok (s', o) →
  session_ok before s' ∧ ss_timed_valid s' = ss_timed_valid s.
Proof.
  intros Hs. unfold next_round. destruct (bool_decide (ss_pending s = ∅)) eqn:Hp; [|done].
  apply bool_decide_eq_true in Hp. simpl. destruct (ss_stage s).
  - destruct (account_scan_fragments request s) as [s2|] eqn:Hacc; [|done]. apply core_account_scan in Hacc.
    intros Hr. eapply some_round_ok in Hr as [Hok Ht];
      [split; [exact Hok|]|apply (session_ok_core before s); [done|exact Hs]|]; unfold core in Hacc;
      injection Hacc as _ _ _ _ Hp2 Ht2; [by rewrite Ht|by cbn; rewrite Hp2].
  - destruct (expand_recursion request s) as [[s2 step]|] eqn:Hexp; [|done]. apply core_expand_recursion in Hexp.
    assert (session_ok before s2) as Hs2 by by apply (session_ok_core before s).
    unfold core in Hexp. injection Hexp as _ _ _ _ Hp2 Ht2. rewrite <-Ht2. rewrite <-Hp2 in Hp.
    destruct step; intros Hr; (eapply depth_loop_ok in Hr || eapply some_round_ok in Hr); try done.
  - by apply depth_loop_ok.
  - destruct (expand_recursion request s) as [[s2 step]|] eqn:Hexp; [|done]. apply core_expand_recursion in Hexp.
    assert (session_ok before s2) as Hs2 by by apply (session_ok_core before s).
    unfold core in Hexp. injection Hexp as _ _ _ _ Hp2 Ht2. rewrite <-Ht2. rewrite <-Hp2 in Hp.
    destruct step; intros Hr; [eapply depth_loop_ok in Hr|eapply some_round_ok in Hr|]; try done. by simplify_eq.
  - by intros [= <- _].
Qed.

(** *** Bodies *)
Lemma held_delete active pending id id' :
  held active (delete id pending) id' → held active pending id'.
Proof. unfold held. rewrite lookup_delete_is_Some. naive_solver. Qed.

Lemma drop_pending_ok before s id :
  session_ok before s → session_ok before (set_ss_pending (delete id) s).
Proof.
  intros [Hex Hw Hact Hp Hg Hcount Hent Hev]. core_simpl. split; try done.
  - intros id' c [_ Hc]%lookup_delete_Some. by apply Hp.
  - intros id' g Hh%held_delete. by apply Hg.
  - unfold map_len in *. pose proof (map_size_delete (M:=gmap KnowledgeSourceId) id (ss_pending s)) as Hsz.
    destruct (ss_pending s !! id); simpl in Hsz; lia.
  - intros id' Hh%held_delete. by apply Hent.
Qed.

Lemma refuse_ok before mandatory id reason s s' :
  session_ok before s → refuse mandatory id reason s = Ok s' →
  session_ok before s' ∧ ss_timed_valid s' = ss_timed_valid s ∧ ss_pending s' = ss_pending s.
Proof.
  intros Hs. unfold refuse. destruct mandatory; [done|]. intros [= <-]. split; [by apply (session_ok_core before s)|done].
Qed.

Lemma validate_deliveries_ok kind ds :
  validate_deliveries kind ds = Ok tt → ∀ d, d ∈ ds → delivery_allowed kind d = true.
Proof.
  unfold validate_deliveries. destruct (existsb _ ds) eqn:Hex; [done|]. intros _ d Hd.
  destruct (delivery_allowed kind d) eqn:Hda; [done|]. exfalso. rewrite <-not_true_iff_false, existsb_exists in Hex.
  apply Hex. exists d. rewrite Hda. split; [by apply list_elem_of_In|done].
Qed.

Lemma admit_body_ok before s c body s' :
  session_ok before s → ss_pending s !! aeb_source_id body = Some c →
  admit_body request (set_ss_pending (delete (aeb_source_id body)) s) c body = Ok s' →
  session_ok before s' ∧ ss_timed_valid s' = ss_timed_valid s ∧ ss_pending s' = delete (aeb_source_id body) (ss_pending s).
Proof.
  intros Hs Hc. set (id := aeb_source_id body) in *. set (s1 := set_ss_pending _ s). unfold admit_body.
  assert (session_ok before s1) as Hs1 by by apply drop_pending_ok.
  fold id. destruct (meta_of request id) as [m|] eqn:Hm; [|done]. cbn [ok_or].
  match goal with |- (if ?b then _ else _) = _ → _ => destruct b; [done|] end.
  destruct (rl_max_single_entry_bytes lim <? _)%N; [by apply refuse_ok|].
  set (evidence := take _ _). set (evidence_bytes := sat_add USIZE_MAX _ _).
  destruct (rl_max_evidence_bytes lim <? evidence_bytes)%N eqn:Hevb; [by apply refuse_ok|].
  set (ds := sorted_deliveries _). destruct (validate_deliveries (meta_kind m) ds) as [[]|] eqn:Hv; [|done].
  destruct (admit_deliveries _ _ _ _ ds _) as [u|] eqn:Hadm; [|by apply refuse_ok].
  set (a := Build_ActivatedKnowledgeRef _ _ _ _ _ _ _). intros Hs'.
  assert (core s' = (<[id:=a]> (k_activated (ss_continuation s)), k_group_winners (ss_continuation s), evidence_bytes,
    u, delete id (ss_pending s), ss_timed_valid s)) as Hcore by (injection Hs' as <-; by destruct (c_sticky c)).
  clear Hs'. unfold session_ok. rewrite Hcore. unfold core in Hcore. injection Hcore as _ _ _ _ -> ->.
  split; [|done]. destruct Hs as [Hex Hw Hact Hp Hg Hcount Hent Hev].
  destruct (Hp id c Hc) as [_ Hna].
  assert (∀ id', held (<[id:=a]> (k_activated (ss_continuation s))) (delete id (ss_pending s)) id' →
    held (k_activated (ss_continuation s)) (ss_pending s) id') as Hheld.
  { intros id' [Hh|Hh]; [|left + right; rewrite lookup_delete_is_Some in Hh; by apply Hh].
    apply lookup_insert_is_Some' in Hh as [<-|Hh]; [right; by eexists|by left]. }
  destruct (admit_deliveries_spec lim (budget_class (meta_rule m)) (c_mandatory c) (aeb_token_cost body) ds (ss_budget s1) u)
    as (Hi & Ht & Hn & Hch & Hw'); [exact Hfit|apply NoDup_sorted_deliveries|exact Hw|exact Hadm|].
  split.
  - apply budget_exact_insert with (u := ss_budget s); done.
  - done.
  - intros id' a' [[<- <-]|[_ Hl]]%lookup_insert_Some; [|by apply Hact].
    split; [done|apply NoDup_sorted_deliveries|]. exists m. split; [done|]. by apply validate_deliveries_ok.
  - intros id' c' [Hne Hc']%lookup_delete_Some. destruct (Hp _ _ Hc') as [Hok Hna']. split; [done|].
    by rewrite lookup_insert_ne.
  - intros id' g Hh. apply Hg. by apply Hheld.
  - unfold map_len in *. rewrite map_size_insert_None by done.
    pose proof (map_size_delete (M:=gmap KnowledgeSourceId) id (ss_pending s)) as Hsz. rewrite Hc in Hsz. simpl in Hsz.
    assert (size (ss_pending s) ≠ 0) by (apply map_size_ne_0_lookup; eauto). lia.
  - intros id' Hh. apply Hent. by apply Hheld.
  - by apply N.ltb_ge in Hevb.
Qed.

Lemma supply_fold_ok before bodies s s' :
  session_ok before s → try_fold (supply_body request) s bodies = Ok s' →
  session_ok before s' ∧ ss_timed_valid s' = ss_timed_valid s.
Proof.
  revert s. induction bodies as [|body bodies IH]; intros s Hs Hf; cbn [try_fold] in Hf; [by injection Hf as <-|].
  unfold supply_body at 1 in Hf. destruct (ss_pending s !! aeb_source_id body) as [c|] eqn:Hc; [|done]. cbn [ok_or] in Hf.
  destruct (admit_body request _ c body) as [s1|] eqn:Hadm; [|done].
  destruct (admit_body_ok before s c body s1 Hs Hc Hadm) as (Hs1 & Ht1 & _).
  apply IH in Hf as [? Ht]; [|done]. split; [done|]. by rewrite Ht.
Qed.
Theorem supply_bodies_ok before s bodies s' :
  session_ok before s → supply_bodies request s bodies = Ok s' →
  session_ok before s' ∧ ss_timed_valid s' = ss_timed_valid s ∧ ss_pending s' = ∅.
Proof.
  intros Hs. unfold supply_bodies. destruct (try_fold _ s bodies) as [s1|] eqn:Hf; [|done].
  destruct (bool_decide (ss_pending s1 = ∅)) eqn:Hp; [|done]. intros [= <-].
  apply (supply_fold_ok before) in Hf as [? ?]; [|done]. by apply bool_decide_eq_true in Hp.
Qed.

Theorem drop_admitted_ok before s id s' :
  session_ok before s → drop_admitted s id = Ok s' →
  session_ok before s' ∧ ss_timed_valid s' = ss_timed_valid s ∧ ss_pending s' = delete id (ss_pending s).
Proof.
  intros Hs. unfold drop_admitted. case_match; [done|]. intros [= <-].
  split; [|done]. apply (session_ok_core before (set_ss_pending (delete id) s)); [done|]. by apply drop_pending_ok.
Qed.

(** *** The start and the end *)

(** A continuation that a session may resume. *)
Definition continuation_ok (k : ActivationContinuation) : Prop :=
  core_ok (dom (k_activated k)) (k_activated k) (k_group_winners k) (k_evidence_bytes k) {|
    bu_audience_items := k_audience_items k;
    bu_audience_tokens := k_audience_tokens k;
    bu_total_items := k_total_delivery_items k;
    bu_normal_tokens := k_normal_tokens k;
    bu_reserved_tokens := k_reserved_tokens k;
    bu_mandatory_tokens := k_mandatory_tokens k;
  |} ∅ ∅.
(** Moving the start line and the clock of the timed states. *)
Lemma core_ok_restart before active winners ev usage timed timed' :
  core_ok before active winners ev usage ∅ timed → core_ok (dom active) active winners ev usage ∅ timed'.
Proof.
  intros [Hex Hw Hact Hp Hg Hcount Hent Hev]. split; try done.
  intros id [Hh|[? Hh]]; [|done]. by intros []%not_elem_of_dom%eq_None_not_Some.
Qed.

Lemma budget_exact_default : charges_exact ∅ BudgetUsage_default.
Proof.
  split; intros; rewrite map_sum_empty; unfold items_of, tokens_of, charged, BudgetUsage_default;
    cbn [bu_audience_items bu_audience_tokens]; rewrite ?lookup_empty; done.
Qed.
Lemma budget_within_default : budget_within lim BudgetUsage_default.
Proof. split; unfold items_of, tokens_of, charged; cbn; intros; rewrite ?lookup_empty; simpl; lia. Qed.

Lemma new_continuation_ok : continuation_ok (new_continuation request).
Proof.
  split; [apply budget_exact_default|apply budget_within_default| | | | | |]; cbn.
  - intros id a Ha. simplify_map_eq.
  - intros id c Hc. simplify_map_eq.
  - intros id g [[? Hh]|[? Hh]]; simplify_map_eq.
  - unfold map_len. rewrite !map_size_empty. lia.
  - intros id [[? Hh]|[? Hh]]; simplify_map_eq.
  - lia.
Qed.

(** Recounting a continuation that delivered nothing. *)
Lemma recount_nothing l :
  (∀ a, a ∈ l → act_deliveries a = [] ∧ is_Some (meta_of request (act_source_id a))) →
  try_fold (recount request) BudgetUsage_default l = Ok BudgetUsage_default.
Proof.
  induction l as [|a l IH]; intros Hl; cbn [try_fold]; [done|].
  assert (recount request BudgetUsage_default a = Ok BudgetUsage_default) as ->; [|apply IH; set_solver].
  destruct (Hl a) as [Hd [m Hm]]; [set_solver|]. unfold recount. rewrite Hm, Hd. cbn [ok_or foldl].
  change (nlen []) with 0%N. unfold sat_mul. rewrite N.mul_0_r. by destruct (budget_class (meta_rule m)).
Qed.

Lemma map_sum_zero {K} `{Countable K} {V} (f : V → N) (m : gmap K V) k v :
  map_sum f m = 0%N → m !! k = Some v → f v = 0%N.
Proof. intros Hs Hk. rewrite (map_sum_delete f m k v Hk) in Hs. lia. Qed.

Lemma budget_usage_ok k u :
  continuation_ok k → budget_usage request k = Ok u →
  core_ok (dom (k_activated k)) (k_activated k) (k_group_winners k) (k_evidence_bytes k) u ∅ ∅.
Proof.
  intros Hk. unfold budget_usage. destruct (_ || _) eqn:Hb; [by intros [= <-]|].
  apply orb_false_iff in Hb as [Hz _]. apply N.ltb_ge in Hz.
  destruct Hk as [Hex Hw Hact Hp Hg Hcount Hent Hev]. pose proof (be_total _ _ Hex) as Htot. cbn in Htot.
  assert (k_total_delivery_items k = 0%N) as Hz' by lia. rewrite Hz' in Htot.
  assert (∀ id a, k_activated k !! id = Some a → act_deliveries a = []) as Hnil.
  { intros id a Ha. pose proof (map_sum_zero _ _ _ _ (eq_sym Htot) Ha) as Hl. cbn in Hl.
    destruct (act_deliveries a); [done|]. unfold nlen in Hl. simpl in Hl. lia. }
  rewrite recount_nothing; [|intros a [id Ha]%elem_of_values].
  2: { split; [by eapply Hnil|]. destruct (Hact id a Ha) as [-> _ (m & Hm & _)]. by eexists. }
  intros [= <-]. split; try done.
  - assert (∀ f : ActivatedKnowledgeRef → N, (∀ a, act_deliveries a = [] → f a = 0%N) → map_sum f (k_activated k) = 0%N) as Hzero.
    { intros f Hf. rewrite (map_sum_ext f (λ _, 0%N)) by (intros id a Ha; by eapply Hf, Hnil). clear.
      induction (k_activated k) as [|id a m Hid IH] using map_ind; [done|]. rewrite map_sum_insert; done. }
    split; intros; rewrite Hzero; try done; unfold delivers, cost_of; intros a ->; [done..|].
    change (nlen []) with 0%N. lia.
  - apply budget_within_default.
Qed.

Definition started_from : ActivationContinuation :=
  match req_continuation request with Some k => k | None => new_continuation request end.

Theorem start_ok s :
  (∀ k, req_continuation request = Some k → continuation_ok k) → start request = Ok s →
  session_ok (dom (k_activated started_from)) s ∧ ss_pending s = ∅.
Proof.
  intros Hk. unfold start. intros Hs.
  destruct (validate_request request); [|done].
  assert (continuation_ok started_from) as Hfrom.
  { unfold started_from. destruct (req_continuation request); [by apply Hk|apply new_continuation_ok]. }
  destruct (match req_continuation request with Some v => _ | None => _ end) as [k|] eqn:Hcont; [|done].
  assert (k = started_from) as ->.
  { unfold started_from. destruct (req_continuation request); [destruct (negb _); [done|]|]; by injection Hcont as <-. }
  destruct (timed_view request); [|done]. destruct (budget_usage request started_from) as [u|] eqn:Hu; [|done].
  injection Hs as <-. split; [|done]. core_simpl. eapply core_ok_restart. by apply budget_usage_ok.
Qed.

(** Ranks are outside the invariant. *)
Definition unranked : ActivatedKnowledgeRef → ActivatedKnowledgeRef := set_act_rank (λ _, 0%N).

Lemma unranked_alter (m : gmap KnowledgeSourceId ActivatedKnowledgeRef) id n : unranked <$> alter (set_act_rank (λ _, n)) id m = unranked <$> m.
Proof.
  apply map_eq. intros id'. rewrite !lookup_fmap. destruct (decide (id = id')) as [<-|Hne]; [|by rewrite lookup_alter_ne].
  rewrite lookup_alter_eq. by destruct (m !! id).
Qed.

Lemma core_ok_unranked before (m m' : gmap KnowledgeSourceId ActivatedKnowledgeRef) winners ev usage timed :
  unranked <$> m' = unranked <$> m →
  core_ok before m winners ev usage ∅ timed → core_ok before m' winners ev usage ∅ timed.
Proof.
  intros Heq [[Hi Ht Hn Hc] Hw Hact Hp Hg Hcount Hent Hev].
  assert (∀ f : ActivatedKnowledgeRef → N, (∀ a, f (unranked a) = f a) → map_sum f m = map_sum f m') as Hsum.
  { intros f Hf. rewrite <-(map_sum_ext (λ a, f (unranked a)) f m), <-(map_sum_ext (λ a, f (unranked a)) f m') by done.
    rewrite <-(map_sum_fmap unranked f m), <-(map_sum_fmap unranked f m'), Heq. done. }
  assert (∀ id a', m' !! id = Some a' → ∃ a, m !! id = Some a ∧ unranked a = unranked a') as Hlook.
  { intros id a' Ha'. assert ((unranked <$> m') !! id = (unranked <$> m) !! id) as Hid by by rewrite Heq.
    rewrite !lookup_fmap, Ha' in Hid. destruct (m !! id) as [a|]; [|done]. apply (inj Some) in Hid. exists a. split; [done|by symmetry]. }
  assert (∀ id, held m' ∅ id → held m ∅ id) as Hheld.
  { intros id [[a' Ha']|[? Hh]]; [|done]. destruct (Hlook id a' Ha') as (a & Ha & _). left. by exists a. }
  split; try done.
  - split; [intros d; rewrite Hi|intros d; rewrite Ht|rewrite Hn|rewrite Hc]; by apply Hsum.
  - intros id a' Ha'. destruct (Hlook id a' Ha') as (a & Ha & Hu). destruct (Hact id a Ha) as [Hid Hnd Hal].
    destruct a, a'. injection Hu as -> -> -> -> -> ->. done.
  - intros id g Hh. by apply Hg, Hheld.
  - unfold map_len in *. rewrite <-(map_size_fmap unranked), Heq, map_size_fmap. exact Hcount.
  - intros id Hh. by apply Hent, Hheld.
Qed.

Theorem finish_ok before s r :
  session_ok before s → finish request s = Ok r →
  continuation_ok (ar_continuation r) ∧
  (∀ id, held (k_activated (ar_continuation r)) ∅ id → id ∉ before → entitled (ss_timed_valid s) id).
Proof.
  intros Hs. unfold finish. destruct (bool_decide (ss_pending s = ∅)) eqn:Hp; [|done].
  apply bool_decide_eq_true in Hp. cbn [negb]. destruct (ranked_activated _) as [k activated] eqn:Hrank.
  intros [= <-]. cbn [ar_continuation]. unfold ranked_activated in Hrank.
  match type of Hrank with (set_k_activated ?f ?k0, _) = _ => set (rank := f) in Hrank; set (k1 := k0) in Hrank end.
  injection Hrank as <- _. assert (unranked <$> rank (k_activated k1) = unranked <$> k_activated k1) as Hu.
  { apply (foldl_inv (λ m, unranked <$> m = unranked <$> k_activated k1)); [done|]. intros m a _ Hm.
    by rewrite unranked_alter. }
  clearbody rank. unfold session_ok in Hs. cbn -[k1] in Hs. rewrite Hp in Hs.
  change (k_activated k1) with (k_activated (ss_continuation s)) in Hu.
  assert (core_ok before (rank (k_activated (ss_continuation s))) (k_group_winners (ss_continuation s))
    (k_evidence_bytes (ss_continuation s)) (ss_budget s) ∅ (ss_timed_valid s)) as Hok by by eapply core_ok_unranked.
  split; [|apply Hok]. apply (core_ok_restart _ _ _ _ _ _ ∅) in Hok. unfold continuation_ok. cbn.
  replace (Build_BudgetUsage _ _ _ _ _ _) with (ss_budget s) by (by destruct (ss_budget s)). exact Hok.
Qed.

End session.
