(* ===== verification/AiseCachesProofs.v ===== *)
(** * The caches of the activation are lists in the order of last use

    [AiseCaches]: the fragment cache and the pack index cache of
    [crates/aise/src/context/activation/] keep a hash map, a map from ticks to keys
    and running counts.  What they promise is stated on a plain list of keys and
    values, the one used longest ago first, and both are proved to implement it. *)

From S2P Require Import Prelude Text AiseIds AiseRule AiseNarrative AiseStory AiseTurnData AiseConfig.
From S2P Require Import AiseScan AiseActivation AiseCaches.

Lemma sat_add_fits max x y : (x + y ≤ max)%N → sat_add max x y = (x + y)%N.
Proof. apply clamp_small. Qed.
Lemma tick_next t : (t < U64_MAX)%N → sat_add U64_MAX t 1 = (t + 1)%N.
Proof. intros. apply sat_add_fits. lia. Qed.

Lemma N_ltb_negb x y : (x <? y)%N = negb (y <=? x)%N.
Proof. rewrite N.leb_antisym. by destruct (x <? y)%N. Qed.
Lemma List_filter_none {A} (p : A → bool) l : (∀ x, x ∈ l → p x = false) → List.filter p l = [].
Proof. induction l as [|x l IH]; intros Hp; simpl; [done|]. rewrite Hp by left. apply IH. intros. apply Hp. by right. Qed.

(** ** Rows in the order of their ticks *)

Section rows.
Context `{Countable K} {W : Type} (tick_of : W → N).

Definition without (k : K) (rows : list (K * W)) : list (K * W) :=
  List.filter (λ r, bool_decide (r.1 ≠ k)) rows.
Definition find_row (k : K) (rows : list (K * W)) : option W :=
  snd <$> List.find (λ r, bool_decide (r.1 = k)) rows.
Definition slot (r : K * W) : N * K := (tick_of r.2, r.1).

(** The hash map and the map of ticks hold these rows. *)
Record rows_in (rows : list (K * W)) (entries_ : gmap K W) (order : gmap N K) (tick : N) : Prop := {
  rows_keys : NoDup rows.*1;
  rows_sorted : StronglySorted N.lt (slot <$> rows).*1;
  rows_entries : entries_ = list_to_map rows;
  rows_order : order = list_to_map (slot <$> rows);
  rows_tick : Forall (λ r, (tick_of r.2 ≤ tick)%N) rows;
}.

Lemma sublist_Forall {A} (P : A → Prop) (l1 l2 : list A) : l1 `sublist_of` l2 → Forall P l2 → Forall P l1.
Proof.
  intros Hs. rewrite !Forall_forall. intros Hl x Hx. apply Hl. by eapply elem_of_sublist.
Qed.

Lemma rows_lookup rows e o t k : rows_in rows e o t → e !! k = find_row k rows.
Proof.
  intros [Hnd _ -> _ _]. unfold find_row. induction rows as [|[k' w] rows IH]; [done|].
  cbn [list_to_map foldr fst snd] in *. apply NoDup_cons in Hnd as [_ Hnd]. cbn.
  case_bool_decide as Hk; simpl.
  - subst. by rewrite lookup_insert_eq.
  - rewrite lookup_insert_ne by done. by apply IH.
Qed.

Lemma rows_values rows e o t : rows_in rows e o t → values o = rows.*1.
Proof.
  intros [_ Hs _ -> _]. unfold values. pose proof (sorted_NoDup _ _ N.lt_irrefl Hs) as Hnd.
  rewrite (entries_unique _ (slot <$> rows)).
  - by rewrite <-list_fmap_compose.
  - clear Hnd. induction rows as [|r rows IH]; simpl; constructor; inversion_clear Hs as [|?? Hs' Hall].
    + by apply IH.
    + rewrite !Forall_fmap in Hall. rewrite Forall_fmap. eapply Forall_impl; [exact Hall|].
      intros y Hy. unfold by_key, le_by, key_compare, N_key_ord. simpl in *.
      by rewrite (proj2 (N.compare_lt_iff _ _) Hy).
  - by apply (NoDup_fmap_1 fst).
  - intros k v. by rewrite <-elem_of_list_to_map.
Qed.

Lemma rows_size rows e o t : rows_in rows e o t → size e = length rows.
Proof.
  intros [Hnd _ -> _ _]. induction rows as [|[k w] rows IH]; [done|].
  cbn in *. apply NoDup_cons in Hnd as [Hk Hnd].
  rewrite map_size_insert_None by by apply not_elem_of_list_to_map_1. by rewrite IH.
Qed.

Lemma without_absent k rows : k ∉ rows.*1 → without k rows = rows.
Proof.
  induction rows as [|r rows IH]; [done|]. rewrite fmap_cons, not_elem_of_cons. intros [Hr Hk]. simpl.
  rewrite bool_decide_true by done. by rewrite IH.
Qed.
Lemma find_row_None k rows : find_row k rows = None → k ∉ rows.*1.
Proof.
  unfold find_row. induction rows as [|r rows IH]; [set_solver|]. simpl. case_bool_decide; [done|].
  intros Hf. rewrite not_elem_of_cons. split; [done|by apply IH].
Qed.
Lemma find_row_Some k rows w : find_row k rows = Some w → (k, w) ∈ rows.
Proof.
  unfold find_row. induction rows as [|[k' w'] rows IH]; [done|]. simpl. case_bool_decide; simpl.
  - intros [= ->]. subst. left.
  - intros Hf. right. by apply IH.
Qed.
Lemma without_not_in k rows : k ∉ (without k rows).*1.
Proof.
  intros (r & -> & Hr)%list_elem_of_fmap. apply elem_of_list_filter_bool in Hr as [_ Hr].
  by apply bool_decide_eq_true in Hr.
Qed.

Lemma rows_delete rows e o t k w :
  rows_in rows e o t → e !! k = Some w → rows_in (without k rows) (delete k e) (delete (tick_of w) o) t.
Proof.
  intros Hr Hk. rewrite (rows_lookup _ _ _ _ _ Hr) in Hk. destruct Hr as [Hnd Hs -> -> Ht].
  assert (Forall (λ r, (tick_of r.2 ≤ t)%N) (without k rows)) as Ht'.
  { eapply sublist_Forall; [apply sublist_list_filter|done]. }
  assert (without k rows `sublist_of` rows) as Hsub by apply sublist_list_filter.
  split; [by eapply sublist_NoDup; [|apply fmap_sublist]| | | |done]; clear Hsub Ht Ht'.
  - induction rows as [|r rows IH]; [done|]. simpl in *. inversion_clear Hs as [|?? Hs' Hall].
    apply NoDup_cons in Hnd as [Hk' Hnd]. unfold find_row in Hk. simpl in Hk.
    case_bool_decide as Hr; case_bool_decide as Hr'; try done.
    + simplify_eq/=. fold (without r.1 rows). by rewrite without_absent.
    + fold (without k rows). simpl. constructor; [by apply IH|].
      eapply sublist_Forall; [|exact Hall]. do 2 apply fmap_sublist. apply sublist_list_filter.
  - clear Hs. induction rows as [|r rows IH]; [done|]. apply NoDup_cons in Hnd as [Hk' Hnd].
    unfold find_row in Hk. simpl in Hk. simpl.
    case_bool_decide as Hr; case_bool_decide as Hr'; try done; fold (without k rows).
    + simplify_eq/=. rewrite delete_insert_eq. rewrite without_absent by done.
      by rewrite delete_id by by apply not_elem_of_list_to_map_1.
    + rewrite delete_insert_ne by done. rewrite IH by done. done.
  - induction rows as [|r rows IH]; [done|]. apply NoDup_cons in Hnd as [Hk' Hnd].
    unfold find_row in Hk. simpl in Hk. simpl in *. inversion_clear Hs as [|?? Hs' Hall].
    case_bool_decide as Hr; case_bool_decide as Hr'; try done; fold (without k rows).
    + simplify_eq/=. rewrite delete_insert_eq. rewrite without_absent by done.
      rewrite delete_id; [done|]. apply not_elem_of_list_to_map_1. intros Hin.
      rewrite Forall_forall in Hall. specialize (Hall _ Hin). lia.
    + trans (<[tick_of r.2:=r.1]> (delete (tick_of w) (list_to_map (slot <$> rows)) : gmap N K)); [|by rewrite IH].
      apply delete_insert_ne. intros Heq. apply find_row_Some in Hk. rewrite Forall_forall in Hall.
      assert (tick_of w ∈ (slot <$> rows).*1) as Hin.
      { rewrite <-list_fmap_compose. apply list_elem_of_fmap. by exists (k, w). }
      specialize (Hall _ Hin). simpl in Hall. lia.
Qed.

Lemma sorted_snoc l x : StronglySorted N.lt l → Forall (λ y, (y < x)%N) l → StronglySorted N.lt (l ++ [x]).
Proof.
  induction 1 as [|y l Hl IH Hall]; simpl; intros Hx; [repeat constructor|].
  apply Forall_cons in Hx as [Hy Hx]. constructor; [by apply IH|]. apply Forall_app. by repeat constructor.
Qed.

Lemma list_to_map_snoc {A B} `{Countable A} (l : list (A * B)) (a : A) (b : B) :
  a ∉ l.*1 → (list_to_map (l ++ [(a, b)]) : gmap A B) = <[a:=b]> (list_to_map l).
Proof.
  intros Ha. rewrite list_to_map_app. simpl. rewrite <-insert_union_r, map_union_empty by
    by apply not_elem_of_list_to_map_1. done.
Qed.

Lemma rows_push rows e o t k w :
  rows_in rows e o t → k ∉ rows.*1 → (t < tick_of w)%N →
  rows_in (rows ++ [(k, w)]) (<[k:=w]> e) (<[tick_of w:=k]> o) (tick_of w).
Proof.
  intros [Hnd Hs -> -> Ht] Hk Htw.
  assert (Forall (λ y, (y < tick_of w)%N) (slot <$> rows).*1) as Hlt.
  { rewrite !Forall_fmap. eapply Forall_impl; [exact Ht|]. simpl. intros; lia. }
  split.
  - rewrite fmap_app. apply NoDup_app. split; [done|]. split; [set_solver|]. apply NoDup_singleton.
  - rewrite !fmap_app. by apply sorted_snoc.
  - by rewrite list_to_map_snoc.
  - rewrite fmap_app. change (slot <$> [(k, w)]) with [(tick_of w, k)]. rewrite list_to_map_snoc; [done|].
    intros Hin. rewrite Forall_forall in Hlt. specialize (Hlt _ Hin). lia.
  - apply Forall_app. split; [|by repeat constructor]. eapply Forall_impl; [exact Ht|]. simpl. intros; lia.
Qed.

Lemma rows_tick_mono rows e o t t' : rows_in rows e o t → (t ≤ t')%N → rows_in rows e o t'.
Proof.
  intros [H1 H2 H3 H4 Ht] Hle. split; try done. eapply Forall_impl; [exact Ht|]. simpl. intros; lia.
Qed.

(** A [get]: the row is moved to the end with a new tick. *)
Lemma rows_touch rows e o t k w w' :
  rows_in rows e o t → e !! k = Some w → (t < tick_of w')%N →
  rows_in (without k rows ++ [(k, w')]) (<[k:=w']> e) (<[tick_of w':=k]> (delete (tick_of w) o)) (tick_of w').
Proof.
  intros Hr Hk Ht. rewrite <-insert_delete_eq. eapply rows_push; [by apply rows_delete|apply without_not_in|done].
Qed.
End rows.

(** ** What a cache promises *)

Section spec.
Context `{Countable K} {V : Type}.
Implicit Types l : list (K * V).

(** A value looked up is the one used last. *)
Definition lru_get (k : K) l : list (K * V) * option V :=
  match find_row k l with
  | None => (l, None)
  | Some v => (without k l ++ [(k, v)], Some v)
  end.
Definition lru_push (k : K) (v : V) l : list (K * V) := without k l ++ [(k, v)].
(** The rows used longest ago are dropped until those left are within the limits. *)
Fixpoint drop_until (ok : list (K * V) → bool) l : list (K * V) :=
  if ok l then l else match l with [] => [] | _ :: l' => drop_until ok l' end.
(** Of the rows whose key has [p], the [n] used longest ago are dropped. *)
Fixpoint drop_oldest (p : K → bool) (n : nat) l : list (K * V) :=
  match n, l with
  | O, _ => l
  | _, [] => []
  | S n', r :: l' => if p r.1 then drop_oldest p n' l' else r :: drop_oldest p n l'
  end.
Definition total_bytes (bytes : V → N) l : N := foldr (λ r n, bytes r.2 + n)%N 0%N l.
Definition count_keys (p : K → bool) l : nat := length (List.filter (λ r, p r.1) l).

Lemma total_bytes_perm bytes l l' : l ≡ₚ l' → total_bytes bytes l = total_bytes bytes l'.
Proof. induction 1; simpl; lia. Qed.
Lemma count_keys_perm p l l' : l ≡ₚ l' → count_keys p l = count_keys p l'.
Proof. unfold count_keys. induction 1; simpl; repeat case_match; simpl in *; lia. Qed.
Lemma total_bytes_cons bytes r l : total_bytes bytes (r :: l) = (bytes r.2 + total_bytes bytes l)%N.
Proof. done. Qed.
Lemma count_keys_cons p r l : count_keys p (r :: l) = (if p r.1 then 1 else 0) + count_keys p l.
Proof. unfold count_keys. simpl. by destruct (p r.1). Qed.
Lemma total_bytes_app bytes l l' : total_bytes bytes (l ++ l') = (total_bytes bytes l + total_bytes bytes l')%N.
Proof. induction l as [|r l IH]; simpl; [done|]. rewrite IH. lia. Qed.
Lemma count_keys_app p l l' : count_keys p (l ++ l') = count_keys p l + count_keys p l'.
Proof. unfold count_keys. rewrite List.filter_app, length_app. done. Qed.
Lemma total_bytes_sublist bytes l l' : l `sublist_of` l' → (total_bytes bytes l ≤ total_bytes bytes l')%N.
Proof. induction 1; simpl; lia. Qed.
Lemma count_keys_sublist p l l' : l `sublist_of` l' → count_keys p l ≤ count_keys p l'.
Proof. unfold count_keys. induction 1; simpl; repeat case_match; simpl in *; lia. Qed.

Lemma without_perm k l v : NoDup l.*1 → find_row k l = Some v → l ≡ₚ (k, v) :: without k l.
Proof.
  unfold find_row. induction l as [|[k' v'] l IH]; [done|]. cbn [List.find].
  rewrite fmap_cons, NoDup_cons. intros [Hk' Hnd]. simpl.
  case_bool_decide as Hk; simpl.
  - intros [= ->]. subst k'. rewrite bool_decide_false by naive_solver. fold (without k l). by rewrite without_absent.
  - intros Hf. rewrite bool_decide_true by done. fold (without k l). rewrite (IH Hnd Hf) at 1. apply Permutation_swap.
Qed.
Lemma lru_get_perm k l : NoDup l.*1 → (lru_get k l).1 ≡ₚ l.
Proof.
  intros Hnd. unfold lru_get. destruct (find_row k l) as [v|] eqn:Hf; [|done]. simpl.
  rewrite (without_perm _ _ _ Hnd Hf) at 2. by rewrite Permutation_app_comm.
Qed.

Lemma without_middle k (v : V) (l1 l2 : list (K * V)) :
  NoDup (l1 ++ (k, v) :: l2).*1 → without k (l1 ++ (k, v) :: l2) = l1 ++ l2.
Proof.
  rewrite fmap_app. simpl. intros (H1 & H2 & (H3 & H4)%NoDup_cons)%NoDup_app. unfold without.
  rewrite List.filter_app. cbn [List.filter fst]. rewrite (bool_decide_false (k ≠ k)) by naive_solver.
  fold (without k l1) (without k l2). rewrite !without_absent; [done|done|]. intros Hin. apply (H2 _ Hin). left.
Qed.

Lemma drop_until_sublist ok l : drop_until ok l `sublist_of` l.
Proof.
  induction l as [|r l IH]; cbn [drop_until]; case_match; try done. by apply sublist_cons.
Qed.
Lemma drop_until_ok ok l : ok [] = true → ok (drop_until ok l) = true.
Proof. intros Hnil. induction l as [|r l IH]; cbn [drop_until]; [by rewrite Hnil|]. by destruct (ok (r :: l)) eqn:?. Qed.
Lemma drop_oldest_sublist p n l : drop_oldest p n l `sublist_of` l.
Proof.
  revert n. induction l as [|r l IH]; intros [|n]; cbn [drop_oldest]; try done. case_match; [by apply sublist_cons|].
  by apply sublist_skip.
Qed.
Lemma count_drop_oldest p n l : count_keys p (drop_oldest p n l) = count_keys p l - n.
Proof.
  unfold count_keys. revert n. induction l as [|r l IH]; intros [|n]; simpl; try lia.
  destruct (p r.1) eqn:Hp; simpl; [rewrite IH; lia|]. rewrite Hp, IH. done.
Qed.
Lemma drop_oldest_pre p n l l' :
  Forall (λ r, p r.1 = false) l → drop_oldest p n (l ++ l') = l ++ drop_oldest p n l'.
Proof.
  induction 1 as [|r l Hr Hl IH]; [done|]. destruct n as [|n]; [by destruct l'|]. cbn [app drop_oldest]. rewrite Hr.
  by rewrite IH.
Qed.
Lemma drop_oldest_none p l : drop_oldest p 0 l = l.
Proof. by destruct l. Qed.
End spec.

(** ** The fragment cache *)

Section fragment_cache.
Context `{Layout}.
Implicit Types l : list (FragmentMatchCacheKey * list FragmentPatternMatch).

Definition of_story (story : StoryId) (k : FragmentMatchCacheKey) : bool := bool_decide (partition_key k = story).
Definition cached_stories l : gset StoryId := list_to_set (partition_key <$> l.*1).
Definition cached_bytes l : N := total_bytes estimate_match_bytes l.

Definition fragment_fits (limits : FragmentMatchCacheLimits) l : bool :=
  (N.of_nat (size (cached_stories l)) <=? acache_max_cached_stories limits)%N
  && (cached_bytes l <=? acache_max_total_estimated_bytes limits)%N.

(** A value that is too large is not kept; else it is the one used last, and the
    oldest ones of its story, then of all, make room. *)
Definition fragment_spec_insert (limits : FragmentMatchCacheLimits) (k : FragmentMatchCacheKey)
    (v : list FragmentPatternMatch) l :=
  if (acache_max_matches_per_fragment limits <? nlen v)%N
     || (acache_max_evidence_bytes_per_fragment limits <? estimate_match_bytes v)%N
     || (acache_max_total_estimated_bytes limits <? estimate_match_bytes v)%N then l
  else
    let l := lru_push k v l in
    let p := of_story (partition_key k) in
    drop_until (fragment_fits limits)
      (drop_oldest p (count_keys p l - N.to_nat (acache_max_fragments_per_story limits)) l).

Definition row_value (r : FragmentMatchCacheKey * FragmentMatchCacheEntry) : FragmentMatchCacheKey * list FragmentPatternMatch :=
  (r.1, fe_value r.2).
Record fragment_cache_rep (s : LruFragmentMatchState) l : Prop := {
  fr_rows : ∃ rows, rows_in fe_tick rows (lf_entries s) (lf_order s) (lf_tick s)
    ∧ Forall (λ r, fe_estimated_bytes r.2 = estimate_match_bytes (fe_value r.2)) rows
    ∧ l = row_value <$> rows;
  fr_bytes : lf_total_estimated_bytes s = cached_bytes l;
  fr_stories : ∀ story, lf_per_partition s !! story =
    (if decide (count_keys (of_story story) l = 0) then None else Some (N.of_nat (count_keys (of_story story) l)));
}.

Lemma row_value_keys rows : (row_value <$> rows).*1 = rows.*1.
Proof. by rewrite <-list_fmap_compose. Qed.
Lemma row_value_without k rows : row_value <$> without k rows = without k (row_value <$> rows).
Proof. induction rows as [|r rows IH]; simpl; [done|]. case_bool_decide; simpl; by f_equal. Qed.
Lemma row_value_find k rows : find_row k (row_value <$> rows) = fe_value <$> find_row k rows.
Proof. unfold find_row. induction rows as [|r rows IH]; simpl; [done|]. by case_bool_decide. Qed.

Lemma fr_nodup s l : fragment_cache_rep s l → NoDup l.*1.
Proof. intros [(rows & Hr & _ & ->) _ _]. rewrite row_value_keys. apply Hr. Qed.
Lemma fr_values s l : fragment_cache_rep s l → values (lf_order s) = l.*1.
Proof. intros [(rows & Hr & _ & ->) _ _]. rewrite row_value_keys. eapply rows_values, Hr. Qed.
Lemma fr_size s l : fragment_cache_rep s l → size (lf_entries s) = length l.
Proof. intros [(rows & Hr & _ & ->) _ _]. rewrite length_fmap. eapply rows_size, Hr. Qed.
Lemma fr_count s l story : fragment_cache_rep s l →
  default 0%N (lf_per_partition s !! story) = N.of_nat (count_keys (of_story story) l).
Proof. intros Hr. rewrite (fr_stories _ _ Hr). case_decide as Hc; [by rewrite Hc|done]. Qed.
Lemma fr_dom s l : fragment_cache_rep s l → map_len (lf_per_partition s) = N.of_nat (size (cached_stories l)).
Proof.
  intros Hr. unfold map_len. rewrite <-size_dom. do 2 f_equal. apply set_eq. intros story.
  rewrite elem_of_dom, (fr_stories _ _ Hr). unfold cached_stories.
  rewrite elem_of_list_to_set, list_elem_of_fmap. unfold count_keys. case_decide as Hc.
  - split; [by intros []|]. intros (k & Hk & (r & -> & Hin)%list_elem_of_fmap). exfalso.
    assert (r ∈ List.filter (λ r, of_story story r.1) l) as Hf.
    { apply elem_of_list_filter_bool. split; [done|]. by apply bool_decide_eq_true. }
    apply length_zero_iff_nil in Hc. rewrite Hc in Hf. set_solver.
  - split; [|by eexists]. intros _.
    destruct (List.filter (λ r, of_story story r.1) l) as [|r l'] eqn:Hf; [done|].
    assert (r ∈ List.filter (λ r, of_story story r.1) l) as Hin by (rewrite Hf; left).
    apply elem_of_list_filter_bool in Hin as [Hin Hp]. apply bool_decide_eq_true in Hp.
    exists r.1. split; [done|]. by apply list_elem_of_fmap_2.
Qed.

Lemma fr_get key s l s' v :
  fragment_cache_rep s l → (lf_tick s < U64_MAX)%N → fragment_cache_get key s = (s', v) →
  v = (lru_get key l).2 ∧ fragment_cache_rep s' (lru_get key l).1 ∧ lf_tick s' = (lf_tick s + 1)%N.
Proof.
  intros Hr Ht. pose proof (fr_nodup _ _ Hr) as Hnd.
  pose proof (tick_next _ Ht) as Hadd.
  pose proof Hr as [(rows & Hrows & Hest & ->) Hb Hp]. unfold fragment_cache_get, lru_get. rewrite Hadd.
  rewrite row_value_find, <-(rows_lookup _ _ _ _ _ key Hrows).
  destruct (lf_entries s !! key) as [entry|] eqn:Hk; intros [= <- <-]; simpl.
  - split; [done|]. split; [|done].
    assert (find_row key (row_value <$> rows) = Some (fe_value entry)) as Hf.
    { by rewrite row_value_find, <-(rows_lookup _ _ _ _ _ key Hrows), Hk. }
    pose proof (lru_get_perm key _ Hnd) as Hperm. unfold lru_get in Hperm. rewrite Hf in Hperm. simpl in Hperm.
    rewrite (rows_lookup _ _ _ _ _ key Hrows) in Hk. apply find_row_Some in Hk as Hin.
    rewrite <-(rows_lookup _ _ _ _ _ key Hrows) in Hk.
    split; simpl.
    + exists (without key rows ++ [(key, {| fe_tick := lf_tick s + 1; fe_value := fe_value entry;
        fe_estimated_bytes := fe_estimated_bytes entry |})]). split; [|split].
      * eapply (rows_touch fe_tick); [done|done|simpl; lia].
      * apply Forall_app. split.
        -- eapply sublist_Forall; [apply sublist_list_filter|done].
        -- repeat constructor. simpl. rewrite Forall_forall in Hest. apply (Hest _ Hin).
      * by rewrite fmap_app, row_value_without.
    + rewrite Hb. symmetry. by apply total_bytes_perm.
    + intros story. rewrite (count_keys_perm _ _ _ Hperm). apply Hp.
  - split; [done|]. split; [|done]. split; [|done|done]. exists rows. split; [|done].
    eapply rows_tick_mono; [done|simpl; lia].
Qed.
Lemma fr_remove key ev s l : fragment_cache_rep s l →
  fragment_cache_rep (remove_key key ev s) (without key l) ∧ lf_tick (remove_key key ev s) = lf_tick s.
Proof.
  intros Hr. pose proof (fr_nodup _ _ Hr) as Hnd.
  pose proof Hr as [(rows & Hrows & Hest & ->) Hb Hp]. unfold remove_key.
  destruct (lf_entries s !! key) as [entry|] eqn:Hk; simpl; rewrite (rows_lookup _ _ _ _ _ key Hrows) in Hk.
  - split; [|done].
    assert (find_row key (row_value <$> rows) = Some (fe_value entry)) as Hf by by rewrite row_value_find, Hk.
    pose proof (without_perm _ _ _ Hnd Hf) as Hperm. apply find_row_Some in Hk as Hin.
    assert (fe_estimated_bytes entry = estimate_match_bytes (fe_value entry)) as He.
    { rewrite Forall_forall in Hest. apply (Hest _ Hin). }
    split; simpl.
    + exists (without key rows). split; [|split].
      * eapply rows_delete; [done|]. by rewrite (rows_lookup _ _ _ _ _ key Hrows).
      * eapply sublist_Forall; [apply sublist_list_filter|done].
      * by rewrite row_value_without.
    + rewrite Hb, He. unfold cached_bytes. rewrite (total_bytes_perm _ _ _ Hperm), total_bytes_cons. unfold sat_sub. cbn [snd]. lia.
    + intros story. unfold decrement_partition. rewrite (Hp (partition_key key)).
      pose proof (count_keys_perm (of_story story) _ _ Hperm) as Hs.
      pose proof (count_keys_perm (of_story (partition_key key)) _ _ Hperm) as Hc.
      rewrite count_keys_cons in Hc, Hs. cbn [fst] in Hc, Hs.
      replace (of_story (partition_key key) key) with true in Hc by (symmetry; by apply bool_decide_eq_true).
      rewrite Hc, decide_False by done. unfold sat_sub.
      set (n := count_keys (of_story (partition_key key)) (without key (row_value <$> rows))) in *.
      replace (N.of_nat (1 + n) - 1)%N with (N.of_nat n) by lia.
      destruct (decide (partition_key key = story)) as [<-|Hne].
      * fold n. destruct (N.eqb_spec (N.of_nat n) 0) as [Hn|Hn];
          [rewrite lookup_delete_eq, decide_True by lia|rewrite lookup_insert_eq, decide_False by lia]; done.
      * replace (of_story story key) with false in Hs by (symmetry; by apply bool_decide_eq_false).
        rewrite Nat.add_0_l in Hs. rewrite <-Hs.
        case_match; [rewrite lookup_delete_ne by done|rewrite lookup_insert_ne by done]; apply Hp.
  - split; [|done]. rewrite without_absent; [done|]. apply find_row_None. by rewrite row_value_find, Hk.
Qed.

Lemma fr_push key v s l :
  fragment_cache_rep s l → key ∉ l.*1 → (lf_tick s < U64_MAX)%N →
  (cached_bytes l + estimate_match_bytes v ≤ USIZE_MAX)%N →
  fragment_cache_rep {|
      lf_entries := <[key := {| fe_tick := lf_tick s + 1; fe_value := v; fe_estimated_bytes := estimate_match_bytes v |}]>
                      (lf_entries s);
      lf_order := <[(lf_tick s + 1)%N := key]> (lf_order s);
      lf_per_partition := <[partition_key key := (default 0 (lf_per_partition s !! partition_key key) + 1)%N]>
                            (lf_per_partition s);
      lf_total_estimated_bytes := sat_add USIZE_MAX (lf_total_estimated_bytes s) (estimate_match_bytes v);
      lf_tick := lf_tick s + 1;
      lf_stats := lf_stats s |} (l ++ [(key, v)]).
Proof.
  intros Hr Hk Ht Hmax. pose proof (fr_count _ _ (partition_key key) Hr) as Hc.
  destruct Hr as [(rows & Hrows & Hest & ->) Hb Hp]. split; cbn [lf_entries lf_order lf_tick lf_total_estimated_bytes lf_per_partition].
  - exists (rows ++ [(key, {| fe_tick := lf_tick s + 1; fe_value := v; fe_estimated_bytes := estimate_match_bytes v |})]).
    split; [|split].
    + eapply (rows_push fe_tick); [done| |simpl; lia]. by rewrite row_value_keys in Hk.
    + apply Forall_app. by repeat constructor.
    + by rewrite fmap_app.
  - unfold cached_bytes in *. rewrite Hb, sat_add_fits by done. rewrite total_bytes_app. simpl. lia.
  - intros story. rewrite Hc, count_keys_app, count_keys_cons. cbn [fst].
    destruct (decide (partition_key key = story)) as [<-|Hne].
    + replace (of_story (partition_key key) key) with true by (symmetry; by apply bool_decide_eq_true).
      rewrite lookup_insert_eq, decide_False by lia. f_equal. change (count_keys _ []) with 0. lia.
    + replace (of_story story key) with false by (symmetry; by apply bool_decide_eq_false).
      rewrite lookup_insert_ne by done. change (count_keys _ []) with 0. rewrite !Nat.add_0_r. apply Hp.
Qed.

Lemma fr_enforce_partition fuel story max s l :
  fragment_cache_rep s l → length l ≤ fuel →
  fragment_cache_rep (enforce_partition_limit fuel story max s)
    (drop_oldest (of_story story) (count_keys (of_story story) l - N.to_nat max) l)
  ∧ lf_tick (enforce_partition_limit fuel story max s) = lf_tick s.
Proof.
  revert s l. induction fuel as [|fuel IH]; intros s l Hr Hlen; cbn [enforce_partition_limit];
    rewrite (fr_count _ _ _ Hr); destruct (N.ltb_spec max (N.of_nat (count_keys (of_story story) l))) as [Hc|Hc].
  2,4: replace (count_keys (of_story story) l - N.to_nat max) with 0 by lia; by rewrite drop_oldest_none.
  { apply Nat.le_0_r, length_zero_iff_nil in Hlen as ->. cbv in Hc. by destruct max. }
  rewrite (fr_values _ _ Hr).
  destruct (list_find (λ key, partition_key key = story) l.*1) as [[i key]|] eqn:Hf; simpl.
  - apply list_find_Some in Hf as (Hi & Hp & Hfirst). rewrite list_lookup_fmap in Hi.
    destruct (l !! i) as [[k v]|] eqn:Hli; simplify_eq/=.
    pose proof (fr_nodup _ _ Hr) as Hnd. destruct (fr_remove key true s l Hr) as [Hr' Ht'].
    pose proof (take_drop_middle _ _ _ Hli) as Hl. rewrite <-Hl in Hnd, Hlen, Hr', Hc |- *.
    rewrite without_middle in Hr' by done.
    rewrite count_keys_app, count_keys_cons in *. cbn [fst] in *.
    replace (of_story (partition_key key) key) with true in * by (symmetry; by apply bool_decide_eq_true).
    destruct (IH _ _ Hr') as [Hr2 Ht2]; [rewrite !length_app in *; simpl in *; lia|]. split; [|by rewrite Ht2].
    assert (Forall (λ r, of_story (partition_key key) r.1 = false) (take i l)) as Hpre.
    { apply Forall_forall. intros r Hr3. apply list_elem_of_lookup in Hr3 as [j Hj].
      apply bool_decide_eq_false. apply lookup_take_Some in Hj as [Hj Hlt].
      apply (Hfirst j); [|done]. by rewrite list_lookup_fmap, Hj. }
    rewrite drop_oldest_pre in Hr2 |- * by done. rewrite count_keys_app in Hr2.
    replace (count_keys (of_story (partition_key key)) (take i l) + (1 + count_keys (of_story (partition_key key)) (drop (S i) l))
      - N.to_nat max) with (S (count_keys (of_story (partition_key key)) (take i l) +
        count_keys (of_story (partition_key key)) (drop (S i) l) - N.to_nat max)) by lia.
    cbn [drop_oldest fst].
    by replace (of_story (partition_key key) key) with true by (symmetry; by apply bool_decide_eq_true).
  - exfalso. apply list_find_None in Hf. rewrite Forall_fmap in Hf.
    assert (count_keys (of_story story) l = 0) as H0; [|lia].
    unfold count_keys. rewrite List_filter_none; [done|]. intros r Hin. apply bool_decide_eq_false.
    rewrite Forall_forall in Hf. by apply (Hf r).
Qed.

Lemma fr_enforce_global fuel limits s l :
  fragment_cache_rep s l → length l ≤ fuel →
  let s' := enforce_global_limits fuel (acache_max_cached_stories limits) (acache_max_total_estimated_bytes limits) s in
  fragment_cache_rep s' (drop_until (fragment_fits limits) l) ∧ lf_tick s' = lf_tick s.
Proof.
  revert s l. induction fuel as [|fuel IH]; intros s l Hr Hlen; cbn [enforce_global_limits];
    rewrite (fr_dom _ _ Hr), (fr_bytes _ _ Hr), N_ltb_negb, N_ltb_negb, <-negb_andb; fold (fragment_fits limits l);
    destruct (fragment_fits limits l) eqn:Hfit; simpl.
  1,3: destruct l; simpl; by rewrite Hfit.
  - apply Nat.le_0_r, length_zero_iff_nil in Hlen as ->. simpl. by rewrite Hfit.
  - rewrite (fr_values _ _ Hr). destruct l as [|[key v] l]; [by simpl; rewrite Hfit|]. cbn [head fmap list_fmap fst].
    pose proof (fr_nodup _ _ Hr) as Hnd. destruct (fr_remove key true _ _ Hr) as [Hr' Ht'].
    rewrite (without_middle key v [] l) in Hr' by done.
    destruct (IH _ _ Hr') as [Hr2 Ht2]; [simpl in *; lia|]. cbn [drop_until]. rewrite Hfit. split; [done|].
    by rewrite Ht2.
Qed.

Lemma fr_insert limits key v s l :
  fragment_cache_rep s l → (lf_tick s < U64_MAX)%N → (cached_bytes l ≤ acache_max_total_estimated_bytes limits)%N →
  (2 * acache_max_total_estimated_bytes limits ≤ USIZE_MAX)%N →
  fragment_cache_rep (fragment_cache_insert limits key v s) (fragment_spec_insert limits key v l)
  ∧ (lf_tick (fragment_cache_insert limits key v s) ≤ lf_tick s + 1)%N.
Proof.
  intros Hr Ht Hb Hmax. unfold fragment_cache_insert, fragment_spec_insert, lru_push.
  destruct (_ || _) eqn:Hlarge.
  - split; [by destruct Hr|simpl; lia].
  - apply orb_false_iff in Hlarge as [_ Hlarge]. apply N.ltb_ge in Hlarge.
    destruct (fr_remove key false s l Hr) as [Hr1 Ht1].
    assert (cached_bytes (without key l) ≤ cached_bytes l)%N as Hb1.
    { apply total_bytes_sublist, sublist_list_filter. }
    apply (fr_push key v) in Hr1; [|apply without_not_in|by rewrite Ht1|lia].
    rewrite (tick_next (lf_tick _)) by by rewrite Ht1.
    destruct (fr_enforce_partition _ (partition_key key) (acache_max_fragments_per_story limits) _ _ Hr1 (reflexivity _))
      as [Hr2 Ht2].
    destruct (fr_enforce_global _ limits _ _ Hr2 (reflexivity _)) as [Hr3 Ht3].
    rewrite (fr_size _ _ Hr1), (fr_size _ _ Hr2). split; [exact Hr3|].
    rewrite Ht3, Ht2. simpl. rewrite Ht1. lia.
Qed.

(** The limits of the cache, on the rows it holds. *)
Record within_cache_limits (limits : FragmentMatchCacheLimits) l : Prop := {
  wc_fits : fragment_fits limits l = true;
  wc_story : ∀ story, count_keys (of_story story) l ≤ N.to_nat (acache_max_fragments_per_story limits);
}.
Lemma within_empty limits : within_cache_limits limits [].
Proof. split; [|intros; cbn; lia]. unfold fragment_fits. apply andb_true_iff; split; apply N.leb_le, N.le_0_l. Qed.
Lemma within_perm limits l l' : l ≡ₚ l' → within_cache_limits limits l → within_cache_limits limits l'.
Proof.
  intros Hp [H1 H2]. split.
  - unfold fragment_fits, cached_stories, cached_bytes in *. by rewrite <-(total_bytes_perm _ _ _ Hp), <-Hp.
  - intros story. by rewrite <-(count_keys_perm _ _ _ Hp).
Qed.
Lemma within_get limits key l : NoDup l.*1 → within_cache_limits limits l → within_cache_limits limits (lru_get key l).1.
Proof. intros Hnd. apply within_perm. symmetry. by apply lru_get_perm. Qed.
Lemma within_insert limits key v l :
  within_cache_limits limits l → within_cache_limits limits (fragment_spec_insert limits key v l).
Proof.
  intros Hw. unfold fragment_spec_insert. case_match; [done|]. split.
  - apply drop_until_ok. apply (wc_fits _ _ (within_empty limits)).
  - intros story. etrans; [apply count_keys_sublist, drop_until_sublist|].
    destruct (decide (partition_key key = story)) as [<-|Hne]; [rewrite count_drop_oldest; lia|].
    etrans; [apply count_keys_sublist, drop_oldest_sublist|]. unfold lru_push.
    rewrite count_keys_app, count_keys_cons. cbn [fst].
    replace (of_story story key) with false by (symmetry; by apply bool_decide_eq_false).
    etrans; [|apply (wc_story _ _ Hw story)]. change (count_keys (of_story story) []) with 0.
    pose proof (count_keys_sublist (of_story story) _ _ (sublist_list_filter (λ r, bool_decide (r.1 ≠ key)) l)) as Hs.
    unfold without. lia.
Qed.

(** A run of the cache: what each lookup answers. *)
Inductive FragmentCacheOp :=
| CacheGet (key : FragmentMatchCacheKey)
| CacheInsert (key : FragmentMatchCacheKey) (value : list FragmentPatternMatch).

Fixpoint cache_run (limits : FragmentMatchCacheLimits) (ops : list FragmentCacheOp) (s : LruFragmentMatchState) :
    LruFragmentMatchState * list (option (list FragmentPatternMatch)) :=
  match ops with
  | [] => (s, [])
  | CacheGet key :: ops => let '(s, v) := fragment_cache_get key s in let '(s, vs) := cache_run limits ops s in (s, v :: vs)
  | CacheInsert key v :: ops => cache_run limits ops (fragment_cache_insert limits key v s)
  end.
Fixpoint cache_spec_run (limits : FragmentMatchCacheLimits) (ops : list FragmentCacheOp) l :
    list (FragmentMatchCacheKey * list FragmentPatternMatch) * list (option (list FragmentPatternMatch)) :=
  match ops with
  | [] => (l, [])
  | CacheGet key :: ops => let '(l, v) := lru_get key l in let '(l, vs) := cache_spec_run limits ops l in (l, v :: vs)
  | CacheInsert key v :: ops => cache_spec_run limits ops (fragment_spec_insert limits key v l)
  end.

Lemma cache_run_refines limits ops s l :
  fragment_cache_rep s l → within_cache_limits limits l → (lf_tick s + nlen ops ≤ U64_MAX)%N →
  (2 * acache_max_total_estimated_bytes limits ≤ USIZE_MAX)%N →
  (cache_run limits ops s).2 = (cache_spec_run limits ops l).2
  ∧ fragment_cache_rep (cache_run limits ops s).1 (cache_spec_run limits ops l).1
  ∧ within_cache_limits limits (cache_spec_run limits ops l).1.
Proof.
  unfold nlen. revert s l. induction ops as [|[key|key v] ops IH]; intros s l Hr Hw Ht Hmax; [done| |]; simpl.
  - destruct (fragment_cache_get key s) as [s' v] eqn:Hg.
    destruct (fr_get key s l s' v Hr) as (-> & Hr' & Ht'); [simpl in Ht; lia|done|].
    pose proof (within_get limits key l (fr_nodup _ _ Hr) Hw) as Hw'.
    destruct (lru_get key l) as [l' v]. cbn [fst snd] in *.
    destruct (IH _ _ Hr' Hw') as (H1 & H2 & H3); [simpl in Ht; lia|done|].
    destruct (cache_run limits ops s'), (cache_spec_run limits ops l'). simpl in *. by rewrite H1.
  - destruct (fr_insert limits key v s l Hr) as [Hr' Ht'];
      [simpl in Ht; lia| |done|].
    { pose proof (wc_fits _ _ Hw) as Hf. apply andb_true_iff in Hf as [_ Hf]. by apply N.leb_le in Hf. }
    apply IH; [done|by apply within_insert|simpl in Ht; lia|done].
Qed.

(** C24: The cache of fragment matches is a list of its entries in the order of their
    last use: over any run of lookups and insertions shorter than the range of its
    clock, each lookup answers what the list answers (a value kept is moved to the
    end, a value too large is not kept, the entries used longest ago of the story and
    then of all make room), and the cache holds no more stories, no more fragments of
    a story and no more bytes than its limits. *)
Theorem fragment_cache_refines limits ops :
  (nlen ops ≤ U64_MAX)%N → (2 * acache_max_total_estimated_bytes limits ≤ USIZE_MAX)%N →
  let '(s, answers) := cache_run limits ops LruFragmentMatchState_new in
  let '(l, spec_answers) := cache_spec_run limits ops [] in
  answers = spec_answers ∧ fragment_cache_rep s l
  ∧ (lf_total_estimated_bytes s ≤ acache_max_total_estimated_bytes limits)%N
  ∧ (map_len (lf_per_partition s) ≤ acache_max_cached_stories limits)%N
  ∧ ∀ story, (default 0 (lf_per_partition s !! story) ≤ acache_max_fragments_per_story limits)%N.
Proof.
  intros Ht Hmax.
  assert (fragment_cache_rep LruFragmentMatchState_new []) as H0.
  { split; [|done|intros; simpl; by rewrite lookup_empty]. exists []. split; [|done].
    split; [apply NoDup_nil_2|constructor|done|done|constructor]. }
  destruct (cache_run_refines limits ops _ _ H0 (within_empty limits)) as (H1 & H2 & H3 & H4); [done|done|].
  destruct (cache_run _ _ _) as [s answers], (cache_spec_run _ _ _) as [l spec_answers]. simpl in *.
  apply andb_true_iff in H3 as [H3 H5]. apply N.leb_le in H3, H5.
  split; [done|]. split; [done|]. split; [by rewrite (fr_bytes _ _ H2)|]. split; [by rewrite (fr_dom _ _ H2)|].
  intros story. rewrite (fr_count _ _ _ H2). specialize (H4 story). lia.
Qed.

End fragment_cache.

(** Two stories under the limits of one story, two fragments, of a match each: the
    fragment of the other story drops the one kept, a value with two matches is not
    kept. *)
Definition witness_cache_layout : Layout := {| size_of_evidence := 64; size_of_match := 48 |}.
Definition witness_cache_limits : FragmentMatchCacheLimits := {|
  acache_max_cached_stories := 1; acache_max_fragments_per_story := 2; acache_max_matches_per_fragment := 1;
  acache_max_evidence_bytes_per_fragment := 100; acache_max_total_estimated_bytes := 200;
|}.
Definition witness_cache_key (story : StoryId) (fragment : ScanFragmentId) : FragmentMatchCacheKey := {|
  ck_story_id := story; ck_fragment_id := fragment; ck_fragment_kind := Frag_RecentStory; ck_content_hash := [];
  ck_pack_digest := []; ck_overlay_version := 0; ck_matcher_version := 1; ck_macro_digest := [];
|}.
Definition witness_match : FragmentPatternMatch := {|
  fm_source_id := Sid_Fact "f"; fm_pattern_kind := Pat_PrimaryLiteral; fm_pattern_ordinal := 0;
  fm_fragment_kind := Frag_RecentStory; fm_recency_depth := 0; fm_stable_fragment_order := 0; fm_match_count := 1;
  fm_group_score_contribution := 1;
|}.
Definition witness_cache_ops : list FragmentCacheOp :=
  let a := witness_cache_key "a" in
  [CacheInsert (a [1%N]) [witness_match]; CacheInsert (a [2%N]) [witness_match]; CacheGet (a [1%N]);
   CacheInsert (a [3%N]) []; CacheGet (a [2%N]); CacheInsert (a [4%N]) [witness_match; witness_match]; CacheGet (a [4%N]);
   CacheInsert (witness_cache_key "b" [1%N]) []; CacheGet (a [1%N])].

Lemma fragment_cache_refines_witness :
  (cache_run (H:=witness_cache_layout) witness_cache_limits witness_cache_ops LruFragmentMatchState_new).2
  = [Some [witness_match]; None; None; None]
  ∧ let '(s, answers) := cache_run (H:=witness_cache_layout) witness_cache_limits witness_cache_ops LruFragmentMatchState_new in
    let '(l, spec_answers) := cache_spec_run (H:=witness_cache_layout) witness_cache_limits witness_cache_ops [] in
    answers = spec_answers ∧ fragment_cache_rep (H:=witness_cache_layout) s l
    ∧ (lf_total_estimated_bytes s ≤ 200)%N ∧ (map_len (lf_per_partition s) ≤ 1)%N
    ∧ ∀ story, (default 0 (lf_per_partition s !! story) ≤ 2)%N.
Proof.
  split; [by vm_compute|].
  apply (fragment_cache_refines (H:=witness_cache_layout) witness_cache_limits witness_cache_ops); by vm_compute.
Defined.

(** ** The cache of pack indexes *)

Section pack_cache.
Context `{Unicode, Sha256Bytes, RegexFind}.
Implicit Types l : list (FrozenPackIndexKey * FrozenPackIndex).

Definition packs_fit (cache : FrozenPackIndexCache) l : bool :=
  (nlen l <=? pc_max_packs cache)%N && (total_bytes estimated_bytes l <=? pc_max_total_estimated_bytes cache)%N.

(** An index that is too large is refused; else it is the one used last and the
    oldest ones make room. *)
Definition pack_spec_insert (cache : FrozenPackIndexCache) (index : FrozenPackIndex) l :
    list (FrozenPackIndexKey * FrozenPackIndex) * result ActivationError () :=
  if (pc_max_total_estimated_bytes cache <? estimated_bytes index)%N
  then (l, Err (Act_WorkLimitExceeded "max_compiled_bytes"))
  else (drop_until (packs_fit cache) (lru_push (pi_key index) index l), Ok ()).

Definition pack_row (r : FrozenPackIndexKey * (N * FrozenPackIndex)) : FrozenPackIndexKey * FrozenPackIndex :=
  (r.1, r.2.2).
Record pack_cache_rep (s : PackIndexCacheState) l : Prop := {
  pr_rows : ∃ rows, rows_in fst rows (pc_entries s) (pc_order s) (pc_tick s) ∧ l = pack_row <$> rows;
  pr_bytes : pc_total_estimated_bytes s = total_bytes estimated_bytes l;
}.

Lemma pack_row_without k rows : pack_row <$> without k rows = without k (pack_row <$> rows).
Proof. induction rows as [|r rows IH]; simpl; [done|]. case_bool_decide; simpl; by f_equal. Qed.
Lemma pack_row_find k rows : find_row k (pack_row <$> rows) = snd <$> find_row k rows.
Proof. unfold find_row. induction rows as [|r rows IH]; simpl; [done|]. by case_bool_decide. Qed.
Lemma pr_nodup s l : pack_cache_rep s l → NoDup l.*1.
Proof. intros [(rows & Hr & ->) _]. rewrite <-list_fmap_compose. apply Hr. Qed.
Lemma pr_values s l : pack_cache_rep s l → values (pc_order s) = l.*1.
Proof. intros [(rows & Hr & ->) _]. rewrite <-list_fmap_compose. apply (rows_values _ _ _ _ _ Hr). Qed.
Lemma pr_size s l : pack_cache_rep s l → size (pc_entries s) = length l.
Proof. intros [(rows & Hr & ->) _]. rewrite length_fmap. eapply rows_size, Hr. Qed.

Lemma pr_get key s l s' v :
  pack_cache_rep s l → (pc_tick s < U64_MAX)%N → pack_cache_get key s = (s', v) →
  v = (lru_get key l).2 ∧ pack_cache_rep s' (lru_get key l).1 ∧ pc_tick s' = (pc_tick s + 1)%N.
Proof.
  intros Hr Ht. pose proof (pr_nodup _ _ Hr) as Hnd. pose proof (tick_next _ Ht) as Hadd.
  pose proof Hr as [(rows & Hrows & ->) Hb]. unfold pack_cache_get, lru_get. rewrite Hadd.
  rewrite pack_row_find, <-(rows_lookup _ _ _ _ _ key Hrows).
  destruct (pc_entries s !! key) as [[previous index]|] eqn:Hk; intros [= <- <-]; simpl.
  - split; [done|]. split; [|done].
    assert (find_row key (pack_row <$> rows) = Some index) as Hf.
    { by rewrite pack_row_find, <-(rows_lookup _ _ _ _ _ key Hrows), Hk. }
    pose proof (lru_get_perm key _ Hnd) as Hperm. unfold lru_get in Hperm. rewrite Hf in Hperm. simpl in Hperm.
    split; simpl.
    + exists (without key rows ++ [(key, ((pc_tick s + 1)%N, index))]). split.
      * eapply (rows_touch fst _ _ _ _ _ (previous, index)); [done|done|simpl; lia].
      * by rewrite fmap_app, pack_row_without.
    + rewrite Hb. symmetry. by apply total_bytes_perm.
  - split; [done|]. split; [|done]. split; [|done]. exists rows. split; [|done].
    eapply rows_tick_mono; [done|simpl; lia].
Qed.

Lemma pr_remove key s l : pack_cache_rep s l →
  pack_cache_rep (pack_cache_remove key s) (without key l) ∧ pc_tick (pack_cache_remove key s) = pc_tick s.
Proof.
  intros Hr. pose proof (pr_nodup _ _ Hr) as Hnd. pose proof Hr as [(rows & Hrows & ->) Hb].
  unfold pack_cache_remove.
  destruct (pc_entries s !! key) as [[previous index]|] eqn:Hk; simpl.
  - split; [|done].
    assert (find_row key (pack_row <$> rows) = Some index) as Hf.
    { by rewrite pack_row_find, <-(rows_lookup _ _ _ _ _ key Hrows), Hk. }
    pose proof (without_perm _ _ _ Hnd Hf) as Hperm. split; simpl.
    + exists (without key rows). split; [|by rewrite pack_row_without].
      by apply (rows_delete fst _ _ _ _ _ (previous, index)).
    + rewrite Hb, (total_bytes_perm _ _ _ Hperm), total_bytes_cons. unfold sat_sub. cbn [snd]. lia.
  - split; [|done]. rewrite without_absent; [done|]. apply find_row_None.
    by rewrite pack_row_find, <-(rows_lookup _ _ _ _ _ key Hrows), Hk.
Qed.

Lemma pr_evict fuel cache s l :
  pack_cache_rep s l → length l ≤ fuel → pack_cache_rep (pack_cache_evict fuel cache s) (drop_until (packs_fit cache) l)
  ∧ pc_tick (pack_cache_evict fuel cache s) = pc_tick s.
Proof.
  revert s l. induction fuel as [|fuel IH]; intros s l Hr Hlen; cbn [pack_cache_evict]; unfold map_len;
    rewrite (pr_size _ _ Hr), (pr_bytes _ _ Hr), N_ltb_negb, N_ltb_negb, <-negb_andb; fold (nlen l);
    fold (packs_fit cache l); destruct (packs_fit cache l) eqn:Hfit; simpl.
  1,3: destruct l; simpl; by rewrite Hfit.
  - apply Nat.le_0_r, length_zero_iff_nil in Hlen as ->. simpl. by rewrite Hfit.
  - rewrite (pr_values _ _ Hr). destruct l as [|[key v] l]; [by simpl; rewrite Hfit|]. cbn [head fmap list_fmap fst].
    pose proof (pr_nodup _ _ Hr) as Hnd. destruct (pr_remove key _ _ Hr) as [Hr' Ht'].
    rewrite (without_middle key v [] l) in Hr' by done.
    destruct (IH _ _ Hr') as [Hr2 Ht2]; [simpl in *; lia|]. cbn [drop_until]. rewrite Hfit. split; [done|].
    by rewrite Ht2.
Qed.

Lemma pr_insert cache index s l s' r :
  pack_cache_rep s l → (pc_tick s < U64_MAX)%N → packs_fit cache l = true →
  (2 * pc_max_total_estimated_bytes cache ≤ USIZE_MAX)%N → pack_cache_insert cache index s = (s', r) →
  pack_cache_rep s' (pack_spec_insert cache index l).1 ∧ r = (pack_spec_insert cache index l).2
  ∧ packs_fit cache (pack_spec_insert cache index l).1 = true ∧ (pc_tick s' ≤ pc_tick s + 1)%N.
Proof.
  intros Hr Ht Hfit Hmax. unfold pack_cache_insert, pack_spec_insert.
  destruct (N.ltb_spec (pc_max_total_estimated_bytes cache) (estimated_bytes index)) as [Hl|Hl]; intros Heq.
  { apply (f_equal fst) in Heq as Hs. apply (f_equal snd) in Heq as Hr'. simpl in *. subst. repeat split; try apply Hr; [done|lia]. }
  apply (f_equal fst) in Heq as Hs. apply (f_equal snd) in Heq as Hr'. simpl in Hs, Hr'. subst s' r. clear Heq.
  rewrite (tick_next _ Ht). destruct (pr_remove (pi_key index) s l Hr) as [Hr1 Ht1]. cbn [fst snd].
  assert (total_bytes estimated_bytes (without (pi_key index) l) ≤ total_bytes estimated_bytes l)%N as Hb1
    by apply total_bytes_sublist, sublist_list_filter.
  apply andb_true_iff in Hfit as [_ Hfit]. apply N.leb_le in Hfit.
  set (s1 := pack_cache_remove (pi_key index) s) in *. cbn [pc_entries].
  assert (pack_cache_rep {| pc_entries := <[pi_key index := ((pc_tick s + 1)%N, index)]> (pc_entries s1);
    pc_order := <[(pc_tick s + 1)%N := pi_key index]> (pc_order s1);
    pc_total_estimated_bytes := sat_add USIZE_MAX (pc_total_estimated_bytes s1) (estimated_bytes index);
    pc_tick := (pc_tick s + 1)%N |} (lru_push (pi_key index) index l)) as Hr2.
  { pose proof (without_not_in (pi_key index) l) as Hk. destruct Hr1 as [(rows & Hrows & Hrw) Hb]. unfold lru_push.
    split; simpl.
    - exists (rows ++ [(pi_key index, ((pc_tick s + 1)%N, index))]). rewrite fmap_app, Hrw. split; [|done].
      eapply (rows_push fst); [exact Hrows| |simpl; lia].
      rewrite Hrw, <-list_fmap_compose in Hk. exact Hk.
    - rewrite Hb, sat_add_fits by lia. rewrite total_bytes_app. cbn. lia. }
  destruct (pr_evict (length (lru_push (pi_key index) index l)) cache _ _ Hr2) as [Hr3 Ht3]; [done|].
  pose proof (pr_size _ _ Hr2) as Hsize. cbn [pc_entries] in Hsize. rewrite <-Hsize in Hr3, Ht3.
  split; [exact Hr3|]. split; [done|]. split; [|rewrite Ht3; simpl; lia].
  apply drop_until_ok. unfold packs_fit. apply andb_true_iff; split; apply N.leb_le, N.le_0_l.
Qed.

Inductive PackCacheOp := PackGet (key : FrozenPackIndexKey) | PackInsert (index : FrozenPackIndex).
Fixpoint pack_run (cache : FrozenPackIndexCache) (ops : list PackCacheOp) (s : PackIndexCacheState) :
    PackIndexCacheState * list (option FrozenPackIndex) :=
  match ops with
  | [] => (s, [])
  | PackGet key :: ops => let '(s, v) := pack_cache_get key s in let '(s, vs) := pack_run cache ops s in (s, v :: vs)
  | PackInsert index :: ops => pack_run cache ops (pack_cache_insert cache index s).1
  end.
Fixpoint pack_spec_run (cache : FrozenPackIndexCache) (ops : list PackCacheOp) l :
    list (FrozenPackIndexKey * FrozenPackIndex) * list (option FrozenPackIndex) :=
  match ops with
  | [] => (l, [])
  | PackGet key :: ops => let '(l, v) := lru_get key l in let '(l, vs) := pack_spec_run cache ops l in (l, v :: vs)
  | PackInsert index :: ops => pack_spec_run cache ops (pack_spec_insert cache index l).1
  end.

Theorem pack_cache_refines cache ops s l :
  pack_cache_rep s l → packs_fit cache l = true → (pc_tick s + nlen ops ≤ U64_MAX)%N →
  (2 * pc_max_total_estimated_bytes cache ≤ USIZE_MAX)%N →
  (pack_run cache ops s).2 = (pack_spec_run cache ops l).2
  ∧ pack_cache_rep (pack_run cache ops s).1 (pack_spec_run cache ops l).1
  ∧ packs_fit cache (pack_spec_run cache ops l).1 = true.
Proof.
  unfold nlen. revert s l. induction ops as [|[key|index] ops IH]; intros s l Hr Hw Ht Hmax; [done| |]; simpl.
  - destruct (pack_cache_get key s) as [s' v] eqn:Hg. pose proof (lru_get_perm key l (pr_nodup _ _ Hr)) as Hp.
    destruct (pr_get key s l s' v Hr) as (-> & Hr' & Ht'); [simpl in Ht; lia|done|].
    destruct (lru_get key l) as [l' v]. cbn [fst snd] in *.
    destruct (IH _ _ Hr') as (H1' & H2' & H3'); [|simpl in Ht; lia|done|].
    { unfold packs_fit, nlen in *. by rewrite (total_bytes_perm _ _ _ Hp), Hp. }
    destruct (pack_run cache ops s'), (pack_spec_run cache ops l'). simpl in *. by rewrite H1'.
  - destruct (pack_cache_insert cache index s) as [s' r] eqn:Hi.
    destruct (pr_insert cache index s l s' r Hr) as (Hr' & _ & Hw' & Ht'); [simpl in Ht; lia|done|done|done|].
    apply (IH s'); [done|done|simpl in Ht; lia|done].
Qed.
End pack_cache.

(** ** The overlay of a story *)

Section overlay.
Context `{Unicode, Sha256Bytes, RegexFind}.

Lemma lookup_delete_all {K V} `{Countable K} (l : list K) (m : gmap K V) k :
  foldl (λ m x, delete x m) m l !! k = if decide (k ∈ l) then None else m !! k.
Proof.
  revert m. induction l as [|x l IH]; intros m.
  - done.
  - cbn [foldl]. rewrite IH. destruct (decide (k ∈ l)) as [Hk|Hk]; [by rewrite decide_True by set_solver|].
    destruct (decide (k = x)) as [->|Hne].
    + by rewrite lookup_delete_eq, decide_True by set_solver.
    + by rewrite lookup_delete_ne, decide_False by set_solver.
Qed.

Lemma lookup_insert_all (l : list ActivationEntryMetadata) (m : gmap KnowledgeSourceId ActivationEntryMetadata) k :
  foldl (λ m e, <[meta_source_id e := e]> m) m l !! k
  = match List.find (λ e, bool_decide (meta_source_id e = k)) (rev l) with Some e => Some e | None => m !! k end.
Proof.
  revert m. induction l as [|x l IH]; intros m; simpl; [done|]. rewrite IH. clear IH.
  induction (rev l) as [|y l' IH]; simpl.
  - case_bool_decide as Hk; [subst; by rewrite lookup_insert_eq|by rewrite lookup_insert_ne].
  - by case_bool_decide.
Qed.

(** The index of the pack, overlaid with what the story's entries changed, is the
    metadata of exactly the story's entries, when the entries the story has from
    its pack are those the index was built from. *)
Theorem overlay_composes version entries_ pack_index macros limits rule_limits overlay reference snapshot :
  (∀ k e, entries_ !! k = Some e → meta_source_id e = k) →
  (∀ k e, entries_ !! k = Some e → meta_from_pack e = true → pi_metadata pack_index !! k = Some e) →
  build_overlay_index version entries_ pack_index macros limits rule_limits = Ok overlay →
  compose_index_snapshot reference pack_index overlay limits = Ok snapshot →
  ix_metadata snapshot = entries_ ∧ (map_len entries_ ≤ il_max_entries limits)%N.
Proof.
  intros Hkey Hpack. unfold build_overlay_index, compose_index_snapshot. intros Hb Hc. res_inv.
  match goal with |- ?m = _ ∧ _ => assert (m = entries_) as Heq end.
  - apply map_eq. intros k. rewrite lookup_insert_all, lookup_delete_all.
    destruct (List.find _ _) as [e|] eqn:Hf.
    + apply find_some in Hf as [Hin Hk]. apply bool_decide_eq_true in Hk.
      apply in_rev, list_elem_of_In, elem_of_list_filter_bool in Hin as [Hin _].
      apply elem_of_values in Hin as [k' Hk']. pose proof (Hkey _ _ Hk'). by subst.
    + pose proof (find_none _ _ Hf) as Hnone.
      assert (∀ e, entries_ !! k = Some e → meta_from_pack e = true) as Hfrom.
      { intros e He. destruct (meta_from_pack e) eqn:Hp; [done|]. exfalso.
        assert (bool_decide (meta_source_id e = k) = false) as Hx; [|by rewrite (Hkey _ _ He), bool_decide_true in Hx].
        apply Hnone. apply in_rev. rewrite rev_involutive. apply list_elem_of_In, elem_of_list_filter_bool.
        split; [apply elem_of_values; eauto|by rewrite Hp]. }
      case_decide as Hd.
      * apply elem_of_elements, elem_of_difference in Hd as [_ Hd]. by apply not_elem_of_dom in Hd.
      * destruct (entries_ !! k) as [e|] eqn:He; [apply (Hpack _ _ He); by apply Hfrom|].
        destruct (pi_metadata pack_index !! k) as [e|] eqn:Hpk; [|done]. exfalso. apply Hd.
        apply elem_of_elements, elem_of_difference. split; [by eapply elem_of_dom_2|by apply not_elem_of_dom].
  - split; [exact Heq|].
    match goal with Hl : (il_max_entries limits <? _)%N = false |- _ =>
      rewrite Heq in Hl; apply N.ltb_ge in Hl; exact Hl end.
Qed.
End overlay.
