(* ===== verification/AiseCoordination.v ===== *)
(** * Driving an activation

    [context/activation/coordinator.rs], [context/activation/scan_builder.rs],
    [context/error.rs] and the limits of [turn/turn_budget.rs] of [crates/aise/src/]:
    the index of a story is loaded, compiled or taken from its cache and overlaid,
    the fragments of a turn are matched, and the session of AiseActivation.v is run
    until it ends, each round fed with the bodies the store reads. *)

From S2P Require Import Prelude Text AiseIds AiseRule AiseNarrative AiseStory AiseTurnData AiseConfig.
From S2P Require Import AiseBudget AiseScan AisePorts AiseActivation AiseCaches.

(** ** Errors of the context *)

Inductive ContextError :=
| Ctx_SnapshotInconsistent (code : string)
| Ctx_ContinuityInvalid (code : string)
| Ctx_InvalidPlan (code : string)
| Ctx_KnowledgeAudienceViolation
| Ctx_InvalidRecord (code : string)
| Ctx_RetrievedBudgetExceeded (limit : string)
| Ctx_IndexLimitExceeded (index : string) (actual maximum : N)
| Ctx_Activation (error : ActivationError)
| Ctx_Store (error : StoreError).
Definition turn_code (e : ContextError) : string :=
  match e with
  | Ctx_SnapshotInconsistent _ | Ctx_ContinuityInvalid _ => "context_snapshot_invalid"
  | Ctx_InvalidPlan _ | Ctx_KnowledgeAudienceViolation => "writer_plan_invalid"
  | Ctx_InvalidRecord _ => "retrieval_record_invalid"
  | Ctx_RetrievedBudgetExceeded _ => "retrieval_context_limit"
  | Ctx_IndexLimitExceeded _ _ _ => "context_index_limit_exceeded"
  | Ctx_Activation error => activation_error_code error
  | Ctx_Store Store_RevisionConflict => "retrieval_snapshot_conflict"
  | Ctx_Store _ => "store_error"
  end.

(** ** The limits of a configuration *)

(** [activation_rule_limits] of the coordinator. *)
Definition coordinator_rule_limits (config : ActivationRuleLimitsConfig) (max_scan_depth_ : N) : ActivationRuleLimits := {|
  max_primary_patterns_per_entry := arule_max_primary_patterns_per_entry config;
  max_secondary_patterns_per_entry := arule_max_secondary_patterns_per_entry config;
  max_pattern_bytes := arule_max_pattern_bytes config;
  max_regex_program_bytes := arule_max_regex_program_bytes config;
  max_groups_per_entry := arule_max_groups_per_entry config;
  max_group_key_bytes := arule_max_group_key_bytes config;
  max_scan_depth := max_scan_depth_;
|}.
Definition activation_index_limits (config : ActivationConfig) : ActivationIndexLimits := {|
  il_max_entries := aindex_max_entries (activation_index config);
  il_max_overlay_entries := aindex_max_overlay_entries (activation_index config);
  il_max_tombstones := aindex_max_tombstones (activation_index config);
  il_max_literal_patterns := aindex_max_literal_patterns (activation_index config);
  il_max_regex_patterns := aindex_max_regex_patterns (activation_index config);
  il_max_compiled_bytes := aindex_max_compiled_bytes (activation_index config);
  il_max_regex_program_bytes := arule_max_regex_program_bytes (activation_rule config);
  il_max_macro_expansion_bytes := arule_max_macro_expansion_bytes (activation_rule config);
|}.
Definition activation_runtime_limits (config : ActivationConfig) : ActivationRuntimeLimits := {|
  rl_minimum_activations := aruntime_minimum_activations (activation_runtime config);
  rl_initial_scan_depth := aruntime_initial_scan_depth (activation_runtime config);
  rl_max_scan_depth := aruntime_max_scan_depth (activation_runtime config);
  rl_include_summary_at_max_depth := aruntime_include_summary_at_max_depth (activation_runtime config);
  rl_max_scan_fragments := aruntime_max_scan_fragments (activation_runtime config);
  rl_max_scan_bytes := aruntime_max_scan_bytes (activation_runtime config);
  rl_max_scan_tokens := aruntime_max_scan_tokens (activation_runtime config);
  rl_max_literal_patterns := aruntime_max_literal_patterns (activation_runtime config);
  rl_max_regex_patterns := aruntime_max_regex_patterns (activation_runtime config);
  rl_max_pattern_matches := aruntime_max_pattern_matches (activation_runtime config);
  rl_max_candidates_per_round := aruntime_max_candidates_per_round (activation_runtime config);
  rl_max_recursion_steps := aruntime_max_recursion_steps (activation_runtime config);
  rl_max_recursion_fragments := aruntime_max_recursion_fragments (activation_runtime config);
  rl_max_recursion_bytes := aruntime_max_recursion_bytes (activation_runtime config);
  rl_max_recursion_tokens := aruntime_max_recursion_tokens (activation_runtime config);
  rl_max_activated_entries := aruntime_max_activated_entries (activation_runtime config);
  rl_max_depth_expansions := aruntime_max_depth_expansions (activation_runtime config);
  rl_max_external_candidates := aruntime_max_external_candidates (activation_runtime config);
  rl_max_evidence_per_entry := aruntime_max_evidence_per_entry (activation_runtime config);
  rl_max_evidence_bytes := aruntime_max_evidence_bytes (activation_runtime config);
  rl_max_items_per_audience := aruntime_max_items_per_audience (activation_runtime config);
  rl_max_tokens_per_audience := aruntime_max_tokens_per_audience (activation_runtime config);
  rl_max_total_items := aruntime_max_total_items (activation_runtime config);
  rl_max_total_tokens := aruntime_max_total_tokens (activation_runtime config);
  rl_max_single_entry_bytes := aruntime_max_single_entry_bytes (activation_runtime config);
  rl_reserved_tokens := aruntime_reserved_tokens (activation_runtime config);
  rl_mandatory_tokens := aruntime_mandatory_tokens (activation_runtime config);
|}.

(** ** The fragments a turn scans *)

Definition invalid_record {A} (code : string) : result ContextError A := Err (Ctx_InvalidRecord code).
Definition scan_buffer_error (e : ScanBufferError) : ContextError :=
  match e with
  | Scan_FragmentLimit => Ctx_Activation (Act_WorkLimitExceeded "max_scan_fragments")
  | Scan_ByteLimit => Ctx_Activation (Act_WorkLimitExceeded "max_scan_bytes")
  | Scan_InvalidLimit => Ctx_Activation (Act_InvalidRule "activation_scan_buffer_limit")
  end.

Section scan_builder.
Context `{Unicode, Sha256Bytes}.

(** The fragments of a list of texts, in their order. *)
Definition ordered_fragments {A} (kind : ScanFragmentKind) (text : A → BoundedText) (l : list A) : list ScanFragment :=
  map (λ '(order, item), ScanFragment_new kind 0 (clamp U32_MAX (N.of_nat order)) (text item)) (enumerate l).

Definition build_activation_scan_buffer (snapshot : StoryReadSnapshot) (player_role : RoleContextView)
    (player_contribution : string) (narrative_projection : NarrativeProjection) (config : ActivationConfig) :
    result ContextError ActivationScanBuffer :=
  let runtime := activation_runtime config in
  let? contribution := map_err (λ _, Ctx_InvalidRecord "scan_player_contribution")
    (BoundedText_try_new player_contribution "player_contribution" (aruntime_max_single_entry_bytes runtime)) in
  let named kind (text : BoundedText) := if is_empty text then [] else [ScanFragment_new kind 0 0 text] in
  let plan := proj_plan narrative_projection in
  let continuity := snap_story_continuity snapshot in
  let recent := recent_segments continuity in
  let summary := sum_text (con_summary continuity) in
  let summary_depth :=
    if aruntime_include_summary_at_max_depth runtime then aruntime_max_scan_depth runtime
    else clamp U16_MAX (sat_add USIZE_MAX (nlen recent) 1) in
  let fragments :=
    [ScanFragment_new Frag_PlayerContribution 0 0 contribution]
    ++ named Frag_PlayerRoleName (profile_name (rcv_profile player_role))
    ++ named Frag_PlayerRoleLabel (rcv_role_label player_role)
    ++ ordered_fragments Frag_NarrativeDirection dir_dramatic_focus (active_directions plan)
    ++ ordered_fragments Frag_NarrativeEvent wei_description (world_event_intents plan)
    ++ map (λ '(order, segment), ScanFragment_new Frag_RecentStory
         (clamp U16_MAX (sat_add USIZE_MAX (N.of_nat order) 1)) (clamp U32_MAX (N.of_nat order)) (seg_text segment))
         (enumerate (rev recent))
    ++ (if is_empty summary then [] else [ScanFragment_new Frag_StorySummary summary_depth 0 summary]) in
  map_err scan_buffer_error
    (ActivationScanBuffer_try_new fragments (aruntime_max_scan_fragments runtime) (aruntime_max_scan_bytes runtime)).
End scan_builder.

(** ** The coordinator *)

Record LoadedActivationEntry := {
  la_body : ActivationEntryBody;
  la_salience : N;
  la_source : KnowledgeSource;
  la_activation : option KnowledgeActivationRule;
  la_activation_rule_version : option ActivationRuleVersion;
}.

Definition map_store_error (e : StoreError) : ActivationError :=
  match e with
  | Store_RevisionConflict => Act_Store Failure_RevisionConflict
  | Store_NotFound => Act_Store Failure_NotFound
  | Store_LimitExceeded limit => Act_WorkLimitExceeded limit
  | Store_Serialization _ => Act_Store Failure_Serialization
  | _ => Act_Store Failure_Unavailable
  end.

Record KnowledgeActivationCoordinator := {
  co_index_limits : ActivationIndexLimits;
  co_rule_limits : ActivationRuleLimitsConfig;
  co_runtime_limits : ActivationRuntimeLimits;
  co_cache_limits : FragmentMatchCacheLimits;
}.

Section coordinator.
Context `{Unicode, Sha256Bytes, RegexFind, Layout, KnowledgePorts}.
Context (coordinator : KnowledgeActivationCoordinator).

(** The caches are shared by the turns of the process. *)
Record CoordinatorCaches := {
  cc_fragments : LruFragmentMatchState;
  cc_packs : PackIndexCacheState;
}.
Definition CoordinatorCaches_new : CoordinatorCaches :=
  {| cc_fragments := LruFragmentMatchState_new; cc_packs := PackIndexCacheState_new |}.
Definition pack_cache : FrozenPackIndexCache :=
  FrozenPackIndexCache_new (acache_max_cached_stories (co_cache_limits coordinator))
    (acache_max_total_estimated_bytes (co_cache_limits coordinator)).

Definition authorize_seed (index : ActivationIndexSnapshot) (source_id : KnowledgeSourceId) (d : KnowledgeDelivery) : bool :=
  match ix_metadata index !! source_id with
  | None => false
  | Some metadata =>
      match d with
      | Delivery_Writer => bool_decide (meta_kind metadata = Kind_Fact) || bool_decide (meta_kind metadata = Kind_Rumor)
      | Delivery_Character _ => bool_decide (meta_kind metadata = Kind_Rumor)
      end
  end.

(** The index of the pack, from its cache or built. *)
Definition pack_index_of (key : FrozenPackIndexKey) (pack_entries : gmap KnowledgeSourceId ActivationEntryMetadata)
    (macros : ActivationMacroValues) (packs : PackIndexCacheState) :
    PackIndexCacheState * result ActivationError FrozenPackIndex :=
  let '(packs, cached) := pack_cache_get key packs in
  match cached with
  | Some index => (packs, Ok index)
  | None =>
      match build_frozen_pack_index key (values pack_entries) macros (co_index_limits coordinator)
              (coordinator_rule_limits (co_rule_limits coordinator) (rl_max_scan_depth (co_runtime_limits coordinator))) with
      | Err e => (packs, Err e)
      | Ok built =>
          let '(packs, inserted) := pack_cache_insert pack_cache built packs in
          (packs, let? _ := inserted in Ok built)
      end
  end.

Definition prepare_index (now : N) (snapshot : KnowledgeSnapshotRef) (macros : ActivationMacroValues)
    (packs : PackIndexCacheState) : PackIndexCacheState * result ActivationError ActivationIndexSnapshot :=
  let max_value := arule_max_macro_value_bytes (co_rule_limits coordinator) in
  if (max_value <? slen (macro_player_name macros))%N || (max_value <? slen (macro_player_role_label macros))%N
  then (packs, Err (Act_InvalidRule "macro_value_too_long"))
  else
    match map_err map_store_error (load_snapshot now snapshot (co_index_limits coordinator)) with
    | Err e => (packs, Err e)
    | Ok metadata =>
        let key := {| pik_pack_digest := ks_pack_digest snapshot; pik_macro_digest := macro_digest macros;
                      pik_matcher_version := MATCHER_VERSION |} in
        let '(packs, pack_index) := pack_index_of key (im_pack_entries metadata) macros packs in
        (packs,
         let? pack_index := pack_index in
         let? overlay := build_overlay_index (ref_overlay_version (im_reference metadata)) (im_entries metadata)
           pack_index macros (co_index_limits coordinator)
           (coordinator_rule_limits (co_rule_limits coordinator) (rl_max_scan_depth (co_runtime_limits coordinator))) in
         compose_index_snapshot (im_reference metadata) pack_index overlay (co_index_limits coordinator))
    end.

(** A fragment's matches, from the cache or computed and kept. *)
Definition match_cached (story_id : StoryId) (index : ActivationIndexSnapshot) (digest : Sha256Digest)
    (st : LruFragmentMatchState * ActivationFragmentMatches) (fragment : ScanFragment) :
    LruFragmentMatchState * ActivationFragmentMatches :=
  let '(cache, matches) := st in
  let key := fragment_cache_key story_id (ix_reference index) digest fragment in
  let '(cache, cached) := fragment_cache_get key cache in
  match cached with
  | Some value => (cache, <[frag_id fragment := value]> matches)
  | None =>
      let computed := match_fragment index fragment in
      (fragment_cache_insert (co_cache_limits coordinator) key computed cache, <[frag_id fragment := computed]> matches)
  end.
Definition match_fragments (story_id : StoryId) (index : ActivationIndexSnapshot) (digest : Sha256Digest)
    (scan_buffer : ActivationScanBuffer) (cache : LruFragmentMatchState) :
    LruFragmentMatchState * ActivationFragmentMatches :=
  foldl (match_cached story_id index digest) (cache, ∅) scan_buffer.

(** ** The rounds *)

Section rounds.
Context (request : ActivationRequest) (snapshot : KnowledgeSnapshotRef).

Definition record_body (record : KnowledgeRecord) : ActivationEntryBody := {|
  aeb_source_id := kr_source_id record;
  aeb_kind := kr_kind record;
  aeb_body := kr_content record;
  aeb_token_cost := N.max (estimate_text_tokens (kr_content record)) 1;
|}.
Definition record_loaded (record : KnowledgeRecord) : LoadedActivationEntry := {|
  la_body := record_body record;
  la_salience := kr_salience record;
  la_source := kr_source record;
  la_activation := kr_activation record;
  la_activation_rule_version := kr_activation_rule_version record;
|}.

(** [try_fold(false, |mandatory, id| ...)] *)
Definition any_mandatory (s : Session) (admitted : list KnowledgeSourceId) : result ActivationError bool :=
  try_fold (λ mandatory source_id, let? value := admitted_is_mandatory request s source_id in Ok (mandatory || value))
    false admitted.

Definition drop_missing (bodies : list ActivationEntryBody) (s : Session) (source_id : KnowledgeSourceId) :
    result ActivationError Session :=
  if existsb (λ body, bool_decide (aeb_source_id body = source_id)) bodies then Ok s
  else
    let? mandatory := admitted_is_mandatory request s source_id in
    fail_if (mandatory : bool) with Act_MandatoryBudgetExceeded in
    drop_admitted s source_id.

Definition load_bodies (now : N) (admitted : list KnowledgeSourceId) (s : Session) :
    result ActivationError (Session * list ActivationEntryBody * list LoadedActivationEntry) :=
  let filter := {| kf_delivery := Delivery_Writer; kf_knowledge_kinds := [Kind_Fact; Kind_Rumor];
                   kf_max_item_bytes := rl_max_single_entry_bytes (co_runtime_limits coordinator) |} in
  match find_by_source_ids now {| skq_snapshot := snapshot; skq_filter := filter; skq_source_ids := admitted;
                                  skq_limit := nlen admitted |} with
  | Err _ =>
      let? mandatory := any_mandatory s admitted in
      fail_if (mandatory : bool) with Act_MandatoryBudgetExceeded in
      let? s := try_fold drop_admitted s admitted in
      Ok (s, [], [])
  | Ok records =>
      fail_if existsb (λ record, negb (bool_decide (kr_source_id record ∈ admitted))
                                 || negb (bool_decide (kr_kind record = sid_kind (kr_source_id record)))) records
      with Act_SnapshotMismatch in
      let bodies := map record_body records in
      let? s := try_fold (drop_missing bodies) s admitted in
      Ok (s, bodies, map record_loaded records)
  end.

(** A turn of the loop after its round: the bodies are read and given to the session. *)
Definition feed_round (now : N) (s : Session) (outcome : ActivationRoundOutcome) :
    result ActivationError (Session * list LoadedActivationEntry) :=
  let? '(s, bodies, loaded) :=
    match ro_admitted outcome with
    | [] => Ok (s, [], [])
    | admitted => load_bodies now admitted s
    end in
  let? s := supply_bodies request s bodies in
  Ok (s, loaded).

Definition keep_loaded (loaded_entries : gmap KnowledgeSourceId LoadedActivationEntry)
    (loaded : list LoadedActivationEntry) : gmap KnowledgeSourceId LoadedActivationEntry :=
  foldl (λ m entry, <[aeb_source_id (la_body entry) := entry]> m) loaded_entries loaded.

(** The [while let] loop; [None] when the fuel ends. *)
Fixpoint drive_loop (fuel : nat) (now : N) (s : Session) (loaded_entries : gmap KnowledgeSourceId LoadedActivationEntry) :
    option (result ActivationError (Session * gmap KnowledgeSourceId LoadedActivationEntry)) :=
  match fuel with
  | O => None
  | S fuel =>
      match next_round request s with
      | Err e => Some (Err e)
      | Ok (s, None) => Some (Ok (s, loaded_entries))
      | Ok (s, Some outcome) =>
          match feed_round now s outcome with
          | Err e => Some (Err e)
          | Ok (s, loaded) => drive_loop fuel (now + 1) s (keep_loaded loaded_entries loaded)
          end
      end
  end.

(** [drive_with_loaded] *)
Definition drive (fuel : nat) (now : N) :
    option (result ActivationError (ActivationResult * gmap KnowledgeSourceId LoadedActivationEntry)) :=
  match start request with
  | Err e => Some (Err e)
  | Ok s =>
      match drive_loop fuel now s ∅ with
      | None => None
      | Some r => Some (let? '(s, loaded) := r in let? result := finish request s in Ok (result, loaded))
      end
  end.
(** Rounds enough for any session of these limits. *)
Definition drive_fuel : nat :=
  2 + N.to_nat (rl_max_recursion_steps (req_limits request)) + N.to_nat (rl_max_depth_expansions (req_limits request)).
End rounds.

(** ** [run_with_index] and [run] *)

Record ActivationRunSpec := {
  spec_snapshot : KnowledgeSnapshotRef;
  spec_scan_buffer : ActivationScanBuffer;
  spec_macros : ActivationMacroValues;
  spec_story_id : StoryId;
  spec_turn_number : TurnNumber;
  spec_generation_trigger : GenerationTrigger;
  spec_mode : ActivationRunMode;
  spec_external_seeds : list ExternalActivationSeed;
  spec_continuation : option ActivationContinuation;
}.
Record ActivationRunOutcome := {
  rn_result : ActivationResult;
  rn_index_snapshot : ActivationIndexSnapshot;
  rn_loaded_entries : gmap KnowledgeSourceId LoadedActivationEntry;
}.

Definition run_request (spec : ActivationRunSpec) (index : ActivationIndexSnapshot) (matches : ActivationFragmentMatches)
    (timed_state : list ActivationTimedState) : ActivationRequest := {|
  req_story_id := spec_story_id spec;
  req_turn_number := spec_turn_number spec;
  req_generation_trigger := spec_generation_trigger spec;
  req_mode := spec_mode spec;
  req_knowledge_snapshot := spec_snapshot spec;
  req_index_snapshot := index;
  req_scan_buffer := spec_scan_buffer spec;
  req_fragment_matches := matches;
  req_timed_state := timed_state;
  req_external_seeds := spec_external_seeds spec;
  req_continuation := spec_continuation spec;
  req_limits := co_runtime_limits coordinator;
|}.

Definition run_with_index (now : N) (spec : ActivationRunSpec) (index : ActivationIndexSnapshot)
    (cache : LruFragmentMatchState) : LruFragmentMatchState * option (result ActivationError ActivationRunOutcome) :=
  if negb (matches_snapshot index (spec_snapshot spec) MATCHER_VERSION) then (cache, Some (Err Act_SnapshotMismatch))
  else
    let '(cache, matches) := match_fragments (spec_story_id spec) index (macro_digest (spec_macros spec))
      (spec_scan_buffer spec) cache in
    (cache,
     match load_timed_state now {| tsq_snapshot := spec_snapshot spec; tsq_limit := il_max_entries (co_index_limits coordinator) |} with
     | Err e => Some (Err (map_store_error e))
     | Ok timed_state =>
         if (rl_max_external_candidates (co_runtime_limits coordinator) <? nlen (spec_external_seeds spec))%N
         then Some (Err (Act_WorkLimitExceeded "external_candidates"))
         else
           let request := run_request spec index matches timed_state in
           match drive request (spec_snapshot spec) (drive_fuel request) (now + 1) with
           | None => None
           | Some r => Some (
               let? '(result, loaded) := r in
               Ok {| rn_result := result; rn_index_snapshot := index;
                     rn_loaded_entries := filter (λ e, e.1 ∈ act_source_id <$> ar_activated result) loaded |})
           end
     end).

Definition run (now : N) (spec : ActivationRunSpec) (caches : CoordinatorCaches) :
    CoordinatorCaches * option (result ActivationError ActivationRunOutcome) :=
  let '(packs, index) := prepare_index now (spec_snapshot spec) (spec_macros spec) (cc_packs caches) in
  match index with
  | Err e => ({| cc_fragments := cc_fragments caches; cc_packs := packs |}, Some (Err e))
  | Ok index =>
      let '(fragments, outcome) := run_with_index (now + 1) spec index (cc_fragments caches) in
      ({| cc_fragments := fragments; cc_packs := packs |}, outcome)
  end.
End coordinator.
