(* ===== verification/AiseContext.v ===== *)
(** * The state of a turn of the crate [aise]

    [turn/turn_context.rs] of [crates/aise/src/]: what a turn has gathered so far and
    the phase it is in.  Every stage hands its result to one of the operations below,
    which checks the phase, checks the result against the budget and moves the turn
    on; an operation that fails leaves the turn as it was, since each checks before it
    writes.  The two observations of a turn, JSON for its traces, are not modelled. *)

From S2P Require Import Prelude Text AiseIds AiseRule AiseNarrative AiseStory AiseTurnData AiseExtraction.
From S2P Require Import AiseScan AisePorts AiseActivation AiseCoordination AiseBudget AiseValidation.

(** [serde_json::to_string] of what a turn measures, with the text of its error. *)
Class TurnJson := {
  plan_json : WriterPlan → result string string;
  envelope_json : StoryStateExtractionEnvelope → result string string;
}.

(** The texts of [RetrievedContextError]. *)
Definition retrieved_error_display (e : RetrievedContextError) : string :=
  match e with
  | Retrieved_InvalidKind => "retrieved context kind is invalid for its partition"
  | Retrieved_InvalidMemoryOwner => "retrieved context memory owner is invalid"
  | Retrieved_InvalidRole => "retrieved context role is invalid"
  | Retrieved_ConflictingDuplicate => "retrieved context contains a conflicting duplicate"
  | Retrieved_CountLimit limit => "retrieved context count limit exceeded: " +:+ limit
  | Retrieved_ItemByteLimit => "retrieved context item byte limit exceeded"
  | Retrieved_AudienceTokenLimit => "retrieved context audience token limit exceeded"
  | Retrieved_TotalTokenLimit => "retrieved context total token limit exceeded"
  | Retrieved_ArithmeticOverflow => "retrieved context arithmetic overflow"
  end.
(** [{kind:?}] *)
Definition terminal_debug (k : TurnTerminalKind) : string :=
  match k with Terminal_Failed => "Failed" | Terminal_Cancelled => "Cancelled" | Terminal_Conflict => "Conflict" end.

Record BoundStateExtraction := {
  bse_story_version : N;
  bse_envelope : StoryStateExtractionEnvelope;
}.

Section context.
Context `{RegexEngine}.

(** ** Data *)

Record PreparedActivation := {
  pa_continuation : ActivationContinuation;
  pa_pending_timed_state : PendingActivationStateDelta;
  pa_index_snapshot : ActivationIndexSnapshot;
  pa_loaded_entries : gmap KnowledgeSourceId LoadedActivationEntry;
}.
(** [ActivationRuntimeLimits::default] is all zeros. *)
Definition ActivationRuntimeLimits_zero : ActivationRuntimeLimits :=
  Build_ActivationRuntimeLimits 0 0 0 false 0 0 0 0 0 0 0 0 0 0 0 0 0 0 0 0 0 0 0 0 0 0 0.
Definition PreparedActivation_empty (snapshot : KnowledgeSnapshotRef) (turn : TurnNumber) : PreparedActivation :=
  let reference := ref_from_knowledge snapshot 0 1 in
  let no_literals := {| lit_patterns := []; lit_compiled_bytes := 0 |} in
  let no_regexes := {| rgx_patterns := []; rgx_compiled_bytes := 0 |} in
  {| pa_continuation := {|
       k_turn_number := turn; k_generation_trigger := Trigger_Normal; k_knowledge_snapshot := snapshot;
       k_index_snapshot := reference; k_activated := ∅; k_terminal_rejections := ∅; k_failed_probability := ∅;
       k_group_winners := ∅; k_recursion_level := 0; k_scan_depth := 1; k_depth_expansions := 0;
       k_recursion_sources := ∅; k_scanned_fragment_ids := ∅; k_matched_fragment_ids := ∅;
       k_accumulated_matches := ∅; k_audience_items := ∅; k_audience_tokens := ∅; k_total_delivery_items := 0;
       k_normal_tokens := 0; k_reserved_tokens := 0; k_mandatory_tokens := 0;
       k_consumed := ActivationWorkUsage_default; k_evidence_bytes := 0; k_limits := ActivationRuntimeLimits_zero |};
     pa_pending_timed_state := {| delta_upserts := []; delta_deletes := ∅ |};
     pa_index_snapshot := ActivationIndexSnapshot_new reference ∅ no_literals no_regexes no_literals no_regexes;
     pa_loaded_entries := ∅ |}.

Record TurnExecutionContext := {
  tc_identity : TurnIdentity;
  tc_phase : TurnPhase;
  tc_request : TurnRequest;
  tc_control : TurnControl;
  tc_budget : TurnBudget;
  tc_snapshot : option StoryReadSnapshot;
  tc_baseline : option BaselineContext;
  tc_plan : option WriterPlan;
  tc_narrative_projection : option NarrativeProjection;
  tc_activation : option PreparedActivation;
  tc_retrieved : RetrievedContext;
  tc_character_decisions : list CharacterDecision;
  tc_story : option StoryGeneratorOutput;
  tc_story_version : N;
  tc_extraction : option BoundStateExtraction;
  tc_validation : option ValidationResult;
  tc_change_set : option ValidatedChangeSet;
  tc_committed_result : option CommittedTurnResult;
  tc_terminal_kind : option TurnTerminalKind;
  tc_terminal_error : option TurnExecutionError;
  tc_llm_calls : list LlmCallUsage;
  tc_retrieval_skipped : bool;
  tc_character_thinking_skipped : bool;
}.
Definition context_eta (r : TurnExecutionContext) : TurnExecutionContext := {|
  tc_identity := tc_identity r; tc_phase := tc_phase r; tc_request := tc_request r; tc_control := tc_control r;
  tc_budget := tc_budget r; tc_snapshot := tc_snapshot r; tc_baseline := tc_baseline r; tc_plan := tc_plan r;
  tc_narrative_projection := tc_narrative_projection r; tc_activation := tc_activation r;
  tc_retrieved := tc_retrieved r; tc_character_decisions := tc_character_decisions r; tc_story := tc_story r;
  tc_story_version := tc_story_version r; tc_extraction := tc_extraction r; tc_validation := tc_validation r;
  tc_change_set := tc_change_set r; tc_committed_result := tc_committed_result r;
  tc_terminal_kind := tc_terminal_kind r; tc_terminal_error := tc_terminal_error r;
  tc_llm_calls := tc_llm_calls r; tc_retrieval_skipped := tc_retrieval_skipped r;
  tc_character_thinking_skipped := tc_character_thinking_skipped r
|}.
Definition set_tc_phase : (TurnPhase → TurnPhase) → TurnExecutionContext → TurnExecutionContext := ltac:(set_field context_eta tc_phase).
Definition set_tc_budget : (TurnBudget → TurnBudget) → TurnExecutionContext → TurnExecutionContext := ltac:(set_field context_eta tc_budget).
Definition set_tc_snapshot : (option StoryReadSnapshot → option StoryReadSnapshot) → TurnExecutionContext → TurnExecutionContext := ltac:(set_field context_eta tc_snapshot).
Definition set_tc_baseline : (option BaselineContext → option BaselineContext) → TurnExecutionContext → TurnExecutionContext := ltac:(set_field context_eta tc_baseline).
Definition set_tc_plan : (option WriterPlan → option WriterPlan) → TurnExecutionContext → TurnExecutionContext := ltac:(set_field context_eta tc_plan).
Definition set_tc_narrative_projection : (option NarrativeProjection → option NarrativeProjection) → TurnExecutionContext → TurnExecutionContext := ltac:(set_field context_eta tc_narrative_projection).
Definition set_tc_activation : (option PreparedActivation → option PreparedActivation) → TurnExecutionContext → TurnExecutionContext := ltac:(set_field context_eta tc_activation).
Definition set_tc_retrieved : (RetrievedContext → RetrievedContext) → TurnExecutionContext → TurnExecutionContext := ltac:(set_field context_eta tc_retrieved).
Definition set_tc_character_decisions : (list CharacterDecision → list CharacterDecision) → TurnExecutionContext → TurnExecutionContext := ltac:(set_field context_eta tc_character_decisions).
Definition set_tc_story : (option StoryGeneratorOutput → option StoryGeneratorOutput) → TurnExecutionContext → TurnExecutionContext := ltac:(set_field context_eta tc_story).
Definition set_tc_story_version : (N → N) → TurnExecutionContext → TurnExecutionContext := ltac:(set_field context_eta tc_story_version).
Definition set_tc_extraction : (option BoundStateExtraction → option BoundStateExtraction) → TurnExecutionContext → TurnExecutionContext := ltac:(set_field context_eta tc_extraction).
Definition set_tc_validation : (option ValidationResult → option ValidationResult) → TurnExecutionContext → TurnExecutionContext := ltac:(set_field context_eta tc_validation).
Definition set_tc_change_set : (option ValidatedChangeSet → option ValidatedChangeSet) → TurnExecutionContext → TurnExecutionContext := ltac:(set_field context_eta tc_change_set).
Definition set_tc_committed_result : (option CommittedTurnResult → option CommittedTurnResult) → TurnExecutionContext → TurnExecutionContext := ltac:(set_field context_eta tc_committed_result).
Definition set_tc_terminal_kind : (option TurnTerminalKind → option TurnTerminalKind) → TurnExecutionContext → TurnExecutionContext := ltac:(set_field context_eta tc_terminal_kind).
Definition set_tc_terminal_error : (option TurnExecutionError → option TurnExecutionError) → TurnExecutionContext → TurnExecutionContext := ltac:(set_field context_eta tc_terminal_error).
Definition set_tc_llm_calls : (list LlmCallUsage → list LlmCallUsage) → TurnExecutionContext → TurnExecutionContext := ltac:(set_field context_eta tc_llm_calls).
Definition set_tc_retrieval_skipped : (bool → bool) → TurnExecutionContext → TurnExecutionContext := ltac:(set_field context_eta tc_retrieval_skipped).
Definition set_tc_character_thinking_skipped : (bool → bool) → TurnExecutionContext → TurnExecutionContext := ltac:(set_field context_eta tc_character_thinking_skipped).

Context `{TurnJson}.

Definition invariant (code : string) (stage : option TurnStage) (message : string) : TurnExecutionError :=
  turn_error Kind_InvariantViolation code stage message.

Definition TurnExecutionContext_new (identity : TurnIdentity) (request : TurnRequest) (budget : TurnBudget)
    (control : TurnControl) : result TurnExecutionError TurnExecutionContext :=
  fail_if (remaining_output_tokens budget =? 0)%N
  with turn_error Kind_InvalidRequest "zero_output_budget" None "turn budget max_output_tokens must be positive" in
  Ok {| tc_identity := identity; tc_phase := Phase_Created; tc_request := request; tc_control := control;
        tc_budget := budget; tc_snapshot := None; tc_baseline := None; tc_plan := None;
        tc_narrative_projection := None; tc_activation := None; tc_retrieved := RetrievedContext_default;
        tc_character_decisions := []; tc_story := None; tc_story_version := 0; tc_extraction := None;
        tc_validation := None; tc_change_set := None; tc_committed_result := None; tc_terminal_kind := None;
        tc_terminal_error := None; tc_llm_calls := []; tc_retrieval_skipped := false;
        tc_character_thinking_skipped := false |}.

(** ** Phases *)

(** [set_pahse] *)
Definition set_pahse (phase : TurnPhase) : TurnExecutionContext → TurnExecutionContext := set_tc_phase (λ _, phase).

Definition expect_phase (c : TurnExecutionContext) (expected : TurnPhase) : result TurnExecutionError unit :=
  fail_if negb (bool_decide (tc_phase c = expected))
  with invariant "invalid_phase_transition" None
    ("invalid phase transition: expected " +:+ phase_debug expected +:+ ", current " +:+ phase_debug (tc_phase c)) in
  Ok tt.
Definition expect_phase_one_of (c : TurnExecutionContext) (expected : list TurnPhase) : result TurnExecutionError unit :=
  fail_if negb (bool_decide (tc_phase c ∈ expected))
  with invariant "invalid_phase_transition" None
    ("invalid phase transition: expected one of " +:+ phases_debug expected +:+ ", current " +:+ phase_debug (tc_phase c)) in
  Ok tt.
Definition expect_terminal (c : TurnExecutionContext) (expected : TurnTerminalKind) : result TurnExecutionError unit :=
  match tc_terminal_kind c with
  | None => Ok tt
  | Some actual =>
      fail_if negb (bool_decide (actual = expected))
      with invariant "terminal_kind_already_set" None
        ("terminal kind already set to " +:+ terminal_debug actual +:+ ", cannot set " +:+ terminal_debug expected) in
      Ok tt
  end.
Definition require_plan (c : TurnExecutionContext) (stage : TurnStage) (before : string) :
    result TurnExecutionError WriterPlan :=
  ok_or (tc_plan c) (invariant "missing_writer_plan" (Some stage) ("writer plan is required before " +:+ before)).

(** ** Preparation and planning *)

Definition complete_initialization (c : TurnExecutionContext) : result TurnExecutionError TurnExecutionContext :=
  let? _ := expect_phase c Phase_Created in
  Ok (set_tc_phase (λ _, Phase_Initialized) c).

Definition set_prepared_context (snapshot : StoryReadSnapshot) (baseline : BaselineContext)
    (projection : NarrativeProjection) (activation : PreparedActivation) (c : TurnExecutionContext) :
    result TurnExecutionError TurnExecutionContext :=
  let? _ := expect_phase c Phase_Initialized in
  let estimated := baseline_estimate_tokens baseline in
  let maximum := max_context_tokens (budget_limits (tc_budget c)) in
  fail_if (maximum <? estimated)%N
  with invariant "context_token_budget_exceeded" (Some Stage_Context)
    ("prepared context " +:+ pretty estimated +:+ " tokens exceeds budget " +:+ pretty maximum) in
  Ok (set_tc_phase (λ _, Phase_Prepared) (set_tc_activation (λ _, Some activation)
       (set_tc_narrative_projection (λ _, Some projection) (set_tc_baseline (λ _, Some baseline)
         (set_tc_snapshot (λ _, Some snapshot) c))))).

Definition replace_activation (activation : PreparedActivation) (c : TurnExecutionContext) :
    result TurnExecutionError TurnExecutionContext :=
  let? _ := expect_phase c Phase_Planned in
  Ok (set_tc_activation (λ _, Some activation) c).
Definition set_narrative_projection (projection : NarrativeProjection) (c : TurnExecutionContext) :
    result TurnExecutionError TurnExecutionContext :=
  let? _ := expect_phase c Phase_Prepared in
  Ok (set_tc_narrative_projection (λ _, Some projection) c).

Definition set_writer_plan (plan : WriterPlan) (c : TurnExecutionContext) :
    result TurnExecutionError TurnExecutionContext :=
  let? _ := expect_phase c Phase_Prepared in
  let? serialized := map_err (invariant "plan_serialization_failed" (Some Stage_WriterPlanner)) (plan_json plan) in
  let maximum := max_plan_bytes (budget_limits (tc_budget c)) in
  fail_if (maximum <? slen serialized)%N
  with invariant "plan_byte_limit" (Some Stage_WriterPlanner)
    ("writer plan " +:+ pretty (slen serialized) +:+ " bytes exceeds budget " +:+ pretty maximum) in
  Ok (set_tc_phase (λ _, Phase_Planned) (set_tc_plan (λ _, Some plan) c)).

(** ** Retrieval and characters *)

Definition retrieved_limits (c : TurnExecutionContext) : RetrievedContextLimits :=
  let l := budget_limits (tc_budget c) in {|
  max_role_audiences := max_character_decisions l;
  max_items_per_audience := lim_max_items_per_audience l;
  max_tokens_per_audience := lim_max_tokens_per_audience l;
  max_total_items := lim_max_total_items l;
  max_total_tokens := max_retrieved_tokens l;
  max_item_bytes := lim_max_item_bytes l;
|}.
Definition set_retrieved_context (context : RetrievedContext) (c : TurnExecutionContext) :
    result TurnExecutionError TurnExecutionContext :=
  let? _ := expect_phase c Phase_Planned in
  let? plan := require_plan c Stage_Context "retrieval" in
  fail_if existsb (λ role_id, negb (existsb (λ r, bool_decide (ctr_role_id r = role_id)) (character_think_requests plan)))
            (keys (ret_characters context))
  with invariant "retrieved_character_audience_unauthorized" (Some Stage_Context)
    "retrieved character audience has no matching character think request" in
  let? revalidated := map_err (λ e, invariant (AiseTurnData.turn_code e) (Some Stage_Context) (retrieved_error_display e))
    (RetrievedContext_try_new (ret_world context) (ret_characters context) (retrieved_limits c)) in
  Ok (set_tc_retrieved (λ _, revalidated) c).

Definition requires_retrieval (c : TurnExecutionContext) : result TurnExecutionError bool :=
  let? _ := expect_phase c Phase_Planned in
  let? plan := require_plan c Stage_Context "retrieval" in
  Ok (negb (bool_decide (length (character_requests (retrieval_plan plan)) = 0))
      || negb (bool_decide (length (knowledge_requests (retrieval_plan plan)) = 0))).
Definition skip_retrieval (c : TurnExecutionContext) : result TurnExecutionError TurnExecutionContext :=
  let? _ := expect_phase c Phase_Planned in
  Ok (set_tc_retrieval_skipped (λ _, true) (set_tc_retrieved (λ _, RetrievedContext_default) c)).

Definition requires_character_thinking (c : TurnExecutionContext) : result TurnExecutionError bool :=
  let? _ := expect_phase c Phase_Planned in
  let? plan := require_plan c Stage_CharacterThink "character thinking" in
  Ok (negb (bool_decide (length (character_think_requests plan) = 0))).
Definition skip_character_thinking (c : TurnExecutionContext) : result TurnExecutionError TurnExecutionContext :=
  let? _ := expect_phase c Phase_Planned in
  let? plan := require_plan c Stage_CharacterThink "character thinking" in
  fail_if negb (bool_decide (length (character_think_requests plan) = 0))
  with invariant "character_thinking_not_skippable" (Some Stage_CharacterThink)
    "writer plan requests character thinking and cannot be skipped" in
  Ok (set_tc_character_thinking_skipped (λ _, true) (set_tc_character_decisions (λ _, []) c)).

Definition decision_bytes (decisions : list CharacterDecision) : N :=
  foldl (λ total d, sat_add USIZE_MAX (sat_add USIZE_MAX total (slen (cd_decision d)))
                      (from_option slen 0%N (cd_suggested_utterance d))) 0%N decisions.
Definition set_character_decisions (decisions : list CharacterDecision) (c : TurnExecutionContext) :
    result TurnExecutionError TurnExecutionContext :=
  let error code message := invariant code (Some Stage_CharacterThink) message in
  let limits := budget_limits (tc_budget c) in
  let? _ := expect_phase c Phase_Planned in
  fail_if (max_character_decisions limits <? nlen decisions)%N
  with error "character_decision_limit" ("character decisions " +:+ pretty (nlen decisions) +:+ " exceeds budget "
         +:+ pretty (max_character_decisions limits)) in
  let? plan := require_plan c Stage_CharacterThink "character decisions" in
  fail_if negb (nlen decisions =? nlen (character_think_requests plan))%N
  with error "character_decision_count_mismatch" ("character decisions " +:+ pretty (nlen decisions)
         +:+ " does not match request count " +:+ pretty (nlen (character_think_requests plan))) in
  fail_if existsb (λ '(decision, request), negb (bool_decide (cd_role_id decision = ctr_role_id request)))
            (zip decisions (character_think_requests plan))
  with error "character_decision_order_mismatch" "character decision id does not match the paired request" in
  fail_if negb (bool_decide (NoDup (map cd_role_id decisions)))
  with error "duplicate_character_decision" "character decision collection contains a duplicate target" in
  fail_if from_option (λ b, existsb (λ d, bool_decide (cd_role_id d = rcv_role_id (base_player_role b))) decisions) false
            (tc_baseline c)
  with error "character_think_player_target" "character decision targets the player character" in
  fail_if (max_character_decision_bytes limits <? decision_bytes decisions)%N
  with error "character_decision_byte_limit" ("character decisions " +:+ pretty (decision_bytes decisions)
         +:+ " bytes exceeds budget " +:+ pretty (max_character_decision_bytes limits)) in
  Ok (set_tc_character_decisions (λ _, decisions) c).

Definition complete_context_preparation (c : TurnExecutionContext) : result TurnExecutionError TurnExecutionContext :=
  let? _ := expect_phase c Phase_Planned in
  Ok (set_tc_phase (λ _, Phase_ContextReady) c).

(** ** The candidate: its story, its extraction, its validation *)

Definition ensure_story_bound (c : TurnExecutionContext) (story : StoryGeneratorOutput) (stage : TurnStage) :
    result TurnExecutionError unit :=
  fail_if is_empty (trim (story_text story))
  with turn_error Kind_Llm "story_text_empty" (Some stage) "story text must not be empty" in
  fail_if (max_story_text_bytes (budget_limits (tc_budget c)) <? slen (story_text story))%N
  with turn_error Kind_Llm "story_text_exceeds_bounds" (Some stage) "story text exceeds its byte bound" in
  Ok tt.
Definition ensure_extraction_bound (c : TurnExecutionContext) (envelope : StoryStateExtractionEnvelope)
    (stage : TurnStage) : result TurnExecutionError unit :=
  let? serialized := map_err (invariant "extraction_serialization_failed" (Some stage)) (envelope_json envelope) in
  fail_if (max_state_extraction_bytes (budget_limits (tc_budget c)) <? slen serialized)%N
  with turn_error Kind_Llm "state_extraction_exceeds_bounds" (Some stage)
    "state extraction output exceeds its byte bound" in
  Ok tt.
Definition ensure_issue_bytes (c : TurnExecutionContext) (issues : list ValidationIssue) (stage : TurnStage) :
    result TurnExecutionError unit :=
  let maximum := max_validation_issue_bytes (budget_limits (tc_budget c)) in
  try_for_each (λ issue,
    fail_if (maximum <? slen (iss_message issue))%N
    with invariant "validation_issue_byte_limit" (Some stage)
      ("validation issue message " +:+ pretty (slen (iss_message issue)) +:+ " bytes exceeds budget " +:+ pretty maximum) in
    Ok tt) issues.

(** A new text makes what was said of the former one void. *)
Definition forget_candidate (c : TurnExecutionContext) : TurnExecutionContext :=
  set_tc_change_set (λ _, None) (set_tc_validation (λ _, None) (set_tc_extraction (λ _, None) c)).

Definition set_generated_story (story : StoryGeneratorOutput) (c : TurnExecutionContext) :
    result TurnExecutionError TurnExecutionContext :=
  let? _ := expect_phase c Phase_ContextReady in
  let? _ := ensure_story_bound c story Stage_StoryGenerator in
  Ok (set_tc_phase (λ _, Phase_StoryReady)
       (forget_candidate (set_tc_story_version (λ _, 1%N) (set_tc_story (λ _, Some story) c)))).

Definition bind_extraction (envelope : StoryStateExtractionEnvelope) (c : TurnExecutionContext) : TurnExecutionContext :=
  set_tc_phase (λ _, Phase_CandidateReady) (set_tc_change_set (λ _, None) (set_tc_validation (λ _, None)
    (set_tc_extraction (λ _, Some {| bse_story_version := tc_story_version c; bse_envelope := envelope |}) c))).
Definition set_state_extraction (envelope : StoryStateExtractionEnvelope) (c : TurnExecutionContext) :
    result TurnExecutionError TurnExecutionContext :=
  let? _ := expect_phase c Phase_StoryReady in
  let? _ := ensure_extraction_bound c envelope Stage_StoryStateExtractor in
  Ok (bind_extraction envelope c).

Definition record_state_extraction_failure (issues : BoundedValidationIssues) (c : TurnExecutionContext) :
    result TurnExecutionError TurnExecutionContext :=
  let? _ := expect_phase_one_of c [Phase_StoryReady; Phase_StateReextractionRequired] in
  let? _ := ensure_issue_bytes c (bvi_issues issues) Stage_StoryStateExtractor in
  Ok (set_tc_phase (λ _, Phase_StateReextractionRequired)
       (set_tc_validation (λ _, Some (Validation_ReextractState issues))
         (set_tc_change_set (λ _, None) (set_tc_extraction (λ _, None) c)))).

Definition set_validation_result (r : ValidationResult) (c : TurnExecutionContext) :
    result TurnExecutionError TurnExecutionContext :=
  let? _ := expect_phase c Phase_CandidateReady in
  let? _ := ensure_issue_bytes c (result_issues r) Stage_Validation in
  let c' := match result_decision r with
    | Decision_Pass => set_tc_change_set (λ _, into_change_set r) c
    | Decision_RepairStory => set_tc_change_set (λ _, None) (set_tc_extraction (λ _, None) c)
    | Decision_ReextractState | Decision_Reject => set_tc_change_set (λ _, None) c
    end in
  Ok (set_tc_validation (λ _, Some r) (set_tc_phase (λ _, to_turn_phase (result_decision r)) c')).

Definition replace_story (story : StoryGeneratorOutput) (c : TurnExecutionContext) :
    result TurnExecutionError TurnExecutionContext :=
  let? _ := expect_phase c Phase_StoryRepairRequired in
  let? _ := ensure_story_bound c story Stage_StoryRepairer in
  fail_if from_option (λ current, bool_decide (story_text current = story_text story)) false (tc_story c)
  with story_repair_no_progress (Some Stage_StoryRepairer) in
  let? version := ok_or (checked_add U32_MAX (tc_story_version c) 1)
    (invariant "story_version_overflow" (Some Stage_StoryRepairer) "candidate story version overflow") in
  Ok (set_tc_phase (λ _, Phase_StoryReady)
       (forget_candidate (set_tc_story (λ _, Some story) (set_tc_story_version (λ _, version) c)))).

Definition replace_state_extraction (envelope : StoryStateExtractionEnvelope) (c : TurnExecutionContext) :
    result TurnExecutionError TurnExecutionContext :=
  let? _ := expect_phase c Phase_StateReextractionRequired in
  let? _ := ensure_extraction_bound c envelope Stage_StoryStateExtractor in
  let json e := match envelope_json e with Ok s => Some s | Err _ => None end in
  let no_progress := match tc_extraction c, tc_validation c with
    | Some existing, Some (Validation_ReextractState _) =>
        bool_decide (json (bse_envelope existing) = json envelope)
    | _, _ => false
    end in
  fail_if (no_progress : bool) with state_reextraction_no_progress (Some Stage_StoryStateExtractor) in
  Ok (bind_extraction envelope c).

Definition validation_decision (c : TurnExecutionContext) : result TurnExecutionError ValidationDecision :=
  match tc_validation c with
  | Some r => Ok (result_decision r)
  | None => Err (invariant "no_validation_result" None "no validation result")
  end.
Definition validation_rejected_error (c : TurnExecutionContext) : result TurnExecutionError TurnExecutionError :=
  match tc_validation c with
  | Some (Validation_Reject issues) =>
      Ok (validation_rejected (join "," (map (λ issue, issue_code_as_str (iss_code issue)) (bvi_issues issues))))
  | _ => Err (invariant "no_rejected_validation_result" None "validation result is not a rejection")
  end.
Definition context_consume_correction_round (kind : CorrectionKind) (c : TurnExecutionContext) :
    result TurnExecutionError TurnExecutionContext :=
  let? budget := consume_correction_round (tc_budget c) kind in
  Ok (set_tc_budget (λ _, budget) c).

(** [construct_changeset]: a change set of the story alone, with nothing extracted
    and nothing validated. *)
Definition construct_changeset (c : TurnExecutionContext) : result TurnExecutionError TurnExecutionContext :=
  let? story := ok_or (tc_story c) (invariant "missing_story_text" (Some Stage_StoryGenerator)
    "story text is required before constructing the change set") in
  let? change_set := ValidatedChangeSet_new {|
    cs_story_text := story_text story;
    cs_new_roles := [];
    cs_role_changes := [];
    cs_relationship_operations := [];
    cs_knowledge_mutations := [];
    cs_knowledge_id_high_water := 0%N;
    cs_next_role_id_high_water := 0%N;
    cs_narrative_events := [];
    cs_narrative_resolution := {|
      vnr_candidate_version := {| content_digest := replicate 32 0%N; repair_attempt := 0 |};
      vnr_transitions := [];
      vnr_condition_results := ∅;
      vnr_pending_effects := [];
      vnr_next_graph_revision := 0 |};
    cs_constraint_change := Change_Unchanged |} in
  Ok (set_tc_change_set (λ _, Some change_set) c).

(** ** The end of a turn *)

Definition set_committed_result (r : CommittedTurnResult) (c : TurnExecutionContext) :
    result TurnExecutionError TurnExecutionContext :=
  let? _ := expect_phase c Phase_ReadyToCommit in
  Ok (set_tc_phase (λ _, Phase_Committed) (set_tc_committed_result (λ _, Some r) c)).

Definition terminal_phase_of (k : TurnTerminalKind) : TurnPhase :=
  match k with
  | Terminal_Failed => Phase_Failed | Terminal_Cancelled => Phase_Cancelled | Terminal_Conflict => Phase_Conflict
  end.
(** [mark_failed], [mark_cancelled] and [mark_conflict]. *)
Definition mark_terminal (k : TurnTerminalKind) (failure : TurnExecutionError) (c : TurnExecutionContext) :
    result TurnExecutionError TurnExecutionContext :=
  let? _ := expect_terminal c k in
  Ok (set_tc_terminal_error (λ _, Some failure) (set_tc_phase (λ _, terminal_phase_of k)
       (set_tc_terminal_kind (λ _, Some k) c))).
Definition mark_failed := mark_terminal Terminal_Failed.
Definition mark_cancelled := mark_terminal Terminal_Cancelled.
Definition mark_conflict := mark_terminal Terminal_Conflict.
Definition is_terminal (c : TurnExecutionContext) : bool := phase_is_terminal (tc_phase c).
Definition terminal_phase (c : TurnExecutionContext) : option TurnPhase :=
  if is_terminal c then Some (tc_phase c) else None.

(** ** The calls of the model: [TurnLlmCallScope] *)

Record TurnLlmCallScope := {
  scope_stage : TurnStage;
  scope_attempt : N;
  scope_correction_round : option N;
  scope_character_id : option string;
}.
Definition llm_call_scope (stage : TurnStage) : TurnLlmCallScope :=
  {| scope_stage := stage; scope_attempt := 1; scope_correction_round := None; scope_character_id := None |}.
Definition with_character_id (id : string) (s : TurnLlmCallScope) : TurnLlmCallScope := {|
  scope_stage := scope_stage s; scope_attempt := scope_attempt s;
  scope_correction_round := scope_correction_round s; scope_character_id := Some id |}.
Definition with_correction_round (round : N) (s : TurnLlmCallScope) : TurnLlmCallScope := {|
  scope_stage := scope_stage s; scope_attempt := scope_attempt s;
  scope_correction_round := Some round; scope_character_id := scope_character_id s |}.

Definition scope_reserve_llm (call_id : LlmCallId) (estimated_input requested_output : N) (c : TurnExecutionContext) :
    result TurnExecutionError (TurnExecutionContext * LlmBudgetReservation) :=
  let? '(budget, reservation) := reserve_llm (tc_budget c) call_id estimated_input requested_output in
  Ok (set_tc_budget (λ _, budget) c, reservation).
Definition scope_release_llm (reservation : LlmBudgetReservation) (c : TurnExecutionContext) : TurnExecutionContext :=
  set_tc_budget (λ b, release_llm b reservation) c.
(** What was paid stays paid when the settlement is over the limit, but the call is
    not recorded then. *)
Definition scope_settle_llm (reservation : LlmBudgetReservation) (usage : LlmCallUsage) (c : TurnExecutionContext) :
    TurnExecutionContext * result TurnExecutionError unit :=
  let '(budget, settled) := settle_llm (tc_budget c) reservation usage in
  let c := set_tc_budget (λ _, budget) c in
  match settled with
  | Ok _ => (set_tc_llm_calls (λ calls, calls ++ [usage]) c, Ok tt)
  | Err e => (c, Err e)
  end.
End context.
