(* ===== verification/AisePlanning.v ===== *)
(** * What the writer plans

    [planning/retrieval_plan_builder.rs], [planning/planner_output.rs],
    [planning/error.rs], [planning/writer_planner_prompt.rs] and the views of
    [prompt/narrative_direction.rs], [prompt/knowledge_view.rs] and
    [prompt/story_profile_view.rs], of [crates/aise/src/]: what the planner is shown,
    what its answer must look like and how an answer becomes a plan.  The JSON schema
    and the prompt text of the contract are not modelled. *)

From S2P Require Import Prelude Text AiseIds AiseRule AiseNarrative AiseStory AiseTurnData AiseConfig AiseScan AiseBudget.

(** ** Errors *)

Inductive PlanningError :=
| Plan_Narrative (e : NarrativeError)
| Plan_InvalidOutput (code : string)
| Plan_UnknownRole
| Plan_PlayerRoleRequested
| Plan_DuplicateRoleTarget
| Plan_UnknownRetrievalKey
| Plan_KnowledgeAudienceViolation
| Plan_LimitExceeded (limit : string).
Definition planning_turn_code (e : PlanningError) : string :=
  match e with Plan_Narrative _ => "narrative_evaluation_failed" | _ => "writer_plan_invalid" end.
Definition planning_error_display (e : PlanningError) : string :=
  match e with
  | Plan_Narrative _ => "narrative evaluation failed"
  | Plan_InvalidOutput code => "writer planner output is invalid: " +:+ code
  | Plan_UnknownRole => "writer planner referenced an unknown role"
  | Plan_PlayerRoleRequested => "writer planner requested a player-controlled role"
  | Plan_DuplicateRoleTarget => "writer planner requested a role more than once"
  | Plan_UnknownRetrievalKey => "writer planner referenced an unknown entity or topic"
  | Plan_KnowledgeAudienceViolation => "writer planner violated knowledge audience rules"
  | Plan_LimitExceeded limit => "writer plan limit exceeded: " +:+ limit
  end.
(** [map_planning_error] *)
Definition map_planning_error (e : PlanningError) : TurnExecutionError :=
  turn_error Kind_InvariantViolation (planning_turn_code e) (Some Stage_WriterPlanner) (planning_error_display e).

(** ** The answer of the planner *)

Record PlannerWriterContextGapDto := { wgap_target_id : string; wgap_reason : string }.
Record PlannerCharacterContextGapDto := { cgap_role_id : string; cgap_target_id : string; cgap_reason : string }.
Record CharacterThinkRequestDto := { dto_role_id : string; dto_reason : string }.
Record WriterPlannerOutputDto := {
  out_story_goal : string;
  out_writer_context_gaps : list PlannerWriterContextGapDto;
  out_character_context_gaps : list PlannerCharacterContextGapDto;
  out_character_think_requests : list CharacterThinkRequestDto;
}.

(** A violation of the contract, with its reason. *)
Definition writer_gap_bad (max_reason_bytes : N) (gap : PlannerWriterContextGapDto) : bool :=
  is_blank (wgap_target_id gap) || is_blank (wgap_reason gap) || (max_reason_bytes <? slen (wgap_reason gap))%N.
Definition character_gap_bad (max_reason_bytes : N) (gap : PlannerCharacterContextGapDto) : bool :=
  is_blank (cgap_role_id gap) || is_blank (cgap_target_id gap) || is_blank (cgap_reason gap)
  || (max_reason_bytes <? slen (cgap_reason gap))%N.
Definition think_request_bad (max_reason_bytes : N) (request : CharacterThinkRequestDto) : bool :=
  is_blank (dto_role_id request) || is_blank (dto_reason request) || (max_reason_bytes <? slen (dto_reason request))%N.
Definition validate_writer_planner_output (dto : WriterPlannerOutputDto)
    (max_goal_bytes max_context_gaps max_character_think_requests max_reason_bytes : N) : result string unit :=
  fail_if is_blank (out_story_goal dto) || (max_goal_bytes <? slen (out_story_goal dto))%N
  with "story_goal must be trim-non-empty and within the configured byte budget" in
  fail_if (max_context_gaps <? nlen (out_writer_context_gaps dto))%N
       || (max_context_gaps <? nlen (out_character_context_gaps dto))%N
  with "context gap count exceeds the configured maximum" in
  fail_if (max_character_think_requests <? nlen (out_character_think_requests dto))%N
  with "character think request count exceeds the configured maximum" in
  fail_if existsb (writer_gap_bad max_reason_bytes) (out_writer_context_gaps dto)
  with "writer context gap has an empty or oversized field" in
  fail_if existsb (character_gap_bad max_reason_bytes) (out_character_context_gaps dto)
  with "character context gap has an empty or oversized field" in
  fail_if existsb (think_request_bad max_reason_bytes) (out_character_think_requests dto)
  with "character think request has an empty or oversized field" in
  Ok tt.

(** ** The targets the planner may name *)

Inductive IndexedRetrievalTarget :=
| Target_Role (role_id : RoleId)
| Target_Knowledge (source_id : KnowledgeSourceId).
#[global] Instance IndexedRetrievalTarget_eq_dec : EqDecision IndexedRetrievalTarget. Proof. solve_decision. Defined.
Record WriterPlannerPromptContext := {
  indexed_targets : gmap string IndexedRetrievalTarget;
  provided_role_ids : list RoleId;
  provided_knowledge_ids : list KnowledgeSourceId;
}.
Inductive WriterPlannerProjectionError :=
| Projection_UnknownRoleTarget (role_id : RoleId)
| Projection_PlayerRoleTarget (role_id : RoleId)
| Projection_DuplicateRoleTarget (role_id : RoleId)
| Projection_RetrievalTargetCollision (key : string)
| Projection_RequiredPromptDataExceedsBudget.
Definition projection_error_code (e : WriterPlannerProjectionError) : string :=
  match e with
  | Projection_UnknownRoleTarget _ => "unknown_role_target"
  | Projection_PlayerRoleTarget _ => "player_role_target"
  | Projection_DuplicateRoleTarget _ => "duplicate_role_target"
  | Projection_RetrievalTargetCollision _ => "retrieval_target_collision"
  | Projection_RequiredPromptDataExceedsBudget => "required_prompt_data_exceeds_budget"
  end.
Definition projection_error_display (e : WriterPlannerProjectionError) : string :=
  match e with
  | Projection_UnknownRoleTarget role_id => "writer planner role target is unknown: " +:+ role_id
  | Projection_PlayerRoleTarget role_id => "writer planner role target is player-controlled: " +:+ role_id
  | Projection_DuplicateRoleTarget role_id => "writer planner role target is duplicated: " +:+ role_id
  | Projection_RetrievalTargetCollision key =>
      "writer planner retrieval target key collides across target domains: " +:+ key
  | Projection_RequiredPromptDataExceedsBudget => "writer planner required prompt data exceeds budget"
  end.

Definition insert_target (targets : gmap string IndexedRetrievalTarget) (e : string * IndexedRetrievalTarget) :
    result WriterPlannerProjectionError (gmap string IndexedRetrievalTarget) :=
  let '(key, target) := e in
  match targets !! key with
  | Some existing =>
      fail_if negb (bool_decide (existing = target)) with Projection_RetrievalTargetCollision key in
      Ok (<[key := target]> targets)
  | None => Ok (<[key := target]> targets)
  end.
Definition role_target (entry : RoleIndexEntry) : string * IndexedRetrievalTarget :=
  (rie_role_id entry, Target_Role (rie_role_id entry)).
Definition knowledge_target (entry : KnowledgeIndexEntry) : string * IndexedRetrievalTarget :=
  (sid_as_str (kie_source_id entry), Target_Knowledge (kie_source_id entry)).

(** ** What the planner is shown *)

(** [serde_json::to_string] of a string, which cannot fail. *)
Class JsonText := quoted : string → string.

Definition nl : string := String (byte_of 10) "".
Definition blank_line : string := nl +:+ nl.
(** The texts of a list, one item a line, under a title; nothing when it is empty. *)
Definition titled {A} (title : string) (item : A → string) (l : list A) : list string :=
  match l with [] => [] | _ => ["### " +:+ title +:+ blank_line +:+ join nl (map item l)] end.

Section render.
Context `{JsonText}.

Definition quoted_list (values : list BoundedText) : string := "[" +:+ join ", " (map quoted values) +:+ "]".
Definition quoted_item (content : BoundedText) : string := "- " +:+ quoted content.

(** *** [prompt/story_profile_view.rs] *)

Record StoryProfilePromptView := {
  spv_title : BoundedText;
  spv_language : BoundedText;
  spv_genre : list BoundedText;
  spv_themes : list BoundedText;
  spv_tone : list BoundedText;
  spv_point_of_view : BoundedText;
  spv_tense : BoundedText;
}.
Definition StoryProfilePromptView_new (title : BoundedText) (profile : StoryProfile) : StoryProfilePromptView := {|
  spv_title := title;
  spv_language := profile_language profile;
  spv_genre := profile_genre profile;
  spv_themes := profile_themes profile;
  spv_tone := style_tone (profile_style profile);
  spv_point_of_view := point_of_view (profile_style profile);
  spv_tense := tense (profile_style profile);
|}.
Definition field (name value : string) : string := name +:+ ": " +:+ quoted value.
Definition list_field (name : string) (values : list BoundedText) : string := name +:+ ": " +:+ quoted_list values.
Definition optional_list_field (name : string) (values : list BoundedText) : list string :=
  match values with [] => [] | _ => [list_field name values] end.
Definition render_story_profile_view (view : StoryProfilePromptView) : string :=
  join nl (
    [field "title" (spv_title view); field "language" (spv_language view)]
    ++ optional_list_field "genre" (spv_genre view)
    ++ optional_list_field "themes" (spv_themes view)
    ++ optional_list_field "tone" (spv_tone view)
    ++ [field "point_of_view" (spv_point_of_view view); field "tense" (spv_tense view)]).

(** *** [prompt/narrative_direction.rs] *)

Record WorldEventIntentPromptView := {
  wev_category : BoundedText;
  wev_participants : list NarrativeParticipant;
  wev_location : option LocationKey;
  wev_description : BoundedText;
}.
Record NarrativeDirectionPromptView := {
  ndv_active_directions : list BoundedText;
  ndv_world_event_intents : list WorldEventIntentPromptView;
}.
Definition direction_view_is_empty (v : NarrativeDirectionPromptView) : bool :=
  match ndv_active_directions v, ndv_world_event_intents v with [], [] => true | _, _ => false end.
Definition intent_view (intent : WorldEventIntent) : WorldEventIntentPromptView := {|
  wev_category := wei_category intent; wev_participants := wei_participants intent;
  wev_location := wei_location intent; wev_description := wei_description intent |}.
Definition project_narrative_direction (plan : NarrativePlan) : NarrativeDirectionPromptView := {|
  ndv_active_directions := map dir_dramatic_focus (active_directions plan);
  ndv_world_event_intents := map intent_view (world_event_intents plan);
|}.
Definition participant_reference (p : NarrativeParticipant) : string :=
  match p with Participant_Role id => "role:" +:+ id | Participant_Location key => "location:" +:+ key end.
Definition render_world_event_intent (intent : WorldEventIntentPromptView) : string :=
  join nl (
    ["- category: " +:+ quoted (wev_category intent)]
    ++ match wev_participants intent with
       | [] => []
       | participants =>
           ["  participants: [" +:+ join ", " (map (λ p, quoted (participant_reference p)) participants) +:+ "]"]
       end
    ++ match wev_location intent with Some location => ["  location: " +:+ quoted location] | None => [] end
    ++ ["  description: " +:+ quoted (wev_description intent)]).
Definition render_narrative_direction (view : NarrativeDirectionPromptView) : string :=
  join blank_line (
    titled "Active Directions" (λ direction, "- " +:+ direction) (ndv_active_directions view)
    ++ titled "World Event Intents" render_world_event_intent (ndv_world_event_intents view)).

(** *** [prompt/knowledge_view.rs] *)

Record WorldKnowledgePromptView := { wkv_facts : list BoundedText; wkv_rumors : list BoundedText }.
Record RoleKnowledgePromptView := { rkv_known_rumors : list BoundedText; rkv_memories : list BoundedText }.
(** [PromptProjectionError::IdConflict], which carries the identifier. *)
Definition PromptProjectionError : Type := string.

(** The contents in the order their identifiers are first seen. *)
Definition merge_entry (acc : gmap KnowledgeSourceId BoundedText * list KnowledgeSourceId)
    (e : KnowledgeSourceId * BoundedText) :
    result PromptProjectionError (gmap KnowledgeSourceId BoundedText * list KnowledgeSourceId) :=
  let '(seen, order) := acc in
  let '(id, content) := e in
  match seen !! id with
  | Some existing =>
      fail_if negb (bool_decide (existing = content)) with sid_as_str id in Ok (seen, order)
  | None => Ok (<[id := content]> seen, order ++ [id])
  end.
(** [seen.remove(&id).expect(...)]; an identifier is in the order once. *)
Definition merge_group (entries : list (KnowledgeSourceId * BoundedText)) : result PromptProjectionError (list BoundedText) :=
  let? '(seen, order) := try_fold merge_entry (∅, []) entries in
  Ok (omap (λ id, seen !! id) order).
Definition relevant_entry (e : RelevantWorldKnowledgeItem) : KnowledgeSourceId * BoundedText :=
  (rwk_source_id e, rwk_content e).
Definition retrieved_entry (i : RetrievedKnowledgeItem) : KnowledgeSourceId * BoundedText :=
  (rki_source_id i, rki_content i).
Definition merge_world_knowledge (baseline : RelevantWorldKnowledge) (retrieved : RetrievedWorldKnowledge) :
    result PromptProjectionError WorldKnowledgePromptView :=
  let? facts := merge_group (map relevant_entry (rwk_facts baseline) ++ map retrieved_entry (ret_facts retrieved)) in
  let? rumors := merge_group (map relevant_entry (rwk_rumors baseline) ++ map retrieved_entry (ret_rumors retrieved)) in
  Ok {| wkv_facts := facts; wkv_rumors := rumors |}.
Definition world_knowledge_view_from_baseline (baseline : RelevantWorldKnowledge) : WorldKnowledgePromptView := {|
  wkv_facts := map rwk_content (rwk_facts baseline);
  wkv_rumors := map rwk_content (rwk_rumors baseline);
|}.
Definition render_relevant_knowledge (knowledge : WorldKnowledgePromptView) : string :=
  join blank_line (titled "Facts" quoted_item (wkv_facts knowledge) ++ titled "Rumors" quoted_item (wkv_rumors knowledge)).
Definition render_role_knowledge (knowledge : RoleKnowledgePromptView) : string :=
  join blank_line (titled "Known Rumors" quoted_item (rkv_known_rumors knowledge)
                   ++ titled "Memories" quoted_item (rkv_memories knowledge)).

(** *** [planning/writer_planner_prompt.rs] *)

Definition render_instance_settings (policy : CastPolicy) : string :=
  "cast_policy: " +:+
  match policy with Cast_Open => "open" | Cast_IncidentalOnly => "incidental_only" | Cast_Closed => "closed" end.
Definition scalar (v : ScalarValue) : string :=
  match v with
  | Scalar_Bool b => if b then "true" else "false"
  | Scalar_Integer z => pretty z
  | Scalar_Decimal s | Scalar_Text s => quoted s
  end.
Definition render_attributes (values : gmap AttributeKey ScalarValue) : string :=
  "{" +:+ join ", " (map (λ '(key, value), quoted key +:+ ": " +:+ scalar value) (entries values)) +:+ "}".
Definition optional_line (indent name : string) (value : option BoundedText) : list string :=
  match value with Some value => [indent +:+ field name value] | None => [] end.
Definition render_role (role : RoleContextView) (collection : bool) : string :=
  let profile := rcv_profile role in
  let state := rcv_state role in
  let first := if collection then "- " else "" in
  let rest := if collection then "  " else "" in
  join nl (
    [first +:+ field "role_id" (rcv_role_id role); rest +:+ field "name" (profile_name profile)]
    ++ (if bool_decide (rcv_role_label role = profile_name profile) then []
        else [rest +:+ field "role" (rcv_role_label role)])
    ++ optional_line rest "appearance" (profile_appearance profile)
    ++ optional_line rest "personality" (profile_personality profile)
    ++ optional_line rest "speaking_style" (profile_speaking_style profile)
    ++ optional_line rest "background" (rcv_background role)
    ++ [rest +:+ field "location" (state_location state)]
    ++ match state_goals state with [] => [] | goals => [rest +:+ "goals: " +:+ quoted_list goals] end
    ++ (if bool_decide (state_attributes state = ∅) then []
        else [rest +:+ "attributes: " +:+ render_attributes (state_attributes state)])).
Definition render_roles (roles : list RoleContextView) : string := join nl (map (λ role, render_role role true) roles).
Definition hint_entry (id hint : string) : string := "- " +:+ field "target_id" id +:+ nl +:+ "  " +:+ field "retrieval_hint" hint.
Definition render_role_index (baseline : BaselineContext) : string :=
  join blank_line (titled "Retrievable Characters"
    (λ entry, hint_entry (rie_role_id entry) (rie_retrieval_hint entry)) (role_index baseline)).
Definition index_of_kind (kind : KnowledgeKind) (baseline : BaselineContext) : list KnowledgeIndexEntry :=
  List.filter (λ entry, bool_decide (sid_kind (kie_source_id entry) = kind)) (knowledge_index baseline).
Definition render_knowledge_index (baseline : BaselineContext) : string :=
  let line entry := hint_entry (sid_as_str (kie_source_id entry)) (kie_retrieval_hint entry) in
  join blank_line (titled "Retrievable Facts" line (index_of_kind Kind_Fact baseline)
                   ++ titled "Retrievable Rumors" line (index_of_kind Kind_Rumor baseline)).
Definition render_constraint (c : ActiveStoryConstraint) : string :=
  let '(kind, statement) := match asc_requirement c with
    | Require statement => ("require", statement)
    | Forbid statement => ("forbid", statement)
    end in
  "- " +:+ field "constraint_id" (asc_id c) +:+ nl +:+ "  kind: " +:+ kind +:+ nl +:+ "  " +:+ field "requirement" statement.
Definition render_constraints (baseline : BaselineContext) : string :=
  join nl (map render_constraint
    (sort_by (λ x y, String.compare (asc_id x) (asc_id y)) (active_story_constraints baseline))).
Definition render_story_summary (value : string) : string := if is_blank value then "" else value.
Definition render_recent_story (baseline : BaselineContext) : string :=
  join blank_line (map seg_text (recent_segments (base_story_continuity baseline))).

(** The variables of a prompt layer by name, all of them text. *)
Definition PromptVars : Type := list (string * string).
Record WriterPlannerPromptProjection := {
  wpp_context : WriterPlannerPromptContext;
  wpp_rc_vars : PromptVars;
  wpp_fti_vars : PromptVars;
}.
Definition writer_planner_vars (baseline : BaselineContext) (narrative_plan : NarrativePlan)
    (player_contribution : BoundedText) : PromptVars := [
  ("story_profile", render_story_profile_view
     (StoryProfilePromptView_new (base_story_title baseline) (base_story_profile baseline)));
  ("instance_settings", render_instance_settings (cast_policy (base_instance_settings baseline)));
  ("story_summary", render_story_summary (sum_text (con_summary (base_story_continuity baseline))));
  ("recent_story", render_recent_story baseline);
  ("player_character", render_role (base_player_role baseline) false);
  ("relevant_characters", render_roles (relevant_roles baseline));
  ("relevant_knowledge", render_relevant_knowledge
     (world_knowledge_view_from_baseline (relevant_world_knowledge baseline)));
  ("character_index", render_role_index baseline);
  ("knowledge_index", render_knowledge_index baseline);
  ("narrative_direction", render_narrative_direction (project_narrative_direction narrative_plan));
  ("active_story_constraints", render_constraints baseline);
  ("player_contribution", player_contribution)
].
(** The order of the variables does not matter to a saturating sum. *)
Definition vars_tokens (vars : PromptVars) : N :=
  foldl (λ total v, sat_add U64_MAX total (estimate_text_tokens v)) 0%N (map snd vars).

Definition planner_targets (baseline : BaselineContext) :
    result WriterPlannerProjectionError (gmap string IndexedRetrievalTarget) :=
  let? targets := try_fold insert_target ∅ (map role_target (role_index baseline)) in
  try_fold insert_target targets (map knowledge_target (knowledge_index baseline)).
Definition project_writer_prompt (baseline : BaselineContext) (narrative_plan : NarrativePlan)
    (player_contribution : BoundedText) (max_input_tokens : N) :
    result WriterPlannerProjectionError WriterPlannerPromptProjection :=
  let? targets := planner_targets baseline in
  let knowledge := relevant_world_knowledge baseline in
  let rc_vars := writer_planner_vars baseline narrative_plan player_contribution in
  fail_if (max_input_tokens <? vars_tokens rc_vars)%N with Projection_RequiredPromptDataExceedsBudget in
  Ok {| wpp_context := {|
          indexed_targets := targets;
          provided_role_ids := rcv_role_id (base_player_role baseline) :: map rcv_role_id (relevant_roles baseline);
          provided_knowledge_ids := map rwk_source_id (rwk_facts knowledge ++ rwk_rumors knowledge) |};
        wpp_rc_vars := rc_vars; wpp_fti_vars := [] |}.
End render.

(** ** [RetrievalPlanBuilder] *)

Inductive GapOutcome :=
| Gap_RoleCognition (role_id : RoleId) (reason : BoundedText)
| Gap_Knowledge (request : KnowledgeRetrievalRequest).

(** [RetrievalRequestKey]: compared by its fields in their order. *)
Definition RetrievalRequestKey : Type := KnowledgeDelivery * KnowledgeSourceId.
#[global] Instance delivery_key_ord : KeyOrd KnowledgeDelivery := delivery_compare.
Definition canonical_key (r : KnowledgeRetrievalRequest) : RetrievalRequestKey :=
  (krr_delivery r, krr_target_source_id r).
Definition origin_rank (o : RetrievalRequestOrigin) : N :=
  match o with Origin_Automatic => 0 | Origin_Narrative => 1 | Origin_Planner => 2 end%N.

(** Whether a request takes the place of the one kept under its key. *)
Definition replaces (request existing : KnowledgeRetrievalRequest) : bool :=
  (krr_mandatory request && negb (krr_mandatory existing))
  || (eqb (krr_mandatory request) (krr_mandatory existing)
      && (origin_rank (krr_origin request) <? origin_rank (krr_origin existing))%N).
Definition keep_request (by_key : gmap RetrievalRequestKey KnowledgeRetrievalRequest) (request : KnowledgeRetrievalRequest) :
    gmap RetrievalRequestKey KnowledgeRetrievalRequest :=
  match by_key !! canonical_key request with
  | Some existing => if replaces request existing then <[canonical_key request := request]> by_key else by_key
  | None => <[canonical_key request := request]> by_key
  end.
Definition request_order (left right : KnowledgeRetrievalRequest) : comparison :=
  then_with (bool_compare (krr_mandatory right) (krr_mandatory left))
    (then_with (N.compare (origin_rank (krr_origin left)) (origin_rank (krr_origin right)))
      (key_compare (canonical_key left) (canonical_key right))).
Definition dedupe_and_sort (requests : list KnowledgeRetrievalRequest) : list KnowledgeRetrievalRequest :=
  sort_by request_order (values (foldl keep_request ∅ requests)).

(** *** [merge_narrative_think_requests] *)

Definition known_role (baseline : BaselineContext) (role_id : RoleId) : bool :=
  bool_decide (rcv_role_id (base_player_role baseline) = role_id)
  || existsb (λ role, bool_decide (rcv_role_id role = role_id)) (relevant_roles baseline)
  || existsb (λ entry, bool_decide (rie_role_id entry = role_id)) (role_index baseline).
(** [try_new(.., "reason", max_reason_bytes)] with the error every caller makes of it. *)
Definition bounded_reason (config : PlannerConfig) (reason : string) : result PlanningError BoundedText :=
  map_err (λ _, Plan_LimitExceeded "max_reason_bytes")
    (BoundedText_try_new reason "reason" (planner_max_reason_bytes config)).
Definition impulse_reason (impulse : CharacterImpulse) : string :=
  match imp_reason impulse with
  | Some reason => if is_blank reason then imp_goal impulse else reason
  | None => imp_goal impulse
  end.
Definition add_impulse (baseline : BaselineContext) (config : PlannerConfig) (seen : gset RoleId)
    (additions : gmap RoleId BoundedText) (impulse : CharacterImpulse) : result PlanningError (gmap RoleId BoundedText) :=
  let target := imp_target_role_id impulse in
  if bool_decide (target ∈ seen) || bool_decide (is_Some (additions !! target)) then Ok additions
  else
    fail_if bool_decide (target = rcv_role_id (base_player_role baseline)) with Plan_PlayerRoleRequested in
    fail_if negb (known_role baseline target) with Plan_UnknownRole in
    let? reason := bounded_reason config (impulse_reason impulse) in
    Ok (<[target := reason]> additions).
Definition merge_narrative_think_requests (planner_requests : list CharacterThinkRequest)
    (impulses : list CharacterImpulse) (baseline : BaselineContext) (config : PlannerConfig) :
    result PlanningError (list CharacterThinkRequest) :=
  let seen : gset RoleId := list_to_set (map ctr_role_id planner_requests) in
  let? additions := try_fold (add_impulse baseline config seen) ∅ impulses in
  let merged := planner_requests
    ++ map (λ '(role_id, reason), {| ctr_role_id := role_id; ctr_reason := reason |}) (entries additions) in
  fail_if (planner_max_character_think_requests config <? nlen merged)%N
  with Plan_LimitExceeded "max_character_think_requests" in
  Ok merged.

Record RetrievalPlanBuilder := { rpb_retrieval : RetrievalConfig; rpb_planner : PlannerConfig }.

Section build.
Context (builder : RetrievalPlanBuilder).

Definition convert_think_request (dto : CharacterThinkRequestDto) : result PlanningError CharacterThinkRequest :=
  let? role_id := map_err (λ _, Plan_UnknownRole) (RoleId_try_new (dto_role_id dto)) in
  fail_if is_blank (dto_reason dto) with Plan_InvalidOutput "character_think_reason_empty" in
  let? reason := bounded_reason (rpb_planner builder) (dto_reason dto) in
  Ok {| ctr_role_id := role_id; ctr_reason := reason |}.
Definition convert_think_requests (requests : list CharacterThinkRequestDto) :
    result PlanningError (list CharacterThinkRequest) := traverse convert_think_request requests.

Definition validate_think_request (snapshot : StoryReadSnapshot)
    (acc : list CharacterThinkRequest * gset RoleId) (request : CharacterThinkRequest) :
    result PlanningError (list CharacterThinkRequest * gset RoleId) :=
  let '(out, seen) := acc in
  let role_id := ctr_role_id request in
  fail_if bool_decide (role_id = snap_player_role_id snapshot) with Plan_PlayerRoleRequested in
  let? role := ok_or (snapshot_role snapshot role_id) Plan_UnknownRole in
  fail_if view_is_player_controlled role with Plan_UnknownRole in
  fail_if bool_decide (role_id ∈ seen) with Plan_DuplicateRoleTarget in
  Ok (out ++ [request], {[role_id]} ∪ seen).
Definition validate_think_requests (requests : list CharacterThinkRequest) (snapshot : StoryReadSnapshot) :
    result PlanningError (list CharacterThinkRequest) :=
  let? '(out, _) := try_fold (validate_think_request snapshot) ([], ∅) requests in Ok out.

Definition make_request (delivery : KnowledgeDelivery) (target_source_id : KnowledgeSourceId) (reason : string)
    (origin : RetrievalRequestOrigin) (mandatory : bool) : result PlanningError KnowledgeRetrievalRequest :=
  let? reason := bounded_reason (rpb_planner builder) reason in
  Ok {| krr_delivery := delivery; krr_target_source_id := target_source_id; krr_reason := reason;
        krr_origin := origin; krr_mandatory := mandatory |}.

Definition resolve_writer_gap (gap : PlannerWriterContextGapDto) (prompt_context : WriterPlannerPromptContext) :
    result PlanningError (option GapOutcome) :=
  fail_if is_blank (wgap_reason gap) with Plan_InvalidOutput "context_gap_reason_empty" in
  let? reason := bounded_reason (rpb_planner builder) (wgap_reason gap) in
  let? target := ok_or (indexed_targets prompt_context !! wgap_target_id gap) Plan_UnknownRetrievalKey in
  match target with
  | Target_Role role_id => Ok (Some (Gap_RoleCognition role_id reason))
  | Target_Knowledge source_id =>
      let? request := make_request Delivery_Writer source_id reason Origin_Planner false in
      Ok (Some (Gap_Knowledge request))
  end.

Definition resolve_character_gap (gap : PlannerCharacterContextGapDto) (think_requests : list CharacterThinkRequest)
    (prompt_context : WriterPlannerPromptContext) : result PlanningError (option KnowledgeRetrievalRequest) :=
  fail_if is_blank (cgap_reason gap) with Plan_InvalidOutput "context_gap_reason_empty" in
  let? reason := bounded_reason (rpb_planner builder) (cgap_reason gap) in
  let? role_id := map_err (λ _, Plan_UnknownRole) (RoleId_try_new (cgap_role_id gap)) in
  fail_if negb (existsb (λ request, bool_decide (ctr_role_id request = role_id)) think_requests)
  with Plan_KnowledgeAudienceViolation in
  let? target := ok_or (indexed_targets prompt_context !! cgap_target_id gap) Plan_UnknownRetrievalKey in
  let? source_id := match target with
    | Target_Knowledge source_id =>
        fail_if bool_decide (sid_kind source_id = Kind_Fact) with Plan_KnowledgeAudienceViolation in Ok source_id
    | Target_Role _ => Err Plan_KnowledgeAudienceViolation
    end in
  let? request := make_request (Delivery_Character role_id) source_id reason Origin_Planner false in
  Ok (Some request).

(** [entry(..).or_insert(..)]: what the roles are to be retrieved for. *)
Definition Cognition : Type := gmap RoleId (BoundedText * RetrievalRequestOrigin).
Definition or_insert (role_id : RoleId) (v : BoundedText * RetrievalRequestOrigin) (m : Cognition) : Cognition :=
  match m !! role_id with Some _ => m | None => <[role_id := v]> m end.

Definition add_writer_gap (prompt_context : WriterPlannerPromptContext)
    (acc : Cognition * list KnowledgeRetrievalRequest) (gap : PlannerWriterContextGapDto) :
    result PlanningError (Cognition * list KnowledgeRetrievalRequest) :=
  let '(cognition, requests) := acc in
  let? outcome := resolve_writer_gap gap prompt_context in
  Ok match outcome with
     | Some (Gap_RoleCognition role_id reason) => (or_insert role_id (reason, Origin_Planner) cognition, requests)
     | Some (Gap_Knowledge request) => (cognition, requests ++ [request])
     | None => acc
     end.
Definition add_character_gap (think_requests : list CharacterThinkRequest) (prompt_context : WriterPlannerPromptContext)
    (requests : list KnowledgeRetrievalRequest) (gap : PlannerCharacterContextGapDto) :
    result PlanningError (list KnowledgeRetrievalRequest) :=
  let? request := resolve_character_gap gap think_requests prompt_context in
  Ok (requests ++ from_option (λ r, [r]) [] request).
Definition add_thinking (cognition : Cognition) (request : CharacterThinkRequest) : Cognition :=
  or_insert (ctr_role_id request) (ctr_reason request, Origin_Automatic) cognition.
Definition cognition_request (e : RoleId * (BoundedText * RetrievalRequestOrigin)) : CharacterRetrievalRequest :=
  let '(role_id, (reason, origin)) := e in
  {| crr_role_id := role_id; crr_reason := reason; crr_origin := origin |}.

Definition build_plan (baseline : BaselineContext) (narrative_plan : NarrativePlan) (planner_output : WriterPlannerOutputDto)
    (snapshot : StoryReadSnapshot) (prompt_context : WriterPlannerPromptContext) : result PlanningError WriterPlan :=
  let planner := rpb_planner builder in
  let total_gaps := (nlen (out_writer_context_gaps planner_output) + nlen (out_character_context_gaps planner_output))%N in
  fail_if (planner_max_context_gaps planner <? total_gaps)%N with Plan_LimitExceeded "max_context_gaps" in
  fail_if (planner_max_character_think_requests planner <? nlen (out_character_think_requests planner_output))%N
  with Plan_LimitExceeded "max_character_think_requests" in
  fail_if is_blank (out_story_goal planner_output) with Plan_InvalidOutput "story_goal_empty" in
  let? story_goal := map_err (λ _, Plan_LimitExceeded "max_goal_bytes")
    (BoundedText_try_new (out_story_goal planner_output) "story_goal" (planner_max_goal_bytes planner)) in
  let? think_request_domain := convert_think_requests (out_character_think_requests planner_output) in
  let? validated_think_requests := validate_think_requests think_request_domain snapshot in
  let? think_requests := merge_narrative_think_requests validated_think_requests
    (character_impulses narrative_plan) baseline planner in
  let? '(base_cognition, requests) :=
    try_fold (add_writer_gap prompt_context) (∅, []) (out_writer_context_gaps planner_output) in
  let? requests := try_fold (add_character_gap think_requests prompt_context) requests
    (out_character_context_gaps planner_output) in
  let base_cognition := foldl add_thinking base_cognition think_requests in
  let character_requests := sort_by (λ l r, key_compare (crr_role_id l) (crr_role_id r))
    (map cognition_request (entries base_cognition)) in
  let knowledge_requests := dedupe_and_sort requests in
  fail_if (retrieval_max_requests (rpb_retrieval builder) <? nlen knowledge_requests)%N
  with Plan_LimitExceeded "max_requests" in
  Ok {| story_goal := {| goal_summary := story_goal |};
        retrieval_plan := {| character_requests := character_requests; knowledge_requests := knowledge_requests |};
        character_think_requests := think_requests |}.
End build.
