(* ===== verification/AisePreparation.v ===== *)
(** * Preparing and retrieving the context of a turn

    [context/baseline_ctx_builder.rs], [context/retrieval_pipeline.rs] and the stage of
    [planning/writer_planner.rs] up to its call of the model, of [crates/aise/src/]:
    what the first stage reads from the store, which part of the story it puts before
    the planner, and what the plan's requests bring back.  The ports of the store are
    parameters; each question is asked at its own moment. *)

From S2P Require Import Prelude Text AiseIds AiseRule AiseNarrative AiseStory AiseTurnData AiseExtraction AiseConfig.
From S2P Require Import AiseScan AisePorts AiseActivation AiseCaches AiseCoordination AiseBudget AiseContext AisePlanning.

Definition context_error_display (e : ContextError) : string :=
  match e with
  | Ctx_SnapshotInconsistent code => "story snapshot is inconsistent: " +:+ code
  | Ctx_ContinuityInvalid code => "story continuity is invalid: " +:+ code
  | Ctx_InvalidPlan code => "retrieval plan is invalid: " +:+ code
  | Ctx_KnowledgeAudienceViolation => "knowledge audience violation"
  | Ctx_InvalidRecord code => "retrieval record is invalid: " +:+ code
  | Ctx_RetrievedBudgetExceeded limit => "retrieved context budget exceeded: " +:+ limit
  | Ctx_IndexLimitExceeded index actual maximum =>
      "index limit exceeded: " +:+ index +:+ " actual " +:+ pretty actual +:+ " maximum " +:+ pretty maximum
  | Ctx_Activation _ => "knowledge activation failed"
  | Ctx_Store _ => "knowledge read failed"
  end.
Definition map_baseline_error (e : ContextError) : TurnExecutionError :=
  turn_error Kind_InvariantViolation (AiseCoordination.turn_code e) (Some Stage_BaselineBuilder) (context_error_display e).
Definition map_context_error (e : ContextError) : TurnExecutionError :=
  let stage := match e with
    | Ctx_SnapshotInconsistent _ | Ctx_ContinuityInvalid _ => Stage_BaselineBuilder
    | _ => Stage_ContextRetrieval
    end in
  turn_error Kind_InvariantViolation (AiseCoordination.turn_code e) (Some stage) (context_error_display e).
Definition map_retrieved_context_error (e : RetrievedContextError) : TurnExecutionError :=
  turn_error Kind_InvariantViolation (AiseTurnData.turn_code e) (Some Stage_ContextRetrieval) (retrieved_error_display e).

Definition is_world_kind (s : KnowledgeSourceId) : bool := negb (bool_decide (sid_kind s = Kind_Memory)).
Definition delivered_to (d : KnowledgeDelivery) (entry : ActivatedKnowledgeRef) : bool :=
  bool_decide (d ∈ act_deliveries entry).

(** ** The baseline: what the planner sees *)

(** Roles at the place of the player, in the order of their identifiers. *)
Definition select_relevant_roles (snapshot : StoryReadSnapshot) (max_relevant_roles : N) : list RoleContextView :=
  let player_role_id := snap_player_role_id snapshot in
  match snapshot_role snapshot player_role_id with
  | None => []
  | Some player =>
      let near '((role_id, role) : RoleId * StoryRoleView) :=
        negb (bool_decide (role_id = player_role_id))
        && bool_decide (state_location (view_state role) = state_location (view_state player)) in
      let roles := map (λ e, role_context_view e.2) (List.filter near (entries (snap_roles snapshot))) in
      take (N.to_nat max_relevant_roles) (sort_by (λ l r, key_compare (rcv_role_id l) (rcv_role_id r)) roles)
  end.

Definition relevant_item (loaded_entries : gmap KnowledgeSourceId LoadedActivationEntry) (activated : ActivatedKnowledgeRef) :
    result ContextError RelevantWorldKnowledgeItem :=
  let? loaded := ok_or (loaded_entries !! act_source_id activated) (Ctx_SnapshotInconsistent "activation_body_missing") in
  Ok {| rwk_source_id := aeb_source_id (la_body loaded);
        rwk_content := aeb_body (la_body loaded);
        rwk_source_priority := N.min (act_rank activated) 255;
        rwk_salience := la_salience loaded |}.
Definition relevant_order (l r : RelevantWorldKnowledgeItem) : comparison :=
  then_with (N.compare (rwk_source_priority l) (rwk_source_priority r))
    (then_with (N.compare (rwk_salience r) (rwk_salience l)) (key_compare (rwk_source_id l) (rwk_source_id r))).
(** [retain] with a running total: an entry that does not fit is left out, the next
    one may still fit. *)
Fixpoint retain_tokens (max_tokens tokens : N) (entries : list RelevantWorldKnowledgeItem) :
    list RelevantWorldKnowledgeItem :=
  match entries with
  | [] => []
  | entry :: entries =>
      let next := sat_add U64_MAX tokens (estimate_text_tokens (rwk_content entry)) in
      if (max_tokens <? next)%N then retain_tokens max_tokens tokens entries
      else entry :: retain_tokens max_tokens next entries
  end.
Definition relevant_of_kind (kind : KnowledgeKind) (l : list RelevantWorldKnowledgeItem) : list RelevantWorldKnowledgeItem :=
  List.filter (λ e, bool_decide (sid_kind (rwk_source_id e) = kind)) l.
Definition load_relevant_knowledge (activation : ActivationResult)
    (loaded_entries : gmap KnowledgeSourceId LoadedActivationEntry) (config : RetrievalConfig) :
    result ContextError RelevantWorldKnowledge :=
  let? entries := traverse (relevant_item loaded_entries)
    (List.filter (λ e, delivered_to Delivery_Writer e && is_world_kind (act_source_id e)) (ar_activated activation)) in
  let entries := retain_tokens (retrieval_max_tokens_per_audience config) 0
    (take (N.to_nat (retrieval_max_items_per_audience config)) (sort_by relevant_order entries)) in
  Ok {| rwk_facts := relevant_of_kind Kind_Fact entries; rwk_rumors := relevant_of_kind Kind_Rumor entries |}.

Section baseline.
Context `{Unicode, Sha256Bytes, RegexFind, Layout, KnowledgePorts, TurnJson}.

Definition load_knowledge_index (now : N) (snapshot : StoryReadSnapshot) (relevant : RelevantWorldKnowledge)
    (config : RetrievalConfig) : result ContextError (list KnowledgeIndexEntry) :=
  let maximum := retrieval_max_candidates_total config in
  let? records := map_err Ctx_Store (list_index now {|
    kiq_snapshot := snap_knowledge_snapshot snapshot; kiq_knowledge_kinds := [Kind_Fact; Kind_Rumor];
    kiq_limit := sat_add USIZE_MAX maximum 1 |}) in
  fail_if (maximum <? nlen records)%N with Ctx_IndexLimitExceeded "knowledge_index" (nlen records) maximum in
  let provided := map rwk_source_id (rwk_facts relevant ++ rwk_rumors relevant) in
  Ok (map (λ record, {| kie_source_id := kir_source_id record; kie_retrieval_hint := kir_retrieval_hint record |})
       (List.filter (λ record, negb (bool_decide (kir_source_id record ∈ provided))) records)).

(** [dyn Store]'s read of a snapshot. *)
Class SnapshotPort := load_story_snapshot : N → StoryId → SnapshotLimits → result StoreError StoryReadSnapshot.
Context `{SnapshotPort}.

Record BaselineContextBuilder := {
  bb_content_limits : TurnContentLimitsConfig;
  bb_context_config : ContextPreparationConfig;
  bb_narrative_config : NarrativeConfig;
  bb_retrieval_config : RetrievalConfig;
  bb_activation_config : ActivationConfig;
  bb_coordinator : KnowledgeActivationCoordinator;
}.
(** The coordinator's questions end before this moment when it starts at [now]. *)
Definition after_run (coordinator : KnowledgeActivationCoordinator) (now : N) : N :=
  let limits := co_runtime_limits coordinator in
  (now + 4 + rl_max_recursion_steps limits + rl_max_depth_expansions limits)%N.

Definition macros_of (player_role : RoleContextView) : ActivationMacroValues := {|
  macro_player_name := profile_name (rcv_profile player_role);
  macro_player_role_label := rcv_role_label player_role;
|}.
Definition baseline_spec (snapshot : StoryReadSnapshot) (player_role : RoleContextView)
    (scan_buffer : ActivationScanBuffer) (turn_number : TurnNumber) : ActivationRunSpec := {|
  spec_snapshot := snap_knowledge_snapshot snapshot;
  spec_scan_buffer := scan_buffer;
  spec_macros := macros_of player_role;
  AiseCoordination.spec_story_id := snap_story_id snapshot;
  spec_turn_number := turn_number;
  spec_generation_trigger := Trigger_Normal;
  spec_mode := Run_CommitEligible;
  spec_external_seeds := [];
  spec_continuation := None;
|}.

(** The index of the roles that were not selected. *)
Definition build_role_index (snapshot : StoryReadSnapshot) (selected : list RoleId) : list RoleIndexEntry :=
  sort_by (λ l r, key_compare (rie_role_id l) (rie_role_id r))
    (map (λ e, {| rie_role_id := e.1; rie_retrieval_hint := view_narrative_function e.2 |})
      (List.filter (λ e, negb (bool_decide (e.1 ∈ selected))) (entries (snap_roles snapshot)))).

(** What follows the activation. *)
Definition assemble_baseline (builder : BaselineContextBuilder) (now : N) (snapshot : StoryReadSnapshot)
    (player_role : RoleContextView) (activation_outcome : ActivationRunOutcome) :
    result ContextError (BaselineContext * PreparedActivation) :=
  let? relevant_world_knowledge := load_relevant_knowledge (rn_result activation_outcome)
    (rn_loaded_entries activation_outcome) (bb_retrieval_config builder) in
  let? knowledge_index := load_knowledge_index now snapshot relevant_world_knowledge (bb_retrieval_config builder) in
  let relevant_roles := select_relevant_roles snapshot (context_max_relevant_roles (bb_context_config builder)) in
  let role_index := build_role_index snapshot (rcv_role_id player_role :: map rcv_role_id relevant_roles) in
  let maximum := context_max_role_index (bb_context_config builder) in
  fail_if (maximum <? nlen role_index)%N with Ctx_IndexLimitExceeded "role_index" (nlen role_index) maximum in
  Ok ({| base_story_title := snap_story_title snapshot;
         base_story_profile := snap_story_profile snapshot;
         base_instance_settings := snap_instance_settings snapshot;
         base_player_role := player_role;
         relevant_roles := relevant_roles;
         relevant_world_knowledge := relevant_world_knowledge;
         role_index := role_index;
         knowledge_index := knowledge_index;
         base_story_continuity := snap_story_continuity snapshot;
         active_story_constraints := snap_active_constraints snapshot;
         narrative_graph_state_index := {|
           ngi_pack_digest := fsp_digest (snap_pack snapshot);
           ngi_graph_revision := graph_revision (snap_narrative_state snapshot);
           ngi_node_states := node_states (snap_narrative_state snapshot) |} |},
      {| pa_continuation := ar_continuation (rn_result activation_outcome);
         pa_pending_timed_state := ar_pending_timed_state (rn_result activation_outcome);
         pa_index_snapshot := rn_index_snapshot activation_outcome;
         pa_loaded_entries := rn_loaded_entries activation_outcome |}).

Definition prepare_baseline (builder : BaselineContextBuilder) (now : N) (snapshot : StoryReadSnapshot)
    (player_contribution : string) (turn_number : TurnNumber) (caches : CoordinatorCaches) :
    CoordinatorCaches * option (result ContextError (BaselineContext * NarrativeProjection * PreparedActivation)) :=
  match snapshot_role snapshot (snap_player_role_id snapshot) with
  | None => (caches, Some (Err (Ctx_SnapshotInconsistent "missing_player_role")))
  | Some player =>
      let player_role := role_context_view player in
      match project (narrative_limits (bb_narrative_config builder)) (snap_narrative_definition snapshot)
              (snap_narrative_state snapshot) (CommittedNarrativeStateView snapshot)
              (sat_add U64_MAX (snap_base_revision snapshot) 1) with
      | Err _ => (caches, Some (Err (Ctx_SnapshotInconsistent "narrative_projection_failed")))
      | Ok narrative_projection =>
          match build_activation_scan_buffer snapshot player_role player_contribution narrative_projection
                  (bb_activation_config builder) with
          | Err e => (caches, Some (Err e))
          | Ok scan_buffer =>
              let '(caches, outcome) := run (bb_coordinator builder) now
                (baseline_spec snapshot player_role scan_buffer turn_number) caches in
              (caches, match outcome with
               | None => None
               | Some (Err e) => Some (Err (Ctx_Activation e))
               | Some (Ok outcome) => Some (
                   let? '(baseline, activation) :=
                     assemble_baseline builder (after_run (bb_coordinator builder) now) snapshot player_role outcome in
                   Ok (baseline, narrative_projection, activation))
               end)
          end
      end
  end.

(** A stage of the turn: what it leaves of the context, and its outcome. *)
Definition StageOutcome : Type := TurnExecutionContext * result TurnExecutionError unit.
(** The last operation of a stage. *)
Definition finish_stage (c : TurnExecutionContext) (r : result TurnExecutionError TurnExecutionContext) : StageOutcome :=
  match r with Ok c' => (c', Ok tt) | Err e => (c, Err e) end.

Definition baseline_execute (builder : BaselineContextBuilder) (now : N) (caches : CoordinatorCaches)
    (c : TurnExecutionContext) : CoordinatorCaches * option StageOutcome :=
  let limits := snapshot_limits_from_config (bb_content_limits builder) (bb_context_config builder)
    (bb_narrative_config builder) in
  match load_story_snapshot now (tk_story_id (id_key (tc_identity c))) limits with
  | Err e => (caches, Some (c, Err (store_turn_error e)))
  | Ok snapshot =>
      let '(caches, prepared) := prepare_baseline builder (now + 1) snapshot
        (player_contribution (tc_request c)) (tk_turn_number (id_key (tc_identity c))) caches in
      (caches, match prepared with
       | None => None
       | Some (Err e) => Some (c, Err (map_baseline_error e))
       | Some (Ok (baseline, narrative_projection, activation)) =>
           Some (finish_stage c (set_prepared_context snapshot baseline narrative_projection activation c))
       end)
  end.
End baseline.

(** ** The retrieval: what the plan asked for *)

Definition body_allowed (delivery : KnowledgeDelivery) (kind : KnowledgeKind) : bool :=
  match delivery with
  | Delivery_Writer => bool_decide (kind = Kind_Fact) || bool_decide (kind = Kind_Rumor)
  | Delivery_Character _ => bool_decide (kind = Kind_Rumor)
  end.
Definition load_activated_item (delivery : KnowledgeDelivery) (config : RetrievalConfig)
    (loaded_entries : gmap KnowledgeSourceId LoadedActivationEntry) (entry : ActivatedKnowledgeRef) :
    result ContextError RetrievedKnowledgeItem :=
  fail_if negb (delivered_to delivery entry) with Ctx_KnowledgeAudienceViolation in
  let? loaded := ok_or (loaded_entries !! act_source_id entry) (Ctx_SnapshotInconsistent "activation_body_missing") in
  let body := la_body loaded in
  fail_if negb (body_allowed delivery (aeb_kind body)) || (retrieval_max_item_bytes config <? slen (aeb_body body))%N
  with Ctx_SnapshotInconsistent "activation_body_mismatch" in
  let item := item_from_parts (aeb_source_id body) (aeb_body body) (la_source loaded) (act_activation_class entry)
    (act_rank entry) (la_salience loaded) in
  Ok match la_activation loaded, la_activation_rule_version loaded with
     | Some activation, Some version => with_activation item activation version
     | _, _ => item
     end.
Definition load_activated_items (activated : list ActivatedKnowledgeRef) (delivery : KnowledgeDelivery)
    (config : RetrievalConfig) (loaded_entries : gmap KnowledgeSourceId LoadedActivationEntry) :
    result ContextError (list RetrievedKnowledgeItem) :=
  traverse (load_activated_item delivery config loaded_entries) activated.

Definition partition_order (l r : RetrievedKnowledgeItem) : comparison :=
  then_with (N.compare (rki_rank l) (rki_rank r))
    (then_with (N.compare (rki_salience r) (rki_salience l)) (key_compare (rki_source_id l) (rki_source_id r))).
Definition sort_partition : list RetrievedKnowledgeItem → list RetrievedKnowledgeItem := sort_by partition_order.
(** How many items are kept: up to the first that does not fit. *)
Fixpoint kept_items (max_tokens total : N) (items : list RetrievedKnowledgeItem) : nat :=
  match items with
  | [] => 0
  | item :: items =>
      let next := sat_add U64_MAX total (token_cost item) in
      if (max_tokens <? next)%N then 0 else S (kept_items max_tokens next items)
  end.
Definition trim_tokens (max_tokens : N) (items : list RetrievedKnowledgeItem) : list RetrievedKnowledgeItem :=
  take (kept_items max_tokens 0 items) items.
(** A partition is sorted, cut at its number of items, then at its tokens. *)
Definition fit_partition (config : RetrievalConfig) (items : list RetrievedKnowledgeItem) : list RetrievedKnowledgeItem :=
  trim_tokens (retrieval_max_tokens_per_audience config)
    (take (N.to_nat (retrieval_max_items_per_audience config)) (sort_partition items)).

Definition memory_item (e : nat * KnowledgeRecord) : RetrievedKnowledgeItem :=
  let '(index, record) := e in
  item_from_parts (kr_source_id record) (kr_content record) (kr_source record) Seed_PlannerExactTarget
    (clamp U32_MAX (sat_add USIZE_MAX (N.of_nat index) 1)) (kr_salience record).

Section retrieval.
Context `{Unicode, Sha256Bytes, RegexFind, Layout, KnowledgePorts, TurnJson}.

Record ContextRetrievalPipeline := {
  rp_config : RetrievalConfig;
  rp_activation_config : ActivationConfig;
  rp_coordinator : KnowledgeActivationCoordinator;
}.

(** *** What the requests name *)

Definition role_view_of (snapshot : StoryReadSnapshot) (role_views : gmap RoleId RoleContextView)
    (request : CharacterRetrievalRequest) : result ContextError (gmap RoleId RoleContextView) :=
  let? role := ok_or (snapshot_role snapshot (crr_role_id request))
    (Ctx_SnapshotInconsistent "unknown_character_request_role") in
  Ok (<[crr_role_id request := role_context_view role]> role_views).

Definition MemoryTargets : Type := gmap RoleId (list KnowledgeSourceId).
Definition add_target (index : ActivationIndexSnapshot) (acc : list ExternalActivationSeed * MemoryTargets)
    (request : KnowledgeRetrievalRequest) : result ContextError (list ExternalActivationSeed * MemoryTargets) :=
  let '(seeds, memory_targets) := acc in
  let target := krr_target_source_id request in
  match sid_kind target with
  | Kind_Memory =>
      match krr_delivery request with
      | Delivery_Character role_id =>
          Ok (seeds, <[role_id := from_option id [] (memory_targets !! role_id) ++ [target]]> memory_targets)
      | Delivery_Writer => Err Ctx_KnowledgeAudienceViolation
      end
  | kind =>
      fail_if match krr_delivery request with Delivery_Character _ => bool_decide (kind = Kind_Fact) | _ => false end
      with Ctx_KnowledgeAudienceViolation in
      fail_if negb (authorize_seed index target (krr_delivery request))
      with Ctx_Activation Act_ExternalTargetUnauthorized in
      Ok (seeds ++ [{| seed_source_id := target; seed_delivery := krr_delivery request;
                       seed_kind := Seed_PlannerExactTarget; seed_provider_rank := None;
                       seed_mandatory := krr_mandatory request |}], memory_targets)
  end.

Record RetrievalTargets := {
  rt_role_views : gmap RoleId RoleContextView;
  rt_scan_buffer : ActivationScanBuffer;
  rt_seeds : list ExternalActivationSeed;
  rt_memory_targets : MemoryTargets;
}.
Definition retrieval_targets (pipeline : ContextRetrievalPipeline) (plan : WriterPlan) (snapshot : StoryReadSnapshot)
    (baseline : BaselineContext) (narrative_projection : NarrativeProjection) (prepared : PreparedActivation)
    (player_contribution : string) : result ContextError RetrievalTargets :=
  let? role_views := try_fold (role_view_of snapshot) ∅ (character_requests (retrieval_plan plan)) in
  let? scan_buffer := build_activation_scan_buffer snapshot (base_player_role baseline) player_contribution
    narrative_projection (rp_activation_config pipeline) in
  let? '(seeds, memory_targets) := try_fold (add_target (pa_index_snapshot prepared)) ([], ∅)
    (knowledge_requests (retrieval_plan plan)) in
  fail_if (aruntime_max_external_candidates (activation_runtime (rp_activation_config pipeline)) <? nlen seeds)%N
  with Ctx_Activation (Act_WorkLimitExceeded "external_candidates") in
  Ok {| rt_role_views := role_views; rt_scan_buffer := scan_buffer; rt_seeds := seeds;
        rt_memory_targets := memory_targets |}.

Definition retrieval_spec (c : TurnExecutionContext) (snapshot : StoryReadSnapshot) (baseline : BaselineContext)
    (prepared : PreparedActivation) (targets : RetrievalTargets) : ActivationRunSpec := {|
  spec_snapshot := snap_knowledge_snapshot snapshot;
  spec_scan_buffer := rt_scan_buffer targets;
  spec_macros := macros_of (base_player_role baseline);
  AiseCoordination.spec_story_id := tk_story_id (id_key (tc_identity c));
  spec_turn_number := tk_turn_number (id_key (tc_identity c));
  spec_generation_trigger := Trigger_Normal;
  spec_mode := Run_CommitEligible;
  spec_external_seeds := rt_seeds targets;
  spec_continuation := Some (pa_continuation prepared);
|}.

(** *** What an audience gets *)

Definition writer_partition (config : RetrievalConfig) (kind : KnowledgeKind) (items : list RetrievedKnowledgeItem) :
    list RetrievedKnowledgeItem :=
  fit_partition config (List.filter (λ item, bool_decide (sid_kind (rki_source_id item) = kind)) items).
Definition retrieve_world (config : RetrievalConfig) (baseline : BaselineContext)
    (activated : list ActivatedKnowledgeRef) (loaded_entries : gmap KnowledgeSourceId LoadedActivationEntry) :
    result TurnExecutionError RetrievedWorldKnowledge :=
  let knowledge := relevant_world_knowledge baseline in
  let baseline_ids := map rwk_source_id (rwk_facts knowledge ++ rwk_rumors knowledge) in
  let newly_writer := List.filter (λ entry, delivered_to Delivery_Writer entry && is_world_kind (act_source_id entry)
    && negb (bool_decide (act_source_id entry ∈ baseline_ids))) activated in
  let? writer_items := map_err map_context_error (load_activated_items newly_writer Delivery_Writer config loaded_entries) in
  Ok {| ret_facts := writer_partition config Kind_Fact writer_items;
        ret_rumors := writer_partition config Kind_Rumor writer_items |}.

Definition retrieve_memories (pipeline : ContextRetrievalPipeline) (now : N) (snapshot : StoryReadSnapshot)
    (memory_targets : MemoryTargets) (role_id : RoleId) : result TurnExecutionError (list KnowledgeRecord) :=
  let config := rp_config pipeline in
  match memory_targets !! role_id with
  | Some targets =>
      let? records := map_err (λ e, map_context_error (Ctx_Store e)) (find_by_source_ids now {|
        skq_snapshot := snap_knowledge_snapshot snapshot;
        skq_filter := {| kf_delivery := Delivery_Character role_id; kf_knowledge_kinds := [Kind_Memory];
                         kf_max_item_bytes := retrieval_max_item_bytes config |};
        skq_source_ids := targets; skq_limit := nlen targets |}) in
      fail_if existsb (λ record, negb (bool_decide (kr_memory_owner record = Some role_id))) records
      with map_retrieved_context_error Retrieved_InvalidMemoryOwner in
      Ok records
  | None =>
      map_err (λ e, map_context_error (Ctx_Store e)) (find_memories_by_owner now {|
        omq_snapshot := snap_knowledge_snapshot snapshot; omq_owner := role_id;
        omq_limit := retrieval_max_items_per_audience config;
        omq_max_item_bytes := retrieval_max_item_bytes config |})
  end.
Definition retrieve_character (pipeline : ContextRetrievalPipeline) (snapshot : StoryReadSnapshot)
    (activated : list ActivatedKnowledgeRef) (loaded_entries : gmap KnowledgeSourceId LoadedActivationEntry)
    (memory_targets : MemoryTargets) (acc : N * gmap RoleId RetrievedCharacterContext) (e : RoleId * RoleContextView) :
    result TurnExecutionError (N * gmap RoleId RetrievedCharacterContext) :=
  let config := rp_config pipeline in
  let '(now, characters) := acc in
  let '(role_id, role_view) := e in
  let delivery := Delivery_Character role_id in
  let rumor_refs := List.filter (λ entry, bool_decide (sid_kind (act_source_id entry) = Kind_Rumor)
    && delivered_to delivery entry) activated in
  let? rumors := map_err map_context_error (load_activated_items rumor_refs delivery config loaded_entries) in
  let? memories := retrieve_memories pipeline now snapshot memory_targets role_id in
  Ok ((now + 1)%N, <[role_id := {|
        ret_role := Some role_view;
        known_rumors := fit_partition config rumors;
        ret_memories := fit_partition config (map memory_item (enumerate memories)) |}]> characters).

Definition retrieval_limits (pipeline : ContextRetrievalPipeline) (c : TurnExecutionContext) : RetrievedContextLimits :=
  let config := rp_config pipeline in {|
  max_role_audiences := max_character_decisions (budget_limits (tc_budget c));
  max_items_per_audience := retrieval_max_items_per_audience config;
  max_tokens_per_audience := retrieval_max_tokens_per_audience config;
  max_total_items := retrieval_max_total_items config;
  max_total_tokens := retrieval_max_total_tokens config;
  max_item_bytes := retrieval_max_item_bytes config;
|}.

(** What follows the activation, up to the operations of the context. *)
Definition assemble_retrieved (pipeline : ContextRetrievalPipeline) (now : N) (c : TurnExecutionContext)
    (snapshot : StoryReadSnapshot) (baseline : BaselineContext) (prepared : PreparedActivation)
    (targets : RetrievalTargets) (activation_outcome : ActivationRunOutcome) :
    result TurnExecutionError (RetrievedContext * PreparedActivation) :=
  let config := rp_config pipeline in
  let activation_result := rn_result activation_outcome in
  let loaded_entries := rn_loaded_entries activation_outcome ∪ pa_loaded_entries prepared in
  let? world := retrieve_world config baseline (ar_activated activation_result) loaded_entries in
  let? '(_, characters) := try_fold
    (retrieve_character pipeline snapshot (ar_activated activation_result) loaded_entries (rt_memory_targets targets))
    (now, ∅) (entries (rt_role_views targets)) in
  let? context := map_err map_retrieved_context_error
    (RetrievedContext_try_new world characters (retrieval_limits pipeline c)) in
  Ok (context,
      {| pa_continuation := ar_continuation activation_result;
         pa_pending_timed_state :=
           merge_delta (pa_pending_timed_state prepared) (ar_pending_timed_state activation_result);
         pa_index_snapshot := pa_index_snapshot prepared;
         pa_loaded_entries := loaded_entries |}).

(** [execute_inner]: the context keeps the new activation even when the retrieved
    context is refused. *)
Definition retrieval_execute (pipeline : ContextRetrievalPipeline) (now : N) (cache : LruFragmentMatchState)
    (c : TurnExecutionContext) : LruFragmentMatchState * option StageOutcome :=
  let missing e : LruFragmentMatchState * option StageOutcome := (cache, Some (c, Err (map_context_error e))) in
  match tc_plan c, tc_snapshot c, tc_baseline c, tc_narrative_projection c, tc_activation c with
  | None, _, _, _, _ => missing (Ctx_InvalidPlan "missing_plan")
  | _, None, _, _, _ => missing (Ctx_SnapshotInconsistent "missing_snapshot")
  | _, _, None, _, _ => missing (Ctx_SnapshotInconsistent "missing_baseline")
  | _, _, _, None, _ => missing (Ctx_SnapshotInconsistent "missing_narrative_projection")
  | _, _, _, _, None => missing (Ctx_SnapshotInconsistent "missing_activation")
  | Some plan, Some snapshot, Some baseline, Some narrative_projection, Some prepared =>
      match retrieval_targets pipeline plan snapshot baseline narrative_projection prepared
              (player_contribution (tc_request c)) with
      | Err e => missing e
      | Ok targets =>
          let '(cache, outcome) := run_with_index (rp_coordinator pipeline) now
            (retrieval_spec c snapshot baseline prepared targets) (pa_index_snapshot prepared) cache in
          (cache, match outcome with
           | None => None
           | Some (Err e) => Some (c, Err (map_context_error (Ctx_Activation e)))
           | Some (Ok outcome) => Some
               match assemble_retrieved pipeline (after_run (rp_coordinator pipeline) now) c snapshot baseline prepared
                       targets outcome with
               | Err e => (c, Err e)
               | Ok (context, activation) =>
                   match replace_activation activation c with
                   | Err e => (c, Err e)
                   | Ok c => finish_stage c (set_retrieved_context context c)
                   end
               end
           end)
      end
  end.
End retrieval.
