(* ===== verification/AiseValidators.v ===== *)
(** * The deterministic validators of the crate [aise]

    [validation/validators/] of [crates/aise/src/]: what is checked of a candidate
    story and of the state extracted from it before its change set is built.  A
    validator reads the context of the turn and lists the issues it finds; one whose
    inputs are not there yet finds none. *)

From S2P Require Import Prelude Text AiseIds AiseRule AiseNarrative AiseStory AiseTurnData AiseExtraction.
From S2P Require Import AiseScan AisePorts AiseActivation AiseCoordination AiseBudget AiseValidation AiseContext.

(** ** Issues and loops *)

Definition location_of (path : string) : option ValidationLocation :=
  Some {| loc_path := path; loc_item_index := None |}.
(** [format!("{path}[{index}]")] with [u32::try_from(index).ok()]. *)
Definition item_location (path : string) (index : nat) : option ValidationLocation :=
  Some {| loc_path := path +:+ "[" +:+ pretty (N.of_nat index) +:+ "]";
          loc_item_index := if (N.of_nat index <=? U32_MAX)%N then Some (N.of_nat index) else None |}.

(** The issues of an extraction, all of them remedied by extracting again. *)
Definition extraction_issue (code : ValidationIssueCode) (location : option ValidationLocation) (message : string) :
    ValidationIssue := {|
  iss_code := code; iss_class := Class_Extraction; iss_remedy := Remedy_ReextractState;
  iss_message := message; iss_location := location |}.
Definition count_issue (path message : string) : ValidationIssue :=
  extraction_issue Issue_ExtractionCountExceeded (location_of path) message.
Definition count_issue_at (path : string) (index : nat) (message : string) : ValidationIssue :=
  extraction_issue Issue_ExtractionCountExceeded (item_location path index) message.
Definition duplicate_issue (path : string) (index : nat) (message : string) : ValidationIssue :=
  extraction_issue Issue_ExtractionDuplicateTarget (item_location path index) message.
Definition reference_issue (path : string) (index : nat) (message : string) : ValidationIssue :=
  extraction_issue Issue_ReferenceMissing (item_location path index) message.
Definition new_role_issue (index : nat) (message : string) : ValidationIssue :=
  extraction_issue Issue_NewRoleInvalid (item_location "new_roles" index) message.
Definition trust_issue (index : nat) : ValidationIssue :=
  extraction_issue Issue_DomainInvariantViolated (item_location "relationship_states" index)
    "relationship trust is outside the domain's accepted range".
Definition unchanged_issue (code : ValidationIssueCode) (path : string) (index : nat) (message : string) :
    ValidationIssue := extraction_issue code (item_location path index) message.
Definition cast_policy_issue (path message : string) : ValidationIssue := {|
  iss_code := Issue_CastPolicyViolation; iss_class := Class_Story; iss_remedy := Remedy_RepairStory;
  iss_message := message; iss_location := location_of path |}.

(** [if b { issues.push(issue) }] *)
Definition issue_if (b : bool) (issue : ValidationIssue) : list ValidationIssue := if b then [issue] else [].
(** A [for] loop over [iter().enumerate()] that pushes the issues of each item. *)
Definition each {A} (f : nat → A → list ValidationIssue) (l : list A) : list ValidationIssue := concat (imap f l).

(** A loop that also remembers the keys it has seen: an item whose key
    [seen.insert] refuses gets the issues [again]. *)
Section distinct.
Context {A K : Type} `{Countable K} (key : A → K).
Context (again : nat → list ValidationIssue) (others : nat → A → list ValidationIssue).
Definition distinct_step (s : gset K * list ValidationIssue) (e : nat * A) : gset K * list ValidationIssue :=
  ({[key e.2]} ∪ s.1, s.2 ++ (if bool_decide (key e.2 ∈ s.1) then again e.1 else []) ++ others e.1 e.2).
Definition each_distinct (seen : gset K) (l : list A) : gset K * list ValidationIssue :=
  foldl distinct_step (seen, []) (imap pair l).
End distinct.
Definition nothing_else {A} (_ : nat) (_ : A) : list ValidationIssue := [].

Section validators.
Context `{RegexEngine}.
Implicit Types (c : TurnExecutionContext).

Definition extraction_of c : option StoryStateExtractionDto := env_state ∘ bse_envelope <$> tc_extraction c.
Definition limits_of c : TurnBudgetLimits := budget_limits (tc_budget c).
Definition extraction_limits_of c : StoryStateExtractionLimits := lim_state_extraction (limits_of c).

(** ** [story_bounds.rs] and [story_state_consistency.rs] *)

Definition story_bounds_validate c : result TurnExecutionError (list ValidationIssue) :=
  match tc_story c with
  | None => Ok []
  | Some story =>
      let tokens := estimate_text_tokens (story_text story) in
      Ok (issue_if (max_output_tokens (limits_of c) <? tokens)%N {|
        iss_code := Issue_StoryTextExceedsBounds; iss_class := Class_Story; iss_remedy := Remedy_RepairStory;
        iss_message := "story text estimated tokens " +:+ pretty tokens +:+ " exceed the output budget";
        iss_location := location_of "story_text" |})
  end.
(** It looks at the story and the extraction, and finds nothing in either case. *)
Definition story_state_consistency_validate c : result TurnExecutionError (list ValidationIssue) :=
  match tc_story c, tc_extraction c with Some _, Some _ => Ok [] | _, _ => Ok [] end.

(** ** [extraction_schema.rs] *)

Section schema.
Context (limits : StoryStateExtractionLimits).

Definition blank_or_over (maximum : N) (value : string) : bool := is_blank value || (maximum <? slen value)%N.

(** [validate_content] *)
Definition validate_content (path : string) (index : nat) (content retrieval_hint : string) : list ValidationIssue :=
  issue_if (blank_or_over (sel_max_knowledge_change_bytes limits) content)
    (count_issue_at path index "knowledge content is empty or exceeds its bound")
  ++ issue_if (negb (is_empty retrieval_hint) && (RetrievalHint_MAX_BYTES <? slen retrieval_hint)%N)
       (count_issue_at path index "retrieval_hint exceeds its bound").
Definition memory_content (path : string) (index : nat) (content : string) : list ValidationIssue :=
  issue_if (blank_or_over (sel_max_knowledge_change_bytes limits) content)
    (count_issue_at path index "memory content is empty or exceeds its bound").

Definition schema_counts (dto : StoryStateExtractionDto) : list ValidationIssue :=
  let over {A} (maximum : N) (l : list A) path message :=
    issue_if (maximum <? nlen l)%N (count_issue path message) in
  let knowledge {A} (l : list A) path :=
    over (max_knowledge_items limits) l path "knowledge change count exceeds its bound" in
  over (max_new_roles limits) (new_roles dto) "new_roles" "new role count exceeds its bound"
  ++ over (max_role_states limits) (role_states dto) "role_states" "role state count exceeds its bound"
  ++ over (max_relationship_states limits) (relationship_states dto) "relationship_states"
       "relationship state count exceeds its bound"
  ++ knowledge (add_facts dto) "add_facts" ++ knowledge (update_facts dto) "update_facts"
  ++ knowledge (add_rumors dto) "add_rumors" ++ knowledge (update_rumors dto) "update_rumors"
  ++ knowledge (delete_rumor_ids dto) "delete_rumor_ids" ++ knowledge (add_memories dto) "add_memories"
  ++ knowledge (update_memories dto) "update_memories" ++ knowledge (delete_memory_ids dto) "delete_memory_ids"
  ++ over (sel_max_condition_queries limits) (narrative_condition_judgments dto) "narrative_condition_judgments"
       "narrative condition judgment count exceeds its bound"
  ++ over (max_cast_policy_violations limits) (cast_policy_violations dto) "cast_policy_violations"
       "cast policy violation count exceeds its bound".

Definition schema_new_role (index : nat) (role : NewRoleDto) : list ValidationIssue :=
  let at_role b message := issue_if b (count_issue_at "new_roles" index message) in
  let profile := max_role_profile_bytes limits in
  at_role (blank_or_over profile (nr_name role)) "name is empty or exceeds its bound"
  ++ at_role (blank_or_over profile (nr_narrative_function role)) "narrative_function is empty or exceeds its bound"
  ++ concat (map (λ field, at_role (profile <? slen field)%N "role profile field exceeds its bound")
       [nr_role_label role; nr_background role; nr_appearance role; nr_personality role; nr_speaking_style role])
  ++ at_role (max_goals_per_role limits <? nlen (nr_goals role))%N "role goals exceed their bound"
  ++ at_role (max_attributes_per_role limits <? map_len (nr_attributes role))%N "role attributes exceed their bound".

Definition schema_role_state (index : nat) (state : RoleStateDto) : list ValidationIssue :=
  let at_state b message := issue_if b (count_issue_at "role_states" index message) in
  at_state (max_goals_per_role limits <? nlen (rs_goals state))%N "role goals exceed their bound"
  ++ at_state (max_attributes_per_role limits <? map_len (rs_attributes state))%N "role attributes exceed their bound"
  ++ concat (map (λ goal, at_state (blank_or_over (sel_max_item_bytes limits) goal)
                            "role goal is empty or oversized") (rs_goals state)).

Definition dto_relationship_key (r : RelationshipStateDto) : string * string * string :=
  (rsd_source_role_id r, rsd_target_role_id r, rsd_kind r).

Definition schema_judgment (index : nat) (judgment : NarrativeConditionJudgmentDto) : list ValidationIssue :=
  let at_judgment b message := issue_if b (count_issue_at "narrative_condition_judgments" index message) in
  at_judgment (negb (is_ok (key_try_new (ncj_condition_key judgment))))
    "condition_key does not resolve to a valid identifier"
  ++ at_judgment (sel_max_condition_evidence_bytes limits <? slen (ncj_evidence judgment))%N
       "evidence exceeds its bound"
  ++ at_judgment (sel_max_condition_reason_bytes limits <? slen (ncj_reason judgment))%N "reason exceeds its bound".

(** The role identifiers seen among the new roles are still seen among the role
    states, where a repeated one gets two issues if it is that of a new role: the
    [contains] and the [insert] look at the same set. *)
Definition schema_issues (dto : StoryStateExtractionDto) : list ValidationIssue :=
  let '(seen_role_ids, of_new_roles) := each_distinct nr_role_id
    (λ index, [duplicate_issue "new_roles" index "duplicate role_id in new_roles"]) schema_new_role
    ∅ (new_roles dto) in
  let of_role_states := (each_distinct rs_role_id
    (λ index, [duplicate_issue "role_states" index "role_id also appears in new_roles";
               duplicate_issue "role_states" index "duplicate role_id in role_states"]) schema_role_state
    seen_role_ids (role_states dto)).2 in
  let of_relationships := (each_distinct dto_relationship_key
    (λ index, [duplicate_issue "relationship_states" index "duplicate relationship key in relationship_states"])
    nothing_else ∅ (relationship_states dto)).2 in
  let of_add_facts := each (λ index draft,
    validate_content "add_facts" index (fd_content draft) (fd_retrieval_hint draft)) (add_facts dto) in
  let of_update_facts := (each_distinct fu_id
    (λ index, [duplicate_issue "update_facts" index "duplicate update_facts target"])
    (λ index update, validate_content "update_facts" index (fu_content update) (fu_retrieval_hint update))
    ∅ (update_facts dto)).2 in
  let of_add_rumors := each (λ index draft,
    validate_content "add_rumors" index (rd_content draft) (rd_retrieval_hint draft)) (add_rumors dto) in
  let '(seen_rumor_targets, of_update_rumors) := each_distinct ru_id
    (λ index, [duplicate_issue "update_rumors" index "duplicate update_rumors target"])
    (λ index update, validate_content "update_rumors" index (ru_content update) (ru_retrieval_hint update))
    ∅ (update_rumors dto) in
  let of_delete_rumors := (each_distinct id
    (λ index, [duplicate_issue "delete_rumor_ids" index "duplicate rumor mutation target"])
    nothing_else seen_rumor_targets (delete_rumor_ids dto)).2 in
  let of_add_memories := each (λ index draft, memory_content "add_memories" index (md_content draft))
    (add_memories dto) in
  let '(seen_memory_targets, of_update_memories) := each_distinct mu_id
    (λ index, [duplicate_issue "update_memories" index "duplicate update_memories target"])
    (λ index update, memory_content "update_memories" index (mu_content update)) ∅ (update_memories dto) in
  let of_delete_memories := (each_distinct id
    (λ index, [duplicate_issue "delete_memory_ids" index "duplicate memory mutation target"])
    nothing_else seen_memory_targets (delete_memory_ids dto)).2 in
  let of_judgments := each schema_judgment (narrative_condition_judgments dto) in
  let of_violations := each (λ index violation, issue_if (is_blank violation)
    (count_issue_at "cast_policy_violations" index "violation reason must not be empty"))
    (cast_policy_violations dto) in
  schema_counts dto ++ of_new_roles ++ of_role_states ++ of_relationships
  ++ of_add_facts ++ of_update_facts ++ of_add_rumors ++ of_update_rumors ++ of_delete_rumors
  ++ of_add_memories ++ of_update_memories ++ of_delete_memories ++ of_judgments ++ of_violations.
End schema.

Definition extraction_schema_validate c : result TurnExecutionError (list ValidationIssue) :=
  match extraction_of c with
  | None => Ok []
  | Some dto => Ok (schema_issues (extraction_limits_of c) dto)
  end.

(** ** [reference.rs] *)

(** A set of role identifiers, and the raw texts that name one of them. *)
Definition names_role (known_roles : gset RoleId) (raw : string) : bool :=
  match RoleId_try_new raw with Ok role_id => bool_decide (role_id ∈ known_roles) | Err _ => false end.
Definition source_role_resolves (known_roles : gset RoleId) (raw : string) : bool :=
  if is_blank raw then true else names_role known_roles raw.

(** [modifiable_knowledge_index]: what the writer was shown. *)
Definition insert_kind (kind : KnowledgeKind) (index : gmap KnowledgeSourceId KnowledgeKind)
    (source_ids : list KnowledgeSourceId) : gmap KnowledgeSourceId KnowledgeKind :=
  foldl (λ m id, <[id := kind]> m) index source_ids.
Definition modifiable_knowledge_index c : gmap KnowledgeSourceId KnowledgeKind :=
  let index := match tc_baseline c with
    | None => ∅
    | Some baseline =>
        let world := relevant_world_knowledge baseline in
        insert_kind Kind_Rumor (insert_kind Kind_Fact ∅ (map rwk_source_id (rwk_facts world)))
          (map rwk_source_id (rwk_rumors world))
    end in
  let world := ret_world (tc_retrieved c) in
  let index := insert_kind Kind_Fact index (map rki_source_id (ret_facts world)) in
  let index := insert_kind Kind_Rumor index (map rki_source_id (ret_rumors world)) in
  foldl (λ index character,
    insert_kind Kind_Memory (insert_kind Kind_Rumor index (map rki_source_id (known_rumors character)))
      (map rki_source_id (ret_memories character)))
    index (values (ret_characters (tc_retrieved c))).
Definition modifiable_contains (modifiable : gmap KnowledgeSourceId KnowledgeKind) (kind : KnowledgeKind)
    (raw_id : string) : bool :=
  match id_try_new (kind_prefix kind) raw_id with
  | Ok id => bool_decide (modifiable !! kind_sid kind id = Some kind)
  | Err _ => false
  end.

(** A location is known if a role is there or the narrative graph names it. *)
Definition effect_names_location (key : LocationKey) (effect : NarrativeEffectDefinition) : bool :=
  match effect with
  | Effect_CharacterImpulse _ => false
  | Effect_WorldEvent intent =>
      bool_decide (wed_location intent = Some key)
      || existsb (λ participant, match participant with
           | Participant_Location location => bool_decide (location = key)
           | Participant_Role _ => false end) (wed_participants intent)
  end.
Definition location_known (snapshot : StoryReadSnapshot) (key : LocationKey) : bool :=
  existsb (λ role, bool_decide (state_location (view_state role) = key)) (values (snap_roles snapshot))
  || existsb (λ node, existsb (effect_names_location key) (on_activate (effects node) ++ on_complete (effects node)))
       (values (nodes (snap_narrative_definition snapshot))).
Definition location_key_resolves_str (snapshot : StoryReadSnapshot) (raw : string) : bool :=
  match key_try_new raw with Ok key => location_known snapshot key | Err _ => false end.

Definition named_roles (dto : StoryStateExtractionDto) : gset RoleId :=
  list_to_set (omap (λ role, match RoleId_try_new (nr_role_id role) with Ok id => Some id | Err _ => None end)
    (new_roles dto)).

Definition reference_issues (snapshot : StoryReadSnapshot) (modifiable : gmap KnowledgeSourceId KnowledgeKind)
    (dto : StoryStateExtractionDto) : list ValidationIssue :=
  let established := dom (snap_roles snapshot) in
  let known := established ∪ named_roles dto in
  let unless b path index message := issue_if (negb b) (reference_issue path index message) in
  each (λ index role,
    match RoleId_try_new (nr_role_id role) with
    | Ok role_id => issue_if (bool_decide (role_id ∈ established))
                      (reference_issue "new_roles" index "role_id already exists in the story")
    | Err _ => [reference_issue "new_roles" index "role_id does not resolve to a valid identifier"]
    end
    ++ unless (location_key_resolves_str snapshot (nr_location role)) "new_roles" index
         "location does not resolve to a known location") (new_roles dto)
  ++ each (λ index state,
    unless (names_role known (rs_role_id state)) "role_states" index "role_id is not a known role"
    ++ unless (location_key_resolves_str snapshot (rs_location state)) "role_states" index
         "location does not resolve to a known location") (role_states dto)
  ++ each (λ index relationship,
    unless (names_role known (rsd_source_role_id relationship) && names_role known (rsd_target_role_id relationship))
      "relationship_states" index "relationship references an unknown role") (relationship_states dto)
  ++ each (λ index draft, unless (source_role_resolves known (rd_source_role_id draft)) "add_rumors" index
       "source_role_id is not a known role") (add_rumors dto)
  ++ each (λ index update,
    unless (source_role_resolves known (ru_source_role_id update)) "update_rumors" index
      "source_role_id is not a known role"
    ++ unless (modifiable_contains modifiable Kind_Rumor (ru_id update)) "update_rumors" index
         "update target is not modifiable") (update_rumors dto)
  ++ each (λ index draft, unless (names_role known (md_owner_role_id draft)) "add_memories" index
       "owner_role_id is not a known role") (add_memories dto)
  ++ each (λ index update, unless (modifiable_contains modifiable Kind_Memory (mu_id update)) "update_memories" index
       "update target is not modifiable") (update_memories dto)
  ++ each (λ index update, unless (modifiable_contains modifiable Kind_Fact (fu_id update)) "update_facts" index
       "update target is not modifiable") (update_facts dto)
  ++ each (λ index raw_id, unless (modifiable_contains modifiable Kind_Rumor raw_id) "delete_rumor_ids" index
       "delete target is not modifiable") (delete_rumor_ids dto)
  ++ each (λ index raw_id, unless (modifiable_contains modifiable Kind_Memory raw_id) "delete_memory_ids" index
       "delete target is not modifiable") (delete_memory_ids dto).

Definition reference_validate c : result TurnExecutionError (list ValidationIssue) :=
  match extraction_of c, tc_snapshot c with
  | Some dto, Some snapshot => Ok (reference_issues snapshot (modifiable_knowledge_index c) dto)
  | _, _ => Ok []
  end.

(** ** [domain_invariant.rs] *)

(** [i16::try_from] *)
Definition i16_fits (z : Z) : bool := ((-32768 <=? z) && (z <=? 32767))%Z.

(** The panics inside the allocation never happen ([allocate_dynamic_role_candidates_spec]),
    so its only error is the overflow. *)
Definition domain_new_roles (high_water : RoleIdHighWater) (roles : list NewRoleDto) : list ValidationIssue :=
  match roles with
  | [] => []
  | _ =>
      match allocate_dynamic_role_candidates high_water (length roles) with
      | Ok pool => each (λ index role,
          let position := match RoleId_try_new (nr_role_id role) with
            | Ok role_id => position_of pool role_id | Err _ => None end in
          issue_if (negb (bool_decide (position = Some index)))
            (new_role_issue index "role_id must be the next unused dynamic candidate in rendered order")) roles
      | Err (RoleAllocationOverflow | Panic) => [new_role_issue 0 "dynamic role id allocation overflowed"]
      end
  end.

Definition domain_issues (snapshot : StoryReadSnapshot) (dto : StoryStateExtractionDto) : list ValidationIssue :=
  issue_if (negb (bool_decide (length (cast_policy_violations dto) = 0)))
    (cast_policy_issue "cast_policy_violations"
       "extractor reported a material cast policy violation that requires narrative repair")
  ++ issue_if (negb (bool_decide (cast_policy (snap_instance_settings snapshot) = Cast_Open))
               && negb (bool_decide (length (new_roles dto) = 0)))
       (cast_policy_issue "new_roles" "new roles are not permitted under the configured cast policy")
  ++ domain_new_roles (snap_role_id_high_water snapshot) (new_roles dto)
  ++ each (λ index relationship, issue_if (negb (i16_fits (rsd_trust relationship))) (trust_issue index))
       (relationship_states dto).

Definition domain_invariant_validate c : result TurnExecutionError (list ValidationIssue) :=
  match extraction_of c, tc_snapshot c with
  | Some dto, Some snapshot => Ok (domain_issues snapshot dto)
  | _, _ => Ok []
  end.

(** ** [changed_only.rs] *)

Definition state_unchanged (current : StoryRoleState) (state : RoleStateDto) : bool :=
  bool_decide (state_location current = rs_location state)
  && (bool_decide (length (state_goals current) = length (rs_goals state))
      && forallb (λ '(existing, incoming), bool_decide (existing = incoming)) (zip (state_goals current) (rs_goals state)))
  && (bool_decide (map_len (state_attributes current) = map_len (rs_attributes state))
      && forallb (λ '(key, value), bool_decide (rs_attributes state !! key = Some value))
           (entries (state_attributes current))).

(** The key of a relationship whose parts all resolve. *)
Definition resolved_key (r : RelationshipStateDto) : option RelationshipKey :=
  match RoleId_try_new (rsd_source_role_id r), RoleId_try_new (rsd_target_role_id r), semantic_key_try_new (rsd_kind r) with
  | Ok source, Ok target, Ok kind => Some (source, target, kind)
  | _, _, _ => None
  end.
Definition find_relationship (relationships : list RelationshipState) (key : RelationshipKey) : option RelationshipState :=
  snd <$> list_find (λ existing, relationship_key existing = key) relationships.

Definition changed_only_issues (snapshot : StoryReadSnapshot) (dto : StoryStateExtractionDto) : list ValidationIssue :=
  each (λ index state,
    match RoleId_try_new (rs_role_id state) with
    | Err _ => []
    | Ok role_id =>
        match snapshot_role snapshot role_id with
        | None => []
        | Some current => issue_if (state_unchanged (view_state current) state)
            (unchanged_issue Issue_UnchangedRoleEmitted "role_states" index
               "role state is identical to the pre-turn snapshot")
        end
    end) (role_states dto)
  ++ each (λ index relationship,
    match resolved_key relationship with
    | None => []
    | Some key =>
        match find_relationship (snap_relationships snapshot) key with
        | None => []
        | Some current => issue_if (bool_decide (rel_trust current = rsd_trust relationship))
            (unchanged_issue Issue_UnchangedRelationshipEmitted "relationship_states" index
               "relationship state is identical to the pre-turn snapshot")
        end
    end) (relationship_states dto).

Definition changed_only_validate c : result TurnExecutionError (list ValidationIssue) :=
  match extraction_of c, tc_snapshot c with
  | Some dto, Some snapshot => Ok (changed_only_issues snapshot dto)
  | _, _ => Ok []
  end.
End validators.
