(* ===== verification/AiseValidationPipeline.v ===== *)
(** * The validation of a candidate, in the crate [aise]

    [validation/validation_pipeline.rs] and [validation/narrative_candidate_state.rs]
    of [crates/aise/src/]: the validators run in order over the candidate; if they find
    nothing, the change set of the turn is built from the story, the extraction and the
    snapshot, the narrative graph being resolved against the state the turn would
    leave. *)

From S2P Require Import Prelude Text AiseIds AiseRule AiseNarrative AiseStory AiseTurnData AiseExtraction.
From S2P Require Import AiseScan AisePorts AiseActivation AiseCoordination AiseBudget AiseValidation AiseContext.
From S2P Require Import AiseValidators.

(** The text of the [serde_json::Value] of an event. *)
Class EventPayload := { world_event_payload : WorldEventIntent → string }.

(** The texts of the errors of resolution and of enrichment. *)
Definition narrative_error_display (e : NarrativeError) : string :=
  match e with
  | MissingReference key => "narrative reference is missing: " +:+ key
  | ConditionDepthExceeded => "narrative condition depth limit exceeded"
  | ConditionCountExceeded => "narrative condition count limit exceeded"
  | GraphNodeLimitExceeded => "narrative graph node limit exceeded"
  | GraphEdgeLimitExceeded => "narrative graph edge limit exceeded"
  | SemanticCriterionConflict key =>
      "narrative semantic condition key " +:+ key +:+ " is reused with a different criterion"
  | SemanticConditionLimitExceeded => "narrative semantic condition count limit exceeded"
  | FrontierLimitExceeded => "narrative frontier node limit exceeded"
  | SemanticQueryLimitExceeded => "narrative semantic query count limit exceeded"
  | SemanticQueryByteLimitExceeded => "narrative semantic query byte limit exceeded"
  | TransitionLimitExceeded => "narrative transition limit exceeded"
  | PendingEffectLimitExceeded => "narrative pending effect limit exceeded"
  | CandidateVersionMismatch => "narrative candidate version mismatch"
  | GraphRevisionMismatch => "narrative graph revision mismatch"
  | Narrative_Invariant code => "narrative invariant violated: " +:+ code
  end.
Definition enrichment_error_display (e : ExtractionEnrichmentError) : string :=
  match e with
  | ContentExceedsBudget => "knowledge content exceeds its configured byte budget"
  | InvalidRetrievalHint => "retrieval_hint is invalid"
  | InvalidActivationRule => "activation rule is invalid"
  | Enrich_AllocationOverflow => "knowledge id allocation overflowed"
  | UnknownTarget => "update/delete target does not reference a known knowledge item"
  | UnknownSourceRole => "rumor source_role_id does not reference a known role"
  | UnknownOwnerRole => "memory owner_role_id does not reference a known role"
  | InvalidMemoryKind => "memory_kind is invalid"
  | OrdinalOverflow => "knowledge change count exceeds a u32 ordinal"
  end.

(** ** The state the turn would leave, as conditions see it *)

Section candidate_view.
Context (snapshot : StoryReadSnapshot) (accepted_new_roles : list StoryRole) (role_changes : list RoleStateChange)
  (relationship_operations : list ValidatedRelationshipOperation).
Implicit Types (role_id : RoleId).

Definition find_attribute (attributes : gmap AttributeKey ScalarValue) (attribute : BoundedText) : option ScalarValue :=
  (λ p, p.2.2) <$> list_find (λ kv, kv.1 = attribute) (entries attributes).
Definition changed_state role_id : option StoryRoleState :=
  (λ p, rsc_new_state p.2) <$> list_find (λ change, rsc_role_id change = role_id) role_changes.
Definition introduced_role role_id : option StoryRole :=
  snd <$> list_find (λ role, role_role_id role = role_id) accepted_new_roles.

Definition candidate_role_attribute role_id (attribute : BoundedText) :
    result NarrativeStateViewError (option ScalarValue) :=
  match changed_state role_id with
  | Some state => Ok (find_attribute (state_attributes state) attribute)
  | None =>
      match introduced_role role_id with
      | Some role => Ok (find_attribute (state_attributes (role_state role)) attribute)
      | None => committed_role_attribute snapshot role_id attribute
      end
  end.
Definition candidate_relationship_trust (source_role_id target_role_id : RoleId) :
    result NarrativeStateViewError (option Z) :=
  match list_find (λ operation, rel_source_role_id (operation_new_state operation) = source_role_id
                                ∧ rel_target_role_id (operation_new_state operation) = target_role_id)
          relationship_operations with
  | Some (_, operation) => Ok (Some (rel_trust (operation_new_state operation)))
  | None => committed_relationship_trust snapshot source_role_id target_role_id
  end.
Definition candidate_role_controller role_id : result NarrativeStateViewError RoleControllerKind :=
  if existsb (λ role, bool_decide (role_role_id role = role_id)) accepted_new_roles then Ok Controller_Ai
  else committed_role_controller snapshot role_id.

Definition CandidateNarrativeStateView : NarrativeStateView := {|
  fact_value := fact_value (CommittedNarrativeStateView snapshot);
  role_attribute := candidate_role_attribute;
  relationship_trust := candidate_relationship_trust;
  role_controller := candidate_role_controller;
|}.
End candidate_view.

Section pipeline.
Context `{Unicode, Sha256Bytes, RegexEngine, EventPayload}.
Implicit Types (c : TurnExecutionContext).

(** ** The change set *)

Definition pipeline_invariant (code message : string) : TurnExecutionError :=
  turn_error Kind_InvariantViolation code (Some Stage_Validation) message.
Definition bounded (value field : string) (maximum : N) : result TurnExecutionError BoundedText :=
  map_err (λ _, pipeline_invariant "model_output_invalid" (field +:+ " exceeds its bound"))
    (BoundedText_try_new (trim value) field maximum).
Definition optional_bounded (value field : string) (maximum : N) : result TurnExecutionError (option BoundedText) :=
  let trimmed := trim value in
  if is_empty trimmed then Ok None
  else let? text := bounded trimmed field maximum in Ok (Some text).

(** [u32::try_from(index)] *)
Definition make_event (story_id : StoryId) (turn_number : TurnNumber) (index : nat) (kind : EventKind)
    (payload : string) : result TurnExecutionError StoryEvent :=
  let id := story_id +:+ ":turn:" +:+ pretty turn_number +:+ ":event:" +:+ pretty (N.of_nat index) in
  fail_if (U32_MAX <? N.of_nat index)%N
  with pipeline_invariant "event_count_overflow" "event count exceeds u32" in
  Ok {| ev_id := id; ev_turn_number := turn_number; ev_seq := N.of_nat index; ev_kind := kind; ev_payload := payload |}.

Definition build_new_role c (role : NewRoleDto) : result TurnExecutionError StoryRole :=
  let? role_id := map_err (λ _, pipeline_invariant "new_role_id_invalid" "new role id does not resolve")
    (RoleId_try_new (nr_role_id role)) in
  let? location := map_err (λ _, pipeline_invariant "new_role_location_invalid" "new role location does not resolve")
    (key_try_new (nr_location role)) in
  let? goals := traverse (λ goal, bounded goal "role_goal" (lim_max_item_bytes (limits_of c))) (nr_goals role) in
  let profile_bytes := max_role_profile_bytes (extraction_limits_of c) in
  let? label := bounded (nr_role_label role) "role_label" profile_bytes in
  let? narrative_function := bounded (nr_narrative_function role) "narrative_function" profile_bytes in
  let? background := optional_bounded (nr_background role) "background" profile_bytes in
  let? name := bounded (nr_name role) "name" profile_bytes in
  let? appearance := optional_bounded (nr_appearance role) "appearance" profile_bytes in
  let? personality := optional_bounded (nr_personality role) "personality" profile_bytes in
  let? speaking_style := optional_bounded (nr_speaking_style role) "speaking_style" profile_bytes in
  Ok {|
    role_role_id := role_id;
    role_role_controller := Ai;
    role_label := label;
    role_narrative_function := narrative_function;
    role_background := background;
    role_effective_profile := {|
      profile_name := name; profile_appearance := appearance; profile_personality := personality;
      profile_speaking_style := speaking_style; dialogue_examples := [] |};
    role_source_character := None;
    role_state := {| state_location := location; state_goals := goals; state_attributes := nr_attributes role |};
  |}.

Definition build_role_change c (state : RoleStateDto) : result TurnExecutionError RoleStateChange :=
  let? role_id := map_err (λ _, pipeline_invariant "role_change_reference" "role_id is not a known role")
    (RoleId_try_new (rs_role_id state)) in
  let? location := map_err (λ _, pipeline_invariant "role_change_location_invalid" "role location does not resolve")
    (key_try_new (rs_location state)) in
  let? goals := traverse (λ goal, bounded goal "role_goal" (lim_max_item_bytes (limits_of c))) (rs_goals state) in
  Ok {| rsc_role_id := role_id;
        rsc_new_state := {| state_location := location; state_goals := goals;
                            state_attributes := rs_attributes state |} |}.

Definition build_relationship (snapshot : StoryReadSnapshot) (r : RelationshipStateDto) :
    result TurnExecutionError ValidatedRelationshipOperation :=
  let? source := map_err (λ _, pipeline_invariant "relationship_reference_invalid" "source_role_id does not resolve")
    (RoleId_try_new (rsd_source_role_id r)) in
  let? target := map_err (λ _, pipeline_invariant "relationship_reference_invalid" "target_role_id does not resolve")
    (RoleId_try_new (rsd_target_role_id r)) in
  let? kind := map_err (λ _, pipeline_invariant "relationship_kind_invalid" "relationship kind does not resolve")
    (semantic_key_try_new (rsd_kind r)) in
  fail_if negb (i16_fits (rsd_trust r))
  with pipeline_invariant "relationship_trust_out_of_range" "relationship trust is out of range" in
  let key := (source, target, kind) in
  let new_state := {| rel_source_role_id := source; rel_target_role_id := target; rel_kind := kind;
                      rel_trust := rsd_trust r |} in
  let existing := existsb (λ state, bool_decide (relationship_key state = key)) (snap_relationships snapshot) in
  Ok (if existing then Rel_Update {| rlc_key := key; rlc_new_state := new_state |} else Rel_Add new_state).

Definition disposition_effect (d : NarrativeEffectDisposition) : NarrativeEffectId :=
  match d with PendingDelivery effect_id | NotApplicable effect_id _ => effect_id end.
(** The effects the turn leaves pending: the former ones that the projection did not
    deliver, and the new ones. *)
Definition remaining_effects (state : NarrativeRuntimeState) (plan : NarrativePlan) (added : list PendingNarrativeEffect) :
    list PendingNarrativeEffect :=
  let delivered := map disposition_effect (effect_dispositions plan) in
  List.filter (λ pending, negb (bool_decide (pe_effect_id pending ∈ delivered))) (values (pending_effects state))
  ++ added.

Definition moved_to (kind : NarrativeTransitionKind) : NarrativeNodeState :=
  match kind with Trans_Activate => Node_Active | Trans_Complete => Node_Completed | Trans_Skip => Node_Skipped end.
Definition final_nodes (node_states : gmap NarrativeNodeKey NarrativeNodeState)
    (transitions : list ProposedNarrativeTransition) : gmap NarrativeNodeKey NarrativeNodeState :=
  foldl (λ states t, <[pt_node_key t := moved_to (pt_kind t)]> states) node_states transitions.
Definition constraint_stays (nodes : gmap NarrativeNodeKey NarrativeNodeState) (committed_sequence : StorySequence)
    (constraint : ActiveStoryConstraint) : bool :=
  match asc_lifecycle constraint with
  | Lifecycle_Persistent => true
  | Lifecycle_ThroughSequence sequence => (committed_sequence <? sequence)%N
  | Lifecycle_UntilNarrativeNodeResolved node_key =>
      match nodes !! node_key with Some (Node_Completed | Node_Skipped) => false | _ => true end
  end.

(** [impl From<NarrativeConditionStatus> for NarrativeTruthValue] *)
Definition status_truth (s : NarrativeConditionStatus) : NarrativeTruthValue :=
  match s with
  | Status_Satisfied => Satisfied | Status_Unsatisfied => Unsatisfied | Status_Unknown => Unknown
  end.
Definition judgments_of (envelope : StoryStateExtractionEnvelope) : Judgments :=
  map (λ r, (ncr_condition_key r, status_truth (ncr_status r))) (narrative_condition_results envelope).

Definition enrichment_context c : KnowledgeEnrichmentContext := {|
  kec_retrieved := tc_retrieved c;
  kec_turn_number := tk_turn_number (id_key (tc_identity c));
  kec_created_at_ms := id_started_at_ms (tc_identity c);
  kec_max_content_bytes := max_knowledge_change_bytes (limits_of c);
  kec_max_activation_terms := max_activation_terms (extraction_limits_of c);
  kec_max_activation_pattern_bytes := max_activation_pattern_bytes (extraction_limits_of c);
  kec_activation_rule_limits := lim_activation_rule_limits (limits_of c);
|}.

Definition build_change_set c : result TurnExecutionError ValidatedChangeSet :=
  let no_extraction := pipeline_invariant "missing_extraction" "no state extraction produced" in
  let? story := ok_or (tc_story c) (pipeline_invariant "missing_story" "no candidate story produced") in
  let? dto := ok_or (extraction_of c) no_extraction in
  let? envelope := ok_or (bse_envelope <$> tc_extraction c) no_extraction in
  let? snapshot := ok_or (tc_snapshot c) (pipeline_invariant "missing_snapshot" "no story snapshot available") in
  let? projection := ok_or (tc_narrative_projection c)
    (pipeline_invariant "missing_narrative_projection" "no narrative projection available") in
  let turn_number := tk_turn_number (id_key (tc_identity c)) in
  let current_turn := sat_add U64_MAX (snap_base_revision snapshot) 1 in
  let? text := bounded (story_text story) "story_text" (max_story_text_bytes (limits_of c)) in
  let? roles := traverse (build_new_role c) (new_roles dto) in
  let? role_changes := traverse (build_role_change c) (role_states dto) in
  let? relationship_operations := traverse (build_relationship snapshot) (relationship_states dto) in
  let? '(knowledge_mutations, knowledge_id_high_water) :=
    map_err (λ e, pipeline_invariant "knowledge_enrichment_failed" (enrichment_error_display e))
      (enrich_extracted_knowledge snapshot roles (enrichment_context c) dto) in
  let next_role_id_high_water := sat_add U64_MAX (snap_role_id_high_water snapshot) (nlen roles) in
  let? narrative_events := traverse (λ '(index, intent),
      make_event (tk_story_id (id_key (tc_identity c))) turn_number index Event_WorldChange (world_event_payload intent))
    (imap pair (world_event_intents (proj_plan projection))) in
  let view := CandidateNarrativeStateView snapshot roles role_changes relationship_operations in
  let? resolution := map_err (λ e, pipeline_invariant "narrative_resolution_failed" (narrative_error_display e))
    (resolve (lim_narrative (limits_of c)) (snap_narrative_definition snapshot) (snap_narrative_state snapshot) view
       (env_expected_graph_revision envelope) (judgments_of envelope) current_turn) in
  let narrative_resolution := {|
    vnr_candidate_version := env_candidate_version envelope;
    vnr_transitions := res_transitions resolution;
    vnr_condition_results := res_condition_results resolution;
    vnr_pending_effects :=
      remaining_effects (snap_narrative_state snapshot) (proj_plan projection) (res_pending_effects resolution);
    vnr_next_graph_revision := res_next_graph_revision resolution |} in
  let nodes := final_nodes (node_states (snap_narrative_state snapshot)) (res_transitions resolution) in
  let? committed_sequence := map_err
    (λ _, pipeline_invariant "story_sequence_overflow" "failed to assign the committed story sequence")
    (next_sequence (snap_story_continuity snapshot)) in
  let constraints := List.filter (constraint_stays nodes committed_sequence) (snap_active_constraints snapshot) in
  ValidatedChangeSet_new {|
    cs_story_text := text;
    cs_new_roles := roles;
    cs_role_changes := role_changes;
    cs_relationship_operations := relationship_operations;
    cs_knowledge_mutations := knowledge_mutations;
    cs_knowledge_id_high_water := knowledge_id_high_water;
    cs_next_role_id_high_water := next_role_id_high_water;
    cs_narrative_events := narrative_events;
    cs_narrative_resolution := narrative_resolution;
    cs_constraint_change := if bool_decide (constraints = snap_active_constraints snapshot)
                            then Change_Unchanged else Change_Replace constraints;
  |}.

(** ** The pipeline *)

Definition run_deterministic c : result TurnExecutionError (list ValidationIssue) :=
  try_fold (λ issues validate, let? more := validate c in Ok (issues ++ more)) []
    [story_bounds_validate; extraction_schema_validate; reference_validate; domain_invariant_validate;
     changed_only_validate; story_state_consistency_validate].

Definition validation_execute_inner c : result TurnExecutionError TurnExecutionContext :=
  fail_if match bse_story_version <$> tc_extraction c with
          | Some extraction_version => negb (extraction_version =? tc_story_version c)%N
          | None => false end
  with stale_state_extraction (Some Stage_Validation) in
  let? issues := run_deterministic c in
  if bool_decide (length issues = 0) then
    let? change_set := build_change_set c in
    set_validation_result (Validation_Pass change_set) c
  else
    let? validated := from_issues issues (max_validation_issues (limits_of c)) in
    set_validation_result validated c.
End pipeline.
