(* ===== verification/AiseValidationProofs.v ===== *)
(** * What a validation of the crate [aise] promises

    A candidate in which the validators find no issue reports roles, states and
    relationships that fit the snapshot it was generated from; its change set says so,
    and the construction can then fail only for the reasons the validators do not look
    at. *)

From S2P Require Import Prelude Text AiseIds AiseRule AiseNarrative AiseNarrativeProofs AiseStory AiseTurnData AiseExtraction.
From S2P Require Import AiseScan AisePorts AiseActivation AiseCoordination AiseBudget AiseValidation.
From S2P Require Import AiseContext AiseValidators AiseValidationPipeline.

(** ** Lists of issues *)
Lemma issue_if_nil b issue : issue_if b issue = [] ↔ b = false.
Proof. by destruct b. Qed.

Lemma each_nil {A} (f : nat → A → list ValidationIssue) l :
  each f l = [] ↔ ∀ i x, l !! i = Some x → f i x = [].
Proof.
  unfold each. revert f. induction l as [|x l IH]; intros f; simpl; [done|].
  rewrite app_nil, IH. split.
  - intros [Hx Hl] [|i] y Hy; simpl in *; [by injection Hy as <-|]. by apply Hl.
  - intros Hf. split; [by apply (Hf 0)|]. intros i y Hy. by apply (Hf (S i)).
Qed.

Lemma concat_nil {A B} (f : A → list B) l : concat (map f l) = [] ↔ ∀ x, x ∈ l → f x = [].
Proof. induction l as [|x l IH]; simpl; [set_solver|]. rewrite app_nil, IH. set_solver. Qed.

Section distinct.
Context {A K : Type} `{Countable K} (key : A → K).
Context (again : nat → list ValidationIssue) (others : nat → A → list ValidationIssue).

Lemma each_distinct_seen seen l : (each_distinct key again others seen l).1 = list_to_set (map key l) ∪ seen.
Proof.
  unfold each_distinct. induction l as [|x l IH] using rev_ind; [simpl; set_solver|].
  rewrite imap_app, foldl_app, map_app. simpl. rewrite IH, list_to_set_app_L. simpl. set_solver.
Qed.

(** No issue: the keys are distinct and new, and the items have none of their own. *)
Lemma each_distinct_nil seen l :
  (∀ i, again i ≠ []) → (each_distinct key again others seen l).2 = [] →
  NoDup (map key l) ∧ (∀ x, x ∈ l → key x ∉ seen) ∧ ∀ i x, l !! i = Some x → others i x = [].
Proof.
  intros Hagain. induction l as [|x l IH] using rev_ind.
  { intros _. split; [constructor|]. split; [set_solver|done]. }
  pose proof (each_distinct_seen seen l) as Hseen. unfold each_distinct in *.
  rewrite imap_app, foldl_app. simpl. rewrite !app_nil. intros (Hl & Hx & Ho). specialize (IH Hl) as (Hnd & Hnew & Hothers).
  rewrite Hseen in Hx. case_bool_decide as Hin; [by destruct (Hagain _ Hx)|].
  apply not_elem_of_union in Hin as [Hfresh Hout]. rewrite elem_of_list_to_set in Hfresh.
  split; [|split].
  - rewrite map_app. apply NoDup_app. split; [done|]. split; [|by apply NoDup_singleton].
    intros k Hk ->%list_elem_of_singleton. done.
  - intros y [Hy| ->%list_elem_of_singleton]%elem_of_app; [by apply Hnew|done].
  - intros i y [Hy|[Hi Hy]]%lookup_app_Some; [by apply Hothers|].
    apply list_lookup_singleton_Some in Hy as [Hz <-]. by replace i with (length l + 0)%nat by lia.
Qed.
End distinct.

(** What a text that names a role is. *)
Lemma role_try_new_ok raw id : RoleId_try_new raw = Ok id → id = raw.
Proof. unfold RoleId_try_new. intros. res_inv. done. Qed.
Lemma key_try_new_ok raw k : key_try_new raw = Ok k → k = raw.
Proof. unfold key_try_new. intros. res_inv. done. Qed.
Lemma semantic_key_try_new_ok raw k : semantic_key_try_new raw = Ok k → k = raw.
Proof. unfold semantic_key_try_new. intros. res_inv. done. Qed.
Lemma names_role_ok known raw : names_role known raw = true → RoleId_try_new raw = Ok raw ∧ raw ∈ known.
Proof.
  unfold names_role. destruct (RoleId_try_new raw) as [id|e] eqn:Hr; [|done]. intros Hk%bool_decide_eq_true.
  by rewrite <-(role_try_new_ok _ _ Hr).
Qed.

(** ** What the validators leave *)

(** The facts of an extraction without issues, against its snapshot. *)
Record extraction_sound (snapshot : StoryReadSnapshot) (dto : StoryStateExtractionDto) : Prop := {
  es_new_ids : ∀ i role, new_roles dto !! i = Some role →
    nr_role_id role = dynamic_role_id (snap_role_id_high_water snapshot + N.of_nat i + 1)
    ∧ RoleId_try_new (nr_role_id role) = Ok (nr_role_id role)
    ∧ snapshot_role snapshot (nr_role_id role) = None
    ∧ location_key_resolves_str snapshot (nr_location role) = true;
  es_new_fit : new_roles dto = [] ∨ (snap_role_id_high_water snapshot + nlen (new_roles dto) <= U64_MAX)%N;
  es_new_distinct : NoDup (map nr_role_id (new_roles dto));
  es_cast : cast_policy_violations dto = []
    ∧ (new_roles dto ≠ [] → cast_policy (snap_instance_settings snapshot) = Cast_Open);
  es_states : ∀ state, state ∈ role_states dto →
    RoleId_try_new (rs_role_id state) = Ok (rs_role_id state)
    ∧ is_Some (snapshot_role snapshot (rs_role_id state))
    ∧ location_key_resolves_str snapshot (rs_location state) = true
    ∧ ∀ current, snapshot_role snapshot (rs_role_id state) = Some current →
        state_unchanged (view_state current) state = false;
  es_states_distinct : NoDup (map rs_role_id (role_states dto));
  es_relationships : ∀ r, r ∈ relationship_states dto →
    (∀ raw, raw = rsd_source_role_id r ∨ raw = rsd_target_role_id r →
       RoleId_try_new raw = Ok raw ∧ (is_Some (snapshot_role snapshot raw) ∨ raw ∈ map nr_role_id (new_roles dto)))
    ∧ i16_fits (rsd_trust r) = true
    ∧ ∀ key current, resolved_key r = Some key → find_relationship (snap_relationships snapshot) key = Some current →
        rel_trust current ≠ rsd_trust r;
  es_relationships_distinct : NoDup (map dto_relationship_key (relationship_states dto));
}.

Section sound.
Context (limits : StoryStateExtractionLimits) (snapshot : StoryReadSnapshot)
  (modifiable : gmap KnowledgeSourceId KnowledgeKind) (dto : StoryStateExtractionDto).

(** The issues of the schema that concern roles and relationships. *)
Lemma schema_distinct :
  schema_issues limits dto = [] →
  NoDup (map nr_role_id (new_roles dto)) ∧ NoDup (map rs_role_id (role_states dto))
  ∧ (∀ state, state ∈ role_states dto → rs_role_id state ∉ map nr_role_id (new_roles dto))
  ∧ NoDup (map dto_relationship_key (relationship_states dto)).
Proof.
  unfold schema_issues.
  destruct (each_distinct nr_role_id _ _ _ _) as [seen of_new_roles] eqn:Hn.
  destruct (each_distinct ru_id _ _ _ _) as [? ?]. destruct (each_distinct mu_id _ _ _ _) as [? ?].
  rewrite !app_nil. intros (_ & Hnew & Hstates & Hrels & _).
  pose proof (f_equal fst Hn) as Hseen. rewrite each_distinct_seen in Hseen. simpl in Hseen.
  apply (f_equal snd) in Hn. simpl in Hn. rewrite <-Hn in Hnew.
  apply each_distinct_nil in Hnew as (Hnd & _); [|done].
  apply each_distinct_nil in Hstates as (Hnd2 & Hout & _); [|done].
  apply each_distinct_nil in Hrels as (Hnd3 & _); [|done].
  split; [done|]. split; [done|]. split; [|done].
  intros state Hin. specialize (Hout _ Hin). rewrite <-Hseen in Hout. set_solver.
Qed.

Lemma position_lookup p id i : position_of p id = Some i → pool_candidates p !! i = Some id.
Proof.
  unfold position_of. intros ([j x] & Hf & ->)%fmap_Some_1.
  by apply list_find_Some in Hf as (Hl & -> & _).
Qed.

(** New roles have the next numbers, in order. *)
Lemma domain_new_roles_ok high_water roles :
  domain_new_roles high_water roles = [] →
  (roles = [] ∨ (high_water + nlen roles <= U64_MAX)%N)
  ∧ ∀ i role, roles !! i = Some role →
      nr_role_id role = dynamic_role_id (high_water + N.of_nat i + 1)
      ∧ RoleId_try_new (nr_role_id role) = Ok (nr_role_id role).
Proof.
  unfold domain_new_roles. destruct roles as [|r rs]; [by split; [left|]|]. set (roles := r :: rs).
  pose proof (allocate_dynamic_role_candidates_spec high_water (length roles)) as (_ & Hfit & Hpool).
  destruct (allocate_dynamic_role_candidates _ _) as [p|[]]; [|done..].
  specialize (Hpool p eq_refl) as (_ & Hcands & _). rewrite each_nil. intros He. split.
  - right. destruct (proj1 Hfit eq_refl) as [|]; [done|]. by unfold nlen.
  - intros i role Hi. specialize (He i role Hi). rewrite issue_if_nil, negb_false_iff, bool_decide_eq_true in He.
    destruct (RoleId_try_new (nr_role_id role)) as [id|] eqn:Hid; [|done].
    pose proof (role_try_new_ok _ _ Hid) as ->. split; [|done].
    apply position_lookup in He. rewrite Hcands in He. change (@map) with (@fmap list _) in He.
    rewrite list_lookup_fmap in He. apply fmap_Some_1 in He as (j & Hj & ->). by apply lookup_seq in Hj as [-> _].
Qed.
(** What [reference_issues] leaves of roles, states and relationships. *)
Lemma reference_ok :
  reference_issues snapshot modifiable dto = [] →
  (∀ i role, new_roles dto !! i = Some role →
     (∀ id, RoleId_try_new (nr_role_id role) = Ok id → snapshot_role snapshot id = None)
     ∧ location_key_resolves_str snapshot (nr_location role) = true)
  ∧ (∀ state, state ∈ role_states dto →
       names_role (dom (snap_roles snapshot) ∪ named_roles dto) (rs_role_id state) = true
       ∧ location_key_resolves_str snapshot (rs_location state) = true)
  ∧ ∀ r, r ∈ relationship_states dto →
      names_role (dom (snap_roles snapshot) ∪ named_roles dto) (rsd_source_role_id r) = true
      ∧ names_role (dom (snap_roles snapshot) ∪ named_roles dto) (rsd_target_role_id r) = true.
Proof.
  unfold reference_issues. rewrite !app_nil, !each_nil. intros (Hroles & Hstates & Hrels & _). split; [|split].
  - intros i role Hi. specialize (Hroles i role Hi). rewrite app_nil in Hroles. destruct Hroles as [Hid Hloc].
    rewrite issue_if_nil, negb_false_iff in Hloc. split; [|done]. intros id Hok. rewrite Hok in Hid.
    rewrite issue_if_nil, bool_decide_eq_false in Hid. by apply not_elem_of_dom.
  - intros state (i & Hi)%list_elem_of_lookup. specialize (Hstates i state Hi).
    rewrite app_nil, !issue_if_nil, !negb_false_iff in Hstates. done.
  - intros r (i & Hi)%list_elem_of_lookup. specialize (Hrels i r Hi).
    by rewrite issue_if_nil, negb_false_iff, andb_true_iff in Hrels.
Qed.

Lemma named_roles_in raw : raw ∈ named_roles dto → raw ∈ map nr_role_id (new_roles dto).
Proof.
  unfold named_roles. rewrite elem_of_list_to_set. intros (role & Hin & Hr)%list_elem_of_omap.
  apply list_elem_of_fmap. exists role. split; [|done].
  destruct (RoleId_try_new (nr_role_id role)) as [id|] eqn:Hid; [|done]. injection Hr as <-. by apply role_try_new_ok.
Qed.

Theorem issues_sound :
  schema_issues limits dto = [] → reference_issues snapshot modifiable dto = [] → domain_issues snapshot dto = [] →
  changed_only_issues snapshot dto = [] → extraction_sound snapshot dto.
Proof.
  intros (Hnd & Hsd & Hout & Hrd)%schema_distinct (Hroles & Hstates & Hrels)%reference_ok.
  unfold domain_issues, changed_only_issues. rewrite !app_nil, !issue_if_nil, !each_nil.
  intros (Hviol & Hcast & Hnew & Htrust) [Hchg Hrchg].
  apply domain_new_roles_ok in Hnew as [Hfit Hnew].
  assert (∀ raw, names_role (dom (snap_roles snapshot) ∪ named_roles dto) raw = true →
    RoleId_try_new raw = Ok raw ∧ (is_Some (snapshot_role snapshot raw) ∨ raw ∈ map nr_role_id (new_roles dto))) as Hknown.
  { intros raw [Hok [Hd%elem_of_dom|Hn%named_roles_in]%elem_of_union]%names_role_ok; auto. }
  split; [|done|done| | |done| |done].
  - intros i role Hi. destruct (Hnew i role Hi) as [Hid Hok]. destruct (Hroles i role Hi) as [Hfree Hloc].
    split_and!; [done|done|by apply Hfree|done].
  - apply negb_false_iff, bool_decide_eq_true, length_zero_iff_nil in Hviol. split; [done|].
    intros Hne. apply andb_false_iff in Hcast as [Hc|Hc]; apply negb_false_iff, bool_decide_eq_true in Hc; [done|].
    by apply length_zero_iff_nil in Hc.
  - intros state Hin. destruct (Hstates state Hin) as [Hname Hloc]. destruct (Hknown _ Hname) as [Hok [Hd|Hn]].
    2: { by destruct (Hout state Hin). }
    split_and!; [done|done|done|]. intros current Hcur. apply list_elem_of_lookup in Hin as [i Hi].
    specialize (Hchg i state Hi). rewrite Hok in Hchg. simpl in Hchg. rewrite Hcur in Hchg.
    by apply issue_if_nil in Hchg.
  - intros r Hin. destruct (Hrels r Hin) as [Hs Ht]. apply list_elem_of_lookup in Hin as [i Hi].
    split_and!.
    + intros raw [->| ->]; by apply Hknown.
    + specialize (Htrust i r Hi). by apply issue_if_nil, negb_false_iff in Htrust.
    + intros key current Hk Hf. specialize (Hrchg i r Hi). rewrite Hk, Hf in Hrchg.
      by apply issue_if_nil, bool_decide_eq_false in Hrchg.
Qed.

End sound.

Section fits.
Context `{Unicode, Sha256Bytes, RegexEngine, EventPayload}.
Implicit Types (c : TurnExecutionContext).

Lemma deterministic_sound c snapshot dto :
  tc_snapshot c = Some snapshot → extraction_of c = Some dto → run_deterministic c = Ok [] →
  extraction_sound snapshot dto.
Proof.
  intros Hs He. unfold run_deterministic. cbn [try_fold].
  unfold story_bounds_validate, extraction_schema_validate, reference_validate, domain_invariant_validate,
    changed_only_validate, story_state_consistency_validate. rewrite Hs, He.
  intros Hrun. repeat (res_step; try done). subst.
  match goal with Heq : _ = [] |- _ => rewrite !app_nil in Heq; destruct Heq as (((((_ & ?) & ?) & ?) & ?) & _) end.
  by eapply issues_sound.
Qed.

(** The roles, states and relationships of a change set fit the snapshot: new roles
    take the next numbers and are the program's to play, a state replaces that of a role
    of the story, a relationship joins roles the story then has, and is updated if there
    is one already, to another trust, and added otherwise. *)
Record change_set_fits (snapshot : StoryReadSnapshot) (cs : ValidatedChangeSet) : Prop := {
  cf_new_ids : map role_role_id (cs_new_roles cs)
    = map (λ i, dynamic_role_id (snap_role_id_high_water snapshot + N.of_nat i + 1)) (seq 0 (length (cs_new_roles cs)));
  cf_new_distinct : NoDup (map role_role_id (cs_new_roles cs));
  cf_new_roles : ∀ role, role ∈ cs_new_roles cs →
    snapshot_role snapshot (role_role_id role) = None ∧ role_role_controller role = Ai
    ∧ location_known snapshot (state_location (role_state role)) = true;
  cf_high_water : cs_next_role_id_high_water cs = (snap_role_id_high_water snapshot + nlen (cs_new_roles cs))%N;
  cf_cast : cs_new_roles cs ≠ [] → cast_policy (snap_instance_settings snapshot) = Cast_Open;
  cf_changes : ∀ change, change ∈ cs_role_changes cs →
    is_Some (snapshot_role snapshot (rsc_role_id change))
    ∧ location_known snapshot (state_location (rsc_new_state change)) = true;
  cf_changes_distinct : NoDup (map rsc_role_id (cs_role_changes cs));
  cf_operations : ∀ op, op ∈ cs_relationship_operations cs →
    let state := operation_new_state op in
    (∀ id, id = rel_source_role_id state ∨ id = rel_target_role_id state →
       is_Some (snapshot_role snapshot id) ∨ id ∈ map role_role_id (cs_new_roles cs))
    ∧ i16_fits (rel_trust state) = true
    ∧ match op with
      | Rel_Add _ => relationship_key state ∉ map relationship_key (snap_relationships snapshot)
      | Rel_Update change => rlc_key change = relationship_key state
          ∧ ∃ current, current ∈ snap_relationships snapshot ∧ relationship_key current = relationship_key state
              ∧ rel_trust current ≠ rel_trust state
      end;
  cf_operations_distinct : NoDup (map (relationship_key ∘ operation_new_state) (cs_relationship_operations cs));
}.

Lemma new_role_ok c dto role :
  build_new_role c dto = Ok role →
  role_role_id role = nr_role_id dto ∧ state_location (role_state role) = nr_location dto ∧ role_role_controller role = Ai.
Proof.
  unfold build_new_role. intros Hb. repeat (res_step; try done). subst. cbn.
  read_results.
  split_and!; [by apply role_try_new_ok|by apply key_try_new_ok|done].
Qed.
Lemma role_change_ok c dto change :
  build_role_change c dto = Ok change →
  rsc_role_id change = rs_role_id dto ∧ state_location (rsc_new_state change) = rs_location dto.
Proof.
  unfold build_role_change. intros Hb. repeat (res_step; try done). subst. cbn.
  read_results.
  split; [by apply role_try_new_ok|by apply key_try_new_ok].
Qed.
Lemma relationship_ok snapshot dto op :
  build_relationship snapshot dto = Ok op →
  resolved_key dto = Some (relationship_key (operation_new_state op))
  ∧ relationship_key (operation_new_state op) = dto_relationship_key dto
  ∧ rel_trust (operation_new_state op) = rsd_trust dto
  ∧ match op with
    | Rel_Add state => relationship_key state ∉ map relationship_key (snap_relationships snapshot)
    | Rel_Update change => rlc_key change = relationship_key (rlc_new_state change)
        ∧ rlc_key change ∈ map relationship_key (snap_relationships snapshot)
    end.
Proof.
  unfold build_relationship. intros Hb. repeat (res_step; try done). read_results. subst.
  unfold resolved_key. repeat match goal with Hok : _ = Ok _ |- _ => rewrite Hok end.
  repeat match goal with
  | Hok : RoleId_try_new _ = Ok _ |- _ => apply role_try_new_ok in Hok as ->
  | Hok : semantic_key_try_new _ = Ok _ |- _ => apply semantic_key_try_new_ok in Hok as -> end.
  destruct (existsb _ _) eqn:He; (split; [done|]; split; [done|]; split; [done|]).
  - split; [done|]. apply existsb_exists in He as (state & Hin%list_elem_of_In & Hk%bool_decide_eq_true).
    rewrite <-Hk. by apply (list_elem_of_fmap_2 relationship_key).
  - intros (state & Hk & Hin)%list_elem_of_fmap. apply not_true_iff_false in He. apply He, existsb_exists.
    exists state. split; [by apply list_elem_of_In|]. by apply bool_decide_eq_true_2.
Qed.

(** Lists related item by item have related images. *)
Lemma Forall2_map_eq {A B C} (R : A → B → Prop) (f : A → C) (g : B → C) l k :
  (∀ x y, R x y → g y = f x) → Forall2 R l k → map g k = map f l.
Proof. intros HR. induction 1 as [|x y l k Hxy _ IH]; simpl; [done|]. by rewrite IH, (HR _ _ Hxy). Qed.

Lemma find_relationship_some relationships key :
  key ∈ map relationship_key relationships →
  ∃ current, find_relationship relationships key = Some current ∧ current ∈ relationships ∧ relationship_key current = key.
Proof.
  intros (r & -> & Hin)%list_elem_of_fmap. unfold find_relationship.
  destruct (list_find_elem_of (λ existing, relationship_key existing = relationship_key r) relationships r Hin eq_refl)
    as [[i current] Hf].
  exists current. rewrite Hf. split; [done|]. apply list_find_Some in Hf as (Hl & Hk & _).
  split; [by eapply list_elem_of_lookup_2|done].
Qed.

(** The parts of a change set that come from roles and relationships. *)
Lemma build_change_set_parts c cs :
  build_change_set c = Ok cs →
  ∃ snapshot dto, tc_snapshot c = Some snapshot ∧ extraction_of c = Some dto
    ∧ Forall2 (λ x y, build_new_role c x = Ok y) (new_roles dto) (cs_new_roles cs)
    ∧ Forall2 (λ x y, build_role_change c x = Ok y) (role_states dto) (cs_role_changes cs)
    ∧ Forall2 (λ x y, build_relationship snapshot x = Ok y) (relationship_states dto) (cs_relationship_operations cs)
    ∧ cs_next_role_id_high_water cs = sat_add U64_MAX (snap_role_id_high_water snapshot) (nlen (cs_new_roles cs)).
Proof.
  unfold build_change_set, ValidatedChangeSet_new. intros Hb. repeat (res_step; try done). read_results.
  destruct (_ : list ValidatedKnowledgeMutation * KnowledgeIdHighWater) as [mutations high_water].
  repeat (res_step; try done). read_results.
  repeat match goal with Ht : traverse _ _ = Ok _ |- _ => apply traverse_ok_Forall2 in Ht end.
  subst. by repeat (eexists || split).
Qed.

Lemma Forall2_elem {A B} (R : A → B → Prop) l k y : Forall2 R l k → y ∈ k → ∃ i x, l !! i = Some x ∧ R x y.
Proof.
  intros HR [i Hi]%list_elem_of_lookup. destruct (Forall2_lookup_r _ _ _ _ _ HR Hi) as (x & Hx & Hxy). eauto.
Qed.

Lemma location_resolves snapshot raw : location_key_resolves_str snapshot raw = true → location_known snapshot raw = true.
Proof.
  unfold location_key_resolves_str. destruct (key_try_new raw) as [key|] eqn:Hk; [|done].
  by apply key_try_new_ok in Hk as ->.
Qed.

Lemma change_set_fits_snapshot c cs snapshot :
  tc_snapshot c = Some snapshot → (snap_role_id_high_water snapshot <= U64_MAX)%N →
  run_deterministic c = Ok [] → build_change_set c = Ok cs → change_set_fits snapshot cs.
Proof.
  intros Hsnap Hmax Hrun (snapshot' & dto & Hs & He & Hroles & Hchanges & Hops & Hhw)%build_change_set_parts.
  rewrite Hsnap in Hs. injection Hs as <-. pose proof (deterministic_sound _ _ _ Hsnap He Hrun) as Hsound.
  assert (map role_role_id (cs_new_roles cs) = map nr_role_id (new_roles dto)) as Hids.
  { eapply Forall2_map_eq; [|done]. intros x y Hxy. simpl in Hxy. by apply new_role_ok in Hxy as [-> _]. }
  assert (length (cs_new_roles cs) = length (new_roles dto)) as Hlen by (symmetry; by eapply Forall2_length).
  split.
  - rewrite Hids, Hlen. change (@map) with (@fmap list _). apply list_eq. intros i. rewrite !list_lookup_fmap.
    destruct (new_roles dto !! i) as [role|] eqn:Hi.
    + destruct (es_new_ids _ _ Hsound i role Hi) as [Hid _]. apply lookup_lt_Some in Hi.
      rewrite lookup_seq_lt by done. simpl. by rewrite Hid.
    + apply lookup_ge_None in Hi. by rewrite lookup_seq_ge.
  - rewrite Hids. apply (es_new_distinct _ _ Hsound).
  - intros role Hin. destruct (Forall2_elem _ _ _ _ Hroles Hin) as (i & x & Hi & Hx).
    apply new_role_ok in Hx as (-> & -> & ->). destruct (es_new_ids _ _ Hsound i x Hi) as (_ & _ & Hfree & Hloc).
    split; [done|]. split; [done|]. by apply location_resolves.
  - rewrite Hhw. unfold sat_add. apply clamp_small. unfold nlen. rewrite Hlen.
    destruct (es_new_fit _ _ Hsound) as [->|Hfit]; [|done]. by rewrite N.add_0_r.
  - intros Hne. apply (proj2 (es_cast _ _ Hsound)). intros Hnil. apply Hne, length_zero_iff_nil. by rewrite Hlen, Hnil.
  - intros change Hin. destruct (Forall2_elem _ _ _ _ Hchanges Hin) as (i & x & Hi & Hx).
    apply role_change_ok in Hx as [-> ->].
    destruct (es_states _ _ Hsound x) as (_ & Hsome & Hloc & _); [by eapply list_elem_of_lookup_2|].
    split; [done|]. by apply location_resolves.
  - erewrite Forall2_map_eq; [apply (es_states_distinct _ _ Hsound)| |done].
    intros x y Hxy. simpl in Hxy. by apply role_change_ok in Hxy as [-> _].
  - intros op Hin. destruct (Forall2_elem _ _ _ _ Hops Hin) as (i & x & Hi & Hx).
    apply relationship_ok in Hx as (Hkey & Hdto & Htrust & Hop). cbn zeta. rewrite Htrust.
    destruct (es_relationships _ _ Hsound x) as (Hknown & Hfits & Hchg); [by eapply list_elem_of_lookup_2|].
    unfold relationship_key at 1, dto_relationship_key in Hdto. injection Hdto as Hsrc Htgt _. rewrite Hids, Hsrc, Htgt.
    split; [|split; [done|]].
    + intros id Hid. by apply Hknown.
    + destruct op as [state|change]; [done|]. destruct Hop as [-> (current & Hf & Hc & Hk)%find_relationship_some].
      split; [done|]. exists current. split; [done|]. split; [done|]. by eapply Hchg.
  - erewrite Forall2_map_eq; [apply (es_relationships_distinct _ _ Hsound)| |done].
    intros x y Hxy. exact (proj1 (proj2 (relationship_ok _ _ _ Hxy))).
Qed.


(** ** The errors that remain *)
Lemma map_err_err {E F A} (f : E → F) (r : result E A) e : map_err f r = Err e → ∃ e', r = Err e' ∧ e = f e'.
Proof. destruct r; intros [= <-]; eauto. Qed.

Lemma bounded_err value field maximum e : bounded value field maximum = Err e → err_code e = "model_output_invalid".
Proof. by intros (? & _ & ->)%map_err_err. Qed.
Lemma optional_bounded_err value field maximum e :
  optional_bounded value field maximum = Err e → err_code e = "model_output_invalid".
Proof. unfold optional_bounded. destruct (is_empty _); [done|]. intros He. res_inv. by eapply bounded_err. Qed.
Lemma bounded_list_err goals field maximum e :
  traverse (λ goal, bounded goal field maximum) goals = Err e → err_code e = "model_output_invalid".
Proof. intros (? & _ & He)%traverse_err. by eapply bounded_err. Qed.

Lemma new_role_err c snapshot role e :
  RoleId_try_new (nr_role_id role) = Ok (nr_role_id role) → location_key_resolves_str snapshot (nr_location role) = true →
  build_new_role c role = Err e → err_code e = "model_output_invalid".
Proof.
  unfold build_new_role, location_key_resolves_str. intros -> Hloc. destruct (key_try_new _); [|done]. cbn [map_err].
  intros He. repeat (res_step; try done); subst;
    solve [eapply bounded_list_err; eassumption | eapply bounded_err; eassumption | eapply optional_bounded_err; eassumption].
Qed.
Lemma role_change_err c snapshot state e :
  RoleId_try_new (rs_role_id state) = Ok (rs_role_id state) → location_key_resolves_str snapshot (rs_location state) = true →
  build_role_change c state = Err e → err_code e = "model_output_invalid".
Proof.
  unfold build_role_change, location_key_resolves_str. intros -> Hloc. destruct (key_try_new _); [|done]. cbn [map_err].
  intros He. repeat (res_step; try done); subst. by eapply bounded_list_err.
Qed.
Lemma relationship_err snapshot r e :
  RoleId_try_new (rsd_source_role_id r) = Ok (rsd_source_role_id r) →
  RoleId_try_new (rsd_target_role_id r) = Ok (rsd_target_role_id r) → i16_fits (rsd_trust r) = true →
  build_relationship snapshot r = Err e → err_code e = "relationship_kind_invalid".
Proof.
  unfold build_relationship. intros -> -> ->. cbn [map_err negb]. intros He. res_inv.
  by match goal with H : map_err _ _ = Err _ |- _ => apply map_err_err in H as (? & _ & ->) end.
Qed.
Lemma make_event_err story_id turn_number index kind payload e :
  make_event story_id turn_number index kind payload = Err e → err_code e = "event_count_overflow".
Proof. unfold make_event. case_match; by intros [= <-]. Qed.

(** What the validators do not look at: texts the limits of the turn refuse, the kind of a
    relationship, knowledge that cannot be enriched, conditions that cannot be resolved,
    and counters that run out. *)
Definition construction_codes : list string :=
  ["model_output_invalid"; "relationship_kind_invalid"; "knowledge_enrichment_failed"; "event_count_overflow";
   "narrative_resolution_failed"; "story_sequence_overflow"; "story_text_empty"].

(** [err_code e] is one of a list of codes when it is the code of [H]. *)
Ltac listed H := rewrite H; by apply (bool_decide_unpack _).

End fits.
