(* ===== verification/AiseRuntime.v ===== *)
(** * The run of a turn in the crate [aise]

    [runtime/turn_runtime.rs], [runtime/turn_pipeline_set.rs],
    [runtime/initializer.rs], [turn/turn_event.rs], [persistence/turn_committer.rs]
    and the records of [persistence/store.rs], of [crates/aise/src/].  The runtime
    drives a turn through its stages, each behind the trait [TurnExecutionPipeline],
    and checks the phase before and after every one of them.  The world is a
    parameter: the clock, the cancellation tokens, the store and whatever the stages
    reach.  Spans and observations are not modelled. *)

From S2P Require Import Prelude Text AiseIds AiseRule AiseNarrative AiseStory AiseTurnData AiseExtraction.
From S2P Require Import AiseConfig AiseScan AisePorts AiseActivation AiseCoordination AiseBudget AiseValidation AiseContext.

(** ** Records of the store *)

Record StoredTurnOutcome := { sto_request_digest : RequestDigest; sto_result : CommittedTurnResult }.
(** The payload is the text of a [serde_json::Value]. *)
Record OutboxRecord := {
  ob_id : string;
  ob_story_id : StoryId;
  ob_turn_number : TurnNumber;
  ob_event_type : string;
  ob_payload : string;
  ob_created_at : Z;
}.
Record TurnCommitSpec := {
  commit_story_id : StoryId;
  commit_base_revision : StoryRevision;
  commit_expected_graph_revision : N;
  commit_turn_of : StoryTurn;
  commit_changes : ValidatedChangeSet;
  commit_idempotency_key : IdempotencyKey;
  commit_request_digest : RequestDigest;
  commit_outbox : list OutboxRecord;
  commit_llm_calls : list LlmCallUsage;
  commit_activation_state_delta : PendingActivationStateDelta;
}.

(** ** Events *)

Inductive TurnEvent :=
| Event_StageStarted (turn_number : option TurnNumber) (stage : TurnStage)
| Event_ValidationCompleted (turn_number : option TurnNumber) (attempt : N) (decision : ValidationDecision)
    (issue_codes : list ValidationIssueCode)
| Event_Committed (r : CommittedTurnResult) (replayed : bool)
| Event_Failed (turn_number : option TurnNumber) (code : string)
| Event_Cancelled (turn_number : option TurnNumber) (code : string)
| Event_Conflict (turn_number : option TurnNumber) (code : string).
Definition event_turn_number (e : TurnEvent) : option TurnNumber :=
  match e with
  | Event_StageStarted n _ | Event_ValidationCompleted n _ _ _ | Event_Failed n _ | Event_Cancelled n _
  | Event_Conflict n _ => n
  | Event_Committed r _ => Some (res_turn_number r)
  end.
Definition event_stage (e : TurnEvent) : option TurnStage :=
  match e with
  | Event_StageStarted _ stage => Some stage
  | Event_ValidationCompleted _ _ _ _ => Some Stage_Validation
  | Event_Committed _ _ => Some Stage_TurnCommitter
  | _ => None
  end.
Definition event_is_terminal (e : TurnEvent) : bool :=
  match e with
  | Event_Committed _ _ | Event_Failed _ _ | Event_Cancelled _ _ | Event_Conflict _ _ => true
  | _ => false
  end.
Definition event_type (e : TurnEvent) : string :=
  match e with
  | Event_StageStarted _ _ => "stage_started" | Event_ValidationCompleted _ _ _ _ => "validation_completed"
  | Event_Committed _ _ => "committed" | Event_Failed _ _ => "failed" | Event_Cancelled _ _ => "cancelled"
  | Event_Conflict _ _ => "conflict"
  end.

(** ** The world *)

(** The token of a caller, the clock in nanoseconds and the store; asking changes
    the world, if only by the time it takes. *)
Class TurnWorld := {
  world : Type;
  is_cancelled : TurnCancellation → world → world * bool;
  instant_now : world → world * N;
  commit_turn : TurnCommitSpec → world → world * result StoreError CommittedTurnResult;
}.
(** [serde_json::to_value] of an event. *)
Class EventJson := event_json : StoryEvent → option string.

Section runtime.
Context `{RegexEngine} `{TurnJson} `{TurnWorld}.

(** [dyn TurnExecutionPipeline] *)
Record TurnExecutionPipeline := {
  pl_stage : TurnStage;
  pl_execute : TurnExecutionContext → world → TurnExecutionContext * world * result TurnExecutionError unit;
}.

(** ** The set of pipelines *)

Record TurnPipelineSet := {
  ps_initializer : TurnExecutionPipeline;
  ps_baseline_builder : TurnExecutionPipeline;
  ps_writer_planner : TurnExecutionPipeline;
  ps_retrieval : TurnExecutionPipeline;
  ps_character_think : TurnExecutionPipeline;
  ps_story_generator : TurnExecutionPipeline;
  ps_story_state_extractor : TurnExecutionPipeline;
  ps_validation : TurnExecutionPipeline;
  ps_story_repairer : TurnExecutionPipeline;
  ps_committer : TurnExecutionPipeline;
}.
Record TurnPipelineSetBuilder := {
  pb_initializer : option TurnExecutionPipeline;
  pb_baseline_builder : option TurnExecutionPipeline;
  pb_writer_planner : option TurnExecutionPipeline;
  pb_retrieval : option TurnExecutionPipeline;
  pb_character_think : option TurnExecutionPipeline;
  pb_story_generator : option TurnExecutionPipeline;
  pb_story_state_extractor : option TurnExecutionPipeline;
  pb_validation : option TurnExecutionPipeline;
  pb_story_repairer : option TurnExecutionPipeline;
  pb_committer : option TurnExecutionPipeline;
}.
Definition pipeline_set_invariant (message : string) : TurnExecutionError :=
  turn_error Kind_InvariantViolation "invalid_pipeline_set" None message.
Definition bind (field : string) (pipeline : option TurnExecutionPipeline) (expected : TurnStage) :
    result TurnExecutionError TurnExecutionPipeline :=
  let? pipeline := ok_or pipeline (pipeline_set_invariant ("pipeline set is missing " +:+ field)) in
  fail_if negb (bool_decide (pl_stage pipeline = expected))
  with pipeline_set_invariant ("pipeline field " +:+ field +:+ " bound to stage "
         +:+ TurnStage_as_str (pl_stage pipeline) +:+ ", expected " +:+ TurnStage_as_str expected) in
  Ok pipeline.
Definition build (b : TurnPipelineSetBuilder) : result TurnExecutionError TurnPipelineSet :=
  let? initializer := bind "initializer" (pb_initializer b) Stage_TurnInitializer in
  let? baseline_builder := bind "baseline_builder" (pb_baseline_builder b) Stage_BaselineBuilder in
  let? writer_planner := bind "writer_planner" (pb_writer_planner b) Stage_WriterPlanner in
  let? retrieval := bind "retrieval" (pb_retrieval b) Stage_ContextRetrieval in
  let? character_think := bind "character_think" (pb_character_think b) Stage_CharacterThink in
  let? story_generator := bind "story_generator" (pb_story_generator b) Stage_StoryGenerator in
  let? story_state_extractor :=
    bind "story_state_extractor" (pb_story_state_extractor b) Stage_StoryStateExtractor in
  let? validation := bind "validation" (pb_validation b) Stage_Validation in
  let? story_repairer := bind "story_repairer" (pb_story_repairer b) Stage_StoryRepairer in
  let? committer := bind "committer" (pb_committer b) Stage_TurnCommitter in
  Ok {| ps_initializer := initializer; ps_baseline_builder := baseline_builder; ps_writer_planner := writer_planner;
        ps_retrieval := retrieval; ps_character_think := character_think; ps_story_generator := story_generator;
        ps_story_state_extractor := story_state_extractor; ps_validation := validation;
        ps_story_repairer := story_repairer; ps_committer := committer |}.

(** ** The phases around a stage *)

Definition stage_entry_phases (stage : TurnStage) : option (list TurnPhase) :=
  match stage with
  | Stage_TurnInitializer => Some [Phase_Created]
  | Stage_BaselineBuilder => Some [Phase_Initialized]
  | Stage_WriterPlanner => Some [Phase_Prepared]
  | Stage_ContextRetrieval => Some [Phase_Planned]
  | Stage_CharacterThink => Some [Phase_Planned]
  | Stage_StoryGenerator => Some [Phase_ContextReady]
  | Stage_StoryStateExtractor => Some [Phase_StoryReady; Phase_StateReextractionRequired]
  | Stage_Validation => Some [Phase_CandidateReady]
  | Stage_StoryRepairer => Some [Phase_StoryRepairRequired]
  | Stage_TurnCommitter => Some [Phase_ReadyToCommit]
  | Stage_Context => None
  end.
Definition stage_exit_phases (stage : TurnStage) : option (list TurnPhase) :=
  match stage with
  | Stage_TurnInitializer => Some [Phase_Initialized]
  | Stage_BaselineBuilder => Some [Phase_Prepared]
  | Stage_WriterPlanner => Some [Phase_Planned]
  | Stage_ContextRetrieval => None
  | Stage_CharacterThink => None
  | Stage_StoryGenerator => Some [Phase_StoryReady]
  | Stage_StoryStateExtractor => Some [Phase_CandidateReady; Phase_StateReextractionRequired]
  | Stage_Validation =>
      Some [Phase_ReadyToCommit; Phase_StoryRepairRequired; Phase_StateReextractionRequired; Phase_Failed]
  | Stage_StoryRepairer => Some [Phase_StoryReady]
  | Stage_TurnCommitter => Some [Phase_Committed]
  | Stage_Context => None
  end.
Definition runtime_invariant (message : string) : TurnExecutionError :=
  turn_error Kind_InvariantViolation "turn_runtime_invariant" None message.

(** ** A running turn: its context, the world and the events handed to the sink *)

Record Turn := { t_ctx : TurnExecutionContext; t_world : world; t_events : list TurnEvent }.
Definition with_ctx (c : TurnExecutionContext) (t : Turn) : Turn :=
  {| t_ctx := c; t_world := t_world t; t_events := t_events t |}.
Definition with_world (w : world) (t : Turn) : Turn :=
  {| t_ctx := t_ctx t; t_world := w; t_events := t_events t |}.
(** [let _ = sink.emit(event)]: whether the client took it does not matter. *)
Definition emit (e : TurnEvent) (t : Turn) : Turn :=
  {| t_ctx := t_ctx t; t_world := t_world t; t_events := t_events t ++ [e] |}.

(** A computation over a running turn that may fail; what it did before it failed stays. *)
Definition run (A : Type) : Type := Turn → Turn * result TurnExecutionError A.
Definition run_bind {A B} (m : run A) (k : A → run B) : run B := λ t,
  let '(t', r) := m t in match r with Ok a => k a t' | Err e => (t', Err e) end.
Definition ask {A} (f : TurnExecutionContext → result TurnExecutionError A) : run A := λ t, (t, f (t_ctx t)).
(** An operation of the context, which leaves it as it was when it fails. *)
Definition change (f : TurnExecutionContext → result TurnExecutionError TurnExecutionContext) : run unit := λ t,
  match f (t_ctx t) with Ok c => (with_ctx c t, Ok tt) | Err e => (t, Err e) end.

(** [TurnRuntime::execute] *)
Definition check_entry (stage : TurnStage) (phase : TurnPhase) : result TurnExecutionError unit :=
  match stage_entry_phases stage with
  | Some entries =>
      fail_if negb (bool_decide (phase ∈ entries))
      with runtime_invariant ("pipeline " +:+ TurnStage_as_str stage +:+ " entered with unexpected phase "
             +:+ phase_debug phase +:+ ", expected one of " +:+ phases_debug entries) in
      Ok tt
  | None => Ok tt
  end.
Definition check_exit (stage : TurnStage) (phase : TurnPhase) : result TurnExecutionError unit :=
  match stage_exit_phases stage with
  | Some exits =>
      fail_if negb (bool_decide (phase ∈ exits))
      with runtime_invariant ("pipeline " +:+ TurnStage_as_str stage +:+ " completed with unexpected phase "
             +:+ phase_debug phase +:+ ", expected one of " +:+ phases_debug exits) in
      Ok tt
  | None => Ok tt
  end.
Definition context_turn_number (c : TurnExecutionContext) : TurnNumber := tk_turn_number (id_key (tc_identity c)).
Definition execute (p : TurnExecutionPipeline) : run unit := λ t,
  let stage := pl_stage p in
  match check_entry stage (tc_phase (t_ctx t)) with
  | Err e => (t, Err e)
  | Ok _ =>
      let '(w, stop) := is_cancelled (control_cancellation (tc_control (t_ctx t))) (t_world t) in
      if stop then (with_world w t, Err (cancelled (Some stage)))
      else
        let '(w, now) := instant_now w in
        if (control_deadline (tc_control (t_ctx t)) <=? now)%N
        then (with_world w t, Err (deadline_exceeded (Some stage)))
        else
          let t := emit (Event_StageStarted (Some (context_turn_number (t_ctx t))) stage) (with_world w t) in
          let '(c, w, outcome) := pl_execute p (t_ctx t) (t_world t) in
          let t := with_world w (with_ctx c t) in
          (t, let? _ := outcome in check_exit stage (tc_phase c))
  end.

(** ** [TurnRuntime::run_inner] *)

(** The two lines marked as debug code: the turn is made ready to commit and given a
    change set, in place of the loop that extracts, validates and repairs. *)
Definition debug_changeset : run unit := change (λ c, construct_changeset (set_pahse Phase_ReadyToCommit c)).
End runtime.

Notation "'run!' x ':=' e 'in' k" := (run_bind e (λ x, k))
  (at level 10, x binder, e at level 200, k at level 200) : res_scope.

Section run_inner.
Context `{RegexEngine} `{TurnJson} `{TurnWorld}.

Definition retrieve_step (s : TurnPipelineSet) : run unit :=
  run! retrieval := ask requires_retrieval in
  if retrieval : bool then execute (ps_retrieval s) else change skip_retrieval.
Definition think_step (s : TurnPipelineSet) : run unit :=
  run! thinking := ask requires_character_thinking in
  if thinking : bool then execute (ps_character_think s) else change skip_character_thinking.
Definition run_inner (s : TurnPipelineSet) : run unit :=
  run! _ := execute (ps_initializer s) in
  run! _ := execute (ps_baseline_builder s) in
  run! _ := execute (ps_writer_planner s) in
  run! _ := retrieve_step s in
  run! _ := think_step s in
  run! _ := change complete_context_preparation in
  run! _ := execute (ps_story_generator s) in
  run! _ := debug_changeset in
  run! _ := execute (ps_committer s) in
  ask (λ c, match tc_committed_result c with
            | Some _ => Ok tt
            | None => Err (runtime_invariant "committed turn missing committed result")
            end).

(** ** The first and the last stage *)

Definition TurnInitializer : TurnExecutionPipeline := {|
  pl_stage := Stage_TurnInitializer;
  pl_execute c w :=
    if is_empty (player_contribution (tc_request c))
    then (c, w, Err (invalid_request "empty player contribution"))
    else match complete_initialization c with Ok c' => (c', w, Ok tt) | Err e => (c, w, Err e) end;
|}.

Context `{EventJson}.

Definition knowledge_mutation_affects_activation (m : ValidatedKnowledgeMutation) : bool :=
  match operation m with
  | Op_Add entry | Op_Update _ entry => negb (bool_decide (entry_kind entry = Kind_Memory))
  | Op_Delete target => match target with Deletable_Rumor _ => true | Deletable_Memory _ => false end
  end.

Definition commit_error (code message : string) : TurnExecutionError :=
  turn_error Kind_InvariantViolation code (Some Stage_TurnCommitter) message.
Definition outbox_record (story_id : StoryId) (turn : TurnNumber) (created_at : Z) (seq : N) (event : StoryEvent) :
    result TurnExecutionError OutboxRecord :=
  let? payload := ok_or (event_json event)
    (commit_error "outbox_serialization_failed" "failed to serialize outbox event payload") in
  Ok {| ob_id := story_id +:+ ":turn:" +:+ pretty turn +:+ ":outbox:" +:+ pretty seq;
        ob_story_id := story_id;
        ob_turn_number := turn;
        ob_event_type := "story_event." +:+ EventKind_as_str (ev_kind event);
        ob_payload := payload;
        ob_created_at := created_at |}.
(** What the committer asks of the store for a context that is ready. *)
Definition commit_spec (c : TurnExecutionContext) : result TurnExecutionError TurnCommitSpec :=
  fail_if negb (bool_decide (tc_phase c = Phase_ReadyToCommit))
  with commit_error "commit_gate_rejected"
    ("committer requires ReadyToCommit phase, current " +:+ phase_debug (tc_phase c)) in
  let? change_set := ok_or (tc_change_set c)
    (commit_error "missing_change_set" "committer requires a validated change set") in
  let? snapshot := ok_or (tc_snapshot c) (commit_error "missing_snapshot" "committer requires a story snapshot") in
  let turn := context_turn_number c in
  let story_id := tk_story_id (id_key (tc_identity c)) in
  let created_at := id_started_at_ms (tc_identity c) in
  let? prepared_activation := ok_or (tc_activation c)
    (commit_error "missing_activation" "committer requires prepared activation state") in
  let? outbox := traverse (λ '(seq, event), outbox_record story_id turn created_at seq event)
    (imap (λ i event, (N.of_nat i, event)) (cs_narrative_events change_set)) in
  let? sequence := map_err (λ _, commit_error "story_sequence_overflow" "failed to assign next story sequence")
    (next_sequence (snap_story_continuity snapshot)) in
  Ok {| commit_story_id := story_id;
        commit_base_revision := snap_base_revision snapshot;
        commit_expected_graph_revision := graph_revision (snap_narrative_state snapshot);
        commit_turn_of := {|
          turn_number := turn;
          turn_sequence := sequence;
          turn_player_contribution := player_contribution (tc_request c);
          turn_story_text := cs_story_text change_set;
          turn_created_at := created_at |};
        commit_changes := change_set;
        commit_idempotency_key := id_idempotency_key (tc_identity c);
        commit_request_digest := request_digest (tc_request c);
        commit_outbox := outbox;
        commit_llm_calls := tc_llm_calls c;
        commit_activation_state_delta := pa_pending_timed_state prepared_activation |}.
Definition TurnCommitter : TurnExecutionPipeline := {|
  pl_stage := Stage_TurnCommitter;
  pl_execute c w :=
    match commit_spec c with
    | Err e => (c, w, Err e)
    | Ok spec =>
        let '(w, outcome) := commit_turn spec w in
        match outcome with
        | Err e => (c, w, Err (store_turn_error e))
        | Ok r => match set_committed_result r c with Ok c' => (c', w, Ok tt) | Err e => (c, w, Err e) end
        end
    end;
|}.
(** The overlay version a span reports after the commit. *)
Definition overlay_version_after (change_set : ValidatedChangeSet) (before : N) : N :=
  if existsb knowledge_mutation_affects_activation (cs_knowledge_mutations change_set)
  then sat_add U64_MAX before 1 else before.
End run_inner.
