(* ===== verification/AiseGateway.v ===== *)
(** * The gateway to the model

    [llm/error.rs], [llm/message.rs], [llm/output_contract.rs], [llm/accounting.rs],
    [llm/limiter.rs] and [llm/gateway.rs] of [crates/aise/src/]: rate gates, permits,
    deadlines, the budget a call is reserved from and settled into, the check of a
    structured answer.  The provider, the prompts, the semaphore, the timers and the
    parser of an answer are parameters.  Spans and observations are not modelled. *)

From S2P Require Import Prelude Text AiseIds AiseRule AiseNarrative AiseStory AiseTurnData AiseExtraction AiseConfig.
From S2P Require Import AiseScan AisePorts AiseActivation AiseCoordination AiseBudget AiseValidation AiseContext.
From S2P Require Import AiseRuntime AisePlanning.
From Stdlib Require Import SpecFloat.

(** ** Errors *)

Inductive LlmTransportErrorKind :=
| Transport_Connect | Transport_Timeout | Transport_Io | Transport_Serialization | Transport_Server.
Inductive LlmProtocolErrorKind :=
| Protocol_InvalidJson | Protocol_EmptyChoices | Protocol_InvalidSseLine | Protocol_StreamTooLarge
| Protocol_UsageMissing | Protocol_Unsupported | Protocol_StructuredOutputUnsupported
| Protocol_InvalidStructuredOutput.
Inductive LlmResponseLimit :=
| Limit_Content | Limit_Reasoning | Limit_SseLine | Limit_StreamBuffer | Limit_EmbeddingDimensions
| Limit_EmbeddingItems.
#[global] Instance LlmProtocolErrorKind_eq_dec : EqDecision LlmProtocolErrorKind. Proof. solve_decision. Defined.
Definition response_limit_as_str (l : LlmResponseLimit) : string :=
  match l with
  | Limit_Content => "content" | Limit_Reasoning => "reasoning" | Limit_SseLine => "sse_line"
  | Limit_StreamBuffer => "stream_buffer" | Limit_EmbeddingDimensions => "embedding_dimensions"
  | Limit_EmbeddingItems => "embedding_items"
  end.

Inductive LlmProviderError :=
| Provider_RateLimited (retry_after_ms : option N)
| Provider_Rejected (status : N) (code message : option string)
| Provider_Transport (kind : LlmTransportErrorKind)
| Provider_Protocol (kind : LlmProtocolErrorKind)
| Provider_ResponseLimitExceeded (limit : LlmResponseLimit).
Definition is_rate_limited (e : LlmProviderError) : bool := match e with Provider_RateLimited _ => true | _ => false end.
Definition retry_after_ms (e : LlmProviderError) : option N :=
  match e with Provider_RateLimited ms => ms | _ => None end.

Inductive LlmError :=
| Llm_Cancelled | Llm_TurnDeadlineExceeded | Llm_ProviderTimeout | Llm_QueueTimeout
| Llm_RateLimited (retry_after_ms : option N)
| Llm_TokenBudgetExceeded (message : string)
| Llm_ProviderRejected (status : N) (code message : option string)
| Llm_Transport (kind : LlmTransportErrorKind)
| Llm_Protocol (kind : LlmProtocolErrorKind)
| Llm_ResponseLimitExceeded (limit : LlmResponseLimit)
| Llm_EmbeddingUnsupported.
(** [LlmError::kind] *)
Definition llm_error_kind (e : LlmError) : string :=
  match e with
  | Llm_Cancelled => "cancelled" | Llm_TurnDeadlineExceeded => "turn_deadline_exceeded"
  | Llm_ProviderTimeout => "provider_timeout" | Llm_QueueTimeout => "queue_timeout"
  | Llm_RateLimited _ => "rate_limited" | Llm_TokenBudgetExceeded _ => "token_budget_exceeded"
  | Llm_ProviderRejected _ _ _ => "provider_rejected" | Llm_Transport _ => "transport"
  | Llm_Protocol _ => "protocol" | Llm_ResponseLimitExceeded _ => "response_limit_exceeded"
  | Llm_EmbeddingUnsupported => "embedding_unsupported"
  end.
Definition from_provider_error (e : LlmProviderError) : LlmError :=
  match e with
  | Provider_RateLimited ms => Llm_RateLimited ms
  | Provider_Rejected status code message => Llm_ProviderRejected status code message
  | Provider_Transport kind => Llm_Transport kind
  | Provider_Protocol kind => Llm_Protocol kind
  | Provider_ResponseLimitExceeded limit => Llm_ResponseLimitExceeded limit
  end.
Definition unsupported : LlmError := Llm_Protocol Protocol_Unsupported.
Definition invalid_structured_output : LlmError := Llm_Protocol Protocol_InvalidStructuredOutput.

(** [{:?}] of a string, which escapes what the Unicode tables call unprintable. *)
Class DebugText := debug_text : string → string.
Definition debug_option `{DebugText} (s : option string) : string :=
  match s with Some s => "Some(" +:+ debug_text s +:+ ")" | None => "None" end.
Definition transport_debug (k : LlmTransportErrorKind) : string :=
  match k with
  | Transport_Connect => "Connect" | Transport_Timeout => "Timeout" | Transport_Io => "Io"
  | Transport_Serialization => "Serialization" | Transport_Server => "Server"
  end.
Definition protocol_debug (k : LlmProtocolErrorKind) : string :=
  match k with
  | Protocol_InvalidJson => "InvalidJson" | Protocol_EmptyChoices => "EmptyChoices"
  | Protocol_InvalidSseLine => "InvalidSseLine" | Protocol_StreamTooLarge => "StreamTooLarge"
  | Protocol_UsageMissing => "UsageMissing" | Protocol_Unsupported => "Unsupported"
  | Protocol_StructuredOutputUnsupported => "StructuredOutputUnsupported"
  | Protocol_InvalidStructuredOutput => "InvalidStructuredOutput"
  end.
Definition response_limit_debug (l : LlmResponseLimit) : string :=
  match l with
  | Limit_Content => "Content" | Limit_Reasoning => "Reasoning" | Limit_SseLine => "SseLine"
  | Limit_StreamBuffer => "StreamBuffer" | Limit_EmbeddingDimensions => "EmbeddingDimensions"
  | Limit_EmbeddingItems => "EmbeddingItems"
  end.
Definition llm_error_display `{DebugText} (e : LlmError) : string :=
  match e with
  | Llm_Cancelled => "llm call cancelled"
  | Llm_TurnDeadlineExceeded => "turn deadline exceeded"
  | Llm_ProviderTimeout => "provider timeout"
  | Llm_QueueTimeout => "queue timeout"
  | Llm_RateLimited _ => "rate limited"
  | Llm_TokenBudgetExceeded message => "token budget exceeded: " +:+ message
  | Llm_ProviderRejected status code message =>
      "provider rejected request with status " +:+ pretty status +:+ ", code " +:+ debug_option code +:+ ": "
      +:+ debug_option message
  | Llm_Transport kind => "transport error: " +:+ transport_debug kind
  | Llm_Protocol kind => "protocol error: " +:+ protocol_debug kind
  | Llm_ResponseLimitExceeded limit => "response limit exceeded: " +:+ response_limit_debug limit
  | Llm_EmbeddingUnsupported => "embedding not supported by provider"
  end.
(** [impl From<LlmError> for TurnExecutionError] *)
Definition llm_turn_error `{DebugText} (e : LlmError) : TurnExecutionError :=
  match e with
  | Llm_Cancelled => cancelled None
  | Llm_TurnDeadlineExceeded => deadline_exceeded None
  | other => turn_error Kind_Llm "llm_error" None (llm_error_display other)
  end.
(** What every stage makes of an error of the gateway. *)
Definition stage_llm_error `{DebugText} (stage : TurnStage) (e : LlmError) : TurnExecutionError :=
  turn_error Kind_Llm "llm_error" (Some stage) (llm_error_display e).
Definition budget_to_llm (e : TurnExecutionError) : LlmError :=
  match err_kind e with
  | Kind_Cancelled => Llm_Cancelled
  | Kind_DeadlineExceeded => Llm_TurnDeadlineExceeded
  | Kind_TokenBudgetExceeded => Llm_TokenBudgetExceeded (error_display e)
  | _ => unsupported
  end.

(** ** Contracts of structured answers *)

(** [serde_json::Value]; a number and a string are given by the text that
    [serde_json::to_string] writes for them. *)
Inductive Json :=
| Json_Scalar (text : string)
| Json_Array (items : list Json)
| Json_Object (members : list (string * Json)).

Section canonical.
Context `{JsonText} `{Sha256Bytes}.
(** The members of an object in the order of their keys. *)
Definition canonical_members (members : list (string * string)) : string :=
  "{" +:+ join "," (map (λ '(key, text), quoted key +:+ ":" +:+ text)
                     (sort_by (λ a b, String.compare a.1 b.1) members)) +:+ "}".
Fixpoint canonicalize_json (value : Json) : string :=
  match value with
  | Json_Scalar text => text
  | Json_Array items => "[" +:+ join "," (map canonicalize_json items) +:+ "]"
  | Json_Object members => canonical_members (map (λ '(key, val), (key, canonicalize_json val)) members)
  end.
Definition canonical_schema_hash (schema : Json) : Sha256Digest := sha256_bytes (str_bytes (canonicalize_json schema)).
End canonical.

(** [encodable_modes] of [ProviderTransportCapabilities]. *)
Definition resolve_structured_output_mode (configured_modes encodable_modes : list StructuredOutputMode) :
    option StructuredOutputMode :=
  List.find (λ mode, bool_decide (mode ∈ configured_modes) && bool_decide (mode ∈ encodable_modes)) PREFERENCE_ORDER.

(** A contract: the violation of [validate] is its reason; [serde_json::from_str] of
    the type is a parameter of the contract. *)
Record LlmOutputContract (T : Type) := {
  oc_name : string;
  oc_schema : Json;
  oc_compact_prompt_shape : string;
  oc_validate : T → result string unit;
  oc_decode : string → option T;
}.
Arguments oc_name {T}. Arguments oc_schema {T}. Arguments oc_compact_prompt_shape {T}.
Arguments oc_validate {T}. Arguments oc_decode {T}.
Record ResolvedStructuredOutputRequest := {
  rso_contract_name : string;
  rso_schema : Json;
  rso_schema_hash : Sha256Digest;
  rso_mode : StructuredOutputMode;
}.
Inductive CompletionOutputRequest := Output_Text | Output_Structured (r : ResolvedStructuredOutputRequest).

(** ** Messages *)

Inductive Role := Role_System | Role_User | Role_Assistant.
Record ChatMessage := { msg_role : Role; msg_content : string }.
Inductive CompletionOutputSpec := Spec_Text | Spec_Structured.
Record CompletionRequest := {
  creq_model : string;
  creq_messages : list ChatMessage;
  creq_max_tokens : N;
  creq_temperature : spec_float;
  creq_purpose : LlmCallPurpose;
  creq_output : CompletionOutputRequest;
}.
Record CompletionSpec := {
  csp_messages : list ChatMessage;
  csp_max_output_tokens : N;
  csp_purpose : LlmCallPurpose;
  csp_output : CompletionOutputSpec;
}.
Record EmbeddingRequest := { ereq_model : string; ereq_inputs : list string }.
Record EmbeddingOutput := {
  emb_vectors : list (list spec_float);
  emb_usage : option LlmTokenUsage;
  emb_charge : option LlmCharge;
}.
Record LlmCompletion := {
  cmp_text : string;
  cmp_finish_reason : option FinishReason;
  cmp_reasoning_content : option string;
  cmp_usage : option LlmTokenUsage;
  cmp_charge : option LlmCharge;
}.
Record StructuredLlmCompletion (T : Type) := { slc_value : T; slc_completion : LlmCompletion }.
Arguments slc_value {T}. Arguments slc_completion {T}.

(** ** Accounting *)

(** [amount as i64] of an [i128], and [i64::saturating_add]. *)
Definition as_i64_wrapping (z : Z) : Z := ((z + 9223372036854775808) mod 18446744073709551616 - 9223372036854775808)%Z.
Definition sat_add_i64 (x y : Z) : Z := Z.max (-9223372036854775808) (Z.min 9223372036854775807 (x + y)).
(** The product of a [u64] and an [i64] fits an [i128]: it does not saturate. *)
Definition price_for_tokens (tokens : N) (price_per_1k : Z) : Z :=
  as_i64_wrapping (Z.quot (Z.of_N tokens * price_per_1k) 1000).

Record TokenAccountant := {
  ta_provider : string;
  ta_model : string;
  ta_price_version : string;
  ta_input_price_per_1k : option Z;
  ta_cached_input_price_per_1k : option Z;
  ta_output_price_per_1k : option Z;
}.
Definition TokenAccountant_new (config : LlmConfig) (provider : string) : TokenAccountant := {|
  ta_provider := provider;
  ta_model := llm_model config;
  ta_price_version := "v1";
  ta_input_price_per_1k := llm_price_input_per_1k_tokens config;
  ta_cached_input_price_per_1k := llm_price_cached_input_per_1k_tokens config;
  ta_output_price_per_1k := llm_price_output_per_1k_tokens config;
|}.
Definition estimate_input_tokens (messages : list ChatMessage) : N :=
  foldl (λ total m, sat_add U64_MAX total (estimate_text_tokens (msg_content m))) 0%N messages.
Definition accountant_charge (a : TokenAccountant) (usage : LlmTokenUsage) : option LlmCharge :=
  match ta_input_price_per_1k a, ta_output_price_per_1k a with
  | Some input_price, Some output_price =>
      let cached_input := from_option id 0%N (tu_cached_input_tokens usage) in
      let non_cached_input := sat_sub (tu_input_tokens usage) cached_input in
      let input_cost := price_for_tokens non_cached_input input_price in
      let cached_cost := from_option (price_for_tokens cached_input) 0%Z (ta_cached_input_price_per_1k a) in
      let output_cost := price_for_tokens (tu_output_tokens usage) output_price in
      Some {| charge_provider := ta_provider a;
              charge_model := ta_model a;
              charge_input_tokens := tu_input_tokens usage;
              charge_cached_input_tokens := cached_input;
              charge_output_tokens := tu_output_tokens usage;
              charge_amount_minor := sat_add_i64 (sat_add_i64 input_cost cached_cost) output_cost;
              charge_price_version := ta_price_version a |}
  | _, _ => None
  end.
Definition estimated_usage (text : string) (estimated_input : N) : LlmTokenUsage :=
  let output := estimate_text_tokens text in {|
  tu_input_tokens := estimated_input;
  tu_cached_input_tokens := None;
  tu_output_tokens := output;
  tu_reasoning_tokens := None;
  tu_total_tokens := sat_add U64_MAX estimated_input output;
  tu_accuracy := Accuracy_Estimated;
|}.

(** ** The world a call runs in *)

Record LlmProvider := { provider_name : string; encodable_modes : list StructuredOutputMode }.
(** The two gates of the limiter. *)
Inductive Gate := Gate_Requests | Gate_Tokens.
(** Which branch of a [select!] ended first. *)
Inductive Waited (A : Type) := Waited_Done (a : A) | Waited_Cancelled | Waited_Elapsed.
Arguments Waited_Done {A} a. Arguments Waited_Cancelled {A}. Arguments Waited_Elapsed {A}.

(** The calls of all turns share the windows of the gates and the permits; while a
    call waits, the others change them.  [wait_until], [acquire_owned] and the two
    calls of the provider end when their own event does, when the token is cancelled
    or at the given instant. *)
Class LlmWorld `{TurnWorld} := {
  gate_window : Gate → world → list (N * N);
  set_gate_window : Gate → list (N * N) → world → world;
  wait_until : TurnCancellation → N → world → world * Waited unit;
  acquire_owned : TurnCancellation → N → world → world * Waited bool;
  drop_permit : world → world;
  provider_complete : bool → CompletionRequest → TurnCancellation → N → world →
    world * Waited (result LlmProviderError LlmCompletion);
  provider_embed : EmbeddingRequest → TurnCancellation → N → world →
    world * Waited (result LlmProviderError EmbeddingOutput);
  new_call_id : world → world * LlmCallId;
}.

(** ** The limiter *)

(** [Duration::from_millis] and [WINDOW] in nanoseconds. *)
Definition from_millis (ms : N) : N := (ms * 1000000)%N.
Definition WINDOW : N := from_millis 60000.

Inductive GateStep := Gate_Passed | Gate_Wait (duration : N).
(** What happens under the lock of a gate: old entries leave its window; the call
    enters it when it fits, and passes without entering when the window is empty. *)
Fixpoint drop_expired (now : N) (window : list (N * N)) : list (N * N) :=
  match window with
  | (at_, tokens) :: rest => if (WINDOW <=? now - at_)%N then drop_expired now rest else window
  | [] => []
  end.
(** [sum()] of [u64] wraps in a release build. *)
Definition window_used (window : list (N * N)) : N := (foldl N.add 0 window.*2 mod 18446744073709551616)%N.
Definition gate_attempt (limit tokens now : N) (window : list (N * N)) : list (N * N) * GateStep :=
  let window := drop_expired now window in
  if (sat_add U64_MAX (window_used window) tokens <=? limit)%N then (window ++ [(now, tokens)], Gate_Passed)
  else match window with
       | (at_, _) :: _ => (window, Gate_Wait (sat_sub (at_ + WINDOW) now))
       | [] => (window, Gate_Passed)
       end.

Section gateway.
Context `{RegexEngine} `{TurnJson} `{LlmWorld} `{DebugText} `{JsonText} `{Sha256Bytes}.

(** The loop of a gate; [None] when the fuel ends. *)
Fixpoint gate_loop (fuel : nat) (gate : Gate) (limit tokens deadline : N) (cancellation : TurnCancellation) (w : world) :
    world * option (result LlmError unit) :=
  match fuel with
  | O => (w, None)
  | S fuel =>
      let '(w, now) := instant_now w in
      let '(window, step) := gate_attempt limit tokens now (gate_window gate w) in
      let w := set_gate_window gate window w in
      match step with
      | Gate_Passed => (w, Some (Ok tt))
      | Gate_Wait duration =>
          let '(w, now) := instant_now w in
          if (deadline <=? now)%N then (w, Some (Err Llm_TurnDeadlineExceeded))
          else
            let '(w, now) := instant_now w in
            let '(w, waited) := wait_until cancellation (N.min deadline (now + duration)) w in
            match waited with
            | Waited_Cancelled => (w, Some (Err Llm_Cancelled))
            | _ =>
                let '(w, now) := instant_now w in
                if (deadline <=? now)%N then (w, Some (Err Llm_TurnDeadlineExceeded))
                else gate_loop fuel gate limit tokens deadline cancellation w
            end
      end
  end.
(** Rounds enough: each ends at the deadline or lets at least a nanosecond pass. *)
Definition gate_fuel (deadline : N) : nat := 2 + N.to_nat deadline.
Definition gate_acquire (gate : Gate) (limit : option N) (tokens deadline : N) (cancellation : TurnCancellation) (w : world) :
    world * result LlmError unit :=
  match limit with
  | None => (w, Ok tt)
  | Some limit =>
      let '(w, r) := gate_loop (gate_fuel deadline) gate limit tokens deadline cancellation w in
      (w, from_option id (Err Llm_TurnDeadlineExceeded) r)
  end.

Record LlmGateway := { gw_provider : LlmProvider; gw_config : LlmConfig }.
Context (gateway : LlmGateway).

Definition acquire_quota (estimated_input_tokens max_output deadline : N) (cancellation : TurnCancellation) (w : world) :
    world * result LlmError unit :=
  let config := gw_config gateway in
  match gate_acquire Gate_Requests (llm_requests_per_minute config) 1 deadline cancellation w with
  | (w, Err e) => (w, Err e)
  | (w, Ok _) =>
      gate_acquire Gate_Tokens (llm_tokens_per_minute config) (sat_add U64_MAX estimated_input_tokens max_output)
        deadline cancellation w
  end.
Definition acquire_permit (turn_deadline : N) (cancellation : TurnCancellation) (w : world) : world * result LlmError unit :=
  let '(w, is_cancelled) := is_cancelled cancellation w in
  if (is_cancelled : bool) then (w, Err Llm_Cancelled)
  else
    let '(w, now) := instant_now w in
    if (turn_deadline <=? now)%N then (w, Err Llm_TurnDeadlineExceeded)
    else
      let queue_end := (now + from_millis (llm_queue_timeout_ms (gw_config gateway)))%N in
      let '(w, waited) := acquire_owned cancellation (N.min turn_deadline queue_end) w in
      match waited with
      | Waited_Done true => (w, Ok tt)
      | Waited_Done false => (w, Err (Llm_Protocol Protocol_InvalidSseLine))
      | Waited_Cancelled => (w, Err Llm_Cancelled)
      | Waited_Elapsed =>
          let '(w, now) := instant_now w in
          (w, Err (if (turn_deadline <=? now)%N then Llm_TurnDeadlineExceeded else Llm_QueueTimeout))
      end.

(** ** A call *)

Definition accountant : TokenAccountant := TokenAccountant_new (gw_config gateway) (provider_name (gw_provider gateway)).
(** A charge written as JSON and read back is the charge. *)
Definition usage_to_call_usage (call_id : LlmCallId) (purpose : LlmCallPurpose) (usage : LlmTokenUsage)
    (charge : option LlmCharge) (finish_reason : option FinishReason) : LlmCallUsage := {|
  cu_call_id := call_id;
  cu_purpose := purpose;
  cu_provider := provider_name (gw_provider gateway);
  cu_model := llm_model (gw_config gateway);
  cu_input_tokens := tu_input_tokens usage;
  cu_cached_input_tokens := tu_cached_input_tokens usage;
  cu_output_tokens := tu_output_tokens usage;
  cu_total_tokens := tu_total_tokens usage;
  cu_accuracy := tu_accuracy usage;
  cu_pricing_version := None;
  cu_charge := charge;
  cu_finish_reason := finish_reason;
|}.

(** The turn of a call, through its scope, and the world. *)
Record Machine := { m_ctx : TurnExecutionContext; m_world : world }.
Definition deadline_of (c : TurnExecutionContext) : N := control_deadline (tc_control c).
Definition cancellation_of (c : TurnExecutionContext) : TurnCancellation := control_cancellation (tc_control c).
(** [scope.release_llm(reservation); return Err(error)] *)
Definition abandon {A} (reservation : LlmBudgetReservation) (e : LlmError) (c : TurnExecutionContext) (w : world) :
    Machine * result LlmError A :=
  ({| m_ctx := scope_release_llm reservation c; m_world := w |}, Err e).
(** The end of a [select!] over a call of the provider. *)
Definition provider_outcome {A} (hits_turn_deadline : bool) (waited : Waited (result LlmProviderError A)) : result LlmError A :=
  match waited with
  | Waited_Done r => map_err from_provider_error r
  | Waited_Cancelled => Err Llm_Cancelled
  | Waited_Elapsed => Err (if hits_turn_deadline then Llm_TurnDeadlineExceeded else Llm_ProviderTimeout)
  end.
(** The quota, then the permit. *)
Definition admission (estimated_input max_output : N) (c : TurnExecutionContext) (w : world) : world * result LlmError unit :=
  match acquire_quota estimated_input max_output (deadline_of c) (cancellation_of c) w with
  | (w, Err e) => (w, Err e)
  | (w, Ok _) => acquire_permit (deadline_of c) (cancellation_of c) w
  end.
Definition provider_deadline (c : TurnExecutionContext) (now : N) : N :=
  N.min (now + from_millis (llm_provider_timeout_ms (gw_config gateway))) (deadline_of c).

(** Usage and charge filled in, the empty answer refused. *)
Definition complete_usage (estimated_input : N) (completion : LlmCompletion) : LlmCompletion :=
  let usage := from_option id (estimated_usage (cmp_text completion) estimated_input) (cmp_usage completion) in {|
  cmp_text := cmp_text completion;
  cmp_finish_reason := cmp_finish_reason completion;
  cmp_reasoning_content := cmp_reasoning_content completion;
  cmp_usage := Some usage;
  cmp_charge := match cmp_charge completion with Some charge => Some charge | None => accountant_charge accountant usage end;
|}.
Definition check_completion (estimated_input : N) (structured : option (string → bool))
    (outcome : result LlmError LlmCompletion) : result LlmError LlmCompletion :=
  let? completion := outcome in
  let completion := complete_usage estimated_input completion in
  fail_if is_blank (cmp_text completion) with Llm_Protocol Protocol_EmptyChoices in
  fail_if match structured with Some check => negb (check (cmp_text completion)) | None => false end
  with invalid_structured_output in
  Ok completion.
(** What is settled: the usage of an answer that was accepted; for any other the
    estimate of an empty one. *)
Definition settled_usage (call_id : LlmCallId) (purpose : LlmCallPurpose) (estimated_input : N)
    (completion : result LlmError LlmCompletion) : LlmCallUsage :=
  match completion with
  | Ok completion =>
      usage_to_call_usage call_id purpose
        (from_option id (estimated_usage "" estimated_input) (cmp_usage completion)) (cmp_charge completion)
        (cmp_finish_reason completion)
  | Err _ => usage_to_call_usage call_id purpose (estimated_usage "" estimated_input) None None
  end.
(** Settling, the end of the permit, and the answer. *)
Definition settle_call {A} (reservation : LlmBudgetReservation) (usage : LlmCallUsage) (outcome : result LlmError A)
    (c : TurnExecutionContext) (w : world) : Machine * result LlmError A :=
  let '(c, settle) := scope_settle_llm reservation usage c in
  ({| m_ctx := c; m_world := drop_permit w |},
   let? _ := map_err budget_to_llm settle in outcome).

Definition run_call (request : CompletionRequest) (stream : bool) (reservation : LlmBudgetReservation)
    (structured : option (string → bool)) (m : Machine) : Machine * result LlmError LlmCompletion :=
  let c := m_ctx m in
  let '(w, call_started) := instant_now (m_world m) in
  let '(w, is_cancelled) := is_cancelled (cancellation_of c) w in
  if (is_cancelled : bool) then abandon reservation Llm_Cancelled c w
  else if (deadline_of c <=? call_started)%N then abandon reservation Llm_TurnDeadlineExceeded c w
  else
    let estimated_input := estimate_input_tokens (creq_messages request) in
    let '(w, admitted) := admission estimated_input (creq_max_tokens request) c w in
    match admitted with
    | Err e => abandon reservation e c w
    | Ok _ =>
        let '(w, now) := instant_now w in
        let until := provider_deadline c now in
        let '(w, waited) := provider_complete stream request (cancellation_of c) until w in
        let outcome := check_completion estimated_input structured
          (provider_outcome (until =? deadline_of c)%N waited) in
        settle_call reservation (settled_usage (resv_call_id reservation) (creq_purpose request) estimated_input outcome)
          outcome c w
    end.

(** [complete] and [complete_stream]: the answer is text. *)
Definition text_request (spec : CompletionSpec) (output : CompletionOutputRequest) : CompletionRequest := {|
  creq_model := llm_model (gw_config gateway);
  creq_messages := csp_messages spec;
  creq_max_tokens := csp_max_output_tokens spec;
  creq_temperature := llm_temperature (gw_config gateway);
  creq_purpose := csp_purpose spec;
  creq_output := output;
|}.
Definition complete_or_stream (stream : bool) (spec : CompletionSpec) (reservation : LlmBudgetReservation) (m : Machine) :
    Machine * result LlmError LlmCompletion :=
  match csp_output spec with
  | Spec_Structured => abandon reservation unsupported (m_ctx m) (m_world m)
  | Spec_Text => run_call (text_request spec Output_Text) stream reservation None m
  end.
Definition complete := complete_or_stream false.
Definition complete_stream := complete_or_stream true.

(** *** Composed prompts *)

Inductive PromptProfile :=
| Profile_WriterPlanner | Profile_CharacterThink | Profile_StoryGenerator | Profile_StoryStateExtractor
| Profile_StoryRepairer.
Record PromptCompositionInput := { pci_profile : PromptProfile; pci_rc_vars : PromptVars; pci_fti_vars : PromptVars }.
Record PromptComposition := { pc_csi : string; pc_rc : string; pc_fti : string }.
(** [dyn TrustedPromptSource] *)
Class TrustedPromptSource := compose : PromptCompositionInput → option PromptComposition.
Context `{TrustedPromptSource}.

Definition render_composition (input : PromptCompositionInput) : result LlmError PromptComposition :=
  ok_or (compose input) unsupported.
Definition composition_messages (composition : PromptComposition) : list ChatMessage := [
  {| msg_role := Role_System; msg_content := pc_csi composition |};
  {| msg_role := Role_User; msg_content := pc_rc composition |};
  {| msg_role := Role_System; msg_content := pc_fti composition |}
].
(** A reservation of the scope. *)
Definition reserve (estimated_input max_output : N) (m : Machine) : Machine * result LlmError LlmBudgetReservation :=
  let '(w, call_id) := new_call_id (m_world m) in
  match scope_reserve_llm call_id estimated_input max_output (m_ctx m) with
  | Err e => ({| m_ctx := m_ctx m; m_world := w |}, Err (Llm_TokenBudgetExceeded (error_display e)))
  | Ok (c, reservation) => ({| m_ctx := c; m_world := w |}, Ok reservation)
  end.

Definition complete_text_composed (input : PromptCompositionInput) (max_output_tokens : N) (purpose : LlmCallPurpose)
    (m : Machine) : Machine * result LlmError LlmCompletion :=
  match render_composition input with
  | Err e => (m, Err e)
  | Ok composition =>
      let spec := {| csp_messages := composition_messages composition; csp_max_output_tokens := max_output_tokens;
                     csp_purpose := purpose; csp_output := Spec_Text |} in
      match reserve (estimate_input_tokens (csp_messages spec)) max_output_tokens m with
      | (m, Err e) => (m, Err e)
      | (m, Ok reservation) => complete spec reservation m
      end
  end.

Section structured.
Context {T : Type} (contract : LlmOutputContract T).

Definition accepted (text : string) : option T :=
  value ← oc_decode contract text;
  match oc_validate contract value with Ok _ => Some value | Err _ => None end.
Definition structured_check (text : string) : bool := bool_decide (is_Some (accepted text)).
Definition structured_messages (mode : StructuredOutputMode) (composition : PromptComposition) : list ChatMessage :=
  composition_messages composition
  ++ (if injects_prompt_contract mode
      then [{| msg_role := Role_System; msg_content := oc_compact_prompt_shape contract |}] else []).
Definition structured_request (mode : StructuredOutputMode) (messages : list ChatMessage) (max_output_tokens : N)
    (purpose : LlmCallPurpose) : CompletionRequest := {|
  creq_model := llm_model (gw_config gateway);
  creq_messages := messages;
  creq_max_tokens := max_output_tokens;
  creq_temperature := llm_temperature (gw_config gateway);
  creq_purpose := purpose;
  creq_output := Output_Structured {|
    rso_contract_name := oc_name contract; rso_schema := oc_schema contract;
    rso_schema_hash := canonical_schema_hash (oc_schema contract); rso_mode := mode |};
|}.
Definition configured_output_modes : list StructuredOutputMode :=
  configured_modes (llm_structured_output (gw_config gateway)) (provider_name (gw_provider gateway))
    (llm_model (gw_config gateway)).

Definition complete_structured_composed (input : PromptCompositionInput) (max_output_tokens : N)
    (purpose : LlmCallPurpose) (m : Machine) : Machine * result LlmError (StructuredLlmCompletion T) :=
  match resolve_structured_output_mode configured_output_modes (encodable_modes (gw_provider gateway)) with
  | None => (m, Err (Llm_Protocol Protocol_StructuredOutputUnsupported))
  | Some mode =>
      match render_composition input with
      | Err e => (m, Err e)
      | Ok composition =>
          let messages := structured_messages mode composition in
          match reserve (estimate_input_tokens messages) max_output_tokens m with
          | (m, Err e) => (m, Err e)
          | (m, Ok reservation) =>
              let '(m, r) := run_call (structured_request mode messages max_output_tokens purpose) false reservation
                (Some structured_check) m in
              (m, let? completion := r in
                  let? value := ok_or (accepted (cmp_text completion)) invalid_structured_output in
                  Ok {| slc_value := value; slc_completion := completion |})
          end
      end
  end.
End structured.

(** ** Embeddings *)

Definition embedding_usage (call_id : LlmCallId) (estimated_input : N) (output : result LlmError EmbeddingOutput) : LlmCallUsage :=
  let none := {| tu_input_tokens := estimated_input; tu_cached_input_tokens := None; tu_output_tokens := 0;
                 tu_reasoning_tokens := None; tu_total_tokens := estimated_input; tu_accuracy := Accuracy_Estimated |} in
  match output with
  | Ok output =>
      usage_to_call_usage call_id Purpose_Embedding (from_option id none (emb_usage output)) (emb_charge output) None
  | Err _ => usage_to_call_usage call_id Purpose_Embedding none None None
  end.
Definition embed (inputs : list string) (reservation : LlmBudgetReservation) (m : Machine) :
    Machine * result LlmError EmbeddingOutput :=
  let c := m_ctx m in
  let '(w, is_cancelled) := is_cancelled (cancellation_of c) (m_world m) in
  if (is_cancelled : bool) then abandon reservation Llm_Cancelled c w
  else if (protocol_max_embedding_items (llm_protocol (gw_config gateway)) <? nlen inputs)%N
  then abandon reservation (Llm_ResponseLimitExceeded Limit_EmbeddingItems) c w
  else
    let '(w, call_started) := instant_now w in
    if (deadline_of c <=? call_started)%N then abandon reservation Llm_TurnDeadlineExceeded c w
    else
      let estimated_input := (foldl N.add 0 (map estimate_text_tokens inputs) mod 18446744073709551616)%N in
      let '(w, admitted) := admission estimated_input 0 c w in
      match admitted with
      | Err e => abandon reservation e c w
      | Ok _ =>
          let '(w, now) := instant_now w in
          let until := provider_deadline c now in
          let '(w, waited) := provider_embed {| ereq_model := llm_model (gw_config gateway); ereq_inputs := inputs |}
            (cancellation_of c) until w in
          let outcome := provider_outcome (until =? deadline_of c)%N waited in
          settle_call reservation (embedding_usage (resv_call_id reservation) estimated_input outcome) outcome c w
      end.
End gateway.

(** ** The rate a gate allows *)

Section rate.
Implicit Types (l : list (N * N)).

(** The tokens of the entries at most a window old at an instant. *)
Definition in_window (t : N) (e : N * N) : bool := ((e.1 <=? t) && (t <? e.1 + WINDOW))%N.
Definition tokens_at (t : N) l : N := total_by snd (List.filter (in_window t) l).
(** A gate under a sequence of attempts: its window, and the calls it let pass that ask
    for no more than its limit. *)
Record GateLog := { gl_window : list (N * N); gl_passed : list (N * N) }.
Definition log_attempt (limit : N) (s : GateLog) (attempt : N * N) : GateLog :=
  let '(now, tokens) := attempt in
  let '(window, step) := gate_attempt limit tokens now (gl_window s) in {|
  gl_window := window;
  gl_passed := gl_passed s ++ match step with
    | Gate_Passed => if (tokens <=? limit)%N then [(now, tokens)] else []
    | Gate_Wait _ => [] end |}.
Definition log_attempts (limit : N) (attempts : list (N * N)) : GateLog :=
  foldl (log_attempt limit) {| gl_window := []; gl_passed := [] |} attempts.

Definition earlier (x y : N * N) : Prop := (x.1 <= y.1)%N.
Definition fresh (now : N) (e : N * N) : bool := (now <? e.1 + WINDOW)%N.
Lemma WINDOW_positive : (0 < WINDOW)%N.
Proof. by vm_compute. Qed.
Lemma drop_expired_fresh now l : StronglySorted earlier l → drop_expired now l = List.filter (fresh now) l.
Proof.
  pose proof WINDOW_positive. induction 1 as [|[at_ tokens] l Hl IH Hall]; [done|]. cbn [drop_expired List.filter]. unfold fresh at 1. cbn [fst].
  destruct (N.leb_spec WINDOW (now - at_)) as [Hold|Hnew], (N.ltb_spec now (at_ + WINDOW)); try lia.
  - exact IH.
  - f_equal. clear IH. induction Hall as [|e l He Hall IHall]; [done|]. cbn [List.filter]. unfold fresh at 1.
    apply StronglySorted_inv in Hl as [Hl _]. unfold earlier in He. cbn [fst] in He.
    destruct (N.ltb_spec now (e.1 + WINDOW)); [f_equal; by apply IHall|lia].
Qed.
Lemma filter_fresh_twice now now' l : (now <= now')%N → List.filter (fresh now') (List.filter (fresh now) l) = List.filter (fresh now') l.
Proof.
  intros Hle. induction l as [|e l IH]; [done|]. cbn [List.filter]. destruct (fresh now e) eqn:Hf; cbn [List.filter].
  - by rewrite IH.
  - unfold fresh in *. destruct (N.ltb_spec now' (e.1 + WINDOW)); [|done]. apply N.ltb_ge in Hf. lia.
Qed.
Lemma foldl_sum l : foldl N.add 0%N l.*2 = total_by snd l.
Proof.
  assert (∀ n, foldl N.add n l.*2 = (n + total_by snd l)%N) as H; [|by rewrite H].
  induction l as [|e l IH]; intros n; cbn; [lia|]. rewrite IH. unfold total_by. lia.
Qed.
Lemma tokens_subset (p q : N * N → bool) l :
  (∀ e, e ∈ l → p e = true → q e = true) → (total_by snd (List.filter p l) <= total_by snd (List.filter q l))%N.
Proof.
  induction l as [|e l IH]; intros Hpq; [done|]. cbn [List.filter]. specialize (IH (λ x Hx, Hpq x (list_elem_of_further _ _ _ Hx))).
  destruct (p e) eqn:Hp; [rewrite (Hpq e (list_elem_of_here _ _) Hp)|destruct (q e)]; unfold total_by in *; cbn in *; lia.
Qed.

Context (limit : N) (Hlimit : (limit <= U32_MAX)%N).
(** After attempts up to the instant [now]. *)
Record logged (now : N) (s : GateLog) : Prop := {
  lg_sorted : StronglySorted earlier (gl_passed s);
  lg_past : Forall (λ e, (e.1 <= now)%N) (gl_passed s);
  lg_window : ∃ last, (last <= now)%N ∧ gl_window s = List.filter (fresh last) (gl_passed s);
  lg_rate : ∀ t, (tokens_at t (gl_passed s) <= limit)%N;
}.
Lemma attempt_logged now now' tokens s : (now <= now')%N → logged now s → logged now' (log_attempt limit s (now', tokens)).
Proof.
  intros Hle [Hs Hp (last & Hlast & Hw) Hr]. unfold log_attempt, gate_attempt.
  rewrite Hw, drop_expired_fresh by (by apply StronglySorted_list_filter). rewrite filter_fresh_twice by lia.
  assert (total_by snd (List.filter (fresh now') (gl_passed s)) <= limit)%N as Hused.
  { etrans; [|apply (Hr now')]. apply tokens_subset. intros e He Hf. eapply Forall_forall in Hp; [|exact He].
    unfold in_window. unfold fresh in Hf. rewrite Hf. apply andb_true_iff. split; [apply N.leb_le; lia|done]. }
  assert (Forall (λ e, (e.1 <= now')%N) (gl_passed s)) as Hp' by (eapply Forall_impl; [exact Hp|cbn; lia]).
  assert (logged now' {| gl_window := List.filter (fresh now') (gl_passed s); gl_passed := gl_passed s ++ [] |}) as Hskip.
  { rewrite app_nil_r. split; [done..|by exists now'|done]. }
  unfold window_used. rewrite foldl_sum. rewrite (N.mod_small (total_by snd _)) by (unfold U32_MAX in *; lia).
  destruct (N.leb_spec (sat_add U64_MAX (total_by snd (List.filter (fresh now') (gl_passed s))) tokens) limit) as [Hfit|Hfull].
  - assert (total_by snd (List.filter (fresh now') (gl_passed s)) + tokens <= limit)%N as Hsum.
    { rewrite sat_add_lt in Hfit; [exact Hfit|]. unfold U64_MAX, U32_MAX in *. lia. }
    assert ((tokens <=? limit)%N = true) as -> by (apply N.leb_le; lia). split; cbn [gl_window gl_passed].
    + clear -Hs Hp'. induction Hs as [|e l Hl IH Hall]; cbn; [repeat constructor|]. apply Forall_cons in Hp' as [He Hp'].
      constructor; [by apply IH|]. apply Forall_app. split; [done|]. by repeat constructor.
    + apply Forall_app. split; [done|]. by repeat constructor.
    + exists now'. split; [done|]. rewrite List.filter_app. f_equal. cbn [List.filter].
      unfold fresh. cbn [fst]. pose proof WINDOW_positive. destruct (N.ltb_spec now' (now' + WINDOW)); [done|lia].
    + intros t. unfold tokens_at. rewrite List.filter_app, total_by_app. cbn [List.filter]. unfold in_window at 2. cbn [fst].
      destruct (N.leb_spec now' t) as [Ht|Ht]; cbn [andb]; [destruct (N.ltb_spec t (now' + WINDOW))|].
      2: cbn; rewrite N.add_0_r; exact (Hr t). 2: cbn; rewrite N.add_0_r; exact (Hr t).
      assert (total_by snd (List.filter (in_window t) (gl_passed s)) <= total_by snd (List.filter (fresh now') (gl_passed s)))%N.
      { apply tokens_subset. intros e _ [_ Hf]%andb_true_iff. unfold fresh. apply N.ltb_lt in Hf. apply N.ltb_lt. lia. }
      cbn. lia.
  - destruct (List.filter (fresh now') (gl_passed s)) as [|[at_ first] rest] eqn:Hf.
    + assert ((tokens <=? limit)%N = false) as ->; [|exact Hskip]. apply N.leb_gt.
      change (total_by snd []) with 0%N in Hfull. unfold sat_add, clamp in Hfull.
      destruct (N.leb_spec (0 + tokens) U64_MAX); unfold U64_MAX, U32_MAX in *; lia.
    + exact Hskip.
Qed.

Lemma logged_later now now' s : (now <= now')%N → logged now s → logged now' s.
Proof.
  intros Hle [Hs Hp (last & Hlast & Hw) Hr]. split; [done| |exists last; split; [lia|done]|done].
  eapply Forall_impl; [exact Hp|cbn; lia].
Qed.
Lemma earlier_snoc l e : StronglySorted earlier (l ++ [e]) → StronglySorted earlier l ∧ Forall (λ x, (x.1 <= e.1)%N) l.
Proof.
  induction l as [|x l IH]; cbn; [by repeat constructor|]. intros [Hs Hx]%StronglySorted_inv.
  apply Forall_app in Hx as [Hx [He _]%Forall_cons]. destruct (IH Hs). by split; constructor.
Qed.
Lemma Forall_max l : Forall (λ e, (e.1 <= foldr N.max 0%N l.*1)%N) l.
Proof.
  induction l as [|e l IH]; cbn; constructor; [lia|]. eapply Forall_impl; [exact IH|cbn; lia].
Qed.

(** C22: However the calls of all turns arrive at a gate, whatever they ask for, the
    tokens of those it lets pass add up to at most its limit in every minute, apart from
    calls that ask for more than the limit all alone. *)
Theorem gate_keeps_rate attempts t :
  StronglySorted earlier attempts → (tokens_at t (gl_passed (log_attempts limit attempts)) <= limit)%N.
Proof.
  intros Hs. assert (∀ now, Forall (λ e, (e.1 <= now)%N) attempts → logged now (log_attempts limit attempts)) as Hl.
  { induction attempts as [|[at_ tokens] attempts IH] using rev_ind; intros now Hnow.
    - split; cbn; [constructor|constructor|exists 0%N; split; [lia|done]|intros t0; cbn; lia].
    - apply Forall_app in Hnow as [_ [Hat _]%Forall_cons]. apply earlier_snoc in Hs as [Hs Hall].
      unfold log_attempts in *. rewrite foldl_app. cbn [foldl]. apply (logged_later at_); [exact Hat|].
      by apply (attempt_logged at_), IH. }
  apply (lg_rate _ _ (Hl (foldr N.max 0%N attempts.*1) (Forall_max attempts))).
Qed.
End rate.

(** ** A gate is left in time *)

(** What [tokio] documents of the clock and of [sleep_until]: instants do not go back,
    and a wait that was not cancelled ends at its instant or later. *)
Class LawfulClock `{LlmWorld} := {
  clock : world → N;
  now_clock w w' now : instant_now w = (w', now) → (clock w <= now ∧ now <= clock w')%N;
  wait_clock cancellation until w w' r :
    wait_until cancellation until w = (w', r) → (clock w <= clock w')%N ∧ (r = Waited_Cancelled ∨ (until <= clock w')%N);
  set_window_clock gate window w : clock (set_gate_window gate window w) = clock w;
}.

Section waiting.
Context `{RegexEngine} `{TurnJson} `{LawfulClock}.

Lemma drop_expired_head now window at_ tokens rest :
  drop_expired now window = (at_, tokens) :: rest → (now < at_ + WINDOW)%N.
Proof.
  pose proof WINDOW_positive. induction window as [|[at0 tokens0] window IH]; cbn [drop_expired]; [done|].
  destruct (N.leb_spec WINDOW (now - at0)); [done|]. intros [= -> -> ->]. lia.
Qed.
Lemma attempt_wait limit tokens now window window' duration :
  gate_attempt limit tokens now window = (window', Gate_Wait duration) → (0 < duration)%N.
Proof.
  unfold gate_attempt. destruct (_ <=? limit)%N; [done|].
  destruct (drop_expired now window) as [|[at_ first] rest] eqn:Hd; [done|]. intros [= _ <-].
  apply drop_expired_head in Hd. unfold sat_sub. lia.
Qed.
Lemma gate_loop_ends fuel gate limit tokens deadline cancellation w :
  (N.to_nat (deadline - clock w) < fuel)%nat → is_Some (gate_loop fuel gate limit tokens deadline cancellation w).2.
Proof.
  revert w. induction fuel as [|fuel IH]; intros w Hf; [lia|]. cbn [gate_loop].
  destruct (instant_now w) as [w1 now1] eqn:T1. apply now_clock in T1.
  destruct (gate_attempt limit tokens now1 (gate_window gate w1)) as [window [|duration]] eqn:Ha; [by eexists|].
  apply attempt_wait in Ha. destruct (instant_now (set_gate_window gate window w1)) as [w2 now2] eqn:T2.
  apply now_clock in T2. rewrite set_window_clock in T2. destruct (deadline <=? now2)%N; [by eexists|].
  destruct (instant_now w2) as [w3 now3] eqn:T3. apply now_clock in T3.
  destruct (wait_until _ _ w3) as [w4 waited] eqn:T4. apply wait_clock in T4 as [T4 Hw].
  destruct (instant_now w4) as [w5 now5] eqn:T5. apply now_clock in T5.
  assert (is_Some (if (deadline <=? now5)%N then (w5, Some (Err Llm_TurnDeadlineExceeded))
    else gate_loop fuel gate limit tokens deadline cancellation w5).2 ∨ waited = Waited_Cancelled) as [Hend| ->];
    [|by destruct waited; [exact Hend|by eexists|exact Hend]|by eexists].
  destruct Hw as [->|Hw]; [by right|left]. destruct (N.leb_spec deadline now5); [by eexists|]. apply IH. lia.
Qed.

(** C28: A call that waits at a gate leaves it: it is let through, it is cancelled, or the
    deadline of its turn ends the wait; the loop needs at most one round for each
    nanosecond to the deadline, and the result is never made up. *)
Theorem gate_ends gate limit tokens deadline cancellation w :
  ∃ w' r, gate_loop (gate_fuel deadline) gate limit tokens deadline cancellation w = (w', Some r)
    ∧ gate_acquire gate (Some limit) tokens deadline cancellation w = (w', r)
    ∧ (r = Ok tt ∨ r = Err Llm_Cancelled ∨ r = Err Llm_TurnDeadlineExceeded).
Proof.
  destruct (gate_loop_ends (gate_fuel deadline) gate limit tokens deadline cancellation w) as [r Hr]; [unfold gate_fuel; lia|].
  unfold gate_acquire. destruct (gate_loop _ _ _ _ _ _ w) as [w' o] eqn:Hl. cbn in Hr. subst o.
  exists w', r. split_and!; [done|done|]. clear -Hl. revert w Hl. generalize (gate_fuel deadline) as fuel.
  induction fuel as [|fuel IH]; intros w Hl; cbn [gate_loop] in Hl; [done|].
  repeat first [case_match; simplify_eq; auto|eauto].
Qed.
End waiting.
