(* ===== verification/AisePrompts.v ===== *)
(** * The prompts of the stages

    [story/story_generator_prompt.rs], [story/story_repairer_prompt.rs],
    [character/character_think_prompt.rs] and [story/story_state_extractor_prompt.rs]
    of [crates/aise/src/]: what the generator, the repairer, the characters and the
    extractor are shown, with the examples of dialogue that are left out when a prompt
    is too long.  Quoting, and the pretty printing of an extraction, are parameters. *)

From S2P Require Import Prelude Text AiseIds AiseRule AiseNarrative AiseStory AiseTurnData AiseExtraction AiseConfig.
From S2P Require Import AiseScan AisePorts AiseActivation AiseCoordination AiseBudget AiseValidation AiseContext AisePlanning.

(** [serde_json::to_string_pretty] of an extraction; [None] is its error. *)
Class ExtractionPretty := extraction_pretty : StoryStateExtractionDto → option string.

Section prompts.
Context `{RegexEngine} `{TurnJson} `{JsonText}.
Implicit Types (c : TurnExecutionContext).

Definition retrieved_character c (role_id : RoleId) : option RetrievedCharacterContext :=
  ret_characters (tc_retrieved c) !! role_id.
Definition knowledge_view (retrieved : option RetrievedCharacterContext) : RoleKnowledgePromptView :=
  match retrieved with
  | Some character => {| rkv_known_rumors := map rki_content (known_rumors character);
                         rkv_memories := map rki_content (ret_memories character) |}
  | None => {| rkv_known_rumors := []; rkv_memories := [] |}
  end.
Definition knows_nothing (v : RoleKnowledgePromptView) : bool :=
  match rkv_known_rumors v, rkv_memories v with [], [] => true | _, _ => false end.
Definition non_empty (value : option BoundedText) : option BoundedText :=
  match value with Some value => if is_blank value then None else Some value | None => None end.

(** [select_dialogue_examples]: an example that does not fit is left out. *)
Definition example_cost (e : DialogueExample) : N :=
  sat_add U64_MAX (estimate_text_tokens (de_situation e)) (estimate_text_tokens (de_response e)).
Fixpoint fitting_examples (max_tokens tokens : N) (examples : list DialogueExample) : list DialogueExample :=
  match examples with
  | [] => []
  | example :: examples =>
      let next := sat_add U64_MAX tokens (example_cost example) in
      if (max_tokens <? next)%N then fitting_examples max_tokens tokens examples
      else example :: fitting_examples max_tokens next examples
  end.
Definition select_dialogue_examples (examples : list DialogueExample) (config : ContextPreparationConfig) :
    list DialogueExample :=
  fitting_examples (context_max_dialogue_example_tokens_per_role config) 0
    (take (N.to_nat (context_max_dialogue_examples_per_role config)) examples).
Definition render_example (indent : string) (e : DialogueExample) : string :=
  indent +:+ "- " +:+ field "situation" (de_situation e) +:+ nl +:+ indent +:+ "  " +:+ field "response" (de_response e).

(** ** The generator *)

Record StoryContinuityPromptView := { scv_story_summary : BoundedText; scv_recent_story : list BoundedText }.
Record StoryGeneratorRoleStatePromptView := {
  grs_location : LocationKey; grs_goals : list BoundedText; grs_attributes : gmap AttributeKey ScalarValue;
}.
Record StoryGeneratorRolePromptView := {
  grv_role_id : RoleId;
  grv_name : BoundedText;
  grv_role_label : BoundedText;
  grv_appearance : option BoundedText;
  grv_personality : option BoundedText;
  grv_speaking_style : option BoundedText;
  grv_dialogue_examples : list DialogueExample;
  grv_background : option BoundedText;
  grv_state : StoryGeneratorRoleStatePromptView;
  grv_knowledge : RoleKnowledgePromptView;
}.
Definition with_examples (examples : list DialogueExample) (r : StoryGeneratorRolePromptView) :
    StoryGeneratorRolePromptView := {|
  grv_role_id := grv_role_id r; grv_name := grv_name r; grv_role_label := grv_role_label r;
  grv_appearance := grv_appearance r; grv_personality := grv_personality r; grv_speaking_style := grv_speaking_style r;
  grv_dialogue_examples := examples; grv_background := grv_background r; grv_state := grv_state r;
  grv_knowledge := grv_knowledge r |}.
Inductive ConstraintKindPromptView := Kind_Require | Kind_Forbid.
Record ActiveStoryConstraintPromptView := {
  acv_constraint_id : string; acv_kind : ConstraintKindPromptView; acv_statement : BoundedText;
}.
Record StoryGeneratorCharacterDecisionPromptView := {
  gdv_role_id : RoleId; gdv_name : BoundedText; gdv_decision : BoundedText;
  gdv_suggested_utterance : option BoundedText;
}.
Record StoryGeneratorPromptContext := {
  gpc_story_profile : StoryProfilePromptView;
  gpc_cast_policy : CastPolicy;
  gpc_story_continuity : StoryContinuityPromptView;
  gpc_player_role : StoryGeneratorRolePromptView;
  gpc_ai_roles : list StoryGeneratorRolePromptView;
  gpc_relevant_knowledge : WorldKnowledgePromptView;
  gpc_story_goal : BoundedText;
  gpc_narrative_direction : NarrativeDirectionPromptView;
  gpc_active_story_constraints : list ActiveStoryConstraintPromptView;
  gpc_character_decisions : list StoryGeneratorCharacterDecisionPromptView;
  gpc_player_contribution : BoundedText;
}.
Definition with_roles (player : StoryGeneratorRolePromptView) (ai_roles : list StoryGeneratorRolePromptView)
    (g : StoryGeneratorPromptContext) : StoryGeneratorPromptContext := {|
  gpc_story_profile := gpc_story_profile g; gpc_cast_policy := gpc_cast_policy g;
  gpc_story_continuity := gpc_story_continuity g; gpc_player_role := player; gpc_ai_roles := ai_roles;
  gpc_relevant_knowledge := gpc_relevant_knowledge g; gpc_story_goal := gpc_story_goal g;
  gpc_narrative_direction := gpc_narrative_direction g;
  gpc_active_story_constraints := gpc_active_story_constraints g;
  gpc_character_decisions := gpc_character_decisions g; gpc_player_contribution := gpc_player_contribution g |}.

Inductive StoryGeneratorProjectionError :=
| Gen_MissingBaseline | Gen_MissingWriterPlan | Gen_InvalidPlayerContribution
| Gen_UnknownDecisionRole (role_id : RoleId)
| Gen_PlayerRoleDecision (role_id : RoleId)
| Gen_DuplicateRoleDecision (role_id : RoleId)
| Gen_RequiredPromptDataExceedsBudget
| Gen_Invariant (code : string).
Definition generator_error_display (e : StoryGeneratorProjectionError) : string :=
  match e with
  | Gen_MissingBaseline => "story generator baseline is missing"
  | Gen_MissingWriterPlan => "story generator writer plan is missing"
  | Gen_InvalidPlayerContribution => "story generator player contribution is invalid"
  | Gen_UnknownDecisionRole role_id => "story generator character decision role is unknown: " +:+ role_id
  | Gen_PlayerRoleDecision role_id => "story generator character decision targets player role: " +:+ role_id
  | Gen_DuplicateRoleDecision role_id => "story generator character decision role is duplicated: " +:+ role_id
  | Gen_RequiredPromptDataExceedsBudget => "story generator required prompt data exceeds budget"
  | Gen_Invariant code => "story generator prompt invariant violated: " +:+ code
  end.

(** *** Its data *)

Definition project_role (role : RoleContextView) (config : ContextPreparationConfig)
    (retrieved : option RetrievedCharacterContext) : result StoryGeneratorProjectionError StoryGeneratorRolePromptView :=
  let profile := rcv_profile role in
  fail_if match retrieved ≫= ret_role with
          | Some retrieved_role =>
              negb (bool_decide (rcv_role_label retrieved_role = rcv_role_label role))
              || negb (bool_decide (profile_name (rcv_profile retrieved_role) = profile_name profile))
          | None => false
          end
  with Gen_Invariant "character_role_view_conflict" in
  Ok {| grv_role_id := rcv_role_id role;
        grv_name := profile_name profile;
        grv_role_label := rcv_role_label role;
        grv_appearance := profile_appearance profile;
        grv_personality := profile_personality profile;
        grv_speaking_style := profile_speaking_style profile;
        grv_dialogue_examples := select_dialogue_examples (dialogue_examples profile) config;
        grv_background := rcv_background role;
        grv_state := {| grs_location := state_location (rcv_state role); grs_goals := state_goals (rcv_state role);
                        grs_attributes := state_attributes (rcv_state role) |};
        grv_knowledge := knowledge_view retrieved |}.

(** The roles of the turn: those near the player, those asked to think and those an
    impulse is for. *)
Definition ai_role_ids c (baseline : BaselineContext) : gset RoleId :=
  list_to_set (map rcv_role_id (relevant_roles baseline)
    ++ from_option (λ plan, map ctr_role_id (character_think_requests plan)) [] (tc_plan c)
    ++ from_option (λ p, map imp_target_role_id (character_impulses (proj_plan p))) [] (tc_narrative_projection c))
  ∖ {[rcv_role_id (base_player_role baseline)]}.
Definition project_ai_roles c (baseline : BaselineContext) (config : ContextPreparationConfig) :
    result StoryGeneratorProjectionError (list StoryGeneratorRolePromptView) :=
  let? snapshot := ok_or (tc_snapshot c) Gen_MissingBaseline in
  let roles := omap (λ role_id, role_context_view <$> snapshot_role snapshot role_id)
    (set_entries (ai_role_ids c baseline)) in
  traverse (λ role, project_role role config (retrieved_character c (rcv_role_id role))) roles.
Definition constraint_view (constraint : ActiveStoryConstraint) : ActiveStoryConstraintPromptView :=
  match asc_requirement constraint with
  | Require statement => {| acv_constraint_id := asc_id constraint; acv_kind := Kind_Require; acv_statement := statement |}
  | Forbid statement => {| acv_constraint_id := asc_id constraint; acv_kind := Kind_Forbid; acv_statement := statement |}
  end.
Definition project_constraints (baseline : BaselineContext) : list ActiveStoryConstraintPromptView :=
  map constraint_view (sort_by (λ x y, String.compare (asc_id x) (asc_id y)) (active_story_constraints baseline)).

Definition project_decision (baseline : BaselineContext) (names : gmap RoleId BoundedText)
    (acc : gset RoleId * list StoryGeneratorCharacterDecisionPromptView) (e : CharacterDecision * CharacterThinkRequest) :
    result StoryGeneratorProjectionError (gset RoleId * list StoryGeneratorCharacterDecisionPromptView) :=
  let '(seen, views) := acc in
  let '(decision, request) := e in
  let role_id := cd_role_id decision in
  fail_if negb (bool_decide (role_id = ctr_role_id request)) with Gen_Invariant "character_decision_order_mismatch" in
  fail_if bool_decide (role_id = rcv_role_id (base_player_role baseline)) with Gen_PlayerRoleDecision role_id in
  fail_if bool_decide (role_id ∈ seen) with Gen_DuplicateRoleDecision role_id in
  let? name := ok_or (names !! role_id) (Gen_UnknownDecisionRole role_id) in
  Ok ({[role_id]} ∪ seen,
      views ++ [{| gdv_role_id := role_id; gdv_name := name; gdv_decision := cd_decision decision;
                   gdv_suggested_utterance := cd_suggested_utterance decision |}]).
(** [collect] into a map: the last role of an identifier gives its name. *)
Definition role_names (roles : list StoryGeneratorRolePromptView) : gmap RoleId BoundedText :=
  foldl (λ m role, <[grv_role_id role := grv_name role]> m) ∅ roles.
Definition project_decisions c (baseline : BaselineContext) (ai_roles : list StoryGeneratorRolePromptView) :
    result StoryGeneratorProjectionError (list StoryGeneratorCharacterDecisionPromptView) :=
  let? plan := ok_or (tc_plan c) Gen_MissingWriterPlan in
  let requests := character_think_requests plan in
  fail_if negb (bool_decide (length (tc_character_decisions c) = length requests))
  with Gen_Invariant "character_decision_count_mismatch" in
  let? '(_, views) := try_fold (project_decision baseline (role_names ai_roles)) (∅, [])
    (zip (tc_character_decisions c) requests) in
  Ok views.

(** *** Its text *)

Definition render_generator_role (value : StoryGeneratorRolePromptView) (prefix : option string) : string :=
  let first := from_option id "" prefix in
  let rest := match prefix with Some _ => "  " | None => "" end in
  let state := grv_state value in
  join nl (
    [first +:+ field "role_id" (grv_role_id value); rest +:+ field "name" (grv_name value)]
    ++ (if bool_decide (grv_role_label value = grv_name value) then [] else [rest +:+ field "role" (grv_role_label value)])
    ++ optional_line rest "appearance" (grv_appearance value)
    ++ optional_line rest "personality" (grv_personality value)
    ++ optional_line rest "speaking_style" (grv_speaking_style value)
    ++ match grv_dialogue_examples value with
       | [] => []
       | examples => [rest +:+ "dialogue_examples:" +:+ nl +:+ join nl (map (render_example rest) examples)]
       end
    ++ optional_line rest "background" (grv_background value)
    ++ [rest +:+ field "location" (grs_location state)]
    ++ match grs_goals state with [] => [] | goals => [rest +:+ "goals: " +:+ quoted_list goals] end
    ++ (if bool_decide (grs_attributes state = ∅) then []
        else [rest +:+ "attributes: " +:+ render_attributes (grs_attributes state)])
    ++ (if knows_nothing (grv_knowledge value) then [] else [render_role_knowledge (grv_knowledge value)])).
Definition render_generator_constraint (value : ActiveStoryConstraintPromptView) : string :=
  let kind := match acv_kind value with Kind_Require => "require" | Kind_Forbid => "forbid" end in
  "- " +:+ field "constraint_id" (acv_constraint_id value) +:+ nl +:+ "  kind: " +:+ kind +:+ nl +:+ "  "
  +:+ field "statement" (acv_statement value).
Definition render_decision (value : StoryGeneratorCharacterDecisionPromptView) : string :=
  join nl (
    ["- " +:+ field "role_id" (gdv_role_id value); "  " +:+ field "name" (gdv_name value);
     "  " +:+ field "decision" (gdv_decision value)]
    ++ optional_line "  " "suggested_utterance" (non_empty (gdv_suggested_utterance value))).
Definition generator_vars (g : StoryGeneratorPromptContext) : PromptVars := [
  ("story_profile", render_story_profile_view (gpc_story_profile g));
  ("instance_settings", render_instance_settings (gpc_cast_policy g));
  ("story_summary", render_story_summary (scv_story_summary (gpc_story_continuity g)));
  ("recent_story", join blank_line (scv_recent_story (gpc_story_continuity g)));
  ("player_character", render_generator_role (gpc_player_role g) None);
  ("ai_characters", join nl (map (λ role, render_generator_role role (Some "- ")) (gpc_ai_roles g)));
  ("active_story_constraints", join nl (map render_generator_constraint (gpc_active_story_constraints g)));
  ("story_goal", gpc_story_goal g);
  ("narrative_direction", render_narrative_direction (gpc_narrative_direction g));
  ("relevant_knowledge", render_relevant_knowledge (gpc_relevant_knowledge g));
  ("character_decisions", join nl (map render_decision (gpc_character_decisions g)));
  ("player_contribution", gpc_player_contribution g)
].

(** *** Leaving examples out *)

Definition drop_example (role : StoryGeneratorRolePromptView) : StoryGeneratorRolePromptView :=
  with_examples (removelast (grv_dialogue_examples role)) role.
(** The first role of an identifier: the player, then the others. *)
Fixpoint on_first_role (role_id : RoleId) (f : StoryGeneratorRolePromptView → StoryGeneratorRolePromptView)
    (roles : list StoryGeneratorRolePromptView) : list StoryGeneratorRolePromptView :=
  match roles with
  | [] => []
  | role :: roles =>
      if bool_decide (grv_role_id role = role_id) then f role :: roles else role :: on_first_role role_id f roles
  end.
Definition examples_of (role_id : RoleId) (g : StoryGeneratorPromptContext) : list DialogueExample :=
  if bool_decide (grv_role_id (gpc_player_role g) = role_id) then grv_dialogue_examples (gpc_player_role g)
  else match List.find (λ role, bool_decide (grv_role_id role = role_id)) (gpc_ai_roles g) with
       | Some role => grv_dialogue_examples role
       | None => []
       end.
Definition drop_example_of (role_id : RoleId) (g : StoryGeneratorPromptContext) : StoryGeneratorPromptContext :=
  if bool_decide (grv_role_id (gpc_player_role g) = role_id)
  then with_roles (drop_example (gpc_player_role g)) (gpc_ai_roles g) g
  else with_roles (gpc_player_role g) (on_first_role role_id drop_example (gpc_ai_roles g)) g.

Section prune.
Context (max_tokens extra_tokens : N).
Definition over_budget (g : StoryGeneratorPromptContext) : bool :=
  (max_tokens <? sat_add U64_MAX (vars_tokens (generator_vars g)) extra_tokens)%N.
(** The [while] loop for one role, which ends when it has no example left. *)
Fixpoint prune_role (examples : nat) (role_id : RoleId) (g : StoryGeneratorPromptContext) : StoryGeneratorPromptContext :=
  match examples with
  | O => g
  | S examples => if over_budget g then prune_role examples role_id (drop_example_of role_id g) else g
  end.
Definition prune_next (g : StoryGeneratorPromptContext) (role_id : RoleId) : StoryGeneratorPromptContext :=
  prune_role (length (examples_of role_id g)) role_id g.
(** The roles in descending order of their identifiers. *)
Definition prune_order (g : StoryGeneratorPromptContext) : list RoleId :=
  sort_by (λ left right, key_compare right left)
    (grv_role_id (gpc_player_role g) :: map grv_role_id (gpc_ai_roles g)).
Definition prune_dialogue_examples_to_budget (g : StoryGeneratorPromptContext) :
    result StoryGeneratorProjectionError (StoryGeneratorPromptContext * PromptVars) :=
  let g := foldl prune_next g (prune_order g) in
  fail_if over_budget g with Gen_RequiredPromptDataExceedsBudget in
  Ok (g, generator_vars g).
End prune.

Record StoryGeneratorPromptProjection := {
  gpp_context : StoryGeneratorPromptContext; gpp_rc_vars : PromptVars; gpp_fti_vars : PromptVars;
}.
(** The context before anything is left out. *)
Definition generator_context (config : ContextPreparationConfig) c :
    result StoryGeneratorProjectionError StoryGeneratorPromptContext :=
  let? baseline := ok_or (tc_baseline c) Gen_MissingBaseline in
  let? plan := ok_or (tc_plan c) Gen_MissingWriterPlan in
  let? contribution := map_err (λ _, Gen_InvalidPlayerContribution)
    (BoundedText_try_new (player_contribution (tc_request c)) "player_contribution" MAX_PLAYER_CONTRIBUTION_CHARS) in
  let player := base_player_role baseline in
  let? player_role := project_role player config (retrieved_character c (rcv_role_id player)) in
  let? ai_roles := project_ai_roles c baseline config in
  let? character_decisions := project_decisions c baseline ai_roles in
  let continuity := base_story_continuity baseline in
  let? relevant_knowledge := map_err (λ _, Gen_Invariant "relevant_knowledge_merge_conflict")
    (merge_world_knowledge (relevant_world_knowledge baseline) (ret_world (tc_retrieved c))) in
  Ok {| gpc_story_profile := StoryProfilePromptView_new (base_story_title baseline) (base_story_profile baseline);
        gpc_cast_policy := cast_policy (base_instance_settings baseline);
        gpc_story_continuity := {| scv_story_summary := sum_text (con_summary continuity);
                                   scv_recent_story := map seg_text (recent_segments continuity) |};
        gpc_player_role := player_role;
        gpc_ai_roles := ai_roles;
        gpc_relevant_knowledge := relevant_knowledge;
        gpc_story_goal := goal_summary (story_goal plan);
        gpc_narrative_direction := from_option (λ p, project_narrative_direction (proj_plan p))
          {| ndv_active_directions := []; ndv_world_event_intents := [] |} (tc_narrative_projection c);
        gpc_active_story_constraints := project_constraints baseline;
        gpc_character_decisions := character_decisions;
        gpc_player_contribution := contribution |}.
Definition project_generator (config : ContextPreparationConfig) c :
    result StoryGeneratorProjectionError StoryGeneratorPromptProjection :=
  let? context := generator_context config c in
  let? '(context, rc_vars) := prune_dialogue_examples_to_budget
    (AiseBudget.max_context_tokens (budget_limits (tc_budget c))) 0 context in
  Ok {| gpp_context := context; gpp_rc_vars := rc_vars; gpp_fti_vars := [] |}.

(** ** Validation issues, for the repairer and the extractor *)

Record ValidationLocationPromptView := { vlv_path : BoundedText; vlv_item_index : option N }.
Record ValidationIssuePromptView := {
  viv_code : ValidationIssueCode;
  viv_location : option ValidationLocationPromptView;
  viv_message : BoundedText;
}.
(** The error is the code of the invariant both stages report. *)
Definition issue_view (max_issue_bytes max_item_bytes_ : N) (issue : ValidationIssue) :
    result string ValidationIssuePromptView :=
  let? message := map_err (λ _, "validation_issue_message_invalid")
    (BoundedText_try_new (iss_message issue) "validation_message" max_issue_bytes) in
  let? location := match iss_location issue with
    | None => Ok None
    | Some location =>
        let? path := map_err (λ _, "validation_issue_location_invalid")
          (BoundedText_try_new (loc_path location) "validation_location" max_item_bytes_) in
        Ok (Some {| vlv_path := path; vlv_item_index := loc_item_index location |})
    end in
  Ok {| viv_code := iss_code issue; viv_location := location; viv_message := message |}.
Definition issue_views c (issues : list ValidationIssue) : result string (list ValidationIssuePromptView) :=
  let limits := budget_limits (tc_budget c) in
  traverse (issue_view (max_validation_issue_bytes limits) (lim_max_item_bytes limits)) issues.
Definition render_validation_issue (e : nat * ValidationIssuePromptView) : string :=
  let '(index, value) := e in
  join nl (
    [pretty (N.of_nat index + 1)%N +:+ ". Code: " +:+ issue_code_as_str (viv_code value)]
    ++ match viv_location value with
       | None => []
       | Some location =>
           ["   Location: " +:+ quoted (vlv_path location)
            +:+ match vlv_item_index location with
                | Some item_index => nl +:+ "   Item Index: " +:+ pretty item_index
                | None => ""
                end]
       end
    ++ ["   Message: " +:+ quoted (viv_message value)]).
Definition render_validation_issues (values : list ValidationIssuePromptView) : string :=
  join blank_line (map render_validation_issue (enumerate values)).

(** ** The repairer *)

Inductive StoryRepairerProjectionError :=
| Rep_MissingValidation | Rep_ValidationDoesNotRequireRepair | Rep_MissingPreviousStory | Rep_EmptyValidationIssues
| Rep_PreviousStoryExceedsBounds
| Rep_Invariant (code : string)
| Rep_GenerationContext (e : StoryGeneratorProjectionError).
Definition repairer_error_display (e : StoryRepairerProjectionError) : string :=
  match e with
  | Rep_MissingValidation => "story repairer validation result is missing"
  | Rep_ValidationDoesNotRequireRepair => "story repairer requires ValidationDecision::RepairStory"
  | Rep_MissingPreviousStory => "story repairer previous story is missing"
  | Rep_EmptyValidationIssues => "story repairer validation issues are empty"
  | Rep_PreviousStoryExceedsBounds => "story repairer previous story exceeds configured bounds"
  | Rep_Invariant code => "story repairer prompt invariant violated: " +:+ code
  | Rep_GenerationContext e => generator_error_display e
  end.
Record StoryRepairerPromptProjection := {
  rpp_generation : StoryGeneratorPromptContext;
  rpp_validation_issues : list ValidationIssuePromptView;
  rpp_rc_vars : PromptVars;
  rpp_fti_vars : PromptVars;
}.
Definition project_repairer (config : ContextPreparationConfig) c :
    result StoryRepairerProjectionError StoryRepairerPromptProjection :=
  let limits := budget_limits (tc_budget c) in
  let? validation := ok_or (tc_validation c) Rep_MissingValidation in
  fail_if negb (bool_decide (result_decision validation = Decision_RepairStory)) with Rep_ValidationDoesNotRequireRepair in
  fail_if bool_decide (length (result_issues validation) = 0) with Rep_EmptyValidationIssues in
  let? previous_story := ok_or (tc_story c) Rep_MissingPreviousStory in
  fail_if (max_story_text_bytes limits <? slen (story_text previous_story))%N with Rep_PreviousStoryExceedsBounds in
  let? validation_issues := map_err Rep_Invariant (issue_views c (result_issues validation)) in
  let? generation := map_err Rep_GenerationContext (project_generator config c) in
  let rendered := render_validation_issues validation_issues in
  let extra_tokens := sat_add U64_MAX (estimate_text_tokens (story_text previous_story)) (estimate_text_tokens rendered) in
  let? '(context, vars) := map_err Rep_GenerationContext (prune_dialogue_examples_to_budget
    (AiseBudget.max_context_tokens limits) extra_tokens (gpp_context generation)) in
  Ok {| rpp_generation := context;
        rpp_validation_issues := validation_issues;
        rpp_rc_vars := vars ++ [("previous_story_text", story_text previous_story); ("validation_issues", rendered)];
        rpp_fti_vars := gpp_fti_vars generation |}.

(** ** The characters *)

Record CharacterThinkRolePromptView := {
  trv_role_id : RoleId;
  trv_name : BoundedText;
  trv_role_label : BoundedText;
  trv_appearance : option BoundedText;
  trv_personality : option BoundedText;
  trv_speaking_style : option BoundedText;
  trv_dialogue_examples : list DialogueExample;
  trv_knowledge : RoleKnowledgePromptView;
}.
Record CharacterThinkStatePromptView := {
  tsv_location : LocationKey;
  tsv_goals : list BoundedText;
  tsv_attributes : list (BoundedText * ScalarValue);
}.
Record CharacterThinkImpulsePromptView := {
  tiv_goal : BoundedText; tiv_emotion : option BoundedText; tiv_urgency : ImpulseUrgency; tiv_reason : option BoundedText;
}.
Record CharacterThinkPromptContext := {
  tpc_target_role : CharacterThinkRolePromptView;
  tpc_current_role_state : CharacterThinkStatePromptView;
  tpc_story_continuity : StoryContinuityPromptView;
  tpc_impulses : list CharacterThinkImpulsePromptView;
  tpc_thinking_focus : BoundedText;
  tpc_player_contribution : BoundedText;
}.
Inductive CharacterThinkProjectionError :=
| Think_MissingStageState
| Think_UnknownRole (role_id : RoleId)
| Think_PlayerControlledRole (role_id : RoleId)
| Think_RequiredPromptDataExceedsBudget
| Think_InvalidPromptField.
Definition think_error_code (e : CharacterThinkProjectionError) : string :=
  match e with
  | Think_MissingStageState => "missing_stage_state"
  | Think_UnknownRole _ => "unknown_role"
  | Think_PlayerControlledRole _ => "player_controlled_role"
  | Think_RequiredPromptDataExceedsBudget => "required_prompt_data_exceeds_budget"
  | Think_InvalidPromptField => "invalid_prompt_field"
  end.
Definition think_error_display (e : CharacterThinkProjectionError) : string :=
  match e with
  | Think_MissingStageState => "character think stage state is missing"
  | Think_UnknownRole role_id => "character think role is unknown: " +:+ role_id
  | Think_PlayerControlledRole role_id => "character think role is player-controlled: " +:+ role_id
  | Think_RequiredPromptDataExceedsBudget => "character think required prompt data exceeds budget"
  | Think_InvalidPromptField => "character think prompt field is invalid"
  end.

Definition render_target_role (value : CharacterThinkRolePromptView) : string :=
  join nl (
    [field "role_id" (trv_role_id value); field "name" (trv_name value)]
    ++ (if bool_decide (trv_role_label value = trv_name value) then [] else [field "role" (trv_role_label value)])
    ++ optional_line "" "appearance" (trv_appearance value)
    ++ optional_line "" "personality" (trv_personality value)
    ++ optional_line "" "speaking_style" (trv_speaking_style value)
    ++ match trv_dialogue_examples value with
       | [] => []
       | examples => ["dialogue_examples:" +:+ nl +:+ join nl (map (render_example "") examples)]
       end
    ++ (if knows_nothing (trv_knowledge value) then [] else [render_role_knowledge (trv_knowledge value)])).
Definition render_role_state (value : CharacterThinkStatePromptView) : string :=
  join nl (
    [field "location" (tsv_location value)]
    ++ match tsv_goals value with [] => [] | goals => ["goals: " +:+ quoted_list goals] end
    ++ match tsv_attributes value with
       | [] => []
       | attributes =>
           ["attributes:" +:+ nl +:+ join nl (map (λ '(name, value),
              "- " +:+ field "name" name +:+ nl +:+ "  value: " +:+ scalar value) attributes)]
       end).
Definition urgency_text (u : ImpulseUrgency) : string :=
  match u with Urgency_Low => "low" | Urgency_Medium => "medium" | Urgency_High => "high" end.
Definition render_impulse (value : CharacterThinkImpulsePromptView) : string :=
  join nl (
    ["- " +:+ field "goal" (tiv_goal value)]
    ++ optional_line "  " "emotion" (non_empty (tiv_emotion value))
    ++ ["  urgency: " +:+ urgency_text (tiv_urgency value)]
    ++ optional_line "  " "reason" (non_empty (tiv_reason value))).
Definition think_vars (t : CharacterThinkPromptContext) : PromptVars := [
  ("target_character", render_target_role (tpc_target_role t));
  ("current_character_state", render_role_state (tpc_current_role_state t));
  ("story_summary", render_story_summary (scv_story_summary (tpc_story_continuity t)));
  ("recent_story", join blank_line (scv_recent_story (tpc_story_continuity t)));
  ("narrative_character_impulses", join nl (map render_impulse (tpc_impulses t)));
  ("thinking_focus", tpc_thinking_focus t);
  ("player_contribution", tpc_player_contribution t)
].
Definition with_think_examples (examples : list DialogueExample) (t : CharacterThinkPromptContext) :
    CharacterThinkPromptContext :=
  let r := tpc_target_role t in {|
  tpc_target_role := {|
    trv_role_id := trv_role_id r; trv_name := trv_name r; trv_role_label := trv_role_label r;
    trv_appearance := trv_appearance r; trv_personality := trv_personality r;
    trv_speaking_style := trv_speaking_style r; trv_dialogue_examples := examples;
    trv_knowledge := trv_knowledge r |};
  tpc_current_role_state := tpc_current_role_state t; tpc_story_continuity := tpc_story_continuity t;
  tpc_impulses := tpc_impulses t; tpc_thinking_focus := tpc_thinking_focus t;
  tpc_player_contribution := tpc_player_contribution t |}.
Definition drop_think_example (t : CharacterThinkPromptContext) : CharacterThinkPromptContext :=
  with_think_examples (removelast (trv_dialogue_examples (tpc_target_role t))) t.
Definition think_over_budget (max_tokens : N) (t : CharacterThinkPromptContext) : bool :=
  (max_tokens <? vars_tokens (think_vars t))%N.
(** The [while] loop, which ends when no example is left. *)
Fixpoint prune_think (max_tokens : N) (examples : nat) (t : CharacterThinkPromptContext) : CharacterThinkPromptContext :=
  match examples with
  | O => t
  | S examples => if think_over_budget max_tokens t then prune_think max_tokens examples (drop_think_example t) else t
  end.

Record CharacterThinkPromptProjection := {
  tpp_context : CharacterThinkPromptContext; tpp_rc_vars : PromptVars; tpp_fti_vars : PromptVars;
}.
Definition impulse_view (i : CharacterImpulse) : CharacterThinkImpulsePromptView :=
  {| tiv_goal := imp_goal i; tiv_emotion := imp_emotion i; tiv_urgency := imp_urgency i; tiv_reason := imp_reason i |}.
(** [max_input_tokens.saturating_mul(4)] *)
Definition think_max_bytes (config : CharacterThinkConfig) : N := clamp U64_MAX (think_max_input_tokens config * 4).
Definition think_context (config : CharacterThinkConfig) (context_config : ContextPreparationConfig) c
    (request : CharacterThinkRequest) : result CharacterThinkProjectionError CharacterThinkPromptContext :=
  let? baseline := ok_or (tc_baseline c) Think_MissingStageState in
  let? snapshot := ok_or (tc_snapshot c) Think_MissingStageState in
  let? _ := ok_or (tc_plan c) Think_MissingStageState in
  fail_if is_blank (ctr_reason request) || (think_max_thinking_focus_bytes config <? slen (ctr_reason request))%N
  with Think_InvalidPromptField in
  let? role := ok_or (snapshot_role snapshot (ctr_role_id request)) (Think_UnknownRole (ctr_role_id request)) in
  fail_if view_is_player_controlled role with Think_PlayerControlledRole (ctr_role_id request) in
  let? contribution := map_err (λ _, Think_InvalidPromptField)
    (BoundedText_try_new (player_contribution (tc_request c)) "player_contribution" (think_max_bytes config)) in
  let profile := view_effective_profile role in
  let state := view_state role in
  let? attributes := traverse (λ '(name, value),
    let? name := map_err (λ _, Think_InvalidPromptField)
      (BoundedText_try_new name "attribute_name" (think_max_bytes config)) in
    Ok (name, value)) (entries (state_attributes state)) in
  let continuity := base_story_continuity baseline in
  let impulses := from_option (λ p, character_impulses (proj_plan p)) [] (tc_narrative_projection c) in
  Ok {| tpc_target_role := {|
          trv_role_id := view_role_id role;
          trv_name := profile_name profile;
          trv_role_label := view_role_label role;
          trv_appearance := profile_appearance profile;
          trv_personality := profile_personality profile;
          trv_speaking_style := profile_speaking_style profile;
          trv_dialogue_examples := select_dialogue_examples (dialogue_examples profile) context_config;
          trv_knowledge := knowledge_view (retrieved_character c (ctr_role_id request)) |};
        tpc_current_role_state := {| tsv_location := state_location state; tsv_goals := state_goals state;
                                     tsv_attributes := attributes |};
        tpc_story_continuity := {| scv_story_summary := sum_text (con_summary continuity);
                                   scv_recent_story := map seg_text (recent_segments continuity) |};
        tpc_impulses := map impulse_view
          (List.filter (λ i, bool_decide (imp_target_role_id i = ctr_role_id request)) impulses);
        tpc_thinking_focus := ctr_reason request;
        tpc_player_contribution := contribution |}.
Definition project_think (config : CharacterThinkConfig) (context_config : ContextPreparationConfig) c
    (request : CharacterThinkRequest) : result CharacterThinkProjectionError CharacterThinkPromptProjection :=
  let? context := think_context config context_config c request in
  let context := prune_think (think_max_input_tokens config)
    (length (trv_dialogue_examples (tpc_target_role context))) context in
  fail_if think_over_budget (think_max_input_tokens config) context with Think_RequiredPromptDataExceedsBudget in
  Ok {| tpp_context := context; tpp_rc_vars := think_vars context; tpp_fti_vars := [] |}.

(** ** The extractor *)

Record StoryStateExtractorRolePromptView := {
  erv_role_id : RoleId;
  erv_name : BoundedText;
  erv_role_label : BoundedText;
  erv_location : LocationKey;
  erv_goals : list BoundedText;
  erv_attributes : gmap AttributeKey ScalarValue;
  erv_memories : list (MemoryId * BoundedText);
}.
Record StoryStateExtractorRelationshipPromptView := {
  elv_source_role_id : RoleId; elv_target_role_id : RoleId; elv_kind : BoundedText; elv_trust : Z;
}.
Record ModifiableWorldKnowledgePromptView := {
  mkv_facts : list (KnowledgeSourceId * BoundedText); mkv_rumors : list (KnowledgeSourceId * BoundedText);
}.
Record StoryStateExtractorPromptContext := {
  epc_story_text : BoundedText;
  epc_roles : list StoryStateExtractorRolePromptView;
  epc_relationships : list StoryStateExtractorRelationshipPromptView;
  epc_modifiable_knowledge : ModifiableWorldKnowledgePromptView;
  epc_condition_queries : list NarrativeConditionQuery;
  epc_previous_extraction : option BoundedText;
  epc_validation_issues : list ValidationIssuePromptView;
  epc_cast_policy : CastPolicy;
  epc_available_locations : list LocationKey;
  epc_new_role_candidates : list RoleId;
}.
Inductive StoryStateExtractorProjectionError :=
| Ext_MissingStory | Ext_MissingSnapshot | Ext_ValidationDoesNotRequireReextraction | Ext_EmptyValidationIssues
| Ext_Invariant (code : string)
| Ext_RequiredPromptDataExceedsBudget.
Definition extractor_error_display (e : StoryStateExtractorProjectionError) : string :=
  match e with
  | Ext_MissingStory => "story state extractor candidate story is missing"
  | Ext_MissingSnapshot => "story state extractor snapshot is missing"
  | Ext_ValidationDoesNotRequireReextraction =>
      "story state extractor re-extraction requires ValidationDecision::ReextractState"
  | Ext_EmptyValidationIssues =>
      "story state extractor validation issues are empty for a re-extraction attempt"
  | Ext_Invariant code => "story state extractor prompt invariant violated: " +:+ code
  | Ext_RequiredPromptDataExceedsBudget => "story state extractor required prompt data exceeds budget"
  end.

(** *** Its data *)

Definition role_memories c (role_id : RoleId) : result StoryStateExtractorProjectionError (list (MemoryId * BoundedText)) :=
  match retrieved_character c role_id with
  | None => Ok []
  | Some character =>
      traverse (λ item, match rki_source_id item with
        | Sid_Memory memory_id => Ok (memory_id, rki_content item)
        | _ => Err (Ext_Invariant "modifiable_knowledge_owner_invalid")
        end) (ret_memories character)
  end.
Definition extractor_role c (role : StoryRoleView) : result StoryStateExtractorProjectionError StoryStateExtractorRolePromptView :=
  let? memories := role_memories c (view_role_id role) in
  Ok {| erv_role_id := view_role_id role;
        erv_name := profile_name (view_effective_profile role);
        erv_role_label := view_role_label role;
        erv_location := state_location (view_state role);
        erv_goals := state_goals (view_state role);
        erv_attributes := state_attributes (view_state role);
        erv_memories := memories |}.
Definition extractor_relationship c (r : RelationshipState) :
    result StoryStateExtractorProjectionError StoryStateExtractorRelationshipPromptView :=
  let? kind := map_err (λ _, Ext_Invariant "invalid_key_text")
    (BoundedText_try_new (rel_kind r) "relationship_kind" (lim_max_item_bytes (budget_limits (tc_budget c)))) in
  Ok {| elv_source_role_id := rel_source_role_id r; elv_target_role_id := rel_target_role_id r; elv_kind := kind;
        elv_trust := rel_trust r |}.

(** [insert_modifiable]: the place of an entry is where it was first seen, its content
    the last one seen. *)
Definition Modifiable : Type := gmap KnowledgeSourceId BoundedText * list KnowledgeSourceId.
Definition insert_modifiable (acc : Modifiable) (e : KnowledgeSourceId * BoundedText) : Modifiable :=
  let '(contents, order) := acc in
  let '(id, content) := e in
  (<[id := content]> contents, if bool_decide (is_Some (contents !! id)) then order else order ++ [id]).
Definition modifiable_items (l : list (KnowledgeSourceId * BoundedText)) : list (KnowledgeSourceId * BoundedText) :=
  let '(contents, order) := foldl insert_modifiable (∅, []) l in
  omap (λ id, (λ content, (id, content)) <$> contents !! id) order.
Definition modifiable_knowledge_view c : ModifiableWorldKnowledgePromptView :=
  let baseline f := from_option (λ b, map relevant_entry (f (relevant_world_knowledge b))) [] (tc_baseline c) in
  let world := ret_world (tc_retrieved c) in
  let known := concat (map known_rumors (values (ret_characters (tc_retrieved c)))) in {|
  mkv_facts := modifiable_items (baseline rwk_facts ++ map retrieved_entry (ret_facts world));
  mkv_rumors := modifiable_items (baseline rwk_rumors ++ map retrieved_entry (ret_rumors world ++ known));
|}.

Definition effect_locations (e : NarrativeEffectDefinition) : list LocationKey :=
  match e with
  | Effect_CharacterImpulse _ => []
  | Effect_WorldEvent intent =>
      from_option (λ location, [location]) [] (wed_location intent)
      ++ omap (λ p, match p with Participant_Location location => Some location | Participant_Role _ => None end)
           (wed_participants intent)
  end.
Definition node_locations (node : NarrativeNodeDefinition) : list LocationKey :=
  concat (map effect_locations (on_activate (effects node) ++ on_complete (effects node))).
Definition available_location_keys (snapshot : StoryReadSnapshot) : list LocationKey :=
  set_entries (list_to_set (map (λ role, state_location (view_state role)) (values (snap_roles snapshot))
    ++ concat (map node_locations (values (nodes (snap_narrative_definition snapshot))))) : gset LocationKey).

(** What an extraction made again is told of the one before. *)
Definition reextraction_view `{ExtractionPretty} c :
    result StoryStateExtractorProjectionError (option BoundedText * list ValidationIssuePromptView) :=
  if bool_decide (tc_phase c = Phase_StateReextractionRequired) then
    let? validation := ok_or (tc_validation c) (Ext_Invariant "missing_validation_for_reextraction") in
    fail_if negb (bool_decide (result_decision validation = Decision_ReextractState))
    with Ext_ValidationDoesNotRequireReextraction in
    fail_if bool_decide (length (result_issues validation) = 0) with Ext_EmptyValidationIssues in
    let? issues := map_err Ext_Invariant (issue_views c (result_issues validation)) in
    let? previous := match tc_extraction c with
      | None => Ok None
      | Some extraction =>
          let rendered := from_option id "" (extraction_pretty (env_state (bse_envelope extraction))) in
          let? previous := map_err (λ _, Ext_Invariant "previous_extraction_serialization_failed")
            (BoundedText_try_new rendered "previous_extraction" (max_state_extraction_bytes (budget_limits (tc_budget c)))) in
          Ok (Some previous)
      end in
    Ok (previous, issues)
  else Ok (None, []).

(** *** Its text *)

Definition render_memory (m : MemoryId * BoundedText) : string :=
  "    - " +:+ field "id" m.1 +:+ nl +:+ "      " +:+ field "content" m.2.
Definition render_extractor_role (value : StoryStateExtractorRolePromptView) : string :=
  join nl (
    ["- " +:+ field "role_id" (erv_role_id value); "  " +:+ field "name" (erv_name value)]
    ++ (if bool_decide (erv_role_label value = erv_name value) then [] else ["  " +:+ field "role" (erv_role_label value)])
    ++ ["  " +:+ field "location" (erv_location value)]
    ++ match erv_goals value with [] => [] | goals => ["  goals: " +:+ quoted_list goals] end
    ++ (if bool_decide (erv_attributes value = ∅) then [] else ["  attributes: " +:+ render_attributes (erv_attributes value)])
    ++ match erv_memories value with
       | [] => []
       | memories => ["  memories:" +:+ nl +:+ join nl (map render_memory memories)]
       end).
Definition render_relationship (value : StoryStateExtractorRelationshipPromptView) : string :=
  "- " +:+ field "source_role_id" (elv_source_role_id value) +:+ nl
  +:+ "  " +:+ field "target_role_id" (elv_target_role_id value) +:+ nl
  +:+ "  " +:+ field "kind" (elv_kind value) +:+ nl +:+ "  trust: " +:+ pretty (elv_trust value).
Definition render_modifiable (item : KnowledgeSourceId * BoundedText) : string :=
  "- " +:+ field "id" (sid_as_str item.1) +:+ nl +:+ "  " +:+ field "content" item.2.
Definition render_query (q : NarrativeConditionQuery) : string :=
  "- " +:+ field "condition_key" (q_condition_key q) +:+ nl +:+ "  " +:+ field "criterion" (q_criterion q).
Definition extractor_vars (e : StoryStateExtractorPromptContext) : PromptVars := [
  ("story_text", epc_story_text e);
  ("roles", join nl (map render_extractor_role (epc_roles e)));
  ("relationships", join nl (map render_relationship (epc_relationships e)));
  ("modifiable_knowledge", join blank_line (
     titled "Facts" render_modifiable (mkv_facts (epc_modifiable_knowledge e))
     ++ titled "Rumors" render_modifiable (mkv_rumors (epc_modifiable_knowledge e))));
  ("condition_queries", join nl (map render_query (epc_condition_queries e)));
  ("previous_extraction", from_option id "" (epc_previous_extraction e));
  ("validation_issues", render_validation_issues (epc_validation_issues e));
  ("cast_policy", match epc_cast_policy e with
                  | Cast_Open => "open" | Cast_IncidentalOnly => "incidental_only" | Cast_Closed => "closed" end);
  ("available_locations", quoted_list (epc_available_locations e));
  ("new_role_candidates", quoted_list (epc_new_role_candidates e))
].

Record StoryStateExtractorPromptProjection := {
  epp_context : StoryStateExtractorPromptContext; epp_rc_vars : PromptVars; epp_fti_vars : PromptVars;
}.
Definition project_extractor `{ExtractionPretty} c :
    result StoryStateExtractorProjectionError StoryStateExtractorPromptProjection :=
  let limits := budget_limits (tc_budget c) in
  let? story := ok_or (tc_story c) Ext_MissingStory in
  let? snapshot := ok_or (tc_snapshot c) Ext_MissingSnapshot in
  let? roles := traverse (extractor_role c) (values (snap_roles snapshot)) in
  fail_if bool_decide (length roles = 0) with Ext_Invariant "roles_empty" in
  let? relationships := traverse (extractor_relationship c) (snap_relationships snapshot) in
  let? '(previous_extraction, validation_issues) := reextraction_view c in
  let cast_policy := cast_policy (snap_instance_settings snapshot) in
  let context := {|
    epc_story_text := story_text story;
    epc_roles := roles;
    epc_relationships := relationships;
    epc_modifiable_knowledge := modifiable_knowledge_view c;
    epc_condition_queries := from_option condition_queries [] (tc_narrative_projection c);
    epc_previous_extraction := previous_extraction;
    epc_validation_issues := validation_issues;
    epc_cast_policy := cast_policy;
    epc_available_locations := available_location_keys snapshot;
    epc_new_role_candidates :=
      if bool_decide (cast_policy = Cast_Open) then
        match allocate_dynamic_role_candidates (snap_role_id_high_water snapshot)
                (N.to_nat (max_new_roles (lim_state_extraction limits))) with
        | Ok pool => pool_candidates pool
        | Err _ => []
        end
      else [] |} in
  let rc_vars := extractor_vars context in
  fail_if (state_extractor_max_context_tokens limits <? vars_tokens rc_vars)%N with Ext_RequiredPromptDataExceedsBudget in
  Ok {| epp_context := context; epp_rc_vars := rc_vars; epp_fti_vars := [] |}.
End prompts.

(** ** What the generator's prompt leaves out *)

Section generator_budget.
Context `{RegexEngine} `{TurnJson} `{JsonText}.
Implicit Types (g : StoryGeneratorPromptContext) (r : StoryGeneratorRolePromptView) (role_id : RoleId).

(** The same role with fewer examples, from the end. *)
Definition shortened r r' : Prop :=
  ∃ examples, r' = with_examples examples r ∧ examples `prefix_of` grv_dialogue_examples r.
Record trimmed g g' : Prop := {
  tr_player : shortened (gpc_player_role g) (gpc_player_role g');
  tr_roles : Forall2 shortened (gpc_ai_roles g) (gpc_ai_roles g');
  tr_rest : g' = with_roles (gpc_player_role g') (gpc_ai_roles g') g;
}.
#[global] Instance shortened_preorder : PreOrder shortened.
Proof.
  split.
  - intros r. exists (grv_dialogue_examples r). split; [by destruct r|done].
  - intros r1 r2 r3 (l2 & -> & H2) (l3 & -> & H3). exists l3. split; [done|]. by etrans.
Qed.
#[global] Instance trimmed_preorder : PreOrder trimmed.
Proof.
  split.
  - intros g. split; [done| |by destruct g]. induction (gpc_ai_roles g); by constructor.
  - intros g1 g2 g3 [P12 R12 E12] [P23 R23 E23]. split; [by etrans| |by rewrite E23, E12].
    clear -R12 R23. revert R23. generalize (gpc_ai_roles g3) as l3. induction R12 as [|r1 r2 l1 l2 Hr _ IH]; intros l3 R23.
    + by apply Forall2_nil_inv_l in R23 as ->.
    + apply Forall2_cons_inv_l in R23 as (r3 & l3' & Hr3 & R23 & ->). constructor; [by etrans|by apply IH].
Qed.
Lemma drop_shortens r : shortened r (drop_example r).
Proof.
  exists (removelast (grv_dialogue_examples r)). split; [done|]. induction (grv_dialogue_examples r) as [|e [|e' l] IH]; cbn.
  - done.
  - by exists [e].
  - by apply prefix_cons.
Qed.
Lemma drop_trims role_id g : trimmed g (drop_example_of role_id g).
Proof.
  unfold drop_example_of. case_bool_decide; split; cbn; try done.
  - apply drop_shortens.
  - induction (gpc_ai_roles g) as [|r l IH]; cbn; [constructor|]. case_bool_decide; constructor; try done. apply drop_shortens.
Qed.
Lemma shortened_id r r' : shortened r r' → grv_role_id r' = grv_role_id r.
Proof. by intros (l & -> & _). Qed.
Lemma trimmed_examples role_id g g' : trimmed g g' → examples_of role_id g' `prefix_of` examples_of role_id g.
Proof.
  intros [Hp Hr _]. unfold examples_of. rewrite (shortened_id _ _ Hp). case_bool_decide.
  - by destruct Hp as (l & -> & Hl).
  - clear Hp. induction Hr as [|r r' l l' Hs _ IH]; cbn; [done|]. rewrite (shortened_id _ _ Hs). case_bool_decide; [|done].
    by destruct Hs as (examples & -> & He).
Qed.
Lemma drop_examples role_id g : examples_of role_id (drop_example_of role_id g) = removelast (examples_of role_id g).
Proof.
  unfold examples_of, drop_example_of.
  destruct (bool_decide (grv_role_id (gpc_player_role g) = role_id)) eqn:Hid; cbn; rewrite Hid; [done|].
  induction (gpc_ai_roles g) as [|r l IH]; cbn; [done|].
  destruct (bool_decide (grv_role_id r = role_id)) eqn:Hr; cbn; rewrite Hr; [done|exact IH].
Qed.

Context (max_tokens extra_tokens : N).
Notation over := (over_budget max_tokens extra_tokens).
Lemma prune_role_spec n role_id g :
  length (examples_of role_id g) ≤ n →
  trimmed g (prune_role max_tokens extra_tokens n role_id g)
  ∧ (over g = false → prune_role max_tokens extra_tokens n role_id g = g)
  ∧ (over (prune_role max_tokens extra_tokens n role_id g) = true →
     examples_of role_id (prune_role max_tokens extra_tokens n role_id g) = []).
Proof.
  revert g. induction n as [|n IH]; intros g Hn; cbn [prune_role].
  - split_and!; [done|done|]. intros _. apply nil_length_inv. lia.
  - destruct (over g) eqn:Ho; [|split_and!; [done|done|congruence]].
    destruct (IH (drop_example_of role_id g)) as (Ht & _ & Hlast).
    { rewrite drop_examples. destruct (examples_of role_id g) as [|e l] using rev_ind; cbn; [lia|].
      rewrite removelast_last. rewrite length_app in Hn. cbn in Hn. lia. }
    split_and!; [|done|exact Hlast]. etrans; [apply (drop_trims role_id)|exact Ht].
Qed.
Lemma prune_all_spec ids g :
  let g' := foldl (prune_next max_tokens extra_tokens) g ids in
  trimmed g g' ∧ (over g = false → g' = g) ∧ (over g' = true → ∀ role_id, role_id ∈ ids → examples_of role_id g' = []).
Proof.
  induction ids as [|id ids IH] using rev_ind; cbn; [split_and!; [done|done|]; by intros _ id ?%not_elem_of_nil|].
  rewrite foldl_app. cbn [foldl]. destruct IH as (Ht & Hsame & Hempty). set (g1 := foldl _ g ids) in *.
  destruct (prune_role_spec (length (examples_of id g1)) id g1 (le_n _)) as (Ht' & Hsame' & Hempty').
  fold (prune_next max_tokens extra_tokens g1 id) in *. split_and!.
  - by etrans.
  - intros Ho. rewrite Hsame'; [by apply Hsame|]. by rewrite Hsame.
  - intros Ho role_id [Hin| ->%list_elem_of_singleton]%elem_of_app; [|by apply Hempty'].
    destruct (over g1) eqn:Ho1; [|rewrite Hsame' in Ho by done; congruence].
    pose proof (trimmed_examples role_id _ _ Ht') as Hp. rewrite Hempty in Hp by done. by apply prefix_nil_inv in Hp.
Qed.
Lemma examples_of_order role_id g : role_id ∉ prune_order g → examples_of role_id g = [].
Proof.
  unfold prune_order. rewrite elem_of_sort_by, elem_of_cons. intros Hn. unfold examples_of.
  rewrite bool_decide_false by naive_solver. destruct (List.find _ _) as [r|] eqn:Hf; [|done].
  apply List.find_some in Hf as [Hin Hr]. apply bool_decide_eq_true in Hr. exfalso. apply Hn. right.
  change (@map) with (@fmap list _). apply list_elem_of_fmap. exists r. split; [done|]. by apply list_elem_of_In.
Qed.
Lemma prune_all g role_id :
  let g' := foldl (prune_next max_tokens extra_tokens) g (prune_order g) in
  over g' = true → examples_of role_id g' = [].
Proof.
  intros g' Ho. destruct (prune_all_spec (prune_order g) g) as (Ht & _ & Hempty).
  destruct (decide (role_id ∈ prune_order g)) as [Hin|Hin]; [by apply Hempty|].
  pose proof (trimmed_examples role_id _ _ Ht) as Hp. rewrite (examples_of_order role_id g Hin) in Hp. by apply prefix_nil_inv in Hp.
Qed.
End generator_budget.

Section generator_fits.
Context `{RegexEngine} `{TurnJson} `{JsonText}.

(** C21: The prompt of the story is what the turn has prepared, within the tokens the turn
    allows: only examples of dialogue are left out, from the end of a role's list, and none
    when everything fits; and it is refused only when it does not fit without any. *)
Theorem generator_prompt_fits config c g :
  generator_context config c = Ok g →
  let max_tokens := AiseBudget.max_context_tokens (budget_limits (tc_budget c)) in
  match project_generator config c with
  | Ok p =>
      over_budget max_tokens 0 (gpp_context p) = false ∧ gpp_rc_vars p = generator_vars (gpp_context p)
      ∧ trimmed g (gpp_context p) ∧ (over_budget max_tokens 0 g = false → gpp_context p = g)
  | Err e =>
      e = Gen_RequiredPromptDataExceedsBudget
      ∧ ∃ g', trimmed g g' ∧ (∀ role_id, examples_of role_id g' = []) ∧ over_budget max_tokens 0 g' = true
  end.
Proof.
  intros Hg max_tokens. unfold project_generator, prune_dialogue_examples_to_budget. rewrite Hg. fold max_tokens.
  destruct (prune_all_spec max_tokens 0 (prune_order g) g) as (Ht & Hsame & _).
  pose proof (prune_all max_tokens 0 g) as Hempty. cbn zeta in *.
  destruct (over_budget max_tokens 0 (foldl _ g _)) eqn:Ho; cbn [gpp_context gpp_rc_vars].
  - split; [done|]. eexists. split; [exact Ht|]. split; [|exact Ho]. intros role_id. by apply Hempty.
  - done.
Qed.
End generator_fits.
