(* ===== verification/AiseStages.v ===== *)
(** * The stages of a turn

    [planning/writer_planner.rs], [character/character_think_pipeline.rs],
    [story/story_generator.rs], [story/story_repairer.rs] and
    [story/story_state_extractor.rs] of [crates/aise/src/], and every stage as the
    runtime sees it: the prompt is projected, the model is asked through the gateway,
    and what it says is checked and handed to the turn. *)

From S2P Require Import Prelude Text AiseIds AiseRule AiseNarrative AiseStory AiseTurnData AiseExtraction AiseConfig.
From S2P Require Import AiseScan AisePorts AiseActivation AiseCaches AiseCoordination AiseBudget AiseValidation.
From S2P Require Import AiseContext AiseValidators AiseValidationPipeline AiseRuntime AisePlanning AisePreparation.
From S2P Require Import AiseGateway AisePrompts.

Definition asset_code_as_str (c : AssetValidationCode) : string :=
  match c with
  | SchemaInvalid => "schema_invalid" | UnsupportedSpec => "unsupported_spec"
  | UnsupportedSpecVersion => "unsupported_spec_version" | InvalidKey => "invalid_key"
  | InvalidVersion => "invalid_version" | UnknownField => "unknown_field" | ForbiddenField => "forbidden_field"
  | AiseIds.MissingReference => "missing_reference" | DuplicateKey => "duplicate_key"
  | MissingStoryOpening => "missing_story_opening" | InvalidSalience => "invalid_salience"
  | CodeLimitExceeded => "limit_exceeded" | EmptyText => "empty_text" | GraphCycle => "graph_cycle"
  | GraphUnreachable => "graph_unreachable" | GraphReferenceInvalid => "graph_reference_invalid"
  | GraphEffectForbidden => "graph_effect_forbidden" | GraphConditionForbidden => "graph_condition_forbidden"
  | AssetReferenceUnpinned => "asset_reference_unpinned" | AssetDigestMismatch => "asset_digest_mismatch"
  | ArchivePathUnsafe => "archive_path_unsafe" | ArchiveDuplicatePath => "archive_duplicate_path"
  | ArchiveSymlinkForbidden => "archive_symlink_forbidden" | ArchiveMimeForbidden => "archive_mime_forbidden"
  | ArchiveSizeExceeded => "archive_size_exceeded" | ArchiveRatioExceeded => "archive_ratio_exceeded"
  | RetrievalHintRequired => "retrieval_hint_required" | ActivationRuleInvalid => "activation_rule_invalid"
  end.
Definition asset_error_display (e : AssetValidationError) : string :=
  match e with
  | AssetInvalid code path => "invalid asset field " +:+ path +:+ ": " +:+ asset_code_as_str code
  | AssetLimitExceeded limit actual maximum =>
      "asset limit " +:+ limit +:+ " exceeded: actual " +:+ pretty actual +:+ ", maximum " +:+ pretty maximum
  end.

(** The contracts: their schemas and their prompt texts, and the parsers of the
    answers, which serde derives. *)
Class StageContracts := {
  planner_schema : PlannerConfig → Json;
  planner_prompt_shape : PlannerConfig → string;
  planner_decode : string → option WriterPlannerOutputDto;
  decision_schema : CharacterThinkConfig → Json;
  decision_prompt_shape : CharacterThinkConfig → string;
  decision_decode : string → option (string * string);
  extraction_schema : StoryStateExtractionLimits → Json;
  extraction_prompt_shape : string;
  extraction_decode : string → option StoryStateExtractionDto;
}.

(** The caches the turns of the process share. *)
Class StageWorld `{RegexEngine} `{LlmWorld} := {
  world_caches : world → CoordinatorCaches;
  set_world_caches : CoordinatorCaches → world → world;
}.

Section stages.
Context `{Unicode, Sha256Bytes, RegexFind, Layout, KnowledgePorts, TurnJson} `{LlmWorld} `{DebugText, JsonText}.
Context `{TrustedPromptSource, ExtractionPretty, StageContracts}.
Context (gateway : LlmGateway).

(** What a stage does to the turn and the world. *)
Definition StageRun : Type := Machine → Machine * result TurnExecutionError unit.
Definition stage_fails (e : TurnExecutionError) : StageRun := λ m, (m, Err e).
(** The last operation of a stage. *)
Definition stage_ends (f : TurnExecutionContext → result TurnExecutionError TurnExecutionContext) : StageRun := λ m,
  match f (m_ctx m) with
  | Ok c => ({| m_ctx := c; m_world := m_world m |}, Ok tt)
  | Err e => (m, Err e)
  end.
(** An answer of the gateway, or its error as an error of the stage. *)
Definition answered {A} (stage : TurnStage) (r : Machine * result LlmError A) (k : A → StageRun) :
    Machine * result TurnExecutionError unit :=
  let '(m, outcome) := r in
  match outcome with Ok a => k a m | Err e => (m, Err (stage_llm_error stage e)) end.
(** [remaining_output_tokens().min(maximum) as u32] *)
Definition output_tokens_left (maximum : N) (c : TurnExecutionContext) : N :=
  N.min (N.min maximum (remaining_output_tokens (tc_budget c))) U32_MAX.

(** ** The planner *)

Definition writer_planner_contract (config : PlannerConfig) : LlmOutputContract WriterPlannerOutputDto := {|
  oc_name := "writer_planner_output.v1";
  oc_schema := planner_schema config;
  oc_compact_prompt_shape := planner_prompt_shape config;
  oc_validate dto := validate_writer_planner_output dto (planner_max_goal_bytes config) (planner_max_context_gaps config)
    (planner_max_character_think_requests config) (planner_max_reason_bytes config);
  oc_decode := planner_decode;
|}.
Definition planner_projection_error (e : WriterPlannerProjectionError) : TurnExecutionError :=
  turn_error Kind_InvariantViolation (projection_error_code e) (Some Stage_WriterPlanner) (projection_error_display e).
Definition writer_planner_execute (builder : RetrievalPlanBuilder) : StageRun := λ m,
  let c := m_ctx m in
  let fails e := stage_fails (map_planning_error e) m in
  match tc_baseline c, tc_snapshot c, tc_narrative_projection c with
  | None, _, _ => fails (Plan_InvalidOutput "missing_baseline")
  | _, None, _ => fails (Plan_InvalidOutput "missing_snapshot")
  | _, _, None => fails (Plan_InvalidOutput "missing_narrative_projection")
  | Some baseline, Some snapshot, Some narrative_projection =>
      let narrative_plan := proj_plan narrative_projection in
      match BoundedText_try_new (player_contribution (tc_request c)) "player_contribution" MAX_PLAYER_CONTRIBUTION_CHARS with
      | Err _ => fails (Plan_LimitExceeded "player_contribution")
      | Ok contribution =>
          match project_writer_prompt baseline narrative_plan contribution
                  (AiseBudget.max_context_tokens (budget_limits (tc_budget c))) with
          | Err e => stage_fails (planner_projection_error e) m
          | Ok projection =>
              answered Stage_WriterPlanner
                (complete_structured_composed gateway (writer_planner_contract (rpb_planner builder))
                   {| pci_profile := Profile_WriterPlanner; pci_rc_vars := wpp_rc_vars projection;
                      pci_fti_vars := wpp_fti_vars projection |}
                   (output_tokens_left U64_MAX c) Purpose_WriterPlan m)
                (λ structured m,
                   match build_plan builder baseline narrative_plan (slc_value structured) snapshot (wpp_context projection) with
                   | Err e => stage_fails (map_planning_error e) m
                   | Ok plan => stage_ends (set_writer_plan plan) m
                   end)
          end
      end
  end.

(** ** The characters *)

Definition model_output_invalid (stage : TurnStage) (message : string) : TurnExecutionError :=
  turn_error Kind_Llm "model_output_invalid" (Some stage) message.
Definition think_output_invalid : string → TurnExecutionError := model_output_invalid Stage_CharacterThink.
Definition character_decision_contract (config : CharacterThinkConfig) : LlmOutputContract (string * string) := {|
  oc_name := "character_decision.v1";
  oc_schema := decision_schema config;
  oc_compact_prompt_shape := decision_prompt_shape config;
  oc_validate dto := fail_if is_blank dto.1 with "decision must be trim-non-empty" in Ok tt;
  oc_decode := decision_decode;
|}.
Definition normalize_required_output (value field : string) (maximum_bytes : N) : result TurnExecutionError BoundedText :=
  fail_if is_blank value with think_output_invalid "character decision contains an empty required field" in
  map_err (λ _, think_output_invalid "character decision field exceeds byte budget")
    (BoundedText_try_new (trim value) field maximum_bytes).
Definition normalize_optional_output (value field : string) (maximum_bytes : N) :
    result TurnExecutionError (option BoundedText) :=
  if is_blank value then Ok None
  else
    let? text := map_err (λ _, think_output_invalid "character decision field exceeds byte budget")
      (BoundedText_try_new (trim value) field maximum_bytes) in
    Ok (Some text).
Definition enforce_total_output_budget (decision : BoundedText) (suggested_utterance : option BoundedText)
    (maximum_bytes : N) : result TurnExecutionError N :=
  let total_bytes := sat_add USIZE_MAX (slen decision) (from_option slen 0%N suggested_utterance) in
  fail_if (maximum_bytes <? total_bytes)%N
  with think_output_invalid "character decision exceeds total output byte budget" in
  Ok total_bytes.
Definition decision_of (config : CharacterThinkConfig) (role_id : RoleId) (dto : string * string) :
    result TurnExecutionError CharacterDecision :=
  let? decision := normalize_required_output dto.1 "decision" (think_max_field_bytes config) in
  let? suggested_utterance :=
    normalize_optional_output dto.2 "suggested_utterance" (think_max_field_bytes config) in
  let? _ := enforce_total_output_budget decision suggested_utterance (think_max_total_output_bytes config) in
  Ok {| cd_role_id := role_id; cd_decision := decision; cd_suggested_utterance := suggested_utterance |}.

Section think.
Context (config : CharacterThinkConfig) (context_config : ContextPreparationConfig).
Definition think_projection_error (e : CharacterThinkProjectionError) : TurnExecutionError :=
  turn_error Kind_InvariantViolation (think_error_code e) (Some Stage_CharacterThink) (think_error_display e).
(** One turn of the loop over the requests. *)
Definition think_one (request : CharacterThinkRequest) (m : Machine) : Machine * result TurnExecutionError CharacterDecision :=
  match project_think config context_config (m_ctx m) request with
  | Err e => (m, Err (think_projection_error e))
  | Ok projection =>
      let '(m, outcome) := complete_structured_composed gateway (character_decision_contract config)
        {| pci_profile := Profile_CharacterThink; pci_rc_vars := tpp_rc_vars projection;
           pci_fti_vars := tpp_fti_vars projection |}
        (N.min (remaining_output_tokens (tc_budget (m_ctx m))) (think_max_output_tokens config))
        Purpose_CharacterThink m in
      (m, match outcome with
          | Err e => Err (stage_llm_error Stage_CharacterThink e)
          | Ok structured => decision_of config (ctr_role_id request) (slc_value structured)
          end)
  end.
Fixpoint think_all (requests : list CharacterThinkRequest) (m : Machine) :
    Machine * result TurnExecutionError (list CharacterDecision) :=
  match requests with
  | [] => (m, Ok [])
  | request :: requests =>
      let '(m, outcome) := think_one request m in
      match outcome with
      | Err e => (m, Err e)
      | Ok decision =>
          let '(m, rest) := think_all requests m in
          (m, let? decisions := rest in Ok (decision :: decisions))
      end
  end.
Definition character_think_execute : StageRun := λ m,
  match tc_plan (m_ctx m) with
  | None => stage_fails (error_invariant "writer plan not set before character think") m
  | Some plan =>
      let '(m, outcome) := think_all (character_think_requests plan) m in
      match outcome with
      | Err e => (m, Err e)
      | Ok decisions => stage_ends (set_character_decisions decisions) m
      end
  end.
End think.

(** ** The generator and the repairer *)

Definition generator_error_code (e : StoryGeneratorProjectionError) : string :=
  match e with
  | Gen_MissingBaseline => "missing_baseline"
  | Gen_MissingWriterPlan => "missing_writer_plan"
  | Gen_InvalidPlayerContribution => "invalid_player_contribution"
  | Gen_UnknownDecisionRole _ => "unknown_decision_role"
  | Gen_PlayerRoleDecision _ => "player_role_decision"
  | Gen_DuplicateRoleDecision _ => "duplicate_role_decision"
  | Gen_RequiredPromptDataExceedsBudget => "required_prompt_data_exceeds_budget"
  | Gen_Invariant code => code
  end.
Definition generator_projection_error (e : StoryGeneratorProjectionError) : TurnExecutionError :=
  turn_error Kind_InvariantViolation (generator_error_code e) (Some Stage_StoryGenerator) (generator_error_display e).
(** The text of an answer, trimmed and within the bound of the turn. *)
Definition accept_story (stage : TurnStage) (empty_message invalid_message : string) (c : TurnExecutionContext)
    (completion : LlmCompletion) : result TurnExecutionError StoryGeneratorOutput :=
  let trimmed := trim (cmp_text completion) in
  fail_if is_empty trimmed with model_output_invalid stage empty_message in
  let? text := map_err (λ e, model_output_invalid stage (invalid_message +:+ asset_error_display e))
    (BoundedText_try_new trimmed "story_text" (max_story_text_bytes (budget_limits (tc_budget c)))) in
  Ok {| story_text := text |}.
Definition story_generator_execute (config : ContextPreparationConfig) : StageRun := λ m,
  match project_generator config (m_ctx m) with
  | Err e => stage_fails (generator_projection_error e) m
  | Ok projection =>
      answered Stage_StoryGenerator
        (complete_text_composed gateway
           {| pci_profile := Profile_StoryGenerator; pci_rc_vars := gpp_rc_vars projection;
              pci_fti_vars := gpp_fti_vars projection |}
           (output_tokens_left U64_MAX (m_ctx m)) Purpose_StoryGeneration m)
        (λ completion m,
           match accept_story Stage_StoryGenerator "story generator output is empty"
                   "story generator output is invalid: " (m_ctx m) completion with
           | Err e => stage_fails e m
           | Ok story => stage_ends (set_generated_story story) m
           end)
  end.

Definition repairer_error_code (e : StoryRepairerProjectionError) : string :=
  match e with
  | Rep_MissingValidation => "missing_validation"
  | Rep_ValidationDoesNotRequireRepair => "validation_does_not_require_repair"
  | Rep_MissingPreviousStory => "missing_previous_story"
  | Rep_EmptyValidationIssues => "empty_validation_issues"
  | Rep_PreviousStoryExceedsBounds => "previous_story_exceeds_bounds"
  | Rep_Invariant _ => "story_repairer_prompt_invariant"
  | Rep_GenerationContext Gen_RequiredPromptDataExceedsBudget => "required_prompt_data_exceeds_budget"
  | Rep_GenerationContext _ => "story_generator_projection_failed"
  end.
Definition repairer_projection_error (e : StoryRepairerProjectionError) : TurnExecutionError :=
  turn_error Kind_InvariantViolation (repairer_error_code e) (Some Stage_StoryRepairer) (repairer_error_display e).
Definition story_repairer_execute (config : ContextPreparationConfig) : StageRun := λ m,
  match project_repairer config (m_ctx m) with
  | Err e => stage_fails (repairer_projection_error e) m
  | Ok projection =>
      answered Stage_StoryRepairer
        (complete_text_composed gateway
           {| pci_profile := Profile_StoryRepairer; pci_rc_vars := rpp_rc_vars projection;
              pci_fti_vars := rpp_fti_vars projection |}
           (output_tokens_left U64_MAX (m_ctx m)) Purpose_StoryRepair m)
        (λ completion m,
           match accept_story Stage_StoryRepairer "story repair output is empty" "story repair output is invalid: "
                   (m_ctx m) completion with
           | Err e => stage_fails e m
           | Ok story => stage_ends (replace_story story) m
           end)
  end.

(** ** The extractor *)

Definition validate_extraction_counts (l : StoryStateExtractionLimits) (dto : StoryStateExtractionDto) : result string unit :=
  fail_if (max_new_roles l <? nlen (new_roles dto))%N with "new_roles exceeds the configured maximum" in
  fail_if (max_role_states l <? nlen (role_states dto))%N with "role_states exceeds the configured maximum" in
  fail_if (max_relationship_states l <? nlen (relationship_states dto))%N
  with "relationship_states exceeds the configured maximum" in
  fail_if (sel_max_condition_queries l <? nlen (narrative_condition_judgments dto))%N
  with "narrative_condition_judgments exceeds the configured maximum" in
  fail_if (max_cast_policy_violations l <? nlen (cast_policy_violations dto))%N
  with "cast_policy_violations exceeds the configured maximum" in
  Ok tt.
Definition story_state_extraction_contract (l : StoryStateExtractionLimits) : LlmOutputContract StoryStateExtractionDto := {|
  oc_name := "story_state_extraction.v2";
  oc_schema := extraction_schema l;
  oc_compact_prompt_shape := extraction_prompt_shape;
  oc_validate := validate_extraction_counts l;
  oc_decode := extraction_decode;
|}.
Definition extractor_error_code (e : StoryStateExtractorProjectionError) : string :=
  match e with
  | Ext_MissingStory => "missing_story"
  | Ext_MissingSnapshot => "missing_snapshot"
  | Ext_ValidationDoesNotRequireReextraction => "validation_does_not_require_reextraction"
  | Ext_EmptyValidationIssues => "empty_validation_issues"
  | Ext_Invariant _ => "story_state_extractor_prompt_invariant"
  | Ext_RequiredPromptDataExceedsBudget => "story_state_extractor_prompt_budget_exceeded"
  end.
Definition extractor_projection_error (e : StoryStateExtractorProjectionError) : TurnExecutionError :=
  turn_error Kind_InvariantViolation (extractor_error_code e) (Some Stage_StoryStateExtractor) (extractor_error_display e).

(** A judgment that does not fit is left out. *)
Definition judgment_result (l : StoryStateExtractionLimits) (judgment : NarrativeConditionJudgmentDto) :
    option NarrativeConditionResult :=
  match key_try_new (ncj_condition_key judgment),
        BoundedText_try_new (ncj_evidence judgment) "narrative_condition_evidence" (sel_max_condition_evidence_bytes l),
        BoundedText_try_new (ncj_reason judgment) "narrative_condition_reason" (sel_max_condition_reason_bytes l) with
  | Ok condition_key, Ok evidence, Ok reason =>
      Some {| ncr_condition_key := condition_key; ncr_status := ncj_status judgment; ncr_evidence := evidence;
              ncr_reason := reason |}
  | _, _, _ => None
  end.
Definition extraction_envelope (c : TurnExecutionContext) (is_reextraction : bool)
    (structured : StructuredLlmCompletion StoryStateExtractionDto) : StoryStateExtractionEnvelope :=
  let l := lim_state_extraction (budget_limits (tc_budget c)) in
  let dto := slc_value structured in {|
  env_candidate_version := {| content_digest := sha256_bytes (str_bytes (cmp_text (slc_completion structured)));
                              repair_attempt := if is_reextraction then 1%N else 0%N |};
  env_expected_graph_revision := from_option expected_graph_revision 0%N (tc_narrative_projection c);
  env_state := dto;
  narrative_condition_results := omap (judgment_result l) (narrative_condition_judgments dto);
|}.
Definition extraction_failure_issue : ValidationIssue := {|
  iss_code := Issue_ExtractionSchemaInvalid;
  iss_class := Class_Extraction;
  iss_remedy := Remedy_ReextractState;
  iss_message := "state extraction output is invalid";
  iss_location := None;
|}.
Definition story_state_extractor_execute : StageRun := λ m,
  let c := m_ctx m in
  let limits := budget_limits (tc_budget c) in
  let is_reextraction := bool_decide (tc_phase c = Phase_StateReextractionRequired) in
  match project_extractor c with
  | Err e => stage_fails (extractor_projection_error e) m
  | Ok projection =>
      let '(m, outcome) := complete_structured_composed gateway (story_state_extraction_contract (lim_state_extraction limits))
        {| pci_profile := Profile_StoryStateExtractor; pci_rc_vars := epp_rc_vars projection;
           pci_fti_vars := epp_fti_vars projection |}
        (output_tokens_left (state_extractor_max_output_tokens limits) c) Purpose_StoryStateExtraction m in
      match outcome with
      | Ok structured =>
          let envelope := extraction_envelope (m_ctx m) is_reextraction structured in
          stage_ends (if is_reextraction then replace_state_extraction envelope else set_state_extraction envelope) m
      | Err (Llm_Protocol Protocol_InvalidStructuredOutput) =>
          match BoundedValidationIssues_try_new [extraction_failure_issue] (max_validation_issues limits) with
          | Err e => stage_fails e m
          | Ok issues => stage_ends (record_state_extraction_failure issues) m
          end
      | Err error => stage_fails (stage_llm_error Stage_StoryStateExtractor error) m
      end
  end.
(** ** The stages as the runtime sees them *)

Context `{!StageWorld} `{SnapshotPort, EventPayload, EventJson}.

Definition as_pipeline (stage : TurnStage) (stage_run : StageRun) : TurnExecutionPipeline := {|
  pl_stage := stage;
  pl_execute c w :=
    let '(m, outcome) := stage_run {| m_ctx := c; m_world := w |} in (m_ctx m, m_world m, outcome);
|}.
(** A stage without a call of the model: its questions to the store follow the moment
    it starts at.  An activation always ends ([baseline_ends] and [retrieval_ends]), so
    the error for one that does not is never seen. *)
Definition unended : TurnExecutionError := error_invariant "knowledge activation did not end".
Definition with_outcome (o : option StageOutcome) (c : TurnExecutionContext) (w : world) :
    Machine * result TurnExecutionError unit :=
  let '(c, outcome) := from_option id (c, Err unended) o in ({| m_ctx := c; m_world := w |}, outcome).
Definition baseline_stage (builder : BaselineContextBuilder) : StageRun := λ m,
  let '(w, now) := instant_now (m_world m) in
  let '(caches, o) := baseline_execute builder now (world_caches w) (m_ctx m) in
  with_outcome o (m_ctx m) (set_world_caches caches w).
Definition retrieval_stage (pipeline : ContextRetrievalPipeline) : StageRun := λ m,
  let '(w, now) := instant_now (m_world m) in
  let caches := world_caches w in
  let '(fragments, o) := retrieval_execute pipeline now (cc_fragments caches) (m_ctx m) in
  with_outcome o (m_ctx m) (set_world_caches {| cc_fragments := fragments; cc_packs := cc_packs caches |} w).
Definition validation_stage : StageRun := stage_ends validation_execute_inner.

(** How the server wires them. *)
Definition activation_coordinator (config : AiseConfig) : KnowledgeActivationCoordinator :=
  let activation := cfg_activation config in {|
  co_index_limits := activation_index_limits activation;
  co_rule_limits := activation_rule activation;
  co_runtime_limits := activation_runtime_limits activation;
  co_cache_limits := activation_cache activation;
|}.
Definition baseline_builder_of (config : AiseConfig) : BaselineContextBuilder := {|
  bb_content_limits := cfg_content config;
  bb_context_config := cfg_context config;
  bb_narrative_config := cfg_narrative config;
  bb_retrieval_config := cfg_retrieval config;
  bb_activation_config := cfg_activation config;
  bb_coordinator := activation_coordinator config;
|}.
Definition retrieval_pipeline_of (config : AiseConfig) : ContextRetrievalPipeline := {|
  rp_config := cfg_retrieval config;
  rp_activation_config := cfg_activation config;
  rp_coordinator := activation_coordinator config;
|}.
Definition plan_builder_of (config : AiseConfig) : RetrievalPlanBuilder :=
  {| rpb_retrieval := cfg_retrieval config; rpb_planner := cfg_planner config |}.
Definition pipeline_set_of (config : AiseConfig) : TurnPipelineSetBuilder := {|
  pb_initializer := Some TurnInitializer;
  pb_baseline_builder := Some (as_pipeline Stage_BaselineBuilder (baseline_stage (baseline_builder_of config)));
  pb_writer_planner := Some (as_pipeline Stage_WriterPlanner (writer_planner_execute (plan_builder_of config)));
  pb_retrieval := Some (as_pipeline Stage_ContextRetrieval (retrieval_stage (retrieval_pipeline_of config)));
  pb_character_think := Some (as_pipeline Stage_CharacterThink
    (character_think_execute (cfg_character_think config) (cfg_context config)));
  pb_story_generator := Some (as_pipeline Stage_StoryGenerator (story_generator_execute (cfg_context config)));
  pb_story_state_extractor := Some (as_pipeline Stage_StoryStateExtractor story_state_extractor_execute);
  pb_validation := Some (as_pipeline Stage_Validation validation_stage);
  pb_story_repairer := Some (as_pipeline Stage_StoryRepairer (story_repairer_execute (cfg_context config)));
  pb_committer := Some TurnCommitter;
|}.
End stages.
