(* ===== verification/AisePackService.v ===== *)
(** * Packs and character cards from files, in the crate [aise]

    [story/pack_service.rs] and [story/character_card_service.rs] of [crates/aise/src/]:
    the checks of an asset that is imported, every problem reported in one list, and the
    calls of the two services to the asset store.  The parsers of serde and of the zip
    archive are parameters. *)

From S2P Require Import Prelude Text AiseIds AiseRule AiseNarrative AiseStory AiseTurnData AiseConfig AiseBudget AiseScan AisePorts.

(** ** JSON values *)

(** [serde_json::Value].  A number is given by its text and by what [as_u64] says of it;
    the members of an object come in the order of their keys, which are distinct. *)
Inductive Value :=
| Value_Null
| Value_Bool (b : bool)
| Value_Number (text : string) (as_u64 : option N)
| Value_String (s : string)
| Value_Array (items : list Value)
| Value_Object (members : list (string * Value)).

Definition as_str (v : Value) : option string := match v with Value_String s => Some s | _ => None end.
Definition as_u64_value (v : Value) : option N := match v with Value_Number _ n => n | _ => None end.
Definition as_array (v : Value) : option (list Value) := match v with Value_Array items => Some items | _ => None end.
Definition as_object (v : Value) : option (list (string * Value)) :=
  match v with Value_Object members => Some members | _ => None end.
(** [Map::get] *)
Fixpoint member (key : string) (members : list (string * Value)) : option Value :=
  match members with
  | [] => None
  | (k, v) :: members => if bool_decide (k = key) then Some v else member key members
  end.
Definition has_member (key : string) (members : list (string * Value)) : bool := bool_decide (key ∈ members.*1).
(** [Value::get] with a key *)
Definition value_get (key : string) (v : Value) : option Value := members ← as_object v; member key members.

(** serde's parsers and writers: [None] is an error. *)
Class AssetJson := {
  value_from_slice : list N → option Value;
  pack_from_slice : list N → option StoryPack;
  pack_from_value : Value → option StoryPack;
  profile_from_value : Value → option CharacterProfile;
  card_from_value : Value → option CharacterCard;
  profile_to_vec : CharacterProfile → option (list N);
  pack_to_vec : StoryPack → option (list N);
  card_to_vec : CharacterCard → option (list N);
}.

(** An entry of an archive: what its successive reads give, [None] being an error, and
    nothing at its end. *)
Record ZipEntry := { ze_name : string; ze_size : N; ze_reads : list (option (list N)) }.
(** [ZipArchive::new] and [by_index]: [None] is an error. *)
Class ZipArchives := zip_archive : list N → option (list (option ZipEntry)).

(** ** Reports *)

Definition push (code : AssetValidationCode) (path message : string) (r : ValidationReport) : ValidationReport :=
  report_push r {| avi_code := code; avi_path := path; avi_message := message |}.
Definition push_if (c : bool) (code : AssetValidationCode) (path message : string) (r : ValidationReport) :
    ValidationReport := if c then push code path message r else r.
(** A loop over a list with the index of its element. *)
Definition fold_indexed {A S} (f : N → S → A → S) (s : S) (l : list A) : S :=
  snd (fold_left (λ '(i, s) x, ((i + 1)%N, f i s x)) l (0%N, s)).

(** The [Display] of [ActivationRuleValidationError]. *)
Definition rule_error_display (e : ActivationRuleValidationError) : string :=
  match e with
  | MissingActivationSource => "activation rule has no activation source"
  | ConflictingModes => "constant and exact target only are mutually exclusive"
  | InvalidProbability => "activation probability is outside 0..=100"
  | InvalidGroupKey => "activation group key is invalid"
  | TooManyGroups => "activation rule has too many groups"
  | EmptyPattern => "activation pattern is empty"
  | InvalidPattern => "activation pattern is invalid"
  | InvalidRegex => "activation regex is invalid"
  | InvalidMacro => "activation macro is invalid"
  | InvalidLimit => "activation rule limit must be positive"
  | TooManyPrimaryPatterns => "activation rule has too many primary patterns"
  | TooManySecondaryPatterns => "activation rule has too many secondary patterns"
  | PatternTooLong => "activation pattern exceeds its byte budget"
  | RegexProgramTooLarge => "activation regex program exceeds its byte budget"
  | GroupKeyTooLong => "activation group key exceeds its byte budget"
  | ScanDepthTooLarge => "activation scan depth exceeds its configured maximum"
  end.

Inductive AssetInput := Input_Json (bytes : list N) | Input_Pack (bytes : list N).
Inductive PackExportFormat := Format_Json | Format_AisePack.
Inductive PackExport := Export_Json (bytes : list N) | Export_AisePack (bytes : list N).
Inductive AssetImportError :=
| Import_Invalid (report : ValidationReport) | Import_Store (error : StoreError) | Import_Io (code : string).
Inductive AssetExportError := Export_NotFound | Export_Store (error : StoreError) | Export_Io (code : string).

Definition FORBIDDEN_FIELD_NAMES : list string :=
  ["system_prompt"; "developer_prompt"; "prompt"; "post_history_instructions"; "jailbreak"; "message_role"; "template";
   "position"; "depth"; "injection_order"; "stop"; "model"; "tools"; "skills"; "temperature"; "max_tokens"].
Definition NARRATIVE_ROLE_REFERENCE_FIELDS : list string := ["role_key"; "source_role_key"; "target_role_key"].

(** ** Checks of a value at every depth *)

Section forbidden.
Context (max_depth : N).

Fixpoint check_forbidden_fields (value : Value) (path : string) (r : ValidationReport) (depth : N) : ValidationReport :=
  if (max_depth <? depth)%N then push CodeLimitExceeded path "asset nesting depth exceeds limit" r
  else match value with
  | Value_Object members =>
      fold_left (λ r '(key, child),
        let child_path := path +:+ "/" +:+ key in
        let r := push_if (bool_decide (key ∈ FORBIDDEN_FIELD_NAMES)) ForbiddenField child_path
                   "forbidden runtime field" r in
        check_forbidden_fields child child_path r (depth + 1)) members r
  | Value_Array items =>
      fold_indexed (λ index r item,
        check_forbidden_fields item (path +:+ "/" +:+ pretty index) r (depth + 1)) r items
  | _ => r
  end.
End forbidden.

Section references.
Context (role_ids : gset string).

Fixpoint scan_role_references (value : Value) (path : string) (r : ValidationReport) : ValidationReport :=
  match value with
  | Value_Object members =>
      fold_left (λ r '(key, child),
        let child_path := path +:+ "/" +:+ key in
        let r := if bool_decide (key ∈ NARRATIVE_ROLE_REFERENCE_FIELDS) then
                   match as_str child with
                   | Some role_key =>
                       push_if (negb (bool_decide (role_ids = ∅)) && negb (bool_decide (role_key ∈ role_ids)))
                         AiseIds.MissingReference child_path "narrative role reference is not defined" r
                   | None => r
                   end
                 else r in
        scan_role_references child child_path r) members r
  | Value_Array items =>
      fold_indexed (λ index r item, scan_role_references item (path +:+ "/" +:+ pretty index) r) r items
  | _ => r
  end.
End references.
