(* ===== verification/AiseSqlite.v ===== *)
(** * The SQLite store of the crate [aise]

    [persistence/sqlite_store.rs], [persistence/sqlite_snapshot.rs] and
    [persistence/sqlite_error.rs] of [crates/aise/src/], over the tables that the
    migrations of [assets/persistence/mig/] leave.  A table is a map from its primary
    key; a statement is the function SQLite documents for it, with the checks, the
    unique indexes and the foreign keys of its table, which fail with the extended
    result codes.  A JSON column holds the value whose text it is, since what the store
    writes it reads back; the lengths of those texts are parameters.  A transaction that
    returns an error leaves the database as it was, and so does one in which the
    database itself fails: [available] says whether it answers. *)

From S2P Require Import Prelude Text AiseIds AiseRule AiseNarrative AiseStory AiseTurnData AiseExtraction.
From S2P Require Import AiseConfig AiseScan AisePorts AiseActivation AiseCoordination AiseBudget AiseValidation AiseContext.
From S2P Require Import AiseRuntime.

(** ** Integers: a column is an [i64] *)

(** [n as i64] for a [u64], and back. *)
Definition as_i64 (n : N) : Z := if (n <=? I64_MAX)%N then Z.of_N n else (Z.of_N n - 18446744073709551616)%Z.
Definition as_u64 (z : Z) : N := Z.to_N (z mod 18446744073709551616).
(** [u64::try_from] and [usize::try_from] of a column, [i64::try_from] of a [u64]. *)
Definition try_u64 (z : Z) : option N := if (z <? 0)%Z then None else Some (Z.to_N z).
Definition try_i64 (n : N) : option Z := if (n <=? I64_MAX)%N then Some (Z.of_N n) else None.

(** ** Tables *)

Record StoryRow := {
  row_revision : Z;
  row_last_turn_number : Z;
  row_player_role_id : option RoleId;
  row_created_at : Z;
  row_story_summary : StorySummary;
  row_active_constraints : list ActiveStoryConstraint;
}.
Definition story_row_eta (r : StoryRow) : StoryRow := {|
  row_revision := row_revision r; row_last_turn_number := row_last_turn_number r;
  row_player_role_id := row_player_role_id r; row_created_at := row_created_at r;
  row_story_summary := row_story_summary r; row_active_constraints := row_active_constraints r
|}.
Definition set_row_revision : (Z → Z) → StoryRow → StoryRow := ltac:(set_field story_row_eta row_revision).
Definition set_row_last_turn_number : (Z → Z) → StoryRow → StoryRow := ltac:(set_field story_row_eta row_last_turn_number).
Definition set_row_player_role_id : (option RoleId → option RoleId) → StoryRow → StoryRow := ltac:(set_field story_row_eta row_player_role_id).
Definition set_row_created_at : (Z → Z) → StoryRow → StoryRow := ltac:(set_field story_row_eta row_created_at).
Definition set_row_story_summary : (StorySummary → StorySummary) → StoryRow → StoryRow := ltac:(set_field story_row_eta row_story_summary).
Definition set_row_active_constraints : (list ActiveStoryConstraint → list ActiveStoryConstraint) → StoryRow → StoryRow := ltac:(set_field story_row_eta row_active_constraints).
Record InstanceRow := {
  row_pack_id : PackId;
  row_settings : InstanceSettings;
  row_roles : gmap RoleId StoryRole;
  row_relationships : list RelationshipState;
  row_narrative_state : NarrativeRuntimeState;
  row_fact_values : gmap FactKey ScalarValue;
  row_knowledge_id_high_water : Z;
  row_role_id_high_water : Z;
  row_activation_overlay_version : Z;
  row_created_at_ms : Z;
}.
Definition instance_row_eta (r : InstanceRow) : InstanceRow := {|
  row_pack_id := row_pack_id r; row_settings := row_settings r; row_roles := row_roles r;
  row_relationships := row_relationships r; row_narrative_state := row_narrative_state r;
  row_fact_values := row_fact_values r; row_knowledge_id_high_water := row_knowledge_id_high_water r;
  row_role_id_high_water := row_role_id_high_water r;
  row_activation_overlay_version := row_activation_overlay_version r; row_created_at_ms := row_created_at_ms r
|}.
Definition set_row_pack_id : (PackId → PackId) → InstanceRow → InstanceRow := ltac:(set_field instance_row_eta row_pack_id).
Definition set_row_settings : (InstanceSettings → InstanceSettings) → InstanceRow → InstanceRow := ltac:(set_field instance_row_eta row_settings).
Definition set_row_roles : (gmap RoleId StoryRole → gmap RoleId StoryRole) → InstanceRow → InstanceRow := ltac:(set_field instance_row_eta row_roles).
Definition set_row_relationships : (list RelationshipState → list RelationshipState) → InstanceRow → InstanceRow := ltac:(set_field instance_row_eta row_relationships).
Definition set_row_narrative_state : (NarrativeRuntimeState → NarrativeRuntimeState) → InstanceRow → InstanceRow := ltac:(set_field instance_row_eta row_narrative_state).
Definition set_row_fact_values : (gmap FactKey ScalarValue → gmap FactKey ScalarValue) → InstanceRow → InstanceRow := ltac:(set_field instance_row_eta row_fact_values).
Definition set_row_knowledge_id_high_water : (Z → Z) → InstanceRow → InstanceRow := ltac:(set_field instance_row_eta row_knowledge_id_high_water).
Definition set_row_role_id_high_water : (Z → Z) → InstanceRow → InstanceRow := ltac:(set_field instance_row_eta row_role_id_high_water).
Definition set_row_activation_overlay_version : (Z → Z) → InstanceRow → InstanceRow := ltac:(set_field instance_row_eta row_activation_overlay_version).
Definition set_row_created_at_ms : (Z → Z) → InstanceRow → InstanceRow := ltac:(set_field instance_row_eta row_created_at_ms).
Record TurnRow := {
  row_player_contribution : string;
  row_turn_text : string;
  row_turn_created_at : Z;
  row_idempotency_key : IdempotencyKey;
  row_request_digest : RequestDigest;
  row_base_revision : Z;
  row_committed_revision : Z;
  row_result : CommittedTurnResult;
  row_turn_sequence : Z;
}.
(** [origin] is ['opening'] without a turn number, or ['turn'] with one. *)
Record SegmentRow := {
  row_segment_story : StoryId;
  row_sequence : Z;
  row_origin : string;
  row_segment_turn : option Z;
  row_segment_text : string;
  row_segment_created_at : Z;
}.
Record EventRow := {
  row_event_story : StoryId;
  row_event_turn : Z;
  row_event_seq : Z;
  row_event_kind : string;
  row_event_payload : string;
}.
Record KnowledgeRow := {
  row_memory_owner : option string;
  row_retrieval_hint : option string;
  row_content : string;
  row_salience : Z;
  row_source : KnowledgeSource;
  row_payload : KnowledgeEntry;
  row_activation_rule : option KnowledgeActivationRule;
  row_activation_rule_version : option string;
}.
Record TimedRow := {
  row_rule_version : string;
  row_sticky_through_turn : option Z;
  row_cooldown_through_turn : option Z;
}.
Record OutboxRow := {
  row_outbox_story : StoryId;
  row_outbox_turn : Z;
  row_event_type : string;
  row_outbox_payload : string;
  row_outbox_created_at : Z;
  row_attempt_count : Z;
}.
(** The world book of a pack: its facts and its rumours, keyed, in the order of the
    JSON object. *)
Record PackRow := {
  row_pack_key : string;
  row_pack_version : string;
  row_pack_digest : string;
  row_story_profile : StoryProfile;
  row_narrative_definition : NarrativeGraphDefinition;
  row_pack_title : option string;
  row_world_facts : list (string * (Z * KnowledgeActivationRule));
  row_world_rumors : list (string * (Z * KnowledgeActivationRule));
  row_pack : StoryPack;
  row_world_book : WorldBook;
  row_canonical_manifest : list N;
}.
(** A character card: its digest and the bytes it was canonicalized to. *)
Record CharacterCardRow := { row_card_digest : string; row_canonical_json : list N }.

(** Turns and segments are keyed by story and number, knowledge by story, kind and
    identifier, timed states by story and identifier, the others by identifier. *)
Definition TurnRowKey : Type := StoryId * Z.
Definition KnowledgeRowKey : Type := StoryId * string * string.
Definition TimedRowKey : Type := StoryId * string.
Definition CharacterCardRowKey : Type := CharacterId * string.
Record Database := {
  db_stories : gmap StoryId StoryRow;
  db_instances : gmap StoryId InstanceRow;
  db_turns : gmap TurnRowKey TurnRow;
  db_segments : gmap string SegmentRow;
  db_events : gmap string EventRow;
  db_knowledge : gmap KnowledgeRowKey KnowledgeRow;
  db_timed : gmap TimedRowKey TimedRow;
  db_outbox : gmap string OutboxRow;
  db_packs : gmap PackId PackRow;
  db_character_cards : gmap CharacterCardRowKey CharacterCardRow;
}.
Definition database_eta (r : Database) : Database := {|
  db_stories := db_stories r; db_instances := db_instances r; db_turns := db_turns r;
  db_segments := db_segments r; db_events := db_events r; db_knowledge := db_knowledge r;
  db_timed := db_timed r; db_outbox := db_outbox r; db_packs := db_packs r;
  db_character_cards := db_character_cards r
|}.
Definition set_db_stories : (gmap StoryId StoryRow → gmap StoryId StoryRow) → Database → Database := ltac:(set_field database_eta db_stories).
Definition set_db_instances : (gmap StoryId InstanceRow → gmap StoryId InstanceRow) → Database → Database := ltac:(set_field database_eta db_instances).
Definition set_db_turns : (gmap TurnRowKey TurnRow → gmap TurnRowKey TurnRow) → Database → Database := ltac:(set_field database_eta db_turns).
Definition set_db_segments : (gmap string SegmentRow → gmap string SegmentRow) → Database → Database := ltac:(set_field database_eta db_segments).
Definition set_db_events : (gmap string EventRow → gmap string EventRow) → Database → Database := ltac:(set_field database_eta db_events).
Definition set_db_knowledge : (gmap KnowledgeRowKey KnowledgeRow → gmap KnowledgeRowKey KnowledgeRow) → Database → Database := ltac:(set_field database_eta db_knowledge).
Definition set_db_timed : (gmap TimedRowKey TimedRow → gmap TimedRowKey TimedRow) → Database → Database := ltac:(set_field database_eta db_timed).
Definition set_db_outbox : (gmap string OutboxRow → gmap string OutboxRow) → Database → Database := ltac:(set_field database_eta db_outbox).
Definition set_db_packs : (gmap PackId PackRow → gmap PackId PackRow) → Database → Database := ltac:(set_field database_eta db_packs).
Definition set_db_character_cards : (gmap CharacterCardRowKey CharacterCardRow → gmap CharacterCardRowKey CharacterCardRow) → Database → Database :=
  ltac:(set_field database_eta db_character_cards).

(** ** Statements *)

(** The extended result codes of a failed check, foreign key, primary key and unique
    index, as [map_database_error] reports them. *)
Definition SQLITE_CONSTRAINT_CHECK : StoreError := Store_ConstraintViolation "275".
Definition SQLITE_CONSTRAINT_FOREIGNKEY : StoreError := Store_ConstraintViolation "787".
Definition SQLITE_CONSTRAINT_PRIMARYKEY : StoreError := Store_ConstraintViolation "1555".
Definition SQLITE_CONSTRAINT_UNIQUE : StoreError := Store_ConstraintViolation "2067".

Definition taken `{Countable K} {V} (table : gmap K V) (key : K) : bool := bool_decide (is_Some (table !! key)).
Definition some_row `{Countable K, KeyOrd K} {V} (p : K → V → bool) (table : gmap K V) : bool :=
  existsb (λ '(key, row), p key row) (entries table).

Definition insert_story (id : StoryId) (row : StoryRow) (db : Database) : result StoreError Database :=
  fail_if taken (db_stories db) id with SQLITE_CONSTRAINT_PRIMARYKEY in
  Ok (set_db_stories <[id := row]> db).
Definition insert_instance (id : StoryId) (row : InstanceRow) (db : Database) : result StoreError Database :=
  fail_if (row_knowledge_id_high_water row <? 0)%Z with SQLITE_CONSTRAINT_CHECK in
  fail_if taken (db_instances db) id with SQLITE_CONSTRAINT_PRIMARYKEY in
  fail_if negb (taken (db_stories db) id) || negb (taken (db_packs db) (row_pack_id row))
  with SQLITE_CONSTRAINT_FOREIGNKEY in
  Ok (set_db_instances <[id := row]> db).

Definition insert_turn (story : StoryId) (number : Z) (row : TurnRow) (db : Database) : result StoreError Database :=
  fail_if (number <=? 0)%Z || (row_base_revision row <? 0)%Z
       || (row_committed_revision row <=? row_base_revision row)%Z || (row_turn_sequence row <=? 0)%Z
  with SQLITE_CONSTRAINT_CHECK in
  fail_if taken (db_turns db) (story, number) with SQLITE_CONSTRAINT_PRIMARYKEY in
  fail_if some_row (λ key other, bool_decide (key.1 = story)
      && (bool_decide (row_idempotency_key other = row_idempotency_key row)
          || (row_turn_sequence other =? row_turn_sequence row)%Z)) (db_turns db)
  with SQLITE_CONSTRAINT_UNIQUE in
  fail_if negb (taken (db_stories db) story) with SQLITE_CONSTRAINT_FOREIGNKEY in
  Ok (set_db_turns <[(story, number) := row]> db).

Definition segment_origin_ok (row : SegmentRow) : bool :=
  match row_segment_turn row with
  | None => bool_decide (row_origin row = "opening")
  | Some number => bool_decide (row_origin row = "turn") && (0 <? number)%Z
  end.
Definition insert_segment (id : string) (row : SegmentRow) (db : Database) : result StoreError Database :=
  fail_if (row_sequence row <=? 0)%Z || negb (segment_origin_ok row) with SQLITE_CONSTRAINT_CHECK in
  fail_if taken (db_segments db) id with SQLITE_CONSTRAINT_PRIMARYKEY in
  fail_if some_row (λ _ other, bool_decide (row_segment_story other = row_segment_story row)
      && ((row_sequence other =? row_sequence row)%Z
          || bool_decide (is_Some (row_segment_turn row)) && bool_decide (row_segment_turn other = row_segment_turn row)))
    (db_segments db)
  with SQLITE_CONSTRAINT_UNIQUE in
  fail_if negb (taken (db_stories db) (row_segment_story row))
       || match row_segment_turn row with
          | None => false
          | Some number => negb (taken (db_turns db) (row_segment_story row, number))
          end
  with SQLITE_CONSTRAINT_FOREIGNKEY in
  Ok (set_db_segments <[id := row]> db).

Definition insert_event (id : string) (row : EventRow) (db : Database) : result StoreError Database :=
  fail_if (row_event_seq row <? 0)%Z with SQLITE_CONSTRAINT_CHECK in
  fail_if taken (db_events db) id with SQLITE_CONSTRAINT_PRIMARYKEY in
  fail_if some_row (λ _ other, bool_decide (row_event_story other = row_event_story row)
      && (row_event_turn other =? row_event_turn row)%Z && (row_event_seq other =? row_event_seq row)%Z) (db_events db)
  with SQLITE_CONSTRAINT_UNIQUE in
  fail_if negb (taken (db_turns db) (row_event_story row, row_event_turn row)) with SQLITE_CONSTRAINT_FOREIGNKEY in
  Ok (set_db_events <[id := row]> db).

Definition insert_outbox (id : string) (row : OutboxRow) (db : Database) : result StoreError Database :=
  fail_if taken (db_outbox db) id with SQLITE_CONSTRAINT_PRIMARYKEY in
  Ok (set_db_outbox <[id := row]> db).

(** SQL's [TRIM] removes spaces only. *)
Definition only_spaces (s : string) : bool := forallb (λ b, (b =? 32)%N) (str_bytes s).
Definition knowledge_row_ok (kind : string) (row : KnowledgeRow) : bool :=
  (0 <=? row_salience row)%Z && (row_salience row <=? 255)%Z
  && (if bool_decide (kind = "memory")
      then bool_decide (is_Some (row_memory_owner row)) && bool_decide (row_activation_rule row = None)
           && bool_decide (row_activation_rule_version row = None) && bool_decide (row_retrieval_hint row = None)
      else bool_decide (kind ∈ ["fact"; "rumor"]) && bool_decide (row_memory_owner row = None)
           && bool_decide (is_Some (row_activation_rule row)) && bool_decide (is_Some (row_activation_rule_version row))
           && match row_retrieval_hint row with Some hint => negb (only_spaces hint) | None => false end).
Definition insert_knowledge (key : KnowledgeRowKey) (row : KnowledgeRow) (db : Database) : result StoreError Database :=
  fail_if negb (knowledge_row_ok key.1.2 row) with SQLITE_CONSTRAINT_CHECK in
  fail_if taken (db_knowledge db) key with SQLITE_CONSTRAINT_PRIMARYKEY in
  fail_if negb (taken (db_stories db) key.1.1) with SQLITE_CONSTRAINT_FOREIGNKEY in
  Ok (set_db_knowledge <[key := row]> db).

Definition timed_row_ok (row : TimedRow) : bool :=
  let positive turn := match turn with Some n => (0 <? n)%Z | None => true end in
  positive (row_sticky_through_turn row) && positive (row_cooldown_through_turn row).
(** [INSERT ... ON CONFLICT(story_id, source_id) DO UPDATE] *)
Definition upsert_timed (key : TimedRowKey) (row : TimedRow) (db : Database) : result StoreError Database :=
  fail_if negb (timed_row_ok row) with SQLITE_CONSTRAINT_CHECK in
  fail_if negb (taken (db_stories db) key.1) with SQLITE_CONSTRAINT_FOREIGNKEY in
  Ok (set_db_timed <[key := row]> db).

(** ** Packs: the writes of [sqlite_asset_store.rs]

    This store reports a failed constraint by its message. *)

(** [store_pack_row] *)
Definition store_pack_row (id : PackId) (row : PackRow) (db : Database) : result StoreError Database :=
  fail_if taken (db_packs db) id with Store_ConstraintViolation "UNIQUE constraint failed: story_packs.pack_id" in
  fail_if some_row (λ _ other, bool_decide (row_pack_digest other = row_pack_digest row)) (db_packs db)
  with Store_ConstraintViolation "UNIQUE constraint failed: story_packs.digest" in
  fail_if some_row (λ _ other, bool_decide (row_pack_key other = row_pack_key row)
      && bool_decide (row_pack_version other = row_pack_version row)) (db_packs db)
  with Store_ConstraintViolation "UNIQUE constraint failed: story_packs.pack_key, story_packs.version" in
  Ok (set_db_packs <[id := row]> db).
(** [import_pack], given the identifier it draws: the pack already stored under the
    digest is returned. *)
Definition import_pack (new_id : PackId) (row : PackRow) (db : Database) : result StoreError (Database * PackId) :=
  match List.filter (λ '(_, other), bool_decide (row_pack_digest other = row_pack_digest row)) (entries (db_packs db)) with
  | (existing, _) :: _ => Ok (db, existing)
  | [] =>
      fail_if some_row (λ _ other, bool_decide (row_pack_key other = row_pack_key row)
        && bool_decide (row_pack_version other = row_pack_version row)
        && negb (bool_decide (row_pack_digest other = row_pack_digest row))) (db_packs db)
      with Store_ConstraintViolation "duplicate_pack_key_version_with_different_digest" in
      let? db := store_pack_row new_id row db in
      Ok (db, new_id)
  end.
(** [delete_pack]: the foreign key of the instances keeps the packs they pin. *)
Definition delete_pack (id : PackId) (db : Database) : result StoreError (Database * bool) :=
  fail_if taken (db_packs db) id && some_row (λ _ instance, bool_decide (row_pack_id instance = id)) (db_instances db)
  with Store_ConstraintViolation "FOREIGN KEY constraint failed" in
  Ok (set_db_packs (delete id) db, taken (db_packs db) id).

(** The columns that [store_pack_row] writes: every JSON column holds a part of the pack. *)
Definition pack_columns (v : ValidatedStoryPack) : PackRow := {|
  row_pack_key := spm_pack_key (pack_meta (vsp_pack v));
  row_pack_version := spm_version (pack_meta (vsp_pack v));
  row_pack_digest := Sha256Digest_to_string (vsp_digest v);
  row_story_profile := pack_story (vsp_pack v);
  row_narrative_definition := pack_narrative (vsp_pack v);
  row_pack_title := Some (spm_title (pack_meta (vsp_pack v)));
  row_world_facts := map (λ '(key, seed), (key, (Z.of_N (fs_salience seed), fs_activation seed)))
    (entries (wb_facts (vsp_resolved_world_book v)));
  row_world_rumors := map (λ '(key, seed), (key, (Z.of_N (rs_salience seed), rs_activation seed)))
    (entries (wb_rumors (vsp_resolved_world_book v)));
  row_pack := vsp_pack v;
  row_world_book := vsp_resolved_world_book v;
  row_canonical_manifest := vsp_canonical_manifest v;
|}.
Definition hydrate_pack (stored : PackId * PackRow) : result StoreError FrozenStoryPack :=
  let '(id, row) := stored in
  let? digest := map_err (λ _, Store_Serialization Ser_InvalidStoryState) (Sha256Digest_try_new (row_pack_digest row)) in
  Ok {| frozen_pack_id := id; frozen_pack := row_pack row; frozen_digest := digest;
        frozen_resolved_world_book := row_world_book row |}.
Definition find_pack_by_digest (digest : Sha256Digest) (db : Database) : result StoreError (option FrozenStoryPack) :=
  match List.filter (λ '(_, row), bool_decide (row_pack_digest row = Sha256Digest_to_string digest))
          (entries (db_packs db)) with
  | [] => Ok None
  | stored :: _ => let? pack := hydrate_pack stored in Ok (Some pack)
  end.
Definition load_pack (id : PackId) (db : Database) : result StoreError FrozenStoryPack :=
  match db_packs db !! id with Some row => hydrate_pack (id, row) | None => Err Store_NotFound end.
(** [import_pack] of a pack: the row is new once no pack has the digest. *)
Definition import_validated_pack (new_id : PackId) (v : ValidatedStoryPack) (db : Database) :
    result StoreError (Database * FrozenStoryPack) :=
  let? existing := find_pack_by_digest (vsp_digest v) db in
  match existing with
  | Some existing => Ok (db, existing)
  | None =>
      let? '(db, id) := import_pack new_id (pack_columns v) db in
      Ok (db, {| frozen_pack_id := id; frozen_pack := vsp_pack v; frozen_digest := vsp_digest v;
                 frozen_resolved_world_book := vsp_resolved_world_book v |})
  end.

(** ** Character cards *)

(** Reading a card back from its bytes, and the order in which SQLite lists rows by the
    time it gave them. *)
Class StoredAssets := {
  card_from_slice : list N → option CharacterCard;
  newest_packs : gmap PackId PackRow → list (PackId * PackRow);
  oldest_cards : gmap CharacterCardRowKey CharacterCardRow → list CharacterCardRow;
}.

Section cards.
Context `{StoredAssets}.

Definition hydrate_character (canonical_json : list N) (digest : string) : result StoreError FrozenCharacterCard :=
  let? card := ok_or (card_from_slice canonical_json) (Store_Serialization Ser_InvalidRoleState) in
  let? digest := map_err (λ _, Store_Serialization Ser_InvalidRoleState) (Sha256Digest_try_new digest) in
  Ok {| fc_card := card; fc_digest := digest |}.
Definition find_character_by_digest (digest : Sha256Digest) (db : Database) :
    result StoreError (option FrozenCharacterCard) :=
  match List.filter (λ row, bool_decide (row_card_digest row = Sha256Digest_to_string digest))
          (values (db_character_cards db)) with
  | [] => Ok None
  | row :: _ => let? card := hydrate_character (row_canonical_json row) (row_card_digest row) in Ok (Some card)
  end.
Definition import_character (v : ValidatedCharacterCard) (db : Database) :
    result StoreError (Database * FrozenCharacterCard) :=
  let? existing := find_character_by_digest (vcc_digest v) db in
  match existing with
  | Some existing => Ok (db, existing)
  | None =>
      let key : CharacterCardRowKey := (card_character_id (vcc_card v), cm_version (card_meta (vcc_card v))) in
      let digest := Sha256Digest_to_string (vcc_digest v) in
      fail_if match db_character_cards db !! key with
              | Some row => negb (bool_decide (row_card_digest row = digest)) | None => false end
      with Store_ConstraintViolation "character_version_digest_conflict" in
      fail_if taken (db_character_cards db) key
      with Store_ConstraintViolation "UNIQUE constraint failed: character_cards.character_id, character_cards.version" in
      fail_if some_row (λ _ row, bool_decide (row_card_digest row = digest)) (db_character_cards db)
      with Store_ConstraintViolation "UNIQUE constraint failed: character_cards.digest" in
      Ok (set_db_character_cards <[key := {| row_card_digest := digest; row_canonical_json := vcc_canonical_json v |}]> db,
          {| fc_card := vcc_card v; fc_digest := vcc_digest v |})
  end.
Definition load_character (reference : FrozenCharacterCardRef) (db : Database) : result StoreError FrozenCharacterCard :=
  match db_character_cards db !! (fcc_character_id reference, fcc_version reference) with
  | Some row =>
      if bool_decide (row_card_digest row = Sha256Digest_to_string (fcc_digest reference))
      then hydrate_character (row_canonical_json row) (Sha256Digest_to_string (fcc_digest reference))
      else Err Store_NotFound
  | None => Err Store_NotFound
  end.
Definition list_packs (db : Database) : result StoreError (list FrozenStoryPack) :=
  traverse hydrate_pack (newest_packs (db_packs db)).
Definition card_info (frozen : FrozenCharacterCard) : CharacterCardInfo := {|
  cci_character_id := card_character_id (fc_card frozen); cci_name := profile_name (card_profile (fc_card frozen));
  cci_creator := cm_creator (card_meta (fc_card frozen)); cci_version := cm_version (card_meta (fc_card frozen));
  cci_digest := fc_digest frozen |}.
Definition list_characters (db : Database) : result StoreError (list CharacterCardInfo) :=
  traverse (λ row, let? frozen := hydrate_character (row_canonical_json row) (row_card_digest row) in Ok (card_info frozen))
    (oldest_cards (db_character_cards db)).
End cards.

(** ** Knowledge rows *)

Definition knowledge_kind_str (kind : KnowledgeKind) : string :=
  match kind with Kind_Fact => "fact" | Kind_Rumor => "rumor" | Kind_Memory => "memory" end.
(** [activation_rule_json] and [activation_rule_version] *)
Definition entry_rule (entry : KnowledgeEntry) : option KnowledgeActivationRule :=
  match entry with
  | Entry_Fact value => Some (fact_activation value) | Entry_Rumor value => Some (rumor_activation value)
  | Entry_Memory _ => None
  end.
Definition entry_rule_version (entry : KnowledgeEntry) : option string :=
  match entry with
  | Entry_Fact value => Some (Sha256Digest_to_string (fact_activation_rule_version value))
  | Entry_Rumor value => Some (Sha256Digest_to_string (rumor_activation_rule_version value))
  | Entry_Memory _ => None
  end.
(** [KnowledgeEntryWrite] and its statement. *)
Definition entry_row (entry : KnowledgeEntry) : KnowledgeRow := {|
  row_memory_owner := memory_owner entry;
  row_retrieval_hint := entry_retrieval_hint entry;
  row_content := entry_content entry;
  row_salience := Z.of_N (entry_salience entry);
  row_source := entry_source entry;
  row_payload := entry;
  row_activation_rule := entry_rule entry;
  row_activation_rule_version := entry_rule_version entry;
|}.
Definition knowledge_key (story : StoryId) (source_id : KnowledgeSourceId) : KnowledgeRowKey :=
  (story, knowledge_kind_str (sid_kind source_id), sid_as_str source_id).
Definition insert_knowledge_entry (story : StoryId) (entry : KnowledgeEntry) (db : Database) :
    result StoreError Database :=
  insert_knowledge (story, knowledge_kind_str (entry_kind entry), sid_as_str (entry_source_id entry)) (entry_row entry) db.

(** ** [create_story_instance] *)

Record MaterializedStoryInstanceSpec := {
  mat_story_id : StoryId;
  mat_pack : FrozenStoryPackRef;
  mat_settings : InstanceSettings;
  mat_roles : gmap RoleId StoryRole;
  mat_relationships : list RelationshipState;
  mat_knowledge : list KnowledgeEntry;
  mat_knowledge_id_high_water : KnowledgeIdHighWater;
  mat_opening : BoundedText;
  mat_narrative_state : NarrativeRuntimeState;
  mat_fact_values : gmap FactKey ScalarValue;
  mat_active_constraints : list ActiveStoryConstraint;
  mat_created_at_ms : Z;
}.
Record StoryInstanceMeta := { meta_pack_id : PackId; meta_roles : gmap RoleId StoryRole }.

Definition create_in_tx (spec : MaterializedStoryInstanceSpec) (db : Database) : result StoreError Database :=
  let story := mat_story_id spec in
  let player_role_id := role_role_id <$> head (List.filter role_is_player_controlled (values (mat_roles spec))) in
  let? db := insert_story story {|
      row_revision := 0; row_last_turn_number := 0; row_player_role_id := player_role_id;
      row_created_at := mat_created_at_ms spec; row_story_summary := StorySummary_default;
      row_active_constraints := mat_active_constraints spec |} db in
  let? db := insert_instance story {|
      row_pack_id := fsp_pack_id (mat_pack spec); row_settings := mat_settings spec; row_roles := mat_roles spec;
      row_relationships := mat_relationships spec; row_narrative_state := mat_narrative_state spec;
      row_fact_values := mat_fact_values spec;
      row_knowledge_id_high_water := as_i64 (mat_knowledge_id_high_water spec);
      row_role_id_high_water := 0; row_activation_overlay_version := 0;
      row_created_at_ms := mat_created_at_ms spec |} db in
  let? db := try_fold (λ db entry, insert_knowledge_entry story entry db) db (mat_knowledge spec) in
  insert_segment (story +:+ ":opening") {|
    row_segment_story := story; row_sequence := 1; row_origin := "opening"; row_segment_turn := None;
    row_segment_text := mat_opening spec; row_segment_created_at := mat_created_at_ms spec |} db.

(** A transaction: its changes are kept only if it succeeds. *)
Definition in_tx {A} (available : bool) (db : Database) (r : result StoreError (Database * A)) :
    Database * result StoreError A :=
  if negb available then (db, Err Store_Unavailable)
  else match r with Ok (db', a) => (db', Ok a) | Err e => (db, Err e) end.

Definition create_story_instance (available : bool) (spec : MaterializedStoryInstanceSpec) (db : Database) :
    Database * result StoreError StoryInfo :=
  in_tx available db
    (let? db' := create_in_tx spec db in
     Ok (db', {| info_story_id := mat_story_id spec; info_created_at_ms := mat_created_at_ms spec;
                 info_base_revision := 0%N; info_last_committed_turn_number := 0%N |})).

(** ** Reads of a story *)

Definition sqlite_get_story (story : StoryId) (db : Database) : option StoryInfo :=
  (λ row, {| info_story_id := story; info_created_at_ms := row_created_at row;
             info_base_revision := as_u64 (row_revision row);
             info_last_committed_turn_number := as_u64 (row_last_turn_number row) |}) <$> db_stories db !! story.
Definition load_story_instance_meta (story : StoryId) (db : Database) : option StoryInstanceMeta :=
  (λ row, {| meta_pack_id := row_pack_id row; meta_roles := row_roles row |}) <$> db_instances db !! story.

(** The row of [story_turns] with this idempotency key: the index makes it unique. *)
Definition turn_with_key (story : StoryId) (key : IdempotencyKey) (db : Database) : option TurnRow :=
  snd <$> head (List.filter (λ '(k, row), bool_decide (k.1 = story) && bool_decide (row_idempotency_key row = key))
                  (entries (db_turns db))).
Definition sqlite_find_committed_turn (story : StoryId) (key : IdempotencyKey) (db : Database) :
    option StoredTurnOutcome :=
  (λ row, {| sto_request_digest := row_request_digest row; sto_result := row_result row |}) <$> turn_with_key story key db.

(** ** [commit_turn] *)

Definition stored_state (story : StoryId) (db : Database) : option (StoryRow * InstanceRow) :=
  s ← db_stories db !! story; i ← db_instances db !! story; Some (s, i).

Definition add_new_role (roles : gmap RoleId StoryRole) (role : StoryRole) : result StoreError (gmap RoleId StoryRole) :=
  fail_if bool_decide (is_Some (roles !! role_role_id role)) with Store_ConstraintViolation "new_role_id_collision" in
  Ok (<[role_role_id role := role]> roles).
Definition with_state (state : StoryRoleState) (r : StoryRole) : StoryRole := {|
  role_role_id := role_role_id r; role_role_controller := role_role_controller r; role_label := role_label r;
  role_narrative_function := role_narrative_function r; role_background := role_background r;
  role_effective_profile := role_effective_profile r; role_source_character := role_source_character r;
  role_state := state |}.
Definition change_role (roles : gmap RoleId StoryRole) (change : RoleStateChange) :
    result StoreError (gmap RoleId StoryRole) :=
  match roles !! rsc_role_id change with
  | None => Err (Store_ConstraintViolation "role_change_reference")
  | Some role => Ok (<[rsc_role_id change := with_state (rsc_new_state change) role]> roles)
  end.
(** [collect] into a [BTreeMap] by key: the last state of a key counts. *)
Definition relationships_by_key (relationships : list RelationshipState) : gmap RelationshipKey RelationshipState :=
  foldl (λ m value, <[relationship_key value := value]> m) ∅ relationships.
Definition apply_relationship_operation (m : gmap RelationshipKey RelationshipState) (op : ValidatedRelationshipOperation) :
    result StoreError (gmap RelationshipKey RelationshipState) :=
  match op with
  | Rel_Add state =>
      fail_if bool_decide (is_Some (m !! relationship_key state))
      with Store_ConstraintViolation "relationship_add_collision" in
      Ok (<[relationship_key state := state]> m)
  | Rel_Update change =>
      fail_if bool_decide (m !! rlc_key change = None)
           || negb (bool_decide (rlc_key change = relationship_key (rlc_new_state change)))
      with Store_ConstraintViolation "relationship_change_reference" in
      Ok (<[rlc_key change := rlc_new_state change]> m)
  end.

Definition expected_from (kind : NarrativeTransitionKind) : NarrativeNodeState :=
  match kind with Trans_Activate => Node_Inactive | Trans_Complete | Trans_Skip => Node_Active end.
Definition transition_to (kind : NarrativeTransitionKind) : NarrativeNodeState :=
  match kind with Trans_Activate => Node_Active | Trans_Complete => Node_Completed | Trans_Skip => Node_Skipped end.
Definition apply_transition (turn : TurnNumber) (s : NarrativeRuntimeState) (t : ProposedNarrativeTransition) :
    result StoreError NarrativeRuntimeState :=
  fail_if negb (bool_decide (node_state s (pt_node_key t) = expected_from (pt_kind t))) with Store_RevisionConflict in
  let to_state := transition_to (pt_kind t) in
  Ok {| graph_revision := graph_revision s;
        node_states := <[pt_node_key t := to_state]> (node_states s);
        activation_turns := if bool_decide (to_state = Node_Active)
                            then <[pt_node_key t := turn]> (activation_turns s) else activation_turns s;
        pending_effects := pending_effects s |}.
Definition resolved_state (turn : TurnNumber) (resolution : ValidatedNarrativeResolution) (s : NarrativeRuntimeState) :
    result StoreError NarrativeRuntimeState :=
  let? s := try_fold (apply_transition turn) s (vnr_transitions resolution) in
  Ok {| graph_revision := match vnr_transitions resolution with
                          | [] => graph_revision s | _ => vnr_next_graph_revision resolution end;
        node_states := node_states s;
        activation_turns := activation_turns s;
        pending_effects := foldl (λ m e, <[pe_effect_id e := e]> m) ∅ (vnr_pending_effects resolution) |}.

Definition add_usage (a : LlmUsageAggregate) (call : LlmCallUsage) : result StoreError LlmUsageAggregate :=
  let add max x y limit := ok_or (checked_add max x y) (Store_LimitExceeded limit) in
  let? calls := add U32_MAX (agg_llm_calls a) 1%N "llm_calls" in
  let? input := add U64_MAX (agg_input_tokens a) (cu_input_tokens call) "llm_input_tokens" in
  let? output := add U64_MAX (agg_output_tokens a) (cu_output_tokens call) "llm_output_tokens" in
  let? total := add U64_MAX (agg_total_tokens a) (cu_total_tokens call) "llm_total_tokens" in
  Ok {| agg_llm_calls := calls; agg_input_tokens := input; agg_output_tokens := output; agg_total_tokens := total |}.
Definition aggregate_llm_usage (calls : list LlmCallUsage) : result StoreError LlmUsageAggregate :=
  try_fold add_usage {| agg_llm_calls := 0; agg_input_tokens := 0; agg_output_tokens := 0; agg_total_tokens := 0 |} calls.

(** [SELECT COALESCE(MAX(sequence), 0) + 1]: past [i64::MAX] SQLite answers a float,
    which does not decode. *)
Definition next_segment_sequence (story : StoryId) (db : Database) : result StoreError Z :=
  let maximum := foldl (λ m row, if bool_decide (row_segment_story row = story) then Z.max m (row_sequence row) else m)
    0%Z (values (db_segments db)) in
  fail_if (9223372036854775807 <? maximum + 1)%Z with Store_Unavailable in
  fail_if (maximum + 1 <=? 0)%Z with Store_LimitExceeded "turn_sequence" in
  Ok (maximum + 1)%Z.

(** [UPDATE story_instances SET ... WHERE story_id = ?] *)
Definition persist_instance_state (story : StoryId) (roles : gmap RoleId StoryRole) (relationships : list RelationshipState)
    (narrative_state : NarrativeRuntimeState) (knowledge_high_water : KnowledgeIdHighWater)
    (role_high_water : RoleIdHighWater) (db : Database) : result StoreError Database :=
  fail_if (as_i64 knowledge_high_water <? 0)%Z || (as_i64 role_high_water <? 0)%Z with SQLITE_CONSTRAINT_CHECK in
  Ok (set_db_instances (alter (λ row,
        set_row_roles (λ _, roles) (set_row_relationships (λ _, relationships)
          (set_row_narrative_state (λ _, narrative_state) (set_row_knowledge_id_high_water (λ _, as_i64 knowledge_high_water)
            (set_row_role_id_high_water (λ _, as_i64 role_high_water) row))))) story) db).

Definition merge_knowledge_update (existing value : KnowledgeEntry) : result StoreError KnowledgeEntry :=
  match existing, value with
  | Entry_Fact old, Entry_Fact new => Ok (Entry_Fact {|
      fact_id := fact_id old; fact_key := fact_key old; fact_text := fact_text new;
      fact_proposition := fact_proposition new; fact_retrieval_hint := fact_retrieval_hint new;
      fact_activation := fact_activation new; fact_activation_rule_version := fact_activation_rule_version new;
      fact_salience := fact_salience new; fact_source := fact_source new |})
  | Entry_Rumor old, Entry_Rumor new => Ok (Entry_Rumor {|
      rumor_id := rumor_id old; rumor_key := rumor_key old; rumor_content := rumor_content new;
      rumor_claim := rumor_claim new; rumor_retrieval_hint := rumor_retrieval_hint new;
      rumor_activation := rumor_activation new; rumor_activation_rule_version := rumor_activation_rule_version new;
      rumor_salience := rumor_salience new; rumor_source_role_id := rumor_source_role_id new;
      rumor_truth_value := rumor_truth_value new; rumor_source := rumor_source new |})
  | Entry_Memory old, Entry_Memory new =>
      fail_if negb (bool_decide (memory_owner_id old = memory_owner_id new))
      with Store_ConstraintViolation "knowledge_memory_owner_immutable" in
      Ok (Entry_Memory {|
        memory_id := memory_id old; memory_owner_id := memory_owner_id old; memory_kind := memory_kind new;
        memory_content := memory_content new; memory_salience := memory_salience new;
        memory_source := memory_source new; memory_created_at_ms := memory_created_at_ms old |})
  | _, _ => Err (Store_ConstraintViolation "knowledge_update_kind_mismatch")
  end.
(** The [UPDATE] of an entry: [memory_owner_role_id] and [retrieval_hint] are not among
    the columns it sets. *)
Definition updated_row (row : KnowledgeRow) (merged : KnowledgeEntry) : KnowledgeRow := {|
  row_memory_owner := row_memory_owner row;
  row_retrieval_hint := row_retrieval_hint row;
  row_content := entry_content merged;
  row_salience := Z.of_N (entry_salience merged);
  row_source := entry_source merged;
  row_payload := merged;
  row_activation_rule := entry_rule merged;
  row_activation_rule_version := entry_rule_version merged;
|}.
Definition apply_knowledge_mutation (story : StoryId) (db : Database) (mutation : ValidatedKnowledgeMutation) :
    result StoreError Database :=
  match operation mutation with
  | Op_Add entry => insert_knowledge_entry story entry db
  | Op_Update target value =>
      let key := (story, knowledge_kind_str (entry_kind value), sid_as_str target) in
      match db_knowledge db !! key with
      | None => Err (Store_ConstraintViolation "knowledge_update_target_missing")
      | Some row =>
          let? merged := merge_knowledge_update (row_payload row) value in
          let row := updated_row row merged in
          fail_if negb (knowledge_row_ok key.1.2 row) with SQLITE_CONSTRAINT_CHECK in
          Ok (set_db_knowledge <[key := row]> db)
      end
  | Op_Delete target =>
      let key := match target with
        | Deletable_Rumor id => (story, "rumor", id) | Deletable_Memory id => (story, "memory", id) end in
      fail_if negb (taken (db_knowledge db) key) with Store_ConstraintViolation "knowledge_delete_target_missing" in
      Ok (set_db_knowledge (delete key) db)
  end.
Definition knowledge_mutation_affects_activation (mutation : ValidatedKnowledgeMutation) : bool :=
  match operation mutation with
  | Op_Add entry | Op_Update _ entry => negb (bool_decide (entry_kind entry = Kind_Memory))
  | Op_Delete target => match target with Deletable_Rumor _ => true | Deletable_Memory _ => false end
  end.

Definition upsert_state (story : StoryId) (db : Database) (state : ActivationTimedState) : result StoreError Database :=
  fail_if bool_decide (sid_kind (ts_source_id state) = Kind_Memory)
  with Store_ConstraintViolation "activation_timed_state_memory" in
  let turn o limit := match o with
    | None => Ok None
    | Some n => let? z := ok_or (try_i64 n) (Store_LimitExceeded limit) in Ok (Some z) end in
  let? sticky := turn (sticky_through_turn state) "activation_sticky_turn" in
  let? cooldown := turn (cooldown_through_turn state) "activation_cooldown_turn" in
  upsert_timed (story, sid_as_str (ts_source_id state))
    {| row_rule_version := Sha256Digest_to_string (ts_rule_version state);
       row_sticky_through_turn := sticky; row_cooldown_through_turn := cooldown |} db.
Definition apply_activation_state_delta (story : StoryId) (delta : PendingActivationStateDelta) (db : Database) :
    result StoreError Database :=
  let db := set_db_timed (λ timed, foldl (λ m id, delete (story, sid_as_str id) m) timed (elements (delta_deletes delta))) db in
  try_fold (upsert_state story) db (delta_upserts delta).
(** The timed states of the story that no fact or rumour with this identifier and rule
    version explains any more. *)
Definition explained (knowledge : gmap KnowledgeRowKey KnowledgeRow) (story : StoryId) (source_id : string)
    (row : TimedRow) : bool :=
  some_row (λ key entry, bool_decide (key.1.1 = story) && bool_decide (key.2 = source_id)
    && negb (bool_decide (key.1.2 = "memory"))
    && bool_decide (row_activation_rule_version entry = Some (row_rule_version row))) knowledge.
Definition reconcile_activation_state (story : StoryId) (db : Database) : Database :=
  set_db_timed (filter (λ e : TimedRowKey * TimedRow,
    e.1.1 ≠ story ∨ explained (db_knowledge db) story e.1.2 e.2 = true)) db.

Definition write_outbox (db : Database) (record : OutboxRecord) : result StoreError Database :=
  insert_outbox (ob_id record) {|
    row_outbox_story := ob_story_id record; row_outbox_turn := as_i64 (ob_turn_number record);
    row_event_type := ob_event_type record; row_outbox_payload := ob_payload record;
    row_outbox_created_at := ob_created_at record; row_attempt_count := 0 |} db.

Definition write_event (story : StoryId) (number : TurnNumber) (db : Database) (e : nat * StoryEvent) :
    result StoreError Database :=
  let '(seq, event) := e in
  fail_if negb (ev_turn_number event =? number)%N with Store_ConstraintViolation "event_turn_reference" in
  insert_event (ev_id event) {|
    row_event_story := story; row_event_turn := as_i64 (ev_turn_number event); row_event_seq := Z.of_nat seq;
    row_event_kind := EventKind_as_str (ev_kind event); row_event_payload := ev_payload event |} db.

(** The checks and the new values, before the first write of a commit. *)
Record CommitPlan := {
  plan_committed_revision : N;
  plan_stored_last_turn_number : Z;
  plan_sequence : Z;
  plan_roles : gmap RoleId StoryRole;
  plan_relationships : gmap RelationshipKey RelationshipState;
  plan_narrative_state : NarrativeRuntimeState;
  plan_result : CommittedTurnResult;
}.
Definition plan_commit (commit : TurnCommitSpec) (db : Database) : result StoreError CommitPlan :=
  let changes := commit_changes commit in
  let? '(story, instance) := ok_or (stored_state (commit_story_id commit) db) Store_NotFound in
  let base := commit_base_revision commit in
  fail_if (row_revision story <? 0)%Z || negb (as_u64 (row_revision story) =? base)%N with Store_RevisionConflict in
  fail_if (row_last_turn_number story <? 0)%Z with Store_RevisionConflict in
  let? expected_turn_number := ok_or (checked_add U64_MAX (as_u64 (row_last_turn_number story)) 1)
    (Store_LimitExceeded "turn_number") in
  fail_if negb (expected_turn_number =? turn_number (commit_turn_of commit))%N with Store_RevisionConflict in
  let? committed_revision := ok_or (checked_add U64_MAX base 1) (Store_LimitExceeded "story_revision") in
  let? sequence := next_segment_sequence (commit_story_id commit) db in
  let? roles := try_fold add_new_role (row_roles instance) (cs_new_roles changes) in
  let? roles := try_fold change_role roles (cs_role_changes changes) in
  let? relationships := try_fold apply_relationship_operation (relationships_by_key (row_relationships instance))
    (cs_relationship_operations changes) in
  fail_if negb (graph_revision (row_narrative_state instance) =? commit_expected_graph_revision commit)%N
  with Store_RevisionConflict in
  let? narrative_state := resolved_state (turn_number (commit_turn_of commit)) (cs_narrative_resolution changes)
    (row_narrative_state instance) in
  let? aggregate := aggregate_llm_usage (commit_llm_calls commit) in
  Ok {| plan_committed_revision := committed_revision;
        plan_stored_last_turn_number := row_last_turn_number story;
        plan_sequence := sequence;
        plan_roles := roles;
        plan_relationships := relationships;
        plan_narrative_state := narrative_state;
        plan_result := {|
          res_turn_number := turn_number (commit_turn_of commit);
          res_story_revision := committed_revision;
          res_story_text := cs_story_text changes;
          res_llm_usage := aggregate;
          res_llm_calls := commit_llm_calls commit |} |}.

(** [UPDATE stories SET revision = ?, last_turn_number = ? WHERE id = ? AND revision = ?
    AND last_turn_number = ?], which must change one row. *)
Definition advance_story (id : StoryId) (base stored_last : Z) (revision number : Z) (db : Database) :
    result StoreError Database :=
  fail_if (number <? 0)%Z with SQLITE_CONSTRAINT_CHECK in
  match db_stories db !! id with
  | Some row =>
      fail_if negb ((row_revision row =? base) && (row_last_turn_number row =? stored_last))%Z
      with Store_RevisionConflict in
      Ok (set_db_stories <[id := set_row_revision (λ _, revision) (set_row_last_turn_number (λ _, number) row)]> db)
  | None => Err Store_RevisionConflict
  end.

(** The rows of the turn and of its segment. *)
Definition new_turn (commit : TurnCommitSpec) (plan : CommitPlan) : TurnRow := {|
  row_player_contribution := turn_player_contribution (commit_turn_of commit);
  row_turn_text := cs_story_text (commit_changes commit);
  row_turn_created_at := turn_created_at (commit_turn_of commit);
  row_idempotency_key := commit_idempotency_key commit;
  row_request_digest := commit_request_digest commit;
  row_base_revision := as_i64 (commit_base_revision commit);
  row_committed_revision := as_i64 (plan_committed_revision plan);
  row_result := plan_result plan;
  row_turn_sequence := plan_sequence plan;
|}.
Definition new_segment_id (commit : TurnCommitSpec) : string :=
  commit_story_id commit +:+ ":turn:" +:+ pretty (turn_number (commit_turn_of commit)).
Definition new_segment (commit : TurnCommitSpec) (plan : CommitPlan) : SegmentRow := {|
  row_segment_story := commit_story_id commit;
  row_sequence := plan_sequence plan;
  row_origin := "turn";
  row_segment_turn := Some (as_i64 (turn_number (commit_turn_of commit)));
  row_segment_text := cs_story_text (commit_changes commit);
  row_segment_created_at := turn_created_at (commit_turn_of commit);
|}.

Definition write_commit (commit : TurnCommitSpec) (plan : CommitPlan) (db : Database) : result StoreError Database :=
  let story := commit_story_id commit in
  let turn := commit_turn_of commit in
  let number := as_i64 (turn_number turn) in
  let changes := commit_changes commit in
  let? db := persist_instance_state story (plan_roles plan) (values (plan_relationships plan)) (plan_narrative_state plan)
    (cs_knowledge_id_high_water changes) (cs_next_role_id_high_water changes) db in
  let? db := insert_turn story number (new_turn commit plan) db in
  let? db := insert_segment (new_segment_id commit) (new_segment commit plan) db in
  let? db := try_fold (write_event story (turn_number turn)) db (imap pair (cs_narrative_events changes)) in
  let db := match cs_constraint_change changes with
    | Change_Unchanged => db
    | Change_Replace constraints => set_db_stories (alter (set_row_active_constraints (λ _, constraints)) story) db
    end in
  let? db := try_fold write_outbox db (commit_outbox commit) in
  let? db := try_fold (apply_knowledge_mutation story) db (cs_knowledge_mutations changes) in
  let db := if existsb knowledge_mutation_affects_activation (cs_knowledge_mutations changes)
    then set_db_instances (alter (set_row_activation_overlay_version (λ v, v + 1)%Z) story) db else db in
  let? db := apply_activation_state_delta story (commit_activation_state_delta commit) db in
  let db := reconcile_activation_state story db in
  advance_story story (as_i64 (commit_base_revision commit)) (plan_stored_last_turn_number plan)
    (as_i64 (plan_committed_revision plan)) number db.

Definition commit_in_tx (commit : TurnCommitSpec) (db : Database) : result StoreError (Database * CommittedTurnResult) :=
  match turn_with_key (commit_story_id commit) (commit_idempotency_key commit) db with
  | Some row =>
      fail_if negb (bool_decide (row_request_digest row = commit_request_digest commit)) with Store_IdempotencyConflict in
      Ok (db, row_result row)
  | None =>
      let? plan := plan_commit commit db in
      let? db' := write_commit commit plan db in
      Ok (db', plan_result plan)
  end.
Definition sqlite_commit_turn (available : bool) (commit : TurnCommitSpec) (db : Database) :
    Database * result StoreError CommittedTurnResult := in_tx available db (commit_in_tx commit db).
