(* ===== verification/AiseSqliteReads.v ===== *)
(** * What is read from the SQLite store of the crate [aise]

    [persistence/sqlite_snapshot.rs], [persistence/sqlite_knowledge_reader.rs],
    [persistence/sqlite_activation.rs] and [persistence/sqlite_story_history_reader.rs]
    of [crates/aise/src/]: the snapshot of a story, the knowledge ports and the history
    of its turns.  A read has the whole database of its transaction. *)

From S2P Require Import Prelude Text AiseIds AiseRule AiseNarrative AiseStory AiseTurnData AiseExtraction.
From S2P Require Import AiseConfig AiseScan AisePorts AiseActivation AiseCoordination AiseBudget AiseValidation AiseContext.
From S2P Require Import AiseRuntime AiseSqlite.

(** The lengths of the texts of JSON columns, as SQLite's [length] counts them, and of
    the text of a role, in bytes. *)
Class StoredJson := {
  settings_length : InstanceSettings → Z;
  roles_length : gmap RoleId StoryRole → Z;
  relationships_length : list RelationshipState → Z;
  narrative_state_length : NarrativeRuntimeState → Z;
  fact_values_length : gmap FactKey ScalarValue → Z;
  summary_length : StorySummary → Z;
  constraints_length : list ActiveStoryConstraint → Z;
  profile_length : StoryProfile → Z;
  definition_length : NarrativeGraphDefinition → Z;
  role_byte_len : StoryRole → N;
  payload_bytes : KnowledgeEntry → N;
}.

Definition invalid_state : StoreError := Store_Serialization Ser_InvalidStoryState.
Definition invalid_turn : StoreError := Store_Serialization Ser_InvalidTurnResult.
Definition invalid_activation_state : StoreError := Store_Serialization Ser_InvalidWorldState.

(** The instance of a story with the pack it pins: the joins of the reads. *)
Definition story_instance_pack (story : StoryId) (db : Database) : option (StoryRow * InstanceRow * PackRow) :=
  s ← db_stories db !! story; i ← db_instances db !! story; p ← db_packs db !! row_pack_id i; Some (s, i, p).

(** ** [sqlite_snapshot.rs] *)

Definition projection_limit (items item_bytes overhead : N) : result StoreError N :=
  let limited o := ok_or o (Store_LimitExceeded "snapshot_projection") in
  let? product := limited (if (items * item_bytes <=? USIZE_MAX)%N then Some (items * item_bytes)%N else None) in
  limited (checked_add USIZE_MAX product overhead).
Definition ensure_projection_length (actual : Z) (maximum : N) (limit : string) : result StoreError unit :=
  fail_if (actual <? 0)%Z with invalid_state in
  fail_if (maximum <? Z.to_N actual)%N with Store_LimitExceeded limit in
  Ok tt.

Definition read_segment (limits : StoryContinuityLimits) (row : SegmentRow) : result StoreError StorySegment :=
  let? origin :=
    match row_segment_turn row with
    | None => if bool_decide (row_origin row = "opening") then Ok Origin_Opening else Err invalid_turn
    | Some number =>
        if bool_decide (row_origin row = "turn") then
          let? turn := map_err (λ _, invalid_turn) (TurnNumber_try_new (as_u64 number)) in Ok (Origin_Turn turn)
        else Err invalid_turn
    end in
  let? sequence := map_err (λ _, invalid_turn) (StorySequence_try_new (as_u64 (row_sequence row))) in
  let? text := map_err (λ _, Store_ConstraintViolation "max_recent_segment_bytes")
    (BoundedText_try_new (row_segment_text row) "recent_segment" (max_recent_segment_bytes limits)) in
  Ok {| seg_sequence := sequence; seg_origin := origin; seg_text := text |}.

(** [SELECT ... FROM story_segments WHERE story_id = ? AND sequence > ? ORDER BY sequence
    ASC LIMIT ?]: the index makes the sequences of a story distinct. *)
Definition segments_after (story : StoryId) (sequence : Z) (db : Database) : list SegmentRow :=
  sort_by (λ x y, Z.compare (row_sequence x) (row_sequence y))
    (List.filter (λ row, bool_decide (row_segment_story row = story) && (sequence <? row_sequence row)%Z)
       (values (db_segments db))).

Section snapshot.
Context `{StoredJson}.

Definition ensure_lengths (limits : SnapshotLimits) (s : StoryRow) (i : InstanceRow) : result StoreError unit :=
  let ensure actual maximum limit := let? m := maximum in ensure_projection_length actual m limit in
  let? _ := ensure (settings_length (row_settings i))
    (projection_limit (sl_max_instance_settings limits) (sl_max_instance_setting_bytes limits) 1024) "settings_json" in
  let? _ := ensure (roles_length (row_roles i))
    (projection_limit (sl_max_roles limits) (sl_max_role_bytes limits) 1024) "roles_json" in
  let? _ := ensure (relationships_length (row_relationships i))
    (projection_limit (sl_max_relationships limits) (sl_max_role_bytes limits) 1024) "relationships_json" in
  let? _ := ensure (narrative_state_length (row_narrative_state i))
    (projection_limit (sl_max_narrative_nodes limits) (sl_max_role_bytes limits) 1024) "narrative_state_json" in
  let? _ := ensure (fact_values_length (row_fact_values i))
    (projection_limit (sl_max_condition_fact_values limits) (sl_max_constraint_bytes limits) 1024) "fact_values_json" in
  let? _ := ensure (summary_length (row_story_summary s))
    (ok_or (checked_add USIZE_MAX (max_summary_bytes (sl_continuity limits)) 256) (Store_LimitExceeded "story_summary"))
    "story_summary" in
  ensure (constraints_length (row_active_constraints s))
    (projection_limit (sl_max_constraints limits) (sl_max_constraint_bytes limits) 1024) "active_constraints".
Definition ensure_pack_lengths (limits : SnapshotLimits) (p : PackRow) : result StoreError unit :=
  let? _ := ensure_projection_length (profile_length (row_story_profile p)) (sl_max_story_profile_bytes limits)
    "story_profile_json" in
  let? title := ok_or (row_pack_title p) invalid_state in
  let? _ := ensure_projection_length (Z.of_nat (length (chars title))) (sl_max_story_profile_bytes limits)
    "story_title" in
  let? maximum := projection_limit (sl_max_narrative_nodes limits) (sl_max_role_bytes limits) 1024 in
  ensure_projection_length (definition_length (row_narrative_definition p)) maximum "narrative_definition_json".

Definition load_continuity (story : StoryId) (limits : StoryContinuityLimits) (summary : StorySummary) (db : Database) :
    result StoreError StoryContinuity :=
  let? segment_limit := ok_or (checked_add USIZE_MAX (max_recent_segments limits) 1)
    (Store_LimitExceeded "max_recent_segments") in
  let? after := ok_or (try_i64 (default 0%N (summarized_through summary))) invalid_turn in
  let? limit := ok_or (try_i64 segment_limit) (Store_LimitExceeded "max_recent_segments") in
  let rows := take (Z.to_nat limit) (segments_after story after db) in
  fail_if (max_recent_segments limits <? nlen rows)%N with Store_LimitExceeded "max_recent_segments" in
  let? segments := traverse (read_segment limits) rows in
  map_err (λ _, Store_ConstraintViolation "story_continuity") (StoryContinuity_try_new summary segments limits).

Definition load_snapshot_parts (story : StoryId) (limits : SnapshotLimits) (db : Database) :
    result StoreError StoryReadSnapshotParts :=
  let? '(s, i) := ok_or (stored_state story db) Store_NotFound in
  let? _ := ensure_lengths limits s i in
  let? p := ok_or (db_packs db !! row_pack_id i) Store_NotFound in
  let? _ := ensure_pack_lengths limits p in
  let? title := ok_or (row_pack_title p) invalid_state in
  let? title := map_err (λ _, invalid_state) (BoundedText_try_new title "story_title" (sl_max_story_profile_bytes limits)) in
  fail_if is_blank title with invalid_state in
  let? digest := map_err (λ _, invalid_state) (Sha256Digest_try_new (row_pack_digest p)) in
  fail_if (sl_max_roles limits <? map_len (row_roles i))%N with Store_ConstraintViolation "max_roles" in
  fail_if existsb (λ role, sl_max_role_bytes limits <? role_byte_len role)%N (values (row_roles i))
  with Store_ConstraintViolation "max_role_bytes" in
  fail_if (sl_max_relationships limits <? nlen (row_relationships i))%N
  with Store_ConstraintViolation "max_relationships" in
  fail_if (sl_max_constraints limits <? nlen (row_active_constraints s))%N
  with Store_ConstraintViolation "max_constraints" in
  let? continuity := load_continuity story (sl_continuity limits) (row_story_summary s) db in
  let? version := map_err (λ _, invalid_state) (SemanticVersion_try_new (row_pack_version p)) in
  let base_revision := as_u64 (row_revision s) in
  Ok {|
    parts_story_id := story;
    parts_base_revision := base_revision;
    parts_pack := {| fsp_pack_id := row_pack_id i; fsp_pack_key := row_pack_key p; fsp_version := version;
                     fsp_digest := digest |};
    parts_story_title := title;
    parts_story_profile := row_story_profile p;
    parts_instance_settings := row_settings i;
    parts_roles := view_from_role <$> row_roles i;
    parts_relationships := row_relationships i;
    parts_narrative_definition := row_narrative_definition p;
    parts_narrative_state := row_narrative_state i;
    parts_fact_values := row_fact_values i;
    parts_story_continuity := continuity;
    parts_active_constraints := row_active_constraints s;
    parts_knowledge_snapshot := {|
      ks_story_id := story; ks_pack_digest := digest; ks_base_revision := base_revision;
      ks_knowledge_id_high_water := Z.to_N (row_knowledge_id_high_water i) |};
    parts_role_id_high_water := Z.to_N (row_role_id_high_water i);
  |}.
Definition load_story_snapshot (story : StoryId) (limits : SnapshotLimits) (db : Database) :
    result StoreError StoryReadSnapshot :=
  let? parts := load_snapshot_parts story limits db in
  map_err (λ _, Store_ConstraintViolation "story_snapshot") (try_from_snapshot_parts parts).
End snapshot.

(** ** [sqlite_knowledge_reader.rs] *)

(** [verify_snapshot] and [verify_activation_snapshot]: the snapshot is still current. *)
Definition verify_snapshot (invalid : StoreError) (snapshot : KnowledgeSnapshotRef) (db : Database) :
    result StoreError unit :=
  let? '(s, _, p) := ok_or (story_instance_pack (ks_story_id snapshot) db) Store_NotFound in
  let? revision := ok_or (try_u64 (row_revision s)) invalid in
  fail_if negb (revision =? ks_base_revision snapshot)%N
       || negb (bool_decide (row_pack_digest p = Sha256Digest_to_string (ks_pack_digest snapshot)))
  with Store_RevisionConflict in
  Ok tt.

Definition parse_kind (value : string) : result StoreError KnowledgeKind :=
  if bool_decide (value = "fact") then Ok Kind_Fact
  else if bool_decide (value = "rumor") then Ok Kind_Rumor
  else if bool_decide (value = "memory") then Ok Kind_Memory
  else Err invalid_state.
Definition make_source_id (kind : KnowledgeKind) (value : string) : result StoreError KnowledgeSourceId :=
  map_err (λ _, invalid_state) (try_from_parts kind value).

(** [SELECT ... WHERE story_id = ? AND ... ORDER BY source_id ASC LIMIT ?] *)
Definition select_knowledge (story : StoryId) (p : KnowledgeRowKey → KnowledgeRow → bool) (limit : Z) (db : Database) :
    list (KnowledgeRowKey * KnowledgeRow) :=
  take (Z.to_nat limit) (sort_by (λ x y, String.compare x.1.2 y.1.2)
    (List.filter (λ '(key, row), bool_decide (key.1.1 = story) && p key row) (entries (db_knowledge db)))).

Definition validate_filter (filter : KnowledgeFilter) : result StoreError unit :=
  let includes kind := bool_decide (kind ∈ kf_knowledge_kinds filter) in
  fail_if bool_decide (kf_knowledge_kinds filter = []) with Store_ConstraintViolation "knowledge_kinds_empty" in
  fail_if (kf_max_item_bytes filter =? 0)%N with Store_LimitExceeded "max_item_bytes" in
  match kf_delivery filter with
  | Delivery_Writer =>
      fail_if includes Kind_Memory with Store_ConstraintViolation "memory_forbidden_for_writer_delivery" in Ok tt
  | Delivery_Character _ =>
      fail_if includes Kind_Fact with Store_ConstraintViolation "fact_forbidden_for_character_delivery" in Ok tt
  end.
(** [push_authorization] *)
Definition authorized (filter : KnowledgeFilter) (key : KnowledgeRowKey) (row : KnowledgeRow) : bool :=
  match kf_delivery filter with
  | Delivery_Writer => true
  | Delivery_Character role_id =>
      negb (bool_decide (key.1.2 = "fact"))
      && (negb (bool_decide (key.1.2 = "memory")) || bool_decide (row_memory_owner row = Some role_id))
  end.

Section knowledge.
Context `{StoredJson}.

Definition materialize_row (max_item_bytes : N) (e : KnowledgeRowKey * KnowledgeRow) : result StoreError KnowledgeRecord :=
  let '((_, kind_raw, source_id_raw), row) := e in
  fail_if (max_item_bytes <? slen (row_content row))%N with Store_LimitExceeded "max_item_bytes" in
  let payload_error := Store_LimitExceeded "knowledge_payload_bytes" in
  let? payload_limit := ok_or (if (max_item_bytes * 4 <=? USIZE_MAX)%N
    then checked_add USIZE_MAX (max_item_bytes * 4) 4096 else None) payload_error in
  let payload := row_payload row in
  fail_if (payload_limit <? payload_bytes payload)%N with payload_error in
  let? kind := parse_kind kind_raw in
  let? memory_owner_role := match row_memory_owner row with
    | None => Ok None
    | Some raw => let? id := map_err (λ _, invalid_state) (RoleId_try_new raw) in Ok (Some id) end in
  fail_if negb (bool_decide (bool_decide (kind = Kind_Memory) = bool_decide (is_Some memory_owner_role)))
  with invalid_state in
  let? source_id := make_source_id kind source_id_raw in
  let? content := map_err (λ _, invalid_state) (BoundedText_try_new (row_content row) "knowledge_content" max_item_bytes) in
  let '(activation, activation_rule_version) := match payload with
    | Entry_Fact value => (Some (fact_activation value), Some (fact_activation_rule_version value))
    | Entry_Rumor value => (Some (rumor_activation value), Some (rumor_activation_rule_version value))
    | Entry_Memory _ => (None, None)
    end in
  fail_if (row_salience row <? 0)%Z || (255 <? row_salience row)%Z with invalid_state in
  let salience := Z.to_N (row_salience row) in
  fail_if negb (bool_decide (entry_source_id payload = source_id)) || negb (bool_decide (entry_kind payload = kind))
       || negb (bool_decide (entry_content payload = content)) || negb (entry_salience payload =? salience)%N
       || negb (bool_decide (entry_source payload = row_source row))
       || negb (bool_decide (memory_owner payload = memory_owner_role))
  with invalid_state in
  Ok {| kr_source_id := source_id; kr_kind := kind; kr_content := content; kr_salience := salience;
        kr_source := row_source row; kr_memory_owner := memory_owner_role; kr_activation := activation;
        kr_activation_rule_version := activation_rule_version |}.

Definition load_memories_by_owner (query : OwnerMemoryQuery) (db : Database) : result StoreError (list KnowledgeRecord) :=
  fail_if (omq_max_item_bytes query =? 0)%N with Store_LimitExceeded "max_item_bytes" in
  let? _ := verify_snapshot invalid_state (omq_snapshot query) db in
  if (omq_limit query =? 0)%N then Ok []
  else
    let? limit := ok_or (try_i64 (omq_limit query)) (Store_LimitExceeded "knowledge_limit") in
    traverse (materialize_row (omq_max_item_bytes query))
      (select_knowledge (ks_story_id (omq_snapshot query)) (λ key row, bool_decide (key.1.2 = "memory")
         && bool_decide (row_memory_owner row = Some (omq_owner query))) limit db).

Definition load_by_source_ids (query : SourceKnowledgeQuery) (db : Database) : result StoreError (list KnowledgeRecord) :=
  let filter := skq_filter query in
  let? _ := validate_filter filter in
  let? _ := verify_snapshot invalid_state (skq_snapshot query) db in
  if bool_decide (length (skq_source_ids query) = 0) || (skq_limit query =? 0)%N then Ok []
  else
    let? limit := ok_or (try_i64 (skq_limit query)) (Store_LimitExceeded "knowledge_limit") in
    traverse (materialize_row (kf_max_item_bytes filter))
      (select_knowledge (ks_story_id (skq_snapshot query)) (λ key row,
         existsb (λ kind, bool_decide (key.1.2 = knowledge_kind_str kind)) (kf_knowledge_kinds filter)
         && existsb (λ id, bool_decide (key.1.2 = knowledge_kind_str (sid_kind id)) && bool_decide (key.2 = sid_as_str id))
              (skq_source_ids query)
         && authorized filter key row) limit db).

Definition index_record (e : KnowledgeRowKey * KnowledgeRow) : result StoreError KnowledgeIndexRecord :=
  let '((_, kind_raw, source_id_raw), row) := e in
  let? kind := parse_kind kind_raw in
  fail_if bool_decide (kind = Kind_Memory) with invalid_state in
  let? hint := ok_or (row_retrieval_hint row) invalid_state in
  let? hint := map_err (λ _, invalid_state) (RetrievalHint_try_new hint) in
  let? source_id := make_source_id kind source_id_raw in
  Ok {| kir_source_id := source_id; kir_retrieval_hint := hint |}.
Definition load_index (query : KnowledgeIndexQuery) (db : Database) : result StoreError (list KnowledgeIndexRecord) :=
  let? _ := verify_snapshot invalid_state (kiq_snapshot query) db in
  let kinds := List.filter (λ kind, negb (bool_decide (kind = Kind_Memory))) (kiq_knowledge_kinds query) in
  if bool_decide (length kinds = 0) || (kiq_limit query =? 0)%N then Ok []
  else
    let? limit := ok_or (try_i64 (kiq_limit query)) (Store_LimitExceeded "knowledge_index_limit") in
    traverse index_record (select_knowledge (ks_story_id (kiq_snapshot query)) (λ key _,
      existsb (λ kind, bool_decide (key.1.2 = knowledge_kind_str kind)) kinds) limit db).
End knowledge.

(** ** [sqlite_activation.rs] *)

Section activation.
Context `{Sha256Bytes}.

(** The pack's entries take the first identifiers, facts before rumours, each kind in
    the order of its keys. *)
Definition pack_entry (assigned : KnowledgeSourceId * (Z * KnowledgeActivationRule)) :
    result StoreError (KnowledgeSourceId * ActivationEntryMetadata) :=
  let '(source_id, (salience, rule)) := assigned in
  fail_if (salience <? 0)%Z || (255 <? salience)%Z with invalid_activation_state in
  Ok (source_id, {| meta_source_id := source_id; meta_kind := sid_kind source_id; meta_rule := rule;
                    meta_rule_version := ActivationRuleVersion_from_rule rule; meta_salience := Z.to_N salience;
                    meta_from_pack := true |}).
Definition by_entry_key {A} : list (string * A) → list (string * A) := sort_by (λ x y, String.compare x.1 y.1).
Definition insert_metadata (m : gmap KnowledgeSourceId ActivationEntryMetadata) (e : KnowledgeSourceId * ActivationEntryMetadata) :
    gmap KnowledgeSourceId ActivationEntryMetadata := <[e.1 := e.2]> m.
Definition canonical_pack_entries (story : StoryId) (max_entries : N) (db : Database) :
    result StoreError (gmap KnowledgeSourceId ActivationEntryMetadata) :=
  let? fetch_limit := ok_or (checked_add USIZE_MAX max_entries 1) (Store_LimitExceeded "max_entries") in
  let? limit := ok_or (try_i64 fetch_limit) (Store_LimitExceeded "max_entries") in
  let rows := match i ← db_instances db !! story; db_packs db !! row_pack_id i with
    | None => []
    | Some p => map (λ e, (Kind_Fact, e.2)) (by_entry_key (row_world_facts p))
                ++ map (λ e, (Kind_Rumor, e.2)) (by_entry_key (row_world_rumors p))
    end in
  let rows := take (Z.to_nat limit) rows in
  fail_if (max_entries <? nlen rows)%N with Store_LimitExceeded "max_entries" in
  let? allocation := map_err (λ _, invalid_activation_state) (allocate_knowledge_ids 0%N (map fst rows)) in
  let? entries := traverse pack_entry (zip (ka_assigned allocation) (map snd rows)) in
  Ok (foldl insert_metadata ∅ entries).

(** One row of the entries that are not memories, with the count of overlay entries. *)
Definition index_entry (digest : Sha256Digest) (limits : ActivationIndexLimits)
    (s : gmap KnowledgeSourceId ActivationEntryMetadata * N) (e : KnowledgeRowKey * KnowledgeRow) :
    result StoreError (gmap KnowledgeSourceId ActivationEntryMetadata * N) :=
  let '((_, kind_raw, source_id_raw), row) := e in
  let? kind := if bool_decide (kind_raw = "fact") then Ok Kind_Fact
    else if bool_decide (kind_raw = "rumor") then Ok Kind_Rumor else Err invalid_activation_state in
  let? source_id := map_err (λ _, invalid_activation_state) (try_from_parts kind source_id_raw) in
  let? rule := ok_or (row_activation_rule row) Store_Unavailable in
  let? version := ok_or (row_activation_rule_version row) Store_Unavailable in
  let? rule_version := map_err (λ _, invalid_activation_state) (Sha256Digest_try_new version) in
  fail_if (row_salience row <? 0)%Z || (255 <? row_salience row)%Z with invalid_activation_state in
  let from_pack := match row_source row with
    | Source_Seed _ pack_digest => bool_decide (pack_digest = digest) | Source_CommittedTurn _ => false end in
  let overlay_entries := if from_pack then s.2 else sat_add USIZE_MAX s.2 1 in
  fail_if negb from_pack && (il_max_overlay_entries limits <? overlay_entries)%N
  with Store_LimitExceeded "max_overlay_entries" in
  Ok (insert_metadata s.1 (source_id, {| meta_source_id := source_id; meta_kind := kind; meta_rule := rule;
        meta_rule_version := rule_version; meta_salience := Z.to_N (row_salience row); meta_from_pack := from_pack |}),
      overlay_entries).

Definition sqlite_load_snapshot (knowledge : KnowledgeSnapshotRef) (limits : ActivationIndexLimits) (db : Database) :
    result StoreError ActivationIndexMetadata :=
  let story := ks_story_id knowledge in
  let? '(s, i, p) := ok_or (story_instance_pack story db) Store_NotFound in
  let? revision := ok_or (try_u64 (row_revision s)) invalid_activation_state in
  fail_if negb (revision =? ks_base_revision knowledge)%N
       || negb (bool_decide (row_pack_digest p = Sha256Digest_to_string (ks_pack_digest knowledge)))
  with Store_RevisionConflict in
  let? pack_entries := canonical_pack_entries story (il_max_entries limits) db in
  let rows := sort_by (λ x y : KnowledgeRowKey * KnowledgeRow, String.compare x.1.2 y.1.2)
    (List.filter (λ '(key, _), bool_decide (key.1.1 = story) && negb (bool_decide (key.1.2 = "memory")))
       (entries (db_knowledge db))) in
  fail_if (il_max_entries limits <? nlen rows)%N with Store_LimitExceeded "max_entries" in
  let? indexed := try_fold (index_entry (ks_pack_digest knowledge) limits) (∅, 0%N) rows in
  let? overlay_version := ok_or (try_u64 (row_activation_overlay_version i)) invalid_activation_state in
  Ok {| im_reference := ref_from_knowledge knowledge overlay_version MATCHER_VERSION;
        im_pack_entries := pack_entries; im_entries := indexed.1 |}.
End activation.

Definition read_timed (e : TimedRowKey * TimedRow) : result StoreError ActivationTimedState :=
  let '((_, source_id_raw), row) := e in
  let? kind := if String.prefix "fact_" source_id_raw then Ok Kind_Fact
    else if String.prefix "rumor_" source_id_raw then Ok Kind_Rumor
    else if String.prefix "memory_" source_id_raw then Ok Kind_Memory
    else Err invalid_activation_state in
  let? source_id := map_err (λ _, invalid_activation_state) (try_from_parts kind source_id_raw) in
  let? rule_version := map_err (λ _, invalid_activation_state) (Sha256Digest_try_new (row_rule_version row)) in
  let turn o := z ← o; match TurnNumber_try_new (as_u64 z) with Ok n => Some n | Err _ => None end in
  Ok {| ts_source_id := source_id; ts_rule_version := rule_version;
        sticky_through_turn := turn (row_sticky_through_turn row);
        cooldown_through_turn := turn (row_cooldown_through_turn row) |}.
Definition sqlite_load_timed_state (query : ActivationTimedStateQuery) (db : Database) :
    result StoreError (list ActivationTimedState) :=
  let limited {A} (o : option A) := ok_or o (Store_LimitExceeded "activation_timed_state") in
  let story := ks_story_id (tsq_snapshot query) in
  fail_if (tsq_limit query =? 0)%N with Store_LimitExceeded "activation_timed_state" in
  let? _ := verify_snapshot invalid_activation_state (tsq_snapshot query) db in
  let? fetch_limit := limited (checked_add USIZE_MAX (tsq_limit query) 1) in
  let? limit := limited (try_i64 fetch_limit) in
  let rows := take (Z.to_nat limit) (sort_by (λ x y : TimedRowKey * TimedRow, String.compare x.1.2 y.1.2)
    (List.filter (λ '(key, _), bool_decide (key.1 = story)) (entries (db_timed db)))) in
  fail_if (tsq_limit query <? nlen rows)%N with Store_LimitExceeded "activation_timed_state" in
  traverse read_timed rows.

(** ** [sqlite_story_history_reader.rs] *)

Record StoryHistoryQuery := { hq_after_sequence : option StorySequence; hq_limit : N }.
Record StoryTurnView := {
  tv_turn_number : TurnNumber;
  tv_sequence : StorySequence;
  tv_player_contribution : string;
  tv_story_text : string;
  tv_created_at : Z;
}.
Record StoryOpeningView := { ov_sequence : StorySequence; ov_story_text : string; ov_created_at : Z }.
Record StoryHistoryPage := {
  page_opening : option StoryOpeningView;
  page_turns : list StoryTurnView;
  next_after_sequence : option StorySequence;
}.

Definition read_sequence (z : Z) : result StoreError StorySequence :=
  let? n := ok_or (try_u64 z) invalid_turn in map_err (λ _, invalid_turn) (StorySequence_try_new n).
Definition read_opening (config : StoryHistoryConfig) (row : SegmentRow) : result StoreError StoryOpeningView :=
  fail_if (history_max_story_text_bytes config <? slen (row_segment_text row))%N
  with Store_LimitExceeded "max_story_text_bytes" in
  let? sequence := read_sequence (row_sequence row) in
  Ok {| ov_sequence := sequence; ov_story_text := row_segment_text row; ov_created_at := row_segment_created_at row |}.
Definition read_turn (config : StoryHistoryConfig) (e : TurnRowKey * TurnRow) : result StoreError StoryTurnView :=
  let '((_, number), row) := e in
  fail_if (history_max_player_contribution_bytes config <? slen (row_player_contribution row))%N
  with Store_LimitExceeded "max_player_contribution_bytes" in
  fail_if (history_max_story_text_bytes config <? slen (row_turn_text row))%N
  with Store_LimitExceeded "max_story_text_bytes" in
  let? n := ok_or (try_u64 number) invalid_turn in
  let? turn := map_err (λ _, invalid_turn) (TurnNumber_try_new n) in
  let? sequence := read_sequence (row_turn_sequence row) in
  Ok {| tv_turn_number := turn; tv_sequence := sequence; tv_player_contribution := row_player_contribution row;
        tv_story_text := row_turn_text row; tv_created_at := row_turn_created_at row |}.

(** [SELECT ... FROM story_turns WHERE story_id = ? AND sequence > ? ORDER BY sequence] *)
Definition turns_after (story : StoryId) (sequence : Z) (db : Database) : list (TurnRowKey * TurnRow) :=
  sort_by (λ x y, Z.compare (row_turn_sequence x.2) (row_turn_sequence y.2))
    (List.filter (λ '(key, row), bool_decide (key.1 = story) && (sequence <? row_turn_sequence row)%Z)
       (entries (db_turns db))).
Definition load_story_history (config : StoryHistoryConfig) (story : StoryId) (query : StoryHistoryQuery) (db : Database) :
    result StoreError StoryHistoryPage :=
  fail_if (hq_limit query =? 0)%N || (history_max_page_size config <? hq_limit query)%N
  with Store_LimitExceeded "story_history_page_size" in
  let limited {A} (o : option A) := ok_or o (Store_LimitExceeded "story_history_page_size") in
  let? fetch_limit := limited (checked_add USIZE_MAX (hq_limit query) 1) in
  let? opening :=
    match head (List.filter (λ row, bool_decide (row_segment_story row = story) && bool_decide (row_origin row = "opening"))
                  (values (db_segments db))) with
    | None => Ok None
    | Some row => let? view := read_opening config row in Ok (Some view)
    end in
  let? after := ok_or (try_i64 (default 0%N (hq_after_sequence query))) invalid_turn in
  let? limit := limited (try_i64 fetch_limit) in
  let rows := take (Z.to_nat limit) (turns_after story after db) in
  let has_more := (hq_limit query <? nlen rows)%N in
  let? turns := traverse (read_turn config) (take (N.to_nat (hq_limit query)) rows) in
  Ok {| page_opening := opening; page_turns := turns;
        next_after_sequence := if has_more then tv_sequence <$> last turns else None |}.
