(* ===== verification/AiseSqliteLog.v ===== *)
(** * The SQLite store of the crate [aise] as a log of turns

    What the store promises: a story is an opening and a list of committed turns, and
    every call reads that list, extends it by one turn, or leaves it alone.  The tables
    [stories], [story_turns] and [story_segments] are views of it: a commit touches each
    of them in one row, and the store refines the log.

    The pages of [load_story_history] ([sqlite_story_history_reader.rs]) over the log: a
    page is the next turns of the log, and a reader that follows [next_after_sequence]
    gets every turn once, in order. *)

From S2P Require Import Prelude Text AiseIds AiseRule AiseNarrative AiseStory AiseTurnData AiseExtraction AiseConfig.
From S2P Require Import AiseScan AisePorts AiseActivation AiseCoordination AiseBudget AiseValidation AiseContext.
From S2P Require Import AiseRuntime AiseSqlite AiseSqliteReads.
From stdpp Require Import relations.

(** ** The log *)

Record LogEntry := {
  le_key : IdempotencyKey;
  le_digest : RequestDigest;
  le_contribution : string;
  le_text : string;
  le_created_at : Z;
  le_usage : LlmUsageAggregate;
  le_calls : list LlmCallUsage;
}.
Record StoryLog := { sl_opening : string; sl_created_at : Z; sl_turns : list LogEntry }.
Notation Logs := (gmap StoryId StoryLog).

(** The result of the turn at a position: its number and its revision are the position. *)
Definition entry_result (i : nat) (e : LogEntry) : CommittedTurnResult := {|
  res_turn_number := N.of_nat (S i); res_story_revision := N.of_nat (S i); res_story_text := le_text e;
  res_llm_usage := le_usage e; res_llm_calls := le_calls e |}.
Definition append_turn (e : LogEntry) (l : StoryLog) : StoryLog :=
  {| sl_opening := sl_opening l; sl_created_at := sl_created_at l; sl_turns := sl_turns l ++ [e] |}.
(** The turn with a key, by its position. *)
Definition log_find (key : IdempotencyKey) (l : StoryLog) : option (nat * LogEntry) :=
  list_find (λ e, le_key e = key) (sl_turns l).
Definition logs_find (story : StoryId) (key : IdempotencyKey) (logs : Logs) : option StoredTurnOutcome :=
  l ← logs !! story;
  (λ '(i, e), {| sto_request_digest := le_digest e; sto_result := entry_result i e |}) <$> log_find key l.
Definition log_info (story : StoryId) (l : StoryLog) : StoryInfo := {|
  info_story_id := story; info_created_at_ms := sl_created_at l;
  info_base_revision := N.of_nat (length (sl_turns l)); info_last_committed_turn_number := N.of_nat (length (sl_turns l)) |}.

(** The entry a commit adds. *)
Definition commit_entry (commit : TurnCommitSpec) (usage : LlmUsageAggregate) : LogEntry := {|
  le_key := commit_idempotency_key commit; le_digest := commit_request_digest commit;
  le_contribution := turn_player_contribution (commit_turn_of commit);
  le_text := cs_story_text (commit_changes commit);
  le_created_at := turn_created_at (commit_turn_of commit);
  le_usage := usage; le_calls := commit_llm_calls commit |}.

(** ** Calls and what the specification lets them do *)

Inductive StoreCall :=
| Call_Create (spec : MaterializedStoryInstanceSpec)
| Call_Commit (commit : TurnCommitSpec)
| Call_Find (story : StoryId) (key : IdempotencyKey)
| Call_GetStory (story : StoryId)
| Call_ImportPack (new_id : PackId) (row : PackRow)
| Call_DeletePack (id : PackId).
Inductive StoreAnswer :=
| Answer_Created (r : result StoreError StoryInfo)
| Answer_Committed (r : result StoreError CommittedTurnResult)
| Answer_Found (r : result StoreError (option StoredTurnOutcome))
| Answer_Story (r : result StoreError (option StoryInfo))
| Answer_Imported (r : result StoreError PackId)
| Answer_Deleted (r : result StoreError bool).

Inductive log_step (logs : Logs) : StoreCall → Logs → StoreAnswer → Prop :=
| Step_Created spec :
    logs !! mat_story_id spec = None →
    let l := {| sl_opening := mat_opening spec; sl_created_at := mat_created_at_ms spec; sl_turns := [] |} in
    log_step logs (Call_Create spec) (<[mat_story_id spec := l]> logs)
      (Answer_Created (Ok (log_info (mat_story_id spec) l)))
| Step_CreateRefused spec e : log_step logs (Call_Create spec) logs (Answer_Created (Err e))
| Step_Unavailable commit : log_step logs (Call_Commit commit) logs (Answer_Committed (Err Store_Unavailable))
| Step_Replayed commit o :
    logs_find (commit_story_id commit) (commit_idempotency_key commit) logs = Some o →
    sto_request_digest o = commit_request_digest commit →
    log_step logs (Call_Commit commit) logs (Answer_Committed (Ok (sto_result o)))
| Step_KeyConflict commit o :
    logs_find (commit_story_id commit) (commit_idempotency_key commit) logs = Some o →
    sto_request_digest o ≠ commit_request_digest commit →
    log_step logs (Call_Commit commit) logs (Answer_Committed (Err Store_IdempotencyConflict))
| Step_NotFound commit :
    logs !! commit_story_id commit = None →
    log_step logs (Call_Commit commit) logs (Answer_Committed (Err Store_NotFound))
| Step_Conflict commit l :
    logs !! commit_story_id commit = Some l →
    logs_find (commit_story_id commit) (commit_idempotency_key commit) logs = None →
    commit_base_revision commit ≠ N.of_nat (length (sl_turns l))
    ∨ turn_number (commit_turn_of commit) ≠ N.of_nat (S (length (sl_turns l))) →
    log_step logs (Call_Commit commit) logs (Answer_Committed (Err Store_RevisionConflict))
| Step_Refused commit l e :
    logs !! commit_story_id commit = Some l →
    logs_find (commit_story_id commit) (commit_idempotency_key commit) logs = None →
    commit_base_revision commit = N.of_nat (length (sl_turns l)) →
    turn_number (commit_turn_of commit) = N.of_nat (S (length (sl_turns l))) →
    e ≠ Store_NotFound → e ≠ Store_IdempotencyConflict →
    log_step logs (Call_Commit commit) logs (Answer_Committed (Err e))
| Step_Committed commit l usage :
    logs !! commit_story_id commit = Some l →
    logs_find (commit_story_id commit) (commit_idempotency_key commit) logs = None →
    commit_base_revision commit = N.of_nat (length (sl_turns l)) →
    turn_number (commit_turn_of commit) = N.of_nat (S (length (sl_turns l))) →
    aggregate_llm_usage (commit_llm_calls commit) = Ok usage →
    let e := commit_entry commit usage in
    log_step logs (Call_Commit commit) (<[commit_story_id commit := append_turn e l]> logs)
      (Answer_Committed (Ok (entry_result (length (sl_turns l)) e)))
| Step_Found story key : log_step logs (Call_Find story key) logs (Answer_Found (Ok (logs_find story key logs)))
| Step_FindFailed story key : log_step logs (Call_Find story key) logs (Answer_Found (Err Store_Unavailable))
| Step_Story story : log_step logs (Call_GetStory story) logs (Answer_Story (Ok (log_info story <$> logs !! story)))
| Step_StoryFailed story : log_step logs (Call_GetStory story) logs (Answer_Story (Err Store_Unavailable))
| Step_Imported new_id row r : log_step logs (Call_ImportPack new_id row) logs (Answer_Imported r)
| Step_Deleted id r : log_step logs (Call_DeletePack id) logs (Answer_Deleted r).

Inductive log_run (logs : Logs) : list StoreCall → Logs → list StoreAnswer → Prop :=
| Run_Nil : log_run logs [] logs []
| Run_Cons call logs1 answer calls logs2 answers :
    log_step logs call logs1 answer → log_run logs1 calls logs2 answers →
    log_run logs (call :: calls) logs2 (answer :: answers).

(** ** What the store does with a call; [available] tells whether the database answers. *)

Definition answered {A} (available : bool) (a : A) : result StoreError A :=
  if available then Ok a else Err Store_Unavailable.
Definition sqlite_call (available : bool) (call : StoreCall) (db : Database) : Database * StoreAnswer :=
  match call with
  | Call_Create spec => let '(db, r) := create_story_instance available spec db in (db, Answer_Created r)
  | Call_Commit commit => let '(db, r) := sqlite_commit_turn available commit db in (db, Answer_Committed r)
  | Call_Find story key => (db, Answer_Found (answered available (sqlite_find_committed_turn story key db)))
  | Call_GetStory story => (db, Answer_Story (answered available (sqlite_get_story story db)))
  | Call_ImportPack new_id row => let '(db, r) := in_tx available db (import_pack new_id row db) in (db, Answer_Imported r)
  | Call_DeletePack id => let '(db, r) := in_tx available db (delete_pack id db) in (db, Answer_Deleted r)
  end.
Fixpoint sqlite_calls (calls : list (bool * StoreCall)) (db : Database) : Database * list StoreAnswer :=
  match calls with
  | [] => (db, [])
  | (available, call) :: calls =>
      let '(db, answer) := sqlite_call available call db in
      let '(db, answers) := sqlite_calls calls db in (db, answer :: answers)
  end.
Definition empty_database : Database := {|
  db_stories := ∅; db_instances := ∅; db_turns := ∅; db_segments := ∅; db_events := ∅; db_knowledge := ∅;
  db_timed := ∅; db_outbox := ∅; db_packs := ∅; db_character_cards := ∅ |}.

(** ** The tables that show the log *)

Definition turn_row (i : nat) (e : LogEntry) : TurnRow := {|
  row_player_contribution := le_contribution e; row_turn_text := le_text e; row_turn_created_at := le_created_at e;
  row_idempotency_key := le_key e; row_request_digest := le_digest e;
  row_base_revision := Z.of_nat i; row_committed_revision := Z.of_nat (S i);
  row_result := entry_result i e; row_turn_sequence := Z.of_nat (S (S i)) |}.
Definition opening_row (story : StoryId) (l : StoryLog) : SegmentRow := {|
  row_segment_story := story; row_sequence := 1; row_origin := "opening"; row_segment_turn := None;
  row_segment_text := sl_opening l; row_segment_created_at := sl_created_at l |}.
Definition segment_row (story : StoryId) (i : nat) (e : LogEntry) : SegmentRow := {|
  row_segment_story := story; row_sequence := Z.of_nat (S (S i)); row_origin := "turn";
  row_segment_turn := Some (Z.of_nat (S i)); row_segment_text := le_text e; row_segment_created_at := le_created_at e |}.
(** The segments of a story, with their identifiers. *)
Definition is_segment (story : StoryId) (l : StoryLog) (id : string) (row : SegmentRow) : Prop :=
  id = story +:+ ":opening" ∧ row = opening_row story l
  ∨ ∃ i e, sl_turns l !! i = Some e ∧ id = story +:+ ":turn:" +:+ pretty (N.of_nat (S i)) ∧ row = segment_row story i e.

Definition story_shows (l : StoryLog) (row : StoryRow) : Prop :=
  row_revision row = Z.of_nat (length (sl_turns l)) ∧ row_last_turn_number row = Z.of_nat (length (sl_turns l))
  ∧ row_created_at row = sl_created_at l.
Record represents (db : Database) (logs : Logs) : Prop := {
  rp_story : ∀ story l, logs !! story = Some l → ∃ row, db_stories db !! story = Some row ∧ story_shows l row;
  rp_stories : dom (db_stories db) = dom logs;
  rp_instances : dom (db_instances db) = dom logs;
  rp_turns : ∀ story number row, db_turns db !! (story, number) = Some row ↔
    ∃ l i e, logs !! story = Some l ∧ sl_turns l !! i = Some e ∧ number = Z.of_nat (S i) ∧ row = turn_row i e;
  rp_segments : ∀ id row, db_segments db !! id = Some row ↔ ∃ story l, logs !! story = Some l ∧ is_segment story l id row;
  rp_keys : ∀ story l, logs !! story = Some l → NoDup (le_key <$> sl_turns l);
  rp_bounds : ∀ story l, logs !! story = Some l → (N.of_nat (S (length (sl_turns l))) <= I64_MAX)%N;
}.

(** ** Statements and the tables of the log *)
Lemma taken_true `{Countable K} {V} (m : gmap K V) k : taken m k = true ↔ is_Some (m !! k).
Proof. unfold taken. apply bool_decide_eq_true. Qed.
Lemma taken_false `{Countable K} {V} (m : gmap K V) k : taken m k = false ↔ m !! k = None.
Proof. unfold taken. by rewrite bool_decide_eq_false, eq_None_not_Some. Qed.
Lemma some_row_false `{Countable K, KeyOrd K} {V} (p : K → V → bool) (m : gmap K V) :
  some_row p m = false ↔ ∀ k v, m !! k = Some v → p k v = false.
Proof.
  unfold some_row. rewrite <- not_true_iff_false, existsb_exists. split.
  - intros Hn k v Hv. apply not_true_iff_false. intros Hp. apply Hn. exists (k, v).
    split; [by apply list_elem_of_In, elem_of_entries|done].
  - intros Hall ([k v] & Hin & Hp). apply list_elem_of_In, elem_of_entries in Hin. by rewrite (Hall _ _ Hin) in Hp.
Qed.

Definition log_tables (db : Database) := (db_stories db, db_turns db, db_segments db, dom (db_instances db)).

(** What a statement leaves as it is. *)
Definition leaves {B} (view : Database → B) (f : Database → result StoreError Database) : Prop :=
  ∀ db db', f db = Ok db' → view db' = view db.
Ltac left_alone := intros ? ? ?; res_inv; done.
Lemma fold_leaves {A B} (view : Database → B) (f : Database → A → result StoreError Database) l :
  (∀ x, leaves view (λ db, f db x)) → leaves view (λ db, try_fold f db l).
Proof.
  intros Hf db db' Hr. revert Hr. apply (try_fold_inv (λ s, view s = view db)); [done|].
  intros s x s' _ <- Hs. by apply (Hf x s s').
Qed.
Lemma insert_event_leaves id row : leaves log_tables (insert_event id row).
Proof. unfold insert_event. left_alone. Qed.
Lemma insert_outbox_leaves id row : leaves log_tables (insert_outbox id row).
Proof. unfold insert_outbox. left_alone. Qed.
Lemma insert_knowledge_leaves key row : leaves log_tables (insert_knowledge key row).
Proof. unfold insert_knowledge. left_alone. Qed.
Lemma upsert_timed_leaves key row : leaves log_tables (upsert_timed key row).
Proof. unfold upsert_timed. left_alone. Qed.
Lemma persist_leaves story roles relationships ns k r : leaves log_tables (persist_instance_state story roles relationships ns k r).
Proof. unfold persist_instance_state. intros db db' Hp. res_inv. unfold log_tables. simpl. by rewrite dom_alter_L. Qed.
Lemma write_event_leaves story number e : leaves log_tables (λ db, write_event story number db e).
Proof. destruct e as [seq event]. intros db db'. unfold write_event. case_match; [done|]. apply insert_event_leaves. Qed.
Lemma knowledge_mutation_leaves story m : leaves log_tables (λ db, apply_knowledge_mutation story db m).
Proof.
  intros db db'. unfold apply_knowledge_mutation. destruct (operation m) as [entry|target value|target].
  - apply insert_knowledge_leaves.
  - case_match; [|done]. intros ?. res_inv. done.
  - intros ?. res_inv. done.
Qed.
Lemma activation_delta_leaves story delta : leaves log_tables (apply_activation_state_delta story delta).
Proof.
  intros db db' Hd. unfold apply_activation_state_delta in Hd. apply (fold_leaves log_tables) in Hd as ->; [done|].
  intros s db1 db2. unfold upsert_state. intros ?. res_step. repeat res_step. by eapply upsert_timed_leaves.
Qed.

(** What a commit that is written does to the tables of the log, and what they held. *)
Record commit_written (commit : TurnCommitSpec) (plan : CommitPlan) (db db' : Database) : Prop := {
  cw_number : (0 < as_i64 (turn_number (commit_turn_of commit)))%Z;
  cw_revision : (as_i64 (commit_base_revision commit) < as_i64 (plan_committed_revision plan))%Z;
  cw_new_turn : db_turns db !! (commit_story_id commit, as_i64 (turn_number (commit_turn_of commit))) = None;
  cw_new_key : ∀ n row, db_turns db !! (commit_story_id commit, n) = Some row →
    row_idempotency_key row ≠ commit_idempotency_key commit;
  cw_new_segment : db_segments db !! new_segment_id commit = None;
  cw_story : ∃ before after,
    db_stories db !! commit_story_id commit = Some before
    ∧ row_revision before = as_i64 (commit_base_revision commit)
    ∧ row_last_turn_number before = plan_stored_last_turn_number plan
    ∧ row_revision after = as_i64 (plan_committed_revision plan)
    ∧ row_last_turn_number after = as_i64 (turn_number (commit_turn_of commit))
    ∧ row_created_at after = row_created_at before
    ∧ db_stories db' = <[commit_story_id commit := after]> (db_stories db);
  cw_turns : db_turns db' = <[(commit_story_id commit, as_i64 (turn_number (commit_turn_of commit))) := new_turn commit plan]> (db_turns db);
  cw_segments : db_segments db' = <[new_segment_id commit := new_segment commit plan]> (db_segments db);
  cw_instances : dom (db_instances db') = dom (db_instances db);
}.

Lemma insert_turn_ok story number row db db' :
  insert_turn story number row db = Ok db' →
  (0 < number)%Z ∧ (row_base_revision row < row_committed_revision row)%Z ∧ db_turns db !! (story, number) = None
  ∧ (∀ n other, db_turns db !! (story, n) = Some other → row_idempotency_key other ≠ row_idempotency_key row)
  ∧ db' = set_db_turns <[(story, number) := row]> db.
Proof.
  unfold insert_turn. intros Hi. repeat (res_step; try done). subst.
  repeat match goal with H : (_ || _) = false |- _ => apply orb_false_iff in H as [? ?] end.
  split_and!; [lia|lia|by apply taken_false| |done].
  intros n other Ho Hk. match goal with H : some_row _ _ = false |- _ => eapply some_row_false in H; [|exact Ho] end.
  simpl in *. by rewrite !bool_decide_true in * by done.
Qed.
Lemma insert_segment_ok id row db db' :
  insert_segment id row db = Ok db' → db_segments db !! id = None ∧ db' = set_db_segments <[id := row]> db.
Proof. unfold insert_segment. intros Hi. repeat (res_step; try done). subst. split; [by apply taken_false|done]. Qed.

(** The steps of a commit after the rows of the turn. *)
Definition after_rows (commit : TurnCommitSpec) (plan : CommitPlan) (db : Database) : result StoreError Database :=
  let story := commit_story_id commit in
  let changes := commit_changes commit in
  let? db := try_fold (write_event story (turn_number (commit_turn_of commit))) db (imap pair (cs_narrative_events changes)) in
  let db := match cs_constraint_change changes with
    | Change_Unchanged => db
    | Change_Replace constraints => set_db_stories (alter (set_row_active_constraints (λ _, constraints)) story) db
    end in
  let? db := try_fold write_outbox db (commit_outbox commit) in
  let? db := try_fold (apply_knowledge_mutation story) db (cs_knowledge_mutations changes) in
  let db := if existsb knowledge_mutation_affects_activation (cs_knowledge_mutations changes)
    then set_db_instances (alter (set_row_activation_overlay_version (λ v, v + 1)%Z) story) db else db in
  let? db := apply_activation_state_delta story (commit_activation_state_delta commit) db in
  Ok (reconcile_activation_state story db).

Lemma write_commit_steps commit plan db :
  write_commit commit plan db =
  (let? db := persist_instance_state (commit_story_id commit) (plan_roles plan) (values (plan_relationships plan))
     (plan_narrative_state plan) (cs_knowledge_id_high_water (commit_changes commit))
     (cs_next_role_id_high_water (commit_changes commit)) db in
   let? db := insert_turn (commit_story_id commit) (as_i64 (turn_number (commit_turn_of commit))) (new_turn commit plan) db in
   let? db := insert_segment (new_segment_id commit) (new_segment commit plan) db in
   let? db := after_rows commit plan db in
   advance_story (commit_story_id commit) (as_i64 (commit_base_revision commit)) (plan_stored_last_turn_number plan)
     (as_i64 (plan_committed_revision plan)) (as_i64 (turn_number (commit_turn_of commit))) db).
Proof.
  unfold write_commit, after_rows.
  repeat match goal with |- match ?e with Ok _ => _ | Err _ => _ end = _ => destruct e; [|done] end. done.
Qed.
Lemma after_rows_shape commit plan db db' :
  after_rows commit plan db = Ok db' →
  ∃ change, log_tables db' = (alter (set_row_active_constraints change) (commit_story_id commit) (db_stories db),
                              db_turns db, db_segments db, dom (db_instances db)).
Proof.
  unfold after_rows. intros Ha. res_step. pose proof (fold_leaves log_tables _ _ (write_event_leaves _ _) _ _ Heqr) as He.
  set (d1 := match cs_constraint_change _ with Change_Unchanged => _ | _ => _ end) in Ha.
  res_step. pose proof (fold_leaves log_tables write_outbox _ (λ x, insert_outbox_leaves _ _) _ _ Heqr0) as Ho.
  res_step. pose proof (fold_leaves log_tables _ _ (knowledge_mutation_leaves _) _ _ Heqr1) as Hk.
  set (d2 := if existsb _ _ then _ else _) in Ha. res_step. apply activation_delta_leaves in Heqr2. injection Ha as <-.
  assert (∃ change, log_tables d1 = (alter (set_row_active_constraints change) (commit_story_id commit) (db_stories db),
                              db_turns db, db_segments db, dom (db_instances db))) as [change Hd1].
  { unfold log_tables in He. injection He as H1 H2 H3 H4. unfold d1. destruct (cs_constraint_change _) as [|constraints].
    - exists (λ c, c). unfold log_tables. rewrite H1, H2, H3, H4. do 3 f_equal. symmetry. apply map_eq. intros k.
      destruct (decide (k = commit_story_id commit)) as [->|Hne]; [|by rewrite lookup_alter_ne].
      rewrite lookup_alter_eq. by destruct (db_stories db !! _) as [[]|].
    - exists (λ _, constraints). unfold log_tables. simpl. by rewrite H1, H2, H3, H4. }
  exists change. rewrite <- Hd1, <- Ho, <- Hk. transitivity (log_tables d2); [exact Heqr2|].
  unfold d2. destruct (existsb _ _); [|done]. unfold log_tables. simpl. by rewrite dom_alter_L.
Qed.

Lemma write_commit_shape commit plan db db' : write_commit commit plan db = Ok db' → commit_written commit plan db db'.
Proof.
  rewrite write_commit_steps. intros Hw.
  res_step. apply persist_leaves in Heqr. injection Heqr as P1 P2 P3 P4.
  res_step. apply insert_turn_ok in Heqr as (T1 & T2 & T3 & T4 & ->). simpl in *.
  res_step. apply insert_segment_ok in Heqr as (G1 & ->). simpl in *.
  res_step. apply after_rows_shape in Heqr as [change Ha]. injection Ha as A1 A2 A3 A4. simpl in *.
  rewrite P1, P2, P3, P4 in *. unfold advance_story in Hw. res_step. rewrite A1, lookup_alter_eq in Hw.
  destruct (db_stories db !! _) as [before|] eqn:Hb; [|done]. simpl in Hw. res_step. injection Hw as <-.
  apply negb_false_iff, andb_true_iff in Heqb0 as [R1 R2]. split; simpl; [done..| |done|done|done].
  exists before, (set_row_revision (λ _, as_i64 (plan_committed_revision plan)) (set_row_last_turn_number
    (λ _, as_i64 (turn_number (commit_turn_of commit))) (set_row_active_constraints change before))).
  split_and!; [done|lia|lia|done|done|done|]. rewrite A1.
  apply map_eq. intros k. destruct (decide (k = commit_story_id commit)) as [->|Hne].
  - by rewrite !lookup_insert_eq.
  - by rewrite !lookup_insert_ne, lookup_alter_ne by done.
Qed.

(** ** The sequence of the next segment *)
Lemma fold_max_sequence story l m : 
  let f m row := if bool_decide (row_segment_story row = story) then Z.max m (row_sequence row) else m in
  (m <= foldl f m l)%Z
  ∧ (∀ row, row ∈ l → row_segment_story row = story → (row_sequence row <= foldl f m l)%Z)
  ∧ (foldl f m l = m ∨ ∃ row, row ∈ l ∧ row_segment_story row = story ∧ foldl f m l = row_sequence row).
Proof.
  revert m. induction l as [|x l IH]; intros m; simpl; [split_and!; [lia|by intros ? ?%not_elem_of_nil|by left]|].
  specialize (IH (if bool_decide (row_segment_story x = story) then Z.max m (row_sequence x) else m)) as (I1 & I2 & I3).
  split_and!.
  - etrans; [|exact I1]. case_bool_decide; lia.
  - intros row [->|Hin]%elem_of_cons Hs; [|by apply I2]. etrans; [|exact I1]. rewrite bool_decide_true by done. lia.
  - destruct I3 as [Hm|(row & Hin & Hs & Hm)]; [|right; exists row; set_solver].
    case_bool_decide as Hs; [|by left]. destruct (Z.max_spec m (row_sequence x)) as [[_ Hx]|[_ Hx]]; rewrite Hx in Hm at 2.
    + right. exists x. set_solver.
    + by left.
Qed.

Section log.
Context (db : Database) (logs : Logs) (Hrep : represents db logs).

Lemma segment_sequence story l id row :
  logs !! story = Some l → db_segments db !! id = Some row → row_segment_story row = story →
  (1 <= row_sequence row <= Z.of_nat (S (length (sl_turns l))))%Z.
Proof.
  intros Hl Hrow Hs. apply (rp_segments _ _ Hrep) in Hrow as (story' & l' & Hl' & Hseg).
  destruct Hseg as [[_ ->]|(i & e & Hi & _ & ->)]; simpl in *; subst story'; simplify_eq; [lia|].
  apply lookup_lt_Some in Hi. lia.
Qed.
Lemma last_segment story l :
  logs !! story = Some l →
  ∃ id row, db_segments db !! id = Some row ∧ row_segment_story row = story
    ∧ row_sequence row = Z.of_nat (S (length (sl_turns l))).
Proof.
  intros Hl. destruct (length (sl_turns l)) as [|n] eqn:Hn.
  - exists (story +:+ ":opening"), (opening_row story l). split; [|done]. apply (rp_segments _ _ Hrep).
    exists story, l. split; [done|by left].
  - destruct (lookup_lt_is_Some_2 (sl_turns l) n) as [e He]; [lia|].
    eexists _, (segment_row story n e). split; [|done]. apply (rp_segments _ _ Hrep).
    exists story, l. split; [done|]. right. by exists n, e.
Qed.
Lemma next_sequence story l :
  logs !! story = Some l →
  next_segment_sequence story db
  = if (9223372036854775807 <? Z.of_nat (S (S (length (sl_turns l)))))%Z then Err Store_Unavailable
    else Ok (Z.of_nat (S (S (length (sl_turns l))))).
Proof.
  intros Hl. unfold next_segment_sequence.
  pose proof (fold_max_sequence story (values (db_segments db)) 0) as (H1 & H2 & H3).
  set (f := foldl _ _ _) in *. assert (f = Z.of_nat (S (length (sl_turns l)))) as ->.
  { destruct (last_segment story l Hl) as (id & row & Hid & Hs & Hseq).
    assert (row_sequence row <= f)%Z by (apply H2; [apply elem_of_values; by exists id|done]).
    destruct H3 as [Hf|(row' & (id' & Hrow')%elem_of_values & Hs' & Hf)]; [lia|].
    pose proof (segment_sequence _ _ _ _ Hl Hrow' Hs'). lia. }
  replace (Z.of_nat (S (length (sl_turns l))) + 1)%Z with (Z.of_nat (S (S (length (sl_turns l))))) by lia.
  destruct (_ <? Z.of_nat _)%Z; [done|]. destruct (Z.leb_spec (Z.of_nat (S (S (length (sl_turns l))))) 0); [lia|done].
Qed.

(** ** Reading the log back *)
Lemma turn_with_key_log story key :
  turn_with_key story key db
  = (l ← logs !! story; (λ '(i, e), turn_row i e) <$> log_find key l).
Proof.
  unfold turn_with_key. destruct (head _) as [[[s n] row]|] eqn:Hh.
  - assert ((s, n, row) ∈ List.filter (λ '(k, row), bool_decide (k.1 = story) && bool_decide (row_idempotency_key row = key))
             (entries (db_turns db))) as Hin.
    { destruct (List.filter _ _) as [|x l]; [done|]. simpl in Hh. injection Hh as ->. left. }
    apply elem_of_list_filter_bool in Hin as [Hin%elem_of_entries Hp]. simpl in Hp.
    apply andb_true_iff in Hp as [Hs Hk]. apply bool_decide_eq_true in Hs, Hk. subst s.
    apply (rp_turns _ _ Hrep) in Hin as (l & i & e & Hl & He & -> & ->). rewrite Hl. simpl in *.
    assert (log_find key l = Some (i, e)) as ->; [|done].
    apply list_find_Some. split_and!; [done|done|]. intros j y Hj Hlt Hy.
    pose proof (rp_keys _ _ Hrep _ _ Hl) as Hnd. rewrite <- Hy in Hk.
    assert (j = i); [|lia]. eapply NoDup_lookup; [exact Hnd| |]; rewrite list_lookup_fmap.
    + by rewrite Hj.
    + rewrite He. simpl. by rewrite Hk.
  - simpl. symmetry. destruct (logs !! story) as [l|] eqn:Hl; [|done]. simpl.
    destruct (log_find key l) as [[i e]|] eqn:Hf; [|done]. exfalso.
    apply list_find_Some in Hf as (He & Hk & _).
    assert (db_turns db !! (story, Z.of_nat (S i)) = Some (turn_row i e)) as Hrow
      by (apply (rp_turns _ _ Hrep); by exists l, i, e).
    apply elem_of_entries in Hrow.
    assert ((story, Z.of_nat (S i), turn_row i e) ∈ List.filter
      (λ '(k, row), bool_decide (k.1 = story) && bool_decide (row_idempotency_key row = key)) (entries (db_turns db))) as Hin.
    { apply elem_of_list_filter_bool. split; [done|]. simpl. by rewrite !bool_decide_true by done. }
    destruct (List.filter _ _) as [|x xs]; [by apply not_elem_of_nil in Hin|done].
Qed.
End log.

(** ** Errors of a commit that got past its key and its story *)

Definition refusal (e : StoreError) : Prop := e ≠ Store_NotFound ∧ e ≠ Store_IdempotencyConflict.
Definition refuses {A} (r : result StoreError A) : Prop := ∀ e, r = Err e → refusal e.
Create HintDb refusals.
Lemma refuses_bind {A B} (r : result StoreError A) (k : A → result StoreError B) :
  refuses r → (∀ a, refuses (k a)) → refuses (match r with Ok a => k a | Err e => Err e end).
Proof. intros Hr Hk e. destruct r as [a|e']; [apply Hk|]. intros [= <-]. by apply Hr. Qed.
Lemma refuses_fold {A S} (f : S → A → result StoreError S) s l :
  (∀ s x, refuses (f s x)) → refuses (try_fold f s l).
Proof. intros Hf. revert s. induction l as [|x l IH]; intros s; simpl; [done|]. by apply refuses_bind. Qed.
Lemma refuses_ok_or {A} (o : option A) e : refusal e → refuses (ok_or o e).
Proof. intros He e'. destruct o; [done|]. by intros [= <-]. Qed.
Lemma refuses_err {A} e : refusal e → refuses (A:=A) (Err e).
Proof. by intros He ? [= <-]. Qed.
#[local] Hint Extern 1 (refusal _) => by split : refusals.
#[local] Hint Resolve refuses_fold refuses_ok_or refuses_err : refusals.
Ltac refuse :=
  repeat match goal with
  | |- refuses (match ?e with Ok _ => _ | Err _ => _ end) => apply refuses_bind; [|intros]
  | |- refuses (if ?b then _ else _) => destruct b
  | |- refuses (Ok _) => done
  | |- refuses (match ?e with _ => _ end) => destruct e
  end; eauto with refusals.

Lemma add_usage_refuses a call : refuses (add_usage a call).
Proof. unfold add_usage. refuse. Qed.
Lemma next_sequence_refuses story db : refuses (next_segment_sequence story db).
Proof. unfold next_segment_sequence. refuse. Qed.
Lemma apply_transition_refuses turn s t : refuses (apply_transition turn s t).
Proof. unfold apply_transition. refuse. Qed.
#[local] Hint Resolve add_usage_refuses next_sequence_refuses apply_transition_refuses : refusals.
Lemma resolved_state_refuses turn resolution s : refuses (resolved_state turn resolution s).
Proof. unfold resolved_state. refuse. Qed.
Lemma relationship_refuses m op : refuses (apply_relationship_operation m op).
Proof. unfold apply_relationship_operation. refuse. Qed.
Lemma add_new_role_refuses roles role : refuses (add_new_role roles role).
Proof. unfold add_new_role. refuse. Qed.
Lemma change_role_refuses roles change : refuses (change_role roles change).
Proof. unfold change_role. refuse. Qed.
Lemma usage_refuses calls : refuses (aggregate_llm_usage calls).
Proof. unfold aggregate_llm_usage. refuse. Qed.
Lemma insert_knowledge_refuses key row db : refuses (insert_knowledge key row db).
Proof. unfold insert_knowledge. refuse. Qed.
Lemma upsert_timed_refuses key row db : refuses (upsert_timed key row db).
Proof. unfold upsert_timed. refuse. Qed.
Lemma insert_event_refuses id row db : refuses (insert_event id row db).
Proof. unfold insert_event. refuse. Qed.
Lemma merge_refuses existing value : refuses (merge_knowledge_update existing value).
Proof. unfold merge_knowledge_update. refuse. Qed.
#[local] Hint Resolve resolved_state_refuses relationship_refuses add_new_role_refuses change_role_refuses usage_refuses
  insert_knowledge_refuses upsert_timed_refuses insert_event_refuses merge_refuses : refusals.
Lemma write_event_refuses story number db e : refuses (write_event story number db e).
Proof. unfold write_event. refuse. Qed.
Lemma write_outbox_refuses db record : refuses (write_outbox db record).
Proof. unfold write_outbox, insert_outbox. refuse. Qed.
Lemma mutation_refuses story db m : refuses (apply_knowledge_mutation story db m).
Proof. unfold apply_knowledge_mutation, insert_knowledge_entry. refuse. Qed.
Lemma upsert_state_refuses story db state : refuses (upsert_state story db state).
Proof. unfold upsert_state. refuse. Qed.
#[local] Hint Resolve write_event_refuses write_outbox_refuses mutation_refuses upsert_state_refuses : refusals.
Lemma write_commit_refuses commit plan db : refuses (write_commit commit plan db).
Proof.
  unfold write_commit, persist_instance_state, insert_turn, insert_segment, apply_activation_state_delta, advance_story.
  refuse.
Qed.

(** ** A commit refines the log *)
Lemma as_u64_nat n : (N.of_nat n <= I64_MAX)%N → as_u64 (Z.of_nat n) = N.of_nat n.
Proof. unfold as_u64, I64_MAX. intros Hn. rewrite Z.mod_small by lia. lia. Qed.
Lemma as_i64_small n : (n <= I64_MAX)%N → as_i64 n = Z.of_N n.
Proof. unfold as_i64. intros Hn. by destruct (N.leb_spec n I64_MAX); [|lia]. Qed.
Lemma as_i64_pos n : (n <= U64_MAX)%N → (0 < as_i64 n)%Z → (n <= I64_MAX)%N.
Proof. unfold as_i64, I64_MAX, U64_MAX. destruct (N.leb_spec n 9223372036854775807); lia. Qed.

Section commit.
Context (db : Database) (logs : Logs) (Hrep : represents db logs) (commit : TurnCommitSpec).
Let story := commit_story_id commit.

Lemma stored_state_some l :
  logs !! story = Some l → ∃ row instance, stored_state story db = Some (row, instance) ∧ story_shows l row.
Proof.
  intros Hl. destruct (rp_story _ _ Hrep _ _ Hl) as (row & Hrow & Hshows).
  assert (is_Some (db_instances db !! story)) as [instance Hi].
  { apply elem_of_dom. rewrite (rp_instances _ _ Hrep). by apply elem_of_dom_2 in Hl. }
  exists row, instance. split; [|done]. unfold stored_state. by rewrite Hrow, Hi.
Qed.
Lemma stored_state_none : logs !! story = None → stored_state story db = None.
Proof.
  intros Hl. unfold stored_state. destruct (db_stories db !! story) as [row|] eqn:Hrow; [|done].
  apply elem_of_dom_2 in Hrow. rewrite (rp_stories _ _ Hrep) in Hrow. apply elem_of_dom in Hrow as [l Hl'].
  by rewrite Hl in Hl'.
Qed.
Lemma find_log :
  turn_with_key story (commit_idempotency_key commit) db = None ↔
  logs_find story (commit_idempotency_key commit) logs = None.
Proof.
  rewrite (turn_with_key_log _ _ Hrep). unfold logs_find. destruct (logs !! story) as [l|]; [|done]. simpl.
  by destruct (log_find _ l) as [[i e]|].
Qed.

(** What the checks of a commit give: its plan, or the reason to refuse it. *)
Definition plan_fits (l : StoryLog) (plan : CommitPlan) : Prop :=
  ∃ usage, aggregate_llm_usage (commit_llm_calls commit) = Ok usage
  ∧ plan_result plan = entry_result (length (sl_turns l)) (commit_entry commit usage)
  ∧ plan_committed_revision plan = N.of_nat (S (length (sl_turns l)))
  ∧ plan_stored_last_turn_number plan = Z.of_nat (length (sl_turns l))
  ∧ plan_sequence plan = Z.of_nat (S (S (length (sl_turns l))))
  ∧ (N.of_nat (S (S (length (sl_turns l)))) <= I64_MAX)%N.
Lemma plan_commit_cases l :
  logs !! story = Some l →
  (plan_commit commit db = Err Store_RevisionConflict
   ∧ (commit_base_revision commit ≠ N.of_nat (length (sl_turns l))
      ∨ turn_number (commit_turn_of commit) ≠ N.of_nat (S (length (sl_turns l)))))
  ∨ (commit_base_revision commit = N.of_nat (length (sl_turns l))
     ∧ turn_number (commit_turn_of commit) = N.of_nat (S (length (sl_turns l)))
     ∧ match plan_commit commit db with Ok plan => plan_fits l plan | Err e => refusal e end).
Proof.
  intros Hl. pose proof (rp_bounds _ _ Hrep _ _ Hl) as Hb. set (n := length (sl_turns l)) in *.
  destruct (stored_state_some l Hl) as (row & instance & Hst & Hrev & Hlast & _). fold n in Hrev, Hlast.
  unfold plan_commit. fold story. rewrite Hst. cbn [ok_or]. rewrite Hrev, Hlast, !as_u64_nat by lia.
  rewrite !(proj2 (Z.ltb_ge (Z.of_nat n) 0)) by lia. simpl orb.
  destruct (N.eqb_spec (N.of_nat n) (commit_base_revision commit)) as [Hbase|Hbase]; cbn [negb];
    [|left; split; [done|left; by symmetry]].
  assert (checked_add U64_MAX (N.of_nat n) 1 = Some (N.of_nat (S n))) as Hadd.
  { unfold checked_add. destruct (N.leb_spec (N.of_nat n + 1) U64_MAX) as [_|Hle];
      [f_equal; lia|unfold U64_MAX, I64_MAX in *; lia]. }
  rewrite Hadd. cbn [ok_or].
  destruct (N.eqb_spec (N.of_nat (S n)) (turn_number (commit_turn_of commit))) as [Hnum|Hnum]; cbn [negb];
    [|left; split; [done|right; by symmetry]].
  right. split; [done|]. split; [done|]. rewrite <- Hbase, Hadd. cbn [ok_or].
  rewrite (next_sequence _ _ Hrep _ _ Hl). fold n.
  destruct (Z.ltb_spec 9223372036854775807 (Z.of_nat (S (S n)))) as [_|Hseq]; [done|].
  match goal with |- match ?r with Ok _ => _ | Err _ => _ end =>
    assert (refuses r) as Hr by refuse; destruct r as [plan|e] eqn:Hplan end; [|by apply Hr].
  repeat (res_step; try done). subst plan. eexists. split; [eassumption|]. simpl.
  split_and!; [|done..|unfold I64_MAX; lia]. unfold entry_result, commit_entry. simpl. by rewrite <- Hnum.
Qed.

Section written.
Context (l : StoryLog) (plan : CommitPlan) (db' : Database) (usage : LlmUsageAggregate).
Context (Hl : logs !! story = Some l) (Hw : commit_written commit plan db db').
Context (Hbase : commit_base_revision commit = N.of_nat (length (sl_turns l))).
Context (Hnumber : turn_number (commit_turn_of commit) = N.of_nat (S (length (sl_turns l)))).
Context (Hplan : plan_result plan = entry_result (length (sl_turns l)) (commit_entry commit usage)
  ∧ plan_committed_revision plan = N.of_nat (S (length (sl_turns l)))
  ∧ plan_sequence plan = Z.of_nat (S (S (length (sl_turns l))))
  ∧ (N.of_nat (S (S (length (sl_turns l)))) <= I64_MAX)%N).
Let e := commit_entry commit usage.
Let logs' := <[story := append_turn e l]> logs.

Lemma written_rows :
  as_i64 (turn_number (commit_turn_of commit)) = Z.of_nat (S (length (sl_turns l)))
  ∧ new_turn commit plan = turn_row (length (sl_turns l)) e
  ∧ new_segment commit plan = segment_row story (length (sl_turns l)) e
  ∧ new_segment_id commit = story +:+ ":turn:" +:+ pretty (N.of_nat (S (length (sl_turns l)))).
Proof.
  destruct Hplan as (Hr & Hc & Hs & Hb).
  assert (as_i64 (turn_number (commit_turn_of commit)) = Z.of_nat (S (length (sl_turns l)))) as Hn.
  { rewrite Hnumber, as_i64_small by lia. lia. }
  unfold new_turn, new_segment, new_segment_id, turn_row, segment_row.
  rewrite Hn, Hr, Hc, Hs, Hbase, Hnumber, !as_i64_small by lia. split; [done|]. split_and!; [|done..].
  unfold e. f_equal; simpl; lia.
Qed.
Lemma lookup_logs' s l' :
  logs' !! s = Some l' ↔ s = story ∧ l' = append_turn e l ∨ s ≠ story ∧ logs !! s = Some l'.
Proof. unfold logs'. rewrite lookup_insert_Some. naive_solver. Qed.
Lemma lookup_appended i x :
  sl_turns (append_turn e l) !! i = Some x ↔ sl_turns l !! i = Some x ∨ i = length (sl_turns l) ∧ x = e.
Proof.
  simpl. rewrite lookup_app_Some, list_lookup_singleton_Some. split.
  - intros [Hi|(Hge & Hi & ->)]; [by left|right; split; [lia|done]].
  - intros [Hi|(-> & ->)]; [by left|right; split_and!; [lia|lia|done]].
Qed.
Lemma written_turns s number row :
  db_turns db' !! (s, number) = Some row ↔
  ∃ l i e, logs' !! s = Some l ∧ sl_turns l !! i = Some e ∧ number = Z.of_nat (S i) ∧ row = turn_row i e.
Proof.
  destruct written_rows as (Hn & Ht & _). rewrite (cw_turns _ _ _ _ Hw), Hn, Ht, lookup_insert_Some, (rp_turns _ _ Hrep).
  fold story. setoid_rewrite lookup_logs'. split.
  - intros [[[= <- <-] <-]|[Hne (l' & i & x & Hl' & Hi & -> & ->)]].
    + eexists _, _, _. split; [by left|]. split; [by apply lookup_appended; right|done].
    + destruct (decide (s = story)) as [->|Hs]; [|by exists l', i, x; auto].
      rewrite Hl in Hl'. injection Hl' as <-. eexists _, i, x. split; [by left|]. split; [by apply lookup_appended; left|done].
  - intros (l' & i & x & [[-> ->]|[Hs Hl']] & Hi & -> & ->); [|right; split; [congruence|by exists l', i, x]].
    apply lookup_appended in Hi as [Hi|[-> ->]]; [|by left].
    right. split; [|by exists l, i, x]. apply lookup_lt_Some in Hi. intros [= Hii]. lia.
Qed.
Lemma is_segment_appended id row :
  is_segment story (append_turn e l) id row ↔
  is_segment story l id row ∨ id = new_segment_id commit ∧ row = new_segment commit plan.
Proof.
  destruct written_rows as (_ & _ & -> & ->). unfold is_segment. setoid_rewrite lookup_appended.
  change (opening_row story (append_turn e l)) with (opening_row story l). naive_solver.
Qed.
Lemma written_segments id row :
  db_segments db' !! id = Some row ↔ ∃ s l, logs' !! s = Some l ∧ is_segment s l id row.
Proof.
  rewrite (cw_segments _ _ _ _ Hw), lookup_insert_Some, (rp_segments _ _ Hrep). setoid_rewrite lookup_logs'. split.
  - intros [[<- <-]|[Hne (s & l' & Hl' & Hseg)]].
    + exists story, (append_turn e l). split; [by left|]. apply is_segment_appended. by right.
    + destruct (decide (s = story)) as [->|Hs]; [|exists s, l'; auto].
      rewrite Hl in Hl'. injection Hl' as <-. eexists story, _. split; [by left|]. apply is_segment_appended. by left.
  - intros (s & l' & Hl' & Hseg).
    assert ((∃ s l, logs !! s = Some l ∧ is_segment s l id row) ∨ id = new_segment_id commit ∧ row = new_segment commit plan)
      as [Hold|[-> ->]]; [|right|by left].
    { destruct Hl' as [[-> ->]|[Hs Hl']]; [|left; by exists s, l'].
      apply is_segment_appended in Hseg as [Hseg|Hseg]; [left; by exists story, l|by right]. }
    split; [|done]. intros <-. apply (rp_segments _ _ Hrep) in Hold. by rewrite (cw_new_segment _ _ _ _ Hw) in Hold.
Qed.
Lemma new_key_fresh : le_key e ∉ le_key <$> sl_turns l.
Proof.
  intros (x & Hk & [i Hi]%list_elem_of_lookup)%list_elem_of_fmap.
  assert (db_turns db !! (story, Z.of_nat (S i)) = Some (turn_row i x)) as Hrow
    by (apply (rp_turns _ _ Hrep); by exists l, i, x).
  by apply (cw_new_key _ _ _ _ Hw) in Hrow.
Qed.
Lemma commit_represents : represents db' logs'.
Proof.
  destruct written_rows as (Hn & _). destruct Hplan as (_ & Hc & _ & Hb).
  destruct (cw_story _ _ _ _ Hw) as (before & after & Hbefore & _ & _ & Hr & Hlast & Hcr & Hst). fold story in Hbefore, Hst.
  rewrite Hc, as_i64_small in Hr by lia. rewrite Hn in Hlast.
  destruct (rp_story _ _ Hrep _ _ Hl) as (row & Hrow & _ & _ & Hcreated). rewrite Hbefore in Hrow. injection Hrow as <-.
  split.
  - intros s l' [[-> ->]|[Hs Hl']]%lookup_logs'; rewrite Hst.
    + exists after. rewrite lookup_insert_eq. split; [done|]. split_and!; simpl; rewrite ?length_app; simpl; [lia|lia|congruence].
    + rewrite lookup_insert_ne by done. by apply (rp_story _ _ Hrep).
  - rewrite Hst. unfold logs'. by rewrite !dom_insert_L, (rp_stories _ _ Hrep).
  - rewrite (cw_instances _ _ _ _ Hw), (rp_instances _ _ Hrep). unfold logs'. rewrite dom_insert_L.
    apply elem_of_dom_2 in Hl. set_solver.
  - apply written_turns.
  - apply written_segments.
  - intros s l' [[-> ->]|[Hs Hl']]%lookup_logs'; [|by apply (rp_keys _ _ Hrep s)]. simpl. rewrite fmap_app.
    apply NoDup_app. split_and!; [by apply (rp_keys _ _ Hrep story)| |by apply NoDup_singleton].
    intros x Hx ->%list_elem_of_singleton. by apply new_key_fresh.
  - intros s l' [[-> ->]|[Hs Hl']]%lookup_logs'; [|by apply (rp_bounds _ _ Hrep s)]. simpl. rewrite length_app. simpl.
    replace (length (sl_turns l) + 1) with (S (length (sl_turns l))) by lia. exact Hb.
Qed.
End written.
End commit.

(** ** Creating a story refines the log *)

Definition fresh_log (spec : MaterializedStoryInstanceSpec) : StoryLog :=
  {| sl_opening := mat_opening spec; sl_created_at := mat_created_at_ms spec; sl_turns := [] |}.
Lemma create_shape spec db db' :
  create_in_tx spec db = Ok db' →
  db_stories db !! mat_story_id spec = None ∧ db_segments db !! (mat_story_id spec +:+ ":opening") = None
  ∧ ∃ row, story_shows (fresh_log spec) row
    ∧ log_tables db' = (<[mat_story_id spec := row]> (db_stories db), db_turns db,
        <[mat_story_id spec +:+ ":opening" := opening_row (mat_story_id spec) (fresh_log spec)]> (db_segments db),
        {[mat_story_id spec]} ∪ dom (db_instances db)).
Proof.
  unfold create_in_tx, insert_story, insert_instance. intros Hc. repeat (res_step; try done). subst.
  apply insert_segment_ok in Hc as [Hseg ->]. repeat match goal with H : taken _ _ = false |- _ => apply taken_false in H end.
  match goal with H : try_fold _ _ _ = Ok _ |- _ => apply (fold_leaves log_tables) in H as Hk; [|intros entry; apply insert_knowledge_leaves] end.
  unfold log_tables in Hk. simpl in Hk. injection Hk as K1 K2 K3 K4. rewrite K3 in Hseg.
  split; [done|]. split; [done|]. eexists. split; cycle 1.
  - unfold log_tables. simpl. by rewrite K1, K2, K3, K4, dom_insert_L.
  - by split_and!.
Qed.

Lemma create_represents db logs spec db' :
  represents db logs → create_in_tx spec db = Ok db' →
  logs !! mat_story_id spec = None ∧ represents db' (<[mat_story_id spec := fresh_log spec]> logs).
Proof.
  intros Hrep (Hs & Hseg & row & Hshows & Ht)%create_shape. injection Ht as T1 T2 T3 T4.
  assert (logs !! mat_story_id spec = None) as Hnew.
  { destruct (logs !! mat_story_id spec) as [l|] eqn:Hl; [|done].
    destruct (rp_story _ _ Hrep _ _ Hl) as (r & Hr & _). by rewrite Hs in Hr. }
  split; [done|]. split.
  - intros s l [[<- <-]|[Hne Hl]]%lookup_insert_Some; rewrite T1.
    + exists row. by rewrite lookup_insert_eq.
    + rewrite lookup_insert_ne by done. by apply (rp_story _ _ Hrep).
  - by rewrite T1, !dom_insert_L, (rp_stories _ _ Hrep).
  - by rewrite T4, dom_insert_L, (rp_instances _ _ Hrep).
  - intros s number r. rewrite T2, (rp_turns _ _ Hrep). split.
    + intros (l & i & e & Hl & Hi). exists l, i, e. split; [|done]. rewrite lookup_insert_ne; [done|]. intros <-.
      by rewrite Hnew in Hl.
    + intros (l & i & e & [[<- <-]|[Hne Hl]]%lookup_insert_Some & Hi); [by destruct Hi as [Hi _]|]. by exists l, i, e.
  - intros id r. rewrite T3, lookup_insert_Some, (rp_segments _ _ Hrep). split.
    + intros [[<- <-]|[Hne (s & l & Hl & Hsg)]].
      * exists (mat_story_id spec), (fresh_log spec). rewrite lookup_insert_eq. split; [done|by left].
      * exists s, l. split; [|done]. rewrite lookup_insert_ne; [done|]. intros <-. by rewrite Hnew in Hl.
    + intros (s & l & [[<- <-]|[Hne Hl]]%lookup_insert_Some & Hsg).
      * destruct Hsg as [[-> ->]|(i & e & Hi & _)]; [by left|done].
      * right. split; [|by exists s, l]. intros <-.
        assert (is_Some (db_segments db !! (mat_story_id spec +:+ ":opening"))) as [? Hx]; [|by rewrite Hseg in Hx].
        exists r. apply (rp_segments _ _ Hrep). by exists s, l.
  - intros s l [[<- <-]|[Hne Hl]]%lookup_insert_Some; [by constructor|by apply (rp_keys _ _ Hrep s)].
  - intros s l [[<- <-]|[Hne Hl]]%lookup_insert_Some; [done|by apply (rp_bounds _ _ Hrep s)].
Qed.

(** ** The refinement *)
Lemma represents_tables db db' logs : log_tables db' = log_tables db → represents db logs → represents db' logs.
Proof. intros [= E1 E2 E3 E4] []. split; rewrite ?E1, ?E2, ?E3, ?E4; done. Qed.

Lemma commit_refines available commit db logs db' r :
  represents db logs → sqlite_commit_turn available commit db = (db', r) →
  ∃ logs', log_step logs (Call_Commit commit) logs' (Answer_Committed r) ∧ represents db' logs'.
Proof.
  intros Hrep. unfold sqlite_commit_turn, in_tx. destruct available; cbn [negb];
    [|intros [= <- <-]; exists logs; split; [constructor|done]].
  unfold commit_in_tx. destruct (turn_with_key _ _ db) as [row|] eqn:Hkey.
  - rewrite (turn_with_key_log _ _ Hrep) in Hkey. destruct (logs !! commit_story_id commit) as [l|] eqn:Hl; [|done].
    simpl in Hkey. destruct (log_find _ l) as [[i e]|] eqn:Hf; [|done]. injection Hkey as <-.
    assert (logs_find (commit_story_id commit) (commit_idempotency_key commit) logs
            = Some {| sto_request_digest := le_digest e; sto_result := entry_result i e |}) as Ho.
    { unfold logs_find. rewrite Hl. simpl. by rewrite Hf. }
    simpl. case_bool_decide as Hd; simpl; intros [= <- <-]; exists logs; (split; [|done]).
    + by apply (Step_Replayed logs commit _ Ho).
    + by apply (Step_KeyConflict logs commit _ Ho).
  - apply (find_log _ _ Hrep) in Hkey. destruct (logs !! commit_story_id commit) as [l|] eqn:Hl; cycle 1.
    { unfold plan_commit. rewrite (stored_state_none _ _ Hrep) by done. intros [= <- <-]. exists logs. split; [|done].
      by apply Step_NotFound. }
    destruct (plan_commit_cases _ _ Hrep commit l Hl) as [[-> Hne]|(Hbase & Hnum & Hp)].
    { intros [= <- <-]. exists logs. split; [|done]. by eapply Step_Conflict. }
    destruct (plan_commit commit db) as [plan|e].
    + destruct (write_commit commit plan db) as [db1|e] eqn:Hw; intros [= <- <-].
      * destruct Hp as (usage & Hu & Hres & Hp1 & _ & Hp2 & Hp3). apply write_commit_shape in Hw.
        rewrite Hres. eexists. split; [by eapply Step_Committed|]. eapply commit_represents; [done..|by split_and!].
      * exists logs. split; [|done]. destruct (write_commit_refuses _ _ _ _ Hw). by eapply Step_Refused.
    + intros [= <- <-]. exists logs. split; [|done]. destruct Hp. by eapply Step_Refused.
Qed.

Lemma call_refines available call db logs db' answer :
  represents db logs → sqlite_call available call db = (db', answer) →
  ∃ logs', log_step logs call logs' answer ∧ represents db' logs'.
Proof.
  intros Hrep. destruct call as [spec|commit|story key|story|new_id row|id]; cbn [sqlite_call].
  - destruct (create_story_instance _ _ _) as [db1 r] eqn:Hc. intros [= <- <-].
    unfold create_story_instance, in_tx in Hc. destruct available; cbn [negb] in Hc;
      [|injection Hc as <- <-; exists logs; split; [constructor|done]].
    destruct (create_in_tx spec db) as [db2|e] eqn:Hi; injection Hc as <- <-; [|exists logs; split; [constructor|done]].
    destruct (create_represents _ _ _ _ Hrep Hi) as [Hnew Hrep']. eexists. split; [|exact Hrep'].
    exact (Step_Created logs spec Hnew).
  - destruct (sqlite_commit_turn _ _ _) as [db1 r] eqn:Hc. intros [= <- <-]. by eapply commit_refines.
  - intros [= <- <-]. exists logs. split; [|done]. destruct available; [|constructor].
    unfold answered, sqlite_find_committed_turn. rewrite (turn_with_key_log _ _ Hrep).
    assert (logs_find story key logs = (λ row, {| sto_request_digest := row_request_digest row; sto_result := row_result row |})
      <$> (l ← logs !! story; (λ '(i, e), turn_row i e) <$> log_find key l)) as <-; [|constructor].
    unfold logs_find. destruct (logs !! story) as [l|]; [|done]. simpl. by destruct (log_find key l) as [[i e]|].
  - intros [= <- <-]. exists logs. split; [|done]. destruct available; [|constructor].
    unfold answered, sqlite_get_story.
    assert (log_info story <$> logs !! story = (λ row, {| info_story_id := story; info_created_at_ms := row_created_at row;
      info_base_revision := as_u64 (row_revision row);
      info_last_committed_turn_number := as_u64 (row_last_turn_number row) |}) <$> db_stories db !! story) as <-; [|constructor].
    destruct (logs !! story) as [l|] eqn:Hl.
    + destruct (rp_story _ _ Hrep _ _ Hl) as (row & -> & Hr & Hn & Hc). simpl. unfold log_info.
      pose proof (rp_bounds _ _ Hrep _ _ Hl). by rewrite Hr, Hn, Hc, as_u64_nat by lia.
    + destruct (db_stories db !! story) as [row|] eqn:Hrow; [|done]. apply elem_of_dom_2 in Hrow.
      rewrite (rp_stories _ _ Hrep) in Hrow. apply elem_of_dom in Hrow as [l Hl']. by rewrite Hl in Hl'.
  - destruct (in_tx _ _ _) as [db1 r] eqn:Hi. intros [= <- <-]. exists logs. split; [constructor|].
    unfold in_tx in Hi. destruct available; cbn [negb] in Hi; [|by injection Hi as <- _].
    unfold import_pack, store_pack_row in Hi. destruct (List.filter _ _) as [|[existing ?] ?]; [|by injection Hi as <- _].
    repeat (case_match; simplify_eq; try done). by apply (represents_tables db).
  - destruct (in_tx _ _ _) as [db1 r] eqn:Hi. intros [= <- <-]. exists logs. split; [constructor|].
    unfold in_tx, delete_pack in Hi. destruct available; cbn [negb] in Hi; [|by injection Hi as <- _].
    repeat (case_match; simplify_eq; try done). by apply (represents_tables db).
Qed.

Lemma represents_empty : represents empty_database ∅.
Proof.
  split; [done|by rewrite !dom_empty_L|by rewrite !dom_empty_L| | |done|done].
  - intros story number row. simpl. rewrite lookup_empty. split; [done|]. intros (l & i & e & Hl & _). by rewrite lookup_empty in Hl.
  - intros id row. simpl. rewrite lookup_empty. split; [done|]. intros (s & l & Hl & _). by rewrite lookup_empty in Hl.
Qed.

(** C2: The SQLite store refines a log of turns: whatever calls it serves, over a database
    that may fail at any of them, each answers as the log allows and the tables of
    stories, turns and segments show the log that results.  So the revision of a story
    and the number of its last turn count its turns, every turn is found under its key
    and under no other, its segments are numbered without a gap, and a commit adds one
    turn, once per key, at the revision it was made for, or changes nothing. *)
Theorem sqlite_refines_log calls db logs db' answers :
  represents db logs → sqlite_calls calls db = (db', answers) →
  ∃ logs', log_run logs calls.*2 logs' answers ∧ represents db' logs'.
Proof.
  revert db logs db' answers. induction calls as [|[available call] calls IH]; intros db logs db' answers Hrep; simpl.
  - intros [= <- <-]. exists logs. split; [constructor|done].
  - destruct (sqlite_call available call db) as [db1 answer] eqn:Hc.
    destruct (sqlite_calls calls db1) as [db2 answers'] eqn:Hcs. intros [= <- <-].
    destruct (call_refines _ _ _ _ _ _ Hrep Hc) as (logs1 & Hstep & Hrep1).
    destruct (IH _ _ _ _ Hrep1 Hcs) as (logs2 & Hrun & Hrep2). exists logs2. split; [by econstructor|done].
Qed.

(** ** What a page shows of the log *)

Definition turn_view (i : nat) (e : LogEntry) : StoryTurnView := {|
  tv_turn_number := N.of_nat (S i); tv_sequence := N.of_nat (S (S i)); tv_player_contribution := le_contribution e;
  tv_story_text := le_text e; tv_created_at := le_created_at e |}.
Definition views_from (k : nat) (turns : list LogEntry) : list StoryTurnView := imap (λ j, turn_view (k + j)) turns.
Definition opening_view (l : StoryLog) : StoryOpeningView :=
  {| ov_sequence := 1%N; ov_story_text := sl_opening l; ov_created_at := sl_created_at l |}.
(** The texts of a story are within the limits of the reader. *)
Definition history_fits (config : StoryHistoryConfig) (l : StoryLog) : Prop :=
  (slen (sl_opening l) <= history_max_story_text_bytes config)%N
  ∧ Forall (λ e, (slen (le_contribution e) <= history_max_player_contribution_bytes config)%N
                 ∧ (slen (le_text e) <= history_max_story_text_bytes config)%N) (sl_turns l).
(** The turns that come after a sequence: the opening has the first. *)
Definition turns_before (after : option StorySequence) : nat := N.to_nat (default 0%N after - 1).
Definition log_page (l : StoryLog) (limit : nat) (after : option StorySequence) : StoryHistoryPage :=
  let k := turns_before after in
  let rest := drop k (sl_turns l) in
  {| page_opening := Some (opening_view l);
     page_turns := views_from k (take limit rest);
     next_after_sequence := if (limit <? length rest) then Some (N.of_nat (k + limit + 1)) else None |}.

(** ** Rows in the order of their sequence *)

Definition row_at (story : StoryId) (i : nat) (e : LogEntry) : TurnRowKey * TurnRow :=
  ((story, Z.of_nat (S i)), turn_row i e).
Definition rows_from (story : StoryId) (k : nat) (turns : list LogEntry) : list (TurnRowKey * TurnRow) :=
  imap (λ j, row_at story (k + j)) turns.
Definition earlier (x y : TurnRowKey * TurnRow) : Prop := (row_turn_sequence x.2 < row_turn_sequence y.2)%Z.

Lemma rows_later story k turns x : x ∈ rows_from story k turns → (Z.of_nat k < row_turn_sequence x.2 - 1)%Z.
Proof. intros (j & e & -> & _)%elem_of_lookup_imap. unfold row_at, turn_row. cbn [snd row_turn_sequence]. lia. Qed.
Lemma rows_sorted story k turns : StronglySorted earlier (rows_from story k turns).
Proof.
  revert k. induction turns as [|e turns IH]; intros k; [constructor|]. unfold rows_from. rewrite imap_shift.
  constructor; [apply IH|]. apply Forall_forall. intros x Hx%rows_later. unfold earlier, row_at, turn_row.
  cbn [snd row_turn_sequence]. lia.
Qed.

Section history.
Context (db : Database) (logs : Logs) (Hrep : represents db logs) (story : StoryId) (l : StoryLog).
Context (Hl : logs !! story = Some l).

Lemma elem_of_turns_after after x :
  x ∈ turns_after story after db ↔
  ∃ i e, sl_turns l !! i = Some e ∧ (after < Z.of_nat (S (S i)))%Z ∧ x = row_at story i e.
Proof.
  unfold turns_after. rewrite elem_of_sort_by, elem_of_list_filter_bool. destruct x as [[s n] row].
  rewrite elem_of_entries, andb_true_iff, bool_decide_eq_true, Z.ltb_lt. simpl. split.
  - intros [(l' & i & e & Hl' & Hi & -> & ->)%(rp_turns _ _ Hrep) [-> Hseq]].
    rewrite Hl in Hl'. injection Hl' as <-. by exists i, e.
  - intros (i & e & Hi & Hseq & [= -> -> ->]). split; [|done]. apply (rp_turns _ _ Hrep). by exists l, i, e.
Qed.
Lemma elem_of_rows_from k x :
  x ∈ rows_from story k (drop k (sl_turns l)) ↔ ∃ i e, sl_turns l !! i = Some e ∧ k ≤ i ∧ x = row_at story i e.
Proof.
  unfold rows_from. rewrite elem_of_lookup_imap. setoid_rewrite lookup_drop. split.
  - intros (j & e & -> & Hj). exists (k + j), e. split_and!; [done|lia|done].
  - intros (i & e & Hi & Hk & ->). exists (i - k), e. replace (k + (i - k)) with i by lia. done.
Qed.
Lemma turns_after_log after k :
  (after <= Z.of_nat (S k))%Z ∧ (k = 0 ∨ after = Z.of_nat (S k)) →
  turns_after story after db = rows_from story k (drop k (sl_turns l)).
Proof.
  intros Hk. set (R := λ x y : TurnRowKey * TurnRow, (row_turn_sequence x.2 <= row_turn_sequence y.2)%Z).
  apply (StronglySorted_unique_strong R).
  - intros x y (i & e & Hi & _ & ->)%elem_of_turns_after (j & e' & Hj & _ & ->)%elem_of_rows_from Hxy Hyx.
    unfold R, row_at, turn_row in *. cbn [snd row_turn_sequence] in *.
    assert (i = j) as -> by lia. by simplify_eq.
  - change (StronglySorted (le_by (λ x y : TurnRowKey * TurnRow, Z.compare (row_turn_sequence x.2) (row_turn_sequence y.2)))
      (turns_after story after db)).
    apply sort_by_StronglySorted; [intros x y; apply Z.compare_antisym|]. intros x y z. apply Z.le_trans.
  - eapply sorted_impl; [|apply rows_sorted]. intros x y. unfold earlier, R. lia.
  - apply NoDup_Permutation.
    + unfold turns_after. rewrite sort_by_perm. apply NoDup_list_filter, NoDup_entries.
    + eapply sorted_NoDup; [|apply rows_sorted]. intros x. unfold earlier. lia.
    + intros x. rewrite elem_of_turns_after, elem_of_rows_from.
      split; intros (i & e & Hi & Hc & ->); exists i, e; (split_and!; [done|lia|done]).
Qed.
End history.

(** ** A page *)

Section page.
Context (db : Database) (logs : Logs) (Hrep : represents db logs) (story : StoryId) (l : StoryLog).
Context (Hl : logs !! story = Some l) (config : StoryHistoryConfig) (Hfits : history_fits config l).

Lemma read_turn_log i e : sl_turns l !! i = Some e → read_turn config (row_at story i e) = Ok (turn_view i e).
Proof.
  intros Hi. destruct Hfits as [_ Hall]. rewrite Forall_lookup in Hall. apply Hall in Hi as Hfit. destruct Hfit as [Hc Ht].
  pose proof (rp_bounds _ _ Hrep _ _ Hl) as Hb. apply lookup_lt_Some in Hi. unfold read_turn, row_at, turn_row.
  cbn [row_player_contribution row_turn_text row_turn_sequence row_turn_created_at].
  rewrite !(proj2 (N.ltb_ge _ _)) by done. unfold read_sequence, try_u64.
  rewrite !(proj2 (Z.ltb_ge _ 0)) by lia. cbn [ok_or map_err]. unfold TurnNumber_try_new, StorySequence_try_new.
  rewrite !(proj2 (N.eqb_neq _ 0)), !(proj2 (N.ltb_ge _ _)) by lia. cbn [map_err]. unfold turn_view. do 2 f_equal; lia.
Qed.
Lemma read_rows_log k turns :
  (∀ j e, turns !! j = Some e → sl_turns l !! (k + j) = Some e) →
  traverse (read_turn config) (rows_from story k turns) = Ok (views_from k turns).
Proof.
  revert k. induction turns as [|e turns IH]; intros k Hk; [done|]. unfold rows_from, views_from. rewrite !imap_shift.
  cbn [traverse]. rewrite (read_turn_log k e) by (rewrite <- (Nat.add_0_r k); by apply Hk).
  unfold rows_from, views_from in IH. rewrite IH; [done|]. intros j x Hj. replace (S k + j) with (k + S j) by lia. by apply Hk.
Qed.
Lemma opening_log :
  head (List.filter (λ row, bool_decide (row_segment_story row = story) && bool_decide (row_origin row = "opening"))
          (values (db_segments db))) = Some (opening_row story l).
Proof.
  assert (∀ row, row ∈ List.filter (λ row, bool_decide (row_segment_story row = story) && bool_decide (row_origin row = "opening"))
                   (values (db_segments db)) ↔ row = opening_row story l) as Hall.
  { intros row. rewrite elem_of_list_filter_bool, elem_of_values, andb_true_iff, !bool_decide_eq_true.
    setoid_rewrite (rp_segments _ _ Hrep). split.
    - intros [(id & s & l' & Hl' & Hseg) [Hs Ho]].
      destruct Hseg as [[_ ->]|(i & e & _ & _ & ->)]; [|done]. simpl in Hs. subst s. by simplify_eq.
    - intros ->. split; [|done]. exists (story +:+ ":opening"), story, l. split; [done|by left]. }
  destruct (List.filter _ _) as [|x xs].
  - destruct (not_elem_of_nil (opening_row story l)). by apply Hall.
  - simpl. f_equal. apply Hall. left.
Qed.
Lemma take_rows_from k n turns : take n (rows_from story k turns) = rows_from story k (take n turns).
Proof.
  revert k n. induction turns as [|e turns IH]; intros k [|n]; [done..|]. cbn [take]. unfold rows_from.
  rewrite !imap_shift. cbn [take]. f_equal. apply IH.
Qed.
Lemma length_rows_from k turns : length (rows_from story k turns) = length turns.
Proof. apply length_imap. Qed.
Lemma last_view k turns : turns ≠ [] →
  tv_sequence <$> last (views_from k turns) = Some (N.of_nat (k + length turns + 1)).
Proof.
  intros Hne. unfold views_from. rewrite last_lookup, length_imap, list_lookup_imap.
  destruct turns as [|e turns]; [done|]. simpl length. simpl pred.
  destruct (lookup_lt_is_Some_2 (e :: turns) (length turns)) as [x Hx]; [simpl; lia|]. rewrite Hx. simpl. f_equal. lia.
Qed.

(** A page of the history is the opening and the next turns of the log, as many as
    asked for, with the number, sequence and texts of each, and it says where the next
    page starts exactly when turns are left. *)
Lemma history_page limit (after : option StorySequence) :
  (0 < limit)%N → (limit <= history_max_page_size config)%N → (limit + 1 <= I64_MAX)%N →
  (∀ a : StorySequence, after = Some a → 0 < a <= I64_MAX)%N →
  load_story_history config story {| hq_after_sequence := after; hq_limit := limit |} db
  = Ok (log_page l (N.to_nat limit) after).
Proof.
  intros H0 Hmax Hi64 Hafter. unfold load_story_history. cbn [hq_limit hq_after_sequence].
  destruct (N.eqb_spec limit 0) as [->|_]; [lia|]. destruct (N.ltb_spec (history_max_page_size config) limit); [lia|].
  simpl orb. cbv iota. unfold checked_add. rewrite (proj2 (N.leb_le (limit + 1) USIZE_MAX)) by (unfold USIZE_MAX, U64_MAX, I64_MAX in *; lia).
  cbn [ok_or]. rewrite opening_log. unfold read_opening. simpl row_segment_text. simpl row_sequence.
  rewrite (proj2 (N.ltb_ge _ _)) by apply Hfits. cbn -[I64_MAX try_i64 turns_after take drop N.mul N.add].
  set (a := default 0%N after). assert ((a <= I64_MAX)%N ∧ (a = 0 ∨ 0 < a)%N) as [Ha _].
  { unfold a. destruct after as [a'|]; simpl; [|unfold I64_MAX; lia]. specialize (Hafter a' eq_refl). lia. }
  unfold try_i64. rewrite !(proj2 (N.leb_le _ I64_MAX)) by lia. cbn [ok_or].
  set (k := turns_before after).
  assert (k = N.to_nat (a - 1)) as Hk by done.
  rewrite (turns_after_log _ _ Hrep _ _ Hl (Z.of_N a) k) by lia. rewrite !take_rows_from, take_take.
  replace (Z.to_nat (Z.of_N (limit + 1))) with (S (N.to_nat limit)) by lia. rewrite Nat.min_l by lia.
  set (n := N.to_nat limit). set (rest := drop k (sl_turns l)). rewrite read_rows_log; cycle 1.
  { intros j e [Hj _]%lookup_take_Some. unfold rest in Hj. by rewrite lookup_drop in Hj. }
  unfold log_page. fold k rest. do 2 f_equal. unfold nlen. rewrite length_rows_from, length_take.
  destruct (Nat.ltb_spec n (length rest)) as [Hlt|Hge].
  - rewrite (proj2 (N.ltb_lt _ _)) by lia. rewrite last_view.
    + rewrite length_take. do 2 f_equal. lia.
    + intros Hnil. apply (f_equal length) in Hnil. rewrite length_take in Hnil. simpl in Hnil. lia.
  - by rewrite (proj2 (N.ltb_ge _ _)) by lia.
Qed.

(** ** All pages *)

(** A reader that asks for the next page until there is none. *)
Fixpoint read_history (fuel : nat) (limit : N) (after : option StorySequence) : option (list StoryTurnView) :=
  match fuel with
  | O => None
  | S fuel =>
      match load_story_history config story {| hq_after_sequence := after; hq_limit := limit |} db with
      | Err _ => None
      | Ok page =>
          match next_after_sequence page with
          | None => Some (page_turns page)
          | Some next => app (page_turns page) <$> read_history fuel limit (Some next)
          end
      end
  end.
Lemma views_from_app k l1 l2 : views_from k (l1 ++ l2) = views_from k l1 ++ views_from (k + length l1) l2.
Proof. unfold views_from. rewrite imap_app. f_equal. apply imap_ext. intros i x _. simpl. f_equal. lia. Qed.
Lemma read_history_from fuel limit (after : option StorySequence) :
  (0 < limit)%N → (limit <= history_max_page_size config)%N → (limit + 1 <= I64_MAX)%N →
  (∀ a : StorySequence, after = Some a → 0 < a)%N → turns_before after ≤ length (sl_turns l) →
  length (sl_turns l) - turns_before after < fuel →
  read_history fuel limit after = Some (views_from (turns_before after) (drop (turns_before after) (sl_turns l))).
Proof.
  intros H0 Hmax Hi64. revert after. induction fuel as [|fuel IH]; intros after Hpos Hle Hfuel; [lia|].
  pose proof (rp_bounds _ _ Hrep _ _ Hl) as Hb. cbn [read_history].
  rewrite history_page; [|done..|]; cycle 1.
  { intros a ->. specialize (Hpos a eq_refl). unfold turns_before in Hle. simpl in Hle. lia. }
  unfold log_page. cbn [next_after_sequence page_turns]. set (k := turns_before after) in *. set (n := N.to_nat limit) in *.
  destruct (Nat.ltb_spec n (length (drop k (sl_turns l)))) as [Hlt|Hge]; [|by rewrite take_ge by lia].
  rewrite length_drop in Hlt. assert (turns_before (@Some StorySequence (N.of_nat (k + n + 1))) = k + n) as Hk'
    by (unfold turns_before; simpl; lia).
  assert (0 < n) as Hn by (unfold n; lia). set (next := N.of_nat (k + n + 1)) in *.
  assert (read_history fuel limit (@Some StorySequence next) = Some (views_from (k + n) (drop (k + n) (sl_turns l)))) as ->.
  { rewrite IH; rewrite ?Hk'; [done|intros ? [= <-]; unfold next; lia|lia|lia]. }
  simpl. f_equal.
  rewrite <- (take_drop n (drop k (sl_turns l))) at 2. rewrite views_from_app, length_take, length_drop, drop_drop.
  by rewrite Nat.min_l by lia.
Qed.

End page.
