(* ===== verification/AiseEngine.v ===== *)
(** * The engine of the crate [aise]

    [engine/service.rs] of [crates/aise/src/]: one turn of a story from the request of
    a caller to the terminal event.  The turn waits for the permit of its story, reads
    the story, answers from the store when the request was committed before, and
    otherwise runs.  The store and the coordinator are parameters; the coordinator is
    modelled on its own in [AiseCoordinator.v].  Spans are not modelled. *)

From S2P Require Import Prelude Text AiseIds AiseRule AiseNarrative AiseStory AiseTurnData AiseExtraction.
From S2P Require Import AiseConfig AiseScan AisePorts AiseActivation AiseCoordination AiseBudget AiseValidation AiseContext.
From S2P Require Import AiseRuntime.

(** What the engine asks of the world besides: the clock in milliseconds, the
    coordinator and the reads of the store. *)
Class EngineWorld `{TurnWorld} := {
  permit : Type;
  acquire : StoryId → N → TurnCancellation → world → world * result TurnExecutionError permit;
  release : permit → world → world;
  now_millis : world → world * Z;
  get_story : StoryId → world → world * result StoreError (option StoryInfo);
  find_committed_turn : StoryId → IdempotencyKey → world → world * result StoreError (option StoredTurnOutcome);
}.

Inductive TurnRunOutcome :=
| Outcome_Committed (r : CommittedTurnResult) (replayed : bool)
| Outcome_Failed (e : TurnExecutionError).

Definition turn_number_error_display (e : TurnNumberError) : string :=
  match e with
  | TurnNumber_Zero => "turn number must be non-zero"
  | TurnNumber_ExceedsSqliteRange => "turn number exceeds SQLite signed integer range"
  | TurnNumber_Overflow => "turn number overflow"
  end.
Definition candidate_turn_number (last_committed : N) : result TurnNumberError TurnNumber :=
  let? next := ok_or (checked_add U64_MAX last_committed 1) TurnNumber_Overflow in
  TurnNumber_try_new next.

Section engine.
Context `{RegexEngine} `{TurnJson} `{EngineWorld} `{Sha256Bytes}.

Record AiseEngine := { eng_runtime : TurnPipelineSet; eng_config : AiseConfig }.

(** The world, the events handed to the sink, and the context of the turn if there is one. *)
Record Session := { s_ctx : option TurnExecutionContext; s_world : world; s_events : list TurnEvent }.

(** [emit_terminal] *)
Definition terminal_event (ctx : option TurnExecutionContext) (failure : TurnExecutionError) : TurnEvent :=
  let turn_number := context_turn_number <$> ctx in
  match error_terminal_kind failure with
  | Terminal_Failed => Event_Failed turn_number (err_code failure)
  | Terminal_Cancelled => Event_Cancelled turn_number (err_code failure)
  | Terminal_Conflict => Event_Conflict turn_number (err_code failure)
  end.
(** [normalize_error] gives the error back. *)
Definition normalize_error (e : TurnExecutionError) : TurnExecutionError := e.
Definition mark_failure (failure : TurnExecutionError) (c : TurnExecutionContext) : TurnExecutionContext :=
  match match error_terminal_kind failure with
        | Terminal_Failed => mark_failed failure c
        | Terminal_Cancelled => mark_cancelled failure c
        | Terminal_Conflict => mark_conflict failure c
        end with
  | Ok c' => c' | Err _ => c
  end.
(** The permit is dropped last. *)
Definition finalize (r : result TurnExecutionError TurnRunOutcome) (p : option permit) (s : Session) :
    Session * TurnRunOutcome :=
  let drop w := from_option (λ p, release p w) w p in
  match r with
  | Ok (Outcome_Committed r replayed) =>
      ({| s_ctx := s_ctx s; s_world := drop (s_world s); s_events := s_events s ++ [Event_Committed r replayed] |},
       Outcome_Committed r replayed)
  | Ok (Outcome_Failed e) | Err e =>
      let failure := normalize_error e in
      let ctx := mark_failure failure <$> s_ctx s in
      ({| s_ctx := ctx; s_world := drop (s_world s); s_events := s_events s ++ [terminal_event ctx failure] |},
       Outcome_Failed failure)
  end.

Definition at_world (w : world) (s : Session) : Session :=
  {| s_ctx := s_ctx s; s_world := w; s_events := s_events s |}.

(** What the turn starts from when it must run. *)
Definition new_context (eng : AiseEngine) (v : ValidatedExecuteTurnSpec) (turn : TurnNumber) (created_at : Z)
    (deadline : N) (budget : TurnBudget) : result TurnExecutionError TurnExecutionContext :=
  TurnExecutionContext_new
    {| id_key := {| tk_story_id := valid_story_id v; tk_turn_number := turn |};
       id_idempotency_key := valid_idempotency_key v; id_started_at_ms := created_at |}
    (valid_request v) budget {| control_deadline := deadline; control_cancellation := valid_cancellation v |}.
Definition engine_budget (eng : AiseEngine) : result TurnExecutionError TurnBudget :=
  let config := eng_config eng in
  TurnBudget_from_config (cfg_turn config) (cfg_content config) (cfg_retrieval config) (cfg_state_extractor config)
    (cfg_narrative config) (cfg_activation config).

(** The run itself, from a session whose world is at hand. *)
Definition run_pipelines (eng : AiseEngine) (c : TurnExecutionContext) (s : Session) : Session * TurnRunOutcome :=
  let '(t, outcome) := run_inner (eng_runtime eng) {| t_ctx := c; t_world := s_world s; t_events := s_events s |} in
  let s := {| s_ctx := Some (t_ctx t); s_world := t_world t; s_events := t_events t |} in
  (s, match outcome with
      | Ok _ => match tc_committed_result (t_ctx t) with
                | Some r => Outcome_Committed r false
                | None => Outcome_Failed (error_invariant "committed turn missing committed result")
                end
      | Err e => Outcome_Failed e
      end).

(** [Duration::from_millis(turn_timeout_ms)] in nanoseconds. *)
Definition turn_timeout (eng : AiseEngine) : N := (turn_turn_timeout_ms (cfg_turn (eng_config eng)) * 1000000)%N.

Definition execute_turn_inner (eng : AiseEngine) (spec : ExecuteTurnSpec) (w : world) : Session * TurnRunOutcome :=
  let s := {| s_ctx := None; s_world := w; s_events := [] |} in
  match try_into_validated spec with
  | Err error =>
      finalize (Err (turn_error Kind_InvalidRequest "invalid_request" None (request_error_display error))) None s
  | Ok validated =>
      let story_id := valid_story_id validated in
      let '(w, now) := instant_now w in
      let deadline := (now + turn_timeout eng)%N in
      let '(w, permit_result) := acquire story_id deadline (valid_cancellation validated) w in
      match permit_result with
      | Err error => finalize (Err error) None (at_world w s)
      | Ok p =>
          let '(w, story_info_result) := get_story story_id w in
          match story_info_result with
          | Err error => finalize (Err (store_turn_error error)) (Some p) (at_world w s)
          | Ok None => finalize (Err (story_not_found story_id)) (Some p) (at_world w s)
          | Ok (Some story_info) =>
              let '(w, replay_result) := find_committed_turn story_id (valid_idempotency_key validated) w in
              match replay_result with
              | Err error => finalize (Err (store_turn_error error)) (Some p) (at_world w s)
              | Ok (Some stored) =>
                  if bool_decide (sto_request_digest stored = request_digest (valid_request validated))
                  then finalize (Ok (Outcome_Committed (sto_result stored) true)) (Some p) (at_world w s)
                  else finalize (Err (idempotency_conflict None)) (Some p) (at_world w s)
              | Ok None =>
                  match candidate_turn_number (info_last_committed_turn_number story_info) with
                  | Err error =>
                      finalize (Err (turn_error Kind_InvariantViolation "turn_number_allocation_failed" None
                                       (turn_number_error_display error))) (Some p) (at_world w s)
                  | Ok turn =>
                      match engine_budget eng with
                      | Err error => finalize (Err error) (Some p) (at_world w s)
                      | Ok budget =>
                          let '(w, created_at) := now_millis w in
                          match new_context eng validated turn created_at deadline budget with
                          | Err error => finalize (Err error) (Some p) (at_world w s)
                          | Ok c =>
                              let '(s, outcome) := run_pipelines eng c (at_world w s) in
                              finalize (Ok outcome) (Some p) s
                          end
                      end
                  end
              end
          end
      end
  end.
Definition execute_turn := execute_turn_inner.
Definition run_turn (eng : AiseEngine) (spec : ExecuteTurnSpec) (w : world) :
    Session * result TurnExecutionError CommittedTurnResult :=
  let '(s, outcome) := execute_turn eng spec w in
  (s, match outcome with Outcome_Committed r _ => Ok r | Outcome_Failed e => Err e end).
End engine.
