(* ===== verification/AiseCoordinator.v ===== *)
(** * One turn at a time for a story

    [runtime/story_turn_coordinator.rs] of [crates/aise/src/].  Its operations are the
    blocks that run without a suspension or under the lock of the map: the two halves
    of [acquire] around the wait for a permit, the three parts of dropping a permit,
    and the removal of idle entries.  A call of [acquire] is a task; the tasks of a
    program interleave these blocks, which the relation [coordinator_step] describes.
    The semaphore of the crate [tokio] is a parameter: [acquire_owned] takes a permit
    when there is one, and dropping the permit gives it back.  Instants and durations
    are numbers of nanoseconds; counters are unbounded.  The invariants hold of every
    interleaving of the tasks: how many wait, and who holds a story. *)

From S2P Require Import Prelude Text AiseIds AiseRule AiseNarrative AiseStory AiseTurnData AiseExtraction AiseConfig.
From S2P Require Import AiseBudget.
From stdpp Require Import relations.

(** [tokio::sync::Semaphore] *)
Class PermitSemaphore := {
  semaphore : Type;
  semaphore_new : N → semaphore;
  (** Takes a permit if one is available. *)
  semaphore_take : semaphore → option semaphore;
  semaphore_give : semaphore → semaphore;
}.

Section coordinator.
Context `{PermitSemaphore}.

(** An [Arc<Semaphore>] is the place of a semaphore in the heap of them. *)
Definition SemaphoreRef := nat.
Record StoryEntry := {
  se_semaphore : SemaphoreRef;
  se_waiters : N;
  se_idle_since : option N;
}.
Definition StoryEntry_new (r : SemaphoreRef) : StoryEntry := {| se_semaphore := r; se_waiters := 0; se_idle_since := None |}.

Record StoryTurnCoordinator := {
  co_stories : gmap StoryId StoryEntry;
  co_semaphores : list semaphore;
  co_max_waiters_per_story : N;
  co_max_total_waiters : N;
  co_idle_timeout : N;
  co_shutdown : bool;
  co_total_waiters : N;
  co_active_permits : N;
}.
Definition StoryTurnCoordinator_new (config : CoordinatorConfig) : StoryTurnCoordinator := {|
  co_stories := ∅;
  co_semaphores := [];
  co_max_waiters_per_story := coordinator_max_waiters_per_story config;
  co_max_total_waiters := coordinator_max_total_waiters config;
  co_idle_timeout := coordinator_idle_timeout_secs config * 1000000000;
  co_shutdown := false;
  co_total_waiters := 0;
  co_active_permits := 0;
|}.
Definition co_eta (r : StoryTurnCoordinator) : StoryTurnCoordinator := {|
  co_stories := co_stories r; co_semaphores := co_semaphores r; co_max_waiters_per_story := co_max_waiters_per_story r;
  co_max_total_waiters := co_max_total_waiters r; co_idle_timeout := co_idle_timeout r; co_shutdown := co_shutdown r;
  co_total_waiters := co_total_waiters r; co_active_permits := co_active_permits r;
|}.
Definition set_co_stories : (gmap StoryId StoryEntry → gmap StoryId StoryEntry) → StoryTurnCoordinator → StoryTurnCoordinator :=
  ltac:(set_field co_eta co_stories).
Definition set_co_semaphores : (list semaphore → list semaphore) → StoryTurnCoordinator → StoryTurnCoordinator :=
  ltac:(set_field co_eta co_semaphores).
Definition set_co_shutdown : (bool → bool) → StoryTurnCoordinator → StoryTurnCoordinator := ltac:(set_field co_eta co_shutdown).
Definition set_co_total_waiters : (N → N) → StoryTurnCoordinator → StoryTurnCoordinator :=
  ltac:(set_field co_eta co_total_waiters).
Definition set_co_active_permits : (N → N) → StoryTurnCoordinator → StoryTurnCoordinator :=
  ltac:(set_field co_eta co_active_permits).

Definition shutdown (c : StoryTurnCoordinator) : StoryTurnCoordinator := set_co_shutdown (λ _, true) c.
Definition entry_count (c : StoryTurnCoordinator) : N := map_len (co_stories c).

(** ** The map of entries, under its lock *)

Definition entry_kept (timeout now : N) (e : StoryEntry) : bool :=
  match se_idle_since e with Some since => (sat_sub now since <? timeout)%N | None => true end.
Definition reclaim (now : N) (c : StoryTurnCoordinator) : StoryTurnCoordinator :=
  set_co_stories (filter (λ '(_, e), entry_kept (co_idle_timeout c) now e)) c.
Definition reclaim_idle := reclaim.

Definition coordinator_invariant (message : string) : TurnExecutionError :=
  turn_error Kind_InvariantViolation "coordinator_invariant" None message.

(** The first half of [acquire]: a place among those who wait, and the semaphore to
    wait for.  The entries are reclaimed even when there is no place. *)
Definition enqueue (story_id : StoryId) (now : N) (c : StoryTurnCoordinator) :
    StoryTurnCoordinator * result TurnExecutionError SemaphoreRef :=
  if co_shutdown c then (c, Err (backpressure "story coordinator is shutting down"))
  else
    let c := reclaim now c in
    if (co_max_total_waiters c <=? co_total_waiters c)%N
    then (c, Err (backpressure "story coordinator waiter capacity exceeded"))
    else
      let '(c, e) := match co_stories c !! story_id with
        | Some e => (c, e)
        | None =>
            let e := StoryEntry_new (length (co_semaphores c)) in
            (set_co_semaphores (λ l, l ++ [semaphore_new 1]) (set_co_stories (<[story_id := e]>) c), e)
        end in
      if (co_max_waiters_per_story c <=? se_waiters e)%N
      then (c, Err (backpressure "story waiter capacity exceeded"))
      else
        let e := {| se_semaphore := se_semaphore e; se_waiters := se_waiters e + 1; se_idle_since := se_idle_since e |} in
        (set_co_total_waiters (λ n, n + 1)%N (set_co_stories (<[story_id := e]>) c), Ok (se_semaphore e)).

(** The second half, once the wait is over either way. *)
Definition settle_wait (story_id : StoryId) (c : StoryTurnCoordinator) : StoryTurnCoordinator :=
  set_co_total_waiters (λ n, sat_sub n 1)
    (set_co_stories (alter (λ e, {| se_semaphore := se_semaphore e; se_waiters := sat_sub (se_waiters e) 1;
                                   se_idle_since := None |}) story_id) c).
Definition count_permit (c : StoryTurnCoordinator) : StoryTurnCoordinator := set_co_active_permits (λ n, n + 1)%N c.

(** Before the wait: what [wait_for_permit] finds at once. *)
Definition wait_refused (is_cancelled : bool) (deadline now : N) : option TurnExecutionError :=
  if is_cancelled then Some (cancelled None)
  else if (deadline <=? now)%N then Some (deadline_exceeded None)
  else None.

(** [release], under the lock. *)
Definition release_entry (story_id : StoryId) (now : N) (c : StoryTurnCoordinator) : StoryTurnCoordinator :=
  reclaim now (set_co_stories (alter (λ e,
    if (se_waiters e =? 0)%N
    then {| se_semaphore := se_semaphore e; se_waiters := se_waiters e; se_idle_since := Some now |}
    else e) story_id) c).
Definition uncount_permit (c : StoryTurnCoordinator) : StoryTurnCoordinator := set_co_active_permits (λ n, sat_sub n 1) c.

(** A permit is taken from a semaphore, or given back to it. *)
Definition take_permit (r : SemaphoreRef) (c : StoryTurnCoordinator) : option StoryTurnCoordinator :=
  s ← co_semaphores c !! r; s' ← semaphore_take s; Some (set_co_semaphores (<[r := s']>) c).
Definition give_permit (r : SemaphoreRef) (c : StoryTurnCoordinator) : StoryTurnCoordinator :=
  set_co_semaphores (alter semaphore_give r) c.

(** ** Tasks *)

(** Where a call of [acquire], or the permit it returned, stands. *)
Inductive TaskState :=
| Task_Waiting (story_id : StoryId) (r : SemaphoreRef)
| Task_Granted (story_id : StoryId) (r : SemaphoreRef)
| Task_Refused (story_id : StoryId)
| Task_Settled (story_id : StoryId) (r : SemaphoreRef)
| Task_Holding (story_id : StoryId) (r : SemaphoreRef)
| Task_Dropping (story_id : StoryId)
| Task_Leaving (story_id : StoryId).

Record System := { sys_coordinator : StoryTurnCoordinator; sys_tasks : gmap nat TaskState; sys_now : N }.
Definition with_task (c : StoryTurnCoordinator) (t : nat) (st : option TaskState) (s : System) : System :=
  {| sys_coordinator := c; sys_tasks := partial_alter (λ _, st) t (sys_tasks s); sys_now := sys_now s |}.

Inductive coordinator_step (s : System) : System → Prop :=
| Step_Enqueue t story_id c r :
    sys_tasks s !! t = None →
    enqueue story_id (sys_now s) (sys_coordinator s) = (c, Ok r) →
    coordinator_step s (with_task c t (Some (Task_Waiting story_id r)) s)
| Step_Turned_away t story_id c e :
    sys_tasks s !! t = None →
    enqueue story_id (sys_now s) (sys_coordinator s) = (c, Err e) →
    coordinator_step s (with_task c t None s)
| Step_Grant t story_id r c :
    sys_tasks s !! t = Some (Task_Waiting story_id r) →
    take_permit r (sys_coordinator s) = Some c →
    coordinator_step s (with_task c t (Some (Task_Granted story_id r)) s)
| Step_Refuse t story_id r :
    (* cancelled, too late, or the coordinator is shutting down *)
    sys_tasks s !! t = Some (Task_Waiting story_id r) →
    coordinator_step s (with_task (sys_coordinator s) t (Some (Task_Refused story_id)) s)
| Step_Settle t story_id r :
    sys_tasks s !! t = Some (Task_Granted story_id r) →
    coordinator_step s (with_task (settle_wait story_id (sys_coordinator s)) t (Some (Task_Settled story_id r)) s)
| Step_Give_up t story_id :
    sys_tasks s !! t = Some (Task_Refused story_id) →
    coordinator_step s (with_task (settle_wait story_id (sys_coordinator s)) t None s)
| Step_Hold t story_id r :
    sys_tasks s !! t = Some (Task_Settled story_id r) →
    coordinator_step s (with_task (count_permit (sys_coordinator s)) t (Some (Task_Holding story_id r)) s)
| Step_Drop t story_id r :
    sys_tasks s !! t = Some (Task_Holding story_id r) →
    coordinator_step s (with_task (give_permit r (sys_coordinator s)) t (Some (Task_Dropping story_id)) s)
| Step_Uncount t story_id :
    sys_tasks s !! t = Some (Task_Dropping story_id) →
    coordinator_step s (with_task (uncount_permit (sys_coordinator s)) t (Some (Task_Leaving story_id)) s)
| Step_Leave t story_id :
    sys_tasks s !! t = Some (Task_Leaving story_id) →
    coordinator_step s (with_task (release_entry story_id (sys_now s) (sys_coordinator s)) t None s)
| Step_Reclaim_idle :
    coordinator_step s
      {| sys_coordinator := reclaim_idle (sys_now s) (sys_coordinator s); sys_tasks := sys_tasks s; sys_now := sys_now s |}
| Step_Shutdown :
    coordinator_step s
      {| sys_coordinator := shutdown (sys_coordinator s); sys_tasks := sys_tasks s; sys_now := sys_now s |}
| Step_Tick later :
    (sys_now s <= later)%N →
    coordinator_step s {| sys_coordinator := sys_coordinator s; sys_tasks := sys_tasks s; sys_now := later |}.

Definition system_start (config : CoordinatorConfig) (now : N) : System :=
  {| sys_coordinator := StoryTurnCoordinator_new config; sys_tasks := ∅; sys_now := now |}.
End coordinator.

(** What [tokio] documents of a semaphore. *)
Class LawfulSemaphore `{PermitSemaphore} := {
  available : semaphore → N;
  available_new n : available (semaphore_new n) = n;
  available_take s s' : semaphore_take s = Some s' → available s = (available s' + 1)%N;
  available_give s : available (semaphore_give s) = (available s + 1)%N;
}.

Section proofs.
Context `{LawfulSemaphore}.
Implicit Types (c : StoryTurnCoordinator) (s : System).

(** ** Counting tasks *)

Definition waits (st : TaskState) : bool :=
  match st with Task_Waiting _ _ | Task_Granted _ _ | Task_Refused _ => true | _ => false end.
Definition counted (st : TaskState) : bool := match st with Task_Holding _ _ | Task_Dropping _ => true | _ => false end.
(** The story and the semaphore whose permit a task has. *)
Definition permit_of (st : TaskState) : option (StoryId * SemaphoreRef) :=
  match st with Task_Granted i r | Task_Settled i r | Task_Holding i r => Some (i, r) | _ => None end.
Definition has_permit (r : SemaphoreRef) (st : TaskState) : bool := bool_decide (snd <$> permit_of st = Some r).
(** The semaphore a task waits for or has the permit of. *)
Definition uses (st : TaskState) : option (StoryId * SemaphoreRef) :=
  match st with Task_Waiting i r => Some (i, r) | _ => permit_of st end.

Definition indicator (f : TaskState → bool) (st : TaskState) : N := if f st then 1 else 0.
Definition count (f : TaskState → bool) (m : gmap nat TaskState) : N := map_sum (indicator f) m.

Lemma count_alter f m t o :
  (count f (partial_alter (λ _, o) t m) + from_option (indicator f) 0 (m !! t)
   = count f m + from_option (indicator f) 0 o)%N.
Proof.
  unfold count. destruct (m !! t) as [st|] eqn:Ht, o as [st'|]; cbn [from_option].
  - by apply map_sum_replace.
  - change (partial_alter (λ _, None) t m) with (delete t m). rewrite (map_sum_delete _ m t st Ht). lia.
  - change (partial_alter (λ _, Some st') t m) with (<[t:=st']> m). rewrite map_sum_insert by done. lia.
  - change (partial_alter (λ _, None) t m) with (delete t m). by rewrite delete_id.
Qed.
Lemma count_set f m t st o :
  m !! t = Some st → (count f (partial_alter (λ _, o) t m) + indicator f st = count f m + from_option (indicator f) 0 o)%N.
Proof. intros Ht. rewrite <- (count_alter f m t o), Ht. done. Qed.
Lemma count_new f m t o :
  m !! t = None → count f (partial_alter (λ _, o) t m) = (count f m + from_option (indicator f) 0 o)%N.
Proof. intros Ht. rewrite <- (count_alter f m t o), Ht. cbn. lia. Qed.
Lemma count_some f m t st : m !! t = Some st → f st = true → (1 <= count f m)%N.
Proof. intros Ht Hf. unfold count. rewrite (map_sum_delete _ m t st Ht). unfold indicator at 1. rewrite Hf. lia. Qed.
Lemma count_two f m t1 t2 st1 st2 :
  t1 ≠ t2 → m !! t1 = Some st1 → m !! t2 = Some st2 → f st1 = true → f st2 = true → (2 <= count f m)%N.
Proof.
  intros Hne H1 H2 Hf1 Hf2. unfold count. rewrite (map_sum_delete _ m t1 st1 H1). unfold indicator at 1. rewrite Hf1.
  pose proof (count_some f (delete t1 m) t2 st2) as Hc. rewrite lookup_delete_ne in Hc by done. specialize (Hc H2 Hf2).
  unfold count in Hc. lia.
Qed.
Lemma count_zero f m : (∀ t st, m !! t = Some st → f st = false) → count f m = 0%N.
Proof.
  intros Hf. unfold count. rewrite (map_sum_ext _ (λ _, 0%N)).
  - induction m as [|t st m Ht IH] using map_ind; [by rewrite map_sum_empty|]. rewrite map_sum_insert by done.
    rewrite IH; [done|]. intros t' st' Ht'. apply (Hf t'). rewrite lookup_insert_ne; [done|]. congruence.
  - intros t st Ht. unfold indicator. by rewrite (Hf t st Ht).
Qed.

(** ** The blocks, field by field *)
Lemma enqueue_ok i now c c' r :
  enqueue i now c = (c', Ok r) →
  (co_total_waiters c < co_max_total_waiters c)%N
  ∧ co_total_waiters c' = (co_total_waiters c + 1)%N ∧ co_max_total_waiters c' = co_max_total_waiters c
  ∧ co_max_waiters_per_story c' = co_max_waiters_per_story c ∧ co_idle_timeout c' = co_idle_timeout c
  ∧ co_active_permits c' = co_active_permits c
  ∧ ∃ e, (se_waiters e < co_max_waiters_per_story c)%N ∧ se_semaphore e = r
    ∧ co_stories c' = <[i := {| se_semaphore := r; se_waiters := se_waiters e + 1; se_idle_since := se_idle_since e |}]>
        (co_stories (reclaim now c))
    ∧ ((co_stories (reclaim now c) !! i = Some e ∧ co_semaphores c' = co_semaphores c)
       ∨ (co_stories (reclaim now c) !! i = None ∧ e = StoryEntry_new (length (co_semaphores c))
          ∧ co_semaphores c' = co_semaphores c ++ [semaphore_new 1])).
Proof.
  unfold enqueue. destruct (co_shutdown c); [done|].
  destruct (N.leb_spec (co_max_total_waiters (reclaim now c)) (co_total_waiters (reclaim now c))) as [|Hlt]; [done|].
  destruct (co_stories (reclaim now c) !! i) as [e|] eqn:He.
  - destruct (N.leb_spec (co_max_waiters_per_story (reclaim now c)) (se_waiters e)); [done|]. intros [= <- <-].
    split_and!; try done. exists e. split_and!; try done. by left.
  - match goal with |- context [(?m <=? ?w)%N] => destruct (N.leb_spec m w) end; [done|]. intros [= <- <-].
    split_and!; try done. eexists (StoryEntry_new _). split_and!; try done.
    + cbn. by rewrite insert_insert_eq.
    + by right.
Qed.
Lemma enqueue_err i now c c' e :
  enqueue i now c = (c', Err e) →
  co_total_waiters c' = co_total_waiters c ∧ co_max_total_waiters c' = co_max_total_waiters c
  ∧ co_max_waiters_per_story c' = co_max_waiters_per_story c ∧ co_idle_timeout c' = co_idle_timeout c
  ∧ co_active_permits c' = co_active_permits c
  ∧ (c' = c ∨ c' = reclaim now c
     ∨ co_stories (reclaim now c) !! i = None
       ∧ co_stories c' = <[i := StoryEntry_new (length (co_semaphores c))]> (co_stories (reclaim now c))
       ∧ co_semaphores c' = co_semaphores c ++ [semaphore_new 1]).
Proof.
  unfold enqueue. destruct (co_shutdown c); [intros [= <- _]; split_and!; auto|].
  destruct (_ <=? _)%N; [intros [= <- _]; split_and!; auto|].
  destruct (co_stories (reclaim now c) !! i) as [e'|] eqn:He.
  - destruct (_ <=? _)%N; [|done]. intros [= <- _]. split_and!; auto.
  - destruct (_ <=? _)%N; [|done]. intros [= <- _]. split_and!; auto.
Qed.
Lemma take_ok r c c' :
  take_permit r c = Some c' → ∃ x x', co_semaphores c !! r = Some x ∧ available x = (available x' + 1)%N
    ∧ c' = set_co_semaphores (<[r := x']>) c.
Proof.
  unfold take_permit. intros (s & Hs & (s' & Hs' & [= <-])%bind_Some)%bind_Some. exists s, s'.
  split_and!; [done|by apply available_take|done].
Qed.

(** ** How many wait and how many hold *)

Definition counts_ok s : Prop :=
  co_total_waiters (sys_coordinator s) = count waits (sys_tasks s)
  ∧ (co_total_waiters (sys_coordinator s) <= co_max_total_waiters (sys_coordinator s))%N
  ∧ co_active_permits (sys_coordinator s) = count counted (sys_tasks s).

(** What replacing one task does to the counts. *)
Ltac recount :=
  match goal with
  | Ht : sys_tasks ?s !! ?t = Some ?st |- context [partial_alter (λ _, ?o) ?t (sys_tasks ?s)] =>
      pose proof (count_set waits _ t st o Ht); pose proof (count_set counted _ t st o Ht)
  | Ht : sys_tasks ?s !! ?t = None |- context [partial_alter (λ _, ?o) ?t (sys_tasks ?s)] =>
      pose proof (count_new waits _ t o Ht); pose proof (count_new counted _ t o Ht)
  end; cbn in *.

Lemma counts_keep s s' : counts_ok s → coordinator_step s s' → counts_ok s'.
Proof.
  intros (Ht & Hm & Ha) Hs. unfold counts_ok. destruct Hs as
    [t i c r Htask He|t i c e Htask He|t i r c Htask Hc|t i r Htask|t i r Htask|t i Htask|t i r Htask|t i r Htask|t i Htask
    |t i Htask| | |]; try done; cbn [with_task sys_coordinator sys_tasks].
  - apply enqueue_ok in He as (Hlt & -> & -> & _ & _ & -> & _). recount. split_and!; lia.
  - apply enqueue_err in He as (-> & -> & _ & _ & -> & _). recount. split_and!; lia.
  - apply take_ok in Hc as (x & x' & _ & _ & ->). recount. split_and!; lia.
  - recount. split_and!; lia.
  - recount. unfold sat_sub. split_and!; lia.
  - recount. unfold sat_sub. split_and!; lia.
  - recount. split_and!; lia.
  - recount. split_and!; lia.
  - recount. unfold sat_sub. split_and!; lia.
  - recount. split_and!; lia.
Qed.
(** ** A semaphore has one permit *)

Definition permits_ok s : Prop :=
  (∀ r x, co_semaphores (sys_coordinator s) !! r = Some x → (available x + count (has_permit r) (sys_tasks s) = 1)%N)
  ∧ (∀ t st i r, sys_tasks s !! t = Some st → uses st = Some (i, r) → r < length (co_semaphores (sys_coordinator s)))
  ∧ (∀ i e, co_stories (sys_coordinator s) !! i = Some e → se_semaphore e < length (co_semaphores (sys_coordinator s))).

Lemma lookup_task t o s t' :
  sys_tasks (with_task (sys_coordinator s) t o s) !! t' = if decide (t = t') then o else sys_tasks s !! t'.
Proof.
  cbn. case_decide as Hd; [subst; by rewrite lookup_partial_alter_eq|by rewrite lookup_partial_alter_ne].
Qed.
Lemma permit_uses st i r : permit_of st = Some (i, r) → uses st = Some (i, r).
Proof. by destruct st. Qed.
Lemma has_permit_uses r st : has_permit r st = true → ∃ i, uses st = Some (i, r).
Proof.
  unfold has_permit. intros Hp%bool_decide_eq_true. destruct (permit_of st) as [[i r']|] eqn:Hs; [|done].
  injection Hp as <-. exists i. by apply permit_uses.
Qed.

Lemma permits_same s c t o :
  permits_ok s → co_semaphores c = co_semaphores (sys_coordinator s) →
  (∀ r, from_option (indicator (has_permit r)) 0%N o = from_option (indicator (has_permit r)) 0%N (sys_tasks s !! t)) →
  (∀ st i r, o = Some st → uses st = Some (i, r) → r < length (co_semaphores (sys_coordinator s))) →
  (∀ i e, co_stories c !! i = Some e → se_semaphore e < length (co_semaphores (sys_coordinator s))) →
  permits_ok (with_task c t o s).
Proof.
  intros (Hp & Hu & He) Hc Ho Hou Hce. unfold permits_ok. cbn [with_task sys_coordinator sys_tasks]. rewrite Hc.
  split_and!; [|intros t' st i r|done].
  - intros r x Hx. pose proof (count_alter (has_permit r) (sys_tasks s) t o) as Hcount. rewrite Ho in Hcount.
    specialize (Hp r x Hx). lia.
  - change (partial_alter (λ _, o) t (sys_tasks s)) with (sys_tasks (with_task (sys_coordinator s) t o s)).
    rewrite lookup_task. case_decide; [by apply Hou|apply Hu].
Qed.

Lemma reclaim_lookup now c i e :
  co_stories (reclaim now c) !! i = Some e ↔ co_stories c !! i = Some e ∧ entry_kept (co_idle_timeout c) now e = true.
Proof. cbn. rewrite map_lookup_filter_Some. cbn. by rewrite Is_true_true. Qed.
Lemma settle_lookup i j c e :
  co_stories (settle_wait i c) !! j = Some e → ∃ e', co_stories c !! j = Some e' ∧ se_semaphore e = se_semaphore e'.
Proof.
  cbn. destruct (decide (i = j)) as [->|Hne]; [rewrite lookup_alter_eq|rewrite lookup_alter_ne by done; by exists e].
  intros (e' & Hj & ->)%fmap_Some. by exists e'.
Qed.
Lemma release_lookup i now j c e :
  co_stories (release_entry i now c) !! j = Some e → ∃ e', co_stories c !! j = Some e' ∧ se_semaphore e = se_semaphore e'.
Proof.
  intros [Hj _]%reclaim_lookup. revert Hj. cbn.
  destruct (decide (i = j)) as [->|Hne]; [rewrite lookup_alter_eq|rewrite lookup_alter_ne by done; by exists e].
  intros (e' & Hj & ->)%fmap_Some. exists e'. split; [done|]. by destruct (se_waiters e' =? 0)%N.
Qed.

(** A new semaphore, which no task refers to yet. *)
Lemma permits_new s m :
  permits_ok s → ∀ r x, (co_semaphores (sys_coordinator s) ++ [semaphore_new 1]) !! r = Some x →
  count (has_permit r) m = count (has_permit r) (sys_tasks s) → (available x + count (has_permit r) m = 1)%N.
Proof.
  intros (Hp & Hu & _) r x Hx ->. apply lookup_app_Some in Hx as [Hx|[Hle Hx]]; [by apply Hp|].
  apply list_lookup_singleton_Some in Hx as [Hr <-]. rewrite available_new, count_zero; [done|].
  intros t st Ht. destruct (has_permit r st) eqn:Hpr; [|done]. apply has_permit_uses in Hpr as (i & Hi).
  specialize (Hu _ _ _ _ Ht Hi). lia.
Qed.

Lemma enqueue_keeps_permits t s c o :
  permits_ok s → sys_tasks s !! t = None → (∀ r, from_option (indicator (has_permit r)) 0%N o = 0%N) →
  (∀ st j r, o = Some st → uses st = Some (j, r) → r < length (co_semaphores c)) →
  (co_semaphores c = co_semaphores (sys_coordinator s)
   ∨ co_semaphores c = co_semaphores (sys_coordinator s) ++ [semaphore_new 1]) →
  (∀ j e, co_stories c !! j = Some e → se_semaphore e < length (co_semaphores c)) →
  permits_ok (with_task c t o s).
Proof.
  intros Hok Ht Ho Hu Hsem He. destruct Hsem as [Hsem|Hsem].
  - apply permits_same; [done|done| | |].
    + intros r. by rewrite Ht, Ho.
    + by rewrite <- Hsem.
    + by rewrite <- Hsem.
  - unfold permits_ok. cbn [with_task sys_coordinator sys_tasks]. split_and!; [| |done].
    + intros r x. rewrite Hsem. intros Hx. eapply permits_new; [done|done|]. rewrite count_new by done. rewrite Ho. lia.
    + intros t' st j r. change (partial_alter (λ _, o) t (sys_tasks s)) with (sys_tasks (with_task (sys_coordinator s) t o s)).
      rewrite lookup_task. case_decide; [by apply Hu|]. intros Ht' Hj. destruct Hok as (_ & Hold & _).
      specialize (Hold _ _ _ _ Ht' Hj). rewrite Hsem, length_app. lia.
Qed.

Lemma permits_moved s c t st o r x y :
  permits_ok s → sys_tasks s !! t = Some st → co_semaphores (sys_coordinator s) !! r = Some x →
  co_semaphores c = <[r := y]> (co_semaphores (sys_coordinator s)) → co_stories c = co_stories (sys_coordinator s) →
  (available y + indicator (has_permit r) o = available x + indicator (has_permit r) st)%N →
  (∀ r', r' ≠ r → has_permit r' o = has_permit r' st) → (∀ j r', uses o = Some (j, r') → r' = r) →
  permits_ok (with_task c t (Some o) s).
Proof.
  intros (Hp & Hu & He) Ht Hx Hc Hst Hr Hother Ho. unfold permits_ok. cbn [with_task sys_coordinator sys_tasks].
  rewrite Hc, Hst, length_insert. split_and!; [| |done].
  - intros r' z Hz. pose proof (count_set (has_permit r') _ t _ (Some o) Ht) as Hcount. cbn [from_option] in Hcount.
    destruct (decide (r = r')) as [->|Hne].
    + rewrite list_lookup_insert_eq in Hz by (by eapply lookup_lt_Some). injection Hz as <-. specialize (Hp _ _ Hx). lia.
    + rewrite list_lookup_insert_ne in Hz by done. specialize (Hp _ _ Hz). unfold indicator in Hcount.
      rewrite Hother in Hcount by done. lia.
  - intros t' st' j r'. change (partial_alter (λ _, Some o) t (sys_tasks s)) with (sys_tasks (with_task (sys_coordinator s) t (Some o) s)).
    rewrite lookup_task. case_decide; [|by apply Hu]. intros [= <-] Hj. apply Ho in Hj as ->. by eapply lookup_lt_Some.
Qed.
Lemma indicator_permit r i r' : has_permit r (Task_Granted i r') = bool_decide (r' = r).
Proof. unfold has_permit. cbn. apply bool_decide_ext. split; [by intros [= ->]|by intros ->]. Qed.

Lemma no_permit r st : permit_of st = None → has_permit r st = false.
Proof. unfold has_permit. by intros ->. Qed.

Lemma permits_keep s s' : permits_ok s → coordinator_step s s' → permits_ok s'.
Proof.
  intros Hok Hs. pose proof Hok as (Hp & Hu & He). destruct Hs as
    [t i c r Htask Hc|t i c e Htask Hc|t i r c Htask Hc|t i r Htask|t i r Htask|t i Htask|t i r Htask|t i r Htask|t i Htask
    |t i Htask| | |].
  - apply enqueue_ok in Hc as (_ & _ & _ & _ & _ & _ & e & _ & <- & Hst & Hcase).
    assert (∀ j e', co_stories c !! j = Some e' → se_semaphore e' < length (co_semaphores c)) as Hent.
    { intros j e'. rewrite Hst. destruct Hcase as [[Hi ->]|(_ & -> & ->)]; (destruct (decide (i = j)) as [->|Hne];
        [rewrite lookup_insert_eq; intros [= <-]|rewrite lookup_insert_ne by done; intros [Hj _]%reclaim_lookup]); cbn.
      - apply reclaim_lookup in Hi as [Hi _]. by apply (He j).
      - by apply (He j).
      - rewrite length_app. cbn. lia.
      - rewrite length_app. specialize (He _ _ Hj). lia. }
    apply (enqueue_keeps_permits t); try done.
    + intros st j r [= <-] [= <- <-]. specialize (Hent i). rewrite Hst, lookup_insert_eq in Hent. by specialize (Hent _ eq_refl).
    + destruct Hcase as [[_ ?]|(_ & _ & ?)]; auto.
  - apply enqueue_err in Hc as (_ & _ & _ & _ & _ & [->|[->|(Hn & Hst & Hsem)]]);
      [apply (enqueue_keeps_permits t)..|]; try done; [by left|by left| |].
    + intros j e' [Hj _]%reclaim_lookup. by apply (He j).
    + apply (enqueue_keeps_permits t); try done; [by right|]. intros j e'. rewrite Hst, Hsem, length_app.
      destruct (decide (i = j)) as [->|Hne]; [rewrite lookup_insert_eq; intros [= <-]; cbn; lia|].
      rewrite lookup_insert_ne by done. intros [Hj _]%reclaim_lookup. specialize (He _ _ Hj). lia.
  - apply take_ok in Hc as (x & x' & Hx & Hav & ->). eapply (permits_moved s _ t _ _ r x x'); try done.
    + unfold indicator. rewrite indicator_permit, bool_decide_true, no_permit by done. lia.
    + intros r' Hne. rewrite indicator_permit, bool_decide_false, no_permit by done. done.
    + by intros j r' [= _ ->].
  - apply permits_same; try done; [by rewrite Htask|]. by intros st j r' [= <-].
  - apply permits_same; try done; [by rewrite Htask| |].
    + intros st j r' [= <-] Hj. apply (Hu t _ _ _ Htask Hj).
    + intros j e (e' & Hj & ->)%settle_lookup. by apply (He j).
  - apply permits_same; try done; [by rewrite Htask|]. intros j e (e' & Hj & ->)%settle_lookup. by apply (He j).
  - apply permits_same; try done; [by rewrite Htask|]. intros st j r' [= <-] Hj. apply (Hu t _ _ _ Htask Hj).
  - destruct (lookup_lt_is_Some_2 _ _ (Hu t _ _ _ Htask eq_refl)) as [x Hx].
    eapply (permits_moved s _ t _ _ r x (semaphore_give x)); try done.
    + apply list_eq. intros r'. cbn. destruct (decide (r = r')) as [->|Hne].
      * rewrite list_lookup_alter_eq, Hx, list_lookup_insert_eq; [done|by eapply lookup_lt_Some].
      * by rewrite list_lookup_alter_ne, list_lookup_insert_ne.
    + unfold indicator. rewrite available_give. change (has_permit r (Task_Holding i r)) with (has_permit r (Task_Granted i r)).
      rewrite indicator_permit, bool_decide_true, no_permit by done. lia.
    + intros r' Hne. change (has_permit r' (Task_Holding i r)) with (has_permit r' (Task_Granted i r)).
      by rewrite indicator_permit, bool_decide_false, no_permit.
  - apply permits_same; try done; [by rewrite Htask|]. by intros st j r' [= <-].
  - apply permits_same; try done; [by rewrite Htask|]. intros j e (e' & Hj & ->)%release_lookup. by apply (He j).
  - split_and!; [done|done|]. intros j e [Hj _]%reclaim_lookup. by apply (He j).
  - done.
  - done.
Qed.
(** ** Entries *)

Section entries.
Context (start : N).

Definition entries_ok (now : N) c : Prop := ∀ i e, co_stories c !! i = Some e →
  (se_waiters e <= co_max_waiters_per_story c)%N ∧ ∀ since, se_idle_since e = Some since → (start <= since <= now)%N.
(** What a task waits for or holds is the semaphore of the entry of its story. *)
Definition current (m : gmap StoryId StoryEntry) (i : StoryId) (r : SemaphoreRef) : Prop :=
  ∃ e, m !! i = Some e ∧ se_semaphore e = r.
Definition timely s : Prop :=
  (start <= sys_now s)%N ∧ entries_ok (sys_now s) (sys_coordinator s)
  ∧ ((sys_now s < start + co_idle_timeout (sys_coordinator s))%N →
     ∀ t st i r, sys_tasks s !! t = Some st → uses st = Some (i, r) → current (co_stories (sys_coordinator s)) i r).

(** Before the first timeout has passed nothing is idle long enough to be removed. *)
Lemma reclaim_nothing now c i e :
  entries_ok now c → (start <= now < start + co_idle_timeout c)%N → co_stories c !! i = Some e →
  co_stories (reclaim now c) !! i = Some e.
Proof.
  intros Hok Hnow Hi. apply reclaim_lookup. split; [done|]. unfold entry_kept.
  destruct (se_idle_since e) as [since|] eqn:Hs; [|done]. apply N.ltb_lt. specialize (proj2 (Hok i e Hi) since Hs).
  unfold sat_sub. lia.
Qed.
Lemma reclaim_entries now c : entries_ok now c → entries_ok now (reclaim now c).
Proof. intros Hok i e [Hi _]%reclaim_lookup. apply (Hok i e Hi). Qed.

(** One entry is put in place of the former one of its story. *)
Lemma insert_entries now c c' i e :
  entries_ok now c → co_max_waiters_per_story c' = co_max_waiters_per_story c → co_stories c' = <[i := e]> (co_stories c) →
  (se_waiters e <= co_max_waiters_per_story c)%N → (∀ since, se_idle_since e = Some since → (start <= since <= now)%N) →
  entries_ok now c'.
Proof.
  intros Hok Hm Hst Hw Hs j e'. rewrite Hst, Hm. destruct (decide (i = j)) as [->|Hne].
  - rewrite lookup_insert_eq. by intros [= <-].
  - rewrite lookup_insert_ne by done. apply Hok.
Qed.
Lemma alter_entries now c i g :
  entries_ok now c →
  (∀ e, (se_waiters (g e) <= se_waiters e)%N ∧
        ∀ since, se_idle_since (g e) = Some since → se_idle_since e = Some since ∨ since = now) →
  (start <= now)%N → entries_ok now (set_co_stories (alter g i) c).
Proof.
  intros Hok Hg Hnow j e'. cbn. destruct (decide (i = j)) as [->|Hne].
  - rewrite lookup_alter_eq. intros (e & Hj & ->)%fmap_Some. destruct (Hok j e Hj) as [Hw Hs]. destruct (Hg e) as [Hgw Hgs].
    split; [cbn; lia|]. intros since [Hsi| ->]%Hgs; [by apply Hs|lia].
  - rewrite lookup_alter_ne by done. apply Hok.
Qed.
Lemma alter_current m i g j r :
  (∀ e, se_semaphore (g e) = se_semaphore e) → current m j r → current (alter g i m) j r.
Proof.
  intros Hg (e & Hj & <-). destruct (decide (i = j)) as [->|Hne].
  - exists (g e). rewrite lookup_alter_eq, Hj. by split.
  - exists e. by rewrite lookup_alter_ne.
Qed.
Lemma reclaim_current now c j r :
  entries_ok now c → (start <= now < start + co_idle_timeout c)%N → current (co_stories c) j r →
  current (co_stories (reclaim now c)) j r.
Proof. intros Hok Hnow (e & Hj & <-). exists e. by split; [apply reclaim_nothing|]. Qed.

(** A task changes, the others being as they were. *)
Lemma timely_task s c t o :
  timely s → co_idle_timeout c = co_idle_timeout (sys_coordinator s) → entries_ok (sys_now s) c →
  ((sys_now s < start + co_idle_timeout (sys_coordinator s))%N →
     (∀ j r, current (co_stories (sys_coordinator s)) j r → current (co_stories c) j r)
     ∧ ∀ st j r, o = Some st → uses st = Some (j, r) → current (co_stories c) j r) →
  timely (with_task c t o s).
Proof.
  intros (Hstart & _ & Hcur) Ht Hok Hc. split_and!; [done|done|]. cbn [with_task sys_now sys_coordinator sys_tasks].
  rewrite Ht. intros Hnow t' st j r. destruct (Hc Hnow) as [Hkeep Hnew].
  change (partial_alter (λ _, o) t (sys_tasks s)) with (sys_tasks (with_task (sys_coordinator s) t o s)).
  rewrite lookup_task. case_decide; [by apply Hnew|]. intros Ht' Hj. apply Hkeep. by eapply Hcur.
Qed.
Lemma insert_current m i e j r :
  (∀ e0, m !! i = Some e0 → se_semaphore e0 = se_semaphore e) → current m j r → current (<[i := e]> m) j r.
Proof.
  intros He (e' & Hj & <-). destruct (decide (i = j)) as [->|Hne].
  - exists e. rewrite lookup_insert_eq. split; [done|]. by rewrite (He e').
  - exists e'. by rewrite lookup_insert_ne.
Qed.

Lemma enqueue_timely s t i c r :
  timely s → enqueue i (sys_now s) (sys_coordinator s) = (c, Ok r) → timely (with_task c t (Some (Task_Waiting i r)) s).
Proof.
  intros Hok Hc. pose proof Hok as (Hstart & Hent & Hcur).
  apply enqueue_ok in Hc as (_ & _ & _ & Hm & Ht & _ & e & Hw & Hr & Hst & Hcase).
  apply timely_task; [done|done| |].
  - eapply insert_entries; [by apply reclaim_entries|done|exact Hst|cbn; lia|]. cbn.
    destruct Hcase as [[Hi _]|(_ & -> & _)]; [|done]. apply reclaim_lookup in Hi as [Hi _]. apply (Hent i e Hi).
  - intros Hnow. rewrite Hst. split.
    + intros j r' Hj. apply insert_current; [|by apply reclaim_current]. cbn [se_semaphore]. intros e0 He0.
      destruct Hcase as [[Hi _]|(Hn & _)]; congruence.
    + intros st j r' [= <-] [= <- <-]. eexists. by rewrite lookup_insert_eq.
Qed.
Lemma turned_away_timely s t i c e :
  timely s → enqueue i (sys_now s) (sys_coordinator s) = (c, Err e) → timely (with_task c t None s).
Proof.
  intros Hok Hc. pose proof Hok as (Hstart & Hent & Hcur).
  apply enqueue_err in Hc as (_ & _ & Hm & Ht & _ & [->|[->|(Hn & Hst & _)]]); (apply timely_task; [done|done| |]).
  - done.
  - intros _. split; [auto|done].
  - by apply reclaim_entries.
  - intros Hnow. split; [|done]. intros j r. by apply reclaim_current.
  - eapply insert_entries; [by apply reclaim_entries|done|exact Hst|cbn; lia|done].
  - intros Hnow. rewrite Hst. split; [|done]. intros j r Hj. apply insert_current; [|by apply reclaim_current].
    intros e0 He0. congruence.
Qed.
Lemma settle_timely s t i o :
  timely s → (∀ st j r, o = Some st → uses st = Some (j, r) → ∃ st', sys_tasks s !! t = Some st' ∧ uses st' = Some (j, r)) →
  timely (with_task (settle_wait i (sys_coordinator s)) t o s).
Proof.
  intros Hok Ho. pose proof Hok as (Hstart & Hent & Hcur). apply timely_task; [done|done| |].
  - eapply (alter_entries _ (sys_coordinator s)); [done| |done]. intros e. cbn. unfold sat_sub. split; [lia|done].
  - intros Hnow. assert (∀ j r, current (co_stories (sys_coordinator s)) j r →
      current (co_stories (settle_wait i (sys_coordinator s))) j r) as Hk by (intros j r; by apply alter_current).
    split; [done|]. intros st j r Hst Hu. apply Hk. destruct (Ho st j r Hst Hu) as (st' & Ht' & Hu'). by eapply Hcur.
Qed.
Lemma leave_timely s t i : timely s → timely (with_task (release_entry i (sys_now s) (sys_coordinator s)) t None s).
Proof.
  intros Hok. pose proof Hok as (Hstart & Hent & Hcur). unfold release_entry.
  match goal with |- context [reclaim _ ?x] => set (c := x) end.
  assert (entries_ok (sys_now s) c) as Hc.
  { apply alter_entries; [done| |done]. intros e. destruct (_ =? 0)%N; cbn; split; [lia| |lia|by left]. intros ? [= <-]. by right. }
  apply timely_task; [done|done|by apply reclaim_entries|]. intros Hnow. split; [|done]. intros j r Hj.
  apply reclaim_current; [done|done|]. apply alter_current; [|done]. intros e. by destruct (_ =? 0)%N.
Qed.

Lemma timely_keep s s' : timely s → coordinator_step s s' → timely s'.
Proof.
  intros Hok Hs. pose proof Hok as (Hstart & Hent & Hcur). destruct Hs as
    [t i c r Htask Hc|t i c e Htask Hc|t i r c Htask Hc|t i r Htask|t i r Htask|t i Htask|t i r Htask|t i r Htask|t i Htask
    |t i Htask| | |later Hlater].
  - by apply enqueue_timely.
  - by eapply turned_away_timely.
  - apply take_ok in Hc as (x & x' & _ & _ & ->). apply timely_task; [done..|]. intros Hnow. split; [done|].
    intros st j r' [= <-] [= <- <-]. by eapply Hcur.
  - apply timely_task; [done..|]. intros Hnow. split; [done|]. by intros st j r' [= <-].
  - apply settle_timely; [done|]. intros st j r' [= <-] Hu. by exists (Task_Granted i r).
  - by apply settle_timely.
  - apply timely_task; [done..|]. intros Hnow. split; [done|]. intros st j r' [= <-] [= <- <-]. by eapply Hcur.
  - apply timely_task; [done..|]. intros Hnow. split; [done|]. by intros st j r' [= <-].
  - apply timely_task; [done..|]. intros Hnow. split; [done|]. by intros st j r' [= <-].
  - by apply leave_timely.
  - split_and!; [done|by apply reclaim_entries|]. cbn. intros Hnow t st i r Ht Hu.
    apply reclaim_current; [done|done|]. by eapply Hcur.
  - done.
  - split_and!; cbn; [lia| |].
    + intros i e Hi. destruct (Hent i e Hi) as [? Hsi]. split; [done|]. intros since Hsince. specialize (Hsi since Hsince). lia.
    + intros Hnow. apply Hcur. lia.
Qed.

End entries.

(** ** Every reachable state *)

Definition configured (config : CoordinatorConfig) s : Prop :=
  co_max_waiters_per_story (sys_coordinator s) = coordinator_max_waiters_per_story config
  ∧ co_max_total_waiters (sys_coordinator s) = coordinator_max_total_waiters config
  ∧ co_idle_timeout (sys_coordinator s) = (coordinator_idle_timeout_secs config * 1000000000)%N.
Lemma configured_keep config s s' : configured config s → coordinator_step s s' → configured config s'.
Proof.
  intros Hc Hs. destruct Hs; try exact Hc; unfold configured in *; cbn [with_task sys_coordinator].
  - match goal with H : enqueue _ _ _ = _ |- _ => apply enqueue_ok in H as (_ & _ & -> & -> & -> & _) end. done.
  - match goal with H : enqueue _ _ _ = _ |- _ => apply enqueue_err in H as (_ & -> & -> & -> & _) end. done.
  - match goal with H : take_permit _ _ = _ |- _ => apply take_ok in H as (? & ? & _ & _ & ->) end. done.
Qed.

Definition reachable (config : CoordinatorConfig) (start : N) s : Prop := rtc coordinator_step (system_start config start) s.
Lemma reachable_ok config start s :
  reachable config start s → counts_ok s ∧ permits_ok s ∧ timely start s ∧ configured config s.
Proof.
  intros Hr. unfold reachable in Hr.
  assert (counts_ok (system_start config start) ∧ permits_ok (system_start config start)
    ∧ timely start (system_start config start) ∧ configured config (system_start config start)) as Hi.
  { split_and!; [|done..]. split_and!; [done|apply N.le_0_l|done]. }
  revert Hi. induction Hr as [|x y z Hs _ IH]; [done|]. intros (H1 & H2 & H3 & H4). apply IH.
  split_and!; [by eapply counts_keep|by eapply permits_keep|by eapply timely_keep|by eapply configured_keep].
Qed.



End proofs.

(** ** Schedules *)

Section schedules.
Context `{PermitSemaphore}.

(** One step, by the task that takes it. *)
Inductive Action :=
| Act_Enqueue (t : nat) (story_id : StoryId) | Act_Grant (t : nat) | Act_Settle (t : nat) | Act_Hold (t : nat)
| Act_Drop (t : nat) | Act_Uncount (t : nat) | Act_Leave (t : nat) | Act_Reclaim | Act_Tick (later : N).
Definition act (a : Action) (s : System) : option System :=
  let c := sys_coordinator s in
  match a with
  | Act_Enqueue t story_id =>
      match sys_tasks s !! t, enqueue story_id (sys_now s) c with
      | None, (c', Ok r) => Some (with_task c' t (Some (Task_Waiting story_id r)) s)
      | _, _ => None
      end
  | Act_Grant t =>
      match sys_tasks s !! t with
      | Some (Task_Waiting i r) => c' ← take_permit r c; Some (with_task c' t (Some (Task_Granted i r)) s)
      | _ => None
      end
  | Act_Settle t =>
      match sys_tasks s !! t with
      | Some (Task_Granted i r) => Some (with_task (settle_wait i c) t (Some (Task_Settled i r)) s)
      | _ => None
      end
  | Act_Hold t =>
      match sys_tasks s !! t with
      | Some (Task_Settled i r) => Some (with_task (count_permit c) t (Some (Task_Holding i r)) s)
      | _ => None
      end
  | Act_Drop t =>
      match sys_tasks s !! t with
      | Some (Task_Holding i r) => Some (with_task (give_permit r c) t (Some (Task_Dropping i)) s)
      | _ => None
      end
  | Act_Uncount t =>
      match sys_tasks s !! t with
      | Some (Task_Dropping i) => Some (with_task (uncount_permit c) t (Some (Task_Leaving i)) s)
      | _ => None
      end
  | Act_Leave t =>
      match sys_tasks s !! t with
      | Some (Task_Leaving i) => Some (with_task (release_entry i (sys_now s) c) t None s)
      | _ => None
      end
  | Act_Reclaim =>
      Some {| sys_coordinator := reclaim_idle (sys_now s) c; sys_tasks := sys_tasks s; sys_now := sys_now s |}
  | Act_Tick later =>
      if (sys_now s <=? later)%N
      then Some {| sys_coordinator := c; sys_tasks := sys_tasks s; sys_now := later |} else None
  end.
Definition schedule (l : list Action) (s : System) : option System := foldl (λ o a, o ≫= act a) (Some s) l.

Lemma act_step a s s' : act a s = Some s' → coordinator_step s s'.
Proof.
  intros Ha. destruct a; cbn [act] in Ha; repeat (case_match; try done); simplify_eq;
    try (by econstructor).
  - apply bind_Some in Ha as (c & Hc & [= <-]). by eapply Step_Grant.
  - apply Step_Tick. by apply N.leb_le.
Qed.
Lemma schedule_steps l s s' : schedule l s = Some s' → rtc coordinator_step s s'.
Proof.
  unfold schedule. revert s'. induction l as [|a l IH] using rev_ind; intros s'; [by intros [= <-]|].
  rewrite foldl_snoc. intros (s1 & Hs & Ha)%bind_Some. eapply rtc_r; [by apply IH|by eapply act_step].
Qed.
End schedules.

Module Schedule.
(** A semaphore that is the number of its permits. *)
#[local] Instance counting : PermitSemaphore := {|
  semaphore := N; semaphore_new n := n;
  semaphore_take s := if (0 <? s)%N then Some (s - 1)%N else None;
  semaphore_give s := (s + 1)%N;
|}.
#[local] Instance counting_lawful : LawfulSemaphore.
Proof.
  refine {| available (s : semaphore) := s |}; [done| |done]. cbn. intros s s'. destruct (N.ltb_spec 0 s); [|done].
  intros [= <-]. lia.
Defined.

Definition acquire_by (t : nat) : list Action := [Act_Grant t; Act_Settle t; Act_Hold t].
(** A story is run once and left idle; just before it times out a task comes for it and is
    kept waiting a moment, in which another task reclaims the entry; the next one makes a
    new entry. *)
Definition overlapping : list Action :=
  Act_Enqueue 0 "tale" :: acquire_by 0 ++ [Act_Drop 0; Act_Uncount 0; Act_Leave 0; Act_Tick 299999999999;
    Act_Enqueue 1 "tale"; Act_Tick 300000000000; Act_Enqueue 2 "other"] ++ acquire_by 1
  ++ Act_Enqueue 3 "tale" :: acquire_by 3.
Definition overlapped : option System := schedule overlapping (system_start CoordinatorConfig_default 0).

(** With the default configuration, two tasks can come to hold the permit of one story. *)
Theorem permits_overlap : ∃ s t1 t2 r1 r2,
  reachable CoordinatorConfig_default 0 s ∧ t1 ≠ t2
  ∧ sys_tasks s !! t1 = Some (Task_Holding "tale" r1) ∧ sys_tasks s !! t2 = Some (Task_Holding "tale" r2).
Proof.
  destruct overlapped as [s|] eqn:Hs; [|by vm_compute in Hs].
  exists s, 1, 3, 0, 2. split_and!; [by apply (schedule_steps overlapping)|done| |].
  - assert ((λ s, sys_tasks s !! 1) <$> overlapped = Some (Some (Task_Holding "tale" 0))) as Ht by by vm_compute.
    rewrite Hs in Ht. by injection Ht.
  - assert ((λ s, sys_tasks s !! 3) <$> overlapped = Some (Some (Task_Holding "tale" 2))) as Ht by by vm_compute.
    rewrite Hs in Ht. by injection Ht.
Qed.

(** Two tasks for one story, the second waiting. *)
Definition contended : option System :=
  schedule (Act_Enqueue 0 "tale" :: acquire_by 0 ++ [Act_Enqueue 1 "tale"]) (system_start CoordinatorConfig_default 7).
End Schedule.
