(* ===== verification/AiseContextProofs.v ===== *)
(** * The state of a turn is well formed in every phase

    The operations of [AiseContext.v] as one step relation, what the state of a turn
    holds in each phase, and that every operation keeps it so. *)

From S2P Require Import Prelude Text AiseIds AiseRule AiseNarrative AiseStory AiseTurnData AiseExtraction.
From S2P Require Import AiseScan AisePorts AiseActivation AiseCoordination AiseBudget AiseValidation AiseContext.
From stdpp Require Import relations.

Section proofs.
Context `{RegexEngine} `{TurnJson}.
Implicit Types c : TurnExecutionContext.

(** ** The operations as steps *)

(** The operations of a [TurnExecutionContext], those of its budget and those of
    the scope of a call of the model; [set_pahse] and [construct_changeset], which
    its own comment calls debug code, are not among them. *)
Inductive ContextOp :=
| Op_CompleteInitialization
| Op_SetPreparedContext (snapshot : StoryReadSnapshot) (baseline : BaselineContext) (projection : NarrativeProjection)
    (activation : PreparedActivation)
| Op_ReplaceActivation (activation : PreparedActivation)
| Op_SetNarrativeProjection (projection : NarrativeProjection)
| Op_SetWriterPlan (plan : WriterPlan)
| Op_SetRetrievedContext (context : RetrievedContext)
| Op_SkipRetrieval
| Op_SetCharacterDecisions (decisions : list CharacterDecision)
| Op_SkipCharacterThinking
| Op_CompleteContextPreparation
| Op_SetGeneratedStory (story : StoryGeneratorOutput)
| Op_SetStateExtraction (envelope : StoryStateExtractionEnvelope)
| Op_RecordStateExtractionFailure (issues : BoundedValidationIssues)
| Op_SetValidationResult (r : ValidationResult)
| Op_ReplaceStory (story : StoryGeneratorOutput)
| Op_ReplaceStateExtraction (envelope : StoryStateExtractionEnvelope)
| Op_ConsumeCorrectionRound (kind : CorrectionKind)
| Op_SetCommittedResult (r : CommittedTurnResult)
| Op_MarkFailed (failure : TurnExecutionError)
| Op_MarkCancelled (failure : TurnExecutionError)
| Op_MarkConflict (failure : TurnExecutionError)
| Op_ReserveLlm (call_id : LlmCallId) (input output : N)
| Op_ReleaseLlm (reservation : LlmBudgetReservation)
| Op_SettleLlm (reservation : LlmBudgetReservation) (usage : LlmCallUsage).

Definition apply_op (op : ContextOp) (c : TurnExecutionContext) : result TurnExecutionError TurnExecutionContext :=
  match op with
  | Op_CompleteInitialization => complete_initialization c
  | Op_SetPreparedContext snapshot baseline projection activation =>
      set_prepared_context snapshot baseline projection activation c
  | Op_ReplaceActivation activation => replace_activation activation c
  | Op_SetNarrativeProjection projection => set_narrative_projection projection c
  | Op_SetWriterPlan plan => set_writer_plan plan c
  | Op_SetRetrievedContext context => set_retrieved_context context c
  | Op_SkipRetrieval => skip_retrieval c
  | Op_SetCharacterDecisions decisions => set_character_decisions decisions c
  | Op_SkipCharacterThinking => skip_character_thinking c
  | Op_CompleteContextPreparation => complete_context_preparation c
  | Op_SetGeneratedStory story => set_generated_story story c
  | Op_SetStateExtraction envelope => set_state_extraction envelope c
  | Op_RecordStateExtractionFailure issues => record_state_extraction_failure issues c
  | Op_SetValidationResult r => set_validation_result r c
  | Op_ReplaceStory story => replace_story story c
  | Op_ReplaceStateExtraction envelope => replace_state_extraction envelope c
  | Op_ConsumeCorrectionRound kind => context_consume_correction_round kind c
  | Op_SetCommittedResult r => set_committed_result r c
  | Op_MarkFailed failure => mark_failed failure c
  | Op_MarkCancelled failure => mark_cancelled failure c
  | Op_MarkConflict failure => mark_conflict failure c
  | Op_ReserveLlm call_id input output =>
      let? '(c, _) := scope_reserve_llm call_id input output c in Ok c
  | Op_ReleaseLlm reservation => Ok (scope_release_llm reservation c)
  | Op_SettleLlm reservation usage => Ok (scope_settle_llm reservation usage c).1
  end.
Definition context_step (c c' : TurnExecutionContext) : Prop := ∃ op, apply_op op c = Ok c'.

(** ** What each phase holds *)

Definition limits c : TurnBudgetLimits := budget_limits (tc_budget c).

Definition prepared_ok c : Prop :=
  is_Some (tc_snapshot c) ∧ is_Some (tc_activation c) ∧ is_Some (tc_narrative_projection c) ∧
  ∃ b, tc_baseline c = Some b ∧ (baseline_estimate_tokens b <= max_context_tokens (limits c))%N.

Definition decisions_fit c (plan : WriterPlan) (ds : list CharacterDecision) : Prop :=
  map cd_role_id ds = map ctr_role_id (character_think_requests plan)
  ∧ NoDup (map cd_role_id ds)
  ∧ (nlen ds <= max_character_decisions (limits c))%N
  ∧ (decision_bytes ds <= max_character_decision_bytes (limits c))%N
  ∧ ∀ b d, tc_baseline c = Some b → d ∈ ds → cd_role_id d ≠ rcv_role_id (base_player_role b).
Definition retrieved_fits c (plan : WriterPlan) (r : RetrievedContext) : Prop :=
  (∃ world characters, RetrievedContext_try_new world characters (retrieved_limits c) = Ok r)
  ∧ ∀ id, id ∈ keys (ret_characters r) → id ∈ map ctr_role_id (character_think_requests plan).
Definition planned_ok c : Prop := ∃ plan,
  tc_plan c = Some plan
  ∧ (∃ json, plan_json plan = Ok json ∧ (slen json <= max_plan_bytes (limits c))%N)
  ∧ (tc_character_decisions c = [] ∨ decisions_fit c plan (tc_character_decisions c))
  ∧ (tc_retrieved c = RetrievedContext_default ∨ retrieved_fits c plan (tc_retrieved c)).
Definition unplanned c : Prop :=
  tc_plan c = None ∧ tc_character_decisions c = [] ∧ tc_retrieved c = RetrievedContext_default.

Definition story_current c : Prop := ∃ story,
  tc_story c = Some story ∧ is_empty (trim (story_text story)) = false
  ∧ (slen (story_text story) <= max_story_text_bytes (limits c))%N ∧ (1 <= tc_story_version c <= U32_MAX)%N.
Definition extraction_current c : Prop := ∃ x,
  tc_extraction c = Some x ∧ bse_story_version x = tc_story_version c
  ∧ ∃ json, envelope_json (bse_envelope x) = Ok json ∧ (slen json <= max_state_extraction_bytes (limits c))%N.
Definition no_candidate c : Prop :=
  tc_story c = None ∧ tc_story_version c = 0%N ∧ tc_extraction c = None ∧ tc_validation c = None.
(** Whether the turn is over, and why. *)
Definition open c : Prop :=
  tc_terminal_kind c = None ∧ tc_terminal_error c = None ∧ tc_committed_result c = None.
Definition failed c : Prop :=
  match tc_terminal_kind c with
  | Some kind => tc_phase c = terminal_phase_of kind ∧ is_Some (tc_terminal_error c)
  | None => tc_phase c = Phase_Failed ∧ tc_committed_result c = None ∧ tc_change_set c = None
      ∧ ∃ issues, tc_validation c = Some (Validation_Reject issues)
  end.

Definition candidate_ok c : Prop := prepared_ok c ∧ planned_ok c ∧ story_current c.
Definition passed c : Prop :=
  ∃ change_set, tc_validation c = Some (Validation_Pass change_set) ∧ tc_change_set c = Some change_set.

Definition holds_in (p : TurnPhase) c : Prop :=
  match p with
  | Phase_Created | Phase_Initialized =>
      open c ∧ tc_change_set c = None ∧ no_candidate c ∧ unplanned c ∧ tc_snapshot c = None ∧ tc_baseline c = None
      ∧ tc_narrative_projection c = None ∧ tc_activation c = None
  | Phase_Prepared => open c ∧ tc_change_set c = None ∧ no_candidate c ∧ unplanned c ∧ prepared_ok c
  | Phase_Planned | Phase_ContextReady =>
      open c ∧ tc_change_set c = None ∧ no_candidate c ∧ planned_ok c ∧ prepared_ok c
  | Phase_StoryReady =>
      open c ∧ tc_change_set c = None ∧ candidate_ok c ∧ tc_extraction c = None ∧ tc_validation c = None
  | Phase_CandidateReady =>
      open c ∧ tc_change_set c = None ∧ candidate_ok c ∧ extraction_current c ∧ tc_validation c = None
  | Phase_StoryRepairRequired =>
      open c ∧ tc_change_set c = None ∧ candidate_ok c ∧ tc_extraction c = None
      ∧ ∃ issues, tc_validation c = Some (Validation_RepairStory issues)
  | Phase_StateReextractionRequired =>
      open c ∧ tc_change_set c = None ∧ candidate_ok c ∧ (tc_extraction c = None ∨ extraction_current c)
      ∧ ∃ issues, tc_validation c = Some (Validation_ReextractState issues)
  | Phase_ReadyToCommit => open c ∧ candidate_ok c ∧ extraction_current c ∧ passed c
  | Phase_Committed =>
      tc_terminal_kind c = None ∧ tc_terminal_error c = None ∧ is_Some (tc_committed_result c)
      ∧ candidate_ok c ∧ extraction_current c ∧ passed c
  | Phase_Failed | Phase_Cancelled | Phase_Conflict => failed c
  end.
Definition context_ok c : Prop := holds_in (tc_phase c) c.
(** ** Every operation keeps it *)
Lemma expect_phase_ok c expected u : expect_phase c expected = Ok u → tc_phase c = expected.
Proof. unfold expect_phase. intros H1. res_inv. by apply negb_false_iff, bool_decide_eq_true in Heqb. Qed.
Lemma expect_phase_one_of_ok c expected u : expect_phase_one_of c expected = Ok u → tc_phase c ∈ expected.
Proof. unfold expect_phase_one_of. intros H1. res_inv. by apply negb_false_iff, bool_decide_eq_true in Heqb. Qed.
Lemma require_plan_ok c stage before plan : require_plan c stage before = Ok plan → tc_plan c = Some plan.
Proof. unfold require_plan, ok_or. intros H1. case_match; by simplify_eq. Qed.

(** Reads the phase, the bounds and the plan that an operation checked. *)
Ltac read_checks :=
  repeat match goal with
  | H : expect_phase _ _ = Ok _ |- _ => apply expect_phase_ok in H
  | H : require_plan _ _ _ = Ok _ |- _ => apply require_plan_ok in H
  | H : map_err _ _ = Ok _ |- _ => apply map_err_ok in H
  | H : (_ <? _)%N = false |- _ => apply N.ltb_ge in H
  | H : negb (_ =? _)%N = false |- _ => apply negb_false_iff, N.eqb_eq in H
  | H : negb (bool_decide _) = false |- _ => apply negb_false_iff, bool_decide_eq_true in H
  end.
(** The state before and after an operation whose phase is known. *)
Ltac by_phase :=
  unfold context_ok in *;
  repeat match goal with
  | Hp : tc_phase ?c = _, Hok : holds_in (tc_phase ?c) ?c |- _ => rewrite Hp in Hok; cbn [holds_in] in Hok
  end;
  match goal with |- holds_in ?p ?x => let q := eval hnf in p in change (holds_in q x) end;
  try match goal with
  | Hp : tc_phase ?c = _ |- holds_in _ ?x =>
      match goal with |- holds_in ?q _ => unify q (tc_phase c); change (holds_in (tc_phase c) x); rewrite Hp end
  end;
  cbn [holds_in]; destruct_and?; split_and?; try done; try assumption.

Lemma story_bound_ok c story stage u :
  ensure_story_bound c story stage = Ok u →
  is_empty (trim (story_text story)) = false ∧ (slen (story_text story) <= max_story_text_bytes (limits c))%N.
Proof. unfold ensure_story_bound. intros H1. res_inv. read_checks. done. Qed.
Lemma extraction_bound_ok c envelope stage u :
  ensure_extraction_bound c envelope stage = Ok u →
  ∃ json, envelope_json envelope = Ok json ∧ (slen json <= max_state_extraction_bytes (limits c))%N.
Proof. unfold ensure_extraction_bound. intros H1. res_inv. read_checks. eauto. Qed.

Lemma initialization_keeps c c' : context_ok c → complete_initialization c = Ok c' → context_ok c'.
Proof. intros Hok Hop. unfold complete_initialization in Hop. res_inv. read_checks. subst. by_phase. Qed.

Lemma prepared_context_keeps snapshot baseline projection activation c c' :
  context_ok c → set_prepared_context snapshot baseline projection activation c = Ok c' → context_ok c'.
Proof.
  intros Hok Hop. unfold set_prepared_context in Hop. res_inv. read_checks. subst. by_phase.
  unfold prepared_ok. split_and!; [by eexists..|]. by exists baseline.
Qed.

Lemma writer_plan_keeps plan c c' : context_ok c → set_writer_plan plan c = Ok c' → context_ok c'.
Proof.
  intros Hok Hop. unfold set_writer_plan in Hop. res_inv. read_checks. subst. by_phase.
  unfold unplanned in *. destruct_and!. exists plan. split_and!; [done|by eexists|by left|by left].
Qed.

Lemma activation_keeps activation c c' : context_ok c → replace_activation activation c = Ok c' → context_ok c'.
Proof.
  intros Hok Hop. unfold replace_activation in Hop. res_inv. read_checks. subst. by_phase.
  unfold prepared_ok in *. destruct_and!. split_and!; done.
Qed.
Lemma projection_keeps projection c c' :
  context_ok c → set_narrative_projection projection c = Ok c' → context_ok c'.
Proof.
  intros Hok Hop. unfold set_narrative_projection in Hop. res_inv. read_checks. subst. by_phase.
  unfold prepared_ok in *. destruct_and!. split_and!; done.
Qed.

Lemma existsb_false {A} (f : A → bool) l : existsb f l = false → ∀ x, x ∈ l → f x = false.
Proof.
  intros H1 x Hx. destruct (f x) eqn:E; [|done]. rewrite <- H1. symmetry. apply existsb_exists.
  exists x. by rewrite <- list_elem_of_In.
Qed.

Lemma retrieved_keeps context c c' : context_ok c → set_retrieved_context context c = Ok c' → context_ok c'.
Proof.
  intros Hok Hop. unfold set_retrieved_context in Hop. repeat (res_step; try done). read_checks. subst. by_phase.
  match goal with Hp : planned_ok _ |- _ => destruct Hp as (plan & Hplan & Hjson & Hds & _) end. simplify_eq.
  exists plan. split_and!; [done|done|done|]. right. split; [by eexists _, _|].
  intros id Hid. cbn in Hid.
  match goal with Hr : RetrievedContext_try_new _ _ _ = Ok ?r |- _ =>
    assert (ret_characters r = ret_characters context) as Hc by
      (revert Hr; unfold RetrievedContext_try_new; intros Hr; repeat (res_step; try done); by subst) end.
  cbn in Hid. rewrite Hc in Hid.
  match goal with Hb : existsb _ _ = false |- _ => pose proof (existsb_false _ _ Hb id Hid) as Hin end.
  apply negb_false_iff, existsb_exists in Hin as (req & Hreq & Heq). apply bool_decide_eq_true in Heq as <-.
  apply list_elem_of_fmap. exists req. by rewrite list_elem_of_In.
Qed.

Lemma skip_retrieval_keeps c c' : context_ok c → skip_retrieval c = Ok c' → context_ok c'.
Proof.
  intros Hok Hop. unfold skip_retrieval in Hop. res_inv. read_checks. subst. by_phase.
  match goal with Hp : planned_ok _ |- _ => destruct Hp as (plan & ? & ? & ? & _) end.
  exists plan. split_and!; try done. by left.
Qed.
Lemma skip_thinking_keeps c c' : context_ok c → skip_character_thinking c = Ok c' → context_ok c'.
Proof.
  intros Hok Hop. unfold skip_character_thinking in Hop. res_inv. read_checks. subst. by_phase.
  match goal with Hp : planned_ok _ |- _ => destruct Hp as (plan & ? & ? & _ & ?) end.
  exists plan. split_and!; try done. by left.
Qed.

Lemma zip_pairwise {A B C} `{EqDecision C} (f : A → C) (g : B → C) l k :
  length l = length k → existsb (λ '(a, b), negb (bool_decide (f a = g b))) (zip l k) = false → map f l = map g k.
Proof.
  revert k. induction l as [|a l IH]; intros [|b k] Hl Hz; try done. simpl in *.
  apply orb_false_iff in Hz as [Hab%negb_false_iff%bool_decide_eq_true Hz]. rewrite Hab. f_equal. apply IH; [lia|done].
Qed.

Lemma decisions_keeps decisions c c' : context_ok c → set_character_decisions decisions c = Ok c' → context_ok c'.
Proof.
  intros Hok Hop. unfold set_character_decisions in Hop. repeat (res_step; try done). read_checks. subst.
  unfold from_option in *. by_phase.
  match goal with Hp : planned_ok _ |- _ => destruct Hp as (plan & Hplan & Hjson & _ & Hr) end. simplify_eq.
  exists plan. split_and!; try done. right.
  unfold decisions_fit. cbn [tc_character_decisions set_tc_character_decisions]. split_and!; try done.
  - apply zip_pairwise; [unfold nlen in *; lia|done].
  - intros b d Hb Hd Heq. change (tc_baseline c = Some b) in Hb. rewrite Hb in *.
    match goal with Hx : existsb _ decisions = false |- _ => pose proof (existsb_false _ _ Hx d Hd) as Hne end.
    by apply bool_decide_eq_false in Hne.
Qed.

Lemma preparation_keeps c c' : context_ok c → complete_context_preparation c = Ok c' → context_ok c'.
Proof. intros Hok Hop. unfold complete_context_preparation in Hop. res_inv. read_checks. subst. by_phase. Qed.

Lemma generated_story_keeps story c c' : context_ok c → set_generated_story story c = Ok c' → context_ok c'.
Proof.
  intros Hok Hop. unfold set_generated_story in Hop. repeat (res_step; try done). read_checks. subst.
  match goal with Hb : ensure_story_bound _ _ _ = Ok _ |- _ => apply story_bound_ok in Hb as [? ?] end. by_phase.
  unfold candidate_ok. split_and!; [done..|]. exists story. split_and!; done.
Qed.

Lemma bind_extraction_ok envelope c json :
  envelope_json envelope = Ok json → (slen json <= max_state_extraction_bytes (limits c))%N →
  extraction_current (bind_extraction envelope c).
Proof. intros ? ?. eexists. split_and!; [done|done|]. by exists json. Qed.

Lemma extraction_keeps envelope c c' : context_ok c → set_state_extraction envelope c = Ok c' → context_ok c'.
Proof.
  intros Hok Hop. unfold set_state_extraction in Hop. repeat (res_step; try done). read_checks. subst.
  match goal with Hb : ensure_extraction_bound _ _ _ = Ok _ |- _ => apply extraction_bound_ok in Hb as (? & ? & ?) end.
  by_phase. by eapply bind_extraction_ok.
Qed.
Lemma reextraction_keeps envelope c c' : context_ok c → replace_state_extraction envelope c = Ok c' → context_ok c'.
Proof.
  intros Hok Hop. unfold replace_state_extraction in Hop. repeat (res_step; try done). read_checks. subst.
  match goal with Hb : ensure_extraction_bound _ _ _ = Ok _ |- _ => apply extraction_bound_ok in Hb as (? & ? & ?) end.
  by_phase. by eapply bind_extraction_ok.
Qed.

Lemma extraction_failure_keeps issues c c' :
  context_ok c → record_state_extraction_failure issues c = Ok c' → context_ok c'.
Proof.
  intros Hok Hop. unfold record_state_extraction_failure in Hop. repeat (res_step; try done). subst.
  match goal with Hp : expect_phase_one_of _ _ = Ok _ |- _ => apply expect_phase_one_of_ok in Hp end.
  assert (open c ∧ candidate_ok c) as [? ?].
  { match goal with Hp : tc_phase c ∈ _ |- _ => revert Hp end. rewrite !elem_of_cons, elem_of_nil.
    unfold context_ok in Hok. intros [Hp|[Hp|[]]]; rewrite Hp in Hok; cbn [holds_in] in Hok; by destruct_and!. }
  unfold context_ok. cbn [tc_phase holds_in]. change (tc_phase _) with Phase_StateReextractionRequired. cbn [holds_in].
  split_and!; try done; [by left|by eexists].
Qed.

Lemma validation_keeps r c c' : context_ok c → set_validation_result r c = Ok c' → context_ok c'.
Proof.
  intros Hok Hop. unfold set_validation_result in Hop. repeat (res_step; try done). read_checks. subst.
  destruct r; cbn [result_decision to_turn_phase]; by_phase; try by eexists.
  - by right.
  - unfold open in *. destruct_and!. unfold failed. cbn. case_match; [done|]. split_and!; try done. by eexists.
Qed.

Lemma next_version v (e : TurnExecutionError) w : ok_or (checked_add U32_MAX v 1) e = Ok w → w = (v + 1)%N ∧ (1 <= w <= U32_MAX)%N.
Proof. unfold ok_or, checked_add. destruct (N.leb_spec (v + 1) U32_MAX); intros; simplify_eq. lia. Qed.

Lemma story_keeps story c c' : context_ok c → replace_story story c = Ok c' → context_ok c'.
Proof.
  intros Hok Hop. unfold replace_story in Hop. repeat (res_step; try done). read_checks. subst.
  match goal with Hb : ensure_story_bound _ _ _ = Ok _ |- _ => apply story_bound_ok in Hb as [? ?] end.
  match goal with Hv : ok_or _ _ = Ok ?v |- _ => apply next_version in Hv end.
  by_phase. unfold candidate_ok in *. destruct_and!. split_and!; [done..|]. exists story. split_and!; done.
Qed.

Lemma commit_keeps r c c' : context_ok c → set_committed_result r c = Ok c' → context_ok c'.
Proof.
  intros Hok Hop. unfold set_committed_result in Hop. res_inv. read_checks. subst. by_phase; unfold open in *; destruct_and!; try done.
Qed.

Lemma terminal_keeps kind failure c c' : mark_terminal kind failure c = Ok c' → context_ok c'.
Proof.
  intros Hop. unfold mark_terminal in Hop. res_inv. unfold context_ok.
  assert (failed (set_tc_terminal_error (λ _, Some failure) (set_tc_phase (λ _, terminal_phase_of kind)
    (set_tc_terminal_kind (λ _, Some kind) c)))) as Hf by (split; [done|by eexists]).
  by destruct kind.
Qed.

(** The bounds are those of the limits of the budget; what the budget used is free. *)
Lemma budget_keeps b c : budget_limits b = budget_limits (tc_budget c) → context_ok c → context_ok (set_tc_budget (λ _, b) c).
Proof. destruct c as [? ? ? ? [l u]]; destruct b as [l' u']; cbn. intros -> Hok. exact Hok. Qed.
Lemma settle_limits b r usage : budget_limits (settle_llm b r usage).1 = budget_limits b.
Proof. unfold settle_llm. by repeat case_match. Qed.
Lemma reserve_limits b id i o b' r : reserve_llm b id i o = Ok (b', r) → budget_limits b' = budget_limits b.
Proof. unfold reserve_llm. intros Hr. repeat (res_step; try done). by simplify_eq. Qed.
Lemma correction_limits b kind b' : consume_correction_round b kind = Ok b' → budget_limits b' = budget_limits b.
Proof. unfold consume_correction_round. intros Hr. repeat (res_step; try done). by simplify_eq. Qed.

Lemma settlement_keeps reservation usage c : context_ok c → context_ok (scope_settle_llm reservation usage c).1.
Proof.
  intros Hok. unfold scope_settle_llm. pose proof (settle_limits (tc_budget c) reservation usage) as Hl.
  destruct (settle_llm (tc_budget c) reservation usage) as [b [u|e]]; cbn [fst]; by apply budget_keeps.
Qed.

Lemma step_keeps c c' : context_ok c → context_step c c' → context_ok c'.
Proof.
  intros Hok [op Hop]. destruct op; cbn [apply_op] in Hop;
    [exact (initialization_keeps _ _ Hok Hop)|exact (prepared_context_keeps _ _ _ _ _ _ Hok Hop)
    |exact (activation_keeps _ _ _ Hok Hop)|exact (projection_keeps _ _ _ Hok Hop)|exact (writer_plan_keeps _ _ _ Hok Hop)
    |exact (retrieved_keeps _ _ _ Hok Hop)|exact (skip_retrieval_keeps _ _ Hok Hop)|exact (decisions_keeps _ _ _ Hok Hop)
    |exact (skip_thinking_keeps _ _ Hok Hop)|exact (preparation_keeps _ _ Hok Hop)|exact (generated_story_keeps _ _ _ Hok Hop)
    |exact (extraction_keeps _ _ _ Hok Hop)|exact (extraction_failure_keeps _ _ _ Hok Hop)|exact (validation_keeps _ _ _ Hok Hop)
    |exact (story_keeps _ _ _ Hok Hop)|exact (reextraction_keeps _ _ _ Hok Hop)| |exact (commit_keeps _ _ _ Hok Hop)
    |exact (terminal_keeps _ _ _ _ Hop)|exact (terminal_keeps _ _ _ _ Hop)|exact (terminal_keeps _ _ _ _ Hop)| | |].
  - unfold context_consume_correction_round in Hop. res_inv. apply budget_keeps; [by eapply correction_limits|done].
  - unfold scope_reserve_llm in Hop. destruct (reserve_llm _ _ _ _) as [[b r]|] eqn:Hr; [|done]. injection Hop as <-.
    apply budget_keeps; [exact (reserve_limits _ _ _ _ _ _ Hr)|done].
  - injection Hop as <-. by apply budget_keeps.
  - injection Hop as <-. by apply settlement_keeps.
Qed.

Lemma new_ok identity request budget control c :
  TurnExecutionContext_new identity request budget control = Ok c → context_ok c.
Proof. unfold TurnExecutionContext_new. intros Hn. res_inv. unfold context_ok. cbn [tc_phase holds_in]. split_and!; done. Qed.

Lemma steps_keep c c' : context_ok c → rtc context_step c c' → context_ok c'.
Proof. intros Hok Hs. induction Hs as [|? ? ? Hs _ IH]; [done|]. apply IH. exact (step_keeps _ _ Hok Hs). Qed.


(** ** Versions of the story *)

(** The story moves only with its version, a plan and a result that was committed stay,
    and whose turn it is never changes. *)
Definition advances c c' : Prop :=
  (tc_story_version c <= tc_story_version c')%N
  ∧ (tc_story_version c = tc_story_version c' → tc_story c' = tc_story c)
  ∧ (∀ r, tc_committed_result c = Some r → tc_committed_result c' = Some r)
  ∧ (∀ plan, tc_plan c = Some plan → tc_plan c' = Some plan)
  ∧ tc_identity c' = tc_identity c ∧ tc_request c' = tc_request c ∧ tc_control c' = tc_control c.

#[global] Instance advances_preorder : PreOrder advances.
Proof.
  split; [intros c; repeat split; by try apply N.le_refl|].
  intros c1 c2 c3 (V1 & S1 & R1 & P1 & I1 & Q1 & C1) (V2 & S2 & R2 & P2 & I2 & Q2 & C2).
  split_and!; [by etrans| |by eauto|by eauto|by etrans|by etrans|by etrans].
  intros Hv. rewrite S2, S1; [done|lia..].
Qed.

Lemma same_advances c c' :
  tc_story_version c' = tc_story_version c → tc_story c' = tc_story c → tc_committed_result c' = tc_committed_result c →
  tc_plan c' = tc_plan c →
  tc_identity c' = tc_identity c ∧ tc_request c' = tc_request c ∧ tc_control c' = tc_control c → advances c c'.
Proof. intros Hv Hs Hr Hp (? & ? & ?). unfold advances. rewrite Hv, Hs, Hr, Hp. split_and!; by try apply N.le_refl. Qed.

(** What the phase an operation asked for says of the context. *)
Ltac at_phase Hok :=
  unfold context_ok in Hok; match goal with Hp : tc_phase _ = _ |- _ => rewrite Hp in Hok end; cbn [holds_in] in Hok.

Lemma planned_advances plan c c' : context_ok c → set_writer_plan plan c = Ok c' → advances c c'.
Proof.
  intros Hok Hop. unfold set_writer_plan in Hop. repeat (res_step; try done). read_checks. subst. at_phase Hok.
  destruct Hok as (_ & _ & _ & (Hp & _) & _). unfold advances. cbn. split_and!; [apply N.le_refl|done|done| |done..].
  intros ? ?. congruence.
Qed.
Lemma generated_advances story c c' : context_ok c → set_generated_story story c = Ok c' → advances c c'.
Proof.
  intros Hok Hop. unfold set_generated_story in Hop. repeat (res_step; try done). read_checks. subst. at_phase Hok.
  destruct Hok as (_ & _ & (_ & Hv & _) & _). unfold advances. cbn. rewrite Hv. split_and!; [lia|lia|done..].
Qed.
Lemma replaced_advances story c c' : replace_story story c = Ok c' → advances c c'.
Proof.
  intros Hop. unfold replace_story in Hop. repeat (res_step; try done). subst.
  match goal with Hv : ok_or _ _ = Ok ?v |- _ => apply next_version in Hv as [-> _] end.
  unfold advances. cbn. split_and!; [lia|lia|done..].
Qed.
Lemma committed_advances r c c' : context_ok c → set_committed_result r c = Ok c' → advances c c'.
Proof.
  intros Hok Hop. unfold set_committed_result in Hop. res_inv. read_checks. at_phase Hok.
  destruct Hok as ((_ & _ & Hc) & _). unfold advances. cbn. split_and!; [apply N.le_refl|done| |done..].
  intros ? ?. congruence.
Qed.

Lemma step_advances c c' : context_ok c → context_step c c' → advances c c'.
Proof.
  intros Hok [op Hop]. destruct op; cbn [apply_op] in Hop;
    try (by eapply planned_advances); try (by eapply generated_advances); try (by eapply replaced_advances); try (by eapply committed_advances).
  all: apply same_advances.
  all: revert Hop; unfold complete_initialization, set_prepared_context, replace_activation, set_narrative_projection,
    set_retrieved_context, skip_retrieval, set_character_decisions, skip_character_thinking,
    complete_context_preparation, set_state_extraction, record_state_extraction_failure, set_validation_result,
    replace_state_extraction, context_consume_correction_round, mark_failed, mark_cancelled, mark_conflict, mark_terminal,
    scope_reserve_llm, scope_release_llm, scope_settle_llm; intros Hop.
  all: repeat (res_step; try done); subst; try done.
  all: repeat case_match; simplify_eq; done.
Qed.


End proofs.
