(* ===== verification/AiseEngineProofs.v ===== *)
(** * What the run of a turn does, and what the engine promises its caller

    Stages reach the state of a turn only through its operations, since its fields are
    private to its module: a stage is lawful when all it does to the state is a sequence
    of the steps of AiseContextProofs.v.  One terminal event closes every turn and tells
    its outcome, and a request that was committed once is answered from the store ever
    after.

    With the SQLite store as the store of the engine: it keeps what it committed, whatever
    its other clients do, so a request is run once. *)

From S2P Require Import Prelude Text AiseIds AiseRule AiseNarrative AiseStory AiseTurnData AiseExtraction AiseConfig.
From S2P Require Import AiseScan AisePorts AiseActivation AiseCoordination AiseBudget AiseValidation AiseContext.
From S2P Require Import AiseRuntime AiseEngine AiseContextProofs AiseSqlite AiseSqliteReads AiseSqliteLog.
From stdpp Require Import relations.

Section runtime.
Context `{RegexEngine} `{TurnJson} `{TurnWorld}.
Implicit Types (c : TurnExecutionContext) (t : Turn) (p : TurnExecutionPipeline).

Definition lawful p : Prop := ∀ c w, rtc context_step c (pl_execute p c w).1.1.

Lemma initializer_lawful : lawful TurnInitializer.
Proof.
  intros c w. cbn. case_match; [done|]. destruct (complete_initialization c) as [c'|e] eqn:Hc; [|done].
  apply rtc_once. by exists Op_CompleteInitialization.
Qed.
Lemma committer_lawful `{EventJson} : lawful TurnCommitter.
Proof.
  intros c w. cbn. destruct (commit_spec c) as [spec|e]; [|done]. destruct (commit_turn spec w) as [w' [r|e]]; [|done].
  destruct (set_committed_result r c) as [c'|e] eqn:Hc; [|done]. apply rtc_once. by exists (Op_SetCommittedResult r).
Qed.

(** ** Computations *)
Lemma run_bind_ok {A B} (m : run A) (k : A → run B) t t' b :
  run_bind m k t = (t', Ok b) → ∃ t1 a, m t = (t1, Ok a) ∧ k a t1 = (t', Ok b).
Proof. unfold run_bind. destruct (m t) as [t1 [a|e]]; intros Hr; [by exists t1, a|done]. Qed.
Lemma ask_ok {A} (f : TurnExecutionContext → result TurnExecutionError A) t t' a :
  ask f t = (t', Ok a) → t' = t ∧ f (t_ctx t) = Ok a.
Proof. unfold ask. by intros [= <- Hf]. Qed.
Lemma change_ok f t t' :
  change f t = (t', Ok tt) → ∃ c, f (t_ctx t) = Ok c ∧ t' = with_ctx c t.
Proof. unfold change. destruct (f (t_ctx t)) as [c|e]; intros Hr; [|done]. injection Hr as <-. by exists c. Qed.

Definition started t (stage : TurnStage) : TurnEvent := Event_StageStarted (Some (context_turn_number (t_ctx t))) stage.
Lemma execute_ok p t t' :
  execute p t = (t', Ok tt) →
  check_entry (pl_stage p) (tc_phase (t_ctx t)) = Ok tt
  ∧ t_events t' = t_events t ++ [started t (pl_stage p)]
  ∧ (∃ w, pl_execute p (t_ctx t) w = (t_ctx t', t_world t', Ok tt))
  ∧ check_exit (pl_stage p) (tc_phase (t_ctx t')) = Ok tt.
Proof.
  unfold execute. destruct (check_entry _ _) as [[]|e]; [|done].
  destruct (is_cancelled _ _) as [w1 []]; [done|]. destruct (instant_now w1) as [w2 now].
  case_match; [done|]. destruct (pl_execute p _ _) as [[c w] outcome] eqn:Hp. intros [= <- Ho].
  destruct outcome as [[]|e]; [|done]. split_and!; [done|done| |done]. by exists w2.
Qed.

Lemma entered stage phase expected u :
  stage_entry_phases stage = Some [expected] → check_entry stage phase = Ok u → phase = expected.
Proof.
  unfold check_entry. intros ->. destruct (bool_decide _) eqn:Hb; [|done]. intros _.
  apply bool_decide_eq_true in Hb. by apply list_elem_of_singleton in Hb.
Qed.
Lemma left_in stage phase expected u :
  stage_exit_phases stage = Some [expected] → check_exit stage phase = Ok u → phase = expected.
Proof.
  unfold check_exit. intros ->. destruct (bool_decide _) eqn:Hb; [|done]. intros _.
  apply bool_decide_eq_true in Hb. by apply list_elem_of_singleton in Hb.
Qed.

(** ** Turns that ran so far *)

(** A turn reached from [t] by operations of its context, the events being the stages started. *)
Record reached t t' (stages : list TurnStage) : Prop := {
  re_steps : rtc context_step (t_ctx t) (t_ctx t');
  re_events : t_events t' = t_events t ++ map (started t) stages;
}.
Lemma reached_started t t' stages stage :
  context_ok (t_ctx t) → reached t t' stages → started t' stage = started t stage.
Proof.
  intros Hok [Hs _]. unfold started, context_turn_number.
  assert (advances (t_ctx t) (t_ctx t')) as (_ & _ & _ & _ & -> & _); [|done].
  revert Hok. induction Hs as [|x y z Hs _ IH]; intros Hok; [done|].
  etrans; [by apply step_advances|]. apply IH. by eapply step_keeps.
Qed.
Lemma reached_refl t : reached t t [].
Proof. split; [done|]. by rewrite app_nil_r. Qed.
Lemma reached_trans t t1 t2 l1 l2 :
  context_ok (t_ctx t) → reached t t1 l1 → reached t1 t2 l2 → reached t t2 (l1 ++ l2).
Proof.
  intros Hok Hr [Hs2 He2]. pose proof (λ stage, reached_started t t1 l1 stage Hok Hr) as Hst. destruct Hr as [Hs1 He1].
  split; [by etrans|]. rewrite He2, He1, map_app, app_assoc. f_equal. by apply map_ext.
Qed.
Lemma reached_execute p t t' : lawful p → execute p t = (t', Ok tt) → reached t t' [pl_stage p].
Proof.
  intros Hl (_ & He & (w & Hp) & _)%execute_ok. split; [|done]. specialize (Hl (t_ctx t) w). by rewrite Hp in Hl.
Qed.
Lemma reached_change op t t' : change (apply_op op) t = (t', Ok tt) → reached t t' [].
Proof.
  intros (c & Hc & ->)%change_ok. split; [|by rewrite app_nil_r]. apply rtc_once. by exists op.
Qed.

(** ** A run that succeeds *)

Record lawful_set (s : TurnPipelineSet) : Prop := {
  ls_initializer : lawful (ps_initializer s);
  ls_baseline_builder : lawful (ps_baseline_builder s);
  ls_writer_planner : lawful (ps_writer_planner s);
  ls_retrieval : lawful (ps_retrieval s);
  ls_character_think : lawful (ps_character_think s);
  ls_story_generator : lawful (ps_story_generator s);
}.

Lemma bind_ok field pipeline expected p : bind field pipeline expected = Ok p → pipeline = Some p ∧ pl_stage p = expected.
Proof.
  unfold bind, ok_or. intros Hb. destruct pipeline as [q|]; [|done].
  destruct (bool_decide _) eqn:Hs; [|done]. injection Hb as <-. by apply bool_decide_eq_true in Hs.
Qed.
Lemma build_ok b s :
  build b = Ok s →
  pl_stage (ps_initializer s) = Stage_TurnInitializer ∧ pl_stage (ps_baseline_builder s) = Stage_BaselineBuilder
  ∧ pl_stage (ps_writer_planner s) = Stage_WriterPlanner ∧ pl_stage (ps_retrieval s) = Stage_ContextRetrieval
  ∧ pl_stage (ps_character_think s) = Stage_CharacterThink ∧ pl_stage (ps_story_generator s) = Stage_StoryGenerator
  ∧ pl_stage (ps_committer s) = Stage_TurnCommitter ∧ pb_committer b = Some (ps_committer s).
Proof.
  unfold build. intros Hb. repeat (res_step; try done). subst. cbn.
  repeat match goal with H : bind _ _ _ = Ok _ |- _ => apply bind_ok in H as [? ?] end. done.
Qed.

(** The stages a plan asks for. *)
Definition wants_retrieval (plan : WriterPlan) : bool :=
  negb (bool_decide (length (character_requests (retrieval_plan plan)) = 0))
  || negb (bool_decide (length (knowledge_requests (retrieval_plan plan)) = 0)).
Definition wants_thinking (plan : WriterPlan) : bool :=
  negb (bool_decide (length (character_think_requests plan) = 0)).
Definition stages_of (plan : WriterPlan) : list TurnStage :=
  [Stage_TurnInitializer; Stage_BaselineBuilder; Stage_WriterPlanner]
  ++ (if wants_retrieval plan then [Stage_ContextRetrieval] else [])
  ++ (if wants_thinking plan then [Stage_CharacterThink] else [])
  ++ [Stage_StoryGenerator].

Lemma requires_retrieval_ok c b :
  requires_retrieval c = Ok b → ∃ plan, tc_plan c = Some plan ∧ b = wants_retrieval plan.
Proof.
  unfold requires_retrieval. destruct (expect_phase _ _); [|done]. destruct (require_plan _ _ _) as [plan|] eqn:Hq; [|done].
  apply require_plan_ok in Hq. intros [= <-]. by exists plan.
Qed.
Lemma requires_thinking_ok c b :
  requires_character_thinking c = Ok b → ∃ plan, tc_plan c = Some plan ∧ b = wants_thinking plan.
Proof.
  unfold requires_character_thinking. destruct (expect_phase _ _); [|done]. destruct (require_plan _ _ _) as [plan|] eqn:Hq; [|done].
  apply require_plan_ok in Hq. intros [= <-]. by exists plan.
Qed.

Lemma reached_plan t t' stages plan :
  context_ok (t_ctx t) → reached t t' stages → tc_plan (t_ctx t) = Some plan → tc_plan (t_ctx t') = Some plan.
Proof.
  intros Hok [Hs _] Hp. assert (advances (t_ctx t) (t_ctx t')) as (_ & _ & _ & Ha & _); [|by apply Ha].
  clear Hp. revert Hok. induction Hs as [|x y z Hs _ IH]; intros Hok; [done|].
  etrans; [by apply step_advances|]. apply IH. by eapply step_keeps.
Qed.

(** The optional stage of a plan is run, or skipped by an operation of the context. *)
Lemma retrieve_step_ok s t t' :
  lawful (ps_retrieval s) → pl_stage (ps_retrieval s) = Stage_ContextRetrieval → retrieve_step s t = (t', Ok tt) →
  ∃ plan, tc_plan (t_ctx t) = Some plan ∧ reached t t' (if wants_retrieval plan then [Stage_ContextRetrieval] else []).
Proof.
  intros Hl Hst Hs. apply run_bind_ok in Hs as (ta & b & Ha & Hs). apply ask_ok in Ha as [-> Ha].
  apply requires_retrieval_ok in Ha as (plan & Hp & ->). exists plan. split; [done|]. destruct (wants_retrieval plan).
  - rewrite <- Hst. by apply reached_execute.
  - by apply (reached_change Op_SkipRetrieval).
Qed.
Lemma think_step_ok s t t' :
  lawful (ps_character_think s) → pl_stage (ps_character_think s) = Stage_CharacterThink → think_step s t = (t', Ok tt) →
  ∃ plan, tc_plan (t_ctx t) = Some plan ∧ reached t t' (if wants_thinking plan then [Stage_CharacterThink] else []).
Proof.
  intros Hl Hst Hs. apply run_bind_ok in Hs as (ta & b & Ha & Hs). apply ask_ok in Ha as [-> Ha].
  apply requires_thinking_ok in Ha as (plan & Hp & ->). exists plan. split; [done|]. destruct (wants_thinking plan).
  - rewrite <- Hst. by apply reached_execute.
  - by apply (reached_change Op_SkipCharacterThinking).
Qed.

Lemma reached_ok t t' stages : context_ok (t_ctx t) → reached t t' stages → context_ok (t_ctx t').
Proof. intros Hok [Hs _]. by eapply steps_keep. Qed.

(** Up to the generated story: the stages of the plan, in their order. *)
Definition generate_part (s : TurnPipelineSet) : run unit :=
  run! _ := execute (ps_initializer s) in
  run! _ := execute (ps_baseline_builder s) in
  run! _ := execute (ps_writer_planner s) in
  run! _ := retrieve_step s in
  run! _ := think_step s in
  run! _ := change complete_context_preparation in
  execute (ps_story_generator s).

Lemma run_bind_assoc {A B C} (m : run A) (k : A → run B) (h : B → run C) t :
  run_bind (run_bind m k) h t = run_bind m (λ a, run_bind (k a) h) t.
Proof. unfold run_bind. destruct (m t) as [t1 [a|e]]; [|done]. done. Qed.
Lemma run_inner_parts s t :
  run_inner s t = run_bind (generate_part s) (λ _,
    run! _ := debug_changeset in
    run! _ := execute (ps_committer s) in
    ask (λ c, match tc_committed_result c with
              | Some _ => Ok tt
              | None => Err (runtime_invariant "committed turn missing committed result")
              end)) t.
Proof.
  unfold run_inner, generate_part, run_bind. repeat (case_match; simplify_eq; try done).
Qed.

Lemma generate_part_ok b s t t' :
  build b = Ok s → lawful_set s → context_ok (t_ctx t) → generate_part s t = (t', Ok tt) →
  tc_phase (t_ctx t') = Phase_StoryReady
  ∧ ∃ plan, tc_plan (t_ctx t') = Some plan ∧ reached t t' (stages_of plan).
Proof.
  intros (S1 & S2 & S3 & S4 & S5 & S6 & _)%build_ok [L1 L2 L3 L4 L5 L6] Hok Hg. unfold generate_part in Hg.
  apply run_bind_ok in Hg as (t1 & [] & E1 & Hg). apply run_bind_ok in Hg as (t2 & [] & E2 & Hg).
  apply run_bind_ok in Hg as (t3 & [] & E3 & Hg). apply run_bind_ok in Hg as (t4 & [] & E4 & Hg).
  apply run_bind_ok in Hg as (t5 & [] & E5 & Hg). apply run_bind_ok in Hg as (t6 & [] & E6 & E7).
  pose proof (execute_ok _ _ _ E7) as (_ & _ & _ & Hexit). rewrite S6 in Hexit.
  apply reached_execute in E1, E2, E3, E7; [|done..]. apply (reached_change Op_CompleteContextPreparation) in E6.
  apply retrieve_step_ok in E4 as (plan & Hp & E4); [|done..]. apply think_step_ok in E5 as (plan' & Hp' & E5); [|done..].
  rewrite S1 in E1. rewrite S2 in E2. rewrite S3 in E3. rewrite S6 in E7.
  pose proof (reached_trans _ _ _ _ _ Hok E1 E2) as R2. pose proof (reached_trans _ _ _ _ _ Hok R2 E3) as R3.
  pose proof (reached_plan _ _ _ _ (reached_ok _ _ _ Hok R3) E4 Hp) as Hp4. rewrite Hp' in Hp4. injection Hp4 as ->.
  pose proof (reached_trans _ _ _ _ _ Hok R3 E4) as R4. pose proof (reached_trans _ _ _ _ _ Hok R4 E5) as R5.
  pose proof (reached_trans _ _ _ _ _ (reached_ok _ _ _ Hok R4) E5 E6) as R6.
  pose proof (reached_trans _ _ _ _ _ (reached_ok _ _ _ Hok R4) R6 E7) as R7.
  split; [by eapply (left_in Stage_StoryGenerator)|]. exists plan. split.
  - exact (reached_plan _ _ _ _ (reached_ok _ _ _ Hok R4) R7 Hp').
  - pose proof (reached_trans _ _ _ _ _ Hok R4 R7) as R. unfold stages_of. rewrite app_nil_r in R. by rewrite <- !app_assoc in R.
Qed.
(** ** What is committed *)

Definition no_resolution : ValidatedNarrativeResolution := {|
  vnr_candidate_version := {| content_digest := replicate 32 0%N; repair_attempt := 0 |};
  vnr_transitions := []; vnr_condition_results := ∅; vnr_pending_effects := []; vnr_next_graph_revision := 0 |}.
(** A change set of a story alone: both counters of identifiers go back to zero and
    every pending effect of the narrative is dropped. *)
Definition story_only (text : BoundedText) : ValidatedChangeSet := {|
  cs_story_text := text; cs_new_roles := []; cs_role_changes := []; cs_relationship_operations := [];
  cs_knowledge_mutations := []; cs_knowledge_id_high_water := 0%N; cs_next_role_id_high_water := 0%N;
  cs_narrative_events := []; cs_narrative_resolution := no_resolution; cs_constraint_change := Change_Unchanged |}.

Lemma construct_changeset_ok c c' :
  construct_changeset c = Ok c' →
  ∃ story, tc_story c = Some story ∧ c' = set_tc_change_set (λ _, Some (story_only (story_text story))) c.
Proof.
  unfold construct_changeset, ok_or. destruct (tc_story c) as [story|]; [|done]. unfold ValidatedChangeSet_new.
  destruct (is_empty _); [done|]. intros [= <-]. by exists story.
Qed.

Lemma commit_spec_changes `{EventJson} c spec cs :
  tc_change_set c = Some cs → commit_spec c = Ok spec → commit_changes spec = cs.
Proof. intros Hc Hs. unfold commit_spec in Hs. rewrite Hc in Hs. cbn [ok_or] in Hs. repeat (res_step; try done). by subst. Qed.

Lemma committer_ok `{EventJson} c w c' w' :
  pl_execute TurnCommitter c w = (c', w', Ok tt) →
  ∃ spec r, commit_spec c = Ok spec ∧ commit_turn spec w = (w', Ok r) ∧ set_committed_result r c = Ok c'.
Proof.
  cbn. destruct (commit_spec c) as [spec|e]; [|done]. destruct (commit_turn spec w) as [w1 [r|e]] eqn:Hw; [|done].
  destruct (set_committed_result r c) as [c1|e] eqn:Hr; [|done]. intros [= <- <-]. by exists spec, r.
Qed.

(** A run that succeeds: the story is generated, and the committer runs at once. *)
Lemma run_inner_ok `{EventJson} b s t t' :
  build b = Ok s → pb_committer b = Some TurnCommitter → run_inner s t = (t', Ok tt) →
  ∃ t1 story spec w r,
    generate_part s t = (t1, Ok tt) ∧ tc_story (t_ctx t1) = Some story
    ∧ (let ready := set_tc_change_set (λ _, Some (story_only (story_text story))) (set_pahse Phase_ReadyToCommit (t_ctx t1)) in
       commit_spec ready = Ok spec ∧ commit_turn spec w = (t_world t', Ok r) ∧ set_committed_result r ready = Ok (t_ctx t'))
    ∧ t_events t' = t_events t1 ++ [started t1 Stage_TurnCommitter] ∧ tc_phase (t_ctx t') = Phase_Committed.
Proof.
  intros Hb Hc Hr. rewrite run_inner_parts in Hr.
  apply run_bind_ok in Hr as (t1 & [] & Hg & Hr). apply run_bind_ok in Hr as (t2 & [] & Hd & Hr).
  unfold debug_changeset in Hd. apply change_ok in Hd as (ready & Hd & ->).
  apply construct_changeset_ok in Hd as (story & Hstory & ->).
  apply run_bind_ok in Hr as (t3 & [] & He & Hr). apply ask_ok in Hr as [-> Hr].
  destruct (build_ok _ _ Hb) as (_ & _ & _ & _ & _ & _ & Hst & Hcm). rewrite Hc in Hcm. injection Hcm as Hcm.
  rewrite <- Hcm in He. apply execute_ok in He as (_ & Hev & (w & Hp) & Hexit).
  apply committer_ok in Hp as (spec & r & Hspec & Hw & Hset).
  exists t1, story, spec, w, r. split_and!; try done. by eapply (left_in Stage_TurnCommitter).
Qed.

(** C3: A turn that runs to its end has gone through the stages its plan asks for, in their
    order, and has committed the generated story once, through the store, with the change
    set of that text alone: nothing was extracted from it and nothing validated it, the
    counters of knowledge and role identifiers are set to zero and the pending effects of
    the narrative are dropped. *)
Theorem run_commits_story_alone `{EventJson} identity request budget control b s t t' :
  TurnExecutionContext_new identity request budget control = Ok (t_ctx t) →
  build b = Ok s → lawful_set s → pb_committer b = Some TurnCommitter → run_inner s t = (t', Ok tt) →
  ∃ generated plan story spec w r,
    rtc context_step (t_ctx t) generated ∧ tc_phase generated = Phase_StoryReady
    ∧ tc_plan generated = Some plan ∧ tc_story generated = Some story
    ∧ tc_extraction generated = None ∧ tc_validation generated = None
    ∧ commit_changes spec = story_only (story_text story) ∧ commit_turn spec w = (t_world t', Ok r)
    ∧ tc_phase (t_ctx t') = Phase_Committed ∧ tc_committed_result (t_ctx t') = Some r
    ∧ t_events t' = t_events t ++ map (started t) (stages_of plan ++ [Stage_TurnCommitter]).
Proof.
  intros Hn Hb Hl Hc (t1 & story & spec & w & r & Hg & Hstory & (Hspec & Hw & Hset) & Hev & Hend)%(run_inner_ok b); [|done..].
  apply new_ok in Hn as Hok. pose proof (generate_part_ok _ _ _ _ Hb Hl Hok Hg) as (Hph & plan & Hplan & Hre).
  pose proof (reached_ok _ _ _ Hok Hre) as Hok1. unfold context_ok in Hok1. rewrite Hph in Hok1.
  destruct Hok1 as (_ & _ & _ & Hext & Hval).
  exists (t_ctx t1), plan, story, spec, w, r. pose proof (re_steps _ _ _ Hre). split_and!; try done.
  - by eapply commit_spec_changes; [|exact Hspec].
  - unfold set_committed_result in Hset. destruct (expect_phase _ _); [|done]. injection Hset as Hset. by rewrite <- Hset.
  - rewrite Hev, map_app, app_assoc, (re_events _ _ _ Hre). f_equal. cbn. f_equal.
    exact (reached_started _ _ _ Stage_TurnCommitter Hok Hre).
Qed.
End runtime.

Section events.
Context `{RegexEngine} `{TurnJson} `{TurnWorld}.

(** ** Only the runtime starts stages, and it emits nothing else *)

Definition is_stage_start (e : TurnEvent) : bool := match e with Event_StageStarted _ _ => true | _ => false end.
Definition stages_only {A} (m : run A) : Prop := ∀ t, ∃ l,
  t_events (m t).1 = t_events t ++ l ∧ Forall is_stage_start l.

Lemma bind_stages {A B} (m : run A) (k : A → run B) :
  stages_only m → (∀ a, stages_only (k a)) → stages_only (run_bind m k).
Proof.
  intros Hm Hk t. unfold run_bind. specialize (Hm t). destruct (m t) as [t1 [a|e]]; [|done].
  destruct Hm as (l1 & He1 & Hl1). destruct (Hk a t1) as (l2 & He2 & Hl2). exists (l1 ++ l2).
  rewrite He2. cbn in He1. rewrite He1, app_assoc. split; [done|by apply Forall_app].
Qed.
Lemma quiet_stages {A} (m : run A) : (∀ t, t_events (m t).1 = t_events t) → stages_only m.
Proof. intros Hm t. exists []. by rewrite Hm, app_nil_r. Qed.
Lemma ask_stages {A} (f : TurnExecutionContext → result TurnExecutionError A) : stages_only (ask f).
Proof. by apply quiet_stages. Qed.
Lemma change_stages f : stages_only (change f).
Proof. apply quiet_stages. intros t. unfold change. by destruct (f (t_ctx t)). Qed.
Lemma execute_stages p : stages_only (execute p).
Proof.
  intros t. unfold execute. destruct (check_entry _ _); [|by exists []; rewrite app_nil_r].
  destruct (is_cancelled _ _) as [w1 []]; [by exists []; rewrite app_nil_r|].
  destruct (instant_now w1) as [w2 now]. case_match; [by exists []; rewrite app_nil_r|].
  destruct (pl_execute p _ _) as [[c w] outcome]. cbn. eexists. split; [done|]. by constructor.
Qed.
Lemma if_stages {A} (b : bool) (m1 m2 : run A) : stages_only m1 → stages_only m2 → stages_only (if b then m1 else m2).
Proof. by destruct b. Qed.
#[local] Hint Resolve ask_stages change_stages execute_stages if_stages : core.
Lemma run_stages s : stages_only (run_inner s).
Proof. unfold run_inner, retrieve_step, think_step, debug_changeset. repeat (apply bind_stages; [|intros]); auto. Qed.
End events.

Section engine.
Context `{RegexEngine} `{TurnJson} `{EngineWorld} `{Sha256Bytes}.

(** How a session closed: its stages, then one terminal event for its outcome. *)
Definition closed (s : Session) (outcome : TurnRunOutcome) : Prop := ∃ started,
  Forall is_stage_start started
  ∧ s_events s = started ++ [match outcome with
                             | Outcome_Committed r replayed => Event_Committed r replayed
                             | Outcome_Failed e => terminal_event (s_ctx s) e
                             end].

Lemma finalize_closes r p s s' outcome :
  Forall is_stage_start (s_events s) → finalize r p s = (s', outcome) → closed s' outcome.
Proof.
  intros Hs Hf. exists (s_events s). split; [done|]. destruct r as [[r replayed|e]|e]; cbn in Hf; by simplify_eq.
Qed.

Lemma run_pipelines_stages eng c s s' outcome :
  Forall is_stage_start (s_events s) → run_pipelines eng c s = (s', outcome) → Forall is_stage_start (s_events s').
Proof.
  intros Hs. unfold run_pipelines.
  destruct (run_stages (eng_runtime eng) {| t_ctx := c; t_world := s_world s; t_events := s_events s |}) as (l & He & Hl).
  destruct (run_inner _ _) as [t r]. intros [= <- _]. cbn in *. rewrite He. by apply Forall_app.
Qed.

(** C19: Every turn ends with exactly one terminal event, after the stages it started and
    nothing else, and the event tells the outcome the caller gets: committed, with the
    result and whether it was replayed, or failed, cancelled or conflicting, by the kind
    of the error, with the number of the turn once there is one. *)
Theorem engine_closes eng spec w s outcome : execute_turn eng spec w = (s, outcome) → closed s outcome.
Proof.
  unfold execute_turn, execute_turn_inner. intros Ht.
  repeat match type of Ht with
  | (let '(_, _) := run_pipelines ?e ?c ?s0 in _) = _ =>
      destruct (run_pipelines e c s0) as [s1 o] eqn:Hr; apply run_pipelines_stages in Hr; [|by constructor]
  | (let '(_, _) := ?e in _) = _ => destruct e
  | match ?e with _ => _ end = _ => destruct e
  end; (eapply finalize_closes; [|exact Ht]); first [exact Hr|by constructor].
Qed.

(** ** Requests that were committed *)

(** What the engine relies on of its store: a request found is one the store then holds,
    and one not found is not held; a commit that succeeds is held from then on, under its story and its key, with its
    digest and the result returned; and asking the world loses nothing that is held. *)
Class LawfulStore := {
  held : world → StoryId → IdempotencyKey → option StoredTurnOutcome;
  keeps w w' : Prop := ∀ story key o, held w story key = Some o → held w' story key = Some o;
  find_held story key w w' o : find_committed_turn story key w = (w', Ok o) → o = held w' story key;
  commit_held spec w w' r :
    commit_turn spec w = (w', Ok r) →
    held w' (commit_story_id spec) (commit_idempotency_key spec)
    = Some {| sto_request_digest := commit_request_digest spec; sto_result := r |};
  find_keeps story key w : keeps w (find_committed_turn story key w).1;
  now_keeps w : keeps w (instant_now w).1;
  acquire_keeps story deadline token w : keeps w (acquire story deadline token w).1;
  release_keeps p w : keeps w (release p w);
  get_story_keeps story w : keeps w (get_story story w).1;
}.

Section idempotent.
Context `{LawfulStore} `{EventJson}.

#[global] Instance keeps_preorder : PreOrder keeps.
Proof. split; [by intros w story key o|]. intros w1 w2 w3 H12 H23 story key o Ho. by apply H23, H12. Qed.

(** The request [v] is held with the result [r]. *)
Definition holds (w : world) (v : ValidatedExecuteTurnSpec) (r : CommittedTurnResult) : Prop :=
  held w (valid_story_id v) (valid_idempotency_key v)
  = Some {| sto_request_digest := request_digest (valid_request v); sto_result := r |}.

Lemma commit_spec_request c spec :
  commit_spec c = Ok spec →
  commit_story_id spec = tk_story_id (id_key (tc_identity c))
  ∧ commit_idempotency_key spec = id_idempotency_key (tc_identity c)
  ∧ commit_request_digest spec = request_digest (tc_request c).
Proof. unfold commit_spec. intros Hs. repeat (res_step; try done). by subst. Qed.

Lemma reached_request t t' stages :
  context_ok (t_ctx t) → reached t t' stages →
  tc_identity (t_ctx t') = tc_identity (t_ctx t) ∧ tc_request (t_ctx t') = tc_request (t_ctx t).
Proof.
  intros Hok [Hs _]. assert (advances (t_ctx t) (t_ctx t')) as (_ & _ & _ & _ & ? & ? & _); [|done].
  revert Hok. induction Hs as [|x y z Hs _ IH]; intros Hok; [done|].
  etrans; [by apply step_advances|]. apply IH. by eapply step_keeps.
Qed.

Lemma run_holds eng b v turn created_at deadline budget c s s' r replayed :
  build b = Ok (eng_runtime eng) → lawful_set (eng_runtime eng) → pb_committer b = Some TurnCommitter →
  new_context eng v turn created_at deadline budget = Ok c →
  run_pipelines eng c s = (s', Outcome_Committed r replayed) → holds (s_world s') v r.
Proof.
  intros Hb Hl Hc Hn. unfold run_pipelines. destruct (run_inner _ _) as [t' [[]|e]] eqn:Hrun; [|done].
  destruct (tc_committed_result (t_ctx t')) as [r'|] eqn:Hr'; [|done]. intros [= <- <- _]. cbn [s_world].
  apply (run_inner_ok b) in Hrun as (t1 & story & spec & w & r & Hg & _ & (Hspec & Hw & Hset) & _); [|done..].
  assert (context_ok c) as Hok by (by eapply new_ok).
  eapply generate_part_ok in Hg as (_ & plan & _ & Hre); [|exact Hb|exact Hl|exact Hok].
  apply reached_request in Hre as [Hid Hreq]; [|done]. cbn [t_ctx] in Hid, Hreq.
  apply commit_spec_request in Hspec as (S1 & S2 & S3). apply commit_held in Hw. rewrite S1, S2, S3 in Hw. cbn in Hw.
  rewrite Hid, Hreq in Hw. unfold new_context, TurnExecutionContext_new in Hn.
  destruct (_ =? 0)%N; [done|]. injection Hn as <-. cbn in Hw. unfold holds. rewrite Hw.
  unfold set_committed_result in Hset. destruct (expect_phase _ _); [|done]. injection Hset as Hset.
  rewrite <- Hset in Hr'. cbn in Hr'. by injection Hr' as ->.
Qed.

Lemma finalize_held r p s s' r' replayed v :
  finalize r p s = (s', Outcome_Committed r' replayed) → holds (s_world s) v r' → holds (s_world s') v r'.
Proof.
  destruct r as [[r replayed'|e]|e]; cbn; [|done..]. intros [= <- _ _] Hh. cbn.
  destruct p as [p|]; [|done]. by apply release_keeps.
Qed.
Lemma finalize_outcome r p s s' r' replayed :
  finalize r p s = (s', Outcome_Committed r' replayed) → r = Ok (Outcome_Committed r' replayed).
Proof. destruct r as [[r replayed'|e]|e]; cbn; [|done..]. by intros [= _ -> ->]. Qed.
Lemma committed_holds eng b spec w s r replayed :
  build b = Ok (eng_runtime eng) → lawful_set (eng_runtime eng) → pb_committer b = Some TurnCommitter →
  execute_turn eng spec w = (s, Outcome_Committed r replayed) →
  ∃ v, try_into_validated spec = Ok v ∧ holds (s_world s) v r.
Proof.
  intros Hb Hl Hc. unfold execute_turn, execute_turn_inner.
  destruct (try_into_validated spec) as [v|e] eqn:Hv; [|done]. intros Ht. exists v. split; [done|].
  destruct (instant_now w) as [w1 now]. destruct (acquire _ _ _ w1) as [w2 [p|e]]; [|done].
  destruct (get_story _ w2) as [w3 [[info|]|e]]; [|done..].
  destruct (find_committed_turn _ _ w3) as [w4 [[stored|]|e]] eqn:Hfind; [| |done].
  - destruct (bool_decide _) eqn:Hd; [|done]. apply bool_decide_eq_true in Hd.
    eapply finalize_held; [exact Ht|]. apply finalize_outcome in Ht as [= <- _]. cbn [s_world at_world].
    apply find_held in Hfind. unfold holds. rewrite <- Hfind. destruct stored as [digest r']. cbn in *. by rewrite Hd.
  - destruct (candidate_turn_number _) as [turn|e]; [|done]. destruct (engine_budget eng) as [budget|e]; [|done].
    destruct (now_millis w4) as [w5 created_at]. destruct (new_context _ _ _ _ _ _) as [c|e] eqn:Hn; [|done].
    destruct (run_pipelines eng c _) as [s1 outcome] eqn:Hr. eapply finalize_held; [exact Ht|].
    apply finalize_outcome in Ht as [= ->]. by eapply run_holds.
Qed.

Lemma held_replays eng spec v w s r outcome :
  try_into_validated spec = Ok v → holds w v r → execute_turn eng spec w = (s, outcome) →
  length (s_events s) = 1 ∧ (outcome = Outcome_Committed r true ∨ ∃ e, outcome = Outcome_Failed e).
Proof.
  intros Hv Hh. unfold execute_turn, execute_turn_inner. rewrite Hv.
  pose proof (now_keeps w) as K1. destruct (instant_now w) as [w1 now].
  pose proof (λ d t, acquire_keeps (valid_story_id v) d t w1) as K2.
  destruct (acquire _ _ _ w1) as [w2 [p|e]] eqn:Ha; [|intros [= <- <-]; split; [done|by right; eexists]].
  specialize (K2 (now + turn_timeout eng)%N (valid_cancellation v)). rewrite Ha in K2.
  pose proof (get_story_keeps (valid_story_id v) w2) as K3.
  destruct (get_story _ w2) as [w3 [[info|]|e]]; [|by intros [= <- <-]; split; [|right; eexists]..].
  pose proof (find_keeps (valid_story_id v) (valid_idempotency_key v) w3) as K4.
  destruct (find_committed_turn _ _ w3) as [w4 [o|e]] eqn:Hf; [|by intros [= <- <-]; split; [|right; eexists]].
  apply find_held in Hf. assert (holds w4 v r) as Hh4 by (by apply K4, K3, K2, K1).
  unfold holds in Hh4. rewrite <- Hf in Hh4. rewrite Hh4. cbn [sto_request_digest sto_result].
  rewrite bool_decide_true by done. intros [= <- <-]. split; [done|by left].
Qed.


End idempotent.
End engine.

(** ** What the log holds stays *)
Lemma log_find_append key e l x : log_find key l = Some x → log_find key (append_turn e l) = Some x.
Proof. destruct x as [i x]. intros Hf. by apply (list_find_app_l (λ e, le_key e = key) (sl_turns l) [e]). Qed.
Lemma log_step_keeps logs call logs' answer story key o :
  log_step logs call logs' answer → logs_find story key logs = Some o → logs_find story key logs' = Some o.
Proof.
  intros Hstep Ho. destruct Hstep as [spec Hnew l| | | | | | | |commit l usage Hl Hfresh _ _ _ e| | | | | |]; try done.
  - unfold logs_find in *. rewrite lookup_insert_ne; [done|]. intros <-. by rewrite Hnew in Ho.
  - unfold logs_find in *. destruct (decide (commit_story_id commit = story)) as [<-|Hne]; [|by rewrite lookup_insert_ne].
    rewrite lookup_insert_eq. rewrite Hl in Ho. simpl in *.
    destruct (log_find key l) as [[i x]|] eqn:Hf; [|done]. by rewrite (log_find_append _ _ _ _ Hf).
Qed.
Lemma log_run_keeps logs calls logs' answers story key o :
  log_run logs calls logs' answers → logs_find story key logs = Some o → logs_find story key logs' = Some o.
Proof. induction 1 as [|logs call logs1 answer calls logs2 answers Hstep _ IH]; [done|]. eauto using log_step_keeps. Qed.

(** What a commit that succeeds leaves in the log. *)
Lemma log_commit_holds logs commit logs' r :
  log_step logs (Call_Commit commit) logs' (Answer_Committed (Ok r)) →
  logs_find (commit_story_id commit) (commit_idempotency_key commit) logs'
  = Some {| sto_request_digest := commit_request_digest commit; sto_result := r |}.
Proof.
  intros Hs. inversion Hs as [| | |? [digest res] Ho Hd| | | | |? l usage Hl Hf _ _ _ e| | | | | |]; subst; simpl in *.
  - by rewrite <- Hd.
  - unfold logs_find in *. rewrite lookup_insert_eq. rewrite Hl in Hf. simpl in *.
    destruct (log_find _ l) as [p|] eqn:Hn; [by destruct p|].
    unfold log_find in Hn |- *. change (sl_turns (append_turn e l)) with (sl_turns l ++ [e]).
    rewrite list_find_app_r by done. simpl. rewrite decide_True by done. simpl. done.
Qed.

(** ** What any database holds stays *)

Definition has_key (story : StoryId) (key : IdempotencyKey) (e : TurnRowKey * TurnRow) : Prop :=
  e.1.1 = story ∧ row_idempotency_key e.2 = key.
#[local] Instance has_key_dec story key e : Decision (has_key story key e).
Proof. unfold has_key. solve_decision. Defined.
Lemma turn_with_key_filter story key db :
  turn_with_key story key db = snd <$> head (entries (filter (has_key story key) (db_turns db))).
Proof.
  unfold turn_with_key. do 2 f_equal. symmetry. apply entries_filter. intros [k row].
  by rewrite andb_true_iff, !bool_decide_eq_true.
Qed.
Lemma commit_turns commit db db' r :
  commit_in_tx commit db = Ok (db', r) →
  db' = db ∧ (∃ row, turn_with_key (commit_story_id commit) (commit_idempotency_key commit) db = Some row
                ∧ row_request_digest row = commit_request_digest commit ∧ r = row_result row)
  ∨ ∃ plan, commit_written commit plan db db' ∧ r = plan_result plan.
Proof.
  unfold commit_in_tx. destruct (turn_with_key _ _ db) as [row|].
  - case_bool_decide as Hd; [|done]. intros [= <- <-]. left. split; [done|]. by exists row.
  - intros Hc. repeat (res_step; try done). simplify_eq. right. eexists. split; [by apply write_commit_shape|done].
Qed.
Lemma written_finds commit plan db db' story key :
  commit_written commit plan db db' →
  turn_with_key story key db'
  = if decide (commit_story_id commit = story ∧ commit_idempotency_key commit = key) then Some (new_turn commit plan)
    else turn_with_key story key db.
Proof.
  intros Hw. rewrite !turn_with_key_filter, (cw_turns _ _ _ _ Hw). destruct (decide _) as [[<- <-]|Hne].
  - rewrite map_filter_insert_True by done.
    assert (filter (has_key (commit_story_id commit) (commit_idempotency_key commit)) (db_turns db) = ∅) as ->.
    2:{ rewrite insert_empty. unfold entries. by rewrite map_to_list_singleton. }
    apply map_empty. intros [s n]. apply map_lookup_filter_None. right. intros row Hrow [Hs Hk]. simpl in *. subst s. by apply (cw_new_key _ _ _ _ Hw) in Hrow.
  - rewrite map_filter_insert_not'; [done|done|]. intros row Hrow. pose proof (eq_trans (eq_sym Hrow) (cw_new_turn _ _ _ _ Hw)). done.
Qed.
Lemma find_turn_keeps story key db db' row :
  db_turns db' = db_turns db → turn_with_key story key db = Some row → turn_with_key story key db' = Some row.
Proof. unfold turn_with_key. by intros ->. Qed.
Lemma call_finds available call db story key row :
  turn_with_key story key db = Some row → turn_with_key story key (sqlite_call available call db).1 = Some row.
Proof.
  intros Hrow. destruct call as [spec|commit| | |new_id pack|id]; simpl; try done.
  - unfold create_story_instance, in_tx. destruct available; [|done]. simpl.
    destruct (create_in_tx spec db) as [db'|e] eqn:Hc; [|done]. simpl.
    apply create_shape in Hc as (_ & _ & ? & _ & [= _ Ht _ _]). by apply (find_turn_keeps _ _ db).
  - unfold sqlite_commit_turn, in_tx. destruct available; [|done]. simpl.
    destruct (commit_in_tx commit db) as [[db' r]|e] eqn:Hc; [|done]. simpl.
    apply commit_turns in Hc as [[-> _]|(plan & Hw & _)]; [done|]. rewrite (written_finds _ _ _ _ _ _ Hw).
    destruct (decide _) as [[<- <-]|]; [|done]. exfalso. rewrite turn_with_key_filter in Hrow.
    destruct (head _) as [[[s n] x]|] eqn:Hh; [|done]. destruct (entries _) as [|y ys] eqn:He; [done|].
    assert (y ∈ entries (filter (has_key (commit_story_id commit) (commit_idempotency_key commit)) (db_turns db)))
      as Hy by (rewrite He; left). injection Hh as ->.
    apply elem_of_entries, map_lookup_filter_Some in Hy as [Hx [Hs Hk]]. simpl in *. subst s.
    by apply (cw_new_key _ _ _ _ Hw) in Hx.
  - unfold in_tx, import_pack, store_pack_row. repeat (case_match; simplify_eq/=; try done).
  - unfold in_tx, delete_pack. repeat (case_match; simplify_eq/=; try done).
Qed.
Lemma calls_find calls db story key row :
  turn_with_key story key db = Some row → turn_with_key story key (sqlite_calls calls db).1 = Some row.
Proof.
  revert db. induction calls as [|[available call] calls IH]; intros db Hrow; simpl; [done|].
  apply (call_finds available call) in Hrow. destruct (sqlite_call available call db) as [db1 answer].
  simpl in Hrow. apply IH in Hrow. by destruct (sqlite_calls calls db1).
Qed.

(** ** The engine over the store *)

(** Everything besides the database: the clocks, the tokens, the coordinator, whether the
    database answers, and the calls other tasks make in the meantime. *)
Class StoreEnv := {
  env : Type;
  env_permit : Type;
  env_cancelled : TurnCancellation → env → env * bool;
  env_instant : env → env * N;
  env_millis : env → env * Z;
  env_acquire : StoryId → N → TurnCancellation → env → env * result TurnExecutionError env_permit;
  env_release : env_permit → env → env;
  env_available : env → env * bool;
  env_others : env → env * list (bool * StoreCall);
}.

Section stored.
Context `{StoreEnv}.

Record StoreWorld := { sw_db : Database; sw_env : env }.
Definition others_call (w : StoreWorld) : StoreWorld :=
  let '(e, calls) := env_others (sw_env w) in {| sw_db := (sqlite_calls calls (sw_db w)).1; sw_env := e |}.
(** A question to the environment, which the calls of other tasks may precede. *)
Definition asks {A} (f : env → env * A) (w : StoreWorld) : StoreWorld * A :=
  let w := others_call w in let '(e, a) := f (sw_env w) in ({| sw_db := sw_db w; sw_env := e |}, a).
Definition asks_store {A} (f : bool → Database → Database * A) (w : StoreWorld) : StoreWorld * A :=
  let '(w, available) := asks env_available w in
  let '(db, a) := f available (sw_db w) in ({| sw_db := db; sw_env := sw_env w |}, a).

#[global] Instance stored_turn_world : TurnWorld := {|
  world := StoreWorld;
  is_cancelled token := asks (env_cancelled token);
  instant_now := asks env_instant;
  commit_turn spec := asks_store (λ available, sqlite_commit_turn available spec);
|}.
#[global] Instance stored_engine_world : EngineWorld := {|
  permit := env_permit;
  acquire story deadline token := asks (env_acquire story deadline token);
  release p w := (asks (λ e, (env_release p e, tt)) w).1;
  now_millis := asks env_millis;
  get_story story := asks_store (λ available db, (db, answered available (sqlite_get_story story db)));
  find_committed_turn story key :=
    asks_store (λ available db, (db, answered available (sqlite_find_committed_turn story key db)));
|}.

Lemma others_keep w story key row :
  turn_with_key story key (sw_db w) = Some row → turn_with_key story key (sw_db (others_call w)) = Some row.
Proof. unfold others_call. destruct (env_others _) as [e calls]. apply calls_find. Qed.
Lemma asks_keeps {A} (f : env → env * A) w story key row :
  turn_with_key story key (sw_db w) = Some row → turn_with_key story key (sw_db (asks f w).1) = Some row.
Proof. unfold asks. intros Hrow%others_keep. by destruct (f _). Qed.
Lemma asks_store_keeps {A} (f : bool → Database → Database * A) w story key row :
  (∀ available db, turn_with_key story key db = Some row → turn_with_key story key (f available db).1 = Some row) →
  turn_with_key story key (sw_db w) = Some row → turn_with_key story key (sw_db (asks_store f w).1) = Some row.
Proof.
  intros Hf Hrow. unfold asks_store. apply (asks_keeps env_available) in Hrow. destruct (asks _ w) as [w1 available].
  apply (Hf available) in Hrow. by destruct (f available _).
Qed.
Lemma found_iff story key db o :
  sqlite_find_committed_turn story key db = Some o ↔
  ∃ row, turn_with_key story key db = Some row
    ∧ o = {| sto_request_digest := row_request_digest row; sto_result := row_result row |}.
Proof. unfold sqlite_find_committed_turn. destruct (turn_with_key _ _ _) as [row|]; simpl; naive_solver. Qed.
Lemma commit_call_finds available commit db db' r :
  sqlite_commit_turn available commit db = (db', Ok r) →
  sqlite_find_committed_turn (commit_story_id commit) (commit_idempotency_key commit) db'
  = Some {| sto_request_digest := commit_request_digest commit; sto_result := r |}.
Proof.
  unfold sqlite_commit_turn, in_tx. destruct available; [|done]. simpl.
  destruct (commit_in_tx commit db) as [[db1 r1]|e] eqn:Hc; [|done]. intros [= <- <-]. apply found_iff.
  apply commit_turns in Hc as [[-> (row & Hrow & Hd & ->)]|(plan & Hw & ->)].
  - exists row. by rewrite <- Hd.
  - exists (new_turn commit plan). rewrite (written_finds _ _ _ _ _ _ Hw), decide_True by done. done.
Qed.

(** The SQLite store is the store the engine asks for. *)
#[global] Instance sqlite_lawful : LawfulStore.
Proof.
  refine {| held (w : world) story key := sqlite_find_committed_turn story key (sw_db w) |}.
  - intros story key w w' o. cbn. unfold asks_store. destruct (asks _ w) as [w1 []]; simpl; [|done]. by intros [= <- <-].
  - intros spec w w' r. cbn. unfold asks_store. destruct (asks _ w) as [w1 available].
    destruct (sqlite_commit_turn _ _ _) as [db r1] eqn:Hc. intros [= <- ->]. by apply commit_call_finds in Hc.
  - intros story key w s k o (row & Hrow & ->)%found_iff. apply found_iff. exists row. split; [|done].
    by apply asks_store_keeps.
  - intros w s k o (row & Hrow & ->)%found_iff. apply found_iff. exists row. split; [|done]. by apply asks_keeps.
  - intros story deadline token w s k o (row & Hrow & ->)%found_iff. apply found_iff. exists row. split; [|done].
    by apply asks_keeps.
  - intros p w s k o (row & Hrow & ->)%found_iff. apply found_iff. exists row. split; [|done]. by apply asks_keeps.
  - intros story w s k o (row & Hrow & ->)%found_iff. apply found_iff. exists row. split; [|done].
    by apply asks_store_keeps.
Defined.

Lemma calls_keep calls w : keeps w {| sw_db := (sqlite_calls calls (sw_db w)).1; sw_env := sw_env w |}.
Proof.
  intros story key o Ho. cbn in *. apply found_iff in Ho as (row & Hrow & ->). apply found_iff. exists row.
  split; [|done]. by apply calls_find.
Qed.
Lemma keeps_env w e : keeps w {| sw_db := sw_db w; sw_env := e |}.
Proof. by intros story key o Ho. Qed.

Section engine.
Context `{RegexEngine} `{TurnJson} `{Sha256Bytes} `{EventJson}.

End engine.
End stored.
