(* ===== verification/AiseCommitPlan.v ===== *)
(** * The commit of a validated turn

    What validation accepts against a snapshot, the SQLite store accepts as long as the
    snapshot is current: the checks of [commit_turn] on roles, relationships and the
    narrative repeat what the change set was validated for, so the commit is planned.
    The identifiers of a commit are those of its story and its turn, so no row of another
    turn has them; and when the knowledge it names fits what is stored, every statement
    of the commit succeeds and leaves the instance the plan asks for.

    From the context of a turn to the store: a turn that passed validation commits, and so
    does the change set of the story alone that the runtime builds today, with what each
    leaves in the instance. *)

From S2P Require Import Prelude Text AiseIds AiseRule AiseNarrative AiseNarrativeProofs AiseStory AiseTurnData.
From S2P Require Import AiseExtraction AiseConfig AiseScan AisePorts AiseActivation AiseCoordination AiseBudget.
From S2P Require Import AiseValidation AiseContext AiseValidators AiseValidationPipeline AiseValidationProofs.
From S2P Require Import AiseRuntime AiseContextProofs AiseEngineProofs AiseSqlite AiseSqliteReads AiseSqliteLog.
From stdpp Require Import relations.

(** ** Roles *)

Definition insert_role (roles : gmap RoleId StoryRole) (role : StoryRole) : gmap RoleId StoryRole :=
  <[role_role_id role := role]> roles.
Lemma lookup_inserted_roles new roles id :
  NoDup (map role_role_id new) →
  foldl insert_role roles new !! id
  = match list_find (λ role, role_role_id role = id) new with Some (_, role) => Some role | None => roles !! id end.
Proof.
  revert roles. induction new as [|role new IH]; intros roles Hnd; [done|].
  inversion Hnd as [|? ? Hin Hnd']; subst. simpl. rewrite IH by done. destruct (decide (role_role_id role = id)) as [<-|Hne].
  - assert (list_find (λ r, role_role_id r = role_role_id role) new = None) as ->.
    { apply list_find_None, Forall_forall. intros r Hr Heq. apply Hin. rewrite <- Heq. by apply list_elem_of_fmap_2. }
    unfold insert_role. by rewrite lookup_insert_eq.
  - destruct (list_find _ new) as [[i r]|]; simpl; [done|]. unfold insert_role. by rewrite lookup_insert_ne.
Qed.
Lemma add_new_roles_ok new roles :
  NoDup (map role_role_id new) → (∀ role, role ∈ new → roles !! role_role_id role = None) →
  try_fold add_new_role roles new = Ok (foldl insert_role roles new).
Proof.
  revert roles. induction new as [|role new IH]; intros roles Hnd Hfree; [done|].
  inversion Hnd as [|? ? Hin Hnd']; subst. simpl. unfold add_new_role at 1.
  rewrite bool_decide_false by (rewrite (Hfree role); [by intros [? ?]|left]). apply IH; [done|].
  intros r Hr. unfold insert_role. rewrite lookup_insert_ne; [apply Hfree; by right|]. intros Heq. apply Hin. rewrite Heq.
  by apply list_elem_of_fmap_2.
Qed.
(** A role change replaces the state of one role. *)
Lemma change_roles_ok changes roles :
  NoDup (map rsc_role_id changes) → (∀ change, change ∈ changes → is_Some (roles !! rsc_role_id change)) →
  ∃ roles', try_fold change_role roles changes = Ok roles'
    ∧ ∀ id, roles' !! id = match list_find (λ change, rsc_role_id change = id) changes with
        | Some (_, change) => with_state (rsc_new_state change) <$> roles !! id | None => roles !! id end.
Proof.
  revert roles. induction changes as [|change changes IH]; intros roles Hnd Hknown; [by exists roles|].
  inversion Hnd as [|? ? Hin Hnd']; subst. destruct (Hknown change) as [role Hrole]; [left|].
  simpl. unfold change_role at 1. rewrite Hrole.
  destruct (IH (<[rsc_role_id change := with_state (rsc_new_state change) role]> roles)) as (roles' & Hr & Hl); [done| |].
  { intros c Hc. rewrite lookup_insert_ne; [apply Hknown; by right|]. intros Heq. apply Hin. rewrite Heq.
    by apply list_elem_of_fmap_2. }
  exists roles'. split; [done|]. intros id. rewrite Hl. destruct (decide (rsc_role_id change = id)) as [<-|Hne].
  - assert (list_find (λ c, rsc_role_id c = rsc_role_id change) changes = None) as ->.
    { apply list_find_None, Forall_forall. intros c Hc Heq. apply Hin. rewrite <- Heq. by apply list_elem_of_fmap_2. }
    by rewrite lookup_insert_eq, Hrole.
  - rewrite lookup_insert_ne by done. by destruct (list_find _ changes) as [[i c]|].
Qed.

(** ** Relationships *)
Lemma relationships_by_key_dom rels key :
  is_Some (relationships_by_key rels !! key) ↔ key ∈ map relationship_key rels.
Proof.
  unfold relationships_by_key. assert (∀ m : gmap RelationshipKey RelationshipState,
    is_Some (foldl (λ m value, <[relationship_key value := value]> m) m rels !! key) ↔
    is_Some (m !! key) ∨ key ∈ map relationship_key rels) as H.
  { induction rels as [|r rels IH]; intros m; simpl; [set_solver|]. rewrite IH, elem_of_cons.
    rewrite lookup_insert_is_Some. destruct (decide (relationship_key r = key)); naive_solver. }
  rewrite H, lookup_empty. split; [intros [[? [=]]|?]; done|by right].
Qed.
Definition operation_key (op : ValidatedRelationshipOperation) : RelationshipKey := relationship_key (operation_new_state op).
Lemma relationship_operations_ok (ops : list ValidatedRelationshipOperation) (m : gmap RelationshipKey RelationshipState) :
  NoDup (map operation_key ops) →
  (∀ op, op ∈ ops → match op with
     | Rel_Add state => m !! relationship_key state = None
     | Rel_Update change => rlc_key change = relationship_key (rlc_new_state change) ∧ is_Some (m !! rlc_key change)
     end) →
  try_fold apply_relationship_operation m ops
  = Ok (foldl (λ m op, <[operation_key op := operation_new_state op]> m) m ops).
Proof.
  revert m. induction ops as [|op ops IH]; intros m Hnd Hops; [done|].
  inversion Hnd as [|? ? Hin Hnd']; subst. simpl.
  assert (apply_relationship_operation m op = Ok (<[operation_key op := operation_new_state op]> m)) as ->.
  { specialize (Hops op). destruct op as [state|change]; simpl.
    - rewrite bool_decide_false; [done|]. rewrite Hops by left. by intros [? ?].
    - destruct Hops as [Hkey [? Hm]]; [left|]. rewrite Hm, !(bool_decide_false (Some _ = None)) by done.
      rewrite bool_decide_true by done. simpl. unfold operation_key. simpl. by rewrite Hkey. }
  apply IH; [done|]. intros x Hx.
  assert (operation_key op ≠ operation_key x) as Hne by (intros Heq; apply Hin; rewrite Heq; by apply list_elem_of_fmap_2).
  specialize (Hops x). destruct x as [state|change]; unfold operation_key in Hne at 2; simpl in Hne.
  - rewrite lookup_insert_ne by done. apply Hops. by right.
  - destruct Hops as [Hkey Hm]; [by right|]. split; [done|]. rewrite lookup_insert_ne by congruence. done.
Qed.

(** ** Transitions *)
Lemma transitions_ok turn ts s :
  NoDup (pt_node_key <$> ts) → (∀ t, t ∈ ts → node_state s (pt_node_key t) = expected_from (pt_kind t)) →
  ∃ s', try_fold (apply_transition turn) s ts = Ok s' ∧ graph_revision s' = graph_revision s
    ∧ node_states s' = foldl (λ m t, <[pt_node_key t := transition_to (pt_kind t)]> m) (node_states s) ts.
Proof.
  revert s. induction ts as [|t ts IH]; intros s Hnd Hfrom; [by exists s|].
  inversion Hnd as [|? ? Hin Hnd']; subst. simpl. unfold apply_transition at 1.
  rewrite bool_decide_true by (apply Hfrom; left). simpl.
  match goal with |- context [try_fold _ ?s1 ts] => destruct (IH s1 Hnd') as (s' & Hs & Hg & Hn) end.
  - intros x Hx. unfold node_state. simpl. rewrite lookup_insert_ne; [apply Hfrom; by right|]. intros Heq. apply Hin.
    rewrite Heq. by apply list_elem_of_fmap_2.
  - exists s'. by split_and!.
Qed.
Lemma legal_from limits definition state view judgments turn t :
  LegalMove limits definition state view judgments turn t → node_state state (pt_node_key t) = expected_from (pt_kind t).
Proof.
  intros [key t' _ []|key t' Hk%active_of_iff Hm|e _ (_ & Hi & _)]; [done| |done]. by destruct Hm.
Qed.

(** ** The snapshot shows the instance *)

Record snapshot_of (db : Database) (story : StoryId) (s : StoryRow) (i : InstanceRow) (p : PackRow)
    (snapshot : StoryReadSnapshot) : Prop := {
  so_state : stored_state story db = Some (s, i);
  so_pack : db_packs db !! row_pack_id i = Some p;
  so_story : snap_story_id snapshot = story;
  so_revision : snap_base_revision snapshot = as_u64 (row_revision s);
  so_roles : snap_roles snapshot = view_from_role <$> row_roles i;
  so_relationships : snap_relationships snapshot = row_relationships i;
  so_narrative : snap_narrative_state snapshot = row_narrative_state i;
  so_definition : snap_narrative_definition snapshot = row_narrative_definition p;
  so_knowledge : ks_knowledge_id_high_water (snap_knowledge_snapshot snapshot) = Z.to_N (row_knowledge_id_high_water i);
  so_high_water : snap_role_id_high_water snapshot = Z.to_N (row_role_id_high_water i);
}.
Section snapshot.
Context `{StoredJson}.
Lemma load_snapshot_of story limits db snapshot :
  load_story_snapshot story limits db = Ok snapshot → ∃ s i p, snapshot_of db story s i p snapshot.
Proof.
  unfold load_story_snapshot. intros Hl. res_step. apply map_err_ok in Hl. unfold load_snapshot_parts in Heqr.
  res_step. destruct value0 as [s i]. read_results. repeat (res_step; try done). read_results. subst value.
  unfold try_from_snapshot_parts in Hl. repeat (res_step; try done). subst snapshot.
  exists s, i, value1. by split.
Qed.
End snapshot.

(** The checks of a commit for the current revision, given that those of its parts pass. *)
Lemma plan_commit_current db logs commit l s i added roles rels st usage :
  represents db logs → logs !! commit_story_id commit = Some l → stored_state (commit_story_id commit) db = Some (s, i) →
  commit_base_revision commit = N.of_nat (length (sl_turns l)) →
  turn_number (commit_turn_of commit) = N.of_nat (S (length (sl_turns l))) →
  (Z.of_nat (S (S (length (sl_turns l)))) <= 9223372036854775807)%Z →
  try_fold add_new_role (row_roles i) (cs_new_roles (commit_changes commit)) = Ok added →
  try_fold change_role added (cs_role_changes (commit_changes commit)) = Ok roles →
  try_fold apply_relationship_operation (relationships_by_key (row_relationships i))
    (cs_relationship_operations (commit_changes commit)) = Ok rels →
  commit_expected_graph_revision commit = graph_revision (row_narrative_state i) →
  resolved_state (turn_number (commit_turn_of commit)) (cs_narrative_resolution (commit_changes commit))
    (row_narrative_state i) = Ok st →
  aggregate_llm_usage (commit_llm_calls commit) = Ok usage →
  ∃ plan, plan_commit commit db = Ok plan ∧ plan_roles plan = roles ∧ plan_relationships plan = rels
    ∧ plan_narrative_state plan = st.
Proof.
  intros Hrep Hlog Hst Hbase Hnumber Hroom Ha Hc Hrels Hgraph Hres Husage.
  pose proof (rp_bounds _ _ Hrep _ _ Hlog) as Hb. destruct (rp_story _ _ Hrep _ _ Hlog) as (row & Hrow & Hr1 & Hr2 & _).
  assert (row = s) as ->.
  { pose proof Hst as Hs. unfold stored_state in Hs. rewrite Hrow in Hs. simpl in Hs.
    destruct (db_instances db !! commit_story_id commit); [|done]. by injection Hs. }
  unfold plan_commit. rewrite Hst. cbn [ok_or]. rewrite Hr1, Hr2.
  rewrite !as_u64_nat by lia. rewrite !(proj2 (Z.ltb_ge (Z.of_nat (length (sl_turns l))) 0)) by lia. simpl orb.
  rewrite Hbase, N.eqb_refl. cbn [negb]. unfold checked_add.
  rewrite !(proj2 (N.leb_le _ U64_MAX)) by (unfold U64_MAX, I64_MAX in *; lia). cbn [ok_or].
  rewrite Hnumber in *. rewrite (proj2 (N.eqb_eq _ (N.of_nat (S (length (sl_turns l)))))) by lia. cbn [negb].
  rewrite (next_sequence _ _ Hrep _ _ Hlog). rewrite (proj2 (Z.ltb_ge _ _)) by done.
  rewrite Ha, Hc, Hrels, Hgraph, N.eqb_refl. cbn [negb]. rewrite Hres, Husage. eexists. split; [done|]. by split_and!.
Qed.

(** ** The plan of a validated commit *)

(** What the committer asks for a change set. *)
Record commit_for (snapshot : StoryReadSnapshot) (cs : ValidatedChangeSet) (commit : TurnCommitSpec) : Prop := {
  cf_story : commit_story_id commit = snap_story_id snapshot;
  cf_base : commit_base_revision commit = snap_base_revision snapshot;
  cf_graph : commit_expected_graph_revision commit = graph_revision (snap_narrative_state snapshot);
  cf_change_set : commit_changes commit = cs;
}.
Section plan.
Context `{Unicode} `{Sha256Bytes} `{RegexEngine} `{EventPayload} `{StoredJson}.

Lemma build_change_set_resolution c cs snapshot :
  tc_snapshot c = Some snapshot → build_change_set c = Ok cs →
  ∃ view revision judgments turn r,
    resolve (lim_narrative (limits_of c)) (snap_narrative_definition snapshot) (snap_narrative_state snapshot) view
      revision judgments turn = Ok r
    ∧ vnr_transitions (cs_narrative_resolution cs) = res_transitions r.
Proof.
  intros Hs. unfold build_change_set, ValidatedChangeSet_new. intros Hb. repeat (res_step; try done).
  repeat match goal with H : _ * _ |- _ => destruct H end. repeat (res_step; try done). read_results.
  rewrite Hs in *. simplify_eq. simpl. eauto 10.
Qed.

(** The roles after a change set: the new ones are there, and the changes apply. *)
Definition role_after (cs : ValidatedChangeSet) (roles : gmap RoleId StoryRole) (id : RoleId) : option StoryRole :=
  let added := match list_find (λ role, role_role_id role = id) (cs_new_roles cs) with
    | Some (_, role) => Some role | None => roles !! id end in
  match list_find (λ change, rsc_role_id change = id) (cs_role_changes cs) with
  | Some (_, change) => with_state (rsc_new_state change) <$> added | None => added
  end.
Definition relationships_after (cs : ValidatedChangeSet) (rels : list RelationshipState) :
    gmap RelationshipKey RelationshipState :=
  foldl (λ m op, <[operation_key op := operation_new_state op]> m) (relationships_by_key rels) (cs_relationship_operations cs).

(** A commit for a snapshot that is current, of a change set validated against it. *)
Context (db : Database) (logs : Logs) (story : StoryId) (l : StoryLog) (limits : SnapshotLimits)
  (snapshot : StoryReadSnapshot) (c : TurnExecutionContext) (cs : ValidatedChangeSet) (commit : TurnCommitSpec)
  (usage : LlmUsageAggregate).
Context (Hrep : represents db logs) (Hlog : logs !! story = Some l)
  (Hread : load_story_snapshot story limits db = Ok snapshot)
  (Hhigh : (snap_role_id_high_water snapshot <= U64_MAX)%N)
  (Hsnap : tc_snapshot c = Some snapshot) (Hrun : run_deterministic c = Ok []) (Hbuild : build_change_set c = Ok cs)
  (Hfor : commit_for snapshot cs commit)
  (Hentry : NoDup (entry_nodes (snap_narrative_definition snapshot)))
  (Hnumber : turn_number (commit_turn_of commit) = N.of_nat (S (length (sl_turns l))))
  (Hroom : (Z.of_nat (S (S (length (sl_turns l)))) <= 9223372036854775807)%Z)
  (Husage : aggregate_llm_usage (commit_llm_calls commit) = Ok usage).

Lemma roles_view_none (i : InstanceRow) id :
  snap_roles snapshot = view_from_role <$> row_roles i → snapshot_role snapshot id = None → row_roles i !! id = None.
Proof. unfold snapshot_role. intros ->. rewrite lookup_fmap. by destruct (row_roles i !! id). Qed.
Lemma roles_view_some (i : InstanceRow) id :
  snap_roles snapshot = view_from_role <$> row_roles i → is_Some (snapshot_role snapshot id) → is_Some (row_roles i !! id).
Proof. unfold snapshot_role. intros ->. rewrite lookup_fmap. by rewrite fmap_is_Some. Qed.

Lemma change_set_roles (i : InstanceRow) :
  snap_roles snapshot = view_from_role <$> row_roles i → change_set_fits snapshot cs →
  ∃ added roles, try_fold add_new_role (row_roles i) (cs_new_roles cs) = Ok added
    ∧ try_fold change_role added (cs_role_changes cs) = Ok roles ∧ ∀ id, roles !! id = role_after cs (row_roles i) id.
Proof.
  intros Hr Hfits. exists (foldl insert_role (row_roles i) (cs_new_roles cs)).
  destruct (change_roles_ok (cs_role_changes cs) (foldl insert_role (row_roles i) (cs_new_roles cs))) as (roles & Hc & Hl).
  - apply (cf_changes_distinct _ _ Hfits).
  - intros change Hin. destruct (cf_changes _ _ Hfits change Hin) as [Hk _].
    rewrite lookup_inserted_roles by apply (cf_new_distinct _ _ Hfits).
    destruct (list_find _ _) as [[j role]|]; [done|]. by apply (roles_view_some i).
  - exists roles. split; [|split; [done|]].
    + apply add_new_roles_ok; [apply (cf_new_distinct _ _ Hfits)|]. intros role Hin.
      by apply (roles_view_none i), (cf_new_roles _ _ Hfits).
    + intros id. rewrite Hl. unfold role_after. by rewrite !lookup_inserted_roles by apply (cf_new_distinct _ _ Hfits).
Qed.
Lemma change_set_relationships (i : InstanceRow) :
  snap_relationships snapshot = row_relationships i → change_set_fits snapshot cs →
  try_fold apply_relationship_operation (relationships_by_key (row_relationships i)) (cs_relationship_operations cs)
  = Ok (relationships_after cs (row_relationships i)).
Proof.
  intros Hr Hfits. apply relationship_operations_ok; [apply (cf_operations_distinct _ _ Hfits)|]. intros op Hin.
  destruct (cf_operations _ _ Hfits op Hin) as (_ & _ & Hop). rewrite Hr in Hop. destruct op as [state|change]; simpl in *.
  - apply eq_None_not_Some. by rewrite relationships_by_key_dom.
  - destruct Hop as [Hkey (current & Hc & Hck & _)]. split; [done|]. rewrite Hkey. apply relationships_by_key_dom.
    rewrite <- Hck. by apply list_elem_of_fmap_2.
Qed.
Lemma change_set_resolution (i : InstanceRow) turn :
  snap_narrative_state snapshot = row_narrative_state i →
  ∃ s, resolved_state turn (cs_narrative_resolution cs) (row_narrative_state i) = Ok s
    ∧ node_states s = foldl (λ m t, <[pt_node_key t := transition_to (pt_kind t)]> m) (node_states (row_narrative_state i))
        (vnr_transitions (cs_narrative_resolution cs)).
Proof.
  intros Hst. destruct (build_change_set_resolution c cs snapshot Hsnap Hbuild) as (view & rev & js & t & r & Hr & Hts).
  apply resolve_legal in Hr as (_ & Hlegal & Hnd & _). rewrite <- Hts in Hlegal, Hnd.
  destruct (transitions_ok turn (vnr_transitions (cs_narrative_resolution cs)) (row_narrative_state i)) as (s & Hs & _ & Hn).
  - by apply Hnd.
  - intros x Hx. rewrite <- Hst. eapply legal_from. by apply Hlegal.
  - unfold resolved_state. rewrite Hs. by eexists.
Qed.

(** What the commit will write of the instance. *)
Record plan_for (i : InstanceRow) (plan : CommitPlan) : Prop := {
  pf_roles : ∀ id, plan_roles plan !! id = role_after cs (row_roles i) id;
  pf_relationships : plan_relationships plan = relationships_after cs (row_relationships i);
  pf_nodes : node_states (plan_narrative_state plan)
    = foldl (λ m t, <[pt_node_key t := transition_to (pt_kind t)]> m) (node_states (row_narrative_state i))
        (vnr_transitions (cs_narrative_resolution cs));
  pf_fits : plan_fits commit l plan;
}.
Lemma validated_plan :
  ∃ s i plan, stored_state story db = Some (s, i) ∧ plan_commit commit db = Ok plan ∧ plan_for i plan.
Proof.
  destruct (load_snapshot_of _ _ _ _ Hread) as (s & i & p & Hof). destruct Hfor as [F1 F2 F3 F4].
  rewrite (so_story _ _ _ _ _ _ Hof) in F1.
  pose proof (change_set_fits_snapshot c cs snapshot Hsnap Hhigh Hrun Hbuild) as Hfits.
  destruct (change_set_roles i (so_roles _ _ _ _ _ _ Hof) Hfits) as (added & roles & Ha & Hc & Hroles).
  pose proof (change_set_relationships i (so_relationships _ _ _ _ _ _ Hof) Hfits) as Hrels.
  destruct (change_set_resolution i (turn_number (commit_turn_of commit)) (so_narrative _ _ _ _ _ _ Hof)) as (st & Hst & Hn).
  destruct (rp_story _ _ Hrep _ _ Hlog) as (row & Hrow & Hshows).
  assert (row = s) as ->.
  { pose proof (so_state _ _ _ _ _ _ Hof) as Hs. unfold stored_state in Hs. rewrite Hrow in Hs. simpl in Hs.
    destruct (db_instances db !! story); [|done]. by injection Hs. }
  pose proof Hshows as (Hrev & _ & _). pose proof (rp_bounds _ _ Hrep _ _ Hlog) as Hb.
  assert (commit_base_revision commit = N.of_nat (length (sl_turns l))) as Hbase.
  { rewrite F2, (so_revision _ _ _ _ _ _ Hof), Hrev. apply as_u64_nat. lia. }
  subst story. destruct (plan_commit_cases db logs Hrep commit l Hlog) as [[_ [Hne|Hne]]|(_ & _ & Hplan)]; [done|done|].
  destruct (plan_commit_current db logs commit l s i added roles (relationships_after cs (row_relationships i)) st usage)
    as (plan & Hok & Pr & Pl & Pn); rewrite ?F4; try done.
  { apply (so_state _ _ _ _ _ _ Hof). }
  { by rewrite F3, (so_narrative _ _ _ _ _ _ Hof). }
  exists s, i, plan. split; [apply (so_state _ _ _ _ _ _ Hof)|]. split; [done|]. rewrite Hok in Hplan.
  split; [by rewrite Pr|done|by rewrite Pn|done].
Qed.
End plan.

(** ** Names of rows *)

(** The identifiers of events and of outbox records: a story, a turn and a place in it. *)
Definition child_id (tag : string) (story : StoryId) (number : TurnNumber) (seq : N) : string :=
  story +:+ ":turn:" +:+ pretty number +:+ ":" +:+ tag +:+ ":" +:+ pretty seq.

Lemma after_colon y b : (58%N : N) ∈ str_bytes (y +:+ ":" +:+ b).
Proof. rewrite str_bytes_app, elem_of_app. right. by left. Qed.
Lemma colon_split_last x y a b :
  colon_free a → colon_free b → x +:+ ":" +:+ a = y +:+ ":" +:+ b → x = y ∧ a = b.
Proof.
  unfold colon_free. revert y. induction x as [|c x IH]; intros [|d y] Ha Hb Heq.
  - by injection Heq.
  - exfalso. apply Ha. injection Heq as _ Heq. change ("" +:+ a) with a in Heq. rewrite Heq. apply after_colon.
  - exfalso. apply Hb. injection Heq as _ Heq. change ("" +:+ b) with b in Heq. rewrite <- Heq. apply after_colon.
  - injection Heq as -> Heq. by apply IH in Heq as [-> ->].
Qed.
Lemma child_id_inj tag story story' number number' seq seq' :
  colon_free tag → (number <= U64_MAX)%N → (number' <= U64_MAX)%N → (seq <= U64_MAX)%N → (seq' <= U64_MAX)%N →
  child_id tag story number seq = child_id tag story' number' seq' → story = story' ∧ number = number' ∧ seq = seq'.
Proof.
  intros Ht Hn Hn' Hs Hs' Heq. unfold child_id in Heq.
  assert (∀ (s : StoryId) (n : TurnNumber) (q : N), s +:+ ":turn:" +:+ pretty n +:+ ":" +:+ tag +:+ ":" +:+ pretty q
    = (((s +:+ ":" +:+ "turn") +:+ ":" +:+ pretty n) +:+ ":" +:+ tag) +:+ ":" +:+ pretty q) as Hassoc.
  { intros s n q. by rewrite !string_app_assoc. }
  rewrite !Hassoc in Heq. apply colon_split_last in Heq as [Heq Hq]; [|by apply pretty_colon_free..].
  apply colon_split_last in Heq as [Heq _]; [|done..].
  apply colon_split_last in Heq as [Heq Hnum]; [|by apply pretty_colon_free..].
  apply colon_split_last in Heq as [-> _]; [|by apply (bool_decide_unpack _)..].
  split; [done|]. split; by apply (inj pretty).
Qed.

(** ** The rows of a commit are new *)

Definition db_number (n : TurnNumber) : Z := as_i64 n.
(** Events and outbox records are named after a turn that is stored. *)
Record names_ok (db : Database) : Prop := {
  nm_events : ∀ id row, db_events db !! id = Some row → ∃ number seq,
    (number <= I64_MAX)%N ∧ (seq <= U32_MAX)%N ∧ id = child_id "event" (row_event_story row) number seq
    ∧ row_event_turn row = Z.of_N number ∧ row_event_seq row = Z.of_N seq
    ∧ is_Some (db_turns db !! (row_event_story row, Z.of_N number));
  nm_outbox : ∀ id row, db_outbox db !! id = Some row → ∃ number seq,
    (number <= I64_MAX)%N ∧ (seq <= U32_MAX)%N ∧ id = child_id "outbox" (row_outbox_story row) number seq
    ∧ row_outbox_turn row = Z.of_N number
    ∧ is_Some (db_turns db !! (row_outbox_story row, Z.of_N number));
}.
(** A commit names its events and its outbox records after its turn. *)
Record commit_named (commit : TurnCommitSpec) : Prop := {
  nc_number : (turn_number (commit_turn_of commit) <= I64_MAX)%N;
  nc_events : ∀ j e, cs_narrative_events (commit_changes commit) !! j = Some e →
    ev_id e = child_id "event" (commit_story_id commit) (turn_number (commit_turn_of commit)) (N.of_nat j)
    ∧ ev_turn_number e = turn_number (commit_turn_of commit) ∧ (N.of_nat j <= U32_MAX)%N;
  nc_outbox : ∀ j r, commit_outbox commit !! j = Some r →
    ob_id r = child_id "outbox" (commit_story_id commit) (turn_number (commit_turn_of commit)) (N.of_nat j)
    ∧ ob_story_id r = commit_story_id commit ∧ ob_turn_number r = turn_number (commit_turn_of commit)
    ∧ (N.of_nat j <= U32_MAX)%N;
}.

Section named.
Context (commit : TurnCommitSpec) (Hnamed : commit_named commit).
Let story := commit_story_id commit.
Let number := turn_number (commit_turn_of commit).

Definition event_row_of (j : nat) (e : StoryEvent) : EventRow := {|
  row_event_story := story; row_event_turn := Z.of_N number; row_event_seq := Z.of_nat j;
  row_event_kind := EventKind_as_str (ev_kind e); row_event_payload := ev_payload e |}.
Definition event_inserted (m : gmap string EventRow) (e : nat * StoryEvent) : gmap string EventRow :=
  <[ev_id e.2 := event_row_of e.1 e.2]> m.
Definition outbox_inserted (m : gmap string OutboxRow) (r : OutboxRecord) : gmap string OutboxRow :=
  <[ob_id r := {| row_outbox_story := ob_story_id r; row_outbox_turn := as_i64 (ob_turn_number r);
                  row_event_type := ob_event_type r; row_outbox_payload := ob_payload r;
                  row_outbox_created_at := ob_created_at r; row_attempt_count := 0 |}]> m.

(** The rows of this turn are those at the places written so far. *)
Definition events_before (k : nat) (m : gmap string EventRow) : Prop :=
  ∀ id row, m !! id = Some row → row_event_story row = story → row_event_turn row = Z.of_N number →
    ∃ j, j < k ∧ row_event_seq row = Z.of_nat j ∧ id = child_id "event" story number (N.of_nat j).
Definition named_apart (m : gmap string EventRow) : Prop :=
  ∀ id row, m !! id = Some row → ∃ n q, (n <= I64_MAX)%N ∧ (q <= U32_MAX)%N
    ∧ id = child_id "event" (row_event_story row) n q ∧ row_event_turn row = Z.of_N n.

Lemma small_u64 n : (n <= I64_MAX)%N → (n <= U64_MAX)%N.
Proof. unfold I64_MAX, U64_MAX. lia. Qed.
Lemma small_u32 n : (n <= U32_MAX)%N → (n <= U64_MAX)%N.
Proof. unfold U32_MAX, U64_MAX. lia. Qed.
#[local] Hint Resolve small_u64 small_u32 : core.
Lemma event_colon_free : colon_free "event". Proof. by apply (bool_decide_unpack _). Qed.
Lemma outbox_colon_free : colon_free "outbox". Proof. by apply (bool_decide_unpack _). Qed.

Lemma write_events_ok events k db :
  (∀ j e, events !! j = Some e → ev_id e = child_id "event" story number (N.of_nat (k + j))
     ∧ ev_turn_number e = number ∧ (N.of_nat (k + j) <= U32_MAX)%N) →
  is_Some (db_turns db !! (story, Z.of_N number)) → events_before k (db_events db) → named_apart (db_events db) →
  ∃ m, try_fold (write_event story number) db (imap (λ j, pair (k + j)) events) = Ok (set_db_events (λ _, m) db)
    ∧ m = foldl event_inserted (db_events db) (imap (λ j, pair (k + j)) events).
Proof.
  pose proof (nc_number _ Hnamed) as Hn. fold number in Hn.
  revert k db. induction events as [|e events IH]; intros k db He Hturn Hbefore Hap.
  { exists (db_events db). split; [|done]. simpl. by destruct db. }
  destruct (He 0 e eq_refl) as (Hid & Hnum & Hk). rewrite Nat.add_0_r in Hid, Hk.
  rewrite imap_shift. cbn [try_fold foldl].
  assert (write_event story number db (k, e) = Ok (set_db_events <[ev_id e := event_row_of k e]> db)) as ->.
  { unfold write_event. rewrite Hnum, N.eqb_refl. cbn [negb]. rewrite as_i64_small by done. unfold insert_event.
    cbn [row_event_seq row_event_story row_event_turn]. rewrite (proj2 (Z.ltb_ge _ 0)) by lia.
    assert (taken (db_events db) (ev_id e) = false) as ->.
    { apply taken_false. rewrite Hid. destruct (db_events db !! _) as [row|] eqn:Hrow; [|done]. exfalso.
      destruct (Hap _ _ Hrow) as (n & q & Hn' & Hq & Heq & Ht).
      apply child_id_inj in Heq as (Hs & <- & _); [|apply event_colon_free|auto..].
      destruct (Hbefore _ _ Hrow (eq_sym Hs) Ht) as (j & Hj & _ & Heq).
      apply child_id_inj in Heq as (_ & _ & Hkj); [lia|apply event_colon_free|auto|auto|auto|].
      apply small_u32. lia. }
    rewrite (proj2 (some_row_false _ _)).
    2:{ intros id row Hrow. apply not_true_iff_false. rewrite !andb_true_iff, bool_decide_eq_true, !Z.eqb_eq.
        intros [[Hs Ht] Hq]. destruct (Hbefore _ _ Hrow Hs Ht) as (j & Hj & Hseq & _). lia. }
    assert (taken (db_turns db) (story, Z.of_N number) = true) as -> by (by apply taken_true). done. }
  destruct (IH (S k) (set_db_events <[ev_id e := event_row_of k e]> db)) as (m & Hm & Hfold).
  - intros j x Hj. replace (S k + j) with (k + S j) by lia. by apply (He (S j)).
  - done.
  - intros id row Hi Hs Ht. change (<[ev_id e := event_row_of k e]> (db_events db) !! id = Some row) in Hi.
    apply lookup_insert_Some in Hi as [[<- <-]|[Hne Hrow]]; [by exists k; split_and!; [lia|done|]|].
    destruct (Hbefore _ _ Hrow Hs Ht) as (j & Hj & ?). exists j. split; [lia|done].
  - intros id row Hi. change (<[ev_id e := event_row_of k e]> (db_events db) !! id = Some row) in Hi.
    apply lookup_insert_Some in Hi as [[<- <-]|[Hne Hrow]]; [|by apply (Hap _ _ Hrow)].
    exists number, (N.of_nat k). by split_and!.
  - exists m. rewrite Hm. by split.
Qed.

Definition outbox_apart (m : gmap string OutboxRow) : Prop :=
  ∀ id row, m !! id = Some row → ∃ n q, (n <= I64_MAX)%N ∧ (q <= U32_MAX)%N
    ∧ id = child_id "outbox" (row_outbox_story row) n q ∧ (row_outbox_story row = story → n ≠ number).
Lemma write_outbox_ok records k db (m0 : gmap string OutboxRow) :
  (∀ j r, records !! j = Some r → ob_id r = child_id "outbox" story number (N.of_nat (k + j)) ∧ (N.of_nat (k + j) <= U32_MAX)%N) →
  outbox_apart m0 →
  (∀ id row, db_outbox db !! id = Some row → m0 !! id = Some row ∨ ∃ j, j < k ∧ id = child_id "outbox" story number (N.of_nat j)) →
  try_fold write_outbox db records = Ok (set_db_outbox (λ _, foldl outbox_inserted (db_outbox db) records) db).
Proof.
  pose proof (nc_number _ Hnamed) as Hn. fold number in Hn.
  revert k db. induction records as [|r records IH]; intros k db Hr Hap Hin; [simpl; by destruct db|].
  destruct (Hr 0 r eq_refl) as (Hid & Hk). rewrite Nat.add_0_r in Hid, Hk. cbn [try_fold foldl].
  unfold write_outbox at 1, insert_outbox. assert (taken (db_outbox db) (ob_id r) = false) as ->.
  { apply taken_false. rewrite Hid. destruct (db_outbox db !! _) as [row|] eqn:Hrow; [|done]. exfalso.
    destruct (Hin _ _ Hrow) as [Hold|(j & Hj & Heq)].
    - destruct (Hap _ _ Hold) as (n & q & Hn' & Hq & Heq & Hne).
      apply child_id_inj in Heq as (Hs & <- & _); [|apply outbox_colon_free|auto..]. by apply Hne.
    - apply child_id_inj in Heq as (_ & _ & Hkj); [lia|apply outbox_colon_free|auto|auto|auto|]. apply small_u32. lia. }
  rewrite (IH (S k)); [done| |done|].
  - intros j x Hj. replace (S k + j) with (k + S j) by lia. by apply (Hr (S j)).
  - intros id row Hi. apply (lookup_insert_Some (db_outbox db) (ob_id r)) in Hi as [[<- <-]|[Hne Hrow]].
    + right. exists k. split; [lia|done].
    + destruct (Hin _ _ Hrow) as [?|(j & Hj & ?)]; [by left|]. right. exists j. split; [lia|done].
Qed.
End named.

(** ** Knowledge that fits what is stored *)

Definition mutation_key (story : StoryId) (m : ValidatedKnowledgeMutation) : KnowledgeRowKey :=
  match operation m with
  | Op_Add entry => (story, knowledge_kind_str (entry_kind entry), sid_as_str (entry_source_id entry))
  | Op_Update target value => (story, knowledge_kind_str (entry_kind value), sid_as_str target)
  | Op_Delete (Deletable_Rumor id) => (story, "rumor", id)
  | Op_Delete (Deletable_Memory id) => (story, "memory", id)
  end.
(** An addition has a new identifier, an update and a deletion one that is stored, of the
    same kind, and the owner of a memory stays. *)
Definition mutation_fits (story : StoryId) (db : Database) (m : ValidatedKnowledgeMutation) : Prop :=
  match operation m with
  | Op_Add entry =>
      db_knowledge db !! mutation_key story m = None
      ∧ knowledge_row_ok (knowledge_kind_str (entry_kind entry)) (entry_row entry) = true
  | Op_Update target value => ∃ row merged,
      db_knowledge db !! mutation_key story m = Some row ∧ merge_knowledge_update (row_payload row) value = Ok merged
      ∧ knowledge_row_ok (knowledge_kind_str (entry_kind value)) (updated_row row merged) = true
  | Op_Delete _ => is_Some (db_knowledge db !! mutation_key story m)
  end.
Lemma apply_mutations_ok story ms db :
  is_Some (db_stories db !! story) → NoDup (map (mutation_key story) ms) → (∀ m, m ∈ ms → mutation_fits story db m) →
  ∃ k, try_fold (apply_knowledge_mutation story) db ms = Ok (set_db_knowledge (λ _, k) db).
Proof.
  intros Hstory. revert db Hstory. induction ms as [|m ms IH]; intros db Hstory Hnd Hfits.
  { exists (db_knowledge db). by destruct db. }
  inversion Hnd as [|? ? Hin Hnd']; subst.
  assert (∃ v, apply_knowledge_mutation story db m
    = Ok (set_db_knowledge (partial_alter (λ _, v) (mutation_key story m)) db)) as [v Hm].
  { specialize (Hfits m (list_elem_of_here _ _)). unfold mutation_fits, mutation_key, apply_knowledge_mutation in *.
    destruct (operation m) as [entry|target value|target].
    - destruct Hfits as [Hnone Hok]. exists (Some (entry_row entry)). unfold insert_knowledge_entry, insert_knowledge.
      cbn [fst snd]. rewrite Hok. cbn [negb]. apply taken_false in Hnone. rewrite Hnone.
      assert (taken (db_stories db) story = true) as -> by (by apply taken_true). done.
    - destruct Hfits as (row & merged & Hrow & Hmerge & Hok). exists (Some (updated_row row merged)).
      cbv zeta. match type of Hrow with ?stored = _ =>
        match goal with |- context [match ?x with Some _ => _ | None => _ end] => change x with stored end end.
      rewrite Hrow, Hmerge. cbn [fst snd]. by rewrite Hok.
    - exists None. destruct target as [id|id]; apply taken_true in Hfits; rewrite Hfits; done. }
  cbn [try_fold]. rewrite Hm.
  destruct (IH (set_db_knowledge (partial_alter (λ _, v) (mutation_key story m)) db)) as [k Hk]; [done|done| |].
  - intros x Hx. specialize (Hfits x (list_elem_of_further _ _ _ Hx)).
    assert (mutation_key story m ≠ mutation_key story x) as Hne
      by (intros Heq; apply Hin; rewrite Heq; by apply list_elem_of_fmap_2).
    assert (db_knowledge (set_db_knowledge (partial_alter (λ _, v) (mutation_key story m)) db) !! mutation_key story x
      = db_knowledge db !! mutation_key story x) as Hsame by (by apply lookup_partial_alter_ne).
    unfold mutation_fits in *. destruct (operation x); by rewrite Hsame.
  - exists k. by rewrite Hk.
Qed.

(** A delta whose upserts are of facts and rumours, with turns the columns hold. *)
Definition delta_fits (delta : PendingActivationStateDelta) : Prop :=
  ∀ state, state ∈ delta_upserts delta →
    sid_kind (ts_source_id state) ≠ Kind_Memory
    ∧ (∀ n, sticky_through_turn state = Some n → 0 < n <= I64_MAX)%N
    ∧ (∀ n, cooldown_through_turn state = Some n → 0 < n <= I64_MAX)%N.
Lemma upserts_ok story states db :
  is_Some (db_stories db !! story) →
  (∀ state, state ∈ states → sid_kind (ts_source_id state) ≠ Kind_Memory
    ∧ (∀ n, sticky_through_turn state = Some n → 0 < n <= I64_MAX)%N
    ∧ (∀ n, cooldown_through_turn state = Some n → 0 < n <= I64_MAX)%N) →
  ∃ t, try_fold (upsert_state story) db states = Ok (set_db_timed (λ _, t) db).
Proof.
  intros Hstory. revert db Hstory. induction states as [|state states IH]; intros db Hstory Hfits.
  { exists (db_timed db). by destruct db. }
  destruct (Hfits state) as (Hk & Hs & Hc); [left|].
  assert (∃ t, upsert_state story db state = Ok (set_db_timed t db)) as [t Ht].
  { unfold upsert_state. rewrite bool_decide_false by done. unfold try_i64.
    assert (taken (db_stories db) story = true) as Htk by (by apply taken_true).
    destruct (sticky_through_turn state) as [n|]; destruct (cooldown_through_turn state) as [n'|];
      rewrite ?(proj2 (N.leb_le n _)) by (by apply Hs); rewrite ?(proj2 (N.leb_le n' _)) by (by apply Hc);
      cbn [ok_or]; unfold upsert_timed, timed_row_ok; cbn [row_sticky_through_turn row_cooldown_through_turn fst];
      try specialize (Hs _ eq_refl); try specialize (Hc _ eq_refl);
      rewrite ?(proj2 (Z.ltb_lt 0 (Z.of_N n))) by lia; rewrite ?(proj2 (Z.ltb_lt 0 (Z.of_N n'))) by lia;
      simpl; rewrite Htk; by eexists. }
  cbn [try_fold]. rewrite Ht. destruct (IH (set_db_timed t db)) as [t' Ht']; [done|intros x Hx; apply Hfits; by right|].
  exists t'. by rewrite Ht'.
Qed.

(** ** Every statement of the commit succeeds *)

(** The parts of a commit that the store does not check against its base revision. *)
Record commit_fits (db : Database) (commit : TurnCommitSpec) : Prop := {
  ct_mutation_keys : NoDup (map (mutation_key (commit_story_id commit)) (cs_knowledge_mutations (commit_changes commit)));
  ct_mutations : ∀ m, m ∈ cs_knowledge_mutations (commit_changes commit) → mutation_fits (commit_story_id commit) db m;
  ct_delta : delta_fits (commit_activation_state_delta commit);
  ct_knowledge_high_water : (cs_knowledge_id_high_water (commit_changes commit) <= I64_MAX)%N;
  ct_role_high_water : (cs_next_role_id_high_water (commit_changes commit) <= I64_MAX)%N;
}.

Lemma segment_id_turn story story' number number' :
  (number <= U64_MAX)%N → (number' <= U64_MAX)%N →
  story +:+ ":turn:" +:+ pretty number = story' +:+ ":turn:" +:+ pretty number' → story = story' ∧ number = number'.
Proof.
  intros Hn Hn' Heq.
  assert (∀ s (n : N), s +:+ ":turn:" +:+ pretty n = (s +:+ ":" +:+ "turn") +:+ ":" +:+ pretty n) as Hassoc
    by (intros s n; by rewrite !string_app_assoc).
  rewrite !Hassoc in Heq. apply colon_split_last in Heq as [Heq Hp]; [|by apply pretty_colon_free..].
  apply colon_split_last in Heq as [-> _]; [|by apply (bool_decide_unpack _)..]. split; [done|]. by apply (inj pretty).
Qed.
Lemma segment_id_opening story story' number :
  (number <= U64_MAX)%N → story +:+ ":turn:" +:+ pretty number ≠ story' +:+ ":opening".
Proof.
  intros Hn Heq. assert (story +:+ ":turn:" +:+ pretty number = (story +:+ ":turn") +:+ ":" +:+ pretty number) as Hassoc
    by (by rewrite !string_app_assoc).
  rewrite Hassoc in Heq. change ":opening" with (":" +:+ "opening") in Heq.
  apply colon_split_last in Heq as [_ Hp]; [|by apply pretty_colon_free|by apply (bool_decide_unpack _)].
  pose proof (digits_value_digits _ _ _ (digits_value_pretty number Hn)) as Hd. rewrite Hp in Hd.
  by vm_compute in Hd.
Qed.

Section accepted.
Context (db : Database) (logs : Logs) (Hrep : represents db logs) (Hnames : names_ok db) (commit : TurnCommitSpec).
Context (l : StoryLog) (plan : CommitPlan) (Hlog : logs !! commit_story_id commit = Some l).
Context (Hfresh : turn_with_key (commit_story_id commit) (commit_idempotency_key commit) db = None).
Context (Hbase : commit_base_revision commit = N.of_nat (length (sl_turns l))).
Context (Hnumber : turn_number (commit_turn_of commit) = N.of_nat (S (length (sl_turns l)))).
Context (Hplan : plan_fits commit l plan) (Hnamed : commit_named commit) (Hfits : commit_fits db commit).
Let story := commit_story_id commit.
Let n := length (sl_turns l).

Lemma number_z : as_i64 (turn_number (commit_turn_of commit)) = Z.of_nat (S n).
Proof. destruct Hplan as (_ & _ & _ & _ & _ & _ & Hb). rewrite Hnumber, as_i64_small; unfold n in *; lia. Qed.
Lemma story_taken : taken (db_stories db) story = true.
Proof. apply taken_true. destruct (rp_story _ _ Hrep _ _ Hlog) as (row & Hrow & _). by exists row. Qed.

Lemma insert_turn_accepted db1 :
  log_tables db1 = log_tables db →
  insert_turn story (Z.of_nat (S n)) (new_turn commit plan) db1
  = Ok (set_db_turns <[(story, Z.of_nat (S n)) := new_turn commit plan]> db1).
Proof.
  intros [= E1 E2 E3 E4]. destruct Hplan as (u & Hu & Hres & Hrev & Hlast & Hseq & Hb). fold n in Hrev, Hseq, Hb.
  unfold insert_turn, new_turn. cbn [row_base_revision row_committed_revision row_turn_sequence row_idempotency_key].
  rewrite Hrev, Hseq, Hbase, E2, E1, !as_i64_small by (unfold n in *; lia). fold n.
  rewrite (proj2 (Z.leb_gt (Z.of_nat (S n)) 0)), (proj2 (Z.ltb_ge (Z.of_N (N.of_nat n)) 0)),
    (proj2 (Z.leb_gt (Z.of_N (N.of_nat (S n))) (Z.of_N (N.of_nat n)))), (proj2 (Z.leb_gt (Z.of_nat (S (S n))) 0)) by lia.
  simpl orb. cbv iota. assert (taken (db_turns db) (story, Z.of_nat (S n)) = false) as ->.
  { apply taken_false. destruct (db_turns db !! _) as [row|] eqn:Hrow; [|done]. exfalso.
    apply (rp_turns _ _ Hrep) in Hrow as (l' & i & e & Hl' & Hi & Heq & _). unfold story in Hl'. rewrite Hlog in Hl'.
    injection Hl' as <-. apply lookup_lt_Some in Hi. unfold n in Heq. lia. }
  rewrite (proj2 (some_row_false _ _)).
  2:{ intros [s number] row Hrow. apply (rp_turns _ _ Hrep) in Hrow as (l' & i & e & Hl' & Hi & -> & ->).
      cbn [fst row_idempotency_key row_turn_sequence turn_row].
      case_bool_decide as Hs; [|done]. subst s. unfold story in Hl'. rewrite Hlog in Hl'. injection Hl' as <-. cbn [andb].
      apply orb_false_iff. split.
      - apply bool_decide_eq_false. intros Hk. rewrite (turn_with_key_log _ _ Hrep), Hlog in Hfresh. simpl in Hfresh.
        destruct (log_find _ l) as [[]|] eqn:Hf; [done|]. unfold log_find in Hf. apply list_find_None in Hf.
        rewrite Forall_lookup in Hf. by apply Hf in Hi.
      - apply lookup_lt_Some in Hi. apply Z.eqb_neq. unfold n. lia. }
  pose proof story_taken as ->. done.
Qed.
Lemma insert_segment_accepted db1 :
  db_stories db1 = db_stories db → db_segments db1 = db_segments db →
  is_Some (db_turns db1 !! (story, Z.of_nat (S n))) →
  insert_segment (new_segment_id commit) (new_segment commit plan) db1
  = Ok (set_db_segments <[new_segment_id commit := new_segment commit plan]> db1).
Proof.
  intros E1 E3 Hturn. destruct Hplan as (u & Hu & Hres & Hrev & Hlast & Hseq & Hb). fold n in Hseq, Hb.
  unfold insert_segment, new_segment, segment_origin_ok, new_segment_id.
  cbn [row_sequence row_segment_turn row_origin row_segment_story]. rewrite Hseq, number_z, E1, E3.
  rewrite (proj2 (Z.leb_gt (Z.of_nat (S (S n))) 0)), (proj2 (Z.ltb_lt 0 (Z.of_nat (S n)))) by lia.
  rewrite bool_decide_true by done. simpl orb. cbv iota.
  assert (∀ id row, db_segments db !! id = Some row → row_segment_story row = story → ∃ k,
    row_sequence row = Z.of_nat (S k) ∧ k ≤ n ∧ row_segment_turn row = match k with O => None | _ => Some (Z.of_nat k) end) as Hsegs.
  { intros id row Hrow Hs. apply (rp_segments _ _ Hrep) in Hrow as (s & l' & Hl' & [[_ ->]|(i & e & Hi & _ & ->)]); simpl in *.
    - exists 0. split_and!; [done|lia|done].
    - subst s. unfold story in Hl'. rewrite Hlog in Hl'. injection Hl' as <-. exists (S i). apply lookup_lt_Some in Hi.
      split_and!; [done|unfold n; lia|done]. }
  assert (taken (db_segments db) (commit_story_id commit +:+ ":turn:" +:+ pretty (turn_number (commit_turn_of commit))) = false) as ->.
  { apply taken_false. destruct (db_segments db !! _) as [row|] eqn:Hrow; [|done]. exfalso.
    assert (turn_number (commit_turn_of commit) <= U64_MAX)%N as Hu64 by (rewrite Hnumber; unfold U64_MAX, I64_MAX, n in *; lia).
    apply (rp_segments _ _ Hrep) in Hrow as (s & l' & Hl' & [[Heq _]|(i & e & Hi & Heq & _)]).
    - by apply segment_id_opening in Heq.
    - pose proof (rp_bounds _ _ Hrep _ _ Hl') as Hb'. apply lookup_lt_Some in Hi as Hlt.
      apply segment_id_turn in Heq as [<- Heq]; [|done|unfold U64_MAX, I64_MAX in *; lia].
      rewrite Hlog in Hl'. injection Hl' as <-. rewrite Hnumber in Heq. lia. }
  rewrite (proj2 (some_row_false _ _)).
  2:{ intros id row Hrow. case_bool_decide as Hs; [|done]. destruct (Hsegs _ _ Hrow Hs) as (k & Hk & Hle & Ht).
      rewrite (proj2 (Z.eqb_neq _ _)) by lia. apply bool_decide_eq_false. rewrite Ht. destruct k; [done|]. intros [=]. lia. }
  pose proof story_taken as Hst. fold story. rewrite Hst.
  assert (taken (db_turns db1) (story, Z.of_nat (S n)) = true) as -> by (by apply taken_true). done.
Qed.

Lemma turn_not_named number : number = turn_number (commit_turn_of commit) → db_turns db !! (story, Z.of_N number) = None.
Proof.
  intros ->. destruct (db_turns db !! _) as [row|] eqn:Hrow; [|done]. exfalso.
  apply (rp_turns _ _ Hrep) in Hrow as (l' & i & e & Hl' & Hi & Heq & _). unfold story in Hl'. rewrite Hlog in Hl'.
  injection Hl' as <-. apply lookup_lt_Some in Hi. rewrite Hnumber in Heq. lia.
Qed.
Lemma after_rows_accepted db1 :
  db_stories db1 = db_stories db → db_events db1 = db_events db → db_outbox db1 = db_outbox db →
  db_knowledge db1 = db_knowledge db → is_Some (db_turns db1 !! (story, Z.of_nat (S n))) →
  ∃ db2, after_rows commit plan db1 = Ok db2.
Proof.
  intros E1 E2 E3 E4 Hturn. destruct Hfits as [Hkeys Hmut Hdelta _ _]. unfold after_rows.
  assert (Z.of_nat (S n) = Z.of_N (turn_number (commit_turn_of commit))) as Hz by (rewrite Hnumber; unfold n; lia).
  destruct (write_events_ok commit Hnamed (cs_narrative_events (commit_changes commit)) 0 db1) as (m & Hm & _).
  - intros j e Hj. by apply (nc_events _ Hnamed).
  - by rewrite <- Hz.
  - rewrite E2. intros id row Hrow Hs Ht. exfalso. destruct (nm_events _ Hnames _ _ Hrow) as (k & q & _ & _ & _ & Hk & _ & Hx).
    rewrite Hs in Hx. assert (k = turn_number (commit_turn_of commit)) as Heq by lia.
    apply turn_not_named in Heq. unfold story in Heq. rewrite Heq in Hx. by destruct Hx.
  - rewrite E2. intros id row Hrow. destruct (nm_events _ Hnames _ _ Hrow) as (k & q & ? & ? & ? & ? & _).
    by exists k, q.
  - change (imap (λ j, pair (0 + j)) ?x) with (imap pair x) in Hm. rewrite Hm. clear Hm.
    match goal with |- context [match cs_constraint_change ?x with _ => _ end] =>
      set (db2 := match cs_constraint_change x with Change_Unchanged => _ | _ => _ end) end.
    assert (is_Some (db_stories db2 !! story) ∧ db_outbox db2 = db_outbox db ∧ db_knowledge db2 = db_knowledge db) as (S2 & O2 & K2).
    { pose proof story_taken as Hst. apply taken_true in Hst. rewrite <- E1 in Hst. unfold db2.
      destruct (cs_constraint_change _) as [|constraints]; [by split_and!|]. split; [|by split].
      change (is_Some (alter (set_row_active_constraints (λ _, constraints)) (commit_story_id commit) (db_stories db1) !! story)).
      unfold story. rewrite lookup_alter_eq. by apply fmap_is_Some. }
    rewrite (write_outbox_ok commit Hnamed (commit_outbox commit) 0 db2 (db_outbox db)).
    + destruct (apply_mutations_ok (commit_story_id commit) (cs_knowledge_mutations (commit_changes commit))
        (set_db_outbox (λ _, foldl outbox_inserted (db_outbox db2) (commit_outbox commit)) db2)) as [k Hk]; [done|done| |].
      { intros x Hx. specialize (Hmut x Hx). unfold mutation_fits in *.
        change (db_knowledge (set_db_outbox ?f db2)) with (db_knowledge db2). by rewrite K2. }
      rewrite Hk. unfold apply_activation_state_delta.
      match goal with |- context [try_fold (upsert_state _) ?d ?us] => destruct (upserts_ok (commit_story_id commit) us d) as [t Ht] end.
      { destruct (existsb _ _); exact S2. }
      { apply Hdelta. }
      rewrite Ht. by eexists.
    + intros j r Hr. destruct (nc_outbox _ Hnamed j r Hr) as (? & _ & _ & ?). done.
    + intros id row Hrow. destruct (nm_outbox _ Hnames _ _ Hrow) as (k & q & ? & ? & ? & _ & Hx). exists k, q. split_and!; [done..|].
      intros Hs Heq. rewrite Hs in Hx. apply turn_not_named in Heq. unfold story in Heq. rewrite Heq in Hx. by destruct Hx.
    + intros id row Hrow. left. by rewrite <- O2.
Qed.
Lemma write_commit_accepted : ∃ db', write_commit commit plan db = Ok db'.
Proof.
  rewrite write_commit_steps. unfold persist_instance_state.
  rewrite !as_i64_small by (apply (ct_knowledge_high_water _ _ Hfits) || apply (ct_role_high_water _ _ Hfits)).
  rewrite !(proj2 (Z.ltb_ge _ 0)) by lia. simpl orb. cbv iota. rewrite number_z. fold story.
  rewrite insert_turn_accepted; cycle 1.
  { unfold log_tables. simpl. by rewrite dom_alter_L. }
  match goal with |- context [insert_segment _ _ ?d] => set (db1 := d) end.
  assert (is_Some (db_turns db1 !! (story, Z.of_nat (S n)))) as Hturn.
  { exists (new_turn commit plan). apply lookup_insert_eq. }
  rewrite (insert_segment_accepted db1); [|done..].
  match goal with |- context [after_rows _ _ ?d] => destruct (after_rows_accepted d) as [db2 H2]; [done..|] end.
  rewrite H2. apply after_rows_shape in H2 as [change [= A1 _ _ _]]. fold story in A1.
  destruct (rp_story _ _ Hrep _ _ Hlog) as (row & Hrow & Hr1 & Hr2 & _).
  destruct Hplan as (u & Hu & Hres & Hrev & Hlast & Hseq & Hb). unfold advance_story.
  rewrite (proj2 (Z.ltb_ge (Z.of_nat (S n)) 0)) by lia. rewrite A1. simpl. fold story in Hrow. rewrite lookup_alter_eq, Hrow. simpl.
  rewrite Hr1, Hr2, Hlast, Hbase, as_i64_small by lia.
  rewrite !(proj2 (Z.eqb_eq _ _)) by lia. simpl. by eexists.
Qed.
End accepted.

(** ** What a commit does to the instance and to the named rows *)

Definition side_tables (db : Database) := (db_instances db, db_events db, db_outbox db).
Ltac leave_side := intros ? ? ?; res_inv; done.
Lemma insert_turn_side story number row : leaves side_tables (insert_turn story number row).
Proof. unfold insert_turn. leave_side. Qed.
Lemma insert_segment_side id row : leaves side_tables (insert_segment id row).
Proof. unfold insert_segment. leave_side. Qed.
Lemma mutation_side story m : leaves side_tables (λ db, apply_knowledge_mutation story db m).
Proof.
  intros db db'. unfold apply_knowledge_mutation. destruct (operation m) as [entry|target value|target].
  - unfold insert_knowledge_entry, insert_knowledge. intros ?. res_inv. done.
  - case_match; [|done]. intros ?. res_inv. done.
  - intros ?. res_inv. done.
Qed.
Lemma delta_side story delta : leaves side_tables (apply_activation_state_delta story delta).
Proof.
  intros db db' Hd. unfold apply_activation_state_delta in Hd. apply (fold_leaves side_tables) in Hd as ->; [done|].
  intros s db1 db2. unfold upsert_state, upsert_timed. intros ?. res_step. repeat res_step. by subst.
Qed.
Lemma write_event_row story number db j e db' :
  write_event story number db (j, e) = Ok db' →
  ev_turn_number e = number
  ∧ db' = set_db_events <[ev_id e := {| row_event_story := story; row_event_turn := as_i64 (ev_turn_number e);
      row_event_seq := Z.of_nat j; row_event_kind := EventKind_as_str (ev_kind e); row_event_payload := ev_payload e |}]> db.
Proof.
  unfold write_event, insert_event. destruct (N.eqb_spec (ev_turn_number e) number) as [Hn|]; cbn [negb]; [|done].
  intros ?. repeat (res_step; try done).
Qed.
Lemma write_outbox_row db r db' : write_outbox db r = Ok db' → db' = set_db_outbox (λ m, outbox_inserted m r) db.
Proof. unfold write_outbox, insert_outbox. intros ?. repeat (res_step; try done). Qed.

Lemma advance_side id base stored revision number : leaves side_tables (advance_story id base stored revision number).
Proof. unfold advance_story. intros db db' Ha. res_step. case_match; [|done]. res_step. by simplify_eq. Qed.

(** The instance a commit leaves. *)
Record instance_written (commit : TurnCommitSpec) (plan : CommitPlan) (i i' : InstanceRow) : Prop := {
  iw_roles : row_roles i' = plan_roles plan;
  iw_relationships : row_relationships i' = values (plan_relationships plan);
  iw_narrative : row_narrative_state i' = plan_narrative_state plan;
  iw_knowledge : row_knowledge_id_high_water i' = as_i64 (cs_knowledge_id_high_water (commit_changes commit));
  iw_role_high_water : row_role_id_high_water i' = as_i64 (cs_next_role_id_high_water (commit_changes commit));
  iw_pack : row_pack_id i' = row_pack_id i;
  iw_settings : row_settings i' = row_settings i;
  iw_facts : row_fact_values i' = row_fact_values i;
}.
Lemma after_rows_side commit plan db db' :
  after_rows commit plan db = Ok db' →
  (∀ i, db_instances db !! commit_story_id commit = Some i →
     ∃ v, db_instances db' !! commit_story_id commit = Some (set_row_activation_overlay_version v i))
  ∧ (∃ db1, try_fold (write_event (commit_story_id commit) (turn_number (commit_turn_of commit))) db
        (imap pair (cs_narrative_events (commit_changes commit))) = Ok db1 ∧ db_events db' = db_events db1)
  ∧ db_outbox db' = foldl outbox_inserted (db_outbox db) (commit_outbox commit).
Proof.
  unfold after_rows. intros Ha. res_step. rename value into db1. rename Heqr into He.
  set (d1 := match cs_constraint_change _ with Change_Unchanged => _ | _ => _ end) in Ha.
  assert (side_tables d1 = side_tables db1) as Hd1 by (unfold d1; by destruct (cs_constraint_change _)).
  assert (db_instances db1 = db_instances db ∧ db_outbox db1 = db_outbox db) as [I1 O1].
  { apply (try_fold_inv (λ s, db_instances s = db_instances db ∧ db_outbox s = db_outbox db)) in He; [done|done|].
    intros s [j e] s1 _ [<- <-] [_ ->]%write_event_row. done. }
  res_step. rename Heqr into Ho. assert (db_instances value = db_instances db ∧ db_events value = db_events db1
    ∧ db_outbox value = foldl outbox_inserted (db_outbox db) (commit_outbox commit)) as (I2 & E2 & O2).
  { injection Hd1 as D1 D2 D3. rewrite <- I1, <- O1, <- D1, <- D2, <- D3. clear -Ho. revert Ho.
    generalize (commit_outbox commit) as records. intros records. generalize d1 as s. induction records as [|r records IH];
      intros s Ho; cbn [try_fold] in Ho; [by injection Ho as <-|]. destruct (write_outbox s r) as [s1|e] eqn:Hr; [|done].
    apply write_outbox_row in Hr as ->. apply IH in Ho as (-> & -> & ->). done. }
  res_step. apply (fold_leaves side_tables _ _ (mutation_side _)) in Heqr. injection Heqr as I3 E3 O3.
  set (d2 := if existsb _ _ then _ else _) in Ha. res_step. apply delta_side in Heqr. injection Ha as <-.
  injection Heqr as I4 E4 O4.
  assert (db_events d2 = db_events db1 ∧ db_outbox d2 = foldl outbox_inserted (db_outbox db) (commit_outbox commit)) as [E5 O5].
  { rewrite <- E2, <- E3, <- O2, <- O3. unfold d2. by destruct (existsb _ _). }
  split; [|split; [exists db1; split; [done|by rewrite <- E5, <- E4]|by rewrite <- O5, <- O4]].
  intros i Hi. change (db_instances (reconcile_activation_state ?s ?d)) with (db_instances d). rewrite I4.
  rewrite <- I2, <- I3 in Hi. unfold d2. destruct (existsb _ _).
  - exists (λ v, v + 1)%Z. change (alter (set_row_activation_overlay_version (λ v, v + 1)%Z) (commit_story_id commit) (db_instances value0)
      !! commit_story_id commit = Some (set_row_activation_overlay_version (λ v, v + 1)%Z i)). by rewrite lookup_alter_eq, Hi.
  - exists (λ v, v). rewrite Hi. by destruct i.
Qed.
Lemma write_commit_side commit plan db db' :
  write_commit commit plan db = Ok db' →
  (∀ i, db_instances db !! commit_story_id commit = Some i →
     ∃ i', db_instances db' !! commit_story_id commit = Some i' ∧ instance_written commit plan i i')
  ∧ (∃ db1 db2, db_events db1 = db_events db
       ∧ try_fold (write_event (commit_story_id commit) (turn_number (commit_turn_of commit))) db1
           (imap pair (cs_narrative_events (commit_changes commit))) = Ok db2 ∧ db_events db' = db_events db2)
  ∧ db_outbox db' = foldl outbox_inserted (db_outbox db) (commit_outbox commit).
Proof.
  rewrite write_commit_steps. unfold persist_instance_state. intros Hw.
  destruct ((as_i64 _ <? 0)%Z || _); [done|]. cbv iota beta in Hw.
  res_step. apply insert_turn_side in Heqr. injection Heqr as I1 E1 O1.
  res_step. apply insert_segment_side in Heqr. injection Heqr as I2 E2 O2.
  res_step. apply after_rows_side in Heqr as (I3 & (db1 & H1 & E3) & O3). apply advance_side in Hw. injection Hw as I4 E4 O4.
  split; [|split].
  - intros i Hi. rewrite I2, I1 in I3. rewrite I4. destruct (I3 (set_row_roles (λ _, plan_roles plan)
      (set_row_relationships (λ _, values (plan_relationships plan)) (set_row_narrative_state (λ _, plan_narrative_state plan)
      (set_row_knowledge_id_high_water (λ _, as_i64 (cs_knowledge_id_high_water (commit_changes commit)))
      (set_row_role_id_high_water (λ _, as_i64 (cs_next_role_id_high_water (commit_changes commit))) i)))))) as [v Hv].
    { by rewrite lookup_alter_eq, Hi. }
    eexists. split; [exact Hv|]. by split.
  - eexists _, db1. split; [|split; [exact H1|by rewrite E4, E3]]. by rewrite E2, E1.
  - rewrite O4, O3. by rewrite O2, O1.
Qed.

(** Commits that name their rows keep them named. *)
Lemma outbox_fold_lookup records (m : gmap string OutboxRow) id row :
  foldl outbox_inserted m records !! id = Some row →
  m !! id = Some row ∨ ∃ j r, records !! j = Some r ∧ id = ob_id r
    ∧ row_outbox_story row = ob_story_id r ∧ row_outbox_turn row = as_i64 (ob_turn_number r).
Proof.
  revert m. induction records as [|r records IH]; intros m; cbn [foldl]; [by left|].
  intros [Hi|(j & r' & Hj & ?)]%IH; [|right; by exists (S j), r'].
  apply (lookup_insert_Some m (ob_id r)) in Hi as [[<- <-]|[_ Hi]]; [|by left]. right. by exists 0, r.
Qed.
Lemma events_fold_lookup story number events k db db' id row :
  try_fold (write_event story number) db (imap (λ j, pair (k + j)) events) = Ok db' →
  db_events db' !! id = Some row →
  db_events db !! id = Some row ∨ ∃ j e, events !! j = Some e ∧ id = ev_id e ∧ row_event_story row = story
    ∧ row_event_turn row = as_i64 number ∧ row_event_seq row = Z.of_nat (k + j).
Proof.
  revert k db. induction events as [|e events IH]; intros k db; [intros [= <-]; by left|].
  rewrite imap_shift. cbn [try_fold]. intros He Hrow. destruct (write_event _ _ db _) as [db1|err] eqn:Hw; [|done].
  apply write_event_row in Hw as [Hn ->]. destruct (IH _ _ He Hrow) as [Hi|(j & x & Hj & ? & ? & ? & Hs)].
  - match type of Hi with db_events (set_db_events <[?k := ?v]> db) !! _ = _ =>
      change (<[k := v]> (db_events db) !! id = Some row) in Hi; apply lookup_insert_Some in Hi as [[<- <-]|[_ Hi]] end; [|by left].
    right. exists 0, e. simpl. rewrite Hn, Nat.add_0_r. by split_and!.
  - right. exists (S j), x. rewrite Hs. split_and!; [done..|]. f_equal. lia.
Qed.
Lemma write_commit_names commit plan db db' :
  commit_named commit → names_ok db → write_commit commit plan db = Ok db' → names_ok db'.
Proof.
  intros Hnamed Hnames Hw. destruct (write_commit_side _ _ _ _ Hw) as (_ & (d1 & d2 & D1 & D2 & D3) & Ho).
  apply write_commit_shape in Hw as Hs. pose proof (cw_turns _ _ _ _ Hs) as Ht. pose proof (nc_number _ Hnamed) as Hn.
  assert (∀ s n, is_Some (db_turns db !! (s, n)) → is_Some (db_turns db' !! (s, n))) as Hkeep.
  { intros s n Hsn. rewrite Ht. by apply lookup_insert_is_Some'; right. }
  assert (is_Some (db_turns db' !! (commit_story_id commit, Z.of_N (turn_number (commit_turn_of commit))))) as Hnew.
  { rewrite Ht, as_i64_small by done. exists (new_turn commit plan). apply lookup_insert_eq. }
  split.
  - intros id row. rewrite D3. change (imap pair ?x) with (imap (λ j, pair (0 + j)) x) in D2. intros Hrow.
    destruct (events_fold_lookup _ _ _ _ _ _ _ _ D2 Hrow) as [Hi|(j & e & Hj & -> & Hst & Htn & Hsq)].
    + rewrite D1 in Hi. destruct (nm_events _ Hnames _ _ Hi) as (n & q & ? & ? & ? & ? & ? & ?). exists n, q. auto 10.
    + destruct (nc_events _ Hnamed j e Hj) as (Hid & _ & Hle). rewrite Hst, as_i64_small in * by done.
      exists (turn_number (commit_turn_of commit)), (N.of_nat j). split_and!; [done..|by rewrite Hsq; lia|done].
  - intros id row. rewrite Ho. intros [Hi|(j & r & Hj & -> & Hst & Htn)]%outbox_fold_lookup.
    + destruct (nm_outbox _ Hnames _ _ Hi) as (n & q & ? & ? & ? & ? & ?). exists n, q. auto 10.
    + destruct (nc_outbox _ Hnamed j r Hj) as (Hid & Hs' & Hn' & Hle). rewrite Hst, Htn, Hs', Hn', as_i64_small by done.
      exists (turn_number (commit_turn_of commit)), (N.of_nat j). by split_and!.
Qed.

(** ** From the context of a turn to the store *)

Section turn.
Context `{Unicode} `{Sha256Bytes} `{RegexEngine} `{EventPayload} `{StoredJson} `{EventJson}.

Lemma imap_number {A} (l : list A) j : imap (λ i x, (N.of_nat i, x)) l !! j = (λ x, (N.of_nat j, x)) <$> l !! j.
Proof. by rewrite list_lookup_imap. Qed.
Lemma commit_spec_parts c snapshot cs commit :
  tc_snapshot c = Some snapshot → tc_change_set c = Some cs → commit_spec c = Ok commit →
  commit_story_id commit = tk_story_id (id_key (tc_identity c))
  ∧ turn_number (commit_turn_of commit) = tk_turn_number (id_key (tc_identity c))
  ∧ commit_base_revision commit = snap_base_revision snapshot
  ∧ commit_expected_graph_revision commit = graph_revision (snap_narrative_state snapshot)
  ∧ commit_changes commit = cs ∧ commit_llm_calls commit = tc_llm_calls c
  ∧ commit_idempotency_key commit = id_idempotency_key (tc_identity c)
  ∧ ∀ j r, commit_outbox commit !! j = Some r →
      ob_id r = child_id "outbox" (commit_story_id commit) (turn_number (commit_turn_of commit)) (N.of_nat j)
      ∧ ob_story_id r = commit_story_id commit ∧ ob_turn_number r = turn_number (commit_turn_of commit)
      ∧ is_Some (cs_narrative_events cs !! j).
Proof.
  unfold commit_spec. intros Hs Hc Hx. repeat (res_step; try done). read_results. subst commit. simplify_eq. simpl.
  split_and!; [done..|]. intros j r Hr.
  match goal with Ht : traverse _ _ = Ok _ |- _ => apply traverse_ok_Forall2 in Ht as HF end.
  destruct (Forall2_lookup_r _ _ _ _ _ HF Hr) as ([q e] & Hq & Hrec). rewrite imap_number in Hq.
  destruct (cs_narrative_events _ !! j) as [e'|] eqn:He; [|done]. injection Hq as <- <-.
  unfold outbox_record in Hrec. res_step. injection Hrec as <-. done.
Qed.
Lemma build_change_set_events c cs :
  build_change_set c = Ok cs →
  ∀ j e, cs_narrative_events cs !! j = Some e →
    ev_id e = child_id "event" (tk_story_id (id_key (tc_identity c))) (tk_turn_number (id_key (tc_identity c))) (N.of_nat j)
    ∧ ev_turn_number e = tk_turn_number (id_key (tc_identity c)) ∧ (N.of_nat j <= U32_MAX)%N.
Proof.
  unfold build_change_set, ValidatedChangeSet_new. intros Hb. repeat (res_step; try done).
  repeat match goal with Hp : _ * _ |- _ => destruct Hp end. repeat (res_step; try done). subst cs. simpl. intros j e Hj.
  match goal with Ht : traverse (λ '(index, intent), make_event _ _ _ _ _) _ = Ok _ |- _ => apply traverse_ok_Forall2 in Ht as HF end.
  destruct (Forall2_lookup_r _ _ _ _ _ HF Hj) as ([q intent] & Hq & Hev). rewrite list_lookup_imap in Hq.
  destruct (world_event_intents _ !! j) as [x|]; [|done]. injection Hq as <- <-. unfold make_event in Hev.
  destruct (N.ltb_spec U32_MAX (N.of_nat j)) as [|Hle]; [done|]. by injection Hev as <-.
Qed.
Lemma from_issues_refuses issues max_issues r : from_issues issues max_issues = Ok r → result_decision r ≠ Decision_Pass.
Proof.
  unfold from_issues. destruct (bool_decide _); [done|].
  repeat match goal with |- (if ?b then _ else _) = _ → _ => destruct b end; intros Hr; try done; res_step; by injection Hr as <-.
Qed.
Lemma validation_passed c c' :
  validation_execute_inner c = Ok c' → tc_phase c' = Phase_ReadyToCommit →
  run_deterministic c = Ok [] ∧ ∃ cs, build_change_set c = Ok cs ∧ tc_change_set c' = Some cs
    ∧ tc_snapshot c' = tc_snapshot c ∧ tc_identity c' = tc_identity c.
Proof.
  unfold validation_execute_inner. intros Hv Hp. res_step. res_step. case_bool_decide as Hlen.
  - apply length_zero_iff_nil in Hlen as ->. split; [done|]. res_step. exists value. unfold set_validation_result in Hv.
    repeat (res_step; try done). by subst c'.
  - exfalso. res_step. match goal with Hr : from_issues _ _ = Ok _ |- _ => apply from_issues_refuses in Hr as Hd end.
    unfold set_validation_result in Hv. repeat (res_step; try done). subst c'. cbn in Hp.
    by destruct (result_decision _).
Qed.

(** What a commit accepted by its plan comes to. *)
Definition committed (db db' : Database) (logs : Logs) (commit : TurnCommitSpec) (l : StoryLog) (usage : LlmUsageAggregate)
    (written : InstanceRow → InstanceRow → Prop) : Prop :=
  sqlite_commit_turn true commit db = (db', Ok (entry_result (length (sl_turns l)) (commit_entry commit usage)))
  ∧ represents db' (<[commit_story_id commit := append_turn (commit_entry commit usage) l]> logs) ∧ names_ok db'
  ∧ ∃ i i', db_instances db !! commit_story_id commit = Some i ∧ db_instances db' !! commit_story_id commit = Some i'
      ∧ written i i'.
Lemma planned_commits db logs commit l plan usage i s :
  represents db logs → names_ok db → logs !! commit_story_id commit = Some l →
  logs_find (commit_story_id commit) (commit_idempotency_key commit) logs = None →
  commit_base_revision commit = N.of_nat (length (sl_turns l)) →
  turn_number (commit_turn_of commit) = N.of_nat (S (length (sl_turns l))) →
  stored_state (commit_story_id commit) db = Some (s, i) →
  plan_commit commit db = Ok plan → plan_fits commit l plan → aggregate_llm_usage (commit_llm_calls commit) = Ok usage →
  commit_named commit → commit_fits db commit →
  ∃ db', committed db db' logs commit l usage (instance_written commit plan).
Proof.
  intros Hrep Hnames Hl Hfresh%(find_log _ _ Hrep) Hb Hn Hst Hok Hplan Hu Hnamed Hfits.
  destruct (write_commit_accepted db logs Hrep Hnames commit l plan Hl Hfresh Hb Hn Hplan Hnamed Hfits) as [db' Hw].
  exists db'. destruct Hplan as (u & Hu' & P1 & P2 & P3 & P4 & P5). rewrite Hu in Hu'. injection Hu' as <-. split_and!.
  - unfold sqlite_commit_turn, in_tx, commit_in_tx. cbn [negb]. by rewrite Hfresh, Hok, Hw, P1.
  - apply write_commit_shape in Hw. eapply commit_represents; [done..|by split_and!].
  - by eapply write_commit_names.
  - destruct (write_commit_side _ _ _ _ Hw) as (Hi & _). unfold stored_state in Hst.
    destruct (db_stories db !! _); [|done]. simpl in Hst. destruct (db_instances db !! _) as [i0|]; [|done].
    injection Hst as -> ->. destruct (Hi i eq_refl) as (i' & Hi' & Hwr). by exists i, i'.
Qed.


(** C7: The turn the runtime runs today commits a change set of the story alone, and the
    store accepts it against a current snapshot whatever the story holds.  It leaves the
    roles, the relationships and the nodes alone, but it also sets both marks of used
    identifiers back to zero and drops every pending effect of the narrative: what was
    allocated before is free to be allocated again. *)
Theorem story_alone_commits db logs l limits snapshot c c' commit usage :
  represents db logs → names_ok db →
  tc_snapshot c = Some snapshot → tk_story_id (id_key (tc_identity c)) = snap_story_id snapshot →
  load_story_snapshot (snap_story_id snapshot) limits db = Ok snapshot →
  construct_changeset c = Ok c' → commit_spec c' = Ok commit →
  logs !! snap_story_id snapshot = Some l →
  tk_turn_number (id_key (tc_identity c)) = N.of_nat (S (length (sl_turns l))) →
  (Z.of_nat (S (S (length (sl_turns l)))) <= 9223372036854775807)%Z →
  logs_find (snap_story_id snapshot) (id_idempotency_key (tc_identity c)) logs = None →
  aggregate_llm_usage (commit_llm_calls commit) = Ok usage → delta_fits (commit_activation_state_delta commit) →
  ∃ db', committed db db' logs commit l usage (λ i i',
    row_roles i' = row_roles i
    ∧ row_relationships i' = values (relationships_by_key (row_relationships i))
    ∧ node_states (row_narrative_state i') = node_states (row_narrative_state i)
    ∧ pending_effects (row_narrative_state i') = ∅
    ∧ row_knowledge_id_high_water i' = 0%Z ∧ row_role_id_high_water i' = 0%Z).
Proof.
  intros Hrep Hnames Hsnap Hid Hload Hcon Hspec Hl Hnum Hroom Hfresh Hu Hdelta.
  apply construct_changeset_ok in Hcon as (text & _ & ->).
  match type of Hspec with commit_spec ?x = _ =>
    destruct (commit_spec_parts x snapshot (story_only (story_text text)) commit Hsnap eq_refl Hspec)
      as (C1 & C2 & C3 & C4 & C5 & _ & C7 & C8) end. simpl in C1, C2, C7, C8.
  destruct (load_snapshot_of _ _ _ _ Hload) as (s & i & p & Hof). pose proof (so_state _ _ _ _ _ _ Hof) as Hst.
  rewrite Hid in C1. rewrite <- C2 in Hnum. rewrite <- C7 in Hfresh. rewrite <- C1 in *.
  pose proof (rp_bounds _ _ Hrep _ _ Hl) as Hb.
  assert (commit_base_revision commit = N.of_nat (length (sl_turns l))) as Hbase.
  { rewrite C3, (so_revision _ _ _ _ _ _ Hof). destruct (rp_story _ _ Hrep _ _ Hl) as (row & Hrow & Hr & _).
    unfold stored_state in Hst. rewrite Hrow in Hst. simpl in Hst. destruct (db_instances db !! _); [|done].
    injection Hst as -> _. rewrite Hr. apply as_u64_nat. lia. }
  destruct (plan_commit_current db logs commit l s i (row_roles i) (row_roles i) (relationships_by_key (row_relationships i))
    {| graph_revision := graph_revision (row_narrative_state i); node_states := node_states (row_narrative_state i);
       activation_turns := activation_turns (row_narrative_state i); pending_effects := ∅ |} usage)
    as (plan & Hok & Pr & Pl & Pn); rewrite ?C5; try done.
  { by rewrite C4, (so_narrative _ _ _ _ _ _ Hof). }
  assert (plan_fits commit l plan) as Hplan.
  { destruct (plan_commit_cases db logs Hrep commit l Hl) as [[He _]|(_ & _ & Hp)]; [by rewrite Hok in He|by rewrite Hok in Hp]. }
  destruct (planned_commits db logs commit l plan usage i s) as (db' & K1 & K2 & K3 & i0 & i' & K4 & K5 & K6); try done.
  { split.
    - rewrite Hnum. unfold I64_MAX. lia.
    - intros j e. rewrite C5. done.
    - intros j r Hr. destruct (C8 j r Hr) as (_ & _ & _ & e & He). done. }
  { split; rewrite ?C5; [constructor|by intros m Hm%elem_of_nil|done|done|done]. }
  unfold stored_state in Hst. rewrite K4 in Hst. destruct (db_stories db !! _); [|done]. injection Hst as -> ->.
  exists db'. split; [done|]. split; [done|]. split; [done|]. exists i, i'. split; [done|]. split; [done|].
  rewrite (iw_roles _ _ _ _ K6), (iw_relationships _ _ _ _ K6), (iw_narrative _ _ _ _ K6), (iw_knowledge _ _ _ _ K6),
    (iw_role_high_water _ _ _ _ K6), Pr, Pl, Pn, C5. done.
Qed.
End turn.
