(* ===== verification/AiseTurnSample.v ===== *)
(** * A turn of the crate [aise], concretely

    A story, a plan and stages that hand them to the turn, a world that is a clock and
    the requests committed so far; a database with one pack and one story, a turn that
    meets a new role, validated and committed to it; and the witnesses of the theorems on
    the state, the run and the engine of a turn, on validation and on the SQLite store. *)

From S2P Require Import Prelude Text AiseIds AiseRule AiseNarrative AiseStory AiseTurnData AiseExtraction AiseConfig.
From S2P Require Import AiseScan AisePorts AiseActivation AiseCoordination AiseBudget AiseValidation AiseContext.
From S2P Require Import AiseValidators AiseValidationPipeline AiseValidationProofs AiseRuntime AiseEngine.
From S2P Require Import AiseContextProofs AiseEngineProofs AiseSqlite AiseSqliteReads AiseSqliteLog.
From S2P Require Import AiseCommitPlan.
From stdpp Require Import relations.

Module TurnSample.
#[local] Instance turn_regex : RegexEngine :=
  {| Regex := (); regex_build _ _ _ _ _ := Ok (); regex_is_match _ _ := false |}.
#[local] Instance turn_json : TurnJson := {| plan_json _ := Ok "{}"; envelope_json _ := Ok "{}" |}.
#[local] Instance turn_event_json : EventJson := λ _, Some "{}".
#[local] Instance turn_sha : Sha256Bytes := λ l, l.

(** ** The story *)

Definition knowledge : KnowledgeSnapshotRef :=
  {| ks_story_id := "tale"; ks_pack_digest := []; ks_base_revision := 4%N; ks_knowledge_id_high_water := 0%N |}.
Definition profile : StoryProfile :=
  {| profile_language := "en"; profile_genre := []; profile_themes := [];
     profile_style := {| style_tone := []; point_of_view := "third"; tense := "past" |} |}.
Definition settings : InstanceSettings := {| cast_policy := Cast_Open; setting_values := ∅ |}.
Definition character (name : string) : CharacterProfile :=
  {| profile_name := name; profile_appearance := None; profile_personality := None; profile_speaking_style := None;
     dialogue_examples := [] |}.
Definition role (id : RoleId) (controller : RoleController) : StoryRoleView :=
  {| view_role_id := id; view_controller := controller; view_role_label := id; view_narrative_function := "lead";
     view_background := None; view_effective_profile := character id; view_source_character_id := None;
     view_state := {| state_location := "gate"; state_goals := []; state_attributes := ∅ |} |}.
Definition continuity : StoryContinuity :=
  {| con_summary := StorySummary_default;
     recent_segments := [{| seg_sequence := 1%N; seg_origin := Origin_Opening; seg_text := "A gate at dawn." |}] |}.
Definition story : StoryReadSnapshot := {|
  snap_story_id := "tale"; snap_base_revision := 4%N;
  snap_pack := {| fsp_pack_id := "pack"; fsp_pack_key := "pack"; fsp_version := "1.0.0"; fsp_digest := [] |};
  snap_story_title := "The gate"; snap_story_profile := profile; snap_instance_settings := settings;
  snap_roles := list_to_map [("hero", role "hero" (Player "p")); ("guard", role "guard" Ai)];
  snap_player_role_id := "hero"; snap_relationships := [];
  snap_narrative_definition := {| entry_nodes := []; nodes := ∅; edges := [] |};
  snap_narrative_state := NarrativeRuntimeState_initial; snap_fact_values := ∅; snap_story_continuity := continuity;
  snap_active_constraints := []; snap_knowledge_snapshot := knowledge; snap_role_id_high_water := 0%N |}.
Definition baseline : BaselineContext := {|
  base_story_title := "The gate"; base_story_profile := profile; base_instance_settings := settings;
  base_player_role := role_context_view (role "hero" (Player "p")); relevant_roles := [];
  relevant_world_knowledge := {| rwk_facts := []; rwk_rumors := [] |}; role_index := []; knowledge_index := [];
  base_story_continuity := continuity; active_story_constraints := [];
  narrative_graph_state_index := {| ngi_pack_digest := []; ngi_graph_revision := 0; ngi_node_states := ∅ |} |}.
Definition no_projection : NarrativeProjection :=
  {| proj_plan := NarrativePlan_empty; condition_queries := []; expected_graph_revision := 0 |}.
Definition plan : WriterPlan := {|
  story_goal := {| goal_summary := "open the gate" |};
  retrieval_plan := {| character_requests := []; knowledge_requests := [] |};
  character_think_requests := [{| ctr_role_id := "guard"; ctr_reason := "keeps the gate" |}] |}.
Definition decision : CharacterDecision :=
  {| cd_role_id := "guard"; cd_decision := "lets them in"; cd_suggested_utterance := None |}.
Definition text (t : string) : StoryGeneratorOutput := {| story_text := t |}.
Definition envelope : StoryStateExtractionEnvelope := {|
  env_candidate_version := {| content_digest := []; repair_attempt := 0 |}; env_expected_graph_revision := 0;
  env_state := {| new_roles := []; role_states := []; relationship_states := []; add_facts := []; update_facts := [];
    add_rumors := []; update_rumors := []; delete_rumor_ids := []; add_memories := []; update_memories := [];
    delete_memory_ids := []; narrative_condition_judgments := []; cast_policy_violations := [] |};
  narrative_condition_results := [] |}.
Definition repair : BoundedValidationIssues := {|
  bvi_issues := [{| iss_code := Issue_NarrativeInconsistent; iss_class := Class_Story; iss_remedy := Remedy_RepairStory;
                    iss_message := "too short"; iss_location := None |}];
  bvi_max_issues := 8 |}.
Definition result_of (t : string) : CommittedTurnResult := {|
  res_turn_number := 1%N; res_story_revision := 5%N; res_story_text := t;
  res_llm_usage := {| agg_llm_calls := 0; agg_input_tokens := 0; agg_output_tokens := 0; agg_total_tokens := 0 |};
  res_llm_calls := [] |}.

Definition request : TurnRequest := {| player_contribution := "I knock."; request_digest := "digest" |}.
Definition identity : TurnIdentity :=
  {| id_key := {| tk_story_id := "tale"; tk_turn_number := 1%N |}; id_idempotency_key := "key"; id_started_at_ms := 0 |}.
Definition budget : TurnBudget := {| budget_limits := demo_budget_limits; budget_usage := TurnBudgetUsage_default |}.
Definition control : TurnControl := {| control_deadline := 100; control_cancellation := 0%N |}.

(** ** A turn whose story is repaired once *)

Definition apply_ops (ops : list ContextOp) (c : TurnExecutionContext) : result TurnExecutionError TurnExecutionContext :=
  try_fold (λ c op, apply_op op c) c ops.
Lemma apply_ops_steps ops c c' : apply_ops ops c = Ok c' → rtc context_step c c'.
Proof.
  unfold apply_ops. revert c. induction ops as [|op ops IH]; intros c Hc; cbn in Hc; [by injection Hc as ->|].
  destruct (apply_op op c) as [c1|e] eqn:Hop; [|done]. eapply rtc_l; [by exists op|by apply IH].
Qed.

Definition change_set : ValidatedChangeSet := story_only "The gate opens at last.".
Definition generated : list ContextOp :=
  [Op_CompleteInitialization;
   Op_SetPreparedContext story baseline no_projection (PreparedActivation_empty knowledge 1%N);
   Op_SetWriterPlan plan; Op_SkipRetrieval; Op_SetCharacterDecisions [decision]; Op_CompleteContextPreparation;
   Op_SetGeneratedStory (text "The gate opens.")].
Definition repaired : list ContextOp :=
  [Op_SetStateExtraction envelope; Op_SetValidationResult (Validation_RepairStory repair);
   Op_ConsumeCorrectionRound StoryRepair; Op_ReplaceStory (text "The gate opens at last.");
   Op_SetStateExtraction envelope; Op_SetValidationResult (Validation_Pass change_set)].

Definition fresh := TurnExecutionContext_new identity request budget control.
Definition after (ops : list ContextOp) : result TurnExecutionError TurnExecutionContext :=
  let? c := fresh in apply_ops ops c.
Definition phase_after (ops : list ContextOp) : option TurnPhase :=
  match after ops with Ok c => Some (tc_phase c) | Err _ => None end.

Lemma ok_value {E A} (r : result E A) : is_ok r = true → ∃ a, r = Ok a.
Proof. destruct r as [a|e]; [by exists a|done]. Qed.
Lemma fresh_ok : is_ok fresh = true. Proof. by vm_compute. Qed.
Lemma generation_runs : is_ok (after generated) = true. Proof. by vm_compute. Qed.
Lemma repaired_ok : is_ok (let? c := after generated in apply_ops repaired c) = true. Proof. by vm_compute. Qed.
(** The phase and the version of the story after some operations. *)
Definition view_after (ops : list ContextOp) : option (TurnPhase * N) :=
  match after ops with Ok c => Some (tc_phase c, tc_story_version c) | Err _ => None end.
Lemma generated_view : view_after generated = Some (Phase_StoryReady, 1%N). Proof. by vm_compute. Qed.
Lemma repaired_view : view_after (generated ++ repaired) = Some (Phase_ReadyToCommit, 2%N). Proof. by vm_compute. Qed.
Lemma view_ok ops c view : after ops = Ok c → view_after ops = Some view → (tc_phase c, tc_story_version c) = view.
Proof. unfold view_after. intros ->. by intros [= <-]. Qed.
Lemma after_app ops1 ops2 c : after ops1 = Ok c → after (ops1 ++ ops2) = apply_ops ops2 c.
Proof.
  unfold after, apply_ops. destruct fresh as [c0|e]; [|done]. intros Hc. rewrite try_fold_app, Hc. done.
Qed.

Lemma after_fresh ops c0 c : fresh = Ok c0 → after ops = Ok c → rtc context_step c0 c.
Proof. unfold after. intros ->. apply apply_ops_steps. Qed.


(** ** A world: a clock and the requests committed so far *)

Record SampleWorld := { sw_now : N; sw_held : gmap (StoryId * IdempotencyKey) StoredTurnOutcome }.
Definition committed_text (spec : TurnCommitSpec) : CommittedTurnResult := result_of (cs_story_text (commit_changes spec)).
Definition sample_commit (spec : TurnCommitSpec) (w : SampleWorld) : SampleWorld * result StoreError CommittedTurnResult :=
  let key := (commit_story_id spec, commit_idempotency_key spec) in
  match sw_held w !! key with
  | Some o =>
      (w, if bool_decide (sto_request_digest o = commit_request_digest spec) then Ok (sto_result o)
          else Err Store_IdempotencyConflict)
  | None =>
      let o := {| sto_request_digest := commit_request_digest spec; sto_result := committed_text spec |} in
      ({| sw_now := sw_now w; sw_held := <[key := o]> (sw_held w) |}, Ok (sto_result o))
  end.
#[local] Instance sample_world : TurnWorld := {|
  world := SampleWorld;
  is_cancelled _ w := (w, false);
  instant_now w := ({| sw_now := sw_now w + 1; sw_held := sw_held w |}, sw_now w);
  commit_turn := sample_commit;
|}.
#[local] Instance sample_engine_world : EngineWorld := {|
  permit := unit;
  acquire _ _ _ w := (w, Ok ());
  release _ w := w;
  now_millis w := (w, 7%Z);
  get_story i w := (w, Ok (if bool_decide (i = "tale")
    then Some {| info_story_id := i; info_created_at_ms := 0; info_base_revision := 4%N; info_last_committed_turn_number := 0 |}
    else None));
  find_committed_turn i key w := (w, Ok (sw_held w !! (i, key)));
|}.
#[local] Instance sample_store : LawfulStore.
Proof.
  refine {| held (w : world) i key := sw_held w !! (i, key) |}; try by cbn.
  - by intros story key w w' o [= <- <-].
  - intros spec w w' r. cbn. unfold sample_commit. destruct (sw_held w !! _) as [o|] eqn:Ho.
    + case_bool_decide as Hd; [|done]. intros [= <- <-]. rewrite Ho. destruct o. cbn in *. by subst.
    + intros [= <- <-]. cbn. by rewrite lookup_insert_eq.
Defined.

Definition op_pipeline (stage : TurnStage) (ops : list ContextOp) : TurnExecutionPipeline := {|
  pl_stage := stage;
  pl_execute c w := match apply_ops ops c with Ok c' => (c', w, Ok tt) | Err e => (c, w, Err e) end;
|}.
Lemma op_pipeline_lawful stage ops : lawful (op_pipeline stage ops).
Proof. intros c w. cbn. destruct (apply_ops ops c) as [c'|e] eqn:Hc; [|done]. by eapply apply_ops_steps. Qed.

Definition pipelines : TurnPipelineSet := {|
  ps_initializer := TurnInitializer;
  ps_baseline_builder := op_pipeline Stage_BaselineBuilder
    [Op_SetPreparedContext story baseline no_projection (PreparedActivation_empty knowledge 1%N)];
  ps_writer_planner := op_pipeline Stage_WriterPlanner [Op_SetWriterPlan plan];
  ps_retrieval := op_pipeline Stage_ContextRetrieval [];
  ps_character_think := op_pipeline Stage_CharacterThink [Op_SetCharacterDecisions [decision]];
  ps_story_generator := op_pipeline Stage_StoryGenerator [Op_SetGeneratedStory (text "The gate opens.")];
  ps_story_state_extractor := op_pipeline Stage_StoryStateExtractor [Op_SetStateExtraction envelope];
  ps_validation := op_pipeline Stage_Validation [Op_SetValidationResult (Validation_Pass change_set)];
  ps_story_repairer := op_pipeline Stage_StoryRepairer [Op_ReplaceStory (text "The gate opens at last.")];
  ps_committer := TurnCommitter;
|}.
Definition builder : TurnPipelineSetBuilder := {|
  pb_initializer := Some (ps_initializer pipelines); pb_baseline_builder := Some (ps_baseline_builder pipelines);
  pb_writer_planner := Some (ps_writer_planner pipelines); pb_retrieval := Some (ps_retrieval pipelines);
  pb_character_think := Some (ps_character_think pipelines); pb_story_generator := Some (ps_story_generator pipelines);
  pb_story_state_extractor := Some (ps_story_state_extractor pipelines); pb_validation := Some (ps_validation pipelines);
  pb_story_repairer := Some (ps_story_repairer pipelines); pb_committer := Some TurnCommitter;
|}.
Lemma built : build builder = Ok pipelines. Proof. reflexivity. Qed.
Lemma pipelines_lawful : lawful_set pipelines.
Proof. split; [apply initializer_lawful|apply op_pipeline_lawful..]. Qed.

(** ** Its witnesses *)

Definition start_world : SampleWorld := {| sw_now := 0; sw_held := ∅ |}.
Definition turn_of (c : TurnExecutionContext) : Turn := {| t_ctx := c; t_world := start_world; t_events := [] |}.
Lemma ran_ok : is_ok (let? c := fresh in (run_inner pipelines (turn_of c)).2) = true. Proof. by vm_compute. Qed.

Lemma run_commits_story_alone_witness : ∃ c t' r,
  fresh = Ok c ∧ run_inner pipelines (turn_of c) = (t', Ok tt) ∧ tc_committed_result (t_ctx t') = Some r.
Proof.
  destruct (ok_value _ fresh_ok) as [c Hn]. pose proof ran_ok as Hr. rewrite Hn in Hr.
  destruct (run_inner pipelines (turn_of c)) as [t' [[]|e]] eqn:Hrun; [|discriminate Hr].
  destruct (run_commits_story_alone identity request budget control builder pipelines (turn_of c) t' Hn built
    pipelines_lawful eq_refl Hrun) as (_ & _ & _ & _ & _ & r & _ & _ & _ & _ & _ & _ & _ & _ & _ & Hres & _).
  exists c, t', r. split; [exact Hn|]. split; [exact Hrun|exact Hres].
Defined.

Definition engine : AiseEngine := {| eng_runtime := pipelines; eng_config := AiseConfig_default |}.
Definition spec : ExecuteTurnSpec := {|
  spec_story_id := "tale"; spec_idempotency_key := "key"; spec_player_contribution := "I knock."; spec_cancellation := 0%N |}.
Definition outcome_view (o : TurnRunOutcome) : option (string * bool) :=
  match o with Outcome_Committed r replayed => Some (res_story_text r, replayed) | Outcome_Failed _ => None end.
Definition first := execute_turn engine spec start_world.
Definition second := execute_turn engine spec (s_world first.1).
Lemma first_view : outcome_view first.2 = Some ("The gate opens.", false). Proof. by vm_compute. Qed.
Lemma second_view : outcome_view second.2 = Some ("The gate opens.", true). Proof. by vm_compute. Qed.

Lemma engine_closes_witness : closed first.1 first.2 ∧ length (s_events first.1) = 7.
Proof. split; [exact (engine_closes engine spec start_world _ _ (surjective_pairing _))|by vm_compute]. Defined.

End TurnSample.

Module StoredSample.
Import TurnSample.
#[local] Existing Instances turn_regex turn_json turn_event_json turn_sha.
#[local] Instance stored_unicode : Unicode := ascii_unicode.
#[local] Instance stored_payload : EventPayload := {| world_event_payload _ := "{}" |}.
#[local] Instance stored_lengths : StoredJson := {|
  settings_length _ := 2%Z; roles_length _ := 2%Z; relationships_length _ := 2%Z; narrative_state_length _ := 2%Z;
  fact_values_length _ := 2%Z; summary_length _ := 2%Z; constraints_length _ := 2%Z; profile_length _ := 2%Z;
  definition_length _ := 2%Z; role_byte_len _ := 2%N; payload_bytes _ := 2%N |}.

(** ** The database *)

Definition digest : Sha256Digest := replicate 32 7%N.
(** One node, which activates on the first turn. *)
Definition graph : NarrativeGraphDefinition := {|
  entry_nodes := ["dawn"];
  nodes := {[ "dawn" := {| node_title := "Dawn"; dramatic_focus := None; activate_when := Cond_TurnReaches 1;
                           complete_when := Cond_TurnReaches 9; skip_when := None;
                           effects := {| on_activate := []; on_complete := [] |}; terminal := false |} ]};
  edges := [] |}.
Definition book : WorldBook := {|
  wb_spec := WorldSpec_V5; wb_spec_version := Version_5_0; wb_world_book_key := "book";
  wb_meta := {| wbm_name := "The gate"; wbm_version := "1.0.0" |}; wb_facts := ∅; wb_rumors := ∅ |}.
Definition role_definition (id : RoleId) : StoryRoleDefinition := {|
  srd_role_label := id; srd_narrative_function := "lead"; srd_default_profile := character id; srd_background := None;
  srd_initial_state := {| irs_location := "gate"; irs_goals := []; irs_attributes := ∅ |};
  srd_initial_relationships := if bool_decide (id = "guard")
    then [{| rseed_target_role_id := "hero"; rseed_kind := "knows"; rseed_trust := 1 |}] else [];
  srd_seed_memories := [] |}.
Definition pack : StoryPack := {|
  pack_spec := StorySpec_V5; pack_spec_version := Version_5_0;
  pack_meta := {| spm_pack_key := "pack"; spm_title := "The gate"; spm_author := "a"; spm_version := "1.0.0";
                  spm_description := "A gate."; spm_tags := []; spm_cover_asset := None |};
  pack_story := profile;
  pack_roles := list_to_map [("hero", role_definition "hero"); ("guard", role_definition "guard")];
  pack_play := {| play_player_count := 1; playable_role_ids := ["hero"] |};
  pack_world_book := Embedded book;
  pack_start := {| start_scene_key := "gate"; start_location_key := "gate"; start_time := "dawn";
                   start_description := "A gate."; start_opening := "A gate at dawn." |};
  pack_narrative := graph; pack_constraints := ∅; pack_assets := ∅ |}.
Definition pack_row : PackRow := pack_columns
  {| vsp_pack := pack; vsp_canonical_manifest := []; vsp_digest := digest; vsp_resolved_world_book := book |}.
Definition stored_role (id : RoleId) (controller : RoleController) : StoryRole := {|
  role_role_id := id; role_role_controller := controller; role_label := id; role_narrative_function := "lead";
  role_background := None; role_effective_profile := character id; role_source_character := None;
  role_state := {| state_location := "gate"; state_goals := []; state_attributes := ∅ |} |}.
Definition trusts (source target : RoleId) (trust : Z) : RelationshipState :=
  {| rel_source_role_id := source; rel_target_role_id := target; rel_kind := "knows"; rel_trust := trust |}.
Definition tale : MaterializedStoryInstanceSpec := {|
  mat_story_id := "tale";
  mat_pack := {| fsp_pack_id := "pack"; fsp_pack_key := "pack"; fsp_version := "1.0.0"; fsp_digest := digest |};
  mat_settings := settings;
  mat_roles := list_to_map [("hero", stored_role "hero" (Player "p")); ("guard", stored_role "guard" Ai)];
  mat_relationships := [trusts "guard" "hero" 1]; mat_knowledge := []; mat_knowledge_id_high_water := 0%N;
  mat_opening := "A gate at dawn."; mat_narrative_state := NarrativeRuntimeState_initial; mat_fact_values := ∅;
  mat_active_constraints := []; mat_created_at_ms := 0 |}.
Definition packed : Database := (sqlite_call true (Call_ImportPack "pack" pack_row) empty_database).1.
Definition db : Database := (sqlite_call true (Call_Create tale) packed).1.
Definition logs : Logs := {[ "tale" := fresh_log tale ]}.

Lemma db_created : is_ok (create_in_tx tale packed) = true. Proof. by vm_compute. Qed.
Lemma db_represents : represents db logs.
Proof.
  pose proof db_created as Hc. apply ok_value in Hc as [db1 Hc].
  assert (represents packed ∅) as Hrep by (apply (represents_tables empty_database); [reflexivity|apply represents_empty]).
  destruct (create_represents _ _ _ _ Hrep Hc) as [_ Hr]. assert (db = db1) as ->; [|exact Hr].
  unfold db, sqlite_call, create_story_instance, in_tx. cbn [negb]. by rewrite Hc.
Qed.
Lemma db_named : names_ok db.
Proof.
  split; intros id row Hrow; exfalso.
  - assert (db_events db = ∅) as He by (by vm_compute). by rewrite He, lookup_empty in Hrow.
  - assert (db_outbox db = ∅) as He by (by vm_compute). by rewrite He, lookup_empty in Hrow.
Qed.

(** ** The turn *)

Definition limits : SnapshotLimits :=
  snapshot_limits_from_config TurnContentLimitsConfig_default ContextPreparationConfig_default NarrativeConfig_default.
Definition loaded := load_story_snapshot "tale" limits db.
Lemma loaded_ok : is_ok loaded = true. Proof. by vm_compute. Qed.

(** The guard moves and trusts the hero more, and a smith joins the cast. *)
Definition smith : NewRoleDto := {|
  nr_role_id := dynamic_role_id 1; nr_name := "Ada"; nr_role_label := "smith"; nr_narrative_function := "helps";
  nr_background := ""; nr_appearance := ""; nr_personality := ""; nr_speaking_style := ""; nr_location := "gate";
  nr_goals := ["mend the hinge"]; nr_attributes := ∅ |}.
Definition extracted : StoryStateExtractionDto := {|
  new_roles := [smith];
  role_states := [{| rs_role_id := "guard"; rs_location := "gate"; rs_goals := ["keep watch"]; rs_attributes := ∅ |}];
  relationship_states := [{| rsd_source_role_id := "guard"; rsd_target_role_id := "hero"; rsd_kind := "knows"; rsd_trust := 2 |};
    {| rsd_source_role_id := dynamic_role_id 1; rsd_target_role_id := "guard"; rsd_kind := "knows"; rsd_trust := 5 |}];
  add_facts := []; update_facts := []; add_rumors := []; update_rumors := []; delete_rumor_ids := []; add_memories := [];
  update_memories := []; delete_memory_ids := []; narrative_condition_judgments := []; cast_policy_violations := [] |}.
Definition extraction_envelope (dto : StoryStateExtractionDto) : StoryStateExtractionEnvelope := {|
  env_candidate_version := {| content_digest := []; repair_attempt := 0 |}; env_expected_graph_revision := 0;
  env_state := dto; narrative_condition_results := [] |}.
Definition candidate_of (dto : StoryStateExtractionDto) (snapshot : StoryReadSnapshot) : list ContextOp :=
  [Op_CompleteInitialization;
   Op_SetPreparedContext snapshot baseline no_projection (PreparedActivation_empty (snap_knowledge_snapshot snapshot) 1%N);
   Op_SetWriterPlan plan; Op_SkipRetrieval; Op_SetCharacterDecisions [decision]; Op_CompleteContextPreparation;
   Op_SetGeneratedStory (text "The gate opens."); Op_SetStateExtraction (extraction_envelope dto)].
Definition candidate := candidate_of extracted.
Definition validated_from (loaded : result StoreError StoryReadSnapshot)
    : result TurnExecutionError (StoryReadSnapshot * TurnExecutionContext * TurnExecutionContext * TurnCommitSpec) :=
  let? snapshot := map_err store_turn_error loaded in
  let? c := after (candidate snapshot) in
  let? c' := validation_execute_inner c in
  let? commit := commit_spec c' in
  Ok (snapshot, c, c', commit).
Definition validated := validated_from loaded.
Definition prepared (op : ContextOp) (before : option StoryReadSnapshot) : option StoryReadSnapshot :=
  match op with Op_SetPreparedContext snapshot _ _ _ => Some snapshot | _ => before end.
Lemma op_snapshot op c c' :
  apply_op op c = Ok c' → tc_snapshot c' = prepared op (tc_snapshot c) ∧ tc_identity c' = tc_identity c.
Proof.
  intros Hop. destruct op; cbn [apply_op] in Hop; revert Hop; unfold complete_initialization, set_prepared_context,
    replace_activation, set_narrative_projection, set_writer_plan, set_retrieved_context, skip_retrieval,
    set_character_decisions, skip_character_thinking, complete_context_preparation, set_generated_story,
    set_state_extraction, record_state_extraction_failure, set_validation_result, replace_story, replace_state_extraction,
    context_consume_correction_round, set_committed_result, mark_failed, mark_cancelled, mark_conflict, mark_terminal,
    scope_reserve_llm, scope_release_llm, scope_settle_llm; intros Hop.
  all: repeat (res_step; try done); subst; try done.
  all: repeat case_match; simplify_eq; done.
Qed.
Lemma ops_snapshot ops c c' :
  apply_ops ops c = Ok c' →
  tc_snapshot c' = foldl (λ s op, prepared op s) (tc_snapshot c) ops ∧ tc_identity c' = tc_identity c.
Proof.
  unfold apply_ops. revert c. induction ops as [|op ops IH]; intros c Hc; cbn [try_fold] in Hc; [by injection Hc as ->|].
  destruct (apply_op op c) as [c1|e] eqn:Hop; [|done]. apply op_snapshot in Hop as [Hs Hi].
  destruct (IH _ Hc) as [Hsnap Hid]. cbn [foldl]. rewrite Hs in Hsnap. by rewrite Hid, Hi.
Qed.
Lemma candidate_snapshot s c : after (candidate s) = Ok c → tc_snapshot c = Some s ∧ tc_identity c = identity.
Proof.
  unfold after. destruct fresh as [c0|e] eqn:Hf; [|done]. intros Hc. apply ops_snapshot in Hc as [-> ->]. split; [done|].
  unfold fresh, TurnExecutionContext_new in Hf. destruct (_ =? 0)%N; [done|]. by injection Hf as <-.
Qed.
Definition no_usage : LlmUsageAggregate :=
  {| agg_llm_calls := 0; agg_input_tokens := 0; agg_output_tokens := 0; agg_total_tokens := 0 |}.
(** What the witnesses read off the turn. *)
Definition ready (snapshot : StoryReadSnapshot) (commit : TurnCommitSpec) : bool :=
  bool_decide (snap_story_id snapshot = "tale") && (snap_role_id_high_water snapshot =? 0)%N
  && bool_decide (entry_nodes (snap_narrative_definition snapshot) = ["dawn"])
  && bool_decide (commit_story_id commit = "tale")
  && match commit_llm_calls commit with [] => true | _ => false end
  && match cs_knowledge_mutations (commit_changes commit) with [] => true | _ => false end
  && match delta_upserts (commit_activation_state_delta commit) with [] => true | _ => false end
  && (cs_knowledge_id_high_water (commit_changes commit) =? 0)%N.
Lemma validated_ready :
  match validated with
  | Ok (snapshot, _, _, commit) => ready snapshot commit && (cs_next_role_id_high_water (commit_changes commit) =? 1)%N
      && bool_decide (map role_role_id (cs_new_roles (commit_changes commit)) = [dynamic_role_id 1])
      && bool_decide (length (vnr_transitions (cs_narrative_resolution (commit_changes commit))) = 1)
  | Err _ => false
  end = true.
Proof. by vm_compute. Qed.
Lemma steps_parts {S E A B C D} (m : S → E) (f : A → result E B) (g : B → result E C) (h : C → result E D) r a b c d :
  (let? a := map_err m r in let? b := f a in let? c := g b in let? d := h c in Ok (a, b, c, d)) = Ok (a, b, c, d) →
  r = Ok a ∧ f a = Ok b ∧ g b = Ok c ∧ h c = Ok d.
Proof. intros Hv. repeat (res_step; try done). read_results. by simplify_eq. Qed.
Lemma validated_parts loaded snapshot c c' commit :
  validated_from loaded = Ok (snapshot, c, c', commit) →
  loaded = Ok snapshot ∧ after (candidate snapshot) = Ok c ∧ validation_execute_inner c = Ok c' ∧ commit_spec c' = Ok commit.
Proof. exact (steps_parts store_turn_error (λ s, after (candidate s)) validation_execute_inner commit_spec _ _ _ _ _). Qed.
Lemma ready_parts snapshot commit :
  ready snapshot commit = true →
  snap_story_id snapshot = "tale" ∧ (snap_role_id_high_water snapshot <= U64_MAX)%N
  ∧ NoDup (entry_nodes (snap_narrative_definition snapshot)) ∧ commit_story_id commit = "tale"
  ∧ aggregate_llm_usage (commit_llm_calls commit) = Ok no_usage
  ∧ cs_knowledge_mutations (commit_changes commit) = [] ∧ delta_fits (commit_activation_state_delta commit)
  ∧ cs_knowledge_id_high_water (commit_changes commit) = 0%N.
Proof.
  unfold ready, delta_fits. rewrite !andb_true_iff, !bool_decide_eq_true, !N.eqb_eq.
  intros [[[[[[[-> ->] ->] ->] Hc] Hm] Hd] ->]. destruct (commit_llm_calls commit); [|done].
  destruct (cs_knowledge_mutations _); [|done]. destruct (delta_upserts _); [|done].
  split_and!; try done; [by apply NoDup_singleton|]. by intros state Hs%elem_of_nil.
Qed.
Lemma tale_log : logs !! "tale" = Some (fresh_log tale). Proof. apply lookup_singleton_eq. Qed.
Lemma tale_room : (Z.of_nat (S (S (length (sl_turns (fresh_log tale))))) <= 9223372036854775807)%Z. Proof. by vm_compute. Qed.

Lemma tale_new key : logs_find "tale" key logs = None. Proof. by vm_compute. Qed.
Lemma no_knowledge_fits db commit :
  cs_knowledge_mutations (commit_changes commit) = [] → delta_fits (commit_activation_state_delta commit) →
  cs_knowledge_id_high_water (commit_changes commit) = 0%N → cs_next_role_id_high_water (commit_changes commit) = 1%N →
  commit_fits db commit.
Proof.
  intros Hm Hd Hk Hhw. split; rewrite ?Hm, ?Hk, ?Hhw; [constructor|by intros m Hin%elem_of_nil|exact Hd| |];
    unfold I64_MAX; lia.
Qed.



(** A relationship without a kind passes the validators, and its change set cannot be built. *)
Definition unkind : StoryStateExtractionDto := {|
  new_roles := []; role_states := [];
  relationship_states := [{| rsd_source_role_id := "guard"; rsd_target_role_id := "hero"; rsd_kind := ""; rsd_trust := 2 |}];
  add_facts := []; update_facts := []; add_rumors := []; update_rumors := []; delete_rumor_ids := []; add_memories := [];
  update_memories := []; delete_memory_ids := []; narrative_condition_judgments := []; cast_policy_violations := [] |}.
Definition unkind_context : result TurnExecutionError TurnExecutionContext :=
  let? snapshot := map_err store_turn_error loaded in after (candidate_of unkind snapshot).
Definition holds {A} (o : option A) : bool := match o with Some _ => true | None => false end.
Lemma holds_some {A} (o : option A) : holds o = true → is_Some o.
Proof. destruct o; [by eexists|done]. Qed.
Definition unkind_view (c : TurnExecutionContext) : bool :=
  holds (tc_story c) && holds (tc_extraction c) && holds (tc_snapshot c) && holds (tc_narrative_projection c)
  && match run_deterministic c with Ok [] => true | _ => false end
  && match build_change_set c with Err e => bool_decide (err_code e = "relationship_kind_invalid") | Ok _ => false end.
Lemma unkind_ok : match unkind_context with Ok c => unkind_view c | Err _ => false end = true.
Proof. by vm_compute. Qed.
Lemma unkind_parts c :
  unkind_view c = true →
  is_Some (tc_story c) ∧ is_Some (tc_extraction c) ∧ is_Some (tc_snapshot c) ∧ is_Some (tc_narrative_projection c)
  ∧ run_deterministic c = Ok [] ∧ ∃ e, build_change_set c = Err e ∧ err_code e = "relationship_kind_invalid".
Proof.
  unfold unkind_view. destruct (run_deterministic c) as [[|issue issues]|e0]; rewrite ?andb_false_r; try discriminate.
  destruct (build_change_set c) as [cs|e]; rewrite ?andb_false_r; try discriminate.
  rewrite !andb_true_iff. intros [[[[[H1%holds_some H2%holds_some] H3%holds_some] H4%holds_some] _] H5].
  apply bool_decide_eq_true in H5. split_and!; try assumption; [reflexivity|]. exists e. by split.
Qed.

(** The run of a turn leaves validation out: it sets the phase itself. *)
Definition shortened (snapshot : StoryReadSnapshot) : result TurnExecutionError TurnExecutionContext :=
  let? c := after (candidate snapshot) in Ok (set_pahse Phase_ReadyToCommit c).
Lemma shortened_snapshot s c : shortened s = Ok c → tc_snapshot c = Some s ∧ tc_identity c = identity.
Proof.
  unfold shortened. destruct (after (candidate s)) as [c0|e] eqn:Ha; [|discriminate 1]. intros [= <-].
  exact (candidate_snapshot _ _ Ha).
Qed.
Definition story_only_from (loaded : result StoreError StoryReadSnapshot)
    : result TurnExecutionError (StoryReadSnapshot * TurnExecutionContext * TurnExecutionContext * TurnCommitSpec) :=
  let? snapshot := map_err store_turn_error loaded in
  let? c := shortened snapshot in
  let? c' := construct_changeset c in
  let? commit := commit_spec c' in
  Ok (snapshot, c, c', commit).
Definition alone := story_only_from loaded.
Lemma alone_ready : match alone with Ok (snapshot, _, _, commit) => ready snapshot commit | Err _ => false end = true.
Proof. by vm_compute. Qed.
Lemma alone_parts loaded snapshot c c' commit :
  story_only_from loaded = Ok (snapshot, c, c', commit) →
  loaded = Ok snapshot ∧ shortened snapshot = Ok c ∧ construct_changeset c = Ok c' ∧ commit_spec c' = Ok commit.
Proof. exact (steps_parts store_turn_error shortened construct_changeset commit_spec _ _ _ _ _). Qed.
Lemma story_alone_commits_witness : ∃ commit db' i',
  represents db' (<[commit_story_id commit := append_turn (commit_entry commit no_usage) (fresh_log tale)]> logs)
  ∧ db_instances db' !! commit_story_id commit = Some i' ∧ row_role_id_high_water i' = 0%Z.
Proof.
  pose proof alone_ready as Hr. destruct alone as [[[[snapshot c] c'] commit]|e] eqn:Hv; [|discriminate Hr].
  destruct (alone_parts _ _ _ _ _ Hv) as (Hl & Hc & Hcon & Hspec). destruct (shortened_snapshot _ _ Hc) as [Hsnap Hid].
  destruct (ready_parts _ _ Hr) as (Hstory & _ & _ & _ & Hu & _ & Hd & _).
  assert (tk_story_id (id_key (tc_identity c)) = snap_story_id snapshot) as Hsame by (by rewrite Hid, Hstory).
  unfold loaded in Hl. rewrite <- Hstory in Hl. pose proof tale_log as Htale. rewrite <- Hstory in Htale.
  assert (tk_turn_number (id_key (tc_identity c)) = N.of_nat (S (length (sl_turns (fresh_log tale))))) as Hnum
    by (by rewrite Hid).
  assert (logs_find (snap_story_id snapshot) (id_idempotency_key (tc_identity c)) logs = None) as Hnew
    by (rewrite Hstory; exact (tale_new _)).
  destruct (story_alone_commits db logs (fresh_log tale) limits snapshot c c' commit no_usage db_represents db_named Hsnap
    Hsame Hl Hcon Hspec Htale Hnum tale_room Hnew Hu Hd) as (db' & _ & Hrep & _ & i & i' & _ & Hi & _ & _ & _ & _ & _ & Hhw).
  exists commit, db', i'. split; [exact Hrep|]. split; [exact Hi|exact Hhw].
Defined.

(** ** The witnesses of the store *)

(** The commit of the turn, if it was built. *)
Definition told : option TurnCommitSpec := match validated with Ok (_, _, _, commit) => Some commit | Err _ => None end.
Definition calls (commit : TurnCommitSpec) : list (bool * StoreCall) :=
  [(true, Call_ImportPack "pack" pack_row); (false, Call_Create tale); (true, Call_Create tale); (true, Call_Create tale);
   (true, Call_Commit commit); (true, Call_Commit commit); (true, Call_Find "tale" "key"); (true, Call_GetStory "tale")].
Definition answer_shape (a : StoreAnswer) : string :=
  match a with
  | Answer_Created (Ok _) => "created"
  | Answer_Created (Err Store_Unavailable) => "unavailable"
  | Answer_Created (Err _) => "refused"
  | Answer_Committed (Ok r) => res_story_text r
  | Answer_Found (Ok (Some o)) => res_story_text (sto_result o)
  | Answer_Story (Ok (Some i)) => pretty (info_base_revision i)
  | Answer_Imported (Ok id) => id
  | _ => "none"
  end.
Definition shapes : list string :=
  ["pack"; "unavailable"; "created"; "refused"; "The gate opens."; "The gate opens."; "The gate opens."; "1"].
Lemma told_shapes :
  match told with
  | Some commit => bool_decide (map answer_shape (sqlite_calls (calls commit) empty_database).2 = shapes)
  | None => false
  end = true.
Proof. by vm_compute. Qed.
Lemma sqlite_refines_log_witness : ∃ commit db' answers logs',
  sqlite_calls (calls commit) empty_database = (db', answers) ∧ map answer_shape answers = shapes
  ∧ log_run ∅ (calls commit).*2 logs' answers ∧ represents db' logs'.
Proof.
  pose proof told_shapes as Ht. destruct told as [commit|]; [|discriminate Ht]. apply bool_decide_eq_true in Ht.
  destruct (sqlite_calls (calls commit) empty_database) as [db' answers] eqn:Hc.
  destruct (sqlite_refines_log (calls commit) empty_database ∅ db' answers represents_empty Hc) as (logs' & Hrun & Hrep).
  exists commit, db', answers, logs'. split; [exact Hc|]. split; [exact Ht|]. split; [exact Hrun|exact Hrep].
Defined.

(** One turn more, as the log has it. *)
Lemma turn_told commit d d' r :
  represents d logs → commit_story_id commit = "tale" → sqlite_call true (Call_Commit commit) d = (d', Answer_Committed (Ok r)) →
  ∃ usage, represents d' (<["tale" := append_turn (commit_entry commit usage) (fresh_log tale)]> logs).
Proof.
  intros Hrep Hs Hc. destruct (call_refines _ _ _ _ _ _ Hrep Hc) as (logs' & Hstep & Hrep').
  inversion Hstep as [| | |? o Ho| | | | |? l usage Hl _ _ _ _ e| | | | | |]; subst; rewrite Hs in *.
  - by rewrite tale_new in Ho.
  - exists usage. assert (l = fresh_log tale) as <-; [|done].
    pose proof (eq_trans (eq_sym tale_log) Hl) as Heq. by injection Heq as <-.
Qed.
Lemma told_answer :
  match told with
  | Some commit =>
      bool_decide (commit_story_id commit = "tale")
      && match (sqlite_call true (Call_Commit commit) db).2 with Answer_Committed (Ok _) => true | _ => false end
      && (slen (turn_player_contribution (commit_turn_of commit)) <=? 16384)%N
      && (slen (cs_story_text (commit_changes commit)) <=? 65536)%N
  | None => false
  end = true.
Proof. by vm_compute. Qed.
Lemma one_turn_fits commit usage :
  (slen (turn_player_contribution (commit_turn_of commit)) <=? 16384)%N = true →
  (slen (cs_story_text (commit_changes commit)) <=? 65536)%N = true →
  history_fits StoryHistoryConfig_default (append_turn (commit_entry commit usage) (fresh_log tale)).
Proof. intros H1%N.leb_le H2%N.leb_le. split; [by vm_compute|]. apply Forall_singleton. by split. Qed.

(** ** A turn over the store *)

(** A clock; between two questions another task asks for a story. *)
#[local] Instance quiet_env : StoreEnv := {|
  env := N; env_permit := unit;
  env_cancelled _ now := (now, false);
  env_instant now := ((now + 1)%N, now);
  env_millis now := (now, 7%Z);
  env_acquire _ _ _ now := (now, Ok ());
  env_release _ now := now;
  env_available now := (now, true);
  env_others now := (now, [(true, Call_GetStory "tale")]);
|}.
(** A stage that hands the turn what it makes of the database. *)
Definition db_pipeline (stage : TurnStage) (ops : Database → list ContextOp) : TurnExecutionPipeline := {|
  pl_stage := stage;
  pl_execute c (w : world) := match apply_ops (ops (sw_db w)) c with Ok c' => (c', w, Ok tt) | Err e => (c, w, Err e) end;
|}.
Lemma db_pipeline_lawful stage ops : lawful (db_pipeline stage ops).
Proof. intros c w. cbn. destruct (apply_ops _ c) as [c'|e] eqn:Hc; [|done]. by eapply apply_ops_steps. Qed.
Definition load_ops (d : Database) : list ContextOp :=
  match load_story_snapshot "tale" limits d with
  | Ok snapshot => [Op_SetPreparedContext snapshot baseline no_projection
      (PreparedActivation_empty (snap_knowledge_snapshot snapshot) 1%N)]
  | Err _ => []
  end.
Definition stages : TurnPipelineSet := {|
  ps_initializer := TurnInitializer;
  ps_baseline_builder := db_pipeline Stage_BaselineBuilder load_ops;
  ps_writer_planner := db_pipeline Stage_WriterPlanner (λ _, [Op_SetWriterPlan plan]);
  ps_retrieval := db_pipeline Stage_ContextRetrieval (λ _, []);
  ps_character_think := db_pipeline Stage_CharacterThink (λ _, [Op_SetCharacterDecisions [decision]]);
  ps_story_generator := db_pipeline Stage_StoryGenerator (λ _, [Op_SetGeneratedStory (text "The gate opens.")]);
  ps_story_state_extractor := db_pipeline Stage_StoryStateExtractor
    (λ _, [Op_SetStateExtraction (extraction_envelope extracted)]);
  ps_validation := db_pipeline Stage_Validation (λ _, []);
  ps_story_repairer := db_pipeline Stage_StoryRepairer (λ _, []);
  ps_committer := TurnCommitter;
|}.
Definition stages_builder : TurnPipelineSetBuilder := {|
  pb_initializer := Some (ps_initializer stages); pb_baseline_builder := Some (ps_baseline_builder stages);
  pb_writer_planner := Some (ps_writer_planner stages); pb_retrieval := Some (ps_retrieval stages);
  pb_character_think := Some (ps_character_think stages); pb_story_generator := Some (ps_story_generator stages);
  pb_story_state_extractor := Some (ps_story_state_extractor stages); pb_validation := Some (ps_validation stages);
  pb_story_repairer := Some (ps_story_repairer stages); pb_committer := Some TurnCommitter;
|}.
Lemma stages_built : build stages_builder = Ok stages. Proof. reflexivity. Qed.
Lemma stages_lawful : lawful_set stages.
Proof. split; [apply initializer_lawful|apply db_pipeline_lawful..]. Qed.

Definition teller : AiseEngine := {| eng_runtime := stages; eng_config := AiseConfig_default |}.
Definition told_first := execute_turn teller spec {| sw_db := db; sw_env := 0%N |}.
Definition meanwhile : list (bool * StoreCall) := [(true, Call_Create tale); (false, Call_Find "tale" "key")].
Definition told_again :=
  execute_turn teller spec {| sw_db := (sqlite_calls meanwhile (sw_db (s_world told_first.1))).1; sw_env := 50%N |}.
Lemma told_first_view : outcome_view told_first.2 = Some ("The gate opens.", false). Proof. by vm_compute. Qed.
Lemma told_again_view : outcome_view told_again.2 = Some ("The gate opens.", true). Proof. by vm_compute. Qed.

End StoredSample.
