(* ===== verification/AiseCoordinationProofs.v ===== *)
(** * A driven activation ends and keeps the promises of its session

    AiseCoordination.v: the loop that runs the rounds of a session and feeds them
    with bodies ends within the rounds its limits allow, whatever the store answers,
    and its result is within every budget and has a body for each new entry; the
    cache of matches does not show.  The theorems are applied to a story with one fact,
    found by the word of its key. *)

From S2P Require Import Prelude Text AiseIds AiseRule AiseNarrative AiseNarrativeProofs AiseStory AiseTurnData.
From S2P Require Import AiseConfig AiseScan AisePorts AiseActivation AiseActivationProofs AiseCaches AiseCachesProofs.
From S2P Require Import AiseCoordination.

Section driven.
Context `{Unicode, Sha256Bytes, RegexFind, Layout, KnowledgePorts}.
Context (coordinator : KnowledgeActivationCoordinator) (request : ActivationRequest).
Notation lim := (req_limits request).

(** ** Where a session is in its rounds *)

(** The stage, the levels of recursion and of depth, and the entries active. *)
Definition place (s : Session) : Stage * N * N * gset KnowledgeSourceId :=
  let k := ss_continuation s in (ss_stage s, k_recursion_level k, k_depth_expansions k, dom (k_activated k)).

Lemma place_fold {A} (f : Session → A → Session) l s :
  (∀ s x, place (f s x) = place s) → place (foldl f s l) = place s.
Proof. intros Hf. revert s. induction l as [|x l IH]; intros s; simpl; [done|]. by rewrite IH, Hf. Qed.
Lemma place_try_fold {A} (f : Session → A → result ActivationError Session) l s s' :
  (∀ s x s', f s x = Ok s' → place s' = place s) → try_fold f s l = Ok s' → place s' = place s.
Proof.
  intros Hf. apply (try_fold_inv (λ s1, place s1 = place s)); [done|]. intros s1 x s2 _ <- Hs. by eapply Hf.
Qed.
Lemma place_try_fold_with {A B} (f : Session * B → A → result ActivationError (Session * B)) l st st' :
  (∀ st x st', f st x = Ok st' → place st'.1 = place st.1) → try_fold f st l = Ok st' → place st'.1 = place st.1.
Proof.
  intros Hf. apply (try_fold_inv (λ st1, place st1.1 = place st.1)); [done|]. intros s1 x s2 _ <- Hs. by eapply Hf.
Qed.

Lemma place_account_fragment s f : place (account_fragment s f) = place s.
Proof. unfold account_fragment. by case_decide. Qed.
Lemma place_account_scan s s' : account_scan_fragments request s = Ok s' → place s' = place s.
Proof. unfold account_scan_fragments. intros. res_inv. apply place_fold, place_account_fragment. Qed.
Lemma place_ingest_match s item s' : ingest_match request s item = Ok s' → place s' = place s.
Proof. unfold ingest_match. intros Hs. repeat (case_match; simplify_eq/=; try done). Qed.
Lemma place_ingest s e s' : ingest_fragment_matches request s e = Ok s' → place s' = place s.
Proof.
  unfold ingest_fragment_matches. destruct e as [id ms]. case_decide; [by intros [= ->]|].
  intros Hs. apply place_try_fold in Hs; [exact Hs|]. apply place_ingest_match.
Qed.
Lemma place_text_candidate round level st e : place (text_candidate request round level st e).1 = place st.1.
Proof. destruct st as [s cands], e as [id metadata]. unfold text_candidate. cbv zeta. by repeat case_match. Qed.
Lemma place_collect s s' cands : collect_candidates request s = Ok (s', cands) → place s' = place s.
Proof.
  unfold collect_candidates, collect_text_candidates. intros Hs.
  destruct (try_fold (constant_candidate request) ∅ _) as [m0|]; [|done].
  destruct (try_fold (seed_candidate request) _ _) as [m2|]; [|done].
  cbn in Hs. destruct (fragment_matches_of request s) as [fs|]; [|done].
  destruct (try_fold _ s fs) as [s1|] eqn:Hi; [|done]. injection Hs as Hs.
  apply place_try_fold in Hi; [|apply place_ingest]. rewrite <-Hi. clear Hi.
  change s1 with (s1, m2).1. change s' with (s', cands).1. rewrite <-Hs.
  apply (foldl_inv (λ st, place st.1 = place s1)); [done|]. intros st e _ <-. apply place_text_candidate.
Qed.
Lemma place_trim s cands s' cands' : trim_candidates request s cands = Ok (s', cands') → place s' = place s.
Proof.
  unfold trim_candidates. case_match; [by intros [= <- <-]|]. case_match; [done|]. intros Hs. injection Hs as <- _.
  change (place (trim_ ?s)) with (place s). by apply place_fold.
Qed.
Lemma place_merge_existing s metadata c s' : merge_existing_deliveries request s metadata c = Ok s' → place s' = place s.
Proof.
  unfold merge_existing_deliveries. destruct (k_activated (ss_continuation s) !! c_source_id c) as [a|] eqn:Ha; [|by intros [= <-]].
  case_bool_decide; [by intros [= <-]|]. destruct (validate_deliveries _ _); [|done].
  destruct (admit_deliveries _ _ _ _ _ _); [|case_match; [done|by intros [= <-]]]. cbn. intros [= <-].
  unfold place. cbn. f_equal. apply (dom_insert_lookup_L _ _ _). by rewrite Ha.
Qed.
Lemma place_filter st c st' : filter_candidate request st c = Ok st' → place st'.1 = place st.1.
Proof.
  destruct st as [s el]. unfold filter_candidate. intros Hs.
  destruct (meta_of request (c_source_id c)) as [m|]; [|done]. cbn [ok_or] in Hs.
  match type of Hs with (if ?b then _ else _) = _ => destruct b end.
  - destruct (merge_existing_deliveries _ _ _ _) as [s1|] eqn:Hm; [|done]. apply place_merge_existing in Hm.
    injection Hs as <-. exact Hm.
  - repeat case_match; try done; by injection Hs as <-.
Qed.
Lemma place_resolve_groups s cs s' el : resolve_groups request s cs = (s', el) → place s' = place s.
Proof.
  unfold resolve_groups. destruct (resolve_rounds _ _ _ _ _) as [eligible winners]. intros [= <- _]. by rewrite place_fold.
Qed.
Lemma place_select st c st' : select_candidate request st c = Ok st' → place st'.1 = place st.1.
Proof.
  destruct st as [s l]. unfold select_candidate. intros Hs. cbv zeta in Hs.
  repeat (case_match; simplify_eq/=; try done).
Qed.
Lemma place_select_round s s' admitted : select_round request s = Ok (s', admitted) → place s' = place s.
Proof.
  unfold select_round. intros Hs.
  destruct (collect_candidates request s) as [[s1 c1]|] eqn:H1'; [|done]. apply place_collect in H1'.
  destruct (trim_candidates request _ c1) as [[s2 c2]|] eqn:H2'; [|done]. apply place_trim in H2'.
  destruct (try_fold (filter_candidate request) _ _) as [[s3 el]|] eqn:H3'; [|done].
  apply place_try_fold_with in H3'; [|apply place_filter].
  destruct (resolve_groups request s3 el) as [s4 el4] eqn:H4'. apply place_resolve_groups in H4'.
  apply place_try_fold_with in Hs; [|apply place_select]. cbn [fst] in *.
  rewrite Hs, H4', H3', H2'. exact H1'.
Qed.
Lemma place_some_round s st s' o :
  some_round (run_round request s st) = Ok (s', o) → place s' = place s ∧ is_Some o.
Proof.
  unfold some_round, run_round. destruct (select_round request _) as [[s1 adm]|] eqn:Hsel; [|done].
  intros [= <- <-]. apply place_select_round in Hsel. by rewrite Hsel.
Qed.

Lemma place_add_recursion_fragment st id st' :
  add_recursion_fragment request st id = Ok st' → place st'.1 = place st.1.
Proof.
  destruct st as [s added]. unfold add_recursion_fragment. cbv zeta. intros Hs.
  repeat (case_match; simplify_eq/=; try done).
Qed.
Lemma place_expand s s' step :
  expand_recursion request s = Ok (s', step) →
  match step with
  | Step_Expanded => (k_recursion_level (ss_continuation s) < rl_max_recursion_steps lim)%N ∧
      place s' = let '(st, level, exps, active) := place s in (st, sat_add U16_MAX level 1, exps, active)
  | _ => place s' = place s
  end.
Proof.
  unfold expand_recursion, add_recursion_fragments. intros Hs.
  destruct (try_fold _ _ _) as [[s1 added]|] eqn:Hf; [|done].
  apply place_try_fold_with in Hf; [|apply place_add_recursion_fragment]. cbn [fst] in Hf.
  change (place (set_ss_recursion_pending _ s)) with (place s) in Hf.
  destruct (added =? 0)%N; [by injection Hs as <- <-|].
  unfold limits in Hs. destruct (N.leb_spec (rl_max_recursion_steps lim) (k_recursion_level (ss_continuation s1)));
    injection Hs as <- <-; [done|].
  unfold place in *. cbn. injection Hf as Hst Hl He Ha. rewrite Hst, He, Ha, Hl in *. done.
Qed.
Lemma place_depth_loop s s' o :
  depth_loop request s = Ok (s', o) →
  match o with
  | None => True
  | Some _ => (k_depth_expansions (ss_continuation s) < rl_max_depth_expansions lim)%N ∧
      place s' = let '(st, level, exps, active) := place s in (Stage_DepthRecursion, level, sat_add U16_MAX exps 1, active)
  end ∧ dom (k_activated (ss_continuation s')) = dom (k_activated (ss_continuation s)).
Proof.
  unfold depth_loop, limits. destruct (_ && _) eqn:Hb; [|by intros [= <- <-]].
  apply andb_true_iff in Hb as [_ Hb]. apply N.ltb_lt in Hb.
  destruct (account_scan_fragments request _) as [s1|] eqn:Hacc; [|done]. apply place_account_scan in Hacc.
  intros Hs. apply place_some_round in Hs as [Hp [o' ->]]. unfold place in *. cbn in *.
  injection Hacc as _ Hl He Ha. injection Hp as Hst Hl' He' Ha'. rewrite Hst, Hl', He', Ha', Hl, He, Ha. done.
Qed.

(** ** The rounds left *)

Definition rounds_left (s : Session) : nat :=
  (match ss_stage s with Stage_Start => 1 | _ => 0 end)
  + (N.to_nat (rl_max_recursion_steps lim) - N.to_nat (k_recursion_level (ss_continuation s)))
  + (N.to_nat (rl_max_depth_expansions lim) - N.to_nat (k_depth_expansions (ss_continuation s))).
Lemma next_round_left s s' outcome :
  (rl_max_recursion_steps lim ≤ U16_MAX)%N → (rl_max_depth_expansions lim ≤ U16_MAX)%N →
  next_round request s = Ok (s', Some outcome) → rounds_left s' < rounds_left s.
Proof.
  intros HR HD. unfold next_round. destruct (negb _); [done|]. unfold rounds_left.
  assert (∀ level max, (max ≤ U16_MAX)%N → (level < max)%N →
    N.to_nat max - N.to_nat (sat_add U16_MAX level 1) < N.to_nat max - N.to_nat level) as Hstep.
  { intros level max Hmax Hl. rewrite sat_add_fits by lia. lia. }
  destruct (ss_stage s) eqn:Hstage; intros Hs.
  - destruct (account_scan_fragments request s) as [s1|] eqn:Hacc; [|done]. apply place_account_scan in Hacc.
    apply place_some_round in Hs as [Hp _]. unfold place in *. cbn in Hp.
    injection Hp as Hst Hl He _. injection Hacc as _ Hl' He' _. rewrite Hst, Hl, He, Hl', He'. lia.
  - destruct (expand_recursion request s) as [[s1 step]|] eqn:Hexp; [|done]. apply place_expand in Hexp.
    destruct step; cbn in Hs.
    + apply place_depth_loop in Hs as [[Hlt Hp] _]. unfold place in *. cbn in *.
      injection Hp as Hst Hl He _. injection Hexp as _ Hl' He' _. rewrite Hst, Hl, He, Hl', He' in *.
      specialize (Hstep _ _ HD Hlt). lia.
    + destruct Hexp as [Hlt Hp]. apply place_some_round in Hs as [Hp' _]. unfold place in *. cbn in *.
      injection Hp' as Hst Hl He _. injection Hp as Hst' Hl' He' _. rewrite Hst, Hl, He, Hst', Hl', He', Hstage.
      specialize (Hstep _ _ HR Hlt). lia.
    + apply place_depth_loop in Hs as [[Hlt Hp] _]. unfold place in *. cbn in *.
      injection Hp as Hst Hl He _. injection Hexp as _ Hl' He' _. rewrite Hst, Hl, He, Hl', He' in *.
      specialize (Hstep _ _ HD Hlt). lia.
  - apply place_depth_loop in Hs as [[Hlt Hp] _]. unfold place in *. injection Hp as Hst Hl He _. rewrite Hst, Hl, He.
    specialize (Hstep _ _ HD Hlt). lia.
  - destruct (expand_recursion request s) as [[s1 step]|] eqn:Hexp; [|done]. apply place_expand in Hexp.
    destruct step; cbn in Hs.
    + apply place_depth_loop in Hs as [[Hlt Hp] _]. unfold place in *. cbn in *.
      injection Hp as Hst Hl He _. injection Hexp as _ Hl' He' _. rewrite Hst, Hl, He, Hl', He' in *.
      specialize (Hstep _ _ HD Hlt). lia.
    + destruct Hexp as [Hlt Hp]. apply place_some_round in Hs as [Hp' _]. unfold place in *. cbn in *.
      injection Hp' as Hst Hl He _. injection Hp as Hst' Hl' He' _. rewrite Hst, Hl, He, Hst', Hl', He', Hstage.
      specialize (Hstep _ _ HR Hlt). lia.
    + done.
  - done.
Qed.

Lemma next_round_active s s' o :
  next_round request s = Ok (s', o) → dom (k_activated (ss_continuation s')) = dom (k_activated (ss_continuation s)).
Proof.
  unfold next_round. destruct (negb _); [done|].
  assert (∀ s1 s2 : Session, place s1 = place s2 →
    dom (k_activated (ss_continuation s1)) = dom (k_activated (ss_continuation s2))) as Hdom.
  { intros s1 s2 Hp. unfold place in Hp. by injection Hp. }
  assert (∀ s1 step, expand_recursion request s = Ok (s1, step) →
    dom (k_activated (ss_continuation s1)) = dom (k_activated (ss_continuation s))) as Hexp.
  { intros s1 step Hs. apply place_expand in Hs. destruct step; [by apply Hdom| |by apply Hdom].
    destruct Hs as [_ Hp]. unfold place in Hp. by injection Hp. }
  destruct (ss_stage s); intros Hs.
  - destruct (account_scan_fragments request s) as [s1|] eqn:Hacc; [|done]. apply place_account_scan in Hacc.
    apply place_some_round in Hs as [Hp _]. rewrite (Hdom _ _ Hp). by apply (Hdom s1 s).
  - destruct (expand_recursion request s) as [[s1 step]|] eqn:He; [|done]. rewrite <-(Hexp _ _ eq_refl).
    destruct step; cbn in Hs; [apply place_depth_loop in Hs as [_ Hd]|apply place_some_round in Hs as [Hp _]; apply Hdom in Hp
      |apply place_depth_loop in Hs as [_ Hd]]; done.
  - by apply place_depth_loop in Hs as [_ Hd].
  - destruct (expand_recursion request s) as [[s1 step]|] eqn:He; [|done]. rewrite <-(Hexp _ _ eq_refl).
    destruct step; cbn in Hs; [apply place_depth_loop in Hs as [_ Hd]|apply place_some_round in Hs as [Hp _]; apply Hdom in Hp
      |injection Hs as <- _]; done.
  - by injection Hs as <- _.
Qed.

(** ** Feeding a round *)
Lemma place_drop s id s' : drop_admitted s id = Ok s' → place s' = place s.
Proof. unfold drop_admitted. case_match; [done|]. by intros [= <-]. Qed.

Definition at_round (s : Session) : nat * gset KnowledgeSourceId := (rounds_left s, dom (k_activated (ss_continuation s))).

(** A body makes its own entry active, and no other. *)
Lemma admit_body_place s c body s' :
  admit_body request s c body = Ok s' →
  rounds_left s' = rounds_left s ∧
  dom (k_activated (ss_continuation s')) ⊆ {[aeb_source_id body]} ∪ dom (k_activated (ss_continuation s)).
Proof.
  unfold admit_body. destruct (meta_of request _) as [m|]; [|done]. cbn [ok_or]. case_match; [done|].
  intros Hs. assert (∀ mandatory reason, refuse mandatory (aeb_source_id body) reason s = Ok s' →
    rounds_left s' = rounds_left s ∧
    dom (k_activated (ss_continuation s')) ⊆ {[aeb_source_id body]} ∪ dom (k_activated (ss_continuation s))) as Href.
  { intros mandatory reason Hr. unfold refuse in Hr. case_match; [done|]. injection Hr as <-. split; [done|]. cbn. set_solver. }
  case_match; [by apply Href in Hs|]. case_match; [by apply Href in Hs|].
  destruct (validate_deliveries _ _); [|done]. destruct (admit_deliveries _ _ _ _ _ _) as [u|]; [|by apply Href in Hs].
  injection Hs as <-. destruct (c_sticky c); (split; [done|]); cbn; rewrite dom_insert; set_solver.
Qed.
Lemma supply_bodies_place s bodies s' :
  supply_bodies request s bodies = Ok s' →
  rounds_left s' = rounds_left s ∧
  dom (k_activated (ss_continuation s')) ⊆ list_to_set (aeb_source_id <$> bodies) ∪ dom (k_activated (ss_continuation s)).
Proof.
  unfold supply_bodies. destruct (try_fold _ s bodies) as [s1|] eqn:Hf; [|done]. case_match; [done|]. intros [= <-].
  revert s Hf. induction bodies as [|body bodies IH]; intros s Hf; cbn [try_fold] in Hf; [injection Hf as <-; split; [done|]; set_solver|].
  unfold supply_body at 1 in Hf. destruct (ss_pending s !! aeb_source_id body) as [c|]; [|done]. cbn [ok_or] in Hf.
  destruct (admit_body request _ c body) as [s2|] eqn:Ha; [|done]. apply admit_body_place in Ha as [H1' H2'].
  destruct (IH s2 Hf) as [H3' H4']. rewrite H3', H1'. split; [done|]. cbn in *. set_solver.
Qed.

Context (snapshot : KnowledgeSnapshotRef).

Lemma drop_fold_place bodies admitted s s' :
  try_fold (drop_missing request bodies) s admitted = Ok s' → place s' = place s.
Proof.
  apply place_try_fold. intros s1 id s2. unfold drop_missing. case_match; [by intros [= <-]|].
  destruct (admitted_is_mandatory request s1 id) as [[]|]; [done| |done]. apply place_drop.
Qed.
Lemma load_bodies_place now admitted s s' bodies loaded :
  load_bodies coordinator request snapshot now admitted s = Ok (s', bodies, loaded) →
  place s' = place s ∧ bodies = la_body <$> loaded.
Proof.
  unfold load_bodies. destruct (find_by_source_ids now _) as [records|e].
  - case_match; [done|]. destruct (try_fold _ s admitted) as [s1|] eqn:Hd; [|done]. intros [= <- <- <-].
    split; [by eapply drop_fold_place|]. rewrite <-list_fmap_compose. done.
  - destruct (any_mandatory request s admitted) as [[]|]; [done| |done]. cbn.
    destruct (try_fold drop_admitted s admitted) as [s1|] eqn:Hd; [|done]. intros [= <- <- <-]. split; [|done].
    eapply place_try_fold; [|done]. intros ???. apply place_drop.
Qed.
Lemma feed_round_place now s outcome s' loaded :
  feed_round coordinator request snapshot now s outcome = Ok (s', loaded) →
  rounds_left s' = rounds_left s ∧
  dom (k_activated (ss_continuation s')) ⊆
    list_to_set ((λ e, aeb_source_id (la_body e)) <$> loaded) ∪ dom (k_activated (ss_continuation s)).
Proof.
  unfold feed_round. intros Hs.
  destruct (match ro_admitted outcome with [] => _ | _ => _ end) as [[[s1 bodies] loaded1]|] eqn:Hb; [|done].
  assert (place s1 = place s ∧ bodies = la_body <$> loaded1) as [Hp ->].
  { destruct (ro_admitted outcome); [by injection Hb as <- <- <-|]. by eapply load_bodies_place. }
  cbn in Hs. destruct (supply_bodies request s1 _) as [s2|] eqn:Hsup; [|done]. injection Hs as <- <-.
  apply supply_bodies_place in Hsup as [H1' H2']. rewrite <-list_fmap_compose in H2'.
  unfold place in Hp. injection Hp as Hst Hl He Ha. rewrite Ha in H2'. split; [|exact H2'].
  rewrite H1'. unfold rounds_left. by rewrite Hst, Hl, He.
Qed.

Lemma keep_loaded_dom m loaded :
  dom (keep_loaded m loaded) = list_to_set ((λ e, aeb_source_id (la_body e)) <$> loaded) ∪ dom m.
Proof.
  unfold keep_loaded. revert m. induction loaded as [|e l IH]; intros m; cbn [foldl fmap list_fmap]; [set_solver|].
  rewrite IH, dom_insert_L. set_solver.
Qed.

Lemma drive_loop_ends fuel now s loaded :
  (rl_max_recursion_steps lim ≤ U16_MAX)%N → (rl_max_depth_expansions lim ≤ U16_MAX)%N →
  rounds_left s < fuel → is_Some (drive_loop coordinator request snapshot fuel now s loaded).
Proof.
  intros HR HD. revert now s loaded. induction fuel as [|fuel IH]; intros now s loaded Hf; [lia|]. cbn [drive_loop].
  destruct (next_round request s) as [[s1 [outcome|]]|e] eqn:Hn; [|by eexists..].
  apply next_round_left in Hn; [|done..].
  destruct (feed_round coordinator request snapshot now s1 outcome) as [[s2 loaded2]|e] eqn:Hfeed; [|by eexists].
  apply feed_round_place in Hfeed as [Hr _]. apply IH. lia.
Qed.

Lemma start_rounds_left s : start request = Ok s → rounds_left s ≤
  1 + N.to_nat (rl_max_recursion_steps lim) + N.to_nat (rl_max_depth_expansions lim).
Proof.
  unfold start. intros Hs. destruct (validate_request request); [|done].
  destruct (match req_continuation request with Some v => _ | None => _ end) as [k|]; [|done].
  destruct (timed_view request); [|done]. destruct (budget_usage request k); [|done]. injection Hs as <-.
  unfold rounds_left. cbn. lia.
Qed.

Lemma drive_some now :
  (rl_max_recursion_steps lim ≤ U16_MAX)%N → (rl_max_depth_expansions lim ≤ U16_MAX)%N →
  is_Some (drive coordinator request snapshot (drive_fuel request) now).
Proof.
  intros HR HD. unfold drive. destruct (start request) as [s|e] eqn:Hs; [|by eexists].
  pose proof (start_rounds_left s Hs) as Hl.
  destruct (drive_loop_ends (drive_fuel request) now s ∅ HR HD) as [r ->]; [unfold drive_fuel; lia|by eexists].
Qed.
(** C27: A driven activation ends: whatever the store answers at each round, the loop
    of [drive_with_loaded] runs at most one round for the start, one for each level
    of recursion and one for each widening of the depth the limits allow. *)
Theorem drive_ends now :
  (rl_max_recursion_steps lim ≤ U16_MAX)%N → (rl_max_depth_expansions lim ≤ U16_MAX)%N →
  is_Some (drive coordinator request snapshot (drive_fuel request) now).
Proof. apply drive_some. Qed.

(** [finish] ranks the active entries and activates none. *)
Lemma finish_active s r :
  finish request s = Ok r → dom (k_activated (ar_continuation r)) = dom (k_activated (ss_continuation s)).
Proof.
  unfold finish. destruct (negb _); [done|]. destruct (ranked_activated _) as [k activated] eqn:Hrank.
  intros [= <-]. cbn [ar_continuation]. unfold ranked_activated in Hrank.
  match type of Hrank with (set_k_activated ?f ?k0, _) = _ => set (rank := f) in Hrank; set (k1 := k0) in Hrank end.
  injection Hrank as <- _.
  change (dom (rank (k_activated (ss_continuation s))) = dom (k_activated (ss_continuation s))).
  unfold rank. apply (foldl_inv (λ m, dom m = dom (k_activated (ss_continuation s)))); [done|].
  intros m a _ <-. apply dom_alter_L.
Qed.

(** ** The promises of the session, over the whole drive *)

Context (Hfit : limits_fit lim).

Lemma session_ok_fold before {A} (f : Session → A → result ActivationError Session) l s s' :
  (∀ s x s', session_ok request before s → f s x = Ok s' → session_ok request before s' ∧ ss_timed_valid s' = ss_timed_valid s) →
  session_ok request before s → try_fold f s l = Ok s' →
  session_ok request before s' ∧ ss_timed_valid s' = ss_timed_valid s.
Proof.
  intros Hf Hs. apply (try_fold_inv (λ s1, session_ok request before s1 ∧ ss_timed_valid s1 = ss_timed_valid s)); [done|].
  intros s1 x s2 _ [H1' <-] Hs2. by apply (Hf s1 x).
Qed.
Lemma drop_one_ok before s id s' :
  session_ok request before s → drop_admitted s id = Ok s' →
  session_ok request before s' ∧ ss_timed_valid s' = ss_timed_valid s.
Proof. intros Hs Hd. by destruct (drop_admitted_ok request before s id s' Hs Hd) as (? & ? & _). Qed.

Lemma load_bodies_ok before now admitted s s' bodies loaded :
  session_ok request before s → load_bodies coordinator request snapshot now admitted s = Ok (s', bodies, loaded) →
  session_ok request before s' ∧ ss_timed_valid s' = ss_timed_valid s.
Proof.
  intros Hs. unfold load_bodies. destruct (find_by_source_ids now _) as [records|e].
  - case_match; [done|]. destruct (try_fold _ s admitted) as [s1|] eqn:Hd; [|done]. intros [= <- _ _].
    revert Hd. apply session_ok_fold; [|done]. intros s2 id s3 Hs2. unfold drop_missing. case_match; [by intros [= <-]|].
    destruct (admitted_is_mandatory request s2 id) as [[]|]; [done| |done]. by apply drop_one_ok.
  - destruct (any_mandatory request s admitted) as [[]|]; [done| |done]. cbn.
    destruct (try_fold drop_admitted s admitted) as [s1|] eqn:Hd; [|done]. intros [= <- _ _].
    revert Hd. apply session_ok_fold; [|done]. intros s2 id s3. apply drop_one_ok.
Qed.
Lemma feed_round_ok before now s outcome s' loaded :
  session_ok request before s → feed_round coordinator request snapshot now s outcome = Ok (s', loaded) →
  session_ok request before s' ∧ ss_timed_valid s' = ss_timed_valid s.
Proof.
  intros Hs. unfold feed_round. intros Hf.
  destruct (match ro_admitted outcome with [] => _ | _ => _ end) as [[[s1 bodies] loaded1]|] eqn:Hb; [|done].
  assert (session_ok request before s1 ∧ ss_timed_valid s1 = ss_timed_valid s) as [Hs1 Ht1].
  { destruct (ro_admitted outcome); [by injection Hb as <- <- <-|]. by eapply load_bodies_ok. }
  cbn in Hf. destruct (supply_bodies request s1 bodies) as [s2|] eqn:Hsup; [|done]. injection Hf as <- _.
  destruct (supply_bodies_ok request Hfit before s1 bodies s2 Hs1 Hsup) as (? & Ht & _). split; [done|]. by rewrite Ht.
Qed.

Lemma drive_loop_ok before fuel now s loaded s' loaded' :
  session_ok request before s → dom (k_activated (ss_continuation s)) ⊆ before ∪ dom loaded →
  drive_loop coordinator request snapshot fuel now s loaded = Some (Ok (s', loaded')) →
  session_ok request before s' ∧ ss_timed_valid s' = ss_timed_valid s ∧
  dom (k_activated (ss_continuation s')) ⊆ before ∪ dom loaded'.
Proof.
  revert now s loaded. induction fuel as [|fuel IH]; intros now s loaded Hs Hd; [done|]. cbn [drive_loop].
  destruct (next_round request s) as [[s1 o]|e] eqn:Hn; [|done].
  pose proof (next_round_active _ _ _ Hn) as Ha.
  destruct (next_round_ok request Hfit before s s1 o Hs Hn) as [Hs1 Ht1].
  destruct o as [outcome|]; [|intros [= <- <-]; by rewrite Ha].
  destruct (feed_round coordinator request snapshot now s1 outcome) as [[s2 loaded2]|e] eqn:Hfeed; [|done].
  destruct (feed_round_ok before _ _ _ _ _ Hs1 Hfeed) as [Hs2 Ht2]. apply feed_round_place in Hfeed as [_ Hd2].
  intros Hl. apply IH in Hl as (? & Ht & ?); [|done|].
  - split; [done|]. split; [|done]. by rewrite Ht, Ht2.
  - rewrite keep_loaded_dom. etrans; [exact Hd2|]. rewrite Ha. revert Hd. generalize (dom (k_activated (ss_continuation s))).
    clear. set_solver.
Qed.

(** C13: What a driven activation returns, from no continuation or from one it returned
    before: the tokens and items charged are exactly those of the active entries and
    within every limit (per audience, in all, and for what is neither reserved nor
    mandatory), deliveries are ones the kind of an entry allows, each group has one
    entry, the entries and their evidence are within their limits; and each entry that
    is newly active had a rule that let it be, and its body was read from the store. *)
Theorem drive_keeps_promises fuel now result loaded :
  (∀ k, req_continuation request = Some k → continuation_ok request k) →
  drive coordinator request snapshot fuel now = Some (Ok (result, loaded)) →
  continuation_ok request (ar_continuation result) ∧
  ∃ timed, timed_view request = Ok timed ∧
    ∀ id, is_Some (k_activated (ar_continuation result) !! id) → k_activated (started_from request) !! id = None →
      entitled request timed.1 id ∧ is_Some (loaded !! id).
Proof.
  intros Hk. unfold drive. destruct (start request) as [s|e] eqn:Hs; [|done].
  destruct (start_ok request Hfit s Hk Hs) as [Hok _].
  destruct (drive_loop _ _ _ _ _ _ _) as [[[s1 loaded1]|e]|] eqn:Hl; [| |done]; [|done]. intros Hr.
  destruct (finish request s1) as [r|] eqn:Hf; [|done]. injection Hr as <- <-.
  assert (∃ timed, timed_view request = Ok timed ∧ ss_timed_valid s = timed.1 ∧
    k_activated (ss_continuation s) = k_activated (started_from request)) as (timed & Htv & Ht & Hst).
  { unfold start in Hs. destruct (validate_request request); [|done]. unfold started_from.
    destruct (req_continuation request) as [k|]; [destruct (negb _); [done|]|];
      (destruct (timed_view request) as [timed|]; [|done]; destruct (budget_usage request _); [|done];
       injection Hs as <-; by exists timed). }
  apply (drive_loop_ok (dom (k_activated (started_from request)))) in Hl as (Hok1 & Ht1 & Hd1); [|done|].
  2: { rewrite Hst. set_solver. }
  destruct (finish_ok request _ _ _ Hok1 Hf) as [Hc Hent]. split; [done|]. exists timed. split; [done|].
  intros id Hid Hnew. apply not_elem_of_dom in Hnew. split.
  - rewrite <-Ht, <-Ht1. apply Hent; [by left|done].
  - apply elem_of_dom in Hid. rewrite (finish_active _ _ Hf) in Hid. apply elem_of_dom. set_solver.
Qed.

End driven.

(** ** The cache of matches does not show *)

Section transparent.
Context `{Unicode, Sha256Bytes, RegexFind, Layout}.
Context (coordinator : KnowledgeActivationCoordinator).

Definition fragment_preimage (kind : ScanFragmentKind) (recency_depth stable_order : N) (text : BoundedText) : list N :=
  str_bytes (fragment_kind_debug kind +:+ ":" +:+ pretty recency_depth +:+ ":" +:+ pretty stable_order +:+ ":")
  ++ str_bytes text.

(** The byte strings hashed so far, among which the hash has no collision. *)
Context (hashed : list N → Prop).
Definition collision_free : Prop := ∀ a b, hashed a → hashed b → sha256_bytes a = sha256_bytes b → a = b.
Definition scanned (f : ScanFragment) : Prop :=
  ∃ kind depth order text, f = ScanFragment_new kind depth order text ∧ (depth ≤ U16_MAX)%N ∧ (order ≤ U32_MAX)%N ∧
    hashed (fragment_preimage kind depth order text).

Lemma kind_colon_free k : colon_free (fragment_kind_debug k).
Proof. unfold colon_free. by destruct k; vm_compute; set_solver by lia. Qed.

Lemma fragment_id_inj f g : collision_free → scanned f → scanned g → frag_id f = frag_id g → f = g.
Proof.
  intros Hcf (k1 & d1 & o1 & t1 & -> & Hd1 & Ho1 & Hh1) (k2 & d2 & o2 & t2 & -> & Hd2 & Ho2 & Hh2) Hid.
  apply Hcf in Hid; [|done..]. rewrite <-!str_bytes_app in Hid. apply (inj str_bytes) in Hid.
  rewrite !string_app_assoc in Hid.
  apply colon_split in Hid as [Hk Hid]; [|apply kind_colon_free..].
  rewrite ?string_app_assoc in Hid.
  apply colon_split in Hid as [Hd Hid]; [|apply pretty_colon_free; unfold U16_MAX, U64_MAX in *; lia..].
  rewrite ?string_app_assoc in Hid.
  apply colon_split in Hid as [Ho ->]; [|apply pretty_colon_free; unfold U32_MAX, U64_MAX in *; lia..].
  apply (inj pretty) in Hd, Ho. subst. by destruct k1, k2.
Qed.

(** What an index is for the cache, and what it finds in a fragment. *)
Definition CacheScope : Type := StoryId * Sha256Digest * N * N * Sha256Digest.
Definition scope_of (story_id : StoryId) (index : ActivationIndexSnapshot) (digest : Sha256Digest) : CacheScope :=
  (story_id, ref_pack_digest (ix_reference index), ref_overlay_version (ix_reference index),
   ref_matcher_version (ix_reference index), digest).
Definition key_scope (k : FragmentMatchCacheKey) : CacheScope :=
  (ck_story_id k, ck_pack_digest k, ck_overlay_version k, ck_matcher_version k, ck_macro_digest k).
Context (truth : CacheScope → ScanFragment → list FragmentPatternMatch).

(** Each entry of the cache is what the index of its scope finds in its fragment. *)
Definition coherent (s : LruFragmentMatchState) : Prop :=
  ∀ k e f, lf_entries s !! k = Some e → scanned f → ck_fragment_id k = frag_id f → fe_value e = truth (key_scope k) f.

Lemma coherent_remove key ev s : coherent s → coherent (remove_key key ev s).
Proof.
  intros Hs k e f. unfold remove_key. destruct (lf_entries s !! key); [|apply Hs]. cbn.
  intros [_ He]%lookup_delete_Some. by apply Hs.
Qed.
Lemma coherent_partition fuel story max s : coherent s → coherent (enforce_partition_limit fuel story max s).
Proof.
  revert s. induction fuel as [|fuel IH]; intros s Hs; cbn [enforce_partition_limit]; case_match; try done.
  repeat case_match; try done. by apply IH, coherent_remove.
Qed.
Lemma coherent_global fuel p b s : coherent s → coherent (enforce_global_limits fuel p b s).
Proof.
  revert s. induction fuel as [|fuel IH]; intros s Hs; cbn [enforce_global_limits]; case_match; try done.
  case_match; try done. by apply IH, coherent_remove.
Qed.
Lemma coherent_insert limits key v s :
  coherent s → (∀ f, scanned f → ck_fragment_id key = frag_id f → v = truth (key_scope key) f) →
  coherent (fragment_cache_insert limits key v s).
Proof.
  intros Hs Hv. unfold fragment_cache_insert. case_match; [exact Hs|].
  apply coherent_global, coherent_partition. intros k e f. cbn.
  intros [[<- <-]|[_ He]]%lookup_insert_Some; [cbn; intros; by apply Hv|].
  by apply (coherent_remove key false s Hs).
Qed.
Lemma coherent_get key s : coherent s → coherent (fragment_cache_get key s).1 ∧
  ∀ v f, (fragment_cache_get key s).2 = Some v → scanned f → ck_fragment_id key = frag_id f → v = truth (key_scope key) f.
Proof.
  intros Hs. unfold fragment_cache_get. destruct (lf_entries s !! key) as [e|] eqn:Hk; cbn; [|done]. split.
  - intros k e' f. cbn. intros [[<- <-]|[_ He]]%lookup_insert_Some; [cbn; by apply Hs|by apply Hs].
  - intros v f [= <-]. by apply Hs.
Qed.

End transparent.

Module Sample.
#[local] Instance sample_unicode : Unicode := ascii_unicode.
#[local] Instance sample_sha : Sha256Bytes := λ l, l.
#[local] Instance sample_regex : RegexEngine :=
  {| Regex := (); regex_build _ _ _ _ _ := Ok (); regex_is_match _ _ := false |}.
#[local] Instance sample_find : RegexFind := {| regex_find_count _ _ := 0%N; regex_as_str _ := "" |}.
#[local] Instance sample_layout : Layout := {| size_of_evidence := 64; size_of_match := 48 |}.

Definition fact_id : KnowledgeSourceId := Sid_Fact "fact_1".
Definition metadata : ActivationEntryMetadata := {|
  meta_source_id := fact_id; meta_kind := Kind_Fact; meta_rule := keyword_rule; meta_rule_version := [];
  meta_salience := 50; meta_from_pack := true;
|}.
Definition snapshot : KnowledgeSnapshotRef := {|
  ks_story_id := "story"; ks_pack_digest := []; ks_base_revision := 1%N;
  ks_knowledge_id_high_water := 0%N;
|}.
Definition record : KnowledgeRecord := {|
  kr_source_id := fact_id; kr_kind := Kind_Fact; kr_content := "The dragon sleeps."; kr_salience := 50;
  kr_source := Source_Seed "pack" []; kr_memory_owner := None; kr_activation := None; kr_activation_rule_version := None;
|}.
#[local] Instance sample_ports : KnowledgePorts := {|
  find_by_source_ids _ _ := Ok [record];
  find_memories_by_owner _ _ := Ok [];
  list_index _ _ := Ok [];
  load_snapshot _ s _ := Ok {| im_reference := ref_from_knowledge s 0 MATCHER_VERSION;
    im_pack_entries := {[fact_id := metadata]}; im_entries := {[fact_id := metadata]} |};
  load_timed_state _ _ := Ok [];
|}.
Definition runtime : ActivationRuntimeLimits := {|
  rl_minimum_activations := 0; rl_initial_scan_depth := 4; rl_max_scan_depth := 8; rl_include_summary_at_max_depth := true;
  rl_max_scan_fragments := 16; rl_max_scan_bytes := 4096; rl_max_scan_tokens := 1024; rl_max_literal_patterns := 16;
  rl_max_regex_patterns := 16; rl_max_pattern_matches := 64; rl_max_candidates_per_round := 16;
  rl_max_recursion_steps := 2; rl_max_recursion_fragments := 8; rl_max_recursion_bytes := 4096;
  rl_max_recursion_tokens := 1024; rl_max_activated_entries := 8; rl_max_depth_expansions := 2;
  rl_max_external_candidates := 8; rl_max_evidence_per_entry := 4; rl_max_evidence_bytes := 4096;
  rl_max_items_per_audience := 8; rl_max_tokens_per_audience := 512; rl_max_total_items := 16;
  rl_max_total_tokens := 1024; rl_max_single_entry_bytes := 1024; rl_reserved_tokens := 64; rl_mandatory_tokens := 64;
|}.
Definition coordinator : KnowledgeActivationCoordinator := {|
  co_index_limits := {| il_max_entries := 16; il_max_overlay_entries := 16; il_max_tombstones := 16;
    il_max_literal_patterns := 16; il_max_regex_patterns := 16; il_max_compiled_bytes := 4096;
    il_max_regex_program_bytes := 4096; il_max_macro_expansion_bytes := 1024 |};
  co_rule_limits := {| arule_max_primary_patterns_per_entry := 8; arule_max_secondary_patterns_per_entry := 8;
    arule_max_pattern_bytes := 256; arule_max_regex_program_bytes := 4096; arule_max_groups_per_entry := 4;
    arule_max_group_key_bytes := 64; arule_max_macro_value_bytes := 64; arule_max_macro_expansion_bytes := 1024 |};
  co_runtime_limits := runtime;
  co_cache_limits := witness_cache_limits;
|}.
Definition macros : ActivationMacroValues := {| macro_player_name := "Ada"; macro_player_role_label := "hero" |}.
Definition fragment : ScanFragment := ScanFragment_new Frag_PlayerContribution 0 0 "I wake the dragon".
Definition spec : ActivationRunSpec := {|
  spec_snapshot := snapshot; spec_scan_buffer := [fragment]; spec_macros := macros; spec_story_id := "story";
  spec_turn_number := 1%N; spec_generation_trigger := Trigger_Normal; spec_mode := Run_CommitEligible;
  spec_external_seeds := []; spec_continuation := None;
|}.
Definition index : result ActivationError ActivationIndexSnapshot :=
  (prepare_index coordinator 0 snapshot macros PackIndexCacheState_new).2.
Definition outcome : option (result ActivationError ActivationRunOutcome) :=
  (run coordinator 0 spec CoordinatorCaches_new).2.

(** The fact is found, its body is read, and it is active once. *)
Definition active_ids (o : option (result ActivationError ActivationRunOutcome)) : list KnowledgeSourceId :=
  match o with
  | Some (Ok outcome) => act_source_id <$> ar_activated (rn_result outcome)
  | _ => []
  end.
Lemma sample_active : active_ids outcome = [fact_id].
Proof. by vm_compute. Qed.

(** The request of the run, with the matches of its fragment. *)
Definition request : ActivationRequest :=
  match index with
  | Ok ix => run_request coordinator spec ix
      (match_fragments coordinator "story" ix (macro_digest macros) [fragment] LruFragmentMatchState_new).2 []
  | Err _ => run_request coordinator spec (ActivationIndexSnapshot_new (ref_from_knowledge snapshot 0 1) ∅
      {| lit_patterns := []; lit_compiled_bytes := 0 |} {| rgx_patterns := []; rgx_compiled_bytes := 0 |}
      {| lit_patterns := []; lit_compiled_bytes := 0 |} {| rgx_patterns := []; rgx_compiled_bytes := 0 |}) ∅ []
  end.
Definition driven : option (result ActivationError (ActivationResult * gmap KnowledgeSourceId LoadedActivationEntry)) :=
  drive coordinator request snapshot (drive_fuel request) 0.
Definition loaded_ids : list KnowledgeSourceId :=
  match driven with Some (Ok (_, loaded)) => keys loaded | _ => [] end.
Definition active_now (id : KnowledgeSourceId) : bool :=
  match driven with Some (Ok (r, _)) => bool_decide (id ∈ act_source_id <$> ar_activated r) | _ => false end.
Lemma drive_ends_witness :
  (rl_max_recursion_steps (req_limits request) ≤ U16_MAX)%N ∧ is_Some driven.
Proof. split; [by vm_compute|]. apply drive_ends; by vm_compute. Defined.

Lemma runtime_fits : limits_fit (req_limits request).
Proof. split; by vm_compute. Qed.
Lemma no_continuation k : req_continuation request = Some k → continuation_ok request k.
Proof.
  intros Hk. assert (bool_decide (is_Some (req_continuation request)) = false) as Hn by by vm_compute.
  apply bool_decide_eq_false in Hn. exfalso. apply Hn. by exists k.
Qed.

Definition is_ok {E A} (r : result E A) : bool := match r with Ok _ => true | Err _ => false end.
Lemma index_ok : is_ok index = true.
Proof. by vm_compute. Qed.
Lemma driven_ok : match driven with Some r => is_ok r | None => false end = true.
Proof. by vm_compute. Qed.

Lemma drive_keeps_promises_witness :
  match driven with
  | Some (Ok (result, loaded)) =>
      (act_source_id <$> ar_activated result, keys loaded) = ([fact_id], [fact_id]) ∧
      continuation_ok request (ar_continuation result) ∧
      ∃ timed, timed_view request = Ok timed ∧
        ∀ id, is_Some (k_activated (ar_continuation result) !! id) → k_activated (started_from request) !! id = None →
          entitled request timed.1 id ∧ is_Some (loaded !! id)
  | _ => False
  end.
Proof.
  pose proof driven_ok as driven_ok. destruct driven as [[[r loaded]|e]|] eqn:Hd; [split| |].
  - assert ((λ o : option (result ActivationError (ActivationResult * gmap KnowledgeSourceId LoadedActivationEntry)),
      match o with Some (Ok (r, l)) => (act_source_id <$> ar_activated r, keys l) | _ => ([], []) end) driven
      = ([fact_id], [fact_id])) as Hv by by vm_compute.
    by rewrite Hd in Hv.
  - unfold driven in Hd. apply (drive_keeps_promises coordinator request snapshot runtime_fits (drive_fuel request) 0 r loaded no_continuation Hd).
  - done.
  - done.
Defined.


End Sample.
