(* ===== verification/AisePlanningProofs.v ===== *)
(** * The plan of a turn is sound

    What [RetrievalPlanBuilder] makes of an answer of the planner: who thinks, which
    roles and which entries of knowledge are fetched and for whom, each at most once,
    within the limits, and only what the prompt offered. *)

From S2P Require Import Prelude Text AiseIds AiseRule AiseNarrative AiseStory AiseTurnData AiseExtraction AiseConfig.
From S2P Require Import AiseScan AisePorts AiseActivation AiseCaches AiseCoordination AiseBudget AiseContext AisePlanning.
From S2P Require Import AisePreparation.

(** ** Requests without repetitions *)
Lemma NoDup_fmap_values `{Countable K, KeyOrd K} {V} (key : V → K) (m : gmap K V) :
  (∀ k v, m !! k = Some v → key v = k) → NoDup (key <$> values m).
Proof.
  intros Hk. assert (key <$> values m = keys m) as ->; [|apply NoDup_keys].
  unfold values, keys. rewrite <- list_fmap_compose. apply list_fmap_ext. intros i [k v] Hin.
  apply list_elem_of_lookup_2, elem_of_entries in Hin. by apply Hk.
Qed.

Section dedupe.
Implicit Types (r : KnowledgeRetrievalRequest) (m : gmap RetrievalRequestKey KnowledgeRetrievalRequest).

Definition kept_of (requests : list KnowledgeRetrievalRequest) m : Prop :=
  (∀ k r, m !! k = Some r → canonical_key r = k ∧ r ∈ requests)
  ∧ (∀ r, r ∈ requests → ∃ r', m !! canonical_key r = Some r' ∧ (krr_mandatory r = true → krr_mandatory r' = true)).
Lemma keep_request_spec requests m r : kept_of requests m → kept_of (requests ++ [r]) (keep_request m r).
Proof.
  intros [Hin Hout]. unfold keep_request.
  assert (∀ mandatory : bool, (∀ r0, m !! canonical_key r = Some r0 → krr_mandatory r0 = true → mandatory = true) →
    krr_mandatory r = mandatory → kept_of (requests ++ [r]) (<[canonical_key r:=r]> m)) as Hset.
  { intros mandatory Hm Hr. split.
    - intros k r'. rewrite lookup_insert_Some. intros [[<- <-]|[Hne Hk]]; [split; [done|set_solver]|].
      destruct (Hin _ _ Hk) as [? ?]. split; [done|set_solver].
    - intros r' Hr'. destruct (decide (canonical_key r' = canonical_key r)) as [He|Hne].
      + exists r. rewrite He, lookup_insert_eq. split; [done|]. apply elem_of_app in Hr' as [Hr'|Hr'].
        * destruct (Hout r' Hr') as (r0 & H0 & Hmm). intros Hman. rewrite Hr. rewrite He in H0. exact (Hm r0 H0 (Hmm Hman)).
        * apply list_elem_of_singleton in Hr' as ->. done.
      + rewrite lookup_insert_ne by done. apply elem_of_app in Hr' as [Hr'|Hr']; [by apply Hout|].
        by apply list_elem_of_singleton in Hr' as ->. }
  destruct (m !! canonical_key r) as [r0|] eqn:H0; [|by apply (Hset (krr_mandatory r))].
  destruct (replaces r r0) eqn:Hrep; unfold replaces in Hrep.
  - eapply (Hset (krr_mandatory r)); [|done]. intros r1 [= <-] Hm. rewrite Hm in Hrep. by destruct (krr_mandatory r).
  - split.
    + intros k r' Hk. destruct (Hin k r' Hk). split; [done|set_solver].
    + intros r' [Hr'|Hr'%list_elem_of_singleton]%elem_of_app; [by apply Hout|subst r'].
      exists r0. split; [done|]. intros Hm. rewrite Hm in Hrep. by destruct (krr_mandatory r0).
Qed.
Lemma kept_requests requests : kept_of requests (foldl keep_request ∅ requests).
Proof.
  apply (foldl_prefix_ind (λ pre m, kept_of pre m)).
  - split; [intros k r; by rewrite lookup_empty|intros r Hr; by apply not_elem_of_nil in Hr].
  - intros pre r suf m _. apply keep_request_spec.
Qed.

(** One request for each key, from the list, mandatory if one of its key is. *)
Record deduped (requests l : list KnowledgeRetrievalRequest) : Prop := {
  dd_from : ∀ r, r ∈ l → r ∈ requests;
  dd_all : ∀ r, r ∈ requests →
    ∃ r', r' ∈ l ∧ canonical_key r' = canonical_key r ∧ (krr_mandatory r = true → krr_mandatory r' = true);
  dd_once : NoDup (canonical_key <$> l);
}.
Lemma dedupe_and_sort_spec requests : deduped requests (dedupe_and_sort requests).
Proof.
  destruct (kept_requests requests) as [Hin Hout]. unfold dedupe_and_sort. split.
  - intros r. rewrite elem_of_sort_by, elem_of_values. intros (k & Hk). by eapply Hin.
  - intros r Hr. destruct (Hout r Hr) as (r' & Hk & Hm). exists r'. split_and!; [|by eapply Hin|exact Hm].
    rewrite elem_of_sort_by, elem_of_values. by eexists.
  - rewrite sort_by_perm. apply NoDup_fmap_values. intros k r Hk. by eapply Hin.
Qed.
End dedupe.

(** ** Targets of the prompt *)

(** The names the planner may use stand for entries of the two indices. *)
Definition target_indexed (baseline : BaselineContext) (t : IndexedRetrievalTarget) : Prop :=
  match t with
  | Target_Role role_id => role_id ∈ rie_role_id <$> role_index baseline
  | Target_Knowledge source_id => source_id ∈ kie_source_id <$> knowledge_index baseline
  end.
Lemma insert_target_inv (P : IndexedRetrievalTarget → Prop) targets e targets' :
  P e.2 → (∀ key t, targets !! key = Some t → P t) → insert_target targets e = Ok targets' →
  ∀ key t, targets' !! key = Some t → P t.
Proof.
  destruct e as [key0 t0]. cbn. intros H0 Ht Hi key t.
  assert (targets' = <[key0:=t0]> targets) as ->.
  { destruct (targets !! key0); [|by injection Hi as <-]. destruct (negb _); [done|]. by injection Hi as <-. }
  rewrite lookup_insert_Some. intros [[_ <-]|[_ Hk]]; [done|by eapply Ht].
Qed.
Lemma planner_targets_indexed baseline targets key t :
  planner_targets baseline = Ok targets → targets !! key = Some t → target_indexed baseline t.
Proof.
  unfold planner_targets. destruct (try_fold insert_target ∅ _) as [roles|e] eqn:Hr; [|done]. intros Hk.
  assert (∀ key t, roles !! key = Some t → target_indexed baseline t) as Hroles.
  { eapply (try_fold_inv (λ m : gmap string IndexedRetrievalTarget, ∀ key t, m !! key = Some t → target_indexed baseline t));
      [|clear Hr|exact Hr]; [intros k t'; by rewrite lookup_empty|].
    intros m e m1 He Hm. apply insert_target_inv; [|exact Hm]. change (@map) with (@fmap list _) in He.
    apply list_elem_of_fmap in He as (entry & -> & He). cbn. apply list_elem_of_fmap. by exists entry. }
  revert key t. eapply (try_fold_inv (λ m : gmap string IndexedRetrievalTarget, ∀ key t, m !! key = Some t → target_indexed baseline t));
    [exact Hroles|clear Hk|exact Hk].
  intros m e m1 He Hm. apply insert_target_inv; [|exact Hm]. change (@map) with (@fmap list _) in He.
  apply list_elem_of_fmap in He as (entry & -> & He). cbn. apply list_elem_of_fmap. by exists entry.
Qed.
Lemma prompt_targets_indexed `{JsonText} baseline narrative_plan contribution max projection key t :
  project_writer_prompt baseline narrative_plan contribution max = Ok projection →
  indexed_targets (wpp_context projection) !! key = Some t → target_indexed baseline t.
Proof.
  unfold project_writer_prompt. destruct (planner_targets baseline) as [targets|e] eqn:Ht; [|done]. intros Hp.
  repeat (res_step; try done). subst. cbn. by eapply planner_targets_indexed.
Qed.

(** ** Who thinks *)

Section plan.
Context (builder : RetrievalPlanBuilder) (baseline : BaselineContext) (snapshot : StoryReadSnapshot).
Implicit Types (thinks : list CharacterThinkRequest) (r : KnowledgeRetrievalRequest).

(** A role the planner asks is in the story and played by the model; one the narrative
    asks is in the context and not the player's. *)
Definition may_think (role_id : RoleId) : Prop :=
  (role_id ≠ snap_player_role_id snapshot
   ∧ ∃ role, snapshot_role snapshot role_id = Some role ∧ view_is_player_controlled role = false)
  ∨ (role_id ≠ rcv_role_id (base_player_role baseline) ∧ known_role baseline role_id = true).

Lemma validate_thinks_ok requests out :
  validate_think_requests requests snapshot = Ok out →
  out = requests ∧ NoDup (ctr_role_id <$> requests) ∧ Forall may_think (ctr_role_id <$> requests).
Proof.
  unfold validate_think_requests. destruct (try_fold _ _ requests) as [[out' seen]|e] eqn:Hf; [|done]. intros [= <-].
  assert (out' = requests ∧ seen = list_to_set (ctr_role_id <$> requests) ∧ NoDup (ctr_role_id <$> requests)
    ∧ Forall may_think (ctr_role_id <$> requests)) as (-> & _ & ? & ?); [|done].
  apply (try_fold_prefix_ind (λ pre (acc : list CharacterThinkRequest * gset RoleId), acc.1 = pre ∧ acc.2 = list_to_set (ctr_role_id <$> pre)
    ∧ NoDup (ctr_role_id <$> pre) ∧ Forall may_think (ctr_role_id <$> pre))) in Hf; [done|by repeat split; constructor|].
  clear Hf. intros pre x suf [out1 seen1] [out2 seen2] _ (Ho & Hs & Hnd & Hall) Hx. cbn in *. subst out1 seen1.
  unfold validate_think_request in Hx. repeat (res_step; try done). read_results. simplify_eq.
  rewrite bool_decide_eq_false in *. rewrite fmap_app. cbn. split_and!.
  - done.
  - rewrite list_to_set_app_L. set_solver.
  - apply NoDup_app. split_and!; [done| |apply NoDup_singleton]. intros id Hid ->%list_elem_of_singleton. set_solver.
  - apply Forall_app. split; [done|]. constructor; [|done]. left. split; [done|]. by eexists.
Qed.

Definition additions_ok (seen : gset RoleId) (additions : gmap RoleId BoundedText) : Prop :=
  ∀ id reason, additions !! id = Some reason →
    id ∉ seen ∧ id ≠ rcv_role_id (base_player_role baseline) ∧ known_role baseline id = true.
Lemma add_impulse_ok config seen additions impulse additions' :
  additions_ok seen additions → add_impulse baseline config seen additions impulse = Ok additions' → additions_ok seen additions'.
Proof.
  unfold add_impulse. intros Ha Hi. destruct (_ || _) eqn:Hseen; [by injection Hi as <-|].
  repeat (res_step; try done). subst. apply orb_false_iff in Hseen as [Hseen _]. rewrite bool_decide_eq_false in *.
  intros id reason. rewrite lookup_insert_Some. intros [[<- _]|[_ Hk]]; [|by eapply Ha].
  split_and!; [done..|]. by destruct (known_role _ _).
Qed.
Lemma merge_thinks_ok requests impulses config thinks :
  NoDup (ctr_role_id <$> requests) → Forall may_think (ctr_role_id <$> requests) →
  merge_narrative_think_requests requests impulses baseline config = Ok thinks →
  NoDup (ctr_role_id <$> thinks) ∧ Forall may_think (ctr_role_id <$> thinks) ∧ requests `sublist_of` thinks
  ∧ (nlen thinks <= planner_max_character_think_requests config)%N.
Proof.
  intros Hnd Hall. unfold merge_narrative_think_requests. set (seen := list_to_set _ : gset RoleId).
  destruct (try_fold _ ∅ impulses) as [additions|e] eqn:Ha; [|done]. intros Hm. res_step. res_step. subst thinks.
  assert (additions_ok seen additions) as Hok.
  { eapply (try_fold_inv (additions_ok seen)); [|clear Ha|exact Ha]; [intros id reason; by rewrite lookup_empty|].
    intros s x s1 _. by apply add_impulse_ok. }
  change (@map) with (@fmap list _) in *. rewrite fmap_app, <- list_fmap_compose.
  assert (ctr_role_id ∘ (λ '(role_id, reason), {| ctr_role_id := role_id; ctr_reason := reason |}) <$> entries additions
          = keys additions) as ->.
  { unfold keys. apply list_fmap_ext. by intros i [id reason] _. }
  split_and!.
  - apply NoDup_app. split_and!; [done| |apply NoDup_keys]. intros id Hid [reason Hk]%elem_of_keys.
    apply Hok in Hk as (Hns & _). apply Hns. unfold seen. change (@map) with (@fmap list _). by apply elem_of_list_to_set.
  - apply Forall_app. split; [done|]. apply Forall_forall. intros id [reason Hk]%elem_of_keys. right. by eapply Hok.
  - by apply sublist_inserts_r.
  - rewrite N.ltb_ge in *. done.
Qed.

(** ** What is asked for *)

Context (prompt : WriterPlannerPromptContext).
Definition named_knowledge (key : string) (source_id : KnowledgeSourceId) : Prop :=
  indexed_targets prompt !! key = Some (Target_Knowledge source_id).
(** A gap of the answer that a request is for. *)
Definition writer_asks (gaps : list PlannerWriterContextGapDto) (source_id : KnowledgeSourceId) : Prop :=
  ∃ gap, gap ∈ gaps ∧ named_knowledge (wgap_target_id gap) source_id.
Definition character_asks (gaps : list PlannerCharacterContextGapDto) (role_id : RoleId) (source_id : KnowledgeSourceId) : Prop :=
  ∃ gap, gap ∈ gaps ∧ RoleId_try_new (cgap_role_id gap) = Ok role_id ∧ named_knowledge (cgap_target_id gap) source_id.
Definition role_asked (gaps : list PlannerWriterContextGapDto) (role_id : RoleId) : Prop :=
  ∃ gap, gap ∈ gaps ∧ indexed_targets prompt !! wgap_target_id gap = Some (Target_Role role_id).

Definition planner_request (delivery : KnowledgeDelivery) (source_id : KnowledgeSourceId) r : Prop :=
  canonical_key r = (delivery, source_id) ∧ krr_origin r = Origin_Planner ∧ krr_mandatory r = false.
Lemma make_request_ok delivery source_id reason r :
  make_request builder delivery source_id reason Origin_Planner false = Ok r → planner_request delivery source_id r.
Proof. unfold make_request. intros Hr. repeat (res_step; try done). by subst. Qed.

(** The requests for the writer and the roles named by the gaps read so far. *)
Record writer_read (pre : list PlannerWriterContextGapDto) (cognition : Cognition) (requests : list KnowledgeRetrievalRequest) : Prop := {
  wr_roles : ∀ id, is_Some (cognition !! id) ↔ role_asked pre id;
  wr_from : ∀ r, r ∈ requests → ∃ source_id, planner_request Delivery_Writer source_id r ∧ writer_asks pre source_id;
  wr_all : ∀ source_id, writer_asks pre source_id → ∃ r, r ∈ requests ∧ canonical_key r = (Delivery_Writer, source_id);
}.
Lemma or_insert_some id id' v (m : Cognition) : is_Some (or_insert id v m !! id') ↔ id' = id ∨ is_Some (m !! id').
Proof.
  unfold or_insert. destruct (m !! id) as [x|] eqn:Hm.
  - split; [auto|]. intros [->|]; [by rewrite Hm|done].
  - etrans; [apply lookup_insert_is_Some'|]. naive_solver.
Qed.
Lemma add_writer_gap_read pre gap cognition requests cognition' requests' :
  writer_read pre cognition requests →
  add_writer_gap builder prompt (cognition, requests) gap = Ok (cognition', requests') →
  writer_read (pre ++ [gap]) cognition' requests'.
Proof.
  intros [Hroles Hfrom Hall] Ha. unfold add_writer_gap, resolve_writer_gap in Ha. repeat (res_step; try done). read_results.
  match goal with Ht : indexed_targets prompt !! _ = Some ?t |- _ => rename Ht into Htarget; destruct t as [id|source_id] end;
    repeat (res_step; try done); simplify_eq.
  - split.
    + intros id'. rewrite or_insert_some, Hroles. unfold role_asked. split.
      * intros [->|(g & Hg & Ht)]; [exists gap|exists g]; split; [set_solver|done|set_solver|done].
      * intros (g & [Hg|Hg%list_elem_of_singleton]%elem_of_app & Ht); [right; by exists g|subst g]. left. congruence.
    + intros r Hr. destruct (Hfrom r Hr) as (s & Hp & g & Hg & Ht). exists s. split; [done|]. exists g. split; [set_solver|done].
    + intros s (g & [Hg|Hg%list_elem_of_singleton]%elem_of_app & Ht); [apply Hall; by exists g|subst g].
      unfold named_knowledge in Ht. congruence.
  - match goal with Hm : make_request _ _ _ _ _ _ = Ok _ |- _ => apply make_request_ok in Hm as Hp end. split.
    + intros id. rewrite Hroles. unfold role_asked. split.
      * intros (g & Hg & Ht). exists g. split; [set_solver|done].
      * intros (g & [Hg|Hg%list_elem_of_singleton]%elem_of_app & Ht); [by exists g|subst g]. congruence.
    + intros r [Hr|Hr%list_elem_of_singleton]%elem_of_app.
      * destruct (Hfrom r Hr) as (s & Hpr & g & Hg & Ht). exists s. split; [done|]. exists g. split; [set_solver|done].
      * subst r. exists source_id. split; [done|]. exists gap. split; [set_solver|done].
    + intros s (g & [Hg|Hg%list_elem_of_singleton]%elem_of_app & Ht).
      * destruct (Hall s) as (r & Hr & Hk); [by exists g|]. exists r. split; [set_solver|done].
      * subst g. unfold named_knowledge in Ht. destruct Hp as (Hk & _). eexists.
        split; [apply elem_of_app; right; by apply list_elem_of_singleton|]. rewrite Hk. congruence.
Qed.
Lemma writer_gaps_read gaps cognition requests :
  try_fold (add_writer_gap builder prompt) (∅, []) gaps = Ok (cognition, requests) → writer_read gaps cognition requests.
Proof.
  intros Hf. apply (try_fold_prefix_ind (λ pre (acc : Cognition * list KnowledgeRetrievalRequest), writer_read pre acc.1 acc.2)) in Hf; [done| |].
  - split; cbn.
    + intros id. split; [by intros [x Hx]|by intros (g & Hg%not_elem_of_nil & _)].
    + by intros r Hr%not_elem_of_nil.
    + by intros s (g & Hg%not_elem_of_nil & _).
  - clear Hf. intros pre gap suf [c1 r1] [c2 r2] _ Hp Hx. by eapply add_writer_gap_read.
Qed.

Record characters_read (thinks : list CharacterThinkRequest) (before : list KnowledgeRetrievalRequest)
    (pre : list PlannerCharacterContextGapDto) (requests : list KnowledgeRetrievalRequest) : Prop := {
  cr_before : ∀ r, r ∈ before → r ∈ requests;
  cr_from : ∀ r, r ∈ requests → r ∈ before ∨ ∃ role_id source_id,
    planner_request (Delivery_Character role_id) source_id r ∧ character_asks pre role_id source_id
    ∧ role_id ∈ ctr_role_id <$> thinks ∧ sid_kind source_id ≠ Kind_Fact;
  cr_all : ∀ role_id source_id, character_asks pre role_id source_id →
    ∃ r, r ∈ requests ∧ canonical_key r = (Delivery_Character role_id, source_id);
}.
Lemma add_character_gap_read thinks before pre gap requests requests' :
  characters_read thinks before pre requests →
  add_character_gap builder thinks prompt requests gap = Ok requests' →
  characters_read thinks before (pre ++ [gap]) requests'.
Proof.
  intros [Hbefore Hfrom Hall] Ha. unfold add_character_gap, resolve_character_gap in Ha. repeat (res_step; try done). read_results.
  match goal with Ht : indexed_targets prompt !! _ = Some ?t |- _ => rename Ht into Htarget; destruct t as [id|source_id] end;
    repeat (res_step; try done). simplify_eq/=.
  match goal with Hm : make_request _ (Delivery_Character ?id) ?s _ _ _ = Ok ?v |- _ =>
    apply make_request_ok in Hm as Hp; rename id into role_id, s into source_id, v into request end.
  match goal with He : negb _ = false |- _ => apply negb_false_iff, existsb_exists in He as (think & Hin & Hthink) end.
  apply bool_decide_eq_true in Hthink. apply list_elem_of_In in Hin. rewrite bool_decide_eq_false in *. split.
  - intros r Hr. apply elem_of_app. left. by apply Hbefore.
  - intros r [Hr|Hr%list_elem_of_singleton]%elem_of_app.
    + destruct (Hfrom r Hr) as [?|(id & s & Hpr & (g & Hg & Ht) & Hin' & Hk)]; [by left|]. right. exists id, s.
      split_and!; [done| |done..]. exists g. split; [set_solver|done].
    + subst r. right. exists role_id, source_id. split_and!; [done| | |done].
      * exists gap. split; [set_solver|done].
      * apply list_elem_of_fmap. by exists think.
  - intros id s (g & [Hg|Hg%list_elem_of_singleton]%elem_of_app & Ht & Hs).
    + destruct (Hall id s) as (r & Hr & Hk); [by exists g|]. exists r. split; [set_solver|done].
    + subst g. unfold named_knowledge in Hs. exists request.
      split; [apply elem_of_app; right; by apply list_elem_of_singleton|]. destruct Hp as (Hk & _). rewrite Hk. congruence.
Qed.
Lemma character_gaps_read thinks before gaps requests :
  try_fold (add_character_gap builder thinks prompt) before gaps = Ok requests →
  characters_read thinks before gaps requests.
Proof.
  apply (try_fold_prefix_ind (characters_read thinks before)).
  - split; [done|by left|]. by intros id s (g & Hg%not_elem_of_nil & _).
  - intros pre gap suf requests1 requests2 _. apply add_character_gap_read.
Qed.

(** ** The plan *)

Record plan_sound (output : WriterPlannerOutputDto) (plan : WriterPlan) : Prop := {
  pl_goal : goal_summary (story_goal plan) = out_story_goal output ∧ is_blank (out_story_goal output) = false
    ∧ (slen (out_story_goal output) <= planner_max_goal_bytes (rpb_planner builder))%N;
  (** Nobody thinks twice, and only who may. *)
  pl_thinks_once : NoDup (ctr_role_id <$> character_think_requests plan);
  pl_thinks_may : Forall may_think (ctr_role_id <$> character_think_requests plan);
  pl_thinks_count :
    (nlen (character_think_requests plan) <= planner_max_character_think_requests (rpb_planner builder))%N;
  (** The roles fetched: who thinks, and whom the writer asked for. *)
  pl_roles_once : NoDup (crr_role_id <$> character_requests (retrieval_plan plan));
  pl_roles : ∀ id, id ∈ crr_role_id <$> character_requests (retrieval_plan plan) ↔
    id ∈ ctr_role_id <$> character_think_requests plan ∨ role_asked (out_writer_context_gaps output) id;
  (** The knowledge fetched: every gap of the answer, once for each audience. *)
  pl_knowledge_once : NoDup (canonical_key <$> knowledge_requests (retrieval_plan plan));
  pl_knowledge : ∀ delivery source_id,
    (delivery, source_id) ∈ canonical_key <$> knowledge_requests (retrieval_plan plan) ↔
    match delivery with
    | Delivery_Writer => writer_asks (out_writer_context_gaps output) source_id
    | Delivery_Character id => character_asks (out_character_context_gaps output) id source_id
    end;
  pl_audience : ∀ id source_id,
    (Delivery_Character id, source_id) ∈ canonical_key <$> knowledge_requests (retrieval_plan plan) →
    id ∈ ctr_role_id <$> character_think_requests plan ∧ sid_kind source_id ≠ Kind_Fact;
  pl_knowledge_count :
    (nlen (knowledge_requests (retrieval_plan plan)) <= retrieval_max_requests (rpb_retrieval builder))%N;
}.

Lemma add_thinking_roles thinks (m : Cognition) id :
  is_Some (foldl add_thinking m thinks !! id) ↔ id ∈ ctr_role_id <$> thinks ∨ is_Some (m !! id).
Proof.
  revert m. induction thinks as [|think thinks IH]; intros m; cbn [foldl].
  - split; [by right|]. intros [Hn|]; [by apply not_elem_of_nil in Hn|done].
  - rewrite IH. unfold add_thinking at 1. rewrite or_insert_some, fmap_cons, elem_of_cons. tauto.
Qed.
Lemma cognition_ids (m : Cognition) : crr_role_id <$> map cognition_request (entries m) = keys m.
Proof.
  change (@map) with (@fmap list _). rewrite <- list_fmap_compose. unfold keys. apply list_fmap_ext.
  by intros i [id [reason origin]] _.
Qed.
Lemma key_known requests l key :
  deduped requests l → key ∈ canonical_key <$> l ↔ key ∈ canonical_key <$> requests.
Proof.
  intros [Hfrom Hall _]. rewrite !list_elem_of_fmap. split.
  - intros (r & -> & Hr). exists r. split; [done|]. by apply Hfrom.
  - intros (r & -> & Hr). destruct (Hall r Hr) as (r' & Hr' & <- & _). by exists r'.
Qed.

Lemma bounded_ok value field max text : BoundedText_try_new value field max = Ok text → text = value ∧ (slen value <= max)%N.
Proof. unfold BoundedText_try_new. intros Hb. repeat (res_step; try done). rewrite N.ltb_ge in *. by split. Qed.
Lemma convert_thinks requests thinks :
  convert_think_requests builder requests = Ok thinks → length thinks = length requests.
Proof. apply traverse_length. Qed.
(** Every request of the plan, by its key. *)
Lemma requests_keys thinks cognition before requests writer_gaps character_gaps delivery source_id :
  writer_read writer_gaps cognition before → characters_read thinks before character_gaps requests →
  (delivery, source_id) ∈ canonical_key <$> requests ↔
  match delivery with
  | Delivery_Writer => writer_asks writer_gaps source_id
  | Delivery_Character id => character_asks character_gaps id source_id
  end.
Proof.
  intros [_ Wfrom Wall] [Cbefore Cfrom Call]. rewrite list_elem_of_fmap. split.
  - intros (r & Hk & Hr). destruct (Cfrom r Hr) as [Hb|(id & s & (Hk' & _) & Ha & _)].
    + destruct (Wfrom r Hb) as (s & (Hk' & _) & Ha). rewrite Hk' in Hk. by injection Hk as -> ->.
    + rewrite Hk' in Hk. by injection Hk as -> ->.
  - destruct delivery as [|id]; intros Ha.
    + destruct (Wall _ Ha) as (r & Hr & Hk). exists r. split; [done|by apply Cbefore].
    + destruct (Call _ _ Ha) as (r & Hr & Hk). by exists r.
Qed.
Lemma requests_audience thinks cognition before requests writer_gaps character_gaps id source_id :
  writer_read writer_gaps cognition before → characters_read thinks before character_gaps requests →
  (Delivery_Character id, source_id) ∈ canonical_key <$> requests →
  id ∈ ctr_role_id <$> thinks ∧ sid_kind source_id ≠ Kind_Fact.
Proof.
  intros [_ Wfrom _] [_ Cfrom _] (r & Hk & Hr)%list_elem_of_fmap.
  destruct (Cfrom r Hr) as [Hb|(id' & s & (Hk' & _) & _ & Hin & Hkind)].
  - destruct (Wfrom r Hb) as (s & (Hk' & _) & _). by rewrite Hk' in Hk.
  - rewrite Hk' in Hk. by injection Hk as -> ->.
Qed.

Lemma build_plan_sound narrative_plan output plan :
  build_plan builder baseline narrative_plan output snapshot prompt = Ok plan → plan_sound output plan.
Proof.
  unfold build_plan. intros Hb. res_step. res_step. res_step.
  destruct (map_err _ (BoundedText_try_new _ _ _)) as [goal|e] eqn:Hgoal; [|done].
  destruct (convert_think_requests _ _) as [converted|e] eqn:Hconv; [|done].
  destruct (validate_think_requests _ _) as [validated|e] eqn:Hval; [|done].
  destruct (merge_narrative_think_requests _ _ _ _) as [thinks|e] eqn:Hmerge; [|done].
  destruct (try_fold (add_writer_gap _ _) _ _) as [[cognition before]|e] eqn:Hw; [|done].
  destruct (try_fold (add_character_gap _ _ _) _ _) as [requests|e] eqn:Hc; [|done].
  res_step. res_step. subst plan. read_results. apply bounded_ok in Hgoal as [-> Hgoal].
  apply validate_thinks_ok in Hval as (-> & Hnd & Hall).
  apply merge_thinks_ok in Hmerge as (Hnd' & Hall' & _ & Hcount); [|done..].
  apply writer_gaps_read in Hw. apply character_gaps_read in Hc. pose proof (dedupe_and_sort_spec requests) as Hd.
  assert (∀ l : Cognition, crr_role_id <$> sort_by (λ x y, key_compare (crr_role_id x) (crr_role_id y)) (map cognition_request (entries l))
    ≡ₚ keys l) as Hroles by (intros l; by rewrite sort_by_perm, cognition_ids).
  split; cbn [story_goal goal_summary retrieval_plan character_requests knowledge_requests character_think_requests].
  - done.
  - done.
  - done.
  - done.
  - rewrite Hroles. apply NoDup_keys.
  - intros id. rewrite Hroles, elem_of_keys, add_thinking_roles. by rewrite (wr_roles _ _ _ Hw).
  - by apply dd_once with requests.
  - intros delivery source_id. rewrite (key_known _ _ _ Hd). by eapply requests_keys.
  - intros id source_id. rewrite (key_known _ _ _ Hd). by eapply requests_audience.
  - by rewrite N.ltb_ge in *.
Qed.
End plan.

(** ** What the retrieval hands to the turn *)

Section retrieval.
Context `{Unicode, Sha256Bytes, RegexFind, Layout, KnowledgePorts, TurnJson}.

Lemma role_views_ids snapshot requests views id :
  try_fold (role_view_of snapshot) ∅ requests = Ok views →
  is_Some (views !! id) ↔ id ∈ crr_role_id <$> requests.
Proof.
  intros Hf. revert id. revert Hf. apply (try_fold_prefix_ind (λ pre (m : gmap RoleId RoleContextView), ∀ id,
    is_Some (m !! id) ↔ id ∈ crr_role_id <$> pre)).
  - intros id. rewrite lookup_empty. split; [by intros []|by intros ?%not_elem_of_nil].
  - intros pre request suf m m' _ Hm. unfold role_view_of. intros Hr. res_step. injection Hr as <-. intros id.
    etrans; [apply lookup_insert_is_Some'|]. rewrite fmap_app, elem_of_app, <- Hm. cbn. rewrite list_elem_of_singleton.
    naive_solver.
Qed.

Lemma retrieved_characters_ids pipeline snapshot activated loaded targets now l now' characters id :
  try_fold (retrieve_character pipeline snapshot activated loaded targets) (now, ∅) l = Ok (now', characters) →
  is_Some (characters !! id) ↔ id ∈ l.*1.
Proof.
  intros Hf. revert id. revert Hf. change characters with (now', characters).2 at 2.
  apply (try_fold_prefix_ind (λ pre (acc : N * gmap RoleId RetrievedCharacterContext), ∀ id,
    is_Some (acc.2 !! id) ↔ id ∈ pre.*1)).
  - intros id. cbn. rewrite lookup_empty. split; [by intros []|by intros ?%not_elem_of_nil].
  - intros pre [role_id view] suf [now1 m] [now2 m'] _ Hm. unfold retrieve_character. intros Hr.
    repeat (res_step; try done). simplify_eq. intros id. cbn [snd] in *.
    etrans; [apply lookup_insert_is_Some'|]. rewrite fmap_app, elem_of_app, <- Hm. cbn. rewrite list_elem_of_singleton.
    naive_solver.
Qed.

Lemma retrieved_new_characters world characters limits r :
  RetrievedContext_try_new world characters limits = Ok r → ret_characters r = characters.
Proof. unfold RetrievedContext_try_new. intros Hr. repeat (res_step; try done). by subst. Qed.
Lemma retrieved_context_audience context c c' plan id :
  set_retrieved_context context c = Ok c' → tc_plan c = Some plan → is_Some (ret_characters context !! id) →
  id ∈ ctr_role_id <$> character_think_requests plan.
Proof.
  unfold set_retrieved_context. intros Hs Hp Hid. res_step. res_step. unfold require_plan in *. rewrite Hp in *.
  simplify_eq/=. destruct (existsb _ _) eqn:Hb; [done|].
  apply not_true_iff_false in Hb. apply dec_stable. intros Hn. apply Hb. apply existsb_exists. exists id.
  split; [apply list_elem_of_In; by apply elem_of_keys|]. apply negb_true_iff, not_true_iff_false.
  intros (req & Hreq & Heq)%existsb_exists. apply bool_decide_eq_true in Heq as <-. apply Hn.
  apply list_elem_of_fmap. exists req. by rewrite list_elem_of_In.
Qed.

(** A retrieval succeeds only when every role it fetches thinks. *)
Lemma retrieval_roles_think pipeline now cache c cache' c' plan id :
  retrieval_execute pipeline now cache c = (cache', Some (c', Ok tt)) → tc_plan c = Some plan →
  id ∈ crr_role_id <$> character_requests (retrieval_plan plan) → id ∈ ctr_role_id <$> character_think_requests plan.
Proof.
  intros Hr Hp Hid. unfold retrieval_execute in Hr. rewrite Hp in Hr.
  destruct (tc_snapshot c) as [snapshot|]; [|by simplify_eq]. destruct (tc_baseline c) as [baseline|]; [|by simplify_eq].
  destruct (tc_narrative_projection c) as [projection|]; [|by simplify_eq].
  destruct (tc_activation c) as [prepared|]; [|by simplify_eq].
  destruct (retrieval_targets _ _ _ _ _ _ _) as [targets|e] eqn:Ht; [|by simplify_eq].
  destruct (run_with_index _ _ _ _ _) as [cache1 [[outcome|e]|]]; [|by simplify_eq..].
  destruct (assemble_retrieved _ _ _ _ _ _ _ _) as [[context activation]|e] eqn:Ha; [|by simplify_eq].
  destruct (replace_activation activation c) as [c1|e] eqn:Hc1; [|by simplify_eq].
  destruct (set_retrieved_context context c1) as [c2|e] eqn:Hc2; cbn in Hr; [|by simplify_eq]. clear Hr.
  assert (tc_plan c1 = Some plan) as Hp1.
  { unfold replace_activation in Hc1. repeat (res_step; try done). by subst. }
  eapply retrieved_context_audience; [exact Hc2|exact Hp1|].
  unfold retrieval_targets in Ht. destruct (try_fold (role_view_of snapshot) ∅ _) as [views|e] eqn:Hv; [|done].
  assert (rt_role_views targets = views) as Hviews.
  { destruct (build_activation_scan_buffer _ _ _ _ _); [|done]. destruct (try_fold (add_target _) _ _) as [[seeds memories]|e]; [|done].
    res_step. by injection Ht as <-. }
  unfold assemble_retrieved in Ha. destruct (retrieve_world _ _ _ _) as [world|e]; [|done].
  destruct (try_fold _ _ (entries _)) as [[now' characters]|e] eqn:Hch; [|done].
  destruct (map_err _ (RetrievedContext_try_new _ _ _)) as [r|e] eqn:Hnew; [|done]. injection Ha as -> _.
  apply map_err_ok, retrieved_new_characters in Hnew as ->.
  apply (retrieved_characters_ids _ _ _ _ _ _ _ _ _ id) in Hch. apply Hch. rewrite Hviews.
  change (entries views).*1 with (keys views). apply elem_of_keys. by apply (role_views_ids _ _ _ id Hv).
Qed.
End retrieval.

(** ** What the planner is shown *)

Section prepared.
Context `{Unicode, Sha256Bytes, RegexFind, Layout, KnowledgePorts, TurnJson} `{SnapshotPort}.
Implicit Types (snapshot : StoryReadSnapshot) (entries : list RelevantWorldKnowledgeItem).

Definition item_tokens (item : RelevantWorldKnowledgeItem) : N := estimate_text_tokens (rwk_content item).
Lemma retain_tokens_spec max tokens entries :
  (max < U64_MAX)%N → (tokens <= max)%N →
  retain_tokens max tokens entries `sublist_of` entries
  ∧ (tokens + total_by item_tokens (retain_tokens max tokens entries) <= max)%N.
Proof.
  intros Hmax. revert tokens. induction entries as [|item entries IH]; intros tokens Ht; cbn [retain_tokens].
  { cbn. split; [constructor|lia]. }
  change (estimate_text_tokens (rwk_content item)) with (item_tokens item).
  destruct (N.ltb_spec max (sat_add U64_MAX tokens (item_tokens item))) as [Hfull|Hfit].
  - destruct (IH tokens Ht). split; [by apply sublist_cons|done].
  - rewrite sat_add_lt in * by lia. destruct (IH _ Hfit) as [Hs Hsum].
    split; [by apply sublist_skip|]. unfold total_by in *. cbn. lia.
Qed.
Lemma total_by_split {A} (f : A → N) (p q : A → bool) (l : list A) :
  (∀ x, p x = true → q x = false) →
  (total_by f (List.filter p l) + total_by f (List.filter q l) <= total_by f l)%N.
Proof.
  intros Hpq. induction l as [|x l IH]; [done|]. cbn [List.filter]. pose proof (Hpq x). unfold total_by in *.
  destruct (p x), (q x); cbn; lia.
Qed.
Lemma length_split {A} (p q : A → bool) (l : list A) :
  (∀ x, p x = true → q x = false) → (nlen (List.filter p l) + nlen (List.filter q l) <= nlen l)%N.
Proof.
  intros Hpq. induction l as [|x l IH]; [done|]. cbn [List.filter]. pose proof (Hpq x). unfold nlen in *.
  destruct (p x), (q x); cbn; lia.
Qed.

(** The parts of a baseline: each role of the snapshot once, those near the player in
    full and the others by a hint; knowledge within the limits of an audience, each
    entry either in full or by a hint. *)
Record baseline_sound (builder : BaselineContextBuilder) snapshot (baseline : BaselineContext) : Prop := {
  bs_player : ∃ player, snapshot_role snapshot (snap_player_role_id snapshot) = Some player
    ∧ base_player_role baseline = role_context_view player;
  bs_roles : (rcv_role_id (base_player_role baseline) :: map rcv_role_id (relevant_roles baseline))
    ++ map rie_role_id (role_index baseline) ≡ₚ keys (snap_roles snapshot);
  bs_near : ∀ view, view ∈ relevant_roles baseline → ∃ role player,
    view = role_context_view role ∧ snapshot_role snapshot (snap_player_role_id snapshot) = Some player
    ∧ state_location (view_state role) = state_location (view_state player);
  bs_relevant_count : (nlen (relevant_roles baseline) <= context_max_relevant_roles (bb_context_config builder))%N;
  bs_index_count : (nlen (role_index baseline) <= context_max_role_index (bb_context_config builder))%N;
  bs_kinds : Forall (λ item, sid_kind (rwk_source_id item) = Kind_Fact) (rwk_facts (relevant_world_knowledge baseline))
    ∧ Forall (λ item, sid_kind (rwk_source_id item) = Kind_Rumor) (rwk_rumors (relevant_world_knowledge baseline));
  bs_items : (nlen (rwk_facts (relevant_world_knowledge baseline)) + nlen (rwk_rumors (relevant_world_knowledge baseline))
    <= retrieval_max_items_per_audience (bb_retrieval_config builder))%N;
  bs_tokens : (total_by item_tokens (rwk_facts (relevant_world_knowledge baseline))
    + total_by item_tokens (rwk_rumors (relevant_world_knowledge baseline))
    <= retrieval_max_tokens_per_audience (bb_retrieval_config builder))%N;
  bs_hinted : ∀ id, id ∈ kie_source_id <$> knowledge_index baseline →
    id ∉ rwk_source_id <$> rwk_facts (relevant_world_knowledge baseline) ++ rwk_rumors (relevant_world_knowledge baseline);
}.

(** Every role of the snapshot is stored under its own identifier. *)
Definition roles_keyed snapshot : Prop := ∀ id role, snap_roles snapshot !! id = Some role → view_role_id role = id.

Lemma take_elem {A} n (l : list A) x : x ∈ take n l → x ∈ l.
Proof. intros Hx. rewrite <- (take_drop n l). apply elem_of_app. by left. Qed.
Lemma relevant_elem snapshot player max view :
  snapshot_role snapshot (snap_player_role_id snapshot) = Some player → view ∈ select_relevant_roles snapshot max →
  ∃ id role, view = role_context_view role ∧ snap_roles snapshot !! id = Some role ∧ id ≠ snap_player_role_id snapshot
    ∧ state_location (view_state role) = state_location (view_state player).
Proof.
  unfold select_relevant_roles. intros -> Hv%take_elem. apply elem_of_sort_by in Hv.
  change (@map) with (@fmap list _) in Hv. apply list_elem_of_fmap in Hv as ([id role] & -> & Hin).
  apply elem_of_list_filter_bool in Hin as [Hin Hnear]. apply andb_true_iff in Hnear as [Hne Hloc].
  apply negb_true_iff, bool_decide_eq_false in Hne. apply bool_decide_eq_true in Hloc. apply elem_of_entries in Hin.
  by exists id, role.
Qed.
Lemma NoDup_take {A} n (l : list A) : NoDup l → NoDup (take n l).
Proof. intros Hl. rewrite <- (take_drop n l) in Hl. by apply NoDup_app in Hl as (? & _ & _). Qed.
Lemma NoDup_relevant snapshot max : roles_keyed snapshot → NoDup (map rcv_role_id (select_relevant_roles snapshot max)).
Proof.
  intros Hk. unfold select_relevant_roles. destruct (snapshot_role _ _) as [player|]; [|constructor].
  change (@map) with (@fmap list _). rewrite fmap_take. apply NoDup_take. rewrite sort_by_perm, <- list_fmap_compose.
  match goal with |- NoDup (_ <$> List.filter ?p _) => set (near := p) end.
  rewrite (list_fmap_ext _ fst); [by apply NoDup_fmap_list_filter, NoDup_keys|].
  intros i [id role] Hin. apply list_elem_of_lookup_2, elem_of_list_filter_bool in Hin as [Hin _].
  apply elem_of_entries in Hin. cbn. by apply Hk.
Qed.
Lemma role_index_ids snapshot selected : map rie_role_id (build_role_index snapshot selected)
  ≡ₚ List.filter (λ id, negb (bool_decide (id ∈ selected))) (keys (snap_roles snapshot)).
Proof.
  unfold build_role_index. change (@map) with (@fmap list _). rewrite sort_by_perm, <- list_fmap_compose.
  unfold keys. induction (entries (snap_roles snapshot)) as [|[id role] l IH]; [done|]. cbn.
  destruct (bool_decide _); cbn; [exact IH|by constructor].
Qed.
Lemma partition_keys (selected l : list RoleId) :
  NoDup selected → NoDup l → (∀ id, id ∈ selected → id ∈ l) →
  selected ++ List.filter (λ id, negb (bool_decide (id ∈ selected))) l ≡ₚ l.
Proof.
  intros Hs Hl Hin. apply NoDup_Permutation; [|done|].
  - apply NoDup_app. split_and!; [done| |by apply NoDup_list_filter]. intros id Hid Hf.
    apply elem_of_list_filter_bool in Hf as [_ Hf]. by apply negb_true_iff, bool_decide_eq_false in Hf.
  - intros id. rewrite elem_of_app, elem_of_list_filter_bool. split; [intros [?|[? _]]; auto|]. intros Hid.
    destruct (decide (id ∈ selected)); [by left|right]. split; [done|]. by apply negb_true_iff, bool_decide_eq_false.
Qed.

Lemma relevant_knowledge_ok activation loaded config knowledge :
  (retrieval_max_tokens_per_audience config < U64_MAX)%N →
  load_relevant_knowledge activation loaded config = Ok knowledge →
  (Forall (λ item, sid_kind (rwk_source_id item) = Kind_Fact) (rwk_facts knowledge)
   ∧ Forall (λ item, sid_kind (rwk_source_id item) = Kind_Rumor) (rwk_rumors knowledge))
  ∧ (nlen (rwk_facts knowledge) + nlen (rwk_rumors knowledge) <= retrieval_max_items_per_audience config)%N
  ∧ (total_by item_tokens (rwk_facts knowledge) + total_by item_tokens (rwk_rumors knowledge)
     <= retrieval_max_tokens_per_audience config)%N.
Proof.
  intros Hmax. unfold load_relevant_knowledge. destruct (traverse _ _) as [items|e]; [|done]. intros [= <-].
  set (kept := retain_tokens _ _ _). cbn [rwk_facts rwk_rumors].
  assert (∀ kind kind', kind ≠ kind' → ∀ item, bool_decide (sid_kind (rwk_source_id item) = kind) = true →
    bool_decide (sid_kind (rwk_source_id item) = kind') = false) as Hkinds.
  { intros kind kind' Hne item ->%bool_decide_eq_true. by apply bool_decide_eq_false. }
  destruct (retain_tokens_spec (retrieval_max_tokens_per_audience config) 0
    (take (N.to_nat (retrieval_max_items_per_audience config)) (sort_by relevant_order items))) as [Hsub Hsum]; [done|lia|].
  fold kept in Hsub, Hsum. split_and!.
  - apply Forall_forall. intros item [_ Hk]%elem_of_list_filter_bool. by apply bool_decide_eq_true in Hk.
  - apply Forall_forall. intros item [_ Hk]%elem_of_list_filter_bool. by apply bool_decide_eq_true in Hk.
  - unfold relevant_of_kind. etrans; [apply length_split, (Hkinds Kind_Fact Kind_Rumor); done|].
    apply sublist_length in Hsub. rewrite length_take in Hsub. unfold nlen. lia.
  - unfold relevant_of_kind. etrans; [apply total_by_split, (Hkinds Kind_Fact Kind_Rumor); done|]. lia.
Qed.

Lemma assemble_sound builder now snapshot player outcome baseline activation :
  roles_keyed snapshot → (retrieval_max_tokens_per_audience (bb_retrieval_config builder) < U64_MAX)%N →
  snapshot_role snapshot (snap_player_role_id snapshot) = Some player →
  assemble_baseline builder now snapshot (role_context_view player) outcome = Ok (baseline, activation) →
  baseline_sound builder snapshot baseline.
Proof.
  intros Hk Hmax Hplayer. unfold assemble_baseline.
  destruct (load_relevant_knowledge _ _ _) as [knowledge|e] eqn:Hknow; [|done].
  destruct (load_knowledge_index _ _ _ _) as [index|e] eqn:Hindex; [|done]. intros Ha. res_step. injection Ha as <- _.
  apply relevant_knowledge_ok in Hknow as (Hkinds & Hitems & Htokens); [|done].
  pose proof (Hk _ _ Hplayer) as Hid. cbn [rcv_role_id role_context_view] in *.
  assert (∀ id, id ∈ view_role_id player :: map rcv_role_id (select_relevant_roles snapshot
    (context_max_relevant_roles (bb_context_config builder))) → is_Some (snap_roles snapshot !! id)) as Hin.
  { intros id [->|Hr]%elem_of_cons; [rewrite Hid; by exists player|]. change (@map) with (@fmap list _) in Hr.
    apply list_elem_of_fmap in Hr as (view & -> & Hr). eapply relevant_elem in Hr as (id' & role & -> & Hr & _); [|done].
    cbn. rewrite (Hk _ _ Hr). by exists role. }
  split; cbn [base_player_role relevant_roles role_index relevant_world_knowledge knowledge_index rcv_role_id role_context_view].
  - by exists player.
  - rewrite role_index_ids. apply partition_keys; [|apply NoDup_keys|].
    + apply NoDup_cons. split; [|by apply NoDup_relevant]. intros Hp. change (@map) with (@fmap list _) in Hp.
      apply list_elem_of_fmap in Hp as (view & He & Hr). eapply relevant_elem in Hr as (id' & role & -> & Hr & Hne & _); [|done].
      cbn in He. rewrite Hid, (Hk _ _ Hr) in He. congruence.
    + intros id Hsel. apply elem_of_keys. by apply Hin.
  - intros view Hv. eapply relevant_elem in Hv as (id & role & -> & _ & _ & Hloc); [|done]. by exists role, player.
  - unfold select_relevant_roles. rewrite Hplayer. unfold nlen. rewrite length_take. lia.
  - rewrite N.ltb_ge in *. done.
  - exact Hkinds.
  - exact Hitems.
  - exact Htokens.
  - intros id. unfold load_knowledge_index in Hindex.
    destruct (map_err _ _) as [records|e]; [|done]. res_step. injection Hindex as <-.
    change (@map) with (@fmap list _). rewrite <- list_fmap_compose. intros (record & -> & Hr)%list_elem_of_fmap.
    apply elem_of_list_filter_bool in Hr as [_ Hr]. by apply negb_true_iff, bool_decide_eq_false in Hr.
Qed.

(** C18: The first stage puts the story of the turn before the planner without loss: every
    role of the snapshot is there exactly once, the player's and those at its place in
    full and the others by a hint; the knowledge given in full is within the limits of an
    audience, facts and rumors apart, and what is given in full is not hinted at again. *)
Theorem baseline_complete builder now caches c caches' c' :
  (∀ i l snapshot, load_story_snapshot now i l = Ok snapshot → roles_keyed snapshot) →
  (retrieval_max_tokens_per_audience (bb_retrieval_config builder) < U64_MAX)%N →
  baseline_execute builder now caches c = (caches', Some (c', Ok tt)) →
  ∃ snapshot baseline, load_story_snapshot now (tk_story_id (id_key (tc_identity c)))
      (snapshot_limits_from_config (bb_content_limits builder) (bb_context_config builder) (bb_narrative_config builder))
      = Ok snapshot
    ∧ tc_snapshot c' = Some snapshot ∧ tc_baseline c' = Some baseline ∧ baseline_sound builder snapshot baseline.
Proof.
  intros Hstore Hmax. unfold baseline_execute. destruct (load_story_snapshot _ _ _) as [snapshot|e] eqn:Hload; [|done].
  unfold prepare_baseline. destruct (snapshot_role snapshot _) as [player|] eqn:Hplayer; [|done].
  destruct (project _ _ _ _ _) as [projection|e]; [|done].
  destruct (build_activation_scan_buffer _ _ _ _ _) as [buffer|e]; [|done].
  destruct (run _ _ _ _) as [caches1 [[outcome|e]|]]; [|done..].
  destruct (assemble_baseline _ _ _ _ _) as [[baseline activation]|e] eqn:Ha; [|done]. intros [= _ Hf].
  destruct (set_prepared_context _ _ _ _ c) as [c1|e] eqn:Hset; [|done]. injection Hf as <-.
  exists snapshot, baseline. split; [done|].
  assert (tc_snapshot c1 = Some snapshot ∧ tc_baseline c1 = Some baseline) as [-> ->].
  { unfold set_prepared_context in Hset. repeat (res_step; try done). by subst. }
  split_and!; [done|done|]. eapply assemble_sound; [by eapply Hstore|done|done|exact Ha].
Qed.
End prepared.
