(* ===== verification/AiseStagesProofs.v ===== *)
(** * The stages over the gateway, and the budget they share

    A stage does to its turn only what the turn's operations do, and a call of the
    gateway closes the reservation it makes: after any part of a turn over the wired
    stages, the budget is the sum of the calls recorded.  What a structured answer is
    checked for, the plan made of it keeps. *)

From S2P Require Import Prelude Text AiseIds AiseRule AiseNarrative AiseStory AiseTurnData AiseExtraction AiseConfig.
From S2P Require Import AiseScan AisePorts AiseActivation AiseCaches AiseCoordination AiseBudget AiseValidation.
From S2P Require Import AiseContext AiseValidators AiseValidationPipeline AiseRuntime AiseEngine AisePlanning AisePreparation.
From S2P Require Import AiseGateway AisePrompts AiseStages AisePlanningProofs AiseContextProofs AiseEngineProofs AiseCoordinationProofs.
From stdpp Require Import relations.

(** ** The books of a turn *)

Section books.
Context `{RegexEngine} `{TurnJson}.
Implicit Types (c : TurnExecutionContext) (r : LlmBudgetReservation) (held : list LlmBudgetReservation).

(** Limits below the largest value of the counters. *)
Definition narrow (l : TurnBudgetLimits) : Prop :=
  (max_input_tokens l < U64_MAX)%N ∧ (max_output_tokens l < U64_MAX)%N
  ∧ (lim_max_total_tokens l < U64_MAX)%N ∧ (max_llm_calls l + 1 <= U32_MAX)%N.
Definition well_limited c : Prop := narrow (limits c).
(** The counters are those of the calls recorded and of the reservations held. *)
Definition run_of held c : BudgetRun :=
  {| run_budget := tc_budget c; run_held := held; run_settled := tc_llm_calls c |}.
Definition accounted held c : Prop := usage_exact (limits c) 1 (run_of held c).

Lemma new_accounted identity request budget control c :
  TurnExecutionContext_new identity request budget control = Ok c → budget_usage budget = TurnBudgetUsage_default →
  accounted [] c.
Proof.
  unfold TurnExecutionContext_new. intros Hc Hu. res_inv. unfold accounted, run_of, limits. cbn.
  split; cbn; rewrite ?Hu; cbn; unfold used_input, used_output, held_settled, nlen; cbn; try done; lia.
Qed.

Lemma reserve_accounted call_id input output c c' r :
  well_limited c → accounted [] c → scope_reserve_llm call_id input output c = Ok (c', r) →
  accounted [r] c' ∧ limits c' = limits c.
Proof.
  intros (H1 & H2 & H3 & H4) Ha Hr. unfold scope_reserve_llm in Hr.
  destruct (reserve_llm (tc_budget c) call_id input output) as [[b r']|e] eqn:Hb; [|done]. injection Hr as <- <-.
  pose proof (reserve_exact (limits c) 1 H1 H2 H3 H4 (le_n 1) _ call_id input output Ha) as He.
  cbn [budget_step run_of run_held run_budget run_settled app] in He. rewrite Hb in He.
  rewrite decide_True in He by (cbn; lia). pose proof (reserve_limits _ _ _ _ _ _ Hb) as Hl.
  unfold accounted, limits, run_of in *. cbn. rewrite Hl. by split.
Qed.
Lemma release_accounted r c :
  well_limited c → accounted [r] c → accounted [] (scope_release_llm r c) ∧ limits (scope_release_llm r c) = limits c.
Proof. intros (H1 & H2 & H3 & H4) Ha. by pose proof (release_exact (limits c) 1 H1 H2 H3 H4 (le_n 1) _ 0 Ha). Qed.
Lemma settle_accounted r usage c :
  well_limited c → accounted [r] c →
  accounted [] (scope_settle_llm r usage c).1 ∧ limits (scope_settle_llm r usage c).1 = limits c.
Proof.
  intros (H1 & H2 & H3 & H4) Ha.
  pose proof (settle_exact (limits c) 1 H1 H2 H3 H4 (le_n 1) _ 0 usage Ha) as He.
  cbn [budget_step run_of run_held run_budget run_settled lookup list_lookup delete list_delete] in He.
  pose proof (settle_limits (tc_budget c) r usage) as Hl. unfold scope_settle_llm.
  destruct (settle_llm (tc_budget c) r usage) as [b [[]|e]]; cbn in *; unfold accounted, limits, run_of in *; cbn.
  - rewrite Hl. by split.
  - rewrite app_nil_r in He. rewrite Hl. by split.
Qed.

(** What a stage may do to a turn: operations that leave its books balanced. *)
Definition keeps_books c c' : Prop :=
  limits c' = limits c ∧ (well_limited c → accounted [] c → accounted [] c').
#[global] Instance keeps_books_preorder : PreOrder keeps_books.
Proof.
  split; [by intros c; split|]. intros c1 c2 c3 [L12 B12] [L23 B23]. split; [by rewrite L23|].
  intros Hw Ha. apply B23; [|by apply B12]. unfold well_limited in *. by rewrite L12.
Qed.
Record fair c c' : Prop := { fair_steps : rtc context_step c c'; fair_books : keeps_books c c' }.
#[global] Instance fair_preorder : PreOrder fair.
Proof. split; [by intros c|]. intros c1 c2 c3 [S12 B12] [S23 B23]. split; by etrans. Qed.

(** The operations of the turn that are not calls of the model. *)
Definition bookless (op : ContextOp) : bool :=
  match op with
  | Op_ReserveLlm _ _ _ | Op_ReleaseLlm _ | Op_SettleLlm _ _ | Op_ConsumeCorrectionRound _ => false
  | _ => true
  end.
Lemma op_books op c c' :
  bookless op = true → apply_op op c = Ok c' → tc_budget c' = tc_budget c ∧ tc_llm_calls c' = tc_llm_calls c.
Proof.
  intros Hb Hop. destruct op; try discriminate Hb; clear Hb; cbn [apply_op] in Hop; revert Hop;
    unfold complete_initialization, set_prepared_context, replace_activation, set_narrative_projection,
    set_writer_plan, set_generated_story, replace_story, set_committed_result,
    set_retrieved_context, skip_retrieval, set_character_decisions, skip_character_thinking,
    complete_context_preparation, set_state_extraction, record_state_extraction_failure, set_validation_result,
    replace_state_extraction, mark_failed, mark_cancelled, mark_conflict, mark_terminal; intros Hop.
  all: repeat (res_step; try done); subst; try done.
  all: repeat case_match; simplify_eq; done.
Qed.
Lemma op_fair op c c' : bookless op = true → apply_op op c = Ok c' → fair c c'.
Proof.
  intros Hb Hop. split; [apply rtc_once; by exists op|]. apply op_books in Hop as [Hbud Hcalls]; [|done].
  unfold keeps_books, accounted, run_of, limits. rewrite Hbud, Hcalls. done.
Qed.

(** A reservation is closed by a release or a settlement. *)
Inductive closes r c : TurnExecutionContext → Prop :=
| closes_release : closes r c (scope_release_llm r c)
| closes_settle usage : closes r c (scope_settle_llm r usage c).1.
Lemma reserved_fair call_id input output c c1 r c2 :
  scope_reserve_llm call_id input output c = Ok (c1, r) → closes r c1 c2 → fair c c2.
Proof.
  intros Hr Hc. split.
  - eapply rtc_l; [exists (Op_ReserveLlm call_id input output); cbn; by rewrite Hr|]. apply rtc_once.
    destruct Hc as [|usage]; [by exists (Op_ReleaseLlm r)|by exists (Op_SettleLlm r usage)].
  - assert (limits c1 = limits c) as Hl1.
    { unfold scope_reserve_llm in Hr. destruct (reserve_llm _ _ _ _) as [[b r']|e] eqn:Hb; [|done].
      injection Hr as <- _. by apply reserve_limits in Hb. }
    assert (limits c2 = limits c1) as Hl2.
    { destruct Hc as [|usage]; [done|]. unfold scope_settle_llm, limits. pose proof (settle_limits (tc_budget c1) r usage).
      by destruct (settle_llm _ _ _) as [b [[]|e]]. }
    split; [by rewrite Hl2|]. intros Hw Ha.
    pose proof (reserve_accounted _ _ _ _ _ _ Hw Ha Hr) as [Ha1 _].
    assert (well_limited c1) as Hw1 by (unfold well_limited in *; by rewrite Hl1).
    destruct Hc as [|usage]; [by apply release_accounted|by apply settle_accounted].
Qed.
End books.

(** ** Calls of the gateway *)

Section gateway.
Context `{RegexEngine} `{TurnJson} `{LlmWorld} `{DebugText} `{JsonText} `{Sha256Bytes}.
Context (gateway : LlmGateway).
Implicit Types (m : Machine) (r : LlmBudgetReservation).

(** A completion that a call returns: the answer of the provider, whose text was found
    neither blank nor wrong, recorded as one call of the turn. *)
Definition completed (request : CompletionRequest) r (structured : option (string → bool)) m m' (completion : LlmCompletion) : Prop :=
  is_blank (cmp_text completion) = false
  ∧ match structured with Some check => check (cmp_text completion) = true | None => True end
  ∧ tc_llm_calls (m_ctx m') = tc_llm_calls (m_ctx m)
    ++ [settled_usage gateway (resv_call_id r) (creq_purpose request) (estimate_input_tokens (creq_messages request))
          (Ok completion)].

Lemma check_completion_ok estimated structured outcome completion :
  check_completion gateway estimated structured outcome = Ok completion →
  is_blank (cmp_text completion) = false
  ∧ match structured with Some check => check (cmp_text completion) = true | None => True end.
Proof.
  unfold check_completion. intros Hc. repeat (res_step; try done). subst. split; [done|].
  destruct structured as [check|]; [|done]. by destruct (check _).
Qed.
Lemma settle_call_spec {A} r usage (outcome : result LlmError A) c w m' o :
  settle_call r usage outcome c w = (m', o) →
  m_ctx m' = (scope_settle_llm r usage c).1
  ∧ ∀ a, o = Ok a → outcome = Ok a ∧ tc_llm_calls (m_ctx m') = tc_llm_calls c ++ [usage].
Proof.
  unfold settle_call, scope_settle_llm. destruct (settle_llm (tc_budget c) r usage) as [b [[]|e]]; intros [= <- <-]; cbn.
  - split; [done|]. intros a Ha. by split.
  - by split.
Qed.
Lemma run_call_spec request stream r structured m m' o :
  run_call gateway request stream r structured m = (m', o) →
  closes r (m_ctx m) (m_ctx m') ∧ ∀ completion, o = Ok completion → completed request r structured m m' completion.
Proof.
  unfold run_call. destruct (instant_now (m_world m)) as [w1 started]. destruct (is_cancelled _ w1) as [w2 []];
    [intros [= <- <-]; split; [constructor|done]|].
  case_match; [intros [= <- <-]; split; [constructor|done]|].
  destruct (admission _ _ _ _ w2) as [w3 [[]|e]]; [|intros [= <- <-]; split; [constructor|done]].
  destruct (instant_now w3) as [w4 now]. destruct (provider_complete _ _ _ _ w4) as [w5 waited].
  intros [Hctx Hok]%settle_call_spec. split; [rewrite Hctx; constructor|]. intros completion Ho.
  apply Hok in Ho as [Hcheck Hcalls]. rewrite Hcheck in Hcalls. split_and!; [by eapply check_completion_ok..|exact Hcalls].
Qed.
Lemma complete_spec stream spec r m m' o :
  complete_or_stream gateway stream spec r m = (m', o) →
  closes r (m_ctx m) (m_ctx m')
  ∧ ∀ completion, o = Ok completion → completed (text_request gateway spec Output_Text) r None m m' completion.
Proof.
  unfold complete_or_stream. destruct (csp_output spec); [apply run_call_spec|].
  intros [= <- <-]. split; [constructor|done].
Qed.

Lemma reserve_spec estimated max_output m m' o :
  reserve estimated max_output m = (m', o) →
  match o with
  | Ok r => ∃ id, scope_reserve_llm id estimated max_output (m_ctx m) = Ok (m_ctx m', r)
  | Err _ => m_ctx m' = m_ctx m
  end.
Proof.
  unfold reserve. destruct (new_call_id (m_world m)) as [w id].
  destruct (scope_reserve_llm _ _ _ _) as [[c r]|e] eqn:Hr; intros [= <- <-]; [by exists id|done].
Qed.
Lemma reserve_calls call_id input output c c' r :
  scope_reserve_llm call_id input output c = Ok (c', r) → tc_llm_calls c' = tc_llm_calls c.
Proof. unfold scope_reserve_llm. destruct (reserve_llm _ _ _ _) as [[b r']|e]; [|done]. by intros [= <- _]. Qed.

Context `{TrustedPromptSource}.
(** The calls recorded grow by one for every answer. *)
Lemma text_composed_spec input max_output purpose m m' o :
  complete_text_composed gateway input max_output purpose m = (m', o) →
  fair (m_ctx m) (m_ctx m')
  ∧ ∀ completion, o = Ok completion →
      is_blank (cmp_text completion) = false
      ∧ ∃ usage, cu_purpose usage = purpose ∧ tc_llm_calls (m_ctx m') = tc_llm_calls (m_ctx m) ++ [usage].
Proof.
  unfold complete_text_composed. destruct (render_composition input) as [composition|e]; [|intros [= <- <-]; by split].
  destruct (reserve _ _ m) as [m1 [r|e]] eqn:Hr; apply reserve_spec in Hr.
  - intros Hc. apply complete_spec in Hc as [Hc Hok]. destruct Hr as [id Hr]. split; [by eapply reserved_fair|].
    intros completion Ho. apply Hok in Ho as (Hb & _ & Hcalls). rewrite (reserve_calls _ _ _ _ _ _ Hr) in Hcalls.
    split; [done|]. eexists. by split; [|exact Hcalls].
  - intros [= <- <-]. by rewrite Hr.
Qed.

Section structured.
Context {T : Type} (contract : LlmOutputContract T).
(** An answer is read and checked as its contract says, in a mode the configuration
    allows and the provider can write. *)
Lemma structured_composed_spec input max_output purpose m m' o :
  complete_structured_composed gateway contract input max_output purpose m = (m', o) →
  fair (m_ctx m) (m_ctx m')
  ∧ ∀ structured, o = Ok structured →
      is_blank (cmp_text (slc_completion structured)) = false
      ∧ oc_decode contract (cmp_text (slc_completion structured)) = Some (slc_value structured)
      ∧ oc_validate contract (slc_value structured) = Ok tt
      ∧ ∃ usage, cu_purpose usage = purpose ∧ tc_llm_calls (m_ctx m') = tc_llm_calls (m_ctx m) ++ [usage].
Proof.
  unfold complete_structured_composed. destruct (resolve_structured_output_mode _ _) as [mode|]; [|intros [= <- <-]; by split].
  destruct (render_composition input) as [composition|e]; [|intros [= <- <-]; by split].
  destruct (reserve _ _ m) as [m1 [r|e]] eqn:Hr; apply reserve_spec in Hr; [|intros [= <- <-]; by rewrite Hr].
  destruct (run_call _ _ _ _ _ m1) as [m2 o2] eqn:Hc. apply run_call_spec in Hc as [Hc Hok].
  destruct Hr as [id Hr]. intros [= <- <-]. split; [by eapply reserved_fair|]. intros structured Ho.
  destruct o2 as [completion|e]; [|done]. destruct (Hok _ eq_refl) as (Hb & _ & Hcalls). cbn in Ho.
  destruct (accepted contract (cmp_text completion)) as [v|] eqn:Hv; [|done]. injection Ho as <-. cbn.
  unfold accepted in Hv. destruct (oc_decode contract _) as [v'|] eqn:Hd; [|done]. cbn in Hv.
  destruct (oc_validate contract v') as [[]|e] eqn:Hval; [|done]. injection Hv as <-.
  rewrite (reserve_calls _ _ _ _ _ _ Hr) in Hcalls. split_and!; [done..|]. eexists. by split; [|exact Hcalls].
Qed.
End structured.
End gateway.

(** ** The stages are fair to their turn *)

Section stages.
Context `{Unicode, Sha256Bytes, RegexFind, Layout, KnowledgePorts, TurnJson} `{LlmWorld} `{DebugText, JsonText}.
Context `{TrustedPromptSource, ExtractionPretty, StageContracts} `{!StageWorld} `{SnapshotPort, EventPayload, EventJson}.
Context (gateway : LlmGateway).
Implicit Types (m : Machine) (run : StageRun).

Definition fair_run run : Prop := ∀ m, fair (m_ctx m) (m_ctx (run m).1).
Lemma fails_fair e : fair_run (stage_fails e).
Proof. by intros m. Qed.
Lemma ends_fair f : (∀ c c', f c = Ok c' → fair c c') → fair_run (stage_ends f).
Proof. intros Hf m. unfold stage_ends. destruct (f (m_ctx m)) as [c|e] eqn:Hc; [by apply Hf|done]. Qed.
Lemma op_ends_fair op : bookless op = true → fair_run (stage_ends (apply_op op)).
Proof. intros Hop. apply ends_fair. intros c c'. by apply op_fair. Qed.
Lemma answered_fair {A} stage (r : Machine * result LlmError A) k c :
  fair c (m_ctx r.1) → (∀ a, fair_run (k a)) → fair c (m_ctx (answered stage r k).1).
Proof. destruct r as [m [a|e]]; cbn; intros Hf Hk; [|done]. etrans; [exact Hf|apply Hk]. Qed.

Lemma writer_planner_fair builder : fair_run (writer_planner_execute gateway builder).
Proof.
  intros m. unfold writer_planner_execute.
  destruct (tc_baseline (m_ctx m)) as [baseline|]; [|done]. destruct (tc_snapshot (m_ctx m)) as [snapshot|]; [|done].
  destruct (tc_narrative_projection (m_ctx m)) as [projection|]; [|done].
  destruct (BoundedText_try_new _ _ _) as [contribution|e]; [|done].
  destruct (project_writer_prompt _ _ _ _) as [prompt|e]; [|done].
  apply answered_fair; [by eapply structured_composed_spec, surjective_pairing|]. intros structured m1.
  destruct (build_plan _ _ _ _ _ _) as [plan|e]; [apply (op_ends_fair (Op_SetWriterPlan plan))|]; done.
Qed.

Lemma think_one_fair config context_config request m :
  fair (m_ctx m) (m_ctx (think_one gateway config context_config request m).1).
Proof.
  unfold think_one. destruct (project_think _ _ _ _) as [projection|e]; [|done].
  destruct (complete_structured_composed _ _ _ _ _ m) as [m1 o] eqn:Hc. by apply structured_composed_spec in Hc as [Hf _].
Qed.
Lemma think_all_fair config context_config requests m :
  fair (m_ctx m) (m_ctx (think_all gateway config context_config requests m).1).
Proof.
  revert m. induction requests as [|request requests IH]; intros m; cbn; [done|].
  pose proof (think_one_fair config context_config request m) as Hf.
  destruct (think_one _ _ _ _ m) as [m1 [decision|e]]; [|done]. specialize (IH m1).
  destruct (think_all _ _ _ requests m1) as [m2 rest]. by etrans.
Qed.
Lemma character_think_fair config context_config : fair_run (character_think_execute gateway config context_config).
Proof.
  intros m. unfold character_think_execute. destruct (tc_plan (m_ctx m)) as [plan|]; [|done].
  pose proof (think_all_fair config context_config (character_think_requests plan) m) as Hf.
  destruct (think_all _ _ _ _ m) as [m1 [decisions|e]]; [|done].
  etrans; [exact Hf|]. by apply (op_ends_fair (Op_SetCharacterDecisions decisions)).
Qed.

Lemma text_answer_fair stage input max_output purpose k m :
  (∀ a, fair_run (k a)) → fair (m_ctx m) (m_ctx (answered stage (complete_text_composed gateway input max_output purpose m) k).1).
Proof. intros Hk. apply answered_fair; [|exact Hk]. by eapply text_composed_spec, surjective_pairing. Qed.
Lemma story_generator_fair config : fair_run (story_generator_execute gateway config).
Proof.
  intros m. unfold story_generator_execute. destruct (project_generator _ _) as [projection|e]; [|done].
  apply text_answer_fair. intros completion m1. destruct (accept_story _ _ _ _ _) as [story|e]; [|done].
  by apply (op_ends_fair (Op_SetGeneratedStory story)).
Qed.
Lemma story_repairer_fair config : fair_run (story_repairer_execute gateway config).
Proof.
  intros m. unfold story_repairer_execute. destruct (project_repairer _ _) as [projection|e]; [|done].
  apply text_answer_fair. intros completion m1. destruct (accept_story _ _ _ _ _) as [story|e]; [|done].
  by apply (op_ends_fair (Op_ReplaceStory story)).
Qed.
Lemma state_extractor_fair : fair_run (story_state_extractor_execute gateway).
Proof.
  intros m. unfold story_state_extractor_execute. destruct (project_extractor _) as [projection|e]; [|done].
  destruct (complete_structured_composed _ _ _ _ _ m) as [m1 o] eqn:Hc. apply structured_composed_spec in Hc as [Hf _].
  assert (∀ run, fair_run run → fair (m_ctx m) (m_ctx (run m1).1)) as Hend by (intros run Hr; etrans; [exact Hf|apply Hr]).
  destruct o as [structured|e]; [|repeat case_match; try done; apply Hend; try done;
    by apply (op_ends_fair (Op_RecordStateExtractionFailure _))].
  apply Hend. destruct (bool_decide _); [by apply (op_ends_fair (Op_ReplaceStateExtraction _))|].
  by apply (op_ends_fair (Op_SetStateExtraction _)).
Qed.

Lemma outcome_fair o c w : (∀ c' r, o = Some (c', r) → fair c c') → fair c (m_ctx (with_outcome o c w).1).
Proof. destruct o as [[c' r]|]; cbn; intros Hf; [by eapply Hf|done]. Qed.
Lemma finish_fair c r c' o : finish_stage c r = (c', o) → (∀ c1, r = Ok c1 → fair c c1) → fair c c'.
Proof. destruct r as [c1|e]; cbn; intros [= <- _] Hf; [by apply Hf|done]. Qed.
Lemma baseline_fair builder : fair_run (baseline_stage builder).
Proof.
  intros m. unfold baseline_stage. destruct (instant_now (m_world m)) as [w now].
  destruct (baseline_execute _ _ _ _) as [caches o] eqn:Hb. apply outcome_fair. intros c' r ->.
  unfold baseline_execute in Hb. destruct (load_story_snapshot _ _ _) as [snapshot|e]; [|by simplify_eq].
  destruct (prepare_baseline _ _ _ _ _ _) as [caches' [[[[baseline projection] activation]|e]|]]; simplify_eq; [|done].
  match goal with Hf : finish_stage _ _ = _ |- _ => eapply finish_fair; [exact Hf|] end.
  intros c1. by apply (op_fair (Op_SetPreparedContext snapshot baseline projection activation)).
Qed.
Lemma retrieval_fair pipeline : fair_run (retrieval_stage pipeline).
Proof.
  intros m. unfold retrieval_stage. destruct (instant_now (m_world m)) as [w now].
  destruct (retrieval_execute _ _ _ _) as [cache o] eqn:Hr. apply outcome_fair. intros c' r ->.
  unfold retrieval_execute in Hr.
  destruct (tc_plan (m_ctx m)) as [plan|]; [|by simplify_eq]. destruct (tc_snapshot (m_ctx m)) as [snapshot|]; [|by simplify_eq].
  destruct (tc_baseline (m_ctx m)) as [baseline|]; [|by simplify_eq].
  destruct (tc_narrative_projection (m_ctx m)) as [projection|]; [|by simplify_eq].
  destruct (tc_activation (m_ctx m)) as [prepared|]; [|by simplify_eq].
  destruct (retrieval_targets _ _ _ _ _ _ _) as [targets|e]; [|by simplify_eq].
  destruct (run_with_index _ _ _ _ _) as [cache' [[outcome|e]|]]; [|by simplify_eq..].
  destruct (assemble_retrieved _ _ _ _ _ _ _ _) as [[context activation]|e]; [|by simplify_eq].
  destruct (replace_activation activation (m_ctx m)) as [c1|e] eqn:Ha; [|by simplify_eq]. simplify_eq.
  etrans; [by apply (op_fair (Op_ReplaceActivation activation))|].
  match goal with Hf : finish_stage _ _ = _ |- _ => eapply finish_fair; [exact Hf|] end.
  intros c2. by apply (op_fair (Op_SetRetrievedContext context)).
Qed.
Lemma validation_fair : fair_run validation_stage.
Proof.
  apply ends_fair. intros c c'. unfold validation_execute_inner. intros Hv. repeat (res_step; try done).
  destruct (bool_decide _); repeat (res_step; try done); by eapply (op_fair (Op_SetValidationResult _)).
Qed.

(** ** The wired set *)

Definition fair_pipeline (p : TurnExecutionPipeline) : Prop := ∀ c w, fair c (pl_execute p c w).1.1.
Lemma as_pipeline_fair stage run : fair_run run → fair_pipeline (as_pipeline stage run).
Proof.
  intros Hr c w. cbn. specialize (Hr {| m_ctx := c; m_world := w |}). by destruct (run _) as [m o].
Qed.
Lemma fair_lawful p : fair_pipeline p → lawful p.
Proof. intros Hf c w. apply Hf. Qed.
Lemma initializer_fair : fair_pipeline TurnInitializer.
Proof.
  intros c w. cbn. case_match; [done|]. destruct (complete_initialization c) as [c'|e] eqn:Hc; [|done].
  by apply (op_fair Op_CompleteInitialization).
Qed.
Lemma committer_fair : fair_pipeline TurnCommitter.
Proof.
  intros c w. cbn. destruct (commit_spec c) as [spec|e]; [|done]. destruct (commit_turn spec w) as [w' [r|e]]; [|done].
  destruct (set_committed_result r c) as [c'|e] eqn:Hc; [|done]. by apply (op_fair (Op_SetCommittedResult r)).
Qed.

Record fair_set (s : TurnPipelineSet) : Prop := {
  fs_initializer : fair_pipeline (ps_initializer s);
  fs_baseline_builder : fair_pipeline (ps_baseline_builder s);
  fs_writer_planner : fair_pipeline (ps_writer_planner s);
  fs_retrieval : fair_pipeline (ps_retrieval s);
  fs_character_think : fair_pipeline (ps_character_think s);
  fs_story_generator : fair_pipeline (ps_story_generator s);
  fs_story_state_extractor : fair_pipeline (ps_story_state_extractor s);
  fs_validation : fair_pipeline (ps_validation s);
  fs_story_repairer : fair_pipeline (ps_story_repairer s);
  fs_committer : fair_pipeline (ps_committer s);
}.
(** The pipelines the server wires, as the builder returns them. *)
Definition wired (config : AiseConfig) : TurnPipelineSet := {|
  ps_initializer := TurnInitializer;
  ps_baseline_builder := as_pipeline Stage_BaselineBuilder (baseline_stage (baseline_builder_of config));
  ps_writer_planner := as_pipeline Stage_WriterPlanner (writer_planner_execute gateway (plan_builder_of config));
  ps_retrieval := as_pipeline Stage_ContextRetrieval (retrieval_stage (retrieval_pipeline_of config));
  ps_character_think := as_pipeline Stage_CharacterThink
    (character_think_execute gateway (cfg_character_think config) (cfg_context config));
  ps_story_generator := as_pipeline Stage_StoryGenerator (story_generator_execute gateway (cfg_context config));
  ps_story_state_extractor := as_pipeline Stage_StoryStateExtractor (story_state_extractor_execute gateway);
  ps_validation := as_pipeline Stage_Validation validation_stage;
  ps_story_repairer := as_pipeline Stage_StoryRepairer (story_repairer_execute gateway (cfg_context config));
  ps_committer := TurnCommitter;
|}.
Lemma wired_built config : build (pipeline_set_of gateway config) = Ok (wired config).
Proof. done. Qed.
Lemma wired_fair config : fair_set (wired config).
Proof.
  split; cbn [wired ps_initializer ps_baseline_builder ps_writer_planner ps_retrieval ps_character_think ps_story_generator
    ps_story_state_extractor ps_validation ps_story_repairer ps_committer].
  1: exact initializer_fair. 9: exact committer_fair. all: apply as_pipeline_fair.
  - apply baseline_fair.
  - apply writer_planner_fair.
  - apply retrieval_fair.
  - apply character_think_fair.
  - apply story_generator_fair.
  - apply state_extractor_fair.
  - apply validation_fair.
  - apply story_repairer_fair.
Qed.
Lemma fair_set_lawful s : fair_set s → lawful_set s.
Proof. intros [F1 F2 F3 F4 F5 F6 F7 F8 F9 F10]. split; by apply fair_lawful. Qed.

(** ** Activations end *)

(** The two limits are [u16] in the code. *)
Definition u16_limits (coordinator : KnowledgeActivationCoordinator) : Prop :=
  (rl_max_recursion_steps (co_runtime_limits coordinator) ≤ U16_MAX)%N
  ∧ (rl_max_depth_expansions (co_runtime_limits coordinator) ≤ U16_MAX)%N.
Lemma run_with_index_ends coordinator now spec index cache :
  u16_limits coordinator → is_Some (run_with_index coordinator now spec index cache).2.
Proof.
  intros [HR HD]. unfold run_with_index. case_match; [by eexists|]. destruct (match_fragments _ _ _ _ _ cache) as [cache' found].
  cbn [snd]. destruct (load_timed_state _ _) as [timed|e]; [|by eexists]. case_match; [by eexists|].
  match goal with |- is_Some (match ?d with _ => _ end) => destruct (d : option _) as [r|] eqn:Hd; [by eexists|] end.
  match type of Hd with drive _ ?request _ _ _ = _ =>
    destruct (drive_some coordinator request (spec_snapshot spec) (now + 1) HR HD) as [r Hr] end.
  rewrite Hr in Hd. discriminate Hd.
Qed.
Lemma baseline_ends builder now caches c :
  u16_limits (bb_coordinator builder) → is_Some (baseline_execute builder now caches c).2.
Proof.
  intros Hu. unfold baseline_execute. destruct (load_story_snapshot _ _ _) as [snapshot|e]; [|by eexists].
  unfold prepare_baseline. destruct (snapshot_role snapshot _) as [player|]; [|by eexists].
  destruct (project _ _ _ _ _) as [projection|e]; [|by eexists].
  destruct (build_activation_scan_buffer _ _ _ _ _) as [buffer|e]; [|by eexists].
  unfold AiseCoordination.run. destruct (prepare_index _ _ _ _ _) as [packs [index|e]]; [|by eexists].
  match goal with |- context [run_with_index ?co ?n ?s ?i ?fc] =>
    destruct (run_with_index_ends co n s i fc Hu) as [r Hr]; destruct (run_with_index co n s i fc) as [fragments o] end.
  cbn in Hr. subst o. destruct r as [outcome|e]; [|by eexists]. cbn [snd].
  destruct (let? '(_, _) := _ in _) as [[[baseline projection'] activation]|e]; by eexists.
Qed.
Lemma retrieval_ends pipeline now cache c :
  u16_limits (rp_coordinator pipeline) → is_Some (retrieval_execute pipeline now cache c).2.
Proof.
  intros Hu. unfold retrieval_execute. destruct (tc_plan c), (tc_snapshot c), (tc_baseline c), (tc_narrative_projection c),
    (tc_activation c); try (by eexists).
  destruct (retrieval_targets _ _ _ _ _ _ _) as [targets|e]; [|by eexists].
  match goal with |- context [run_with_index ?co ?n ?s ?i ?fc] =>
    destruct (run_with_index_ends co n s i fc Hu) as [r Hr]; destruct (run_with_index co n s i fc) as [fragments o] end.
  cbn in Hr. subst o. destruct r; by eexists.
Qed.

(** ** A turn over the wired set *)

Definition booked {A} (f : AiseRuntime.run A) : Prop := ∀ t, keeps_books (t_ctx t) (t_ctx (f t).1).
Lemma bind_booked {A B} (f : AiseRuntime.run A) (k : A → AiseRuntime.run B) :
  booked f → (∀ a, booked (k a)) → booked (run_bind f k).
Proof.
  intros Hf Hk t. unfold run_bind. specialize (Hf t). destruct (f t) as [t1 [a|e]]; [|done]. by etrans; [exact Hf|apply Hk].
Qed.
Lemma ask_booked {A} (f : TurnExecutionContext → result TurnExecutionError A) : booked (ask f).
Proof. by intros t. Qed.
Lemma change_booked f : (∀ c c', f c = Ok c' → keeps_books c c') → booked (change f).
Proof. intros Hf t. unfold change. destruct (f (t_ctx t)) as [c|e] eqn:Hc; [by apply Hf|done]. Qed.
Lemma op_booked op : bookless op = true → booked (change (apply_op op)).
Proof. intros Hop. apply change_booked. intros c c' Hc. by eapply fair_books, op_fair. Qed.
Lemma execute_booked p : fair_pipeline p → booked (execute p).
Proof.
  intros Hp t. unfold execute. destruct (check_entry _ _); [|done].
  destruct (is_cancelled _ _) as [w1 []]; [done|]. destruct (instant_now w1) as [w2 now]. case_match; [done|].
  cbn [with_ctx with_world emit t_ctx t_world]. pose proof (Hp (t_ctx t) w2) as Hf.
  destruct (pl_execute p (t_ctx t) w2) as [[c w] outcome]. by apply fair_books.
Qed.
Lemma debug_booked : booked debug_changeset.
Proof.
  apply change_booked. intros c c'. unfold construct_changeset, set_pahse. intros Hc. repeat (res_step; try done). by subst.
Qed.
Lemma if_booked {A} (b : bool) (f g : AiseRuntime.run A) : booked f → booked g → booked (if b then f else g).
Proof. by destruct b. Qed.
Lemma run_booked s : fair_set s → booked (run_inner s).
Proof.
  intros [F1 F2 F3 F4 F5 F6 F7 F8 F9 F10]. unfold run_inner, retrieve_step, think_step.
  repeat (apply bind_booked; [|intros ?]); try apply if_booked; try (by apply execute_booked);
    first [apply ask_booked|apply debug_booked|by apply (op_booked Op_SkipRetrieval)|
           by apply (op_booked Op_SkipCharacterThinking)|by apply (op_booked Op_CompleteContextPreparation)].
Qed.

(** ** The plan of a wired turn *)

(** What the planner's stage leaves: a plan made of an answer that its contract accepts,
    sound for the baseline and the snapshot of the turn. *)
Record planned_by (builder : RetrievalPlanBuilder) (c c' : TurnExecutionContext) (baseline : BaselineContext)
    (snapshot : StoryReadSnapshot) (prompt : WriterPlannerPromptContext) (output : WriterPlannerOutputDto)
    (plan : WriterPlan) : Prop := {
  pb_baseline : tc_baseline c = Some baseline;
  pb_snapshot : tc_snapshot c = Some snapshot;
  pb_contribution : (slen (player_contribution (tc_request c)) <= MAX_PLAYER_CONTRIBUTION_CHARS)%N;
  pb_targets : ∀ key t, indexed_targets prompt !! key = Some t → target_indexed baseline t;
  pb_answer : ∃ answer, planner_decode answer = Some output;
  pb_valid : oc_validate (writer_planner_contract (rpb_planner builder)) output = Ok tt;
  pb_sound : plan_sound builder baseline snapshot prompt output plan;
  pb_plan : tc_plan c' = Some plan;
  pb_call : ∃ usage, cu_purpose usage = Purpose_WriterPlan ∧ tc_llm_calls c' = tc_llm_calls c ++ [usage];
}.
Lemma writer_planner_ok builder m m' :
  writer_planner_execute gateway builder m = (m', Ok tt) →
  ∃ baseline snapshot prompt output plan, planned_by builder (m_ctx m) (m_ctx m') baseline snapshot prompt output plan.
Proof.
  unfold writer_planner_execute. destruct (tc_baseline (m_ctx m)) as [baseline|] eqn:Hbase; [|done].
  destruct (tc_snapshot (m_ctx m)) as [snapshot|] eqn:Hsnap; [|done].
  destruct (tc_narrative_projection (m_ctx m)) as [projection|]; [|done].
  destruct (BoundedText_try_new _ _ _) as [contribution|e] eqn:Hcon; [|done].
  destruct (project_writer_prompt _ _ _ _) as [prompt|e] eqn:Hprompt; [|done]. unfold answered.
  destruct (complete_structured_composed _ _ _ _ _ m) as [m1 [structured|e]] eqn:Hc; [|done].
  apply structured_composed_spec in Hc as [_ Hok]. destruct (Hok _ eq_refl) as (_ & Hdec & Hval & usage & Hpurpose & Hcalls).
  destruct (build_plan _ _ _ _ _ _) as [plan|e] eqn:Hplan; [|done]. unfold stage_ends.
  destruct (set_writer_plan plan (m_ctx m1)) as [c|e] eqn:Hset; [|done]. intros [= <-].
  pose proof (op_books (Op_SetWriterPlan plan) _ _ eq_refl Hset) as [_ Hsame].
  exists baseline, snapshot, (wpp_context prompt), (slc_value structured), plan. split; cbn [m_ctx].
  - done.
  - done.
  - by apply bounded_ok in Hcon as [_ ?].
  - intros key t. by eapply prompt_targets_indexed.
  - by exists (cmp_text (slc_completion structured)).
  - exact Hval.
  - by eapply build_plan_sound.
  - unfold set_writer_plan in Hset. repeat (res_step; try done). by subst.
  - exists usage. split; [done|]. by rewrite Hsame, Hcalls.
Qed.
Lemma planner_pipeline_ok builder t t' :
  execute (as_pipeline Stage_WriterPlanner (writer_planner_execute gateway builder)) t = (t', Ok tt) →
  ∃ baseline snapshot prompt output plan, planned_by builder (t_ctx t) (t_ctx t') baseline snapshot prompt output plan.
Proof.
  intros (_ & _ & (w & Hp) & _)%execute_ok. cbn in Hp.
  destruct (writer_planner_execute gateway builder _) as [m o] eqn:Hw. injection Hp as <- _ ->.
  by apply writer_planner_ok in Hw.
Qed.
Lemma retrieval_pipeline_ok pipeline t t' plan id :
  execute (as_pipeline Stage_ContextRetrieval (retrieval_stage pipeline)) t = (t', Ok tt) → tc_plan (t_ctx t) = Some plan →
  id ∈ crr_role_id <$> character_requests (retrieval_plan plan) → id ∈ ctr_role_id <$> character_think_requests plan.
Proof.
  intros (_ & _ & (w & Hp) & _)%execute_ok. cbn in Hp. unfold retrieval_stage in Hp. cbn [m_ctx m_world] in Hp.
  destruct (instant_now w) as [w1 now].
  destruct (retrieval_execute pipeline now (cc_fragments (world_caches w1)) (t_ctx t)) as [cache o] eqn:Hr.
  unfold with_outcome in Hp. destruct o as [[c r]|]; cbn in Hp; [|done]. injection Hp as _ _ ->.
  by eapply retrieval_roles_think.
Qed.
(** The optional retrieval either ran, or had no role to fetch. *)
Lemma retrieve_roles config t t' plan id :
  retrieve_step (wired config) t = (t', Ok tt) → tc_plan (t_ctx t) = Some plan →
  id ∈ crr_role_id <$> character_requests (retrieval_plan plan) → id ∈ ctr_role_id <$> character_think_requests plan.
Proof.
  intros Hs Hp Hid. apply run_bind_ok in Hs as (ta & b & Ha & Hs). apply ask_ok in Ha as [-> Ha].
  apply requires_retrieval_ok in Ha as (plan' & Hp' & ->). rewrite Hp in Hp'. injection Hp' as <-.
  destruct (wants_retrieval plan) eqn:Hw; [exact (retrieval_pipeline_ok (retrieval_pipeline_of config) _ _ plan id Hs Hp Hid)|].
  unfold wants_retrieval in Hw. apply orb_false_iff in Hw as [Hw _]. apply negb_false_iff, bool_decide_eq_true in Hw.
  destruct (character_requests (retrieval_plan plan)); [|done]. by apply not_elem_of_nil in Hid.
Qed.

(** The last steps of a run leave the plan. *)
Lemma finish_plan t t1 t2 plan :
  debug_changeset t = (t1, Ok tt) → execute TurnCommitter t1 = (t2, Ok tt) → tc_plan (t_ctx t) = Some plan →
  tc_plan (t_ctx t2) = Some plan.
Proof.
  unfold debug_changeset. intros (ready & Hd & ->)%change_ok (_ & _ & (w & Hp) & _)%execute_ok Hplan.
  apply construct_changeset_ok in Hd as (story & _ & ->). apply committer_ok in Hp as (spec & r & _ & _ & Hset).
  unfold set_committed_result in Hset. res_step. injection Hset as <-. exact Hplan.
Qed.

Lemma wired_planned config identity request budget control t t' :
  TurnExecutionContext_new identity request budget control = Ok (t_ctx t) →
  run_inner (wired config) t = (t', Ok tt) →
  ∃ c c' baseline snapshot prompt output plan,
    planned_by (plan_builder_of config) c c' baseline snapshot prompt output plan ∧ tc_request c = request
    ∧ tc_plan (t_ctx t') = Some plan
    ∧ ∀ id, id ∈ crr_role_id <$> character_requests (retrieval_plan plan) ↔
        id ∈ ctr_role_id <$> character_think_requests plan.
Proof.
  intros Hn Hr. pose proof (new_ok _ _ _ _ _ Hn) as Hok.
  destruct (fair_set_lawful _ (wired_fair config)) as [L1 L2 L3 L4 L5 L6]. unfold run_inner in Hr.
  apply run_bind_ok in Hr as (t1 & [] & E1 & Hr). apply run_bind_ok in Hr as (t2 & [] & E2 & Hr).
  apply run_bind_ok in Hr as (t3 & [] & E3 & Hr). apply run_bind_ok in Hr as (t4 & [] & E4 & Hr).
  apply run_bind_ok in Hr as (t5 & [] & E5 & Hr). apply run_bind_ok in Hr as (t6 & [] & E6 & Hr).
  apply run_bind_ok in Hr as (t7 & [] & E7 & Hr). apply run_bind_ok in Hr as (t8 & [] & E8 & Hr).
  apply run_bind_ok in Hr as (t9 & [] & E9 & Hr). apply ask_ok in Hr as [-> _].
  pose proof (reached_execute _ _ _ L1 E1) as R1. pose proof (reached_execute _ _ _ L2 E2) as R2.
  pose proof (reached_trans _ _ _ _ _ Hok R1 R2) as R12. pose proof (reached_ok _ _ _ Hok R12) as Hok2.
  pose proof (reached_execute _ _ _ L3 E3) as R3. pose proof (reached_ok _ _ _ Hok2 R3) as Hok3.
  destruct (planner_pipeline_ok _ _ _ E3) as (baseline & snapshot & prompt & output & plan & Hplanned).
  pose proof (pb_plan _ _ _ _ _ _ _ _ Hplanned) as Hplan.
  pose proof (λ id, retrieve_roles config t3 t4 plan id E4 Hplan) as Hthink.
  apply retrieve_step_ok in E4 as (plan4 & Hp4 & R4); [|done|done].
  apply think_step_ok in E5 as (plan5 & Hp5 & R5); [|done|done]. apply (reached_change Op_CompleteContextPreparation) in E6.
  apply reached_execute in E7; [|done].
  pose proof (reached_ok _ _ _ Hok3 R4) as Hok4. pose proof (reached_trans _ _ _ _ _ Hok3 R4 R5) as R45.
  pose proof (reached_trans _ _ _ _ _ Hok3 R45 E6) as R456. pose proof (reached_trans _ _ _ _ _ Hok3 R456 E7) as R47.
  exists (t_ctx t2), (t_ctx t3), baseline, snapshot, prompt, output, plan. split_and!; [exact Hplanned| | |].
  - apply reached_request in R12 as [_ ->]; [|done]. unfold TurnExecutionContext_new in Hn. res_step.
    injection Hn as Hn. by rewrite <- Hn.
  - eapply finish_plan; [exact E8|exact E9|]. exact (reached_plan _ _ _ _ Hok3 R47 Hplan).
  - intros id. split; [apply Hthink|]. intros Hid. apply (pl_roles _ _ _ _ _ _ (pb_sound _ _ _ _ _ _ _ _ Hplanned)). by left.
Qed.


Context `{!EngineWorld}.
Definition session_accounted (s : Session) : Prop := ∀ c, s_ctx s = Some c → accounted [] c.
Lemma finalize_accounted r p s s' outcome :
  finalize r p s = (s', outcome) → session_accounted s → session_accounted s'.
Proof.
  assert (∀ failure c, accounted [] c → accounted [] (mark_failure failure c)) as Hmark.
  { intros failure c Ha. unfold mark_failure.
    destruct (error_terminal_kind failure);
      [destruct (mark_failed failure c) as [c'|e] eqn:Hc; [|done]; apply (op_books (Op_MarkFailed failure)) in Hc
      |destruct (mark_cancelled failure c) as [c'|e] eqn:Hc; [|done]; apply (op_books (Op_MarkCancelled failure)) in Hc
      |destruct (mark_conflict failure c) as [c'|e] eqn:Hc; [|done]; apply (op_books (Op_MarkConflict failure)) in Hc];
      try done; destruct Hc as [Hb Hl]; unfold accounted, run_of, limits in *; by rewrite Hb, Hl. }
  intros Hf Ha c Hc. destruct r as [[r replayed|e]|e]; cbn in Hf; injection Hf as <- _; cbn in Hc; [by apply Ha|..];
    apply fmap_Some in Hc as (c0 & Hc & ->); by apply Hmark, Ha.
Qed.
Lemma budget_narrow eng budget :
  (turn_max_total_tokens (cfg_turn (eng_config eng)) < U64_MAX)%N →
  (turn_max_llm_calls (cfg_turn (eng_config eng)) < U32_MAX)%N →
  engine_budget eng = Ok budget → narrow (budget_limits budget).
Proof.
  intros Ht Hc. unfold engine_budget, TurnBudget_from_config. destruct (TurnConfig_validate _) as [[]|e] eqn:Hv; [|done].
  intros Hb. repeat (res_step; try done). subst. unfold TurnConfig_validate in Hv. repeat (res_step; try done).
  rewrite !N.ltb_ge in *. unfold narrow. cbn. lia.
Qed.
Lemma run_accounted eng c s s' outcome :
  fair_set (eng_runtime eng) → well_limited c → accounted [] c →
  run_pipelines eng c s = (s', outcome) → session_accounted s'.
Proof.
  intros Hf Hw Ha. unfold run_pipelines.
  pose proof (run_booked _ Hf {| t_ctx := c; t_world := s_world s; t_events := s_events s |}) as [_ Hb].
  destruct (run_inner _ _) as [t o]. intros [= <- _] c' [= <-]. by apply Hb.
Qed.

(** C10: Whatever becomes of a turn over the stages the server wires, and wherever it
    stops, no reservation of the budget is left open: the tokens counted are exactly those
    of the calls recorded, they are within the limits of the turn, and there are as many
    calls as the counter says, at most the configured number. *)
Theorem wired_turn_balanced eng spec w s outcome c :
  eng_runtime eng = wired (eng_config eng) →
  (turn_max_total_tokens (cfg_turn (eng_config eng)) < U64_MAX)%N →
  (turn_max_llm_calls (cfg_turn (eng_config eng)) < U32_MAX)%N →
  execute_turn eng spec w = (s, outcome) → s_ctx s = Some c →
  usage_exact (limits c) 1 {| run_budget := tc_budget c; run_held := []; run_settled := tc_llm_calls c |}.
Proof.
  intros Heng Htot Hcalls Ht. assert (session_accounted s) as Hs; [|intros Hc; by apply Hs].
  assert (fair_set (eng_runtime eng)) as Hfair by (rewrite Heng; apply wired_fair).
  assert (∀ w0, session_accounted {| s_ctx := None; s_world := w0; s_events := [] |}) as Hnone by done.
  revert Ht. unfold execute_turn, execute_turn_inner.
  destruct (try_into_validated spec) as [v|e]; [|intros Hf; by eapply finalize_accounted].
  destruct (instant_now w) as [w1 now]. destruct (acquire _ _ _ w1) as [w2 [p|e]]; [|intros Hf; by eapply finalize_accounted].
  destruct (get_story _ w2) as [w3 [[info|]|e]]; [|intros Hf; by eapply finalize_accounted..].
  destruct (find_committed_turn _ _ w3) as [w4 [[stored|]|e]]; [destruct (bool_decide _)| |];
    try (intros Hf; by eapply finalize_accounted).
  destruct (candidate_turn_number _) as [turn|e]; [|intros Hf; by eapply finalize_accounted].
  destruct (engine_budget eng) as [budget|e] eqn:Hb; [|intros Hf; by eapply finalize_accounted].
  destruct (now_millis w4) as [w5 created_at].
  destruct (new_context _ _ _ _ _ _) as [c0|e] eqn:Hn; [|intros Hf; by eapply finalize_accounted].
  destruct (run_pipelines eng c0 _) as [s1 o] eqn:Hr. intros Hf. eapply finalize_accounted; [exact Hf|].
  assert (tc_budget c0 = budget ∧ budget_usage budget = TurnBudgetUsage_default) as [Hbud Hu].
  { unfold engine_budget, TurnBudget_from_config in Hb. unfold new_context, TurnExecutionContext_new in Hn.
    destruct (_ =? 0)%N; [done|]. injection Hn as <-. split; [done|]. repeat (res_step; try done). by subst. }
  eapply run_accounted; [exact Hfair| |idtac|exact Hr]; [unfold well_limited, limits; rewrite Hbud; by eapply budget_narrow|]. unfold new_context in Hn. by eapply new_accounted.
Qed.

(** C29: A contribution is accepted up to 4096 characters, but the stages bound the same
    text by 4096 bytes: over the wired stages, a request whose trimmed text has more bytes
    than that is never committed by running it, however short it is in characters. *)
Theorem long_contribution_never_runs eng spec w s r replayed :
  eng_runtime eng = wired (eng_config eng) →
  (MAX_PLAYER_CONTRIBUTION_CHARS < slen (trim (spec_player_contribution spec)))%N →
  execute_turn eng spec w = (s, Outcome_Committed r replayed) → replayed = true.
Proof.
  intros Heng Hlong. unfold execute_turn, execute_turn_inner.
  destruct (try_into_validated spec) as [v|e] eqn:Hv; [|done].
  destruct (instant_now w) as [w1 now]. destruct (acquire _ _ _ w1) as [w2 [p|e]]; [|done].
  destruct (get_story _ w2) as [w3 [[info|]|e]]; [|done..].
  destruct (find_committed_turn _ _ w3) as [w4 [[stored|]|e]]; [destruct (bool_decide _)| |]; try done.
  { by intros [= _ _ <-]. }
  destruct (candidate_turn_number _) as [turn|e]; [|done]. destruct (engine_budget eng) as [budget|e]; [|done].
  destruct (now_millis w4) as [w5 created_at]. destruct (new_context _ _ _ _ _ _) as [c0|e] eqn:Hn; [|done].
  unfold run_pipelines. rewrite Heng. cbn [s_world at_world s_events].
  destruct (run_inner _ _) as [t [[]|e]] eqn:Hr; [|done]. exfalso. unfold new_context in Hn.
  match type of Hr with run_inner _ ?t0 = _ => destruct (wired_planned _ _ _ _ _ t0 t Hn Hr)
    as (c & c' & baseline & snapshot & prompt & output & plan & Hp & Hreq & _) end.
  pose proof (pb_contribution _ _ _ _ _ _ _ _ Hp) as Hshort. rewrite Hreq in Hshort.
  unfold try_into_validated in Hv. destruct (TurnRequest_try_new _) as [request|e] eqn:Hrequest; [|done]. injection Hv as <-.
  unfold TurnRequest_try_new in Hrequest. repeat (res_step; try done). subst. cbn in Hshort. lia.
Qed.
End stages.
