(* ===== verification/AiseStagesSample.v ===== *)
(** * A turn over the wired stages, concretely

    A story read from a store, a model that answers by the purpose of its call, and the
    witnesses of the theorems on the stages, their plan, their prompts and the gateway. *)

From S2P Require Import Prelude Text AiseIds AiseRule AiseNarrative AiseStory AiseTurnData AiseExtraction AiseConfig.
From S2P Require Import AiseScan AisePorts AiseActivation AiseCaches AiseCoordination AiseBudget AiseValidation.
From S2P Require Import AiseContext AiseValidators AiseValidationPipeline AiseRuntime AiseEngine AisePlanning AisePreparation.
From S2P Require Import AiseGateway AisePrompts AiseStages AisePlanningProofs AiseContextProofs AiseEngineProofs.
From S2P Require Import AiseStagesProofs AiseTurnSample.

Module StagesSample.
Import TurnSample.
#[local] Existing Instances turn_regex turn_json turn_event_json turn_sha sample_world sample_engine_world.
#[local] Instance stages_unicode : Unicode := ascii_unicode.
#[local] Instance stages_find : RegexFind := {| regex_find_count _ _ := 0%N; regex_as_str _ := "" |}.
#[local] Instance stages_layout : Layout := {| size_of_evidence := 64; size_of_match := 48 |}.
#[local] Instance stages_payload : EventPayload := {| world_event_payload _ := "{}" |}.
#[local] Instance stages_debug : DebugText := λ s, s.
#[local] Instance stages_quoted : JsonText := λ s, s.
#[local] Instance stages_pretty : ExtractionPretty := λ _, Some "{}".
#[local] Instance stages_prompts : TrustedPromptSource := λ _, Some {| pc_csi := "system"; pc_rc := "context"; pc_fti := "task" |}.

(** ** The story *)

Definition rumor_id : KnowledgeSourceId := Sid_Rumor "rumor_1".
Definition place (name : string) (id : RoleId) (controller : RoleController) (location : string) : StoryRoleView :=
  {| view_role_id := id; view_controller := controller; view_role_label := id; view_narrative_function := "lead";
     view_background := None; view_effective_profile := character name; view_source_character_id := None;
     view_state := {| state_location := location; state_goals := []; state_attributes := ∅ |} |}.
Definition tale : StoryReadSnapshot := {|
  snap_story_id := "tale"; snap_base_revision := 4%N; snap_pack := snap_pack story;
  snap_story_title := "The gate"; snap_story_profile := profile; snap_instance_settings := settings;
  snap_roles := list_to_map [("hero", place "Ada" "hero" (Player "p") "gate"); ("guard", place "Bo" "guard" Ai "gate");
                             ("king", place "Cy" "king" Ai "hall")];
  snap_player_role_id := "hero"; snap_relationships := [];
  snap_narrative_definition := {| entry_nodes := []; nodes := ∅; edges := [] |};
  snap_narrative_state := NarrativeRuntimeState_initial; snap_fact_values := ∅; snap_story_continuity := continuity;
  snap_active_constraints := []; snap_knowledge_snapshot := knowledge; snap_role_id_high_water := 0%N |}.
#[local] Instance stages_snapshot : SnapshotPort := λ _ _ _, Ok tale.
Definition rumor_metadata : ActivationEntryMetadata := {|
  meta_source_id := rumor_id; meta_kind := Kind_Rumor; meta_rule := keyword_rule; meta_rule_version := [];
  meta_salience := 50; meta_from_pack := true |}.
Definition rumor : KnowledgeRecord := {|
  kr_source_id := rumor_id; kr_kind := Kind_Rumor; kr_content := "The king will leave."; kr_salience := 50;
  kr_source := Source_Seed "pack" []; kr_memory_owner := None; kr_activation := None; kr_activation_rule_version := None |}.
#[local] Instance stages_ports : KnowledgePorts := {|
  find_by_source_ids _ _ := Ok [rumor];
  find_memories_by_owner _ _ := Ok [];
  list_index _ _ := Ok [{| kir_source_id := rumor_id; kir_retrieval_hint := "the king's plan" |}];
  load_snapshot _ s _ := Ok {| im_reference := ref_from_knowledge s 0 MATCHER_VERSION; im_pack_entries := {[rumor_id := rumor_metadata]};
    im_entries := {[rumor_id := rumor_metadata]} |};
  load_timed_state _ _ := Ok [];
|}.

(** ** The model *)

Definition answer_of (purpose : LlmCallPurpose) : string :=
  match purpose with
  | Purpose_WriterPlan => "plan" | Purpose_CharacterThink => "decision" | _ => "The gate opens."
  end.
Definition answer (request : CompletionRequest) : LlmCompletion :=
  {| cmp_text := answer_of (creq_purpose request); cmp_finish_reason := Some Finish_Stop; cmp_reasoning_content := None;
     cmp_usage := None; cmp_charge := None |}.
#[local] Instance stages_llm : LlmWorld := {|
  gate_window _ _ := [];
  set_gate_window _ _ w := w;
  wait_until _ until w := ({| sw_now := N.max (sw_now w) until; sw_held := sw_held w |}, Waited_Elapsed);
  acquire_owned _ _ w := (w, Waited_Done true);
  drop_permit w := w;
  provider_complete _ request _ _ w := (w, Waited_Done (Ok (answer request)));
  provider_embed _ _ _ w := (w, Waited_Elapsed);
  new_call_id w := (w, "call");
|}.
#[local] Instance stages_world : StageWorld := {| world_caches _ := CoordinatorCaches_new; set_world_caches _ w := w |}.
Definition gateway : LlmGateway :=
  {| gw_provider := {| provider_name := "local"; encodable_modes := [PromptFallback] |};
     gw_config := LlmConfig_default |}.

(** The planner asks the guard to think, and wants a rumor for itself and for the guard. *)
Definition planned : WriterPlannerOutputDto := {|
  out_story_goal := "open the gate";
  out_writer_context_gaps := [{| wgap_target_id := "rumor_1"; wgap_reason := "what is said" |}];
  out_character_context_gaps := [{| cgap_role_id := "guard"; cgap_target_id := "rumor_1"; cgap_reason := "what he heard" |}];
  out_character_think_requests := [{| dto_role_id := "guard"; dto_reason := "he keeps the gate" |}] |}.
(** It also wants to know more of the king, who does not think. *)
Definition curious : WriterPlannerOutputDto := {|
  out_story_goal := "open the gate";
  out_writer_context_gaps := [{| wgap_target_id := "king"; wgap_reason := "who rules" |}];
  out_character_context_gaps := [];
  out_character_think_requests := [{| dto_role_id := "guard"; dto_reason := "he keeps the gate" |}] |}.
Definition contracts (output : WriterPlannerOutputDto) : StageContracts := {|
  planner_schema _ := Json_Object [];
  planner_prompt_shape _ := "{}";
  planner_decode text := if bool_decide (text = "plan") then Some output else None;
  decision_schema _ := Json_Object [];
  decision_prompt_shape _ := "{}";
  decision_decode text := if bool_decide (text = "decision") then Some ("lets them in", "") else None;
  extraction_schema _ := Json_Object [];
  extraction_prompt_shape := "{}";
  extraction_decode _ := None;
|}.

Definition engine_with (output : WriterPlannerOutputDto) : AiseEngine :=
  let _ : StageContracts := contracts output in
  {| eng_runtime := wired gateway AiseConfig_default; eng_config := AiseConfig_default |}.

(** ** Its turns *)

Definition turn := execute_turn (engine_with planned) spec start_world.
(** The text, whether it was replayed, and the calls recorded, or the code of the error. *)
Definition turn_view (t : Session * TurnRunOutcome) : option nat * (string * bool + string) :=
  (length <$> (tc_llm_calls <$> s_ctx t.1),
   match t.2 with
   | Outcome_Committed r replayed => inl (res_story_text r, replayed)
   | Outcome_Failed e => inr (err_code e)
   end).
Lemma turn_ends : turn_view turn = (Some 3, inl ("The gate opens.", false)). Proof. by vm_compute. Qed.
(** A role the writer asks for that does not think fails the turn. *)
Example curious_fails : turn_view (execute_turn (engine_with curious) spec start_world)
  = (Some 1, inr "retrieved_character_audience_unauthorized").
Proof. by vm_compute. Qed.

#[local] Instance planned_contracts : StageContracts := contracts planned.
Lemma wired_turn_balanced_witness : ∃ c,
  s_ctx turn.1 = Some c ∧ length (tc_llm_calls c) = 3
  ∧ usage_exact (limits c) 1 {| run_budget := tc_budget c; run_held := []; run_settled := tc_llm_calls c |}.
Proof.
  pose proof turn_ends as Hv. destruct turn as [s o] eqn:Ht. unfold turn_view in Hv. cbn [fst snd] in Hv.
  destruct (s_ctx s) as [c|] eqn:Hc; [|discriminate Hv]. exists c. split; [exact Hc|]. split; [injection Hv as Hn _; exact Hn|].
  exact (wired_turn_balanced gateway (engine_with planned) spec start_world s o c eq_refl eq_refl eq_refl Ht Hc).
Defined.

Lemma wired_ok : is_ok (let? c := fresh in (run_inner (wired gateway AiseConfig_default) (turn_of c)).2) = true.
Proof. by vm_compute. Qed.
Definition roles_of (o : option WriterPlan) : list RoleId * list RoleId :=
  match o with
  | Some plan => (crr_role_id <$> character_requests (retrieval_plan plan), ctr_role_id <$> character_think_requests plan)
  | None => ([], [])
  end.
Lemma wired_roles : (λ c, roles_of (tc_plan (t_ctx (run_inner (wired gateway AiseConfig_default) (turn_of c)).1)))
  <$> match fresh with Ok c => Some c | Err _ => None end = Some (["guard"], ["guard"]).
Proof. by vm_compute. Qed.

(** *** A contribution of 2049 characters and 4098 bytes *)

Fixpoint repeated (n : nat) (s : string) : string := match n with O => "" | S n => s +:+ repeated n s end.
Definition accented : string := repeated 2049 (String (byte_of 195) (String (byte_of 169) "")).
Definition long_spec : ExecuteTurnSpec := {|
  spec_story_id := "tale"; spec_idempotency_key := "key"; spec_player_contribution := accented; spec_cancellation := 0%N |}.
(** A world where the request was committed by other means. *)
Definition held_world : SampleWorld := {|
  sw_now := 0;
  sw_held := {[("tale", "key") := {| sto_request_digest := from_canonical_contribution accented; sto_result := result_of "Done." |}]} |}.
Lemma accented_accepted : (nlen (chars (trim accented)), is_ok (try_into_validated long_spec)) = (2049%N, true).
Proof. by vm_compute. Qed.
Lemma accented_replayed : turn_view (execute_turn (engine_with planned) long_spec held_world) = (None, inl ("Done.", true)).
Proof. by vm_compute. Qed.
Lemma accented_long : (MAX_PLAYER_CONTRIBUTION_CHARS <? slen (trim (spec_player_contribution long_spec)))%N = true.
Proof. by vm_compute. Qed.
Lemma long_contribution_never_runs_witness : ∃ s r replayed,
  is_ok (try_into_validated long_spec) = true
  ∧ execute_turn (engine_with planned) long_spec held_world = (s, Outcome_Committed r replayed) ∧ replayed = true.
Proof.
  pose proof accented_replayed as Hv.
  destruct (execute_turn (engine_with planned) long_spec held_world) as [s [r replayed|e]] eqn:Ht; [|discriminate Hv].
  exists s, r, replayed. split; [exact (f_equal snd accented_accepted)|]. split; [reflexivity|].
  exact (long_contribution_never_runs gateway (engine_with planned) long_spec held_world s r replayed eq_refl
    (proj1 (N.ltb_lt _ _) accented_long) Ht).
Defined.

(** *** The first stage *)

Definition initialized : result TurnExecutionError TurnExecutionContext := after [Op_CompleteInitialization].
Definition prepare (c : TurnExecutionContext) : option StageOutcome :=
  (baseline_execute (baseline_builder_of AiseConfig_default) 0 CoordinatorCaches_new c).2.
Lemma initialized_ok : is_ok initialized = true. Proof. by vm_compute. Qed.
(** The baseline it leaves: the roles in full, the roles by a hint and the entries by a hint. *)
Definition baseline_view (b : BaselineContext) : list RoleId * list RoleId * list KnowledgeSourceId :=
  (rcv_role_id <$> base_player_role b :: relevant_roles b, rie_role_id <$> role_index b, kie_source_id <$> knowledge_index b).
Definition prepared_view (o : option StageOutcome) : option (option (list RoleId * list RoleId * list KnowledgeSourceId) * bool) :=
  (λ o : StageOutcome, (baseline_view <$> tc_baseline o.1, is_ok o.2)) <$> o.
Lemma prepared_ok : prepared_view (match initialized with Ok c => prepare c | Err _ => None end)
  = Some (Some (["hero"; "guard"], ["king"], [rumor_id]), true).
Proof. by vm_compute. Qed.
Lemma prepared_view_ok (caches : CoordinatorCaches) c v baseline :
  prepared_view (caches, Some (c, Ok tt)).2 = Some (Some v, true) → tc_baseline c = Some baseline → baseline_view baseline = v.
Proof. unfold prepared_view. cbn [snd fst fmap option_fmap option_map]. intros Hv Hb. rewrite Hb in Hv. by injection Hv. Qed.
Lemma roles_keyed_tale : roles_keyed tale.
Proof.
  intros id role Hrole. change (<["hero" := place "Ada" "hero" (Player "p") "gate"]> (<["guard" := place "Bo" "guard" Ai "gate"]>
    (<["king" := place "Cy" "king" Ai "hall"]> (∅ : gmap string StoryRoleView))) !! id = Some role) in Hrole.
  apply lookup_insert_Some in Hrole as [[<- <-]|[_ Hrole]]; [reflexivity|].
  apply lookup_insert_Some in Hrole as [[<- <-]|[_ Hrole]]; [reflexivity|].
  apply lookup_insert_Some in Hrole as [[<- <-]|[_ Hrole]]; [reflexivity|]. rewrite lookup_empty in Hrole. discriminate Hrole.
Qed.
Lemma tale_loaded now i l snapshot : load_story_snapshot now i l = Ok snapshot → snapshot = tale.
Proof. intros Hl. unfold load_story_snapshot, stages_snapshot in Hl. injection Hl as <-. reflexivity. Qed.
Lemma store_keyed now i l snapshot : load_story_snapshot now i l = Ok snapshot → roles_keyed snapshot.
Proof. intros ->%tale_loaded. exact roles_keyed_tale. Qed.
Lemma prepared_facts : ∃ c caches c',
  initialized = Ok c
  ∧ baseline_execute (baseline_builder_of AiseConfig_default) 0 CoordinatorCaches_new c = (caches, Some (c', Ok tt))
  ∧ ∀ baseline, tc_baseline c' = Some baseline → baseline_view baseline = (["hero"; "guard"], ["king"], [rumor_id]).
Proof.
  destruct (ok_value _ initialized_ok) as [c Hc]. pose proof prepared_ok as Hv. rewrite Hc in Hv. exists c.
  change (prepared_view (baseline_execute (baseline_builder_of AiseConfig_default) 0 CoordinatorCaches_new c).2
    = Some (Some (["hero"; "guard"], ["king"], [rumor_id]), true)) in Hv.
  destruct (baseline_execute (baseline_builder_of AiseConfig_default) 0 CoordinatorCaches_new c) as [caches [[c' [[]|e]]|]];
    [|discriminate Hv|discriminate Hv].
  exists caches, c'. split; [exact Hc|]. split; [reflexivity|]. intros baseline. exact (prepared_view_ok caches c' _ baseline Hv).
Qed.
Lemma baseline_complete_witness : ∃ c c' caches baseline,
  initialized = Ok c
  ∧ baseline_execute (baseline_builder_of AiseConfig_default) 0 CoordinatorCaches_new c = (caches, Some (c', Ok tt))
  ∧ baseline_view baseline = (["hero"; "guard"], ["king"], [rumor_id])
  ∧ baseline_sound (baseline_builder_of AiseConfig_default) tale baseline.
Proof.
  destruct prepared_facts as (c & caches & c' & Hc & He & Hview).
  destruct (baseline_complete (baseline_builder_of AiseConfig_default) 0 CoordinatorCaches_new c caches c' (store_keyed 0)
    eq_refl He) as (snapshot & baseline & Hload & _ & Hb & Hsound).
  apply tale_loaded in Hload. subst snapshot. exists c, c', caches, baseline.
  split; [exact Hc|]. split; [exact He|]. split; [exact (Hview baseline Hb)|exact Hsound].
Defined.

(** *** The prompt of the story *)

Definition ready := after (removelast generated).
Definition context_of (r : result TurnExecutionError TurnExecutionContext) :
    option (result StoryGeneratorProjectionError StoryGeneratorPromptContext) :=
  match r with Ok c => Some (generator_context ContextPreparationConfig_default c) | Err _ => None end.
Lemma context_of_ok r c :
  is_ok <$> context_of r = Some true → r = Ok c → ∃ g, generator_context ContextPreparationConfig_default c = Ok g.
Proof. intros Hg ->. cbn [context_of fmap option_fmap option_map] in Hg. injection Hg as Hg. by apply ok_value. Qed.
Lemma ready_ok : is_ok ready = true. Proof. by vm_compute. Qed.
Lemma ready_context_ok : is_ok <$> context_of ready = Some true. Proof. by vm_compute. Qed.
Lemma ready_facts : ∃ c g, ready = Ok c ∧ generator_context ContextPreparationConfig_default c = Ok g.
Proof.
  destruct (ok_value _ ready_ok) as [c Hc]. destruct (context_of_ok ready c ready_context_ok Hc) as [g Hg].
  exists c, g. exact (conj Hc Hg).
Qed.
Lemma generator_prompt_fits_witness : ∃ c g,
  ready = Ok c ∧ generator_context ContextPreparationConfig_default c = Ok g
  ∧ ∀ p, project_generator ContextPreparationConfig_default c = Ok p → trimmed g (gpp_context p).
Proof.
  destruct ready_facts as (c & g & Hc & Hg). exists c, g. split; [exact Hc|]. split; [exact Hg|]. intros p Hp.
  pose proof (generator_prompt_fits ContextPreparationConfig_default c g Hg) as Hf. rewrite Hp in Hf.
  exact (proj1 (proj2 (proj2 Hf))).
Defined.

(** *** The gates *)

(** A limit of 100: the third call waits, the fourth asks for more than the limit after
    a minute and passes without a record. *)
Definition arrivals : list (N * N) := [(0, 60); (10, 40); (20, 1); (60000000010, 500); (60000000020, 100)]%N.
Lemma arrivals_sorted : StronglySorted earlier arrivals.
Proof. repeat constructor; unfold earlier; cbn; lia. Qed.
Lemma arrivals_recorded : gl_passed (log_attempts 100 arrivals) = [(0, 60); (10, 40); (60000000020, 100)]%N.
Proof. by vm_compute. Qed.
Lemma gate_keeps_rate_witness :
  gl_passed (log_attempts 100 arrivals) = [(0, 60); (10, 40); (60000000020, 100)]%N
  ∧ (tokens_at 15 (gl_passed (log_attempts 100 arrivals)) <= 100)%N.
Proof. split; [exact arrivals_recorded|]. apply (gate_keeps_rate 100); [unfold U32_MAX; lia|exact arrivals_sorted]. Defined.
#[local] Instance stages_clock : LawfulClock.
Proof.
  refine {| clock w := sw_now w |}.
  - intros w w' now [= <- <-]. cbn. lia.
  - intros cancellation until w w' r [= <- <-]. cbn. lia.
  - done.
Defined.
Lemma gate_ends_witness : ∃ w' r,
  gate_acquire (H1 := sample_world) Gate_Tokens (Some 100%N) 10 50 0%N start_world = (w', r) ∧ (r = Ok tt ∨ r = Err Llm_Cancelled ∨ r = Err Llm_TurnDeadlineExceeded).
Proof.
  destruct (gate_ends (H1 := sample_world) Gate_Tokens 100 10 50 0%N start_world) as (w' & r & _ & Hr & Hcase). exists w', r.
  split; [exact Hr|exact Hcase].
Defined.
End StagesSample.
